(* ===== verification/_CoqProject ===== *)
-Q . S2P
Prelude.v
Calendar.v
Domain.v
Sampler.v
Frames.v
Regexp.v
Parser.v
JobLog.v
Store.v
Backend.v
FS.v
Crash.v
Sidecars.v
Namespace.v
Graft.v
Rotation.v
CommitSafety.v
Seed.v
ZfsHost.v
Zfs.v
ZfsCommit.v
ZfsSafety.v
ZfsReset.v
Retention.v
Slots.v
Verify.v
Manager.v
Reconcile.v
ReconcileSafety.v
ManagerSafety.v
InfoPlist.v
Engine.v
EngineSafety.v
EngineOutcomes.v
EngineStart.v
EngineRuns.v
Base64.v
Argon2.v
AuthErrors.v
Limiter.v
Net.v
AuthStore.v
Proofs.v
Enrolment.v
WebAuthn.v
AuthService.v
Credentials.v
Passkeys.v
AuthSafety.v
AuthProofs.v
Proxy.v
Routes.v
Guards.v
Events.v
Sockets.v
GuardRuns.v
Tls.v
Muxd.v
Registry.v
DeviceStore.v
RegistrySafety.v
Config.v
StorageProbe.v
ConfigFile.v
ConfigService.v
Storages.v
ConfigSafety.v
StoragesSafety.v
Notify.v
Json.v
Push.v
PushService.v
DeviceTools.v
DeviceOps.v
DeviceOpsSafety.v
VaultSessions.v
VaultSafety.v
VaultBrowse.v
VaultPaging.v
Muxers.v
