(* ===== verification/Prelude.v ===== *)
(** * quince: a verification development of the backup daemon

    quince keeps backups of iPhones and iPads on a home server: a Go daemon (under src/core) that
    supervises a backup tool for each device, commits what the tool wrote as a version of the
    device, prunes and repairs what is stored, lets versions be browsed, and serves it all over HTTP
    to an administrator and to the holders of single devices.  This development models its core in
    Gallina, definition by definition, and proves what the parts promise.

    ** The parts of the program, and how they interact

    Devices are seen through muxers ([Muxd], [Muxers]) and kept in a table ([Registry]) whose
    changes are published on a bus ([Events]) that event sockets ([Sockets]) and the notification
    runner ([Notify]) read.  A job is started over HTTP ([Engine.StartBackup]), bound to a storage
    ([Slots]), and supervised by a goroutine ([Engine.run_proc]) that waits for the device, seeds a
    working tree ([Manager.SeedWork], [Namespace.prepareWorkDir] or [Zfs]), runs the tool, reads its
    output ([Frames], [Parser], [JobLog]) and samples its activity ([Sampler]); a run that succeeds
    is checked ([Verify]), committed ([Namespace.Commit] or [Zfs.Commit] by way of
    [Manager.CommitJob]), registered ([Store]) and pruned ([Retention]).  At start-up interrupted
    commits are rolled forward and the registry is repaired from what the disk holds ([Reconcile]),
    and orphaned jobs are settled ([Engine.Reconcile]).  Outcomes and reminders are pushed to
    browsers ([Push], [PushService]).  A phone is paired and configured by background operations
    ([DeviceTools], [DeviceOps]).  A version is unlocked for a session ([VaultSessions]) and read by
    pages ([VaultBrowse]).  Every request passes the guards of the API ([Guards]), which ask the
    authentication service ([AuthService]) who is calling, over a listener whose certificate may be
    on trial ([Tls]).  What is set by the operator is one file, config.yml, which a service
    validates, writes, follows when it is edited, and tells the rest of the daemon about
    ([ConfigService]); the storages that it declares are probed, created or opened, listed,
    rechecked and forgotten ([StorageProbe], [Storages]), and reconciled by a runner.

    ** Files

    All source paths are under src/core/internal unless they begin with cmd/ or ui/.
    - Shared: [Prelude] (state monad with its weakest preconditions, errors, machine integers, time,
      strings, Go's open map order and unstable sort as classes), [Calendar] (civil dates, RFC
      3339), [Json] (what is used of encoding/json).
    - Values and tables: [Domain] (backup/backup.go, rows of store/), [Store] (store/jobs.go,
      versions.go, audit.go: SQL given its meaning; a statement takes effect or fails whole).
    - The tool: [Sampler] (backup/sampler.go), [Frames] and [Parser] (backup/parser.go, the regular
      expressions run by the matcher of [Regexp]), [JobLog] (backup/joblog.go), [InfoPlist]
      (readStableInfo and awaitInfoPlist of backup/engine.go).
    - Storage: [Backend] (storage/storage.go: the data and the interface, a class), [Slots]
      (slot.go, jobstorage.go, storagemarker.go, preflight.go), [FS] (trees, system calls with
      faults, crashes; layout.go, clonetree), [Crash] (a process that dies at a system call),
      [Sidecars] (markers, journals, work states), [Namespace] (namespace.go, workdir.go), [ZfsHost]
      (zfscli.go: the commands, over a host that is a class) and [Zfs] (zfs.go), [Retention],
      [Verify], [Manager] (subsystem.go, lease.go, reset.go: against the interface of [Backend]
      only), [Reconcile] (reconcile.go), [StorageProbe] (probe.go, inspect.go, hookcheck.go,
      offsite.go, the probes of clonetree), [Storages] (creation.go, storages_api.go, runner.go,
      store/storages.go, the storages' part of cmd/quince/live.go and of the handlers).
    - Their proofs: [Graft] (paths and grafts of trees), [Rotation] (the steps of a commit),
      [CommitSafety], [Seed], [ZfsCommit], [ZfsSafety], [ZfsReset] (with runs), [ManagerSafety],
      [ReconcileSafety], [StoragesSafety] (with runs).
    - The engine: [Engine] (backup/engine.go, supervisor.go: one definition per place of the
      goroutine, inputs for what the world answers, and the step relation of all jobs), and its
      proofs [EngineSafety], [EngineOutcomes] (with progress), [EngineStart], [EngineRuns].
    - Configuration: [Config] (config/schema.go and the validation, the storages' part, the
      connections and profiles a value is turned into), [ConfigFile] (the YAML nodes: unknown and
      renamed keys, what is written back), [ConfigService] (config/service.go: what is in force, the
      saves, the edits of storages and of TLS, the reload), [ConfigSafety].
    - Authentication: [Base64] and [Net] (what is used of Go's encoding/base64 and net), [Argon2]
      (auth/argon2.go), [AuthErrors], [AuthStore] (store/settings.go, passkeys.go, sessions.go,
      device_identity.go, scope.go, pushsubs.go), [Limiter] (ratelimit.go), [Proofs] (proof.go and
      the stores of ceremonies), [Enrolment] (enrolment.go), [WebAuthn] (what the library is handed;
      the library is the class [WebAuthn]), [AuthService] (service.go, principal.go, reset.go),
      [Credentials] (changes and removals of credentials, accepts.go), [Passkeys] (every ceremony);
      their proofs [AuthSafety], [AuthProofs].
    - HTTP: [Proxy] (auth/proxy.go, cookie.go, csrf.go), [Routes] (the tables of httpapi/server.go,
      middleware.go, scope_routes.go, scope_resource.go, with the matching of Go's ServeMux),
      [Guards] (the chain before every handler), [Tls] (tlsx/keeper.go, httpapi/cert_trial.go,
      handlers_certapply.go); [GuardRuns] runs the guards, the authentication service and the
      sockets.
    - Events: [Events] (wire/envelope.go, eventscope.go, bus/bus.go, ws/principal.go), [Sockets]
      (ws/handler.go and the resolution of a socket's principal, a transition system).
    - Devices: [Muxd] (muxd/protocol.go, client.go), [Muxers] (muxsup/supervisor.go, the connection
      of muxd/client.go as health and a rescan see it, cmd/quince/muxers.go), [Registry]
      (device/registry.go), [DeviceStore] (the web client's table: ui/src/stores/devices.ts and
      ui/src/ws/dispatch.ts), [RegistrySafety]; [DeviceTools] (deviceops/deviceops.go, wrappers.go,
      pty.go, muxd/pairrecord.go: programs of actions), [DeviceOps] (deviceops/manager.go,
      enrich.go: threads over the manager), [DeviceOpsSafety].
    - Notifications: [Notify] (notify/, store/device_notify.go), [Push] (push/push.go),
      [PushService] (pushsvc/).
    - Browsing: [VaultSessions] (vault/session.go: goroutines as tasks over mutexes), [VaultSafety],
      [VaultBrowse] (vault/vault.go, cursor.go, unencrypted.go, encrypted.go, the paging of
      vaultsvc/service.go), [VaultPaging] (with runs).

    Definitions keep the names of the source where one Go function is one definition; a loop or a
    branch that needs its own induction has a definition of its own, beside the one that calls it.

    ** What the theorems show

    - Durability: a commit that dies at any system call, or on ZFS at any command, with resumptions
      that die in turn, loses nothing; a death in the middle of writing the journal may leave it
      torn, and then nothing is lost either but the journal has to be read by hand
      ([commit_crash_safe], [zfs_commit_crash_safe], [latest_always_whole], [commit_effect]); no
      sequence of operations on ZFS takes a version away but its own deletion
      ([zfs_versions_survive]), and a reset leaves the head as it was or as the newest version
      ([zfs_reset_exact]); a killed seed is never resumed, a failed job's tree is
      ([killed_seed_redone], [dirty_work_resumed]).
    - Jobs: every row follows the state machine ([job_follows_machine]); success means a committed
      version ([success_is_committed]); a job whose kill was there when the engine looked for it,
      after the tool's end, never commits ([killed_never_commits]; the look and the settling are
      steps of their own); one unfinished job per device ([single_flight]); a job writes where its
      row says ([job_writes_where_its_row_says], [job_never_retargeted]); requests are accepted
      exactly as a reference does ([start_backup_exact]); a job that is not blocked advances
      ([run_advances]); how the wait for the tool ends ([reap_settles]); a restart settles every row
      ([reconcile_settles]).
    - The registry of versions: a commit registers exactly its version, and says so when a statement
      fails half-way ([commit_registers]); retention and deletion touch only what they may, on the
      right storage ([prune_removes_selected], [selectPrunable_iff], [delete_by_own_storage]);
      reconciliation loses nothing and repairs ([reconcile_never_loses], [reconcile_repairs]).
    - What the tool says: frames, narration, byte counts, percentages, activity verdicts
      ([scan_stream_frames], [narrate_runs], [bytes_are_batch_totals], [bytes_never_fall],
      [percent_roundtrip], [sampler_matches_history], [sample_kill_iff], [info_plist_stable]).
    - Storages: a declared storage is created once and never over a marker ([storage_created_once]),
      by a table of what is found ([resolve_exact]); the storages that are served are the declared
      ones ([slots_follow_declaration]); one is forgotten only while nothing needs it
      ([forgotten_when_unused]); requests for a reconciliation are served ([triggers_are_served]);
      inspecting a path changes nothing ([inspect_exact]).
    - Configuration: what is in force is acceptable, whatever is saved, edited or read
      ([in_force_is_acceptable], [Validate_iff]); a save reads back as what is in force
      ([save_reads_back]); a file that is refused changes nothing and is not written over
      ([reload_exact], over the three looks that a tick takes at a file that others may change in
      between; [refused_file_is_kept]); the narrow edits change what they name
      ([storage_edits_exact]); and every subsystem is told of every change in turn
      ([subsystems_follow]).
    - Credentials: a claimed install stays claimed and the admin keeps a way in
      ([admin_keeps_a_way_in]); no credential removes itself ([removal_needs_another_credential]);
      proofs and enrolment secrets are one-shot ([proof_single_use], [enrolment_one_shot]: the
      secret is, two ceremonies that were begun with it may both register); login attempts are
      bounded, under an address the client does not choose, from one accepted login to the next
      ([login_rate_bounded], [client_ip_not_chosen]); stored passwords verify
      ([stored_password_verifies]).
    - Requests and sockets: nothing is reached past the guards, and the holder of a device's passkey
      reaches that device only ([api_confined]); changes need the double submit ([csrf_needed]);
      frames go to who may have them, in order, and stop with the session ([frames_are_authorised],
      [socket_hears_in_order], [ended_session_silenced]).
    - Devices: a client that folds the events has the registry's presence once nothing is left to
      publish, unless two goroutines that had left the lock published in the other order
      ([clients_track_presence], over [Broadcast]); each is listed once ([devices_listed_once]);
      operations follow their machine and end ([operations_follow_machine], [operations_end]), one
      per device ([one_operation_per_device]), and report what was read back ([wifi_sync_truthful]);
      health says of each muxer what its own connection is ([muxers_health_exact]), and a supervised
      one keeps one child and answers ([supervisor_keeps_its_word]).
    - Notifications: reminders keep the cooldown ([reminders_spaced]); each is sent to whom it
      concerns, and a browser that derives its keys as RFC 8291 says recovers it
      ([deliveries_confined], [push_reaches_phone]).
    - TLS: a handshake serves what is on the disk ([handshake_serves_the_disk]); config.yml is
      written only for a trial that was proved ([config_written_when_proved]), and a trial that
      nobody confirms leaves nothing ([trial_leaves_nothing]).
    - Browsing: a vault is used only while it is open, nothing decrypted outlives its session unless
      its removal fails, calls end ([vault_used_while_open], [vault_exclusive],
      [nothing_outlives_its_session], [calls_end]); pages show everything once ([browse_complete],
      [resolvePath_exact]), totals add up and reads are bounded ([overview_adds_up],
      [bounded_read]). The remaining theorems are about paging and choices ([walk_pages_complete],
      [resolve_choice_exact]).  The files of runs also carry out behaviours that the code does not
      mean to have, as [Example]s with a comment that says which.

    ** Parameters, bounds and fuel

    Code that is not in the repository is a parameter: argon2id ([IDKey], with [IDKey_law]), the
    WebAuthn library ([webauthn_law]), the clock, randomness and ids ([AuthEnv]), the plist and
    SQLite readers of [Verify], what ZFS does with a command ([ZfsHost], with [zfs_law]), the curve,
    cipher and hash of a push message ([PushCrypto], [PushCryptoLaw]), the parser of certificates
    ([Certificates]), the YAML package ([Yaml], with [yaml_law]: what is marshalled reads back),
    what the kernel answers to a probe of a path ([medium]), the library that opens an encrypted
    backup and the decoder of its records ([VaultBrowse]).  The backend as the manager sees it is an
    interface ([Backend]).  Each law has a concrete instance in the runs.  Fuel appears in the
    regular-expression matcher (the length of the text is enough), in the walk of a page list (the
    number of rows), in tree recursion (the depth), in the parser of IPv6 (eight groups), in the
    reading of JSON (the length of the text), in the loop that waits for a phone's trust (61 rounds,
    by its deadline and its pause), and in following the cursors (one page more than there are
    entries).  Running the goroutines of the vault to their end takes the number of turns that
    [VaultSafety.work] reads off the state. A supervisor of a muxer stops within eight turns of its
    own, the runner of reconciliations serves a request within four.  Integers of Go's int64 wrap
    where the code computes with them ([wrap64]); times are nanoseconds, and [Time.Sub] saturates.
    Strings are bytes; [%q], [ToUpper] and [TrimSpace] are modelled on single-byte runes.

    Concurrency: the engine's jobs are steps of one relation, interleaved at system calls,
    statements and channel operations; sockets, device operations and vault sessions are transition
    systems of their own.  A call of the API on device operations is one step of theirs; what a
    process or a terminal will answer, and when, is an input that is numbered, and a tool that hangs
    is cut short by the deadline of its context ([DeviceTools]).  The closers of what was derived
    from a vault session are single events that return.  The operations of the authentication
    service and of the certificate trial run whole, one after the other; some are also taken apart
    where they interleave ([GuardRuns], [Tls]).  The saves of the configuration hold one mutex,
    while the file may be edited between any two looks at it; edits of storages and rechecks are
    taken apart and interleave ([storage_op]), a resolution is one step of them, and a forget runs
    whole and is also taken apart ([StoragesSafety]).  What the table of devices has to publish is
    published after the lock is left ([Broadcast]).  The supervisors and the clients of the muxers,
    and the runner of reconciliations, are goroutines whose steps lie between the points where
    others act. File system operations are single steps that may fail or be the last before a crash;
    a file that is being written at the crash may be left torn.  The goroutine that decrypts a file
    into a pipe outlives its reader ([pipe_step]).  Contexts that are cancelled at a shutdown are
    not modelled.

    ** Not modelled

    - Pure plumbing: cmd/quince (but the subscribers of the TLS and storage sections, the declared
      storages and the muxers), wire beyond the values used, webui, demo, the listener that splits
      TLS from HTTP and the inspection of certificates, the origin check of the websocket (a URL
      parser decides it).
    - Of the configuration: the text of the refusal to start, and the probe of the directories.
    - Of the storage package: the helper script on the ZFS host, and its ssh and host keys.
    - Of the store: migrations.  Of vaultsvc: the indexing, the capability report, and the messages
      and handlers around the pages.
    - Of the API: the handlers' bodies beyond the operations above, panics and headers.

    What is left is worth less than what is here: the capability report and the messages of vaultsvc
    call parsers of the phone's databases, the keys of the ZFS transport are files that ssh reads,
    and the handlers turn JSON into calls of what is modelled. *)

From Stdlib Require Export ZArith Lia.
From Stdlib Require Import String Ascii.
From stdpp Require Export base tactics gmap strings list fin_maps pretty sorting.

#[export] Set Default Goal Selector "!".

Declare Scope quince_scope.
Delimit Scope quince_scope with quince.
Open Scope Z_scope.

(** ** The state monad

    Stateful Go code is translated to explicit state passing.  [stateM S A] is the
    type of a computation that threads a state [S]; stdpp's notation [x ← m; k] is
    its bind. *)

Definition stateM (S A : Type) : Type := S → A * S.

#[global] Instance stateM_ret {S} : MRet (stateM S) := λ A a s, (a, s).
#[global] Instance stateM_bind {S} : MBind (stateM S) :=
  λ A B f m s, let '(a, s') := m s in f a s'.

Definition gets {S A} (f : S → A) : stateM S A := λ s, (f s, s).
Definition modify {S} (f : S → S) : stateM S unit := λ s, (tt, f s).

(** [lift_state get put m] runs [m] on the component of the state that [get] and
    [put] focus on. *)
Definition lift_state {S T A} (get : S → T) (put : T → S → S) (m : stateM T A) : stateM S A :=
  λ s, let '(a, t) := m (get s) in (a, put t s).

(** A loop over a list, in list order ([for _, x := range l]). *)
Fixpoint for_each {S A} (f : A → stateM S unit) (l : list A) : stateM S unit :=
  match l with
  | [] => mret tt
  | x :: l' => f x ;; for_each f l'
  end.

(** [wp m Q s]: run from [s], [m] ends with a result and a state that satisfy [Q]. *)
Definition wp {S A} (m : stateM S A) (Q : A → S → Prop) (s : S) : Prop := Q (m s).1 (m s).2.

Lemma wp_ret {S A} (a : A) (Q : A → S → Prop) s : Q a s → wp (mret a) Q s.
Proof. done. Qed.
Lemma wp_bind {S A B} (m : stateM S A) (f : A → stateM S B) Q s :
  wp m (λ a, wp (f a) Q) s → wp (m ≫= f) Q s.
Proof. unfold wp, mbind, stateM_bind. by destruct (m s). Qed.
Lemma wp_gets {S A} (f : S → A) Q s : Q (f s) s → wp (gets f) Q s.
Proof. done. Qed.
Lemma wp_modify {S} (f : S → S) Q s : Q tt (f s) → wp (modify f) Q s.
Proof. done. Qed.
Lemma wp_lift {S T A} (get : S → T) (put : T → S → S) (m : stateM T A) Q s :
  wp m (λ a t, Q a (put t s)) (get s) → wp (lift_state get put m) Q s.
Proof. unfold wp, lift_state. by destruct (m (get s)). Qed.
Lemma wp_mono {S A} (m : stateM S A) (Q Q' : A → S → Prop) s :
  wp m Q s → (∀ a s, Q a s → Q' a s) → wp m Q' s.
Proof. unfold wp. auto. Qed.

(** Go's [range] over a map visits every entry once, in an order it does not specify: a
    development is proved for every such order. *)
Class MapRange : Type := {
  range : ∀ {A : Type}, gmap string A → list (string * A);
  range_perm : ∀ {A : Type} (m : gmap string A), Permutation (range m) (map_to_list m) }.

Lemma elem_of_range `{!MapRange} {A} (m : gmap string A) k x : (k, x) ∈ range m ↔ m !! k = Some x.
Proof. rewrite range_perm. apply elem_of_map_to_list. Qed.

Lemma range_nodup `{!MapRange} {A} (m : gmap string A) : NoDup (range m).*1.
Proof. rewrite range_perm. apply NoDup_fst_map_to_list. Qed.

(** The order of the map's own enumeration, for concrete runs. *)
Definition some_order : MapRange := Build_MapRange (λ A m, map_to_list m) (λ A m, reflexivity _).

(** [sort.Slice] orders a slice and leaves the order of equal elements open. *)
Class SortSlice : Type := {
  sort_slice : ∀ {A : Type} (R : relation A) `{!RelDecision R}, list A → list A;
  sort_slice_perm : ∀ {A : Type} (R : relation A) `{!RelDecision R} (l : list A),
    Permutation (sort_slice R l) l;
  sort_slice_sorted : ∀ {A : Type} (R : relation A) `{!RelDecision R, !Transitive R, !Total R} (l : list A),
    StronglySorted R (sort_slice R l) }.

(** A stable sort, for concrete runs. *)
Lemma merge_sort_sorted {A} (R : relation A) `{!RelDecision R, !Transitive R, !Total R} (l : list A) :
  StronglySorted R (merge_sort R l).
Proof. apply Sorted_StronglySorted; [apply _|]. apply (Sorted_merge_sort _). Qed.

Definition stable_sort : SortSlice :=
  Build_SortSlice (λ A R _ l, merge_sort R l) (λ A R _ l, merge_sort_Permutation R l)
    (λ A R _ _ _ l, merge_sort_sorted R l).

(** ** Errors

    A Go [error] is [option string]: [None] is [nil].  A function that returns a
    value and an error returns a [result]. *)

Abbreviation error := (option string).

Inductive result (A : Type) : Type :=
  | Ok (a : A)
  | Err (msg : string).
Arguments Ok {A} _.
Arguments Err {A} _.

#[global] Instance result_ret : MRet result := λ A a, Ok a.
#[global] Instance result_bind : MBind result :=
  λ A B f m, match m with Ok a => f a | Err e => Err e end.

Definition is_ok {A} (r : result A) : bool :=
  match r with Ok _ => true | Err _ => false end.

(** ** Machine integers *)

(** Two's-complement wrap-around of Go's [int64]. *)
Definition wrap64 (z : Z) : Z := (z + 2 ^ 63) `mod` 2 ^ 64 - 2 ^ 63.

Definition int64_min : Z := - 2 ^ 63.
Definition int64_max : Z := 2 ^ 63 - 1.

Lemma wrap64_id z : int64_min ≤ z ≤ int64_max → wrap64 z = z.
Proof.
  unfold wrap64, int64_min, int64_max. intros H.
  rewrite Z.mod_small; lia.
Qed.

Lemma wrap64_range z : int64_min ≤ wrap64 z ≤ int64_max.
Proof.
  unfold wrap64, int64_min, int64_max.
  pose proof (Z.mod_pos_bound (z + 2 ^ 63) (2 ^ 64)). lia.
Qed.

Lemma wrap64_wrap_l a b : wrap64 (wrap64 a + b) = wrap64 (a + b).
Proof.
  unfold wrap64. f_equal.
  replace ((a + 2 ^ 63) `mod` 2 ^ 64 - 2 ^ 63 + b + 2 ^ 63) with ((a + 2 ^ 63) `mod` 2 ^ 64 + b) by lia.
  rewrite Zplus_mod_idemp_l. f_equal. lia.
Qed.
Lemma wrap64_twice a : wrap64 (wrap64 a) = wrap64 a.
Proof. apply wrap64_id, wrap64_range. Qed.

(** ** Time

    A [time.Time] is its count of nanoseconds since the Unix epoch; a
    [time.Duration] is a 64-bit count of nanoseconds.  [Time.Sub] saturates. *)

Abbreviation time := Z (only parsing).
Abbreviation duration := Z (only parsing).

Definition Nanosecond : duration := 1.
Definition Microsecond : duration := 1000.
Definition Millisecond : duration := 1000000.
Definition Second : duration := 1000000000.
Definition Minute : duration := 60 * Second.
Definition Hour : duration := 60 * Minute.

(** The zero [time.Time] is 1 January of year 1, 00:00:00 UTC. *)
Definition zero_time : time := - 62135596800 * Second.
Definition is_zero_time (t : time) : bool := t =? zero_time.

Definition time_sub (t u : time) : duration :=
  Z.max int64_min (Z.min int64_max (t - u)).

Lemma time_sub_exact t u : int64_min ≤ t - u ≤ int64_max → time_sub t u = t - u.
Proof. unfold time_sub. lia. Qed.

Lemma time_sub_mono t t' u : t ≤ t' → time_sub t u ≤ time_sub t' u.
Proof. unfold time_sub. lia. Qed.

Lemma time_sub_self t : time_sub t t = 0.
Proof. unfold time_sub, int64_min, int64_max. lia. Qed.

(** ** Strings

    A Go string is a sequence of bytes: [string], a list of 8-bit [ascii]. *)

Definition char_of_Z (z : Z) : ascii := ascii_of_nat (Z.to_nat z).
Definition Z_of_char (c : ascii) : Z := Z.of_nat (nat_of_ascii c).

(** [strings.HasPrefix], [strings.Contains]. *)
Definition has_prefix (s prefix : string) : bool := String.prefix prefix s.
Fixpoint str_contains (s sub : string) : bool :=
  has_prefix s sub ||
  match s with
  | EmptyString => false
  | String _ s' => str_contains s' sub
  end.

(** White space of [strings.TrimSpace] on single-byte runes. *)
Definition is_space (c : ascii) : bool :=
  let n := Z_of_char c in ((9 <=? n) && (n <=? 13)) || (n =? 32).

Fixpoint trim_left (s : string) : string :=
  match s with
  | EmptyString => EmptyString
  | String c s' => if is_space c then trim_left s' else s
  end.

Fixpoint trim_right (s : string) : string :=
  match s with
  | EmptyString => EmptyString
  | String c s' =>
      match trim_right s' with
      | EmptyString => if is_space c then EmptyString else String c EmptyString
      | t => String c t
      end
  end.

Definition trim_space (s : string) : string := trim_right (trim_left s).

(** [strings.ToUpper] and [strings.EqualFold] on single-byte runes. *)
Definition upper_char (c : ascii) : ascii :=
  let n := Z_of_char c in
  if (97 <=? n) && (n <=? 122) then char_of_Z (n - 32) else c.
Fixpoint to_upper (s : string) : string :=
  match s with
  | EmptyString => EmptyString
  | String c s' => String (upper_char c) (to_upper s')
  end.
Definition equal_fold (s t : string) : bool := bool_decide (to_upper s = to_upper t).

Definition is_digit (c : ascii) : bool :=
  let n := Z_of_char c in (48 <=? n) && (n <=? 57).
Definition digit_value (c : ascii) : Z := Z_of_char c - 48.
Definition digit_char (d : Z) : ascii := char_of_Z (48 + d).

(** [fmt]'s [%d]. *)
Definition fmt_d (z : Z) : string := pretty z.

(** [fmt]'s [%q] on strings of printable runes: a quoted string in which the quote and the
    backslash are escaped, and tab, newline and carriage return by name. *)
Fixpoint quote_body (s : string) : string :=
  match s with
  | EmptyString => EmptyString
  | String c s' =>
      let n := Z_of_char c in
      if (n =? 34) || (n =? 92) then String "\" (String c (quote_body s'))
      else if n =? 9 then String "\" (String "t" (quote_body s'))
      else if n =? 10 then String "\" (String "n" (quote_body s'))
      else if n =? 13 then String "\" (String "r" (quote_body s'))
      else String c (quote_body s')
  end.
Definition quote (s : string) : string :=
  String (char_of_Z 34) (quote_body s +:+ String (char_of_Z 34) EmptyString).

(** [strings.Join]. *)
Fixpoint join (l : list string) (sep : string) : string :=
  match l with
  | [] => EmptyString
  | [x] => x
  | x :: l' => x +:+ sep +:+ join l' sep
  end.

Lemma app_String c (s t : string) : String c s +:+ t = String c (s +:+ t).
Proof. done. Qed.
Lemma app_Empty (t : string) : EmptyString +:+ t = t.
Proof. done. Qed.

Lemma string_app_assoc (s t u : string) : (s +:+ t) +:+ u = s +:+ (t +:+ u).
Proof. induction s as [|c s IH]; [done|]. exact (f_equal (String c) IH). Qed.

Lemma string_app_nil_r (s : string) : s +:+ EmptyString = s.
Proof. induction s as [|c s IH]; [done|]. exact (f_equal (String c) IH). Qed.

Lemma string_length_app (s t : string) :
  String.length (s +:+ t) = (String.length s + String.length t)%nat.
Proof. induction s as [|c s IH]; [done|]. exact (f_equal S IH). Qed.

Lemma digit_value_char d : 0 ≤ d ≤ 9 → digit_value (digit_char d) = d.
Proof.
  unfold digit_value, digit_char, Z_of_char, char_of_Z. intros H.
  rewrite nat_ascii_embedding by lia. lia.
Qed.

Lemma is_digit_char d : 0 ≤ d ≤ 9 → is_digit (digit_char d) = true.
Proof.
  unfold is_digit, digit_char, Z_of_char, char_of_Z. intros H.
  rewrite nat_ascii_embedding by lia. cbv zeta.
  apply andb_true_intro; split; apply Z.leb_le; lia.
Qed.

(** ** Automation

    [state_simpl] runs the monadic plumbing; [split_matches] takes every remaining
    case distinction apart and closes the contradictory ones. *)

Ltac state_simpl :=
  repeat (unfold mbind, stateM_bind, mret, stateM_ret, gets, modify, lift_state,
            result_bind, result_ret in *; simpl in * ).

Ltac split_matches := repeat (case_match; simplify_eq/=; try done).

Create HintDb quince.
Create Rewrite HintDb quince.
#[export] Hint Resolve wrap64_range time_sub_self : quince.
#[export] Hint Rewrite string_app_assoc string_app_nil_r string_length_app : quince.

(** ** [Duration.String] *)

(** The digits after the decimal point, without trailing zeros. *)
Fixpoint frac_digits (prec : nat) (v : Z) (printing : bool) (acc : string) : bool * string :=
  match prec with
  | O => (printing, acc)
  | S p =>
      let d := v `mod` 10 in
      let printing := printing || negb (d =? 0) in
      frac_digits p (v / 10) printing (if printing then String (digit_char d) acc else acc)
  end.

Definition fmt_frac (prec : nat) (v : Z) : string :=
  let '(printing, s) := frac_digits prec v false EmptyString in
  if printing then String "." s else s.

Definition duration_string (d : duration) : string :=
  let u := Z.abs d in
  let body :=
    if u =? 0 then "0s"
    else if u <? Microsecond then fmt_d u +:+ "ns"
    else if u <? Millisecond then fmt_d (u / Microsecond) +:+ fmt_frac 3 u +:+ "µs"
    else if u <? Second then fmt_d (u / Millisecond) +:+ fmt_frac 6 u +:+ "ms"
    else
      let s := u / Second in
      let secs := fmt_d (s `mod` 60) +:+ fmt_frac 9 u +:+ "s" in
      if s / 60 =? 0 then secs
      else
        let mins := fmt_d ((s / 60) `mod` 60) +:+ "m" +:+ secs in
        if s / 3600 =? 0 then mins else fmt_d (s / 3600) +:+ "h" +:+ mins in
  if d <? 0 then "-" +:+ body else body.

Example duration_string_18m : duration_string (18 * Minute) = "18m0s".
Proof. vm_compute. reflexivity. Qed.
Example duration_string_frac : duration_string (1500 * Millisecond) = "1.5s".
Proof. vm_compute. reflexivity. Qed.

(** ** The byte order of strings

    Go's [<] on strings, which is also SQLite's BINARY collation: lexicographic on bytes. *)

Fixpoint str_ltb (a b : string) : bool :=
  match a, b with
  | EmptyString, String _ _ => true
  | String x a', String y b' =>
      if Z_of_char x =? Z_of_char y then str_ltb a' b' else Z_of_char x <? Z_of_char y
  | _, EmptyString => false
  end.

Definition str_lt (a b : string) : Prop := str_ltb a b = true.
#[global] Instance str_lt_dec : RelDecision str_lt.
Proof. intros a b. unfold str_lt. apply _. Defined.

Lemma Z_of_char_inj x y : Z_of_char x = Z_of_char y → x = y.
Proof.
  unfold Z_of_char. intros H. apply Nat2Z.inj in H.
  by rewrite <-(ascii_nat_embedding x), H, ascii_nat_embedding.
Qed.

#[global] Instance str_lt_irrefl : Irreflexive str_lt.
Proof.
  intros a. unfold complement, str_lt. induction a as [|x a IH]; simpl; [done|].
  by rewrite Z.eqb_refl.
Qed.

#[global] Instance str_lt_trans : Transitive str_lt.
Proof.
  unfold str_lt. intros a. induction a as [|x a IH]; intros [|y b] [|z c]; simpl; try done.
  destruct (Z.eqb_spec (Z_of_char x) (Z_of_char y)), (Z.eqb_spec (Z_of_char y) (Z_of_char z)),
    (Z.eqb_spec (Z_of_char x) (Z_of_char z)); rewrite ?Z.ltb_lt; try lia.
  apply IH.
Qed.

Lemma str_lt_total a b : str_lt a b ∨ a = b ∨ str_lt b a.
Proof.
  unfold str_lt. revert b. induction a as [|x a IH]; intros [|y b]; simpl; auto.
  destruct (Z.eqb_spec (Z_of_char x) (Z_of_char y)) as [E|E];
    destruct (Z.eqb_spec (Z_of_char y) (Z_of_char x)) as [E'|E']; rewrite ?Z.ltb_lt; try lia.
  apply Z_of_char_inj in E as ->. destruct (IH b) as [?|[->|?]]; auto.
Qed.

Definition str_le (a b : string) : Prop := ¬ str_lt b a.
#[global] Instance str_le_dec : RelDecision str_le.
Proof. intros a b. unfold str_le. apply _. Defined.

Lemma str_le_lteq a b : str_le a b ↔ str_lt a b ∨ a = b.
Proof.
  unfold str_le. split.
  - intros H. destruct (str_lt_total a b) as [?|[?|?]]; auto; done.
  - intros [H| ->] H'; [apply (irreflexivity str_lt a); by etrans|by apply (irreflexivity str_lt b)].
Qed.

#[global] Instance str_le_trans : Transitive str_le.
Proof.
  intros a b c. rewrite !str_le_lteq. intros [?| ->] [?| ->]; auto. left. by etrans.
Qed.

#[global] Instance str_le_total : Total str_le.
Proof.
  intros a b. rewrite !str_le_lteq. destruct (str_lt_total a b) as [?|[?|?]]; auto.
Qed.

Lemma str_le_antisym a b : str_le a b → str_le b a → a = b.
Proof. unfold str_le. intros. by destruct (str_lt_total a b) as [?|[?|?]]. Qed.

(** ** Lists *)

Lemma filter_true {A} (P : A → Prop) `{∀ x, Decision (P x)} (l : list A) :
  Forall P l → filter P l = l.
Proof.
  induction 1 as [|x l Hx Hl IH]; [done|]. rewrite filter_cons, decide_True by done. by f_equal.
Qed.

Lemma filter_false {A} (P : A → Prop) `{∀ x, Decision (P x)} (l : list A) :
  Forall (λ x, ¬ P x) l → filter P l = [].
Proof. induction 1 as [|x l Hx Hl IH]; [done|]. by rewrite filter_cons, decide_False. Qed.

Lemma ssorted_filter {A} (R : relation A) (P : A → Prop) `{∀ x, Decision (P x)} (l : list A) :
  StronglySorted R l → StronglySorted R (filter P l).
Proof.
  induction 1 as [|x l Hl IH Hx]; [constructor|]. rewrite filter_cons. case_decide; [|done].
  constructor; [done|]. rewrite Forall_forall in Hx |- *.
  intros y [_ Hy]%list_elem_of_filter. by apply Hx.
Qed.

Lemma filter_ext_in {A} (P Q : A → Prop) `{∀ x, Decision (P x), ∀ x, Decision (Q x)} (l : list A) :
  (∀ x, x ∈ l → P x ↔ Q x) → filter P l = filter Q l.
Proof.
  induction l as [|x l IH]; intros H1; [done|]. rewrite !filter_cons.
  rewrite IH by (intros; apply H1, elem_of_cons; auto).
  destruct (H1 x ltac:(apply elem_of_cons; auto)). repeat case_decide; naive_solver.
Qed.

Lemma nodup_split_eq {A} (l1 l2 k1 k2 : list A) (x : A) :
  NoDup (l1 ++ x :: l2) → l1 ++ x :: l2 = k1 ++ x :: k2 → l1 = k1 ∧ l2 = k2.
Proof.
  intros Hn He. assert (length l1 = length k1) as Hl.
  { eapply NoDup_lookup; [done|by apply list_lookup_middle|]. rewrite He. by apply list_lookup_middle. }
  apply app_inj_1 in He as [-> He]; [|done]. by injection He as ->.
Qed.

Lemma nodup_fmap_eq {A B} (f : A → B) (l : list A) x y :
  NoDup (f <$> l) → x ∈ l → y ∈ l → f x = f y → x = y.
Proof.
  intros Hn Hx Hy He. apply list_elem_of_lookup in Hx as [i Hi], Hy as [j Hj].
  assert (i = j) as ->; [|congruence]. eapply (NoDup_lookup (f <$> l)); [done|..];
    rewrite list_lookup_fmap_Some; eauto.
Qed.
