(* ===== verification/Calendar.v ===== *)
(** * Calendar: the part of Go's [time] package that quince's names rest on

    Version directories, snapshot names, markers and registry columns all hold
    formatted UTC times.  This file models [Time.Format], [time.Parse] and
    [Time.ISOWeek] at the layouts the source uses, and proves that parsing undoes
    formatting. *)

From Stdlib Require Import String Ascii.
From S2P Require Import Prelude.

Record civil : Type := Civil { c_year : Z; c_month : Z; c_day : Z }.

(** The proleptic Gregorian date of a day number (days since the Unix epoch), with
    years that start in March so that the leap day comes last. *)
Definition civil_of_days (n : Z) : civil :=
  let z := n + 719468 in
  let era := z / 146097 in
  let doe := z `mod` 146097 in
  let yoe := (doe - doe / 1460 + doe / 36524 - doe / 146096) / 365 in
  let doy := doe - (365 * yoe + yoe / 4 - yoe / 100) in
  let mp := (5 * doy + 2) / 153 in
  let d := doy - (153 * mp + 2) / 5 + 1 in
  let m := if mp <? 10 then mp + 3 else mp - 9 in
  Civil (yoe + era * 400 + (if m <=? 2 then 1 else 0)) m d.

Definition days_of_civil (c : civil) : Z :=
  let y := c_year c - (if c_month c <=? 2 then 1 else 0) in
  let era := y / 400 in
  let yoe := y `mod` 400 in
  let mp := if 2 <? c_month c then c_month c - 3 else c_month c + 9 in
  let doy := (153 * mp + 2) / 5 + c_day c - 1 in
  let doe := yoe * 365 + yoe / 4 - yoe / 100 + doy in
  era * 146097 + doe - 719468.

Lemma year_of_era_bounds doe :
  0 ≤ doe < 146097 →
  let yoe := (doe - doe / 1460 + doe / 36524 - doe / 146096) / 365 in
  0 ≤ yoe < 400 ∧ 0 ≤ doe - (365 * yoe + yoe / 4 - yoe / 100) ≤ 365.
Proof. simpl. intros H. Z.to_euclidean_division_equations. lia. Qed.

Lemma days_of_civil_of_days n : days_of_civil (civil_of_days n) = n.
Proof.
  unfold days_of_civil, civil_of_days. simpl.
  remember ((n + 719468) `mod` 146097) as doe eqn:Edoe.
  remember ((n + 719468) / 146097) as era eqn:Eera.
  assert (n = era * 146097 + doe - 719468) as Hn
    by (subst doe era; pose proof (Z.div_mod (n + 719468) 146097); lia).
  assert (0 ≤ doe < 146097) as Hdoe by (subst doe; apply Z.mod_pos_bound; lia).
  pose proof (year_of_era_bounds doe Hdoe) as [Hyoe Hdoy]. simpl in *.
  remember ((doe - doe / 1460 + doe / 36524 - doe / 146096) / 365) as yoe eqn:Eyoe.
  remember (doe - (365 * yoe + yoe / 4 - yoe / 100)) as doy eqn:Edoy.
  remember ((5 * doy + 2) / 153) as mp eqn:Emp.
  assert (0 ≤ mp ≤ 11) as Hmp by (subst mp; Z.to_euclidean_division_equations; lia).
  clear Eyoe Emp Edoe Eera.
  assert ((yoe + era * 400) / 400 = era ∧ (yoe + era * 400) `mod` 400 = yoe) as [Hd Hm].
  { rewrite Z.div_add, Z_mod_plus_full, Z.div_small, Z.mod_small by lia. lia. }
  destruct (Z.ltb_spec mp 10);
    repeat match goal with
      |- context [if ?a <=? ?b then _ else _] => destruct (Z.leb_spec a b); try lia
    | |- context [if ?a <? ?b then _ else _] => destruct (Z.ltb_spec a b); try lia end.
  all: rewrite ?Z.add_simpl_r, ?Z.sub_add, Hd, Hm; lia.
Qed.

(** ** Formatting *)

Definition pad2 (z : Z) : string :=
  String (digit_char (z / 10)) (String (digit_char (z `mod` 10)) EmptyString).

(** The four-digit year of a layout's [2006]; a year outside 0..9999 is printed in full. *)
Definition pad_year (y : Z) : string :=
  if (0 <=? y) && (y <=? 9999) then pad2 (y / 100) +:+ pad2 (y `mod` 100) else fmt_d y.

Definition unix_seconds (t : time) : Z := t / Second.
Definition day_number (t : time) : Z := unix_seconds t / 86400.
Definition second_of_day (t : time) : Z := unix_seconds t `mod` 86400.

(** [t.UTC().Format("2006-01-02")]. *)
Definition fmt_date (t : time) : string :=
  let c := civil_of_days (day_number t) in
  pad_year (c_year c) +:+ "-" +:+ pad2 (c_month c) +:+ "-" +:+ pad2 (c_day c).

(** The clock, with [sep] between its fields. *)
Definition fmt_clock (sep : string) (t : time) : string :=
  let s := second_of_day t in
  pad2 (s / 3600) +:+ sep +:+ pad2 (s `mod` 3600 / 60) +:+ sep +:+ pad2 (s `mod` 60).

(** [t.UTC().Format(time.RFC3339)]: fractions of a second are dropped. *)
Definition fmt_rfc3339 (t : time) : string := fmt_date t +:+ "T" +:+ fmt_clock ":" t +:+ "Z".

(** [t.UTC().Format("2006-01-02T15-04-05Z")], the layout of a [versions/<ts>] directory. *)
Definition fmt_ts_dir (t : time) : string := fmt_date t +:+ "T" +:+ fmt_clock "-" t +:+ "Z".

(** [t.UTC().Format("2006-01-02T15-04")], the date part of a snapshot name. *)
Definition fmt_snap_date (t : time) : string :=
  let s := second_of_day t in
  fmt_date t +:+ "T" +:+ pad2 (s / 3600) +:+ "-" +:+ pad2 (s `mod` 3600 / 60).

(** [t.ISOWeek()]: the week belongs to the year that holds its Thursday. *)
Definition iso_week_of_day (n : Z) : Z * Z :=
  let thursday := n + 3 - (n + 3) `mod` 7 in
  let y := c_year (civil_of_days thursday) in
  (y, (thursday - days_of_civil (Civil y 1 1)) / 7 + 1).
Definition iso_week (t : time) : Z * Z := iso_week_of_day (day_number t).

(** ** Parsing

    [time.Parse] at the two layouts above that hold a full time, on the canonical UTC
    form that formatting writes. *)

Fixpoint parse_digits (n : nat) (acc : Z) (s : string) : option (Z * string) :=
  match n, s with
  | O, _ => Some (acc, s)
  | S n', String c s' =>
      if is_digit c then parse_digits n' (acc * 10 + digit_value c) s' else None
  | S _, EmptyString => None
  end.

Fixpoint parse_lit (lit s : string) : option string :=
  match lit, s with
  | EmptyString, _ => Some s
  | String a lit', String b s' => if bool_decide (a = b) then parse_lit lit' s' else None
  | String _ _, EmptyString => None
  end.

Definition valid_civil (c : civil) : bool :=
  bool_decide (c_year (civil_of_days (days_of_civil c)) = c_year c) &&
  bool_decide (c_month (civil_of_days (days_of_civil c)) = c_month c) &&
  bool_decide (c_day (civil_of_days (days_of_civil c)) = c_day c).

Definition time_of (c : civil) (h m s : Z) : time :=
  (days_of_civil c * 86400 + h * 3600 + m * 60 + s) * Second.

Definition parse_time (sep : string) (str : string) : option time :=
  '(y, str) ← parse_digits 4 0 str; str ← parse_lit "-" str;
  '(mo, str) ← parse_digits 2 0 str; str ← parse_lit "-" str;
  '(d, str) ← parse_digits 2 0 str; str ← parse_lit "T" str;
  '(h, str) ← parse_digits 2 0 str; str ← parse_lit sep str;
  '(mi, str) ← parse_digits 2 0 str; str ← parse_lit sep str;
  '(s, str) ← parse_digits 2 0 str; str ← parse_lit "Z" str;
  if bool_decide (str = EmptyString) && valid_civil (Civil y mo d)
     && (h <? 24) && (mi <? 60) && (s <? 60)
  then Some (time_of (Civil y mo d) h mi s) else None.

Definition parse_rfc3339 : string → option time := parse_time ":".
Definition parse_ts_dir : string → option time := parse_time "-".

(** ** Parsing undoes formatting *)

Lemma parse_digits_pad2 n acc z s :
  0 ≤ z ≤ 99 → parse_digits (S (S n)) acc (pad2 z +:+ s) = parse_digits n (acc * 100 + z) s.
Proof.
  intros Hz. unfold pad2.
  assert (0 ≤ z / 10 ≤ 9 ∧ 0 ≤ z `mod` 10 ≤ 9) as [? ?]
    by (Z.to_euclidean_division_equations; lia).
  change (parse_digits (S (S n)) acc
    (String (digit_char (z / 10)) (String (digit_char (z `mod` 10)) s)) = parse_digits n (acc * 100 + z) s).
  simpl. rewrite !is_digit_char, !digit_value_char by done.
  f_equal. Z.to_euclidean_division_equations. lia.
Qed.

Lemma parse_digits_year y s :
  0 ≤ y ≤ 9999 → parse_digits 4 0 (pad_year y +:+ s) = Some (y, s).
Proof.
  intros Hy. unfold pad_year. rewrite (proj2 (andb_true_iff _ _)) by lia.
  rewrite string_app_assoc, parse_digits_pad2, parse_digits_pad2
    by (Z.to_euclidean_division_equations; lia).
  simpl. do 2 f_equal. Z.to_euclidean_division_equations. lia.
Qed.

Lemma parse_digits_2 z s : 0 ≤ z ≤ 99 → parse_digits 2 0 (pad2 z +:+ s) = Some (z, s).
Proof. intros Hz. rewrite parse_digits_pad2 by done. done. Qed.

Lemma parse_lit_app lit s : parse_lit lit (lit +:+ s) = Some s.
Proof.
  induction lit as [|c lit IH]; [done|].
  change (parse_lit (String c lit) (String c (lit +:+ s)) = Some s). simpl.
  by rewrite bool_decide_true.
Qed.

Lemma civil_bounds n :
  0 ≤ c_month (civil_of_days n) ≤ 99 ∧ 0 ≤ c_day (civil_of_days n) ≤ 99.
Proof.
  unfold civil_of_days. simpl.
  pose proof (year_of_era_bounds ((n + 719468) `mod` 146097)) as [_ H];
    [apply Z.mod_pos_bound; lia|]. simpl in H.
  match type of H with 0 ≤ ?d ≤ _ => generalize dependent d end.
  intros doy Hdoy. case_match; Z.to_euclidean_division_equations; lia.
Qed.

Lemma valid_civil_of_days n : valid_civil (civil_of_days n) = true.
Proof. unfold valid_civil. rewrite days_of_civil_of_days, !bool_decide_true; done. Qed.

(** The seconds of [t], recomposed from the fields that formatting prints. *)
Lemma time_of_fields t :
  let s := second_of_day t in
  time_of (civil_of_days (day_number t)) (s / 3600) (s `mod` 3600 / 60) (s `mod` 60)
  = t - t `mod` Second.
Proof.
  simpl. unfold time_of. rewrite days_of_civil_of_days.
  unfold second_of_day, day_number, unix_seconds, Second.
  Z.to_euclidean_division_equations. lia.
Qed.

(** Runs a bind of [option] whose computation is known. *)
Ltac bind_some := cbn [mbind option_bind].

Definition printable_year (t : time) : Prop := 0 ≤ c_year (civil_of_days (day_number t)) ≤ 9999.

Lemma parse_time_fmt sep t :
  printable_year t →
  parse_time sep (fmt_date t +:+ "T" +:+ fmt_clock sep t +:+ "Z") = Some (t - t `mod` Second).
Proof.
  intros Hy. unfold parse_time, fmt_date, fmt_clock.
  pose proof (civil_bounds (day_number t)) as [Hm Hd].
  assert (0 ≤ second_of_day t < 86400) as Hs by (apply Z.mod_pos_bound; lia).
  pose proof (time_of_fields t) as Ht. simpl in Ht.
  set (s := second_of_day t) in *. set (c := civil_of_days (day_number t)) in *.
  rewrite !string_app_assoc. unfold printable_year in Hy. fold c in Hy.
  assert (0 ≤ s / 3600 < 24 ∧ 0 ≤ s `mod` 3600 / 60 < 60 ∧ 0 ≤ s `mod` 60 < 60) as (?&?&?)
    by (Z.to_euclidean_division_equations; lia).
  rewrite parse_digits_year by done. bind_some. rewrite parse_lit_app. bind_some.
  do 2 (rewrite parse_digits_2 by lia; bind_some; rewrite parse_lit_app; bind_some).
  do 2 (rewrite parse_digits_2 by lia; bind_some; rewrite parse_lit_app; bind_some).
  rewrite parse_digits_2 by lia. bind_some.
  replace (parse_lit "Z" "Z") with (Some EmptyString) by done. bind_some.
  replace (Civil (c_year c) (c_month c) (c_day c)) with c by (by destruct c).
  subst c. rewrite valid_civil_of_days, bool_decide_true by done.
  repeat (rewrite (proj2 (Z.ltb_lt _ _)) by lia). simpl. by rewrite Ht.
Qed.

Lemma parse_fmt_rfc3339 t :
  printable_year t → parse_rfc3339 (fmt_rfc3339 t) = Some (t - t `mod` Second).
Proof. apply parse_time_fmt. Qed.

Lemma parse_fmt_ts_dir t :
  printable_year t → parse_ts_dir (fmt_ts_dir t) = Some (t - t `mod` Second).
Proof. apply parse_time_fmt. Qed.

(** Two days have the same ISO week exactly when they share their Monday-to-Sunday week. *)
Lemma iso_week_same n m : iso_week_of_day n = iso_week_of_day m ↔ (n + 3) / 7 = (m + 3) / 7.
Proof.
  unfold iso_week_of_day. split.
  - intros H. injection H as Hy Hw. rewrite <-Hy in Hw.
    remember (days_of_civil _) as j eqn:Ej. clear Hy Ej.
    Z.to_euclidean_division_equations. lia.
  - intros H. replace (m + 3 - (m + 3) `mod` 7) with (n + 3 - (n + 3) `mod` 7); [done|].
    Z.to_euclidean_division_equations. lia.
Qed.

(** [fmt.Sprintf("%02d", n)] for a week number. *)
Definition fmt_02d (z : Z) : string :=
  if (0 <=? z) && (z <=? 99) then pad2 z else fmt_d z.

Lemma fmt_date_day t t' : day_number t = day_number t' → fmt_date t = fmt_date t'.
Proof. unfold fmt_date. by intros ->. Qed.

Lemma fmt_date_inj t t' :
  printable_year t → printable_year t' → fmt_date t = fmt_date t' → day_number t = day_number t'.
Proof.
  intros Ht Ht' H. unfold fmt_date, printable_year in *.
  pose proof (civil_bounds (day_number t)) as [Hm Hd].
  pose proof (civil_bounds (day_number t')) as [Hm' Hd'].
  rewrite <-(days_of_civil_of_days (day_number t)), <-(days_of_civil_of_days (day_number t')).
  f_equal. revert H Hm Hd Hm' Hd' Ht Ht'.
  generalize (civil_of_days (day_number t)) (civil_of_days (day_number t')).
  intros [y m d] [y' m' d'] H Hm Hd Hm' Hd' Hy Hy'. cbn [c_year c_month c_day] in *.
  assert (∀ y m d, 0 ≤ y ≤ 9999 → 0 ≤ m ≤ 99 → 0 ≤ d ≤ 99 →
    ('(y, s) ← parse_digits 4 0 (pad_year y +:+ "-" +:+ pad2 m +:+ "-" +:+ pad2 d +:+ EmptyString);
     s ← parse_lit "-" s; '(m, s) ← parse_digits 2 0 s; s ← parse_lit "-" s;
     '(d, s) ← parse_digits 2 0 s; Some (y, m, d)) = Some (y, m, d)) as Hp.
  { clear. intros y m d ???. rewrite parse_digits_year by done. bind_some.
    rewrite parse_lit_app. bind_some. rewrite parse_digits_2 by done. bind_some.
    rewrite parse_lit_app. bind_some. rewrite parse_digits_2 by done. done. }
  pose proof (Hp y m d Hy Hm Hd) as Hp1. rewrite string_app_nil_r, H in Hp1.
  pose proof (Hp y' m' d' Hy' Hm' Hd') as Hp2. rewrite string_app_nil_r in Hp2.
  congruence.
Qed.

(** Known dates. *)
Example epoch_format : fmt_rfc3339 0 = "1970-01-01T00:00:00Z".
Proof. vm_compute. reflexivity. Qed.
Example leap_day_format : fmt_ts_dir (1709164800 * Second) = "2024-02-29T00-00-00Z".
Proof. vm_compute. reflexivity. Qed.
Example iso_week_2027 : iso_week (1798761600 * Second) = (2026, 53).
Proof. vm_compute. reflexivity. Qed.
Example parse_bad_day : parse_rfc3339 "2026-02-30T00:00:00Z" = None.
Proof. vm_compute. reflexivity. Qed.
