(* ===== verification/Domain.v ===== *)
(** * Domain: the values that quince's components exchange

    Job rows, device cards and version rows, with the constants that name states,
    phases and error codes (core/internal/backup/backup.go, core/internal/store,
    core/internal/wire). *)

From Stdlib Require Import String Ascii.
From S2P Require Import Prelude Calendar.

(** ** Transports, job states, liveness, phases and error codes *)

Definition TransportUSB : string := "usb".
Definition TransportWiFi : string := "wifi".
Definition TransportAuto : string := "auto".

Definition StateQueued : string := "queued".
Definition StateWaitingForDevice : string := "waiting_for_device".
Definition StatePreflight : string := "preflight".
Definition StateSeeding : string := "seeding".
Definition StateBackingUp : string := "backing_up".
Definition StateVerifying : string := "verifying".
Definition StateCommitting : string := "committing".
Definition StateSucceeded : string := "succeeded".
Definition StateFailed : string := "failed".
Definition StateCancelled : string := "cancelled".
Definition StateConnectionLost : string := "connection_lost".

Definition LivenessActive : string := "active".
Definition LivenessSilentConnected : string := "silent_but_connected".
Definition LivenessSuspectedStall : string := "suspected_stall".
Definition LivenessNone : string := "".

Definition PhaseSeeding : string := "seeding".
Definition PhaseStarting : string := "starting".
Definition PhaseReceiving : string := "receiving".
Definition PhaseWaitingForPasscode : string := "waiting_for_passcode".
Definition PhaseDone : string := "done".

Definition ErrDeviceDisconnected : string := "device_disconnected".
Definition ErrDeviceNotVisible : string := "device_not_visible".
Definition ErrNotPaired : string := "not_paired".
Definition ErrEncryptionRequired : string := "encryption_required".
Definition ErrDiskLow : string := "disk_low".
Definition ErrVerifyFailed : string := "verify_failed".
Definition ErrCommitFailed : string := "commit_failed".
Definition ErrBackupFailed : string := "backup_failed".
Definition ErrInterrupted : string := "interrupted".
Definition ErrCancelled : string := "cancelled".

Definition AllErrorCodes : list string :=
  [ErrDeviceDisconnected; ErrDeviceNotVisible; ErrNotPaired; ErrEncryptionRequired;
   ErrDiskLow; ErrVerifyFailed; ErrCommitFailed; ErrBackupFailed; ErrInterrupted; ErrCancelled].

(** ** Engine tunables *)

Definition toolReceiveTimeout : duration := 15 * Minute.
Definition gib : Z := 2 ^ 30.

Record Config : Type := mkConfig {
  LivenessTimeout : duration;
  SampleInterval : duration;
  WaitForDeviceTimeout : duration;
  ProgressThrottle : duration;
  DiskLowFreeBytes : Z;            (* uint64 *)
  RequireEncryption : bool;
  PreferredTransport : string }.

Definition DefaultConfig : Config :=
  mkConfig (18 * Minute) (2 * Second) (60 * Second) (500 * Millisecond) (2 * gib) true TransportUSB.

(** ** Registry rows

    [percent] holds the integral percentages the parser reads; a pointer field is an
    [option]. *)

Record JobRow : Type := mkJobRow {
  job_ID : string;
  job_UDID : string;
  job_Kind : string;
  job_Transport : string;
  job_State : string;
  job_Phase : string;
  job_Percent : option Z;
  job_BytesDone : Z;               (* int64 *)
  job_BytesTotal : Z;              (* int64 *)
  job_FilesReceived : Z;           (* int64 *)
  job_Liveness : string;
  job_StartedAt : time;
  job_FinishedAt : option time;
  job_ErrorCode : string;
  job_ErrorMessage : string;
  job_RetryOf : option string;
  job_StorageID : option string;
  job_IntentID : string;
  job_Attempt : Z;
  job_VersionID : option string }.

#[global] Instance JobRow_eq_dec : EqDecision JobRow.
Proof. solve_decision. Defined.

Definition terminalJobStates : list string :=
  [StateSucceeded; StateFailed; StateCancelled; StateConnectionLost].

Definition JobIsTerminal (state : string) : bool := bool_decide (state ∈ terminalJobStates).

Record VersionRow : Type := mkVersionRow {
  ver_ID : string;
  ver_UDID : string;
  ver_Backend : string;
  ver_ZFSSnapshot : option string;
  ver_CreatedAt : time;
  ver_JobID : option string;
  ver_Kind : string;
  ver_Encrypted : bool;
  ver_IsLatest : bool;
  ver_StructureVerifiedAt : option time;
  ver_ContentVerifiedAt : option time;
  ver_LogicalBytes : Z;            (* int64 *)
  ver_Missing : bool;
  ver_StorageID : option string }.

#[global] Instance VersionRow_eq_dec : EqDecision VersionRow.
Proof. solve_decision. Defined.

(** ** Wire objects *)

Record Transports : Type := mkTransports { tr_USB : option string; tr_WiFi : option string }.

Record LastBackup : Type := mkLastBackup {
  lb_At : string; lb_JobID : option string; lb_Status : string }.

Record Device : Type := mkDevice {
  dev_UDID : string;
  dev_Name : string;
  dev_Model : string;
  dev_IOSVersion : string;
  dev_Transports : Transports;
  dev_Paired : string;
  dev_BackupEncryption : string;
  dev_WifiSync : string;
  dev_NotificationsEnabled : bool;
  dev_LastSeen : string;
  dev_LastBackup : option LastBackup }.

Record JobProgress : Type := mkJobProgress {
  jp_Phase : string; jp_Percent : option Z; jp_BytesDone : Z; jp_BytesTotal : Z;
  jp_FilesReceived : Z; jp_Liveness : string }.

Record JobError : Type := mkJobError { je_Code : string; je_Message : string }.

Record Job : Type := mkJob {
  wj_ID : string; wj_UDID : string; wj_Kind : string; wj_Transport : string; wj_State : string;
  wj_Progress : JobProgress; wj_StartedAt : string; wj_FinishedAt : option string;
  wj_Error : option JobError; wj_RetryOf : option string; wj_StorageID : option string;
  wj_IntentID : string; wj_Attempt : Z; wj_VersionID : option string }.

Record Version : Type := mkVersion {
  wv_ID : string; wv_UDID : string; wv_Backend : string; wv_ZFSSnapshot : option string;
  wv_BrowseRoot : option (list string);      (* [None] is the empty string *)
  wv_CreatedAt : string; wv_JobID : option string; wv_Kind : string; wv_Encrypted : bool;
  wv_IsLatest : bool; wv_StructureVerifiedAt : option string; wv_ContentVerifiedAt : option string;
  wv_LogicalBytes : Z; wv_Missing : bool; wv_StorageID : option string }.

(** The zero [wire.Job] that an error return carries. *)
Definition zero_Job : Job :=
  mkJob "" "" "" "" "" (mkJobProgress "" None 0 0 0 "") "" None None None None "" 0 None.

Definition fmtRFC (t : time) : string := fmt_rfc3339 t.

Definition strptr (s : string) : option string := if bool_decide (s = "") then None else Some s.

Definition jobToWire (r : JobRow) : Job :=
  mkJob (job_ID r) (job_UDID r) (job_Kind r) (job_Transport r) (job_State r)
    (mkJobProgress (job_Phase r) (job_Percent r) (job_BytesDone r) (job_BytesTotal r)
       (job_FilesReceived r) (job_Liveness r))
    (fmtRFC (job_StartedAt r))
    (fmtRFC <$> job_FinishedAt r)
    (if bool_decide (job_ErrorCode r = "") then None
     else Some (mkJobError (job_ErrorCode r) (job_ErrorMessage r)))
    (job_RetryOf r) (job_StorageID r) (job_IntentID r) (job_Attempt r) (job_VersionID r).

(** [presentOn]: the device is visible on a concrete transport. *)
Definition presentOn (dev : Device) (transport : string) : bool :=
  if bool_decide (transport = TransportUSB) then bool_decide (is_Some (tr_USB (dev_Transports dev)))
  else if bool_decide (transport = TransportWiFi) then bool_decide (is_Some (tr_WiFi (dev_Transports dev)))
  else false.

(** [udidPattern], [^[A-Za-z0-9-]{8,64}$]. *)
Definition udid_char (c : ascii) : bool :=
  let n := Z_of_char c in
  ((65 <=? n) && (n <=? 90)) || ((97 <=? n) && (n <=? 122)) || is_digit c || (n =? 45).
Fixpoint all_chars (p : ascii → bool) (s : string) : bool :=
  match s with EmptyString => true | String c s' => p c && all_chars p s' end.
Definition validUDID (u : string) : bool :=
  all_chars udid_char u && (8 <=? String.length u)%nat && (String.length u <=? 64)%nat.

(** ** Record updates of a job row *)

Definition with_state (s : string) (r : JobRow) : JobRow :=
  mkJobRow (job_ID r) (job_UDID r) (job_Kind r) (job_Transport r) s (job_Phase r)
    (job_Percent r) (job_BytesDone r) (job_BytesTotal r) (job_FilesReceived r) (job_Liveness r)
    (job_StartedAt r) (job_FinishedAt r) (job_ErrorCode r) (job_ErrorMessage r) (job_RetryOf r)
    (job_StorageID r) (job_IntentID r) (job_Attempt r) (job_VersionID r).
Definition with_phase (p : string) (r : JobRow) : JobRow :=
  mkJobRow (job_ID r) (job_UDID r) (job_Kind r) (job_Transport r) (job_State r) p
    (job_Percent r) (job_BytesDone r) (job_BytesTotal r) (job_FilesReceived r) (job_Liveness r)
    (job_StartedAt r) (job_FinishedAt r) (job_ErrorCode r) (job_ErrorMessage r) (job_RetryOf r)
    (job_StorageID r) (job_IntentID r) (job_Attempt r) (job_VersionID r).
Definition with_liveness (l : string) (r : JobRow) : JobRow :=
  mkJobRow (job_ID r) (job_UDID r) (job_Kind r) (job_Transport r) (job_State r) (job_Phase r)
    (job_Percent r) (job_BytesDone r) (job_BytesTotal r) (job_FilesReceived r) l
    (job_StartedAt r) (job_FinishedAt r) (job_ErrorCode r) (job_ErrorMessage r) (job_RetryOf r)
    (job_StorageID r) (job_IntentID r) (job_Attempt r) (job_VersionID r).
Definition with_percent (p : option Z) (r : JobRow) : JobRow :=
  mkJobRow (job_ID r) (job_UDID r) (job_Kind r) (job_Transport r) (job_State r) (job_Phase r)
    p (job_BytesDone r) (job_BytesTotal r) (job_FilesReceived r) (job_Liveness r)
    (job_StartedAt r) (job_FinishedAt r) (job_ErrorCode r) (job_ErrorMessage r) (job_RetryOf r)
    (job_StorageID r) (job_IntentID r) (job_Attempt r) (job_VersionID r).
Definition with_bytes (done total : Z) (r : JobRow) : JobRow :=
  mkJobRow (job_ID r) (job_UDID r) (job_Kind r) (job_Transport r) (job_State r) (job_Phase r)
    (job_Percent r) done total (job_FilesReceived r) (job_Liveness r)
    (job_StartedAt r) (job_FinishedAt r) (job_ErrorCode r) (job_ErrorMessage r) (job_RetryOf r)
    (job_StorageID r) (job_IntentID r) (job_Attempt r) (job_VersionID r).
Definition with_files (n : Z) (r : JobRow) : JobRow :=
  mkJobRow (job_ID r) (job_UDID r) (job_Kind r) (job_Transport r) (job_State r) (job_Phase r)
    (job_Percent r) (job_BytesDone r) (job_BytesTotal r) n (job_Liveness r)
    (job_StartedAt r) (job_FinishedAt r) (job_ErrorCode r) (job_ErrorMessage r) (job_RetryOf r)
    (job_StorageID r) (job_IntentID r) (job_Attempt r) (job_VersionID r).
Definition with_finished (t : time) (r : JobRow) : JobRow :=
  mkJobRow (job_ID r) (job_UDID r) (job_Kind r) (job_Transport r) (job_State r) (job_Phase r)
    (job_Percent r) (job_BytesDone r) (job_BytesTotal r) (job_FilesReceived r) (job_Liveness r)
    (job_StartedAt r) (Some t) (job_ErrorCode r) (job_ErrorMessage r) (job_RetryOf r)
    (job_StorageID r) (job_IntentID r) (job_Attempt r) (job_VersionID r).
Definition with_error (code msg : string) (r : JobRow) : JobRow :=
  mkJobRow (job_ID r) (job_UDID r) (job_Kind r) (job_Transport r) (job_State r) (job_Phase r)
    (job_Percent r) (job_BytesDone r) (job_BytesTotal r) (job_FilesReceived r) (job_Liveness r)
    (job_StartedAt r) (job_FinishedAt r) code msg (job_RetryOf r)
    (job_StorageID r) (job_IntentID r) (job_Attempt r) (job_VersionID r).
Definition with_version (v : option string) (r : JobRow) : JobRow :=
  mkJobRow (job_ID r) (job_UDID r) (job_Kind r) (job_Transport r) (job_State r) (job_Phase r)
    (job_Percent r) (job_BytesDone r) (job_BytesTotal r) (job_FilesReceived r) (job_Liveness r)
    (job_StartedAt r) (job_FinishedAt r) (job_ErrorCode r) (job_ErrorMessage r) (job_RetryOf r)
    (job_StorageID r) (job_IntentID r) (job_Attempt r) v.
Definition with_retry (prev : option string) (intent : string) (attempt : Z) (r : JobRow) : JobRow :=
  mkJobRow (job_ID r) (job_UDID r) (job_Kind r) (job_Transport r) (job_State r) (job_Phase r)
    (job_Percent r) (job_BytesDone r) (job_BytesTotal r) (job_FilesReceived r) (job_Liveness r)
    (job_StartedAt r) (job_FinishedAt r) (job_ErrorCode r) (job_ErrorMessage r) prev
    (job_StorageID r) intent attempt (job_VersionID r).

(** The production liveness backstop outlasts the tool's own receive timeout. *)
Lemma liveness_backstop_exceeds_tool_timeout :
  toolReceiveTimeout < LivenessTimeout DefaultConfig.
Proof. vm_compute. reflexivity. Qed.
