(* ===== verification/Sampler.v ===== *)
(** * Sampler: the liveness sampler of a running backup

    Models core/internal/backup/sampler.go.  A tick reads the work tree's fingerprint and the
    free space of its filesystem, which are inputs here, and stages the job's liveness.  The
    theorems relate the sampler's small state to the whole history of ticks. *)

From Stdlib Require Import String Ascii.
From S2P Require Import Prelude Domain.

Record treeFingerprint : Type := mkFP {
  fp_count : Z; fp_dirMtime : Z; fp_manifestSize : Z; fp_manifestMtime : Z }.

#[global] Instance treeFingerprint_eq_dec : EqDecision treeFingerprint.
Proof. solve_decision. Defined.

(** [cheapFingerprint] from the three system calls it makes: the stat of the directory
    (its mtime), its entries, and the stat of [Manifest.db] (size and mtime); [None] is a
    call that failed. *)
Definition cheapFingerprint (dir_stat : option Z) (entries : option (list string))
    (manifest_stat : option (Z * Z)) : treeFingerprint :=
  mkFP (match entries with Some es => Z.of_nat (length es) | None => 0 end)
    (default 0 dir_stat)
    (match manifest_stat with Some (size, _) => size | None => 0 end)
    (match manifest_stat with Some (_, mtime) => mtime | None => 0 end).

Record sampler : Type := mkSampler {
  smp_cfg : Config;
  lastFP : treeFingerprint;
  lastChange : time;
  started : bool;
  warnedLow : bool }.

Definition newSampler (cfg : Config) (fp : treeFingerprint) (now : time) : sampler :=
  mkSampler cfg fp now false false.

(** What one tick observes: the fingerprint, the free space ([None] when no probe is wired,
    [Some None] when it failed), the clock, the passcode pause and whether output arrived. *)
Record tick : Type := mkTick {
  tk_fp : treeFingerprint;
  tk_free : option (option Z);
  tk_now : time;
  tk_paused : bool;
  tk_output : bool }.

Record verdict : Type := mkVerdict { v_liveness : string; v_kill : bool; v_low : option Z }.

(** The staging of an idle period. *)
Definition stage (cfg : Config) (idle : duration) : string * bool :=
  if LivenessTimeout cfg <=? idle then (LivenessSuspectedStall, true)
  else if LivenessTimeout cfg ÷ 2 <=? idle then (LivenessSuspectedStall, false)
  else if LivenessTimeout cfg ÷ 6 <=? idle then (LivenessSilentConnected, false)
  else (LivenessActive, false).

Definition disk_low (s : sampler) (free : option (option Z)) : option Z :=
  match free with
  | Some (Some f) =>
      if negb (warnedLow s) && (f <? DiskLowFreeBytes (smp_cfg s)) then Some f else None
  | _ => None
  end.

Definition sample (s : sampler) (t : tick) : sampler * verdict :=
  let low := disk_low s (tk_free t) in
  let warned := warnedLow s || bool_decide (is_Some low) in
  let active := tk_output t || bool_decide (tk_fp t ≠ lastFP s) in
  if negb (started s) || tk_paused t || active then
    (mkSampler (smp_cfg s) (tk_fp t) (tk_now t) (started s || active) warned,
     mkVerdict LivenessActive false low)
  else
    let '(l, k) := stage (smp_cfg s) (time_sub (tk_now t) (lastChange s)) in
    (mkSampler (smp_cfg s) (lastFP s) (lastChange s) (started s) warned, mkVerdict l k low).

Fixpoint sample_all (s : sampler) (ts : list tick) : sampler * list verdict :=
  match ts with
  | [] => (s, [])
  | t :: ts' =>
      let '(s', v) := sample s t in
      let '(s'', vs) := sample_all s' ts' in (s'', v :: vs)
  end.

(** ** Specification over the history

    [hist] is the list of earlier ticks, newest first; [fp0] and [t0] are the fingerprint and
    the clock at which the sampler was created. *)

Section history.
Context (cfg : Config) (fp0 : treeFingerprint) (t0 : time).

Definition prev_fp (hist : list tick) : treeFingerprint :=
  match hist with [] => fp0 | t :: _ => tk_fp t end.

(** A tick shows activity: output, or a fingerprint that differs from the tick before. *)
Definition is_active (hist : list tick) (t : tick) : bool :=
  tk_output t || bool_decide (tk_fp t ≠ prev_fp hist).

Fixpoint ever_active (hist : list tick) : bool :=
  match hist with [] => false | t :: h => ever_active h || is_active h t end.

(** The clock restarts: before the first sign of life, during a pause, and on activity. *)
Definition restarts (hist : list tick) (t : tick) : bool :=
  negb (ever_active hist) || tk_paused t || is_active hist t.

Fixpoint idle_since (hist : list tick) : time :=
  match hist with
  | [] => t0
  | t :: h => if restarts h t then tk_now t else idle_since h
  end.

Fixpoint ever_low (hist : list tick) : bool :=
  match hist with
  | [] => false
  | t :: h => ever_low h ||
      match tk_free t with Some (Some f) => f <? DiskLowFreeBytes cfg | _ => false end
  end.

(** The verdict a tick deserves after [hist]. *)
Definition verdict_spec (hist : list tick) (t : tick) : verdict :=
  let low := match tk_free t with
             | Some (Some f) =>
                 if negb (ever_low hist) && (f <? DiskLowFreeBytes cfg) then Some f else None
             | _ => None end in
  if restarts hist t then mkVerdict LivenessActive false low
  else let '(l, k) := stage cfg (time_sub (tk_now t) (idle_since hist)) in mkVerdict l k low.

(** The state the sampler holds after [hist]. *)
Definition state_spec (hist : list tick) : sampler :=
  mkSampler cfg (prev_fp hist) (idle_since hist) (ever_active hist) (ever_low hist).

Lemma sample_spec hist t :
  sample (state_spec hist) t = (state_spec (t :: hist), verdict_spec hist t).
Proof.
  unfold sample, verdict_spec, state_spec, disk_low, restarts, is_active. simpl.
  fold (is_active hist t).
  set (low := match tk_free t with Some (Some f) => _ | _ => None end).
  assert (ever_low hist || bool_decide (is_Some low) =
    ever_low hist || match tk_free t with Some (Some f) => f <? DiskLowFreeBytes cfg | _ => false end)
    as Hlow.
  { subst low. destruct (tk_free t) as [[f|]|]; [|done..].
    destruct (ever_low hist), (f <? _); done. }
  rewrite Hlow. unfold restarts.
  change (tk_output t || bool_decide (tk_fp t ≠ prev_fp hist)) with (is_active hist t).
  destruct (negb (ever_active hist) || tk_paused t || is_active hist t) eqn:Hr; [done|].
  apply orb_false_iff in Hr as [Hr Ha]. apply orb_false_iff in Hr as [He Hp].
  apply negb_false_iff in He. rewrite Ha, He.
  assert (tk_fp t = prev_fp hist) as ->.
  { unfold is_active in Ha. apply orb_false_iff in Ha as [_ Ha].
    apply bool_decide_eq_false in Ha. by apply dec_stable. }
  by destruct (stage _ _).
Qed.

Fixpoint verdicts_spec (hist : list tick) (ts : list tick) : list verdict :=
  match ts with
  | [] => []
  | t :: ts' => verdict_spec hist t :: verdicts_spec (t :: hist) ts'
  end.

Lemma sample_all_spec hist ts :
  sample_all (state_spec hist) ts = (state_spec (rev ts ++ hist), verdicts_spec hist ts).
Proof.
  revert hist. induction ts as [|t ts IH]; intros hist; simpl; [done|].
  rewrite sample_spec, IH. simpl. by rewrite <-app_assoc.
Qed.
End history.

Lemma stage_kill cfg idle : snd (stage cfg idle) = true ↔ LivenessTimeout cfg ≤ idle.
Proof.
  unfold stage. split_matches; rewrite ?Z.leb_le, ?Z.leb_gt in *; split; (done || lia).
Qed.

(** The rank of a liveness value, from healthy to stalled. *)
Definition liveness_rank (l : string) : Z :=
  if bool_decide (l = LivenessActive) then 0
  else if bool_decide (l = LivenessSilentConnected) then 1 else 2.

Lemma stage_rank cfg idle :
  liveness_rank (fst (stage cfg idle)) =
    if LivenessTimeout cfg <=? idle then 2
    else if LivenessTimeout cfg ÷ 2 <=? idle then 2
    else if LivenessTimeout cfg ÷ 6 <=? idle then 1 else 0.
Proof. unfold stage. by split_matches. Qed.

#[export] Hint Rewrite stage_rank : quince.

(** ** Properties *)

(** the sampler's four mutable fields carry exactly the history that the design asks
    about: over any run of ticks, its verdicts are those of the history specification. *)
Theorem sampler_matches_history cfg fp0 now ts :
  sample_all (newSampler cfg fp0 now) ts =
    (state_spec cfg fp0 now (rev ts), verdicts_spec cfg fp0 now [] ts).
Proof.
  rewrite <-(app_nil_r (rev ts)). apply (sample_all_spec cfg fp0 now []).
Qed.

Lemma verdict_kill_iff cfg fp0 t0 hist t :
  v_kill (verdict_spec cfg fp0 t0 hist t) = true ↔
    ever_active fp0 hist = true ∧ tk_paused t = false ∧ is_active fp0 hist t = false ∧
    LivenessTimeout cfg ≤ time_sub (tk_now t) (idle_since fp0 t0 hist).
Proof.
  rewrite <-stage_kill. unfold verdict_spec, restarts.
  destruct (ever_active fp0 hist), (tk_paused t), (is_active fp0 hist t); simpl;
    try (split; [done|naive_solver]).
  by destruct (stage _ _); simpl; naive_solver.
Qed.

(** a tick kills the job exactly when the tree once showed life, the tick is neither
    paused for the passcode nor active, and the liveness timeout has elapsed since the last
    tick that restarted the clock. *)
Theorem sample_kill_iff cfg fp0 now ts t :
  v_kill (snd (sample (fst (sample_all (newSampler cfg fp0 now) ts)) t)) = true ↔
    ever_active fp0 (rev ts) = true ∧ tk_paused t = false ∧ is_active fp0 (rev ts) t = false ∧
    LivenessTimeout cfg ≤ time_sub (tk_now t) (idle_since fp0 now (rev ts)).
Proof.
  rewrite sampler_matches_history. simpl. rewrite sample_spec. apply verdict_kill_iff.
Qed.

Definition warnings (vs : list verdict) : list Z := omap v_low vs.

Lemma warnings_spec_silent cfg fp0 t0 hist ts :
  ever_low cfg hist = true → warnings (verdicts_spec cfg fp0 t0 hist ts) = [].
Proof.
  revert hist. induction ts as [|t ts IH]; intros hist Hl; [done|].
  unfold warnings in *. simpl.
  assert (v_low (verdict_spec cfg fp0 t0 hist t) = None) as ->.
  { unfold verdict_spec. rewrite Hl. simpl. by split_matches. }
  simpl. apply IH. simpl. by rewrite Hl.
Qed.

Lemma warnings_spec_once cfg fp0 t0 hist ts :
  (length (warnings (verdicts_spec cfg fp0 t0 hist ts)) ≤ 1)%nat.
Proof.
  revert hist. induction ts as [|t ts IH]; intros hist; [simpl; lia|].
  unfold warnings in *. simpl.
  destruct (v_low (verdict_spec cfg fp0 t0 hist t)) as [f|] eqn:Hf; simpl; [|apply IH].
  fold (warnings (verdicts_spec cfg fp0 t0 (t :: hist) ts)).
  rewrite warnings_spec_silent; [simpl; lia|]. simpl.
  apply orb_true_iff. right. revert Hf. unfold verdict_spec.
  destruct (tk_free t) as [[g|]|]; [|by split_matches..].
  destruct (g <? DiskLowFreeBytes cfg); [done|]. rewrite andb_false_r. by split_matches.
Qed.

(** the low-space warning is surfaced at most once per job. *)
Theorem disk_low_warned_once cfg fp0 now ts :
  (length (warnings (snd (sample_all (newSampler cfg fp0 now) ts))) ≤ 1)%nat.
Proof. rewrite sampler_matches_history. apply warnings_spec_once. Qed.

(** A run over a tree that churns, pauses for the passcode and then falls silent: the clock
    starts over with the pause, and the backstop ends the job 18 minutes after it. *)
Definition demo_fp (n : Z) : treeFingerprint := mkFP n n 0 0.
Definition demo_ticks : list tick :=
  [mkTick (demo_fp 1) None (1 * Minute) false true;
   mkTick (demo_fp 1) None (5 * Minute) true false;
   mkTick (demo_fp 1) None (9 * Minute) false false;
   mkTick (demo_fp 1) None (14 * Minute) false false;
   mkTick (demo_fp 1) None (23 * Minute) false false].
Example demo_run :
  (λ v, (v_liveness v, v_kill v)) <$> snd (sample_all (newSampler DefaultConfig (demo_fp 0) 0) demo_ticks)
  = [(LivenessActive, false); (LivenessActive, false); (LivenessSilentConnected, false);
     (LivenessSuspectedStall, false); (LivenessSuspectedStall, true)].
Proof. vm_compute. reflexivity. Qed.
