(* ===== verification/Frames.v ===== *)
(** * Frames: splitting the tool's output into lines

    Models [scanFrames] of core/internal/backup/parser.go, the split function that the supervisor
    hands to [bufio.Scanner], with the scanner's own read loop.  The output arrives in chunks of
    any size; the theorem is that the frames do not depend on where the chunks are cut.  The
    scanner's 1 MiB line cap is not modelled. *)

From Stdlib Require Import String Ascii.
From S2P Require Import Prelude.

Definition CR : ascii := "013".
Definition LF : ascii := "010".

(** [bytes.IndexAny(data, "\r\n")]: the bytes before the first terminator, and what starts
    with it. *)
Fixpoint split_terminator (data : list ascii) : option (list ascii * ascii * list ascii) :=
  match data with
  | [] => None
  | c :: rest =>
      if bool_decide (c = CR) || bool_decide (c = LF) then Some ([], c, rest)
      else match split_terminator rest with
           | Some (pre, t, post) => Some (c :: pre, t, post)
           | None => None
           end
  end.

(** The result of a split function: how far to advance and the token, [None] for [nil]. *)
Definition scanFrames (data : list ascii) (atEOF : bool) : nat * option (list ascii) :=
  if atEOF && bool_decide (data = []) then (0%nat, None)
  else
    match split_terminator data with
    | None => if atEOF then (length data, Some data) else (0%nat, None)
    | Some (pre, t, post) =>
        if bool_decide (t = CR) then
          if bool_decide (post = []) && negb atEOF then (0%nat, None)
          else match post with
               | c :: _ => if bool_decide (c = LF) then (length pre + 2, Some pre)%nat
                           else (length pre + 1, Some pre)%nat
               | [] => (length pre + 1, Some pre)%nat
               end
        else (length pre + 1, Some pre)%nat
    end.

(** [Scanner.Scan] on one buffer: split off tokens until the split function asks for more. *)
Fixpoint drain (fuel : nat) (atEOF : bool) (buf : list ascii) : list (list ascii) * list ascii :=
  match fuel with
  | O => ([], buf)
  | S fuel' =>
      match scanFrames buf atEOF with
      | (adv, Some tok) =>
          let '(toks, rest) := drain fuel' atEOF (drop adv buf) in (tok :: toks, rest)
      | (_, None) => ([], buf)
      end
  end.

(** The whole scan: the reads deliver [chunks], then the end of the file.  A token consumes at
    least one byte unless it is the last, so the buffer's length bounds the steps. *)
Fixpoint scan_stream (buf : list ascii) (chunks : list (list ascii)) : list (list ascii) :=
  match chunks with
  | [] => fst (drain (S (length buf)) true buf)
  | c :: cs =>
      let buf := buf ++ c in
      let '(toks, rest) := drain (S (length buf)) false buf in
      toks ++ scan_stream rest cs
  end.

(** ** Specification

    A frame ends at [\r\n], at a bare [\r] or at [\n]; a last frame that is not empty needs no
    terminator. *)
Fixpoint frames_go (cur : list ascii) (l : list ascii) : list (list ascii) :=
  match l with
  | [] => match cur with [] => [] | _ => [rev cur] end
  | c :: l' =>
      if bool_decide (c = LF) then rev cur :: frames_go [] l'
      else if bool_decide (c = CR) then
        match l' with
        | d :: l'' => if bool_decide (d = LF) then rev cur :: frames_go [] l''
                      else rev cur :: frames_go [] l'
        | [] => [rev cur]
        end
      else frames_go (c :: cur) l'
  end.

Definition frames (l : list ascii) : list (list ascii) := frames_go [] l.

Lemma frames_go_plain cur pre l :
  Forall (λ c, c ≠ CR ∧ c ≠ LF) pre → frames_go cur (pre ++ l) = frames_go (rev pre ++ cur) l.
Proof.
  revert cur. induction pre as [|c pre IH]; intros cur Hpre; [done|].
  inversion Hpre as [|?? [HC HL] Hpre']; subst. simpl.
  rewrite !bool_decide_false by done. rewrite IH by done. by rewrite <-app_assoc.
Qed.

Lemma split_terminator_Some data pre t post :
  split_terminator data = Some (pre, t, post) →
  data = pre ++ t :: post ∧ Forall (λ c, c ≠ CR ∧ c ≠ LF) pre ∧ (t = CR ∨ t = LF).
Proof.
  revert pre. induction data as [|c data IH]; intros pre H; [done|]. simpl in H.
  destruct (bool_decide (c = CR)) eqn:H1; simpl in H.
  { apply bool_decide_eq_true in H1. simplify_eq. auto. }
  destruct (bool_decide (c = LF)) eqn:H2.
  { apply bool_decide_eq_true in H2. simplify_eq. auto. }
  apply bool_decide_eq_false in H1, H2.
  destruct (split_terminator data) as [[[pre' t'] post']|]; simplify_eq.
  destruct (IH pre' eq_refl) as (-> & ? & ?). auto.
Qed.

Lemma split_terminator_None data :
  split_terminator data = None → Forall (λ c, c ≠ CR ∧ c ≠ LF) data.
Proof.
  induction data as [|c data IH]; intros H; [done|]. simpl in H.
  destruct (bool_decide (c = CR)) eqn:H1, (bool_decide (c = LF)) eqn:H2; simpl in H; try done.
  apply bool_decide_eq_false in H1, H2.
  destruct (split_terminator data) as [[[??]?]|]; [done|]. constructor; auto.
Qed.

Lemma frames_plain data :
  Forall (λ c, c ≠ CR ∧ c ≠ LF) data → frames data = match data with [] => [] | _ => [data] end.
Proof.
  intros H. unfold frames. rewrite <-(app_nil_r data) at 1. rewrite frames_go_plain by done.
  rewrite app_nil_r. simpl. destruct data as [|c data]; [done|].
  destruct (rev (c :: data)) eqn:E; [by apply (f_equal (@rev ascii)) in E; rewrite rev_involutive in E|].
  by rewrite <-E, rev_involutive.
Qed.

Lemma frames_LF pre post :
  Forall (λ c, c ≠ CR ∧ c ≠ LF) pre → frames (pre ++ LF :: post) = pre :: frames post.
Proof.
  intros H. unfold frames. rewrite frames_go_plain by done. simpl.
  by rewrite app_nil_r, rev_involutive.
Qed.

Lemma frames_CR pre post :
  Forall (λ c, c ≠ CR ∧ c ≠ LF) pre →
  frames (pre ++ CR :: post) =
    pre :: frames (match post with c :: post' => if bool_decide (c = LF) then post' else post | [] => [] end).
Proof.
  intros H. unfold frames. rewrite frames_go_plain by done. simpl.
  rewrite app_nil_r, rev_involutive. destruct post as [|c post]; [done|]. by case_bool_decide.
Qed.

(** What a split that yields a token leaves, whatever arrives later. *)
Lemma scanFrames_token buf atEOF adv tok :
  scanFrames buf atEOF = (adv, Some tok) →
  (1 ≤ adv)%nat ∧ buf ≠ [] ∧
  ∀ more, (atEOF = true → more = []) → frames (buf ++ more) = tok :: frames (drop adv buf ++ more).
Proof.
  unfold scanFrames. intros H.
  destruct (atEOF && bool_decide (buf = [])) eqn:HE; [done|].
  destruct (split_terminator buf) as [[[pre t] post]|] eqn:Hs.
  - apply split_terminator_Some in Hs as (-> & Hpre & Ht).
    split; [split_matches; lia|]. split; [by destruct pre|]. intros more Hmore.
    rewrite <-app_assoc. simpl.
    assert (∀ k, drop (length pre + S k) (pre ++ t :: post) = drop k post) as Hdrop.
    { intros k. rewrite drop_app_ge by lia.
      replace (length pre + S k - length pre)%nat with (S k) by lia. done. }
    destruct (bool_decide (t = CR)) eqn:HC.
    + apply bool_decide_eq_true in HC as ->. rewrite frames_CR by done.
      destruct post as [|c post]; simpl in H.
      * destruct atEOF; [|done]. simplify_eq/=. rewrite (Hdrop 0%nat), Hmore by done. done.
      * destruct (bool_decide (c = LF)) eqn:HL; simplify_eq/=; rewrite HL.
        -- by rewrite (Hdrop 1%nat).
        -- by rewrite (Hdrop 0%nat).
    + apply bool_decide_eq_false in HC. destruct Ht as [?| ->]; [done|]. simplify_eq/=.
      rewrite frames_LF by done. by rewrite (Hdrop 0%nat).
  - apply split_terminator_None in Hs. destruct atEOF; [|done]. simplify_eq/=.
    apply bool_decide_eq_false in HE. split; [destruct tok; [done|simpl; lia]|]. split; [done|].
    intros more Hmore. rewrite Hmore by done. rewrite drop_all, !app_nil_r, frames_plain by done.
    by destruct tok.
Qed.

Lemma drain_frames fuel atEOF buf more toks rest :
  drain fuel atEOF buf = (toks, rest) → (atEOF = true → more = []) →
  frames (buf ++ more) = toks ++ frames (rest ++ more).
Proof.
  revert buf toks. induction fuel as [|fuel IH]; intros buf toks H Hmore; simpl in H; [by simplify_eq|].
  destruct (scanFrames buf atEOF) as [adv [tok|]] eqn:Hs; [|by simplify_eq].
  destruct (drain fuel atEOF (drop adv buf)) as [toks' rest'] eqn:Hd. simplify_eq.
  apply scanFrames_token in Hs as (_ & _ & Hf). rewrite (Hf more Hmore).
  simpl. f_equal. by apply (IH (drop adv buf)).
Qed.

Lemma drain_eof_rest fuel buf toks rest :
  (length buf < fuel)%nat → drain fuel true buf = (toks, rest) → rest = [].
Proof.
  revert buf toks. induction fuel as [|fuel IH]; intros buf toks Hf H; [lia|]. simpl in H.
  destruct (scanFrames buf true) as [adv [tok|]] eqn:Hs.
  - destruct (drain fuel true (drop adv buf)) as [toks' rest'] eqn:Hd. simplify_eq.
    apply scanFrames_token in Hs as (? & Hne & _). apply (IH (drop adv buf) toks'); [|done].
    rewrite length_drop. destruct buf; [done|]. simpl in *. lia.
  - simplify_eq. unfold scanFrames in Hs. simpl in Hs. case_bool_decide; [done|].
    destruct (split_terminator _) as [[[??]?]|]; [|done]. rewrite andb_false_r in Hs.
    by split_matches.
Qed.

(** however the reads cut the tool's output, the supervisor sees exactly the frames of the
    whole output: a [\r\n] split across two reads is one break, and no redraw frame is merged with
    its successor. *)
Theorem scan_stream_frames buf chunks : scan_stream buf chunks = frames (buf ++ concat chunks).
Proof.
  revert buf. induction chunks as [|c cs IH]; intros buf.
  - cbn [scan_stream concat]. destruct (drain (S (length buf)) true buf) as [toks rest] eqn:Hd.
    rewrite (drain_frames _ _ _ [] _ _ Hd (λ _, eq_refl)).
    apply drain_eof_rest in Hd; [|lia]. subst. cbn [fst].
    unfold frames. simpl. by rewrite app_nil_r.
  - cbn [scan_stream concat].
    destruct (drain (S (length (buf ++ c))) false (buf ++ c)) as [toks rest] eqn:Hd.
    rewrite IH, app_assoc. symmetry. by apply (drain_frames _ _ _ _ _ _ Hd).
Qed.

Definition bytes_of (s : string) : list ascii := list_ascii_of_string s.
Definition string_of (l : list ascii) : string := string_of_list_ascii l.

(** A break that is split across two reads, and a redraw without a line feed. *)
Example scan_split_crlf :
  string_of <$> scan_stream [] [bytes_of "2% (1 MB/9 MB)" ++ [CR]; [LF] ++ bytes_of "4%"; [CR; CR]]
  = ["2% (1 MB/9 MB)"; "4%"; ""].
Proof. vm_compute. reflexivity. Qed.
