(* ===== verification/Regexp.v ===== *)
(** * Regexp: the matcher that the line recognizers use

    A backtracking matcher with the leftmost-first semantics of Go's [regexp], for the operators
    that quince's patterns use: byte classes, sequence, alternation, greedy repetition, capture
    groups and the two text anchors.  [find_submatch] is [FindStringSubmatch]. *)

From Stdlib Require Import String Ascii.
From S2P Require Import Prelude.

Inductive regex : Type :=
  | RClass (p : ascii → bool)
  | RSeq (r1 r2 : regex)
  | RAlt (r1 r2 : regex)
  | RStar (r : regex)
  | RGroup (n : nat) (r : regex)
  | REmpty
  | RBegin
  | REnd.

Fixpoint RLit (s : string) : regex :=
  match s with
  | EmptyString => REmpty
  | String c s' => RSeq (RClass (λ d, bool_decide (c = d))) (RLit s')
  end.
Definition RPlus (r : regex) : regex := RSeq r (RStar r).
Definition ROpt (r : regex) : regex := RAlt r REmpty.

(** The rest of the text, whether anything was consumed before it, and the captures so far
    (the latest first). *)
Record mstate : Type := MState { m_rest : list ascii; m_start : bool; m_caps : list (nat * list ascii) }.

(** The greedy loop of [RStar]: try one more round that makes progress, else go on. *)
Definition star_loop (step : mstate → (mstate → option mstate) → option mstate)
    (k : mstate → option mstate) : nat → mstate → option mstate :=
  fix loop (fuel : nat) (s : mstate) : option mstate :=
    match fuel with
    | O => k s
    | S fuel' =>
        match step s (λ s', if bool_decide (length (m_rest s') < length (m_rest s))%nat
                            then loop fuel' s' else None) with
        | Some r => Some r
        | None => k s
        end
    end.

Fixpoint rmatch (r : regex) (s : mstate) (k : mstate → option mstate) : option mstate :=
  match r with
  | RClass p =>
      match m_rest s with
      | c :: rest => if p c then k (MState rest false (m_caps s)) else None
      | [] => None
      end
  | RSeq r1 r2 => rmatch r1 s (λ s', rmatch r2 s' k)
  | RAlt r1 r2 => match rmatch r1 s k with Some x => Some x | None => rmatch r2 s k end
  | RStar r' => star_loop (rmatch r') k (S (length (m_rest s))) s
  | RGroup n r' =>
      rmatch r' s (λ s', k (MState (m_rest s') (m_start s')
        ((n, take (length (m_rest s) - length (m_rest s')) (m_rest s)) :: m_caps s')))
  | REmpty => k s
  | RBegin => if m_start s then k s else None
  | REnd => if bool_decide (m_rest s = []) then k s else None
  end.

(** Leftmost: try each position in turn. *)
Fixpoint find_from (r : regex) (start : bool) (l : list ascii) : option mstate :=
  match rmatch r (MState l start []) Some with
  | Some s => Some s
  | None => match l with [] => None | _ :: l' => find_from r false l' end
  end.

Definition find_submatch (r : regex) (s : string) : option (list (nat * list ascii)) :=
  m_caps <$> find_from r true (list_ascii_of_string s).

Definition group (caps : list (nat * list ascii)) (n : nat) : string :=
  match list_find (λ c, c.1 = n) caps with
  | Some (_, (_, l)) => string_of_list_ascii l
  | None => EmptyString
  end.

(** ** Byte classes of the patterns *)
Definition re_digit : regex := RClass is_digit.
Definition re_space : regex :=
  RClass (λ c, let n := Z_of_char c in (n =? 32) || (n =? 9) || (n =? 10) || (n =? 12) || (n =? 13)).
Definition re_any : regex := RClass (λ c, negb (Z_of_char c =? 10)).
Definition re_digit_dot : regex := RClass (λ c, is_digit c || (Z_of_char c =? 46)).
Definition re_one_of (s : string) : regex :=
  RClass (λ c, bool_decide (c ∈ list_ascii_of_string s)).

(** ** The leftmost match starts where no earlier position matches *)
Lemma find_from_None r start l :
  find_from r start l = None →
  ∀ pre post, l = pre ++ post →
    rmatch r (MState post (match pre with [] => start | _ => false end) []) Some = None.
Proof.
  revert start. induction l as [|c l IH]; intros start H pre post Hl; simpl in H.
  - destruct (rmatch _ _ _) eqn:E; [done|]. by destruct pre, post.
  - destruct (rmatch _ _ _) eqn:E; [done|]. destruct pre as [|d pre]; simpl in Hl.
    + by subst post.
    + simplify_eq. specialize (IH _ H pre post eq_refl). by destruct pre.
Qed.
