(* ===== verification/Parser.v ===== *)
(** * Parser: recognizing the lines of idevicebackup2

    Models [parsed], [parseLine] and [parseSize] of core/internal/backup/parser.go.  A size is
    computed as the code computes it: the decimal is rounded to the nearest binary64 value, scaled
    by a power of two, and truncated. *)

From Stdlib Require Import String Ascii.
From S2P Require Import Prelude Regexp.

Record parsed : Type := mkParsed {
  p_phaseReceiving : bool;
  p_waitingPasscode : bool;
  p_success : bool;
  p_failReason : string;
  p_overallPercent : option Z;
  p_bytesDone : Z;
  p_bytesTotal : Z;
  p_receivedFiles : option Z;
  p_sizeFrame : bool;
  p_hasBytes : bool }.

Definition reFinished : regex :=
  RSeq (RGroup 1 (RPlus re_digit)) (RSeq (RLit "%") (RSeq (RPlus re_space) (RLit "Finished"))).

Definition re_unit : regex := RAlt (RLit "Bytes") (RSeq (ROpt (re_one_of "KMGT")) (RLit "B")).

Definition reBytes : regex :=
  RSeq (RLit "(") (RSeq (RGroup 1 (RPlus re_digit_dot)) (RSeq (RStar re_space) (RSeq (RGroup 2 re_unit)
  (RSeq (RLit "/") (RSeq (RGroup 3 (RPlus re_digit_dot)) (RSeq (RStar re_space) (RSeq (RGroup 4 re_unit)
  (RLit ")")))))))).

Definition reErrorCode : regex :=
  RSeq RBegin (RSeq (RAlt (RSeq (RLit "ErrorCode ") (RSeq (RPlus re_digit) (RLit ": "))) (RLit "ERROR: "))
    (RSeq (RGroup 1 (RPlus re_any)) REnd)).

Definition reReceivedFiles : regex :=
  RSeq (RLit "Received ") (RSeq (RGroup 1 (RPlus re_digit))
    (RSeq (RLit " file") (RSeq (ROpt (RLit "s")) (RLit " from device")))).

(** ** Numbers *)

Fixpoint digits_value (acc : Z) (s : string) : option Z :=
  match s with
  | EmptyString => Some acc
  | String c s' => if is_digit c then digits_value (acc * 10 + digit_value c) s' else None
  end.

(** [strconv.ParseInt(s, 10, 64)] on a string of digits. *)
Definition parse_int (s : string) : option Z :=
  v ← digits_value 0 s; if v <=? int64_max then Some v else None.

(** The decimal [int.frac] as a fraction [n / 10^k]; at least one digit, at most one point. *)
Fixpoint decimal (n : Z) (k : option nat) (seen : bool) (s : string) : option (Z * Z) :=
  match s with
  | EmptyString => if seen then Some (n, 10 ^ Z.of_nat (default O k)) else None
  | String c s' =>
      if is_digit c then decimal (n * 10 + digit_value c) (S <$> k) true s'
      else if Z_of_char c =? 46 then match k with None => decimal n (Some O) seen s' | Some _ => None end
      else None
  end.

(** The binary64 value nearest to [n / d], ties to even, as [m * 2^e] with a 53-bit [m]. *)
Definition round53 (n d : Z) : Z * Z :=
  if n =? 0 then (0, 0) else
  let scale e := if 0 <=? e then (n, d * 2 ^ e) else (n * 2 ^ (- e), d) in
  let e0 := Z.log2 n - Z.log2 d - 52 in
  let '(a0, b0) := scale e0 in
  let e := if a0 / b0 <? 2 ^ 52 then e0 - 1 else e0 in
  let '(a, b) := scale e in
  let q := a / b in
  let r := a `mod` b in
  (if (b <? 2 * r) || ((2 * r =? b) && Z.odd q) then q + 1 else q, e).

(** [int64(f)]: truncation; out of range the result is the processor's (amd64's here). *)
Definition float_to_int64 (f : Z * Z) : Z :=
  let '(m, e) := f in
  let v := if 0 <=? e then m * 2 ^ e else m / 2 ^ (- e) in
  if v <=? int64_max then v else int64_min.

Definition parseSize (num unit : string) : Z :=
  match decimal 0 None false num with
  | None => 0
  | Some (n, d) =>
      let '(m, e) := round53 n d in
      let u := to_upper unit in
      if bool_decide (u = "B") || bool_decide (u = "BYTES") then float_to_int64 (m, e)
      else if bool_decide (u = "KB") then float_to_int64 (m, e + 10)
      else if bool_decide (u = "MB") then float_to_int64 (m, e + 20)
      else if bool_decide (u = "GB") then float_to_int64 (m, e + 30)
      else if bool_decide (u = "TB") then float_to_int64 (m, e + 40)
      else float_to_int64 (m, e)
  end.

(** ** The classifier *)

Definition parseLine (line : string) : parsed :=
  let l := trim_space line in
  let waiting := str_contains l "Waiting for passcode" in
  let success := negb waiting && str_contains l "Backup Successful" in
  let receiving := str_contains l "Receiving files" || str_contains l "Sending files" in
  let percent := caps ← find_submatch reFinished l; digits_value 0 (group caps 1) in
  let '(sizeFrame, hasBytes, done, total) :=
    match find_submatch reBytes l with
    | None => (false, false, 0, 0)
    | Some m =>
        if equal_fold (group m 2) "Bytes" then (true, false, 0, 0)
        else (true, true, parseSize (group m 1) (group m 2), parseSize (group m 3) (group m 4))
    end in
  let reason :=
    match find_submatch reErrorCode l with Some m => trim_space (group m 1) | None => "" end in
  let received := m ← find_submatch reReceivedFiles l; parse_int (group m 1) in
  mkParsed receiving waiting success reason percent done total received sizeFrame hasBytes.

(** A pure progress redraw: it moves the bar and is kept out of the log ([handleLine]). *)
Definition is_redraw (p : parsed) : bool :=
  (bool_decide (is_Some (p_overallPercent p)) || p_sizeFrame p) && negb (p_waitingPasscode p)
  && negb (p_phaseReceiving p) && negb (p_success p) && bool_decide (p_failReason p = "").

Example parse_progress :
  (λ p, (p_bytesDone p, p_bytesTotal p, p_hasBytes p, is_redraw p)) (parseLine "[==   ]   2% (23.2 MB/938.6 MB)")
  = (24326963, 984193433, true, true).
Proof. vm_compute. reflexivity. Qed.

Example parse_small_frame :
  (λ p, (p_hasBytes p, is_redraw p)) (parseLine "[     ]   0% (16 Bytes/1.4 MB)") = (false, true).
Proof. vm_compute. reflexivity. Qed.

Example parse_error :
  p_failReason (parseLine "ErrorCode 105: Insufficient free disk space on drive to back up (MBErrorDomain/105)")
  = "Insufficient free disk space on drive to back up (MBErrorDomain/105)".
Proof. vm_compute. reflexivity. Qed.

Example parse_received : p_receivedFiles (parseLine "Received 94035 files from device.") = Some 94035.
Proof. vm_compute. reflexivity. Qed.

Example parse_two_points : parseSize "1.2.3" "MB" = 0.
Proof. vm_compute. reflexivity. Qed.

(** ** Properties *)

(** A progress frame as the tool draws it. *)
Definition percent_frame (p : Z) : string :=
  "[==================================================] " +:+ fmt_d p +:+ "% Finished".

Definition Z_upto (n : nat) : list Z := Z.of_nat <$> seq 0 n.

Lemma forall_upto (P : Z → bool) n :
  forallb P (Z_upto n) = true → ∀ z, 0 ≤ z < Z.of_nat n → P z = true.
Proof.
  intros H z Hz. rewrite forallb_forall in H. apply H.
  apply list_elem_of_In. apply list_elem_of_fmap. exists (Z.to_nat z).
  split; [lia|]. apply elem_of_seq. lia.
Qed.

Definition reads_back (p : Z) : bool :=
  bool_decide (p_overallPercent (parseLine (percent_frame p)) = Some p)
  && is_redraw (parseLine (percent_frame p)).

Lemma reads_back_upto_100 : forallb reads_back (Z_upto 101) = true.
Proof. vm_compute. reflexivity. Qed.

(** every overall percentage the tool prints is read back exactly, and its frame moves the bar
    without entering the log. *)
Theorem percent_roundtrip p :
  0 ≤ p ≤ 100 →
  p_overallPercent (parseLine (percent_frame p)) = Some p ∧ is_redraw (parseLine (percent_frame p)) = true.
Proof.
  intros Hp. pose proof (forall_upto _ _ reads_back_upto_100 p ltac:(lia)) as H.
  apply andb_true_iff in H as [H ?]. by apply bool_decide_eq_true in H.
Qed.

Lemma percent_roundtrip_witness :
  0 ≤ 38 ≤ 100 ∧ p_overallPercent (parseLine (percent_frame 38)) = Some 38.
Proof. split; [lia|]. apply (percent_roundtrip 38). lia. Defined.
