(* ===== verification/JobLog.v ===== *)
(** * JobLog: the narration of a job

    Models [logStore] (core/internal/backup/joblog.go) and the collapsing of repeated lines,
    [logLine] and [flushLogRun] (core/internal/backup/engine.go). *)

From Stdlib Require Import String Ascii.
From S2P Require Import Prelude.

(** ** The bounded store of log tails *)

Definition maxJobLogBytes : nat := 256 * 1024.
Definition maxJobLogs : nat := 256.

(** A log tail is a byte slice. *)
Record logStore : Type := mkLogStore { ls_logs : gmap string (list ascii); ls_order : list string }.

Definition newLogStore : logStore := mkLogStore ∅ [].

(** [for len(s.order) > maxJobLogs { delete(s.logs, s.order[0]); s.order = s.order[1:] }] *)
Fixpoint evict (order : list string) (logs : gmap string (list ascii)) : list string * gmap string (list ascii) :=
  if bool_decide (maxJobLogs < length order)%nat then
    match order with
    | [] => (order, logs)
    | oldest :: order' => evict order' (delete oldest logs)
    end
  else (order, logs).

Definition cap_tail (buf : list ascii) : list ascii :=
  if bool_decide (maxJobLogBytes < length buf)%nat then drop (length buf - maxJobLogBytes) buf else buf.

Definition log_append (jobID : string) (chunk : list ascii) (s : logStore) : logStore :=
  match ls_logs s !! jobID with
  | Some buf => mkLogStore (<[jobID := cap_tail (buf ++ chunk)]> (ls_logs s)) (ls_order s)
  | None =>
      let '(order, logs) := evict (ls_order s ++ [jobID]) (ls_logs s) in
      mkLogStore (<[jobID := cap_tail chunk]> logs) order
  end.

Definition log_get (jobID : string) (s : logStore) : option (list ascii) := ls_logs s !! jobID.

(** The store's invariant: one order entry per retained log, and both bounds. *)
Record log_ok (s : logStore) : Prop := {
  log_nodup : NoDup (ls_order s);
  log_dom : ∀ k, k ∈ ls_order s ↔ is_Some (ls_logs s !! k);
  log_count : (length (ls_order s) ≤ maxJobLogs)%nat;
  log_bytes : ∀ k buf, ls_logs s !! k = Some buf → (length buf ≤ maxJobLogBytes)%nat }.

Lemma cap_tail_length buf : (length (cap_tail buf) ≤ maxJobLogBytes)%nat.
Proof. unfold cap_tail. case_bool_decide; [rewrite length_drop|]; lia. Qed.

(** What eviction keeps: a suffix of the order, and exactly the logs of that suffix. *)
Lemma evict_spec order logs order' logs' :
  evict order logs = (order', logs') →
  ∃ gone, order = gone ++ order' ∧ (length order' ≤ maxJobLogs)%nat ∧
    (gone ≠ [] → length order' = maxJobLogs) ∧
    (∀ k, k ∈ gone → logs' !! k = None) ∧ (∀ k, k ∉ gone → logs' !! k = logs !! k).
Proof.
  revert logs. induction order as [|x order IH]; intros logs H; cbn [evict] in H.
  - assert (order' = [] ∧ logs' = logs) as [-> ->] by (case_bool_decide; by simplify_eq).
    exists []. split; [done|]. split; [simpl; lia|]. split; [done|]. split; [|done].
    intros k Hk. by apply elem_of_nil in Hk.
  - case_bool_decide as Hlen.
    + destruct (IH _ H) as (gone & -> & Hl & Hg & Hin & Hout). exists (x :: gone).
      split; [done|]. split; [done|]. split.
      { intros _. destruct gone; [|by apply Hg]. simpl in *. lia. }
      split.
      * intros k. destruct (decide (k ∈ gone)) as [|Hn]; [by auto|].
        intros [-> | ?]%elem_of_cons; [|done]. rewrite Hout by done. apply lookup_delete_eq.
      * intros k [? ?]%not_elem_of_cons. rewrite Hout by done. by apply lookup_delete_ne.
    + simplify_eq. exists []. split; [done|]. split; [lia|]. split; [done|]. split; [|done].
      intros k Hk. by apply elem_of_nil in Hk.
Qed.

Lemma newLogStore_ok : log_ok newLogStore.
Proof.
  split; simpl; [constructor| |lia|].
  - intros k. rewrite lookup_empty, elem_of_nil. split; [done|by intros []].
  - intros k buf. by rewrite lookup_empty.
Qed.

(** Eviction never drops the job that has just been appended. *)
Lemma evict_keeps_newest (l gone order : list string) (x : string) :
  l ++ [x] = gone ++ order → (gone ≠ [] → length order = maxJobLogs) → x ∈ order.
Proof.
  intros H Hg. destruct order as [|y order _] using rev_ind.
  - destruct gone; [by destruct l|]. pose proof (Hg ltac:(done)) as Hn. by vm_compute in Hn.
  - rewrite app_assoc in H. apply app_inj_tail in H as [_ ->].
    apply elem_of_app. right. by apply list_elem_of_singleton.
Qed.

Lemma log_append_ok jobID chunk s : log_ok s → log_ok (log_append jobID chunk s).
Proof.
  intros [Hnd Hdom Hc Hb]. unfold log_append. destruct (ls_logs s !! jobID) as [buf|] eqn:Hj.
  - split; simpl; [done| |done|].
    + intros k. rewrite Hdom. destruct (decide (k = jobID)) as [->|].
      * rewrite Hj, lookup_insert_eq. split; eauto.
      * by rewrite lookup_insert_ne.
    + intros k b. rewrite lookup_insert. case_decide; [|apply Hb].
      intros [= <-]. apply cap_tail_length.
  - destruct (evict _ _) as [order logs] eqn:He.
    destruct (evict_spec _ _ _ _ He) as (gone & Heq & Hl & Hg & Hin & Hout).
    assert (NoDup (gone ++ order)) as Hnd'.
    { rewrite <-Heq. apply NoDup_app. split; [done|]. split; [|apply NoDup_singleton].
      intros k Hk ->%list_elem_of_singleton. apply Hdom in Hk as [? ?]. congruence. }
    apply NoDup_app in Hnd' as (_ & Hdisj & Hnd').
    pose proof (evict_keeps_newest _ _ _ _ Heq Hg) as Hnew.
    split; simpl; [done| |done|].
    + intros k. destruct (decide (k = jobID)) as [->|Hne]; [rewrite lookup_insert_eq; split; eauto|].
      rewrite lookup_insert_ne by done. destruct (decide (k ∈ gone)) as [Hk|Hk].
      * rewrite Hin by done. split; [|by intros []]. intros. by destruct (Hdisj k).
      * rewrite Hout, <-Hdom by done.
        transitivity (k ∈ gone ++ order); [rewrite elem_of_app; tauto|].
        rewrite <-Heq, elem_of_app, list_elem_of_singleton. tauto.
    + intros k b. rewrite lookup_insert. case_decide; [intros [= <-]; apply cap_tail_length|].
      destruct (decide (k ∈ gone)); [by rewrite Hin by done|rewrite Hout by done; apply Hb].
Qed.

#[export] Hint Resolve newLogStore_ok log_append_ok : quince.

Definition append_all (ops : list (string * list ascii)) : logStore :=
  foldl (λ s op, log_append op.1 op.2 s) newLogStore ops.

Lemma append_all_ok ops : log_ok (append_all ops).
Proof.
  unfold append_all. generalize newLogStore_ok. generalize newLogStore.
  induction ops as [|op ops IH]; intros s Hs; simpl; auto with quince.
Qed.

Lemma log_ok_size s : log_ok s → size (ls_logs s) = length (ls_order s).
Proof.
  intros [Hnd Hdom _ _]. rewrite <-size_dom. rewrite <-(size_list_to_set (C := gset string)) by done.
  f_equal. apply set_eq. intros k. rewrite elem_of_dom, elem_of_list_to_set. by rewrite Hdom.
Qed.

(** the in-memory job log is bounded whatever jobs append and in whatever order: at most
    [maxJobLogs] tails of at most [maxJobLogBytes] bytes. *)
Theorem log_store_bounded ops :
  (size (ls_logs (append_all ops)) ≤ maxJobLogs)%nat ∧
  ∀ k buf, log_get k (append_all ops) = Some buf → (length buf ≤ maxJobLogBytes)%nat.
Proof.
  pose proof (append_all_ok ops) as Hok. split.
  - rewrite log_ok_size by done. apply (log_count _ Hok).
  - apply (log_bytes _ Hok).
Qed.

(** ** Collapsing a run of identical lines

    The engine keeps the line of the open run and its length ([logRunLine], [logRunCount]); each
    call appends to the list of emitted lines. *)

Record logRun : Type := mkLogRun { logRunLine : string; logRunCount : Z }.
Definition no_run : logRun := mkLogRun "" 0.

Definition run_summary (line : string) (n : Z) : list string :=
  if 1 <? n then [line +:+ " ... x" +:+ fmt_d n +:+ " total"] else [].

Definition logLine (s : logRun) (line : string) : logRun * list string :=
  if bool_decide (line = logRunLine s) then (mkLogRun (logRunLine s) (logRunCount s + 1), [])
  else (mkLogRun line 1, run_summary (logRunLine s) (logRunCount s) ++ [line]).

Definition flushLogRun (s : logRun) : logRun * list string :=
  (no_run, run_summary (logRunLine s) (logRunCount s)).

Fixpoint log_lines (s : logRun) (lines : list string) : logRun * list string :=
  match lines with
  | [] => (s, [])
  | l :: ls =>
      let '(s1, out1) := logLine s l in
      let '(s2, out2) := log_lines s1 ls in (s2, out1 ++ out2)
  end.

(** The whole narration of a job: its lines, then the flush when both scanners are done. *)
Definition narrate (lines : list string) : list string :=
  let '(s, out) := log_lines no_run lines in out ++ snd (flushLogRun s).

(** Reference: group the lines into maximal runs, and print each run as its line followed, when it
    repeats, by its count. *)
Fixpoint runs (lines : list string) : list (string * Z) :=
  match lines with
  | [] => []
  | x :: l =>
      match runs l with
      | (y, n) :: r => if bool_decide (x = y) then (y, n + 1) :: r else (x, 1) :: (y, n) :: r
      | [] => [(x, 1)]
      end
  end.

Definition print_run (r : string * Z) : list string := r.1 :: run_summary r.1 r.2.

Lemma runs_cons x l : ∃ n r, runs (x :: l) = (x, n) :: r ∧ 1 ≤ n.
Proof.
  revert x. induction l as [|y l IH]; intros x; [exists 1, []; done|].
  destruct (IH y) as (n & r & H & Hn). cbn [runs] in *. rewrite H. case_bool_decide as Hxy.
  - subst. exists (n + 1), r. split; [done|lia].
  - exists 1, ((y, n) :: r). split; [done|lia].
Qed.

Lemma log_lines_run p k lines n r :
  1 ≤ k → runs (p :: lines) = (p, n) :: r →
  (let '(s, out) := log_lines (mkLogRun p k) lines in out ++ snd (flushLogRun s))
  = run_summary p (k + n - 1) ++ concat (print_run <$> r).
Proof.
  revert p k n r. induction lines as [|x lines IH]; intros p k n r Hk Hr.
  - simpl in *. simplify_eq. rewrite app_nil_r. f_equal. lia.
  - cbn [log_lines]. unfold logLine. cbn [logRunLine logRunCount].
    destruct (runs_cons x lines) as (m & r' & Hx & Hm).
    cbn [runs] in Hr, Hx. case_bool_decide as Hxp.
    + subst x. rewrite Hx in Hr. rewrite bool_decide_true in Hr by done. simplify_eq.
      specialize (IH p (k + 1) m r ltac:(lia) Hx).
      destruct (log_lines _ lines) as [s out]. rewrite app_nil_l, IH. do 2 f_equal. lia.
    + rewrite Hx in Hr. rewrite bool_decide_false in Hr by done. simplify_eq.
      specialize (IH x 1 m r' ltac:(lia) Hx).
      destruct (log_lines _ lines) as [s out]. rewrite <-app_assoc, IH.
      replace (k + 1 - 1) with k by lia. replace (1 + m - 1) with m by lia. simpl.
      by rewrite <-!app_assoc.
Qed.

(** the stored narration is exactly the run-length reading of the lines: only consecutive
    repeats collapse, and no count is lost, including the last one. *)
Theorem narrate_runs lines :
  Forall (λ l, l ≠ "") lines → narrate lines = concat (print_run <$> runs lines).
Proof.
  intros Hne. unfold narrate. destruct lines as [|x lines]; [done|].
  cbn [log_lines]. unfold logLine. cbn [logRunLine logRunCount no_run].
  rewrite bool_decide_false by (by inversion Hne).
  destruct (runs_cons x lines) as (n & r & Hr & Hn). rewrite Hr.
  pose proof (log_lines_run x 1 lines n r ltac:(lia) Hr) as H.
  destruct (log_lines _ lines) as [s out]. rewrite <-app_assoc, H.
  replace (1 + n - 1) with n by lia. done.
Qed.

Lemma narrate_runs_witness :
  Forall (λ l, l ≠ "") ["Receiving files"; "Receiving files"; "Backup Successful."] ∧
  narrate ["Receiving files"; "Receiving files"; "Backup Successful."]
  = ["Receiving files"; "Receiving files ... x2 total"; "Backup Successful."].
Proof.
  split; [repeat constructor; done|].
  rewrite narrate_runs; [reflexivity|repeat constructor; done].
Defined.
