(* ===== verification/Store.v ===== *)
(** * Store: the registry tables

    Models the job, version and audit tables of core/internal/store (jobs.go, versions.go,
    storages.go, audit.go).  A table is a map from its primary key.  The SQL driver is not modelled:
    a statement either takes effect or fails without effect, and [db_faults] says which of the next
    statements fail.  Times are stored to the second ([fmtTime]; see [db_time_reads_back]). *)

From Stdlib Require Import String Ascii.
From S2P Require Import Prelude Calendar Domain.

Record AuditEntry : Type := mkAudit { au_ID : string; au_TS : time; au_Event : string; au_Detail : string }.

Record DB : Type := mkDB {
  db_jobs : gmap string JobRow;
  db_versions : gmap string VersionRow;
  db_audit : gmap string AuditEntry;
  db_faults : list bool }.

Definition empty_DB : DB := mkDB ∅ ∅ ∅ [].

Definition with_jobs (f : gmap string JobRow → gmap string JobRow) (d : DB) : DB :=
  mkDB (f (db_jobs d)) (db_versions d) (db_audit d) (db_faults d).
Definition with_versions (f : gmap string VersionRow → gmap string VersionRow) (d : DB) : DB :=
  mkDB (db_jobs d) (f (db_versions d)) (db_audit d) (db_faults d).
Definition with_audit (f : gmap string AuditEntry → gmap string AuditEntry) (d : DB) : DB :=
  mkDB (db_jobs d) (db_versions d) (f (db_audit d)) (db_faults d).

(** One statement: it fails without effect when the next fault says so. *)
Definition statement {A} (m : stateM DB (result A)) : stateM DB (result A) := λ d,
  match db_faults d with
  | true :: fs => (Err "database error", mkDB (db_jobs d) (db_versions d) (db_audit d) fs)
  | false :: fs => m (mkDB (db_jobs d) (db_versions d) (db_audit d) fs)
  | [] => m d
  end.

(** A statement without a result, as the Go method returns it. *)
Definition exec (m : stateM DB error) : stateM DB error := λ d,
  let '(r, d') := statement (λ d, let '(e, d') := m d in
    (match e with None => Ok tt | Some msg => Err msg end, d')) d in
  (match r with Ok _ => None | Err msg => Some msg end, d').

(** What a time column gives back: the time to the second. *)
Definition db_time (t : time) : time := t - t `mod` Second.

Lemma db_time_reads_back t : printable_year t → parse_rfc3339 (fmt_rfc3339 t) = Some (db_time t).
Proof. apply parse_fmt_rfc3339. Qed.

(** ** Jobs *)

Definition store_job (j : JobRow) : JobRow :=
  mkJobRow (job_ID j) (job_UDID j) (job_Kind j) (job_Transport j) (job_State j) (job_Phase j)
    (job_Percent j) (job_BytesDone j) (job_BytesTotal j) (job_FilesReceived j) (job_Liveness j)
    (db_time (job_StartedAt j)) (db_time <$> job_FinishedAt j) (job_ErrorCode j) (job_ErrorMessage j)
    (job_RetryOf j) (job_StorageID j) (job_IntentID j) (job_Attempt j) (job_VersionID j).

(** The columns that [UpdateJob] writes, on top of the stored row [old]. *)
Definition update_job_columns (old j : JobRow) : JobRow :=
  mkJobRow (job_ID old) (job_UDID old) (job_Kind old) (job_Transport old) (job_State j) (job_Phase j)
    (job_Percent j) (job_BytesDone j) (job_BytesTotal j) (job_FilesReceived j) (job_Liveness j)
    (job_StartedAt old) (db_time <$> job_FinishedAt j) (job_ErrorCode j) (job_ErrorMessage j)
    (job_RetryOf old) (job_StorageID old) (job_IntentID old) (job_Attempt old) (job_VersionID j).

Definition InsertJob (j : JobRow) : stateM DB error := exec (λ d,
  match db_jobs d !! job_ID j with
  | Some _ => (Some "UNIQUE constraint failed: jobs.id"%string, d)
  | None => (None, with_jobs <[job_ID j := store_job j]> d)
  end).

Definition UpdateJob (j : JobRow) : stateM DB error := exec (λ d,
  (None, with_jobs (alter (λ old, update_job_columns old j) (job_ID j)) d)).

Definition GetJob (id : string) : stateM DB (result (option JobRow)) := statement (λ d,
  (Ok (db_jobs d !! id), d)).

(** [ORDER BY id DESC]. *)
Definition job_desc (a b : JobRow) : Prop := str_le (job_ID b) (job_ID a).
#[global] Instance job_desc_dec : RelDecision job_desc.
Proof. intros a b. unfold job_desc. apply _. Defined.

Definition jobs_desc (d : DB) : list JobRow := merge_sort job_desc (snd <$> map_to_list (db_jobs d)).

Definition ListJobs (udid cursor : string) (limit : Z) : stateM DB (result (list JobRow * string)) :=
  let limit := Z.to_nat (if limit <=? 0 then 50 else limit) in
  statement (λ d,
    let matching := filter (λ j, (cursor = "" ∨ str_lt (job_ID j) cursor) ∧ (udid = "" ∨ job_UDID j = udid))
                      (jobs_desc d) in
    let out := take (limit + 1) matching in
    (Ok (if bool_decide (limit < length out)%nat
         then (take limit out, from_option job_ID "" (out !! (limit - 1)%nat))
         else (out, ""%string)), d)).

Definition ListNonTerminalJobs : stateM DB (result (list JobRow)) := statement (λ d,
  (Ok (filter (λ j, JobIsTerminal (job_State j) = false) (rev (jobs_desc d))), d)).

(** ** Versions *)

Definition store_version (v : VersionRow) : VersionRow :=
  mkVersionRow (ver_ID v) (ver_UDID v) (ver_Backend v) (ver_ZFSSnapshot v) (db_time (ver_CreatedAt v))
    (ver_JobID v) (ver_Kind v) (ver_Encrypted v) (ver_IsLatest v) (db_time <$> ver_StructureVerifiedAt v)
    (db_time <$> ver_ContentVerifiedAt v) (ver_LogicalBytes v) (ver_Missing v) (ver_StorageID v).

Definition set_latest (b : bool) (v : VersionRow) : VersionRow :=
  mkVersionRow (ver_ID v) (ver_UDID v) (ver_Backend v) (ver_ZFSSnapshot v) (ver_CreatedAt v)
    (ver_JobID v) (ver_Kind v) (ver_Encrypted v) b (ver_StructureVerifiedAt v)
    (ver_ContentVerifiedAt v) (ver_LogicalBytes v) (ver_Missing v) (ver_StorageID v).
Definition set_missing (b : bool) (v : VersionRow) : VersionRow :=
  mkVersionRow (ver_ID v) (ver_UDID v) (ver_Backend v) (ver_ZFSSnapshot v) (ver_CreatedAt v)
    (ver_JobID v) (ver_Kind v) (ver_Encrypted v) (ver_IsLatest v) (ver_StructureVerifiedAt v)
    (ver_ContentVerifiedAt v) (ver_LogicalBytes v) b (ver_StorageID v).
Definition set_storage (s : option string) (v : VersionRow) : VersionRow :=
  mkVersionRow (ver_ID v) (ver_UDID v) (ver_Backend v) (ver_ZFSSnapshot v) (ver_CreatedAt v)
    (ver_JobID v) (ver_Kind v) (ver_Encrypted v) (ver_IsLatest v) (ver_StructureVerifiedAt v)
    (ver_ContentVerifiedAt v) (ver_LogicalBytes v) (ver_Missing v) s.
Definition set_content_verified (t : time) (v : VersionRow) : VersionRow :=
  mkVersionRow (ver_ID v) (ver_UDID v) (ver_Backend v) (ver_ZFSSnapshot v) (ver_CreatedAt v)
    (ver_JobID v) (ver_Kind v) (ver_Encrypted v) (ver_IsLatest v) (ver_StructureVerifiedAt v)
    (Some (db_time t)) (ver_LogicalBytes v) (ver_Missing v) (ver_StorageID v).

Definition InsertVersion (v : VersionRow) : stateM DB error := exec (λ d,
  match db_versions d !! ver_ID v with
  | Some _ => (Some "UNIQUE constraint failed: versions.id"%string, d)
  | None => (None, with_versions <[ver_ID v := store_version v]> d)
  end).

(** [storage_id IS ?] compares nullable values: the unattributed rows are a group of their own. *)
Definition PromoteLatest (udid id : string) (storageID : option string) : stateM DB error := exec (λ d,
  (None, with_versions (fmap (λ v,
     if bool_decide (ver_UDID v = udid ∧ ver_StorageID v = storageID)
     then set_latest (bool_decide (ver_ID v = id)) v else v)) d)).

(** [ORDER BY created_at DESC, id DESC]. *)
Definition version_desc (a b : VersionRow) : Prop :=
  ver_CreatedAt b < ver_CreatedAt a ∨
  (ver_CreatedAt a = ver_CreatedAt b ∧ str_le (ver_ID b) (ver_ID a)).
#[global] Instance version_desc_dec : RelDecision version_desc.
Proof. intros a b. unfold version_desc. apply _. Defined.

Definition versions_desc (d : DB) : list VersionRow :=
  merge_sort version_desc (snd <$> map_to_list (db_versions d)).

Definition ListVersions (udid : string) : stateM DB (result (list VersionRow)) := statement (λ d,
  (Ok (filter (λ v, udid = "" ∨ ver_UDID v = udid) (versions_desc d)), d)).

Definition GetVersion (id : string) : stateM DB (result (option VersionRow)) := statement (λ d,
  (Ok (db_versions d !! id), d)).

Definition DeleteVersion (id : string) : stateM DB error := exec (λ d,
  (None, with_versions (delete id) d)).

Definition MarkVersionMissing (id : string) (missing : bool) : stateM DB error := exec (λ d,
  (None, with_versions (alter (set_missing missing) id) d)).

Definition SetContentVerified (id : string) (t : time) : stateM DB error := exec (λ d,
  (None, with_versions (alter (set_content_verified t) id) d)).

(** [... WHERE id = ? AND storage_id IS NULL]: attribution fills, it never rewrites. *)
Definition AttributeVersion (id storageID : string) : stateM DB error := exec (λ d,
  (None, with_versions (alter (λ v, match ver_StorageID v with
     | None => set_storage (Some storageID) v | Some _ => v end) id) d)).

Definition AppendAudit (e : AuditEntry) : stateM DB error := exec (λ d,
  match db_audit d !! au_ID e with
  | Some _ => (Some "UNIQUE constraint failed: audit.id"%string, d)
  | None => (None, with_audit <[au_ID e := e]> d)
  end).

(** ** The tables' invariant: a row is stored under its own id *)

Record db_ok (d : DB) : Prop := {
  jobs_keyed : ∀ k j, db_jobs d !! k = Some j → job_ID j = k;
  versions_keyed : ∀ k v, db_versions d !! k = Some v → ver_ID v = k }.

Lemma empty_db_ok : db_ok empty_DB.
Proof. split; intros k r; simpl; by rewrite lookup_empty. Qed.

Lemma statement_ok {A} (m : stateM DB (result A)) d :
  (∀ d, db_ok d → db_ok (snd (m d))) → db_ok d → db_ok (snd (statement m d)).
Proof.
  intros Hm [Hj Hv]. unfold statement. destruct (db_faults d) as [|[] fs].
  - by apply Hm.
  - by split.
  - apply Hm. by split.
Qed.

Lemma exec_ok (m : stateM DB error) d :
  (∀ d, db_ok d → db_ok (snd (m d))) → db_ok d → db_ok (snd (exec m d)).
Proof.
  intros Hm Hd. unfold exec.
  pose proof (statement_ok (λ d, let '(e, d') := m d in
    (match e with None => Ok tt | Some msg => Err msg end, d')) d) as H.
  destruct (statement _ d) as [r d']. simpl in *. apply H; [|done].
  intros d1 H1. specialize (Hm d1 H1). by destruct (m d1).
Qed.

Lemma alter_versions_ok (f : VersionRow → VersionRow) id d :
  (∀ v, ver_ID (f v) = ver_ID v) → db_ok d → db_ok (with_versions (alter f id) d).
Proof.
  intros Hf [Hj Hv]. split; simpl; [done|]. intros k v. rewrite lookup_alter.
  case_decide; [|apply Hv]. intros (w & Hw & ->)%fmap_Some_1. subst. rewrite Hf. by apply Hv.
Qed.

Lemma InsertJob_ok j d : db_ok d → db_ok (snd (InsertJob j d)).
Proof.
  apply exec_ok. intros d' [Hj Hv]. destruct (db_jobs d' !! job_ID j); [by split|].
  split; simpl; [|done]. intros k r. rewrite lookup_insert.
  case_decide; [by intros [= <-]|apply Hj].
Qed.

Lemma UpdateJob_ok j d : db_ok d → db_ok (snd (UpdateJob j d)).
Proof.
  apply exec_ok. intros d' [Hj Hv]. split; simpl; [|done]. intros k r. rewrite lookup_alter.
  case_decide; [|apply Hj]. intros (w & Hw & ->)%fmap_Some_1. subst. simpl. by apply Hj.
Qed.

Lemma InsertVersion_ok v d : db_ok d → db_ok (snd (InsertVersion v d)).
Proof.
  apply exec_ok. intros d' [Hj Hv]. destruct (db_versions d' !! ver_ID v); [by split|].
  split; simpl; [done|]. intros k r. rewrite lookup_insert.
  case_decide; [by intros [= <-]|apply Hv].
Qed.

Lemma PromoteLatest_ok u id st d : db_ok d → db_ok (snd (PromoteLatest u id st d)).
Proof.
  apply exec_ok. intros d' [Hj Hv]. split; simpl; [done|]. intros k v. rewrite lookup_fmap.
  intros (w & Hw & ->)%fmap_Some_1. apply Hv in Hw. by case_bool_decide.
Qed.

Lemma DeleteVersion_ok id d : db_ok d → db_ok (snd (DeleteVersion id d)).
Proof.
  apply exec_ok. intros d' [Hj Hv]. split; simpl; [done|]. intros k v.
  rewrite lookup_delete_Some. intros [_ ?]. by apply Hv.
Qed.

Lemma MarkVersionMissing_ok id b d : db_ok d → db_ok (snd (MarkVersionMissing id b d)).
Proof. apply exec_ok. intros d' Hd. by apply alter_versions_ok. Qed.

Lemma AttributeVersion_ok id s d : db_ok d → db_ok (snd (AttributeVersion id s d)).
Proof. apply exec_ok. intros d' Hd. apply alter_versions_ok; [|done]. intros v. by case_match. Qed.

#[export] Hint Resolve empty_db_ok InsertJob_ok UpdateJob_ok InsertVersion_ok PromoteLatest_ok
  DeleteVersion_ok MarkVersionMissing_ok AttributeVersion_ok : quince.

(** ** What a statement does to the tables, whether it fails or not *)

Definition same_tables (d d' : DB) : Prop :=
  db_jobs d' = db_jobs d ∧ db_versions d' = db_versions d ∧ db_audit d' = db_audit d.

Lemma exec_cases (f : stateM DB error) d :
  is_Some (exec f d).1 ∧ same_tables d (exec f d).2 ∨
  ∃ d0, same_tables d d0 ∧ (exec f d).1 = (f d0).1 ∧ (exec f d).2 = (f d0).2.
Proof.
  unfold exec, statement. destruct (db_faults d) as [|[] fs]; simpl.
  - right. exists d. split; [done|]. destruct (f d) as [[|] d']; done.
  - left. split; [eauto|done].
  - right. exists (mkDB (db_jobs d) (db_versions d) (db_audit d) fs). split; [done|].
    by destruct (f _) as [[|] d'].
Qed.

Lemma statement_cases {A} (f : DB → A) d :
  same_tables d (statement (λ d, (Ok (f d), d)) d).2 ∧
  ((∃ e, (statement (λ d, (Ok (f d), d)) d).1 = Err e) ∨
   ∃ d0, same_tables d d0 ∧ (statement (λ d, (Ok (f d), d)) d).1 = Ok (f d0)).
Proof.
  unfold statement. destruct (db_faults d) as [|[] fs]; simpl; (split; [done|]); [right|left|right]; eauto.
  - by exists d.
  - by eexists (mkDB _ _ _ _).
Qed.

(** A statement that only changes version rows, by [f], or fails. *)
Definition changes_versions (op : stateM DB error) (f : gmap string VersionRow → gmap string VersionRow) :
    Prop := ∀ d,
  db_jobs (op d).2 = db_jobs d ∧
  ((op d).1 = None ∧ db_versions (op d).2 = f (db_versions d) ∨
   is_Some (op d).1 ∧ db_versions (op d).2 = db_versions d).

Lemma exec_changes_versions (f : gmap string VersionRow → gmap string VersionRow) :
  changes_versions (exec (λ d, (None, with_versions f d))) f.
Proof.
  intros d. destruct (exec_cases (λ d, (None, with_versions f d)) d) as [[? [Hj [Hv _]]]|(d0 & [Hj [Hv _]] & He & Hd)].
  - split; [done|]. right. split; [done|]. by rewrite Hv.
  - rewrite He, Hd. simpl. rewrite Hv, Hj. auto.
Qed.

Lemma MarkVersionMissing_changes id b :
  changes_versions (MarkVersionMissing id b) (alter (set_missing b) id).
Proof. apply exec_changes_versions. Qed.
Lemma DeleteVersion_changes id : changes_versions (DeleteVersion id) (delete id).
Proof. apply exec_changes_versions. Qed.
Lemma AttributeVersion_changes id st :
  changes_versions (AttributeVersion id st) (alter (λ v, match ver_StorageID v with
     | None => set_storage (Some st) v | Some _ => v end) id).
Proof. apply exec_changes_versions. Qed.
Lemma PromoteLatest_changes udid id st :
  changes_versions (PromoteLatest udid id st) (fmap (λ v,
     if bool_decide (ver_UDID v = udid ∧ ver_StorageID v = st)
     then set_latest (bool_decide (ver_ID v = id)) v else v)).
Proof. apply exec_changes_versions. Qed.

Lemma InsertVersion_cases v d :
  db_jobs (InsertVersion v d).2 = db_jobs d ∧
  ((InsertVersion v d).1 = None ∧ db_versions d !! ver_ID v = None ∧
     db_versions (InsertVersion v d).2 = <[ver_ID v := store_version v]> (db_versions d) ∨
   is_Some (InsertVersion v d).1 ∧ db_versions (InsertVersion v d).2 = db_versions d).
Proof.
  unfold InsertVersion. match goal with |- context [exec ?f d] => set (op := f) end.
  destruct (exec_cases op d) as [[? [Hj [Hv _]]]|(d0 & [Hj [Hv _]] & He & Hd)].
  - split; [done|]. right. by rewrite Hv.
  - rewrite He, Hd. unfold op. rewrite Hv. destruct (db_versions d !! ver_ID v) eqn:Hl; simpl.
    + split; [done|]. right. split; [eauto|done].
    + rewrite Hv, Hj. auto.
Qed.

Lemma AppendAudit_versions e d :
  db_jobs (AppendAudit e d).2 = db_jobs d ∧ db_versions (AppendAudit e d).2 = db_versions d.
Proof.
  unfold AppendAudit. match goal with |- context [exec ?f d] => set (op := f) end.
  destruct (exec_cases op d) as [[? [Hj [Hv _]]]|(d0 & [Hj [Hv _]] & He & Hd)]; [by rewrite Hj, Hv|].
  rewrite Hd. unfold op. destruct (db_audit d0 !! au_ID e); simpl; by rewrite ?Hj, ?Hv.
Qed.

(** ** Pagination *)

#[global] Instance job_desc_trans : Transitive job_desc.
Proof. unfold job_desc. intros a b c ??. by etrans. Qed.
#[global] Instance job_desc_total : Total job_desc.
Proof. intros a b. unfold job_desc. apply (total str_le). Qed.

Lemma jobs_desc_sorted d : StronglySorted job_desc (jobs_desc d).
Proof.
  apply Sorted_StronglySorted; [apply _|]. apply (Sorted_merge_sort _).
Qed.

Lemma elem_of_jobs_desc d j : j ∈ jobs_desc d ↔ ∃ k, db_jobs d !! k = Some j.
Proof.
  unfold jobs_desc. rewrite (merge_sort_Permutation job_desc), list_elem_of_fmap. split.
  - intros ([k r] & -> & H%elem_of_map_to_list). eauto.
  - intros [k H]. exists (k, j). split; [done|]. by apply elem_of_map_to_list.
Qed.

Lemma jobs_desc_nodup d : db_ok d → NoDup (job_ID <$> jobs_desc d).
Proof.
  intros [Hj _]. unfold jobs_desc. rewrite (merge_sort_Permutation job_desc).
  rewrite <-list_fmap_compose.
  rewrite (list_fmap_ext (job_ID ∘ snd) fst (map_to_list (db_jobs d))); [apply NoDup_fst_map_to_list|].
  intros i [k r] Hi%list_elem_of_lookup_2. apply elem_of_map_to_list in Hi. by apply Hj in Hi.
Qed.

(** The jobs that a walk over the pages must visit. *)
Definition jobs_of (udid : string) (d : DB) : list JobRow :=
  filter (λ j, udid = "" ∨ job_UDID j = udid) (jobs_desc d).

(** Walking the pages: follow [next] until it is empty. *)
Fixpoint walk_pages (fuel : nat) (udid cursor : string) (limit : Z) (d : DB) : option (list JobRow) :=
  match fuel with
  | O => None
  | S fuel' =>
      match fst (ListJobs udid cursor limit d) with
      | Err _ => None
      | Ok (page, next) =>
          if bool_decide (next = "") then Some page
          else rest ← walk_pages fuel' udid next limit d; Some (page ++ rest)
      end
  end.

(** In a list sorted by strictly descending ids, the ids below that of an element are those of
    the elements after it. *)
Lemma filter_below pre x post :
  StronglySorted job_desc (pre ++ x :: post) → NoDup (job_ID <$> pre ++ x :: post) →
  filter (λ j, str_lt (job_ID j) (job_ID x)) (pre ++ x :: post) = post.
Proof.
  intros Hs Hnd. rewrite filter_app, filter_cons.
  rewrite decide_False by apply (irreflexivity str_lt).
  apply StronglySorted_app in Hs as (Hpre & _ & Hxp).
  rewrite fmap_app, fmap_cons in Hnd. apply NoDup_app in Hnd as (_ & _ & Hnd).
  apply NoDup_cons in Hnd as [Hx _].
  rewrite filter_false, filter_true; [done|..]; apply Forall_forall; intros j Hj.
  - inversion Hxp as [|?? _ Hall]; subst. rewrite Forall_forall in Hall.
    specialize (Hall j Hj). unfold job_desc in Hall. apply str_le_lteq in Hall as [|E]; [done|].
    exfalso. apply Hx. rewrite <-E. apply list_elem_of_fmap. eauto.
  - apply (Hpre j x); [done|]. apply elem_of_cons. by left.
Qed.

(** The rows that one query sees, after the rows [pre] have been served. *)
Lemma rows_after udid d pre rem cursor :
  db_ok d → jobs_of udid d = pre ++ rem →
  (pre = [] ∧ cursor = ""%string ∨ cursor ≠ ""%string ∧ ∃ x, last pre = Some x ∧ job_ID x = cursor) →
  filter (λ j, (cursor = "" ∨ str_lt (job_ID j) cursor) ∧ (udid = "" ∨ job_UDID j = udid)) (jobs_desc d)
  = rem.
Proof.
  intros Hd Hsplit Hc. rewrite <-list_filter_filter. fold (jobs_of udid d). rewrite Hsplit.
  destruct Hc as [[-> ->]|(Hne & x & (pre' & ->)%last_Some & <-)].
  - rewrite filter_true; [done|]. apply Forall_forall. auto.
  - rewrite <-app_assoc in *. simpl in *.
    etrans; [|apply (filter_below pre' x rem)].
    + apply list_filter_iff. intros j. split; [by intros [?|?]|by right].
    + rewrite <-Hsplit. apply ssorted_filter, jobs_desc_sorted.
    + rewrite <-Hsplit. eapply sublist_NoDup; [by apply (jobs_desc_nodup d)|].
      apply fmap_sublist. unfold jobs_of. apply sublist_filter.
Qed.

Lemma ListJobs_page udid d pre rem cursor limit :
  db_ok d → db_faults d = [] → jobs_of udid d = pre ++ rem →
  (pre = [] ∧ cursor = ""%string ∨ cursor ≠ ""%string ∧ ∃ x, last pre = Some x ∧ job_ID x = cursor) →
  let n := Z.to_nat (if limit <=? 0 then 50 else limit) in
  (length rem ≤ n)%nat ∧ fst (ListJobs udid cursor limit d) = Ok (rem, "") ∨
  ∃ page x rem', rem = (page ++ [x]) ++ rem' ∧ rem' ≠ [] ∧ job_ID x ≠ "" ∧
    length (page ++ [x]) = n ∧ fst (ListJobs udid cursor limit d) = Ok (page ++ [x], job_ID x).
Proof.
  intros Hd Hf Hsplit Hc n. unfold ListJobs, statement. rewrite Hf. cbn [fst]. fold n.
  rewrite (rows_after udid d pre rem cursor Hd Hsplit Hc). rewrite length_take.
  assert (1 ≤ n)%nat as Hn by (subst n; destruct (Z.leb_spec limit 0); lia).
  case_bool_decide as Hlen; [|left; split; [lia|]; by rewrite take_ge by lia].
  right. rewrite take_take, Nat.min_l by lia.
  assert (∃ x, rem !! (n - 1)%nat = Some x) as [x Hx].
  { apply lookup_lt_is_Some. lia. }
  assert (take n rem = take (n - 1) rem ++ [x]) as Ht.
  { replace n with (S (n - 1)) at 1 by lia. by apply take_S_r. }
  exists (take (n - 1) rem), x, (drop n rem). rewrite <-Ht.
  split; [by rewrite take_drop|]. split.
  { intros Hnil. apply (f_equal length) in Hnil. rewrite length_drop in Hnil. simpl in Hnil. lia. }
  split.
  - intros He. assert (∃ y, rem !! n = Some y) as [y Hy] by (apply lookup_lt_is_Some; lia).
    assert (StronglySorted job_desc rem ∧ NoDup (job_ID <$> rem)) as [Hs Hnd].
    { split.
      - eapply (StronglySorted_app_1_r _ pre). rewrite <-Hsplit. apply ssorted_filter, jobs_desc_sorted.
      - assert (NoDup (job_ID <$> pre ++ rem)) as Hall.
        { rewrite <-Hsplit. eapply sublist_NoDup; [by apply (jobs_desc_nodup d)|].
          apply fmap_sublist, sublist_filter. }
        rewrite fmap_app in Hall. by apply NoDup_app in Hall as (_ & _ & ?). }
    pose proof (filter_below (take (n - 1) rem) x (drop n rem)) as Hb.
    assert (take (n - 1) rem ++ x :: drop n rem = rem) as Hrem.
    { change (x :: drop n rem) with ([x] ++ drop n rem). by rewrite app_assoc, <-Ht, take_drop. }
    rewrite Hrem in Hb. specialize (Hb Hs Hnd).
    assert (y ∈ drop n rem) as Hyin.
    { apply (list_elem_of_lookup_2 _ 0). by rewrite lookup_drop, Nat.add_0_r. }
    rewrite <-Hb in Hyin. apply list_elem_of_filter in Hyin as [Hlt _]. rewrite He in Hlt.
    by destruct (job_ID y).
  - split; [rewrite length_take; lia|]. rewrite lookup_take_lt by lia. by rewrite Hx.
Qed.

(** walking the job history page by page, for any page size, visits every job of the device
    exactly once, newest first, and ends. *)
Theorem walk_pages_complete udid limit d :
  db_ok d → db_faults d = [] →
  walk_pages (S (length (jobs_of udid d))) udid "" limit d = Some (jobs_of udid d).
Proof.
  intros Hd Hf.
  enough (∀ rem pre cursor fuel, jobs_of udid d = pre ++ rem → (length rem < fuel)%nat →
    (pre = [] ∧ cursor = ""%string ∨ cursor ≠ ""%string ∧ ∃ x, last pre = Some x ∧ job_ID x = cursor) →
    walk_pages fuel udid cursor limit d = Some rem) as H by (apply (H _ []); auto; lia).
  intros rem. induction rem as [rem IH] using (induction_ltof1 _ length). unfold ltof in IH.
  intros pre cursor [|fuel] Hsplit Hfuel Hc; [lia|]. cbn [walk_pages].
  destruct (ListJobs_page udid d pre rem cursor limit Hd Hf Hsplit Hc)
    as [(_ & ->)|(page & x & rem' & -> & Hne & Hx & _ & ->)]; [done|].
  rewrite bool_decide_false by done. rewrite !length_app in *. simpl in *.
  rewrite (IH rem' ltac:(lia) (pre ++ page ++ [x]) (job_ID x) fuel); [done|..].
  - by rewrite Hsplit, !app_assoc.
  - lia.
  - right. split; [done|]. exists x. split; [|done]. by rewrite app_assoc, last_snoc.
Qed.

Definition demo_job (id : string) : JobRow :=
  mkJobRow id "device-1" "backup" "usb" "queued" "queued" None 0 0 0 "active" 0 None "" "" None None id 1 None.
Definition demo_db : DB :=
  fold_right (λ j d, with_jobs <[job_ID j := j]> d) empty_DB (demo_job <$> ["a"; "b"; "c"; "d"; "e"]%string).

Lemma demo_db_ok : db_ok demo_db.
Proof.
  split; [|intros k v H; change (db_versions demo_db) with (∅ : gmap string VersionRow) in H;
           by rewrite lookup_empty in H].
  assert (map_Forall (λ k j, job_ID j = k) (db_jobs demo_db)) as H; [|intros k j Hk; by apply H].
  apply (bool_decide_unpack _). vm_compute. exact I.
Qed.

Lemma walk_pages_complete_witness :
  db_ok demo_db ∧ db_faults demo_db = [] ∧
  job_ID <$> default [] (walk_pages 6 "device-1" "" 2 demo_db) = ["e"; "d"; "c"; "b"; "a"]%string.
Proof.
  split; [apply demo_db_ok|]. split; [reflexivity|].
  pose proof (walk_pages_complete "device-1" 2 demo_db demo_db_ok eq_refl) as H.
  change 6%nat with (S (length (jobs_of "device-1" demo_db))). rewrite H. vm_compute. reflexivity.
Defined.
