(* ===== verification/Backend.v ===== *)
(** * Backend: what a storage backend is

    The data that backends exchange with the storage manager and the [Backend] interface of
    core/internal/storage/storage.go, with the markers and journals of marker.go and journal.go.
    A backend value is a record of operations over a world [W] (the disk), as a Go interface value
    is.  A path is the list of its components. *)

From Stdlib Require Import String Ascii.
From S2P Require Import Prelude Calendar Domain.

Definition BackendZFS : string := "zfs".
Definition BackendReflink : string := "reflink".
Definition BackendHardlink : string := "hardlink".
Definition BackendCopy : string := "copy".

Record VerifyResult : Type := mkVerifyResult {
  vr_OK : bool; vr_Encrypted : bool; vr_Kind : string; vr_LogicalBytes : Z; vr_Detail : string }.

Record CommitReq : Type := mkCommitReq {
  cr_UDID : string; cr_JobID : string; cr_VersionID : string; cr_CreatedAt : time;
  cr_Verify : VerifyResult }.

Record Committed : Type := mkCommitted {
  co_VersionID : string; co_UDID : string; co_Backend : string; co_ZFSSnapshot : option string;
  co_CreatedAt : time; co_JobID : option string; co_Kind : string; co_Encrypted : bool;
  co_StructureVerifiedAt : time; co_LogicalBytes : Z }.

(** quince-version.json. *)
Record Marker : Type := mkMarker {
  mk_VersionID : string; mk_JobID : string; mk_UDID : string; mk_Backend : string;
  mk_CreatedAt : string; mk_Kind : string; mk_Encrypted : bool; mk_StructureVerifiedAt : string;
  mk_AppVersion : string; mk_Checksum : string }.

#[global] Instance Marker_eq_dec : EqDecision Marker.
Proof. solve_decision. Defined.

Record Artifact : Type := mkArtifact {
  ar_UDID : string; ar_Backend : string; ar_ZFSSnapshot : option string; ar_Marker : Marker;
  ar_IsLatest : bool; ar_LogicalBytes : Z }.

Inductive CommitPhase : Type := PhasePrepared | PhaseExchanged | PhaseArchived | PhaseSnapshotCreated.
#[global] Instance CommitPhase_eq_dec : EqDecision CommitPhase.
Proof. solve_decision. Defined.

(** .quince-commit.json. *)
Record Journal : Type := mkJournal {
  jn_VersionID : string; jn_UDID : string; jn_Backend : string; jn_JobID : string;
  jn_Phase : CommitPhase; jn_CreatedAt : string; jn_Kind : string; jn_Encrypted : bool;
  jn_StructureVerifiedAt : string; jn_LogicalBytes : Z; jn_JobDir : list string; jn_PrevTS : string;
  jn_ZFSSnapshot : string; jn_DeviceDir : list string }.

#[global] Instance Journal_eq_dec : EqDecision Journal.
Proof. solve_decision. Defined.

(** quince-storage.json. *)
Record StorageMarker : Type := mkStorageMarker {
  sm_StorageID : string; sm_Backend : string; sm_CreatedAt : string; sm_AppVersion : string;
  sm_Checksum : string }.

(** .quince-work.json. *)
Record workState : Type := mkWorkState { ws_SeededFromLatest : bool; ws_SeedInProgress : bool }.
#[global] Instance workState_eq_dec : EqDecision workState.
Proof. solve_decision. Defined.

Definition kindOf (w : workState) : string :=
  if ws_SeededFromLatest w then "incremental" else "full".

Definition zero_Marker : Marker := mkMarker "" "" "" "" "" "" false "" "" "".

Record Backend (W : Type) : Type := mkBackend {
  b_Name : string;
  b_Provision : string → stateM W error;
  b_WorkDir : string → string → stateM W (result (list string));
  b_PrepareWork : string → string → stateM W (result (list string * bool));
  b_SeedWork : string → string → stateM W error;
  b_TreePath : string → string → list string;
  b_Commit : CommitReq → stateM W (result Committed);
  b_ResumeCommit : Journal → stateM W (result (Committed * bool));
  b_Discard : string → string → stateM W (string * error);
  b_DeleteArtifact : Artifact → stateM W error;
  b_RepairWorkingCopy : string → stateM W error;
  b_Scan : string → stateM W (result (list Artifact));
  b_PendingJournals : stateM W (result (list Journal));
  b_SweepWork : string → stateM W error;
  b_Dirty : string → W → bool }.

Arguments b_Name {W} _.
Arguments b_Provision {W} _ _.
Arguments b_WorkDir {W} _ _ _.
Arguments b_PrepareWork {W} _ _ _.
Arguments b_SeedWork {W} _ _ _.
Arguments b_TreePath {W} _ _ _.
Arguments b_Commit {W} _ _.
Arguments b_ResumeCommit {W} _ _.
Arguments b_Discard {W} _ _ _.
Arguments b_DeleteArtifact {W} _ _.
Arguments b_RepairWorkingCopy {W} _ _.
Arguments b_Scan {W} _ _.
Arguments b_PendingJournals {W} _.
Arguments b_SweepWork {W} _ _.
Arguments b_Dirty {W} _ _ _.

Record RetentionPolicy : Type := mkRetention { KeepRecent : Z; KeepDaily : Z; KeepWeekly : Z }.
