(* ===== verification/FS.v ===== *)
(** * FS: the file system under a storage

    A disk is a tree of named entries.  The system calls that the storage code makes are partial
    functions on trees.  [d_fault] says which calls of a run fail, and [d_left] what a failing call
    leaves of the entry it was creating or removing.  File contents are the values that the code
    writes: quince's JSON sidecars as the records they decode to, any other file as its bytes.
    Symbolic links, modes, times and hard-link sharing are not modelled. *)

From Stdlib Require Import String Ascii.
From S2P Require Import Prelude Backend.

Abbreviation path := (list string).

Inductive content : Type :=
  | CData (data : string)
  | CMarker (m : Marker)
  | CJournal (j : Journal)
  | CWork (w : workState)
  | CTorn
  | CStorageMarker (m : StorageMarker).

#[warnings="-register-all"]
Inductive node : Type :=
  | NFile (c : content)
  | NDir (es : gmap string node).

(** The outcome of a call: [FAbsent] is [os.ErrNotExist], [FErr] any other error. *)
Inductive fs_res (A : Type) : Type :=
  | FOk (a : A)
  | FAbsent
  | FErr.
Arguments FOk {A} _.
Arguments FAbsent {A}.
Arguments FErr {A}.

#[global] Instance fs_ret : MRet fs_res := λ A a, FOk a.
#[global] Instance fs_bind : MBind fs_res :=
  λ A B f m, match m with FOk a => f a | FAbsent => FAbsent | FErr => FErr end.
#[global] Instance fs_fmap : FMap fs_res :=
  λ A B f m, match m with FOk a => FOk (f a) | FAbsent => FAbsent | FErr => FErr end.

Definition fs_ok {A} (r : fs_res A) : bool := match r with FOk _ => true | _ => false end.
Definition fs_opt {A} (o : option A) : fs_res A := match o with Some a => FOk a | None => FErr end.

(** ** Paths into a tree *)

Fixpoint stat (p : path) (n : node) : fs_res node :=
  match p with
  | [] => FOk n
  | c :: p' =>
      match n with
      | NFile _ => FErr
      | NDir es => match es !! c with Some m => stat p' m | None => FAbsent end
      end
  end.

Definition get (p : path) (n : node) : option node :=
  match stat p n with FOk m => Some m | _ => None end.

(** [put p x n] sets ([Some]) or removes ([None]) the entry at [p], whose parent must exist. *)
Fixpoint put (p : path) (x : option node) (n : node) : option node :=
  match p, n with
  | [], _ => x
  | [c], NDir es => Some (NDir (match x with Some m => <[c := m]> es | None => delete c es end))
  | c :: p', NDir es => m ← es !! c; m' ← put p' x m; Some (NDir (<[c := m']> es))
  | _ :: _, NFile _ => None
  end.

Definition is_dir (n : option node) : bool :=
  match n with Some (NDir _) => true | _ => false end.

(** Entry names in the order of [os.ReadDir]. *)
Definition names (es : gmap string node) : list string :=
  merge_sort str_le (fst <$> map_to_list es).

(** ** System calls on a tree *)

Definition sys_read_file (p : path) (root : node) : fs_res content :=
  n ← stat p root; match n with NFile c => FOk c | NDir _ => FErr end.

Definition sys_read_dir (p : path) (root : node) : fs_res (gmap string node) :=
  n ← stat p root; match n with NDir es => FOk es | NFile _ => FErr end.

Definition sys_write_file (p : path) (c : content) (root : node) : fs_res node :=
  match stat p root with
  | FOk (NDir _) => FErr
  | _ => fs_opt (put p (Some (NFile c)) root)
  end.

(** [os.Remove]: a file or an empty directory. *)
Definition sys_remove (p : path) (root : node) : fs_res node :=
  n ← stat p root;
  match n with
  | NFile _ => fs_opt (put p None root)
  | NDir es => if bool_decide (es = ∅) then fs_opt (put p None root) else FErr
  end.

(** [os.RemoveAll]: no error when there is nothing. *)
Definition sys_remove_all (p : path) (root : node) : fs_res node :=
  match stat p root with
  | FOk _ => fs_opt (put p None root)
  | FAbsent => FOk root
  | FErr => FErr
  end.

Fixpoint mkdir_all (p : path) (n : node) : option node :=
  match p, n with
  | [], NDir _ => Some n
  | c :: p', NDir es =>
      m ← mkdir_all p' (default (NDir ∅) (es !! c)); Some (NDir (<[c := m]> es))
  | _, NFile _ => None
  end.
Definition sys_mkdir_all (p : path) (root : node) : fs_res node := fs_opt (mkdir_all p root).

(** [os.Rename] of a directory to a free name. *)
Definition sys_rename (a b : path) (root : node) : fs_res node :=
  m ← stat a root;
  match stat b root with
  | FAbsent => fs_opt (root' ← put a None root; put b (Some m) root')
  | _ => FErr
  end.

(** [renameat2(a, b, RENAME_EXCHANGE)]: both names must exist. *)
Definition sys_exchange (a b : path) (root : node) : fs_res node :=
  m ← stat a root; m' ← stat b root;
  fs_opt (root' ← put a (Some m') root; put b (Some m) root').

(** A recursive copy of a directory tree to a free name. *)
Definition sys_clone (dst src : path) (root : node) : fs_res node :=
  m ← stat src root;
  match stat dst root with
  | FAbsent => fs_opt (root' ← mkdir_all dst root; put dst (Some m) root')
  | _ => FErr
  end.

(** ** The disk of a running process *)

Record Disk : Type := mkDisk {
  d_root : node;
  d_step : nat;                                    (* calls made so far *)
  d_fault : nat → bool;                            (* which calls fail *)
  d_left : nat → option node → option node }.      (* what a failing call leaves *)

Definition set_root (r : node) (d : Disk) : Disk := mkDisk r (d_step d) (d_fault d) (d_left d).
Definition tick_step (d : Disk) : Disk := mkDisk (d_root d) (S (d_step d)) (d_fault d) (d_left d).

(** A call that reads. *)
Definition sys_query {A} (f : node → fs_res A) : stateM Disk (fs_res A) := λ d,
  (if d_fault d (d_step d) then FErr else f (d_root d), tick_step d).

(** A call that changes the tree in one step, or not at all. *)
Definition sys_change (f : node → fs_res node) : stateM Disk (fs_res unit) := λ d,
  if d_fault d (d_step d) then (FErr, tick_step d)
  else match f (d_root d) with
       | FOk r => (FOk tt, set_root r (tick_step d))
       | FAbsent => (FAbsent, tick_step d)
       | FErr => (FErr, tick_step d)
       end.

(** What a failing call that was at work on [p] makes of the tree. *)
Definition leave (p : path) (left : option node → option node) (root : node) : node :=
  default root (put p (left (get p root)) root).

(** A failing write leaves the old file, a torn one or none; a failing removal leaves anything of
    what was there; a failing copy leaves anything. *)
Inductive work_kind : Type := Writing | Removing | Creating.
Definition left_by (k : work_kind) (left : option node → option node) (x : option node) : option node :=
  match k with
  | Writing => if is_dir (left x) then x else left x
  | Removing => match x with Some _ => left x | None => None end
  | Creating => left x
  end.

(** A call that works on the entry at [p] and can stop half-way. *)
Definition sys_change_at (k : work_kind) (p : path) (f : node → fs_res node) :
    stateM Disk (fs_res unit) := λ d,
  if d_fault d (d_step d)
  then (FErr, tick_step (set_root (leave p (left_by k (d_left d (d_step d))) (d_root d)) d))
  else sys_change f d.

Definition read_file (p : path) : stateM Disk (fs_res content) := sys_query (sys_read_file p).
Definition read_dir (p : path) : stateM Disk (fs_res (gmap string node)) := sys_query (sys_read_dir p).
Definition os_stat (p : path) : stateM Disk (fs_res node) := sys_query (stat p).
Definition write_file (p : path) (c : content) : stateM Disk (fs_res unit) :=
  sys_change_at Writing p (sys_write_file p c).
Definition os_remove (p : path) : stateM Disk (fs_res unit) := sys_change (sys_remove p).
Definition remove_all (p : path) : stateM Disk (fs_res unit) := sys_change_at Removing p (sys_remove_all p).
Definition os_mkdir_all (p : path) : stateM Disk (fs_res unit) := sys_change (sys_mkdir_all p).
Definition os_rename (a b : path) : stateM Disk (fs_res unit) := sys_change (sys_rename a b).
Definition exchange (a b : path) : stateM Disk (fs_res unit) := sys_change (sys_exchange a b).
Definition clone_tree (dst src : path) : stateM Disk (fs_res unit) :=
  sys_change_at Creating dst (sys_clone dst src).

(** Go's error values for the calls above. *)
Definition err_of {A} (r : fs_res A) (msg : string) : error :=
  if fs_ok r then None else Some msg.

(** [isEmptyDir]: absent, unreadable or without entries other than [.zfs]. *)
Definition snapdirName : string := ".zfs".

Definition no_entries (es : gmap string node) : bool :=
  forallb (λ name, bool_decide (name = snapdirName)) (names es).

Definition isEmptyDir (p : path) : stateM Disk bool :=
  r ← read_dir p;
  mret (match r with FOk es => no_entries es | _ => true end).

(** [dirSize]: the regular files below a directory, stepping over [.zfs]. *)
Section sizes.
(** The size of a file's encoding; the JSON encoder is not modelled. *)
Context (file_size : content → Z).

Fixpoint node_size (n : node) : Z :=
  match n with
  | NFile c => file_size c
  | NDir es =>
      map_fold (λ name m acc,
        match m with
        | NDir _ => if bool_decide (name = snapdirName) then acc else node_size m + acc
        | NFile _ => node_size m + acc
        end) 0 es
  end.

Definition dirSize (p : path) : stateM Disk Z :=
  r ← os_stat p; mret (match r with FOk n => node_size n | _ => 0 end).
End sizes.

(** ** Lemmas on trees *)

Lemma get_Some p n m : get p n = Some m ↔ stat p n = FOk m.
Proof. unfold get. destruct (stat p n); naive_solver. Qed.

Lemma stat_app p q n m : stat p n = FOk m → stat (p ++ q) n = stat q m.
Proof.
  revert n. induction p as [|c p IH]; intros n; simpl; [by intros [= ->]|].
  destruct n as [|es]; [done|]. destruct (es !! c); [apply IH|done].
Qed.

(** The parent of an entry is a directory. *)
Lemma stat_parent p c n m : stat (p ++ [c]) n = FOk m → ∃ es, stat p n = FOk (NDir es).
Proof.
  revert n. induction p as [|d p IH]; intros n; simpl.
  - destruct n as [|es]; [done|eauto].
  - destruct n as [|es]; [done|]. destruct (es !! d); [apply IH|done].
Qed.

Lemma put_cons c d p x es :
  put (c :: d :: p) x (NDir es) = m ← es !! c; m' ← put (d :: p) x m; Some (NDir (<[c := m']> es)).
Proof. done. Qed.

Lemma put_cons_Some c d p x es k :
  es !! c = Some k →
  put (c :: d :: p) x (NDir es) = m' ← put (d :: p) x k; Some (NDir (<[c := m']> es)).
Proof. intros H. by rewrite put_cons, H. Qed.

Lemma put_app p q x n m :
  q ≠ [] → stat p n = FOk m → put (p ++ q) x n = m' ← put q x m; put p (Some m') n.
Proof.
  intros Hq. revert n. induction p as [|c p IH]; intros n Hg; simpl in Hg.
  { simplify_eq. simpl. by destruct (put q x m). }
  destruct n as [|es]; [done|]. destruct (es !! c) as [k|] eqn:Hc; simpl in Hg; [|done].
  assert (∃ d r, p ++ q = d :: r) as (d & r & Hpq).
  { destruct p, q; simpl; eauto; done. }
  specialize (IH k Hg). change ((c :: p) ++ q) with (c :: (p ++ q)). rewrite Hpq in IH |- *.
  rewrite (put_cons_Some _ _ _ _ _ k) by done. rewrite IH.
  destruct (put q x m) as [m'|]; [|done].
  destruct p as [|e p]; [simpl in *; by simplify_eq|]. symmetry. by apply put_cons_Some.
Qed.

Lemma put_cons_inv c d p x n n' :
  put (c :: d :: p) x n = Some n' →
  ∃ es m m', n = NDir es ∧ es !! c = Some m ∧ put (d :: p) x m = Some m' ∧ n' = NDir (<[c := m']> es).
Proof.
  destruct n as [|es]; [done|]. rewrite put_cons. intros (m & Hc & H)%bind_Some.
  apply bind_Some in H as (m' & Hm & [= <-]). naive_solver.
Qed.

(** Replacing an entry that exists succeeds; the entry is then what was put, and a second put
    overrides the first. *)
Lemma put_replace p n m x :
  stat p n = FOk m → ∃ n', put p (Some x) n = Some n' ∧ stat p n' = FOk x ∧
    ∀ y, put p (Some y) n' = put p (Some y) n.
Proof.
  revert n. induction p as [|c p IH]; intros n Hs; [simpl; eauto|]. simpl in Hs.
  destruct n as [|es]; [done|]. destruct (es !! c) as [k|] eqn:Hc; [|done].
  destruct p as [|d p].
  { eexists. split_and!; [done|simpl; by rewrite lookup_insert_eq|].
    intros y. simpl. by rewrite insert_insert_eq. }
  destruct (IH k Hs) as (k' & Hk & Hs' & Hput). exists (NDir (<[c := k']> es)). split_and!.
  - rewrite (put_cons_Some _ _ _ _ _ k), Hk; done.
  - rewrite <-Hs'. simpl. by rewrite lookup_insert_eq.
  - intros y. rewrite (put_cons_Some c d p _ (<[c := k']> es) k'), (put_cons_Some c d p _ es k), Hput
      by (done || by rewrite lookup_insert_eq).
    destruct (put (d :: p) (Some y) k); [|done]. simpl. by rewrite insert_insert_eq.
Qed.

Lemma leave_id p root : leave p id root = root.
Proof.
  unfold leave, id. revert root. induction p as [|c p IH]; intros root; [done|].
  destruct root as [|es]; [by destruct p|]. destruct p as [|d p].
  - unfold get. simpl. destruct (es !! c) as [m|] eqn:Hc; simpl.
    + by rewrite insert_id.
    + by rewrite delete_id.
  - destruct (es !! c) as [m|] eqn:Hc; [|by rewrite put_cons, Hc].
    assert (get (c :: d :: p) (NDir es) = get (d :: p) m) as ->.
    { unfold get. change (stat (c :: d :: p) (NDir es)) with
        (match es !! c with Some m => stat (d :: p) m | None => FAbsent end). by rewrite Hc. }
    rewrite (put_cons_Some _ _ _ _ _ m) by done. specialize (IH m).
    destruct (put (d :: p) _ m) as [m'|]; [|done]. simpl in IH |- *. subst m'. by rewrite insert_id.
Qed.

Lemma left_by_id k x : left_by k id x = x.
Proof. destruct k, x as [[]|]; done. Qed.

Lemma leave_ext p left left' root : (∀ x, left x = left' x) → leave p left root = leave p left' root.
Proof. intros H. unfold leave. by rewrite H. Qed.

(** Two paths diverge: neither is a prefix of the other. *)
Fixpoint diverge (p q : path) : Prop :=
  match p, q with
  | c :: p', d :: q' => c ≠ d ∨ c = d ∧ diverge p' q'
  | _, _ => False
  end.

Lemma stat_put_diverge p q x n n' : diverge p q → put p x n = Some n' → stat q n' = stat q n.
Proof.
  revert q n n'. induction p as [|c p IH]; intros [|d q] n n' Hd H; try done. destruct p as [|e p].
  - destruct n as [|es]; [done|]. simpl in *. simplify_eq. destruct Hd as [Hne|[_ []]].
    destruct x; [by rewrite lookup_insert_ne|by rewrite lookup_delete_ne].
  - apply put_cons_inv in H as (es & m & m' & -> & Hc & H & ->). simpl stat.
    destruct Hd as [Hne|[<- Hd]]; [by rewrite lookup_insert_ne|].
    rewrite lookup_insert_eq, Hc. by apply (IH q m).
Qed.
