(* ===== verification/Crash.v ===== *)
(** * Crash: programs that may die at any system call

    A process that dies at call [k] makes no later call take effect.  [wpc tears C m Q r] says that [m],
    run from tree [r] by such a process, either finishes with a result and a tree that satisfy [Q]
    or dies in a tree that satisfies [C].  With [k] beyond the last call it is the ordinary
    correctness of a run without faults. *)

From Stdlib Require Import String Ascii.
From S2P Require Import Prelude Backend FS.

(** What a crash can leave of the entry that a call was at work on.  A directory is left half removed
    or half made, and never turns into a file.  A file is as it was; where [tears], the file that was
    being written, which [os.WriteFile] empties before it writes, may also be there in part. *)
Definition leaves (tears : bool) (left : option node → option node) : Prop :=
  ∀ x, match x, left x with
       | Some (NFile _), y => y = x ∨ tears = true ∧ y = Some (NFile CTorn)
       | None, Some (NFile c) => tears = true ∧ c = CTorn
       | Some (NDir _), Some (NFile _) => False
       | _, _ => True
       end.

Definition crash_at (k : option nat) : nat → bool := λ n,
  match k with Some k => bool_decide (k ≤ n)%nat | None => false end.
Definition left_at (k : option nat) (left : option node → option node) :
    nat → option node → option node := λ n, if decide (Some n = k) then left else id.

(** A process on tree [r] that dies at call [k], or never. *)
Definition dying (k : option nat) (left : option node → option node) (r : node) : Disk :=
  mkDisk r 0 (crash_at k) (left_at k left).
Definition healthy (r : node) : Disk := dying None id r.

Definition killed (k : option nat) (left : option node → option node) (d : Disk) : Prop :=
  d_fault d = crash_at k ∧ d_left d = left_at k left.

Definition dead (k : option nat) (n : nat) : Prop :=
  match k with Some k => (k < n)%nat | None => False end.

Definition wpc (tears : bool) {A} (C : node → Prop) (m : stateM Disk A) (Q : A → node → Prop) (r : node) : Prop :=
  ∀ d k left, leaves tears left → killed k left d → d_root d = r → ¬ dead k (d_step d) →
    killed k left (m d).2 ∧
    (¬ dead k (d_step (m d).2) ∧ Q (m d).1 (d_root (m d).2) ∨
     dead k (d_step (m d).2) ∧ C (d_root (m d).2)).

(** What a program does after the process has died: nothing. *)
Class Frozen {A} (m : stateM Disk A) : Prop :=
  frozen d k left : killed k left d → dead k (d_step d) →
    killed k left (m d).2 ∧ dead k (d_step (m d).2) ∧ d_root (m d).2 = d_root d.

Lemma crash_at_dead k n : dead k n → crash_at k n = true.
Proof. unfold crash_at, dead. destruct k; [|done]. intros. apply bool_decide_eq_true. lia. Qed.
Lemma dead_S k n : dead k n → dead k (S n).
Proof. destruct k; simpl; [lia|done]. Qed.
Lemma left_at_dead k left n : dead k n → left_at k left n = id.
Proof. destruct k; simpl; [|done]. intros. unfold left_at. rewrite decide_False; [done|]. intros [= ->]. lia. Qed.

(** A process that is not dead dies at this call, or makes it. *)
Lemma alive_cases k n :
  ¬ dead k n →
  crash_at k n = true ∧ k = Some n ∧ dead k (S n) ∨ crash_at k n = false ∧ ¬ dead k (S n).
Proof.
  destruct k as [k|]; simpl; [|auto]. intros. destruct (decide (k = n)) as [->|].
  - left. split_and!; [apply bool_decide_eq_true; lia|done|lia].
  - right. split; [apply bool_decide_eq_false|]; lia.
Qed.

#[global] Instance frozen_ret {A} (a : A) : Frozen (mret (M:=stateM Disk) a).
Proof. intros d k left Hk Hd. done. Qed.

#[global] Instance frozen_bind {A B} (m : stateM Disk A) (f : A → stateM Disk B) :
  Frozen m → (∀ a, Frozen (f a)) → Frozen (m ≫= f).
Proof.
  intros Hm Hf d k left Hk Hd. destruct (Hm d k left Hk Hd) as (Hk' & Hd' & Hr).
  unfold mbind, stateM_bind. destruct (m d) as [a d']. simpl in *.
  destruct (Hf a d' k left Hk' Hd') as (? & ? & ?). split_and!; [done..|congruence].
Qed.

#[global] Instance frozen_query {A} (f : node → fs_res A) : Frozen (sys_query f).
Proof. intros d k left Hk Hd. unfold sys_query. simpl. split_and!; [done|by apply dead_S|done]. Qed.

#[global] Instance frozen_change f : Frozen (sys_change f).
Proof.
  intros d k left [Hf Hl] Hd. unfold sys_change. rewrite Hf, crash_at_dead by done. simpl.
  split_and!; [done|by apply dead_S|done].
Qed.

#[global] Instance frozen_change_at wk p f : Frozen (sys_change_at wk p f).
Proof.
  intros d k left [Hf Hl] Hd. unfold sys_change_at. rewrite Hf, crash_at_dead by done. simpl.
  split_and!; [done|by apply dead_S|]. rewrite Hl, left_at_dead by done.
  rewrite (leave_ext _ _ id) by apply left_by_id. apply leave_id.
Qed.

#[global] Instance frozen_for_each {A} (f : A → stateM Disk unit) l :
  (∀ x, Frozen (f x)) → Frozen (for_each f l).
Proof. intros Hf. induction l as [|x l IH]; simpl; apply _. Qed.

#[global] Instance frozen_if {A} (b : bool) (m m' : stateM Disk A) :
  Frozen m → Frozen m' → Frozen (if b then m else m').
Proof. by destruct b. Qed.

(** Programs are frozen by their shape. *)
Ltac solve_frozen :=
  repeat (intros; cbv beta zeta;
    first [ apply frozen_ret | apply frozen_query | apply frozen_change | apply frozen_change_at
          | apply frozen_bind | apply frozen_for_each | progress case_match
          | (progress unfold read_file, read_dir, os_stat, write_file, os_remove, remove_all,
               os_mkdir_all, os_rename, exchange, clone_tree) | solve [apply _] ]).

(** ** The rules *)

Section rules.
Context {tears : bool}.

Lemma wpc_ret {A} C (a : A) Q r : Q a r → wpc tears C (mret a) Q r.
Proof. intros H d k left Hw Hk Hr Hd. simpl. subst. auto. Qed.

Lemma wpc_mono {A} (C C' : node → Prop) (m : stateM Disk A) (Q Q' : A → node → Prop) r :
  wpc tears C m Q r → (∀ r, C r → C' r) → (∀ a r, Q a r → Q' a r) → wpc tears C' m Q' r.
Proof.
  intros H HC HQ d k left Hw Hk Hr Hd. destruct (H d k left Hw Hk Hr Hd) as (? & [[? ?]|[? ?]]); auto.
Qed.

Lemma wpc_bind {A B} C (m : stateM Disk A) (f : A → stateM Disk B) Q r :
  (∀ a, Frozen (f a)) → wpc tears C m (λ a r', wpc tears C (f a) Q r') r → wpc tears C (m ≫= f) Q r.
Proof.
  intros Hf H d k left Hw Hk Hr Hd. destruct (H d k left Hw Hk Hr Hd) as (Hk' & H').
  unfold mbind, stateM_bind. destruct (m d) as [a d']. simpl in *.
  destruct H' as [[Hs HQ]|[Hs HC]].
  - by apply HQ.
  - destruct (Hf a d' k left Hk' Hs) as (? & ? & ->). auto.
Qed.

Lemma wpc_query {A} C (f : node → fs_res A) Q r : C r → Q (f r) r → wpc tears C (sys_query f) Q r.
Proof.
  intros HC HQ d k left Hw [Hf Hl] Hr Hd. unfold sys_query. simpl. split; [done|].
  rewrite Hf, Hr. destruct (alive_cases _ _ Hd) as [(-> & _ & ?)|(-> & ?)]; auto.
Qed.

Definition change_post (f : node → fs_res node) (Q : fs_res unit → node → Prop) (r : node) : Prop :=
  match f r with
  | FOk r' => Q (FOk tt) r'
  | FAbsent => Q FAbsent r
  | FErr => Q FErr r
  end.

Lemma wpc_change C f Q r : C r → change_post f Q r → wpc tears C (sys_change f) Q r.
Proof.
  intros HC HQ d k left Hw Hk Hr Hd. pose proof Hk as [Hf Hl]. unfold sys_change, change_post in *.
  rewrite Hf, Hr. destruct (alive_cases _ _ Hd) as [(-> & _ & ?)|(-> & ?)]; simpl.
  - subst. auto.
  - destruct (f r); simpl; subst; auto.
Qed.

Lemma wpc_change_at C wk p f Q r :
  (∀ left, leaves tears left → C (leave p (left_by wk left) r)) → change_post f Q r →
  wpc tears C (sys_change_at wk p f) Q r.
Proof.
  intros HC HQ d k left Hw Hk Hr Hd. pose proof Hk as [Hf Hl]. unfold sys_change_at.
  rewrite Hf. destruct (alive_cases _ _ Hd) as [(-> & Hkn & ?)|(Hc & ?)]; simpl.
  - split; [done|]. right. split; [done|]. rewrite Hl, Hr. unfold left_at.
    rewrite decide_True by done. by apply HC.
  - rewrite Hc. unfold sys_change, change_post in *. rewrite Hf, Hc, Hr.
    destruct (f r); simpl; subst; auto.
Qed.

(** Where the entry is no directory, a failing write leaves the tree alone or the file torn. *)
Definition torn_at (p : path) (r r' : node) : Prop := tears = true ∧ put p (Some (NFile CTorn)) r = Some r'.

Lemma leave_written p left r :
  leaves tears left → (∀ es, stat p r ≠ FOk (NDir es)) →
  leave p (left_by Writing left) r = r ∨ torn_at p r (leave p (left_by Writing left) r).
Proof.
  intros Hw Hn. specialize (Hw (get p r)). unfold leave.
  assert (left_by Writing left (get p r) = get p r ∨
          tears = true ∧ left_by Writing left (get p r) = Some (NFile CTorn)) as [->|[Ht ->]].
  { unfold get in *. cbn [left_by]. destruct (stat p r) as [[c|es]| |]; [|by destruct (Hn es)|..].
    - destruct Hw as [->|[? ->]]; auto.
    - destruct (left None) as [[]|]; [destruct Hw as [? ->]|..]; auto.
    - destruct (left None) as [[]|]; [destruct Hw as [? ->]|..]; auto. }
  - left. exact (leave_id p r).
  - destruct (put p _ r) as [r'|] eqn:E; [by right|by left].
Qed.

Lemma leaves_id : leaves tears id.
Proof. intros [[]|]; cbn; auto. Qed.

(** What [wpc] says of one run, and of the run that does not die. *)
Lemma wpc_dying {A} C (m : stateM Disk A) Q r k left :
  wpc tears C m Q r → leaves tears left →
  Q (m (dying k left r)).1 (d_root (m (dying k left r)).2) ∨ C (d_root (m (dying k left r)).2).
Proof.
  intros H Hw. destruct (H (dying k left r) k left Hw) as (_ & [[_ ?]|[_ ?]]); auto; [done|].
  destruct k; simpl; lia.
Qed.

Lemma wpc_healthy {A} C (m : stateM Disk A) Q r :
  wpc tears C m Q r → Q (m (healthy r)).1 (d_root (m (healthy r)).2).
Proof.
  intros H. destruct (H (healthy r) None id leaves_id) as (_ & [[_ ?]|[[] _]]); auto; done.
Qed.

(** Rules for the calls and the sequencing that the storage code uses. *)
Lemma wpc_write C p c Q r r' :
  (∀ es, stat p r ≠ FOk (NDir es)) → put p (Some (NFile c)) r = Some r' →
  C r → (∀ r', torn_at p r r' → C r') → Q (FOk tt) r' → wpc tears C (write_file p c) Q r.
Proof.
  intros Hs Hp HC HT HQ. apply wpc_change_at.
  - intros left Hw. destruct (leave_written p left r Hw Hs) as [->|?]; auto.
  - unfold change_post, sys_write_file. rewrite Hp. destruct (stat p r) as [[]| |]; try done. by destruct (Hs es).
Qed.

Lemma wpc_remove C p Q r c r' :
  stat p r = FOk (NFile c) → put p None r = Some r' →
  C r → Q (FOk tt) r' → wpc tears C (os_remove p) Q r.
Proof.
  intros Hs Hp HC HQ. apply wpc_change; [done|]. unfold change_post, sys_remove. rewrite Hs. simpl.
  by rewrite Hp.
Qed.

Lemma wpc_remove_absent C p Q r :
  stat p r = FAbsent → C r → Q FAbsent r → wpc tears C (os_remove p) Q r.
Proof. intros Hs HC HQ. apply wpc_change; [done|]. unfold change_post, sys_remove. by rewrite Hs. Qed.

Lemma wpc_mkdir C p Q r r' :
  mkdir_all p r = Some r' → C r → Q (FOk tt) r' → wpc tears C (os_mkdir_all p) Q r.
Proof.
  intros Hm HC HQ. apply wpc_change; [done|]. unfold change_post, sys_mkdir_all. by rewrite Hm.
Qed.

Lemma wpc_isEmptyDir C p Q r :
  C r → Q (match sys_read_dir p r with FOk es => no_entries es | _ => true end) r →
  wpc tears C (isEmptyDir p) Q r.
Proof.
  intros HC HQ. unfold isEmptyDir. apply wpc_bind; [solve_frozen|]. apply wpc_query; [done|].
  by apply wpc_ret.
Qed.
End rules.
