(* ===== verification/Sidecars.v ===== *)
(** * Sidecars: the layout of a storage and quince's own files in it

    Models core/internal/storage/layout.go, marker.go, journal.go and worksentinel.go.  The layout
    functions compute paths; the others read and write version markers, commit journals and work
    states.  The SHA-256 of a marker's encoding is a parameter. *)

From Stdlib Require Import String Ascii.
From S2P Require Import Prelude Calendar Domain Backend FS Crash.

(** ** Layout *)

Definition tsDir (t : time) : string := fmt_ts_dir t.

Definition deviceDir (backupsRoot : path) (udid : string) : path := backupsRoot ++ [udid].
Definition latestDir (backupsRoot : path) (udid : string) : path :=
  deviceDir backupsRoot udid ++ ["latest"].
Definition workingParent (backupsRoot : path) (udid : string) : path :=
  deviceDir backupsRoot udid ++ ["working"].
Definition workingTree (backupsRoot : path) (udid : string) : path :=
  workingParent backupsRoot udid ++ [udid].

Definition workSentinelName : string := ".quince-work.json".
Definition journalName : string := ".quince-commit.json".
Definition MarkerName : string := "quince-version.json".
Definition zfsSidecarPrefix : string := ".quince-".

Definition nsWorkSentinel (backupsRoot : path) (udid : string) : path :=
  deviceDir backupsRoot udid ++ [workSentinelName].
Definition zfsWorkSentinel (backupsRoot : path) (udid : string) : path :=
  backupsRoot ++ [zfsSidecarPrefix +:+ "work-" +:+ udid +:+ ".json"].
Definition zfsJournal (backupsRoot : path) (udid : string) : path :=
  backupsRoot ++ [zfsSidecarPrefix +:+ "commit-" +:+ udid +:+ ".json"].
Definition workSentinelFor (backend : string) (backupsRoot : path) (udid : string) : path :=
  if bool_decide (backend = BackendZFS) then zfsWorkSentinel backupsRoot udid
  else nsWorkSentinel backupsRoot udid.

Definition nsJournal (deviceDir : path) : path := deviceDir ++ [journalName].
Definition nsVersions (backupsRoot : path) (udid : string) : path :=
  deviceDir backupsRoot udid ++ ["versions"].
Definition nsVersionDir (backupsRoot : path) (udid : string) (t : time) : path :=
  nsVersions backupsRoot udid ++ [tsDir t].

(** The part after the last [@]. *)
Definition at_char : ascii := "@".
Fixpoint snapName (full : string) : string :=
  let fix has_at s := match s with
                      | EmptyString => false
                      | String c s' => bool_decide (c = at_char) || has_at s'
                      end in
  match full with
  | EmptyString => EmptyString
  | String c rest =>
      if has_at rest then snapName rest
      else if bool_decide (c = at_char) then rest else full
  end.

Definition zfsSnapRoot (backupsRoot : path) (udid snap : string) : path :=
  deviceDir backupsRoot udid ++ [snapdirName; "snapshot"%string; snap].

(** [None] is the empty string: the version cannot be browsed. *)
Definition browseRoot (backupsRoot : path) (udid backend : string) (zfsSnapshot : option string)
    (isLatest : bool) (createdAt : time) : option path :=
  if bool_decide (backend = BackendZFS) then
    snap ← zfsSnapshot; Some (zfsSnapRoot backupsRoot udid (snapName snap))
  else if isLatest then Some (latestDir backupsRoot udid)
  else Some (nsVersionDir backupsRoot udid createdAt).

(** ** Version markers *)

Definition with_checksum (m : Marker) (sum : string) : Marker :=
  mkMarker (mk_VersionID m) (mk_JobID m) (mk_UDID m) (mk_Backend m) (mk_CreatedAt m) (mk_Kind m)
    (mk_Encrypted m) (mk_StructureVerifiedAt m) (mk_AppVersion m) sum.

Inductive marker_read : Type :=
  | MarkerOk (m : Marker)
  | MarkerCorrupt
  | MarkerError.

Section markers.
(** The hexadecimal SHA-256 of a marker's JSON encoding. *)
Context (sha256 : Marker → string).

Definition checksum (m : Marker) : string := sha256 (with_checksum m "").

Definition valid_marker (m : Marker) : bool :=
  negb (bool_decide (mk_Checksum m = "")) && bool_decide (checksum m = mk_Checksum m).

Definition WriteMarker (dir : path) (m : Marker) : stateM Disk error :=
  let m := with_checksum m (checksum m) in
  _ ← os_remove (dir ++ [MarkerName]);
  r ← write_file (dir ++ [MarkerName]) (CMarker m);
  mret (err_of r "write quince-version.json").

Definition parse_marker (c : content) : marker_read :=
  match c with
  | CMarker m => if valid_marker m then MarkerOk m else MarkerCorrupt
  | _ => MarkerCorrupt
  end.

Definition ReadMarker (dir : path) : stateM Disk marker_read :=
  r ← read_file (dir ++ [MarkerName]);
  mret (match r with FOk c => parse_marker c | _ => MarkerError end).

Lemma checksum_with_checksum m s : checksum (with_checksum m s) = checksum m.
Proof. by destruct m. Qed.

(** A marker as it is written reads back. *)
Lemma parse_written_marker m :
  sha256 (with_checksum m "") ≠ ""%string →
  parse_marker (CMarker (with_checksum m (checksum m)))
    = MarkerOk (with_checksum m (checksum m)).
Proof.
  intros Hs. simpl. unfold valid_marker. rewrite checksum_with_checksum. simpl.
  rewrite bool_decide_false, bool_decide_true by done. done.
Qed.
End markers.

(** ** Commit journals *)

Definition dir_of (p : path) : path := removelast p.

Definition with_device_dir (j : Journal) (dir : path) : Journal :=
  mkJournal (jn_VersionID j) (jn_UDID j) (jn_Backend j) (jn_JobID j) (jn_Phase j) (jn_CreatedAt j)
    (jn_Kind j) (jn_Encrypted j) (jn_StructureVerifiedAt j) (jn_LogicalBytes j) (jn_JobDir j)
    (jn_PrevTS j) (jn_ZFSSnapshot j) dir.
Definition with_phase (j : Journal) (ph : CommitPhase) : Journal :=
  mkJournal (jn_VersionID j) (jn_UDID j) (jn_Backend j) (jn_JobID j) ph (jn_CreatedAt j)
    (jn_Kind j) (jn_Encrypted j) (jn_StructureVerifiedAt j) (jn_LogicalBytes j) (jn_JobDir j)
    (jn_PrevTS j) (jn_ZFSSnapshot j) (jn_DeviceDir j).

Lemma with_phase_device_dir j ph ph' dir :
  with_phase (with_device_dir (with_phase j ph) dir) ph' = with_device_dir (with_phase j ph') dir.
Proof. by destruct j. Qed.
Lemma with_device_dir_again j dir dir' :
  with_device_dir (with_device_dir j dir) dir' = with_device_dir j dir'.
Proof. by destruct j. Qed.

Definition writeJournal (p : path) (j : Journal) : stateM Disk error :=
  r ← write_file p (CJournal (with_device_dir j (dir_of p)));
  mret (err_of r "write commit journal").

(** [Ok None]: no journal. *)
Definition readJournal (p : path) : stateM Disk (result (option Journal)) :=
  r ← read_file p;
  mret (match r with
        | FAbsent => Ok None
        | FErr => Err "read commit journal"
        | FOk (CJournal j) => Ok (Some (with_device_dir j (dir_of p)))
        | FOk _ => Err "decode commit journal"
        end).

Definition removeJournal (p : path) : stateM Disk error :=
  r ← os_remove p;
  mret (match r with FErr => Some "remove commit journal"%string | _ => None end).

(** The journals of the entries that [select] gives a path for; the first error ends the scan. *)
Fixpoint collect_journals (paths : list path) : stateM Disk (result (list Journal)) :=
  match paths with
  | [] => mret (Ok [])
  | p :: rest =>
      r ← readJournal p;
      match r with
      | Err e => mret (Err e)
      | Ok o =>
          rs ← collect_journals rest;
          mret (match rs with Ok js => Ok (option_list o ++ js) | Err e => Err e end)
      end
  end.

Definition scanJournals (backupsRoot : path) : stateM Disk (result (list Journal)) :=
  r ← read_dir backupsRoot;
  match r with
  | FAbsent => mret (Ok [])
  | FErr => mret (Err "read backups root")
  | FOk es =>
      collect_journals
        (omap (λ name, if is_dir (es !! name) then Some (nsJournal (backupsRoot ++ [name])) else None)
           (names es))
  end.

Definition str_reverse (s : string) : string := string_of_list_ascii (reverse (list_ascii_of_string s)).
Definition has_suffix (s suffix : string) : bool := has_prefix (str_reverse s) (str_reverse suffix).

Definition scanFlatJournals (backupsRoot : path) : stateM Disk (result (list Journal)) :=
  r ← read_dir backupsRoot;
  match r with
  | FAbsent => mret (Ok [])
  | FErr => mret (Err "read backups root")
  | FOk es =>
      collect_journals
        (omap (λ name,
           if is_dir (es !! name) || negb (has_prefix name (zfsSidecarPrefix +:+ "commit-"))
              || negb (has_suffix name ".json")
           then None else Some (backupsRoot ++ [name]))
           (names es))
  end.

(** ** Work states *)

Definition writeWorkStateAt (p : path) (w : workState) : stateM Disk error :=
  r ← write_file p (CWork w); mret (err_of r "write work state").

Definition readWorkStateAt (p : path) : stateM Disk (result (option workState)) :=
  r ← read_file p;
  mret (match r with
        | FAbsent => Ok None
        | FErr => Err "read work state"
        | FOk (CWork w) => Ok (Some w)
        | FOk _ => Err "decode work state"
        end).

Definition removeWorkStateAt (p : path) : stateM Disk unit := _ ← os_remove p; mret tt.

(** ** After a crash none of these does anything *)

#[global] Instance frozen_isEmptyDir p : Frozen (isEmptyDir p).
Proof. unfold isEmptyDir. solve_frozen. Qed.
#[global] Instance frozen_dirSize fsz p : Frozen (dirSize fsz p).
Proof. unfold dirSize. solve_frozen. Qed.
#[global] Instance frozen_WriteMarker sha dir m : Frozen (WriteMarker sha dir m).
Proof. unfold WriteMarker. solve_frozen. Qed.
#[global] Instance frozen_ReadMarker sha dir : Frozen (ReadMarker sha dir).
Proof. unfold ReadMarker. solve_frozen. Qed.
#[global] Instance frozen_writeJournal p j : Frozen (writeJournal p j).
Proof. unfold writeJournal. solve_frozen. Qed.
#[global] Instance frozen_readJournal p : Frozen (readJournal p).
Proof. unfold readJournal. solve_frozen. Qed.
#[global] Instance frozen_removeJournal p : Frozen (removeJournal p).
Proof. unfold removeJournal. solve_frozen. Qed.
#[global] Instance frozen_collect_journals paths : Frozen (collect_journals paths).
Proof. induction paths as [|p paths IH]; simpl; solve_frozen. Qed.
#[global] Instance frozen_writeWorkStateAt p w : Frozen (writeWorkStateAt p w).
Proof. unfold writeWorkStateAt. solve_frozen. Qed.
#[global] Instance frozen_readWorkStateAt p : Frozen (readWorkStateAt p).
Proof. unfold readWorkStateAt. solve_frozen. Qed.
#[global] Instance frozen_removeWorkStateAt p : Frozen (removeWorkStateAt p).
Proof. unfold removeWorkStateAt. solve_frozen. Qed.
