(* ===== verification/Namespace.v ===== *)
(** * Namespace: the reflink, hardlink and copy backends

    Models core/internal/storage/namespace.go and workdir.go.  [latest] is the newest committed
    version, [versions/<ts>] the earlier ones, and [working/<udid>] the tree that a job fills.  A
    commit exchanges the working tree into [latest] and archives what [latest] held; its journal
    lets reconciliation finish a commit that was interrupted. *)

From Stdlib Require Import String Ascii.
From S2P Require Import Prelude Calendar Domain Backend FS Crash Sidecars.

(** Error-returning calls in sequence: [e ;;? k] runs [k] unless [e] failed. *)
Definition and_then {S} (m : stateM S error) (k : stateM S error) : stateM S error :=
  e ← m; match e with None => k | Some _ => mret e end.
Notation "m ;;? k" := (and_then m k) (at level 100, k at level 200, right associativity) : quince_scope.
Open Scope quince_scope.

Definition committedFromMarker (m : Marker) (logical : Z) : Committed :=
  mkCommitted (mk_VersionID m) (mk_UDID m) (mk_Backend m) None
    (default zero_time (parse_rfc3339 (mk_CreatedAt m)))
    (if bool_decide (mk_JobID m = "") then None else Some (mk_JobID m))
    (mk_Kind m) (mk_Encrypted m)
    (default zero_time (parse_rfc3339 (mk_StructureVerifiedAt m))) logical.

#[global] Instance frozen_and_then m k : Frozen m → Frozen k → Frozen (and_then m k).
Proof. intros. unfold and_then. solve_frozen. Qed.

(** A value after an error-returning call. *)
Definition or_fail {S A} (m : stateM S error) (k : stateM S (result A)) : stateM S (result A) :=
  e ← m; match e with Some msg => mret (Err msg) | None => k end.

#[global] Instance frozen_or_fail {A} m (k : stateM Disk (result A)) :
  Frozen m → Frozen k → Frozen (or_fail m k).
Proof. intros. unfold or_fail. solve_frozen. Qed.

Section namespace.
Context (name : string) (backups : path) (appVersion : string) (now : time).
Context (sha256 : Marker → string) (file_size : content → Z).

Definition Provision (udid : string) : stateM Disk error :=
  if negb (validUDID udid) then mret (Some ("storage: invalid udid " +:+ quote udid)) else
  r ← os_mkdir_all (latestDir backups udid);
  match r with
  | FOk _ =>
      r ← os_mkdir_all (nsVersions backups udid);
      mret (err_of r "mkdir versions")
  | _ => mret (Some "mkdir latest"%string)
  end.

(** The fast half of preparing the working tree: [Ok (target, clone pending)]. *)
Definition prepareWorkDirPhase1 (udid : string) : stateM Disk (result (path * bool)) :=
  if negb (validUDID udid) then mret (Err ("storage: invalid udid " +:+ quote udid)) else
  let parent := workingParent backups udid in
  let tree := workingTree backups udid in
  let sentinel := nsWorkSentinel backups udid in
  let prepare : stateM Disk (result (path * bool)) :=
    r ← os_mkdir_all parent;
    if negb (fs_ok r) then mret (Err "mkdir working") else
    latest_empty ← isEmptyDir (latestDir backups udid);
    e ← writeWorkStateAt sentinel (mkWorkState (negb latest_empty) true);
    match e with
    | Some msg => mret (Err msg)
    | None =>
        if negb latest_empty then mret (Ok (parent, true)) else
        r ← os_mkdir_all tree;
        if negb (fs_ok r) then mret (Err "mkdir working tree") else
        e ← writeWorkStateAt sentinel (mkWorkState false false);
        mret (match e with Some msg => Err msg | None => Ok (parent, false) end)
    end in
  empty ← isEmptyDir tree;
  if empty : bool then prepare else
  st ← readWorkStateAt sentinel;
  match st with
  | Ok (Some (mkWorkState _ true)) =>
      r ← remove_all parent;
      if fs_ok r then prepare else mret (Err "remove partial working")
  | _ => mret (Ok (parent, false))
  end.

(** The clone of [latest] into the working tree. *)
Definition seedClosure (udid : string) : stateM Disk error :=
  r ← clone_tree (workingTree backups udid) (latestDir backups udid);
  mret (err_of r "storage: seed working from latest").

Definition finishSeed (udid : string) : stateM Disk error :=
  r ← remove_all (workingTree backups udid);
  if negb (fs_ok r) then mret (Some "remove working tree"%string) else
  seedClosure udid ;;?
  writeWorkStateAt (nsWorkSentinel backups udid) (mkWorkState true false).

Definition prepareWorkDir (udid : string) : stateM Disk (result path) :=
  r ← prepareWorkDirPhase1 udid;
  match r with
  | Err msg => mret (Err msg)
  | Ok (target, true) =>
      e ← finishSeed udid;
      mret (match e with Some msg => Err msg | None => Ok target end)
  | Ok (target, false) => mret (Ok target)
  end.

Definition mustParseTSOrNow (ts : string) : time :=
  match parse_ts_dir ts with
  | Some t => t
  | None => default now (parse_rfc3339 ts)
  end.

Definition latestHasVersion (latest : path) (versionID : string) : stateM Disk bool :=
  r ← ReadMarker sha256 latest;
  mret (match r with MarkerOk m => bool_decide (mk_VersionID m = versionID) | _ => false end).

Definition committedFromLatest (udid : string) : stateM Disk (result Committed) :=
  r ← ReadMarker sha256 (latestDir backups udid);
  match r with
  | MarkerOk m =>
      sz ← dirSize file_size (latestDir backups udid); mret (Ok (committedFromMarker m sz))
  | _ => mret (Err "storage: read latest marker after commit")
  end.

(** The exchange, unless [latest] already is this version; then the journal says so. *)
Definition exchangeStep (j : Journal) : stateM Disk error :=
  let latest := latestDir backups (jn_UDID j) in
  swapped ← latestHasVersion latest (jn_VersionID j);
  (if swapped : bool then mret None else
     r ← os_mkdir_all latest;
     if negb (fs_ok r) then mret (Some "mkdir latest"%string) else
     r ← exchange (jn_JobDir j) latest;
     mret (err_of r "storage: exchange working into latest")) ;;?
  writeJournal (nsJournal (deviceDir backups (jn_UDID j))) (with_phase j PhaseExchanged).

(** The archive of what [latest] held, and the end of the working area. *)
Definition archiveStep (j : Journal) : stateM Disk error :=
  let udid := jn_UDID j in
  empty ← isEmptyDir (jn_JobDir j);
  (if (empty : bool) || bool_decide (jn_PrevTS j = ""%string) then mret None else
     let dst := nsVersionDir backups udid (mustParseTSOrNow (jn_PrevTS j)) in
     st ← os_stat dst;
     match st with
     | FAbsent =>
         r ← os_mkdir_all (nsVersions backups udid);
         if negb (fs_ok r) then mret (Some "mkdir versions"%string) else
         r ← os_rename (jn_JobDir j) dst;
         mret (err_of r "storage: archive previous latest")
     | _ => mret None
     end) ;;?
  (_ ← remove_all (workingParent backups udid);
   removeWorkStateAt (nsWorkSentinel backups udid);;
   writeJournal (nsJournal (deviceDir backups udid)) (with_phase j PhaseArchived)).

Definition finishRotation (j : Journal) : stateM Disk error :=
  (match jn_Phase j with
   | PhasePrepared => exchangeStep j ;;? archiveStep j
   | PhaseExchanged => archiveStep j
   | _ => mret None
   end) ;;?
  removeJournal (nsJournal (deviceDir backups (jn_UDID j))).

Definition commit_marker (req : CommitReq) : Marker :=
  mkMarker (cr_VersionID req) (cr_JobID req) (cr_UDID req) name (fmtRFC (cr_CreatedAt req))
    (vr_Kind (cr_Verify req)) (vr_Encrypted (cr_Verify req)) (fmtRFC (cr_CreatedAt req))
    appVersion "".

(** The time stamp that the version in [latest] will be archived under. *)
Definition prev_ts (r : marker_read) : string :=
  match r with
  | MarkerOk m => from_option tsDir "" (parse_rfc3339 (mk_CreatedAt m))
  | _ => ""
  end.

Definition commit_journal (req : CommitReq) (prevTS : string) : Journal :=
  mkJournal (cr_VersionID req) (cr_UDID req) name (cr_JobID req) PhasePrepared
    (fmtRFC (cr_CreatedAt req)) (vr_Kind (cr_Verify req)) (vr_Encrypted (cr_Verify req))
    (fmtRFC (cr_CreatedAt req)) (vr_LogicalBytes (cr_Verify req))
    (workingTree backups (cr_UDID req)) prevTS "" [].

Definition Commit (req : CommitReq) : stateM Disk (result Committed) :=
  let udid := cr_UDID req in
  let tree := workingTree backups udid in
  empty ← isEmptyDir tree;
  if empty : bool then mret (Err "storage: working tree is empty — nothing to commit") else
  or_fail (WriteMarker sha256 tree (commit_marker req)) (
  prev ← ReadMarker sha256 (latestDir backups udid);
  let j := commit_journal req (prev_ts prev) in
  or_fail (writeJournal (nsJournal (deviceDir backups udid)) j) (
  or_fail (finishRotation j) (
  committedFromLatest udid))).

Definition ResumeCommit (j : Journal) : stateM Disk (result (Committed * bool)) :=
  let finish : stateM Disk (result (Committed * bool)) :=
    c ← committedFromLatest (jn_UDID j);
    mret (match c with Ok c => Ok (c, true) | Err msg => Err msg end) in
  if bool_decide (jn_Phase j = PhaseArchived) then
    _ ← removeJournal (nsJournal (deviceDir backups (jn_UDID j))); finish
  else or_fail (finishRotation j) finish.

Definition Discard (udid : string) : stateM Disk (string * error) :=
  r ← ReadMarker sha256 (latestDir backups udid);
  let last := match r with MarkerOk m => mk_CreatedAt m | _ => "none" end in
  mret ("working copy kept dirty for retry; last good version = " +:+ last, None).

Definition DeleteArtifact (a : Artifact) : stateM Disk error :=
  let dir := if ar_IsLatest a then latestDir backups (ar_UDID a)
             else nsVersionDir backups (ar_UDID a) (mustParseTSOrNow (mk_CreatedAt (ar_Marker a))) in
  r ← remove_all dir; mret (err_of r "remove version").

Definition RepairWorkingCopy (udid : string) : stateM Disk error :=
  r ← remove_all (workingParent backups udid);
  if negb (fs_ok r) then mret (Some "remove working"%string) else
  removeWorkStateAt (nsWorkSentinel backups udid);; mret None.

Definition scanDir (udid : string) (dir : path) (isLatest : bool) : stateM Disk (option Artifact) :=
  r ← ReadMarker sha256 dir;
  match r with
  | MarkerOk m =>
      sz ← dirSize file_size dir; mret (Some (mkArtifact udid name None m isLatest sz))
  | _ => mret None
  end.

Fixpoint scanDirs (udid : string) (dirs : list path) : stateM Disk (list Artifact) :=
  match dirs with
  | [] => mret []
  | d :: rest =>
      a ← scanDir udid d false; l ← scanDirs udid rest; mret (option_list a ++ l)
  end.

Definition Scan (udid : string) : stateM Disk (result (list Artifact)) :=
  a ← scanDir udid (latestDir backups udid) true;
  r ← read_dir (nsVersions backups udid);
  match r with
  | FErr => mret (Err "read versions")
  | FAbsent => mret (Ok (option_list a))
  | FOk es =>
      l ← scanDirs udid (omap (λ n, if is_dir (es !! n) then Some (nsVersions backups udid ++ [n])
                                     else None) (names es));
      mret (Ok (option_list a ++ l))
  end.

Definition PendingJournals : stateM Disk (result (list Journal)) := scanJournals backups.

Definition SweepWork (udid : string) : stateM Disk error := mret None.

Definition Dirty (udid : string) (d : Disk) : bool :=
  bool_decide (is_Some (get (workingParent backups udid) (d_root d))).

Definition namespaceBackend : Backend Disk :=
  mkBackend Disk name Provision (λ udid _, prepareWorkDir udid) (λ udid _, prepareWorkDirPhase1 udid)
    (λ udid _, finishSeed udid) (λ udid _, workingTree backups udid) Commit ResumeCommit
    (λ udid _, Discard udid) DeleteArtifact RepairWorkingCopy Scan PendingJournals SweepWork Dirty.

#[global] Instance frozen_latestHasVersion latest v : Frozen (latestHasVersion latest v).
Proof. unfold latestHasVersion. solve_frozen. Qed.
#[global] Instance frozen_committedFromLatest udid : Frozen (committedFromLatest udid).
Proof. unfold committedFromLatest. solve_frozen. Qed.
#[global] Instance frozen_exchangeStep j : Frozen (exchangeStep j).
Proof. unfold exchangeStep. apply frozen_bind; [apply _|]. intros. apply frozen_and_then; solve_frozen. Qed.
#[global] Instance frozen_archiveStep j : Frozen (archiveStep j).
Proof.
  unfold archiveStep. apply frozen_bind; [apply _|]. intros. apply frozen_and_then; solve_frozen.
Qed.
#[global] Instance frozen_finishRotation j : Frozen (finishRotation j).
Proof. unfold finishRotation. apply frozen_and_then; [case_match|]; apply _. Qed.
End namespace.
