(* ===== verification/Graft.v ===== *)
(** * Graft: reasoning about one directory inside a tree

    The entries of a device's directory as a map, the tree with that directory replaced, and the
    rules of [Crash] for calls on its entries. *)

From Stdlib Require Import String Ascii.
From S2P Require Import Prelude Backend FS Crash Sidecars Namespace.

(** ** Entries of one directory *)

Definition upd (k : string) (x : option node) (es : gmap string node) : gmap string node :=
  partial_alter (λ _, x) k es.

Lemma lookup_upd k x es : upd k x es !! k = x.
Proof. apply lookup_partial_alter_eq. Qed.
Lemma lookup_upd_ne k k' x es : k ≠ k' → upd k x es !! k' = es !! k'.
Proof. apply lookup_partial_alter_ne. Qed.
Lemma upd_upd k x y es : upd k x (upd k y es) = upd k x es.
Proof. unfold upd. by rewrite partial_alter_partial_alter_eq. Qed.
Lemma upd_comm k k' x y es : k ≠ k' → upd k x (upd k' y es) = upd k' y (upd k x es).
Proof. intros. unfold upd. by rewrite partial_alter_partial_alter_ne. Qed.
Lemma upd_id k es : upd k (es !! k) es = es.
Proof. by apply partial_alter_self. Qed.

Lemma delete_upd k x es : delete k (upd k x es) = delete k es.
Proof. apply (upd_upd k None x es). Qed.

Lemma put_1 c x es : put [c] x (NDir es) = Some (NDir (upd c x es)).
Proof. by destruct x. Qed.
Lemma put_2 c d x es es' :
  es !! c = Some (NDir es') →
  put [c; d] x (NDir es) = Some (NDir (upd c (Some (NDir (upd d x es'))) es)).
Proof. intros H. rewrite (put_cons_Some _ _ _ _ _ _ H), put_1. done. Qed.

Lemma stat_1 c es : stat [c] (NDir es) = match es !! c with Some m => FOk m | None => FAbsent end.
Proof. done. Qed.
Lemma stat_cons c p es :
  stat (c :: p) (NDir es) = match es !! c with Some m => stat p m | None => FAbsent end.
Proof. done. Qed.

Lemma no_entries_lookup es k m :
  no_entries es = true → es !! k = Some m → k = snapdirName.
Proof.
  unfold no_entries. rewrite forallb_forall. intros H Hk. eapply bool_decide_eq_true_1, H.
  apply list_elem_of_In. unfold names. rewrite (merge_sort_Permutation str_le), list_elem_of_fmap.
  exists (k, m). split; [done|]. by apply elem_of_map_to_list.
Qed.

Lemma mkdir_all_app p q n m :
  stat p n = FOk m → mkdir_all (p ++ q) n = m' ← mkdir_all q m; put p (Some m') n.
Proof.
  revert n. induction p as [|c p IH]; intros n Hs; simpl in Hs.
  { simplify_eq. simpl. by destruct (mkdir_all q m). }
  destruct n as [|es]; [done|]. destruct (es !! c) as [k|] eqn:Hc; [|done].
  simpl. rewrite Hc. simpl. rewrite (IH k Hs). destruct (mkdir_all q m) as [m'|]; [|done].
  simpl. by destruct p.
Qed.

(** ** The directory of one device inside a tree *)

Definition dir_entries (o : option node) : gmap string node :=
  match o with Some (NDir es) => es | _ => ∅ end.
Definition dir_or_absent (o : option node) : bool :=
  match o with Some (NFile _) => false | _ => true end.
Definition file_or_absent (o : option node) : bool := negb (is_dir o).

Section graft.
Context (dev : path) (root : node) (es0 : gmap string node).
Context (Hdev : stat dev root = FOk (NDir es0)).
Context {tears : bool}.

Definition graft (es : gmap string node) : node := default root (put dev (Some (NDir es)) root).

Lemma put_graft es : put dev (Some (NDir es)) root = Some (graft es).
Proof.
  destruct (put_replace dev root _ (NDir es) Hdev) as (n' & Hn & _). unfold graft. by rewrite Hn.
Qed.

Lemma stat_graft q es : stat (dev ++ q) (graft es) = stat q (NDir es).
Proof.
  destruct (put_replace dev root _ (NDir es) Hdev) as (n' & Hn & Hs & _).
  unfold graft. rewrite Hn. by apply stat_app.
Qed.

Lemma put_graft_again es es' : put dev (Some (NDir es')) (graft es) = Some (graft es').
Proof.
  destruct (put_replace dev root _ (NDir es) Hdev) as (n' & Hn & Hs & Hp).
  unfold graft at 1. rewrite Hn. simpl. by rewrite Hp, put_graft.
Qed.

Lemma put_in_graft q x es es' :
  q ≠ [] → put q x (NDir es) = Some (NDir es') → put (dev ++ q) x (graft es) = Some (graft es').
Proof.
  intros Hq Hp. rewrite (put_app _ _ _ _ (NDir es)).
  - rewrite Hp. apply put_graft_again.
  - done.
  - pose proof (stat_graft [] es) as H. by rewrite app_nil_r in H.
Qed.

Lemma mkdir_graft q es es' :
  mkdir_all q (NDir es) = Some (NDir es') → mkdir_all (dev ++ q) (graft es) = Some (graft es').
Proof.
  intros Hm. rewrite (mkdir_all_app _ _ _ (NDir es)).
  - rewrite Hm. apply put_graft_again.
  - pose proof (stat_graft [] es) as H. by rewrite app_nil_r in H.
Qed.

Lemma graft_self : graft es0 = root.
Proof.
  pose proof (leave_id dev root) as H. unfold leave, get, id in H. by rewrite Hdev in H.
Qed.

Abbreviation G := graft.
Abbreviation entry k := (dev ++ [k]).

Lemma graft_put_sub q x es es' :
  q ≠ [] → put q x (NDir es) = Some (NDir es') → put (dev ++ q) x (G es) = Some (G es').
Proof. apply put_in_graft. Qed.

Lemma graft_put_entry k x es : put (entry k) x (G es) = Some (G (upd k x es)).
Proof. apply graft_put_sub; [done|apply put_1]. Qed.

Lemma graft_stat q es : stat (dev ++ q) (G es) = stat q (NDir es).
Proof. apply stat_graft. Qed.

(** A call that stops half-way at an entry leaves a state with another entry there. *)
Lemma graft_leave k left es : leave (entry k) left (G es) = G (upd k (left (es !! k)) es).
Proof.
  unfold leave, get. rewrite graft_put_entry, graft_stat, stat_1. simpl. by destruct (es !! k).
Qed.

Lemma graft_leave_2 c d left es es' :
  es !! c = Some (NDir es') →
  leave (dev ++ [c; d]) left (G es) = G (upd c (Some (NDir (upd d (left (es' !! d)) es'))) es).
Proof.
  intros Hc. unfold leave, get. erewrite graft_put_sub by (apply put_2, Hc || done).
  rewrite graft_stat, stat_cons, Hc, stat_1. simpl. by destruct (es' !! d).
Qed.

Lemma graft_wpc_remove C k Q es :
  file_or_absent (es !! k) → C (G es) → (∀ r, Q r (G (upd k None es))) →
  wpc tears C (os_remove (entry k)) Q (G es).
Proof.
  intros Hk HC HQ. destruct (es !! k) as [[c|]|] eqn:Hc; [|done|].
  - eapply wpc_remove; [by rewrite graft_stat, stat_1, Hc|apply graft_put_entry|done|apply HQ].
  - apply wpc_remove_absent; [by rewrite graft_stat, stat_1, Hc|done|].
    rewrite <-(upd_id k es) at 1. rewrite Hc. apply HQ.
Qed.

Lemma graft_wpc_write C k c Q es :
  file_or_absent (es !! k) → C (G es) → (tears = true → C (G (upd k (Some (NFile CTorn)) es))) →
  Q (FOk tt) (G (upd k (Some (NFile c)) es)) →
  wpc tears C (write_file (entry k) c) Q (G es).
Proof.
  intros Hk HC HT HQ. eapply wpc_write; [|apply graft_put_entry|done| |done].
  - intros es'. rewrite graft_stat, stat_1. by destruct (es !! k) as [[]|].
  - intros r' [Ht Hr']. rewrite graft_put_entry in Hr'. injection Hr' as <-. by apply HT.
Qed.

Lemma graft_wpc_mkdir C k Q es :
  dir_or_absent (es !! k) → C (G es) →
  Q (FOk tt) (G (upd k (Some (NDir (dir_entries (es !! k)))) es)) →
  wpc tears C (os_mkdir_all (entry k)) Q (G es).
Proof.
  intros Hk HC HQ. eapply wpc_mkdir; [|done..]. apply mkdir_graft.
  simpl. by destruct (es !! k) as [[]|].
Qed.

Lemma graft_wpc_remove_all C k Q es :
  (∀ x, (dir_or_absent (es !! k) → dir_or_absent x) → C (G (upd k x es))) → Q (FOk tt) (G (upd k None es)) →
  wpc tears C (remove_all (entry k)) Q (G es).
Proof.
  intros HC HQ. apply wpc_change_at.
  - intros left Hw. rewrite graft_leave. apply HC. simpl. specialize (Hw (es !! k)).
    destruct (es !! k) as [[]|]; [done| |done]. by destruct (left _) as [[]|].
  - unfold change_post, sys_remove_all. rewrite graft_stat, stat_1, graft_put_entry.
    destruct (es !! k) eqn:Hk; simpl; [done|]. rewrite <-(upd_id k es) at 1. by rewrite Hk.
Qed.


(** The same one level deeper. *)
Lemma graft_wpc_remove_all_2 C c d Q es es' :
  es !! c = Some (NDir es') →
  (∀ x, C (G (upd c (Some (NDir (upd d x es'))) es))) →
  Q (FOk tt) (G (upd c (Some (NDir (upd d None es'))) es)) →
  wpc tears C (remove_all (dev ++ [c; d])) Q (G es).
Proof.
  intros Hc HC HQ. apply wpc_change_at.
  - intros left _. erewrite graft_leave_2 by done. apply HC.
  - unfold change_post, sys_remove_all. rewrite graft_stat, stat_cons, Hc, stat_1.
    destruct (es' !! d) as [m|] eqn:Hd.
    + by erewrite graft_put_sub by (apply put_2, Hc || done).
    + rewrite <-(upd_id d es'), Hd in Hc. rewrite <-(upd_id c es) at 1. by rewrite Hc.
Qed.
End graft.

(** ** Rules for the composite operations *)

Section composite.
Context {tears : bool}.

Lemma wpc_and_then C m k Q r :
  Frozen k → wpc tears C m (λ e r', match e with None => wpc tears C k Q r' | Some _ => Q e r' end) r →
  wpc tears C (and_then m k) Q r.
Proof.
  intros Hk H. unfold and_then. apply wpc_bind; [intros []; solve_frozen|].
  eapply wpc_mono; [done|auto|]. intros [e|] r' HQ; [by apply wpc_ret|done].
Qed.

Lemma wpc_or_fail {A} C m (k : stateM Disk (result A)) Q r :
  Frozen k → wpc tears C m (λ e r', match e with None => wpc tears C k Q r' | Some msg => Q (Err msg) r' end) r →
  wpc tears C (or_fail m k) Q r.
Proof.
  intros Hk H. unfold or_fail. apply wpc_bind; [intros []; solve_frozen|].
  eapply wpc_mono; [done|auto|]. intros [e|] r' HQ; [by apply wpc_ret|done].
Qed.

Lemma wpc_ReadMarker sha C p Q r :
  C r →
  Q (match sys_read_file (p ++ [MarkerName]) r with FOk c => parse_marker sha c | _ => MarkerError end) r →
  wpc tears C (ReadMarker sha p) Q r.
Proof.
  intros HC HQ. unfold ReadMarker. apply wpc_bind; [solve_frozen|]. apply wpc_query; [done|].
  by apply wpc_ret.
Qed.

End composite.
