(* ===== verification/Rotation.v ===== *)
(** * Rotation: the commit of a namespace backend is crash-safe

    The states that a commit goes through, written as trees, and the proof that a process that
    dies anywhere in a commit, or anywhere in the resumptions of it that follow, leaves a tree from
    which the resumption of its journal reaches the tree that the commit would have made. *)

From Stdlib Require Import String Ascii.
From S2P Require Import Prelude Calendar Domain Backend FS Crash Sidecars Namespace Graft.

(** ** The states of a commit *)

Section rotation.
Context (name : string) (backups : path) (appVersion : string) (now : time).
Context (sha256 : Marker → string) (file_size : content → Z).
Context (root : node) (req : CommitReq).

Abbreviation udid := (cr_UDID req).
Abbreviation dev := (deviceDir backups (cr_UDID req)).

(** What the tree holds before the commit. *)
Definition es0 : gmap string node := dir_entries (get dev root).
Definition ws0 : gmap string node := dir_entries (es0 !! "working").
Definition tree0 : gmap string node := dir_entries (ws0 !! udid).
Definition latest0 : gmap string node := dir_entries (es0 !! "latest").
Definition versions0 : gmap string node := dir_entries (es0 !! "versions").
Definition latest_marker : marker_read :=
  match latest0 !! MarkerName with Some (NFile c) => parse_marker sha256 c | _ => MarkerError end.
Definition prevTS : string := prev_ts latest_marker.

(** The preconditions of a commit: a working tree with something in it, directories and files
    where they belong, and a [latest] that is empty or a version of its own whose archive name
    is free. *)
Definition ready : Prop :=
  is_dir (get dev root) ∧ is_dir (es0 !! "working") ∧ no_entries tree0 = false ∧
  dir_or_absent (es0 !! "latest") ∧ dir_or_absent (es0 !! "versions") ∧
  file_or_absent (tree0 !! MarkerName) ∧ file_or_absent (es0 !! journalName) ∧
  file_or_absent (es0 !! workSentinelName) ∧
  (no_entries latest0 = true ∨
   ∃ m t, latest_marker = MarkerOk m ∧ mk_VersionID m ≠ cr_VersionID req ∧
     parse_rfc3339 (mk_CreatedAt m) = Some t ∧ t `mod` Second = 0 ∧ printable_year t ∧
     versions0 !! tsDir t = None).

(** The entries that a commit changes: the working directory, [latest], [versions], the work
    state and the journal. *)
Definition st (w L v s j : option node) : gmap string node :=
  upd "working" w (upd "latest" L (upd "versions" v (upd workSentinelName s (upd journalName j es0)))).

Definition working_with (tree : option node) : option node := Some (NDir (upd udid tree ws0)).

(** What the commit writes. *)
Definition new_marker : Marker :=
  let m := commit_marker name appVersion req in with_checksum m (checksum sha256 m).
Definition new_latest : option node :=
  Some (NDir (upd MarkerName (Some (NFile (CMarker new_marker))) tree0)).
Definition journal_in (ph : CommitPhase) : Journal :=
  with_device_dir (with_phase (commit_journal name backups req prevTS) ph) dev.
Definition journal_file (ph : CommitPhase) : option node := Some (NFile (CJournal (journal_in ph))).
Definition archives : bool := negb (no_entries latest0).
Definition new_versions : option node :=
  if archives then Some (NDir (upd prevTS (Some (NDir latest0)) versions0)) else es0 !! "versions".

(** The tree that a commit makes: the working tree with its marker is [latest], what [latest]
    held is archived, and the working area, the work state and the journal are gone. *)
Definition after_commit : node := graft dev root (st None new_latest new_versions None None).

(** The tree of a commit that has not begun: only the working tree's marker may differ. *)
Definition before_commit (r : node) : Prop :=
  ∃ T, delete MarkerName T = delete MarkerName tree0 ∧
    r = graft dev root (st (working_with (Some (NDir T))) (es0 !! "latest") (es0 !! "versions")
                          (es0 !! workSentinelName) (es0 !! journalName)).

(** The states of the rotation, by the phase that the journal has in them. *)
Inductive rotating : CommitPhase → gmap string node → Prop :=
  | rot_prepared L :
      L = es0 !! "latest" ∨ L = Some (NDir latest0) →
      rotating PhasePrepared
        (st (working_with new_latest) L (es0 !! "versions") (es0 !! workSentinelName)
           (journal_file PhasePrepared))
  | rot_swapped :
      rotating PhasePrepared
        (st (working_with (Some (NDir latest0))) new_latest (es0 !! "versions")
           (es0 !! workSentinelName) (journal_file PhasePrepared))
  | rot_exchanged v :
      v = es0 !! "versions" ∨ archives = true ∧ v = Some (NDir versions0) →
      rotating PhaseExchanged
        (st (working_with (Some (NDir latest0))) new_latest v (es0 !! workSentinelName)
           (journal_file PhaseExchanged))
  | rot_archived w s :
      s = es0 !! workSentinelName ∨ s = None →
      rotating PhaseExchanged (st w new_latest new_versions s (journal_file PhaseExchanged))
  | rot_done :
      rotating PhaseArchived (st None new_latest new_versions None (journal_file PhaseArchived)).

Definition rolling (r : node) : Prop := ∃ ph es, rotating ph es ∧ r = graft dev root es.

(** One of these states but for the journal, in whose writing the process died. *)
Context (tears : bool).
Definition torn_journal (r : node) : Prop :=
  ∃ r0, (before_commit r0 ∨ rolling r0) ∧ torn_at (tears := tears) (nsJournal dev) r0 r.
Definition crashed (r : node) : Prop := rolling r ∨ r = after_commit ∨ torn_journal r.

Ltac by_entries :=
  intros; unfold st, upd; rewrite ?lookup_partial_alter; repeat case_decide; naive_solver.
Ltac by_updates := intros; apply map_eq; intros i; by_entries.

Lemma st_working w L v s j : st w L v s j !! "working" = w. Proof. by_entries. Qed.
Lemma st_latest w L v s j : st w L v s j !! "latest" = L. Proof. by_entries. Qed.
Lemma st_versions w L v s j : st w L v s j !! "versions" = v. Proof. by_entries. Qed.
Lemma st_sentinel w L v s j : st w L v s j !! workSentinelName = s. Proof. by_entries. Qed.
Lemma st_journal w L v s j : st w L v s j !! journalName = j. Proof. by_entries. Qed.

Lemma upd_working x w L v s j : upd "working" x (st w L v s j) = st x L v s j. Proof. by_updates. Qed.
Lemma upd_latest x w L v s j : upd "latest" x (st w L v s j) = st w x v s j. Proof. by_updates. Qed.
Lemma upd_versions x w L v s j : upd "versions" x (st w L v s j) = st w L x s j. Proof. by_updates. Qed.
Lemma upd_sentinel x w L v s j : upd workSentinelName x (st w L v s j) = st w L v x j. Proof. by_updates. Qed.
Lemma upd_journal x w L v s j : upd journalName x (st w L v s j) = st w L v s x. Proof. by_updates. Qed.

Context (Hready : ready) (Hsha : ∀ m, sha256 m ≠ ""%string).

Lemma dev_dir : stat dev root = FOk (NDir es0).
Proof.
  destruct Hready as [H _]. unfold es0, get in *. destruct (stat dev root) as [[]| |]; done.
Qed.

Abbreviation G := (graft dev root).
Abbreviation entry k := (dev ++ [k]).

Abbreviation put_sub := (graft_put_sub _ _ _ dev_dir).
Abbreviation put_entry := (graft_put_entry _ _ _ dev_dir).
Abbreviation stat_entry := (graft_stat _ _ _ dev_dir).
Abbreviation wpc_remove_entry := (graft_wpc_remove _ _ _ dev_dir).
Abbreviation wpc_write_entry := (graft_wpc_write _ _ _ dev_dir).
Abbreviation wpc_mkdir_entry := (graft_wpc_mkdir _ _ _ dev_dir).
Abbreviation wpc_remove_all_entry := (graft_wpc_remove_all _ _ _ dev_dir).

(** The commit's journal, with the directory that it was read from, if it was. *)
Definition jr (dir : path) (ph : CommitPhase) : Journal :=
  with_device_dir (with_phase (commit_journal name backups req prevTS) ph) dir.

Lemma wpc_journal_entry C dir ph Q es :
  file_or_absent (es !! journalName) → C (G es) →
  (tears = true → C (G (upd journalName (Some (NFile CTorn)) es))) →
  Q None (G (upd journalName (journal_file ph) es)) →
  wpc tears C (writeJournal (nsJournal dev) (jr dir ph)) Q (G es).
Proof.
  intros Hk HC HT HQ. unfold writeJournal. apply wpc_bind; [solve_frozen|].
  apply wpc_write_entry; [done..|]. apply wpc_ret. unfold nsJournal, dir_of. by rewrite removelast_last.
Qed.

Lemma wpc_removeWorkState C Q es :
  file_or_absent (es !! workSentinelName) → C (G es) → Q tt (G (upd workSentinelName None es)) →
  wpc tears C (removeWorkStateAt (nsWorkSentinel backups udid)) Q (G es).
Proof.
  intros. apply wpc_bind; [solve_frozen|]. apply wpc_remove_entry; [done..|]. intros. by apply wpc_ret.
Qed.

Lemma wpc_removeJournal C Q es :
  file_or_absent (es !! journalName) → C (G es) → Q None (G (upd journalName None es)) →
  wpc tears C (removeJournal (nsJournal dev)) Q (G es).
Proof.
  intros Hk HC HQ. apply wpc_bind; [solve_frozen|]. destruct (es !! journalName) as [[c|]|] eqn:Hc; [|done|].
  - unfold nsJournal. eapply wpc_remove;
      [by rewrite stat_entry, stat_1, Hc|apply put_entry|done|by apply wpc_ret].
  - unfold nsJournal. apply wpc_remove_absent; [by rewrite stat_entry, stat_1, Hc|done|].
    apply wpc_ret. rewrite <-(upd_id journalName es) at 1. by rewrite Hc.
Qed.


Lemma new_versions_archived :
  archives = true → new_versions = Some (NDir (upd prevTS (Some (NDir latest0)) versions0)).
Proof. intros Ha. unfold new_versions. by rewrite Ha. Qed.

Lemma new_versions_same : archives = false → new_versions = es0 !! "versions".
Proof. intros Ha. unfold new_versions. by rewrite Ha. Qed.

Lemma new_latest_dir :
  new_latest = Some (NDir (upd MarkerName (Some (NFile (CMarker new_marker))) tree0)).
Proof. done. Qed.

(** The journal's fields; the phase is the only one that changes. *)
Lemma with_phase_jr dir ph ph' : with_phase (jr dir ph) ph' = jr dir ph'.
Proof. apply with_phase_device_dir. Qed.
Lemma jr_UDID dir ph : jn_UDID (jr dir ph) = udid. Proof. done. Qed.
Lemma jr_JobDir dir ph : jn_JobDir (jr dir ph) = workingTree backups udid. Proof. done. Qed.
Lemma jr_PrevTS dir ph : jn_PrevTS (jr dir ph) = prevTS. Proof. done. Qed.
Lemma jr_VersionID dir ph : jn_VersionID (jr dir ph) = cr_VersionID req. Proof. done. Qed.
Lemma jr_Phase dir ph : jn_Phase (jr dir ph) = ph. Proof. done. Qed.
Lemma jr_DeviceDir dir ph : with_device_dir (jr dir ph) dev = journal_in ph.
Proof. apply with_device_dir_again. Qed.
Lemma jr_commit : commit_journal name backups req prevTS = jr [] PhasePrepared. Proof. done. Qed.
Lemma jr_read ph : with_device_dir (journal_in ph) dev = jr dev ph.
Proof. apply with_device_dir_again. Qed.
Lemma journal_file_in ph : journal_file ph = Some (NFile (CJournal (journal_in ph))). Proof. done. Qed.
Opaque jr journal_file new_latest new_versions st.
Ltac jr_fields := rewrite ?with_phase_jr, ?jr_UDID, ?jr_JobDir, ?jr_PrevTS, ?jr_VersionID, ?jr_Phase.

(** *** The archive *)

Lemma no_entries_marker : no_entries latest0 = true → latest_marker = MarkerError.
Proof.
  intros Hn. unfold latest_marker. destruct (latest0 !! MarkerName) as [m|] eqn:Hm; [|done].
  by apply (no_entries_lookup _ _ _ Hn) in Hm.
Qed.

Lemma not_archives : archives = false → prevTS = ""%string.
Proof.
  unfold archives, prevTS. intros H%negb_false_iff. by rewrite no_entries_marker.
Qed.

Lemma archives_facts :
  archives = true →
  prevTS ≠ ""%string ∧ versions0 !! prevTS = None ∧
  nsVersionDir backups udid (mustParseTSOrNow now prevTS) = dev ++ ["versions"; prevTS].
Proof.
  unfold archives. intros H%negb_true_iff.
  destruct Hready as (_&_&_&_&_&_&_&_&[Hn|(m & t & Hm & _ & Hp & Ht & Hy & Hv)]); [congruence|].
  assert (prevTS = tsDir t) as ->. { unfold prevTS, prev_ts. by rewrite Hm, Hp. }
  assert (parse_ts_dir (tsDir t) = Some t) as Hts.
  { unfold tsDir. rewrite parse_fmt_ts_dir by done. by rewrite Ht, Z.sub_0_r. }
  split_and!; [intros He; by rewrite He in Hts|done|].
  unfold nsVersionDir, nsVersions, mustParseTSOrNow. rewrite Hts. by rewrite <-app_assoc.
Qed.

Lemma stat_new_version w L s j :
  archives = true → stat ["versions"; prevTS] (NDir (st w L new_versions s j)) = FOk (NDir latest0).
Proof.
  intros Ha. rewrite stat_cons, st_versions, new_versions_archived by done.
  by rewrite stat_1, lookup_upd.
Qed.

Lemma stat_tree t L v s j :
  stat ["working"; udid] (NDir (st (working_with t) L v s j))
    = match t with Some m => FOk m | None => FAbsent end.
Proof. rewrite stat_cons, st_working. unfold working_with. by rewrite stat_1, lookup_upd. Qed.

Lemma put_tree x t L v s j :
  put ["working"; udid] x (NDir (st (working_with t) L v s j))
    = Some (NDir (st (working_with x) L v s j)).
Proof.
  unfold working_with. erewrite put_2 by apply st_working. by rewrite upd_working, upd_upd.
Qed.

Lemma workingTree_entry : workingTree backups udid = dev ++ ["working"; udid].
Proof. unfold workingTree, workingParent. by rewrite <-app_assoc. Qed.

Lemma state_file s : s = es0 !! workSentinelName ∨ s = None → file_or_absent s.
Proof. intros [-> | ->]; [by destruct Hready as (_&_&_&_&_&_&_&?&_)|done]. Qed.

Lemma rolling_intro ph es : rotating ph es → crashed (G es).
Proof. intros. left. by exists ph, es. Qed.
Lemma torn_intro es : before_commit (G es) ∨ rolling (G es) → tears = true →
  torn_journal (G (upd journalName (Some (NFile CTorn)) es)).
Proof. intros H Ht. exists (G es). split; [done|]. split; [done|]. apply put_entry. Qed.
Lemma torn_rolling ph es : rotating ph es → tears = true →
  crashed (G (upd journalName (Some (NFile CTorn)) es)).
Proof. intros Hes Ht. right. right. apply torn_intro; [|done]. right. by exists ph, es. Qed.

Lemma clear_wpc dir w s :
  s = es0 !! workSentinelName ∨ s = None →
  wpc tears crashed
    (_ ← remove_all (workingParent backups udid);
     removeWorkStateAt (nsWorkSentinel backups udid);;
     writeJournal (nsJournal dev) (jr dir PhaseArchived))
    (λ e r, e = None ∧ r = G (st None new_latest new_versions None (journal_file PhaseArchived)))
    (G (st w new_latest new_versions s (journal_file PhaseExchanged))).
Proof.
  intros Hs. apply wpc_bind; [solve_frozen|]. apply wpc_remove_all_entry.
  { intros x _. rewrite upd_working. exact (rolling_intro _ _ (rot_archived x s Hs)). }
  rewrite upd_working. apply wpc_bind; [solve_frozen|]. apply wpc_removeWorkState.
  { rewrite st_sentinel. by apply state_file. }
  { exact (rolling_intro _ _ (rot_archived None s Hs)). }
  rewrite upd_sentinel. apply wpc_journal_entry.
  { by rewrite st_journal. }
  { exact (rolling_intro _ _ (rot_archived None None (or_intror eq_refl))). }
  { exact (torn_rolling _ _ (rot_archived None None (or_intror eq_refl))). }
  by rewrite upd_journal.
Qed.

Lemma archive_wpc_archived dir ph w s :
  s = es0 !! workSentinelName ∨ s = None →
  wpc tears crashed (archiveStep backups now (jr dir ph))
    (λ e r, e = None ∧ r = G (st None new_latest new_versions None (journal_file PhaseArchived)))
    (G (st w new_latest new_versions s (journal_file PhaseExchanged))).
Proof.
  intros Hs. pose proof (rolling_intro _ _ (rot_archived w s Hs)) as Hc.
  unfold archiveStep. jr_fields.
  apply wpc_bind; [intros; apply frozen_and_then; solve_frozen|].
  apply wpc_isEmptyDir; [done|]. apply wpc_and_then; [solve_frozen|].
  case_match eqn:Hskip.
  { apply wpc_ret. by apply clear_wpc. }
  apply orb_false_iff in Hskip as [_ Hp%bool_decide_eq_false]. 
  destruct archives eqn:Ha; [|by apply not_archives in Ha].
  destruct (archives_facts Ha) as (_ & _ & Hdst). rewrite Hdst.
  apply wpc_bind; [intros; solve_frozen|]. apply wpc_query; [done|].
  rewrite stat_entry, stat_new_version by done. apply wpc_ret. by apply clear_wpc.
Qed.

Lemma archive_wpc dir ph v :
  v = es0 !! "versions" ∨ archives = true ∧ v = Some (NDir versions0) →
  wpc tears crashed (archiveStep backups now (jr dir ph))
    (λ e r, e = None ∧ r = G (st None new_latest new_versions None (journal_file PhaseArchived)))
    (G (st (working_with (Some (NDir latest0))) new_latest v (es0 !! workSentinelName)
          (journal_file PhaseExchanged))).
Proof.
  intros Hv. destruct archives eqn:Ha.
  2: { destruct Hv as [-> |[? _]]; [|done]. rewrite <-new_versions_same by done. apply archive_wpc_archived. auto. }
  destruct (archives_facts Ha) as (Hne & Hfree & Hdst).
  assert (dir_or_absent v ∧ dir_entries v = versions0) as [Hvd Hve].
  { destruct Hv as [-> |[_ ->]]; [|done]. by destruct Hready as (_&_&_&_&?&_). }
  assert (∀ v, v = es0 !! "versions" ∨ v = Some (NDir versions0) →
    crashed (G (st (working_with (Some (NDir latest0))) new_latest v (es0 !! workSentinelName)
                  (journal_file PhaseExchanged)))) as Hc.
  { intros v' Hv'. eapply rolling_intro, rot_exchanged. rewrite Ha. naive_solver. }
  assert (crashed (G (st (working_with (Some (NDir latest0))) new_latest v (es0 !! workSentinelName)
                  (journal_file PhaseExchanged)))) as Hcv by (apply Hc; naive_solver).
  unfold archiveStep. jr_fields. rewrite workingTree_entry.
  apply wpc_bind; [intros; apply frozen_and_then; solve_frozen|].
  apply wpc_isEmptyDir; [done|]. apply wpc_and_then; [solve_frozen|].
  unfold sys_read_dir. rewrite stat_entry, stat_tree. cbn [mbind fs_bind].
  unfold archives in Ha. apply negb_true_iff in Ha as Ha'.
  rewrite Ha', bool_decide_false by done. cbn [orb]. rewrite Hdst.
  apply wpc_bind; [solve_frozen|]. apply wpc_query; [done|].
  rewrite stat_entry, stat_cons, st_versions.
  assert (match v with Some m => stat [prevTS] m | None => FAbsent end = FAbsent) as ->.
  { destruct v as [[]|]; try done. simpl in Hve. rewrite stat_1, Hve. by rewrite Hfree. }
  apply wpc_bind; [solve_frozen|]. apply wpc_mkdir_entry.
  { by rewrite st_versions. } { done. }
  rewrite st_versions, upd_versions, Hve. cbn [fs_ok negb].
  apply wpc_bind; [solve_frozen|]. apply wpc_change; [auto|].
  unfold change_post, sys_rename. rewrite !stat_entry, stat_tree, stat_cons, st_versions.
  cbn [mbind fs_bind]. rewrite stat_1, Hfree.
  erewrite (put_sub ["working"; udid]) by (apply put_tree || done).
  cbn [mbind option_bind].
  erewrite (put_sub ["versions"; prevTS]) by (apply put_2, st_versions || done).
  cbn [fs_opt]. apply wpc_ret. cbn [err_of fs_ok].
  rewrite upd_versions, <-new_versions_archived by done.
  apply clear_wpc. auto.
Qed.

(** *** The exchange *)

Lemma latest_entry q : latestDir backups udid ++ q = dev ++ "latest" :: q.
Proof. unfold latestDir. by rewrite <-app_assoc. Qed.

Abbreviation marker_at r :=
  (match sys_read_file (latestDir backups udid ++ [MarkerName]) r with
   | FOk c => parse_marker sha256 c | _ => MarkerError end).

Lemma read_old_latest w L v s j :
  L = es0 !! "latest" ∨ L = Some (NDir latest0) → marker_at (G (st w L v s j)) = latest_marker.
Proof.
  intros HL. unfold sys_read_file. rewrite latest_entry, stat_entry, stat_cons, st_latest.
  assert (dir_or_absent L ∧ dir_entries L = latest0) as [Hd He].
  { destruct HL as [-> | ->]; [|done]. by destruct Hready as (_&_&_&?&_). }
  unfold latest_marker. rewrite <-He. destruct L as [[|l]|]; try done.
  rewrite stat_1. simpl. by destruct (l !! MarkerName) as [[]|].
Qed.

Lemma read_new_latest w v s j :
  marker_at (G (st w new_latest v s j)) = MarkerOk new_marker.
Proof.
  unfold sys_read_file. rewrite latest_entry, stat_entry, stat_cons, st_latest, new_latest_dir.
  rewrite stat_1, lookup_upd. cbn [mbind fs_bind]. apply parse_written_marker, Hsha.
Qed.

Lemma latest_other_version :
  match latest_marker with
  | MarkerOk m => bool_decide (mk_VersionID m = cr_VersionID req)
  | _ => false
  end = false.
Proof.
  destruct Hready as (_&_&_&_&_&_&_&_&[Hn|(m & t & Hm & Hv & _)]).
  - by rewrite no_entries_marker.
  - rewrite Hm. by apply bool_decide_eq_false.
Qed.

Lemma journal_exchanged_wpc dir :
  wpc tears crashed (writeJournal (nsJournal dev) (jr dir PhaseExchanged))
    (λ e r, e = None ∧ r = G (st (working_with (Some (NDir latest0))) new_latest (es0 !! "versions")
                                (es0 !! workSentinelName) (journal_file PhaseExchanged)))
    (G (st (working_with (Some (NDir latest0))) new_latest (es0 !! "versions")
          (es0 !! workSentinelName) (journal_file PhasePrepared))).
Proof.
  apply wpc_journal_entry; [by rewrite st_journal|exact (rolling_intro _ _ rot_swapped)|exact (torn_rolling _ _ rot_swapped)|].
  by rewrite upd_journal.
Qed.

Lemma exchange_wpc_swapped dir :
  wpc tears crashed (exchangeStep backups sha256 (jr dir PhasePrepared))
    (λ e r, e = None ∧ r = G (st (working_with (Some (NDir latest0))) new_latest (es0 !! "versions")
                                (es0 !! workSentinelName) (journal_file PhaseExchanged)))
    (G (st (working_with (Some (NDir latest0))) new_latest (es0 !! "versions")
          (es0 !! workSentinelName) (journal_file PhasePrepared))).
Proof.
  unfold exchangeStep. jr_fields.
  apply wpc_bind; [intros; apply frozen_and_then; solve_frozen|].
  apply wpc_bind; [solve_frozen|]. apply wpc_ReadMarker; [exact (rolling_intro _ _ rot_swapped)|].
  rewrite read_new_latest. apply wpc_ret. cbn [new_marker with_checksum commit_marker mk_VersionID].
  rewrite bool_decide_true by done. apply wpc_and_then; [apply _|]. apply wpc_ret.
  apply journal_exchanged_wpc.
Qed.

Lemma exchange_wpc dir L :
  L = es0 !! "latest" ∨ L = Some (NDir latest0) →
  wpc tears crashed (exchangeStep backups sha256 (jr dir PhasePrepared))
    (λ e r, e = None ∧ r = G (st (working_with (Some (NDir latest0))) new_latest (es0 !! "versions")
                                (es0 !! workSentinelName) (journal_file PhaseExchanged)))
    (G (st (working_with new_latest) L (es0 !! "versions") (es0 !! workSentinelName)
          (journal_file PhasePrepared))).
Proof.
  intros HL. pose proof (rolling_intro _ _ (rot_prepared L HL)) as Hc.
  assert (dir_or_absent L ∧ dir_entries L = latest0) as [Hd He].
  { destruct HL as [-> | ->]; [|done]. by destruct Hready as (_&_&_&?&_). }
  unfold exchangeStep. jr_fields.
  apply wpc_bind; [intros; apply frozen_and_then; solve_frozen|].
  apply wpc_bind; [solve_frozen|]. apply wpc_ReadMarker; [done|].
  rewrite read_old_latest by done. apply wpc_ret. rewrite latest_other_version. cbv iota.
  apply wpc_and_then; [apply _|].
  apply wpc_bind; [solve_frozen|]. apply wpc_mkdir_entry; [by rewrite st_latest|done|].
  rewrite st_latest, upd_latest, He. cbn [fs_ok negb].
  apply wpc_bind; [solve_frozen|].
  apply wpc_change; [exact (rolling_intro _ _ (rot_prepared _ (or_intror eq_refl)))|].
  unfold change_post, sys_exchange. rewrite workingTree_entry, !stat_entry, stat_tree, new_latest_dir.
  unfold latestDir. rewrite stat_entry, stat_1, st_latest. cbn [mbind fs_bind].
  erewrite (put_sub ["working"; udid]) by (apply put_tree || done). cbn [mbind option_bind].
  rewrite put_entry. cbn [fs_opt]. apply wpc_ret. cbn [err_of fs_ok].
  rewrite upd_latest, <-new_latest_dir. apply journal_exchanged_wpc.
Qed.

(** *** The rotation from any state *)

Lemma remove_journal_wpc :
  wpc tears crashed (removeJournal (nsJournal dev)) (λ e r, e = None ∧ r = after_commit)
    (G (st None new_latest new_versions None (journal_file PhaseArchived))).
Proof.
  apply wpc_removeJournal; [by rewrite st_journal|exact (rolling_intro _ _ rot_done)|].
  by rewrite upd_journal.
Qed.

Lemma archived_then C m k Q r es :
  Frozen k →
  wpc tears C m (λ e r', e = None ∧ r' = G es) r → wpc tears C k Q (G es) → wpc tears C (and_then m k) Q r.
Proof.
  intros Hk Hm HQ. apply wpc_and_then; [done|]. eapply wpc_mono; [done|auto|].
  by intros e r' [-> ->].
Qed.

Lemma finishRotation_wpc dir ph es :
  rotating ph es →
  wpc tears crashed (finishRotation backups now sha256 (jr dir ph))
    (λ e r, e = None ∧ r = after_commit) (G es).
Proof.
  intros Hes. unfold finishRotation. jr_fields.
  destruct Hes as [L HL| |v Hv|w s Hs|].
  - eapply archived_then; [apply _| |apply remove_journal_wpc].
    eapply archived_then; [apply _|by apply exchange_wpc|].
    apply archive_wpc. auto.
  - eapply archived_then; [apply _| |apply remove_journal_wpc].
    eapply archived_then; [apply _|by apply exchange_wpc_swapped|].
    apply archive_wpc. auto.
  - eapply archived_then; [apply _|by apply archive_wpc|apply remove_journal_wpc].
  - eapply archived_then; [apply _|by apply archive_wpc_archived|apply remove_journal_wpc].
  - apply wpc_and_then; [apply _|]. apply wpc_ret. apply remove_journal_wpc.
Qed.

(** What a finished commit reports. *)
Definition committed : Committed :=
  committedFromMarker new_marker
    (node_size file_size (NDir (upd MarkerName (Some (NFile (CMarker new_marker))) tree0))).

Lemma committed_wpc (C : node → Prop) w v s j :
  C (G (st w new_latest v s j)) →
  wpc tears C (committedFromLatest backups sha256 file_size udid)
    (λ res r, res = Ok committed ∧ r = G (st w new_latest v s j)) (G (st w new_latest v s j)).
Proof.
  intros HC. unfold committedFromLatest. apply wpc_bind; [solve_frozen|].
  apply wpc_ReadMarker; [done|]. rewrite read_new_latest.
  apply wpc_bind; [solve_frozen|]. apply wpc_bind; [solve_frozen|]. apply wpc_query; [done|].
  unfold latestDir. rewrite stat_entry, stat_1, st_latest, new_latest_dir.
  apply wpc_ret. by apply wpc_ret.
Qed.

Lemma resume_wpc dir ph es :
  rotating ph es →
  wpc tears crashed (ResumeCommit backups now sha256 file_size (jr dir ph))
    (λ res r, res = Ok (committed, true) ∧ r = after_commit) (G es).
Proof.
  intros Hes. unfold ResumeCommit. jr_fields.
  assert (wpc tears crashed
    (c ← committedFromLatest backups sha256 file_size udid;
     mret (match c with Ok c => Ok (c, true) | Err msg => Err msg end))
    (λ res r, res = Ok (committed, true) ∧ r = after_commit) after_commit) as Hend.
  { apply wpc_bind; [intros; apply _|]. eapply wpc_mono; [apply (committed_wpc crashed None new_versions None None); by right; left|auto|].
    intros res r [-> ->]. by apply wpc_ret. }
  case_bool_decide as Hph.
  - subst. inversion Hes; subst. apply wpc_bind; [intros; apply _|].
    eapply wpc_mono; [apply remove_journal_wpc|auto|]. by intros e r [-> ->].
  - apply wpc_or_fail; [apply _|]. eapply wpc_mono; [by apply finishRotation_wpc|auto|].
    by intros e r [-> ->].
Qed.

(** *** The commit *)

Abbreviation begun T :=
  (st (working_with (Some (NDir T))) (es0 !! "latest") (es0 !! "versions")
     (es0 !! workSentinelName) (es0 !! journalName)).

Lemma tree0_lookup : ws0 !! udid = Some (NDir tree0).
Proof.
  destruct Hready as (_ & _ & Hn & _). unfold tree0 in *.
  destruct (ws0 !! udid) as [[]|]; try done.
Qed.

Lemma begun_tree0 : G (begun tree0) = root.
Proof.
  rewrite <-(graft_self _ _ _ dev_dir) at 2. f_equal.
  assert (working_with (Some (NDir tree0)) = es0 !! "working") as ->.
  { unfold working_with. rewrite <-tree0_lookup, upd_id. unfold ws0.
    destruct Hready as (_ & Hw & _). by destruct (es0 !! "working") as [[]|]. }
  Transparent st. unfold st. by rewrite !upd_id.
Qed.

Lemma put_marker x T L v s j :
  put ["working"; udid; MarkerName] x (NDir (st (working_with (Some (NDir T))) L v s j))
    = Some (NDir (st (working_with (Some (NDir (upd MarkerName x T)))) L v s j)).
Proof.
  rewrite (put_cons_Some "working" udid [MarkerName] x _ (NDir (upd udid (Some (NDir T)) ws0)))
    by apply st_working.
  erewrite put_2 by apply lookup_upd. cbn [mbind option_bind]. do 2 f_equal.
  rewrite upd_upd. apply upd_working.
Qed.

Lemma before_intro T : delete MarkerName T = delete MarkerName tree0 → before_commit (G (begun T)).
Proof. intros. by exists T. Qed.

Lemma WriteMarker_wpc C :
  (∀ r, before_commit r → C r) →
  wpc tears C (WriteMarker sha256 (workingTree backups udid) (commit_marker name appVersion req))
    (λ e r, e = None ∧
      r = G (st (working_with new_latest) (es0 !! "latest") (es0 !! "versions")
               (es0 !! workSentinelName) (es0 !! journalName)))
    (G (begun tree0)).
Proof.
  intros HC. unfold WriteMarker. rewrite workingTree_entry, <-app_assoc. cbn [app].
  change (with_checksum _ _) with new_marker.
  assert (∀ T, T = tree0 ∨ T = upd MarkerName None tree0 → wpc tears C
    (r ← write_file (dev ++ ["working"; udid; MarkerName]) (CMarker new_marker);
     mret (err_of r "write quince-version.json"))
    (λ e r, e = None ∧
      r = G (st (working_with new_latest) (es0 !! "latest") (es0 !! "versions")
               (es0 !! workSentinelName) (es0 !! journalName)))
    (G (begun T))) as Hwrite.
  { intros T HT. apply wpc_bind; [solve_frozen|]. eapply wpc_write.
    - intros es. rewrite stat_entry, stat_cons, st_working.
      unfold working_with. rewrite stat_cons, lookup_upd, stat_1.
      destruct Hready as (_&_&_&_&_&Hm&_).
      destruct HT as [-> | ->]; [by destruct (tree0 !! MarkerName) as [[]|]|by rewrite lookup_upd].
    - apply put_sub; [done|apply put_marker].
    - apply HC, before_intro. destruct HT as [-> | ->]; [done|]. apply delete_upd.
    - intros r' [_ Hr']. erewrite put_sub in Hr' by (apply put_marker || done). injection Hr' as <-.
      apply HC, before_intro. rewrite delete_upd. destruct HT as [-> | ->]; [done|]. apply delete_upd.
    - apply wpc_ret. split; [done|]. rewrite new_latest_dir.
      destruct HT as [-> | ->]; [done|]. by rewrite upd_upd. }
  apply wpc_bind; [solve_frozen|].
  assert (stat (dev ++ ["working"; udid; MarkerName]) (G (begun tree0))
    = match tree0 !! MarkerName with Some m => FOk m | None => FAbsent end) as Hs.
  { rewrite stat_entry, stat_cons, st_working. unfold working_with.
    by rewrite stat_cons, lookup_upd, stat_1. }
  destruct Hready as (_&_&_&_&_&Hm&_).
  destruct (tree0 !! MarkerName) as [[c|]|]; [|done|].
  - eapply wpc_remove; [done|apply put_sub; [done|apply put_marker]|by apply HC, before_intro|].
    apply Hwrite. auto.
  - apply wpc_remove_absent; [done|by apply HC, before_intro|]. apply Hwrite. auto.
Qed.

Lemma commit_wpc :
  wpc tears (λ r, before_commit r ∨ crashed r)
    (Commit name backups appVersion now sha256 file_size req)
    (λ res r, res = Ok committed ∧ r = after_commit) root.
Proof.
  rewrite <-begun_tree0 at 1. unfold Commit.
  assert (∀ r, before_commit r → before_commit r ∨ crashed r) as Hb by auto.
  assert (∀ r, crashed r → before_commit r ∨ crashed r) as Hc by auto.
  apply wpc_bind; [intros; solve_frozen|].
  apply wpc_isEmptyDir; [by apply Hb, before_intro|].
  unfold sys_read_dir. rewrite workingTree_entry, stat_entry, stat_tree. cbn [mbind fs_bind].
  destruct Hready as (_&_&->&_). apply wpc_or_fail; [solve_frozen|].
  rewrite <-workingTree_entry. eapply wpc_mono; [by apply WriteMarker_wpc|auto|].
  intros e r [-> ->].
  assert (before_commit (G (st (working_with new_latest) (es0 !! "latest") (es0 !! "versions")
    (es0 !! workSentinelName) (es0 !! journalName)))) as Hbefore.
  { rewrite new_latest_dir. apply before_intro, delete_upd. }
  apply wpc_bind; [intros; solve_frozen|]. apply wpc_ReadMarker; [by apply Hb|].
  rewrite read_old_latest by auto. change (prev_ts latest_marker) with prevTS. rewrite jr_commit.
  apply wpc_or_fail; [solve_frozen|]. apply wpc_journal_entry.
  { rewrite st_journal. by destruct Hready as (_&_&_&_&_&_&?&_). }
  { by apply Hb. }
  { intros Ht. right. right. right. apply torn_intro; [by left|done]. }
  rewrite upd_journal. apply wpc_or_fail; [solve_frozen|].
  eapply wpc_mono; [apply finishRotation_wpc, rot_prepared; auto|auto|]. intros e r [-> ->].
  apply (committed_wpc _ None new_versions None None). right. by right; left.
Qed.

(** *** Crashes and resumptions *)

Lemma rolling_journal ph es :
  rotating ph es → (readJournal (nsJournal dev) (healthy (G es))).1 = Ok (Some (jr dev ph)).
Proof.
  intros Hes. unfold readJournal, mbind, stateM_bind, read_file, sys_query. simpl.
  unfold nsJournal at 1, sys_read_file. rewrite stat_entry, stat_1.
  assert (es !! journalName = journal_file ph) as ->.
  { destruct Hes; apply st_journal. }
  rewrite journal_file_in. simpl. unfold nsJournal, dir_of. by rewrite removelast_last, jr_read.
Qed.

Lemma torn_journal_unread r : torn_journal r →
  (readJournal (nsJournal dev) (healthy r)).1 = Err "decode commit journal".
Proof.
  assert (∀ es r', put (nsJournal dev) (Some (NFile CTorn)) (G es) = Some r' →
    (readJournal (nsJournal dev) (healthy r')).1 = Err "decode commit journal") as H.
  { intros es r'. unfold nsJournal. rewrite put_entry. intros [= <-].
    unfold readJournal, mbind, stateM_bind, read_file, sys_query. simpl.
    unfold sys_read_file. by rewrite stat_entry, stat_1, lookup_upd. }
  intros (r0 & [(T & _ & ->)|(ph & es & _ & ->)] & _ & Hr); by eapply H.
Qed.

Lemma no_journal_after_commit : (readJournal (nsJournal dev) (healthy after_commit)).1 = Ok None.
Proof.
  unfold readJournal, mbind, stateM_bind, read_file, sys_query. simpl.
  unfold nsJournal, sys_read_file, after_commit. by rewrite stat_entry, stat_1, st_journal.
Qed.
End rotation.
