(* ===== verification/CommitSafety.v ===== *)
(** * CommitSafety: what a commit of a namespace backend guarantees

    The theorems about [Namespace.Commit] and [Namespace.ResumeCommit]: the effect of a commit that
    is not interrupted, and the fate of one whose process dies, also when the processes that resume
    it die in their turn, wherever in a system call they die. *)

From Stdlib Require Import String Ascii.
From S2P Require Import Prelude Calendar Domain Backend FS Crash Sidecars Namespace Graft Rotation.

(** The trees that are reached from [r] by resumptions of the device's journal that die. *)
Inductive recovers (tears : bool) (backups : path) (now : time) (sha256 : Marker → string) (file_size : content → Z)
    (udid : string) : node → node → Prop :=
  | recovers_refl r : recovers tears backups now sha256 file_size udid r r
  | recovers_crash r r' j k left :
      leaves tears left →
      (readJournal (nsJournal (deviceDir backups udid)) (healthy r)).1 = Ok (Some j) →
      recovers tears backups now sha256 file_size udid
        (d_root (ResumeCommit backups now sha256 file_size j (dying k left r)).2) r' →
      recovers tears backups now sha256 file_size udid r r'.

Section theorems.
Context (tears : bool) (name : string) (backups : path) (appVersion : string) (now : time).
Context (sha256 : Marker → string) (file_size : content → Z).
Context (Hsha : ∀ m, sha256 m ≠ ""%string).
Context (root : node) (req : CommitReq) (Hready : ready backups sha256 root req).

Abbreviation udid := (cr_UDID req).
Abbreviation dev := (deviceDir backups (cr_UDID req)).
Abbreviation commit := (Commit name backups appVersion now sha256 file_size req).
Abbreviation resume := (ResumeCommit backups now sha256 file_size).
Abbreviation before := (before_commit backups root req).
Abbreviation after := (after_commit name backups appVersion sha256 root req).
Abbreviation crash_state r :=
  (before_commit backups root req r ∨ crashed name backups appVersion sha256 root req tears r).
Abbreviation report := (committed name backups appVersion sha256 file_size root req).

Lemma commit_healthy :
  (commit (healthy root)).1 = Ok report ∧ d_root (commit (healthy root)).2 = after.
Proof. exact (wpc_healthy _ _ _ _ (commit_wpc _ _ _ _ _ _ _ _ tears Hready Hsha)). Qed.

Lemma commit_dying k left :
  leaves tears left → crash_state (d_root (commit (dying k left root)).2).
Proof.
  intros Hw.
  destruct (wpc_dying _ _ _ _ k left (commit_wpc name backups appVersion now sha256 file_size root req tears Hready Hsha) Hw)
    as [[_ ->]|?]; [right; right; by left|done].
Qed.

Lemma before_no_journal r :
  get (nsJournal dev) root = None → before r → (readJournal (nsJournal dev) (healthy r)).1 = Ok None.
Proof.
  intros Hj (T & _ & ->). unfold readJournal, mbind, stateM_bind, read_file, sys_query. simpl.
  unfold nsJournal, sys_read_file. rewrite (graft_stat _ _ _ (dev_dir _ _ _ _ Hready)), stat_1, st_journal.
  unfold get, nsJournal in Hj. rewrite <-(graft_self _ _ _ (dev_dir _ _ _ _ Hready)) in Hj.
  rewrite (graft_stat _ _ _ (dev_dir _ _ _ _ Hready)), stat_1 in Hj. by destruct (es0 backups root req !! journalName).
Qed.

Lemma recovers_crash_state r r' :
  get (nsJournal dev) root = None → crash_state r →
  recovers tears backups now sha256 file_size udid r r' → crash_state r'.
Proof.
  intros Hj Hr Hrec. induction Hrec as [r|r r' j k left Hw Hread _ IH]; [done|]. apply IH.
  destruct Hr as [Hb|[(ph & es & Hes & ->)|[-> |Ht]]].
  - by rewrite before_no_journal in Hread.
  - rewrite (rolling_journal _ _ _ _ _ _ Hready _ _ Hes) in Hread. injection Hread as <-.
    destruct (wpc_dying _ _ _ _ k left
      (resume_wpc _ _ _ now _ file_size _ _ tears Hready Hsha dev _ _ Hes) Hw) as [[_ ->]|?];
      right; [right; by left|done].
  - by rewrite (no_journal_after_commit _ _ _ _ _ _ Hready) in Hread.
  - by rewrite (torn_journal_unread _ _ _ _ _ _ _ Hready _ Ht) in Hread.
Qed.

Lemma rolling_resumes r :
  rolling name backups appVersion sha256 root req r →
  ∃ j, (readJournal (nsJournal dev) (healthy r)).1 = Ok (Some j) ∧
    (resume j (healthy r)).1 = Ok (report, true) ∧ d_root (resume j (healthy r)).2 = after.
Proof.
  intros (ph & es & Hes & ->). eexists.
  split; [exact (rolling_journal _ _ _ _ _ _ Hready _ _ Hes)|].
  exact (wpc_healthy _ _ _ _ (resume_wpc _ _ _ _ _ _ _ _ tears Hready Hsha dev _ _ Hes)).
Qed.

(** Where [latest] stands in the states of a crash. *)
Lemma crash_state_latest r :
  crash_state r →
  get (latestDir backups udid) r = get (latestDir backups udid) root ∨
  get (latestDir backups udid) root = None ∧ get (latestDir backups udid) r = Some (NDir ∅) ∨
  get (latestDir backups udid) r = get (latestDir backups udid) after.
Proof.
  assert (∀ es, get (latestDir backups udid) (graft dev root es) = es !! "latest") as Hg.
  { intros es. unfold get, latestDir. rewrite (graft_stat _ _ _ (dev_dir _ _ _ _ Hready)), stat_1.
    by destruct (es !! "latest"). }
  assert (get (latestDir backups udid) root = es0 backups root req !! "latest") as Hroot.
  { by rewrite <-Hg, (graft_self _ _ _ (dev_dir _ _ _ _ Hready)). }
  assert (∀ r, before r ∨ rolling name backups appVersion sha256 root req r →
    (∃ es, r = graft dev root es) ∧
    (get (latestDir backups udid) r = es0 backups root req !! "latest" ∨
     es0 backups root req !! "latest" = None ∧ get (latestDir backups udid) r = Some (NDir ∅) ∨
     get (latestDir backups udid) r = get (latestDir backups udid) after)) as Hmid.
  { intros r'. intros [(T & _ & ->)|(ph & es & Hes & ->)]; (split; [by eexists|]);
      unfold after_commit; rewrite !Hg, ?st_latest; [by left|].
    destruct Hes as [L HL| | | |]; rewrite !st_latest; [|right; by right..].
    destruct HL as [-> | ->]; [by left|]. unfold latest0.
    destruct Hready as (_&_&_&Hl&_). destruct (es0 _ _ _ !! "latest") as [[]|]; [done|by left|].
    right. by left. }
  rewrite Hroot. intros [Hb|[Hr|[-> |(r0 & Hr0 & _ & Hp)]]]; [by apply Hmid; left|by apply Hmid; right|right; by right|].
  destruct (Hmid r0 Hr0) as [[es ->] H]. unfold nsJournal in Hp.
  rewrite (graft_put_entry _ _ _ (dev_dir _ _ _ _ Hready)) in Hp. injection Hp as <-.
  rewrite Hg, lookup_upd_ne by done. by rewrite Hg in H.
Qed.
End theorems.

(** ** Properties *)

(** What a commit does.  From a tree that is ready, a commit that is not interrupted succeeds and
    reports the new version.  [latest] is then the working tree with the version's marker; what
    [latest] held, if anything, is under its time stamp in [versions] and every other archived
    version is as it was; the working area, the work state and the journal are gone; and nothing
    outside the device's directory changed. *)
Theorem commit_effect name backups appVersion now sha256 file_size root req :
  (∀ m, sha256 m ≠ ""%string) → ready backups sha256 root req →
  let udid := cr_UDID req in
  let dev := deviceDir backups udid in
  let '(res, d) := Commit name backups appVersion now sha256 file_size req (healthy root) in
  let r := d_root d in
  (∃ c, res = Ok c ∧ co_VersionID c = cr_VersionID req ∧ co_UDID c = udid ∧ co_Kind c = vr_Kind (cr_Verify req)) ∧
  get (latestDir backups udid) r
    = Some (NDir (<[MarkerName := NFile (CMarker (new_marker name appVersion sha256 req))]>
                    (tree0 backups root req))) ∧
  (archives backups root req = true →
   get (nsVersions backups udid ++ [prevTS backups sha256 root req]) r = get (latestDir backups udid) root) ∧
  (∀ v, v ≠ prevTS backups sha256 root req →
        get (nsVersions backups udid ++ [v]) r = get (nsVersions backups udid ++ [v]) root) ∧
  get (workingParent backups udid) r = None ∧ get (nsWorkSentinel backups udid) r = None ∧
  get (nsJournal dev) r = None ∧
  (∀ p, diverge dev p → stat p r = stat p root).
Proof.
  intros Hsha Hready udid dev. subst udid dev.
  destruct (commit_healthy false name backups appVersion now sha256 file_size Hsha root req Hready) as [Hres Hroot].
  destruct (Commit _ _ _ _ _ _ _ _) as [res d]. simpl in Hres, Hroot. subst res. cbv zeta. rewrite Hroot.
  pose proof (graft_stat _ _ _ (dev_dir backups sha256 root req Hready)) as Hstat.
  pose proof (dev_dir backups sha256 root req Hready) as Hdev.
  assert (∀ q, stat (deviceDir backups (cr_UDID req) ++ q) root = stat q (NDir (es0 backups root req))) as Hold.
  { intros q. by apply stat_app. }
  unfold get, latestDir, nsVersions, workingParent, nsWorkSentinel, nsJournal.
  rewrite <-!app_assoc. cbn [app].
  split_and!.
  - eexists. split; [done|]. split_and!; done.
  - unfold after_commit. rewrite Hstat, stat_1, st_latest, new_latest_dir. done.
  - intros Ha. unfold after_commit. rewrite Hstat, Hold, stat_new_version, stat_1 by done.
    unfold archives, latest0 in *.
    destruct Hready as (_&_&_&Hl&_). destruct (es0 backups root req !! "latest") as [[]|]; done.
  - intros v Hv. unfold after_commit. rewrite <-!app_assoc. cbn [app]. rewrite Hstat, Hold, !stat_cons, st_versions.
    destruct (archives backups root req) eqn:Ha; [|by rewrite new_versions_same].
    rewrite new_versions_archived by done. rewrite stat_1, lookup_upd_ne by done.
    unfold versions0. destruct Hready as (_&_&_&_&Hvs&_).
    by destruct (es0 backups root req !! "versions") as [[]|].
  - unfold after_commit. by rewrite Hstat, stat_1, st_working.
  - unfold after_commit. by rewrite Hstat, stat_1, st_sentinel.
  - unfold after_commit. by rewrite Hstat, stat_1, st_journal.
  - intros p Hp. eapply stat_put_diverge; [done|]. apply put_graft with (es0 := es0 backups root req), Hdev.
Qed.

(** C1: a commit is crash-safe.  A process that commits dies at any system call, a removal that it was
    at work on half done and, where [tears], a file that it was writing there in part; and so do any
    number of processes that resume its journal.  Then either the commit has not begun - only the
    working tree's marker may differ - or it is finished, or its journal can be read, and resuming it
    succeeds, reports the new version and makes exactly the tree that the undisturbed commit would
    have made.  Or a process died within a write of the journal, which only [tears] allows: then the
    tree is one of these but for the journal, which cannot be read. *)
Theorem commit_crash_safe tears name backups appVersion now sha256 file_size root req k left r :
  (∀ m, sha256 m ≠ ""%string) → ready backups sha256 root req →
  get (nsJournal (deviceDir backups (cr_UDID req))) root = None → leaves tears left →
  let commit := Commit name backups appVersion now sha256 file_size req in
  let resume := ResumeCommit backups now sha256 file_size in
  let journal := nsJournal (deviceDir backups (cr_UDID req)) in
  let finished := d_root (commit (healthy root)).2 in
  let recoverable r :=
    before_commit backups root req r ∨ r = finished ∨
    ∃ j, (readJournal journal (healthy r)).1 = Ok (Some j) ∧
      d_root (resume j (healthy r)).2 = finished ∧
      ∃ c, (resume j (healthy r)).1 = Ok (c, true) ∧ (commit (healthy root)).1 = Ok c in
  recovers tears backups now sha256 file_size (cr_UDID req) (d_root (commit (dying k left root)).2) r →
  recoverable r ∨
  tears = true ∧ (readJournal journal (healthy r)).1 = Err "decode commit journal" ∧
  ∃ r0, recoverable r0 ∧ put journal (Some (NFile CTorn)) r0 = Some r.
Proof.
  intros Hsha Hready Hj Hw commit resume journal finished recoverable Hrec.
  destruct (commit_healthy tears name backups appVersion now sha256 file_size Hsha root req Hready) as [Hres Hroot].
  apply (recovers_crash_state tears name backups appVersion now sha256 file_size Hsha root req Hready _ r Hj
    (commit_dying tears name backups appVersion now sha256 file_size Hsha root req Hready k left Hw)) in Hrec.
  assert (∀ r, before_commit backups root req r ∨ rolling name backups appVersion sha256 root req r →
    recoverable r) as Hmid.
  { intros r' [?|Hrol]; [by left|]. right. right.
    destruct (rolling_resumes tears _ _ _ now _ file_size Hsha _ _ Hready _ Hrol) as (j & Hjr & Hc & Hd).
    exists j. unfold finished, commit. rewrite Hres, Hroot. split_and!; [done..|]. by eexists. }
  destruct Hrec as [?|[?|[-> |Ht]]]; [left; auto|left; auto|left; right; left; by symmetry|]. right.
  pose proof (torn_journal_unread _ _ _ _ _ _ _ Hready _ Ht) as Hu. destruct Ht as (r0 & Hr0 & Ht & Hp).
  split_and!; [done..|]. exists r0. auto.
Qed.

(** [latest] is never missing or half-made.  Whenever a commit or a resumption of it dies, inside a
    write too, [latest] is what it was before the commit, or what it is after it, or, for a device
    without one, the empty directory that the exchange needs. *)
Theorem latest_always_whole tears name backups appVersion now sha256 file_size root req k left r :
  (∀ m, sha256 m ≠ ""%string) → ready backups sha256 root req →
  get (nsJournal (deviceDir backups (cr_UDID req))) root = None → leaves tears left →
  let commit := Commit name backups appVersion now sha256 file_size req in
  let latest := get (latestDir backups (cr_UDID req)) in
  recovers tears backups now sha256 file_size (cr_UDID req) (d_root (commit (dying k left root)).2) r →
  latest r = latest root ∨ latest root = None ∧ latest r = Some (NDir ∅) ∨
  latest r = latest (d_root (commit (healthy root)).2).
Proof.
  intros Hsha Hready Hj Hw commit latest Hrec.
  destruct (commit_healthy tears name backups appVersion now sha256 file_size Hsha root req Hready) as [_ Hroot].
  apply (recovers_crash_state tears name backups appVersion now sha256 file_size Hsha root req Hready _ r Hj
    (commit_dying tears name backups appVersion now sha256 file_size Hsha root req Hready k left Hw)) in Hrec.
  unfold commit. rewrite Hroot. exact (crash_state_latest tears _ _ _ _ _ _ Hready _ Hrec).
Qed.

(** A device with one version, and a working tree to commit. *)
Definition demo_sha (m : Marker) : string := "sum-" +:+ mk_VersionID m.
Definition demo_file_size (c : content) : Z := 1.
Definition demo_marker : Marker :=
  mkMarker "v1" "j1" "00008030-0011223344556677" "copy" "2026-07-18T02:30:11Z" "full" true
    "2026-07-18T02:30:11Z" "1.0" "sum-v1".
Definition demo_dev : gmap string node :=
  <["latest" := NDir (<[MarkerName := NFile (CMarker demo_marker)]> (<["Manifest.db" := NFile (CData "old")]> ∅))]>
  (<["working" := NDir (<["00008030-0011223344556677" := NDir (<["Manifest.db" := NFile (CData "new")]> ∅)]> ∅)]>
  (<[workSentinelName := NFile (CWork (mkWorkState true false))]> ∅)).
Definition demo_root : node :=
  NDir (<["b" := NDir (<["00008030-0011223344556677" := NDir demo_dev]> ∅)]> ∅).
Definition demo_req : CommitReq :=
  mkCommitReq "00008030-0011223344556677" "j2" "v2" (1785000000 * Second) 
    (mkVerifyResult true true "incremental" 12 "").

Lemma demo_sha_nonempty m : demo_sha m ≠ ""%string.
Proof. done. Qed.

Lemma demo_ready : ready ["b"] demo_sha demo_root demo_req.
Proof.
  unfold ready. split_and!; [vm_compute; done..|]. right. exists demo_marker, (1784341811 * Second).
  split_and!; [vm_compute; reflexivity|by vm_compute|vm_compute; reflexivity|vm_compute; reflexivity| |
    vm_compute; reflexivity].
  unfold printable_year. vm_compute. split; discriminate.
Qed.

Abbreviation demo_commit := (Commit "copy" ["b"] "1.0" 0 demo_sha demo_file_size demo_req).

Lemma commit_effect_witness :
  get (nsVersions ["b"] "00008030-0011223344556677" ++ ["2026-07-18T02-30-11Z"])
      (d_root (demo_commit (healthy demo_root)).2)
    = get (latestDir ["b"] "00008030-0011223344556677") demo_root.
Proof.
  pose proof (commit_effect "copy" ["b"] "1.0" 0 demo_sha demo_file_size demo_root demo_req
    demo_sha_nonempty demo_ready) as H. cbv zeta in H.
  destruct demo_commit as [res d]. destruct H as (_ & _ & H & _).
  apply H. vm_compute. reflexivity.
Defined.

(** What a death inside a write makes of the file. *)
Definition tear (x : option node) : option node :=
  match x with Some (NDir _) => x | _ => Some (NFile CTorn) end.
Lemma leaves_tear : leaves true tear.
Proof. intros [[]|]; cbn; auto. Qed.

(** The process dies after the exchange and before the archive, at the ninth call: inside the write of
    the journal's new phase, or before it. *)
Lemma commit_crash_safe_witness :
  let journal := nsJournal ["b"; "00008030-0011223344556677"] in
  let finished := d_root (demo_commit (healthy demo_root)).2 in
  let resume := ResumeCommit ["b"] 0 demo_sha demo_file_size in
  let recoverable r :=
    before_commit ["b"] demo_root demo_req r ∨ r = finished ∨
    ∃ j, (readJournal journal (healthy r)).1 = Ok (Some j) ∧ d_root (resume j (healthy r)).2 = finished ∧
      ∃ c, (resume j (healthy r)).1 = Ok (c, true) ∧ (demo_commit (healthy demo_root)).1 = Ok c in
  (let r := d_root (demo_commit (dying (Some 9%nat) id demo_root)).2 in
   jn_Phase <$> (match (readJournal journal (healthy r)).1 with Ok o => o | Err _ => None end) = Some PhaseExchanged ∧
   (recoverable r ∨
    false = true ∧ (readJournal journal (healthy r)).1 = Err "decode commit journal" ∧
    ∃ r0, recoverable r0 ∧ put journal (Some (NFile CTorn)) r0 = Some r)) ∧
  (let r := d_root (demo_commit (dying (Some 8%nat) tear demo_root)).2 in
   get journal r = Some (NFile CTorn) ∧
   (recoverable r ∨
    true = true ∧ (readJournal journal (healthy r)).1 = Err "decode commit journal" ∧
    ∃ r0, recoverable r0 ∧ put journal (Some (NFile CTorn)) r0 = Some r)).
Proof.
  split; (split; [vm_compute; reflexivity|]).
  - apply (commit_crash_safe false "copy" ["b"] "1.0" 0 demo_sha demo_file_size demo_root demo_req (Some 9%nat) id);
      [exact demo_sha_nonempty|exact demo_ready|reflexivity|exact leaves_id|constructor].
  - apply (commit_crash_safe true "copy" ["b"] "1.0" 0 demo_sha demo_file_size demo_root demo_req (Some 8%nat) tear);
      [exact demo_sha_nonempty|exact demo_ready|reflexivity|exact leaves_tear|constructor].
Defined.

Lemma latest_always_whole_witness :
  let r := d_root (demo_commit (dying (Some 9%nat) id demo_root)).2 in
  let latest := get (latestDir ["b"] "00008030-0011223344556677") in
  latest r = latest demo_root ∨ latest demo_root = None ∧ latest r = Some (NDir ∅) ∨
  latest r = latest (d_root (demo_commit (healthy demo_root)).2).
Proof.
  apply (latest_always_whole false "copy" ["b"] "1.0" 0 demo_sha demo_file_size demo_root demo_req (Some 9%nat) id);
    [exact demo_sha_nonempty|exact demo_ready|reflexivity|exact leaves_id|constructor].
Defined.
