(* ===== verification/Seed.v ===== *)
(** * Seed: the working tree is a whole copy or a job's own work

    The theorems about [Namespace.prepareWorkDir]: a working tree that a killed seed left is never
    resumed but made again, and one that a job left dirty is resumed as it is. *)

From Stdlib Require Import String Ascii.
From S2P Require Import Prelude Domain Backend FS Crash Sidecars Namespace Graft.

(** One preparation of the working tree that dies, or not. *)
Definition seed_dies (backups : path) (udid : string) (r r' : node) : Prop :=
  ∃ k left, leaves true left ∧ r' = d_root (prepareWorkDir backups udid (dying k left r)).2.

Section seed.
Context (backups : path) (udid : string) (root : node).

Abbreviation dev := (deviceDir backups udid).
Abbreviation G := (graft dev root).

(** The device's entries, its working tree and whether its work state says that a seed runs. *)
Definition dev_es : gmap string node := dir_entries (get dev root).
Definition tree_in (es : gmap string node) : option node := dir_entries (es !! "working") !! udid.
Definition empty_tree (t : option node) : bool :=
  match t with Some (NDir es) => no_entries es | _ => true end.
Definition seeding (s : option node) : bool :=
  match s with Some (NFile (CWork (mkWorkState _ true))) => true | _ => false end.

Context (Hdev : stat dev root = FOk (NDir dev_es)) (Hudid : validUDID udid = true).
Context (l : gmap string node).

(** Every entry but the working area and its state is as it was. *)
Definition same_rest (es : gmap string node) : Prop :=
  ∀ k, k ≠ "working"%string → k ≠ workSentinelName → es !! k = dev_es !! k.

Definition seedable (es : gmap string node) : Prop :=
  same_rest es ∧ dir_or_absent (es !! "working") ∧ file_or_absent (es !! workSentinelName) ∧
  (empty_tree (tree_in es) ∨ seeding (es !! workSentinelName) ∨ tree_in es = Some (NDir l)).

Definition seedable_root (r : node) : Prop := ∃ es, seedable es ∧ r = G es.
Definition seeded (r : node) : Prop :=
  ∃ es, same_rest es ∧ tree_in es = Some (NDir l) ∧ file_or_absent (es !! workSentinelName) ∧
    r = G es.

Context (Hlatest : dev_es !! "latest" = Some (NDir l)) (Hl : no_entries l = false).

Abbreviation stat_entry := (graft_stat _ _ _ Hdev).

Lemma tree_entry : workingTree backups udid = dev ++ ["working"; udid].
Proof. unfold workingTree, workingParent. by rewrite <-app_assoc. Qed.

Lemma latest_in es : same_rest es → es !! "latest" = Some (NDir l).
Proof. intros H. by rewrite H. Qed.

Lemma stat_tree_in es :
  dir_or_absent (es !! "working") →
  stat ["working"; udid] (NDir es) = match tree_in es with Some m => FOk m | None => FAbsent end.
Proof.
  intros Hw. unfold tree_in. rewrite stat_cons. by destruct (es !! "working") as [[]|].
Qed.

Lemma same_rest_upd k x es :
  (k = "working"%string ∨ k = workSentinelName) → same_rest es → same_rest (upd k x es).
Proof. intros Hk H k' H1 H2. rewrite lookup_upd_ne by naive_solver. auto. Qed.

Lemma tree_in_upd_sentinel x es : tree_in (upd workSentinelName x es) = tree_in es.
Proof. unfold tree_in. by rewrite lookup_upd_ne. Qed.

Lemma tree_in_upd_working t ws es :
  tree_in (upd "working" (Some (NDir (upd udid t ws))) es) = t.
Proof. unfold tree_in. by rewrite lookup_upd; simpl; rewrite lookup_upd. Qed.

Lemma writeWorkState_wpc C b b' Q es :
  file_or_absent (es !! workSentinelName) → C (G es) →
  C (G (upd workSentinelName (Some (NFile CTorn)) es)) →
  Q None (G (upd workSentinelName (Some (NFile (CWork (mkWorkState b b')))) es)) →
  wpc true C (writeWorkStateAt (nsWorkSentinel backups udid) (mkWorkState b b')) Q (G es).
Proof.
  intros. apply wpc_bind; [solve_frozen|]. apply (graft_wpc_write _ _ _ Hdev); [done..|]. by apply wpc_ret.
Qed.

(** The clone, once the work state says that a seed runs. *)
Lemma finishSeed_wpc es ws :
  same_rest es → es !! "working" = Some (NDir ws) → seeding (es !! workSentinelName) = true →
  wpc true seedable_root (finishSeed backups udid) (λ e r, e = None ∧ seeded r) (G es).
Proof.
  intros Hr Hw Hs.
  assert (∀ x, seedable_root (G (upd "working" (Some (NDir (upd udid x ws))) es))) as Hc.
  { intros x. eexists. split; [|done]. split_and!.
    - apply same_rest_upd; auto.
    - by rewrite lookup_upd.
    - rewrite lookup_upd_ne by done. by destruct (es !! workSentinelName) as [[]|].
    - right. left. rewrite lookup_upd_ne by done. by rewrite Hs. }
  unfold finishSeed. rewrite tree_entry. apply wpc_bind; [intros; unfold seedClosure; solve_frozen|].
  apply (graft_wpc_remove_all_2 _ _ _ Hdev) with (es' := ws); [done|auto|]. cbn [fs_ok negb].
  set (es1 := upd "working" (Some (NDir (upd udid None ws))) es).
  assert (es1 !! "working" = Some (NDir (upd udid None ws))) as Hw1 by apply lookup_upd.
  assert (tree_in es1 = None) as Ht1 by apply tree_in_upd_working.
  apply wpc_and_then; [apply _|]. unfold seedClosure. rewrite tree_entry.
  apply wpc_bind; [solve_frozen|]. apply wpc_change_at.
  { intros left _. erewrite graft_leave_2 by (exact Hdev || exact Hw1). unfold es1.
    rewrite upd_upd, upd_upd. apply Hc. }
  unfold change_post, sys_clone, latestDir. rewrite !stat_entry, stat_1.
  rewrite latest_in by (apply same_rest_upd; auto). cbn [mbind fs_bind].
  rewrite stat_tree_in, Ht1 by (by rewrite Hw1).
  assert (mkdir_all ["working"; udid] (NDir es1)
    = Some (NDir (upd "working" (Some (NDir (upd udid (Some (NDir ∅)) ws))) es1))) as Hmk.
  { simpl. rewrite Hw1. simpl. rewrite lookup_upd. simpl. do 2 f_equal.
    change (upd "working" (Some (NDir (upd udid (Some (NDir ∅)) (upd udid None ws)))) es1
      = upd "working" (Some (NDir (upd udid (Some (NDir ∅)) ws))) es1). by rewrite upd_upd. }
  rewrite (mkdir_graft _ _ _ Hdev _ _ _ Hmk). cbn [mbind option_bind].
  erewrite (graft_put_sub _ _ _ Hdev) by (apply put_2, lookup_upd || done). cbn [fs_opt].
  apply wpc_ret. cbn [err_of fs_ok]. unfold es1. rewrite !upd_upd.
  apply writeWorkState_wpc.
  - rewrite lookup_upd_ne by done. by destruct (es !! workSentinelName) as [[]|].
  - apply Hc.
  - eexists. split; [|done]. split_and!.
    + do 2 (apply same_rest_upd; [by auto|]). done.
    + by rewrite lookup_upd_ne, lookup_upd.
    + by rewrite lookup_upd.
    + right. right. by rewrite tree_in_upd_sentinel, tree_in_upd_working.
  - split; [done|]. refine (ex_intro _ _ (conj _ (conj _ (conj _ eq_refl)))).
    + do 2 (apply same_rest_upd; [by auto|]). done.
    + by rewrite tree_in_upd_sentinel, tree_in_upd_working.
    + by rewrite lookup_upd.
Qed.

(** The first half of the preparation: the working area and the mark that a seed runs. *)
Lemma prepare_wpc es :
  seedable es → empty_tree (tree_in es) →
  wpc true seedable_root
    (r ← os_mkdir_all (workingParent backups udid);
     if negb (fs_ok r) then mret (Err "mkdir working") else
     latest_empty ← isEmptyDir (latestDir backups udid);
     e ← writeWorkStateAt (nsWorkSentinel backups udid) (mkWorkState (negb latest_empty) true);
     match e with
     | Some msg => mret (Err msg)
     | None =>
         if negb latest_empty then mret (Ok (workingParent backups udid, true)) else
         r ← os_mkdir_all (workingTree backups udid);
         if negb (fs_ok r) then mret (Err "mkdir working tree") else
         e ← writeWorkStateAt (nsWorkSentinel backups udid) (mkWorkState false false);
         mret (match e with Some msg => Err msg | None => Ok (workingParent backups udid, false) end)
     end)
    (λ res r, res = Ok (workingParent backups udid, true) ∧
      ∃ es ws, same_rest es ∧ es !! "working" = Some (NDir ws) ∧
        seeding (es !! workSentinelName) = true ∧ r = G es) (G es).
Proof.
  intros (Hr & Hw & Hs & Ht) Hp. unfold workingParent at 1.
  apply wpc_bind; [intros; solve_frozen|]. apply (graft_wpc_mkdir _ _ _ Hdev); [done|by exists es|].
  cbn [fs_ok negb]. set (ws := dir_entries (es !! "working")).
  set (es1 := upd "working" (Some (NDir ws)) es).
  assert (seedable es1) as Hs1.
  { unfold es1. split_and!; [by apply same_rest_upd; auto|by rewrite lookup_upd|by rewrite lookup_upd_ne|].
    unfold tree_in in *. rewrite lookup_upd, lookup_upd_ne by done. naive_solver. }
  pose proof Hs1 as (Hr1 & _ & Hf1 & _).
  assert (wpc true seedable_root (isEmptyDir (latestDir backups udid)) (λ b r, b = false ∧ r = G es1) (G es1)) as He.
  { apply wpc_isEmptyDir; [by exists es1|]. unfold sys_read_dir, latestDir.
    rewrite stat_entry, stat_1, latest_in by done. cbn [mbind fs_bind]. by rewrite Hl. }
  apply wpc_bind; [intros; solve_frozen|]. eapply wpc_mono; [exact He|auto|]. intros b r [-> ->].
  apply wpc_bind; [intros; solve_frozen|]. apply writeWorkState_wpc; [done|by exists es1| |].
  { eexists. split; [|done]. split_and!; [by apply same_rest_upd; auto|rewrite lookup_upd_ne by done; by destruct Hs1 as (_&?&_)|by rewrite lookup_upd|].
    left. rewrite tree_in_upd_sentinel. unfold tree_in, es1 in *. by rewrite lookup_upd. }
  apply wpc_ret. split; [done|].
  refine (ex_intro _ _ (ex_intro _ ws (conj _ (conj _ (conj _ eq_refl))))).
  - apply same_rest_upd; auto.
  - rewrite lookup_upd_ne by done. apply lookup_upd.
  - by rewrite lookup_upd.
Qed.

Lemma read_work_state_wpc C Q es :
  C (G es) →
  (∀ res, (match res with Ok (Some (mkWorkState _ true)) => true | _ => false end)
            = seeding (es !! workSentinelName) → Q res (G es)) →
  wpc true C (readWorkStateAt (nsWorkSentinel backups udid)) Q (G es).
Proof.
  intros HC HQ. apply wpc_bind; [solve_frozen|]. apply wpc_query; [done|]. apply wpc_ret. apply HQ.
  unfold sys_read_file, nsWorkSentinel. rewrite stat_entry, stat_1.
  by destruct (es !! workSentinelName) as [[[| | |[? []]| |]|]|].
Qed.

#[local] Instance frozen_phase1 : Frozen (prepareWorkDirPhase1 backups udid).
Proof. unfold prepareWorkDirPhase1. solve_frozen. Qed.
#[local] Instance frozen_finishSeed : Frozen (finishSeed backups udid).
Proof. unfold finishSeed, seedClosure. apply frozen_bind; [solve_frozen|]. intros. case_match; [solve_frozen|]. apply frozen_and_then; solve_frozen. Qed.

Lemma phase1_wpc es :
  seedable es →
  wpc true seedable_root (prepareWorkDirPhase1 backups udid)
    (λ res r, res = Ok (workingParent backups udid, true) ∧
        (∃ es ws, same_rest es ∧ es !! "working" = Some (NDir ws) ∧
           seeding (es !! workSentinelName) = true ∧ r = G es) ∨
      res = Ok (workingParent backups udid, false) ∧ seeded r) (G es).
Proof.
  intros Hs. assert (seedable_root (G es)) as Hc by (by exists es).
  pose proof Hs as (Hr & Hw & Hf & Ht). unfold prepareWorkDirPhase1. rewrite Hudid. cbn [negb].
  apply wpc_bind; [intros; solve_frozen|]. apply wpc_isEmptyDir; [done|].
  unfold sys_read_dir. rewrite tree_entry, stat_entry, stat_tree_in by done.
  destruct (empty_tree (tree_in es)) eqn:He.
  { assert (match (n ← match tree_in es with Some m => FOk m | None => FAbsent end;
                   match n with NFile _ => FErr | NDir es => FOk es end) with
            | FOk es => no_entries es | _ => true end = true) as ->.
    { destruct (tree_in es) as [[]|]; done. }
    rewrite <-tree_entry. eapply wpc_mono; [apply prepare_wpc; [done|by rewrite He]|auto|].
    intros res r H. by left. }
  destruct (tree_in es) as [[|t]|] eqn:Hte; [done| |done]. cbn [mbind fs_bind]. simpl in He. rewrite He.
  apply wpc_bind; [intros; solve_frozen|]. apply read_work_state_wpc; [done|]. intros res Hres.
  destruct (seeding (es !! workSentinelName)) eqn:Hse.
  - assert (∃ b, res = Ok (Some (mkWorkState b true))) as [b ->] by (destruct res as [[[? []]|]|]; naive_solver).
    apply wpc_bind; [intros; solve_frozen|]. unfold workingParent at 1.
    apply (graft_wpc_remove_all _ _ _ Hdev).
    + intros x Hx. eexists. split; [|done]. split_and!; [by apply same_rest_upd; auto|
        rewrite lookup_upd; auto|by rewrite lookup_upd_ne|].
      right. left. rewrite lookup_upd_ne by done. by rewrite Hse.
    + cbn [fs_ok]. rewrite <-tree_entry. eapply wpc_mono; [apply prepare_wpc|auto|].
      * split_and!; [by apply same_rest_upd; auto|by rewrite lookup_upd|by rewrite lookup_upd_ne|].
        right. left. rewrite lookup_upd_ne by done. by rewrite Hse.
      * unfold tree_in. by rewrite lookup_upd.
      * intros res r H. by left.
  - assert (seeded (G es)) as Hd.
    { exists es. split_and!; [done| |done|done]. naive_solver. }
    destruct res as [[[? []]|]|]; try done; (apply wpc_ret; by right).
Qed.

Lemma prepareWorkDir_wpc es :
  seedable es →
  wpc true seedable_root (prepareWorkDir backups udid)
    (λ res r, res = Ok (workingParent backups udid) ∧ seeded r) (G es).
Proof.
  intros Hs. unfold prepareWorkDir. apply wpc_bind; [intros; solve_frozen|].
  eapply wpc_mono; [by apply phase1_wpc|auto|].
  intros res r [[-> (es' & ws & Hr & Hw & Hse & ->)]|[-> Hd]]; [|by apply wpc_ret].
  apply wpc_bind; [intros; solve_frozen|]. eapply wpc_mono; [by eapply finishSeed_wpc|auto|].
  intros e r [-> Hd]. by apply wpc_ret.
Qed.

Lemma seeded_seedable r : seeded r → seedable_root r.
Proof.
  intros (es & Hr & Ht & Hs & ->). exists es. split; [|done]. split_and!; [done| |done|by right; right].
  unfold tree_in in Ht. by destruct (es !! "working") as [[]|].
Qed.

Lemma seed_dies_seedable k left r :
  leaves true left → seedable_root r → seedable_root (d_root (prepareWorkDir backups udid (dying k left r)).2).
Proof.
  intros Hw (es & Hs & ->).
  destruct (wpc_dying _ _ _ _ k left (prepareWorkDir_wpc es Hs) Hw) as [[_ ?]|?]; [|done].
  by apply seeded_seedable.
Qed.

Lemma seed_crashes_seedable r r' :
  rtc (seed_dies backups udid) r r' → seedable_root r → seedable_root r'.
Proof.
  induction 1 as [r|r r' r'' (k & left & Hw & ->) _ IH]; intros Hr; [done|].
  by apply IH, seed_dies_seedable.
Qed.

Lemma seedable_seeds r :
  seedable_root r →
  (prepareWorkDir backups udid (healthy r)).1 = Ok (workingParent backups udid) ∧
  seeded (d_root (prepareWorkDir backups udid (healthy r)).2).
Proof. intros (es & Hs & ->). exact (wpc_healthy _ _ _ _ (prepareWorkDir_wpc es Hs)). Qed.
End seed.

(** ** Properties *)

(** A working tree that a killed seed left is never resumed.  A device has a committed version and
    no work of a job - its working tree is empty, or the work state says that a seed was under
    way.  However often the preparation of the working tree dies, each time with any part of the
    copy made, the next one that does not die makes a working tree that is exactly [latest], and
    nothing of the device but the working area and its state has changed. *)
Theorem killed_seed_redone backups udid root l r :
  validUDID udid = true → get (latestDir backups udid) root = Some (NDir l) → no_entries l = false →
  dir_or_absent (get (workingParent backups udid) root) →
  file_or_absent (get (nsWorkSentinel backups udid) root) →
  empty_tree (get (workingTree backups udid) root) ∨
    seeding (get (nsWorkSentinel backups udid) root) →
  rtc (seed_dies backups udid) root r →
  let '(res, d) := prepareWorkDir backups udid (healthy r) in
  res = Ok (workingParent backups udid) ∧
  get (workingTree backups udid) (d_root d) = Some (NDir l) ∧
  ∀ name, name ≠ "working"%string → name ≠ workSentinelName →
    get (deviceDir backups udid ++ [name]) (d_root d) = get (deviceDir backups udid ++ [name]) root.
Proof.
  intros Hu Hl Hne Hw Hs Ht Hr.
  assert (stat (deviceDir backups udid) root = FOk (NDir (dev_es backups udid root))) as Hdev.
  { apply get_Some in Hl. apply stat_parent in Hl as (es & Hd). unfold dev_es, get. by rewrite Hd. }
  assert (∀ q, stat (deviceDir backups udid ++ q) root = stat q (NDir (dev_es backups udid root))) as Hold.
  { intros q. by apply stat_app. }
  set (es := dev_es backups udid root) in *.
  assert (∀ name, get (deviceDir backups udid ++ [name]) root = es !! name) as Hget.
  { intros name. unfold get. rewrite Hold, stat_1. by destruct (es !! name). }
  unfold latestDir, workingParent, nsWorkSentinel in Hl, Hw, Hs, Ht. rewrite Hget in Hl, Hw, Hs, Ht.
  assert (get (workingTree backups udid) root = tree_in udid es) as Htree.
  { unfold get. rewrite tree_entry, Hold, stat_tree_in by done. by destruct (tree_in udid es). }
  rewrite Htree in Ht.
  assert (seedable_root backups udid root l root) as Hroot.
  { exists es. split; [|symmetry; exact (graft_self _ _ _ Hdev)]. split_and!; [done..|naive_solver]. }
  assert (seedable_root backups udid root l r) as Hseed.
  { exact (seed_crashes_seedable _ _ _ Hdev Hu _ Hl Hne _ _ Hr Hroot). }
  destruct (seedable_seeds _ _ _ Hdev Hu _ Hl Hne _ Hseed) as [Hres (es' & Hr' & Ht' & _ & Hd)].
  destruct (prepareWorkDir backups udid (healthy r)) as [res d]. simpl in *. rewrite Hd.
  split; [done|]. split.
  - unfold get. rewrite tree_entry, (graft_stat _ _ _ Hdev), stat_tree_in.
    + by rewrite Ht'.
    + unfold tree_in in Ht'. by destruct (es' !! "working") as [[]|].
  - intros name H1 H2. rewrite Hget, <-Hr' by done. unfold get.
    rewrite (graft_stat _ _ _ Hdev), stat_1. by destruct (es' !! name).
Qed.

(** a failed job's work is kept.  A working tree with something in it, whose work state does not say
    that a seed is under way, is handed to the next job as it is: the preparation changes
    nothing. *)
Theorem dirty_work_resumed backups udid root t :
  validUDID udid = true → get (workingTree backups udid) root = Some (NDir t) → no_entries t = false →
  seeding (get (nsWorkSentinel backups udid) root) = false →
  (prepareWorkDir backups udid (healthy root)).1 = Ok (workingParent backups udid) ∧
  d_root (prepareWorkDir backups udid (healthy root)).2 = root.
Proof.
  intros Hu Ht Hne Hs.
  apply get_Some in Ht. unfold prepareWorkDir, prepareWorkDirPhase1, isEmptyDir, readWorkStateAt.
  rewrite Hu. unfold read_dir, read_file, sys_query, sys_read_dir, sys_read_file, get in *. state_simpl.
  rewrite Ht. simpl. rewrite Hne. simpl.
  destruct (stat (nsWorkSentinel backups udid) root) as [[[| | |[? []]| |]|]| |]; done.
Qed.

(** A device whose seed was killed after one of two files. *)
Definition seed_root : node :=
  NDir {["b" := NDir {["d-1234567" := NDir
    (<["latest" := NDir {["a" := NFile (CData "1"); "c" := NFile (CData "2")]}]>
    (<["working" := NDir {["d-1234567" := NDir {["a" := NFile (CData "1")]}]}]>
    {[workSentinelName := NFile (CWork (mkWorkState true true))]}))]}]}.

Lemma killed_seed_redone_witness :
  get (workingTree ["b"] "d-1234567") (d_root (prepareWorkDir ["b"] "d-1234567" (healthy seed_root)).2)
    = get (latestDir ["b"] "d-1234567") seed_root.
Proof.
  pose proof (killed_seed_redone ["b"] "d-1234567" seed_root
    {["a" := NFile (CData "1"); "c" := NFile (CData "2")]} seed_root) as H.
  destruct (prepareWorkDir ["b"] "d-1234567" (healthy seed_root)) as [res d].
  apply H; [reflexivity|reflexivity|reflexivity|done|done|right; done|constructor].
Defined.

Definition dirty_root : node :=
  NDir {["b" := NDir {["d-1234567" := NDir
    (<["working" := NDir {["d-1234567" := NDir {["a" := NFile (CData "1")]}]}]>
    {[workSentinelName := NFile (CWork (mkWorkState true false))]})]}]}.

Lemma dirty_work_resumed_witness :
  d_root (prepareWorkDir ["b"] "d-1234567" (healthy dirty_root)).2 = dirty_root.
Proof.
  apply (dirty_work_resumed ["b"] "d-1234567" dirty_root {["a" := NFile (CData "1")]}); reflexivity.
Defined.
