(* ===== verification/ZfsHost.v ===== *)
(** * ZfsHost: commands to the host's ZFS

    Models core/internal/storage/zfscli.go.  The constrained helper that a host may run for it
    (storage/zfshelper/quince-zfs-helper) is not modelled, and what ZFS does with a command is not in
    the repository: a host is the class [ZfsHost], a command's output, whether it succeeded, and the file tree that it
    leaves, and [zfs_law] states the documented behaviour that the backend relies on.  A snapshot is
    seen at .zfs/snapshot under the mount point of its dataset, and the listing law takes the dataset
    of a device to have no child datasets. *)

From Stdlib Require Import String Ascii.
From S2P Require Import Prelude Calendar Domain Backend FS Crash Sidecars Namespace Graft.

(** ** Names that reach a command *)

Definition is_upper (c : ascii) : bool := let n := Z_of_char c in (65 <=? n) && (n <=? 90).
Definition is_lower (c : ascii) : bool := let n := Z_of_char c in (97 <=? n) && (n <=? 122).
Definition is_word (c : ascii) : bool := is_upper c || is_lower c || is_digit c || bool_decide (c = "_"%char).

(** A first character of a word, and up to [max] more that may be punctuation of [extra]. *)
Definition name_pattern (extra : list ascii) (max : nat) (s : string) : bool :=
  match s with
  | EmptyString => false
  | String c s' =>
      is_word c && all_chars (λ d, is_word d || bool_decide (d ∈ extra)) s' && (String.length s' <=? max)%nat
  end.

Definition datasetPattern : string → bool := name_pattern ["."; ":"; "/"; "-"]%char 255.
Definition snapShortPattern : string → bool := name_pattern ["."; ":"; "-"]%char 127.

(** [strings.ToLower] on single-byte runes. *)
Definition lower_char (c : ascii) : ascii := if is_upper c then char_of_Z (Z_of_char c + 32) else c.
Fixpoint to_lower (s : string) : string :=
  match s with EmptyString => EmptyString | String c s' => String (lower_char c) (to_lower s') end.

(** [strings.Split] by a newline. *)
Definition newline : ascii := "010".
Fixpoint split_lines (s : string) : list string :=
  match s with
  | EmptyString => [EmptyString]
  | String c s' =>
      if bool_decide (c = newline) then EmptyString :: split_lines s'
      else match split_lines s' with
           | [] => [String c EmptyString]
           | l :: ls => String c l :: ls
           end
  end.

(** [strings.Fields]: a word ends at white space. *)
Fixpoint fields_from (word : string) (s : string) : list string :=
  match s with
  | EmptyString => if bool_decide (word = EmptyString) then [] else [str_reverse word]
  | String c s' =>
      if is_space c then
        (if bool_decide (word = EmptyString) then [] else [str_reverse word]) ++ fields_from EmptyString s'
      else fields_from (String c word) s'
  end.
Definition Fields (s : string) : list string := fields_from EmptyString s.

(** [strconv.ParseUint(s, 10, 64)]; [None] is a syntax error or a number that does not fit. *)
Definition uint64_max : Z := 2 ^ 64 - 1.
Fixpoint uint_digits (s : string) (acc : Z) : option Z :=
  match s with
  | EmptyString => Some acc
  | String c s' =>
      if is_digit c then
        let n := acc * 10 + digit_value c in if uint64_max <? n then None else uint_digits s' n
      else None
  end.
Definition ParseUint (s : string) : option Z := if bool_decide (s = "") then None else uint_digits s 0.
Definition wrap_u64 (z : Z) : Z := z `mod` 2 ^ 64.

(** ** The host *)

Class ZfsHost : Type := {
  parent : string;                 (* the parent dataset *)
  hookArgv : list string;          (* the operator's forced command *)
  host_run : list string → node → (string * bool) * node }.

(** The snapshots of a mounted dataset, and what is in it beside them. *)
Definition snapshotDirName : string := "snapshot".
Definition snapshots (es : gmap string node) : gmap string node :=
  dir_entries (dir_entries (es !! snapdirName) !! snapshotDirName).
Definition set_snapshots (s : gmap string node) (es : gmap string node) : gmap string node :=
  upd snapdirName (Some (NDir (upd snapshotDirName (Some (NDir s)) (dir_entries (es !! snapdirName))))) es.
Definition head_of (es : gmap string node) : gmap string node := delete snapdirName es.
Definition set_head (h : gmap string node) (es : gmap string node) : gmap string node :=
  upd snapdirName (es !! snapdirName) h.

Section cli.
Context `{Hzfs : !ZfsHost}.

Definition dataset (udid : string) : string := parent +:+ "/" +:+ udid.
Definition argv (op : string) (args : list string) : list string := hookArgv ++ op :: args.

(** A command is one step.  When the process dies at it, or the connection breaks, the host may have
    carried it out or not. *)
Definition run (argv : list string) : stateM Disk (string * bool) := λ d,
  let '(res, root') := host_run argv (d_root d) in
  if d_fault d (d_step d) then
    ((""%string, false),
     tick_step (if bool_decide (is_Some (d_left d (d_step d) None)) then set_root root' d else d))
  else (res, tick_step (set_root root' d)).

Definition invalid_dataset (ds : string) : string := "storage: invalid dataset name " +:+ quote ds.
Definition invalid_snapshot (ds snap : string) : string :=
  "storage: invalid dataset/snapshot " +:+ quote ds +:+ "@" +:+ quote snap.

Definition CreateDataset (udid : string) : stateM Disk error :=
  let ds := dataset udid in
  if negb (datasetPattern ds) then mret (Some (invalid_dataset ds)) else
  '(out, ok) ← run (argv "create" ["-p"; ds]%string);
  mret (if negb ok && negb (str_contains (to_lower out) "already exists")
        then Some ("zfs create " +:+ ds +:+ ": " +:+ trim_space out) else None).

Definition Snapshot (udid snap : string) : stateM Disk error :=
  let ds := dataset udid in
  if negb (datasetPattern ds) || negb (snapShortPattern snap) then mret (Some (invalid_snapshot ds snap)) else
  let full := ds +:+ "@" +:+ snap in
  '(out, ok) ← run (argv "snapshot" [full]);
  mret (if negb ok && negb (str_contains (to_lower out) "already exists")
        then Some ("zfs snapshot " +:+ full +:+ ": " +:+ trim_space out) else None).

(** The lines of a listing that name quince's snapshots. *)
Definition quince_snapshots (out : string) : list string :=
  omap (λ line, let line := trim_space line in
          if bool_decide (line = "") then None
          else let short := snapName line in if has_prefix short "quince-" then Some short else None)
    (split_lines (trim_space out)).

Definition ListSnapshots (udid : string) : stateM Disk (result (list string)) :=
  let ds := dataset udid in
  if negb (datasetPattern ds) then mret (Err (invalid_dataset ds)) else
  '(out, ok) ← run (argv "list" ["-t"; "snapshot"; "-H"; "-o"; "name"; "-r"; ds]%string);
  mret (if negb ok then
          if str_contains (to_lower out) "does not exist" then Ok []
          else Err ("zfs list " +:+ ds +:+ ": " +:+ trim_space out)
        else Ok (quince_snapshots out)).

Definition DestroySnapshot (udid snap : string) : stateM Disk error :=
  let ds := dataset udid in
  if negb (datasetPattern ds) || negb (snapShortPattern snap) then mret (Some (invalid_snapshot ds snap)) else
  let full := ds +:+ "@" +:+ snap in
  '(out, ok) ← run (argv "destroy" [full]);
  mret (if negb ok && negb (str_contains (to_lower out) "could not find")
        then Some ("zfs destroy " +:+ full +:+ ": " +:+ trim_space out) else None).

Definition Rollback (udid snap : string) : stateM Disk error :=
  if negb (validUDID udid) then mret (Some ("storage: invalid udid " +:+ quote udid)) else
  let ds := dataset udid in
  if negb (datasetPattern ds) || negb (snapShortPattern snap) || negb (has_prefix snap "quince-")
  then mret (Some (invalid_snapshot ds snap +:+ " — rollback targets quince's own snapshots only")) else
  let full := ds +:+ "@" +:+ snap in
  '(out, ok) ← run (argv "rollback" [full]);
  mret (if negb ok then Some ("zfs rollback " +:+ full +:+ ": " +:+ trim_space out) else None).

Definition snapNameFor (versionID : string) (created : time) : string :=
  "quince-" +:+ fmt_snap_date created +:+ "-" +:+ versionID.

(** Free and total, in bytes. *)
Definition Capacity : stateM Disk (result (Z * Z)) :=
  if negb (datasetPattern parent) then mret (Err ("storage: invalid parent dataset " +:+ quote parent)) else
  '(out, ok) ← run (argv "capacity" []);
  mret (if negb ok then Err ("zfs capacity " +:+ parent +:+ ": " +:+ trim_space out)
        else match Fields (trim_space out) with
             | [used; avail] =>
                 match ParseUint used, ParseUint avail with
                 | Some used, Some avail => Ok (avail, wrap_u64 (used + avail))
                 | None, _ => Err ("zfs capacity " +:+ parent +:+ ": parsing used " +:+ quote used)
                 | _, None => Err ("zfs capacity " +:+ parent +:+ ": parsing available " +:+ quote avail)
                 end
             | _ => Err ("zfs capacity " +:+ parent +:+ ": want 2 fields (used, available), got " +:+ quote (trim_space out))
             end).

(** ** The behaviour of ZFS that the backend relies on

    For a dataset that is mounted at the device's directory, under names that the patterns admit. *)
Record zfs_law (backups : path) : Prop := {
  (* A snapshot holds what the dataset holds; one that exists is refused and nothing changes. *)
  law_snapshot : ∀ root udid snap es, datasetPattern (dataset udid) = true → snapShortPattern snap = true →
    stat (deviceDir backups udid) root = FOk (NDir es) →
    let res := host_run (argv "snapshot" [dataset udid +:+ "@" +:+ snap]) root in
    match snapshots es !! snap with
    | None => res.1.2 = true ∧
        res.2 = graft (deviceDir backups udid) root (set_snapshots (<[snap := NDir (head_of es)]> (snapshots es)) es)
    | Some _ => res.1.2 = false ∧ str_contains (to_lower res.1.1) "already exists" = true ∧ res.2 = root
    end;
  (* A rollback makes the dataset what the snapshot holds and leaves the snapshots alone, or is
     refused and nothing changes. *)
  law_rollback : ∀ root udid snap es, datasetPattern (dataset udid) = true → snapShortPattern snap = true →
    stat (deviceDir backups udid) root = FOk (NDir es) →
    let res := host_run (argv "rollback" [dataset udid +:+ "@" +:+ snap]) root in
    if res.1.2 : bool then
      ∃ h, snapshots es !! snap = Some (NDir h) ∧ res.2 = graft (deviceDir backups udid) root (set_head h es)
    else res.2 = root;
  (* A snapshot that is destroyed is gone, and no other; or nothing changes. *)
  law_destroy : ∀ root udid snap es, datasetPattern (dataset udid) = true → snapShortPattern snap = true →
    stat (deviceDir backups udid) root = FOk (NDir es) →
    let res := host_run (argv "destroy" [dataset udid +:+ "@" +:+ snap]) root in
    if res.1.2 : bool then
      res.2 = graft (deviceDir backups udid) root (set_snapshots (delete snap (snapshots es)) es)
    else res.2 = root;
  (* A listing names the snapshots, each on a line after its dataset, which is there. *)
  law_list : ∀ root udid es, datasetPattern (dataset udid) = true →
    stat (deviceDir backups udid) root = FOk (NDir es) →
    let res := host_run (argv "list" ["-t"; "snapshot"; "-H"; "-o"; "name"; "-r"; dataset udid]%string) root in
    res.2 = root ∧
    (res.1.2 = false → str_contains (to_lower res.1.1) "does not exist" = false) ∧
    (res.1.2 = true → ∃ l, Permutation l (fst <$> map_to_list (snapshots es)) ∧
       res.1.1 = join ((λ s, dataset udid +:+ "@" +:+ s) <$> l) (String newline EmptyString));
  (* A dataset that is there is left alone. *)
  law_create : ∀ root udid es, datasetPattern (dataset udid) = true →
    stat (deviceDir backups udid) root = FOk (NDir es) →
    (host_run (argv "create" ["-p"; dataset udid]%string) root).2 = root;
  law_capacity : ∀ root, (host_run (argv "capacity" []) root).2 = root }.

End cli.
