(* ===== verification/Zfs.v ===== *)
(** * Zfs: the ZFS backend

    Models core/internal/storage/zfs.go.  The tree that a job fills is the root of the device's
    dataset, a version is a snapshot of it, and quince's own bookkeeping (the work state and the
    commit journal) lies in the parent, outside the snapshots.  Log lines are not modelled; the reads
    that only feed them are made. *)

From Stdlib Require Import String Ascii.
From S2P Require Import Prelude Calendar Domain Backend FS Crash Sidecars Namespace Graft ZfsHost.
#[local] Open Scope quince_scope.

(** Calls for each of a list, up to the first error. *)
Fixpoint each_until {A} (f : A → stateM Disk error) (l : list A) : stateM Disk error :=
  match l with
  | [] => mret None
  | x :: l' => f x ;;? each_until f l'
  end.

#[global] Instance frozen_each_until {A} (f : A → stateM Disk error) l :
  (∀ x, Frozen (f x)) → Frozen (each_until f l).
Proof. intros Hf. induction l; simpl; apply _. Qed.

Section zfs.
Context `{Hzfs : !ZfsHost}.
Context (backups : path) (appVersion : string).
Context (sha256 : Marker → string) (file_size : content → Z).

(** The directory is read to say in the log whether [.zfs] is listed. *)
Definition assertSnapdir (dev : path) : stateM Disk unit := _ ← read_dir dev; mret tt.

Definition Provision (udid : string) : stateM Disk error :=
  if negb (validUDID udid) then mret (Some ("storage: invalid udid " +:+ quote udid)) else
  CreateDataset udid ;;?
  (let dev := deviceDir backups udid in
   r ← os_stat dev;
   if negb (fs_ok r) then mret None else
   assertSnapdir dev;; mret None).

Definition preChangeNames : list string := ["latest"; "working"; workSentinelName; journalName]%string.

Definition discardPreChangeLayout (tree : path) : stateM Disk error :=
  each_until (λ name,
    let p := tree ++ [name] in
    r ← os_stat p;
    match r with
    | FOk n =>
        (if is_dir (Some n) then _ ← dirSize file_size p; mret tt else mret tt);;
        r ← remove_all p; mret (err_of r "remove pre-change entry")
    | _ => mret None
    end) preChangeNames.

Definition PrepareWork (udid : string) : stateM Disk (result (path * bool)) :=
  if negb (validUDID udid) then mret (Err ("storage: invalid udid " +:+ quote udid)) else
  let tree := deviceDir backups udid in
  or_fail (discardPreChangeLayout tree) (
  empty ← isEmptyDir tree;
  or_fail (writeWorkStateAt (zfsWorkSentinel backups udid) (mkWorkState (negb empty) false)) (
  mret (Ok (backups, false)))).

Definition WorkDir (udid : string) : stateM Disk (result path) :=
  r ← PrepareWork udid; mret (match r with Ok (target, _) => Ok target | Err msg => Err msg end).

Definition SeedWork : stateM Disk error := mret None.

Definition TreePath (udid : string) : path := deviceDir backups udid.

Definition committedFromSnapshot (udid snap : string) : stateM Disk (result Committed) :=
  let snapRoot := zfsSnapRoot backups udid snap in
  r ← ReadMarker sha256 snapRoot;
  match r with
  | MarkerOk m =>
      sz ← dirSize file_size snapRoot;
      let c := committedFromMarker m sz in
      mret (Ok (mkCommitted (co_VersionID c) (co_UDID c) (co_Backend c)
                  (Some (dataset udid +:+ "@" +:+ snap)) (co_CreatedAt c) (co_JobID c) (co_Kind c)
                  (co_Encrypted c) (co_StructureVerifiedAt c) (co_LogicalBytes c)))
  | _ => mret (Err "storage: read snapshot marker after commit")
  end.

Definition snapshotStep (j : Journal) : stateM Disk error :=
  Snapshot (jn_UDID j) (snapName (jn_ZFSSnapshot j)) ;;?
  writeJournal (zfsJournal backups (jn_UDID j)) (with_phase j PhaseSnapshotCreated).

Definition finishCommit (j : Journal) : stateM Disk error :=
  (match jn_Phase j with PhasePrepared => snapshotStep j | _ => mret None end) ;;?
  (removeWorkStateAt (zfsWorkSentinel backups (jn_UDID j));;
   removeJournal (zfsJournal backups (jn_UDID j))).

Definition zfs_marker (req : CommitReq) : Marker :=
  mkMarker (cr_VersionID req) (cr_JobID req) (cr_UDID req) BackendZFS (fmtRFC (cr_CreatedAt req))
    (vr_Kind (cr_Verify req)) (vr_Encrypted (cr_Verify req)) (fmtRFC (cr_CreatedAt req)) appVersion "".

Definition zfs_journal (req : CommitReq) : Journal :=
  mkJournal (cr_VersionID req) (cr_UDID req) BackendZFS (cr_JobID req) PhasePrepared
    (fmtRFC (cr_CreatedAt req)) (vr_Kind (cr_Verify req)) (vr_Encrypted (cr_Verify req))
    (fmtRFC (cr_CreatedAt req)) (vr_LogicalBytes (cr_Verify req)) (deviceDir backups (cr_UDID req)) ""
    (dataset (cr_UDID req) +:+ "@" +:+ snapNameFor (cr_VersionID req) (cr_CreatedAt req)) [].

Definition Commit (req : CommitReq) : stateM Disk (result Committed) :=
  let udid := cr_UDID req in
  let tree := deviceDir backups udid in
  empty ← isEmptyDir tree;
  if empty : bool then mret (Err "storage: dataset head is empty — nothing to commit") else
  or_fail (WriteMarker sha256 tree (zfs_marker req)) (
  or_fail (writeJournal (zfsJournal backups udid) (zfs_journal req)) (
  or_fail (finishCommit (zfs_journal req)) (
  committedFromSnapshot udid (snapNameFor (cr_VersionID req) (cr_CreatedAt req))))).

Definition ResumeCommit (j : Journal) : stateM Disk (result (Committed * bool)) :=
  let finish : stateM Disk (result (Committed * bool)) :=
    c ← committedFromSnapshot (jn_UDID j) (snapName (jn_ZFSSnapshot j));
    mret (match c with Ok c => Ok (c, true) | Err msg => Err msg end) in
  if bool_decide (jn_Phase j = PhaseSnapshotCreated) then
    removeWorkStateAt (zfsWorkSentinel backups (jn_UDID j));;
    _ ← removeJournal (zfsJournal backups (jn_UDID j)); finish
  else or_fail (finishCommit j) finish.

Definition DeleteArtifact (a : Artifact) : stateM Disk error :=
  match ar_ZFSSnapshot a with
  | None => mret (Some "storage: zfs artifact has no snapshot"%string)
  | Some full => DestroySnapshot (ar_UDID a) (snapName full)
  end.

(** ** Reset *)

Definition zfsNewerSnapshotMarker : string := "more recent snapshots".

(** The remedy that the message names; zfs's own words follow it. *)
Definition rollbackRefusal (msg : string) : string :=
  (if str_contains msg zfsNewerSnapshotMarker
   then "a snapshot newer than the version quince would restore exists. zfs said: "
   else "the rollback did not complete. zfs said: ") +:+ msg.

Definition emptyHead (udid : string) : stateM Disk error :=
  let root := deviceDir backups udid in
  r ← read_dir root;
  match r with
  | FOk es =>
      each_until (λ name, if bool_decide (name = snapdirName) then mret None
                          else r ← remove_all (root ++ [name]); mret (err_of r "remove entry")) (names es) ;;?
      (removeWorkStateAt (zfsWorkSentinel backups udid);; mret None)
  | _ => mret (Some "storage: reset could not read the dataset head"%string)
  end.

Definition newest_name (s : string) (snaps : list string) : string :=
  fold_left (λ newest s, if str_ltb newest s then s else newest) snaps s.

Definition RepairWorkingCopy (udid : string) : stateM Disk error :=
  snaps ← ListSnapshots udid;
  match snaps with
  | Err msg => mret (Some ("storage: reset could not list this device's snapshots: " +:+ msg))
  | Ok [] => emptyHead udid
  | Ok (s :: rest) =>
      e ← Rollback udid (newest_name s rest);
      match e with
      | Some msg => mret (Some (rollbackRefusal msg))
      | None => removeWorkStateAt (zfsWorkSentinel backups udid);; mret None
      end
  end.

(** ** Scans *)

Fixpoint scanSnapshots (udid : string) (snaps : list string) : stateM Disk (list Artifact) :=
  match snaps with
  | [] => mret []
  | s :: rest =>
      let snapRoot := zfsSnapRoot backups udid s in
      r ← ReadMarker sha256 snapRoot;
      match r with
      | MarkerOk m =>
          sz ← dirSize file_size snapRoot;
          l ← scanSnapshots udid rest;
          mret (mkArtifact udid BackendZFS (Some (dataset udid +:+ "@" +:+ s)) m false sz :: l)
      | _ => scanSnapshots udid rest
      end
  end.

Definition newest_created (arts : list Artifact) : string :=
  fold_left (λ newest a, let c := mk_CreatedAt (ar_Marker a) in if str_ltb newest c then c else newest) arts "".

Definition mark_latest (newest : string) (a : Artifact) : Artifact :=
  mkArtifact (ar_UDID a) (ar_Backend a) (ar_ZFSSnapshot a) (ar_Marker a)
    (if bool_decide (mk_CreatedAt (ar_Marker a) = newest) then true else ar_IsLatest a) (ar_LogicalBytes a).

Definition Scan (udid : string) : stateM Disk (result (list Artifact)) :=
  snaps ← ListSnapshots udid;
  match snaps with
  | Err msg => mret (Err msg)
  | Ok snaps =>
      out ← scanSnapshots udid snaps;
      mret (Ok (mark_latest (newest_created out) <$> out))
  end.

Definition Discard (udid : string) : stateM Disk (string * error) :=
  r ← Scan udid;
  let last := match r with
              | Ok arts => fold_left (λ last a, if ar_IsLatest a then mk_CreatedAt (ar_Marker a) else last) arts "none"%string
              | Err _ => "none"%string
              end in
  mret ("dataset head kept dirty for retry; last good version = " +:+ last, None).

Definition PendingJournals : stateM Disk (result (list Journal)) := scanFlatJournals backups.

Definition SweepWork : stateM Disk error := mret None.

Definition Dirty (udid : string) (d : Disk) : bool :=
  bool_decide (is_Some (get (zfsWorkSentinel backups udid) (d_root d))).

Definition zfsBackend : Backend Disk :=
  mkBackend Disk BackendZFS Provision (λ udid _, WorkDir udid) (λ udid _, PrepareWork udid)
    (λ _ _, SeedWork) (λ udid _, TreePath udid) Commit ResumeCommit (λ udid _, Discard udid)
    DeleteArtifact RepairWorkingCopy Scan PendingJournals (λ _, SweepWork) Dirty.

End zfs.
