(* ===== verification/ZfsCommit.v ===== *)
(** * ZfsCommit: the commit of the ZFS backend is crash-safe

    The states that a commit goes through, written as trees, and what a process that dies anywhere
    in a commit, at a command to the host or at a system call, leaves for the resumptions of its
    journal.  The host is any that obeys [zfs_law]. *)

From Stdlib Require Import String Ascii.
From S2P Require Import Prelude Calendar Domain Backend FS Crash Sidecars Namespace Graft ZfsHost Zfs.

(** ** Commands in a process that may die *)

Section commands.
Context `{Hzfs : !ZfsHost}.

#[global] Instance frozen_run c : Frozen (run c).
Proof.
  intros d k left [Hf Hl] Hd. unfold run. destruct (host_run c (d_root d)) as [res root'].
  rewrite Hf, crash_at_dead by done. rewrite Hl, left_at_dead by done. cbn.
  split_and!; [done|by apply dead_S|done].
Qed.

Lemma wpc_run tears C c Q r :
  C r → C (host_run c r).2 → Q (host_run c r).1 (host_run c r).2 → wpc tears C (run c) Q r.
Proof.
  intros HC HC' HQ d k left Hw [Hf Hl] Hr Hd. subst r. unfold run.
  destruct (host_run c (d_root d)) as [res root'] eqn:E. cbn [fst snd] in *. rewrite Hf.
  destruct (alive_cases _ _ Hd) as [(-> & _ & ?)|(-> & ?)]; cbn.
  - split; [by case_bool_decide|]. right. case_bool_decide; done.
  - split; [done|]. by left.
Qed.

#[global] Instance frozen_Snapshot u s : Frozen (Snapshot u s).
Proof. unfold Snapshot. solve_frozen. Qed.
#[global] Instance frozen_CreateDataset u : Frozen (CreateDataset u).
Proof. unfold CreateDataset. solve_frozen. Qed.
#[global] Instance frozen_ListSnapshots u : Frozen (ListSnapshots u).
Proof. unfold ListSnapshots. solve_frozen. Qed.
#[global] Instance frozen_DestroySnapshot u s : Frozen (DestroySnapshot u s).
Proof. unfold DestroySnapshot. solve_frozen. Qed.
#[global] Instance frozen_Rollback u s : Frozen (Rollback u s).
Proof. unfold Rollback. solve_frozen. Qed.
#[global] Instance frozen_committedFromSnapshot b sha fsz u s : Frozen (committedFromSnapshot b sha fsz u s).
Proof. unfold committedFromSnapshot. solve_frozen. Qed.
#[global] Instance frozen_finishCommit b j : Frozen (finishCommit b j).
Proof.
  unfold finishCommit, snapshotStep. apply frozen_and_then; [|solve_frozen].
  case_match; try apply frozen_ret. apply frozen_and_then; apply _.
Qed.

End commands.

(** ** The names of snapshots *)

Fixpoint has_at (s : string) : bool :=
  match s with
  | EmptyString => false
  | String c s' => bool_decide (c = at_char) || has_at s'
  end.

Lemma snapName_cons c s : snapName (String c s) =
  if has_at s then snapName s else if bool_decide (c = at_char) then s else String c s.
Proof. done. Qed.

Lemma no_at s : all_chars (λ c, negb (bool_decide (c = at_char))) s = true → has_at s = false.
Proof.
  induction s as [|c s IH]; [done|]. cbn. intros [Hc%negb_true_iff Hs]%andb_true_iff. rewrite Hc. by apply IH.
Qed.

Lemma has_at_app s t : has_at (s +:+ String at_char t) = true.
Proof.
  induction s as [|c s IH]; [done|]. rewrite app_String. cbn. rewrite IH. apply orb_true_r.
Qed.

Lemma snapName_full ds snap : all_chars (λ c, negb (bool_decide (c = at_char))) snap = true →
  snapName (ds +:+ "@" +:+ snap) = snap.
Proof.
  intros Hs. change ("@" +:+ snap) with (String at_char snap). induction ds as [|c ds IH].
  - rewrite app_Empty, snapName_cons, no_at by done. by rewrite bool_decide_true.
  - by rewrite app_String, snapName_cons, has_at_app.
Qed.

Lemma all_chars_impl (p q : ascii → bool) s : (∀ c, p c = true → q c = true) → all_chars p s = true → all_chars q s = true.
Proof.
  intros Hpq. induction s as [|c s IH]; [done|]. cbn. intros [Hc Hs]%andb_true_iff. apply andb_true_iff. auto.
Qed.

Lemma is_word_not_at c : is_word c = true → negb (bool_decide (c = at_char)) = true.
Proof. intros Hc. apply negb_true_iff, bool_decide_eq_false. by intros ->. Qed.

Lemma snapShort_no_at s : snapShortPattern s = true → all_chars (λ c, negb (bool_decide (c = at_char))) s = true.
Proof.
  unfold snapShortPattern, name_pattern. destruct s as [|c s]; [done|]. cbn [all_chars].
  intros [[Hc Hs]%andb_true_iff _]%andb_true_iff. apply andb_true_iff. split; [by apply is_word_not_at|].
  revert Hs. apply all_chars_impl. intros d [Hd|Hd]%orb_true_iff; [by apply is_word_not_at|].
  apply bool_decide_eq_true in Hd. apply negb_true_iff, bool_decide_eq_false. intros ->.
  repeat (apply elem_of_cons in Hd as [Hd|Hd]; [done|]). by apply elem_of_nil in Hd.
Qed.

Lemma udid_not_sidecar udid s : validUDID udid = true → udid ≠ (zfsSidecarPrefix +:+ s).
Proof. intros Hv ->. unfold validUDID in Hv. by cbn in Hv. Qed.

Lemma sidecars_differ udid : zfsSidecarPrefix +:+ "work-" +:+ udid +:+ ".json" ≠ zfsSidecarPrefix +:+ "commit-" +:+ udid +:+ ".json".
Proof. cbn. by intros [=]. Qed.

(** ** Entries of a dataset *)

Lemma snapshots_upd k x es : k ≠ snapdirName → snapshots (upd k x es) = snapshots es.
Proof. intros H. unfold snapshots. by rewrite lookup_upd_ne. Qed.

Lemma snapshots_set s es : snapshots (set_snapshots s es) = s.
Proof. unfold snapshots, set_snapshots. rewrite lookup_upd. cbn [dir_entries]. by rewrite lookup_upd. Qed.

Lemma head_set_snapshots s es : head_of (set_snapshots s es) = head_of es.
Proof. apply delete_upd. Qed.

Lemma head_lookup k es : k ≠ snapdirName → head_of es !! k = es !! k.
Proof. intros H. unfold head_of. by rewrite lookup_delete_ne. Qed.

Lemma head_upd k x es : k ≠ snapdirName → head_of (upd k x es) = upd k x (head_of es).
Proof.
  intros H. apply map_eq. intros i. unfold head_of, upd.
  destruct (decide (i = snapdirName)) as [->|Hi].
  - rewrite lookup_delete_eq, lookup_partial_alter_ne by done. by rewrite lookup_delete_eq.
  - rewrite lookup_delete_ne by done. rewrite !lookup_partial_alter. case_decide; [done|]. by rewrite lookup_delete_ne.
Qed.

Lemma set_head_lookup h es k : k ≠ snapdirName → set_head h es !! k = h !! k.
Proof. intros H. unfold set_head. by rewrite lookup_upd_ne. Qed.

Lemma snapshots_set_head h es : snapshots (set_head h es) = snapshots es.
Proof. unfold snapshots, set_head. by rewrite lookup_upd. Qed.

(** ** Entries one level down *)

Section two.
Context (dev : path) (root : node) (es0 : gmap string node).
Context (Hdev : stat dev root = FOk (NDir es0)).
Context {tears : bool}.
Abbreviation G := (graft dev root).

Lemma graft_nested c es h : G (upd c (Some (NDir h)) es) = graft (dev ++ [c]) (G es) h.
Proof.
  unfold graft at 2. by rewrite (graft_put_entry _ _ _ Hdev).
Qed.

Lemma graft_wpc_write_2 C c d f Q es es' :
  es !! c = Some (NDir es') → file_or_absent (es' !! d) → C (G es) →
  C (G (upd c (Some (NDir (upd d (Some (NFile CTorn)) es'))) es)) →
  Q (FOk tt) (G (upd c (Some (NDir (upd d (Some (NFile f)) es'))) es)) →
  wpc tears C (write_file (dev ++ [c; d]) f) Q (G es).
Proof.
  intros Hc Hd HC HT HQ. eapply wpc_write; [|apply (graft_put_sub _ _ _ Hdev); [done|by apply put_2]|done| |done].
  - intros x. rewrite (graft_stat _ _ _ Hdev), stat_cons, Hc, stat_1. by destruct (es' !! d) as [[]|].
  - intros r' [_ Hr']. erewrite (graft_put_sub _ _ _ Hdev) in Hr' by (by apply put_2 || done). by injection Hr' as <-.
Qed.

Lemma graft_wpc_remove_2 C c d Q es es' :
  es !! c = Some (NDir es') → file_or_absent (es' !! d) → C (G es) →
  (∀ r, Q r (G (upd c (Some (NDir (upd d None es'))) es))) →
  wpc tears C (os_remove (dev ++ [c; d])) Q (G es).
Proof.
  intros Hc Hd HC HQ. destruct (es' !! d) as [[f|]|] eqn:E; [|done|].
  - eapply wpc_remove; [|apply (graft_put_sub _ _ _ Hdev); [done|by apply put_2]|done|apply HQ].
    by rewrite (graft_stat _ _ _ Hdev), stat_cons, Hc, stat_1, E.
  - apply wpc_remove_absent; [by rewrite (graft_stat _ _ _ Hdev), stat_cons, Hc, stat_1, E|done|].
    specialize (HQ FAbsent). rewrite <-E, upd_id, <-Hc, upd_id in HQ. done.
Qed.
End two.

(** ** The states of a commit *)

Section commit.
Context `{Hzfs : !ZfsHost}.
Context (backups : path) (appVersion : string).
Context (sha256 : Marker → string) (file_size : content → Z).
Context (root : node) (req : CommitReq).

Abbreviation udid := (cr_UDID req).
Abbreviation sentinel := (zfsSidecarPrefix +:+ "work-" +:+ cr_UDID req +:+ ".json").
Abbreviation journal := (zfsSidecarPrefix +:+ "commit-" +:+ cr_UDID req +:+ ".json").
Abbreviation snap := (snapNameFor (cr_VersionID req) (cr_CreatedAt req)).

(** What the storage, and in it the dataset, holds before the commit. *)
Definition zes0 : gmap string node := dir_entries (get backups root).
Definition dataset0 : gmap string node := dir_entries (zes0 !! udid).

(** The preconditions of a commit: the dataset is mounted and holds something, files are where they
    belong, the names pass the patterns, and the snapshot's name is free. *)
Definition zfs_ready : Prop :=
  is_dir (get backups root) ∧ is_dir (zes0 !! udid) ∧ no_entries dataset0 = false ∧
  file_or_absent (dataset0 !! MarkerName) ∧ file_or_absent (zes0 !! sentinel) ∧
  file_or_absent (zes0 !! journal) ∧
  validUDID udid = true ∧ datasetPattern (dataset udid) = true ∧ snapShortPattern snap = true ∧
  snapshots dataset0 !! snap = None.

Definition zst (D : gmap string node) (s j : option node) : gmap string node :=
  upd udid (Some (NDir D)) (upd sentinel s (upd journal j zes0)).

Definition zfs_new_marker : Marker :=
  let m := zfs_marker appVersion req in with_checksum m (checksum sha256 m).
(** The dataset with the version's marker, and with the version. *)
Definition marked : gmap string node := upd MarkerName (Some (NFile (CMarker zfs_new_marker))) dataset0.
Definition snapped : gmap string node :=
  set_snapshots (<[snap := NDir (head_of marked)]> (snapshots dataset0)) marked.
Definition zjr (dir : path) (ph : CommitPhase) : Journal := with_device_dir (with_phase (zfs_journal backups req) ph) dir.
Definition zjournal_file (ph : CommitPhase) : option node := Some (NFile (CJournal (zjr backups ph))).

Definition zfs_after : node := graft backups root (zst snapped None None).
Definition zfs_before (r : node) : Prop :=
  ∃ T, delete MarkerName T = delete MarkerName dataset0 ∧
    r = graft backups root (zst T (zes0 !! sentinel) (zes0 !! journal)).

Inductive committing : CommitPhase → gmap string node → Prop :=
  | zc_prepared D : D = marked ∨ D = snapped →
      committing PhasePrepared (zst D (zes0 !! sentinel) (zjournal_file PhasePrepared))
  | zc_taken s : s = zes0 !! sentinel ∨ s = None →
      committing PhaseSnapshotCreated (zst snapped s (zjournal_file PhaseSnapshotCreated)).
Definition zfs_rolling (r : node) : Prop := ∃ ph es, committing ph es ∧ r = graft backups root es.

(** One of these states but for the journal, in whose writing the process died. *)
Context (tears : bool).
Definition zfs_torn (r : node) : Prop :=
  ∃ r0, (zfs_before r0 ∨ zfs_rolling r0) ∧ torn_at (tears := tears) (zfsJournal backups udid) r0 r.
Definition zfs_crashed (r : node) : Prop := zfs_rolling r ∨ r = zfs_after ∨ zfs_torn r.

Context (Hready : zfs_ready) (Hsha : ∀ m, sha256 m ≠ ""%string) (Hlaw : zfs_law backups).

Lemma udid_sentinel : udid ≠ sentinel.
Proof. destruct Hready as (_&_&_&_&_&_&Hv&_). by apply udid_not_sidecar. Qed.
Lemma udid_journal : udid ≠ journal.
Proof. destruct Hready as (_&_&_&_&_&_&Hv&_). by apply udid_not_sidecar. Qed.

Lemma zdev_dir : stat backups root = FOk (NDir zes0).
Proof.
  destruct Hready as [H _]. unfold zes0, get in *. destruct (stat backups root) as [[]| |]; done.
Qed.

Lemma zst_dataset D s j : zst D s j !! udid = Some (NDir D). Proof. apply lookup_upd. Qed.
Lemma zst_sentinel D s j : zst D s j !! sentinel = s.
Proof. unfold zst. rewrite lookup_upd_ne by apply udid_sentinel. apply lookup_upd. Qed.
Lemma zst_journal D s j : zst D s j !! journal = j.
Proof.
  unfold zst. rewrite lookup_upd_ne by apply udid_journal. rewrite lookup_upd_ne by apply sidecars_differ.
  apply lookup_upd.
Qed.
Lemma zupd_dataset D' D s j : upd udid (Some (NDir D')) (zst D s j) = zst D' s j.
Proof. apply upd_upd. Qed.
Lemma zupd_sentinel x D s j : upd sentinel x (zst D s j) = zst D x j.
Proof. unfold zst. rewrite upd_comm by (apply not_eq_sym, udid_sentinel). by rewrite upd_upd. Qed.
Lemma zupd_journal x D s j : upd journal x (zst D s j) = zst D s x.
Proof.
  unfold zst. rewrite upd_comm by (apply not_eq_sym, udid_journal).
  rewrite (upd_comm journal sentinel) by (apply not_eq_sym, sidecars_differ). by rewrite upd_upd.
Qed.

Abbreviation G := (graft backups root).
Abbreviation devd := (deviceDir backups udid).

Lemma zst_start : root = G (zst dataset0 (zes0 !! sentinel) (zes0 !! journal)).
Proof.
  rewrite <-(graft_self _ _ _ zdev_dir) at 1. f_equal. unfold zst. rewrite (upd_id journal), (upd_id sentinel).
  destruct Hready as (_&Hd&_). unfold dataset0. symmetry. etrans; [|apply (upd_id udid)]. f_equal.
  by destruct (zes0 !! udid) as [[]|].
Qed.

Lemma zstat_dev D s j : stat devd (G (zst D s j)) = FOk (NDir D).
Proof. unfold deviceDir. by rewrite (graft_stat _ _ _ zdev_dir), stat_1, zst_dataset. Qed.

Lemma zdev_graft D' D s j : graft devd (G (zst D s j)) D' = G (zst D' s j).
Proof.
  unfold deviceDir. rewrite <-(graft_nested _ _ _ zdev_dir). by rewrite zupd_dataset.
Qed.

Lemma zfile_sentinel s : s = zes0 !! sentinel ∨ s = None → file_or_absent s.
Proof. intros [-> | ->]; [by destruct Hready as (_&_&_&_&?&_)|done]. Qed.

(** The sidecars in the parent. *)
Lemma wpc_zsentinel C D s j Q :
  file_or_absent s → C (G (zst D s j)) → Q tt (G (zst D None j)) →
  wpc tears C (removeWorkStateAt (zfsWorkSentinel backups udid)) Q (G (zst D s j)).
Proof.
  intros Hs HC HQ. apply wpc_bind; [solve_frozen|]. apply (graft_wpc_remove _ _ _ zdev_dir).
  - by rewrite zst_sentinel.
  - done.
  - intros. rewrite zupd_sentinel. by apply wpc_ret.
Qed.

Lemma wpc_zjournal C dir ph D s j Q :
  file_or_absent j → C (G (zst D s j)) → (tears = true → C (G (zst D s (Some (NFile CTorn))))) →
  Q None (G (zst D s (zjournal_file ph))) →
  wpc tears C (writeJournal (zfsJournal backups udid) (zjr dir ph)) Q (G (zst D s j)).
Proof.
  intros Hs HC HT HQ. unfold writeJournal. apply wpc_bind; [solve_frozen|]. apply (graft_wpc_write _ _ _ zdev_dir).
  - by rewrite zst_journal.
  - done.
  - by rewrite zupd_journal.
  - rewrite zupd_journal. apply wpc_ret. unfold zfsJournal, dir_of. rewrite removelast_last. exact HQ.
Qed.

Lemma wpc_zremove_journal C D s j Q :
  file_or_absent j → C (G (zst D s j)) → Q None (G (zst D s None)) →
  wpc tears C (removeJournal (zfsJournal backups udid)) Q (G (zst D s j)).
Proof.
  intros Hs HC HQ. apply wpc_bind; [solve_frozen|].
  pose proof (graft_put_entry _ _ _ zdev_dir journal None (zst D s j)) as Hp. rewrite zupd_journal in Hp.
  assert (stat (zfsJournal backups udid) (G (zst D s j)) = match j with Some m => FOk m | None => FAbsent end) as Hst.
  { unfold zfsJournal. by rewrite (graft_stat _ _ _ zdev_dir), stat_1, zst_journal. }
  destruct j as [[c|]|]; [|done|].
  - eapply wpc_remove; [exact Hst|exact Hp|done|]. by apply wpc_ret.
  - apply wpc_remove_absent; [exact Hst|done|]. by apply wpc_ret.
Qed.

(** The snapshot, which is taken or was there already. *)
Lemma wpc_snapshot C D s j Q :
  D = marked ∨ D = snapped → C (G (zst D s j)) → C (G (zst snapped s j)) → Q None (G (zst snapped s j)) →
  wpc tears C (Snapshot udid snap) Q (G (zst D s j)).
Proof.
  intros HD HC HC' HQ. destruct Hready as (_&_&_&_&_&_&_&Hds&Hsn&Hfree).
  unfold Snapshot. rewrite Hds, Hsn. cbn [negb orb]. apply wpc_bind; [intros []; apply frozen_ret|].
  pose proof (law_snapshot _ Hlaw _ udid snap D Hds Hsn (zstat_dev D s j)) as Hl. cbv zeta in Hl. rewrite zdev_graft in Hl.
  assert (snapshots marked = snapshots dataset0) as Hm by by apply snapshots_upd.
  destruct HD as [-> | ->].
  - rewrite Hm, Hfree in Hl. destruct Hl as [Hok Hroot]. fold snapped in Hroot.
    apply wpc_run; [done|by rewrite Hroot|]. rewrite Hroot.
    destruct (host_run _ _) as [[out ok] r']. cbn in *. subst ok. by apply wpc_ret.
  - unfold snapped in Hl at 1. rewrite snapshots_set, lookup_insert_eq in Hl. destruct Hl as (Hok & Hex & Hroot).
    apply wpc_run; [done|by rewrite Hroot|]. rewrite Hroot.
    destruct (host_run _ _) as [[out ok] r']. cbn [fst snd] in *. subst ok. rewrite Hex. by apply wpc_ret.
Qed.

(** What a finished commit reports. *)
Definition zfs_committed : Committed :=
  let c := committedFromMarker zfs_new_marker (node_size file_size (NDir (head_of marked))) in
  mkCommitted (co_VersionID c) (co_UDID c) (co_Backend c) (Some (dataset udid +:+ "@" +:+ snap))
    (co_CreatedAt c) (co_JobID c) (co_Kind c) (co_Encrypted c) (co_StructureVerifiedAt c) (co_LogicalBytes c).

Lemma snapped_root q s j :
  stat (zfsSnapRoot backups udid snap ++ q) (G (zst snapped s j)) = stat q (NDir (head_of marked)).
Proof.
  unfold zfsSnapRoot, deviceDir. rewrite <-!app_assoc. cbn [app]. rewrite (graft_stat _ _ _ zdev_dir), stat_cons, zst_dataset.
  unfold snapped, set_snapshots. rewrite stat_cons, lookup_upd, stat_cons. rewrite lookup_upd, stat_cons.
  by rewrite lookup_insert_eq.
Qed.

Lemma committed_snapshot_wpc (C : node → Prop) s j :
  C (G (zst snapped s j)) →
  wpc tears C (committedFromSnapshot backups sha256 file_size udid snap)
    (λ res r, res = Ok zfs_committed ∧ r = G (zst snapped s j)) (G (zst snapped s j)).
Proof.
  intros HC. unfold committedFromSnapshot. apply wpc_bind; [intros []; solve_frozen|].
  apply wpc_ReadMarker; [done|]. unfold sys_read_file. rewrite snapped_root, stat_1.
  rewrite head_lookup by done. unfold marked at 1. rewrite lookup_upd. cbn [mbind fs_bind].
  assert (parse_marker sha256 (CMarker zfs_new_marker) = MarkerOk zfs_new_marker) as ->
    by apply parse_written_marker, Hsha.
  apply wpc_bind; [solve_frozen|]. unfold dirSize. apply wpc_bind; [solve_frozen|]. apply wpc_query; [done|].
  apply wpc_ret. apply wpc_ret. split; [|done].
  pose proof (snapped_root [] s j) as E. rewrite app_nil_r in E. by rewrite E.
Qed.

Lemma zfs_rolling_intro ph es : committing ph es → zfs_crashed (G es).
Proof. intros. left. by exists ph, es. Qed.
Lemma ztorn_intro D s j : zfs_before (G (zst D s j)) ∨ zfs_rolling (G (zst D s j)) → tears = true →
  zfs_crashed (G (zst D s (Some (NFile CTorn)))).
Proof.
  intros H Ht. right. right. exists (G (zst D s j)). split; [done|]. split; [done|].
  unfold zfsJournal. by rewrite (graft_put_entry _ _ _ zdev_dir), zupd_journal.
Qed.

Lemma zjr_again dir ph ph' : with_phase (zjr dir ph) ph' = zjr dir ph'.
Proof. apply with_phase_device_dir. Qed.
Lemma zjr_snap dir ph : snapName (jn_ZFSSnapshot (zjr dir ph)) = snap.
Proof. apply snapName_full, snapShort_no_at. by destruct Hready as (_&_&_&_&_&_&_&_&?&_). Qed.

Lemma clear_sidecars s :
  s = zes0 !! sentinel ∨ s = None →
  wpc tears zfs_crashed (removeWorkStateAt (zfsWorkSentinel backups udid);; removeJournal (zfsJournal backups udid))
    (λ e r, e = None ∧ r = zfs_after) (G (zst snapped s (zjournal_file PhaseSnapshotCreated))).
Proof.
  intros Hs. apply wpc_bind; [solve_frozen|]. apply wpc_zsentinel; [by apply zfile_sentinel| |].
  { exact (zfs_rolling_intro _ _ (zc_taken s Hs)). }
  apply wpc_zremove_journal; [done| |done]. exact (zfs_rolling_intro _ _ (zc_taken None (or_intror eq_refl))).
Qed.

Lemma snapshotStep_wpc dir D :
  D = marked ∨ D = snapped →
  wpc tears zfs_crashed (snapshotStep backups (zjr dir PhasePrepared))
    (λ e r, e = None ∧ r = G (zst snapped (zes0 !! sentinel) (zjournal_file PhaseSnapshotCreated)))
    (G (zst D (zes0 !! sentinel) (zjournal_file PhasePrepared))).
Proof.
  intros HD. pose proof (zfs_rolling_intro _ _ (zc_prepared D HD)) as HC.
  pose proof (zfs_rolling_intro _ _ (zc_prepared snapped (or_intror eq_refl))) as HC'.
  unfold snapshotStep. rewrite zjr_snap, zjr_again. change (jn_UDID (zjr dir PhasePrepared)) with udid.
  apply wpc_and_then; [apply _|]. apply wpc_snapshot; [done..|].
  apply wpc_zjournal; [done..| |done]. intros Ht. eapply ztorn_intro; [|done].
  right. eexists PhasePrepared, _. split; [|done]. apply zc_prepared. by right.
Qed.

Lemma finishCommit_wpc dir ph es :
  committing ph es →
  wpc tears zfs_crashed (finishCommit backups (zjr dir ph)) (λ e r, e = None ∧ r = zfs_after) (G es).
Proof.
  intros Hes. unfold finishCommit. change (jn_UDID (zjr dir ph)) with udid. change (jn_Phase (zjr dir ph)) with ph.
  apply wpc_and_then; [solve_frozen|]. destruct Hes as [D HD|s Hs].
  - eapply wpc_mono; [by apply snapshotStep_wpc|auto|]. intros e r [-> ->]. apply clear_sidecars. by left.
  - apply wpc_ret. by apply clear_sidecars.
Qed.

Lemma commit_tail_wpc (C : node → Prop) dir ph es {A} (f : Committed → A) :
  committing ph es → (∀ r, zfs_crashed r → C r) →
  wpc tears C (or_fail (finishCommit backups (zjr dir ph))
           (c ← committedFromSnapshot backups sha256 file_size udid snap;
            mret (match c with Ok c => Ok (f c) | Err msg => Err msg end)))
    (λ res r, res = Ok (f zfs_committed) ∧ r = zfs_after) (G es).
Proof.
  intros Hes HC. apply wpc_or_fail; [apply frozen_bind; [apply _|intros; apply frozen_ret]|].
  eapply wpc_mono; [by apply finishCommit_wpc|done|]. intros e r [-> ->].
  apply wpc_bind; [intros; apply frozen_ret|].
  eapply wpc_mono; [apply (committed_snapshot_wpc zfs_crashed); by right; left|done|].
  intros res r [-> ->]. by apply wpc_ret.
Qed.

(** *** The commit and its resumption *)

Abbreviation zcrash r := (zfs_before r ∨ zfs_crashed r).

Lemma zfs_before_intro T :
  delete MarkerName T = delete MarkerName dataset0 → zcrash (G (zst T (zes0 !! sentinel) (zes0 !! journal))).
Proof. intros HT. left. by exists T. Qed.

Lemma zWriteMarker_wpc Q :
  Q None (G (zst marked (zes0 !! sentinel) (zes0 !! journal))) →
  wpc tears (λ r, zcrash r) (WriteMarker sha256 devd (zfs_marker appVersion req)) Q
    (G (zst dataset0 (zes0 !! sentinel) (zes0 !! journal))).
Proof.
  intros HQ. destruct Hready as (_&_&_&Hm&_). unfold WriteMarker. cbv zeta. unfold deviceDir. rewrite <-!app_assoc. cbn [app].
  apply wpc_bind; [solve_frozen|]. eapply (graft_wpc_remove_2 _ _ _ zdev_dir); [apply zst_dataset|exact Hm|by apply zfs_before_intro|].
  intros _. rewrite zupd_dataset. apply wpc_bind; [solve_frozen|].
  eapply (graft_wpc_write_2 _ _ _ zdev_dir); [apply zst_dataset|by rewrite lookup_upd| | |].
  { apply zfs_before_intro. apply delete_upd. }
  { rewrite zupd_dataset. apply zfs_before_intro. by rewrite !delete_upd. }
  rewrite zupd_dataset, upd_upd. apply wpc_ret. exact HQ.
Qed.

Lemma zcommit_wpc :
  wpc tears (λ r, zcrash r) (Commit backups appVersion sha256 file_size req)
    (λ res r, res = Ok zfs_committed ∧ r = zfs_after) root.
Proof.
  rewrite zst_start at 1. pose proof (zfs_before_intro dataset0 eq_refl) as Hb. unfold Commit.
  apply wpc_bind; [solve_frozen|]. apply wpc_isEmptyDir; [done|]. unfold sys_read_dir. rewrite zstat_dev. cbn [mbind fs_bind].
  destruct Hready as (_&_&Hne&_&_&Hj&_). rewrite Hne.
  apply wpc_or_fail; [apply _|]. apply zWriteMarker_wpc.
  apply wpc_or_fail; [apply _|]. apply (wpc_zjournal (λ r, zcrash r) [] PhasePrepared); [done| | |].
  { apply zfs_before_intro. apply delete_upd. }
  { intros Ht. right. eapply ztorn_intro; [|done]. left. exists marked. split; [apply delete_upd|done]. }
  apply wpc_or_fail; [apply _|].
  eapply wpc_mono; [apply (finishCommit_wpc [] PhasePrepared), zc_prepared; by left|by right|].
  intros e r [-> ->]. eapply wpc_mono; [apply (committed_snapshot_wpc zfs_crashed); by right; left|by right|done].
Qed.

Lemma zresume_wpc dir ph es :
  committing ph es →
  wpc tears zfs_crashed (ResumeCommit backups sha256 file_size (zjr dir ph))
    (λ res r, res = Ok (zfs_committed, true) ∧ r = zfs_after) (G es).
Proof.
  intros Hes. unfold ResumeCommit. rewrite zjr_snap. change (jn_UDID (zjr dir ph)) with udid.
  change (jn_Phase (zjr dir ph)) with ph.
  destruct Hes as [D HD|s Hs].
  - rewrite bool_decide_false by done. apply commit_tail_wpc; [by constructor|done].
  - rewrite bool_decide_true by done.
    apply wpc_bind; [solve_frozen|]. apply wpc_zsentinel; [by apply zfile_sentinel| |].
    { exact (zfs_rolling_intro _ _ (zc_taken s Hs)). }
    apply wpc_bind; [solve_frozen|]. apply wpc_zremove_journal; [done| |].
    { exact (zfs_rolling_intro _ _ (zc_taken None (or_intror eq_refl))). }
    apply wpc_bind; [intros; apply frozen_ret|].
    eapply wpc_mono; [apply (committed_snapshot_wpc zfs_crashed); by right; left|done|].
    intros res r [-> ->]. by apply wpc_ret.
Qed.

(** The journal, as a process that starts reads it. *)
Lemma zread_journal r j D s : r = G (zst D s j) →
  (readJournal (zfsJournal backups udid) (healthy r)).1
    = match j with
      | Some (NFile (CJournal j)) => Ok (Some (with_device_dir j backups))
      | Some (NFile _) => Err "decode commit journal"
      | Some (NDir _) => Err "read commit journal"
      | None => Ok None
      end.
Proof.
  intros ->. unfold readJournal, mbind, stateM_bind, read_file, sys_query, zfsJournal, sys_read_file, dir_of. simpl.
  rewrite (graft_stat _ _ _ zdev_dir), stat_1, zst_journal, removelast_last. by destruct j as [[[]|]|].
Qed.

Lemma zrolling_journal ph es : committing ph es →
  (readJournal (zfsJournal backups udid) (healthy (G es))).1 = Ok (Some (zjr backups ph)).
Proof.
  intros [D HD|s Hs]; erewrite zread_journal by done; unfold zjournal_file; unfold zjr; by rewrite with_device_dir_again.
Qed.

Lemma ztorn_unread r : zfs_torn r →
  (readJournal (zfsJournal backups udid) (healthy r)).1 = Err "decode commit journal".
Proof.
  assert (∀ D s j r', put (zfsJournal backups udid) (Some (NFile CTorn)) (G (zst D s j)) = Some r' →
    (readJournal (zfsJournal backups udid) (healthy r')).1 = Err "decode commit journal") as H.
  { intros D s j r'. unfold zfsJournal. rewrite (graft_put_entry _ _ _ zdev_dir), zupd_journal. intros [= <-].
    exact (zread_journal _ (Some (NFile CTorn)) D s eq_refl). }
  intros (r0 & [(T & _ & ->)|(ph & es & Hes & ->)] & _ & Hr); [by eapply H|]. destruct Hes; by eapply H.
Qed.

End commit.
