(* ===== verification/ZfsSafety.v ===== *)
(** * ZfsSafety: what the ZFS backend guarantees

    The theorems about [Zfs] over any host that obeys [zfs_law]: a commit and its resumptions, that
    no operation but a deletion takes a version away, whatever fails, and what a reset does. *)

From Stdlib Require Import String Ascii.
From S2P Require Import Prelude Calendar Domain Backend FS Crash Sidecars Namespace Graft ZfsHost Zfs ZfsCommit.
#[local] Open Scope quince_scope.

(** ** Commits *)

Section commits.
Context `{Hzfs : !ZfsHost}.

(** The trees that are reached from [r] by resumptions of the device's journal that die. *)
Inductive zfs_recovers (tears : bool) (backups : path) (sha256 : Marker → string) (file_size : content → Z) (udid : string) :
    node → node → Prop :=
  | zfs_recovers_refl r : zfs_recovers tears backups sha256 file_size udid r r
  | zfs_recovers_crash r r' j k left :
      leaves tears left →
      (readJournal (zfsJournal backups udid) (healthy r)).1 = Ok (Some j) →
      zfs_recovers tears backups sha256 file_size udid
        (d_root (ResumeCommit backups sha256 file_size j (dying k left r)).2) r' →
      zfs_recovers tears backups sha256 file_size udid r r'.

Context (tears : bool) (backups : path) (appVersion : string).
Context (sha256 : Marker → string) (file_size : content → Z).
Context (Hsha : ∀ m, sha256 m ≠ ""%string) (Hlaw : zfs_law backups).
Context (root : node) (req : CommitReq) (Hready : zfs_ready backups root req).

Abbreviation zcommit := (Commit backups appVersion sha256 file_size req).
Abbreviation zresume := (ResumeCommit backups sha256 file_size).
Abbreviation jpath := (zfsJournal backups (cr_UDID req)).
Abbreviation zafter := (zfs_after backups appVersion sha256 root req).
Abbreviation zcrash_state r :=
  (zfs_before backups root req r ∨ zfs_crashed backups appVersion sha256 root req tears r).
Abbreviation zreport := (zfs_committed backups appVersion sha256 file_size root req).

Lemma zcommit_healthy : (zcommit (healthy root)).1 = Ok zreport ∧ d_root (zcommit (healthy root)).2 = zafter.
Proof. exact (wpc_healthy _ _ _ _ (zcommit_wpc _ _ _ _ _ _ tears Hready Hsha Hlaw)). Qed.

Lemma zcommit_dying k left : leaves tears left → zcrash_state (d_root (zcommit (dying k left root)).2).
Proof.
  intros Hw. destruct (wpc_dying _ _ _ _ k left (zcommit_wpc backups appVersion sha256 file_size root req tears Hready Hsha Hlaw) Hw)
    as [[_ ->]|?]; [right; right; by left|done].
Qed.

Lemma zbefore_no_journal r :
  get jpath root = None → zfs_before backups root req r → (readJournal jpath (healthy r)).1 = Ok None.
Proof.
  intros Hj (T & _ & ->). erewrite (zread_journal backups root req Hready) by done.
  unfold get, zfsJournal in Hj. rewrite <-(graft_self _ _ _ (zdev_dir _ _ _ Hready)) in Hj.
  rewrite (graft_stat _ _ _ (zdev_dir _ _ _ Hready)), stat_1 in Hj. by destruct (zes0 backups root !! _).
Qed.

Lemma zrecovers_crash_state r r' :
  get jpath root = None → zcrash_state r →
  zfs_recovers tears backups sha256 file_size (cr_UDID req) r r' → zcrash_state r'.
Proof.
  intros Hj Hr Hrec. induction Hrec as [r|r r' j k left Hw Hread _ IH]; [done|]. apply IH.
  destruct Hr as [Hb|[(ph & es & Hes & ->)|[-> |Ht]]].
  - by rewrite zbefore_no_journal in Hread.
  - rewrite (zrolling_journal _ _ _ _ _ Hready _ _ Hes) in Hread. injection Hread as <-.
    destruct (wpc_dying _ _ _ _ k left (zresume_wpc _ _ _ file_size _ _ tears Hready Hsha Hlaw backups _ _ Hes) Hw)
      as [[_ ->]|?]; right; [right; by left|done].
  - unfold zfs_after in Hread. by rewrite (zread_journal backups root req Hready _ None _ _ eq_refl) in Hread.
  - by rewrite (ztorn_unread _ _ _ _ _ _ Hready _ Ht) in Hread.
Qed.

Lemma zrolling_resumes r :
  zfs_rolling backups appVersion sha256 root req r →
  ∃ j, (readJournal jpath (healthy r)).1 = Ok (Some j) ∧
    (zresume j (healthy r)).1 = Ok (zreport, true) ∧ d_root (zresume j (healthy r)).2 = zafter.
Proof.
  intros (ph & es & Hes & ->). eexists. split; [exact (zrolling_journal _ _ _ _ _ Hready _ _ Hes)|].
  exact (wpc_healthy _ _ _ _ (zresume_wpc _ _ _ _ _ _ tears Hready Hsha Hlaw backups _ _ Hes)).
Qed.

End commits.

(** C2: A ZFS commit is crash-safe.  A process that commits dies at any system call, where [tears] with
    the file that it was writing there in part, or at a command to the host that may have been carried
    out; and so do any number of processes that resume its journal.  Then either the commit has not
    begun - only the marker in the dataset may differ - or it is finished, or its journal can be read,
    and resuming it succeeds, reports the new version and makes exactly the tree that the undisturbed
    commit would have made: the snapshot is never taken twice, nor of a head that changed.  Or a
    process died within a write of the journal, which only [tears] allows: then the tree is one of
    these but for the journal, which cannot be read. *)
Theorem zfs_commit_crash_safe `{Hzfs : !ZfsHost} tears backups appVersion sha256 file_size root req k left r :
  (∀ m, sha256 m ≠ ""%string) → zfs_law backups → zfs_ready backups root req →
  get (zfsJournal backups (cr_UDID req)) root = None → leaves tears left →
  let commit := Commit backups appVersion sha256 file_size req in
  let resume := ResumeCommit backups sha256 file_size in
  let journal := zfsJournal backups (cr_UDID req) in
  let finished := d_root (commit (healthy root)).2 in
  let recoverable r :=
    zfs_before backups root req r ∨ r = finished ∨
    ∃ j, (readJournal journal (healthy r)).1 = Ok (Some j) ∧
      d_root (resume j (healthy r)).2 = finished ∧
      ∃ c, (resume j (healthy r)).1 = Ok (c, true) ∧ (commit (healthy root)).1 = Ok c in
  zfs_recovers tears backups sha256 file_size (cr_UDID req) (d_root (commit (dying k left root)).2) r →
  recoverable r ∨
  tears = true ∧ (readJournal journal (healthy r)).1 = Err "decode commit journal" ∧
  ∃ r0, recoverable r0 ∧ put journal (Some (NFile CTorn)) r0 = Some r.
Proof.
  intros Hsha Hlaw Hready Hj Hw commit resume journal finished recoverable Hrec.
  destruct (zcommit_healthy tears backups appVersion sha256 file_size Hsha Hlaw root req Hready) as [Hres Hroot].
  apply (zrecovers_crash_state tears backups appVersion sha256 file_size Hsha Hlaw root req Hready _ r Hj
    (zcommit_dying tears backups appVersion sha256 file_size Hsha Hlaw root req Hready k left Hw)) in Hrec.
  assert (∀ r, zfs_before backups root req r ∨ zfs_rolling backups appVersion sha256 root req r →
    recoverable r) as Hmid.
  { intros r' [?|Hrol]; [by left|]. right. right.
    destruct (zrolling_resumes tears _ _ _ file_size Hsha Hlaw _ _ Hready _ Hrol) as (j & Hjr & Hc & Hd).
    exists j. unfold finished, commit. rewrite Hres, Hroot. split_and!; [done..|]. by eexists. }
  destruct Hrec as [?|[?|[-> |Ht]]]; [left; auto|left; auto|left; right; left; by symmetry|]. right.
  pose proof (ztorn_unread _ _ _ _ _ _ Hready _ Ht) as Hu. destruct Ht as (r0 & Hr0 & Ht & Hp).
  split_and!; [done..|]. exists r0. auto.
Qed.

(** ** Versions outlive everything but their deletion *)

Lemma diverge_app p q q' : diverge q q' → diverge (p ++ q) (p ++ q').
Proof. intros H. induction p; [done|]. right. by split. Qed.

Lemma stat_snapshot es s n :
  stat [snapdirName; snapshotDirName; s] (NDir es) = FOk n ↔ snapshots es !! s = Some n.
Proof.
  unfold snapshots. rewrite stat_cons. destruct (es !! snapdirName) as [[|z]|]; cbn [dir_entries];
    [by rewrite !lookup_empty| |by rewrite !lookup_empty].
  rewrite stat_cons. destruct (z !! snapshotDirName) as [[|y]|]; cbn [dir_entries];
    [by rewrite lookup_empty| |by rewrite lookup_empty].
  rewrite stat_1. destruct (y !! s); naive_solver.
Qed.

Section survival.
Context `{Hzfs : !ZfsHost}.
Context (backups : path) (Hlaw : zfs_law backups).
(** The devices whose datasets are mounted, and a version of one of them. *)
Context (devs : string → Prop) (Hdevs : ∀ v, devs v → validUDID v = true).
Context (u s : string) (n : node) (Hu : devs u).

Definition mounted (v : string) (r : node) : Prop := ∃ es, stat (deviceDir backups v) r = FOk (NDir es).
Definition version_at (v snap : string) (r : node) : option node := get (zfsSnapRoot backups v snap) r.

Definition stands (r : node) : Prop := (∀ v, devs v → mounted v r) ∧ version_at u s r = Some n.

Lemma version_entry v snap r es : stat (deviceDir backups v) r = FOk (NDir es) →
  version_at v snap r = snapshots es !! snap.
Proof.
  intros Hv. unfold version_at, get, zfsSnapRoot. rewrite (stat_app _ _ _ _ Hv).
  pose proof (stat_snapshot es snap) as H. change snapshotDirName with "snapshot"%string in H.
  destruct (snapshots es !! snap) as [m|]; [by rewrite (proj2 (H m) eq_refl)|].
  destruct (stat _ (NDir es)) as [m| |]; [|done..]. by specialize (proj1 (H m) eq_refl).
Qed.

(** The dataset of one device becomes another directory, and the version is still in it. *)
Lemma stands_graft v r es es' :
  stands r → stat (deviceDir backups v) r = FOk (NDir es) →
  (v = u → snapshots es !! s = Some n → snapshots es' !! s = Some n) →
  stands (graft (deviceDir backups v) r es').
Proof.
  intros [Hm Hn] Hv Hk. pose proof (put_graft _ _ _ Hv es') as Hp.
  assert (stat (deviceDir backups v) (graft (deviceDir backups v) r es') = FOk (NDir es')) as Hv'.
  { pose proof (stat_graft _ _ _ Hv [] es') as E. by rewrite app_nil_r in E. }
  assert (∀ w q, w ≠ v → stat (deviceDir backups w ++ q) (graft (deviceDir backups v) r es')
                         = stat (deviceDir backups w ++ q) r) as Ho.
  { intros w q Hw. eapply stat_put_diverge; [|exact Hp]. unfold deviceDir. rewrite <-app_assoc.
    apply diverge_app. by left. }
  split.
  - intros w Hw. destruct (decide (w = v)) as [->|Hne]; [by exists es'|].
    destruct (Hm w Hw) as [es'' He]. exists es''. rewrite <-He. specialize (Ho w [] Hne). by rewrite app_nil_r in Ho.
  - destruct (decide (u = v)) as [<-|Hne].
    + rewrite (version_entry _ _ _ _ Hv'). apply Hk; [done|]. by rewrite <-(version_entry _ _ _ _ Hv).
    + unfold version_at, get, zfsSnapRoot. by rewrite (Ho u _ Hne).
Qed.

(** An entry of a dataset other than [.zfs], or a sidecar in the parent, changes. *)
Definition beside (p : path) : Prop :=
  (∃ v k, devs v ∧ k ≠ snapdirName ∧ p = deviceDir backups v ++ [k]) ∨
  ∃ k, (∀ v, devs v → k ≠ v) ∧ p = backups ++ [k].

Lemma stands_put p x r r' : stands r → beside p → put p x r = Some r' → stands r'.
Proof.
  intros Hs [(v & k & Hv & Hk & ->)|(k & Hk & ->)] Hp.
  - destruct (proj1 Hs v Hv) as [es He].
    rewrite (put_app (deviceDir backups v) [k] x r (NDir es)), put_1 in Hp by done. cbn [mbind option_bind] in Hp.
    rewrite (put_graft _ _ _ He) in Hp. injection Hp as <-. apply (stands_graft v r es); [exact Hs|exact He|].
    intros _ Hn'. by rewrite snapshots_upd.
  - assert (∀ v q, devs v → stat (deviceDir backups v ++ q) r' = stat (deviceDir backups v ++ q) r) as Ho.
    { intros v q Hv. eapply stat_put_diverge; [|exact Hp]. unfold deviceDir. rewrite <-app_assoc.
      apply diverge_app. left. by apply Hk. }
    destruct Hs as [Hm Hn]. split.
    + intros v Hv. destruct (Hm v Hv) as [es He]. exists es. rewrite <-He. specialize (Ho v [] Hv). by rewrite app_nil_r in Ho.
    + unfold version_at, get, zfsSnapRoot. by rewrite (Ho u _ Hu).
Qed.

(** *** Programs that keep the version, whatever calls fail *)

Class Saves {A} (m : stateM Disk A) : Prop := saves d : stands (d_root d) → stands (d_root (m d).2).

#[local] Instance saves_ret {A} (a : A) : Saves (mret (M:=stateM Disk) a).
Proof. by intros d Hd. Qed.
#[local] Instance saves_bind {A B} (m : stateM Disk A) (f : A → stateM Disk B) :
  Saves m → (∀ a, Saves (f a)) → Saves (m ≫= f).
Proof.
  intros Hm Hf d Hd. unfold mbind, stateM_bind. specialize (Hm d Hd). destruct (m d) as [a d']. by apply Hf.
Qed.
#[local] Instance saves_query {A} (f : node → fs_res A) : Saves (sys_query f).
Proof. by intros d Hd. Qed.
#[local] Instance saves_and_then m k : Saves m → Saves k → Saves (and_then m k).
Proof. intros Hm Hk. apply saves_bind; [done|]. intros []; [apply saves_ret|done]. Qed.
#[local] Instance saves_or_fail {A} m (k : stateM Disk (result A)) : Saves m → Saves k → Saves (or_fail m k).
Proof. intros Hm Hk. apply saves_bind; [done|]. intros []; [apply saves_ret|done]. Qed.
#[local] Instance saves_each_until {A} (f : A → stateM Disk error) l : (∀ x, Saves (f x)) → Saves (each_until f l).
Proof. intros Hf. induction l; simpl; apply _. Qed.

Lemma saves_change f : (∀ r r', stands r → f r = FOk r' → stands r') → Saves (sys_change f).
Proof.
  intros Hf d Hd. unfold sys_change. destruct (d_fault _ _); [done|].
  destruct (f (d_root d)) as [r'| |] eqn:E; [|done..]. by eapply Hf.
Qed.

Lemma saves_change_at wk p f : beside p → (∀ r r', stands r → f r = FOk r' → stands r') → Saves (sys_change_at wk p f).
Proof.
  intros Hp Hf d Hd. unfold sys_change_at. destruct (d_fault _ _); [|by apply saves_change]. cbn. unfold leave.
  destruct (put _ _ _) as [r'|] eqn:E; [|done]. by eapply stands_put.
Qed.

Lemma saves_write p c : beside p → Saves (write_file p c).
Proof.
  intros Hp. apply saves_change_at; [done|]. intros r r' Hr. unfold sys_write_file.
  assert (fs_opt (put p (Some (NFile c)) r) = FOk r' → stands r') as H.
  { destruct (put _ _ _) as [r''|] eqn:E; [|done]. intros [= <-]. by eapply stands_put. }
  destruct (stat p r) as [[]| |]; done.
Qed.

Lemma saves_remove_all p : beside p → Saves (remove_all p).
Proof.
  intros Hp. apply saves_change_at; [done|]. intros r r' Hr. unfold sys_remove_all.
  destruct (stat p r); [|by intros [= <-]|done].
  destruct (put _ _ _) as [r''|] eqn:E; [|done]. intros [= <-]. by eapply stands_put.
Qed.

Lemma saves_remove p : beside p → Saves (os_remove p).
Proof.
  intros Hp. apply saves_change. intros r r' Hr. unfold sys_remove.
  assert (fs_opt (put p None r) = FOk r' → stands r') as H.
  { destruct (put _ _ _) as [r''|] eqn:E; [|done]. intros [= <-]. by eapply stands_put. }
  destruct (stat p r) as [[|es]| |]; cbn [mbind fs_bind]; [done| |done..]. by case_bool_decide.
Qed.

(** A command of the host, carried out or not. *)
Lemma saves_run c : (∀ r, stands r → stands (host_run c r).2) → Saves (run c).
Proof.
  intros Hc d Hd. specialize (Hc _ Hd). unfold run. destruct (host_run c (d_root d)) as [res r'].
  destruct (d_fault _ _); [|done]. cbn. by case_bool_decide.
Qed.

Lemma beside_entry v k : devs v → k ≠ snapdirName → beside (deviceDir backups v ++ [k]).
Proof. intros. left. by exists v, k. Qed.
Lemma beside_sentinel v : beside (zfsWorkSentinel backups v).
Proof. right. eexists. split; [|done]. intros w Hw E. eapply udid_not_sidecar; [by apply Hdevs|by rewrite <-E]. Qed.
Lemma beside_journal v : beside (zfsJournal backups v).
Proof. right. eexists. split; [|done]. intros w Hw E. eapply udid_not_sidecar; [by apply Hdevs|by rewrite <-E]. Qed.

(** *** The commands and the operations *)

Lemma saves_snapshot v sn : devs v → Saves (Snapshot v sn).
Proof.
  intros Hv. unfold Snapshot. destruct (_ || _) eqn:Hp; [apply saves_ret|].
  apply orb_false_iff in Hp as [Hds%negb_false_iff Hsn%negb_false_iff]. apply saves_bind; [|intros []; apply saves_ret].
  apply saves_run. intros r Hr. destruct (proj1 Hr v Hv) as [es He].
  pose proof (law_snapshot _ Hlaw r v sn es Hds Hsn He) as Hl. cbv zeta in Hl. destruct (snapshots es !! sn) as [m|] eqn:Esn.
  - by destruct Hl as (_ & _ & ->).
  - destruct Hl as [_ ->]. apply (stands_graft v r es); [exact Hr|exact He|]. intros _ Hs. rewrite snapshots_set.
    rewrite lookup_insert_ne; [done|congruence].
Qed.

Lemma saves_rollback v sn : devs v → Saves (Rollback v sn).
Proof.
  intros Hv. unfold Rollback. cbv zeta. destruct (negb (validUDID v)); [apply saves_ret|]. destruct (_ || _) eqn:Hp; [apply saves_ret|].
  apply orb_false_iff in Hp as [[Hds%negb_false_iff Hsn%negb_false_iff]%orb_false_iff _]. apply saves_bind; [|intros []; apply saves_ret].
  apply saves_run. intros r Hr. destruct (proj1 Hr v Hv) as [es He].
  pose proof (law_rollback _ Hlaw r v sn es Hds Hsn He) as Hl. cbv zeta in Hl. destruct (host_run _ r) as [[out []] r']; cbn [fst snd] in *.
  - destruct Hl as (h & _ & ->). apply (stands_graft v r es); [exact Hr|exact He|]. intros _ Hs. by rewrite snapshots_set_head.
  - by subst.
Qed.

Lemma saves_destroy v sn : devs v → (v = u → sn ≠ s) → Saves (DestroySnapshot v sn).
Proof.
  intros Hv Hne. unfold DestroySnapshot. destruct (_ || _) eqn:Hp; [apply saves_ret|].
  apply orb_false_iff in Hp as [Hds%negb_false_iff Hsn%negb_false_iff]. apply saves_bind; [|intros []; apply saves_ret].
  apply saves_run. intros r Hr. destruct (proj1 Hr v Hv) as [es He].
  pose proof (law_destroy _ Hlaw r v sn es Hds Hsn He) as Hl. cbv zeta in Hl. destruct (host_run _ r) as [[out []] r']; cbn [fst snd] in *.
  - rewrite Hl. apply (stands_graft v r es); [exact Hr|exact He|]. intros Hvu Hs. rewrite snapshots_set, lookup_delete_ne by auto. done.
  - by subst.
Qed.

Lemma saves_list v : devs v → Saves (ListSnapshots v).
Proof.
  intros Hv. unfold ListSnapshots. destruct (negb _) eqn:Hp; [apply saves_ret|]. apply negb_false_iff in Hp as Hds. apply saves_bind; [|intros []; apply saves_ret].
  apply saves_run. intros r Hr. destruct (proj1 Hr v Hv) as [es He].
  pose proof (law_list _ Hlaw r v es Hds He) as [Hl _]. by rewrite Hl.
Qed.

Lemma saves_create v : devs v → Saves (CreateDataset v).
Proof.
  intros Hv. unfold CreateDataset. destruct (negb _) eqn:Hp; [apply saves_ret|]. apply negb_false_iff in Hp as Hds. apply saves_bind; [|intros []; apply saves_ret].
  apply saves_run. intros r Hr. destruct (proj1 Hr v Hv) as [es He]. by rewrite (law_create _ Hlaw r v es Hds He).
Qed.

Lemma saves_capacity : Saves Capacity.
Proof.
  unfold Capacity. case_match; [apply saves_ret|]. apply saves_bind; [|intros []; apply saves_ret].
  apply saves_run. intros r Hr. by rewrite (law_capacity _ Hlaw).
Qed.

(** One rule for each form of a program. *)
Ltac saves_step :=
  cbv beta zeta;
  lazymatch goal with
  | |- Saves (mret _) => apply saves_ret
  | |- Saves (_ ≫= _) => apply saves_bind; [|intros]
  | |- Saves (and_then _ _) => apply saves_and_then
  | |- Saves (or_fail _ _) => apply saves_or_fail
  | |- Saves (each_until _ _) => apply saves_each_until; intros
  | |- Saves (sys_query _) => apply saves_query
  | |- Saves (write_file _ _) => apply saves_write
  | |- Saves (os_remove _) => apply saves_remove
  | |- Saves (remove_all _) => apply saves_remove_all
  | |- Saves (Snapshot _ _) => apply saves_snapshot
  | |- Saves (Rollback _ _) => apply saves_rollback
  | |- Saves (ListSnapshots _) => apply saves_list
  | |- Saves (CreateDataset _) => apply saves_create
  | |- beside (zfsWorkSentinel _ _) => apply beside_sentinel
  | |- beside (zfsJournal _ _) => apply beside_journal
  | |- beside (deviceDir _ _ ++ [_]) => apply beside_entry; [|first [done|eapply bool_decide_eq_false_1; eassumption]]
  | |- Saves (match _ with _ => _ end) => case_match
  | |- Saves _ => progress unfold read_file, read_dir, os_stat, isEmptyDir, dirSize, ReadMarker, WriteMarker,
      readJournal, writeJournal, removeJournal, writeWorkStateAt, removeWorkStateAt, assertSnapdir
  end.
Ltac solve_saves := repeat first [assumption | done | saves_step].

Context (appVersion : string) (sha256 : Marker → string) (file_size : content → Z).

Lemma saves_Provision v : devs v → Saves (Provision backups v).
Proof. intros Hv. unfold Provision. solve_saves. Qed.

Lemma saves_PrepareWork v : devs v → Saves (PrepareWork backups file_size v).
Proof.
  intros Hv. unfold PrepareWork, discardPreChangeLayout, preChangeNames. case_match; [apply saves_ret|]. apply saves_or_fail.
  - simpl each_until. solve_saves.
  - solve_saves.
Qed.

Lemma saves_committed v sn : Saves (committedFromSnapshot backups sha256 file_size v sn).
Proof. unfold committedFromSnapshot. solve_saves. Qed.

Lemma saves_finish j : devs (jn_UDID j) → Saves (finishCommit backups j).
Proof. intros Hv. unfold finishCommit, snapshotStep. solve_saves. Qed.

Lemma saves_Commit req : devs (cr_UDID req) → Saves (Commit backups appVersion sha256 file_size req).
Proof.
  intros Hv. pose proof (saves_finish (zfs_journal backups req) Hv). pose proof (saves_committed (cr_UDID req)).
  unfold Commit. solve_saves.
Qed.

Lemma saves_ResumeCommit j : devs (jn_UDID j) → Saves (ResumeCommit backups sha256 file_size j).
Proof.
  intros Hv. pose proof (saves_finish j Hv).
  pose proof (saves_committed (jn_UDID j) (snapName (jn_ZFSSnapshot j))). unfold ResumeCommit. solve_saves.
Qed.

Lemma saves_scan v snaps : Saves (scanSnapshots backups sha256 file_size v snaps).
Proof. induction snaps; simpl scanSnapshots; solve_saves. Qed.

Lemma saves_Scan v : devs v → Saves (Scan backups sha256 file_size v).
Proof. intros Hv. pose proof (saves_scan v). unfold Scan. solve_saves. Qed.

Lemma saves_Repair v : devs v → Saves (RepairWorkingCopy backups v).
Proof.
  intros Hv. unfold RepairWorkingCopy, emptyHead. apply saves_bind; [by apply saves_list|].
  intros [[|x rest]|]; [|solve_saves..]. solve_saves.
Qed.

End survival.

(** The operations of the backend, in any order, on any devices, each with whatever outcome. *)
Inductive zfs_op : Type :=
  | ZProvision (udid : string)
  | ZPrepare (udid : string)
  | ZCommit (req : CommitReq)
  | ZResume (j : Journal)
  | ZDiscard (udid : string)
  | ZDelete (a : Artifact)
  | ZReset (udid : string)
  | ZScan (udid : string)
  | ZCapacity.

Definition op_device (op : zfs_op) : option string :=
  match op with
  | ZProvision udid | ZPrepare udid | ZDiscard udid | ZReset udid | ZScan udid => Some udid
  | ZCommit req => Some (cr_UDID req)
  | ZResume j => Some (jn_UDID j)
  | ZDelete a => Some (ar_UDID a)
  | ZCapacity => None
  end.

(** The operation is the deletion of this version. *)
Definition deletes (op : zfs_op) (u s : string) : Prop :=
  match op with
  | ZDelete a => ar_UDID a = u ∧ snapName <$> ar_ZFSSnapshot a = Some s
  | _ => False
  end.

Section runs.
Context `{Hzfs : !ZfsHost}.
Context (backups : path) (appVersion : string) (sha256 : Marker → string) (file_size : content → Z).

Definition zfs_do (op : zfs_op) (d : Disk) : Disk :=
  match op with
  | ZProvision udid => (Provision backups udid d).2
  | ZPrepare udid => (PrepareWork backups file_size udid d).2
  | ZCommit req => (Commit backups appVersion sha256 file_size req d).2
  | ZResume j => (ResumeCommit backups sha256 file_size j d).2
  | ZDiscard udid => (Discard backups sha256 file_size udid d).2
  | ZDelete a => (DeleteArtifact a d).2
  | ZReset udid => (RepairWorkingCopy backups udid d).2
  | ZScan udid => (Scan backups sha256 file_size udid d).2
  | ZCapacity => (Capacity d).2
  end.
Definition zfs_run (ops : list zfs_op) (d : Disk) : Disk := fold_left (λ d op, zfs_do op d) ops d.

Context (Hlaw : zfs_law backups) (devs : string → Prop) (Hdevs : ∀ v, devs v → validUDID v = true).
Context (u s : string) (n : node) (Hu : devs u).
Abbreviation standing := (stands backups devs u s n).

Lemma zfs_do_stands op d : (∀ v, op_device op = Some v → devs v) → ¬ deletes op u s →
  standing (d_root d) → standing (d_root (zfs_do op d)).
Proof.
  intros Hv Hdel. destruct op; cbn [zfs_do op_device deletes] in *;
    try (specialize (Hv _ eq_refl)); revert d.
  - exact (saves_Provision backups Hlaw devs u s n udid Hv).
  - exact (saves_PrepareWork backups devs Hdevs u s n Hu file_size udid Hv).
  - exact (saves_Commit backups Hlaw devs Hdevs u s n Hu appVersion sha256 file_size req Hv).
  - exact (saves_ResumeCommit backups Hlaw devs Hdevs u s n Hu sha256 file_size j Hv).
  - intros d. apply saves_bind; [by apply saves_Scan|intros; apply saves_ret].
  - intros d Hd. unfold DeleteArtifact. destruct (ar_ZFSSnapshot a) as [full|]; [|done].
    apply (saves_destroy backups Hlaw devs u s n); [done| |done]. intros Ha Hs. apply Hdel. cbn. by rewrite Hs.
  - exact (saves_Repair backups Hlaw devs Hdevs u s n Hu udid Hv).
  - exact (saves_Scan backups Hlaw devs u s n sha256 file_size udid Hv).
  - exact (saves_capacity backups Hlaw devs u s n).
Qed.

Lemma zfs_run_stands ops : ∀ d, (∀ op v, op ∈ ops → op_device op = Some v → devs v) →
  (∀ op, op ∈ ops → ¬ deletes op u s) → standing (d_root d) → standing (d_root (zfs_run ops d)).
Proof.
  induction ops as [|op ops IH]; intros d Hv Hdel Hd; [done|]. cbn. apply IH.
  - intros o v Ho. apply Hv. by right.
  - intros o Ho. apply Hdel. by right.
  - apply zfs_do_stands; [|apply Hdel; left|done]. intros v. apply Hv. left.
Qed.
End runs.

Lemma stat_prefix p q r n : stat (p ++ q) r = FOk n → ∃ m, stat p r = FOk m.
Proof.
  revert r. induction p as [|c p IH]; intros r; cbn; [eauto|]. destruct r as [|es]; [done|].
  destruct (es !! c); [apply IH|done].
Qed.

Lemma version_mounted backups u s r n : version_at backups u s r = Some n → mounted backups u r.
Proof.
  unfold version_at, mounted, zfsSnapRoot. intros H%get_Some. pose proof (stat_prefix _ _ _ _ H) as [m Hm].
  rewrite (stat_app _ _ _ _ Hm) in H. destruct m as [|es]; [done|]. by exists es.
Qed.

(** C3: Nothing but its deletion takes a version away.  Whatever operations are carried out on mounted
    datasets, in any order, each of them stopping at whatever failures of system calls and of host
    commands, and with whatever a failed call leaves half done: a version that was there is there
    unchanged afterwards, unless one of the operations was its own deletion. *)
Theorem zfs_versions_survive `{Hzfs : !ZfsHost} backups appVersion sha256 file_size ops d u s n :
  zfs_law backups → validUDID u = true → version_at backups u s (d_root d) = Some n →
  (∀ op v, op ∈ ops → op_device op = Some v → validUDID v = true ∧ mounted backups v (d_root d)) →
  (∀ op, op ∈ ops → ¬ deletes op u s) →
  version_at backups u s (d_root (zfs_run backups appVersion sha256 file_size ops d)) = Some n.
Proof.
  intros Hlaw Hu Hn Hops Hdel.
  apply (zfs_run_stands backups appVersion sha256 file_size Hlaw (λ v, validUDID v = true ∧ mounted backups v (d_root d))).
  - by intros v [? _].
  - split; [done|]. by eapply version_mounted.
  - done.
  - done.
  - split; [by intros v [_ ?]|done].
Qed.

(** What a ZFS commit does.  From a dataset that is ready, a commit that is not interrupted
    succeeds and reports the new version under its snapshot.  The snapshot holds what the dataset
    held, with the version's marker; the dataset itself holds the same, so that the next backup
    starts from it; every other snapshot of the device is as it was; and the work state and the
    journal are gone. *)
Theorem zfs_commit_effect `{Hzfs : !ZfsHost} backups appVersion sha256 file_size root req es :
  (∀ m, sha256 m ≠ ""%string) → zfs_law backups → zfs_ready backups root req →
  stat (deviceDir backups (cr_UDID req)) root = FOk (NDir es) →
  let udid := cr_UDID req in
  let snap := snapNameFor (cr_VersionID req) (cr_CreatedAt req) in
  let with_marker := <[MarkerName := NFile (CMarker (zfs_new_marker appVersion sha256 req))]> (head_of es) in
  let '(res, d) := Commit backups appVersion sha256 file_size req (healthy root) in
  (∃ c, res = Ok c ∧ co_VersionID c = cr_VersionID req ∧ co_UDID c = udid ∧
     co_ZFSSnapshot c = Some (dataset udid +:+ "@" +:+ snap)) ∧
  version_at backups udid snap (d_root d) = Some (NDir with_marker) ∧
  (∃ es', stat (deviceDir backups udid) (d_root d) = FOk (NDir es') ∧ head_of es' = with_marker) ∧
  (∀ s, s ≠ snap → version_at backups udid s (d_root d) = version_at backups udid s root) ∧
  get (zfsWorkSentinel backups udid) (d_root d) = None ∧ get (zfsJournal backups udid) (d_root d) = None.
Proof.
  intros Hsha Hlaw Hready Hes udid snap with_marker.
  destruct (zcommit_healthy false backups appVersion sha256 file_size Hsha Hlaw root req Hready) as [Hres Hroot].
  destruct (Commit _ _ _ _ _ _) as [res d]. cbn [fst snd] in Hres, Hroot. subst res. rewrite Hroot. subst udid snap.
  assert (dataset0 backups root req = es) as Hd0.
  { unfold dataset0, zes0. unfold deviceDir in Hes. rewrite (stat_app _ _ _ _ (zdev_dir _ _ _ Hready)), stat_1 in Hes.
    unfold zes0 in Hes. destruct (_ !! cr_UDID req); [|done]. by injection Hes as ->. }
  pose proof (zstat_dev backups root req Hready (snapped backups appVersion sha256 root req) None None) as Hst.
  fold (zfs_after backups appVersion sha256 root req) in Hst.
  assert (head_of (marked backups appVersion sha256 root req) = with_marker) as Hhead.
  { unfold marked. rewrite head_upd, Hd0 by done. done. }
  assert (snapshots (snapped backups appVersion sha256 root req)
    = <[snapNameFor (cr_VersionID req) (cr_CreatedAt req) := NDir with_marker]> (snapshots es)) as Hsn.
  { unfold snapped. by rewrite snapshots_set, Hhead, Hd0. }
  split; [|split; [|split; [|split; [|split]]]].
  - eexists. split; [done|]. by split_and!.
  - by rewrite (version_entry _ _ _ _ _ Hst), Hsn, lookup_insert_eq.
  - eexists. split; [exact Hst|]. unfold snapped. by rewrite head_set_snapshots.
  - intros s Hs. rewrite (version_entry _ _ _ _ _ Hst), (version_entry _ _ _ _ _ Hes), Hsn.
    by rewrite lookup_insert_ne.
  - unfold get, zfsWorkSentinel, zfs_after. rewrite (graft_stat _ _ _ (zdev_dir _ _ _ Hready)), stat_1.
    by rewrite (zst_sentinel _ _ _ Hready).
  - unfold get, zfsJournal, zfs_after. rewrite (graft_stat _ _ _ (zdev_dir _ _ _ Hready)), stat_1.
    by rewrite (zst_journal _ _ _ Hready).
Qed.
