(* ===== verification/ZfsReset.v ===== *)
(** * ZfsReset: listings, resets and scans of the ZFS backend

    What the host's listing is read as, what a reset does to the head of a dataset, and what a scan
    finds. *)

From Stdlib Require Import String Ascii.
From S2P Require Import Prelude Calendar Domain Backend FS Crash Sidecars Namespace Graft CommitSafety.
From S2P Require Import ZfsHost Zfs ZfsCommit ZfsSafety.

#[local] Open Scope quince_scope.

(** ** The text of a listing *)

Definition printable_char (c : ascii) : bool := negb (is_space c).

Lemma trim_right_id s c : is_space c = false → trim_right (s +:+ String c "") = s +:+ String c "".
Proof.
  intros Hc. induction s as [|d s IH].
  - rewrite app_Empty. cbn [trim_right]. by rewrite Hc.
  - rewrite app_String. cbn [trim_right]. rewrite IH. by destruct s.
Qed.

Lemma all_chars_app p s t : all_chars p (s +:+ t) = all_chars p s && all_chars p t.
Proof.
  induction s as [|c s IH]; [done|]. rewrite app_String. cbn [all_chars]. by rewrite IH, andb_assoc.
Qed.

Lemma snoc_split s : s ≠ ""%string → ∃ t c, s = t +:+ String c "".
Proof.
  induction s as [|c s IH]; [done|]. intros _. destruct s as [|d s]; [by exists "", c|].
  destruct IH as (t & e & E); [done|]. exists (String c t), e. by rewrite E.
Qed.

(** A text that begins and ends with a printable character is not trimmed. *)
Lemma trim_space_id c s t : printable_char c = true → all_chars printable_char t = true → t ≠ ""%string →
  trim_space (String c s +:+ t) = String c s +:+ t.
Proof.
  intros Hc%negb_true_iff Ht Hne. destruct (snoc_split t Hne) as (t' & e & ->).
  rewrite all_chars_app in Ht. apply andb_true_iff in Ht as [_ He]. cbn in He. rewrite andb_true_r in He.
  apply negb_true_iff in He. unfold trim_space. rewrite app_String. cbn [trim_left]. rewrite Hc.
  rewrite <-app_String, <-string_app_assoc. by rewrite trim_right_id.
Qed.

(** The names that ZFS admits are of printable characters, without the separators. *)
Definition zfs_name (s : string) : bool :=
  negb (bool_decide (s = "")) &&
  all_chars (λ c, is_word c || bool_decide (c ∈ [":"; "."; "-"]%char)) s.

Definition plain (c : ascii) : bool := printable_char c && negb (bool_decide (c = at_char)).

Lemma plain_word c : is_word c = true → plain c = true.
Proof.
  destruct c as [[] [] [] [] [] [] [] []]; vm_compute; done.
Qed.

Lemma plain_in c l : Forall (λ d, plain d = true) l → bool_decide (c ∈ l) = true → plain c = true.
Proof. intros Hl Hc%bool_decide_eq_true. by apply (proj1 (Forall_forall _ l) Hl). Qed.

Lemma zfs_name_plain s : zfs_name s = true → s ≠ ""%string ∧ all_chars plain s = true.
Proof.
  intros [H1%negb_true_iff%bool_decide_eq_false H2]%andb_true_iff. split; [done|].
  revert H2. apply all_chars_impl. intros c [Hc|Hc]%orb_true_iff; [by apply plain_word|].
  eapply plain_in, Hc. by repeat constructor.
Qed.

Lemma datasetPattern_plain s : datasetPattern s = true → ∃ c s', s = String c s' ∧ all_chars plain s = true.
Proof.
  unfold datasetPattern, name_pattern. destruct s as [|c s]; [done|]. intros [[Hc Hs]%andb_true_iff _]%andb_true_iff.
  exists c, s. split; [done|]. cbn [all_chars]. rewrite (plain_word c Hc). cbn [andb]. revert Hs. apply all_chars_impl.
  intros d [Hd|Hd]%orb_true_iff; [by apply plain_word|]. eapply plain_in, Hd. by repeat constructor.
Qed.

Lemma plain_printable s : all_chars plain s = true → all_chars printable_char s = true.
Proof. apply all_chars_impl. by intros c [? _]%andb_true_iff. Qed.

(** Lines without a newline are split off as they are. *)
Definition no_newline (s : string) : Prop := all_chars (λ c, negb (bool_decide (c = newline))) s = true.

Lemma split_lines_app s t : no_newline s → split_lines (s +:+ String newline t) = s :: split_lines t.
Proof.
  intros Hs. induction s as [|c s IH].
  - rewrite app_Empty. cbn [split_lines]. by rewrite bool_decide_true.
  - unfold no_newline in Hs. cbn [all_chars] in Hs. apply andb_true_iff in Hs as [Hc%negb_true_iff Hs].
    rewrite app_String. cbn [split_lines]. by rewrite Hc, (IH Hs).
Qed.

Lemma split_lines_one s : no_newline s → split_lines s = [s].
Proof.
  intros Hs. induction s as [|c s IH]; [done|].
  unfold no_newline in Hs. cbn [all_chars] in Hs. apply andb_true_iff in Hs as [Hc%negb_true_iff Hs].
  cbn [split_lines]. by rewrite Hc, (IH Hs).
Qed.

Lemma split_lines_join x l : Forall no_newline (x :: l) →
  split_lines (join (x :: l) (String newline "")) = x :: l.
Proof.
  revert x. induction l as [|y l IH]; intros x Hl; apply Forall_cons in Hl as [Hx Hl]; [by apply split_lines_one|].
  change (join (x :: y :: l) ?sep) with (x +:+ sep +:+ join (y :: l) sep). rewrite app_String, app_Empty.
  rewrite split_lines_app by done. f_equal. by apply IH.
Qed.

Section listing.
Context `{Hzfs : !ZfsHost}.
Context (udid : string) (c0 : ascii) (ds0 : string).
Context (Hds : dataset udid = String c0 ds0) (Hplain : all_chars plain (dataset udid) = true).

Definition full_name (s : string) : string := dataset udid +:+ "@" +:+ s.

Lemma full_name_split s : full_name s = String c0 (ds0 +:+ "@") +:+ s.
Proof. unfold full_name. rewrite Hds. by rewrite <-string_app_assoc, app_String. Qed.

Lemma c0_printable : printable_char c0 = true.
Proof. rewrite Hds in Hplain. cbn [all_chars] in Hplain. by apply andb_true_iff in Hplain as [[? _]%andb_true_iff _]. Qed.

Lemma trim_full_name s : zfs_name s = true → trim_space (full_name s) = full_name s.
Proof.
  intros [Hne Hs]%zfs_name_plain. rewrite full_name_split. apply trim_space_id; [apply c0_printable|by apply plain_printable|done].
Qed.

Lemma plain_not_at s : all_chars plain s = true → all_chars (λ c, negb (bool_decide (c = at_char))) s = true.
Proof. apply all_chars_impl. by intros c [_ ?]%andb_true_iff. Qed.

Lemma snapName_full_name s : zfs_name s = true → snapName (full_name s) = s.
Proof. intros [_ Hs]%zfs_name_plain. by apply snapName_full, plain_not_at. Qed.

Lemma printable_no_newline c : printable_char c = true → negb (bool_decide (c = newline)) = true.
Proof. intros Hc. apply negb_true_iff, bool_decide_eq_false. by intros ->. Qed.

Lemma full_name_one_line s : zfs_name s = true → no_newline (full_name s).
Proof.
  intros [_ Hs]%zfs_name_plain. unfold no_newline, full_name. rewrite !all_chars_app.
  assert (∀ t, all_chars plain t = true → all_chars (λ c, negb (bool_decide (c = newline))) t = true) as H.
  { intros t. apply all_chars_impl. intros c [Hc _]%andb_true_iff. by apply printable_no_newline. }
  by rewrite (H _ Hplain), (H _ Hs).
Qed.

Lemma listing_ends x l : ∃ pre y, join (full_name <$> x :: l) (String newline "") = String c0 pre +:+ y ∧ y ∈ x :: l.
Proof.
  revert x. induction l as [|y l IH]; intros x.
  - exists (ds0 +:+ "@"), x. split; [apply full_name_split|by left].
  - destruct (IH y) as (pre & z & E & Hz). change (join (full_name <$> x :: y :: l) ?sep) with
      (full_name x +:+ sep +:+ join (full_name <$> y :: l) sep). rewrite E, full_name_split.
    exists ((ds0 +:+ "@") +:+ x +:+ String newline "" +:+ String c0 pre), z. split; [|by right].
    by repeat first [rewrite string_app_assoc | rewrite app_String | rewrite app_Empty].
Qed.

(** The lines of a listing read back as the names of quince's snapshots. *)
Lemma quince_snapshots_listing l : Forall (λ s, zfs_name s = true) l →
  quince_snapshots (join (full_name <$> l) (String newline "")) = filter (λ s, has_prefix s "quince-" = true) l.
Proof.
  intros Hl. destruct l as [|x l]; [done|]. unfold quince_snapshots.
  destruct (listing_ends x l) as (pre & y & E & Hy).
  assert (trim_space (join (full_name <$> x :: l) (String newline "")) = join (full_name <$> x :: l) (String newline "")) as ->.
  { rewrite E. apply (proj1 (Forall_forall _ _) Hl) in Hy. apply zfs_name_plain in Hy as [Hne Hp].
    apply trim_space_id; [apply c0_printable|by apply plain_printable|done]. }
  rewrite fmap_cons, split_lines_join; [|rewrite <-fmap_cons; apply Forall_fmap; eapply Forall_impl; [exact Hl|exact full_name_one_line]].
  rewrite <-fmap_cons. clear E Hy pre y. revert Hl. generalize (x :: l). clear x l. intros l Hl.
  induction Hl as [|x l Hx Hl IH]; [done|]. rewrite fmap_cons. cbn [omap list_omap]. rewrite IH.
  rewrite trim_full_name, snapName_full_name by done.
  rewrite bool_decide_false by (rewrite full_name_split; done). rewrite filter_cons.
  destruct (has_prefix x "quince-") eqn:Hp; [by rewrite decide_True|]. by rewrite decide_False.
Qed.

(** The newest of them, as the backend orders them. *)
Lemma newest_name_spec l s : newest_name s l ∈ s :: l ∧ ∀ x, x ∈ s :: l → str_le x (newest_name s l).
Proof.
  revert s. unfold newest_name. induction l as [|y l IH]; intros s; cbn [fold_left].
  - split; [left|]. intros x [-> |[]%elem_of_nil]%elem_of_cons. by apply str_le_lteq; right.
  - destruct (IH (if str_ltb s y then y else s)) as [Hin Hmax].
    assert (str_le s (if str_ltb s y then y else s) ∧ str_le y (if str_ltb s y then y else s)) as [H1 H2].
    { destruct (str_ltb s y) eqn:E; split; apply str_le_lteq; [by left|by right|by right|].
      assert (str_le y s) as H by (unfold str_le, str_lt; by rewrite E). by apply str_le_lteq in H. }
    split.
    + destruct (str_ltb s y); apply elem_of_cons in Hin as [-> |Hin]; [right; left|right; by right|left|right; by right].
    + intros x Hx. apply elem_of_cons in Hx as [-> |Hx]; [|apply elem_of_cons in Hx as [-> |Hx]].
      * etrans; [exact H1|apply Hmax; left].
      * etrans; [exact H2|apply Hmax; left].
      * apply Hmax. by right.
Qed.
End listing.

(** ** Resets *)

Section reset.
Context `{Hzfs : !ZfsHost}.
Context (backups : path) (Hlaw : zfs_law backups) (udid : string) (Hudid : validUDID udid = true).
Context (Hpat : datasetPattern (dataset udid) = true).
Abbreviation dev := (deviceDir backups udid).
Abbreviation holds d es := (stat dev (d_root d) = FOk (NDir es)).

(** A command of the host is answered, or it fails, carried out or not. *)
Lemma run_cases c d : let '(res, d') := run c d in
  res = (host_run c (d_root d)).1 ∧ d_root d' = (host_run c (d_root d)).2 ∨
  res = (""%string, false) ∧ (d_root d' = d_root d ∨ d_root d' = (host_run c (d_root d)).2).
Proof.
  unfold run. destruct (host_run c (d_root d)) as [res r'] eqn:E. destruct (d_fault _ _); cbn [fst snd].
  - right. split; [done|]. cbn. case_bool_decide; auto.
  - by left.
Qed.

(** An entry of the head is removed, or something of it is left. *)
Lemma remove_entry k es d : holds d es → let '(r, d') := remove_all (dev ++ [k]) d in
  ∃ x, holds d' (upd k x es) ∧ (fs_ok r = true → x = None).
Proof.
  intros Hd. pose proof (graft_self _ _ _ Hd) as Hself.
  assert (∀ es', stat dev (graft dev (d_root d) es') = FOk (NDir es')) as Hst.
  { intros es'. pose proof (stat_graft _ _ _ Hd [] es') as E. by rewrite app_nil_r in E. }
  unfold remove_all, sys_change_at. destruct (d_fault d (d_step d)) eqn:Hf.
  - cbn. exists (left_by Removing (d_left d (d_step d)) (es !! k)). split; [|done].
    rewrite <-Hself at 1. rewrite (graft_leave _ _ _ Hd). apply Hst.
  - unfold sys_change. rewrite Hf. unfold sys_remove_all. rewrite (stat_app _ _ _ _ Hd), stat_1.
    destruct (es !! k) as [m|] eqn:Ek.
    + pose proof (graft_put_entry _ _ _ Hd k None es) as Hp. rewrite Hself in Hp. rewrite Hp. cbn. exists None.
      split; [apply Hst|done].
    + cbn. exists None. split; [|done]. by rewrite <-Ek, upd_id.
Qed.

Lemma remove_entries l : ∀ d es, holds d es →
  let '(e, d') := each_until (λ name, if bool_decide (name = snapdirName) then mret None
                              else r ← remove_all (dev ++ [name]); mret (err_of r "remove entry")) l d in
  ∃ es', holds d' es' ∧ snapshots es' = snapshots es ∧
    (e = None → ∀ k, k ≠ snapdirName → k ∈ l ∨ es !! k = None → es' !! k = None).
Proof.
  induction l as [|x l IH]; intros d es Hd.
  { cbn. exists es. split_and!; [done..|]. intros _ k _ [[]%elem_of_nil|?]; done. }
  cbn [each_until]. unfold and_then, mbind, stateM_bind. case_bool_decide as Hx; cbn -[remove_all each_until].
  - specialize (IH d es Hd). destruct (each_until _ l d) as [e d']. destruct IH as (es' & H1 & H2 & H3).
    exists es'. split_and!; [done..|]. intros He k Hk Hl. apply H3; [done..|].
    destruct Hl as [Hl|?]; [|by right]. apply elem_of_cons in Hl as [-> |?]; [done|by left].
  - pose proof (remove_entry x es d Hd) as Hr. destruct (remove_all (dev ++ [x]) d) as [r d1].
    destruct Hr as (y & Hd1 & Hy). unfold err_of. destruct (fs_ok r) eqn:Hok; cbn -[each_until].
    + rewrite (Hy eq_refl) in Hd1. specialize (IH d1 _ Hd1). destruct (each_until _ l d1) as [e d'].
      destruct IH as (es' & H1 & H2 & H3). exists es'. split; [done|]. rewrite snapshots_upd in H2 by done. split; [done|].
      intros He k Hk Hl. apply H3; [done..|]. destruct (decide (k = x)) as [->|Hne]; [right; apply lookup_upd|].
      rewrite lookup_upd_ne by done. destruct Hl as [Hl|?]; [|by right]. apply elem_of_cons in Hl as [?|?]; [done|by left].
    + exists (upd x y es). split; [done|]. rewrite snapshots_upd by done. done.
Qed.

(** The work state is no entry of the dataset. *)
Lemma remove_sentinel_holds d es : holds d es → holds (removeWorkStateAt (zfsWorkSentinel backups udid) d).2 es.
Proof.
  intros Hd. unfold removeWorkStateAt, mbind, stateM_bind, os_remove, sys_change.
  destruct (d_fault _ _); cbn; [done|].
  assert (∀ r, fs_opt (put (zfsWorkSentinel backups udid) None (d_root d)) = FOk r → stat dev r = FOk (NDir es)) as H.
  { intros r E. destruct (put _ _ _) as [r'|] eqn:Ep; [|done]. injection E as <-. rewrite <-Hd.
    eapply stat_put_diverge; [|exact Ep]. unfold zfsWorkSentinel, deviceDir. apply diverge_app. left.
    apply not_eq_sym. by apply udid_not_sidecar. }
  unfold sys_remove. destruct (stat (zfsWorkSentinel _ _) _) as [[c|z]| |]; cbn [mbind fs_bind]; [| |done..].
  - destruct (fs_opt _) as [r| |] eqn:E; cbn; [by apply H|done..].
  - case_bool_decide; [|done]. destruct (fs_opt _) as [r| |] eqn:E; cbn; [by apply H|done..].
Qed.

(** The newest of quince's snapshots in a dataset. *)
Definition newest_version (es : gmap string node) (s : string) : Prop :=
  is_Some (snapshots es !! s) ∧ has_prefix s "quince-" = true ∧
  ∀ x, is_Some (snapshots es !! x) → has_prefix x "quince-" = true → str_le x s.
Definition no_versions (es : gmap string node) : Prop :=
  ∀ x, is_Some (snapshots es !! x) → has_prefix x "quince-" = false.

(** The listing that the backend works on: quince's snapshots, or a failure. *)
Lemma ListSnapshots_spec d es : holds d es → (∀ s, is_Some (snapshots es !! s) → zfs_name s = true) →
  let '(r, d') := ListSnapshots udid d in
  holds d' es ∧
  (∀ l, r = Ok l → NoDup l ∧ ∀ s, s ∈ l ↔ is_Some (snapshots es !! s) ∧ has_prefix s "quince-" = true).
Proof.
  intros Hd Hn. unfold ListSnapshots. rewrite Hpat. cbn [negb]. unfold mbind, stateM_bind.
  pose proof (run_cases (argv "list" ["-t"; "snapshot"; "-H"; "-o"; "name"; "-r"; dataset udid]%string) d) as Hc.
  destruct (run _ d) as [[out ok] d']. pose proof (law_list _ Hlaw _ _ _ Hpat Hd) as (Hroot & Hno & Hyes).
  destruct (host_run _ _) as [[out' ok'] r']. cbn [fst snd] in *. subst r'. cbn.
  destruct Hc as [[[= -> ->] Hd']|[[= -> ->] Hd']]; split.
  - by rewrite Hd'.
  - destruct ok'; cbn [negb].
    + intros l [= <-]. destruct (Hyes eq_refl) as (l & Hl & ->).
      destruct (datasetPattern_plain _ Hpat) as (c & ds & Hds & Hp).
      assert (∀ s, s ∈ l ↔ is_Some (snapshots es !! s)) as Hin.
      { intros s. rewrite Hl, list_elem_of_fmap. split.
        - intros ([x m] & -> & Hx%elem_of_map_to_list). by exists m.
        - intros [m Hm]. exists (s, m). split; [done|]. by apply elem_of_map_to_list. }
      change (λ s, dataset udid +:+ "@" +:+ s) with (full_name udid).
      rewrite (quince_snapshots_listing udid c ds Hds Hp) by (apply Forall_forall; intros s Hs; by apply Hn, Hin).
      split.
      * apply NoDup_filter. rewrite Hl. apply NoDup_fst_map_to_list.
      * intros s. rewrite list_elem_of_filter, Hin. tauto.
    + rewrite Hno by done. done.
  - by destruct Hd' as [-> | ->].
  - done.
Qed.

Lemma run_bind {A B} (m : stateM Disk A) (f : A → stateM Disk B) d :
  (m ≫= f) d = let '(a, d') := m d in f a d'.
Proof. done. Qed.
Lemma run_read_dir p d : read_dir p d = (if d_fault d (d_step d) then FErr else sys_read_dir p (d_root d), tick_step d).
Proof. done. Qed.
Lemma run_and_then (m k : stateM Disk error) d : (m ;;? k) d = let '(e, d') := m d in match e with None => k d' | Some _ => (e, d') end.
Proof. unfold and_then. rewrite run_bind. by destruct (m d) as [[] ?]. Qed.

Lemma Rollback_spec d es s : holds d es → let '(e, d') := Rollback udid s d in
  (∃ h, snapshots es !! s = Some (NDir h) ∧ holds d' (set_head h es)) ∨ e ≠ None ∧ holds d' es.
Proof.
  intros Hd. unfold Rollback. cbv zeta. destruct (negb (validUDID udid)); [by right|].
  destruct (_ || _) eqn:Hp; [by right|]. apply orb_false_iff in Hp as [[_ Hsn%negb_false_iff]%orb_false_iff _].
  rewrite run_bind.
  pose proof (run_cases (argv "rollback" [dataset udid +:+ "@" +:+ s]) d) as Hc. destruct (run _ d) as [[out ok] d'].
  pose proof (law_rollback _ Hlaw _ udid s _ Hpat Hsn Hd) as Hl. cbv zeta in Hl.
  assert (∀ es', stat dev (graft dev (d_root d) es') = FOk (NDir es')) as Hst.
  { intros es'. pose proof (stat_graft _ _ _ Hd [] es') as E. by rewrite app_nil_r in E. }
  destruct (host_run _ _) as [[out' ok'] r']. cbn [fst snd] in *. unfold mret, stateM_ret.
  assert (d_root d' = r' → (∃ h, snapshots es !! s = Some (NDir h) ∧ holds d' (set_head h es)) ∨ ok' = false ∧ holds d' es) as H.
  { intros Hd'. destruct ok'; cbv iota in Hl; [left; destruct Hl as (h & Hs & Hr'); exists h; by rewrite Hd', Hr'|right; by rewrite Hd', Hl]. }
  cbv beta iota zeta. destruct Hc as [[[= -> ->] Hd']|[[= -> ->] Hd']].
  - destruct (H Hd') as [?|[-> ?]]; [by left|by right].
  - destruct Hd' as [Hd'|Hd']; [right; split; [done|by rewrite Hd']|]. destruct (H Hd') as [?|[_ ?]]; [by left|by right].
Qed.

Lemma head_of_set_head h es : head_of (set_head h es) = head_of h.
Proof. apply delete_upd. Qed.

(** What the head can be after a reset. *)
Definition restored (es es' : gmap string node) : Prop :=
  ∃ s h, newest_version es s ∧ snapshots es !! s = Some (NDir h) ∧ head_of es' = head_of h.

Lemma emptyHead_spec d es : holds d es → let '(e, d') := emptyHead backups udid d in
  ∃ es', holds d' es' ∧ snapshots es' = snapshots es ∧ (e = None → head_of es' = ∅).
Proof.
  intros Hd. unfold emptyHead. cbv zeta. rewrite run_bind, run_read_dir.
  destruct (d_fault _ _); [by exists es|]. unfold sys_read_dir. rewrite Hd. cbn [mbind fs_bind]. rewrite run_and_then.
  pose proof (remove_entries (names es) (tick_step d) es Hd) as Hr. destruct (each_until _ _ _) as [[e|] d1].
  - destruct Hr as (es' & H1 & H2 & _). by exists es'.
  - destruct Hr as (es' & H1 & H2 & H3). pose proof (remove_sentinel_holds d1 es' H1) as H4.
    rewrite run_bind. destruct (removeWorkStateAt _ d1) as [[] d2]. exists es'. split; [exact H4|split; [done|]]. intros _.
    apply map_eq. intros k. rewrite lookup_empty. unfold head_of.
    destruct (decide (k = snapdirName)) as [->|Hk]; [by rewrite lookup_delete_eq|].
    rewrite lookup_delete_ne by done. apply H3; [done..|]. destruct (es !! k) as [m|] eqn:Ek; [left|by right].
    unfold names. rewrite (merge_sort_Permutation str_le). apply list_elem_of_fmap. exists (k, m). split; [done|].
    by apply elem_of_map_to_list.
Qed.

Lemma RepairWorkingCopy_spec d es : holds d es → (∀ s, is_Some (snapshots es !! s) → zfs_name s = true) →
  let '(e, d') := RepairWorkingCopy backups udid d in
  ∃ es', holds d' es' ∧ snapshots es' = snapshots es ∧
    (e = None → no_versions es ∧ head_of es' = ∅ ∨ restored es es') ∧
    (head_of es' = head_of es ∨ no_versions es ∨ restored es es').
Proof.
  intros Hd Hn. unfold RepairWorkingCopy. rewrite run_bind.
  pose proof (ListSnapshots_spec d es Hd Hn) as Hl. destruct (ListSnapshots udid d) as [[l|msg] d1]; cycle 1.
  { destruct Hl as [Hd1 _]. exists es. split_and!; [done..|by left]. }
  destruct Hl as [Hd1 Hl]. destruct (Hl l eq_refl) as [_ Hin]. destruct l as [|s rest].
  - assert (no_versions es) as Hno.
    { intros x Hx. destruct (has_prefix x "quince-") eqn:E; [|done]. by pose proof (proj2 (Hin x) (conj Hx E)) as []%elem_of_nil. }
    pose proof (emptyHead_spec d1 es Hd1) as He. destruct (emptyHead backups udid d1) as [e d'].
    destruct He as (es' & H1 & H2 & H3). exists es'. split_and!; [done|done| |by right; left]. intros E. left. auto.
  - destruct (newest_name_spec rest s) as [Hnin Hmax].
    assert (newest_version es (newest_name s rest)) as Hnew.
    { apply Hin in Hnin as [H1 H2]. split_and!; [done..|]. intros x Hx Hp. apply Hmax. by apply Hin. }
    rewrite run_bind. pose proof (Rollback_spec d1 es (newest_name s rest) Hd1) as Hr.
    destruct (Rollback udid (newest_name s rest) d1) as [e d2]. destruct Hr as [(h & Hs & Hd2)|[He Hd2]].
    + assert (restored es (set_head h es)) as Hres.
      { exists (newest_name s rest), h. split_and!; [done..|]. apply head_of_set_head. }
      assert (∀ d', holds d' (set_head h es) → ∃ es', holds d' es' ∧ snapshots es' = snapshots es ∧ restored es es') as H.
      { intros d' Hd'. exists (set_head h es). split_and!; [done| |done]. apply snapshots_set_head. }
      destruct e as [msg|]; cbn.
      * destruct (H _ Hd2) as (es' & ? & ? & ?). exists es'. split_and!; [done..|by right; right].
      * pose proof (remove_sentinel_holds d2 _ Hd2) as Hd3. rewrite run_bind. destruct (removeWorkStateAt _ d2) as [[] d3].
        destruct (H _ Hd3) as (es' & ? & ? & ?). exists es'. split_and!; [done..|by right|by right; right].
    + destruct e as [msg|]; [|done]. cbn. exists es. split_and!; [done..|by left].
Qed.
End reset.

(** What a reset does.  Whatever fails during it, a reset leaves the device's snapshots alone, and
    leaves the head as it was, or as it is in the newest of quince's snapshots, unless there is no
    such snapshot.  When it reports success, the head is that of the newest version, or is empty
    because the device has none. *)
Theorem zfs_reset_exact `{Hzfs : !ZfsHost} backups udid d es :
  zfs_law backups → validUDID udid = true → datasetPattern (dataset udid) = true →
  stat (deviceDir backups udid) (d_root d) = FOk (NDir es) →
  (∀ s, is_Some (snapshots es !! s) → zfs_name s = true) →
  let '(e, d') := RepairWorkingCopy backups udid d in
  ∃ es', stat (deviceDir backups udid) (d_root d') = FOk (NDir es') ∧ snapshots es' = snapshots es ∧
    (e = None → no_versions es ∧ head_of es' = ∅ ∨ restored es es') ∧
    (head_of es' = head_of es ∨ no_versions es ∨ restored es es').
Proof. intros Hlaw Hu Hp Hd Hn. exact (RepairWorkingCopy_spec backups Hlaw udid Hu Hp d es Hd Hn). Qed.

(** * A host that obeys the law, and runs of the ZFS backend on it *)

(** ** The host *)

(** The part before the last [@]. *)
Fixpoint before_at (s : string) : string :=
  match s with
  | EmptyString => EmptyString
  | String c s' =>
      if bool_decide (c = at_char) && bool_decide (snapName s' = s') then EmptyString else String c (before_at s')
  end.

Fixpoint drop_chars (n : nat) (s : string) : string :=
  match n, s with
  | S n, String _ s' => drop_chars n s'
  | _, _ => s
  end.

Definition pool : string := "tank/quince".
Definition storage_root : path := ["b"]%string.

Definition answer (out : string) (ok : bool) (root : node) : (string * bool) * node := ((out, ok), root).

(** A command on the dataset of a full name, if it is mounted. *)
Definition with_dataset (ds : string) (root : node)
    (f : string → gmap string node → (string * bool) * node) : (string * bool) * node :=
  let udid := drop_chars (S (String.length pool)) ds in
  match stat (deviceDir storage_root udid) root with
  | FOk (NDir es) => f udid es
  | _ => answer ("cannot open '" +:+ ds +:+ "': dataset does not exist") false root
  end.

Definition set_dataset (udid : string) (es : gmap string node) (root : node) : node :=
  graft (deviceDir storage_root udid) root es.

Definition toy_run (c : list string) (root : node) : (string * bool) * node :=
  match c with
  | ["snapshot"; full] =>
      with_dataset (before_at full) root (λ udid es,
        match snapshots es !! snapName full with
        | Some _ => answer "cannot create snapshot: dataset already exists" false root
        | None => answer "" true (set_dataset udid (set_snapshots (<[snapName full := NDir (head_of es)]> (snapshots es)) es) root)
        end)
  | ["rollback"; full] =>
      with_dataset (before_at full) root (λ udid es,
        match snapshots es !! snapName full with
        | Some (NDir h) => answer "" true (set_dataset udid (set_head h es) root)
        | _ => answer "could not find any snapshots to rollback" false root
        end)
  | ["destroy"; full] =>
      with_dataset (before_at full) root (λ udid es,
        answer "" true (set_dataset udid (set_snapshots (delete (snapName full) (snapshots es)) es) root))
  | ["list"; _; _; _; _; _; _; ds] =>
      with_dataset ds root (λ udid es,
        answer (join ((λ s, ds +:+ "@" +:+ s) <$> (map_to_list (snapshots es)).*1) (String newline "")) true root)
  | ["create"; _; ds] => answer ("cannot create '" +:+ ds +:+ "': dataset already exists") false root
  | _ => answer "1 2" true root
  end%string.

#[local] Instance toy_host : ZfsHost := { parent := pool; hookArgv := []; host_run := toy_run }.

Lemma snapName_no_at s : has_at s = false → snapName s = s.
Proof.
  destruct s as [|c s]; [done|]. cbn [has_at]. intros [Hc Hs]%orb_false_iff. by rewrite snapName_cons, Hs, Hc.
Qed.

Lemma snapName_length s : (String.length (snapName s) <= String.length s)%nat.
Proof. induction s as [|c s IH]; [done|]. rewrite snapName_cons. repeat case_match; cbn [String.length]; lia. Qed.

Lemma snapName_at ds snap : snapName (ds +:+ String at_char snap) ≠ ds +:+ String at_char snap.
Proof.
  intros E%(f_equal String.length). revert E. destruct ds as [|c ds].
  - rewrite app_Empty, snapName_cons. pose proof (snapName_length snap).
    destruct (has_at snap); [cbn [String.length]; lia|]. rewrite bool_decide_true by done. cbn [String.length]; lia.
  - rewrite app_String, snapName_cons, has_at_app. pose proof (snapName_length (ds +:+ String at_char snap)).
    cbn [String.length]. lia.
Qed.

Lemma before_at_full ds snap : all_chars (λ c, negb (bool_decide (c = at_char))) snap = true →
  before_at (ds +:+ "@" +:+ snap) = ds.
Proof.
  intros Hs. change ("@" +:+ snap) with (String at_char snap). induction ds as [|c ds IH].
  - rewrite app_Empty. cbn [before_at]. by rewrite !bool_decide_true by (done || by apply snapName_no_at, no_at).
  - rewrite app_String. cbn [before_at]. rewrite (bool_decide_false (snapName _ = _)) by apply snapName_at.
    by rewrite andb_false_r, IH.
Qed.

Lemma drop_chars_app s t : drop_chars (String.length s) (s +:+ t) = t.
Proof. induction s as [|c s IH]; [done|]. exact IH. Qed.

Lemma drop_dataset udid : drop_chars (S (String.length pool)) (dataset udid) = udid.
Proof. exact (drop_chars_app (pool +:+ "/") udid). Qed.

Lemma with_dataset_mounted udid es root f :
  stat (deviceDir storage_root udid) root = FOk (NDir es) → with_dataset (dataset udid) root f = f udid es.
Proof. intros He. unfold with_dataset. by rewrite drop_dataset, He. Qed.

Lemma with_full udid snap es root f : snapShortPattern snap = true →
  stat (deviceDir storage_root udid) root = FOk (NDir es) →
  with_dataset (before_at (dataset udid +:+ "@" +:+ snap)) root f = f udid es.
Proof.
  intros Hs%snapShort_no_at He. rewrite before_at_full by done. by apply with_dataset_mounted.
Qed.

Lemma name_full udid snap : snapShortPattern snap = true → snapName (dataset udid +:+ "@" +:+ snap) = snap.
Proof. intros Hs%snapShort_no_at. by apply snapName_full. Qed.

Lemma toy_zfs_law : zfs_law storage_root.
Proof.
  split; unfold argv; cbn [hookArgv host_run toy_host app].
  - intros root udid snap es _ Hs He. cbn [toy_run]. rewrite (with_full udid snap es root _ Hs He), !name_full by done.
    destruct (snapshots es !! snap); cbn [answer fst snd]; [|done]. split; [done|]. split; [by vm_compute|done].
  - intros root udid snap es _ Hs He. cbn [toy_run]. rewrite (with_full udid snap es root _ Hs He), !name_full by done.
    destruct (snapshots es !! snap) as [[|h]|]; cbn [answer fst snd]; [done| |done]. by exists h.
  - intros root udid snap es _ Hs He. cbn [toy_run]. by rewrite (with_full udid snap es root _ Hs He), !name_full by done.
  - intros root udid es _ He. cbn [toy_run]. rewrite (with_dataset_mounted udid es root _ He). cbn [answer fst snd].
    split_and!; [done|done|]. intros _. by eexists.
  - intros root udid es _ He. done.
  - intros root. done.
Qed.

(** ** A device with one version, and a backup in its head *)

Definition handset : string := "00008030-0011223344556677".
Definition first_version : string := "quince-2026-07-18T02-30-v1".
Definition old_tree : gmap string node :=
  <[MarkerName := NFile (CMarker demo_marker)]> (<["Manifest.db" := NFile (CData "old")]> ∅).
Definition versions_dir (vs : gmap string node) : node := NDir (<[snapshotDirName := NDir vs]> ∅).
Definition zfs_dev (vs : gmap string node) : gmap string node :=
  <[snapdirName := versions_dir vs]> (<["Manifest.db" := NFile (CData "new")]> ∅).
Definition zfs_storage (vs : gmap string node) : node := NDir (<["b" := NDir (<[handset := NDir (zfs_dev vs)]> ∅)]> ∅).
Definition one_version : gmap string node := <[first_version := NDir old_tree]> ∅.
Definition zroot : node := zfs_storage one_version.

Lemma zfs_demo_ready : zfs_ready storage_root zroot demo_req.
Proof. split_and!; vm_compute; done. Qed.

(** The process dies at the command that takes the snapshot, which the host still carries out. *)
Definition zdemo_commit := Commit storage_root "1.0" demo_sha demo_file_size demo_req.
Definition carried_out (x : option node) : option node := match x with None => Some (NDir ∅) | _ => x end.
Definition after_crash : node := d_root (zdemo_commit (dying (Some 4%nat) carried_out zroot)).2.

Lemma carried_out_leaves tears : leaves tears carried_out.
Proof. intros [[]|]; cbn; auto. Qed.

Lemma zfs_commit_crash_safe_witness :
  let resume := ResumeCommit storage_root demo_sha demo_file_size in
  let journal := zfsJournal storage_root handset in
  let finished := d_root (zdemo_commit (healthy zroot)).2 in
  let recoverable r :=
    zfs_before storage_root zroot demo_req r ∨ r = finished ∨
    ∃ j, (readJournal journal (healthy r)).1 = Ok (Some j) ∧ d_root (resume j (healthy r)).2 = finished ∧
      ∃ c, (resume j (healthy r)).1 = Ok (c, true) ∧ (zdemo_commit (healthy zroot)).1 = Ok c in
  (version_at storage_root handset "quince-2026-07-25T17-20-v2" after_crash ≠ None ∧
   jn_Phase <$> (match (readJournal journal (healthy after_crash)).1 with Ok o => o | Err _ => None end) = Some PhasePrepared) ∧
  (recoverable after_crash ∨
   true = true ∧ (readJournal journal (healthy after_crash)).1 = Err "decode commit journal" ∧
   ∃ r0, recoverable r0 ∧ put journal (Some (NFile CTorn)) r0 = Some after_crash).
Proof.
  split; [split; [vm_compute; discriminate|vm_compute; reflexivity]|].
  apply (zfs_commit_crash_safe true storage_root "1.0" demo_sha demo_file_size zroot demo_req (Some 4%nat) carried_out);
    [exact demo_sha_nonempty|exact toy_zfs_law|exact zfs_demo_ready|vm_compute; reflexivity|exact (carried_out_leaves true)|constructor].
Defined.

Lemma zfs_commit_effect_witness :
  ∃ c, (zdemo_commit (healthy zroot)).1 = Ok c ∧
    co_ZFSSnapshot c = Some ("tank/quince/" +:+ handset +:+ "@quince-2026-07-25T17-20-v2").
Proof.
  pose proof (zfs_commit_effect storage_root "1.0" demo_sha demo_file_size zroot demo_req (zfs_dev one_version)
    demo_sha_nonempty toy_zfs_law zfs_demo_ready eq_refl) as H. cbv zeta in H. fold zdemo_commit in H.
  destruct (zdemo_commit (healthy zroot)) as [res d]. destruct H as ((c & Hc & _ & _ & Hs) & _).
  exists c. split; [exact Hc|]. rewrite Hs. vm_compute. reflexivity.
Defined.

(** A backup is committed, then the head is dirtied and reset, with every third call failing. *)
Definition failing : Disk := mkDisk zroot 0 (λ n, Nat.eqb (n mod 3) 2) (λ _ _, None).
Definition busy_day : list zfs_op := [ZPrepare handset; ZCommit demo_req; ZReset handset; ZScan handset].

Lemma zfs_versions_survive_witness :
  version_at storage_root handset first_version
    (d_root (zfs_run storage_root "1.0" demo_sha demo_file_size busy_day failing)) = Some (NDir old_tree).
Proof.
  apply (zfs_versions_survive storage_root "1.0" demo_sha demo_file_size busy_day failing handset first_version);
    [exact toy_zfs_law|vm_compute; reflexivity|vm_compute; reflexivity| |].
  - intros op v Hop Hv. unfold busy_day in Hop.
    assert (v = handset) as -> by (repeat (apply elem_of_cons in Hop as [-> |Hop]; [by injection Hv as <-|]);
      by apply elem_of_nil in Hop).
    split; [vm_compute; reflexivity|]. exists (zfs_dev one_version). reflexivity.
  - intros op Hop. unfold busy_day in Hop. repeat (apply elem_of_cons in Hop as [-> |Hop]; [by intros []|]).
    by apply elem_of_nil in Hop.
Defined.

Lemma zfs_reset_exact_witness :
  let '(e, d') := RepairWorkingCopy storage_root handset (healthy zroot) in
  ∃ es', stat (deviceDir storage_root handset) (d_root d') = FOk (NDir es') ∧
    (e = None → no_versions (zfs_dev one_version) ∧ head_of es' = ∅ ∨ restored (zfs_dev one_version) es').
Proof.
  assert (∀ s, is_Some (snapshots (zfs_dev one_version) !! s) → zfs_name s = true) as Hn.
  { intros s [m Hm]. change (snapshots (zfs_dev one_version)) with one_version in Hm. unfold one_version in Hm.
    apply lookup_insert_Some in Hm as [[<- _]|[_ Hm]]; [vm_compute; reflexivity|by rewrite lookup_empty in Hm]. }
  pose proof (zfs_reset_exact storage_root handset (healthy zroot) (zfs_dev one_version) toy_zfs_law
    ltac:(vm_compute; reflexivity) ltac:(vm_compute; reflexivity) ltac:(reflexivity) Hn) as H.
  destruct (RepairWorkingCopy storage_root handset (healthy zroot)) as [e d'].
  destruct H as (es' & H1 & _ & H3 & _). by exists es'.
Defined.

(** The reset of the demonstration succeeds, and the head holds the old version again. *)
Example reset_restores :
  let '(e, d') := RepairWorkingCopy storage_root handset (healthy zroot) in
  e = None ∧ get (deviceDir storage_root handset ++ ["Manifest.db"]) (d_root d') = Some (NFile (CData "old")).
Proof. vm_compute. done. Qed.

(** A first backup that failed half-way leaves its files in the head, and no version.  The retry asks
    whether the head holds anything, and records itself as incremental: it overwrites the work state
    in which the first attempt had recorded a full backup. *)
Example first_backup_recorded_incremental :
  let empty := zfs_storage ∅ in
  let first := d_root (PrepareWork storage_root demo_file_size handset
                         (healthy (graft (deviceDir storage_root handset) empty (<[snapdirName := versions_dir ∅]> ∅)))).2 in
  let transferred := graft (deviceDir storage_root handset) first (zfs_dev ∅) in
  let retried := d_root (PrepareWork storage_root demo_file_size handset (healthy transferred)).2 in
  (readWorkStateAt (zfsWorkSentinel storage_root handset) (healthy transferred)).1 = Ok (Some (mkWorkState false false)) ∧
  (readWorkStateAt (zfsWorkSentinel storage_root handset) (healthy retried)).1 = Ok (Some (mkWorkState true false)) ∧
  (ListSnapshots handset (healthy retried)).1 = Ok [].
Proof. vm_compute. done. Qed.
