(* ===== verification/Retention.v ===== *)
(** * Retention: which versions a prune deletes

    Models core/internal/storage/retention.go.  A prune keeps the most recent versions, one per day
    and one per week, and never a version that quince did not make, the latest one or one whose
    artifact is gone. *)

From Stdlib Require Import String Ascii.
From S2P Require Import Prelude Calendar Domain Backend.

Definition day_bucket (r : VersionRow) : string := fmt_date (ver_CreatedAt r).
Definition week_bucket (r : VersionRow) : string :=
  let '(y, w) := iso_week (ver_CreatedAt r) in fmt_d y +:+ "-W" +:+ fmt_02d w.

Section bucketed.
Context (bucket : VersionRow → string) (limit : Z).

(** The loop of [keepBucketed]: [seen] buckets, [keep] ids. *)
Fixpoint bucket_loop (candidates : list VersionRow) (seen keep : gset string) : gset string :=
  match candidates with
  | [] => keep
  | r :: rest =>
      if bool_decide (bucket r ∈ seen) then bucket_loop rest seen keep
      else if limit <=? Z.of_nat (size seen) then keep
      else bucket_loop rest ({[bucket r]} ∪ seen) ({[ver_ID r]} ∪ keep)
  end.

Definition keepBucketed (candidates : list VersionRow) (keep : gset string) : gset string :=
  if limit <=? 0 then keep else bucket_loop candidates ∅ keep.
End bucketed.

(** Adopted, latest and missing versions are never pruned here. *)
Definition protected (r : VersionRow) : bool :=
  bool_decide (ver_JobID r = None) || ver_IsLatest r || ver_Missing r.

Definition candidates (rows : list VersionRow) : list VersionRow :=
  filter (λ r, protected r = false) rows.

Definition kept_ids (rows : list VersionRow) (p : RetentionPolicy) : gset string :=
  let keep : gset string := list_to_set (ver_ID <$> filter (λ r, protected r = true) rows) in
  let c := candidates rows in
  let keep : gset string := list_to_set (ver_ID <$> take (Z.to_nat (KeepRecent p)) c) ∪ keep in
  keepBucketed week_bucket (KeepWeekly p) c (keepBucketed day_bucket (KeepDaily p) c keep).

Definition selectPrunable (rows : list VersionRow) (p : RetentionPolicy) : list VersionRow :=
  filter (λ r, ver_ID r ∉ kept_ids rows p) (candidates rows).

(** ** Specification

    [first_of_bucket bucket limit newer r]: among the candidates [newer ++ r :: _], [r] is the
    newest of its bucket, and fewer than [limit] buckets come before it. *)
Definition first_of_bucket (bucket : VersionRow → string) (limit : Z) (newer : list VersionRow)
    (r : VersionRow) : Prop :=
  (bucket r ∉ (bucket <$> newer)) ∧ Z.of_nat (size (list_to_set (bucket <$> newer) : gset string)) < limit.

Definition retained (p : RetentionPolicy) (newer : list VersionRow) (r : VersionRow) : Prop :=
  Z.of_nat (length newer) < KeepRecent p ∨
  first_of_bucket day_bucket (KeepDaily p) newer r ∨
  first_of_bucket week_bucket (KeepWeekly p) newer r.

Lemma first_of_bucket_fewer bucket limit newer newer' r :
  newer' ⊆ newer → first_of_bucket bucket limit newer r → first_of_bucket bucket limit newer' r.
Proof.
  intros Hsub [Hb Hl]. split.
  - intros H. apply Hb. apply list_elem_of_fmap in H as (x & -> & Hx).
    apply list_elem_of_fmap. eauto.
  - assert (size (list_to_set (bucket <$> newer') : gset string)
      ≤ size (list_to_set (bucket <$> newer) : gset string))%nat; [|lia].
    apply subseteq_size. intros x. rewrite !elem_of_list_to_set, !list_elem_of_fmap. naive_solver.
Qed.

Section bucketed_spec.
Context (bucket : VersionRow → string) (limit : Z).

Lemma bucket_loop_mono c seen keep : keep ⊆ bucket_loop bucket limit c seen keep.
Proof.
  revert seen keep. induction c as [|r c IH]; intros seen keep; simpl; [done|].
  repeat case_match; [done|done|]. etrans; [|apply IH]. set_solver.
Qed.

Lemma bucket_loop_spec c newer keep x :
  x ∈ bucket_loop bucket limit c (list_to_set (bucket <$> newer)) keep ↔
    x ∈ keep ∨ ∃ l1 r l2, c = l1 ++ r :: l2 ∧ ver_ID r = x ∧ first_of_bucket bucket limit (newer ++ l1) r.
Proof.
  revert newer keep. induction c as [|r c IH]; intros newer keep; simpl.
  { split; [auto|]. by intros [?|(l1 & r & l2 & ?%app_cons_not_nil & _)]. }
  assert (∀ Q : list VersionRow → VersionRow → Prop,
    (∃ l1 r' l2, r :: c = l1 ++ r' :: l2 ∧ ver_ID r' = x ∧ Q l1 r') ↔
    ver_ID r = x ∧ Q [] r ∨ ∃ l1 r' l2, c = l1 ++ r' :: l2 ∧ ver_ID r' = x ∧ Q (r :: l1) r') as Hsplit.
  { intros Q. split.
    - intros ([|r1 l1] & r' & l2 & [= -> ->] & ? & ?); [auto|]. right. by exists l1, r', l2.
    - intros [[? ?]|(l1 & r' & l2 & -> & ? & ?)]; [by exists [], r, c|by exists (r :: l1), r', l2]. }
  rewrite Hsplit, app_nil_r. clear Hsplit. case_bool_decide as Hseen.
  - assert (list_to_set (bucket <$> newer) = (list_to_set (bucket <$> newer ++ [r]) : gset string)) as ->.
    { rewrite fmap_app, list_to_set_app_L. simpl. set_solver. }
    rewrite elem_of_list_to_set in Hseen.
    rewrite IH. setoid_rewrite <-app_assoc. simpl. split; [naive_solver|].
    intros [?|[[_ [? _]]|?]]; [by left|done|by right].
  - rewrite elem_of_list_to_set in Hseen. case_match eqn:Hlim.
    + split; [auto|]. intros [?|[[_ [_ ?]]|(l1 & r' & l2 & _ & _ & [_ Hf])]]; [done|lia|].
      assert (size (list_to_set (bucket <$> newer) : gset string)
        ≤ size (list_to_set (bucket <$> newer ++ r :: l1) : gset string))%nat; [|lia].
      apply subseteq_size. rewrite fmap_app, list_to_set_app_L. set_solver.
    + assert ({[bucket r]} ∪ list_to_set (bucket <$> newer)
        = (list_to_set (bucket <$> newer ++ [r]) : gset string)) as ->.
      { rewrite fmap_app, list_to_set_app_L. simpl. set_solver. }
      rewrite IH. setoid_rewrite <-app_assoc. simpl. rewrite elem_of_union, elem_of_singleton.
      unfold first_of_bucket at 2. split; [|naive_solver].
      intros [[->|?]|?]; [|naive_solver..]. right. left. split; [done|]. split; [done|lia].
Qed.

Lemma keepBucketed_spec c keep x :
  x ∈ keepBucketed bucket limit c keep ↔
    x ∈ keep ∨ ∃ l1 r l2, c = l1 ++ r :: l2 ∧ ver_ID r = x ∧ first_of_bucket bucket limit l1 r.
Proof.
  unfold keepBucketed. case_match eqn:Hl.
  - split; [auto|]. intros [?|(l1 & r & l2 & _ & _ & [_ ?])]; [done|lia].
  - apply (bucket_loop_spec c []).
Qed.

Lemma bucket_loop_size c seen keep :
  (Z.of_nat (size seen) ≤ limit →
   Z.of_nat (size (bucket_loop bucket limit c seen keep)) ≤ Z.of_nat (size keep) + (limit - Z.of_nat (size seen)))%Z.
Proof.
  revert seen keep. induction c as [|r c IH]; intros seen keep Hs; simpl; [lia|].
  case_bool_decide as Hr; [by apply IH|]. case_match eqn:Hl; [lia|].
  assert (size ({[bucket r]} ∪ seen) = S (size seen)) as Hsz.
  { rewrite size_union by set_solver. by rewrite size_singleton. }
  specialize (IH ({[bucket r]} ∪ seen) ({[ver_ID r]} ∪ keep)).
  assert (size ({[ver_ID r]} ∪ keep) ≤ S (size keep))%nat; [|lia].
  rewrite size_union_alt, size_singleton.
  pose proof (subseteq_size (keep ∖ {[ver_ID r]}) keep ltac:(set_solver)). lia.
Qed.

Lemma keepBucketed_size c keep :
  Z.of_nat (size (keepBucketed bucket limit c keep)) ≤ Z.of_nat (size keep) + Z.max 0 limit.
Proof.
  unfold keepBucketed. case_match eqn:Hl; [lia|].
  pose proof (bucket_loop_size c ∅ keep) as H. rewrite size_empty in H. lia.
Qed.
End bucketed_spec.

(** ** The selection *)

Lemma elem_of_take_ids (n : nat) (c : list VersionRow) x :
  x ∈ ver_ID <$> take n c ↔
    ∃ l1 r l2, c = l1 ++ r :: l2 ∧ ver_ID r = x ∧ (length l1 < n)%nat.
Proof.
  rewrite list_elem_of_fmap. split.
  - intros (r & -> & (i & Hi)%list_elem_of_lookup). apply lookup_take_Some in Hi as [Hi Hn].
    exists (take i c), r, (drop (S i) c). split_and!; [by rewrite take_drop_middle|done|].
    rewrite length_take. lia.
  - intros (l1 & r & l2 & -> & <- & Hn). exists r. split; [done|].
    apply list_elem_of_lookup. exists (length l1). apply lookup_take_Some. split; [|done].
    by rewrite list_lookup_middle.
Qed.

Lemma candidates_nodup rows : NoDup (ver_ID <$> rows) → NoDup (ver_ID <$> candidates rows).
Proof.
  intros H. eapply sublist_NoDup; [done|]. apply fmap_sublist, sublist_filter.
Qed.

Lemma elem_of_candidates r rows : r ∈ candidates rows ↔ r ∈ rows ∧ protected r = false.
Proof. unfold candidates. rewrite list_elem_of_filter. naive_solver. Qed.

Lemma kept_ids_candidate rows p r l1 l2 :
  NoDup (ver_ID <$> rows) → candidates rows = l1 ++ r :: l2 →
  ver_ID r ∈ kept_ids rows p ↔ retained p l1 r.
Proof.
  intros Hn Hc. pose proof (candidates_nodup rows Hn) as Hnc.
  assert (r ∈ candidates rows) as Hr by (rewrite Hc; set_solver).
  assert (∀ Q : list VersionRow → VersionRow → Prop,
    (∃ l1 r' l2, candidates rows = l1 ++ r' :: l2 ∧ ver_ID r' = ver_ID r ∧ Q l1 r') ↔ Q l1 r) as Hone.
  { intros Q. split; [|by exists l1, r, l2]. intros (k1 & r' & k2 & Hk & He & HQ).
    assert (length k1 = length l1) as Hlen.
    { eapply (NoDup_lookup (ver_ID <$> candidates rows)); [done|..]; rewrite list_lookup_fmap_Some.
      - exists r'. rewrite He. split; [done|]. by rewrite Hk, list_lookup_middle.
      - exists r. split; [done|]. by rewrite Hc, list_lookup_middle. }
    rewrite Hk in Hc. apply app_inj_1 in Hc as [-> Hc]; [|done]. by injection Hc as -> ->. }
  unfold kept_ids, retained. rewrite !keepBucketed_spec, !Hone, elem_of_union, !elem_of_list_to_set,
    elem_of_take_ids, Hone.
  assert (ver_ID r ∉ ver_ID <$> filter (λ r, protected r = true) rows).
  { intros H. apply list_elem_of_fmap in H as (r' & He & [Hp Hr']%list_elem_of_filter).
    apply elem_of_candidates in Hr as [Hr Hpr]. 
    assert (r = r') as -> by (by apply ((nodup_fmap_eq ver_ID) rows)). congruence. }
  assert ((length l1 < Z.to_nat (KeepRecent p))%nat ↔ Z.of_nat (length l1) < KeepRecent p) by lia.
  tauto.
Qed.

Lemma kept_ids_size rows p :
  Z.of_nat (size (kept_ids rows p)) ≤
    Z.of_nat (length (filter (λ r, protected r = true) rows)) +
    Z.max 0 (KeepRecent p) + Z.max 0 (KeepDaily p) + Z.max 0 (KeepWeekly p).
Proof.
  unfold kept_ids. etrans; [apply keepBucketed_size|].
  match goal with |- Z.of_nat (size (keepBucketed ?b ?l ?c ?k)) + _ ≤ _ =>
    pose proof (keepBucketed_size b l c k) end.
  match goal with H : _ ≤ Z.of_nat (size (?a ∪ ?b)) + _ |- _ =>
    assert (size (a ∪ b) ≤ size a + size b)%nat as Hu by
      (rewrite size_union_alt; pose proof (subseteq_size (b ∖ a) b ltac:(set_solver)); lia) end.
  assert (∀ l : list string, size (list_to_set l : gset string) ≤ length l)%nat as Hs.
  { induction l as [|x l IH]; [by rewrite list_to_set_nil, size_empty|].
    rewrite list_to_set_cons, size_union_alt, size_singleton.
    pose proof (subseteq_size (list_to_set l ∖ {[x]} : gset string) (list_to_set l) ltac:(set_solver)). simpl. lia. }
  match goal with H : (size (list_to_set ?a ∪ list_to_set ?b) ≤ _)%nat |- _ =>
    pose proof (Hs a) as Ha; pose proof (Hs b) as Hb end.
  rewrite length_fmap in Ha, Hb. rewrite length_take in Ha. lia.
Qed.

Definition prune_rows (rows : list VersionRow) (p : RetentionPolicy) : list VersionRow :=
  filter (λ r, r ∉ selectPrunable rows p) rows.

Lemma prune_rows_kept rows p r :
  r ∈ prune_rows rows p → ver_ID r ∈ kept_ids rows p.
Proof.
  intros [Hs Hr]%list_elem_of_filter. destruct (decide (ver_ID r ∈ kept_ids rows p)) as [|Hk]; [done|].
  destruct (protected r) eqn:Hp.
  - unfold kept_ids. rewrite !keepBucketed_spec, !elem_of_union, !elem_of_list_to_set. left. left. right.
    apply list_elem_of_fmap. exists r. split; [done|]. by apply list_elem_of_filter.
  - destruct Hs. apply list_elem_of_filter. split; [done|]. by apply elem_of_candidates.
Qed.

Lemma candidates_prune rows p :
  candidates (prune_rows rows p) = filter (λ r, ver_ID r ∈ kept_ids rows p) (candidates rows).
Proof.
  etrans; [apply list_filter_filter|]. symmetry. etrans; [apply list_filter_filter|]. symmetry.
  apply filter_ext_in. intros r Hr. unfold selectPrunable.
  rewrite list_elem_of_filter, elem_of_candidates.
  destruct (decide (ver_ID r ∈ kept_ids rows p)); naive_solver.
Qed.

Lemma candidates_nodup_rows rows : NoDup (ver_ID <$> rows) → NoDup (candidates rows).
Proof. intros H. by apply (NoDup_fmap_1 ver_ID), candidates_nodup. Qed.

Lemma retained_fewer p newer newer' r :
  newer' `sublist_of` newer → retained p newer r → retained p newer' r.
Proof.
  intros Hs. pose proof (sublist_length _ _ Hs) as Hl.
  assert (newer' ⊆ newer) by (intros x; apply sublist_subseteq; done).
  unfold retained. intros [?|[?|?]]; [left; lia|right; left|right; right]; by eapply first_of_bucket_fewer.
Qed.

(** What a prune selects.  Of versions with distinct ids, newest first, a prune selects exactly the
    ones that quince made, that are neither latest nor gone, and that the policy does not retain: a
    candidate is retained if it is among the [KeepRecent] newest, or the newest of its day and
    among the first [KeepDaily] days, or the newest of its ISO week and among the first
    [KeepWeekly] weeks. *)
Theorem selectPrunable_iff rows p r :
  NoDup (ver_ID <$> rows) →
  r ∈ selectPrunable rows p ↔
    ∃ newer older, candidates rows = newer ++ r :: older ∧ ¬ retained p newer r.
Proof.
  intros Hn. unfold selectPrunable. rewrite list_elem_of_filter. split.
  - intros [Hk Hr]. apply list_elem_of_split in Hr as (l1 & l2 & Hc). exists l1, l2.
    split; [done|]. by rewrite <-(kept_ids_candidate rows p r l1 l2).
  - intros (l1 & l2 & Hc & Hk). rewrite (kept_ids_candidate rows p r l1 l2) by done.
    split; [done|]. rewrite Hc. set_solver.
Qed.

(** a prune bounds what is kept.  After it, the versions of a group are the protected ones and at
    most [KeepRecent] + [KeepDaily] + [KeepWeekly] others. *)
Theorem prune_bounded rows p :
  NoDup (ver_ID <$> rows) →
  Z.of_nat (length (prune_rows rows p)) ≤
    Z.of_nat (length (filter (λ r, protected r = true) rows)) +
    Z.max 0 (KeepRecent p) + Z.max 0 (KeepDaily p) + Z.max 0 (KeepWeekly p).
Proof.
  intros Hn. etrans; [|apply kept_ids_size]. apply Nat2Z.inj_le.
  rewrite <-(length_fmap ver_ID (prune_rows rows p)).
  assert (NoDup (ver_ID <$> prune_rows rows p)) as Hp.
  { eapply sublist_NoDup; [done|]. apply fmap_sublist, sublist_filter. }
  rewrite <-(size_list_to_set (C:=gset string)) by done. apply subseteq_size. intros x.
  rewrite elem_of_list_to_set, list_elem_of_fmap. intros (r & -> & Hr). by apply prune_rows_kept.
Qed.

(** a prune is idempotent.  What a prune leaves, the same policy leaves alone. *)
Theorem prune_idempotent rows p :
  NoDup (ver_ID <$> rows) → selectPrunable (prune_rows rows p) p = [].
Proof.
  intros Hn. set (rows' := prune_rows rows p).
  assert (NoDup (ver_ID <$> rows')) as Hn'.
  { eapply sublist_NoDup; [done|]. apply fmap_sublist, sublist_filter. }
  apply filter_false, Forall_forall. intros r Hr Hk. apply Hk. clear Hk.
  apply list_elem_of_split in Hr as (k1 & k2 & Hk). rewrite (kept_ids_candidate rows' p r k1 k2) by done.
  pose proof (candidates_nodup_rows _ Hn') as Hnd. rewrite Hk in Hnd. unfold rows' in Hk.
  rewrite candidates_prune in Hk.
  assert (r ∈ filter (λ r, ver_ID r ∈ kept_ids rows p) (candidates rows)) as [Hkept Hr]%list_elem_of_filter.
  { rewrite Hk. set_solver. }
  apply list_elem_of_split in Hr as (l1 & l2 & Hc).
  rewrite (kept_ids_candidate rows p r l1 l2) in Hkept by done.
  rewrite Hc, filter_app, filter_cons, decide_True in Hk
    by (by rewrite (kept_ids_candidate rows p r l1 l2)).
  symmetry in Hk. destruct (nodup_split_eq _ _ _ _ _ Hnd Hk) as [-> _].
  eapply retained_fewer; [|done]. apply sublist_filter.
Qed.

(** Four versions of two days, of which the adopted one is protected. *)
Definition demo_version (id : string) (job : option string) (at_ : time) (latest : bool) : VersionRow :=
  mkVersionRow id "d1" "copy" None at_ job "full" true latest None None 1 false None.
Definition demo_versions : list VersionRow :=
  [demo_version "v4" (Some "j4") (1784600000 * Second) true;
   demo_version "v3" (Some "j3") (1784510000 * Second) false;
   demo_version "v2" (Some "j2") (1784500000 * Second) false;
   demo_version "v1" None (1784490000 * Second) false].
Definition demo_policy : RetentionPolicy := mkRetention 0 1 0.

Lemma demo_versions_nodup : NoDup (ver_ID <$> demo_versions).
Proof. apply (bool_decide_unpack _). vm_compute. done. Qed.

Lemma selectPrunable_iff_witness :
  selectPrunable demo_versions demo_policy = [demo_version "v2" (Some "j2") (1784500000 * Second) false] ∧
  ∃ newer older, candidates demo_versions
    = newer ++ demo_version "v2" (Some "j2") (1784500000 * Second) false :: older ∧
    ¬ retained demo_policy newer (demo_version "v2" (Some "j2") (1784500000 * Second) false).
Proof.
  split; [vm_compute; reflexivity|].
  apply (selectPrunable_iff demo_versions demo_policy); [exact demo_versions_nodup|].
  apply (bool_decide_unpack _). vm_compute. exact I.
Defined.

Lemma prune_bounded_witness : Z.of_nat (length (prune_rows demo_versions demo_policy)) ≤ 2 + 0 + 1 + 0.
Proof. apply (prune_bounded demo_versions demo_policy). exact demo_versions_nodup. Defined.

Lemma prune_idempotent_witness : selectPrunable (prune_rows demo_versions demo_policy) demo_policy = [].
Proof. apply (prune_idempotent demo_versions demo_policy). exact demo_versions_nodup. Defined.
