(* ===== verification/Slots.v ===== *)
(** * Slots: the declared storages and the jobs bound to them

    Models core/internal/storage/slot.go and jobstorage.go, with the slot resolvers of
    subsystem.go, and storagemarker.go and preflight.go.  A job is bound to a storage when it starts;
    every later call resolves that storage from the job's id.  A storage carries a marker with its
    identity and backend; before a job writes, the marker at the storage's path is compared with what
    the slot knows. *)

From Stdlib Require Import String Ascii.
From S2P Require Import Prelude Domain Backend FS Sidecars.

Section slots.
Context {W : Type}.

Record Slot : Type := mkSlot {
  s_StorageID : string;
  s_Name : string;
  s_Root : list string;
  s_Backend : option (Backend W);
  s_BackendName : string;
  s_Retention : RetentionPolicy;
  s_Reachable : bool;
  s_UnreachableCode : string;
  s_UnreachableReason : string }.

(** [s.Reachable && s.Backend != nil], with the backend when it holds. *)
Definition usable_backend (s : Slot) : option (Backend W) :=
  if s_Reachable s then s_Backend s else None.
Definition Usable (s : Slot) : bool := bool_decide (is_Some (usable_backend s)).

(** Group membership: the unattributed rows belong to the unattributed slot. *)
Definition owns (s : Slot) (rowStorageID : option string) : bool :=
  match rowStorageID with
  | None => bool_decide (s_StorageID s = "")
  | Some id => bool_decide (id = s_StorageID s)
  end.

Definition defaultSlot (slots : list Slot) : option Slot := head slots.

(** The first slot with an id, in declaration order. *)
Fixpoint find_slot (id : string) (slots : list Slot) : option Slot :=
  match slots with
  | [] => None
  | s :: rest => if bool_decide (s_StorageID s = id) then Some s else find_slot id rest
  end.

Definition slotFor (storageID : option string) (slots : list Slot) : option Slot :=
  find_slot (default ""%string storageID) slots.

Definition BackendName (slots : list Slot) : string :=
  match defaultSlot slots with Some d => s_BackendName d | None => "unknown" end.

Definition storageIDPtr (slots : list Slot) : option string :=
  match defaultSlot slots with
  | Some d => if bool_decide (s_StorageID d = "") then None else Some (s_StorageID d)
  | None => None
  end.

Definition slotIDPtr (s : Slot) : option string :=
  if bool_decide (s_StorageID s = "") then None else Some (s_StorageID s).

Definition policyFor (storageID : string) (slots : list Slot) : option RetentionPolicy :=
  if bool_decide (storageID = "") then s_Retention <$> head slots
  else s_Retention <$> find_slot storageID slots.

Definition stillDeclared (name : string) (slots : list Slot) : bool :=
  existsb (λ s, bool_decide (s_Name s = name)) slots.

Definition unreachable_message (s : Slot) : string :=
  "storage " +:+ quote (s_Name s) +:+ " is not reachable (" +:+ s_UnreachableCode s +:+ "): "
  +:+ s_UnreachableReason s.

(** ** Job bindings *)

Record jobBinding : Type := mkBinding { jb_storageID : string; jb_udid : string }.

Abbreviation bindings := (gmap string jobBinding).

Definition BindJobStorage (slots : list Slot) (jobID udid storageID : string)
    (b : bindings) : error * bindings :=
  match find_slot storageID slots with
  | None => (Some ("no storage with id " +:+ quote storageID +:+ " is declared"), b)
  | Some s =>
      if negb (Usable s) then (Some (unreachable_message s), b)
      else (None, <[jobID := mkBinding storageID udid]> b)
  end.

(** [UnbindJob], which also says whether the reconciliation trigger fires. *)
Definition UnbindJob (jobID : string) (b : bindings) : bool * bindings :=
  (bool_decide (is_Some (b !! jobID)), delete jobID b).

(** The storage that a job writes to. *)
Definition jobSlot (slots : list Slot) (b : bindings) (jobID : string) : result Slot :=
  let bound := b !! jobID in
  match slots with
  | [] =>
      match bound with
      | Some jb => Err ("this job was started against storage " +:+ quote (jb_storageID jb)
                        +:+ ", and no storage is declared any more")
      | None => Err "no storage is declared, so this job has nowhere to write"
      end
  | s0 :: _ =>
      let chosen :=
        match bound with
        | None => Some s0
        | Some jb => find_slot (jb_storageID jb) slots
        end in
      match chosen with
      | None =>
          Err ("this job was started against storage " +:+ quote (from_option jb_storageID "" bound)
               +:+ ", which is no longer declared — refusing rather than writing it to a different disk")
      | Some s => if Usable s then Ok s else Err (unreachable_message s)
      end
  end.

(** [ResolveChoice]: the concrete storage, or an HTTP status and a reason. *)
Definition ResolveChoice (slots : list Slot) (storageID : string) : string * Z * string :=
  if bool_decide (storageID = "") then
    match slots with
    | [] => ("", 409, "no storage is declared, so there is nowhere to back up to — declare one in config.yml")
    | s :: _ =>
        if Usable s then (s_StorageID s, 0, "")
        else ("", 409, "the default " +:+ unreachable_message s
              +:+ " — choose another storage or reconnect this one")
    end
  else
    match find_slot storageID slots with
    | None => ("", 404, "no storage with that id is declared")
    | Some s => if Usable s then (s_StorageID s, 0, "") else ("", 409, unreachable_message s)
    end.

Definition JobsOn (b : bindings) (storageID : string) : list string :=
  if bool_decide (storageID = "") then []
  else merge_sort str_le (fst <$> filter (λ p, jb_storageID p.2 = storageID) (map_to_list b)).

Definition JobsOnDevice (b : bindings) (storageID udid : string) : list string :=
  if bool_decide (udid = "") then []
  else merge_sort str_le (fst <$> filter (λ p, jb_storageID p.2 = storageID ∧ jb_udid p.2 = udid)
                            (map_to_list b)).

Definition jobIsBound (b : bindings) (jobID : string) : bool :=
  negb (bool_decide (jobID = "")) && bool_decide (is_Some (b !! jobID)).

(** ** Lemmas *)

Lemma find_slot_Some id slots s :
  find_slot id slots = Some s → s_StorageID s = id ∧ s ∈ slots.
Proof.
  induction slots as [|t slots IH]; [done|]. simpl. case_bool_decide.
  - intros [= ->]. split; [done|]. apply elem_of_cons. auto.
  - intros [? ?]%IH. split; [done|]. apply elem_of_cons. auto.
Qed.

Lemma find_slot_None id slots :
  find_slot id slots = None ↔ ∀ s, s ∈ slots → s_StorageID s ≠ id.
Proof.
  induction slots as [|t slots IH]; simpl.
  - split; [|done]. intros _ s Hs. by apply elem_of_nil in Hs.
  - case_bool_decide as Ht.
    + split; [done|]. intros H. exfalso. apply (H t); [|done]. apply elem_of_cons. auto.
    + rewrite IH. split.
      * intros H s [-> |Hs]%elem_of_cons; auto.
      * intros H s Hs. apply H. apply elem_of_cons. auto.
Qed.

Lemma elem_of_JobsOnDevice b storageID udid jobID :
  jobID ∈ JobsOnDevice b storageID udid ↔
    udid ≠ ""%string ∧ b !! jobID = Some (mkBinding storageID udid).
Proof.
  unfold JobsOnDevice. case_bool_decide as Hu.
  - split; [intros H; by apply elem_of_nil in H|naive_solver].
  - rewrite (merge_sort_Permutation str_le), list_elem_of_fmap. split.
    + intros ([k [st u]] & -> & [[<- <-] Hk]%list_elem_of_filter). split; [done|].
      by apply elem_of_map_to_list in Hk.
    + intros [_ H]. exists (jobID, mkBinding storageID udid). split; [done|].
      apply list_elem_of_filter. split; [done|]. by apply elem_of_map_to_list.
Qed.

Lemma jobSlot_Ok slots b jobID s :
  jobSlot slots b jobID = Ok s →
  Usable s = true ∧ s ∈ slots ∧
  match b !! jobID with
  | Some jb => find_slot (jb_storageID jb) slots = Some s
  | None => head slots = Some s
  end.
Proof.
  unfold jobSlot. destruct slots as [|s0 slots]; [by destruct (b !! jobID)|].
  destruct (b !! jobID) as [jb|].
  - destruct (find_slot _ _) as [t|] eqn:Ht; [|done]. destruct (Usable t) eqn:Hu; [|done].
    intros [= ->]. split; [done|]. split; [|done]. by apply find_slot_Some in Ht as [_ ?].
  - destruct (Usable s0) eqn:Hu; [|done]. intros [= ->]. split; [done|]. split; [|done].
    apply elem_of_cons. auto.
Qed.
End slots.

Arguments Slot : clear implicits.
#[export] Hint Resolve find_slot_Some jobSlot_Ok : quince.

(** ** Properties *)

(** What other jobs do to the bindings while one job runs. *)
Inductive bind_op (W : Type) : Type :=
  | OpBind (slots : list (Slot W)) (jobID udid storageID : string)
  | OpUnbind (jobID : string).
Arguments OpBind {W} _ _ _ _.
Arguments OpUnbind {W} _.

Definition op_job {W} (o : bind_op W) : string :=
  match o with OpBind _ j _ _ | OpUnbind j => j end.

Definition apply_op {W} (b : gmap string jobBinding) (o : bind_op W) : gmap string jobBinding :=
  match o with
  | OpBind slots j u st => snd (BindJobStorage slots j u st b)
  | OpUnbind j => snd (UnbindJob j b)
  end.

Lemma apply_op_other {W} (b : gmap string jobBinding) (o : bind_op W) jobID :
  op_job o ≠ jobID → apply_op b o !! jobID = b !! jobID.
Proof.
  destruct o as [slots j u st|j]; simpl; intros Hne.
  - unfold BindJobStorage. split_matches; by rewrite lookup_insert_ne.
  - by rewrite lookup_delete_ne.
Qed.

Lemma apply_ops_other {W} (ops : list (bind_op W)) (b : gmap string jobBinding) jobID :
  Forall (λ o, op_job o ≠ jobID) ops → foldl apply_op b ops !! jobID = b !! jobID.
Proof.
  intros H. revert b. induction H as [|o ops Ho Hops IH]; intros b; simpl; [done|].
  rewrite IH. by apply apply_op_other.
Qed.

Lemma BindJobStorage_None {W} (slots : list (Slot W)) jobID udid storageID b b' :
  BindJobStorage slots jobID udid storageID b = (None, b') →
  b' = <[jobID := mkBinding storageID udid]> b ∧
  ∃ s, find_slot storageID slots = Some s ∧ Usable s = true.
Proof.
  unfold BindJobStorage. destruct (find_slot storageID slots) as [s|] eqn:Hs; [|done].
  destruct (Usable s) eqn:Hu; simpl; [|done]. intros [= <-]. eauto.
Qed.

(** A job is never retargeted.  Once bound to a storage, whatever other jobs bind or release and
    however the declared list is replaced meanwhile, the job's storage resolves to the storage with
    the bound id, usable now, or not at all. *)
Theorem job_never_retargeted {W} (slots slots' : list (Slot W)) (ops : list (bind_op W)) jobID udid storageID b b' s :
  BindJobStorage slots jobID udid storageID b = (None, b') →
  Forall (λ o, op_job o ≠ jobID) ops →
  jobSlot slots' (foldl apply_op b' ops) jobID = Ok s →
  s_StorageID s = storageID ∧ Usable s = true ∧ s ∈ slots'.
Proof.
  intros Hb Hops Hs. apply BindJobStorage_None in Hb as (-> & _).
  apply jobSlot_Ok in Hs as (Hu & Hin & Hf). rewrite apply_ops_other, lookup_insert_eq in Hf by done.
  by apply find_slot_Some in Hf as [? _].
Qed.

(** the storage choice of a request is exact.  A success names a usable declared storage - the
    requested one, or the first for a request without one - and binding a job to it succeeds and
    resolves back to that storage; a failure is 404 only when no storage has the id, else 409. *)
Theorem resolve_choice_exact {W} (slots : list (Slot W)) req jobID udid b :
  match ResolveChoice slots req with
  | (c, 0, _) =>
      (req ≠ ""%string → c = req) ∧
      (req = ""%string → s_StorageID <$> head slots = Some c) ∧
      ∃ s b', find_slot c slots = Some s ∧ Usable s = true ∧
        BindJobStorage slots jobID udid c b = (None, b') ∧ jobSlot slots b' jobID = Ok s
  | (c, status, _) =>
      c = ""%string ∧
      (status = 404 ∧ req ≠ ""%string ∧ (∀ s, s ∈ slots → s_StorageID s ≠ req) ∨
       status = 409 ∧ ∀ s, (if bool_decide (req = ""%string) then head slots else find_slot req slots)
                            = Some s → Usable s = false)
  end.
Proof.
  assert (∀ c s, find_slot c slots = Some s → Usable s = true →
    ∃ b', BindJobStorage slots jobID udid c b = (None, b') ∧ jobSlot slots b' jobID = Ok s) as Hok.
  { intros c s Hf Hu. exists (<[jobID := mkBinding c udid]> b). unfold BindJobStorage.
    rewrite Hf, Hu. split; [done|]. unfold jobSlot. rewrite lookup_insert_eq. simpl.
    destruct slots as [|s0 l]; [done|]. by rewrite Hf, Hu. }
  unfold ResolveChoice. case_bool_decide as Hreq.
  - subst. destruct slots as [|s l]; [split; [done|]; right; split; [done|]; intros s; done|].
    destruct (Usable s) eqn:Hu.
    + split; [done|]. split; [done|]. exists s.
      assert (find_slot (s_StorageID s) (s :: l) = Some s) as Hf by (simpl; by rewrite bool_decide_true).
      destruct (Hok _ _ Hf Hu) as (b' & ? & ?). eauto.
    + split; [done|]. right. split; [done|]. simpl. by intros s' [= ->].
  - destruct (find_slot req slots) as [s|] eqn:Hf.
    + destruct (Usable s) eqn:Hu.
      * apply find_slot_Some in Hf as Hid. destruct Hid as [<- _]. split; [done|]. split; [done|].
        destruct (Hok _ _ Hf Hu) as (b' & ? & ?). exists s. eauto.
      * split; [done|]. right. split; [done|]. by intros s' [= ->].
    + split; [done|]. left. split; [done|]. split; [done|]. by apply find_slot_None.
Qed.

(** Two storages, of which the second is unplugged later. *)
Definition demo_backend : Backend unit :=
  mkBackend unit "copy" (λ _, mret None) (λ _ _, mret (Ok ["w"%string])) (λ _ _, mret (Ok (["w"%string], false)))
    (λ _ _, mret None) (λ _ _, ["t"%string]) (λ _, mret (Err "x")) (λ _, mret (Err "x"))
    (λ _ _, mret (""%string, None)) (λ _, mret None) (λ _, mret None) (λ _, mret (Ok []))
    (mret (Ok [])) (λ _, mret None) (λ _ _, false).
Definition demo_slot (id : string) (up : bool) : Slot unit :=
  mkSlot id id [id] (if up then Some demo_backend else None) "copy" (mkRetention 10 7 4) up
    (if up then "" else "path_unreachable") "".

Lemma job_never_retargeted_witness :
  BindJobStorage [demo_slot "a" true; demo_slot "b" true] "j1" "d1" "b" ∅
    = (None, <["j1" := mkBinding "b" "d1"]> ∅) ∧
  s_StorageID (demo_slot "b" true) = "b"%string ∧
  jobSlot [demo_slot "a" true; demo_slot "b" false] (<["j1" := mkBinding "b" "d1"]> ∅) "j1"
    = Err (unreachable_message (demo_slot "b" false)).
Proof.
  split; [reflexivity|]. split; [|reflexivity].
  apply (job_never_retargeted [demo_slot "a" true; demo_slot "b" true] [demo_slot "a" true; demo_slot "b" true]
    [OpBind [demo_slot "a" true] "j2" "d2" "a"; OpUnbind "j3"] "j1" "d1" "b" ∅
    (<["j1" := mkBinding "b" "d1"]> ∅) (demo_slot "b" true));
    [reflexivity|repeat constructor; done|vm_compute; reflexivity].
Defined.

(** * Is this still the storage that was opened? *)

Definition StorageMarkerName : string := "quince-storage.json".

Definition with_storage_checksum (m : StorageMarker) (sum : string) : StorageMarker :=
  mkStorageMarker (sm_StorageID m) (sm_Backend m) (sm_CreatedAt m) (sm_AppVersion m) sum.

(** [SMAbsent] is [os.ErrNotExist], [SMCorrupt] [ErrStorageMarkerCorrupt]. *)
Inductive storage_marker_read : Type :=
  | SMOk (m : StorageMarker)
  | SMAbsent
  | SMCorrupt
  | SMError.

Section storage_markers.
(** The hexadecimal SHA-256 of a storage marker's JSON encoding. *)
Context (sha256 : StorageMarker → string).

Definition storage_checksum (m : StorageMarker) : string := sha256 (with_storage_checksum m "").

Definition WriteStorageMarker (root : path) (m : StorageMarker) : stateM Disk error :=
  let m := with_storage_checksum m (storage_checksum m) in
  _ ← os_remove (root ++ [StorageMarkerName]);
  r ← write_file (root ++ [StorageMarkerName]) (CStorageMarker m);
  mret (err_of r "write quince-storage.json").

Definition parse_storage_marker (c : content) : storage_marker_read :=
  match c with
  | CStorageMarker m =>
      if bool_decide (sm_Checksum m = "") || negb (bool_decide (storage_checksum m = sm_Checksum m))
      then SMCorrupt else SMOk m
  | _ => SMCorrupt
  end.

Definition ReadStorageMarker (root : path) : stateM Disk storage_marker_read :=
  r ← read_file (root ++ [StorageMarkerName]);
  mret (match r with FOk c => parse_storage_marker c | FAbsent => SMAbsent | FErr => SMError end).

(** A marker as it is written reads back. *)
Lemma parse_written_storage_marker m :
  storage_checksum m ≠ ""%string →
  parse_storage_marker (CStorageMarker (with_storage_checksum m (storage_checksum m)))
    = SMOk (with_storage_checksum m (storage_checksum m)).
Proof.
  intros H. assert (∀ s, storage_checksum (with_storage_checksum m s) = storage_checksum m) as E by by destruct m.
  simpl. rewrite E, bool_decide_false, bool_decide_true by done. done.
Qed.
End storage_markers.

Definition Mismatch (m : StorageMarker) (probed : string) : option string :=
  if bool_decide (probed = "") || bool_decide (probed = sm_Backend m) then None
  else Some ("storage " +:+ sm_StorageID m +:+ " records backend " +:+ quote (sm_Backend m)
    +:+ " but this path now probes as " +:+ quote probed
    +:+ " — refusing rather than adopting the new backend, "
    +:+ "because versions already committed here were made with " +:+ quote (sm_Backend m)).

(** [preflight], on the marker that was read at the slot's root. *)
Definition preflight {W} (s : Slot W) (r : storage_marker_read) : error :=
  match r with
  | SMAbsent => Some ("storage " +:+ quote (s_Name s) +:+ " has no quince storage marker — the medium is not mounted. "
      +:+ "Mount it and try again; quince will not write a backup to a bare mountpoint")
  | SMCorrupt => Some ("storage " +:+ quote (s_Name s) +:+ " has an unreadable storage marker — refusing rather than "
      +:+ "re-creating it, because a marker quince cannot read is not one it may overwrite")
  | SMError => Some ("storage " +:+ quote (s_Name s) +:+ " could not be read")
  | SMOk m =>
      if negb (bool_decide (s_StorageID s = "")) && negb (bool_decide (sm_StorageID m = s_StorageID s)) then
        Some ("storage " +:+ quote (s_Name s) +:+ " now identifies as " +:+ sm_StorageID m +:+ ", not " +:+ s_StorageID s
          +:+ " — the medium at this path is not the storage quince opened at startup; refusing rather than writing to it")
      else match Mismatch m (s_BackendName s) with
           | Some why => Some ("storage " +:+ quote (s_Name s) +:+ ": " +:+ why)
           | None => None
           end
  end.

(** A job passes exactly when the marker is there, vouches for itself and names this storage and
    this backend. *)
Lemma preflight_passes {W} (s : Slot W) r :
  s_BackendName s ≠ ""%string →
  preflight s r = None ↔
    ∃ m, r = SMOk m ∧ (s_StorageID s = ""%string ∨ sm_StorageID m = s_StorageID s) ∧
      sm_Backend m = s_BackendName s.
Proof.
  intros Hb. destruct r as [m| | |]; simpl; [|split; [done|naive_solver]..].
  unfold Mismatch. repeat case_bool_decide; simpl; naive_solver.
Qed.
