(* ===== verification/Verify.v ===== *)
(** * Verify: the structural verification of a backup tree

    Models core/internal/storage/verify.go.  The property-list parser and SQLite are libraries:
    their answers about a file's bytes are parameters. *)

From Stdlib Require Import String Ascii.
From S2P Require Import Prelude Domain Backend FS Sidecars.

(** What a plain Manifest.db answers: its tables and the first eight file ids, or an error. *)
Record sqlite_view : Type := mkSqlite { sq_tables : list string; sq_fileIDs : result (list string) }.

Definition sqliteMagic : string := "SQLite format 3" +:+ String "000" "".
Definition minManifestSize : Z := 64.

Definition lower_hex (c : ascii) : bool :=
  is_digit c || ((97 <=? Z_of_char c) && (Z_of_char c <=? 102)).
Definition hexShardDir (name : string) : bool := all_chars lower_hex name && (String.length name =? 2)%nat.

Definition str_take (n : nat) (s : string) : string := String.substring 0 n s.

Section verify.
(** SnapshotState of a Status.plist, whether an Info.plist parses, IsEncrypted of a
    Manifest.plist, and SQLite on a Manifest.db. *)
Context (plist_SnapshotState : string → option string) (plist_parses : string → bool).
Context (plist_IsEncrypted : string → option bool) (sqlite_open : string → option sqlite_view).
Context (file_size : content → Z).

Definition read_data (p : path) : stateM Disk (option string) :=
  r ← read_file p; mret (match r with FOk (CData b) => Some b | _ => None end).

Definition any_shard (treeDir : path) : list string → stateM Disk bool :=
  fix go names := match names with
  | [] => mret false
  | n :: rest => empty ← isEmptyDir (treeDir ++ [n]); if negb empty then mret true else go rest
  end.

Definition hasNonEmptyShard (treeDir : path) : stateM Disk bool :=
  r ← read_dir treeDir;
  match r with
  | FOk es => any_shard treeDir (filter (λ n, is_dir (es !! n) && hexShardDir n) (names es))
  | _ => mret false
  end.

Definition verifyEncryptedDB (treeDir dbPath : path) (kind : string) : stateM Disk string :=
  fi ← os_stat dbPath;
  match fi with
  | FOk n =>
      if node_size file_size n <? minManifestSize then
        mret ("Manifest.db is only " +:+ fmt_d (node_size file_size n)
              +:+ " bytes (encrypted manifest expected non-trivial)")
      else
        head ← read_data dbPath;
        match head with
        | None => mret "Manifest.db unreadable"
        | Some b =>
            if bool_decide (str_take 16 b = sqliteMagic) then
              mret "Manifest.plist says IsEncrypted but Manifest.db is plaintext SQLite (red flag)"
            else if negb (bool_decide (kind = "full")) then mret ""
            else shard ← hasNonEmptyShard treeDir;
                 mret (if shard : bool then ""
                       else "no non-empty blob-shard directory on a full encrypted backup")
        end
  | _ => mret "Manifest.db missing"
  end.

Fixpoint sample_blobs (treeDir : path) (ids : list string) : stateM Disk string :=
  match ids with
  | [] => mret ""
  | id :: rest =>
      if (String.length id <? 2)%nat then sample_blobs treeDir rest
      else r ← os_stat (treeDir ++ [str_take 2 id; id]);
           if fs_ok r then sample_blobs treeDir rest
           else mret ("Manifest record " +:+ id +:+ " resolves to a missing blob")
  end.

Definition verifyPlainDB (treeDir dbPath : path) : stateM Disk string :=
  fi ← os_stat dbPath;
  if negb (fs_ok fi) then mret "Manifest.db missing" else
  b ← read_data dbPath;
  match b ≫= sqlite_open with
  | None => mret "Manifest.db will not open"
  | Some v =>
      match filter (λ t, t ∉ sq_tables v) ["Files"; "Properties"] with
      | t :: _ => mret ("Manifest.db missing required table " +:+ quote t)
      | [] => match sq_fileIDs v with
              | Err _ => mret "Manifest.db Files query failed"
              | Ok ids => sample_blobs treeDir (take 8 ids)
              end
      end
  end.

Definition failed_verify (detail : string) : VerifyResult := mkVerifyResult false false "" 0 detail.

Definition Verify (treeDir : path) (kind : string) : stateM Disk VerifyResult :=
  status ← read_data (treeDir ++ ["Status.plist"]);
  match status ≫= plist_SnapshotState with
  | None => mret (failed_verify "Status.plist does not parse")
  | Some state =>
      if negb (bool_decide (state = "finished")) then
        mret (failed_verify ("SnapshotState is " +:+ quote state +:+ ", want finished"))
      else
        info ← read_data (treeDir ++ ["Info.plist"]);
        if negb (from_option plist_parses false info) then
          mret (failed_verify "Info.plist does not parse")
        else
          manifest ← read_data (treeDir ++ ["Manifest.plist"]);
          match manifest ≫= plist_IsEncrypted with
          | None => mret (failed_verify "Manifest.plist does not parse")
          | Some encrypted =>
              size ← dirSize file_size treeDir;
              let dbPath := treeDir ++ ["Manifest.db"] in
              detail ← (if encrypted : bool then verifyEncryptedDB treeDir dbPath kind
                        else verifyPlainDB treeDir dbPath);
              mret (if bool_decide (detail = "") then mkVerifyResult true encrypted kind size ""
                    else failed_verify detail)
          end
  end.
End verify.
