(* ===== verification/Manager.v ===== *)
(** * Manager: versions, commits, retention and reset

    Models core/internal/storage/subsystem.go, reset.go and lease.go.  A manager holds the declared
    slots, the bindings of running jobs, the registry and the world that backends work on.  A commit
    lease that another actor holds is in [mg_held]: reconciliation defers to it and a commit waits
    for it.  Log lines are not modelled; events and audit rows are. *)

From Stdlib Require Import String Ascii.
From S2P Require Import Prelude Calendar Domain Store Backend Slots FS Sidecars.
From S2P Require Import Verify Retention.

(** What the storage code asks of the world beside its backends. *)
Class StorageWorld (W : Type) : Type := {
  read_storage_marker : path → stateM W storage_marker_read;
  read_work_state : path → stateM W (result (option workState));
  read_dir_names : path → stateM W (option (list (string * bool)));   (* name, is a directory *)
  verify_tree : path → string → stateM W VerifyResult }.

Inductive storage_event : Type :=
  | EventVersionCreated (v : Version)
  | EventVersionDeleted (v : Version).

Definition StatusAccepted : Z := 202.
Definition StatusNotFound : Z := 404.
Definition StatusConflict : Z := 409.
Definition StatusInternalServerError : Z := 500.

Section manager.
Context {W : Type} `{!StorageWorld W, !MapRange}.

Record Manager : Type := mkManager {
  mg_slots : list (Slot W);
  mg_jobStorage : gmap string jobBinding;
  mg_held : gset (string * string);        (* leases held by others: storage id, udid *)
  mg_db : DB;
  mg_world : W;
  mg_events : list storage_event;          (* oldest first *)
  mg_ids : list string;                    (* what newID will return *)
  mg_now : time;
  mg_ctx : list bool }.                    (* whether the context is cancelled, at each question *)

Definition set_db (db : DB) (m : Manager) : Manager :=
  mkManager (mg_slots m) (mg_jobStorage m) (mg_held m) db (mg_world m) (mg_events m) (mg_ids m)
    (mg_now m) (mg_ctx m).
Definition set_world (w : W) (m : Manager) : Manager :=
  mkManager (mg_slots m) (mg_jobStorage m) (mg_held m) (mg_db m) w (mg_events m) (mg_ids m)
    (mg_now m) (mg_ctx m).

Definition reg {A} (f : stateM DB A) : stateM Manager A := lift_state mg_db set_db f.
Definition disk {A} (f : stateM W A) : stateM Manager A := lift_state mg_world set_world f.

Definition publish (e : storage_event) : stateM Manager unit := modify (λ m,
  mkManager (mg_slots m) (mg_jobStorage m) (mg_held m) (mg_db m) (mg_world m) (mg_events m ++ [e])
    (mg_ids m) (mg_now m) (mg_ctx m)).

Definition newID : stateM Manager string := λ m,
  (default ""%string (head (mg_ids m)),
   mkManager (mg_slots m) (mg_jobStorage m) (mg_held m) (mg_db m) (mg_world m) (mg_events m)
     (tail (mg_ids m)) (mg_now m) (mg_ctx m)).

Definition ctx_cancelled : stateM Manager bool := λ m,
  (default false (head (mg_ctx m)),
   mkManager (mg_slots m) (mg_jobStorage m) (mg_held m) (mg_db m) (mg_world m) (mg_events m)
     (mg_ids m) (mg_now m) (tail (mg_ctx m))).

Definition lease_held (storageID udid : string) (m : Manager) : bool :=
  bool_decide ((storageID, udid) ∈ mg_held m).

(** ** Reading *)

Definition toWire (r : VersionRow) (m : Manager) : Version :=
  mkVersion (ver_ID r) (ver_UDID r) (ver_Backend r) (ver_ZFSSnapshot r)
    (slot ← slotFor (ver_StorageID r) (mg_slots m);
     browseRoot (s_Root slot) (ver_UDID r) (ver_Backend r) (ver_ZFSSnapshot r) (ver_IsLatest r)
       (ver_CreatedAt r))
    (fmtRFC (ver_CreatedAt r)) (ver_JobID r) (ver_Kind r) (ver_Encrypted r) (ver_IsLatest r)
    (fmtRFC <$> ver_StructureVerifiedAt r) (fmtRFC <$> ver_ContentVerifiedAt r)
    (ver_LogicalBytes r) (ver_Missing r) (ver_StorageID r).

Definition LastBackup_of (udid : string) : stateM Manager (option LastBackup) :=
  rows ← reg (ListVersions udid);
  mret (match rows with
        | Err _ => None
        | Ok rows =>
            r ← head (filter (λ r, ver_Missing r = false) rows);
            Some (mkLastBackup (fmtRFC (ver_CreatedAt r)) (ver_JobID r) "succeeded")
        end).

Definition Versions (udid : string) : stateM Manager (list Version) :=
  rows ← reg (ListVersions udid);
  m ← gets id;
  mret (match rows with Err _ => [] | Ok rows => (λ r, toWire r m) <$> rows end).

Definition Version_of (id_ : string) : stateM Manager (result (option Version)) :=
  row ← reg (GetVersion id_);
  m ← gets id;
  mret (match row with
        | Err e => Err ("storage: reading version " +:+ id_ +:+ ": " +:+ e)
        | Ok None => Ok None
        | Ok (Some r) => Ok (Some (toWire r m))
        end).

Definition VersionForJob (udid jobID : string) : stateM Manager (option string) :=
  rows ← reg (ListVersions udid);
  mret (match rows with
        | Err _ => None
        | Ok rows => ver_ID <$> head (filter (λ r, ver_JobID r = Some jobID) rows)
        end).

(** ** Preparing a job's work *)

Definition slot_of_job (jobID : string) : stateM Manager (result (Slot W)) :=
  gets (λ m, jobSlot (mg_slots m) (mg_jobStorage m) jobID).

(** The slot that a job writes to, with its backend. *)
Definition with_job_slot {A} (jobID : string)
    (k : Slot W → Backend W → stateM Manager (result A)) : stateM Manager (result A) :=
  r ← slot_of_job jobID;
  match r with
  | Err e => mret (Err e)
  | Ok s => match s_Backend s with Some b => k s b | None => mret (Err "no backend") end
  end.

Definition provisioned {A} (udid : string) (s : Slot W) (b : Backend W)
    (k : stateM Manager (result A)) : stateM Manager (result A) :=
  r ← disk (read_storage_marker (s_Root s));
  match preflight s r with
  | Some e => mret (Err e)
  | None =>
      e ← disk (b_Provision b udid);
      match e with Some e => mret (Err e) | None => k end
  end.

Definition Seed (udid jobID : string) : stateM Manager (result path) :=
  with_job_slot jobID (λ s b, provisioned udid s b (disk (b_WorkDir b udid jobID))).

Definition PrepareWork (udid jobID : string) : stateM Manager (result (path * bool)) :=
  with_job_slot jobID (λ s b, provisioned udid s b (disk (b_PrepareWork b udid jobID))).

Definition unit_result (e : error) : result unit :=
  match e with None => Ok tt | Some msg => Err msg end.

Definition SeedWork (udid jobID : string) : stateM Manager (result unit) :=
  with_job_slot jobID (λ s b, e ← disk (b_SeedWork b udid jobID); mret (unit_result e)).

Definition seedKind (s : Slot W) (udid : string) : stateM Manager string :=
  w ← disk (read_work_state (workSentinelFor (s_BackendName s) (s_Root s) udid));
  match w with
  | Ok (Some w) => mret (kindOf w)
  | _ =>
      rows ← reg (ListVersions udid);
      mret (match rows with
            | Ok rows =>
                if existsb (λ r, negb (ver_Missing r) && owns s (ver_StorageID r)) rows
                then "incremental" else "full"
            | Err _ => "full"
            end)
  end.

Definition VerifyWork (udid jobID : string) : stateM Manager VerifyResult :=
  r ← slot_of_job jobID;
  match r with
  | Err e => mret (failed_verify e)
  | Ok s =>
      match s_Backend s with
      | None => mret (failed_verify "no backend")
      | Some b => kind ← seedKind s udid; disk (verify_tree (b_TreePath b udid jobID) kind)
      end
  end.

Record VerifyReport : Type := mkVerifyReport {
  rp_VersionID : string; rp_UDID : string; rp_OK : bool; rp_Detail : string; rp_Kind : string;
  rp_Encrypted : bool; rp_TreePath : option path }.

(** The check of a committed version, where the registry says its tree is. *)
Definition VerifyVersion (id_ : string) : stateM Manager (option VerifyReport) :=
  row ← reg (GetVersion id_);
  match row with
  | Ok (Some row) =>
      let unlocated detail := mkVerifyReport id_ (ver_UDID row) false detail "" false None in
      if ver_Missing row then mret (Some (unlocated "version artifact is missing on disk"%string)) else
      slots ← gets mg_slots;
      match slotFor (ver_StorageID row) slots with
      | None => mret (Some (unlocated
          "version is not attributed to any configured storage — cannot locate its tree"%string))
      | Some slot =>
          match browseRoot (s_Root slot) (ver_UDID row) (ver_Backend row) (ver_ZFSSnapshot row)
                  (ver_IsLatest row) (ver_CreatedAt row) with
          | None => mret (Some (unlocated ("version has no snapshot recorded — its content cannot be located, "
              +:+ "and the live tree is not a version")))
          | Some tree =>
              r ← disk (verify_tree tree (ver_Kind row));
              mret (Some (mkVerifyReport id_ (ver_UDID row) (vr_OK r) (vr_Detail r) (vr_Kind r)
                (vr_Encrypted r) (Some tree)))
          end
      end
  | _ => mret None
  end.

Definition VerifyLatest (udid : string) : stateM Manager (option VerifyReport) :=
  rows ← reg (ListVersions udid);
  match rows with
  | Err _ => mret None
  | Ok rows =>
      match head (filter (λ r, ver_IsLatest r = true) rows) with
      | None => mret None
      | Some r => VerifyVersion (ver_ID r)
      end
  end.

Definition Discard (udid jobID : string) : stateM Manager (result string) :=
  with_job_slot jobID (λ s b,
    r ← disk (b_Discard b udid jobID);
    mret (match r with (note, None) => Ok note | (_, Some e) => Err e end)).

(** ** Deleting and pruning *)

Definition artifact (r : VersionRow) : Artifact :=
  mkArtifact (ver_UDID r) (ver_Backend r) (ver_ZFSSnapshot r)
    (mkMarker (ver_ID r) "" (ver_UDID r) "" (fmtRFC (ver_CreatedAt r)) "" false "" "" "")
    (ver_IsLatest r) 0.

Definition appendAudit (event detail : string) : stateM Manager unit :=
  i ← newID;
  now ← gets mg_now;
  _ ← reg (AppendAudit (mkAudit i now event detail));
  mret tt.

(** The artifact's removal: by the version's own storage, or not at all. *)
Definition remove_artifact (row : VersionRow) : stateM Manager (Z * error) :=
  slots ← gets mg_slots;
  match slotFor (ver_StorageID row) slots with
  | None => mret (StatusConflict, Some ("this version is not attributed to any configured storage, so quince cannot say "
      +:+ "which disk its data is on — refusing to delete rather than guessing"))
  | Some s =>
      match usable_backend s with
      | None => mret (StatusConflict, Some ("the storage holding this version is not reachable (" +:+ s_UnreachableCode s
          +:+ ") — plug it in and try again; "
          +:+ "quince will not remove the registry row while its artifact cannot be removed too"))
      | Some b =>
          e ← disk (b_DeleteArtifact b (artifact row));
          mret (match e with Some e => (StatusInternalServerError, Some e) | None => (0, None) end)
      end
  end.

Definition deleteVersion (id_ event : string) : stateM Manager (Z * error) :=
  row ← reg (GetVersion id_);
  match row with
  | Err e => mret (StatusInternalServerError, Some e)
  | Ok None => mret (StatusNotFound, Some "no such version"%string)
  | Ok (Some row) =>
      removed ← (if ver_Missing row then mret (0, None) else remove_artifact row);
      match removed with
      | (status, Some e) => mret (status, Some e)
      | (_, None) =>
          e ← reg (DeleteVersion id_);
          match e with
          | Some e => mret (StatusInternalServerError, Some e)
          | None =>
              appendAudit event (ver_UDID row +:+ " " +:+ id_ +:+ " deleted");;
              m ← gets id;
              publish (EventVersionDeleted (toWire row m));;
              mret (StatusAccepted, None)
          end
      end
  end.

Definition Delete (id_ : string) : stateM Manager (Z * error) := deleteVersion id_ "version.delete".

Fixpoint prune_versions (rows : list VersionRow) : stateM Manager error :=
  match rows with
  | [] => mret None
  | r :: rest =>
      d ← deleteVersion (ver_ID r) "version.prune";
      match d with
      | (status, Some e) => mret (Some ("prune " +:+ ver_ID r +:+ " (status " +:+ fmt_d status +:+ "): " +:+ e))
      | (_, None) => prune_versions rest
      end
  end.

Definition storage_key (r : VersionRow) : string := default ""%string (ver_StorageID r).

(** The rows of each storage, in the order of [rows]. *)
Definition by_storage (rows : list VersionRow) : gmap string (list VersionRow) :=
  foldl (λ m r, <[storage_key r := default [] (m !! storage_key r) ++ [r]]> m) ∅ rows.

Fixpoint prune_groups (groups : list (string * list VersionRow)) : stateM Manager error :=
  match groups with
  | [] => mret None
  | (key, group) :: rest =>
      slots ← gets mg_slots;
      match policyFor key slots with
      | None => prune_groups rest
      | Some policy =>
          e ← prune_versions (selectPrunable group policy);
          match e with Some e => mret (Some e) | None => prune_groups rest end
      end
  end.

Definition Prune (udid : string) : stateM Manager error :=
  rows ← reg (ListVersions udid);
  match rows with
  | Err e => mret (Some e)
  | Ok rows => prune_groups (range (by_storage rows))
  end.

(** ** Committing *)

Definition committed_row (s : Slot W) (c : Committed) : VersionRow :=
  mkVersionRow (co_VersionID c) (co_UDID c) (co_Backend c) (co_ZFSSnapshot c) (co_CreatedAt c)
    (co_JobID c) (co_Kind c) (co_Encrypted c) true (Some (co_StructureVerifiedAt c)) None
    (co_LogicalBytes c) false (slotIDPtr s).

Definition registerCommitted (s : Slot W) (c : Committed) : stateM Manager error :=
  e ← reg (InsertVersion (committed_row s c));
  match e with
  | Some e => mret (Some e)
  | None => reg (PromoteLatest (co_UDID c) (co_VersionID c) (slotIDPtr s))
  end.

Definition zero_VersionRow : VersionRow :=
  mkVersionRow "" "" "" None zero_time None "" false false None None 0 false None.

(** [row, _, _ := m.reg.GetVersion(id)]. *)
Definition get_row (id_ : string) : stateM Manager VersionRow :=
  r ← reg (GetVersion id_);
  mret (match r with Ok (Some row) => row | _ => zero_VersionRow end).

(** The commit while the lease is held. *)
Definition commit_leased (udid jobID : string) (s : Slot W) (b : Backend W) :
    stateM Manager (result Version) :=
  kind ← seedKind s udid;
  vr ← disk (verify_tree (b_TreePath b udid jobID) kind);
  if negb (vr_OK vr) then mret (Err ("storage: structural verification failed: " +:+ vr_Detail vr)) else
  i ← newID;
  now ← gets mg_now;
  c ← disk (b_Commit b (mkCommitReq udid jobID i now vr));
  match c with
  | Err e => mret (Err e)
  | Ok c =>
      e ← registerCommitted s c;
      match e with
      | Some e => mret (Err e)
      | None =>
          row ← get_row (co_VersionID c);
          m ← gets id;
          let v := toWire row m in
          publish (EventVersionCreated v);;
          _ ← Prune udid;
          mret (Ok v)
      end
  end.

(** [None]: the commit waits, as long as another actor holds the lease of this device. *)
Definition CommitJob (udid jobID : string) : stateM Manager (option (result Version)) :=
  r ← slot_of_job jobID;
  match r with
  | Err e => mret (Some (Err e))
  | Ok s =>
      match s_Backend s with
      | None => mret (Some (Err "no backend"))
      | Some b =>
          held ← gets (lease_held (s_StorageID s) udid);
          if held : bool then mret None
          else r ← commit_leased udid jobID s b; mret (Some r)
      end
  end.

(** ** Resetting a device's unfinished work *)

Definition nameList (ss : list (Slot W)) : string :=
  join ((λ s, s_Name s +:+ " (" +:+ s_StorageID s +:+ ")") <$> ss) ", ".

Definition notInspected (blind : list (Slot W)) : string :=
  match blind with
  | [] => ""
  | _ => " — NOT inspected, unreachable: "
         +:+ join ((λ s, s_Name s +:+ " (" +:+ s_UnreachableCode s +:+ ")") <$> blind) ", "
  end.

Definition repairOn (s : Slot W) (b : Backend W) (udid : string) : stateM Manager (Z * string) :=
  e ← disk (b_RepairWorkingCopy b udid);
  match e with
  | Some e => mret (StatusInternalServerError, "reset failed on storage " +:+ s_Name s +:+ ": " +:+ e)
  | None =>
      appendAudit "working.reset"
        ("udid=" +:+ udid +:+ " storage=" +:+ s_Name s +:+ " (" +:+ s_StorageID s +:+ ")");;
      mret (StatusAccepted, "discarded the unfinished backup on storage " +:+ s_Name s)
  end.

Definition is_dirty (udid : string) (w : W) (s : Slot W) : bool :=
  match usable_backend s with Some b => b_Dirty b udid w | None => false end.

Definition RepairWorking (udid storageID : string) : stateM Manager (Z * string) :=
  slots ← gets mg_slots;
  if negb (bool_decide (storageID = ""%string)) then
    match find_slot storageID slots with
    | None => mret (StatusNotFound, "no storage with that id is declared"%string)
    | Some s =>
        match usable_backend s with
        | None => mret (StatusConflict, unreachable_message s)
        | Some b => repairOn s b udid
        end
    end
  else
    w ← gets mg_world;
    let blind := filter (λ s, Usable s = false) slots in
    let dirty := filter (λ s, is_dirty udid w s = true) slots in
    match dirty with
    | [] => mret (StatusAccepted,
        "nothing to reset — no unfinished backup on any storage" +:+ notInspected blind)
    | [s] =>
        match usable_backend s with
        | None => mret (StatusInternalServerError, ""%string)
        | Some b =>
            r ← repairOn s b udid;
            mret (if bool_decide (r.1 = StatusAccepted) then (r.1, r.2 +:+ notInspected blind) else r)
        end
    | _ => mret (StatusConflict, fmt_d (Z.of_nat (length dirty))
        +:+ " storages have a working copy for this device — name one with `storage_id`: "
        +:+ nameList dirty +:+ notInspected blind)
    end.

Definition StorageIDByName (name : string) (m : Manager) : result string :=
  if bool_decide (name = ""%string) then Ok ""%string
  else match head (filter (λ s, s_Name s = name) (mg_slots m)) with
       | Some s => Ok (s_StorageID s)
       | None => Err ("no storage named " +:+ quote name +:+ " is declared")
       end.
End manager.

Arguments Manager : clear implicits.
