(* ===== verification/Reconcile.v ===== *)
(** * Reconcile: bringing the registry in line with the disks

    Models core/internal/storage/reconcile.go.  Roll-forward finishes the commits that a crash
    interrupted; the scan then adopts versions without a row, marks rows whose artifact is gone
    and recomputes which version of each storage is the latest.  Where the code ranges over a map,
    the order is [MapRange]'s: any order. [sort.Slice] is [sort_slice]. *)

From Stdlib Require Import String Ascii.
From S2P Require Import Prelude Calendar Domain Store Backend Slots FS Sidecars.
From S2P Require Import Verify Retention Manager.

Section reconcile.
Context {W : Type} `{!StorageWorld W, !MapRange, !SortSlice}.

Abbreviation M := (Manager W).

Definition usableSlots (slots : list (Slot W)) : list (Slot W) := filter (λ s, Usable s = true) slots.

(** The lease is free while [rollForward] and [reconcileDevice] hold it. *)
Definition register_resumed (s : Slot W) (c : Committed) : stateM M unit :=
  r ← reg (GetVersion (co_VersionID c));
  match r with
  | Ok (Some _) => mret tt
  | _ =>
      e ← registerCommitted s c;
      match e with
      | Some _ => mret tt
      | None =>
          row ← get_row (co_VersionID c);
          m ← gets id;
          publish (EventVersionCreated (toWire row m))
      end
  end.

Definition rollForward (s : Slot W) (b : Backend W) (j : Journal) : stateM M unit :=
  m ← gets id;
  if jobIsBound (mg_jobStorage m) (jn_JobID j) then mret tt
  else if lease_held (s_StorageID s) (jn_UDID j) m then mret tt
  else
    r ← disk (b_ResumeCommit b j);
    match r with
    | Ok (c, true) => register_resumed s c
    | _ => mret tt
    end.

Fixpoint roll_journals (s : Slot W) (b : Backend W) (js : list Journal) : stateM M error :=
  match js with
  | [] => mret None
  | j :: rest =>
      c ← ctx_cancelled;
      if c : bool then mret (Some "context canceled"%string)
      else rollForward s b j;; roll_journals s b rest
  end.

Fixpoint roll_slots (slots : list (Slot W)) : stateM M error :=
  match slots with
  | [] => mret None
  | s :: rest =>
      match usable_backend s with
      | None => roll_slots rest
      | Some b =>
          js ← disk (b_PendingJournals b);
          match js with
          | Err e => mret (Some e)
          | Ok js =>
              e ← roll_journals s b js;
              match e with Some e => mret (Some e) | None => roll_slots rest end
          end
      end
  end.

Definition RollForwardAll : stateM M error := slots ← gets mg_slots; roll_slots (usableSlots slots).

(** ** One device on one storage *)

(** The last artifact of an id wins, as in [onDisk[id] = a]. *)
Definition on_disk (arts : list Artifact) : gmap string Artifact :=
  foldl (λ m a, <[mk_VersionID (ar_Marker a) := a]> m) ∅ arts.

Definition by_id (rows : list VersionRow) : gmap string VersionRow :=
  foldl (λ m r, <[ver_ID r := r]> m) ∅ rows.

(** Attribution: a row without a storage whose artifact is here gets this one's id. *)
Fixpoint attribute_rows (mine : string) (disk_ : gmap string Artifact)
    (l : list (string * VersionRow)) : stateM M (list (string * VersionRow)) :=
  match l with
  | [] => mret []
  | (id_, r) :: rest =>
      r' ← (if bool_decide (ver_StorageID r = None) && bool_decide (is_Some (disk_ !! id_)) then
              e ← reg (AttributeVersion id_ mine);
              mret (match e with None => set_storage (Some mine) r | Some _ => r end)
            else mret r);
      rest' ← attribute_rows mine disk_ rest;
      mret ((id_, r') :: rest')
  end.

Definition adopted_row (s : Slot W) (udid : string) (a : Artifact) : VersionRow :=
  mkVersionRow (mk_VersionID (ar_Marker a)) udid (ar_Backend a) (ar_ZFSSnapshot a)
    (default zero_time (parse_rfc3339 (mk_CreatedAt (ar_Marker a)))) None (mk_Kind (ar_Marker a))
    (mk_Encrypted (ar_Marker a)) (ar_IsLatest a)
    (parse_rfc3339 (mk_StructureVerifiedAt (ar_Marker a))) None (ar_LogicalBytes a) false (slotIDPtr s).

Definition adopt (s : Slot W) (udid : string) (a : Artifact) : stateM M unit :=
  let row := adopted_row s udid a in
  e ← reg (InsertVersion row);
  match e with
  | Some _ => mret tt
  | None => m ← gets id; publish (EventVersionCreated (toWire row m))
  end.

(** Adopt artifacts without any row; clear [missing] where an artifact is back. *)
Fixpoint adopt_or_clear (s : Slot W) (udid : string) (rows in_reg : gmap string VersionRow)
    (l : list (string * Artifact)) : stateM M error :=
  match l with
  | [] => mret None
  | (id_, a) :: rest =>
      match in_reg !! id_ with
      | None =>
          (if bool_decide (is_Some (rows !! id_)) then mret tt else adopt s udid a);;
          adopt_or_clear s udid rows in_reg rest
      | Some r =>
          if ver_Missing r then
            e ← reg (MarkVersionMissing id_ false);
            match e with Some e => mret (Some e) | None => adopt_or_clear s udid rows in_reg rest end
          else adopt_or_clear s udid rows in_reg rest
      end
  end.

Fixpoint mark_vanished (disk_ : gmap string Artifact) (l : list (string * VersionRow)) : stateM M error :=
  match l with
  | [] => mret None
  | (id_, r) :: rest =>
      if bool_decide (disk_ !! id_ = None) && negb (ver_Missing r) then
        e ← reg (MarkVersionMissing id_ true);
        match e with Some e => mret (Some e) | None => mark_vanished disk_ rest end
      else mark_vanished disk_ rest
  end.

Definition newest_first (a b : VersionRow) : Prop := ver_CreatedAt b ≤ ver_CreatedAt a.
#[global] Instance newest_first_dec : RelDecision newest_first.
Proof. intros a b. unfold newest_first. apply _. Defined.

(** The first of each storage's rows. *)
Fixpoint group_heads (promoted : list (option string)) (rows : list VersionRow) : list VersionRow :=
  match rows with
  | [] => []
  | r :: rest =>
      if bool_decide (ver_StorageID r ∈ promoted) then group_heads promoted rest
      else r :: group_heads (ver_StorageID r :: promoted) rest
  end.

Fixpoint promote_all (udid : string) (rows : list VersionRow) : stateM M error :=
  match rows with
  | [] => mret None
  | r :: rest =>
      e ← reg (PromoteLatest udid (ver_ID r) (ver_StorageID r));
      match e with Some e => mret (Some e) | None => promote_all udid rest end
  end.

Definition recomputeLatest (udid : string) : stateM M error :=
  rows ← reg (ListVersions udid);
  match rows with
  | Err e => mret (Some e)
  | Ok rows =>
      let present := sort_slice newest_first (filter (λ r, ver_Missing r = false) rows) in
      promote_all udid (group_heads [] present)
  end.

(** The repair of a device while its lease is held, once its artifacts and rows are known. *)
Definition repair_device (s : Slot W) (udid : string) (arts : list Artifact) (rows : list VersionRow) :
    stateM M error :=
  let disk_ := on_disk arts in
  let before := range (by_id rows) in
  attributed ← (match slotIDPtr s with
                | Some mine => attribute_rows mine disk_ before
                | None => mret before
                end);
  let rows' : gmap string VersionRow := list_to_map attributed in
  let in_reg := filter (λ kv : string * VersionRow, owns s (ver_StorageID kv.2) = true) rows' in
  e ← adopt_or_clear s udid rows' in_reg (range disk_);
  match e with
  | Some e => mret (Some e)
  | None =>
      e ← mark_vanished disk_ (range in_reg);
      match e with Some e => mret (Some e) | None => recomputeLatest udid end
  end.

Definition reconcileDevice (s : Slot W) (b : Backend W) (udid : string) : stateM M (bool * error) :=
  m ← gets id;
  if negb (bool_decide (JobsOnDevice (mg_jobStorage m) (s_StorageID s) udid = [])) then mret (true, None)
  else if lease_held (s_StorageID s) udid m then mret (true, None)
  else
    arts ← disk (b_Scan b udid);
    match arts with
    | Err e => mret (false, Some e)
    | Ok arts =>
        rows ← reg (ListVersions udid);
        match rows with
        | Err e => mret (false, Some e)
        | Ok rows =>
            e ← repair_device s udid arts rows;
            match e with
            | Some e => mret (false, Some e)
            | None => e ← disk (b_SweepWork b udid); mret (false, e)
            end
        end
    end.

(** ** The pass *)

Fixpoint read_roots (slots : list (Slot W)) : stateM M (list string) :=
  match slots with
  | [] => mret []
  | s :: rest =>
      es ← disk (read_dir_names (s_Root s));
      more ← read_roots rest;
      mret ((fst <$> filter (λ e, e.2 = true ∧ validUDID e.1 = true) (default [] es)) ++ more)
  end.

Definition reconcileUDIDs : stateM M (list string) :=
  rows ← reg (ListVersions "");
  slots ← gets mg_slots;
  dirs ← read_roots (usableSlots slots);
  let known := match rows with Ok rows => ver_UDID <$> rows | Err _ => [] end in
  mret (merge_sort str_le (remove_dups (known ++ dirs))).

(** [Ok deferred], or the error of a cancelled pass with what was deferred until then. *)
Fixpoint scan_devices (s : Slot W) (b : Backend W) (udids : list string) :
    stateM M (list string * error) :=
  match udids with
  | [] => mret ([], None)
  | udid :: rest =>
      c ← ctx_cancelled;
      if c : bool then mret ([], Some "context canceled"%string) else
      r ← reconcileDevice s b udid;
      more ← scan_devices s b rest;
      mret ((if r.1 : bool then [s_Name s +:+ "/" +:+ udid] else []) ++ more.1, more.2)
  end.

Fixpoint scan_slots (slots : list (Slot W)) : stateM M (list string * error) :=
  match slots with
  | [] => mret ([], None)
  | s :: rest =>
      m ← gets id;
      match usable_backend s with
      | Some b =>
          if negb (stillDeclared (s_Name s) (mg_slots m)) then scan_slots rest else
          udids ← reconcileUDIDs;
          r ← scan_devices s b udids;
          match r with
          | (deferred, Some e) => mret (deferred, Some e)
          | (deferred, None) =>
              more ← scan_slots rest; mret (deferred ++ more.1, more.2)
          end
      | None => scan_slots rest
      end
  end.

Definition ReconcileScan : stateM M (list string * error) :=
  slots ← gets mg_slots; scan_slots (usableSlots slots).

Definition Reconcile : stateM M (list string * error) :=
  e ← RollForwardAll;
  match e with Some e => mret ([], Some e) | None => ReconcileScan end.
End reconcile.
