(* ===== verification/ReconcileSafety.v ===== *)
(** * ReconcileSafety: what reconciliation does to the registry

    Theorems about [reconcileDevice].  The repair of a device is, row by row, the function
    [repaired]; a statement that fails leaves its row as it was.  No row is ever dropped, no other
    device's row is touched, and after a pass without failures every storage that has a present
    version has exactly one latest version, its newest. *)

From Stdlib Require Import String Ascii.
From S2P Require Import Prelude Calendar Domain Store Backend Slots FS Sidecars.
From S2P Require Import Verify Retention Manager Reconcile.

Abbreviation rows_map := (gmap string VersionRow).

(** A change [F] of the rows, of which a statement's failure may leave out rows. *)
Definition may_apply (healthy : Prop) (F : rows_map → rows_map) (V V' : rows_map) : Prop :=
  ∀ id_, V' !! id_ = F V !! id_ ∨ ¬ healthy ∧ V' !! id_ = V !! id_.

(** ** The registry as the manager sees it *)

Section registry.
Context {W : Type} `{!StorageWorld W, !MapRange, !SortSlice}.

Abbreviation M := (Manager W).

Definition vers (m : M) : rows_map := db_versions (mg_db m).
Definition jobs (m : M) : gmap string JobRow := db_jobs (mg_db m).
Definition healthy (m : M) : Prop := db_faults (mg_db m) = [].

(** What one step of a loop keeps: the jobs, and the health of the registry. *)
Definition keeps (m m' : M) : Prop := jobs m' = jobs m ∧ (healthy m → healthy m').

#[global] Typeclasses Opaque keeps.
#[global] Instance keeps_refl : Reflexive keeps.
Proof. by intros m. Qed.
#[global] Instance keeps_trans : Transitive keeps.
Proof. intros a b c [H1 H2] [H3 H4]. split; [by rewrite H3|auto]. Qed.

Lemma wp_reg_changes (op : stateM DB error) (f : rows_map → rows_map) Q (m : M) :
  (op = exec (λ d, (None, with_versions f d))) →
  (∀ m', keeps m m' → vers m' = f (vers m) → Q None m') →
  (∀ e m', keeps m m' → vers m' = vers m → ¬ healthy m → Q (Some e) m') →
  wp (reg op) Q m.
Proof.
  intros -> HN HS. apply wp_lift. unfold wp, exec, statement, keeps, healthy, vers, jobs in *.
  destruct (db_faults (mg_db m)) as [|[] fs] eqn:Hf; simpl.
  - by apply HN.
  - by apply HS.
  - by apply HN.
Qed.

Lemma wp_reg_insert v Q (m : M) :
  (∀ m', keeps m m' → vers m !! ver_ID v = None → vers m' = <[ver_ID v := store_version v]> (vers m) → Q None m') →
  (∀ e m', keeps m m' → vers m' = vers m → ¬ healthy m ∨ is_Some (vers m !! ver_ID v) → Q (Some e) m') →
  wp (reg (InsertVersion v)) Q m.
Proof.
  intros HN HS. apply wp_lift. unfold wp, InsertVersion, exec, statement, keeps, healthy, vers, jobs in *.
  destruct (db_faults (mg_db m)) as [|[] fs] eqn:Hf; simpl; [|by apply HS; auto|];
    destruct (db_versions (mg_db m) !! ver_ID v) eqn:Hl; simpl; [apply HS| apply HN|apply HS|apply HN];
    simpl; rewrite ?Hf; try done; right; eauto.
Qed.

Lemma wp_reg_list udid Q (m : M) :
  (∀ m', keeps m m' → vers m' = vers m →
     Q (Ok (filter (λ v, udid = "" ∨ ver_UDID v = udid) (versions_desc (mg_db m)))) m') →
  (∀ e m', keeps m m' → vers m' = vers m → ¬ healthy m → Q (Err e) m') →
  wp (reg (ListVersions udid)) Q m.
Proof.
  intros HN HS. apply wp_lift. unfold wp, ListVersions, statement, keeps, healthy, vers, jobs in *.
  destruct (db_faults (mg_db m)) as [|[] fs] eqn:Hf; simpl; [by apply HN|by apply HS|by apply HN].
Qed.

Lemma wp_disk {A} (f : stateM W A) Q (m : M) :
  Q (f (mg_world m)).1 (set_world (f (mg_world m)).2 m) → wp (disk f) Q m.
Proof. intros HQ. by apply wp_lift. Qed.
End registry.

(** ** The rows of a device *)

Lemma elem_of_versions_desc d v : v ∈ versions_desc d ↔ ∃ k, db_versions d !! k = Some v.
Proof.
  unfold versions_desc. rewrite (merge_sort_Permutation version_desc), list_elem_of_fmap. split.
  - intros ([k r] & -> & H%elem_of_map_to_list). eauto.
  - intros [k H]. exists (k, v). split; [done|]. by apply elem_of_map_to_list.
Qed.

Lemma versions_desc_nodup d : db_ok d → NoDup (ver_ID <$> versions_desc d).
Proof.
  intros [_ Hv]. unfold versions_desc. rewrite (merge_sort_Permutation version_desc), <-list_fmap_compose.
  rewrite (list_fmap_ext (ver_ID ∘ snd) fst (map_to_list (db_versions d))); [apply NoDup_fst_map_to_list|].
  intros i [k r] Hi%list_elem_of_lookup_2. apply elem_of_map_to_list in Hi. by apply Hv in Hi.
Qed.

Definition device_rows (udid : string) (d : DB) : list VersionRow :=
  filter (λ v, udid = "" ∨ ver_UDID v = udid) (versions_desc d).

Lemma elem_of_device_rows udid d v : udid ≠ ""%string → db_ok d →
  v ∈ device_rows udid d ↔ db_versions d !! ver_ID v = Some v ∧ ver_UDID v = udid.
Proof.
  intros Hu [_ Hv]. unfold device_rows. rewrite list_elem_of_filter, elem_of_versions_desc. split.
  - intros [[?|?] [k Hk]]; [done|]. pose proof (Hv _ _ Hk) as <-. done.
  - intros [? ?]. eauto.
Qed.

Lemma foldl_insert_lookup {A B} (key : A → string) (val : A → B) (l : list A) (m : gmap string B) k :
  foldl (λ m a, <[key a := val a]> m) m l !! k =
  match last (filter (λ a, key a = k) l) with Some a => Some (val a) | None => m !! k end.
Proof.
  revert m. induction l as [|a l IH]; intros m; [done|]. simpl. rewrite IH, filter_cons.
  case_decide as Ha.
  - rewrite last_cons. destruct (last (filter _ l)); [done|]. by rewrite Ha, lookup_insert_eq.
  - destruct (last (filter _ l)); [done|]. by rewrite lookup_insert_ne.
Qed.

Lemma by_id_lookup (l : list VersionRow) k r :
  NoDup (ver_ID <$> l) → by_id l !! k = Some r ↔ r ∈ l ∧ ver_ID r = k.
Proof.
  intros Hn. unfold by_id. rewrite (foldl_insert_lookup ver_ID id), lookup_empty. unfold id. split.
  - destruct (last _) as [a|] eqn:Hl; [|done]. intros [= <-]. apply last_Some in Hl as [l' Hl].
    assert (a ∈ filter (λ a, ver_ID a = k) l) as Ha by (rewrite Hl, elem_of_app, list_elem_of_singleton; auto).
    apply list_elem_of_filter in Ha as [??]. done.
  - intros [Hr Hk]. assert (r ∈ filter (λ a, ver_ID a = k) l) as Hin by by apply list_elem_of_filter.
    destruct (last _) as [a|] eqn:Hl.
    + apply last_Some in Hl as [l' Hl].
      assert (a ∈ filter (λ a, ver_ID a = k) l) as Ha by (rewrite Hl, elem_of_app, list_elem_of_singleton; auto).
      apply list_elem_of_filter in Ha as [? Ha]. f_equal. eapply (nodup_fmap_eq ver_ID); eauto; congruence.
    + apply last_None in Hl. rewrite Hl in Hin. by apply elem_of_nil in Hin.
Qed.

(** ** The phases of a repair *)

Section phases.
Context {W : Type} `{!StorageWorld W, !MapRange, !SortSlice}.
Context (s : Slot W) (udid : string) (disk_ : gmap string Artifact).

Definition scanned (id_ : string) : bool := bool_decide (is_Some (disk_ !! id_)).

(** The version rows of the device that this storage owns. *)
Definition mine (v : VersionRow) : bool :=
  bool_decide (ver_UDID v = udid) && owns s (ver_StorageID v).

Definition attributed (v : VersionRow) : VersionRow :=
  if bool_decide (ver_UDID v = udid ∧ ver_StorageID v = None) && scanned (ver_ID v)
  then set_storage (slotIDPtr s) v else v.

Definition cleared (v : VersionRow) : VersionRow :=
  if mine v && scanned (ver_ID v) then set_missing false v else v.

Definition vanished (v : VersionRow) : VersionRow :=
  if mine v && negb (scanned (ver_ID v)) then set_missing true v else v.

(** Adoption: an artifact whose id has no row at all. *)
Definition adopted (V : rows_map) : rows_map :=
  V ∪ ((λ a, store_version (adopted_row s udid a)) <$> disk_).

Definition repaired (V : rows_map) : rows_map := vanished <$> adopted (cleared <$> (attributed <$> V)).

Lemma set_missing_same v : set_missing (ver_Missing v) v = v.
Proof. by destruct v. Qed.
Lemma set_storage_same v : set_storage (ver_StorageID v) v = v.
Proof. by destruct v. Qed.
Lemma set_latest_same v : set_latest (ver_IsLatest v) v = v.
Proof. by destruct v. Qed.

(** A loop over some rows: [F] on each of them, the others as they were. *)
Definition applied (P : Prop) (ids : list string) (F : rows_map → rows_map) (V V' : rows_map) : Prop :=
  ∀ id_, id_ ∈ ids ∧ V' !! id_ = F V !! id_ ∨ (id_ ∈ ids → ¬ P) ∧ V' !! id_ = V !! id_.

Lemma attribute_rows_spec mine_ l (m : Manager W) :
  slotIDPtr s = Some mine_ → NoDup l.*1 →
  (∀ k r, (k, r) ∈ l → vers m !! k = Some r ∧ ver_UDID r = udid ∧ ver_ID r = k) →
  wp (attribute_rows mine_ disk_ l) (λ l' m', keeps m m' ∧ l'.*1 = l.*1 ∧
    (∀ k r, (k, r) ∈ l' → vers m' !! k = Some r) ∧
    applied (healthy m) l.*1 (fmap attributed) (vers m) (vers m')) m.
Proof.
  intros Hs. revert m. induction l as [|[k r] l IH]; intros m Hn Hl; cbn [attribute_rows].
  { apply wp_ret. split; [done|]. split; [done|]. split; [by intros ?? ?%elem_of_nil|].
    intros id_. right. split; [by intros ?%elem_of_nil|done]. }
  cbn [fmap list_fmap fst] in Hn. apply NoDup_cons in Hn as [Hk Hn].
  destruct (Hl k r) as (Hr & Hu & Hid); [apply elem_of_cons; auto|].
  apply wp_bind.
  assert (wp (if bool_decide (ver_StorageID r = None) && bool_decide (is_Some (disk_ !! k)) then
              e ← reg (AttributeVersion k mine_);
              mret (match e with None => set_storage (Some mine_) r | Some _ => r end)
            else mret r)
    (λ r' m', keeps m m' ∧ (∀ j, j ≠ k → vers m' !! j = vers m !! j) ∧ vers m' !! k = Some r' ∧
       (r' = attributed r ∨ ¬ healthy m ∧ r' = r)) m) as Hstep.
  { unfold attributed, scanned. rewrite Hu, Hid, Hs. case_bool_decide as Hst; case_bool_decide as Hd.
    2-4: apply wp_ret; rewrite ?andb_false_r; rewrite ?(bool_decide_false (udid = udid ∧ _)) by tauto;
         split; [done|]; auto.
    rewrite (bool_decide_true (_ ∧ _)) by done. simpl. apply wp_bind.
    eapply wp_reg_changes; [reflexivity|..].
    - intros m' Hk' HV. apply wp_ret. rewrite HV. split; [done|].
      split; [intros j Hj; by rewrite lookup_alter_ne|].
      split; [by rewrite lookup_alter_eq, Hr; simpl; rewrite Hst|auto].
    - intros e m' Hk' HV Hh. apply wp_ret. rewrite HV. auto 10. }
  eapply wp_mono; [exact Hstep|]. clear Hstep. intros r' m1 (Hk1 & Hoth & Hr1 & Hr').
  apply wp_bind. eapply wp_mono.
  { apply (IH m1 Hn). intros j q Hq. destruct (Hl j q) as (? & ? & ?); [apply elem_of_cons; auto|].
    rewrite Hoth; [done|]. intros ->. apply Hk. apply list_elem_of_fmap. by exists (k, q). }
  intros l' m2 (Hk2 & Hfst & Hsnap & Happ). apply wp_ret.
  assert (vers m2 !! k = vers m1 !! k) as Hk12.
  { destruct (Happ k) as [[? _]|[_ ?]]; done. }
  split; [by etrans|]. split; [by rewrite !fmap_cons, Hfst|]. split.
  - intros j q [[= -> ->]|Hq]%elem_of_cons; [by rewrite Hk12|by apply Hsnap].
  - intros id_. destruct (decide (id_ = k)) as [->|Hne].
    + rewrite Hk12, Hr1, lookup_fmap, Hr. simpl. destruct Hr' as [->|[Hh ->]]; [left|right].
      * split; [apply elem_of_cons; auto|done].
      * split; [auto|done].
    + destruct (Happ id_) as [[Hin He]|[Hh He]]; [left|right].
      * split; [apply elem_of_cons; auto|]. by rewrite He, !lookup_fmap, Hoth.
      * split; [|by rewrite He, Hoth]. intros [?|Hin]%elem_of_cons; [done|].
        intros Hm. apply (Hh Hin). by apply Hk1.
Qed.

Lemma adopt_spec a (m : Manager W) :
  let k := mk_VersionID (ar_Marker a) in
  wp (adopt s udid a) (λ _ m', keeps m m' ∧ (∀ j, j ≠ k → vers m' !! j = vers m !! j) ∧
    (vers m' !! k = vers m !! k ∪ Some (store_version (adopted_row s udid a)) ∨
     ¬ healthy m ∧ vers m' !! k = vers m !! k)) m.
Proof.
  intros k. unfold adopt. apply wp_bind. apply wp_reg_insert.
  - intros m' Hk HV HV'. apply wp_bind, wp_gets, wp_modify.
    match goal with |- keeps _ ?x ∧ _ => assert (vers x = vers m') as -> by done end.
    split; [done|]. rewrite HV'.
    split; [intros j Hj; by rewrite lookup_insert_ne|]. left.
    change (ver_ID (adopted_row s udid a)) with k in *. by rewrite lookup_insert_eq, HV.
  - intros e m' Hk HV Hex. apply wp_ret. rewrite HV. split; [done|]. split; [done|].
    change (ver_ID (adopted_row s udid a)) with k in *.
    destruct Hex as [Hh|[v Hv]]; [auto|]. left. by rewrite Hv.
Qed.

(** The rows that the scan may speak about: this device's, of this storage. *)
Lemma adopt_or_clear_spec rows in_reg l (m : Manager W) :
  (∀ k v, vers m !! k = Some v → ver_ID v = k) → NoDup l.*1 →
  (∀ k a, (k, a) ∈ l → disk_ !! k = Some a ∧ mk_VersionID (ar_Marker a) = k) →
  (∀ k, k ∈ l.*1 → rows !! k = None → vers m !! k = None ∨ ∃ v, vers m !! k = Some v ∧ ver_UDID v ≠ udid) →
  (∀ k r, k ∈ l.*1 → rows !! k = Some r → vers m !! k = Some r ∧ ver_UDID r = udid) →
  in_reg = filter (λ kv : string * VersionRow, owns s (ver_StorageID kv.2) = true) rows →
  wp (adopt_or_clear s udid rows in_reg l) (λ e m', keeps m m' ∧ (is_Some e → ¬ healthy m) ∧
    applied (healthy m) l.*1 (λ V, adopted (cleared <$> V)) (vers m) (vers m')) m.
Proof.
  intros Hkey Hn Hl Hno Hyes ->. revert m Hkey Hn Hl Hno Hyes.
  induction l as [|[k a] l IH]; intros m Hkey Hn Hl Hno Hyes; cbn [adopt_or_clear].
  { apply wp_ret. split; [done|]. split; [by intros [? ?]|].
    intros id_. right. split; [by intros ?%elem_of_nil|done]. }
  rewrite fmap_cons in *. cbn [fst] in *. apply NoDup_cons in Hn as [Hk Hn].
  destruct (Hl k a) as [Hd Ha]; [apply elem_of_cons; auto|].
  (* one step, then the rest *)
  assert (∀ m1, keeps m m1 → (∀ j, j ≠ k → vers m1 !! j = vers m !! j) →
    (vers m1 !! k = adopted (cleared <$> vers m) !! k ∨ ¬ healthy m ∧ vers m1 !! k = vers m !! k) →
    (∀ v, vers m1 !! k = Some v → ver_ID v = k) →
    wp (adopt_or_clear s udid rows (filter (λ kv, owns s (ver_StorageID kv.2) = true) rows) l)
      (λ e m', keeps m m' ∧ (is_Some e → ¬ healthy m) ∧
        applied (healthy m) (k :: l.*1) (λ V, adopted (cleared <$> V)) (vers m) (vers m')) m1) as Hrest.
  { intros m1 Hk1 Hoth Hstep Hkey1. eapply wp_mono.
    - apply (IH m1); try done.
      + intros j v Hv. destruct (decide (j = k)) as [->|?]; [by apply Hkey1|].
        rewrite Hoth in Hv by done. by apply Hkey.
      + intros j b Hj. apply Hl, elem_of_cons. auto.
      + intros j Hj. rewrite Hoth by (by intros ->). apply Hno, elem_of_cons. auto.
      + intros j r Hj. rewrite Hoth by (by intros ->). apply Hyes, elem_of_cons. auto.
    - intros e m2 (Hk2 & He & Happ). split; [by etrans|]. split.
      { intros ? ?. apply He; [done|]. by apply Hk1. }
      intros id_. destruct (decide (id_ = k)) as [->|Hne].
      + assert (vers m2 !! k = vers m1 !! k) as -> by (destruct (Happ k) as [[? _]|[_ ?]]; done).
        destruct Hstep as [Hs|[Hh Hs]]; [left|right]; (split; [|done]); [apply elem_of_cons; auto|done].
      + destruct (Happ id_) as [[Hin He']|[Hh He']]; [left|right].
        * split; [apply elem_of_cons; auto|]. rewrite He'. unfold adopted.
          by rewrite !lookup_union, !lookup_fmap, Hoth.
        * split; [|by rewrite He', Hoth]. intros [?|Hin]%elem_of_cons; [done|].
          intros Hm. apply (Hh Hin). by apply Hk1. }
  assert (adopted (cleared <$> vers m) !! k =
    (cleared <$> vers m !! k) ∪ Some (store_version (adopted_row s udid a))) as Hgoal.
  { unfold adopted. by rewrite lookup_union, !lookup_fmap, Hd. }
  rewrite map_lookup_filter. destruct (rows !! k) as [r|] eqn:Hr; simpl.
  - destruct (Hyes k r) as [Hv Hu]; [apply elem_of_cons; auto|done|].
    assert (Hid := Hkey k r Hv).
    assert (cleared r = if owns s (ver_StorageID r) then set_missing false r else r) as Hc.
    { unfold cleared, mine, scanned. rewrite Hid, Hd, (bool_decide_true (is_Some _)) by eauto.
      rewrite bool_decide_true, andb_true_r by done. done. }
    assert (vers m !! k = adopted (cleared <$> vers m) !! k →
      wp (adopt_or_clear s udid rows (filter (λ kv, owns s (ver_StorageID kv.2) = true) rows) l)
      (λ e m', keeps m m' ∧ (is_Some e → ¬ healthy m) ∧
        applied (healthy m) (k :: l.*1) (λ V, adopted (cleared <$> V)) (vers m) (vers m')) m) as Hskip.
    { intros He. apply (Hrest m); [done|done|by left|]. intros v Hv'. by apply Hkey. }
    destruct (owns s (ver_StorageID r)) eqn:Ho; simpl.
    + destruct (ver_Missing r) eqn:Hm.
      * apply wp_bind. eapply wp_reg_changes; [reflexivity|..].
        -- intros m' Hk' HV. apply Hrest; [done|..].
           ++ intros j Hj. by rewrite HV, lookup_alter_ne.
           ++ left. rewrite HV, lookup_alter_eq, Hgoal, Hv. simpl. by rewrite Hc.
           ++ rewrite HV, lookup_alter_eq, Hv. intros v [= <-]. done.
        -- intros e m' Hk' HV Hh. apply wp_ret. split; [done|]. split; [done|].
           intros id_. right. by rewrite HV.
      * apply Hskip. rewrite Hgoal, Hv. simpl. by rewrite Hc, <-Hm, set_missing_same.
    + apply wp_bind, wp_ret, Hskip. rewrite Hgoal, Hv. simpl. by rewrite Hc.
  - apply wp_bind.
    eapply wp_mono; [apply adopt_spec|]. cbv zeta. rewrite Ha. intros _ m1 (Hk1 & Hoth & Hstep).
    assert (vers m !! k ∪ Some (store_version (adopted_row s udid a)) = adopted (cleared <$> vers m) !! k) as He.
    { rewrite Hgoal. destruct (Hno k) as [->|(v & -> & Hu)]; [apply elem_of_cons; auto|done|done|].
      simpl. f_equal. unfold cleared, mine. by rewrite bool_decide_false. }
    apply Hrest; [done|done|by rewrite <-He|].
    destruct Hstep as [->|[_ ->]]; [|by apply Hkey]. intros v.
    destruct (vers m !! k) eqn:Hv; simpl; [by intros [= <-]; apply Hkey|]. by intros [= <-].
Qed.

Lemma mark_vanished_spec l (m : Manager W) :
  NoDup l.*1 →
  (∀ k r, (k, r) ∈ l → ver_ID r = k ∧ mine r = true ∧ (disk_ !! k = None → vers m !! k = Some r)
     ∧ (is_Some (disk_ !! k) → ∃ v, vers m !! k = Some v ∧ ver_ID v = k)) →
  wp (mark_vanished disk_ l) (λ e m', keeps m m' ∧ (is_Some e → ¬ healthy m) ∧
    applied (healthy m) l.*1 (fmap vanished) (vers m) (vers m')) m.
Proof.
  revert m. induction l as [|[k r] l IH]; intros m Hn Hl; cbn [mark_vanished].
  { apply wp_ret. split; [done|]. split; [by intros [? ?]|].
    intros id_. right. split; [by intros ?%elem_of_nil|done]. }
  rewrite fmap_cons in *. cbn [fst] in *. apply NoDup_cons in Hn as [Hk Hn].
  destruct (Hl k r) as (Hid & Hm & Hno & Hyes); [apply elem_of_cons; auto|].
  assert (∀ m1, keeps m m1 → (∀ j, j ≠ k → vers m1 !! j = vers m !! j) →
    vers m1 !! k = vanished <$> vers m !! k →
    wp (mark_vanished disk_ l) (λ e m', keeps m m' ∧ (is_Some e → ¬ healthy m) ∧
      applied (healthy m) (k :: l.*1) (fmap vanished) (vers m) (vers m')) m1) as Hrest.
  { intros m1 Hk1 Hoth Hstep. eapply wp_mono.
    - apply (IH m1); [done|]. intros j q Hj. rewrite Hoth; [by apply Hl, elem_of_cons; auto|].
      intros ->. apply Hk, list_elem_of_fmap. by exists (k, q).
    - intros e m2 (Hk2 & He & Happ). split; [by etrans|]. split.
      { intros ? ?. apply He; [done|]. by apply Hk1. }
      intros id_. destruct (decide (id_ = k)) as [->|Hne].
      + assert (vers m2 !! k = vers m1 !! k) as -> by (destruct (Happ k) as [[? _]|[_ ?]]; done).
        left. split; [apply elem_of_cons; auto|]. by rewrite lookup_fmap.
      + destruct (Happ id_) as [[Hin He']|[Hh He']]; [left|right].
        * split; [apply elem_of_cons; auto|]. by rewrite He', !lookup_fmap, Hoth.
        * split; [|by rewrite He', Hoth]. intros [?|Hin]%elem_of_cons; [done|].
          intros Hm'. apply (Hh Hin). by apply Hk1. }
  case_bool_decide as Hd; simpl.
  - specialize (Hno Hd). assert (vanished r = set_missing true r) as Hv.
    { unfold vanished, scanned. by rewrite Hm, Hid, Hd. }
    destruct (ver_Missing r) eqn:Hmiss; simpl.
    + apply Hrest; [done|done|]. rewrite Hno. simpl. by rewrite Hv, <-Hmiss, set_missing_same.
    + apply wp_bind. eapply wp_reg_changes; [reflexivity|..].
      * intros m' Hk' HV. apply Hrest; [done|..].
        -- intros j Hj. by rewrite HV, lookup_alter_ne.
        -- rewrite HV, lookup_alter_eq, Hno. simpl. by rewrite Hv.
      * intros e m' Hk' HV Hh. apply wp_ret. split; [done|]. split; [done|].
        intros id_. right. by rewrite HV.
  - assert (is_Some (disk_ !! k)) as Hd' by by apply not_eq_None_Some.
    destruct (Hyes Hd') as (v & Hv & Hv').
    apply Hrest; [done|done|]. rewrite Hv. simpl. unfold vanished, scanned.
    by rewrite Hv', bool_decide_true, andb_false_r.
Qed.
End phases.

(** ** The latest version of each storage *)

Lemma group_heads_sub promoted rows h : h ∈ group_heads promoted rows → h ∈ rows ∧ ver_StorageID h ∉ promoted.
Proof.
  revert promoted. induction rows as [|r rows IH]; intros pr; simpl; [by intros ?%elem_of_nil|].
  case_bool_decide as Hr.
  - intros [? ?]%IH. rewrite elem_of_cons. auto.
  - rewrite !elem_of_cons. intros [->|[? Hn]%IH]; [auto|]. rewrite elem_of_cons in Hn. tauto.
Qed.

Lemma group_heads_nodup promoted rows : NoDup (ver_StorageID <$> group_heads promoted rows).
Proof.
  revert promoted. induction rows as [|r rows IH]; intros pr; simpl; [constructor|].
  case_bool_decide as Hr; [done|]. rewrite fmap_cons. constructor; [|done].
  intros (h & Hh & [_ Hn]%group_heads_sub)%list_elem_of_fmap. rewrite elem_of_cons in Hn. auto.
Qed.

Lemma group_heads_first promoted rows r :
  StronglySorted newest_first rows → r ∈ rows → ver_StorageID r ∉ promoted →
  ∃ h, h ∈ group_heads promoted rows ∧ ver_StorageID h = ver_StorageID r ∧ ver_CreatedAt r ≤ ver_CreatedAt h.
Proof.
  revert promoted. induction rows as [|q rows IH]; intros pr Hs Hr Hn; simpl; [by apply elem_of_nil in Hr|].
  apply StronglySorted_inv in Hs as [Hs Hq]. rewrite Forall_forall in Hq.
  apply elem_of_cons in Hr as [->|Hr].
  - rewrite bool_decide_false by done. exists q. rewrite elem_of_cons. auto with lia.
  - case_bool_decide as Hpr; [by apply IH|].
    destruct (decide (ver_StorageID r = ver_StorageID q)) as [He|He].
    + exists q. rewrite elem_of_cons. split_and!; [auto|done|by apply Hq].
    + destruct (IH (ver_StorageID q :: pr) Hs Hr) as (h & ? & ? & ?); [by rewrite elem_of_cons; intros [|]|].
      exists h. rewrite elem_of_cons. auto.
Qed.

#[global] Instance newest_first_trans : Transitive newest_first.
Proof. unfold newest_first. intros a b c. lia. Qed.
#[global] Instance newest_first_total : Total newest_first.
Proof. unfold newest_first. intros a b. lia. Qed.

(** The rows once the heads of the storages of a device are promoted. *)
Definition promoted (udid : string) (heads : list VersionRow) (v : VersionRow) : VersionRow :=
  if bool_decide (ver_UDID v = udid) then
    match head (filter (λ h, ver_StorageID h = ver_StorageID v) heads) with
    | Some h => set_latest (bool_decide (ver_ID v = ver_ID h)) v
    | None => v
    end
  else v.

(** Only [is_latest] of the device's rows changes. *)
Definition relabelled (udid : string) (V V' : rows_map) : Prop := ∀ id_,
  V' !! id_ = V !! id_ ∨ ∃ v b, V !! id_ = Some v ∧ ver_UDID v = udid ∧ V' !! id_ = Some (set_latest b v).

Lemma relabelled_trans udid V1 V2 V3 : relabelled udid V1 V2 → relabelled udid V2 V3 → relabelled udid V1 V3.
Proof.
  intros H1 H2 id_. destruct (H1 id_) as [He|(v & b & Hv & Hu & He)].
  - rewrite <-He. apply H2.
  - destruct (H2 id_) as [He'|(v' & b' & Hv' & Hu' & He')]; right.
    + exists v, b. by rewrite He', He.
    + exists v, b'. rewrite He in Hv'. injection Hv' as <-. done.
Qed.

Section latest.
Context {W : Type} `{!StorageWorld W, !MapRange, !SortSlice}.

Lemma promote_all_spec udid heads (m : Manager W) :
  NoDup (ver_StorageID <$> heads) →
  wp (promote_all udid heads) (λ e m', keeps m m' ∧ (is_Some e → ¬ healthy m) ∧
    relabelled udid (vers m) (vers m') ∧ (healthy m → vers m' = promoted udid heads <$> vers m)) m.
Proof.
  revert m. induction heads as [|h heads IH]; intros m Hn; cbn [promote_all].
  { apply wp_ret. split; [done|]. split; [by intros [? ?]|]. split; [by left|]. intros _.
    rewrite <-(map_fmap_id (vers m)) at 1. apply map_fmap_ext. intros k v _. unfold promoted. by case_match. }
  rewrite fmap_cons in Hn. apply NoDup_cons in Hn as [Hh Hn]. apply wp_bind.
  eapply wp_reg_changes; [reflexivity|..].
  - intros m1 Hk1 HV. eapply wp_mono; [by apply IH|]. intros e m2 (Hk2 & He & Hrel & Hex).
    split; [by etrans|]. split.
    { intros ? ?. apply He; [done|]. by apply Hk1. }
    split.
    + eapply relabelled_trans; [|done]. intros k. rewrite HV, lookup_fmap.
      destruct (vers m !! k) as [v|]; simpl; [|auto]. case_bool_decide as Hv; [|auto].
      right. exists v, (bool_decide (ver_ID v = ver_ID h)). tauto.
    + intros Hm. rewrite (Hex (proj2 Hk1 Hm)), HV, <-map_fmap_compose.
      apply map_fmap_ext. intros k v _. simpl. unfold promoted at 2.
      rewrite filter_cons. destruct (decide (ver_UDID v = udid)) as [Hu|Hu].
      2: { rewrite !bool_decide_false by tauto. unfold promoted. by rewrite bool_decide_false. }
      rewrite (bool_decide_true (ver_UDID v = udid)) by done.
      destruct (decide (ver_StorageID h = ver_StorageID v)) as [Hst|Hst].
      * rewrite bool_decide_true by done. unfold promoted. simpl. rewrite filter_false; [by case_match|].
        apply Forall_forall. intros x Hx Hs. apply Hh, list_elem_of_fmap. exists x. by rewrite Hs.
      * rewrite bool_decide_false by (by intros [? ?]). unfold promoted. by rewrite bool_decide_true.
  - intros e m1 Hk1 HV Hm. apply wp_ret. split; [done|]. split; [done|].
    split; [left; by rewrite HV|done].
Qed.

(** The device's versions of one storage that are on disk. *)
Definition present_in (udid : string) (st : option string) (v : VersionRow) : Prop :=
  ver_UDID v = udid ∧ ver_StorageID v = st ∧ ver_Missing v = false.

(** Every storage with a present version of the device has one latest version, a newest one. *)
Definition newest_is_latest (udid : string) (V : rows_map) : Prop := ∀ st k0 v0,
  V !! k0 = Some v0 → present_in udid st v0 →
  ∃ h, V !! ver_ID h = Some h ∧ present_in udid st h ∧
    (∀ k v, V !! k = Some v → ver_UDID v = udid → ver_StorageID v = st →
       ver_IsLatest v = bool_decide (v = h)) ∧
    (∀ k v, V !! k = Some v → present_in udid st v → ver_CreatedAt v ≤ ver_CreatedAt h).

Lemma promoted_newest udid heads (V : rows_map) :
  (∀ k v, V !! k = Some v → ver_ID v = k) →
  NoDup (ver_StorageID <$> heads) →
  (∀ h, h ∈ heads → V !! ver_ID h = Some h ∧ ver_UDID h = udid ∧ ver_Missing h = false) →
  (∀ st k v, V !! k = Some v → present_in udid st v →
     ∃ h, h ∈ heads ∧ ver_StorageID h = st ∧ ver_CreatedAt v ≤ ver_CreatedAt h) →
  newest_is_latest udid (promoted udid heads <$> V).
Proof.
  intros Hkey Hn Hheads Hmax st k0 v0 Hv0 Hp0.
  apply lookup_fmap_Some in Hv0 as (u0 & <- & Hu0).
  assert (∀ v, ver_UDID (promoted udid heads v) = ver_UDID v ∧
    ver_StorageID (promoted udid heads v) = ver_StorageID v ∧
    ver_Missing (promoted udid heads v) = ver_Missing v ∧
    ver_CreatedAt (promoted udid heads v) = ver_CreatedAt v ∧ ver_ID (promoted udid heads v) = ver_ID v) as Hsame.
  { intros v. unfold promoted. by repeat case_match. }
  assert (∀ v, present_in udid st (promoted udid heads v) ↔ present_in udid st v) as Hpres.
  { intros v. unfold present_in. destruct (Hsame v) as (-> & -> & -> & _). done. }
  pose proof (proj1 (Hpres u0) Hp0) as Hp0'. destruct (Hmax st k0 u0 Hu0 Hp0') as (h & Hh & Hst & _).
  assert (∀ v, ver_StorageID v = st → ver_UDID v = udid →
    promoted udid heads v = set_latest (bool_decide (ver_ID v = ver_ID h)) v) as Hprom.
  { intros v Hv Hu. unfold promoted. rewrite bool_decide_true by done.
    destruct (filter (λ h, ver_StorageID h = ver_StorageID v) heads) as [|h' rest] eqn:Hf.
    { assert (h ∈ filter (λ h, ver_StorageID h = ver_StorageID v) heads) as Hin.
      { apply list_elem_of_filter. by rewrite Hst. }
      rewrite Hf in Hin. by apply elem_of_nil in Hin. }
    assert (h' ∈ filter (λ h, ver_StorageID h = ver_StorageID v) heads) as Hin
      by (rewrite Hf; apply elem_of_cons; auto).
    apply list_elem_of_filter in Hin as [Hs' Hin]. simpl.
    by rewrite (nodup_fmap_eq ver_StorageID heads h' h) by congruence. }
  destruct (Hheads h Hh) as (HVh & Huh & Hmh). exists (promoted udid heads h).
  assert (ver_ID (promoted udid heads h) = ver_ID h) as Hidh by apply Hsame.
  rewrite Hidh. split; [by rewrite lookup_fmap, HVh|]. split; [by apply (proj2 (Hpres h))|]. split.
  - intros k v Hv Hu Hs. apply lookup_fmap_Some in Hv as (u & <- & Hku).
    destruct (Hsame u) as (Hu' & Hs' & _ & _ & Hid). rewrite Hu' in Hu. rewrite Hs' in Hs.
    rewrite (Hprom u), (Hprom h) by done. simpl.
    apply bool_decide_ext. split.
    + intros He. assert (u = h) as ->; [|done]. pose proof (Hkey _ _ Hku). congruence.
    + intros He. apply (f_equal ver_ID) in He. done.
  - intros k v Hv Hpv. apply lookup_fmap_Some in Hv as (u & <- & Hku). apply (proj1 (Hpres u)) in Hpv.
    destruct (Hmax st k u Hku Hpv) as (h' & Hh' & Hst' & Hle).
    assert (h' = h) as ->.
    { eapply (nodup_fmap_eq ver_StorageID); [done|done|done|congruence]. }
    destruct (Hsame u) as (_ & _ & _ & -> & _), (Hsame h) as (_ & _ & _ & -> & _). done.
Qed.

Lemma recomputeLatest_spec udid (m : Manager W) :
  udid ≠ ""%string → db_ok (mg_db m) →
  wp (recomputeLatest udid) (λ e m', keeps m m' ∧ (is_Some e → ¬ healthy m) ∧
    relabelled udid (vers m) (vers m') ∧ (healthy m → newest_is_latest udid (vers m'))) m.
Proof.
  intros Hu Hok. unfold recomputeLatest. apply wp_bind, wp_reg_list.
  - intros m1 Hk1 HV. cbv zeta. fold (device_rows udid (mg_db m)).
    set (present := sort_slice newest_first (filter (λ r, ver_Missing r = false) (device_rows udid (mg_db m)))).
    assert (∀ r, r ∈ present ↔ vers m !! ver_ID r = Some r ∧ ver_UDID r = udid ∧ ver_Missing r = false) as Hpres.
    { intros r. unfold present. rewrite (sort_slice_perm newest_first), list_elem_of_filter.
      rewrite elem_of_device_rows by done. unfold vers. tauto. }
    eapply wp_mono; [apply promote_all_spec, group_heads_nodup|].
    intros e m2 (Hk2 & He & Hrel & Hex). rewrite HV in *.
    split; [by etrans|]. split; [|split; [done|]].
    { intros ? ?. apply He; [done|]. by apply Hk1. }
    intros Hm. rewrite (Hex (proj2 Hk1 Hm)).
    apply promoted_newest; [by apply Hok|apply group_heads_nodup|..].
    + intros h [Hh _]%group_heads_sub. by apply Hpres.
    + intros st k v Hv (Huv & Hst & Hmv).
      destruct (group_heads_first [] present v) as (h & Hh & Hsth & Hle).
      * apply sort_slice_sorted; apply _.
      * apply Hpres. split; [|done]. pose proof (versions_keyed _ Hok _ _ Hv) as <-. done.
      * by intros ?%elem_of_nil.
      * exists h. by rewrite Hsth.
  - intros e m1 Hk1 HV Hm. apply wp_ret. split; [done|]. split; [done|].
    split; [left; by rewrite HV|done].
Qed.
End latest.

(** ** A whole repair *)

Definition keyed (V : rows_map) : Prop := ∀ k v, V !! k = Some v → ver_ID v = k.

Lemma may_apply_keyed (P : Prop) F V V' : may_apply P F V V' → keyed (F V) → keyed V → keyed V'.
Proof. intros Hm HF HV k v Hv. destruct (Hm k) as [He|[_ He]]; rewrite He in Hv; auto. Qed.

Lemma fmap_keyed (f : VersionRow → VersionRow) V : (∀ v, ver_ID (f v) = ver_ID v) → keyed V → keyed (f <$> V).
Proof. intros Hf HV k v Hv. apply lookup_fmap_Some in Hv as (u & <- & Hu). rewrite Hf. by apply HV. Qed.

Lemma on_disk_Some arts k a : on_disk arts !! k = Some a → a ∈ arts ∧ mk_VersionID (ar_Marker a) = k.
Proof.
  unfold on_disk. rewrite (foldl_insert_lookup (λ a, mk_VersionID (ar_Marker a)) id), lookup_empty.
  unfold id. destruct (last _) as [b|] eqn:Hl; [|done]. intros [= <-]. apply last_Some in Hl as [l' Hl].
  assert (b ∈ filter (λ a, mk_VersionID (ar_Marker a) = k) arts) as Hb
    by (rewrite Hl, elem_of_app, list_elem_of_singleton; auto).
  apply list_elem_of_filter in Hb as [??]. done.
Qed.

Lemma on_disk_None arts k : on_disk arts !! k = None ↔ ∀ a, a ∈ arts → mk_VersionID (ar_Marker a) ≠ k.
Proof.
  unfold on_disk. rewrite (foldl_insert_lookup (λ a, mk_VersionID (ar_Marker a)) id), lookup_empty. split.
  - destruct (last _) as [b|] eqn:Hl; [done|]. intros _ a Ha Hk. apply last_None in Hl.
    assert (a ∈ filter (λ a, mk_VersionID (ar_Marker a) = k) arts) as Hin by by apply list_elem_of_filter.
    rewrite Hl in Hin. by apply elem_of_nil in Hin.
  - intros Hn. destruct (last _) as [b|] eqn:Hl; [|done]. apply last_Some in Hl as [l' Hl].
    assert (b ∈ filter (λ a, mk_VersionID (ar_Marker a) = k) arts) as Hb
      by (rewrite Hl, elem_of_app, list_elem_of_singleton; auto).
    apply list_elem_of_filter in Hb as [??]. by destruct (Hn b).
Qed.

Section repair.
Context {W : Type} `{!StorageWorld W, !MapRange, !SortSlice}.
Context (s : Slot W) (udid : string) (arts : list Artifact).

Abbreviation disk_ := (on_disk arts).

Lemma adopted_keyed V : keyed V → keyed (adopted s udid disk_ V).
Proof.
  intros HV k v. unfold adopted. rewrite lookup_union_Some_raw, lookup_fmap_Some.
  intros [Hv|[_ (a & <- & [_ Ha]%on_disk_Some)]]; [by apply HV|done].
Qed.

Lemma attributed_unowned v : slotIDPtr s = None → attributed s udid disk_ v = v.
Proof.
  intros Hs. unfold attributed. rewrite Hs. case_match eqn:Hc; [|done].
  apply andb_true_iff in Hc as [[_ Hst]%bool_decide_eq_true _]. by rewrite <-Hst, set_storage_same.
Qed.

(** The rows in memory after attribution are the device's rows in the registry. *)
Lemma attribution_phase (m : Manager W) rows :
  udid ≠ ""%string → db_ok (mg_db m) → (∀ r, r ∈ rows ↔ r ∈ device_rows udid (mg_db m)) → NoDup (ver_ID <$> rows) →
  wp (match slotIDPtr s with
      | Some mine_ => attribute_rows mine_ disk_ (range (by_id rows))
      | None => mret (range (by_id rows))
      end)
    (λ l m', keeps m m' ∧ may_apply (healthy m) (fmap (attributed s udid disk_)) (vers m) (vers m') ∧
       ∀ k r, (list_to_map l : rows_map) !! k = Some r ↔ vers m' !! k = Some r ∧ ver_UDID r = udid) m.
Proof.
  intros Hu Hok Hrows Hn.
  assert (∀ k r, by_id rows !! k = Some r ↔ vers m !! k = Some r ∧ ver_UDID r = udid) as Hby.
  { intros k r. rewrite by_id_lookup, Hrows, elem_of_device_rows by done. unfold vers. split.
    - by intros [[? ?] <-].
    - intros [Hk ?]. pose proof (versions_keyed _ Hok _ _ Hk) as <-. done. }
  assert (∀ k r, (k, r) ∈ range (by_id rows) → vers m !! k = Some r ∧ ver_UDID r = udid ∧ ver_ID r = k) as Hpre.
  { intros k r Hr%elem_of_range. apply Hby in Hr as [Hk ?]. split; [done|]. split; [done|].
    by apply (versions_keyed _ Hok). }
  destruct (slotIDPtr s) as [mine_|] eqn:Hs.
  - eapply wp_mono; [eapply (attribute_rows_spec s udid); [exact Hs|apply range_nodup|exact Hpre]|].
    intros l m' (Hk & Hfst & Hsnap & Happ). split; [done|].
    assert (∀ k, k ∈ l.*1 ↔ ∃ r, vers m !! k = Some r ∧ ver_UDID r = udid) as Hdom.
    { intros k. rewrite Hfst, list_elem_of_fmap. split.
      - intros ([k' r] & -> & Hr%elem_of_range). apply Hby in Hr. eauto.
      - intros [r Hr]. apply Hby in Hr. exists (k, r). by rewrite elem_of_range. }
    rewrite <-Hfst in Happ. split.
    + intros k. destruct (Happ k) as [[_ ?]|[Hk' He]]; [auto|].
      destruct (decide (k ∈ l.*1)) as [Hin|Hin]; [right; auto|left]. rewrite He, lookup_fmap.
      destruct (vers m !! k) as [v|] eqn:Hv; [|done]. simpl. f_equal. unfold attributed.
      destruct (decide (ver_UDID v = udid)) as [Huv|Huv]; [|by rewrite bool_decide_false by tauto].
      exfalso. apply Hin, Hdom. eauto.
    + intros k r. split.
      * intros Hr%elem_of_list_to_map_2. split; [by apply Hsnap|].
        assert (k ∈ l.*1) as Hkl by (apply list_elem_of_fmap; by exists (k, r)).
        apply Hdom in Hkl as (q & Hq & Huq). specialize (Hsnap k r Hr).
        destruct (Happ k) as [[_ He]|[_ He]]; rewrite He in Hsnap.
        -- rewrite lookup_fmap, Hq in Hsnap. injection Hsnap as <-. unfold attributed. by case_match.
        -- rewrite Hq in Hsnap. by injection Hsnap as <-.
      * intros [Hr Hur]. assert (k ∈ l.*1) as Hkl.
        { apply Hdom. destruct (Happ k) as [[_ He]|[_ He]]; rewrite He in Hr; [|by eauto].
          apply lookup_fmap_Some in Hr as (q & Hq & Hq'). exists q. split; [done|].
          rewrite <-Hq in Hur. unfold attributed in Hur. by case_match. }
        apply list_elem_of_fmap in Hkl as ([k' q] & -> & Hq). simpl in *.
        rewrite (Hsnap k' q Hq) in Hr. injection Hr as ->.
        apply elem_of_list_to_map_1; [|done]. rewrite Hfst. apply range_nodup.
  - apply wp_ret. split; [done|]. split.
    + intros k. left. rewrite lookup_fmap. destruct (vers m !! k); [|done].
      simpl. by rewrite attributed_unowned.
    + intros k r. rewrite <-Hby. split.
      * intros Hr%elem_of_list_to_map_2. by apply elem_of_range.
      * intros Hr. apply elem_of_list_to_map_1; [apply range_nodup|by apply elem_of_range].
Qed.

Lemma repair_device_spec (m : Manager W) rows :
  udid ≠ ""%string → db_ok (mg_db m) → (∀ r, r ∈ rows ↔ r ∈ device_rows udid (mg_db m)) → NoDup (ver_ID <$> rows) →
  wp (repair_device s udid arts rows) (λ e m', keeps m m' ∧ (is_Some e → ¬ healthy m) ∧
    (∃ V1 V2 V3, may_apply (healthy m) (fmap (attributed s udid disk_)) (vers m) V1 ∧
      may_apply (healthy m) (λ V, adopted s udid disk_ (cleared s udid disk_ <$> V)) V1 V2 ∧
      may_apply (healthy m) (fmap (vanished s udid disk_)) V2 V3 ∧ relabelled udid V3 (vers m')) ∧
    (healthy m → newest_is_latest udid (vers m'))) m.
Proof.
  intros Hu Hok Hrows Hn. unfold repair_device. apply wp_bind.
  eapply wp_mono; [by apply attribution_phase|]. intros l m1 (Hk1 & H1 & Hmem).
  set (rows' := list_to_map l : rows_map) in *.
  assert (keyed (vers m1)) as Hkey1.
  { eapply may_apply_keyed; [done|apply fmap_keyed|exact (versions_keyed _ Hok)].
    - intros v. unfold attributed. by case_match.
    - exact (versions_keyed _ Hok). }
  cbv zeta. apply wp_bind. eapply wp_mono.
  { refine (adopt_or_clear_spec s udid disk_ rows' _ _ m1 Hkey1 _ _ _ _ eq_refl); [apply range_nodup|..].
    - intros k a Ha%elem_of_range. split; [done|]. by apply on_disk_Some in Ha as [_ ?].
    - intros k _ Hk. destruct (vers m1 !! k) as [v|] eqn:Hv; [right|auto]. exists v. split; [done|].
      intros Huv. assert (rows' !! k = Some v) by (apply Hmem; done). congruence.
    - intros k r _ Hr. by apply Hmem. }
  intros e m2 (Hk2 & He & H2).
  assert (may_apply (healthy m) (λ V, adopted s udid disk_ (cleared s udid disk_ <$> V)) (vers m1) (vers m2)) as H2'.
  { intros k. destruct (H2 k) as [[_ ?]|[Hin Heq]]; [auto|].
    destruct (disk_ !! k) as [a|] eqn:Hd.
    - right. split; [|done]. intros Hm. refine (Hin _ (proj2 Hk1 Hm)).
      apply list_elem_of_fmap. exists (k, a). by rewrite elem_of_range.
    - left. rewrite Heq. unfold adopted. rewrite lookup_union, !lookup_fmap, Hd. simpl.
      destruct (vers m1 !! k) as [v|] eqn:Hv; simpl; [|done]. f_equal.
      unfold cleared, scanned. by rewrite (Hkey1 _ _ Hv), Hd, andb_false_r. }
  clear H2. destruct e as [e|].
  { apply wp_ret. split; [by etrans|]. assert (¬ healthy m) as Hh by (intros Hm; apply He; [eauto|by apply Hk1]).
    split; [done|]. split; [|done]. exists (vers m1), (vers m2), (vers m2).
    split; [done|]. split; [done|]. split; [by intros k; right|by intros k; left]. }
  apply wp_bind. eapply wp_mono.
  { apply (mark_vanished_spec s udid disk_ (range (filter (λ kv : string * VersionRow,
      owns s (ver_StorageID kv.2) = true) rows')) m2); [apply range_nodup|].
    intros k r Hr%elem_of_range. apply map_lookup_filter_Some in Hr as [Hr Ho].
    apply Hmem in Hr as [Hr Hur]. pose proof (Hkey1 _ _ Hr) as Hid. simpl in Ho.
    assert (mine s udid r = true) as Hmine by (unfold mine; by rewrite bool_decide_true, Ho).
    assert (vers m2 !! k = adopted s udid disk_ (cleared s udid disk_ <$> vers m1) !! k ∨ vers m2 !! k = vers m1 !! k)
      as Hc by (destruct (H2' k) as [?|[_ ?]]; auto).
    unfold adopted in Hc. rewrite lookup_union, !lookup_fmap, Hr in Hc. simpl in Hc.
    split; [done|]. split; [done|]. split.
    - intros Hd. rewrite Hd in Hc. unfold cleared, scanned in Hc. rewrite Hid, Hd, andb_false_r in Hc.
      by destruct Hc as [->| ->].
    - intros [a Hd]. rewrite Hd in Hc. simpl in Hc. destruct Hc as [->| ->]; eexists; (split; [done|]); [|done].
      unfold cleared. by case_match. }
  intros e m3 (Hk3 & He3 & H3).
  assert (may_apply (healthy m) (fmap (vanished s udid disk_)) (vers m2) (vers m3)) as H3'.
  { intros k. destruct (H3 k) as [[_ ?]|[Hin Heq]]; [auto|].
    destruct (decide (k ∈ (range (filter (λ kv : string * VersionRow, owns s (ver_StorageID kv.2) = true) rows')).*1))
      as [Hkin|Hkin].
    { right. split; [|done]. intros Hm. apply (Hin Hkin). apply Hk2, Hk1, Hm. }
    left. rewrite Heq, lookup_fmap. destruct (vers m2 !! k) as [v|] eqn:Hv; [|done]. simpl. f_equal.
    unfold vanished. case_match eqn:Hc; [|done]. exfalso.
    apply andb_true_iff in Hc as [[Huv Ho]%andb_true_iff Hsc]. apply bool_decide_eq_true in Huv.
    assert (keyed (vers m2)) as Hkey2.
    { eapply may_apply_keyed; [exact H2'| |exact Hkey1].
      apply adopted_keyed, fmap_keyed; [|done]. intros w. unfold cleared. by case_match. }
    unfold scanned in Hsc. rewrite (Hkey2 _ _ Hv) in Hsc. apply negb_true_iff, bool_decide_eq_false in Hsc.
    apply eq_None_not_Some in Hsc. assert (vers m1 !! k = Some v) as Hv1.
    { destruct (H2' k) as [He2|[_ He2]]; rewrite He2 in Hv; [|done].
      unfold adopted in Hv. rewrite lookup_union, !lookup_fmap, Hsc in Hv. simpl in Hv.
      destruct (vers m1 !! k) as [w|] eqn:Hw; simpl in Hv; [|done].
      injection Hv as <-. unfold cleared, scanned. by rewrite (Hkey1 _ _ Hw), Hsc, andb_false_r. }
    apply Hkin, list_elem_of_fmap. exists (k, v). split; [done|]. apply elem_of_range, map_lookup_filter_Some.
    split; [by apply Hmem|done]. }
  clear H3. destruct e as [e|].
  { apply wp_ret. split; [by do 2 (etrans; [done|])|].
    assert (¬ healthy m) as Hh by (intros Hm; apply He3; [eauto|by apply Hk2, Hk1]).
    split; [done|]. split; [|done]. exists (vers m1), (vers m2), (vers m3).
    split; [done|]. split; [done|]. split; [done|by intros k; left]. }
  assert (keeps m m3) as Hk13 by (by do 2 (etrans; [done|])).
  assert (db_ok (mg_db m3)) as Hok3.
  { split; [|].
    - rewrite (proj1 Hk13 : db_jobs (mg_db m3) = db_jobs (mg_db m)). apply Hok.
    - assert (keyed (vers m2)) as Hkey2.
      { eapply may_apply_keyed; [exact H2'| |exact Hkey1].
        apply adopted_keyed, fmap_keyed; [|done]. intros w. unfold cleared. by case_match. }
      eapply may_apply_keyed; [exact H3'| |exact Hkey2].
      apply fmap_keyed; [|done]. intros w. unfold vanished. by case_match. }
  eapply wp_mono; [by apply recomputeLatest_spec|]. intros e m4 (Hk4 & He4 & Hrel & Hlat).
  split; [by etrans|]. split; [intros ? ?; apply He4; [done|by apply Hk13]|].
  split; [by exists (vers m1), (vers m2), (vers m3)|]. intros Hm. by apply Hlat, Hk13.
Qed.
End repair.

(** ** The theorems *)

(** A row without the three columns that reconciliation may write. *)
Definition row_core (v : VersionRow) : VersionRow := set_latest false (set_missing false (set_storage None v)).

(** What a pass over storage [s] may do to a row of the device, given what the scan found. *)
Definition row_kept {W} (s : Slot W) (udid : string) (arts : list Artifact) (v v' : VersionRow) : Prop :=
  let found := ∃ a, a ∈ arts ∧ mk_VersionID (ar_Marker a) = ver_ID v in
  ver_UDID v = udid ∧ row_core v' = row_core v ∧
  (ver_StorageID v' = ver_StorageID v ∨
   ver_StorageID v = None ∧ ver_StorageID v' = slotIDPtr s ∧ found) ∧
  (ver_Missing v' = ver_Missing v ∨
   owns s (ver_StorageID v') = true ∧ (ver_Missing v' = false ∧ found ∨ ver_Missing v' = true ∧ ¬ found)).

Section theorems.
Context {W : Type} `{!StorageWorld W, !MapRange, !SortSlice}.

Lemma scanned_found arts k :
  scanned (on_disk arts) k = true ↔ ∃ a, a ∈ arts ∧ mk_VersionID (ar_Marker a) = k.
Proof.
  unfold scanned. rewrite bool_decide_eq_true. split.
  - intros [a Ha%on_disk_Some]. by exists a.
  - intros (a & Ha & Hk). destruct (on_disk arts !! k) eqn:Hd; [by eauto|].
    rewrite on_disk_None in Hd. by destruct (Hd a).
Qed.

Lemma reconcileDevice_spec (s : Slot W) b udid (m : Manager W) :
  udid ≠ ""%string → db_ok (mg_db m) →
  wp (reconcileDevice s b udid) (λ r m', keeps m m' ∧
    (vers m' = vers m ∧ (healthy m → ∀ arts, (b_Scan b udid (mg_world m)).1 = Ok arts →
        JobsOnDevice (mg_jobStorage m) (s_StorageID s) udid = [] →
        lease_held (s_StorageID s) udid m = false → False) ∨
     ∃ arts V1 V2 V3, (b_Scan b udid (mg_world m)).1 = Ok arts ∧
      may_apply (healthy m) (fmap (attributed s udid (on_disk arts))) (vers m) V1 ∧
      may_apply (healthy m) (λ V, adopted s udid (on_disk arts) (cleared s udid (on_disk arts) <$> V)) V1 V2 ∧
      may_apply (healthy m) (fmap (vanished s udid (on_disk arts))) V2 V3 ∧ relabelled udid V3 (vers m') ∧
      (healthy m → newest_is_latest udid (vers m')))) m.
Proof.
  intros Hu Hok. unfold reconcileDevice. apply wp_bind, wp_gets. cbv beta.
  case_bool_decide as Hj; simpl.
  2: { apply wp_ret. split; [done|]. left. split; [done|]. by intros ? ? ? ?. }
  destruct (lease_held (s_StorageID s) udid m) eqn:Hlease.
  { apply wp_ret. split; [done|]. left. done. }
  apply wp_bind, wp_disk. destruct (b_Scan b udid (mg_world m)) as [[arts|e] w'] eqn:Hscan; simpl.
  2: { apply wp_ret. split; [done|]. left. done. }
  apply wp_bind, wp_reg_list.
  - intros m1 Hk1 HV. cbv zeta. apply wp_bind. set (m0 := set_world w' m) in *.
    assert (db_ok (mg_db m1)) as Hok1.
    { split; [rewrite (proj1 Hk1 : db_jobs (mg_db m1) = db_jobs (mg_db m))|
              rewrite (HV : db_versions (mg_db m1) = db_versions (mg_db m))]; apply Hok. }
    assert (∀ r, r ∈ device_rows udid (mg_db m) ↔ r ∈ device_rows udid (mg_db m1)) as Hrows.
    { intros r. rewrite !elem_of_device_rows by done.
      by rewrite (HV : db_versions (mg_db m1) = db_versions (mg_db m)). }
    eapply wp_mono.
    { apply (repair_device_spec s udid arts m1 (device_rows udid (mg_db m))); [done|done|exact Hrows|].
      eapply sublist_NoDup; [by apply (versions_desc_nodup (mg_db m))|].
      apply fmap_sublist, sublist_filter. }
    intros e m2 (Hk2 & He & (V1 & V2 & V3 & H1 & H2 & H3 & H4) & Hlat).
    assert (keeps m m1) as Hk by exact Hk1.
    assert (∀ F V V', may_apply (healthy m1) F V V' → may_apply (healthy m) F V V') as Hup.
    { intros F V V' Hf k. destruct (Hf k) as [?|[Hnh ?]]; [auto|right]. split; [|done].
      intros ?. by apply Hnh, Hk. }
    assert (∃ V1 V2 V3,
      may_apply (healthy m) (fmap (attributed s udid (on_disk arts))) (vers m) V1 ∧
      may_apply (healthy m) (λ V, adopted s udid (on_disk arts) (cleared s udid (on_disk arts) <$> V)) V1 V2 ∧
      may_apply (healthy m) (fmap (vanished s udid (on_disk arts))) V2 V3 ∧ relabelled udid V3 (vers m2) ∧
      (healthy m → newest_is_latest udid (vers m2))) as (W1 & W2 & W3 & Hall).
    { exists V1, V2, V3. change (vers m0) with (vers m) in HV. rewrite <-HV.
      repeat (split; [by auto|]). intros Hm. by apply Hlat, Hk. }
    destruct e as [e|].
    + apply wp_ret. split; [by etrans|]. right. exists arts, W1, W2, W3. by split.
    + apply wp_bind, wp_disk. apply wp_ret. split; [by etrans|].
      right. exists arts, W1, W2, W3. by split.
  - intros e m1 Hk1 HV Hh. apply wp_ret. split; [exact Hk1|]. left. split; [done|].
    intros Hm. by destruct Hh.
Qed.

(** One row through the phases. *)
Lemma attributed_row (s : Slot W) udid disk_ v :
  let v' := attributed s udid disk_ v in
  (ver_UDID v ≠ udid → v' = v) ∧ ver_UDID v' = ver_UDID v ∧ row_core v' = row_core v ∧
  ver_Missing v' = ver_Missing v ∧
  (ver_StorageID v' = ver_StorageID v ∨
   ver_StorageID v = None ∧ ver_StorageID v' = slotIDPtr s ∧ scanned disk_ (ver_ID v) = true).
Proof.
  cbv zeta. unfold attributed. case_bool_decide as Hc; [destruct Hc as [Hu Hst]|]; simpl; [|by auto 10].
  destruct (scanned disk_ (ver_ID v)); simpl; [|by auto 10]. split; [done|]. auto 10.
Qed.

Lemma cleared_row (s : Slot W) udid disk_ v :
  let v' := cleared s udid disk_ v in
  (ver_UDID v ≠ udid → v' = v) ∧ ver_UDID v' = ver_UDID v ∧ row_core v' = row_core v ∧
  ver_StorageID v' = ver_StorageID v ∧
  (ver_Missing v' = ver_Missing v ∨
   owns s (ver_StorageID v) = true ∧ ver_Missing v' = false ∧ scanned disk_ (ver_ID v) = true).
Proof.
  cbv zeta. unfold cleared, mine. case_bool_decide; simpl; [|by auto 10].
  destruct (owns s (ver_StorageID v)) eqn:?, (scanned disk_ (ver_ID v)) eqn:?; simpl;
    (split; [done|]); auto 10.
Qed.

Lemma vanished_row (s : Slot W) udid disk_ v :
  let v' := vanished s udid disk_ v in
  (ver_UDID v ≠ udid → v' = v) ∧ ver_UDID v' = ver_UDID v ∧ row_core v' = row_core v ∧
  ver_StorageID v' = ver_StorageID v ∧
  (ver_Missing v' = ver_Missing v ∨
   owns s (ver_StorageID v) = true ∧ ver_Missing v' = true ∧ scanned disk_ (ver_ID v) = false).
Proof.
  cbv zeta. unfold vanished, mine. case_bool_decide; simpl; [|by auto 10].
  destruct (owns s (ver_StorageID v)) eqn:?, (scanned disk_ (ver_ID v)) eqn:?; simpl;
    (split; [done|]); auto 10.
Qed.

Lemma row_core_id v v' : row_core v' = row_core v → ver_ID v' = ver_ID v.
Proof. intros He. exact (f_equal ver_ID He). Qed.

(** The row of a key that the registry had, after the first two phases or all of them. *)
Lemma may_apply_fmap_row (P : Prop) (f : VersionRow → VersionRow) V V' k v :
  may_apply P (fmap f) V V' → V !! k = Some v → ∃ v', V' !! k = Some v' ∧ (v' = f v ∨ v' = v).
Proof.
  intros Hm Hv. destruct (Hm k) as [He|[_ He]]; rewrite He; [|eauto].
  rewrite lookup_fmap, Hv. simpl. eauto.
Qed.

Lemma may_apply_adopted_row (P : Prop) (s : Slot W) udid disk_ V V' k v :
  may_apply P (λ V, adopted s udid disk_ (cleared s udid disk_ <$> V)) V V' → V !! k = Some v →
  ∃ v', V' !! k = Some v' ∧ (v' = cleared s udid disk_ v ∨ v' = v).
Proof.
  intros Hm Hv. destruct (Hm k) as [He|[_ He]]; rewrite He; [|eauto].
  unfold adopted. rewrite lookup_union, !lookup_fmap, Hv. simpl.
  eexists. split; [|by left]. by destruct (disk_ !! k).
Qed.

Lemma phases_row (P : Prop) (s : Slot W) udid arts V V1 V2 V3 V' k v :
  let disk_ := on_disk arts in
  may_apply P (fmap (attributed s udid disk_)) V V1 →
  may_apply P (λ V, adopted s udid disk_ (cleared s udid disk_ <$> V)) V1 V2 →
  may_apply P (fmap (vanished s udid disk_)) V2 V3 → relabelled udid V3 V' →
  V !! k = Some v → ∃ v', V' !! k = Some v' ∧ (v' = v ∨ row_kept s udid arts v v').
Proof.
  intros disk_ H1 H2 H3 H4 Hv.
  destruct (may_apply_fmap_row _ _ _ _ _ _ H1 Hv) as (v1 & Hv1 & E1).
  destruct (may_apply_adopted_row _ _ _ _ _ _ _ _ H2 Hv1) as (v2 & Hv2 & E2).
  destruct (may_apply_fmap_row _ _ _ _ _ _ H3 Hv2) as (v3 & Hv3 & E3).
  destruct (decide (ver_UDID v = udid)) as [Hu|Hu].
  - assert (ver_UDID v1 = ver_UDID v ∧ row_core v1 = row_core v ∧ ver_Missing v1 = ver_Missing v ∧
      (ver_StorageID v1 = ver_StorageID v ∨
       ver_StorageID v = None ∧ ver_StorageID v1 = slotIDPtr s ∧ scanned disk_ (ver_ID v) = true))
      as (Hu1 & Hc1 & Hm1 & Hs1) by (destruct E1 as [->| ->]; [apply attributed_row|auto]).
    assert (ver_UDID v2 = ver_UDID v1 ∧ row_core v2 = row_core v1 ∧ ver_StorageID v2 = ver_StorageID v1 ∧
      (ver_Missing v2 = ver_Missing v1 ∨
       owns s (ver_StorageID v1) = true ∧ ver_Missing v2 = false ∧ scanned disk_ (ver_ID v1) = true))
      as (Hu2 & Hc2 & Hs2 & Hm2) by (destruct E2 as [->| ->]; [apply cleared_row|auto]).
    assert (ver_UDID v3 = ver_UDID v2 ∧ row_core v3 = row_core v2 ∧ ver_StorageID v3 = ver_StorageID v2 ∧
      (ver_Missing v3 = ver_Missing v2 ∨
       owns s (ver_StorageID v2) = true ∧ ver_Missing v3 = true ∧ scanned disk_ (ver_ID v2) = false))
      as (Hu3 & Hc3 & Hs3 & Hm3) by (destruct E3 as [->| ->]; [apply vanished_row|auto]).
    assert (∃ v', V' !! k = Some v' ∧ row_core v' = row_core v3 ∧ ver_StorageID v' = ver_StorageID v3 ∧
      ver_Missing v' = ver_Missing v3) as (v' & Hv' & Hc' & Hs' & Hm').
    { destruct (H4 k) as [He|(w & b' & Hw & _ & He)]; rewrite He; [eauto|].
      rewrite Hv3 in Hw. injection Hw as <-. by eexists. }
    pose proof (row_core_id _ _ Hc1) as Hid1. pose proof (row_core_id _ _ Hc2) as Hid2.
    rewrite Hid2, Hid1 in Hm3. rewrite Hid1 in Hm2.
    exists v'. split; [done|]. right. unfold row_kept.
    split; [done|]. split; [congruence|]. rewrite <-scanned_found. split.
    + rewrite Hs', Hs3, Hs2. done.
    + rewrite Hm', Hs', Hs3, Hs2. rewrite Hs2 in Hm3.
      destruct Hm3 as [Hm3|(? & ? & Hn)]; [|right; split; [done|]; right; split; [done|]; fold disk_; by rewrite Hn].
      destruct Hm2 as [Hm2|(? & ? & ?)]; [left; congruence|]. right. split; [done|]. left. split; [congruence|done].
  - assert (v1 = v) as -> by (destruct E1 as [->| ->]; [by apply attributed_row|done]).
    assert (v2 = v) as -> by (destruct E2 as [->| ->]; [by apply cleared_row|done]).
    assert (v3 = v) as -> by (destruct E3 as [->| ->]; [by apply vanished_row|done]).
    exists v. split; [|by left]. destruct (H4 k) as [He|(w & b' & Hw & Hw' & He)]; [congruence|].
    rewrite Hv3 in Hw. injection Hw as <-. done.
Qed.

Lemma phases_new (P : Prop) (s : Slot W) udid arts V V1 V2 V3 V' k v' :
  let disk_ := on_disk arts in
  may_apply P (fmap (attributed s udid disk_)) V V1 →
  may_apply P (λ V, adopted s udid disk_ (cleared s udid disk_ <$> V)) V1 V2 →
  may_apply P (fmap (vanished s udid disk_)) V2 V3 → relabelled udid V3 V' →
  V !! k = None → V' !! k = Some v' →
  ∃ a latest, disk_ !! k = Some a ∧ v' = set_latest latest (store_version (adopted_row s udid a)).
Proof.
  intros disk_ H1 H2 H3 H4 Hv Hv'.
  assert (V1 !! k = None) as Hv1 by (destruct (H1 k) as [->|[_ ->]]; [by rewrite lookup_fmap, Hv|done]).
  assert (∃ v3, V3 !! k = Some v3 ∧ ∃ b, v' = set_latest b v3) as (v3 & Hv3 & b' & ->).
  { destruct (H4 k) as [He|(w & b' & Hw & _ & He)]; rewrite He in Hv'.
    - exists v'. split; [done|]. exists (ver_IsLatest v'). by rewrite set_latest_same.
    - injection Hv' as <-. eauto. }
  assert (∃ v2, V2 !! k = Some v2 ∧ (v3 = vanished s udid disk_ v2 ∨ v3 = v2)) as (v2 & Hv2 & E3).
  { destruct (H3 k) as [He|[_ He]]; rewrite He in Hv3; [|eauto].
    apply lookup_fmap_Some in Hv3 as (v2 & <- & ?). eauto. }
  assert (∃ a, disk_ !! k = Some a ∧ v2 = store_version (adopted_row s udid a)) as (a & Ha & ->).
  { destruct (H2 k) as [He|[_ He]]; rewrite He in Hv2; [|congruence].
    unfold adopted in Hv2. rewrite lookup_union, !lookup_fmap, Hv1 in Hv2. simpl in Hv2.
    destruct (disk_ !! k) as [a|]; [|done]. injection Hv2 as <-. eauto. }
  exists a, b'. split; [done|]. f_equal. destruct E3 as [->| ->]; [|done].
  unfold vanished, scanned. simpl. apply on_disk_Some in Ha as Ha'. destruct Ha' as [_ Hid].
  rewrite Hid, Ha. by rewrite andb_false_r.
Qed.

(** C13: reconciling a device, whatever the disk holds and whichever statements fail, never drops a
    version row or touches another device's rows or the jobs.  It writes only three columns of a
    row: it fills an empty storage id with its own, and only where the scan found the version's
    artifact; it flips [missing] only on rows of its own storage and only to what the scan saw; and it
    relabels the latest.  Every new row is an artifact that the scan found, adopted without a job. *)
Theorem reconcile_never_loses (s : Slot W) b udid (m : Manager W) :
  udid ≠ ""%string → db_ok (mg_db m) →
  let m' := (reconcileDevice s b udid m).2 in
  db_jobs (mg_db m') = db_jobs (mg_db m) ∧
  (∀ k v, db_versions (mg_db m) !! k = Some v → ∃ v', db_versions (mg_db m') !! k = Some v' ∧
     (v' = v ∨ ∃ arts, (b_Scan b udid (mg_world m)).1 = Ok arts ∧ row_kept s udid arts v v')) ∧
  (∀ k v', db_versions (mg_db m') !! k = Some v' → db_versions (mg_db m) !! k = None →
     ∃ arts a, (b_Scan b udid (mg_world m)).1 = Ok arts ∧ a ∈ arts ∧ mk_VersionID (ar_Marker a) = k ∧
       ∃ latest, v' = set_latest latest (store_version (adopted_row s udid a))).
Proof.
  intros Hu Hok m'. destruct (reconcileDevice_spec s b udid m Hu Hok) as [Hk Hcases].
  fold m' in Hk, Hcases. split; [apply Hk|]. fold (vers m) (vers m').
  destruct Hcases as [[Hv _]|(arts & V1 & V2 & V3 & Hscan & H1 & H2 & H3 & H4 & _)].
  { rewrite Hv. split; [eauto|]. intros k v' Hk' Hk''. congruence. }
  rewrite Hscan. split; intros k v.
  - intros Hkv. destruct (phases_row _ _ _ _ _ _ _ _ _ _ _ H1 H2 H3 H4 Hkv) as (v' & Hv' & Hc).
    exists v'. split; [done|]. destruct Hc as [?|?]; [auto|]. right. by exists arts.
  - intros Hkv Hn. destruct (phases_new _ _ _ _ _ _ _ _ _ _ _ H1 H2 H3 H4 Hn Hkv) as (a & b' & Ha & Hb).
    apply on_disk_Some in Ha as [? ?]. exists arts, a. eauto.
Qed.
(** A pass without failures computes [repaired], up to the latest flags. *)
Lemma phases_healthy (P : Prop) (s : Slot W) udid arts V V1 V2 V3 k : P →
  let disk_ := on_disk arts in
  may_apply P (fmap (attributed s udid disk_)) V V1 →
  may_apply P (λ V, adopted s udid disk_ (cleared s udid disk_ <$> V)) V1 V2 →
  may_apply P (fmap (vanished s udid disk_)) V2 V3 →
  V3 !! k = repaired s udid disk_ V !! k.
Proof.
  intros HP disk_ H1 H2 H3. unfold repaired.
  destruct (H3 k) as [->|[? _]]; [|done]. destruct (H2 k) as [E2|[? _]]; [|done].
  destruct (H1 k) as [E1|[? _]]; [|done]. rewrite !lookup_fmap, E2. unfold adopted.
  by rewrite !lookup_union, !lookup_fmap, E1, !lookup_fmap.
Qed.

Lemma repaired_mine (s : Slot W) udid arts V k v : keyed V →
  repaired s udid (on_disk arts) V !! k = Some v → mine s udid v = true →
  ver_Missing v = negb (scanned (on_disk arts) k).
Proof.
  intros HV Hv Hm. set (disk_ := on_disk arts) in *. unfold repaired in Hv.
  apply lookup_fmap_Some in Hv as (w & <- & Hw).
  assert (ver_ID w = k) as Hid.
  { eapply (adopted_keyed s udid arts); [|exact Hw]. apply fmap_keyed.
    { intros u. unfold cleared. by case_match. }
    apply fmap_keyed; [|done]. intros u. unfold attributed. by case_match. }
  assert (mine s udid w = true) as Hmw.
  { unfold mine in *. destruct (vanished_row s udid disk_ w) as (_ & Hu & _ & Hs & _). by rewrite Hu, Hs in Hm. }
  unfold vanished. rewrite Hmw, Hid. destruct (scanned disk_ k) eqn:Hsc; simpl; [|done].
  unfold adopted in Hw. rewrite lookup_union_Some_raw, !lookup_fmap_Some in Hw.
  destruct Hw as [(u & <- & Hu)|[_ (a & <- & _)]]; [|done].
  assert (mine s udid u = true) as Hmu.
  { unfold mine in *. destruct (cleared_row s udid disk_ u) as (_ & Hu' & _ & Hs & _). by rewrite Hu', Hs in Hmw. }
  assert (ver_ID (cleared s udid disk_ u) = ver_ID u) as Hidu by (unfold cleared; by case_match).
  rewrite Hidu in Hid. unfold cleared. by rewrite Hmu, Hid, Hsc.
Qed.

Lemma repaired_attributed (s : Slot W) udid arts V k v : keyed V →
  repaired s udid (on_disk arts) V !! k = Some v → ver_UDID v = udid → scanned (on_disk arts) k = true →
  ver_StorageID v = None → s_StorageID s = ""%string.
Proof.
  intros HV Hv Hu Hsc Hst. set (disk_ := on_disk arts) in *. unfold repaired in Hv.
  assert (slotIDPtr s = None → s_StorageID s = ""%string) as Hs.
  { unfold slotIDPtr. by case_bool_decide. }
  apply Hs. clear Hs. apply lookup_fmap_Some in Hv as (w & <- & Hw).
  destruct (vanished_row s udid disk_ w) as (_ & Hu' & _ & Hs' & _). rewrite Hu' in Hu. rewrite Hs' in Hst.
  unfold adopted in Hw. rewrite lookup_union_Some_raw, !lookup_fmap_Some in Hw.
  destruct Hw as [(u & <- & (x & <- & Hx)%lookup_fmap_Some)|[_ (a & <- & _)]]; [|done].
  destruct (cleared_row s udid disk_ (attributed s udid disk_ x)) as (_ & Hu'' & _ & Hs'' & _).
  rewrite Hu'' in Hu. rewrite Hs'' in Hst.
  destruct (attributed_row s udid disk_ x) as (_ & Hux & _ & _ & _). rewrite Hux in Hu.
  pose proof (HV _ _ Hx) as Hid. unfold attributed in Hst. rewrite Hid, Hsc in Hst.
  case_bool_decide as Hc; simpl in Hst; [done|]. destruct (ver_StorageID x) eqn:?; [done|]. tauto.
Qed.

(** C14: when the registry and the scan answer and nothing else works on the device, reconciling it
    leaves a registry that agrees with the disk: every artifact found has a row; a row that belongs
    to this storage is marked missing exactly when the scan did not find its artifact; no version
    found here is left without a storage; and on every storage that has a present version of the
    device exactly one version is the latest, and no present one is newer. *)
Theorem reconcile_repairs (s : Slot W) b udid (m : Manager W) arts :
  udid ≠ ""%string → db_ok (mg_db m) → db_faults (mg_db m) = [] →
  JobsOnDevice (mg_jobStorage m) (s_StorageID s) udid = [] → lease_held (s_StorageID s) udid m = false →
  (b_Scan b udid (mg_world m)).1 = Ok arts →
  let V' := db_versions (mg_db (reconcileDevice s b udid m).2) in
  let found k := ∃ a, a ∈ arts ∧ mk_VersionID (ar_Marker a) = k in
  (∀ k, found k → is_Some (V' !! k)) ∧
  (∀ k v, V' !! k = Some v → ver_UDID v = udid → owns s (ver_StorageID v) = true →
     ver_Missing v = false ↔ found k) ∧
  (∀ k v, V' !! k = Some v → ver_UDID v = udid → found k → ver_StorageID v = None → s_StorageID s = ""%string) ∧
  newest_is_latest udid V'.
Proof.
  intros Hu Hok Hf Hj Hl Hscan V' found.
  destruct (reconcileDevice_spec s b udid m Hu Hok) as [_ Hcases]. fold V' in Hcases.
  destruct Hcases as [[_ Hno]|(arts' & V1 & V2 & V3 & Hscan' & H1 & H2 & H3 & H4 & Hlat)].
  { exfalso. by eapply Hno. }
  rewrite Hscan in Hscan'. injection Hscan' as <-.
  assert (∀ k, V3 !! k = repaired s udid (on_disk arts) (vers m) !! k) as H3'
    by (intros k; exact (phases_healthy _ s udid arts _ _ _ _ k (Hf : healthy m) H1 H2 H3)).
  pose proof (versions_keyed _ Hok : keyed (vers m)) as Hkey.
  assert (∀ k v, V' !! k = Some v → ∃ u, V3 !! k = Some u ∧ ver_UDID u = ver_UDID v ∧
    ver_StorageID u = ver_StorageID v ∧ ver_Missing u = ver_Missing v) as Hback.
  { intros k v Hv. destruct (H4 k) as [He|(w & b' & Hw & _ & He)];
      pose proof (eq_trans (eq_sym He) Hv) as Hv'; [by exists v|]. injection Hv' as <-. by exists w. }
  split; [|split; [|split; [|by apply Hlat]]].
  - intros k [a Hd]%scanned_found%bool_decide_eq_true.
    assert (is_Some (V3 !! k)) as [u Hu3].
    { rewrite H3'. unfold repaired, adopted. rewrite lookup_fmap, lookup_union, !lookup_fmap, Hd.
      destruct (vers m !! k); simpl; eauto. }
    unfold V'. fold (vers (reconcileDevice s b udid m).2).
    destruct (H4 k) as [->|(w & b' & _ & _ & ->)]; rewrite ?Hu3; eauto.
  - intros k v Hv Huv Ho. destruct (Hback k v Hv) as (u & Hu3 & Huu & Hsu & Hmu). rewrite H3' in Hu3.
    assert (mine s udid u = true) as Hmine by (unfold mine; rewrite Huu, Hsu, bool_decide_true; done).
    pose proof (repaired_mine _ _ _ _ _ _ Hkey Hu3 Hmine) as Hm. unfold found.
    rewrite <-Hmu, Hm, <-scanned_found. by destruct (scanned _ _).
  - intros k v Hv Huv Hk Hst. destruct (Hback k v Hv) as (u & Hu3 & Huu & Hsu & _). rewrite H3' in Hu3.
    apply (repaired_attributed s udid arts (vers m) k u Hkey Hu3); [congruence|by apply scanned_found|congruence].
Qed.
End theorems.

(** ** A concrete pass *)

#[local] Instance demo_world : StorageWorld unit := {|
  read_storage_marker := λ _, mret SMAbsent;
  read_work_state := λ _, mret (Ok None);
  read_dir_names := λ _, mret None;
  verify_tree := λ _ _, mret (mkVerifyResult true true "full" 10 "") |}.
#[local] Instance demo_order : MapRange := some_order.
#[local] Instance demo_sort : SortSlice := stable_sort.

Definition demo_artifact (id_ : string) : Artifact :=
  mkArtifact "device-1" BackendCopy None
    (mkMarker id_ "" "device-1" BackendCopy "2026-08-01T10:00:00Z" "full" true "" "" "") false 10.

Definition demo_scanner (ids : list string) : Backend unit :=
  mkBackend unit BackendCopy (λ _, mret None) (λ _ _, mret (Ok [])) (λ _ _, mret (Ok ([], false)))
    (λ _ _, mret None) (λ _ _, []) (λ _, mret (Err "")) (λ _, mret (Err "")) (λ _ _, mret (""%string, None))
    (λ _, mret None) (λ _, mret None) (λ _, mret (Ok (demo_artifact <$> ids))) (mret (Ok [])) (λ _, mret None)
    (λ _ _, false).

Definition demo_disk_a (ids : list string) : Slot unit :=
  mkSlot "disk-a" "a" ["a"]%string (Some (demo_scanner ids)) BackendCopy (mkRetention 1 0 0) true "" "".

Definition demo_row (id_ : string) (st : option string) (missing latest : bool) : VersionRow :=
  mkVersionRow id_ "device-1" BackendCopy None 0 (Some "job"%string) "full" true latest None None 10 missing st.

(** Version [v1] vanished from the disk, [v2] has no storage yet, [v3] is on another disk. *)
Definition demo_registry : DB :=
  mkDB ∅ (list_to_map ((λ v, (ver_ID v, v)) <$>
    [demo_row "v1" (Some "disk-a"%string) false true; demo_row "v2" None true false;
     demo_row "v3" (Some "disk-b"%string) false true])) ∅ [].

Definition demo_manager : Manager unit :=
  mkManager [demo_disk_a ["v2"; "v4"]%string] ∅ ∅ demo_registry tt [] [] 0 [].

Lemma demo_registry_ok : db_ok demo_registry.
Proof.
  split; [intros k j Hj; change (db_jobs demo_registry) with (∅ : gmap string JobRow) in Hj;
          by rewrite lookup_empty in Hj|].
  assert (map_Forall (λ k v, ver_ID v = k) (db_versions demo_registry)) as Hall; [|intros k v Hk; by apply Hall].
  apply (bool_decide_unpack _). vm_compute. exact I.
Qed.

Lemma reconcile_never_loses_witness :
  is_Some (db_versions (mg_db (reconcileDevice (demo_disk_a ["v2"; "v4"]%string)
    (demo_scanner ["v2"; "v4"]%string) "device-1" demo_manager).2) !! "v1"%string).
Proof.
  destruct (reconcile_never_loses (demo_disk_a ["v2"; "v4"]%string) (demo_scanner ["v2"; "v4"]%string) "device-1"
    demo_manager ltac:(done) demo_registry_ok) as (_ & Hkept & _).
  destruct (Hkept "v1"%string (demo_row "v1" (Some "disk-a"%string) false true) eq_refl) as (v' & Hv' & _).
  by exists v'.
Defined.

Lemma reconcile_repairs_witness :
  let V' := db_versions (mg_db
    (reconcileDevice (demo_disk_a ["v2"; "v4"]%string) (demo_scanner ["v2"; "v4"]%string) "device-1" demo_manager).2) in
  (λ v, (ver_ID v, ver_StorageID v, ver_Missing v, ver_IsLatest v)) <$> (map_to_list V').*2 =
    [("v3", Some "disk-b", false, true); ("v1", Some "disk-a", true, false);
     ("v2", Some "disk-a", false, false); ("v4", Some "disk-a", false, true)]%string ∧
  newest_is_latest "device-1" V'.
Proof.
  cbv zeta. split; [vm_compute; reflexivity|].
  refine (proj2 (proj2 (proj2 (reconcile_repairs (demo_disk_a ["v2"; "v4"]%string) (demo_scanner ["v2"; "v4"]%string)
    "device-1" demo_manager (demo_artifact <$> ["v2"; "v4"]%string) _ demo_registry_ok _ _ _ _)))); done.
Defined.
