(* ===== verification/ManagerSafety.v ===== *)
(** * ManagerSafety: what the storage manager may delete, and what a commit leaves

    Theorems about [deleteVersion], [Prune] and [CommitJob] for every backend and whichever
    registry statements fail: a version is deleted by its own storage or not at all, retention only
    removes what a storage's own policy selects, and a commit that succeeds leaves its version in
    the registry as the latest of its storage. *)

From Stdlib Require Import String Ascii.
From S2P Require Import Prelude Calendar Domain Store Backend Slots FS Sidecars Verify.
From S2P Require Import Retention Manager Reconcile ReconcileSafety.

Section manager.
Context {W : Type} `{!StorageWorld W, !MapRange, !SortSlice}.

(** A registry call changes nothing of the manager but its registry. *)
Definition db_step (m m' : Manager W) : Prop :=
  m' = set_db (mg_db m') m ∧ (healthy m → healthy m') ∧ (db_ok (mg_db m) → db_ok (mg_db m')).

Lemma db_step_fields m m' : db_step m m' → mg_slots m' = mg_slots m ∧ mg_world m' = mg_world m ∧
  mg_jobStorage m' = mg_jobStorage m ∧ mg_ids m' = mg_ids m ∧ mg_now m' = mg_now m ∧ mg_held m' = mg_held m.
Proof. intros [-> _]. done. Qed.

Lemma wp_get id_ Q (m : Manager W) :
  (∀ m', db_step m m' → vers m' = vers m → Q (Ok (vers m !! id_)) m') →
  (∀ e m', db_step m m' → vers m' = vers m → ¬ healthy m → Q (Err e) m') →
  wp (reg (GetVersion id_)) Q m.
Proof.
  intros HN HS. apply wp_lift. unfold wp, GetVersion, statement, db_step, healthy, vers in *.
  destruct (db_faults (mg_db m)) as [|[] fs] eqn:Hf; simpl; [apply HN|apply HS|apply HN];
    try done; (split; [done|]; split; [done|]; by intros []).
Qed.

Lemma wp_list udid Q (m : Manager W) :
  (∀ m', db_step m m' → vers m' = vers m → Q (Ok (device_rows udid (mg_db m))) m') →
  (∀ e m', db_step m m' → vers m' = vers m → ¬ healthy m → Q (Err e) m') →
  wp (reg (ListVersions udid)) Q m.
Proof.
  intros HN HS. apply wp_lift. unfold wp, ListVersions, statement, db_step, healthy, vers in *.
  destruct (db_faults (mg_db m)) as [|[] fs] eqn:Hf; simpl; [apply HN|apply HS|apply HN];
    try done; (split; [done|]; split; [done|]; by intros []).
Qed.

Lemma wp_write op f Q (m : Manager W) :
  op = exec (λ d, (None, with_versions f d)) → (∀ d, db_ok d → db_ok (op d).2) →
  (∀ m', db_step m m' → vers m' = f (vers m) → Q None m') →
  (∀ e m', db_step m m' → vers m' = vers m → ¬ healthy m → Q (Some e) m') →
  wp (reg op) Q m.
Proof.
  intros Hop Hpres HN HS. apply wp_lift. unfold wp. specialize (Hpres (mg_db m)). subst op.
  unfold exec, statement, db_step, healthy, vers in *.
  destruct (db_faults (mg_db m)) as [|[] fs] eqn:Hf; simpl in *; [apply HN|apply HS|apply HN]; try done.
Qed.

Lemma AppendAudit_faults a d : db_faults d = [] → db_faults (AppendAudit a d).2 = [].
Proof. unfold AppendAudit, exec, statement. intros Hf. rewrite Hf. by destruct (db_audit d !! au_ID a). Qed.

Lemma wp_audit event detail Q (m : Manager W) :
  (∀ m', vers m' = vers m → mg_world m' = mg_world m → mg_slots m' = mg_slots m → (healthy m → healthy m') →
     Q tt m') →
  wp (appendAudit event detail) Q m.
Proof.
  intros HQ. unfold appendAudit. apply wp_bind. unfold wp at 1. cbn [newID fst snd].
  apply wp_bind, wp_gets. apply wp_bind, wp_lift. unfold wp at 1. simpl. apply wp_ret, HQ; [|done..|].
  - unfold vers. simpl. apply AppendAudit_versions.
  - apply AppendAudit_faults.
Qed.

(** The artifact of [v] was removed by the storage that owns the version. *)
Definition removed_by_own (v : VersionRow) (m m' : Manager W) (e : error) : Prop :=
  ∃ s b, slotFor (ver_StorageID v) (mg_slots m) = Some s ∧ usable_backend s = Some b ∧
    b_DeleteArtifact b (artifact v) (mg_world m) = (e, mg_world m').

(** What [deleteVersion] may do: nothing, or remove exactly this row, and touch the disk only through
    the usable backend of the storage that owns the version. *)
Definition deleted (id_ : string) (m : Manager W) (r : Z * error) (m' : Manager W) : Prop :=
  match r.2 with
  | None => vers m' = delete id_ (vers m) ∧ r.1 = StatusAccepted ∧
      ∃ v, vers m !! id_ = Some v ∧
        (ver_Missing v = true ∧ mg_world m' = mg_world m ∨
         ver_Missing v = false ∧ removed_by_own v m m' None)
  | Some _ => vers m' = vers m ∧
      (mg_world m' = mg_world m ∨
       ∃ v e, vers m !! id_ = Some v ∧ ver_Missing v = false ∧ removed_by_own v m m' e)
  end.

Lemma remove_artifact_spec v (m : Manager W) :
  wp (remove_artifact v) (λ r m', vers m' = vers m ∧ mg_slots m' = mg_slots m ∧
    match r.2 with
    | None => removed_by_own v m m' None
    | Some e => mg_world m' = mg_world m ∨ removed_by_own v m m' (Some e)
    end) m.
Proof.
  unfold remove_artifact. apply wp_bind, wp_gets.
  destruct (slotFor (ver_StorageID v) (mg_slots m)) as [s|] eqn:Hs; [|by apply wp_ret; simpl; auto].
  destruct (usable_backend s) as [b|] eqn:Hb; [|by apply wp_ret; simpl; auto].
  apply wp_bind, wp_disk, wp_ret. split; [done|]. split; [done|].
  destruct (b_DeleteArtifact b (artifact v) (mg_world m)) as [[e|] w] eqn:Hd; simpl; [right|];
    exists s, b; auto.
Qed.

Lemma deleteVersion_spec id_ event (m : Manager W) :
  wp (deleteVersion id_ event) (λ r m', deleted id_ m r m' ∧ mg_slots m' = mg_slots m) m.
Proof.
  unfold deleteVersion. apply wp_bind, wp_get.
  2: { intros e m1 (HS & HW & _)%db_step_fields HV _. apply wp_ret. unfold deleted; simpl. auto. }
  intros m1 (HS & HW & _)%db_step_fields HV. destruct (vers m !! id_) as [v|] eqn:Hv.
  2: { apply wp_ret. unfold deleted; simpl. auto. }
  apply wp_bind.
  assert (∀ m2 e, removed_by_own v m1 m2 e → removed_by_own v m m2 e) as Hown.
  { intros m2 e (s & b & H1 & H2 & H3). exists s, b. by rewrite <-HS, <-HW. }
  assert (wp (if ver_Missing v then mret (0, None) else remove_artifact v)
    (λ r m2, vers m2 = vers m ∧ mg_slots m2 = mg_slots m ∧
      match r.2 with
      | None => ver_Missing v = true ∧ mg_world m2 = mg_world m ∨ ver_Missing v = false ∧ removed_by_own v m m2 None
      | Some e => mg_world m2 = mg_world m ∨ ver_Missing v = false ∧ removed_by_own v m m2 (Some e)
      end) m1) as Hart.
  { destruct (ver_Missing v) eqn:Hmiss; [by apply wp_ret; simpl; rewrite HV, HS, HW; auto|].
    eapply wp_mono; [apply remove_artifact_spec|]. intros [st [e|]] m2 (HV2 & HS2 & Hr); simpl in *;
      rewrite HV2, HS2, HV, HS; (split; [done|]); (split; [done|]).
    - destruct Hr as [->|?]; auto.
    - right. auto. }
  eapply wp_mono; [exact Hart|]. clear Hart. intros [st [e|]] m2 (HV2 & HS2 & HW2); simpl in HW2.
  { apply wp_ret. unfold deleted; simpl. split; [|done]. split; [done|].
    destruct HW2 as [?|[? ?]]; [auto|]. right. exists v, (Some e). auto. }
  assert (∀ m3 e, mg_world m3 = mg_world m2 → removed_by_own v m m2 e → removed_by_own v m m3 e) as Hlater.
  { intros m3 e Hw (s & b & H1 & H2 & H3). exists s, b. by rewrite Hw. }
  apply wp_bind. eapply wp_write; [reflexivity|apply DeleteVersion_ok|..].
  - intros m3 (HS3 & HW3 & _)%db_step_fields HV3. apply wp_bind, wp_audit. intros m4 HV4 HW4 HS4 _.
    apply wp_bind, wp_gets, wp_bind, wp_modify, wp_ret.
    match goal with |- deleted _ _ _ ?x ∧ _ => generalize
      (eq_refl : vers x = vers m4) (eq_refl : mg_world x = mg_world m4) (eq_refl : mg_slots x = mg_slots m4);
      generalize x end. intros m5 E1 E2 E3. unfold deleted; simpl.
    split; [|congruence]. split; [congruence|]. split; [done|]. exists v. split; [done|].
    destruct HW2 as [[? ?]|[? ?]]; [left; split; [done|congruence]|right; split; [done|]].
    apply Hlater; [congruence|done].
  - intros e m3 (HS3 & HW3 & _)%db_step_fields HV3 _. apply wp_ret. unfold deleted; simpl.
    split; [|congruence]. split; [congruence|].
    destruct HW2 as [[? ?]|[? ?]]; [left; congruence|right]. exists v, None. auto.
Qed.

(** A version is deleted by the storage that holds it or not at all.  When [Delete] answers 202,
    exactly this version's row is gone, and its artifact was removed by the usable backend of the
    storage its row names, unless the row was already marked missing.  Any other answer keeps every
    row, and has not touched any other storage's disk; if the version's storage is not declared or
    not usable, nothing at all has changed. *)
Theorem delete_by_own_storage id_ (m : Manager W) :
  let '(r, m') := Delete id_ m in
  (r.2 = None → r.1 = StatusAccepted ∧ vers m' = delete id_ (vers m) ∧
     ∃ v, vers m !! id_ = Some v ∧
       (ver_Missing v = true ∧ mg_world m' = mg_world m ∨
        ver_Missing v = false ∧ removed_by_own v m m' None)) ∧
  (r.2 ≠ None → vers m' = vers m ∧
     (mg_world m' = mg_world m ∨
      ∃ v e, vers m !! id_ = Some v ∧ ver_Missing v = false ∧ removed_by_own v m m' e)) ∧
  (∀ v, vers m !! id_ = Some v → ver_Missing v = false →
     (∀ s, slotFor (ver_StorageID v) (mg_slots m) = Some s → usable_backend s = None) →
     r.2 ≠ None ∧ vers m' = vers m ∧ mg_world m' = mg_world m).
Proof.
  pose proof (deleteVersion_spec id_ "version.delete" m) as [Hd _]. unfold Delete.
  destruct (deleteVersion id_ "version.delete" m) as [[st e] m']. unfold deleted in Hd. simpl in *.
  destruct e as [e|]; simpl in *.
  - destruct Hd as [Hv Hw]. split; [done|]. split; [done|]. intros v Hv' Hm Hn. split; [done|]. split; [done|].
    destruct Hw as [?|(v' & e' & Hv'' & _ & s & b & Hs & Hb & _)]; [done|].
    assert (v' = v) as -> by congruence. specialize (Hn s Hs). congruence.
  - destruct Hd as (Hv & Hst & Hex). split; [done|]. split; [done|]. intros v Hv' Hm Hn. exfalso.
    destruct Hex as (v' & Hv'' & [[? _]|[_ (s & b & Hs & Hb & _)]]); [congruence|].
    assert (v' = v) as -> by congruence. specialize (Hn s Hs). congruence.
Qed.

(** ** Pruning *)

Lemma by_storage_lookup rows key :
  by_storage rows !! key = match filter (λ r, storage_key r = key) rows with [] => None | g => Some g end.
Proof.
  unfold by_storage. induction rows as [|r rows IH] using rev_ind; [done|].
  rewrite foldl_app, filter_app. cbn [foldl]. rewrite filter_cons, filter_nil.
  set (m0 := foldl _ _ _) in *. destruct (decide (storage_key r = key)) as [<-|Hne].
  - rewrite lookup_insert_eq, IH. by destruct (filter _ rows).
  - rewrite lookup_insert_ne, IH by done. by rewrite app_nil_r.
Qed.

(** Rows with these ids may go, and all of them go when there is no error; nothing else changes. *)
Definition removes (ids : list string) (m : Manager W) (e : error) (m' : Manager W) : Prop :=
  mg_slots m' = mg_slots m ∧
  (∀ k, vers m' !! k = vers m !! k ∨ k ∈ ids ∧ vers m' !! k = None) ∧
  (e = None → ∀ k, k ∈ ids → vers m' !! k = None).

Lemma removes_app ids1 ids2 m m1 e m2 :
  removes ids1 m None m1 → removes ids2 m1 e m2 → removes (ids1 ++ ids2) m e m2.
Proof.
  intros (HS1 & Hc1 & Hall1) (HS2 & Hc2 & Hall2). split; [congruence|]. split.
  - intros k. rewrite elem_of_app. destruct (Hc2 k) as [->|[? ?]]; [|auto].
    destruct (Hc1 k) as [->|[? ?]]; auto.
  - intros -> k [Hk|Hk]%elem_of_app; [|by apply Hall2].
    destruct (Hc2 k) as [->|[_ ?]]; [by apply Hall1|done].
Qed.

Lemma removes_error ids ids' m (e : string) m' : removes ids m (Some e) m' → (∀ k, k ∈ ids → k ∈ ids') →
  removes ids' m (Some e) m'.
Proof. intros (HS & Hc & _) Hi. split; [done|]. split; [|done]. intros k. destruct (Hc k) as [?|[? ?]]; auto. Qed.

Lemma prune_versions_spec rows (m : Manager W) :
  wp (prune_versions rows) (λ e m', removes (ver_ID <$> rows) m e m') m.
Proof.
  revert m. induction rows as [|r rows IH]; intros m; cbn [prune_versions].
  { apply wp_ret. split; [done|]. split; [auto|]. by intros _ k ?%elem_of_nil. }
  apply wp_bind. eapply wp_mono; [apply deleteVersion_spec|]. intros [st [e|]] m1 [Hd HS1]; unfold deleted in Hd;
    simpl in Hd; rewrite fmap_cons; change (ver_ID r :: (ver_ID <$> rows)) with ([ver_ID r] ++ (ver_ID <$> rows)).
  - destruct Hd as [Hv _]. apply wp_ret. split; [done|]. split; [rewrite Hv; auto|done].
  - destruct Hd as [Hv _]. eapply wp_mono; [apply IH|]. intros e m2 Hr. eapply removes_app; [|done].
    split; [done|]. rewrite Hv. split.
    + intros k. destruct (decide (k = ver_ID r)) as [->|?]; [right|left; by rewrite lookup_delete_ne].
      rewrite lookup_delete_eq, list_elem_of_singleton. done.
    + intros _ k ->%list_elem_of_singleton. apply lookup_delete_eq.
Qed.

(** The ids that the policies of the declared storages select in these groups. *)
Definition selected_ids (slots : list (Slot W)) (groups : list (string * list VersionRow)) : list string :=
  mjoin ((λ kg : string * list VersionRow,
    match policyFor kg.1 slots with Some p => ver_ID <$> selectPrunable kg.2 p | None => [] end) <$> groups).

Lemma prune_groups_spec groups (m : Manager W) :
  wp (prune_groups groups) (λ e m', removes (selected_ids (mg_slots m) groups) m e m') m.
Proof.
  revert m. induction groups as [|[key g] groups IH]; intros m; cbn [prune_groups].
  { apply wp_ret. split; [done|]. split; [auto|]. by intros _ k ?%elem_of_nil. }
  apply wp_bind, wp_gets. unfold selected_ids. rewrite fmap_cons. cbn [mjoin list_join fst snd].
  fold (selected_ids (mg_slots m) groups). destruct (policyFor key (mg_slots m)) as [p|] eqn:Hp; [|apply IH].
  apply wp_bind. eapply wp_mono; [apply prune_versions_spec|]. intros [e|] m1 Hr.
  - apply wp_ret. eapply removes_error; [done|]. intros k. rewrite elem_of_app. auto.
  - eapply wp_mono; [apply IH|]. intros e m2 Hr2. eapply removes_app; [done|].
    by rewrite <-(proj1 Hr).
Qed.

(** The versions of the device on the storage of [v], as the registry lists them: newest first. *)
Definition storage_group (udid : string) (v : VersionRow) (m : Manager W) : list VersionRow :=
  filter (λ r, storage_key r = storage_key v) (device_rows udid (mg_db m)).

Lemma Prune_spec udid (m : Manager W) :
  wp (Prune udid) (λ e m',
    removes (selected_ids (mg_slots m) (range (by_storage (device_rows udid (mg_db m))))) m e m' ∨
    is_Some e ∧ vers m' = vers m) m.
Proof.
  unfold Prune. apply wp_bind, wp_list.
  - intros m1 (HS & _)%db_step_fields HV. eapply wp_mono; [apply prune_groups_spec|].
    intros e1 m2 Hr. left. destruct Hr as (HS2 & Hc & Hall). rewrite HS in *. rewrite HV in Hc.
    split; [congruence|]. done.
  - intros e1 m1 _ HV _. apply wp_ret. right. eauto.
Qed.

(** The policy of the version's own storage selects it. *)
Definition selected (udid : string) (m : Manager W) (v : VersionRow) : Prop :=
  ∃ p, policyFor (storage_key v) (mg_slots m) = Some p ∧ v ∈ selectPrunable (storage_group udid v m) p.

Lemma selected_ids_iff udid (m : Manager W) k : udid ≠ ""%string → db_ok (mg_db m) →
  k ∈ selected_ids (mg_slots m) (range (by_storage (device_rows udid (mg_db m)))) ↔
  ∃ v, vers m !! k = Some v ∧ ver_UDID v = udid ∧ selected udid m v.
Proof.
  intros Hu Hok. set (rows := device_rows udid (mg_db m)). unfold selected_ids. rewrite list_elem_of_join. split.
  - intros (l & Hk & Hl). apply list_elem_of_fmap in Hl as ([key g] & -> & Hg). simpl in Hk.
    apply elem_of_range in Hg. rewrite by_storage_lookup in Hg.
    destruct (policyFor key (mg_slots m)) as [p|] eqn:Hp; [|by apply elem_of_nil in Hk].
    apply list_elem_of_fmap in Hk as (r & -> & Hr).
    assert (filter (λ r, storage_key r = key) rows = g) as Hgf by (by destruct (filter _ rows); simplify_eq).
    assert (r ∈ rows ∧ storage_key r = key) as [Hrr Hkey].
    { unfold selectPrunable in Hr. apply list_elem_of_filter in Hr as [_ Hr].
      apply elem_of_candidates in Hr as [Hr _]. rewrite <-Hgf in Hr. apply list_elem_of_filter in Hr as [??]. done. }
    apply elem_of_device_rows in Hrr as [Hv Huv]; [|done|done]. exists r. split; [done|]. split; [done|].
    exists p. rewrite Hkey. split; [done|]. unfold storage_group. fold rows. by rewrite Hkey, Hgf.
  - intros (r & Hv & Huv & p & Hp & Hs). pose proof (versions_keyed _ Hok _ _ Hv) as Hid.
    set (g := storage_group udid r m) in *.
    exists (ver_ID <$> selectPrunable g p). split; [by apply list_elem_of_fmap; exists r|].
    apply list_elem_of_fmap. exists (storage_key r, g). simpl. rewrite Hp. split; [done|].
    apply elem_of_range. rewrite by_storage_lookup. change (filter _ rows) with g.
    destruct g eqn:Hg; [|done]. unfold selectPrunable, candidates in Hs. simpl in Hs. by apply elem_of_nil in Hs.
Qed.

Lemma selected_unprotected udid m v : selected udid m v → protected v = false.
Proof.
  intros (p & _ & Hs). unfold selectPrunable in Hs. apply list_elem_of_filter in Hs as [_ Hs].
  by apply elem_of_candidates in Hs as [_ ?].
Qed.

(** What [Prune] may do to a row of the registry. *)
Lemma Prune_row udid (m : Manager W) k : udid ≠ ""%string → db_ok (mg_db m) →
  vers (Prune udid m).2 !! k = vers m !! k ∨
  vers (Prune udid m).2 !! k = None ∧ ∃ v, vers m !! k = Some v ∧ ver_UDID v = udid ∧ selected udid m v.
Proof.
  intros Hu Hok. destruct (Prune_spec udid m) as [(_ & Hc & _)|[_ ->]]; [|by left].
  destruct (Hc k) as [?|[Hk ?]]; [by left|right]. split; [done|]. by apply selected_ids_iff.
Qed.

(** C12: retention removes exactly what it may: whatever fails, a version that [Prune] removed is one of
    this device that the policy of the version's own storage selects among that storage's versions,
    so never an adopted, latest or missing one, and no other row changes; when [Prune] reports no
    error, every version that a declared storage's policy selects is gone. *)
Theorem prune_removes_selected udid (m : Manager W) : udid ≠ ""%string → db_ok (mg_db m) →
  let '(e, m') := Prune udid m in
  (∀ k v, vers m !! k = Some v →
     vers m' !! k = Some v ∨
     vers m' !! k = None ∧ ver_UDID v = udid ∧ protected v = false ∧ selected udid m v) ∧
  (∀ k v, vers m' !! k = Some v → vers m !! k = Some v) ∧
  (e = None → ∀ k v, vers m !! k = Some v → ver_UDID v = udid → selected udid m v → vers m' !! k = None).
Proof.
  intros Hu Hok. pose proof (λ k, Prune_row udid m k Hu Hok) as Hrow. pose proof (Prune_spec udid m) as Hspec.
  unfold wp in Hspec. destruct (Prune udid m) as [e m']. simpl in *. split; [|split].
  - intros k v Hv. destruct (Hrow k) as [->|(Hn & w & Hw & Huw & Hs)]; [auto|right].
    assert (w = v) as -> by congruence. eauto using selected_unprotected.
  - intros k v Hv. destruct (Hrow k) as [He|[He _]]; congruence.
  - intros -> k v Hv Huv Hs. destruct Hspec as [(_ & _ & Hall)|[[? ?] _]]; [|done].
    apply Hall; [done|]. apply selected_ids_iff; eauto.
Qed.

(** ** Committing *)

Lemma wp_insert v Q (m : Manager W) :
  (∀ m', db_step m m' → vers m !! ver_ID v = None →
     vers m' = <[ver_ID v := store_version v]> (vers m) → Q None m') →
  (∀ e m', db_step m m' → vers m' = vers m → Q (Some e) m') →
  wp (reg (InsertVersion v)) Q m.
Proof.
  intros HN HS. apply wp_lift. unfold wp. pose proof (InsertVersion_ok v (mg_db m)) as Hok'.
  unfold InsertVersion, exec, statement, db_step, healthy, vers in *.
  destruct (db_faults (mg_db m)) as [|[] fs] eqn:Hf; simpl in *; try (by apply HS);
    (destruct (db_versions (mg_db m) !! ver_ID v) eqn:Hl; simpl in *; [by apply HS|by apply HN]).
Qed.

Lemma prune_keeps_protected udid (m : Manager W) k v : udid ≠ ""%string → db_ok (mg_db m) →
  vers m !! k = Some v → protected v = true → vers (Prune udid m).2 !! k = Some v.
Proof.
  intros Hu Hok Hv Hp. destruct (Prune_row udid m k Hu Hok) as [->|(_ & w & Hw & _ & Hs)]; [done|].
  apply selected_unprotected in Hs. congruence.
Qed.

(** The manager's reads before a commit leave its rows alone. *)
Definition reads (m m' : Manager W) : Prop :=
  vers m' = vers m ∧ mg_slots m' = mg_slots m ∧ (healthy m → healthy m') ∧ (db_ok (mg_db m) → db_ok (mg_db m')).

#[global] Instance reads_trans : Transitive reads.
Proof. intros a b c (H1 & H2 & H3 & H4) (H5 & H6 & H7 & H8). split; [congruence|]. split; [congruence|]. auto. Qed.

Lemma db_step_reads m m' : db_step m m' → vers m' = vers m → reads m m'.
Proof. intros Hs HV. pose proof (db_step_fields _ _ Hs) as (HS & _). split; [done|]. split; [done|]. apply Hs. Qed.

Lemma seedKind_reads s udid (m : Manager W) : wp (seedKind s udid) (λ _ m', reads m m') m.
Proof.
  unfold seedKind. apply wp_bind, wp_disk. destruct (read_work_state _ _) as [r w]. simpl.
  assert (reads m (set_world w m)) as Hr by done.
  destruct r as [[ws|]|e]; [by apply wp_ret|..]; (apply wp_bind, wp_list;
    [intros m1 Hs HV|intros e1 m1 Hs HV _]; apply wp_ret; (etrans; [exact Hr|]); by apply db_step_reads).
Qed.

(** The backend of the storage that the job is bound to committed [c], from a tree of the job that had
    passed the structural check, and the registry had no row under its id. *)
Definition committed_by (udid jobID : string) (m : Manager W) (s : Slot W) (c : Committed) : Prop :=
  ∃ b kind vr req w1 w2 w3 w4,
    jobSlot (mg_slots m) (mg_jobStorage m) jobID = Ok s ∧ s_Backend s = Some b ∧
    verify_tree (b_TreePath b udid jobID) kind w1 = (vr, w2) ∧ vr_OK vr = true ∧
    b_Commit b req w3 = (Ok c, w4) ∧ cr_UDID req = udid ∧ cr_JobID req = jobID ∧ cr_Verify req = vr ∧
    vers m !! co_VersionID c = None.

(** What [CommitJob] returned and left, from [m] to [m'].  Where a statement failed, the row may be
    there though the commit is reported as failed, not promoted yet; and the version that is reported
    may be the empty one, since the read of the row goes unchecked. *)
Definition commit_outcome (udid jobID : string) (m : Manager W) (r : option (result Version)) (m' : Manager W) : Prop :=
  match r with
  | None => m' = m
  | Some (Err _) =>
      vers m' = vers m ∨
      ¬ healthy m ∧ ∃ s c, committed_by udid jobID m s c ∧
        vers m' = <[co_VersionID c := store_version (committed_row s c)]> (vers m)
  | Some (Ok v) =>
      ∃ s c, committed_by udid jobID m s c ∧
        (wv_ID v = co_VersionID c ∨ ¬ healthy m ∧ wv_ID v = ""%string) ∧
        vers m' !! co_VersionID c = Some (store_version (committed_row s c)) ∧
        (∀ k v', vers m' !! k = Some v' → ver_UDID v' = co_UDID c → ver_StorageID v' = slotIDPtr s →
           ver_IsLatest v' = true → k = co_VersionID c)
  end.

(** The end of a commit whose row was inserted and promoted, from [m6]. *)
Lemma commit_tail udid jobID (m m5 m6 : Manager W) s c :
  udid ≠ ""%string → (healthy m → healthy m6) → db_ok (mg_db m5) → db_ok (mg_db m6) →
  committed_by udid jobID m s c → vers m5 = <[co_VersionID c := store_version (committed_row s c)]> (vers m) →
  vers m6 = (λ v, if bool_decide (ver_UDID v = co_UDID c ∧ ver_StorageID v = slotIDPtr s)
                  then set_latest (bool_decide (ver_ID v = co_VersionID c)) v else v) <$> vers m5 →
  wp (row ← get_row (co_VersionID c);
      m ← gets id;
      let v := toWire row m in
      publish (EventVersionCreated v);;
      _ ← Prune udid;
      mret (Ok v)) (λ r, commit_outcome udid jobID m (Some r)) m6.
Proof.
  intros Hu Hh Hok5 Hok6 Hby HV5 HV6. set (row := store_version (committed_row s c)) in *.
  assert (vers m6 !! co_VersionID c = Some row) as Hrow.
  { rewrite HV6, lookup_fmap, HV5, lookup_insert_eq. simpl. f_equal.
    rewrite bool_decide_true by done. by rewrite bool_decide_true. }
  assert (∀ m7 r, db_step m6 m7 → vers m7 = vers m6 →
    (ver_ID r = co_VersionID c ∨ ¬ healthy m ∧ ver_ID r = ""%string) →
    wp (m ← gets id;
        let v := toWire r m in
        publish (EventVersionCreated v);;
        _ ← Prune udid;
        mret (Ok v)) (λ r, commit_outcome udid jobID m (Some r)) m7) as Hend.
  { intros m7 r (_ & _ & Hok7) HV7 Hr. apply wp_bind, wp_gets, wp_bind, wp_modify.
    set (m8 := mkManager _ _ _ _ _ _ _ _ _). apply wp_bind. unfold wp at 1. apply wp_ret.
    assert (vers m8 = vers m6) as HV8 by exact HV7.
    assert (db_ok (mg_db m8)) as Hok8 by exact (Hok7 Hok6).
    exists s, c. split_and!; [done|done|..].
    - apply prune_keeps_protected; [done|done|by rewrite HV8|]. unfold protected, row. simpl.
      by destruct (bool_decide _).
    - intros k v' Hv' Huv Hst Hlat.
      assert (vers m6 !! k = Some v') as Hv6.
      { destruct (Prune_row udid m8 k Hu Hok8) as [He|[He _]]; rewrite He in Hv'; [by rewrite <-HV8|done]. }
      rewrite HV6, lookup_fmap_Some in Hv6. destruct Hv6 as (u & <- & Hku).
      pose proof (versions_keyed _ Hok5 _ _ Hku) as Hid.
      revert Hlat. case_bool_decide as Hg; simpl.
      + intros Hlat%bool_decide_eq_true. congruence.
      + intros _. by destruct Hg. }
  apply wp_bind. unfold get_row. apply wp_bind, wp_get.
  - intros m7 Hs HV7. rewrite Hrow. apply wp_ret. apply Hend; [done|done|by left].
  - intros e m7 Hs HV7 Hn. apply wp_ret. apply Hend; [done|done|right]. split; [by intros ?%Hh|done].
Qed.

Lemma CommitJob_outcome udid jobID (m : Manager W) : udid ≠ ""%string → db_ok (mg_db m) →
  commit_outcome udid jobID m (CommitJob udid jobID m).1 (CommitJob udid jobID m).2.
Proof.
  intros Hu Hok. enough (wp (CommitJob udid jobID) (commit_outcome udid jobID m) m) as Hwp by exact Hwp.
  unfold CommitJob, slot_of_job. apply wp_bind, wp_gets.
  destruct (jobSlot _ _ _) as [s|e] eqn:Hslot; [|by apply wp_ret; left].
  destruct (s_Backend s) as [b|] eqn:Hb; [|by apply wp_ret; left].
  apply wp_bind, wp_gets. case_match; [by apply wp_ret|]. apply wp_bind. unfold commit_leased.
  apply wp_bind. eapply wp_mono; [apply seedKind_reads|]. intros kind m1 Hr1.
  apply wp_bind, wp_disk. destruct (verify_tree _ kind (mg_world m1)) as [vr w2] eqn:Hvr. simpl.
  set (m2 := set_world w2 m1). assert (reads m m2) as Hr2 by exact Hr1.
  destruct (vr_OK vr) eqn:Hvok; simpl; [|apply wp_ret, wp_ret; left; apply Hr2].
  apply wp_bind. unfold wp at 1. cbn [newID fst snd]. set (m3 := mkManager _ _ _ _ _ _ _ _ _).
  assert (reads m m3) as Hr3 by exact Hr2.
  apply wp_bind, wp_gets, wp_bind, wp_disk. set (req := mkCommitReq _ _ _ _ _).
  destruct (b_Commit b req (mg_world m3)) as [[c|e] w4] eqn:Hc; simpl; [|apply wp_ret, wp_ret; left; apply Hr3].
  set (m4 := set_world w4 m3). assert (reads m m4) as (HV4 & HS4 & Hh4 & Hok4) by exact Hr3.
  specialize (Hok4 Hok).
  apply wp_bind. unfold registerCommitted. apply wp_bind, wp_insert.
  2: { intros e m5 _ HV5. apply wp_ret, wp_ret, wp_ret. left. congruence. }
  intros m5 (_ & Hh5 & Hok5) Hnew HV5. specialize (Hok5 Hok4).
  change (ver_ID (committed_row s c)) with (co_VersionID c) in *. rewrite HV4 in Hnew, HV5.
  assert (committed_by udid jobID m s c) as Hby.
  { exists b, kind, vr, req, (mg_world m1), w2, (mg_world m3), w4. by split_and!. }
  eapply wp_write; [reflexivity|apply PromoteLatest_ok|..].
  - intros m6 (_ & Hh6 & Hok6) HV6.
    eapply wp_mono; [eapply (commit_tail _ _ m); [done|auto|exact Hok5|auto|done|done|exact HV6]|].
    intros r m7 Hr. by apply wp_ret.
  - intros e m6 _ HV6 Hn. apply wp_ret, wp_ret. right. split; [by intros ?%Hh4%Hh5|].
    exists s, c. split; [done|]. congruence.
Qed.

(** C11: a commit that succeeds has verified the job's tree, and leaves the registry with a row for the
    version the backend committed, under an id that had none: recorded on the storage the job is bound to,
    latest there and the only latest of that device and storage.  Retention runs after it and never
    removes it.  A commit that fails leaves every row as it was, unless a statement of the registry failed:
    then the row of what the backend committed may be there beside them.  The version that is
    reported is the committed one, unless a statement failed. *)
Theorem commit_registers udid jobID (m : Manager W) : udid ≠ ""%string → db_ok (mg_db m) →
  commit_outcome udid jobID m (CommitJob udid jobID m).1 (CommitJob udid jobID m).2.
Proof. apply CommitJob_outcome. Qed.
End manager.

(** ** Concrete runs *)

#[local] Instance demo_world : StorageWorld unit := {|
  read_storage_marker := λ _, mret SMAbsent;
  read_work_state := λ _, mret (Ok None);
  read_dir_names := λ _, mret None;
  verify_tree := λ _ _, mret (mkVerifyResult true true "full" 10 "") |}.
#[local] Instance demo_order : MapRange := some_order.
#[local] Instance demo_sort : SortSlice := stable_sort.

Definition demo_committer : Backend unit :=
  mkBackend unit BackendCopy (λ _, mret None) (λ _ _, mret (Ok [])) (λ _ _, mret (Ok ([], false)))
    (λ _ _, mret None) (λ _ _, [])
    (λ r, mret (Ok (mkCommitted (cr_VersionID r) (cr_UDID r) BackendCopy None (cr_CreatedAt r) (Some (cr_JobID r))
       "full" true (cr_CreatedAt r) 10)))
    (λ _, mret (Err "")) (λ _ _, mret (""%string, None)) (λ _, mret None) (λ _, mret None)
    (λ _, mret (Ok [])) (mret (Ok [])) (λ _, mret None) (λ _ _, false).

(** One storage that keeps one version beside the latest, with three versions on it. *)
Definition demo_versions : DB :=
  mkDB ∅ (list_to_map ((λ v, (ver_ID v, v)) <$>
    [demo_row "v1" (Some "disk-a"%string) false false; demo_row "v2" (Some "disk-a"%string) false false;
     demo_row "v3" (Some "disk-a"%string) false true])) ∅ [].

Definition demo_manager : Manager unit :=
  mkManager [mkSlot "disk-a" "a" ["a"]%string (Some demo_committer) BackendCopy (mkRetention 1 0 0) true "" ""]
    (<["job-1" := mkBinding "disk-a" "device-1"]> ∅) ∅ demo_versions tt [] ["v4"; "audit-1"; "audit-2"]%string
    (100 * Second) [].

Lemma demo_versions_ok : db_ok demo_versions.
Proof.
  split; [intros k j Hj; change (db_jobs demo_versions) with (∅ : gmap string JobRow) in Hj;
          by rewrite lookup_empty in Hj|].
  assert (map_Forall (λ k v, ver_ID v = k) (db_versions demo_versions)) as Hall; [|intros k v Hk; by apply Hall].
  apply (bool_decide_unpack _). vm_compute. exact I.
Qed.

Lemma prune_removes_selected_witness :
  selected "device-1" demo_manager (demo_row "v1" (Some "disk-a"%string) false false) ∧
  vers (Prune "device-1" demo_manager).2 !! "v1"%string = None ∧
  is_Some (vers (Prune "device-1" demo_manager).2 !! "v2"%string).
Proof.
  assert (selected "device-1" demo_manager (demo_row "v1" (Some "disk-a"%string) false false)) as Hs.
  { exists (mkRetention 1 0 0). split; [reflexivity|]. apply (bool_decide_unpack _). vm_compute. exact I. }
  split; [exact Hs|].
  pose proof (prune_removes_selected "device-1" demo_manager ltac:(done) demo_versions_ok) as Hp.
  assert ((Prune "device-1" demo_manager).1 = None) as He by (vm_compute; reflexivity).
  destruct (Prune "device-1" demo_manager) as [e m'] eqn:HP. destruct Hp as (_ & _ & Hall). split.
  - exact (Hall He "v1"%string _ eq_refl eq_refl Hs).
  - change m' with (e, m').2. rewrite <-HP. vm_compute. eauto.
Defined.

Lemma commit_registers_witness :
  commit_outcome "device-1" "job-1" demo_manager (CommitJob "device-1" "job-1" demo_manager).1
    (CommitJob "device-1" "job-1" demo_manager).2 ∧
  (λ v, (ver_ID v, ver_IsLatest v)) <$> (map_to_list (vers (CommitJob "device-1" "job-1" demo_manager).2)).*2
  = [("v3", false); ("v4", true)]%string.
Proof.
  split; [|vm_compute; reflexivity].
  apply commit_registers; [done|exact demo_versions_ok].
Defined.

(** The row was inserted, its promotion fails: the commit is reported as failed, and both versions are
    in the registry. *)
Example unpromoted_commit_stays :
  let m := set_db (mkDB ∅ (db_versions demo_versions) ∅ [false; false; true]) demo_manager in
  let '(r, m') := CommitJob "device-1" "job-1" m in
  (match r with Some (Err _) => true | _ => false end) = true ∧ is_Some (vers m' !! "v4"%string).
Proof. vm_compute. eauto. Qed.

(** The row is read back without a look at the error: a read that fails makes the commit report a
    version without an id. *)
Example unread_commit_reports_nothing :
  let m := set_db (mkDB ∅ (db_versions demo_versions) ∅ [false; false; false; true]) demo_manager in
  let '(r, m') := CommitJob "device-1" "job-1" m in
  (match r with Some (Ok v) => wv_ID v | _ => "none" end) = ""%string ∧ is_Some (vers m' !! "v4"%string).
Proof. vm_compute. eauto. Qed.
