(* ===== verification/InfoPlist.v ===== *)
(** * InfoPlist: waiting for the tool's Info.plist

    Models awaitInfoPlist and readStableInfo of core/internal/backup/engine.go.  The tool writes the
    file in place, so its bytes are only taken once two looks in a row saw the same size. *)

From Stdlib Require Import String Ascii.
From S2P Require Import Prelude.

(** What one look at the file finds: its size, if it is there, and what a read then gives. *)
Record info_look : Type := mkLook { lk_size : option Z; lk_read : option string }.

(** [last] is -1 before the first look and after one that found nothing. *)
Definition readStableInfo (lk : info_look) (last : Z) : option string * Z :=
  match lk_size lk with
  | None => (None, -1)
  | Some size =>
      if size =? 0 then (None, -1)
      else if negb (size =? last) then (None, size)
      else (lk_read lk, last)
  end.

Inductive info_event : Type :=
  | InfoPoll (lk : info_look)
  | InfoExited (lk : info_look)     (* the tool's output closed; one last look *)
  | InfoGone.                       (* the context is done, or the time is over *)

(** The fresh bytes, or [Some None] when the tool exited or was cancelled; [None] while it waits. *)
Fixpoint awaitInfoPlist (evs : list info_event) (last : Z) : option (option string) :=
  match evs with
  | [] => None
  | InfoGone :: _ => Some None
  | InfoExited lk :: _ => Some (readStableInfo lk last).1
  | InfoPoll lk :: evs =>
      match readStableInfo lk last with
      | (Some info, _) => Some (Some info)
      | (None, last) => awaitInfoPlist evs last
      end
  end.

(** ** Specification *)

Definition look_of (e : info_event) : option info_look :=
  match e with InfoPoll lk | InfoExited lk => Some lk | InfoGone => None end.

(** Two looks in a row saw the same file of some size, and the second could read it. *)
Definition stable_pair (prev cur : info_look) : option string :=
  match lk_size prev, lk_size cur with
  | Some a, Some b => if (a =? b) && negb (a =? 0) then lk_read cur else None
  | _, _ => None
  end.

(** The first stable pair among the looks, if the wait is not over before it. *)
Fixpoint first_stable (prev : info_look) (evs : list info_event) : option (option string) :=
  match evs with
  | [] => None
  | InfoGone :: _ => Some None
  | InfoExited lk :: _ => Some (stable_pair prev lk)
  | InfoPoll lk :: evs => match stable_pair prev lk with Some info => Some (Some info) | None => first_stable lk evs end
  end.

Definition absent : info_look := mkLook None None.

(** What [last] holds after a look. *)
Definition size_seen (lk : info_look) : Z :=
  match lk_size lk with Some n => if n =? 0 then -1 else n | None => -1 end.

Definition look_ok (e : info_event) : Prop :=
  match e with InfoPoll lk | InfoExited lk => ∀ n, lk_size lk = Some n → 0 ≤ n | InfoGone => True end.

Lemma readStableInfo_pair prev lk :
  (∀ n, lk_size prev = Some n → 0 ≤ n) → (∀ n, lk_size lk = Some n → 0 ≤ n) →
  readStableInfo lk (size_seen prev) = (stable_pair prev lk, size_seen lk).
Proof.
  intros Hp Hl. unfold readStableInfo, stable_pair, size_seen.
  destruct (lk_size lk) as [b|]; [|by destruct (lk_size prev)]. specialize (Hl b eq_refl).
  destruct (Z.eqb_spec b 0) as [->|Hb].
  { destruct (lk_size prev) as [a|]; [|done]. by destruct (Z.eqb_spec a 0) as [->|]. }
  destruct (lk_size prev) as [a|]; simpl.
  - specialize (Hp a eq_refl). destruct (Z.eqb_spec a 0) as [->|Ha]; simpl.
    + rewrite andb_false_r. by destruct (Z.eqb_spec b (-1)) as [->|].
    + rewrite andb_true_r, (Z.eqb_sym a b). by destruct (Z.eqb_spec b a) as [->|].
  - destruct (Z.eqb_spec b (-1)); [lia|done].
Qed.

(** the wait for Info.plist returns the bytes of the first look that saw the same non-empty size as the look right
    before it, and nothing else: a file that grew, shrank or vanished between two looks is never
    taken, and the wait ends without bytes exactly when the tool exits, is cancelled or runs out of
    time before such a pair. *)
Theorem info_plist_stable evs : Forall look_ok evs → awaitInfoPlist evs (-1) = first_stable absent evs.
Proof.
  intros Hok. change (-1) with (size_seen absent).
  assert (∀ n, lk_size absent = Some n → 0 ≤ n) as Hp by done. revert Hp. generalize absent.
  induction Hok as [|e evs He _ IH]; intros prev Hp; [done|]. destruct e as [lk|lk|]; simpl; [| |done].
  - rewrite readStableInfo_pair by done. destruct (stable_pair prev lk); [done|]. by apply IH.
  - by rewrite readStableInfo_pair.
Qed.

Lemma info_plist_stable_witness :
  awaitInfoPlist [InfoPoll (mkLook (Some 10) (Some "part")); InfoPoll (mkLook (Some 20) (Some "whole"));
    InfoPoll (mkLook (Some 20) (Some "whole"))]%string (-1) = Some (Some "whole"%string).
Proof.
  rewrite info_plist_stable; [reflexivity|]. repeat constructor; simpl; intros n [= <-]; lia.
Defined.

(** A file that landed as the tool exited: the last look sees it whole, but has no look before it to
    agree with, so the bytes are not taken. *)
Example last_look_alone : ∀ info,
  awaitInfoPlist [InfoPoll absent; InfoExited (mkLook (Some 20) (Some info))] (-1) = Some None.
Proof. reflexivity. Qed.
