(* ===== verification/Engine.v ===== *)
(** * Engine: the backup engine

    Models core/internal/backup/engine.go and supervisor.go over the storage manager.  A job is
    driven by its own goroutine, whose place in [run] is [run_pc]; its tool's output arrives line
    by line, and its sampler ticks on its own.  Each critical section is one atomic step; what the
    device, the tool and the clock do are inputs.  Go's [liveJob] pointer is the job's id in
    [en_jobs], where a job stays after [release]: its sampler still holds it. *)

From Stdlib Require Import String Ascii.
From S2P Require Import Prelude Calendar Domain Sampler Parser JobLog Store Backend Slots FS Sidecars.
From S2P Require Import Slots Verify Retention Manager.

(** ** A job *)

Record superviseState : Type := mkSS {
  ss_paused : bool; ss_outputSince : bool; ss_success : bool; ss_failReason : string;
  ss_bytesBanked : Z; ss_batchBytes : Z }.
Definition new_superviseState : superviseState := mkSS false false false "" 0 0.

Record liveJob : Type := mkLiveJob {
  lj_row : JobRow;
  lj_cancelled : bool;             (* its context's own cancel *)
  lj_killReason : string;          (* "cancel" | "timeout" | "" *)
  lj_lastEmit : time;
  lj_logRun : logRun }.

Definition set_row (r : JobRow) (j : liveJob) : liveJob :=
  mkLiveJob r (lj_cancelled j) (lj_killReason j) (lj_lastEmit j) (lj_logRun j).
Definition set_kill (cancelled : bool) (reason : string) (j : liveJob) : liveJob :=
  mkLiveJob (lj_row j) cancelled reason (lj_lastEmit j) (lj_logRun j).
Definition set_lastEmit (t : time) (j : liveJob) : liveJob :=
  mkLiveJob (lj_row j) (lj_cancelled j) (lj_killReason j) t (lj_logRun j).
Definition set_logRun (l : logRun) (j : liveJob) : liveJob :=
  mkLiveJob (lj_row j) (lj_cancelled j) (lj_killReason j) (lj_lastEmit j) l.

(** ** Outcomes *)

Inductive outcomeKind : Type :=
  | outcomeProcOK | outcomeProcErr | outcomeTimeout | outcomeCancel | outcomeShutdown | outcomeSeedErr.

Record superviseResult : Type := mkResult {
  sr_kind : outcomeKind; sr_detail : string; sr_backupSuccessful : bool }.

(** Where the job's goroutine is: before [run], in [awaitDevice], in [preflight], before
    [PrepareWork], before [cmd.Start] (with the target, and whether a clone is pending), in
    [awaitInfoPlist], before [SeedWork], before the sampler starts, in [runToolLoop], before [cmd.Wait], before [VerifyWork],
    [CommitJob], [Discard] and [release], and at its end. *)
Inductive run_pc : Type :=
  | PcStart
  | PcAwait
  | PcPreflight
  | PcPrepare
  | PcLaunch (target : path) (seedPending : bool)
  | PcInfo (tree : path)
  | PcSeed (tree : path) (info : string)
  | PcEnterLoop
  | PcLoop
  | PcReap
  | PcSettle (r : superviseResult)      (* the tool's end is judged, and not acted on yet *)
  | PcVerify
  | PcCommit
  | PcDiscard
  | PcRelease
  | PcDone.

(** The sampler's goroutine: none, between ticks, holding a verdict, returned. *)
Inductive sampling : Type :=
  | SampleNone
  | SampleIdle (s : sampler)
  | SampleHolds (s : sampler) (v : verdict)
  | SampleOver.

Record jobProc : Type := mkProc {
  pr_job : liveJob; pr_pc : run_pc; pr_ss : superviseState; pr_sampling : sampling }.

Definition set_job (j : liveJob) (p : jobProc) : jobProc := mkProc j (pr_pc p) (pr_ss p) (pr_sampling p).
Definition set_pc (pc : run_pc) (p : jobProc) : jobProc := mkProc (pr_job p) pc (pr_ss p) (pr_sampling p).
Definition set_ss (s : superviseState) (p : jobProc) : jobProc := mkProc (pr_job p) (pr_pc p) s (pr_sampling p).
Definition set_sampling (s : sampling) (p : jobProc) : jobProc := mkProc (pr_job p) (pr_pc p) (pr_ss p) s.

Definition pr_row (p : jobProc) : JobRow := lj_row (pr_job p).

(** ** What a line of output does *)

Definition ss_line (p : parsed) (s : superviseState) : superviseState :=
  mkSS (if p_phaseReceiving p then false else if p_waitingPasscode p then true else ss_paused s)
    true (ss_success s || p_success p)
    (if bool_decide (p_failReason p = "") then ss_failReason s else p_failReason p)
    (ss_bytesBanked s) (ss_batchBytes s).

Definition moves_progress (p : parsed) : bool :=
  p_waitingPasscode p || p_phaseReceiving p || bool_decide (is_Some (p_overallPercent p)) || p_hasBytes p
  || bool_decide (is_Some (p_receivedFiles p)).

(** The mutation that [handleLine] hands to [progress], in its order. *)
Definition progress_line (p : parsed) (rs : JobRow * superviseState) : JobRow * superviseState :=
  let '(r, s) := rs in
  let r := if p_waitingPasscode p then Domain.with_phase PhaseWaitingForPasscode r else r in
  let r := if p_phaseReceiving p then Domain.with_phase PhaseReceiving r else r in
  let s := if p_phaseReceiving p
           then mkSS (ss_paused s) (ss_outputSince s) (ss_success s) (ss_failReason s)
                  (wrap64 (ss_bytesBanked s + ss_batchBytes s)) 0
           else s in
  let r := match p_overallPercent p with Some _ => with_percent (p_overallPercent p) r | None => r end in
  let r := match p_receivedFiles p with Some n => with_files n r | None => r end in
  if p_hasBytes p then
    let s := mkSS (ss_paused s) (ss_outputSince s) (ss_success s) (ss_failReason s)
               (ss_bytesBanked s) (p_bytesDone p) in
    (with_bytes (wrap64 (ss_bytesBanked s + ss_batchBytes s)) 0 r, s)
  else (r, s).

(** ** The engine *)

Inductive engine_event : Type :=
  | EventJobUpdated (j : Job)
  | EventJobLog (jobID udid chunk : string)
  | AnnounceBackup (udid : string).

Section engine.
Context {W : Type} `{!StorageWorld W, !MapRange}.

Record Engine : Type := mkEngine {
  en_cfg : Config;
  en_backups : string;                    (* the default storage's root, as text *)
  en_live : bool * string;                (* requireEncryption, preferredTransport *)
  en_mgr : Manager W;                     (* the storage manager, with the registry and the clock *)
  en_devices : gmap string Device;
  en_running : gmap string string;        (* by UDID *)
  en_jobs : gmap string jobProc;
  en_logs : logStore;
  en_events : list engine_event;          (* oldest first *)
  en_shutdown : bool }.                   (* the base context is done *)

Definition set_mgr (m : Manager W) (e : Engine) : Engine :=
  mkEngine (en_cfg e) (en_backups e) (en_live e) m (en_devices e) (en_running e) (en_jobs e) (en_logs e)
    (en_events e) (en_shutdown e).
Definition set_live (l : bool * string) (e : Engine) : Engine :=
  mkEngine (en_cfg e) (en_backups e) l (en_mgr e) (en_devices e) (en_running e) (en_jobs e) (en_logs e)
    (en_events e) (en_shutdown e).
Definition set_devices (d : gmap string Device) (e : Engine) : Engine :=
  mkEngine (en_cfg e) (en_backups e) (en_live e) (en_mgr e) d (en_running e) (en_jobs e) (en_logs e)
    (en_events e) (en_shutdown e).
Definition set_running (f : gmap string string → gmap string string) (e : Engine) : Engine :=
  mkEngine (en_cfg e) (en_backups e) (en_live e) (en_mgr e) (en_devices e) (f (en_running e)) (en_jobs e)
    (en_logs e) (en_events e) (en_shutdown e).
Definition set_jobs (f : gmap string jobProc → gmap string jobProc) (e : Engine) : Engine :=
  mkEngine (en_cfg e) (en_backups e) (en_live e) (en_mgr e) (en_devices e) (en_running e) (f (en_jobs e))
    (en_logs e) (en_events e) (en_shutdown e).
Definition set_logs (l : logStore) (e : Engine) : Engine :=
  mkEngine (en_cfg e) (en_backups e) (en_live e) (en_mgr e) (en_devices e) (en_running e) (en_jobs e) l
    (en_events e) (en_shutdown e).
Definition add_event (ev : engine_event) (e : Engine) : Engine :=
  mkEngine (en_cfg e) (en_backups e) (en_live e) (en_mgr e) (en_devices e) (en_running e) (en_jobs e)
    (en_logs e) (en_events e ++ [ev]) (en_shutdown e).
Definition set_shutdown (e : Engine) : Engine :=
  mkEngine (en_cfg e) (en_backups e) (en_live e) (en_mgr e) (en_devices e) (en_running e) (en_jobs e)
    (en_logs e) (en_events e) true.

Definition storage {A} (f : stateM (Manager W) A) : stateM Engine A := lift_state en_mgr set_mgr f.
Definition job_store {A} (f : stateM DB A) : stateM Engine A := storage (reg f).
Definition engine_now (e : Engine) : time := mg_now (en_mgr e).

Definition update_proc (id_ : string) (f : jobProc → jobProc) : stateM Engine unit :=
  modify (set_jobs (alter f id_)).
Definition goto (id_ : string) (pc : run_pc) : stateM Engine unit := update_proc id_ (set_pc pc).

Definition emit (row : JobRow) : stateM Engine unit := modify (add_event (EventJobUpdated (jobToWire row))).

(** ** Writing a job's row *)

Definition with_proc {A} (id_ : string) (d : A) (k : jobProc → stateM Engine A) : stateM Engine A :=
  p ← gets (λ e, en_jobs e !! id_);
  match p with Some p => k p | None => mret d end.

(** [transition]: mutate, persist, then emit. *)
Definition transition (id_ : string) (mutate : JobRow → JobRow) : stateM Engine unit :=
  with_proc id_ tt (λ p,
    let row := mutate (pr_row p) in
    update_proc id_ (set_job (set_row row (pr_job p)));;
    _ ← job_store (UpdateJob row);
    emit row).

(** [progress]: always mutate; persist and emit on the throttle's cadence. *)
Definition progress (id_ : string) (mutate : JobRow * superviseState → JobRow * superviseState) :
    stateM Engine unit :=
  with_proc id_ tt (λ p,
    let '(row, ss) := mutate (pr_row p, pr_ss p) in
    now ← gets engine_now;
    cfg ← gets en_cfg;
    if time_sub now (lj_lastEmit (pr_job p)) <? ProgressThrottle cfg then
      update_proc id_ (λ p, set_ss ss (set_job (set_row row (pr_job p)) p))
    else
      update_proc id_ (λ p, set_ss ss (set_job (set_lastEmit now (set_row row (pr_job p))) p));;
      _ ← job_store (UpdateJob row);
      emit row).

Definition terminal_row (state code msg : string) (fin : time) (r : JobRow) : JobRow :=
  with_liveness LivenessNone (Domain.with_phase "" (with_error code msg (with_finished fin (with_state state r)))).

Definition terminate (id_ state code msg : string) : stateM Engine unit :=
  now ← gets engine_now;
  transition id_ (terminal_row state code msg now).

Definition succeeded_row (versionID : option string) (fin : time) (r : JobRow) : JobRow :=
  with_version versionID (with_finished fin (with_liveness LivenessNone
    (with_percent (Some 100) (Domain.with_phase PhaseDone (with_state StateSucceeded r))))).

Definition succeed (id_ versionID : string) : stateM Engine unit :=
  now ← gets engine_now;
  transition id_ (succeeded_row (Some versionID) now);;
  with_proc id_ tt (λ p, modify (add_event (AnnounceBackup (job_UDID (pr_row p))))).

Definition enter (state phase : string) (r : JobRow) : JobRow := Domain.with_phase phase (with_state state r).
Definition enter_active (state phase : string) (r : JobRow) : JobRow :=
  with_liveness LivenessActive (enter state phase r).

(** ** Narration *)

Definition emitLog (id_ udid line : string) : stateM Engine unit :=
  let chunk := line +:+ String "010" "" in
  modify (λ e, set_logs (log_append id_ (list_ascii_of_string chunk) (en_logs e)) e);;
  modify (add_event (EventJobLog id_ udid chunk)).

Definition emit_logs (id_ udid : string) (lines : list string) : stateM Engine unit :=
  for_each (emitLog id_ udid) lines.

Definition warnDiskLow (id_ udid : string) (free : Z) : stateM Engine unit :=
  emitLog id_ udid ("WARNING: target filesystem low on space — " +:+ fmt_d (Z.shiftr free 20)
    +:+ " MiB free; backup continues, free space to avoid a disk-full failure").

Definition handleLine (id_ line : string) : stateM Engine unit :=
  with_proc id_ tt (λ p,
    let pl := parseLine line in
    (if negb (is_redraw pl) && negb (bool_decide (trim_space line = "")) then
       let '(run, out) := logLine (lj_logRun (pr_job p)) line in
       update_proc id_ (λ p, set_job (set_logRun run (pr_job p)) p);;
       emit_logs id_ (job_UDID (pr_row p)) out
     else mret tt);;
    update_proc id_ (λ p, set_ss (ss_line pl (pr_ss p)) p);;
    if moves_progress pl then progress id_ (progress_line pl) else mret tt).

Definition flush_log (id_ : string) : stateM Engine unit :=
  with_proc id_ tt (λ p,
    let '(run, out) := flushLogRun (lj_logRun (pr_job p)) in
    update_proc id_ (λ p, set_job (set_logRun run (pr_job p)) p);;
    emit_logs id_ (job_UDID (pr_row p)) out).

(** ** Control *)

Definition StatusUnprocessableEntity : Z := 422.

Definition refuse (status : Z) (reason : string) : stateM Engine (Job * Z * string) :=
  mret (zero_Job, status, reason).

Definition present (e : Engine) (udid transport : string) : bool :=
  match en_devices e !! udid with Some dev => presentOn dev transport | None => false end.

(** The concrete transport, or a status and a reason. *)
Definition resolveTransport (udid requested : string) (e : Engine) : string * Z * string :=
  if bool_decide (requested = TransportUSB ∨ requested = TransportWiFi) then (requested, 0, ""%string)
  else if bool_decide (requested = TransportAuto) then
    let '(preferred, other) := if bool_decide ((en_live e).2 = TransportWiFi)
                               then (TransportWiFi, TransportUSB) else (TransportUSB, TransportWiFi) in
    if present e udid preferred then (preferred, 0, ""%string)
    else if present e udid other then (other, 0, ""%string)
    else (""%string, StatusUnprocessableEntity,
          "device is not currently connected — connect it over USB or Wi-Fi, or choose a transport")
  else (""%string, StatusUnprocessableEntity, "transport must be usb, wifi, or auto").

Definition set_bindings (b : gmap string jobBinding) (m : Manager W) : Manager W :=
  mkManager (mg_slots m) b (mg_held m) (mg_db m) (mg_world m) (mg_events m) (mg_ids m) (mg_now m) (mg_ctx m).

Definition bind_job (jobID udid storageID : string) : stateM (Manager W) error := λ m,
  let '(e, b) := BindJobStorage (mg_slots m) jobID udid storageID (mg_jobStorage m) in (e, set_bindings b m).
Definition unbind_job (jobID : string) : stateM (Manager W) bool := λ m,
  let '(b, bs) := UnbindJob jobID (mg_jobStorage m) in (b, set_bindings bs m).

(** A retry without a storage of its own aims where the retried job aimed. *)
Definition inherited_storage (storageID retryOf : string) : stateM Engine string :=
  if bool_decide (storageID = "" ∧ retryOf ≠ "") then
    prev ← job_store (GetJob retryOf);
    mret (match prev with Ok (Some prev) => default storageID (job_StorageID prev) | _ => storageID end)
  else mret storageID.

Definition queued_row (id_ udid transport storageID : string) (now : time) : JobRow :=
  mkJobRow id_ udid "backup" transport StateQueued StateQueued None 0 0 0 LivenessActive now None "" ""
    None (Some storageID) id_ 1 None.

(** The row of a retry, or the refusal. *)
Definition retry_row (row : JobRow) (retryOf : string) : stateM Engine (JobRow + (Z * string)) :=
  if bool_decide (retryOf = "") then mret (inl row) else
  prev ← job_store (GetJob retryOf);
  mret (match prev with
        | Err e => inr (StatusInternalServerError, e)
        | Ok None => inr (StatusNotFound, "retry_of names an unknown job"%string)
        | Ok (Some prev) => inl (with_retry (Some retryOf) (job_IntentID prev) (job_Attempt prev + 1) row)
        end).

Definition new_proc (row : JobRow) : jobProc :=
  mkProc (mkLiveJob row false "" zero_time no_run) PcStart new_superviseState SampleNone.

Definition busy_reason (e : Engine) (jobID : string) : string :=
  match en_jobs e !! jobID with
  | Some p => if JobIsTerminal (job_State (pr_row p))
              then "the previous backup is still finishing — try again in a moment"
              else "a backup is already running for this device"
  | None => "a backup is already running for this device"
  end.

Definition StartBackup (udid transport storageID retryOf : string) : stateM Engine (Job * Z * string) :=
  if negb (validUDID udid) then refuse StatusNotFound "unknown device" else
  e ← gets id;
  let '(transport, status, reason) := resolveTransport udid transport e in
  if negb (status =? 0) then refuse status reason else
  wanted ← inherited_storage storageID retryOf;
  e ← gets id;
  let '(concrete, status, reason) := ResolveChoice (mg_slots (en_mgr e)) wanted in
  if negb (status =? 0) then refuse status reason else
  match en_running e !! udid with
  | Some jobID => refuse StatusConflict (busy_reason e jobID)
  | None =>
      id_ ← storage newID;
      row ← retry_row (queued_row id_ udid transport concrete (engine_now e)) retryOf;
      match row with
      | inr (status, reason) => refuse status reason
      | inl row =>
          b ← storage (bind_job id_ udid concrete);
          match b with
          | Some reason => refuse StatusConflict reason
          | None =>
              ins ← job_store (InsertJob row);
              match ins with
              | Some reason => refuse StatusInternalServerError reason
              | None =>
                  modify (set_running <[udid := id_]>);;
                  modify (set_jobs <[id_ := new_proc row]>);;
                  emit row;;
                  mret (jobToWire row, StatusAccepted, ""%string)
              end
          end
      end
  end.

(** The first cancel names the reason; the context is cancelled either way. *)
Definition kill (reason : string) (j : liveJob) : liveJob :=
  set_kill true (if bool_decide (lj_killReason j = "") then reason else lj_killReason j) j.

Definition is_running (jobID : string) (e : Engine) : bool :=
  existsb (λ kv : string * string, bool_decide (kv.2 = jobID)) (map_to_list (en_running e)).

Definition CancelJob (jobID : string) : stateM Engine (Job * Z * string) :=
  e ← gets id;
  match (if is_running jobID e then en_jobs e !! jobID else None) with
  | Some p =>
      update_proc jobID (set_job (kill "cancel" (pr_job p)));;
      mret (jobToWire (pr_row p), StatusAccepted, ""%string)
  | None =>
      row ← job_store (GetJob jobID);
      match row with
      | Ok (Some row) => mret (jobToWire row, StatusConflict, "job is not running"%string)
      | _ => refuse StatusNotFound "no such job"
      end
  end.

Definition ResetWorking (udid storageID : string) : stateM Engine (Z * string) :=
  if negb (validUDID udid) then mret (StatusNotFound, "unknown device"%string) else
  e ← gets id;
  match en_devices e !! udid with
  | None => mret (StatusNotFound, "unknown device"%string)
  | Some _ =>
      match en_running e !! udid with
      | Some _ => mret (StatusConflict, "a backup is running for this device — cancel it before resetting"%string)
      | None => storage (RepairWorking udid storageID)
      end
  end.

Definition RunningFor (udid : string) (e : Engine) : bool := bool_decide (is_Some (en_running e !! udid)).

Definition Jobs (udid cursor : string) (limit : Z) : stateM Engine (list Job * string) :=
  r ← job_store (ListJobs udid cursor limit);
  mret (match r with Err _ => ([], ""%string) | Ok (rows, next) => (jobToWire <$> rows, next) end).

Definition Job_of (jobID : string) : stateM Engine (option Job) :=
  r ← job_store (GetJob jobID);
  mret (match r with Ok (Some row) => Some (jobToWire row) | _ => None end).

Definition JobLog_of (jobID : string) : stateM Engine (option (list ascii)) :=
  e ← gets id;
  match log_get jobID (en_logs e) with
  | Some l => mret (Some l)
  | None =>
      r ← job_store (GetJob jobID);
      mret (match r with Ok (Some _) => Some [] | _ => None end)
  end.

(** ** Startup reconciliation *)

Definition rolled_forward_row (versionID : string) (fin : time) (r : JobRow) : JobRow :=
  with_error "" "" (succeeded_row (strptr versionID) fin r).

Definition orphaned_row (fin : time) (r : JobRow) : JobRow :=
  with_error ErrInterrupted "interrupted by a restart"
    (with_liveness LivenessNone (Domain.with_phase "" (with_finished fin (with_state StateConnectionLost r)))).

Fixpoint reconcile_rows (fin : time) (rows : list JobRow) : stateM Engine unit :=
  match rows with
  | [] => mret tt
  | r :: rest =>
      vid ← storage (VersionForJob (job_UDID r) (job_ID r));
      match vid with
      | Some vid =>
          let r' := rolled_forward_row vid fin r in
          e ← job_store (UpdateJob r');
          (match e with Some _ => mret tt | None => emit r' end);;
          reconcile_rows fin rest
      | None =>
          let r' := orphaned_row fin r in
          e ← job_store (UpdateJob r');
          (match e with
           | Some _ => mret tt
           | None => _ ← storage (Discard (job_UDID r) (job_ID r)); emit r'
           end);;
          reconcile_rows fin rest
      end
  end.

Definition Reconcile : stateM Engine error :=
  rows ← job_store ListNonTerminalJobs;
  match rows with
  | Err e => mret (Some e)
  | Ok rows => fin ← gets engine_now; reconcile_rows fin rows;; mret None
  end.

(** ** The run *)

(** The context of a job is done. *)
Definition ctx_done (e : Engine) (p : jobProc) : bool := lj_cancelled (pr_job p) || en_shutdown e.

(** [fresh]: what a live probe answers, if one is wired and answers. *)
Definition checkEncryption (cached : string) (fresh : option string) : string * string :=
  let state := if bool_decide (cached = "on") then cached else default cached fresh in
  if bool_decide (state = "on") then ("", "")
  else if bool_decide (state = "off") then
    (ErrEncryptionRequired,
     "backup encryption is required but this device has it turned off — enable encryption first")
  else
    (ErrEncryptionRequired,
     "backup encryption is required but this device's encryption state could not be confirmed "
     +:+ "(the device may be locked) — unlock it and try again").

(** [free]: the free space of the default storage, if it can be read. *)
Definition preflight (udid transport : string) (fresh : option string) (free : option Z) (e : Engine) :
    string * string :=
  match en_devices e !! udid with
  | None => (ErrDeviceNotVisible, "device is not present on " +:+ transport)
  | Some dev =>
      if negb (presentOn dev transport) then (ErrDeviceNotVisible, "device is not present on " +:+ transport)
      else if bool_decide (dev_Paired dev = "no") then (ErrNotPaired, "device is not paired — pair it first")
      else
        let '(code, reason) := if (en_live e).1 then checkEncryption (dev_BackupEncryption dev) fresh else ("", "") in
        if negb (bool_decide (code = "")) then (code, reason) else
        match free with
        | Some free =>
            if negb (bool_decide (en_backups e = "")) && (free <? DiskLowFreeBytes (en_cfg e)) then
              (ErrDiskLow, "target filesystem is low on space (" +:+ fmt_d (Z.shiftr free 20)
                +:+ " MiB free) — free space before backing up")
            else ("", "")
        | None => ("", "")
        end
  end.

(** Was the job killed, and how does it then end. *)
Definition killOutcome (e : Engine) (p : jobProc) : option superviseResult :=
  if bool_decide (lj_killReason (pr_job p) = "cancel") then Some (mkResult outcomeCancel "" false)
  else if bool_decide (lj_killReason (pr_job p) = "timeout") then Some (mkResult outcomeTimeout "" false)
  else if ctx_done e p then Some (mkResult outcomeShutdown "" false)
  else None.

Definition startFailure (e : Engine) (p : jobProc) (msg : string) : superviseResult :=
  match killOutcome e p with Some r => r | None => mkResult outcomeProcErr msg false end.

(** The end of [runToolLoop], once the process has been waited for. *)
Definition loopResult (e : Engine) (p : jobProc) (waitErr : error) : superviseResult :=
  let success := ss_success (pr_ss p) in
  match killOutcome e p with
  | Some r => mkResult (sr_kind r) (sr_detail r) success
  | None =>
      match waitErr with
      | Some msg =>
          mkResult outcomeProcErr
            (if bool_decide (ss_failReason (pr_ss p) = "") then msg else ss_failReason (pr_ss p)) success
      | None => mkResult outcomeProcOK "" success
      end
  end.

(** What [run] does with the result of the supervised tool. *)
Definition settle (id_ : string) (r : superviseResult) : stateM Engine unit :=
  cfg ← gets en_cfg;
  match sr_kind r with
  | outcomeSeedErr => terminate id_ StateFailed ErrBackupFailed ("seed work area: " +:+ sr_detail r);; goto id_ PcRelease
  | outcomeCancel => terminate id_ StateCancelled ErrCancelled "cancelled";; goto id_ PcDiscard
  | outcomeTimeout =>
      terminate id_ StateConnectionLost ErrDeviceDisconnected
        ("no activity for " +:+ duration_string (LivenessTimeout cfg) +:+ " — connection lost");;
      goto id_ PcDiscard
  | outcomeShutdown =>
      terminate id_ StateConnectionLost ErrInterrupted "interrupted by shutdown";; goto id_ PcDiscard
  | outcomeProcErr => terminate id_ StateFailed ErrBackupFailed ("backup failed: " +:+ sr_detail r);; goto id_ PcDiscard
  | outcomeProcOK =>
      if sr_backupSuccessful r then
        transition id_ (enter StateVerifying StateVerifying);; goto id_ PcVerify
      else
        terminate id_ StateFailed ErrBackupFailed "process exited 0 without 'Backup Successful'";;
        goto id_ PcDiscard
  end.

(** How [awaitDevice] without the device ends the job. *)
Definition abandon (id_ : string) (e : Engine) (p : jobProc) : stateM Engine unit :=
  (if bool_decide (lj_killReason (pr_job p) = "cancel") then
     terminate id_ StateCancelled ErrCancelled "cancelled"
   else if ctx_done e p then
     terminate id_ StateConnectionLost ErrInterrupted "interrupted by shutdown"
   else terminate id_ StateFailed ErrDeviceNotVisible
     ("device did not appear on " +:+ job_Transport (pr_row p) +:+ " within the wait window"));;
  goto id_ PcRelease.

(** What the goroutine of a job waits for. *)
Inductive run_input : Type :=
  | InGo                                            (* nothing *)
  | InPoll                                          (* look for the device *)
  | InDeadline                                      (* the wait window is over *)
  | InCtxDone                                       (* the context is done *)
  | InProbe (fresh : option string) (free : option Z)
  | InStarted (err : error)                         (* [cmd.Start] *)
  | InInfo (info : option string)                   (* the fresh Info.plist, or the tool exited *)
  | InOpened (restore gate : error)                 (* writing Info.plist and the gate file *)
  | InFingerprint (fp : treeFingerprint)            (* the tree, as the sampler starts *)
  | InDrained                                       (* both pipes are at their end *)
  | InWaited (err : error).                         (* [cmd.Wait] *)

(** [awaitDevice], and where [run] goes from it. *)
Definition await_device (id_ : string) (e : Engine) (p : jobProc) (i : run_input) : option (stateM Engine unit) :=
  match i with
  | InPoll =>
      if present e (job_UDID (pr_row p)) (job_Transport (pr_row p)) then
        Some (transition id_ (enter StatePreflight StatePreflight);; goto id_ PcPreflight)
      else Some (mret tt)
  | InDeadline => Some (abandon id_ e p)
  | InCtxDone => if ctx_done e p then Some (abandon id_ e p) else None
  | _ => None
  end.

(** The tool was started, or not; behind the gate if a clone is pending. *)
Definition launch (id_ : string) (e : Engine) (p : jobProc) (tree : path) (seedPending : bool) (err : error) :
    stateM Engine unit :=
  match err with
  | Some msg => goto id_ (PcSettle (startFailure e p msg))
  | None => goto id_ (if seedPending then PcInfo tree else PcEnterLoop)
  end.

(** The clone while the tool waits at its gate, the fresh Info.plist over the clone's, and the gate's opening. *)
Definition seed_gated (id_ udid info : string) (restore gate : error) : stateM Engine unit :=
  r ← storage (SeedWork udid id_);
  match r with
  | Err msg => goto id_ (PcSettle (mkResult outcomeSeedErr msg false))
  | Ok _ =>
      match (if bool_decide (info = "") then None else restore), gate with
      | Some msg, _ => goto id_ (PcSettle (mkResult outcomeSeedErr ("restore Info.plist after seed: " +:+ msg) false))
      | None, Some msg => goto id_ (PcSettle (mkResult outcomeSeedErr ("open gate: " +:+ msg) false))
      | None, None => transition id_ (enter_active StateBackingUp PhaseStarting);; goto id_ PcEnterLoop
      end
  end.

(** One step of a job's goroutine; [None] where the input is not what it waits for. *)
Definition run_proc (id_ : string) (e : Engine) (p : jobProc) (i : run_input) : option (stateM Engine unit) :=
  let udid := job_UDID (pr_row p) in
  match pr_pc p, i with
  | PcStart, InGo =>
      Some (transition id_ (enter StateWaitingForDevice StateWaitingForDevice);; goto id_ PcAwait)
  | PcAwait, _ => await_device id_ e p i
  | PcPreflight, InProbe fresh free =>
      let '(code, reason) := preflight udid (job_Transport (pr_row p)) fresh free e in
      if bool_decide (code = "") then
        Some (transition id_ (enter_active StateSeeding PhaseSeeding);; goto id_ PcPrepare)
      else Some (terminate id_ StateFailed code reason;; goto id_ PcRelease)
  | PcPrepare, InGo => Some (
      r ← storage (PrepareWork udid id_);
      match r with
      | Err msg => terminate id_ StateFailed ErrBackupFailed ("seed work area: " +:+ msg);; goto id_ PcRelease
      | Ok (target, true) => goto id_ (PcLaunch target true)
      | Ok (target, false) =>
          transition id_ (enter_active StateBackingUp PhaseStarting);; goto id_ (PcLaunch target false)
      end)
  | PcLaunch target seedPending, InStarted err => Some (launch id_ e p (target ++ [udid]) seedPending err)
  | PcInfo tree, InInfo info =>
      Some (goto id_ (match info with Some info => PcSeed tree info | None => PcEnterLoop end))
  | PcSeed tree info, InOpened restore gate => Some (seed_gated id_ udid info restore gate)
  | PcEnterLoop, InFingerprint fp =>
      Some (update_proc id_ (set_sampling (SampleIdle (newSampler (en_cfg e) fp (engine_now e))));;
            goto id_ PcLoop)
  | PcLoop, InDrained => Some (flush_log id_;; goto id_ PcReap)
  | PcReap, InWaited err => Some (goto id_ (PcSettle (loopResult e p err)))
  | PcSettle r, InGo => Some (settle id_ r)
  | PcVerify, InGo => Some (
      v ← storage (VerifyWork udid id_);
      if vr_OK v then transition id_ (enter StateCommitting StateCommitting);; goto id_ PcCommit
      else terminate id_ StateFailed ErrVerifyFailed ("structural verification failed: " +:+ vr_Detail v);;
           goto id_ PcDiscard)
  | PcCommit, InGo => Some (
      r ← storage (CommitJob udid id_);
      match r with
      | None => mret tt
      | Some (Err msg) => terminate id_ StateFailed ErrCommitFailed ("commit: " +:+ msg);; goto id_ PcRelease
      | Some (Ok v) => succeed id_ (wv_ID v);; goto id_ PcRelease
      end)
  | PcDiscard, InGo => Some (_ ← storage (Discard udid id_); goto id_ PcRelease)
  | PcRelease, InGo => Some (
      modify (set_running (delete udid));;
      _ ← storage (unbind_job id_);
      goto id_ PcDone)
  | _, _ => None
  end.

Definition run_step (id_ : string) (i : run_input) (e : Engine) : option Engine :=
  p ← en_jobs e !! id_;
  k ← run_proc id_ e p i;
  Some (k e).2.

(** ** The tool's output and the sampler *)

(** The scanners of a job run from the tool's start until its pipes are drained. *)
Definition scanning (p : jobProc) : bool :=
  match pr_pc p with PcInfo _ | PcSeed _ _ | PcEnterLoop | PcLoop => true | _ => false end.

Definition line_step (id_ line : string) (e : Engine) : option Engine :=
  p ← en_jobs e !! id_;
  if scanning p then Some (handleLine id_ line e).2 else None.

(** A tick: the sampler takes the flags, then samples; the verdict is acted on later. *)
Definition tick_step (id_ : string) (fp : treeFingerprint) (free : option (option Z)) (e : Engine) : option Engine :=
  p ← en_jobs e !! id_;
  match pr_sampling p with
  | SampleIdle s =>
      let ss := pr_ss p in
      let '(s', v) := sample s (mkTick fp free (engine_now e) (ss_paused ss) (ss_outputSince ss)) in
      Some (update_proc id_ (λ p, set_sampling (SampleHolds s' v)
        (set_ss (mkSS (ss_paused ss) false (ss_success ss) (ss_failReason ss) (ss_bytesBanked ss)
           (ss_batchBytes ss)) p)) e).2
  | _ => None
  end.

Definition report_step (id_ : string) (e : Engine) : option Engine :=
  p ← en_jobs e !! id_;
  match pr_sampling p with
  | SampleHolds s v => Some ((
      progress id_ (λ rs, (with_liveness (v_liveness v) rs.1, rs.2));;
      (match v_low v with Some free => warnDiskLow id_ (job_UDID (pr_row p)) free | None => mret tt end);;
      update_proc id_ (λ p,
        if v_kill v
        then set_sampling SampleOver (set_job (set_kill (lj_cancelled (pr_job p))
               (if bool_decide (lj_killReason (pr_job p) = "") then "timeout"
                else lj_killReason (pr_job p)) (pr_job p)) p)
        else set_sampling (SampleIdle s) p)) e).2
  | _ => None
  end.

(** The sampler returns once the loop is over or its context is done. *)
Definition stop_step (id_ : string) (e : Engine) : option Engine :=
  p ← en_jobs e !! id_;
  match pr_sampling p with
  | SampleIdle _ =>
      if negb (match pr_pc p with PcLoop => true | _ => false end) || ctx_done e p
      then Some (update_proc id_ (set_sampling SampleOver) e).2 else None
  | _ => None
  end.

(** ** The system

    The engine's own steps, the calls of its clients, and what happens around it: the clock, the
    devices, the settings, the disk, and the storage manager's other work, which leaves the jobs
    and their bindings alone. *)

Definition beside (m m' : Manager W) : Prop :=
  db_jobs (mg_db m') = db_jobs (mg_db m) ∧ mg_jobStorage m' = mg_jobStorage m.

(** The generator's next id names no job yet: ids are ULIDs, which do not repeat. *)
Definition fresh_id (e : Engine) : Prop :=
  default ""%string (head (mg_ids (en_mgr e))) ∉ dom (db_jobs (mg_db (en_mgr e))).

Inductive engine_step : Engine → Engine → Prop :=
  | step_start udid transport storageID retryOf e :
      fresh_id e → engine_step e (StartBackup udid transport storageID retryOf e).2
  | step_cancel jobID e : engine_step e (CancelJob jobID e).2
  | step_reset udid storageID e : engine_step e (ResetWorking udid storageID e).2
  | step_run id_ i e e' : run_step id_ i e = Some e' → engine_step e e'
  | step_line id_ line e e' : line_step id_ line e = Some e' → engine_step e e'
  | step_tick id_ fp free e e' : tick_step id_ fp free e = Some e' → engine_step e e'
  | step_report id_ e e' : report_step id_ e = Some e' → engine_step e e'
  | step_stop id_ e e' : stop_step id_ e = Some e' → engine_step e e'
  | step_devices d e : engine_step e (set_devices d e)
  | step_live l e : engine_step e (set_live l e)
  | step_storage m' e : beside (en_mgr e) m' → engine_step e (set_mgr m' e)
  | step_shutdown e : engine_step e (set_shutdown e).

Definition new_engine (cfg : Config) (backups : string) (m : Manager W) (devices : gmap string Device) : Engine :=
  mkEngine cfg backups (RequireEncryption cfg, PreferredTransport cfg) m devices ∅ ∅ newLogStore [] false.
End engine.
Arguments Engine : clear implicits.

(** ** The supervised command *)

(** [tool.command]'s argument vector, after the binary. *)
Definition tool_args (argPrefix : list string) (transport udid target gatePath : string) : list string :=
  argPrefix ++ (if bool_decide (transport = TransportWiFi) then ["-n"] else [])
  ++ (if bool_decide (gatePath = "") then [] else ["--gate"; gatePath])
  ++ ["-u"; udid; "backup"; target].
