(* ===== verification/EngineSafety.v ===== *)
(** * EngineSafety: what the engine guarantees about its jobs

    Theorems about [engine_step]: a job's row follows the state machine and its outcome is final,
    a device has at most one unfinished job, a running job stays bound to the storage its row
    records, and every job's goroutine ends. *)

From Stdlib Require Import String Ascii.
From S2P Require Import Prelude Calendar Domain Sampler Parser JobLog Store Backend Slots FS Sidecars.
From S2P Require Import Slots Verify Retention Manager Engine.

(** ** The storage manager's calls leave the jobs and their bindings alone *)

Section beside.
Context {W : Type} `{!StorageWorld W, !MapRange}.

#[global] Instance beside_refl : Reflexive (@beside W).
Proof. by split. Qed.
#[global] Instance beside_trans : Transitive (@beside W).
Proof. intros a b c [H1 H2] [H3 H4]. split; congruence. Qed.

Definition keeps_jobs {A} (f : stateM (Manager W) A) : Prop := ∀ m, beside m (f m).2.

Lemma keeps_ret {A} (a : A) : keeps_jobs (mret a).
Proof. by intros m. Qed.
Lemma keeps_gets {A} (f : Manager W → A) : keeps_jobs (gets f).
Proof. by intros m. Qed.
Lemma keeps_bind {A B} (f : stateM (Manager W) A) (k : A → stateM (Manager W) B) :
  keeps_jobs f → (∀ a, keeps_jobs (k a)) → keeps_jobs (f ≫= k).
Proof.
  intros Hf Hk m. unfold mbind, stateM_bind. specialize (Hf m). destruct (f m) as [a m']. simpl in *.
  etrans; [done|]. apply Hk.
Qed.
Lemma keeps_disk {A} (f : stateM W A) : keeps_jobs (disk f).
Proof. intros m. unfold disk, lift_state. by destruct (f (mg_world m)). Qed.
Lemma keeps_publish ev : keeps_jobs (publish ev).
Proof. by intros m. Qed.
Lemma keeps_newID : keeps_jobs newID.
Proof. by intros m. Qed.

Lemma keeps_changes (op : stateM DB error) f : changes_versions op f → keeps_jobs (reg op).
Proof.
  intros Hop m. unfold reg, lift_state. destruct (Hop (mg_db m)) as [Hj _]. by destruct (op (mg_db m)).
Qed.
Lemma keeps_insert v : keeps_jobs (reg (InsertVersion v)).
Proof.
  intros m. unfold reg, lift_state. destruct (InsertVersion_cases v (mg_db m)) as [Hj _].
  by destruct (InsertVersion v (mg_db m)).
Qed.
Lemma keeps_audit a : keeps_jobs (reg (AppendAudit a)).
Proof.
  intros m. unfold reg, lift_state. destruct (AppendAudit_versions a (mg_db m)) as [Hj _].
  by destruct (AppendAudit a (mg_db m)).
Qed.
Lemma keeps_list udid : keeps_jobs (reg (ListVersions udid)).
Proof.
  intros m. unfold reg, lift_state.
  destruct (statement_cases (λ d, filter (λ v, udid = "" ∨ ver_UDID v = udid) (versions_desc d)) (mg_db m))
    as [[Hj _] _].
  unfold ListVersions. by destruct (statement _ _).
Qed.
Lemma keeps_get id_ : keeps_jobs (reg (GetVersion id_)).
Proof.
  intros m. unfold reg, lift_state.
  destruct (statement_cases (λ d, db_versions d !! id_) (mg_db m)) as [[Hj _] _].
  unfold GetVersion. by destruct (statement _ _).
Qed.
End beside.

Create HintDb keeps.
#[export] Hint Resolve keeps_ret keeps_gets keeps_disk keeps_publish keeps_newID keeps_insert keeps_audit
  keeps_list keeps_get : keeps.
#[export] Hint Extern 2 (keeps_jobs (reg (PromoteLatest _ _ _))) =>
  (eapply keeps_changes, PromoteLatest_changes) : keeps.
#[export] Hint Extern 2 (keeps_jobs (reg (DeleteVersion _))) =>
  (eapply keeps_changes, DeleteVersion_changes) : keeps.

(** Takes a computation of the manager apart. *)
Ltac keeps := repeat first
  [ progress eauto 3 with keeps | apply keeps_bind; [|intros ?] | case_match ].

Section manager.
Context {W : Type} `{!StorageWorld W, !MapRange}.

Lemma keeps_with_job_slot {A} jobID (k : Slot W → Backend W → stateM (Manager W) (result A)) :
  (∀ s b, keeps_jobs (k s b)) → keeps_jobs (with_job_slot jobID k).
Proof. intros Hk. unfold with_job_slot, slot_of_job. keeps. Qed.

Lemma keeps_PrepareWork udid jobID : keeps_jobs (PrepareWork (W := W) udid jobID).
Proof. apply keeps_with_job_slot. intros s b. unfold provisioned. keeps. Qed.
Lemma keeps_SeedWork udid jobID : keeps_jobs (SeedWork (W := W) udid jobID).
Proof. apply keeps_with_job_slot. intros s b. keeps. Qed.
Lemma keeps_Discard udid jobID : keeps_jobs (Discard (W := W) udid jobID).
Proof. apply keeps_with_job_slot. intros s b. keeps. Qed.
Lemma keeps_seedKind s udid : keeps_jobs (seedKind (W := W) s udid).
Proof. unfold seedKind. keeps. Qed.
Lemma keeps_VerifyWork udid jobID : keeps_jobs (VerifyWork (W := W) udid jobID).
Proof. unfold VerifyWork, slot_of_job. keeps; apply keeps_seedKind. Qed.
Lemma keeps_VersionForJob udid jobID : keeps_jobs (VersionForJob (W := W) udid jobID).
Proof. unfold VersionForJob. keeps. Qed.
Lemma keeps_appendAudit event detail : keeps_jobs (appendAudit (W := W) event detail).
Proof. unfold appendAudit. keeps. Qed.
Lemma keeps_deleteVersion id_ event : keeps_jobs (deleteVersion (W := W) id_ event).
Proof. unfold deleteVersion, remove_artifact. keeps; apply keeps_appendAudit. Qed.
Lemma keeps_prune_versions rows : keeps_jobs (prune_versions (W := W) rows).
Proof.
  induction rows as [|r rows IH]; cbn [prune_versions]; [apply keeps_ret|].
  apply keeps_bind; [apply keeps_deleteVersion|]. intros [st [e|]]; [apply keeps_ret|exact IH].
Qed.
Lemma keeps_Prune udid : keeps_jobs (Prune (W := W) udid).
Proof.
  unfold Prune. apply keeps_bind; [auto with keeps|]. intros [rows|e]; [|apply keeps_ret].
  induction (range (by_storage rows)) as [|[k g] l IH]; cbn [prune_groups]; [apply keeps_ret|].
  apply keeps_bind; [apply keeps_gets|]. intros slots. destruct (policyFor k slots); [|exact IH].
  apply keeps_bind; [apply keeps_prune_versions|]. intros [e|]; [apply keeps_ret|exact IH].
Qed.
#[local] Hint Resolve keeps_seedKind keeps_Prune keeps_appendAudit : keeps.
Lemma keeps_CommitJob udid jobID : keeps_jobs (CommitJob (W := W) udid jobID).
Proof.
  unfold CommitJob, slot_of_job, commit_leased, registerCommitted, get_row. keeps.
Qed.
Lemma keeps_RepairWorking udid storageID : keeps_jobs (RepairWorking (W := W) udid storageID).
Proof. unfold RepairWorking, repairOn. keeps. Qed.
End manager.
#[export] Hint Resolve keeps_PrepareWork keeps_SeedWork keeps_Discard keeps_VerifyWork keeps_VersionForJob
  keeps_CommitJob keeps_RepairWorking : keeps.

(** ** One job at a time

    [view] is what the invariant speaks about; a step of one job changes the view at that job. *)

Record view : Type := mkView {
  v_jobs : gmap string jobProc;
  v_running : gmap string string;
  v_bound : gmap string jobBinding;
  v_rows : gset string }.

Definition upd_view (id_ : string) (p : jobProc) (v : view) : view :=
  mkView (<[id_ := p]> (v_jobs v)) (v_running v) (v_bound v) (v_rows v).

Lemma upd_view_twice id_ p p' v : upd_view id_ p (upd_view id_ p' v) = upd_view id_ p v.
Proof. unfold upd_view. simpl. by rewrite insert_insert_eq. Qed.

Section steps.
Context {W : Type} `{!StorageWorld W, !MapRange}.

Definition view_of (e : Engine W) : view :=
  mkView (en_jobs e) (en_running e) (mg_jobStorage (en_mgr e)) (dom (db_jobs (mg_db (en_mgr e)))).

(** The engine looks like [v] with job [id_] at [p]. *)
Definition at_proc (v : view) (id_ : string) (p : jobProc) (e : Engine W) : Prop :=
  view_of e = upd_view id_ p v.

Lemma at_proc_lookup v id_ p e : at_proc v id_ p e → en_jobs e !! id_ = Some p.
Proof. intros Hv. apply (f_equal v_jobs) in Hv. simpl in Hv. rewrite Hv. by rewrite lookup_insert_eq. Qed.

Lemma at_proc_start e id_ p : en_jobs e !! id_ = Some p → at_proc (view_of e) id_ p e.
Proof. intros Hp. unfold at_proc, upd_view, view_of. simpl. by rewrite insert_id. Qed.

Lemma wp_update_proc v id_ p f Q e :
  at_proc v id_ p e → (∀ e', at_proc v id_ (f p) e' → Q tt e') → wp (update_proc id_ f) Q e.
Proof.
  intros Hp HQ. apply wp_modify, HQ. unfold at_proc in *. unfold view_of in *. simpl.
  apply (f_equal v_jobs) in Hp as Hj. simpl in Hj. injection Hp as _ -> -> ->. unfold upd_view. simpl.
  rewrite Hj. f_equal. by rewrite alter_insert_eq.
Qed.

Lemma wp_storage {A} (f : stateM (Manager W) A) v id_ p Q (e : Engine W) :
  keeps_jobs f → at_proc v id_ p e →
  (∀ a e', a = (f (en_mgr e)).1 → at_proc v id_ p e' → Q a e') → wp (storage f) Q e.
Proof.
  intros Hf Hp HQ. apply wp_lift. unfold wp. specialize (Hf (en_mgr e)).
  apply HQ; [done|]. unfold at_proc, view_of in *. simpl.
  destruct Hf as [Hj Hb]. by rewrite Hj, Hb.
Qed.

Lemma UpdateJob_rows row d : dom (db_jobs (UpdateJob row d).2) = dom (db_jobs d) ∧
  db_versions (UpdateJob row d).2 = db_versions d.
Proof.
  unfold UpdateJob. match goal with |- context [exec ?f d] => set (op := f) end.
  destruct (exec_cases op d) as [[_ [Hj [Hv _]]]|(d0 & [Hj [Hv _]] & _ & Hd)]; [by rewrite Hj, Hv|].
  rewrite Hd. unfold op. simpl. by rewrite dom_alter_L, Hj, Hv.
Qed.

Lemma wp_update_job row v id_ p Q (e : Engine W) :
  at_proc v id_ p e → (∀ a e', at_proc v id_ p e' → Q a e') → wp (job_store (UpdateJob row)) Q e.
Proof.
  intros Hp HQ. apply wp_lift, wp_lift. unfold wp. apply HQ. unfold at_proc, view_of in *. simpl.
  by rewrite (proj1 (UpdateJob_rows row _)).
Qed.

Lemma wp_with_proc {A} v id_ p (d : A) k Q (e : Engine W) :
  at_proc v id_ p e → wp (k p) Q e → wp (with_proc id_ d k) Q e.
Proof.
  intros Hp HQ. unfold with_proc. apply wp_bind, wp_gets. cbv beta. by rewrite (at_proc_lookup _ _ _ _ Hp).
Qed.

Lemma wp_add_event ev v id_ p Q (e : Engine W) :
  at_proc v id_ p e → (∀ e', at_proc v id_ p e' → Q tt e') → wp (modify (add_event ev)) Q e.
Proof. intros Hp HQ. by apply wp_modify, HQ. Qed.

Lemma wp_transition f v id_ p Q (e : Engine W) :
  at_proc v id_ p e → (∀ e', at_proc v id_ (set_job (set_row (f (pr_row p)) (pr_job p)) p) e' → Q tt e') →
  wp (transition id_ f) Q e.
Proof.
  intros Hp HQ. unfold transition. eapply wp_with_proc; [done|]. cbv zeta.
  apply wp_bind. eapply wp_update_proc; [done|]. intros e1 Hp1.
  apply wp_bind. eapply wp_update_job; [done|]. intros _ e2 Hp2.
  eapply wp_add_event; [done|]. exact HQ.
Qed.

Lemma wp_goto pc v id_ p Q (e : Engine W) :
  at_proc v id_ p e → (∀ e', at_proc v id_ (set_pc pc p) e' → Q tt e') → wp (goto id_ pc) Q e.
Proof. apply wp_update_proc. Qed.

(** What a write of the job's row may do to it beside the row. *)
Definition with_row_ss (r : JobRow) (ss : superviseState) (t : time) (p : jobProc) : jobProc :=
  set_ss ss (set_job (set_lastEmit t (set_row r (pr_job p))) p).

Lemma wp_progress f v id_ p Q (e : Engine W) :
  at_proc v id_ p e →
  (∀ e' t, at_proc v id_ (with_row_ss (f (pr_row p, pr_ss p)).1 (f (pr_row p, pr_ss p)).2 t p) e' → Q tt e') →
  wp (progress id_ f) Q e.
Proof.
  intros Hp HQ. unfold progress. eapply wp_with_proc; [done|]. cbv beta.
  destruct (f (pr_row p, pr_ss p)) as [row ss]. simpl in HQ.
  apply wp_bind, wp_gets, wp_bind, wp_gets. case_match.
  - eapply wp_update_proc; [done|]. intros e1 Hp1.
    apply (HQ e1 (lj_lastEmit (pr_job p))). by destruct p as [[]].
  - apply wp_bind. eapply wp_update_proc; [done|]. intros e1 Hp1.
    apply wp_bind. eapply wp_update_job; [exact Hp1|]. intros _ e2 Hp2.
    eapply wp_add_event; [exact Hp2|]. intros e3 Hp3. by eapply HQ.
Qed.

Lemma wp_emitLog udid line v id_ p Q (e : Engine W) :
  at_proc v id_ p e → (∀ e', at_proc v id_ p e' → Q tt e') → wp (emitLog id_ udid line) Q e.
Proof.
  intros Hp HQ. unfold emitLog. cbv zeta. apply wp_bind, wp_modify.
  eapply wp_add_event; [|exact HQ]. exact Hp.
Qed.

Lemma wp_emit_logs udid lines v id_ p Q (e : Engine W) :
  at_proc v id_ p e → (∀ e', at_proc v id_ p e' → Q tt e') → wp (emit_logs id_ udid lines) Q e.
Proof.
  intros Hp HQ. revert e Hp. induction lines as [|l lines IH]; intros e Hp; simpl; [by apply wp_ret, HQ|].
  apply wp_bind. eapply wp_emitLog; [done|]. intros e1 Hp1. by apply IH.
Qed.
End steps.

(** Symbolic execution of a job's step: the hypothesis [at_proc] follows the state. *)
Ltac job_step :=
  match goal with
  | H : at_proc ?v ?id ?p ?e |- wp ?m _ ?e =>
      lazymatch m with
      | mret _ => apply wp_ret
      | _ ≫= _ => apply wp_bind
      | gets _ => apply wp_gets
      | transition _ _ => eapply (wp_transition _ v id p _ e H); clear H; intros ? H
      | goto _ _ => eapply (wp_goto _ v id p _ e H); clear H; intros ? H
      | update_proc _ _ => eapply (wp_update_proc v id p _ _ e H); clear H; intros ? H
      | progress _ _ => eapply (wp_progress _ v id p _ e H); clear H; intros ?e ?t H
      | emit_logs _ _ _ => eapply (wp_emit_logs _ _ v id p _ e H); clear H; intros ? H
      | emitLog _ _ _ => eapply (wp_emitLog _ _ v id p _ e H); clear H; intros ? H
      | modify (add_event _) => eapply (wp_add_event _ v id p _ e H); clear H; intros ? H
      | storage _ => eapply (wp_storage _ v id p _ e); [by eauto with keeps|exact H|]; clear H; intros ? ? ? H
      | with_proc _ _ _ => eapply (wp_with_proc v id p _ _ _ e H)
      end; cbv beta zeta
  end.
Ltac job_run := unfold terminate, succeed, settle; repeat first [job_step | case_match].

(** ** The state machine *)

Definition terminal_states : list string := [StateSucceeded; StateFailed; StateCancelled; StateConnectionLost].

(** The states in which a job's goroutine can be at each place. *)
Definition states_at (pc : run_pc) : list string :=
  match pc with
  | PcStart => [StateQueued]
  | PcAwait => [StateWaitingForDevice]
  | PcPreflight => [StatePreflight]
  | PcPrepare | PcLaunch _ true | PcInfo _ | PcSeed _ _ => [StateSeeding]
  | PcLaunch _ false => [StateBackingUp]
  | PcEnterLoop | PcLoop | PcReap | PcSettle _ => [StateSeeding; StateBackingUp]
  | PcVerify => [StateVerifying]
  | PcCommit => [StateCommitting]
  | PcDiscard => [StateFailed; StateCancelled; StateConnectionLost]
  | PcRelease | PcDone => terminal_states
  end.

Definition pc_ok (p : jobProc) : Prop := job_State (pr_row p) ∈ states_at (pr_pc p).

Definition next_states (s : string) : list string :=
  if bool_decide (s = StateQueued) then [StateWaitingForDevice]
  else if bool_decide (s = StateWaitingForDevice) then
    [StatePreflight; StateFailed; StateCancelled; StateConnectionLost]
  else if bool_decide (s = StatePreflight) then [StateSeeding; StateFailed]
  else if bool_decide (s = StateSeeding) then
    [StateBackingUp; StateVerifying; StateFailed; StateCancelled; StateConnectionLost]
  else if bool_decide (s = StateBackingUp) then
    [StateVerifying; StateFailed; StateCancelled; StateConnectionLost]
  else if bool_decide (s = StateVerifying) then [StateCommitting; StateFailed]
  else if bool_decide (s = StateCommitting) then [StateSucceeded; StateFailed]
  else [].

(** What is fixed when the job is created. *)
Definition same_job (r r' : JobRow) : Prop :=
  job_ID r' = job_ID r ∧ job_UDID r' = job_UDID r ∧ job_Kind r' = job_Kind r ∧
  job_Transport r' = job_Transport r ∧ job_StartedAt r' = job_StartedAt r ∧ job_RetryOf r' = job_RetryOf r ∧
  job_StorageID r' = job_StorageID r ∧ job_IntentID r' = job_IntentID r ∧ job_Attempt r' = job_Attempt r.

(** One step of a row: along the state machine, and once terminal only the liveness can change. *)
Definition row_moves (r r' : JobRow) : Prop :=
  same_job r r' ∧ (job_State r' = job_State r ∨ job_State r' ∈ next_states (job_State r)) ∧
  (JobIsTerminal (job_State r) = true → r' = with_liveness (job_Liveness r') r).

(** The job was killed, for the reason that [killOutcome] looks at. *)
Definition killReason (p : jobProc) : string := lj_killReason (pr_job p).
Definition killed (p : jobProc) : Prop := killReason p = "cancel"%string ∨ killReason p = "timeout"%string.

(** The end of the tool was looked at and found good, with no kill. *)
Definition passed (p : jobProc) : Prop :=
  match pr_pc p with PcSettle r => sr_kind r = outcomeProcOK | _ => False end.

(** The first kill stays, and no job that is killed before that look starts its verification. *)
Definition kill_respected (p p' : jobProc) : Prop :=
  killed p → killReason p' = killReason p ∧
    (¬ passed p → ¬ passed p' ∧ (job_State (pr_row p') = StateVerifying → job_State (pr_row p) = StateVerifying)).

Definition proc_moves (p p' : jobProc) : Prop :=
  (pc_ok p → pc_ok p' ∧ row_moves (pr_row p) (pr_row p')) ∧ kill_respected p p'.

(** How far the goroutine is. *)
Definition pc_rank (pc : run_pc) : nat :=
  match pc with
  | PcStart => 0 | PcAwait => 1 | PcPreflight => 2 | PcPrepare => 3 | PcLaunch _ _ => 4 | PcInfo _ => 5
  | PcSeed _ _ => 6 | PcEnterLoop => 7 | PcLoop => 8 | PcReap => 9 | PcSettle _ => 10 | PcVerify => 11
  | PcCommit => 12 | PcDiscard => 13 | PcRelease => 14 | PcDone => 15
  end%nat.

Lemma with_liveness_same r : with_liveness (job_Liveness r) r = r.
Proof. by destruct r. Qed.

Lemma row_moves_refl r : row_moves r r.
Proof. split; [by repeat split|]. split; [by left|]. by rewrite with_liveness_same. Qed.

Lemma proc_moves_refl p p' : pr_row p' = pr_row p → pr_pc p' = pr_pc p →
  (killed p → killReason p' = killReason p) → proc_moves p p'.
Proof.
  intros Hr Hpc Hk. split; [|intros Hkill; unfold passed; rewrite Hr, Hpc; auto]. intros Hok. unfold pc_ok in *. rewrite Hr, Hpc.
  split; [done|apply row_moves_refl].
Qed.

(** A step to a new state: an edge from every state that the place allows. *)
Definition edge_ok (pc pc' : run_pc) (s' : string) : bool :=
  bool_decide (s' ∈ states_at pc') &&
  forallb (λ s, bool_decide (s' ∈ next_states s) && negb (JobIsTerminal s)) (states_at pc).

Lemma proc_moves_to p p' :
  same_job (pr_row p) (pr_row p') → edge_ok (pr_pc p) (pr_pc p') (job_State (pr_row p')) = true →
  killReason p' = killReason p → ¬ passed p' → (job_State (pr_row p') = StateVerifying → passed p) → proc_moves p p'.
Proof.
  intros Hs [Hin Hall]%andb_true_iff Hk Hp' Hv. split; [|intros Hkill; split; [done|]; intros Hp; split; [done|]; by intros Hn%Hv].
  intros Hok. apply bool_decide_eq_true in Hin.
  rewrite forallb_forall in Hall. specialize (Hall (job_State (pr_row p))).
  rewrite <-list_elem_of_In in Hall. apply Hall in Hok as [Hn Ht]%andb_true_iff.
  apply bool_decide_eq_true in Hn. split; [done|]. split; [done|]. split; [by right|].
  intros Hterm. by rewrite Hterm in Ht.
Qed.

(** A step that leaves the row alone. *)
Lemma proc_moves_goto p p' :
  pr_row p' = pr_row p → forallb (λ s, bool_decide (s ∈ states_at (pr_pc p'))) (states_at (pr_pc p)) = true →
  killReason p' = killReason p → (killed p → ¬ passed p → ¬ passed p') → proc_moves p p'.
Proof.
  intros Hr Hall Hk Hp. split; [|by intros Hkill; rewrite Hr; auto]. intros Hok.
  rewrite forallb_forall in Hall. unfold pc_ok in *. rewrite Hr.
  specialize (Hall (job_State (pr_row p))). rewrite <-list_elem_of_In in Hall.
  apply Hall, bool_decide_eq_true in Hok. split; [done|apply row_moves_refl].
Qed.

(** A step of a job's goroutine: along the machine, and further on. *)
Definition proc_steps (p p' : jobProc) : Prop :=
  proc_moves p p' ∧ (pc_rank (pr_pc p) < pc_rank (pr_pc p') < 15)%nat.

Section judged.
Context {W : Type} `{!StorageWorld W, !MapRange}.

Lemma killOutcome_kind (e : Engine W) p r : killOutcome e p = Some r → sr_kind r ≠ outcomeProcOK.
Proof. unfold killOutcome. intros Hr. by repeat case_match; simplify_eq/=. Qed.

Lemma loopResult_kind (e : Engine W) p err : sr_kind (loopResult e p err) = outcomeProcOK → ¬ killed p.
Proof.
  unfold loopResult. destruct (killOutcome e p) eqn:Hk; [intros Hr; by destruct (killOutcome_kind _ _ _ Hk)|].
  unfold killOutcome in Hk. intros _ [Hc|Ht]; unfold killReason in *; [by rewrite Hc in Hk|by rewrite Ht in Hk].
Qed.

Lemma startFailure_kind (e : Engine W) p msg : sr_kind (startFailure e p msg) ≠ outcomeProcOK.
Proof. unfold startFailure. destruct (killOutcome e p) eqn:Hk; [by eapply killOutcome_kind|done]. Qed.

(** What is judged of a killed job is no success. *)
Lemma loopResult_unpassed (e : Engine W) p err : killed p → ¬ passed (set_pc (PcSettle (loopResult e p err)) p).
Proof. by intros Hk Hp%loopResult_kind. Qed.
Lemma startFailure_unpassed (e : Engine W) p msg : ¬ passed (set_pc (PcSettle (startFailure e p msg)) p).
Proof. by intros Hp%startFailure_kind. Qed.
End judged.

Create HintDb judged.
#[export] Hint Resolve loopResult_unpassed startFailure_unpassed : judged.

Ltac solve_steps :=
  match goal with H : pr_pc ?p = _ |- proc_steps ?p _ =>
    split; [first [apply proc_moves_goto; [reflexivity|rewrite H; reflexivity|reflexivity|by eauto with judged]
                  |apply proc_moves_to; [by repeat split|rewrite H; reflexivity|reflexivity|by intros []|first [done|unfold passed; by rewrite H]]]
           |rewrite H; simpl; lia] end.

Lemma alter_is_insert {A} (f : A → A) (m : gmap string A) k x :
  m !! k = Some x → alter f k m = <[k := f x]> m.
Proof.
  intros Hk. apply map_eq. intros j. destruct (decide (j = k)) as [->|].
  - by rewrite lookup_alter_eq, lookup_insert_eq, Hk.
  - by rewrite lookup_alter_ne, lookup_insert_ne.
Qed.

Section machine.
Context {W : Type} `{!StorageWorld W, !MapRange}.

Lemma settle_spec id_ r v p Q (e : Engine W) :
  at_proc v id_ p e → pr_pc p = PcSettle r →
  (∀ e' p', at_proc v id_ p' e' → proc_steps p p' → Q tt e') → wp (settle id_ r) Q e.
Proof.
  intros Hp Hpc HQ. unfold settle. apply wp_bind, wp_gets. cbv beta.
  destruct (sr_kind r) eqn:Hk; unfold terminate; repeat first [job_step | case_match];
    (eapply HQ; [eassumption|]); solve_steps.
Qed.

(** Where the goroutine may stay: it looks for the device, or waits for the commit lease. *)
Definition stalls (id_ : string) (i : run_input) (e : Engine W) (p : jobProc) : Prop :=
  pr_pc p = PcAwait ∧ i = InPoll ∨
  pr_pc p = PcCommit ∧ (CommitJob (job_UDID (pr_row p)) id_ (en_mgr e)).1 = None.

Definition step_post (v : view) (id_ : string) (p : jobProc) (stall : Prop) (_ : unit) (e' : Engine W) : Prop :=
  ∃ p', at_proc v id_ p' e' ∧ (p' = p ∧ stall ∨ proc_steps p p').

Ltac step_done :=
  match goal with H : at_proc _ _ ?p' ?e' |- step_post _ _ _ _ _ ?e' =>
    exists p'; split; [exact H|
      first [right; solve_steps | left; split; [done|first [by left|right; split; [done|congruence]]]]] end.

Lemma abandon_spec id_ v p stall (e0 e : Engine W) :
  at_proc v id_ p e → pr_pc p = PcAwait → wp (abandon id_ e0 p) (step_post v id_ p stall) e.
Proof.
  intros Hp Hpc. unfold abandon, terminate. repeat first [job_step | case_match]; step_done.
Qed.

Lemma settle_post id_ r v p stall (e : Engine W) :
  at_proc v id_ p e → pr_pc p = PcSettle r → wp (settle id_ r) (step_post v id_ p stall) e.
Proof. intros Hp Hpc. eapply settle_spec; [done|done|]. intros e' p' Hp' Hs. exists p'. auto. Qed.

(** What a step of the goroutine of [id_] does to what the invariant sees. *)
Lemma run_step_spec id_ i (e e' : Engine W) :
  run_step id_ i e = Some e' →
  ∃ p, en_jobs e !! id_ = Some p ∧
    ((∃ p', at_proc (view_of e) id_ p' e' ∧ (p' = p ∧ stalls id_ i e p ∨ proc_steps p p')) ∨
     pr_pc p = PcRelease ∧
     view_of e' = mkView (<[id_ := set_pc PcDone p]> (en_jobs e)) (delete (job_UDID (pr_row p)) (en_running e))
       (delete id_ (mg_jobStorage (en_mgr e))) (dom (db_jobs (mg_db (en_mgr e))))).
Proof.
  unfold run_step. destruct (en_jobs e !! id_) as [p|] eqn:Hp; simpl; [|done].
  destruct (run_proc id_ e p i) as [k|] eqn:Hk; simpl; [|done]. intros [= <-]. exists p. split; [done|].
  pose proof (at_proc_start _ _ _ Hp) as Hat. unfold run_proc, await_device, launch, seed_gated in Hk.
  destruct (pr_pc p) eqn:Hpc; try done; destruct i; try done.
  all: try (left; enough (wp k (step_post (view_of e) id_ p (stalls id_ _ e p)) e) as Hwp by exact Hwp;
    match goal with H : pr_pc _ = PcRelease |- _ => fail 1 | _ => idtac end).
  all: try (destruct (present _ _ _); injection Hk as <-).
  all: try (destruct (preflight _ _ _ _ _) as [code reason]; case_bool_decide; injection Hk as <-).
  all: try (destruct (ctx_done e p); [|done]); try (destruct err as [msg|]); try injection Hk as <-.
  all: try (by apply abandon_spec).
  all: try match goal with H : pr_pc _ = PcLaunch _ _ |- _ => destruct seedPending end.
  all: try (unfold terminate, succeed, flush_log;
    repeat first [job_step | eapply settle_post; [eassumption|eassumption] | case_match];
    step_done).
    right. split; [done|]. unfold view_of. simpl. by rewrite (alter_is_insert _ _ _ p) by done.
Qed.

(** The steps of a job that its goroutine does not take. *)
Definition beside_run (id_ : string) (e e' : Engine W) : Prop :=
  ∃ p p', en_jobs e !! id_ = Some p ∧ at_proc (view_of e) id_ p' e' ∧ pr_pc p' = pr_pc p ∧ proc_moves p p'.

Lemma progress_line_state pl r ss :
  let r' := (progress_line pl (r, ss)).1 in same_job r r' ∧ job_State r' = job_State r.
Proof. unfold progress_line. by repeat case_match. Qed.

Lemma scanning_not_terminal p : scanning p = true → pc_ok p → JobIsTerminal (job_State (pr_row p)) = false.
Proof.
  unfold scanning, pc_ok. intros Hs Hok. destruct (pr_pc p); try done; simpl in Hok;
    rewrite ?elem_of_cons, ?elem_of_nil in Hok; by destruct Hok as [->|[->|[]]] || destruct Hok as [->|[]].
Qed.

Lemma line_step_spec id_ line (e e' : Engine W) : line_step id_ line e = Some e' → beside_run id_ e e'.
Proof.
  unfold line_step. destruct (en_jobs e !! id_) as [p|] eqn:Hp; simpl; [|done].
  destruct (scanning p) eqn:Hs; [|done]. intros [= <-].
  pose proof (at_proc_start _ _ _ Hp) as Hat.
  enough (wp (handleLine id_ line) (λ _ (e' : Engine W), ∃ p', at_proc (view_of e) id_ p' e' ∧ pr_pc p' = pr_pc p ∧
    same_job (pr_row p) (pr_row p') ∧ job_State (pr_row p') = job_State (pr_row p) ∧ killReason p' = killReason p) e)
    as (p' & Hat' & Hpc & Hsame & Hst & Hk).
  { exists p, p'. split; [done|]. split; [done|]. split; [done|]. split; [|intros Hkill; unfold passed; by rewrite Hpc, Hst].
    intros Hok. unfold pc_ok in *. rewrite Hpc, Hst. split; [done|]. split; [done|]. split; [by left|].
    intros Ht. pose proof (scanning_not_terminal p Hs Hok). congruence. }
  unfold handleLine. eapply wp_with_proc; [exact Hat|]. cbv zeta. apply wp_bind.
  assert (∀ (e1 : Engine W) p1, at_proc (view_of e) id_ p1 e1 → pr_pc p1 = pr_pc p → pr_row p1 = pr_row p →
    killReason p1 = killReason p →
    wp (update_proc id_ (λ p, set_ss (ss_line (parseLine line) (pr_ss p)) p);;
        if moves_progress (parseLine line) then progress id_ (progress_line (parseLine line)) else mret tt)
      (λ _ (e' : Engine W), ∃ p', at_proc (view_of e) id_ p' e' ∧ pr_pc p' = pr_pc p ∧
    same_job (pr_row p) (pr_row p') ∧ job_State (pr_row p') = job_State (pr_row p) ∧ killReason p' = killReason p) e1)
    as Hrest.
  { intros e1 p1 Hp1 Hpc1 Hr1 Hk1. do 2 job_step. destruct (moves_progress _); job_step.
    - eexists. split; [exact Hp1|]. split; [done|]. rewrite <-Hr1.
      destruct (progress_line_state (parseLine line) (pr_row p1) (ss_line (parseLine line) (pr_ss p1))) as [? Hst].
      by split; [|split; [exact Hst|]].
    - eexists. split; [exact Hp1|]. split; [done|]. rewrite <-Hr1. split; [by repeat split|]. by split. }
  destruct (negb (is_redraw (parseLine line)) && negb (bool_decide (trim_space line = ""))).
  - destruct (logLine _ _) as [run out]. do 3 job_step. by eapply Hrest.
  - job_step. by eapply Hrest.
Qed.

Lemma at_proc_alter id_ f p (e : Engine W) :
  en_jobs e !! id_ = Some p → at_proc (view_of e) id_ (f p) (update_proc id_ f e).2.
Proof. intros Hp. unfold at_proc, view_of, upd_view. simpl. by rewrite (alter_is_insert _ _ _ p). Qed.

Lemma tick_step_spec id_ fp free (e e' : Engine W) : tick_step id_ fp free e = Some e' → beside_run id_ e e'.
Proof.
  unfold tick_step. destruct (en_jobs e !! id_) as [p|] eqn:Hp; simpl; [|done].
  destruct (pr_sampling p); try done. destruct (sample _ _) as [s' v]. intros [= <-].
  exists p. eexists. split; [done|]. split; [|split; [|apply proc_moves_refl]].
  - by apply at_proc_alter.
  - done.
  - done.
  - done.
  - done.
Qed.

Lemma stop_step_spec id_ (e e' : Engine W) : stop_step id_ e = Some e' → beside_run id_ e e'.
Proof.
  unfold stop_step. destruct (en_jobs e !! id_) as [p|] eqn:Hp; simpl; [|done].
  destruct (pr_sampling p); try done. case_match; [|done]. intros [= <-].
  exists p. eexists. split; [done|]. split; [|split; [|apply proc_moves_refl]].
  - by apply at_proc_alter.
  - done.
  - done.
  - done.
  - done.
Qed.

Lemma report_step_spec id_ (e e' : Engine W) : report_step id_ e = Some e' → beside_run id_ e e'.
Proof.
  unfold report_step. destruct (en_jobs e !! id_) as [p|] eqn:Hp; simpl; [|done].
  destruct (pr_sampling p) as [| |s v|]; try done. intros [= <-].
  pose proof (at_proc_start _ _ _ Hp) as Hat.
  enough (wp (progress id_ (λ rs, (with_liveness (v_liveness v) rs.1, rs.2));;
      (match v_low v with Some free => warnDiskLow id_ (job_UDID (pr_row p)) free | None => mret tt end);;
      update_proc id_ (λ p,
        if v_kill v
        then set_sampling SampleOver (set_job (set_kill (lj_cancelled (pr_job p))
               (if bool_decide (lj_killReason (pr_job p) = "") then "timeout"
                else lj_killReason (pr_job p)) (pr_job p)) p)
        else set_sampling (SampleIdle s) p))
    (λ _ (e' : Engine W), ∃ p', at_proc (view_of e) id_ p' e' ∧ pr_pc p' = pr_pc p ∧
       pr_row p' = with_liveness (v_liveness v) (pr_row p) ∧ (killed p → killReason p' = killReason p)) e)
    as (p' & Hat' & Hpc & Hr & Hk).
  { exists p, p'. split; [done|]. split; [done|]. split; [done|]. split; [|intros Hkill; unfold passed; rewrite Hr, Hpc; by auto].
    intros Hok. unfold pc_ok in *.
    rewrite Hpc, Hr. split; [done|]. split; [by repeat split|]. split; [by left|done]. }
  unfold warnDiskLow. repeat first [job_step | case_match];
    (eexists; split; [eassumption|]); destruct (v_kill v); split_and!; try done;
    intros [Hk|Hk]; unfold killReason in *; simpl in *; rewrite ?Hk in *; done.
Qed.
End machine.

(** ** The calls of the engine's clients *)

Section calls.
Context {W : Type} `{!StorageWorld W, !MapRange}.

Definition next_id (e : Engine W) : string := default ""%string (head (mg_ids (en_mgr e))).

(** Nothing that the invariant sees has changed, nor the id generator. *)
Definition unchanged (e e' : Engine W) : Prop := view_of e' = view_of e ∧ mg_ids (en_mgr e') = mg_ids (en_mgr e).

Lemma wp_get_job jobID Q (e0 e : Engine W) :
  unchanged e0 e → (∀ r e', unchanged e0 e' → Q r e') → wp (job_store (GetJob jobID)) Q e.
Proof.
  intros [Hv Hi] HQ. apply wp_lift, wp_lift. unfold wp. apply HQ. unfold GetJob.
  destruct (statement_cases (λ d, db_jobs d !! jobID) (mg_db (en_mgr e))) as [[Hj [Hvs _]] _].
  split; [|done]. unfold view_of in *. simpl. by rewrite Hj.
Qed.

Lemma wp_inherited storageID retryOf Q (e0 e : Engine W) :
  unchanged e0 e → (∀ r e', unchanged e0 e' → Q r e') → wp (inherited_storage storageID retryOf) Q e.
Proof.
  intros He HQ. unfold inherited_storage. case_bool_decide; [|by apply wp_ret, HQ].
  apply wp_bind. eapply wp_get_job; [done|]. intros r e' He'. by apply wp_ret, HQ.
Qed.

Definition same_aim (row row' : JobRow) : Prop :=
  job_ID row' = job_ID row ∧ job_UDID row' = job_UDID row ∧ job_StorageID row' = job_StorageID row ∧
  job_State row' = job_State row.

Lemma wp_retry_row row retryOf Q (e0 e : Engine W) :
  unchanged e0 e →
  (∀ r e', unchanged e0 e' → match r with inl row' => same_aim row row' | inr _ => True end → Q r e') →
  wp (retry_row row retryOf) Q e.
Proof.
  intros He HQ. unfold retry_row. case_bool_decide; [by apply wp_ret, HQ|].
  apply wp_bind. eapply wp_get_job; [done|]. intros r e' He'. apply wp_ret, HQ; [done|].
  by destruct r as [[?|]|].
Qed.

(** A call that only may bind an id that no job has. *)
Definition idle_call (e e' : Engine W) : Prop :=
  ∃ b, view_of e' = mkView (en_jobs e) (en_running e) b (dom (db_jobs (mg_db (en_mgr e)))) ∧
    (b = mg_jobStorage (en_mgr e) ∨ ∃ jb, b = <[next_id e := jb]> (mg_jobStorage (en_mgr e))).

Lemma unchanged_idle e e' : unchanged e e' → idle_call e e'.
Proof. intros [Hv _]. exists (mg_jobStorage (en_mgr e)). auto. Qed.

(** A job that [StartBackup] made. *)
Definition started (e e' : Engine W) (row : JobRow) : Prop :=
  ∃ udid st, en_running e !! udid = None ∧ job_ID row = next_id e ∧ job_UDID row = udid ∧
    job_StorageID row = Some st ∧ job_State row = StateQueued ∧
    view_of e' = mkView (<[next_id e := new_proc row]> (en_jobs e)) (<[udid := next_id e]> (en_running e))
      (<[next_id e := mkBinding st udid]> (mg_jobStorage (en_mgr e)))
      ({[next_id e]} ∪ dom (db_jobs (mg_db (en_mgr e)))).

Lemma InsertJob_cases row d :
  (InsertJob row d).1 = None ∧ dom (db_jobs (InsertJob row d).2) = {[job_ID row]} ∪ dom (db_jobs d) ∨
  is_Some (InsertJob row d).1 ∧ dom (db_jobs (InsertJob row d).2) = dom (db_jobs d).
Proof.
  unfold InsertJob. match goal with |- context [exec ?f d] => set (op := f) end.
  destruct (exec_cases op d) as [[? [Hj _]]|(d0 & [Hj _] & He & Hd)]; [right; by rewrite Hj|].
  rewrite He, Hd. unfold op. rewrite Hj. destruct (db_jobs d !! job_ID row); simpl.
  - right. rewrite Hj. eauto.
  - left. split; [done|]. by rewrite dom_insert_L, Hj.
Qed.

Lemma StartBackup_spec udid transport storageID retryOf (e : Engine W) :
  let r := StartBackup udid transport storageID retryOf e in
  idle_call e r.2 ∨ ∃ row, started e r.2 row.
Proof.
  enough (wp (StartBackup udid transport storageID retryOf)
    (λ _ e', idle_call e e' ∨ ∃ row, started e e' row) e) as Hwp by exact Hwp.
  assert (unchanged e e) as He by done.
  unfold StartBackup, refuse. case_match; [apply wp_ret; left; by apply unchanged_idle|].
  apply wp_bind, wp_gets. destruct (resolveTransport udid transport (id e)) as [[tr st] re].
  case_match; [apply wp_ret; left; by apply unchanged_idle|].
  apply wp_bind. eapply wp_inherited; [exact He|]. clear He. intros wanted e1 He1.
  apply wp_bind, wp_gets. destruct (ResolveChoice _ _) as [[concrete st'] re'].
  case_match; [apply wp_ret; left; by apply unchanged_idle|]. unfold id.
  destruct (en_running e1 !! udid) as [jobID|] eqn:Hrun; [apply wp_ret; left; by apply unchanged_idle|].
  apply wp_bind, wp_lift. unfold wp at 1. simpl.
  set (e2 := set_mgr _ e1).
  assert (view_of e2 = view_of e) as Hv2 by exact (proj1 He1).
  assert (default ""%string (head (mg_ids (en_mgr e1))) = next_id e) as Hid
    by (unfold next_id; by rewrite (proj2 He1)).
  rewrite Hid. apply wp_bind. eapply (wp_retry_row _ _ _ e2); [done|]. intros r e3 [Hv3 _] Hr.
  rewrite Hv2 in Hv3.
  destruct r as [row|[st'' re'']].
  2: { apply wp_ret. left. exists (mg_jobStorage (en_mgr e)). auto. }
  destruct Hr as (Hr1 & Hr2 & Hr3 & Hr4). simpl in *.
  assert (mg_jobStorage (en_mgr e3) = mg_jobStorage (en_mgr e)) as Hb3 by exact (f_equal v_bound Hv3).
  assert (dom (db_jobs (mg_db (en_mgr e3))) = dom (db_jobs (mg_db (en_mgr e)))) as Hd3 by exact (f_equal v_rows Hv3).
  assert (en_jobs e3 = en_jobs e) as Hj3 by exact (f_equal v_jobs Hv3).
  assert (en_running e3 = en_running e) as Hru3 by exact (f_equal v_running Hv3).
  apply wp_bind, wp_lift. unfold wp at 1, bind_job, BindJobStorage.
  assert (∀ e', view_of e' = mkView (en_jobs e3) (en_running e3) (mg_jobStorage (en_mgr e3))
    (dom (db_jobs (mg_db (en_mgr e3)))) → idle_call e e') as Hidle.
  { intros e' Hv'. exists (mg_jobStorage (en_mgr e)). rewrite Hv', Hj3, Hru3, Hb3, Hd3. auto. }
  destruct (find_slot concrete (mg_slots (en_mgr e3))) as [s|]; simpl; [|by apply wp_ret; left; apply Hidle].
  destruct (Usable s); simpl; [|by apply wp_ret; left; apply Hidle].
  apply wp_bind, wp_lift, wp_lift. unfold wp at 1. cbv beta. cbn [en_mgr set_mgr set_bindings mg_db mg_world].
  destruct (InsertJob_cases row (mg_db (en_mgr e3))) as [[-> Hd]|[[msg ->] Hd]].
  - right. exists row, udid, concrete. simpl in *.
    split; [by rewrite <-(f_equal v_running (proj1 He1) : en_running e1 = en_running e)|].
    split; [done|]. split; [done|]. split; [done|]. split; [done|].
    unfold view_of. simpl. by rewrite Hj3, Hru3, Hb3, Hd, Hd3, Hr1.
  - left. eexists. split; [|right; exists (mkBinding concrete udid); reflexivity].
    unfold view_of. simpl. by rewrite Hj3, Hru3, Hb3, Hd, Hd3.
Qed.

Lemma CancelJob_spec jobID (e : Engine W) :
  view_of (CancelJob jobID e).2 = view_of e ∨ beside_run jobID e (CancelJob jobID e).2.
Proof.
  enough (wp (CancelJob jobID) (λ _ e', view_of e' = view_of e ∨ beside_run jobID e e') e) as Hwp by exact Hwp.
  unfold CancelJob. apply wp_bind, wp_gets. unfold id. destruct (is_running jobID e).
  - destruct (en_jobs e !! jobID) as [p|] eqn:Hp.
    + apply wp_bind. eapply wp_update_proc; [by apply at_proc_start|]. intros e' Hat. apply wp_ret.
      right. exists p. eexists. split; [done|]. split; [exact Hat|]. split; [done|].
      apply proc_moves_refl; [done|done|].
      by intros [Hk|Hk]; unfold killReason in *; simpl; rewrite Hk.
    + apply wp_bind. eapply (wp_get_job _ _ e); [done|]. intros r e' [Hv _].
      by destruct r as [[?|]|]; apply wp_ret; left.
  - apply wp_bind. eapply (wp_get_job _ _ e); [done|]. intros r e' [Hv _].
    by destruct r as [[?|]|]; apply wp_ret; left.
Qed.

Lemma ResetWorking_spec udid storageID (e : Engine W) : view_of (ResetWorking udid storageID e).2 = view_of e.
Proof.
  enough (wp (ResetWorking udid storageID) (λ _ e', view_of e' = view_of e) e) as Hwp by exact Hwp.
  unfold ResetWorking. case_match; [by apply wp_ret|]. apply wp_bind, wp_gets.
  destruct (en_devices _ !! _); [|by apply wp_ret]. destruct (en_running _ !! _); [by apply wp_ret|].
  apply wp_lift. unfold wp. destruct (keeps_RepairWorking udid storageID (en_mgr e)) as [Hj Hb].
  unfold view_of. simpl. by rewrite Hj, Hb.
Qed.

(** ** The invariant *)

Record view_ok (v : view) : Prop := {
  ok_running : ∀ u k, v_running v !! u = Some k →
    ∃ p, v_jobs v !! k = Some p ∧ job_UDID (pr_row p) = u ∧ pr_pc p ≠ PcDone;
  ok_job : ∀ k p, v_jobs v !! k = Some p → job_ID (pr_row p) = k ∧ pc_ok p ∧ k ∈ v_rows v;
  ok_live : ∀ k p, v_jobs v !! k = Some p → pr_pc p ≠ PcDone →
    v_running v !! job_UDID (pr_row p) = Some k ∧
    ∃ st, job_StorageID (pr_row p) = Some st ∧ v_bound v !! k = Some (mkBinding st (job_UDID (pr_row p)));
  ok_done : ∀ k p, v_jobs v !! k = Some p → pr_pc p = PcDone → v_bound v !! k = None }.

Definition engine_ok (e : Engine W) : Prop := view_ok (view_of e).

Lemma view_ok_step v k p p' :
  view_ok v → v_jobs v !! k = Some p → proc_moves p p' → (pr_pc p' = PcDone ↔ pr_pc p = PcDone) →
  view_ok (upd_view k p' v).
Proof.
  intros [Hr Hj Hl Hd] Hp Hm Hpc. destruct (Hj k p Hp) as (Hid & Hok & Hin).
  destruct (proj1 Hm Hok) as [Hok' [(Hi & Hu & _ & _ & _ & _ & Hst & _) _]].
  split; simpl.
  - intros u k' Hk'. destruct (Hr u k' Hk') as (q & Hq & Huq & Hpq).
    destruct (decide (k' = k)) as [->|?]; [|exists q; by rewrite lookup_insert_ne].
    rewrite Hp in Hq. injection Hq as <-. exists p'. rewrite lookup_insert_eq, Hu. naive_solver.
  - intros k' q. destruct (decide (k' = k)) as [->|?].
    + rewrite lookup_insert_eq. intros [= <-]. by rewrite Hi.
    + rewrite lookup_insert_ne by done. apply Hj.
  - intros k' q. destruct (decide (k' = k)) as [->|?].
    + rewrite lookup_insert_eq. intros [= <-] Hn. rewrite Hu, Hst. apply Hl; [done|]. by rewrite <-Hpc.
    + rewrite lookup_insert_ne by done. apply Hl.
  - intros k' q. destruct (decide (k' = k)) as [->|?].
    + rewrite lookup_insert_eq. intros [= <-] Hn. apply (Hd k p Hp). by apply Hpc.
    + rewrite lookup_insert_ne by done. apply Hd.
Qed.

Lemma view_ok_release v k p :
  view_ok v → v_jobs v !! k = Some p → pr_pc p = PcRelease →
  view_ok (mkView (<[k := set_pc PcDone p]> (v_jobs v)) (delete (job_UDID (pr_row p)) (v_running v))
    (delete k (v_bound v)) (v_rows v)).
Proof.
  intros [Hr Hj Hl Hd] Hp Hpc. destruct (Hj k p Hp) as (Hid & Hok & Hin).
  destruct (Hl k p Hp) as [Hrun _]; [by rewrite Hpc|]. split; simpl.
  - intros u k' Hk'. apply lookup_delete_Some in Hk' as [Hne Hk'].
    destruct (Hr u k' Hk') as (q & Hq & Huq & Hpq).
    assert (k' ≠ k) as Hkk by (intros ->; congruence). exists q. by rewrite lookup_insert_ne.
  - intros k' q. destruct (decide (k' = k)) as [->|?].
    + rewrite lookup_insert_eq. intros [= <-]. split; [done|]. split; [|done].
      unfold pc_ok in *. by rewrite Hpc in Hok.
    + rewrite lookup_insert_ne by done. apply Hj.
  - intros k' q. destruct (decide (k' = k)) as [->|?].
    + rewrite lookup_insert_eq. by intros [= <-] Hn.
    + rewrite lookup_insert_ne by done. intros Hq Hn. destruct (Hl k' q Hq Hn) as [Hru (st & Hst & Hb)].
      split; [|exists st; by rewrite lookup_delete_ne].
      rewrite lookup_delete_ne; [done|]. intros He. rewrite <-He in Hru. congruence.
  - intros k' q. destruct (decide (k' = k)) as [->|?].
    + intros _ _. apply lookup_delete_eq.
    + rewrite lookup_insert_ne, lookup_delete_ne by done. apply Hd.
Qed.

Lemma view_ok_start v k udid st row :
  view_ok v → k ∉ v_rows v → v_running v !! udid = None → job_ID row = k → job_UDID row = udid →
  job_StorageID row = Some st → job_State row = StateQueued →
  view_ok (mkView (<[k := new_proc row]> (v_jobs v)) (<[udid := k]> (v_running v))
    (<[k := mkBinding st udid]> (v_bound v)) ({[k]} ∪ v_rows v)).
Proof.
  intros [Hr Hj Hl Hd] Hk Hu Hid Hud Hst Hs.
  assert (∀ k' q, v_jobs v !! k' = Some q → k' ≠ k) as Hne by (intros k' q Hq ->; by apply Hj in Hq as (_ & _ & ?)).
  split; simpl.
  - intros u k'. destruct (decide (u = udid)) as [->|?].
    + rewrite lookup_insert_eq. intros [= <-]. exists (new_proc row). by rewrite lookup_insert_eq.
    + rewrite lookup_insert_ne by done. intros Hk'. destruct (Hr u k' Hk') as (q & Hq & ?).
      exists q. rewrite lookup_insert_ne; [done|]. intros <-. by eapply Hne.
  - intros k' q. destruct (decide (k' = k)) as [->|?].
    + rewrite lookup_insert_eq. intros [= <-]. split; [done|]. split.
      * unfold pc_ok. simpl. unfold pr_row. simpl. rewrite Hs. by apply elem_of_cons; left.
      * apply elem_of_union. left. by apply elem_of_singleton.
    + rewrite lookup_insert_ne by done. intros (? & ? & ?)%Hj. split_and!; [done|done|].
      apply elem_of_union. by right.
  - intros k' q. destruct (decide (k' = k)) as [->|?].
    + rewrite lookup_insert_eq. intros [= <-] _. unfold pr_row. simpl. rewrite Hud, !lookup_insert_eq.
      split; [done|]. by exists st.
    + rewrite !(lookup_insert_ne _ k) by done. intros Hq Hn. destruct (Hl k' q Hq Hn) as [Hru ?].
      split; [|done]. rewrite lookup_insert_ne; [done|]. intros He. congruence.
  - intros k' q. destruct (decide (k' = k)) as [->|?].
    + rewrite lookup_insert_eq. by intros [= <-].
    + rewrite !(lookup_insert_ne _ k) by done. apply Hd.
Qed.

Lemma view_ok_bind v k jb : view_ok v → k ∉ v_rows v →
  view_ok (mkView (v_jobs v) (v_running v) (<[k := jb]> (v_bound v)) (v_rows v)).
Proof.
  intros [Hr Hj Hl Hd] Hk.
  assert (∀ k' q, v_jobs v !! k' = Some q → k' ≠ k) as Hne by (intros k' q Hq ->; by apply Hj in Hq as (_ & _ & ?)).
  split; simpl; [done|done|..]; intros k' q Hq; (rewrite lookup_insert_ne; [by apply (Hl k' q)|]) ||
    (rewrite lookup_insert_ne; [by apply (Hd k' q)|]); intros ->; by eapply Hne.
Qed.
End calls.

(** ** The theorems *)

Section theorems.
Context {W : Type} `{!StorageWorld W, !MapRange}.

(** What one step of the system does to what the invariant sees. *)
Inductive view_step (v : view) : view → Prop :=
  | view_job k p p' : v_jobs v !! k = Some p → proc_moves p p' → (pr_pc p' = PcDone ↔ pr_pc p = PcDone) →
      view_step v (upd_view k p' v)
  | view_release k p : v_jobs v !! k = Some p → pr_pc p = PcRelease →
      view_step v (mkView (<[k := set_pc PcDone p]> (v_jobs v)) (delete (job_UDID (pr_row p)) (v_running v))
        (delete k (v_bound v)) (v_rows v))
  | view_start k udid st row : k ∉ v_rows v → v_running v !! udid = None → job_ID row = k →
      job_UDID row = udid → job_StorageID row = Some st → job_State row = StateQueued →
      view_step v (mkView (<[k := new_proc row]> (v_jobs v)) (<[udid := k]> (v_running v))
        (<[k := mkBinding st udid]> (v_bound v)) ({[k]} ∪ v_rows v))
  | view_bind k jb : k ∉ v_rows v →
      view_step v (mkView (v_jobs v) (v_running v) (<[k := jb]> (v_bound v)) (v_rows v))
  | view_same : view_step v v.

Lemma proc_steps_done p p' : proc_steps p p' → (pr_pc p' = PcDone ↔ pr_pc p = PcDone).
Proof. intros [_ Hr]. split; intros He; rewrite He in Hr; simpl in Hr; [lia|]. destruct (pr_pc p'); simpl in Hr; lia. Qed.

Lemma beside_run_view k (e e' : Engine W) : beside_run k e e' → view_step (view_of e) (view_of e').
Proof.
  intros (p & p' & Hp & Hat & Hpc & Hm). rewrite Hat. eapply view_job; [exact Hp|done|]. by rewrite Hpc.
Qed.

Lemma engine_step_view (e e' : Engine W) : engine_step e e' → view_step (view_of e) (view_of e').
Proof.
  intros Hs. destruct Hs as [udid tr st re e Hf|k e|u s e|k i e e' Hr|k l e e' Hr|k fp fr e e' Hr|k e e' Hr|k e e' Hr
    |d e|l e|m' e [Hj Hb]|e].
  - destruct (StartBackup_spec udid tr st re e) as [(b & Hv & [->|[jb ->]])|(row & ud & stt & Hrun & Hid & Hu & Hst & Hq & Hv)];
      rewrite Hv; [apply view_same|by apply (view_bind (view_of e))|].
    by eapply (view_start (view_of e)).
  - destruct (CancelJob_spec k e) as [->|Hb]; [apply view_same|by eapply beside_run_view].
  - rewrite ResetWorking_spec. apply view_same.
  - apply run_step_spec in Hr as (p & Hp & [(p' & Hat & [[-> _]|Hst])|[Hpc Hv]]).
    + rewrite Hat. eapply view_job; [exact Hp|by apply proc_moves_refl|done].
    + rewrite Hat. eapply view_job; [exact Hp|apply Hst|by apply proc_steps_done].
    + rewrite Hv. by apply (view_release (view_of e)).
  - apply line_step_spec in Hr. by eapply beside_run_view.
  - apply tick_step_spec in Hr. by eapply beside_run_view.
  - apply report_step_spec in Hr. by eapply beside_run_view.
  - apply stop_step_spec in Hr. by eapply beside_run_view.
  - apply view_same.
  - apply view_same.
  - unfold view_of. simpl. rewrite Hj, Hb. apply view_same.
  - apply view_same.
Qed.

Lemma view_step_ok v v' : view_ok v → view_step v v' → view_ok v'.
Proof.
  intros Hok Hs. destruct Hs; [by eapply view_ok_step|by eapply view_ok_release|by eapply view_ok_start
    |by apply view_ok_bind|done].
Qed.

Lemma view_step_row v v' k p : view_ok v → view_step v v' → v_jobs v !! k = Some p →
  ∃ p', v_jobs v' !! k = Some p' ∧ row_moves (pr_row p) (pr_row p').
Proof.
  intros Hok Hs Hk. destruct (ok_job _ Hok _ _ Hk) as (Hid & Hpc & Hin).
  destruct Hs as [k' q q' Hq Hm _|k' q Hq _|k' u st row Hn _ _ _ _ _|k' jb Hn|]; simpl;
    try (exists p; split; [done|apply row_moves_refl]).
  - destruct (decide (k = k')) as [->|?]; [|exists p; rewrite lookup_insert_ne by done; split; [done|apply row_moves_refl]].
    rewrite Hk in Hq. injection Hq as <-. exists q'. rewrite lookup_insert_eq. split; [done|]. by apply Hm.
  - destruct (decide (k = k')) as [->|?]; [|exists p; rewrite lookup_insert_ne by done; split; [done|apply row_moves_refl]].
    rewrite Hk in Hq. injection Hq as <-. exists (set_pc PcDone p). rewrite lookup_insert_eq.
    split; [done|apply row_moves_refl].
  - exists p. rewrite lookup_insert_ne by (intros ->; done). split; [done|apply row_moves_refl].
Qed.

Lemma new_engine_ok cfg backups (m : Manager W) devices : engine_ok (new_engine cfg backups m devices).
Proof. split; simpl; intros ? ?; by rewrite lookup_empty. Qed.

Lemma reachable_ok cfg backups m devices (e : Engine W) :
  rtc engine_step (new_engine cfg backups m devices) e → engine_ok e.
Proof.
  intros Hr. apply (rtc_ind_r engine_ok) with (x := new_engine cfg backups m devices) in Hr; [done| |].
  - apply new_engine_ok.
  - intros e1 e2 _ Hs Hok. by eapply view_step_ok; [|by apply engine_step_view].
Qed.

(** C5: whatever the clients, the device, the tool, the disk, the sampler and the clock do and in
    whatever order, a job's row moves along the state machine (queued, waiting for the device,
    preflight, seeding, backing up, verifying, committing, succeeded, with the failures of each), what
    was fixed at its start never changes, and once its state is terminal nothing of the row changes
    but the liveness. *)
Theorem job_follows_machine cfg backups (m : Manager W) devices e e' k p :
  rtc engine_step (new_engine cfg backups m devices) e → engine_step e e' → en_jobs e !! k = Some p →
  ∃ p', en_jobs e' !! k = Some p' ∧ row_moves (pr_row p) (pr_row p').
Proof.
  intros Hr Hs Hp. apply (view_step_row (view_of e) (view_of e')); [by eapply reachable_ok|by apply engine_step_view|done].
Qed.

(** A device never has two unfinished jobs, in any reachable state, and the one it has is the one
    that [StartBackup], [ResetWorking] and [RunningFor] ask about. *)
Theorem single_flight cfg backups (m : Manager W) devices e k1 k2 p1 p2 :
  rtc engine_step (new_engine cfg backups m devices) e →
  en_jobs e !! k1 = Some p1 → en_jobs e !! k2 = Some p2 → pr_pc p1 ≠ PcDone → pr_pc p2 ≠ PcDone →
  job_UDID (pr_row p1) = job_UDID (pr_row p2) →
  k1 = k2 ∧ en_running e !! job_UDID (pr_row p1) = Some k1.
Proof.
  intros Hr Hp1 Hp2 Hn1 Hn2 Hu. pose proof (reachable_ok _ _ _ _ _ Hr) as Hok.
  destruct (ok_live _ Hok k1 p1 Hp1 Hn1) as [Hr1 _], (ok_live _ Hok k2 p2 Hp2 Hn2) as [Hr2 _].
  simpl in *. split; [congruence|done].
Qed.

(** In any reachable state a job that has not ended resolves to the storage its row records or to
    a refusal, never to another storage; and a job that has ended is bound to none. *)
Theorem job_writes_where_its_row_says cfg backups (m : Manager W) devices e k p :
  rtc engine_step (new_engine cfg backups m devices) e → en_jobs e !! k = Some p →
  (pr_pc p ≠ PcDone → ∀ slots s, jobSlot slots (mg_jobStorage (en_mgr e)) k = Ok s →
     job_StorageID (pr_row p) = Some (s_StorageID (W := W) s)) ∧
  (pr_pc p = PcDone → mg_jobStorage (en_mgr e) !! k = None).
Proof.
  intros Hr Hp. pose proof (reachable_ok _ _ _ _ _ Hr) as Hok. split.
  - intros Hn slots s Hs. destruct (ok_live _ Hok k p Hp Hn) as (_ & st & Hst & Hb). simpl in Hb.
    apply jobSlot_Ok in Hs as (_ & _ & Hf). rewrite Hb in Hf. apply find_slot_Some in Hf as [He _].
    simpl in He. congruence.
  - intros Hd. exact (ok_done _ Hok k p Hp Hd).
Qed.

(** C17: the goroutine of a job always ends: from every reachable state an unfinished job has an input
    on which it gets strictly further, unless it waits for the commit lease that another actor holds;
    and every step that changes the job gets it further, along sixteen places. *)
Theorem run_advances cfg backups (m : Manager W) devices e k p :
  rtc engine_step (new_engine cfg backups m devices) e → en_jobs e !! k = Some p → pr_pc p ≠ PcDone →
  (∃ i e' p', run_step k i e = Some e' ∧ en_jobs e' !! k = Some p' ∧
     ((pc_rank (pr_pc p) < pc_rank (pr_pc p'))%nat ∨
      pr_pc p = PcCommit ∧ p' = p ∧ (CommitJob (job_UDID (pr_row p)) k (en_mgr e)).1 = None)) ∧
  (∀ i e', run_step k i e = Some e' → ∃ p', en_jobs e' !! k = Some p' ∧
     (p' = p ∨ (pc_rank (pr_pc p) < pc_rank (pr_pc p') ≤ 15)%nat)).
Proof.
  intros Hr Hp Hn. split.
  2: { intros i e' Hs. apply run_step_spec in Hs as (q & Hq & Hc). rewrite Hp in Hq. injection Hq as <-.
       destruct Hc as [(p' & Hat & [[-> _]|[_ Hlt]])|[Hpc Hv]].
       - exists p. split; [by eapply at_proc_lookup|by left].
       - exists p'. split; [by eapply at_proc_lookup|right; lia].
       - exists (set_pc PcDone p). apply (f_equal v_jobs) in Hv. simpl in Hv. rewrite Hv, lookup_insert_eq.
         split; [done|]. right. rewrite Hpc. simpl. lia. }
  assert (∃ i e', run_step k i e = Some e' ∧ (pr_pc p = PcAwait → i ≠ InPoll)) as (i & e' & Hs & Hi).
  { exists (match pr_pc p with
      | PcAwait => InDeadline | PcPreflight => InProbe None None | PcLaunch _ _ => InStarted None
      | PcInfo _ => InInfo None | PcSeed _ _ => InOpened None None | PcEnterLoop => InFingerprint (mkFP 0 0 0 0)
      | PcLoop => InDrained | PcReap => InWaited None | _ => InGo end).
    unfold run_step. rewrite Hp. simpl. unfold run_proc, await_device.
    destruct (pr_pc p) eqn:Hpc; try done; try destruct (preflight _ _ _ _ _); try case_bool_decide;
      eexists; (split; [reflexivity|done]). }
  exists i, e'. pose proof Hs as Hs'. apply run_step_spec in Hs' as (q & Hq & Hc).
  rewrite Hp in Hq. injection Hq as <-. destruct Hc as [(p' & Hat & [[-> Hst]|[_ Hlt]])|[Hpc Hv]].
  - exists p. split; [done|]. split; [by eapply at_proc_lookup|]. right.
    destruct Hst as [[Haw ->]|[? ?]]; [by destruct (Hi Haw)|done].
  - exists p'. split; [done|]. split; [by eapply at_proc_lookup|]. left. lia.
  - exists (set_pc PcDone p). split; [done|]. apply (f_equal v_jobs) in Hv. simpl in Hv.
    rewrite Hv, lookup_insert_eq. split; [done|]. left. rewrite Hpc. simpl. lia.
Qed.
End theorems.
