(* ===== verification/EngineOutcomes.v ===== *)
(** * EngineOutcomes: what the engine's answers mean

    Theorems about how jobs end: success means a committed version, a kill that is there when the
    engine looks for it outranks whatever the tool did, and every way the tool ends has its own
    outcome. *)

From Stdlib Require Import String Ascii.
From S2P Require Import Prelude Calendar Domain Sampler Parser JobLog Store Backend Slots FS Sidecars.
From S2P Require Import Retention Slots Verify Manager Reconcile ReconcileSafety ManagerSafety.
From S2P Require Import Engine EngineSafety.

(** ** Success *)

Section success.
Context {W : Type} `{!StorageWorld W, !MapRange, !SortSlice}.

Lemma before_success st : StateSucceeded ∈ next_states st → st = StateCommitting.
Proof.
  intros Hs. destruct (decide (st = StateCommitting)) as [|Hc]; [done|]. exfalso. revert Hs.
  unfold next_states. repeat (case_bool_decide; subst; [rewrite ?elem_of_cons, ?elem_of_nil; by intros; destruct_or?|]).
  apply not_elem_of_nil.
Qed.

Lemma before_committing st : StateCommitting ∈ next_states st → st = StateVerifying.
Proof.
  intros Hs. destruct (decide (st = StateVerifying)) as [|Hc]; [done|]. exfalso. revert Hs.
  unfold next_states. repeat (case_bool_decide; subst; [rewrite ?elem_of_cons, ?elem_of_nil; by intros; destruct_or?|]).
  apply not_elem_of_nil.
Qed.

Lemma committing_place pc st : st ∈ states_at pc → StateSucceeded ∈ next_states st → pc = PcCommit.
Proof.
  intros Hs ->%before_success. apply (bool_decide_eq_true_2 _) in Hs.
  destruct pc as [| | | |? []| | | | | | | | | | |]; by vm_compute in Hs.
Qed.

(** Only the commit makes a job succeed. *)
Lemma success_needs_commit k i (e e' : Engine W) p p' :
  run_step k i e = Some e' → en_jobs e !! k = Some p → en_jobs e' !! k = Some p' → pc_ok p →
  job_State (pr_row p) ≠ StateSucceeded → job_State (pr_row p') = StateSucceeded → pr_pc p = PcCommit.
Proof.
  intros Hs Hp Hp' Hok Hn Hsucc. apply run_step_spec in Hs as (q & Hq & Hc).
  rewrite Hp in Hq. injection Hq as <-. destruct Hc as [(q & Hat & Hst)|[Hpc Hv]].
  - pose proof (at_proc_lookup _ _ _ _ Hat) as Hl. rewrite Hp' in Hl. injection Hl as <-.
    destruct Hst as [[-> _]|[Hm _]]; [done|]. destruct (proj1 Hm Hok) as [_ (_ & Hmove & _)].
    rewrite Hsucc in Hmove. destruct Hmove as [?|Hmove]; [congruence|].
    by eapply committing_place.
  - apply (f_equal v_jobs) in Hv. simpl in Hv. rewrite Hv, lookup_insert_eq in Hp'. injection Hp' as <-. done.
Qed.

(** What the commit step leaves when the manager committed version [v]. *)
Lemma commit_step_ok k (e e' : Engine W) p v m1 :
  en_jobs e !! k = Some p → pr_pc p = PcCommit → run_step k InGo e = Some e' →
  CommitJob (job_UDID (pr_row p)) k (en_mgr e) = (Some (Ok v), m1) →
  let row := succeeded_row (Some (wv_ID v)) (mg_now m1) (pr_row p) in
  (∃ p', en_jobs e' !! k = Some p' ∧ pr_row p' = row) ∧
  db_versions (mg_db (en_mgr e')) = db_versions (mg_db m1) ∧
  en_events e' = en_events e ++ [EventJobUpdated (jobToWire row); AnnounceBackup (job_UDID (pr_row p))].
Proof.
  intros Hp Hpc Hs Hc row. unfold run_step in Hs. rewrite Hp in Hs. simpl in Hs. unfold run_proc in Hs.
  rewrite Hpc in Hs. simpl in Hs. injection Hs as <-.
  enough (wp (r ← storage (CommitJob (job_UDID (pr_row p)) k);
      match r with
      | None => mret tt
      | Some (Err msg) => terminate k StateFailed ErrCommitFailed ("commit: " +:+ msg);; goto k PcRelease
      | Some (Ok v) => succeed k (wv_ID v);; goto k PcRelease
      end)
    (λ _ e', (∃ p', en_jobs e' !! k = Some p' ∧ pr_row p' = row) ∧
       db_versions (mg_db (en_mgr e')) = db_versions (mg_db m1) ∧
       en_events e' = en_events e ++ [EventJobUpdated (jobToWire row); AnnounceBackup (job_UDID (pr_row p))]) e)
    as Hwp by exact Hwp.
  apply wp_bind, wp_lift. unfold wp at 1. rewrite Hc. simpl. unfold succeed, transition, with_proc.
  do 2 apply wp_bind. apply wp_gets. do 2 apply wp_bind. apply wp_gets. cbn [en_jobs set_mgr]. rewrite Hp. cbv zeta.
  apply wp_bind, wp_modify, wp_bind, wp_lift, wp_lift. unfold wp at 1. apply wp_modify.
  apply wp_bind, wp_gets. cbn [en_jobs set_mgr set_jobs add_event].
  rewrite lookup_alter_eq, Hp. apply wp_modify, wp_modify. simpl.
  split; [|split].
  - eexists. rewrite !lookup_alter_eq, Hp. done.
  - apply UpdateJob_rows.
  - by rewrite <-app_assoc.
Qed.

(** A commit step that did not commit leaves a job that has not succeeded. *)
Lemma commit_step_fails k (e e' : Engine W) p p' r m1 :
  en_jobs e !! k = Some p → pr_pc p = PcCommit → run_step k InGo e = Some e' → en_jobs e' !! k = Some p' →
  job_State (pr_row p) ≠ StateSucceeded → job_State (pr_row p') = StateSucceeded →
  CommitJob (job_UDID (pr_row p)) k (en_mgr e) = (r, m1) → ∃ v, r = Some (Ok v).
Proof.
  intros Hp Hpc Hs Hp' Hn Hsucc Hc. destruct r as [[v|msg]|]; [eauto|exfalso..];
    unfold run_step in Hs; rewrite Hp in Hs; simpl in Hs; unfold run_proc in Hs; rewrite Hpc in Hs; simpl in Hs;
    injection Hs as <-; revert Hp'; pose proof (at_proc_start _ _ _ Hp) as Hat.
  - match goal with |- en_jobs (?k e).2 !! _ = _ → _ =>
      enough (wp k (λ _ e', en_jobs e' !! _ = Some p' → False) e) as Hwp by exact Hwp end.
    apply wp_bind. eapply wp_storage; [by auto with keeps|exact Hat|]. rewrite Hc. intros a e1 -> Hat1. simpl.
    unfold terminate. do 5 job_step. intros Hq. rewrite (at_proc_lookup _ _ _ _ Hat1) in Hq.
    by injection Hq as <-.
  - match goal with |- en_jobs (?k e).2 !! _ = _ → _ =>
      enough (wp k (λ _ e', en_jobs e' !! _ = Some p' → False) e) as Hwp by exact Hwp end.
    apply wp_bind. eapply wp_storage; [by auto with keeps|exact Hat|]. rewrite Hc. intros a e1 -> Hat1. simpl.
    job_step. intros Hq. rewrite (at_proc_lookup _ _ _ _ Hat1) in Hq. by injection Hq as <-.
Qed.

(** Version [v] is one that the storage of this job's row committed between [m] and [m'], from a tree
    of this job that had passed the structural check. *)
Definition committed_version (row : JobRow) (m m' : Manager W) (v : string) : Prop :=
  ∃ s b kind vr c w1 w2,
    job_StorageID row = Some (s_StorageID s) ∧ s ∈ mg_slots m ∧ s_Backend s = Some b ∧
    verify_tree (b_TreePath b (job_UDID row) (job_ID row)) kind w1 = (vr, w2) ∧ vr_OK vr = true ∧
    co_VersionID c = v ∧ vers m !! v = None ∧ vers m' !! v = Some (store_version (committed_row s c)) ∧
    (∀ k v', vers m' !! k = Some v' → ver_UDID v' = co_UDID c → ver_StorageID v' = slotIDPtr s →
       ver_IsLatest v' = true → k = v).

(** C4: success means a version.  In any reachable state, while the registry's statements answer, a
    step that makes a job succeed is its commit: the row names a version that the registry did not
    have before and has now, recorded on the storage of the job's row as its only latest, from a
    tree of this job that had passed the structural check; the row is emitted, then the backup is
    announced, and nothing else is. *)
Theorem success_is_committed cfg backups (m0 : Manager W) devices e e' i k p p' :
  rtc engine_step (new_engine cfg backups m0 devices) e → run_step k i e = Some e' →
  en_jobs e !! k = Some p → en_jobs e' !! k = Some p' →
  job_State (pr_row p) ≠ StateSucceeded → job_State (pr_row p') = StateSucceeded →
  job_UDID (pr_row p) ≠ ""%string → db_ok (mg_db (en_mgr e)) → healthy (en_mgr e) →
  ∃ v fin, pr_row p' = succeeded_row (Some v) fin (pr_row p) ∧
    committed_version (pr_row p) (en_mgr e) (en_mgr e') v ∧
    en_events e' = en_events e ++ [EventJobUpdated (jobToWire (pr_row p')); AnnounceBackup (job_UDID (pr_row p))].
Proof.
  intros Hr Hs Hp Hp' Hn Hsucc Hu Hok Hh. pose proof (reachable_ok _ _ _ _ _ Hr) as Hinv.
  destruct (ok_job _ Hinv k p Hp) as (Hid & Hpok & _).
  pose proof (success_needs_commit _ _ _ _ _ _ Hs Hp Hp' Hpok Hn Hsucc) as Hpc.
  destruct (ok_live _ Hinv k p Hp ltac:(by rewrite Hpc)) as (_ & st & Hst & Hb).
  destruct i; try (unfold run_step in Hs; rewrite Hp in Hs; simpl in Hs; unfold run_proc in Hs; by rewrite Hpc in Hs).
  destruct (CommitJob (job_UDID (pr_row p)) k (en_mgr e)) as [r m1] eqn:Hc.
  assert (∃ v, r = Some (Ok v)) as [v ->] by exact (commit_step_fails _ _ _ _ _ _ _ Hp Hpc Hs Hp' Hn Hsucc Hc).
  destruct (commit_step_ok _ _ _ _ _ _ Hp Hpc Hs Hc) as ((q & Hq & Hrow) & Hv & Hev).
  rewrite Hp' in Hq. injection Hq as <-. exists (wv_ID v), (mg_now m1). split; [done|]. split; [|by rewrite Hrow].
  pose proof (CommitJob_outcome (job_UDID (pr_row p)) k _ Hu Hok) as Ho. rewrite Hc in Ho. simpl in Ho.
  destruct Ho as (s & c & (b & kind & vr & req & w1 & w2 & w3 & w4 & Hslot & Hback & Hver & Hvok & _ & _ & _ & _ & Hnew)
    & [Hvid|[[] _]] & Hrow' & Hlat); [|done]. apply jobSlot_Ok in Hslot as (_ & _ & Hf). simpl in Hb. rewrite Hb in Hf.
  apply find_slot_Some in Hf as [Hsid Hin]. simpl in Hsid.
  exists s, b, kind, vr, c, w1, w2. rewrite Hid. unfold vers in *. rewrite Hv, Hvid.
  split; [congruence|]. do 6 (split; [done|]). split; done.
Qed.
End success.

(** ** Kills *)

Section kills.
Context {W : Type} `{!StorageWorld W, !MapRange}.

(** The states in which a version can still, or does, come of a job. *)
Definition saving_states : list string := [StateVerifying; StateCommitting; StateSucceeded].

Lemma not_saving_next st st' : st ∉ saving_states → st' ∈ next_states st → st' ∈ saving_states → st' = StateVerifying.
Proof.
  intros Hs Hn [->|[->|[->|[]%elem_of_nil]%elem_of_cons]%elem_of_cons]%elem_of_cons; [done|exfalso..]; apply Hs.
  - apply before_committing in Hn as ->. by left.
  - apply before_success in Hn as ->. by right; left.
Qed.

Definition doomed (p : jobProc) : Prop := killed p ∧ job_State (pr_row p) ∉ saving_states ∧ ¬ passed p.

Lemma doomed_moves p p' : proc_moves p p' → pc_ok p → doomed p → doomed p' ∧ killReason p' = killReason p.
Proof.
  intros [Hm Hk] Hok (Hkill & Hst & Hp). destruct (Hk Hkill) as [Hkr Hv]. destruct (Hv Hp) as [Hp' Hver].
  destruct (Hm Hok) as [_ (_ & Hnext & _)].
  split; [|done]. split; [unfold killed; by rewrite Hkr|]. split; [|done]. intros Hin.
  destruct Hnext as [He|Hn]; [by rewrite He in Hin|].
  pose proof (not_saving_next _ _ Hst Hn Hin) as He. apply Hst. rewrite (Hver He). by left.
Qed.

Lemma view_step_doomed v v' k p : view_ok v → view_step v v' → v_jobs v !! k = Some p → doomed p →
  ∃ p', v_jobs v' !! k = Some p' ∧ doomed p' ∧ killReason p' = killReason p.
Proof.
  intros Hok Hs Hk Hd. destruct (ok_job _ Hok _ _ Hk) as (_ & Hpc & Hin).
  destruct Hs as [k' q q' Hq Hm _|k' q Hq _|k' u st row Hn _ _ _ _ _|k' jb Hn|]; simpl; try by exists p.
  - destruct (decide (k = k')) as [->|?]; [|exists p; by rewrite lookup_insert_ne].
    rewrite Hk in Hq. injection Hq as <-. exists q'. rewrite lookup_insert_eq. split; [done|]. by apply doomed_moves.
  - destruct (decide (k = k')) as [->|?]; [|exists p; by rewrite lookup_insert_ne].
    rewrite Hk in Hq. injection Hq as <-. exists (set_pc PcDone p). rewrite lookup_insert_eq. destruct Hd as (? & ? & _). split_and!; [done|split_and!; [done|done|by intros []]|done].
  - exists p. rewrite lookup_insert_ne by (intros ->; done). done.
Qed.

(** C6: a kill outranks whatever the tool did.  From any reachable state, a job that was cancelled or
    timed out before its verification began never verifies, commits or succeeds, in any later state
    and whatever its tool, its sampler or its clients do, and the reason of its kill stays the first.
    The exception is a kill that comes after the look for one ([killOutcome]), which found none at
    the good end of the tool, and before the state that follows from it: such a job goes on. *)
Theorem killed_never_commits cfg backups (m : Manager W) devices e e' k p :
  rtc engine_step (new_engine cfg backups m devices) e → rtc engine_step e e' →
  en_jobs e !! k = Some p → killed p → job_State (pr_row p) ∉ saving_states → ¬ passed p →
  ∃ p', en_jobs e' !! k = Some p' ∧ killReason p' = killReason p ∧ job_State (pr_row p') ∉ saving_states.
Proof.
  intros Hr Hs Hp Hk Hst Hpa. enough (∃ p', en_jobs e' !! k = Some p' ∧ doomed p' ∧ killReason p' = killReason p)
    as (p' & Hp' & (_ & Hst' & _) & Hkr) by eauto.
  assert (doomed p) as Hd by done. clear Hk Hst Hpa. apply reachable_ok in Hr as Hok. clear Hr.
  revert p Hp Hd. induction Hs as [e|e e1 e' Hs _ IH]; intros p Hp Hd; [by exists p|].
  apply engine_step_view in Hs. destruct (view_step_doomed _ _ _ _ Hok Hs Hp Hd) as (p1 & Hp1 & Hd1 & Hk1).
  destruct (IH (view_step_ok _ _ Hok Hs) p1 Hp1 Hd1) as (p' & Hp' & Hd' & Hk'). exists p'. split_and!; [done|done|congruence].
Qed.

(** How a job's state and error code stand after its tool was waited for. *)
Definition reaped (e : Engine W) (p : jobProc) (waitErr : error) : string * string :=
  if bool_decide (killReason p = "cancel") then (StateCancelled, ErrCancelled)
  else if bool_decide (killReason p = "timeout") then (StateConnectionLost, ErrDeviceDisconnected)
  else if ctx_done e p then (StateConnectionLost, ErrInterrupted)
  else match waitErr with
       | Some _ => (StateFailed, ErrBackupFailed)
       | None => if ss_success (pr_ss p) then (StateVerifying, job_ErrorCode (pr_row p))
                 else (StateFailed, ErrBackupFailed)
       end.

(** how the wait for the tool ends a job, on every branch: a cancel wins over a timeout, a timeout
    over a shutdown, a shutdown over the tool's exit; an exit counts as success only with status 0 and
    after the tool said so.  Only then the job goes on, to its verification, still without a finish
    time; otherwise its row is finished at this instant, with no liveness and no phase left. *)
Theorem reap_settles k (e e1 e' : Engine W) p waitErr :
  en_jobs e !! k = Some p → pr_pc p = PcReap → run_step k (InWaited waitErr) e = Some e1 → run_step k InGo e1 = Some e' →
  ∃ p', en_jobs e' !! k = Some p' ∧
    (job_State (pr_row p'), job_ErrorCode (pr_row p')) = reaped e p waitErr ∧
    if bool_decide ((reaped e p waitErr).1 = StateVerifying)
    then pr_pc p' = PcVerify ∧ job_FinishedAt (pr_row p') = job_FinishedAt (pr_row p)
    else pr_pc p' = PcDiscard ∧ job_FinishedAt (pr_row p') = Some (engine_now e) ∧
         job_Liveness (pr_row p') = LivenessNone ∧ job_Phase (pr_row p') = ""%string.
Proof.
  intros Hp Hpc Hs Hs'. unfold run_step in Hs. rewrite Hp in Hs. simpl in Hs. unfold run_proc in Hs. rewrite Hpc in Hs.
  simpl in Hs. injection Hs as <-. pose proof (at_proc_start _ _ _ Hp) as Hat.
  unfold run_step in Hs'. simpl in Hs'. rewrite lookup_alter_eq, Hp in Hs'. simpl in Hs'. injection Hs' as <-.
  assert (at_proc (view_of e) k (set_pc (PcSettle (loopResult e p waitErr)) p)
    (goto k (PcSettle (loopResult e p waitErr)) e).2) as Hat1 by by apply at_proc_alter.
  unfold goto, update_proc, modify in Hat1. simpl in Hat1. revert Hat1.
  set (e1 := set_jobs (alter (set_pc (PcSettle (loopResult e p waitErr))) k) e). intros Hat1.
  change (engine_now e) with (engine_now e1).
  match goal with |- ∃ p', en_jobs (settle ?k ?r _).2 !! _ = _ ∧ _ =>
    enough (wp (settle k r) (λ _ e', ∃ p', at_proc (view_of e) k p' e' ∧
      (job_State (pr_row p'), job_ErrorCode (pr_row p')) = reaped e p waitErr ∧
      if bool_decide ((reaped e p waitErr).1 = StateVerifying)
      then pr_pc p' = PcVerify ∧ job_FinishedAt (pr_row p') = job_FinishedAt (pr_row p)
      else pr_pc p' = PcDiscard ∧ job_FinishedAt (pr_row p') = Some (engine_now e1) ∧
           job_Liveness (pr_row p') = LivenessNone ∧ job_Phase (pr_row p') = ""%string) e1) as (p' & Hat' & Hres) end.
  { exists p'. split; [by eapply at_proc_lookup|done]. }
  clear Hat. unfold loopResult, killOutcome, reaped. fold (killReason p).
  destruct (decide (killReason p = "cancel")%string); [|destruct (decide (killReason p = "timeout")%string)];
    repeat first [rewrite bool_decide_true by done|rewrite bool_decide_false by done];
    destruct (ctx_done e p), waitErr, (ss_success (pr_ss p)); unfold settle, terminate; simpl; repeat job_step;
    (eexists; split; [eassumption|]); (split; [reflexivity|]); by vm_compute.
Qed.
End kills.

(** * What the engine publishes of a running transfer *)

(** ** The reference: batches and their last figures *)

(** The figures of each batch, the current batch first, each batch newest first. *)
Definition batch_line (bs : list (list Z)) (p : parsed) : list (list Z) :=
  let bs := if p_phaseReceiving p then [] :: bs else bs in
  if p_hasBytes p then
    match bs with [] => [[p_bytesDone p]] | b :: bs => (p_bytesDone p :: b) :: bs end
  else bs.
Definition batches (ps : list parsed) : list (list Z) := foldl batch_line [] ps.

Definition figure (b : list Z) : Z := default 0 (head b).
Definition total (bs : list (list Z)) : Z := foldr (λ b s, figure b + s) 0 bs.


(** What the engine's counters hold, and its row, after the batches [bs]. *)
Definition counts (bs : list (list Z)) (rs : JobRow * superviseState) : Prop :=
  ss_bytesBanked rs.2 = wrap64 (total (tail bs)) ∧ ss_batchBytes rs.2 = figure (default [] (head bs)) ∧
  job_BytesDone rs.1 = wrap64 (total bs).

Lemma counts_line bs pl rs : counts bs rs → counts (batch_line bs pl) (progress_line pl rs).
Proof.
  destruct rs as [r s]. intros (Hb & Ha & Hd). unfold counts, progress_line, batch_line.
  assert (wrap64 (wrap64 (total (tail bs)) + figure (default [] (head bs))) = wrap64 (total bs)) as Ht.
  { rewrite wrap64_wrap_l. f_equal. destruct bs; simpl; [done|lia]. }
  destruct (p_phaseReceiving pl), (p_hasBytes pl), (p_overallPercent pl), (p_receivedFiles pl), (p_waitingPasscode pl);
    simpl in *; rewrite ?Hb, ?Ha, ?Ht; (split; [|split]); try done; destruct bs as [|b bs]; simpl in *;
    rewrite ?wrap64_wrap_l; try done; apply (f_equal wrap64); unfold figure; simpl; lia.
Qed.

(** Figures that never fall within a batch. *)
Definition rises (b : list Z) : Prop := StronglySorted Z.ge b ∧ Forall (Z.le 0) b.
#[global] Instance rises_dec b : Decision (rises b) := _.

Lemma rises_figure b : rises b → 0 ≤ figure b.
Proof. intros [_ Hb]. destruct Hb; unfold figure; simpl; lia. Qed.
Lemma rises_cons n b : rises (n :: b) → rises b ∧ figure b ≤ n.
Proof.
  intros [Hs Hn]. inversion Hs as [|? ? Hs' Hall]. inversion Hn. split; [by split|].
  destruct b as [|m b]; unfold figure; simpl; [done|]. inversion Hall. lia.
Qed.

Lemma total_nonneg bs : Forall rises bs → 0 ≤ total bs.
Proof. induction 1 as [|b bs Hb _ IH]; simpl; [done|]. pose proof (rises_figure _ Hb). lia. Qed.

Lemma total_line bs p : Forall rises (batch_line bs p) → Forall rises bs ∧ total bs ≤ total (batch_line bs p).
Proof.
  unfold batch_line. destruct (p_phaseReceiving p), (p_hasBytes p); intros Hr.
  - apply Forall_cons in Hr as [[_ Hn]%rises_cons Hr]. split; [done|]. simpl. unfold figure in *. simpl in *. lia.
  - apply Forall_cons in Hr as [_ Hr]. done.
  - destruct bs as [|b bs]; apply Forall_cons in Hr as [[Hb Hn]%rises_cons Hr]; simpl in *.
    + split; [done|]. unfold figure in *. simpl in *. lia.
    + split; [by constructor|]. unfold figure in *. simpl in *. lia.
  - done.
Qed.

Lemma total_lines bs ps : Forall rises (foldl batch_line bs ps) →
  Forall rises bs ∧ total bs ≤ total (foldl batch_line bs ps).
Proof.
  revert bs. induction ps as [|p ps IH]; intros bs Hr; simpl in *; [done|].
  apply IH in Hr as [Hr Ht]. apply total_line in Hr as [Hr Ht']. split; [done|lia].
Qed.

(** ** The engine against the reference *)

Section progress.
Context {W : Type} `{!StorageWorld W, !MapRange}.

Lemma progress_line_idle pl r s : moves_progress pl = false → progress_line pl (r, s) = (r, s).
Proof.
  unfold moves_progress, progress_line. destruct (p_waitingPasscode pl), (p_phaseReceiving pl), (p_hasBytes pl);
    rewrite ?orb_true_r; simpl; try done; destruct (p_overallPercent pl), (p_receivedFiles pl); try done;
    rewrite ?orb_true_r; try done; by rewrite bool_decide_true by eauto.
Qed.

(** A line moves the job's row and its counters by [progress_line] alone. *)
Lemma wp_handleLine k line v p Q (e : Engine W) :
  at_proc v k p e →
  (∀ e' p', at_proc v k p' e' →
     (pr_row p', pr_ss p') = progress_line (parseLine line) (pr_row p, ss_line (parseLine line) (pr_ss p)) →
     Q tt e') →
  wp (handleLine k line) Q e.
Proof.
  intros Hat HQ. unfold handleLine. job_step. apply wp_bind.
  assert (∀ (e1 : Engine W) p1, at_proc v k p1 e1 → pr_row p1 = pr_row p → pr_ss p1 = pr_ss p →
    wp (update_proc k (λ p, set_ss (ss_line (parseLine line) (pr_ss p)) p);;
        if moves_progress (parseLine line) then progress k (progress_line (parseLine line)) else mret tt) Q e1)
    as Hrest.
  { intros e1 p1 Hp1 Hr1 Hs1. do 2 job_step. destruct (moves_progress (parseLine line)) eqn:Hm; job_step.
    - eapply HQ; [exact Hp1|]. rewrite <-Hr1, <-Hs1. unfold pr_row, with_row_ss. simpl.
      symmetry. apply surjective_pairing.
    - eapply HQ; [exact Hp1|]. rewrite progress_line_idle by done. by rewrite <-Hr1, <-Hs1. }
  destruct (negb (is_redraw (parseLine line)) && negb (bool_decide (trim_space line = ""))).
  - destruct (logLine _ _) as [run out]. do 3 job_step. by eapply Hrest.
  - job_step. by eapply Hrest.
Qed.

Lemma handle_lines_spec k lines bs v p (e : Engine W) :
  at_proc v k p e → counts bs (pr_row p, pr_ss p) →
  wp (for_each (handleLine k) lines) (λ _ e', ∃ p', at_proc v k p' e' ∧
    counts (foldl batch_line bs (parseLine <$> lines)) (pr_row p', pr_ss p')) e.
Proof.
  revert bs p e. induction lines as [|l lines IH]; intros bs p e Hat Hc; cbn [for_each]; [apply wp_ret; eauto|].
  apply wp_bind. eapply wp_handleLine; [done|]. intros e' p' Hat' Hp'. rewrite fmap_cons. cbn [foldl].
  eapply IH; [done|]. rewrite Hp'. by apply counts_line.
Qed.

(** The job has published no bytes and counted none. *)
Definition untouched (p : jobProc) : Prop :=
  job_BytesDone (pr_row p) = 0 ∧ ss_bytesBanked (pr_ss p) = 0 ∧ ss_batchBytes (pr_ss p) = 0.

Lemma bytes_after k lines (e : Engine W) p : en_jobs e !! k = Some p → untouched p →
  ∃ p', en_jobs (for_each (handleLine k) lines e).2 !! k = Some p' ∧
    job_BytesDone (pr_row p') = wrap64 (total (batches (parseLine <$> lines))).
Proof.
  intros Hp (H1 & H2 & H3).
  destruct (handle_lines_spec k lines [] (view_of e) p e) as (p' & Hat & _ & _ & Hb).
  - by apply at_proc_start.
  - unfold counts. simpl. by rewrite H1, H2, H3.
  - exists p'. split; [by eapply at_proc_lookup|done].
Qed.

(** Whatever lines a tool prints, in whichever throttle windows they fall, the job's row carries the sum of the last
    figures of all batches so far, in 64-bit arithmetic: the engine's running sum agrees with the
    batches read off the whole output. *)
Theorem bytes_are_batch_totals k lines (e : Engine W) p : en_jobs e !! k = Some p → untouched p →
  ∃ p', en_jobs (for_each (handleLine k) lines e).2 !! k = Some p' ∧
    job_BytesDone (pr_row p') = wrap64 (total (batches (parseLine <$> lines))).
Proof. apply bytes_after. Qed.

(** the byte count of a job never falls: if within each batch the tool's figures do not fall and
    all batches together fit 64 bits, then any later point of the output shows at least the bytes of
    any earlier one, across the resets of the tool's own counter. *)
Theorem bytes_never_fall k l1 l2 (e : Engine W) p p1 p2 : en_jobs e !! k = Some p → untouched p →
  Forall rises (batches (parseLine <$> l1 ++ l2)) → total (batches (parseLine <$> l1 ++ l2)) ≤ int64_max →
  en_jobs (for_each (handleLine k) l1 e).2 !! k = Some p1 →
  en_jobs (for_each (handleLine k) (l1 ++ l2) e).2 !! k = Some p2 →
  0 ≤ job_BytesDone (pr_row p1) ≤ job_BytesDone (pr_row p2).
Proof.
  intros Hp Hu Hr Ht H1 H2. destruct (bytes_after k l1 e p Hp Hu) as (q1 & Hq1 & Hb1).
  destruct (bytes_after k (l1 ++ l2) e p Hp Hu) as (q2 & Hq2 & Hb2).
  rewrite H1 in Hq1. rewrite H2 in Hq2. injection Hq1 as <-. injection Hq2 as <-. rewrite Hb1, Hb2.
  revert Hr Ht. unfold batches. rewrite fmap_app, foldl_app. intros [Hr1 Hle]%total_lines Ht.
  pose proof (total_nonneg _ Hr1). rewrite !wrap64_id; unfold int64_min, int64_max in *; lia.
Qed.
End progress.
