(* ===== verification/EngineStart.v ===== *)
(** * EngineStart: where a backup starts, and how a restart settles the jobs

    [StartBackup] against a reference that decides everything before anything is written, and the
    startup [Reconcile] against what it owes each row. *)

From Stdlib Require Import String Ascii.
From S2P Require Import Prelude Calendar Domain Sampler Parser JobLog Store Backend Slots FS Sidecars.
From S2P Require Import Slots Verify Retention Manager Reconcile ReconcileSafety ManagerSafety.
From S2P Require Import Engine EngineSafety.

(** ** Starting *)

Section start.
Context {W : Type} `{!StorageWorld W, !MapRange, !SortSlice}.

Definition rows (e : Engine W) : gmap string JobRow := db_jobs (mg_db (en_mgr e)).

(** The storage that a request is for: its own choice, else the retried job's, else the default. *)
Definition wanted_storage (storageID retryOf : string) (e : Engine W) : string :=
  if bool_decide (storageID = "" ∧ retryOf ≠ "") then default "" (rows e !! retryOf ≫= job_StorageID)
  else storageID.

(** The row of the job that a request starts, if it starts one, for the storage [wanted]. *)
Definition start_row_for (wanted udid transport retryOf : string) (e : Engine W) : option JobRow :=
  if negb (validUDID udid) then None else
  let '(tr, status, _) := resolveTransport udid transport e in
  if negb (status =? 0) then None else
  let '(st, status, _) := ResolveChoice (mg_slots (en_mgr e)) wanted in
  if negb (status =? 0) then None else
  if bool_decide (is_Some (en_running e !! udid)) then None else
  let row := queued_row (next_id e) udid tr st (engine_now e) in
  if bool_decide (retryOf = "") then Some row
  else prev ← rows e !! retryOf; Some (with_retry (Some retryOf) (job_IntentID prev) (job_Attempt prev + 1) row).
Definition start_row (udid transport storageID retryOf : string) (e : Engine W) : option JobRow :=
  start_row_for (wanted_storage storageID retryOf e) udid transport retryOf e.

(** The engine after ids were given out and statements were tried: [ids] and [fs] are what is left,
    [bound] the bindings of jobs to storages, [jobs] the rows of the jobs. *)
Definition mgr_with (ids : list string) (fs : list bool) bound jobs (m : Manager W) : Manager W :=
  mkManager (mg_slots m) bound (mg_held m) (mkDB jobs (db_versions (mg_db m)) (db_audit (mg_db m)) fs) (mg_world m)
    (mg_events m) ids (mg_now m) (mg_ctx m).

(** The engine after it accepted [row]: one more job, running, stored, bound and announced. *)
Definition accepted (row : JobRow) ids fs (e : Engine W) : Engine W :=
  mkEngine (en_cfg e) (en_backups e) (en_live e)
    (mgr_with ids fs (<[job_ID row := mkBinding (default ""%string (job_StorageID row)) (job_UDID row)]> (mg_jobStorage (en_mgr e)))
       (<[job_ID row := store_job row]> (rows e)) (en_mgr e))
    (en_devices e) (<[job_UDID row := job_ID row]> (en_running e)) (<[job_ID row := new_proc row]> (en_jobs e))
    (en_logs e) (en_events e ++ [EventJobUpdated (jobToWire row)]) (en_shutdown e).
Definition with_started (row : JobRow) (e e' : Engine W) : Prop :=
  (∃ ids fs, e' = accepted row ids fs e) ∧
  ∃ s, jobSlot (mg_slots (en_mgr e')) (mg_jobStorage (en_mgr e')) (job_ID row) = Ok s ∧
    s_StorageID s = default ""%string (job_StorageID row).

(** Nothing has changed but the ids that were given out and the statements that were tried. *)
Definition tried ids fs (e : Engine W) : Engine W :=
  set_mgr (mgr_with ids fs (mg_jobStorage (en_mgr e)) (rows e) (en_mgr e)) e.
Definition nothing_started (e e' : Engine W) : Prop := ∃ ids fs, e' = tried ids fs e.
(** Nothing but that, and a binding for a job that does not exist. *)
Definition left_bound (e e' : Engine W) : Prop := ∃ ids fs id_ b,
  rows e !! id_ = None ∧
  e' = set_mgr (mgr_with ids fs (<[id_ := b]> (mg_jobStorage (en_mgr e))) (rows e) (en_mgr e)) e.

Lemma tried_same (e : Engine W) : tried (mg_ids (en_mgr e)) (db_faults (mg_db (en_mgr e))) e = e.
Proof. by destruct e as [? ? ? [? ? ? []]]. Qed.

(** A statement answers, or fails because the registry does. *)
Lemma wp_get_job_tried id_ ids fs (e : Engine W) Q : (healthy (en_mgr e) → fs = []) →
  (∀ fs', (healthy (en_mgr e) → fs' = []) → Q (Ok (rows e !! id_)) (tried ids fs' e)) →
  (∀ fs' msg, ¬ healthy (en_mgr e) → Q (Err msg) (tried ids fs' e)) →
  wp (job_store (GetJob id_)) Q (tried ids fs e).
Proof.
  intros Hfs HQ HE. unfold wp, job_store, storage, reg, lift_state, GetJob, statement. simpl.
  destruct fs as [|[] fs]; simpl; [by apply HQ| |];
    (assert (¬ healthy (en_mgr e)) as Hn by by intros Hh%Hfs); [by apply HE|by apply HQ].
Qed.

Lemma wp_inherited_tried storageID retryOf ids fs (e : Engine W) Q : (healthy (en_mgr e) → fs = []) →
  (∀ w fs', (healthy (en_mgr e) → fs' = []) →
     w = wanted_storage storageID retryOf e ∨ ¬ healthy (en_mgr e) ∧ w = storageID → Q w (tried ids fs' e)) →
  wp (inherited_storage storageID retryOf) Q (tried ids fs e).
Proof.
  intros Hfs HQ. unfold inherited_storage. case_bool_decide as Hc.
  - apply wp_bind, wp_get_job_tried; [done|..].
    + intros fs' Hfs'. apply wp_ret, HQ; [done|]. left. unfold wanted_storage. rewrite bool_decide_true by done.
      destruct Hc as [-> _]. by destruct (rows e !! retryOf).
    + intros fs' msg Hn. apply wp_ret, HQ; [done|by right].
  - apply wp_ret, HQ; [done|]. left. unfold wanted_storage. by rewrite bool_decide_false.
Qed.

Lemma wp_retry row retryOf ids fs (e : Engine W) Q : (healthy (en_mgr e) → fs = []) →
  (∀ fs', (healthy (en_mgr e) → fs' = []) → retryOf = ""%string → Q (inl row) (tried ids fs' e)) →
  (∀ fs' prev, (healthy (en_mgr e) → fs' = []) → retryOf ≠ ""%string → rows e !! retryOf = Some prev →
     Q (inl (with_retry (Some retryOf) (job_IntentID prev) (job_Attempt prev + 1) row)) (tried ids fs' e)) →
  (∀ fs' status reason, status ≠ StatusAccepted →
     (retryOf ≠ ""%string ∧ rows e !! retryOf = None) ∨ ¬ healthy (en_mgr e) → Q (inr (status, reason)) (tried ids fs' e)) →
  wp (retry_row row retryOf) Q (tried ids fs e).
Proof.
  intros Hfs HQ0 HQ1 HE. unfold retry_row. case_bool_decide as Hc; [apply wp_ret; by apply HQ0|].
  apply wp_bind, wp_get_job_tried; [done|..].
  - intros fs' Hfs'. apply wp_ret. destruct (rows e !! retryOf) as [prev|] eqn:Hp; [by apply HQ1|].
    apply HE; [done|by left].
  - intros fs' msg Hn. apply wp_ret, HE; [done|by right].
Qed.

Lemma resolveTransport_status udid transport (e : Engine W) :
  let '(_, status, _) := resolveTransport udid transport e in status ≠ StatusAccepted.
Proof. unfold resolveTransport. by repeat case_match; simplify_eq. Qed.
Lemma ResolveChoice_status (slots : list (Slot W)) storageID :
  let '(st, status, _) := ResolveChoice slots storageID in status ≠ StatusAccepted ∧
    (status = 0 → ∃ s, find_slot st slots = Some s ∧ Usable s = true ∧ (storageID ≠ ""%string → st = storageID)).
Proof.
  unfold ResolveChoice. case_bool_decide.
  - destruct slots as [|s l]; [done|]. destruct (Usable s) eqn:Hu; [|done]. split; [done|]. intros _.
    exists s. simpl. by rewrite bool_decide_true.
  - destruct (find_slot storageID slots) as [s|] eqn:Hf; [|done]. destruct (Usable s) eqn:Hu; [|done].
    split; [done|]. intros _. exists s. apply find_slot_Some in Hf as Hid. destruct Hid as [<- _]. done.
Qed.

Definition start_post (udid transport storageID retryOf : string) (e : Engine W)
    (r : Job * Z * string) (e' : Engine W) : Prop :=
  let '(job, status, _) := r in
  if bool_decide (status = StatusAccepted) then
    ∃ w row, start_row_for w udid transport retryOf e = Some row ∧ job = jobToWire row ∧ with_started row e e' ∧
      (w ≠ ""%string → job_StorageID row = Some w) ∧
      (w = wanted_storage storageID retryOf e ∨ ¬ healthy (en_mgr e) ∧ w = storageID)
  else
    job = zero_Job ∧
    (start_row udid transport storageID retryOf e = None ∨ ¬ healthy (en_mgr e)) ∧
    (nothing_started e e' ∨ ¬ healthy (en_mgr e) ∧ left_bound e e').

(** A refusal before anything is written. *)
Lemma post_refused udid transport storageID retryOf (e : Engine W) status reason ids fs :
  status ≠ StatusAccepted →
  start_row udid transport storageID retryOf e = None ∨ ¬ healthy (en_mgr e) →
  start_post udid transport storageID retryOf e (zero_Job, status, reason) (tried ids fs e).
Proof.
  intros Hs Hr. unfold start_post. rewrite bool_decide_false by done. split; [done|]. split; [done|].
  left. by exists ids, fs.
Qed.

(** What the request's row is bound, inserted, announced with, once nothing refuses it. *)
Definition accept (row : JobRow) (st : string) : stateM (Engine W) (Job * Z * string) :=
  b ← storage (bind_job (job_ID row) (job_UDID row) st);
  match b with
  | Some reason => refuse StatusConflict reason
  | None =>
      ins ← job_store (InsertJob row);
      match ins with
      | Some reason => refuse StatusInternalServerError reason
      | None =>
          modify (set_running <[job_UDID row := job_ID row]>);;
          modify (set_jobs <[job_ID row := new_proc row]>);;
          emit row;;
          mret (jobToWire row, StatusAccepted, ""%string)
      end
  end.

Lemma wp_accept row st s ids fs (e : Engine W) Q :
  (healthy (en_mgr e) → fs = []) → rows e !! job_ID row = None →
  find_slot st (mg_slots (en_mgr e)) = Some s → Usable s = true → job_StorageID row = Some st →
  (∀ e', with_started row e e' → Q (jobToWire row, StatusAccepted, ""%string) e') →
  (∀ e' reason, ¬ healthy (en_mgr e) → left_bound e e' → Q (zero_Job, StatusInternalServerError, reason) e') →
  wp (accept row st) Q (tried ids fs e).
Proof.
  intros Hfs Hn Hs Hu Hst HQ HE. unfold accept. apply wp_bind, wp_lift. unfold wp at 1, bind_job, BindJobStorage.
  simpl. rewrite Hs, Hu. cbn [fst snd negb]. apply wp_bind.
  assert (∀ fs', with_started row e (accepted row ids fs' e)) as Hw.
  { intros fs'. split; [by exists ids, fs'|]. exists s. rewrite Hst. split; [|by apply find_slot_Some in Hs as [? _]].
    unfold jobSlot. simpl. rewrite lookup_insert_eq. simpl. rewrite Hst. simpl.
    destruct (mg_slots (en_mgr e)) as [|s0 l]; [done|]. by rewrite Hs, Hu. }
  assert (∀ fs', left_bound e (set_mgr (mgr_with ids fs' (<[job_ID row := mkBinding st (job_UDID row)]>
    (mg_jobStorage (en_mgr e))) (rows e) (en_mgr e)) e)) as Hl.
  { intros fs'. by exists ids, fs', (job_ID row), (mkBinding st (job_UDID row)). }
  unfold wp at 1, job_store, storage, reg, lift_state, InsertJob, exec, statement. simpl.
  unfold accepted in Hw. rewrite Hst in Hw.
  destruct fs as [|[] fs]; simpl; rewrite ?Hn; simpl.
  - do 3 (apply wp_bind, wp_modify). apply wp_ret. exact (HQ _ (Hw [])).
  - apply wp_ret. refine (HE _ _ _ (Hl fs)). by intros ?%Hfs.
  - do 3 (apply wp_bind, wp_modify). apply wp_ret. exact (HQ _ (Hw fs)).
Qed.

Lemma refused_for w udid transport storageID retryOf (e : Engine W) :
  w = wanted_storage storageID retryOf e ∨ ¬ healthy (en_mgr e) ∧ w = storageID →
  start_row_for w udid transport retryOf e = None →
  start_row udid transport storageID retryOf e = None ∨ ¬ healthy (en_mgr e).
Proof. intros [->|[? _]] ?; [by left|by right]. Qed.

Lemma start_backup_tried udid transport storageID retryOf ids fs (e : Engine W) :
  ids = mg_ids (en_mgr e) → (healthy (en_mgr e) → fs = []) → fresh_id e →
  wp (StartBackup udid transport storageID retryOf) (start_post udid transport storageID retryOf e) (tried ids fs e).
Proof.
  intros Hids Hfs Hf. unfold StartBackup, refuse.
  destruct (validUDID udid) eqn:Hvalid; simpl;
    [|by apply wp_ret, post_refused; [|left; unfold start_row, start_row_for; rewrite Hvalid]].
  apply wp_bind, wp_gets. unfold id. pose proof (resolveTransport_status udid transport e) as Htr.
  change (resolveTransport udid transport (tried ids fs e)) with (resolveTransport udid transport e).
  destruct (resolveTransport udid transport e) as [[tr st0] re] eqn:Htre.
  destruct (Z.eqb_spec st0 0) as [->|Hst0]; simpl;
    [|by apply wp_ret, post_refused; [|left; unfold start_row, start_row_for; rewrite Hvalid, Htre; simpl; rewrite (proj2 (Z.eqb_neq _ _) Hst0)]].
  apply wp_bind, wp_inherited_tried; [done|]. intros w fs1 Hfs1 Hw. apply wp_bind, wp_gets.
  change (mg_slots (en_mgr (tried ids fs1 e))) with (mg_slots (en_mgr e)).
  pose proof (refused_for w udid transport storageID retryOf e Hw) as Hno.
  pose proof (ResolveChoice_status (mg_slots (en_mgr e)) w) as Hrc.
  destruct (ResolveChoice (mg_slots (en_mgr e)) w) as [[st st1] re1] eqn:Hrce. destruct Hrc as [Hrc Hslot].
  assert (∀ row, start_row_for w udid transport retryOf e = Some row → job_ID row = next_id e → job_UDID row = udid →
    job_StorageID row = Some st → (w ≠ ""%string → st = w) → ∀ fs', (healthy (en_mgr e) → fs' = []) → ∀ s,
    find_slot st (mg_slots (en_mgr e)) = Some s → Usable s = true →
    wp (accept row st) (start_post udid transport storageID retryOf e) (tried (tail ids) fs' e)) as Hacc.
  { intros row Hrow Hid Hu Hst Hwst fs' Hfs' s Hs Hus.
    apply (wp_accept _ _ s); [done|by rewrite Hid; apply not_elem_of_dom|done..| |].
    - intros e' He'. unfold start_post. rewrite bool_decide_true by done. exists w, row. do 3 (split; [done|]).
      split; [|done]. intros Hne. by rewrite Hst, Hwst.
    - intros e' reason Hn He'. unfold start_post. rewrite bool_decide_false by done. split; [done|].
      split; [by right|right; done]. }
  unfold start_row_for in Hno, Hacc. rewrite Hvalid, Htre, Hrce in Hno, Hacc. simpl in Hno, Hacc.
  destruct (Z.eqb_spec st1 0) as [Hst1|Hst1]; simpl in Hno, Hacc |- *;
    [subst st1; simpl|apply wp_ret, post_refused; [done|by apply Hno]].
  destruct (en_running e !! udid) as [j|] eqn:Hrun; simpl in Hno, Hacc |- *;
    [by apply wp_ret, post_refused; [|apply Hno]|].
  destruct (Hslot eq_refl) as (s & Hs & Hus & Hst).
  apply wp_bind, wp_lift. unfold wp at 1. cbn [newID fst snd].
  change (set_mgr _ (tried ids fs1 e)) with (tried (tail ids) fs1 e).
  change (default ""%string (head (mg_ids (en_mgr (tried ids fs1 e))))) with (default ""%string (head ids)).
  rewrite Hids. fold (next_id e). rewrite Hids in Hacc.
  apply wp_bind, wp_retry; [done|..].
  - intros fs' Hfs' ->. by apply (Hacc _ eq_refl eq_refl eq_refl eq_refl Hst fs' Hfs' s).
  - intros fs' prev Hfs' Hre Hp. rewrite bool_decide_false, Hp in Hacc by done. simpl in Hacc.
    by apply (Hacc _ eq_refl eq_refl eq_refl eq_refl Hst fs' Hfs' s).
  - intros fs' status reason Hs' Hp. apply wp_ret, post_refused; [done|]. destruct Hp as [[Hre Hp]|]; [|by right].
    apply Hno. by rewrite bool_decide_false, Hp.
Qed.

(** C15: [StartBackup] implements its reference.  While the registry answers, it accepts exactly the
    requests for which [start_row] gives a row (a known device that is not running a job, a transport
    that resolves, a storage that is declared and usable, and for a retry a job that exists); and if
    statements fail it still accepts no other: at most it takes a retry without a storage of its own
    for one that aims at the default.  After an accepted request exactly its row is running, stored,
    announced and bound to the storage it records, to which it resolves, and nothing else differs but
    the ids that were used and the statements that were tried; a retry aims at the storage it asked
    for or inherited.  After a refused one nothing differs, but for the binding that a failing insert
    leaves behind. *)
Theorem start_backup_exact udid transport storageID retryOf (e : Engine W) : fresh_id e →
  let '(job, status, _, e') := StartBackup udid transport storageID retryOf e in
  if bool_decide (status = StatusAccepted) then
    ∃ w row, start_row_for w udid transport retryOf e = Some row ∧ job = jobToWire row ∧ with_started row e e' ∧
      (w ≠ ""%string → job_StorageID row = Some w) ∧
      (w = wanted_storage storageID retryOf e ∨ ¬ healthy (en_mgr e) ∧ w = storageID)
  else
    job = zero_Job ∧
    (start_row udid transport storageID retryOf e = None ∨ ¬ healthy (en_mgr e)) ∧
    (nothing_started e e' ∨ ¬ healthy (en_mgr e) ∧ left_bound e e').
Proof.
  intros Hf. pose proof (start_backup_tried udid transport storageID retryOf _ _ e eq_refl (λ H, H) Hf) as Hwp.
  rewrite tried_same in Hwp. unfold wp in Hwp.
  destruct (StartBackup udid transport storageID retryOf e) as [[[job status] reason] e']. exact Hwp.
Qed.
End start.

(** ** After a restart *)

Section restart.
Context {W : Type} `{!StorageWorld W, !MapRange, !SortSlice}.

(** The version that a job committed, as the registry lists the device's versions: newest first. *)
Definition job_version (r : JobRow) (e : Engine W) : option string :=
  ver_ID <$> head (filter (λ v, ver_JobID v = Some (job_ID r)) (device_rows (job_UDID r) (mg_db (en_mgr e)))).

(** What a restart owes a job that it finds unfinished, and what it leaves in its row. *)
Definition settled (e : Engine W) (r : JobRow) : JobRow :=
  match job_version r e with
  | Some v => rolled_forward_row v (engine_now e) r
  | None => orphaned_row (engine_now e) r
  end.
Definition settled_row (e : Engine W) (r : JobRow) : JobRow :=
  if JobIsTerminal (job_State r) then r else update_job_columns r (settled e r).

(** The engine with the rows [jobs], the disk [w] and [evs] emitted, and nothing else changed. *)
Definition restarted (jobs : gmap string JobRow) (w : W) (evs : list engine_event) (e : Engine W) : Engine W :=
  mkEngine (en_cfg e) (en_backups e) (en_live e)
    (let m := en_mgr e in mkManager (mg_slots m) (mg_jobStorage m) (mg_held m)
       (mkDB jobs (db_versions (mg_db m)) (db_audit (mg_db m)) (db_faults (mg_db m))) w
       (mg_events m) (mg_ids m) (mg_now m) (mg_ctx m))
    (en_devices e) (en_running e) (en_jobs e) (en_logs e) (en_events e ++ evs) (en_shutdown e).

Lemma restarted_same (e : Engine W) : restarted (rows e) (mg_world (en_mgr e)) [] e = e.
Proof. destruct e as [? ? ? [? ? ? []]]. unfold restarted, rows. simpl. by rewrite app_nil_r. Qed.

Lemma set_mgr_same (e : Engine W) : set_mgr (set_db (mg_db (en_mgr e)) (en_mgr e)) e = e.
Proof. by destruct e as [? ? ? []]. Qed.

(** A computation whose outcome is known. *)
Lemma wp_pure_step {S A} (m : stateM S A) a s' Q s : m s = (a, s') → Q a s' → wp m Q s.
Proof. unfold wp. by intros ->. Qed.

Lemma update_job_healthy row (e : Engine W) : healthy (en_mgr e) →
  job_store (UpdateJob row) e =
    (None, restarted (alter (λ old, update_job_columns old row) (job_ID row) (rows e)) (mg_world (en_mgr e)) [] e).
Proof.
  intros Hh. destruct e as [? ? ? [? ? ? []]]. cbv in Hh. subst.
  unfold restarted. simpl. by rewrite app_nil_r.
Qed.

Lemma version_for_job_healthy r (e : Engine W) : healthy (en_mgr e) →
  storage (VersionForJob (job_UDID r) (job_ID r)) e = (job_version r e, e).
Proof.
  intros Hh. unfold storage, VersionForJob, lift_state, mbind, stateM_bind, reg, lift_state, ListVersions, statement.
  unfold healthy in Hh. rewrite Hh. unfold mret, stateM_ret. by rewrite set_mgr_same.
Qed.

(** What discarding the work of the job of [r] makes of the disk. *)
Definition discarded (e : Engine W) (r : JobRow) (w : W) : W :=
  mg_world (Discard (job_UDID r) (job_ID r) (set_world w (en_mgr e))).2.

(** [Discard] only touches the disk, and of the manager only reads the storages and the bindings. *)
Lemma Discard_disk udid jobID (m : Manager W) :
  (Discard udid jobID m).2 = set_world (mg_world (Discard udid jobID m).2) m.
Proof.
  assert (m = set_world (mg_world m) m) as Hm by by destruct m.
  unfold Discard, with_job_slot, slot_of_job, mbind, stateM_bind, gets, disk, lift_state, mret, stateM_ret.
  destruct (jobSlot _ _ _) as [s|msg]; [|done].
  destruct (s_Backend s) as [b|]; [|done].
  by destruct (b_Discard b udid jobID (mg_world m)).
Qed.
Lemma Discard_reads udid jobID (m m' : Manager W) :
  mg_slots m' = mg_slots m → mg_jobStorage m' = mg_jobStorage m → mg_world m' = mg_world m →
  mg_world (Discard udid jobID m').2 = mg_world (Discard udid jobID m).2.
Proof.
  intros Hs Hb Hw.
  unfold Discard, with_job_slot, slot_of_job, mbind, stateM_bind, gets, disk, lift_state, mret, stateM_ret.
  rewrite Hs, Hb. destruct (jobSlot _ _ _) as [s|msg]; [|done].
  destruct (s_Backend s) as [b|]; [|done]. rewrite Hw. by destruct (b_Discard b udid jobID (mg_world m)).
Qed.

(** What a restart makes of the disk: the work of the jobs that it gives up is discarded. *)
Definition settle_world (e : Engine W) (rs : list JobRow) (w : W) : W :=
  foldl (λ w r, match job_version r e with Some _ => w | None => discarded e r w end) w rs.

(** What settling the rows [rs] does, from [e] to [e']. *)
Definition settles (rs : list JobRow) (e e' : Engine W) : Prop := ∃ jobs,
  (∀ k, jobs !! k = (if bool_decide (k ∈ job_ID <$> rs) then settled_row e else id) <$> rows e !! k) ∧
  e' = restarted jobs (settle_world e rs (mg_world (en_mgr e)))
         ((λ r, EventJobUpdated (jobToWire (settled e r))) <$> rs) e.

Lemma settles_cons r rs (e e' : Engine W) :
  job_ID r ∉ job_ID <$> rs → rows e !! job_ID r = Some r → JobIsTerminal (job_State r) = false →
  settles rs (restarted (alter (λ old, update_job_columns old (settled e r)) (job_ID r) (rows e))
                (settle_world e [r] (mg_world (en_mgr e))) [EventJobUpdated (jobToWire (settled e r))] e) e' →
  settles (r :: rs) e e'.
Proof.
  intros Hni Hr Ht (jobs & Hjobs & ->). set (e1 := restarted _ _ _ e) in *. exists jobs. split.
  - intros k. rewrite Hjobs. change (rows e1) with (alter (λ old, update_job_columns old (settled e r)) (job_ID r) (rows e)).
    rewrite fmap_cons. destruct (decide (k = job_ID r)) as [->|Hk].
    + rewrite (bool_decide_false (_ ∈ _)), bool_decide_true by (done || by left). rewrite lookup_alter_eq, Hr. simpl.
      unfold settled_row. by rewrite Ht.
    + rewrite lookup_alter_ne by done. by rewrite (bool_decide_ext (k ∈ job_ID r :: _) (k ∈ job_ID <$> rs))
        by (rewrite elem_of_cons; naive_solver).
  - unfold restarted at 1. simpl. rewrite <-app_assoc. simpl. unfold restarted. f_equal. f_equal.
    unfold settle_world. simpl. generalize (match job_version r e with Some _ => mg_world (en_mgr e)
      | None => discarded e r (mg_world (en_mgr e)) end) as w. intros w. clear. revert w.
    induction rs as [|x rs IH]; intros w; [done|]. simpl. change (job_version x e1) with (job_version x e).
    replace (discarded e1 x w) with (discarded e x w); [apply IH|]. by apply Discard_reads.
Qed.

Lemma reconcile_rows_spec rs (e : Engine W) : healthy (en_mgr e) →
  NoDup (job_ID <$> rs) → (∀ r, r ∈ rs → rows e !! job_ID r = Some r ∧ JobIsTerminal (job_State r) = false) →
  wp (reconcile_rows (engine_now e) rs) (λ _, settles rs e) e.
Proof.
  intros Hh Hnd Hin. remember (engine_now e) as fin eqn:Hfin. revert e Hh Hin Hfin.
  induction rs as [|r rs IH]; intros e Hh Hin Hfin; cbn [reconcile_rows].
  { apply wp_ret. exists (rows e). split; [intros k; by destruct (rows e !! k)|]. symmetry. apply restarted_same. }
  apply NoDup_cons in Hnd as [Hni Hnd]. destruct (Hin r) as [Hr Ht]; [by left|].
  assert (∀ e1 : Engine W, e1 = restarted (alter (λ old, update_job_columns old (settled e r)) (job_ID r) (rows e))
      (settle_world e [r] (mg_world (en_mgr e))) [EventJobUpdated (jobToWire (settled e r))] e →
    wp (reconcile_rows fin rs) (λ _, settles (r :: rs) e) e1) as Hrest.
  { intros e1 He1. eapply wp_mono; [apply IH; [done|by rewrite He1|..|by rewrite He1]|].
    - intros x Hx. destruct (Hin x) as [Hrx ?]; [by right|]. split; [|done]. rewrite He1.
      change (alter (λ old, update_job_columns old (settled e r)) (job_ID r) (rows e) !! job_ID x = Some x).
      rewrite lookup_alter_ne; [done|]. intros He. apply Hni. rewrite He. by apply list_elem_of_fmap_2.
    - intros a e'. rewrite He1. by apply settles_cons. }
  apply wp_bind. eapply wp_pure_step; [by apply version_for_job_healthy|].
  unfold settle_world in Hrest. simpl in Hrest.
  destruct (job_version r e) as [v|] eqn:Hv; cbv zeta; apply wp_bind;
    (eapply wp_pure_step; [by apply update_job_healthy|]); apply wp_bind.
  - apply wp_modify, Hrest. unfold settled. rewrite Hv, <-Hfin. unfold restarted, add_event. simpl. by rewrite app_nil_r.
  - apply wp_bind, wp_lift. set (e1 := restarted _ _ _ e). unfold wp at 1.
    assert ((Discard (job_UDID r) (job_ID r) (en_mgr e1)).2 = set_world (discarded e r (mg_world (en_mgr e))) (en_mgr e1)) as Hd.
    { rewrite Discard_disk. f_equal. by apply Discard_reads. }
    destruct (Discard (job_UDID r) (job_ID r) (en_mgr e1)) as [d m']. simpl in Hd. subst m'.
    apply wp_modify, Hrest. unfold settled. rewrite Hv, <-Hfin. unfold restarted, add_event. simpl.
    by rewrite app_nil_r.
Qed.

(** The rows that [ListNonTerminalJobs] lists, oldest first. *)
Definition unfinished (e : Engine W) : list JobRow :=
  filter (λ j, JobIsTerminal (job_State j) = false) (rev (jobs_desc (mg_db (en_mgr e)))).

Lemma unfinished_perm (e : Engine W) :
  Permutation (unfinished e) (filter (λ j, JobIsTerminal (job_State j) = false) (jobs_desc (mg_db (en_mgr e)))).
Proof. unfold unfinished. by rewrite <-Permutation_rev. Qed.

Lemma elem_of_unfinished (e : Engine W) r : db_ok (mg_db (en_mgr e)) →
  r ∈ unfinished e ↔ rows e !! job_ID r = Some r ∧ JobIsTerminal (job_State r) = false.
Proof.
  intros Hok. rewrite unfinished_perm, list_elem_of_filter, elem_of_jobs_desc. split.
  - intros (Ht & k & Hk). pose proof (jobs_keyed _ Hok _ _ Hk) as <-. done.
  - intros [Hr Ht]. split; [done|]. by exists (job_ID r).
Qed.
Lemma unfinished_nodup (e : Engine W) : db_ok (mg_db (en_mgr e)) → NoDup (job_ID <$> unfinished e).
Proof.
  intros Hok. rewrite unfinished_perm. eapply sublist_NoDup; [by apply jobs_desc_nodup|].
  apply fmap_sublist, sublist_filter.
Qed.

Lemma settled_terminal (e : Engine W) r : JobIsTerminal (job_State (settled_row e r)) = true.
Proof.
  unfold settled_row. destruct (JobIsTerminal (job_State r)) eqn:Ht; [done|].
  unfold settled. by destruct (job_version r e).
Qed.

(** C16: a restart settles every job and changes nothing else, while the registry answers: it reports
    no error and leaves every row terminal, a finished job's row as it was, an unfinished one
    succeeded, with its version, if the registry has a version of that job, and otherwise lost to the
    restart with its work discarded on the disk of its storage; it emits exactly the rows it settled,
    oldest job first.  Everything else of the engine (the other tables, what runs, the bindings, the
    logs) is as it was. *)
Theorem reconcile_settles (e : Engine W) : healthy (en_mgr e) → db_ok (mg_db (en_mgr e)) →
  Reconcile e = (None, restarted (settled_row e <$> rows e) (settle_world e (unfinished e) (mg_world (en_mgr e)))
    ((λ r, EventJobUpdated (jobToWire (settled e r))) <$> unfinished e) e) ∧
  (∀ k r, (settled_row e <$> rows e) !! k = Some r → JobIsTerminal (job_State r) = true).
Proof.
  intros Hh Hok. split.
  2: { intros k r (x & <- & _)%lookup_fmap_Some. apply settled_terminal. }
  enough (wp Reconcile (λ err e', err = None ∧ settles (unfinished e) e e') e) as Hwp.
  { unfold wp in Hwp. destruct (Reconcile e) as [err e']. cbn [fst snd] in Hwp. destruct Hwp as (-> & jobs & Hr & ->).
    do 2 f_equal. apply map_eq. intros k. rewrite Hr, lookup_fmap. destruct (rows e !! k) as [r|] eqn:Hk; [|done].
    simpl. f_equal. pose proof (jobs_keyed _ Hok _ _ Hk) as <-. case_bool_decide as Hin; [done|].
    unfold id, settled_row. destruct (JobIsTerminal (job_State r)) eqn:Ht; [done|]. destruct Hin.
    apply list_elem_of_fmap_2, elem_of_unfinished; done. }
  unfold Reconcile. apply wp_bind. eapply (wp_pure_step _ (Ok (unfinished e)) e).
  { unfold job_store, storage, reg, lift_state, ListNonTerminalJobs, statement. unfold healthy in Hh. rewrite Hh.
    by rewrite set_mgr_same. }
  apply wp_bind, wp_gets, wp_bind. eapply wp_mono; [apply reconcile_rows_spec; [done|by apply unfinished_nodup|]|].
  - intros r. by apply elem_of_unfinished.
  - intros a e' Hs. by apply wp_ret.
Qed.
End restart.
