(* ===== verification/EngineRuns.v ===== *)
(** * EngineRuns: the engine on concrete inputs

    One device and two storages, driven through whole jobs.  The runs instantiate the engine's theorems, and
    the last two show behaviours that its comments rule out. *)

From Stdlib Require Import String Ascii.
From S2P Require Import Prelude Calendar Domain Sampler Parser JobLog Store Backend Slots FS Sidecars.
From S2P Require Import Slots Verify Retention Manager Reconcile ReconcileSafety ManagerSafety.
From S2P Require Import Engine EngineSafety EngineOutcomes EngineStart.

#[local] Instance demo_world : StorageWorld unit := {|
  read_storage_marker := λ root, mret (SMOk (mkStorageMarker (default ""%string (head root)) BackendCopy "" "" ""));
  read_work_state := λ _, mret (Ok None);
  read_dir_names := λ _, mret None;
  verify_tree := λ _ _, mret (mkVerifyResult true true "full" 10 "") |}.
#[local] Instance demo_order : MapRange := some_order.
#[local] Instance demo_sort : SortSlice := stable_sort.

(** ** Driving a job *)

Inductive act : Type :=
  | Run (i : run_input)
  | Says (line : string)
  | Tick (fp : treeFingerprint)
  | Report
  | Cancel.

Section drive.
Context {W : Type} `{!StorageWorld W, !MapRange}.

Definition act_step (k : string) (a : act) (e : Engine W) : option (Engine W) :=
  match a with
  | Run i => run_step k i e
  | Says line => line_step k line e
  | Tick fp => tick_step k fp None e
  | Report => report_step k e
  | Cancel => Some (CancelJob k e).2
  end.
Fixpoint drive (k : string) (l : list act) (e : Engine W) : option (Engine W) :=
  match l with
  | [] => Some e
  | a :: l => e' ← act_step k a e; drive k l e'
  end.

Lemma act_engine_step k a (e e' : Engine W) : act_step k a e = Some e' → engine_step e e'.
Proof.
  destruct a; simpl; intros Ha; [by eapply step_run|by eapply step_line|by eapply step_tick|by eapply step_report|].
  injection Ha as <-. apply step_cancel.
Qed.

Lemma drive_reach k l (e e' : Engine W) : drive k l e = Some e' → rtc engine_step e e'.
Proof.
  revert e. induction l as [|a l IH]; intros e; simpl; [by intros [= <-]|].
  destruct (act_step k a e) as [e1|] eqn:Ha; simpl; [|done]. intros Hd. eapply rtc_l; [by eapply act_engine_step|by apply IH].
Qed.

Lemma drive_from_start k l cfg backups m devices udid tr st re (e : Engine W) :
  fresh_id (new_engine cfg backups m devices) →
  drive k l (StartBackup udid tr st re (new_engine cfg backups m devices)).2 = Some e →
  rtc engine_step (new_engine cfg backups m devices) e.
Proof. intros Hf Hd. eapply rtc_l; [by apply step_start|by eapply drive_reach]. Qed.
End drive.

(** ** The scene *)

Definition demo_udid : string := "00008030-0000000000000001".
Definition demo_device : Device :=
  mkDevice demo_udid "Phone" "iPhone12,1" "17.0" (mkTransports (Some "2026-08-01T10:00:00Z"%string) None)
    "yes" "on" "off" true "" None.
Definition demo_storage (name : string) : Slot unit :=
  mkSlot name name [name] (Some demo_committer) BackendCopy (mkRetention 10 7 4) true "" "".
Definition demo_manager (db : DB) : Manager unit :=
  mkManager [demo_storage "disk-a"; demo_storage "disk-b"] ∅ ∅ db tt [] ["job-1"; "ver-1"; "audit-1"]%string
    (1000 * Second) [].
Definition demo_start (db : DB) : Engine unit :=
  new_engine DefaultConfig "" (demo_manager db) {[demo_udid := demo_device]}.
Definition demo_run (l : list act) : option (Engine unit) :=
  drive "job-1" l (StartBackup demo_udid TransportAuto "disk-b" "" (demo_start empty_DB)).2.

(** From the start to the tool's loop, and on to the commit. *)
Definition to_loop : list act :=
  [Run InGo; Run InPoll; Run (InProbe None None); Run InGo; Run (InStarted None); Run (InFingerprint (mkFP 0 0 0 0))].
Definition to_commit : list act :=
  to_loop ++ [Says "Receiving files"; Says "Backup Successful."; Run InDrained; Run (InWaited None); Run InGo; Run InGo].

Definition states_of (e : option (Engine unit)) : option (string * string * string * run_pc) :=
  e ← e; p ← en_jobs e !! "job-1"%string;
  Some (job_State (pr_row p), job_Liveness (pr_row p), default ""%string (job_VersionID (pr_row p)), pr_pc p).

Definition demo_at (l : list act) : Engine unit := default (demo_start empty_DB) (demo_run l).
Definition demo_proc (l : list act) : jobProc :=
  default (new_proc (queued_row "" "" "" "" 0)) (en_jobs (demo_at l) !! "job-1"%string).

Lemma demo_reach l : is_Some (demo_run l) → rtc engine_step (demo_start empty_DB) (demo_at l).
Proof.
  intros [e He]. unfold demo_at. rewrite He. simpl. eapply drive_from_start; [|exact He].
  unfold fresh_id. apply not_elem_of_dom. done.
Qed.

Definition keyed (d : DB) : bool :=
  bool_decide (map_Forall (λ k j, job_ID j = k) (db_jobs d)) &&
  bool_decide (map_Forall (λ k v, ver_ID v = k) (db_versions d)).
Lemma keyed_ok d : keyed d = true → db_ok d.
Proof. by intros [H1%bool_decide_eq_true H2%bool_decide_eq_true]%andb_true_iff. Qed.

(** ** The theorems at these runs *)

Lemma job_follows_machine_witness :
  ∃ p', en_jobs (demo_at (to_loop ++ [Run InDrained])) !! "job-1"%string = Some p' ∧
    row_moves (pr_row (demo_proc to_loop)) (pr_row p').
Proof.
  apply (job_follows_machine DefaultConfig "" (demo_manager empty_DB) {[demo_udid := demo_device]}
    (demo_at to_loop) (demo_at (to_loop ++ [Run InDrained])) "job-1" (demo_proc to_loop)).
  - apply demo_reach. vm_compute. eauto.
  - apply (step_run "job-1" InDrained). vm_compute. reflexivity.
  - vm_compute. reflexivity.
Defined.

Lemma single_flight_witness : en_running (demo_at to_loop) !! demo_udid = Some "job-1"%string.
Proof.
  refine (proj2 (single_flight DefaultConfig "" (demo_manager empty_DB) {[demo_udid := demo_device]}
    (demo_at to_loop) "job-1" "job-1" (demo_proc to_loop) (demo_proc to_loop) _ _ _ _ _ _)).
  - apply demo_reach. vm_compute. eauto.
  - vm_compute. reflexivity.
  - vm_compute. reflexivity.
  - vm_compute. done.
  - vm_compute. done.
  - reflexivity.
Defined.

(** The job chose the storage that is not the default. *)
Lemma job_writes_where_its_row_says_witness :
  s_StorageID <$> (match jobSlot (mg_slots (en_mgr (demo_at to_loop))) (mg_jobStorage (en_mgr (demo_at to_loop))) "job-1"
     with Ok s => Some s | Err _ => None end) = job_StorageID (pr_row (demo_proc to_loop)).
Proof.
  destruct (job_writes_where_its_row_says DefaultConfig "" (demo_manager empty_DB) {[demo_udid := demo_device]}
    (demo_at to_loop) "job-1" (demo_proc to_loop)) as [Hrow _].
  - apply demo_reach. vm_compute. eauto.
  - vm_compute. reflexivity.
  - assert (jobSlot (mg_slots (en_mgr (demo_at to_loop))) (mg_jobStorage (en_mgr (demo_at to_loop))) "job-1"
      = Ok (demo_storage "disk-b")) as Hs by (vm_compute; reflexivity).
    rewrite Hs. rewrite (Hrow ltac:(vm_compute; done) _ _ Hs). reflexivity.
Defined.

Lemma run_advances_witness :
  ∃ p', en_jobs (demo_at (to_loop ++ [Run InDrained])) !! "job-1"%string = Some p' ∧
    (p' = demo_proc to_loop ∨ (pc_rank PcLoop < pc_rank (pr_pc p') ≤ 15)%nat).
Proof.
  destruct (run_advances DefaultConfig "" (demo_manager empty_DB) {[demo_udid := demo_device]}
    (demo_at to_loop) "job-1" (demo_proc to_loop)) as [_ Hadv].
  - apply demo_reach. vm_compute. eauto.
  - vm_compute. reflexivity.
  - vm_compute. done.
  - apply (Hadv InDrained). vm_compute. reflexivity.
Defined.

Lemma success_is_committed_witness :
  ∃ v fin, pr_row (demo_proc (to_commit ++ [Run InGo])) = succeeded_row (Some v) fin (pr_row (demo_proc to_commit)) ∧
    committed_version (pr_row (demo_proc to_commit)) (en_mgr (demo_at to_commit))
      (en_mgr (demo_at (to_commit ++ [Run InGo]))) v.
Proof.
  destruct (success_is_committed DefaultConfig "" (demo_manager empty_DB) {[demo_udid := demo_device]}
    (demo_at to_commit) (demo_at (to_commit ++ [Run InGo])) InGo "job-1" (demo_proc to_commit)
    (demo_proc (to_commit ++ [Run InGo]))) as (v & fin & Hrow & Hv & _).
  - apply demo_reach. vm_compute. eauto.
  - vm_compute. reflexivity.
  - vm_compute. reflexivity.
  - vm_compute. reflexivity.
  - vm_compute. done.
  - vm_compute. reflexivity.
  - vm_compute. done.
  - apply keyed_ok. vm_compute. reflexivity.
  - vm_compute. reflexivity.
  - exists v, fin. split; [exact Hrow|exact Hv].
Defined.

Lemma killed_never_commits_witness :
  ∃ p', en_jobs (demo_at (to_loop ++ [Cancel; Says "Backup Successful."; Run InDrained; Run (InWaited None); Run InGo]))
      !! "job-1"%string = Some p' ∧ killReason p' = "cancel"%string ∧ job_State (pr_row p') ∉ saving_states.
Proof.
  apply (killed_never_commits DefaultConfig "" (demo_manager empty_DB) {[demo_udid := demo_device]}
    (demo_at (to_loop ++ [Cancel])) _ "job-1" (demo_proc (to_loop ++ [Cancel]))).
  - apply demo_reach. vm_compute. eauto.
  - apply (drive_reach "job-1" [Says "Backup Successful."; Run InDrained; Run (InWaited None); Run InGo]). vm_compute. reflexivity.
  - vm_compute. reflexivity.
  - left. reflexivity.
  - apply (bool_decide_unpack _). vm_compute. exact I.
  - vm_compute. intros [].
Defined.

(** A cancel that comes after the look for one does not hold up the job: it is answered, and the
    backup succeeds. *)
Example cancel_after_the_look :
  let e := demo_at (to_loop ++ [Says "Backup Successful."; Run InDrained; Run (InWaited None); Cancel;
                                Run InGo; Run InGo; Run InGo]) in
  (λ p, (killReason p, job_State (pr_row p))) <$> en_jobs e !! "job-1"%string = Some ("cancel"%string, StateSucceeded).
Proof. vm_compute. reflexivity. Qed.

(** The tool succeeded, but the user had cancelled. *)
Lemma reap_settles_witness :
  ∃ p', en_jobs (demo_at (to_loop ++ [Cancel; Says "Backup Successful."; Run InDrained; Run (InWaited None); Run InGo]))
      !! "job-1"%string = Some p' ∧ (job_State (pr_row p'), job_ErrorCode (pr_row p')) = (StateCancelled, ErrCancelled).
Proof.
  destruct (reap_settles "job-1" (demo_at (to_loop ++ [Cancel; Says "Backup Successful."; Run InDrained]))
    (demo_at (to_loop ++ [Cancel; Says "Backup Successful."; Run InDrained; Run (InWaited None)]))
    (demo_at (to_loop ++ [Cancel; Says "Backup Successful."; Run InDrained; Run (InWaited None); Run InGo]))
    (demo_proc (to_loop ++ [Cancel; Says "Backup Successful."; Run InDrained])) None) as (p' & Hp' & Hs & _).
  - vm_compute. reflexivity.
  - vm_compute. reflexivity.
  - vm_compute. reflexivity.
  - vm_compute. reflexivity.
  - exists p'. split; [exact Hp'|]. rewrite Hs. vm_compute. reflexivity.
Defined.

(** Two batches: the tool's counter restarts at the second. *)
Definition demo_lines1 : list string :=
  ["Receiving files"; "[==                                                ]   4% (1.0 MB/100.0 MB)";
   "[===                                               ]   6% (3.0 MB/100.0 MB)"].
Definition demo_lines2 : list string :=
  ["Receiving files"; "[==                                                ]   4% (0.5 MB/2.0 MB)"].

Lemma bytes_are_batch_totals_witness :
  ∃ p', en_jobs (for_each (handleLine "job-1") (demo_lines1 ++ demo_lines2) (demo_at to_loop)).2 !! "job-1"%string
      = Some p' ∧ job_BytesDone (pr_row p') = 3670016.
Proof.
  destruct (bytes_are_batch_totals "job-1" (demo_lines1 ++ demo_lines2) (demo_at to_loop) (demo_proc to_loop))
    as (p' & Hp' & Hb).
  - vm_compute. reflexivity.
  - vm_compute. done.
  - exists p'. split; [exact Hp'|]. rewrite Hb. vm_compute. reflexivity.
Defined.

Lemma bytes_never_fall_witness :
  0 ≤ job_BytesDone (pr_row (demo_proc (to_loop ++ (Says <$> demo_lines1)))) ≤
      job_BytesDone (pr_row (demo_proc (to_loop ++ (Says <$> demo_lines1 ++ demo_lines2)))).
Proof.
  apply (bytes_never_fall "job-1" demo_lines1 demo_lines2 (demo_at to_loop) (demo_proc to_loop)).
  - vm_compute. reflexivity.
  - vm_compute. split; [reflexivity|]. split; reflexivity.
  - apply (bool_decide_unpack _). vm_compute. exact I.
  - vm_compute. done.
  - vm_compute. reflexivity.
  - vm_compute. reflexivity.
Defined.

(** A retry of a job that ran on the second storage, without naming one. *)
Definition retried_db : DB :=
  mkDB {["job-0" := with_state StateFailed (queued_row "job-0" demo_udid TransportUSB "disk-b" 0)]} ∅ ∅ [].

Lemma start_backup_exact_witness :
  job_StorageID <$> start_row demo_udid TransportUSB "" "job-0" (demo_start retried_db) = Some (Some "disk-b"%string) ∧
  ∃ row, start_row demo_udid TransportUSB "" "job-0" (demo_start retried_db) = Some row ∧
    with_started row (demo_start retried_db) (StartBackup demo_udid TransportUSB "" "job-0" (demo_start retried_db)).2.
Proof.
  split; [vm_compute; reflexivity|].
  pose proof (start_backup_exact demo_udid TransportUSB "" "job-0" (demo_start retried_db)
    ltac:(apply not_elem_of_dom; vm_compute; reflexivity)) as Hx.
  assert ((StartBackup demo_udid TransportUSB "" "job-0" (demo_start retried_db)).1.1.2 = StatusAccepted) as Hst
    by (vm_compute; reflexivity).
  destruct (StartBackup demo_udid TransportUSB "" "job-0" (demo_start retried_db)) as [[[job status] reason] e'].
  simpl in Hst. subst status. destruct Hx as (w & row & Hrow & _ & Hs & _ & [-> | [Hn _]]).
  - exists row. split; [exact Hrow|exact Hs].
  - destruct Hn. vm_compute. reflexivity.
Defined.

(** A crash left one job before its commit was recorded, one in its transfer, and one was done. *)
Definition crashed_db : DB :=
  mkDB (list_to_map ((λ r, (job_ID r, r)) <$>
      [with_state StateFailed (queued_row "job-0" demo_udid TransportUSB "disk-b" 0);
       with_state StateCommitting (queued_row "job-a" demo_udid TransportUSB "disk-b" 0);
       with_state StateBackingUp (queued_row "job-b" "other-device" TransportUSB "disk-b" 0)]))
    {["v1" := mkVersionRow "v1" demo_udid BackendCopy None 0 (Some "job-a"%string) "full" true true None None 10 false
                (Some "disk-b"%string)]} ∅ [].

Lemma reconcile_settles_witness :
  (λ r, (job_ID r, job_State r, job_ErrorCode r, job_VersionID r)) <$>
    (map_to_list (rows (Reconcile (demo_start crashed_db)).2)).*2 =
  [("job-a", StateSucceeded, "", Some "v1"); ("job-b", StateConnectionLost, ErrInterrupted, None);
   ("job-0", StateFailed, "", None)]%string.
Proof.
  rewrite (proj1 (reconcile_settles (demo_start crashed_db) eq_refl ltac:(apply keyed_ok; vm_compute; reflexivity))).
  vm_compute. reflexivity.
Defined.

(** ** Where the engine falls short of its comments *)

(** The sampler does not wait for its loop: it takes a verdict, the loop ends and the job fails, and
    then it writes its liveness into the finished row, which is stored and published. *)
Example late_verdict_revives_liveness :
  let e := demo_at (to_loop ++ [Tick (mkFP 1 0 0 0); Run InDrained; Run (InWaited (Some "exit status 1"%string)); Run InGo; Report]) in
  (λ r, (job_State r, job_Liveness r)) <$> rows e !! "job-1"%string = Some (StateFailed, LivenessActive) ∧
  (λ ev, match ev with EventJobUpdated j => Some (wj_State j, jp_Liveness (wj_Progress j)) | _ => None end)
    <$> last (en_events e) = Some (Some (StateFailed, LivenessActive)).
Proof. split; vm_compute; reflexivity. Qed.

(** If the first reading of the retried job fails and the second does not, the retry runs on the
    default storage: the answer that is never to be given. *)
Example unread_retry_runs_on_the_default :
  let e := demo_start (mkDB (db_jobs retried_db) ∅ ∅ [true]) in
  let r := StartBackup demo_udid TransportUSB "" "job-0" e in
  r.1.1.2 = StatusAccepted ∧ (λ row, (job_RetryOf row, job_StorageID row)) <$> rows r.2 !! "job-1"%string
    = Some (Some "job-0", Some "disk-a")%string.
Proof. split; vm_compute; reflexivity. Qed.

(** A start whose row cannot be inserted is refused, but its storage binding stays, and no job is
    there to release it. *)
Example refused_start_stays_bound :
  let r := StartBackup demo_udid TransportUSB "disk-b" "" (demo_start (mkDB ∅ ∅ ∅ [true])) in
  r.1.1.2 = StatusInternalServerError ∧ en_running r.2 = ∅ ∧ en_jobs r.2 = ∅ ∧
  mg_jobStorage (en_mgr r.2) = {["job-1" := mkBinding "disk-b" demo_udid]} ∧
  JobsOnDevice (mg_jobStorage (en_mgr r.2)) "disk-b" demo_udid = ["job-1"]%string.
Proof. split_and!; vm_compute; reflexivity. Qed.
