(* ===== verification/Base64.v ===== *)
(** * Base64: [base64.RawURLEncoding] and [base64.RawStdEncoding]

    The two unpadded encodings of Go's encoding/base64 that core/internal/auth uses: credential
    ids, tokens and keys in the first, the salt and key of a password hash in the second.  Bytes
    are a [string].  As in Go the decoder skips carriage returns and newlines, refuses every other
    foreign byte, and ignores the spare bits of a last group. *)

From Stdlib Require Import String Ascii.
From S2P Require Import Prelude.

(** The 64 digits: the last two are all that tells the alphabets apart. *)
Inductive alphabet : Type := RawURLEncoding | RawStdEncoding.

Definition digit62 (a : alphabet) : Z := match a with RawURLEncoding => 45 | RawStdEncoding => 43 end.
Definition digit63 (a : alphabet) : Z := match a with RawURLEncoding => 95 | RawStdEncoding => 47 end.

Definition b64_code (a : alphabet) (i : Z) : Z :=
  if i <? 26 then 65 + i
  else if i <? 52 then 97 + (i - 26)
  else if i <? 62 then 48 + (i - 52)
  else if i =? 62 then digit62 a
  else digit63 a.
Definition b64_char (a : alphabet) (i : Z) : ascii := char_of_Z (b64_code a i).

Definition b64_value (a : alphabet) (c : ascii) : option Z :=
  let n := Z_of_char c in
  if (65 <=? n) && (n <=? 90) then Some (n - 65)
  else if (97 <=? n) && (n <=? 122) then Some (n - 97 + 26)
  else if (48 <=? n) && (n <=? 57) then Some (n - 48 + 52)
  else if n =? digit62 a then Some 62
  else if n =? digit63 a then Some 63
  else None.

(** [EncodeToString]: three bytes to four digits; one or two bytes at the end to two or three. *)
Fixpoint EncodeToString (a : alphabet) (s : string) : string :=
  match s with
  | EmptyString => EmptyString
  | String x EmptyString =>
      let v := Z.shiftl (Z_of_char x) 4 in
      String (b64_char a (Z.shiftr v 6)) (String (b64_char a (Z.land v 63)) EmptyString)
  | String x (String y EmptyString) =>
      let v := Z.shiftl (Z.lor (Z.shiftl (Z_of_char x) 8) (Z_of_char y)) 2 in
      String (b64_char a (Z.shiftr v 12)) (String (b64_char a (Z.land (Z.shiftr v 6) 63))
        (String (b64_char a (Z.land v 63)) EmptyString))
  | String x (String y (String z s')) =>
      let v := Z.lor (Z.lor (Z.shiftl (Z_of_char x) 16) (Z.shiftl (Z_of_char y) 8)) (Z_of_char z) in
      String (b64_char a (Z.shiftr v 18)) (String (b64_char a (Z.land (Z.shiftr v 12) 63))
        (String (b64_char a (Z.land (Z.shiftr v 6) 63)) (String (b64_char a (Z.land v 63))
          (EncodeToString a s'))))
  end.

Fixpoint skip_newlines (s : string) : string :=
  match s with
  | EmptyString => EmptyString
  | String c s' =>
      let n := Z_of_char c in
      if (n =? 10) || (n =? 13) then skip_newlines s' else String c (skip_newlines s')
  end.

Fixpoint digit_values (a : alphabet) (s : string) : option (list Z) :=
  match s with
  | EmptyString => Some []
  | String c s' => v ← b64_value a c; vs ← digit_values a s'; Some (v :: vs)
  end.

(** The bytes of the digits: a single digit left over is an error. *)
Fixpoint quanta (vs : list Z) : option string :=
  match vs with
  | [] => Some EmptyString
  | [_] => None
  | [p; q] => Some (String (char_of_Z (Z.land (Z.shiftr (Z.lor (Z.shiftl p 6) q) 4) 255)) EmptyString)
  | [p; q; r] =>
      let v := Z.lor (Z.lor (Z.shiftl p 12) (Z.shiftl q 6)) r in
      Some (String (char_of_Z (Z.land (Z.shiftr v 10) 255))
        (String (char_of_Z (Z.land (Z.shiftr v 2) 255)) EmptyString))
  | p :: q :: r :: t :: vs' =>
      let v := Z.lor (Z.lor (Z.lor (Z.shiftl p 18) (Z.shiftl q 12)) (Z.shiftl r 6)) t in
      rest ← quanta vs';
      Some (String (char_of_Z (Z.land (Z.shiftr v 16) 255)) (String (char_of_Z (Z.land (Z.shiftr v 8) 255))
        (String (char_of_Z (Z.land v 255)) rest)))
  end.

Definition DecodeString (a : alphabet) (s : string) : option string :=
  vs ← digit_values a (skip_newlines s); quanta vs.

Example encode_some : EncodeToString RawURLEncoding "quince??>" = "cXVpbmNlPz8-".
Proof. vm_compute. reflexivity. Qed.
Example encode_tail : EncodeToString RawStdEncoding "ab" = "YWI".
Proof. vm_compute. reflexivity. Qed.
(** The spare bits of the last group are ignored: two texts of one id. *)
Example decode_spare_bits : DecodeString RawURLEncoding "YWI" = DecodeString RawURLEncoding "YWJ".
Proof. vm_compute. reflexivity. Qed.

(** ** Round trip *)

Lemma Z_of_char_range c : 0 ≤ Z_of_char c < 256.
Proof. unfold Z_of_char. pose proof (nat_ascii_bounded c). lia. Qed.

Lemma char_of_Z_of_char c : char_of_Z (Z_of_char c) = c.
Proof. unfold char_of_Z, Z_of_char. by rewrite Nat2Z.id, ascii_nat_embedding. Qed.

(** Induction three bytes at a time. *)
Lemma string_ind3 (P : string → Prop) :
  P EmptyString → (∀ x, P (String x EmptyString)) → (∀ x y, P (String x (String y EmptyString))) →
  (∀ x y z s, P s → P (String x (String y (String z s)))) → ∀ s, P s.
Proof.
  intros H0 H1 H2 H3. fix IH 1.
  intros [|x [|y [|z s]]]; [exact H0|apply H1|apply H2|apply H3, (IH s)].
Qed.

(** Joining two fields that do not overlap is addition. *)
Lemma lor_shift a b n : 0 ≤ n → 0 ≤ b < 2 ^ n → Z.lor (Z.shiftl a n) b = a * 2 ^ n + b.
Proof.
  intros Hn Hb. rewrite <-Z.shiftl_mul_pow2 by done.
  assert (Hand : Z.land (Z.shiftl a n) b = 0).
  { apply Z.bits_inj'. intros i Hi. rewrite Z.land_spec, Z.bits_0, Z.shiftl_spec by done.
    destruct (decide (i < n)); [by rewrite Z.testbit_neg_r by lia|].
    rewrite <-(Z.mod_small b (2 ^ n)), Z.mod_pow2_bits_high by lia. apply andb_false_r. }
  by rewrite Z.add_nocarry_lxor, Z.lxor_lor.
Qed.

Lemma land_63 v : Z.land v 63 = v `mod` 64.
Proof. exact (Z.land_ones v 6 ltac:(lia)). Qed.
Lemma land_255 v : Z.land v 255 = v `mod` 256.
Proof. exact (Z.land_ones v 8 ltac:(lia)). Qed.

Lemma lor_shift2 a b c n : 0 ≤ n → 0 ≤ b < 2 ^ n → 0 ≤ c < 2 ^ n →
  Z.lor (Z.lor (Z.shiftl a (n + n)) (Z.shiftl b n)) c = (a * 2 ^ n + b) * 2 ^ n + c.
Proof.
  intros Hn Hb Hc. rewrite <-(Z.shiftl_shiftl a n n), <-Z.shiftl_lor by done.
  rewrite lor_shift by done. by rewrite lor_shift.
Qed.

Lemma lor_shift3 a b c d n : 0 ≤ n → 0 ≤ b < 2 ^ n → 0 ≤ c < 2 ^ n → 0 ≤ d < 2 ^ n →
  Z.lor (Z.lor (Z.lor (Z.shiftl a (n + n + n)) (Z.shiftl b (n + n))) (Z.shiftl c n)) d =
  ((a * 2 ^ n + b) * 2 ^ n + c) * 2 ^ n + d.
Proof.
  intros Hn Hb Hc Hd.
  rewrite <-(Z.shiftl_shiftl a (n + n) n), <-(Z.shiftl_shiftl b n n), <-!Z.shiftl_lor by lia.
  rewrite lor_shift by done. by rewrite lor_shift2.
Qed.

(** The groups in plain arithmetic. *)
Lemma bytes2 x y : 0 ≤ y < 256 → Z.lor (Z.shiftl x 8) y = x * 256 + y.
Proof. exact (lor_shift x y 8 ltac:(lia)). Qed.
Lemma bytes3 x y z : 0 ≤ y < 256 → 0 ≤ z < 256 →
  Z.lor (Z.lor (Z.shiftl x 16) (Z.shiftl y 8)) z = (x * 256 + y) * 256 + z.
Proof. exact (lor_shift2 x y z 8 ltac:(lia)). Qed.
Lemma digits2 p q : 0 ≤ q < 64 → Z.lor (Z.shiftl p 6) q = p * 64 + q.
Proof. exact (lor_shift p q 6 ltac:(lia)). Qed.
Lemma digits3 p q r : 0 ≤ q < 64 → 0 ≤ r < 64 →
  Z.lor (Z.lor (Z.shiftl p 12) (Z.shiftl q 6)) r = (p * 64 + q) * 64 + r.
Proof. exact (lor_shift2 p q r 6 ltac:(lia)). Qed.
Lemma digits4 p q r t : 0 ≤ q < 64 → 0 ≤ r < 64 → 0 ≤ t < 64 →
  Z.lor (Z.lor (Z.lor (Z.shiftl p 18) (Z.shiftl q 12)) (Z.shiftl r 6)) t =
  ((p * 64 + q) * 64 + r) * 64 + t.
Proof. exact (lor_shift3 p q r t 6 ltac:(lia)). Qed.

Ltac bits_to_arith :=
  rewrite ?bytes2, ?bytes3, ?digits4, ?digits3, ?digits2 by lia;
  rewrite ?land_63, ?land_255, ?Z.shiftr_div_pow2, ?Z.shiftl_mul_pow2 by lia;
  repeat match goal with |- context [2 ^ ?n] => let v := eval vm_compute in (2 ^ n) in change (2 ^ n) with v end.

Definition digit (d : Z) : Prop := 0 ≤ d < 64.

Lemma Z_of_char_of_Z z : 0 ≤ z < 256 → Z_of_char (char_of_Z z) = z.
Proof. intros Hz. unfold Z_of_char, char_of_Z. rewrite nat_ascii_embedding; lia. Qed.

Lemma b64_code_range a d : digit d → 43 ≤ b64_code a d ≤ 122.
Proof. unfold digit, b64_code, digit62, digit63. intros Hd. destruct a; repeat case_match; lia. Qed.

Lemma b64_value_char a d : digit d → b64_value a (b64_char a d) = Some d.
Proof.
  intros Hd. pose proof (b64_code_range a d Hd). unfold b64_value, b64_char.
  rewrite Z_of_char_of_Z by lia. unfold digit, b64_code, digit62, digit63 in *.
  destruct a; repeat case_match; simpl; try (f_equal; lia); exfalso; lia.
Qed.

Fixpoint chars (a : alphabet) (ds : list Z) : string :=
  match ds with [] => EmptyString | d :: ds' => String (b64_char a d) (chars a ds') end.

Lemma skip_newlines_chars a ds : Forall digit ds → skip_newlines (chars a ds) = chars a ds.
Proof.
  induction 1 as [|d ds Hd Hds IH]; [done|]. simpl. pose proof (b64_code_range a d Hd).
  unfold b64_char at 1 2. rewrite Z_of_char_of_Z by lia.
  rewrite (proj2 (Z.eqb_neq _ 10)), (proj2 (Z.eqb_neq _ 13)) by lia. simpl. by rewrite IH.
Qed.

Lemma digit_values_chars a ds : Forall digit ds → digit_values a (chars a ds) = Some ds.
Proof.
  induction 1 as [|d ds Hd Hds IH]; [done|]. simpl. rewrite b64_value_char by done. simpl. by rewrite IH.
Qed.

(** The digits of a text. *)
Fixpoint digits (s : string) : list Z :=
  match s with
  | EmptyString => []
  | String x EmptyString => let v := Z_of_char x * 16 in [v / 64; v `mod` 64]
  | String x (String y EmptyString) =>
      let v := (Z_of_char x * 256 + Z_of_char y) * 4 in [v / 4096; (v / 64) `mod` 64; v `mod` 64]
  | String x (String y (String z s')) =>
      let v := (Z_of_char x * 256 + Z_of_char y) * 256 + Z_of_char z in
      (v / 262144) :: ((v / 4096) `mod` 64) :: ((v / 64) `mod` 64) :: (v `mod` 64) :: digits s'
  end.

Ltac char_ranges :=
  repeat match goal with x : ascii |- _ =>
    lazymatch goal with H : 0 ≤ Z_of_char x < 256 |- _ => fail | _ => pose proof (Z_of_char_range x) end end.

Lemma encode_digits a s : EncodeToString a s = chars a (digits s).
Proof.
  induction s as [|x|x y|x y z s IH] using string_ind3; [done|..]; char_ranges; simpl;
    rewrite ?IH; bits_to_arith; reflexivity.
Qed.

Ltac divmod_lia := Z.to_euclidean_division_equations; lia.

Lemma digits_ok s : Forall digit (digits s).
Proof.
  induction s as [|x|x y|x y z s IH] using string_ind3; simpl; char_ranges;
    repeat (apply Forall_cons_2; [unfold digit; divmod_lia|]); done.
Qed.

Lemma char_back z c : z = Z_of_char c → char_of_Z z = c.
Proof. intros ->. apply char_of_Z_of_char. Qed.

Lemma regroup v k : 0 < k → v / (k * 64) * 64 + (v / k) `mod` 64 = v / k.
Proof. intros Hk. rewrite <-Z.div_div by lia. divmod_lia. Qed.

Lemma regroup_all v : v / 64 * 64 + v `mod` 64 = v.
Proof. divmod_lia. Qed.

Lemma quanta_digits s : quanta (digits s) = Some s.
Proof.
  induction s as [|x|x y|x y z s IH] using string_ind3; [done|..]; char_ranges; simpl.
  - rewrite digits2 by divmod_lia. rewrite regroup_all. bits_to_arith.
    f_equal. f_equal. apply char_back. divmod_lia.
  - rewrite digits3 by divmod_lia. rewrite (regroup _ 64), regroup_all by lia. bits_to_arith.
    f_equal. f_equal; [apply char_back; divmod_lia|]. f_equal. apply char_back. divmod_lia.
  - rewrite IH, digits4 by divmod_lia.
    rewrite (regroup _ 4096), (regroup _ 64), regroup_all by lia. simpl. bits_to_arith.
    f_equal. f_equal; [apply char_back; divmod_lia|]. f_equal; [apply char_back; divmod_lia|].
    f_equal. apply char_back. divmod_lia.
Qed.

Lemma decode_encode a s : DecodeString a (EncodeToString a s) = Some s.
Proof.
  unfold DecodeString. rewrite encode_digits, skip_newlines_chars by apply digits_ok.
  rewrite digit_values_chars by apply digits_ok. apply quanta_digits.
Qed.

#[global] Instance encode_inj a : Inj (=) (=) (EncodeToString a).
Proof. intros s t H. apply (f_equal (DecodeString a)) in H. rewrite !decode_encode in H. by simplify_eq. Qed.

(** A text is canonical when it is what its bytes encode to. *)
Definition canonical (a : alphabet) (t : string) : Prop := ∃ s, t = EncodeToString a s.

Lemma canonical_decode a t : canonical a t → EncodeToString a <$> DecodeString a t = Some t.
Proof. intros [s ->]. by rewrite decode_encode. Qed.

Lemma encode_nonempty a s : s ≠ EmptyString → EncodeToString a s ≠ EmptyString.
Proof. intros Hs H. apply Hs. by apply (inj (EncodeToString a)). Qed.

#[export] Hint Rewrite decode_encode : quince.
