(* ===== verification/Argon2.v ===== *)
(** * Argon2: the stored form of the admin password

    Models core/internal/auth/argon2.go: the PHC text of a hash and its verification, with the
    [strings.Split] and [fmt.Sscanf] calls that take it apart.  The derivation itself,
    [argon2.IDKey] of golang.org/x/crypto, is a parameter. *)

From Stdlib Require Import String Ascii.
From S2P Require Import Prelude Calendar Base64.

Record argonParams : Type := mkArgonParams {
  memory : Z;          (* uint32, KiB *)
  iterations : Z;      (* uint32 *)
  parallelism : Z;     (* uint8 *)
  saltLen : Z;         (* uint32 *)
  keyLen : Z }.        (* uint32 *)

Definition defaultArgonParams : argonParams := mkArgonParams (64 * 1024) 3 2 16 32.

(** [argon2.Version]. *)
Definition argon2_Version : Z := 19.

(** [strings.Split] by one character. *)
Fixpoint split_on (sep : ascii) (s : string) : list string :=
  match s with
  | EmptyString => [EmptyString]
  | String c s' =>
      if bool_decide (c = sep) then EmptyString :: split_on sep s'
      else match split_on sep s' with
           | [] => [String c EmptyString]
           | p :: ps => String c p :: ps
           end
  end.

(** [fmt.Sscanf]'s [%d], on single-byte runes: blanks are skipped, a newline is an error, and the
    input after the number is left alone. *)
Fixpoint SkipSpace (s : string) : option string :=
  match s with
  | EmptyString => Some EmptyString
  | String c s' =>
      if Z_of_char c =? 10 then None
      else if is_space c then SkipSpace s' else Some s
  end.

Fixpoint scan_digits (acc : Z) (s : string) : Z * string :=
  match s with
  | EmptyString => (acc, EmptyString)
  | String c s' => if is_digit c then scan_digits (acc * 10 + digit_value c) s' else (acc, s)
  end.

Definition scanNumber (s : string) : option (Z * string) :=
  match s with
  | String c _ => if is_digit c then Some (scan_digits 0 s) else None
  | EmptyString => None
  end.

Definition scanUint (bits : Z) (s : string) : option (Z * string) :=
  s ← SkipSpace s;
  '(n, rest) ← scanNumber s;
  if n <? 2 ^ bits then Some (n, rest) else None.

Definition scanInt (s : string) : option (Z * string) :=
  s ← SkipSpace s;
  let '(neg, s) := match s with
    | String c s' => if Z_of_char c =? 45 then (true, s') else if Z_of_char c =? 43 then (false, s') else (false, s)
    | EmptyString => (false, s)
    end in
  '(n, rest) ← scanNumber s;
  let n := if neg then - n else n in
  if (int64_min <=? n) && (n <=? int64_max) then Some (n, rest) else None.

Section argon2.
(** [argon2.IDKey password salt time memory threads keyLen]. *)
Context (IDKey : string → string → Z → Z → Z → Z → string).

(** The salt is what [rand.Read] gave. *)
Definition hashPassword (salt pw : string) (p : argonParams) : string :=
  let key := IDKey pw salt (iterations p) (memory p) (parallelism p) (keyLen p) in
  "$argon2id$v=" +:+ fmt_d argon2_Version +:+ "$m=" +:+ fmt_d (memory p) +:+ ",t=" +:+
  fmt_d (iterations p) +:+ ",p=" +:+ fmt_d (parallelism p) +:+ "$" +:+
  EncodeToString RawStdEncoding salt +:+ "$" +:+ EncodeToString RawStdEncoding key.

Definition scan_params (s : string) : option (Z * Z * Z) :=
  s ← parse_lit "m=" s; '(m, s) ← scanUint 32 s;
  s ← parse_lit ",t=" s; '(t, s) ← scanUint 32 s;
  s ← parse_lit ",p=" s; '(p, _) ← scanUint 8 s;
  Some (m, t, p).

Definition verifyPassword (pw encoded : string) : result bool :=
  match split_on "$" encoded with
  | [_; p1; p2; p3; p4; p5] =>
      if negb (String.eqb p1 "argon2id") then Err "auth: malformed password hash"
      else match s ← parse_lit "v=" p2; scanInt s with
      | None => Err "input does not match format"
      | Some (version, _) =>
      if negb (version =? argon2_Version) then
        Err ("auth: unsupported argon2 version " +:+ fmt_d version)
      else match scan_params p3 with
      | None => Err "input does not match format"
      | Some (m, t, p) =>
      match DecodeString RawStdEncoding p4 with
      | None => Err "illegal base64 data"
      | Some salt =>
      match DecodeString RawStdEncoding p5 with
      | None => Err "illegal base64 data"
      | Some EmptyString => Err "auth: password hash has an empty key"
      | Some want =>
          let got := IDKey pw salt t m p ((Z.of_nat (String.length want)) `mod` 2 ^ 32) in
          Ok (bool_decide (got = want))
      end end end end
  | _ => Err "auth: malformed password hash"
  end.

End argon2.

(** ** A stored hash reads back *)

Definition lacks (c : ascii) (s : string) : Prop := ¬ In c (list_ascii_of_string s).

Lemma split_on_app sep s t : lacks sep s → split_on sep (s +:+ String sep t) = s :: split_on sep t.
Proof.
  unfold lacks. induction s as [|c s IH]; simpl; intros Hs; [by rewrite bool_decide_eq_true_2|].
  rewrite bool_decide_eq_false_2 by (intros ->; auto). by rewrite IH by auto.
Qed.

Lemma split_on_none sep s : lacks sep s → split_on sep s = [s].
Proof.
  unfold lacks. induction s as [|c s IH]; simpl; intros Hs; [done|].
  rewrite bool_decide_eq_false_2 by (intros ->; auto). by rewrite IH by auto.
Qed.

Lemma lacks_app c s t : lacks c s → lacks c t → lacks c (s +:+ t).
Proof. unfold lacks. induction s as [|d s IH]; simpl; [done|]. intros Hs Ht [->|H]; [by apply Hs; left|].
  by apply IH; [intros ?; apply Hs; right|..]. Qed.

Lemma lacks_chars a ds : Forall digit ds → lacks "$" (chars a ds).
Proof.
  unfold lacks. induction 1 as [|d ds Hd Hds IH]; simpl; [by intros []|]. intros [H|H]; [|by apply IH].
  pose proof (b64_code_range a d Hd). apply (f_equal Z_of_char) in H. unfold b64_char in H.
  rewrite Z_of_char_of_Z in H by lia. change (Z_of_char _) with 36 in H. lia.
Qed.

Lemma lacks_encode a s : lacks "$" (EncodeToString a s).
Proof. rewrite encode_digits. apply lacks_chars, digits_ok. Qed.

(** What [pretty] writes, digit by digit. *)
Lemma pretty_N_char_value d : (d < 10)%N →
  is_digit (pretty_N_char d) = true ∧ digit_value (pretty_N_char d) = Z.of_N d.
Proof.
  intros Hd. assert (d = 0 ∨ d = 1 ∨ d = 2 ∨ d = 3 ∨ d = 4 ∨ d = 5 ∨ d = 6 ∨ d = 7 ∨ d = 8 ∨ d = 9)%N
    as H by lia.
  repeat destruct H as [->|H]; try (split; vm_compute; reflexivity). subst. split; vm_compute; reflexivity.
Qed.

Lemma scan_pretty_go x : ∀ s, scan_digits 0 (pretty_N_go x s) = scan_digits (Z.of_N x) s.
Proof.
  induction x as [x IH] using (well_founded_induction N.lt_wf_0). intros s.
  destruct (decide (x = 0)%N) as [->|Hx]; [by rewrite pretty_N_go_0|].
  rewrite pretty_N_go_step, IH by (try apply N.div_lt; lia). simpl.
  destruct (pretty_N_char_value (x `mod` 10)%N) as [-> ->]; [by apply N.mod_lt|].
  f_equal. rewrite N2Z.inj_div, N2Z.inj_mod. divmod_lia.
Qed.

Lemma digits_pretty_go (P : ascii → Prop) x :
  (∀ c, is_digit c = true → P c) →
  ∀ s, (∀ c, In c (list_ascii_of_string s) → P c) → ∀ c, In c (list_ascii_of_string (pretty_N_go x s)) → P c.
Proof.
  intros HP. induction x as [x IH] using (well_founded_induction N.lt_wf_0). intros s Hs c.
  destruct (decide (x = 0)%N) as [->|Hx]; [rewrite pretty_N_go_0; apply Hs|].
  rewrite pretty_N_go_step by lia. apply IH; [apply N.div_lt; lia|].
  intros d [<-|Hd]; [|by apply Hs]. apply HP, pretty_N_char_value. by apply N.mod_lt.
Qed.

(** Decimal numbers of Go's unsigned widths. *)
Lemma fmt_d_shape n : 0 ≤ n → ∃ x, Z.of_N x = n ∧
  (fmt_d n = "0"%string ∧ n = 0 ∨ fmt_d n = pretty_N_go x EmptyString ∧ (0 < x)%N).
Proof.
  intros Hn. destruct n as [|p|p]; [exists 0%N; auto| |lia].
  exists (Npos p). split; [done|]. right. done.
Qed.

Definition starts_plain (s : string) : Prop :=
  match s with String c _ => is_digit c = false | EmptyString => True end.

Lemma scan_digits_stop n s : starts_plain s → scan_digits n s = (n, s).
Proof. destruct s as [|c s]; [done|]. simpl. by intros ->. Qed.

Lemma pretty_go_app x : ∀ s t, pretty_N_go x s +:+ t = pretty_N_go x (s +:+ t).
Proof.
  induction x as [x IH] using (well_founded_induction N.lt_wf_0). intros s t.
  destruct (decide (x = 0)%N) as [->|Hx]; [by rewrite !pretty_N_go_0|].
  rewrite !(pretty_N_go_step x) by lia. apply (IH (x `div` 10)%N). apply N.div_lt; lia.
Qed.

Lemma pretty_go_head x : ∀ s, (0 < x)%N →
  ∃ c s', pretty_N_go x s = String c s' ∧ is_digit c = true.
Proof.
  induction x as [x IH] using (well_founded_induction N.lt_wf_0). intros s Hx.
  rewrite pretty_N_go_step by lia.
  destruct (decide (x / 10 = 0)%N) as [->|Hd].
  - rewrite pretty_N_go_0. eexists _, _. split; [done|]. apply pretty_N_char_value. by apply N.mod_lt.
  - apply (IH (x `div` 10)%N); [apply N.div_lt; lia|by apply N.neq_0_lt_0].
Qed.

Lemma digit_not_blank c : is_digit c = true →
  (Z_of_char c =? 10) = false ∧ is_space c = false ∧ (Z_of_char c =? 45) = false ∧ (Z_of_char c =? 43) = false.
Proof.
  unfold is_digit, is_space. intros H. rewrite andb_true_iff, !Z.leb_le in H.
  repeat split; try (apply Z.eqb_neq; lia). rewrite (proj2 (Z.eqb_neq _ 32)) by lia.
  rewrite orb_false_r. apply andb_false_iff. right. apply Z.leb_gt. lia.
Qed.

(** A decimal is not skipped, and is scanned back whatever plain text follows it. *)
Lemma scan_fmt_d n t : 0 ≤ n → starts_plain t →
  SkipSpace (fmt_d n +:+ t) = Some (fmt_d n +:+ t) ∧ scanNumber (fmt_d n +:+ t) = Some (n, t) ∧
  ∃ c s, fmt_d n +:+ t = String c s ∧ is_digit c = true.
Proof.
  intros Hn Ht. destruct (fmt_d_shape n Hn) as (x & <- & [[-> Hx]|[-> Hx]]).
  - rewrite Hx. simpl. rewrite scan_digits_stop by done. split; [done|]. split; [done|]. by eexists _, _.
  - rewrite pretty_go_app. change (EmptyString +:+ t) with t. destruct (pretty_go_head x t Hx) as (c & s & Hs & Hc).
    pose proof (scan_pretty_go x t) as Hscan. rewrite Hs in *.
    destruct (digit_not_blank c Hc) as (H1 & H2 & _). cbn [SkipSpace scanNumber]. rewrite H1, H2, Hc.
    split; [done|]. split; [|by eexists _, _].
    f_equal. rewrite Hscan. by apply scan_digits_stop.
Qed.

Lemma scanUint_fmt_d bits n t : 0 ≤ n < 2 ^ bits → starts_plain t →
  scanUint bits (fmt_d n +:+ t) = Some (n, t).
Proof.
  intros Hn Ht. destruct (scan_fmt_d n t) as (H1 & H2 & _); [lia|done|].
  unfold scanUint. rewrite H1. simpl. rewrite H2. simpl. by rewrite (proj2 (Z.ltb_lt _ _)) by lia.
Qed.

Lemma scan_params_fmt m t p : 0 ≤ m < 2 ^ 32 → 0 ≤ t < 2 ^ 32 → 0 ≤ p < 2 ^ 8 →
  scan_params ("m=" +:+ fmt_d m +:+ ",t=" +:+ fmt_d t +:+ ",p=" +:+ fmt_d p) = Some (m, t, p).
Proof.
  intros Hm Ht Hp. unfold scan_params. rewrite <-(string_app_nil_r (fmt_d p)).
  rewrite parse_lit_app; cbn [mbind option_bind]. rewrite scanUint_fmt_d by done.
  cbn [mbind option_bind]. rewrite parse_lit_app; cbn [mbind option_bind].
  rewrite scanUint_fmt_d by done. cbn [mbind option_bind].
  rewrite parse_lit_app; cbn [mbind option_bind]. by rewrite scanUint_fmt_d.
Qed.

Lemma lacks_fmt_d n : 0 ≤ n → lacks "$" (fmt_d n).
Proof.
  intros Hn. destruct (fmt_d_shape n Hn) as (x & <- & [[-> Hx]|[-> Hx]]).
  - by intros [|[]].
  - intros H. eapply (digits_pretty_go (λ c, c ≠ "$"%char)); [| |exact H|done].
    + by intros c Hc ->.
    + intros c [].
Qed.

Definition params_ok (p : argonParams) : Prop :=
  0 ≤ memory p < 2 ^ 32 ∧ 0 ≤ iterations p < 2 ^ 32 ∧ 0 ≤ parallelism p < 2 ^ 8 ∧ 0 < keyLen p < 2 ^ 32.

(** The key that [argon2.IDKey] derives has the length it was asked for. *)
Definition IDKey_law (IDKey : string → string → Z → Z → Z → Z → string) : Prop :=
  ∀ pw salt t m p n, 0 < n → Z.of_nat (String.length (IDKey pw salt t m p n)) = n.

Lemma split_hash IDKey salt pw p : params_ok p →
  split_on "$" (hashPassword IDKey salt pw p) =
  [""%string; "argon2id"%string; "v=19"%string;
   "m=" +:+ fmt_d (memory p) +:+ ",t=" +:+ fmt_d (iterations p) +:+ ",p=" +:+ fmt_d (parallelism p);
   EncodeToString RawStdEncoding salt;
   EncodeToString RawStdEncoding (IDKey pw salt (iterations p) (memory p) (parallelism p) (keyLen p))].
Proof.
  intros (Hm & Ht & Hp & Hk).
  set (P := "m=" +:+ _). set (S := EncodeToString _ salt). set (K := EncodeToString _ (IDKey _ _ _ _ _ _)).
  assert (hashPassword IDKey salt pw p = EmptyString +:+ String "$" ("argon2id" +:+ String "$"
    ("v=19" +:+ String "$" (P +:+ String "$" (S +:+ String "$" K))))) as ->.
  { unfold P, hashPassword. rewrite !string_app_assoc. reflexivity. }
  rewrite split_on_app by (by intros []).
  rewrite split_on_app by (intros H; repeat (destruct H as [H|H]; [done|]); done).
  rewrite split_on_app by (intros H; repeat (destruct H as [H|H]; [done|]); done).
  rewrite split_on_app.
  2: { unfold P. repeat apply lacks_app; try (apply lacks_fmt_d; lia);
         intros H; repeat (destruct H as [H|H]; [done|]); done. }
  rewrite split_on_app by apply lacks_encode. by rewrite split_on_none by apply lacks_encode.
Qed.

Lemma verify_hash IDKey salt pw pw' p : IDKey_law IDKey → params_ok p →
  verifyPassword IDKey pw' (hashPassword IDKey salt pw p) =
  Ok (bool_decide (IDKey pw' salt (iterations p) (memory p) (parallelism p) (keyLen p) =
                   IDKey pw salt (iterations p) (memory p) (parallelism p) (keyLen p))).
Proof.
  intros Hlaw Hp. unfold verifyPassword. rewrite split_hash by done.
  destruct Hp as (Hm & Ht & Hpar & Hk). cbn [negb String.eqb].
  change (s ← parse_lit "v=" "v=19"; scanInt s) with (Some (19, EmptyString)). cbv iota beta.
  change (negb (19 =? argon2_Version)) with false. cbv iota.
  rewrite scan_params_fmt by done. cbv iota beta. rewrite !decode_encode.
  pose proof (Hlaw pw salt (iterations p) (memory p) (parallelism p) (keyLen p)) as Hlen.
  destruct (IDKey pw salt _ _ _ _) as [|c k] eqn:Hkey; [simpl in Hlen; lia|]. cbv iota.
  rewrite Hlen, Z.mod_small by lia. done.
Qed.

(** What is stored for the admin password verifies exactly the passwords that derive the same
    key: [verifyPassword] takes the text that [hashPassword] wrote apart into the salt, the cost
    parameters and the key it was made of, whatever bytes these are, and answers without an error.
    The password itself is accepted. *)
Theorem stored_password_verifies IDKey salt pw pw' p : IDKey_law IDKey → params_ok p →
  verifyPassword IDKey pw (hashPassword IDKey salt pw p) = Ok true ∧
  (verifyPassword IDKey pw' (hashPassword IDKey salt pw p) = Ok true ↔
   IDKey pw' salt (iterations p) (memory p) (parallelism p) (keyLen p) =
   IDKey pw salt (iterations p) (memory p) (parallelism p) (keyLen p)) ∧
  is_ok (verifyPassword IDKey pw' (hashPassword IDKey salt pw p)) = true.
Proof.
  intros Hlaw Hp. rewrite !verify_hash by done. rewrite bool_decide_eq_true_2 by done.
  split; [done|]. split; [|done]. split; [|by intros ->; rewrite bool_decide_eq_true_2].
  intros [= H]. by apply bool_decide_eq_true_1 in H.
Qed.

(** A derivation for concrete runs: the password and the salt, cut to the length asked for. *)
Fixpoint pad_to (n : nat) (s : string) : string :=
  match n, s with
  | O, _ => EmptyString
  | S n', String c s' => String c (pad_to n' s')
  | S n', EmptyString => String "." (pad_to n' EmptyString)
  end.
Definition toy_key (pw salt : string) (t m p n : Z) : string := pad_to (Z.to_nat n) (pw +:+ salt).

Lemma toy_key_law : IDKey_law toy_key.
Proof.
  intros pw salt t m p n Hn. unfold toy_key.
  assert (∀ k s, String.length (pad_to k s) = k) as H.
  { induction k as [|k IH]; [done|]. intros [|c s]; simpl; by rewrite IH. }
  rewrite H. lia.
Qed.

Lemma stored_password_verifies_witness :
  verifyPassword toy_key "hunter2" (hashPassword toy_key "salty" "hunter2" defaultArgonParams) = Ok true ∧
  verifyPassword toy_key "hunter3" (hashPassword toy_key "salty" "hunter2" defaultArgonParams) ≠ Ok true.
Proof.
  destruct (stored_password_verifies toy_key "salty" "hunter2" "hunter3" defaultArgonParams) as (H & E & _).
  - exact toy_key_law.
  - vm_compute. repeat split; discriminate.
  - split; [exact H|]. intros H'. apply E in H'. vm_compute in H'. discriminate H'.
Defined.

(** A hash whose key is missing admits nobody. *)
Example empty_key_refused :
  is_ok (verifyPassword toy_key "x" "$argon2id$v=19$m=65536,t=3,p=2$c2FsdA$") = false.
Proof. vm_compute. reflexivity. Qed.
Example malformed_refused : is_ok (verifyPassword toy_key "x" "hunter2") = false.
Proof. vm_compute. reflexivity. Qed.
