(* ===== verification/AuthErrors.v ===== *)
(** * AuthErrors: how authentication refuses

    The sentinel errors and error types of core/internal/auth and of the credential tables in
    core/internal/store, with the sentences that their [Error] methods write; and the monad of a
    fallible operation on a state. *)

From Stdlib Require Import String Ascii.
From S2P Require Import Prelude.

Inductive AuthError : Type :=
  | ErrAlreadyConfigured | ErrNoPassword | ErrBadPassword | ErrRateLimited
  | ErrNoSession | ErrSessionExpired | ErrWeakPassword | ErrNoCredential
  | ErrLastCredential (presented : string) (elsewhere : list string)
  | ErrSelfRemoval (detail : string)
  | ErrLastPasskey (presented : string) (elsewhere : list string) (hasPassword : bool)
  | ErrRPIDMismatch (registered presented : string)
  | ErrUnsupportedRPID (rpID : string)
  | ErrNoChallenge | ErrNoProof | ErrProofNotForThis | ErrUnknownScopeDevice | ErrScopeMismatch
  | ErrDisclosureUnset | ErrCredentialRevoked
  | ErrEnrolmentUnknown | ErrEnrolmentExpired | ErrEnrolmentSpent | ErrEnrolmentRevoked
  | ErrEnrolmentScopeUnset | ErrEnrolmentAdminScope | ErrEnrolmentWrongDevice | ErrEnrolmentNotFound
  | ErrScopeUnset | ErrScopeConflict
  | ErrOther (msg : string).    (* from the database, a library or [fmt.Errorf] *)

#[global] Instance AuthError_eq_dec : EqDecision AuthError.
Proof. solve_decision. Defined.

Definition ErrLastCredential_Error (presented : string) (elsewhere : list string) : string :=
  match elsewhere with
  | [] => "removing the password would leave no way to sign in: this quince holds no passkey for " +:+
          quote presented +:+ ". Add a passkey first."
  | _ => "removing the password would leave no way to sign in at " +:+ quote presented +:+
         ": the passkeys this quince holds are registered for " +:+ join elsewhere ", " +:+
         ", and a passkey only works at the address it was created on. Add a passkey for " +:+
         quote presented +:+ " first."
  end.

Definition ErrLastPasskey_Error (presented : string) (elsewhere : list string) (hasPassword : bool) : string :=
  if hasPassword then
    match elsewhere with
    | [] => "a passkey cannot authorise its own removal, and this quince holds no other passkey for " +:+
            quote presented +:+ ". Confirm with your password instead."
    | _ => "a passkey cannot authorise its own removal, and the other passkeys this quince holds are registered for " +:+
           join elsewhere ", " +:+
           " — a passkey only works at the address it was created on. Confirm with your password instead."
    end
  else
    match elsewhere with
    | [] => "removing this passkey would leave no way to sign in: this quince has no password, and no other passkey for " +:+
            quote presented +:+ ". Set a password first, or add another passkey."
    | _ => "removing this passkey would leave no way to sign in at " +:+ quote presented +:+
           ": this quince has no password, and the passkeys it would still hold are registered for " +:+
           join elsewhere ", " +:+
           " — a passkey only works at the address it was created on. Set a password first, or add a passkey for " +:+
           quote presented +:+ "."
    end.

Definition ErrRPIDMismatch_Error (registered presented : string) : string :=
  "this passkey was registered for " +:+ quote registered +:+ " and you are on " +:+ quote presented +:+
  " — passkeys are bound to the address you set them up on. Sign in with your password, then add a passkey for this address.".

Definition ErrUnsupportedRPID_Error (rpID : string) : string :=
  "passkeys need a domain name, and this quince was reached at " +:+ quote rpID +:+
  ". Reach it by a hostname over https — a reverse proxy or Tailscale — and try again.".

(** ** Fallible operations on a state *)

Inductive outcome (A : Type) : Type :=
  | Done (a : A)
  | Refuse (e : AuthError).
Arguments Done {A} _.
Arguments Refuse {A} _.

Definition done_ok {A} (o : outcome A) : bool := match o with Done _ => true | Refuse _ => false end.

(** [x, err := m; if err != nil { return err }; k x]. *)
Definition try_bind {S A B} (m : stateM S (outcome A)) (k : A → stateM S (outcome B)) : stateM S (outcome B) :=
  r ← m; match r with Done a => k a | Refuse e => mret (Refuse e) end.

Definition done {S A} (a : A) : stateM S (outcome A) := mret (Done a).
Definition refuse {S A} (e : AuthError) : stateM S (outcome A) := mret (Refuse e).

Notation "'let!' x := m 'in' k" := (try_bind m (λ x, k))
  (at level 10, x pattern, m at level 100, k at level 200) : quince_scope.
Notation "m ;;! k" := (try_bind m (λ _, k)) (at level 100, k at level 200, right associativity) : quince_scope.

(** A rule for each shape of computation; [wpo] also holds of the refusals. *)
Lemma wp_try {S A B} (m : stateM S (outcome A)) (k : A → stateM S (outcome B)) Q s :
  wp m (λ r s', match r with Done a => wp (k a) Q s' | Refuse e => Q (Refuse e) s' end) s →
  wp (try_bind m k) Q s.
Proof.
  intros H. apply wp_bind. eapply wp_mono; [exact H|]. intros [a|e] s' Hr; [exact Hr|exact Hr].
Qed.

Lemma wp_done {S A} (a : A) (Q : outcome A → S → Prop) s : Q (Done a) s → wp (done a) Q s.
Proof. exact (λ H, H). Qed.
Lemma wp_refuse {S A} e (Q : outcome A → S → Prop) s : Q (Refuse e) s → wp (refuse e) Q s.
Proof. exact (λ H, H). Qed.
