(* ===== verification/Limiter.v ===== *)
(** * Limiter: login rate limiting

    Models core/internal/auth/ratelimit.go: a fixed-window counter per client address, with the
    sweep that forgets idle addresses. *)

From Stdlib Require Import String Ascii.
From S2P Require Import Prelude.

Record loginBucket : Type := mkBucket { count : Z; windowStart : time }.

Record loginLimiter : Type := mkLimiter {
  max_attempts : Z; window : duration; buckets : gmap string loginBucket; lastSweep : time }.

Definition newLoginLimiter (max : Z) (window : duration) : loginLimiter :=
  mkLimiter max window ∅ zero_time.

Definition set_buckets (b : gmap string loginBucket) (l : loginLimiter) : loginLimiter :=
  mkLimiter (max_attempts l) (window l) b (lastSweep l).

Definition elapsed (w : duration) (now : time) (b : loginBucket) : Prop := w < time_sub now (windowStart b).

#[global] Instance elapsed_dec w now b : Decision (elapsed w now b).
Proof. unfold elapsed. apply _. Defined.

Definition sweep (now : time) (l : loginLimiter) : loginLimiter :=
  if time_sub now (lastSweep l) <? window l then l
  else mkLimiter (max_attempts l) (window l)
         (filter (λ ib, ¬ elapsed (window l) now ib.2) (buckets l)) now.

(** The bucket an attempt counts in: the address's own while its window is open. *)
Definition current_bucket (w : duration) (now : time) (b : option loginBucket) : loginBucket :=
  match b with
  | Some b => if w <? time_sub now (windowStart b) then mkBucket 0 now else b
  | None => mkBucket 0 now
  end.

Definition allow (ip : string) (now : time) (l : loginLimiter) : bool * loginLimiter :=
  let l := sweep now l in
  let b := current_bucket (window l) now (buckets l !! ip) in
  if max_attempts l <=? count b then (false, set_buckets (<[ip := b]> (buckets l)) l)
  else (true, set_buckets (<[ip := mkBucket (count b + 1) (windowStart b)]> (buckets l)) l).

Definition reset (ip : string) (l : loginLimiter) : loginLimiter :=
  set_buckets (delete ip (buckets l)) l.

(** ** How many attempts get through *)

Inductive limiter_call : Type :=
  | Attempt (ip : string) (now : time)
  | Forget (ip : string).

(** The attempts from [ip] that a sequence of calls lets through. *)
Fixpoint let_through (ip : string) (calls : list limiter_call) (l : loginLimiter) : Z :=
  match calls with
  | [] => 0
  | Attempt ip' now :: calls =>
      let '(ok, l') := allow ip' now l in
      (if bool_decide (ip' = ip) && ok then 1 else 0) + let_through ip calls l'
  | Forget ip' :: calls => let_through ip calls (reset ip' l)
  end.

(** A call within the window that opens at [t0]. *)
Definition within (t0 : time) (w : duration) (c : limiter_call) : Prop :=
  match c with Attempt _ now => t0 ≤ now ≤ t0 + w | Forget _ => True end.

#[global] Instance within_dec t0 w c : Decision (within t0 w c).
Proof. destruct c; simpl; apply _. Defined.

(** How often the count of [ip] is cleared. *)
Definition is_reset (ip : string) (c : limiter_call) : bool :=
  match c with Forget ip' => bool_decide (ip' = ip) | Attempt _ _ => false end.
Definition resets (ip : string) (calls : list limiter_call) : Z :=
  Z.of_nat (length (filter (λ c, is_reset ip c = true) calls)).

Definition duration_ok (w : duration) : Prop := 0 ≤ w ≤ int64_max.

Lemma not_elapsed w t0 now b : duration_ok w → t0 ≤ windowStart b → now ≤ t0 + w → ¬ elapsed w now b.
Proof. unfold duration_ok, elapsed, time_sub, int64_min, int64_max. lia. Qed.

Lemma sweep_window now l : window (sweep now l) = window l ∧ max_attempts (sweep now l) = max_attempts l.
Proof. unfold sweep. by case_match. Qed.

Lemma limiter_sweep_lookup now l ip :
  buckets (sweep now l) !! ip = buckets l !! ip ∨
  ∃ b, buckets l !! ip = Some b ∧ elapsed (window l) now b ∧ buckets (sweep now l) !! ip = None.
Proof.
  unfold sweep. case_match; [by left|]. simpl. destruct (buckets l !! ip) as [b|] eqn:Hb.
  - destruct (decide (elapsed (window l) now b)) as [He|He].
    + right. exists b. split; [done|]. split; [done|]. apply map_lookup_filter_None. right.
      intros b' Hb'. simplify_eq. auto.
    + left. by apply map_lookup_filter_Some.
  - left. apply map_lookup_filter_None. by left.
Qed.

(** What one attempt does to the bucket of its address, and to the others. *)
Lemma allow_window ip now l :
  window (allow ip now l).2 = window l ∧ max_attempts (allow ip now l).2 = max_attempts l.
Proof. unfold allow. destruct (sweep_window now l). by case_match. Qed.

Lemma allow_other ip ip' now l : ip ≠ ip' →
  buckets (allow ip' now l).2 !! ip = buckets (sweep now l) !! ip.
Proof. intros Hne. unfold allow. case_match; simpl; by rewrite lookup_insert_ne. Qed.

Lemma allow_own ip now l :
  let b := current_bucket (window l) now (buckets (sweep now l) !! ip) in
  let ok := negb (max_attempts l <=? count b) in
  (allow ip now l).1 = ok ∧
  buckets (allow ip now l).2 !! ip =
    Some (mkBucket (if ok then count b + 1 else count b) (windowStart b)).
Proof.
  intros b ok. unfold allow. destruct (sweep_window now l) as [Hw Hm]. rewrite Hw, Hm. fold b.
  unfold ok. destruct (max_attempts l <=? count b); simpl; rewrite lookup_insert_eq; [|done].
  by destruct b.
Qed.

(** What an address has left in a window that opens at [t0]: the rest of a bucket that opened in it;
    of a bucket that was there before, its rest and a whole new one. *)
Definition left_over (ip : string) (t0 : time) (l : loginLimiter) : Z :=
  match buckets l !! ip with
  | None => max_attempts l
  | Some b => if t0 <=? windowStart b then Z.max 0 (max_attempts l - count b)
              else 2 * max_attempts l - Z.min (max_attempts l) (count b)
  end.

Lemma left_over_nonneg ip t0 l : 0 ≤ max_attempts l → 0 ≤ left_over ip t0 l.
Proof. intros Hm. unfold left_over. repeat case_match; lia. Qed.

Lemma left_over_sweep ip t0 now l : duration_ok (window l) → 0 ≤ max_attempts l → now ≤ t0 + window l →
  left_over ip t0 (sweep now l) ≤ left_over ip t0 l.
Proof.
  intros Hw Hm Hnow. unfold left_over. destruct (sweep_window now l) as [_ ->].
  destruct (limiter_sweep_lookup now l ip) as [->|(b & -> & He & ->)]; [lia|].
  destruct (Z.leb_spec t0 (windowStart b)); [by destruct (not_elapsed (window l) t0 now b)|lia].
Qed.

(** An attempt that is let through uses up one. *)
Lemma left_over_attempt ip t0 now l : duration_ok (window l) → 0 ≤ max_attempts l → t0 ≤ now ≤ t0 + window l →
  (if (allow ip now l).1 then 1 else 0) + left_over ip t0 (allow ip now l).2 ≤ left_over ip t0 l.
Proof.
  intros Hw Hm Hnow. pose proof (left_over_sweep ip t0 now l Hw Hm ltac:(lia)) as Hsweep.
  pose proof (allow_window ip now l) as [_ Hm']. pose proof (allow_own ip now l) as [-> Hl'].
  unfold left_over at 1. rewrite Hl', Hm'. cbn [count windowStart]. clear Hl' Hm'.
  enough ((if negb (max_attempts l <=? count (current_bucket (window l) now (buckets (sweep now l) !! ip))) then 1 else 0) +
    (let b := current_bucket (window l) now (buckets (sweep now l) !! ip) in
     let n := if negb (max_attempts l <=? count b) then count b + 1 else count b in
     if t0 <=? windowStart b then Z.max 0 (max_attempts l - n) else 2 * max_attempts l - Z.min (max_attempts l) n)
    ≤ left_over ip t0 (sweep now l)) by (cbv zeta in *; lia).
  unfold left_over. destruct (sweep_window now l) as [_ ->].
  destruct (buckets (sweep now l) !! ip) as [b|]; cbn [current_bucket]; cbv zeta.
  - destruct (Z.ltb_spec (window l) (time_sub now (windowStart b))) as [He|_]; cbn [count windowStart].
    + destruct (Z.leb_spec t0 (windowStart b)); [by destruct (not_elapsed (window l) t0 now b); [| |lia|]|].
      destruct (Z.leb_spec (max_attempts l) 0), (Z.leb_spec t0 now); cbn [negb]; lia.
    + destruct (Z.leb_spec (max_attempts l) (count b)), (Z.leb_spec t0 (windowStart b)); cbn [negb]; lia.
  - cbn [count windowStart]. destruct (Z.leb_spec (max_attempts l) 0), (Z.leb_spec t0 now); cbn [negb]; lia.
Qed.

Lemma left_over_other ip ip' t0 now l : ip' ≠ ip → duration_ok (window l) → 0 ≤ max_attempts l →
  now ≤ t0 + window l → left_over ip t0 (allow ip' now l).2 ≤ left_over ip t0 l.
Proof.
  intros Hne Hw Hm Hnow. etrans; [|by apply (left_over_sweep ip t0 now)]. unfold left_over.
  rewrite allow_other by done. destruct (allow_window ip' now l) as [_ ->], (sweep_window now l) as [_ ->]. lia.
Qed.

Lemma resets_cons ip c calls : resets ip (c :: calls) = (if is_reset ip c then 1 else 0) + resets ip calls.
Proof. unfold resets. rewrite filter_cons. destruct (is_reset ip c); simpl; lia. Qed.

Lemma left_over_bound ip t0 calls : ∀ l,
  duration_ok (window l) → 0 ≤ max_attempts l → Forall (within t0 (window l)) calls →
  let_through ip calls l ≤ left_over ip t0 l + resets ip calls * max_attempts l.
Proof.
  induction calls as [|[ip' now|ip'] calls IH]; intros l Hw Hmax Hc; [|apply Forall_cons in Hc as [Hnow Hc]; simpl in Hnow..].
  - change (resets ip []) with 0. pose proof (left_over_nonneg ip t0 l Hmax). simpl. lia.
  - rewrite resets_cons. cbn [is_reset let_through]. pose proof (allow_window ip' now l) as [Hw' Hm'].
    specialize (IH (allow ip' now l).2). rewrite Hw', Hm' in IH. specialize (IH Hw Hmax Hc).
    pose proof (left_over_attempt ip t0 now l Hw Hmax Hnow) as Hown.
    pose proof (λ Hne, left_over_other ip ip' t0 now l Hne Hw Hmax (proj2 Hnow)) as Hother.
    destruct (allow ip' now l) as [ok l'] eqn:E. cbn [fst snd] in *.
    destruct (bool_decide_reflect (ip' = ip)) as [->|Hne]; cbn [andb].
    + rewrite E in Hown. cbn [fst snd] in Hown. lia.
    + specialize (Hother Hne). lia.
  - rewrite resets_cons. cbn [is_reset let_through]. specialize (IH (reset ip' l) Hw Hmax Hc).
    change (max_attempts (reset ip' l)) with (max_attempts l) in IH.
    pose proof (left_over_nonneg ip t0 l Hmax) as H0.
    destruct (bool_decide_reflect (ip' = ip)) as [->|Hne]; unfold left_over in *; simpl in IH.
    + rewrite lookup_delete_eq in IH. lia.
    + by rewrite lookup_delete_ne in IH.
Qed.

(** C21: Whatever other clients do, and however the limiter's sweep falls, the attempts from one
    address that reach a credential check within any stretch of time no longer than the window are
    at most twice the limit, and once the limit more for each time that a successful login cleared the
    address's count in it.  (Ten a minute is the setting: the two halves of a straddled boundary make
    twenty.) *)
Theorem login_rate_bounded ip t0 calls l :
  duration_ok (window l) → 0 ≤ max_attempts l →
  (∀ b, buckets l !! ip = Some b → 0 ≤ count b) →
  Forall (within t0 (window l)) calls →
  let_through ip calls l ≤ (2 + resets ip calls) * max_attempts l.
Proof.
  intros Hw Hmax Hcount Hc. etrans; [by apply (left_over_bound ip t0)|].
  unfold left_over. destruct (buckets l !! ip) as [b|]; [specialize (Hcount b eq_refl); case_match|]; lia.
Qed.

(** Twelve quick attempts against a limit of ten, a successful login among them after the eleventh,
    from a limiter that has seen nothing. *)
Definition burst : list limiter_call :=
  ((λ i, Attempt "10.0.0.9" (i * Second)) <$> seqZ 0 11) ++ [Forget "10.0.0.9"; Attempt "10.0.0.9" (11 * Second)].

Lemma login_rate_bounded_witness :
  let_through "10.0.0.9" burst (newLoginLimiter 10 Minute) ≤ (2 + resets "10.0.0.9" burst) * 10 ∧
  resets "10.0.0.9" burst = 1 ∧ let_through "10.0.0.9" burst (newLoginLimiter 10 Minute) = 11.
Proof.
  split; [|vm_compute; done].
  apply (login_rate_bounded "10.0.0.9" 0 burst (newLoginLimiter 10 Minute)).
  - vm_compute. split; discriminate.
  - vm_compute. discriminate.
  - intros b. simpl. by rewrite lookup_empty.
  - apply (bool_decide_unpack _). vm_compute. exact I.
Defined.
