(* ===== verification/Net.v ===== *)
(** * Net: addresses, as Go's net package reads and writes them

    What core/internal/auth uses of package net: [SplitHostPort], [ParseIP], [ParseCIDR],
    [IPNet.Contains], [IP.IsLoopback] and [IP.String].  An address is its 16 bytes, an IPv4 one in
    its mapped form ::ffff:a.b.c.d. *)

From Stdlib Require Import String Ascii.
From S2P Require Import Prelude.

Definition IP : Type := list Z.

(** ** [ParseIP] *)

(** The four fields of a dotted quad; [digLen] digits of [val] are read, fields [pos] done. *)
Fixpoint ipv4_fields (s : string) (digLen : nat) (val : Z) (fields : list Z) : option (list Z) :=
  match s with
  | EmptyString =>
      if bool_decide (digLen = 0)%nat || negb (bool_decide (length fields = 3)%nat) then None
      else Some (fields ++ [val])
  | String c s' =>
      if is_digit c then
        if bool_decide (digLen = 1)%nat && (val =? 0) then None
        else let val := val * 10 + digit_value c in
             if 255 <? val then None else ipv4_fields s' (S digLen) val fields
      else if Z_of_char c =? 46 then
        if bool_decide (digLen = 0)%nat || bool_decide (length fields = 3)%nat then None
        else ipv4_fields s' 0 0 (fields ++ [val])
      else None
  end.
Definition parseIPv4Fields (s : string) : option (list Z) := ipv4_fields s 0 0 [].

Definition hex_value (c : ascii) : option Z :=
  let n := Z_of_char c in
  if is_digit c then Some (digit_value c)
  else if (97 <=? n) && (n <=? 102) then Some (n - 87)
  else if (65 <=? n) && (n <=? 70) then Some (n - 55)
  else None.

(** At most four hexadecimal digits: how many, their value, and what follows. *)
Fixpoint hex_group (off : nat) (acc : Z) (s : string) : option (nat * Z * string) :=
  match s with
  | EmptyString => Some (off, acc, s)
  | String c s' =>
      match hex_value c with
      | None => Some (off, acc, s)
      | Some d => if bool_decide (3 < off)%nat then None else hex_group (S off) (acc * 16 + d) s'
      end
  end.

(** The groups from [s] on: the bytes so far, and how many of them the ellipsis follows.
    [fuel] is the number of groups that still fit. *)
Fixpoint ipv6_groups (fuel : nat) (s : string) (ip : list Z) (ellipsis : option nat) :
    option (list Z * option nat * string) :=
  match fuel with
  | O => Some (ip, ellipsis, s)
  | S fuel' =>
      '(off, acc, rest) ← hex_group 0 0 s;
      if bool_decide (off = 0)%nat then None
      else match rest with
      | EmptyString => Some (ip ++ [acc / 256; acc `mod` 256], ellipsis, EmptyString)
      | String c rest' =>
          if Z_of_char c =? 46 then
            if negb (bool_decide (is_Some ellipsis)) && negb (bool_decide (length ip = 12)%nat) then None
            else if bool_decide (12 < length ip)%nat then None
            else v4 ← parseIPv4Fields s; Some (ip ++ v4, ellipsis, EmptyString)
          else if negb (Z_of_char c =? 58) then None
          else let ip := ip ++ [acc / 256; acc `mod` 256] in
          match rest' with
          | EmptyString => None
          | String c2 rest'' =>
              if Z_of_char c2 =? 58 then
                if bool_decide (is_Some ellipsis) then None
                else match rest'' with
                     | EmptyString => Some (ip, Some (length ip), EmptyString)
                     | _ => ipv6_groups fuel' rest'' ip (Some (length ip))
                     end
              else ipv6_groups fuel' rest' ip ellipsis
          end
      end
  end.

Definition parseIPv6 (s : string) : option IP :=
  let finish (r : list Z * option nat * string) : option IP :=
    let '(ip, ellipsis, rest) := r in
    if negb (String.eqb rest EmptyString) then None
    else match ellipsis with
         | None => if bool_decide (length ip < 16)%nat then None else Some ip
         | Some e => if bool_decide (length ip < 16)%nat
                     then Some (take e ip ++ replicate (16 - length ip) 0 ++ drop e ip) else None
         end in
  match s with
  | String a (String b s') =>
      if (Z_of_char a =? 58) && (Z_of_char b =? 58) then
        match s' with
        | EmptyString => Some (replicate 16 0)
        | _ => r ← ipv6_groups 8 s' [] (Some 0%nat); finish r
        end
      else r ← ipv6_groups 8 s [] None; finish r
  | _ => r ← ipv6_groups 8 s [] None; finish r
  end.

Definition v4_prefix : list Z := replicate 10 0 ++ [255; 255].

(** The first of '.', ':' and '%' decides; an address with a zone is not an IP. *)
Fixpoint first_mark (s : string) : option Z :=
  match s with
  | EmptyString => None
  | String c s' => let n := Z_of_char c in
      if (n =? 46) || (n =? 58) || (n =? 37) then Some n else first_mark s'
  end.

Definition ParseIP (s : string) : option IP :=
  match first_mark s with
  | Some 46 => v4 ← parseIPv4Fields s; Some (v4_prefix ++ v4)
  | Some 58 => if str_contains s "%" then None else parseIPv6 s
  | _ => None
  end.

Example parse_v4 : ParseIP "192.168.1.20" = Some (v4_prefix ++ [192; 168; 1; 20]).
Proof. vm_compute. reflexivity. Qed.
Example parse_leading_zero : ParseIP "192.168.01.20" = None.
Proof. vm_compute. reflexivity. Qed.
Example parse_v6 : ParseIP "fe80::1" = Some (254 :: 128 :: replicate 13 0 ++ [1]).
Proof. vm_compute. reflexivity. Qed.
Example parse_mapped : ParseIP "::ffff:10.0.0.1" = ParseIP "10.0.0.1".
Proof. vm_compute. reflexivity. Qed.
Example parse_trailing : ParseIP "1:2:3:4:5:6:7:8:" = None ∧ ParseIP "1:2:3:4:5:6:7::" ≠ None.
Proof. vm_compute. split; [reflexivity|discriminate]. Qed.
Example parse_hostname : ParseIP "quince.example.com" = None.
Proof. vm_compute. reflexivity. Qed.

(** ** [SplitHostPort] *)

Fixpoint last_index (c : Z) (s : string) (i : nat) (found : option nat) : option nat :=
  match s with
  | EmptyString => found
  | String a s' => last_index c s' (S i) (if Z_of_char a =? c then Some i else found)
  end.
Fixpoint index_byte (c : Z) (s : string) (i : nat) : option nat :=
  match s with
  | EmptyString => None
  | String a s' => if Z_of_char a =? c then Some i else index_byte c s' (S i)
  end.
Definition str_take (n : nat) (s : string) : string := String.substring 0 n s.
Definition str_drop (n : nat) (s : string) : string := String.substring n (String.length s - n) s.
Definition has_byte (c : Z) (s : string) : bool := bool_decide (is_Some (index_byte c s 0)).

Definition SplitHostPort (hostport : string) : option (string * string) :=
  i ← last_index 58 hostport 0 None;
  let port := str_drop (S i) hostport in
  if has_prefix hostport "[" then
    close ← index_byte 93 hostport 0;
    if negb (bool_decide (S close = i)) then None
    else if has_byte 91 (str_drop 1 hostport) || has_byte 93 (str_drop (S close) hostport) then None
    else Some (str_take (close - 1) (str_drop 1 hostport), port)
  else
    let host := str_take i hostport in
    if has_byte 58 host || has_byte 91 hostport || has_byte 93 hostport then None
    else Some (host, port).

Example split_name : SplitHostPort "quince.local:8443" = Some ("quince.local", "8443")%string.
Proof. vm_compute. reflexivity. Qed.
Example split_v6 : SplitHostPort "[fe80::1]:8443" = Some ("fe80::1", "8443")%string.
Proof. vm_compute. reflexivity. Qed.
Example split_bare : SplitHostPort "quince.local" = None ∧ SplitHostPort "fe80::1" = None.
Proof. vm_compute. split; reflexivity. Qed.

(** ** Networks *)

(** [IP.To4]: the last four bytes of a mapped address, and an address of four bytes itself. *)
Definition To4 (ip : list Z) : option (list Z) :=
  if bool_decide (length ip = 4)%nat then Some ip
  else if bool_decide (length ip = 16)%nat && bool_decide (take 12 ip = v4_prefix) then Some (drop 12 ip)
  else None.

Definition IsLoopback (ip : IP) : bool :=
  match To4 ip with
  | Some v4 => bool_decide (head v4 = Some 127)
  | None => bool_decide (ip = replicate 15 0 ++ [1])
  end.

(** [CIDRMask ones bits]: [ones] one bits, then zeroes. *)
Definition mask_byte (n : Z) : Z := 255 - (2 ^ (8 - Z.max 0 (Z.min 8 n)) - 1).
Definition CIDRMask (ones bits : Z) : list Z :=
  (λ i, mask_byte (ones - 8 * i)) <$> seqZ 0 (bits / 8).

Record IPNet : Type := mkIPNet { in_IP : list Z; in_Mask : list Z }.

Definition mask_bytes (ip m : list Z) : list Z := zip_with Z.land ip m.

(** [networkNumberAndMask]. *)
Definition network (n : IPNet) : option (list Z * list Z) :=
  ip ← (match To4 (in_IP n) with
        | Some v4 => Some v4
        | None => if bool_decide (length (in_IP n) = 16)%nat then Some (in_IP n) else None
        end);
  if bool_decide (length (in_Mask n) = 4)%nat then
    if bool_decide (length ip = 4)%nat then Some (ip, in_Mask n) else None
  else if bool_decide (length (in_Mask n) = 16)%nat then
    Some (ip, if bool_decide (length ip = 4)%nat then drop 12 (in_Mask n) else in_Mask n)
  else None.

Definition Contains (n : IPNet) (ip : IP) : bool :=
  match network n with
  | None => false
  | Some (nn, m) =>
      let ip := default ip (To4 ip) in
      bool_decide (length ip = length nn) && bool_decide (mask_bytes nn m = mask_bytes ip m)
  end.

(** [netip.ParseAddr] without a zone: the bytes, and their number of bits. *)
Definition ParseAddr (s : string) : option (list Z * Z) :=
  match first_mark s with
  | Some 46 => v4 ← parseIPv4Fields s; Some (v4, 32)
  | Some 58 => if str_contains s "%" then None else ip ← parseIPv6 s; Some (ip, 128)
  | _ => None
  end.

(** [dtoi] of a whole text. *)
Fixpoint dtoi (n : Z) (s : string) : option Z :=
  match s with
  | EmptyString => Some n
  | String c s' =>
      if is_digit c then let n := n * 10 + digit_value c in if 16777215 <=? n then None else dtoi n s'
      else None
  end.

Definition ParseCIDR (s : string) : option IPNet :=
  i ← index_byte 47 s 0;
  '(ip, bits) ← ParseAddr (str_take i s);
  let mask := str_drop (S i) s in
  if String.eqb mask "" then None
  else
    n ← dtoi 0 mask;
    if bits <? n then None
    else let m := CIDRMask n bits in Some (mkIPNet (mask_bytes ip m) m).

(** ** [IP.String] *)

Definition dotted (v4 : list Z) : string := join (fmt_d <$> v4) ".".

Definition hex_digit (d : Z) : ascii := char_of_Z (if d <? 10 then 48 + d else 87 + d).
Fixpoint hex_digits (fuel : nat) (v : Z) (acc : string) : string :=
  match fuel with
  | O => acc
  | S fuel' => let acc := String (hex_digit (v `mod` 16)) acc in
               if v / 16 =? 0 then acc else hex_digits fuel' (v / 16) acc
  end.
(** A group of 16 bits takes four digits. *)
Definition hex_text (v : Z) : string := hex_digits 4 v EmptyString.

Fixpoint groups (ip : list Z) : list Z :=
  match ip with a :: b :: ip' => a * 256 + b :: groups ip' | _ => [] end.

(** How many zero groups the list starts with. *)
Fixpoint zeroes (gs : list Z) : nat :=
  match gs with g :: gs' => if g =? 0 then S (zeroes gs') else 0 | [] => 0 end.

(** The first of the longest runs of two or more zero groups: where it starts, and its length. *)
Fixpoint longest_run (i : nat) (gs : list Z) (best : option (nat * nat)) : option (nat * nat) :=
  match gs with
  | [] => best
  | _ :: gs' =>
      let l := zeroes gs in
      longest_run (S i) gs'
        (if bool_decide (2 ≤ l)%nat && bool_decide (from_option snd 0%nat best < l)%nat then Some (i, l) else best)
  end.

Definition v6_text (ip : IP) : string :=
  let gs := groups ip in
  match longest_run 0 gs None with
  | None => join (hex_text <$> gs) ":"
  | Some (i, l) =>
      join (hex_text <$> take i gs) ":" +:+ "::" +:+ join (hex_text <$> drop (i + l)%nat gs) ":"
  end.

Definition IP_String (ip : IP) : string :=
  match To4 ip with Some v4 => dotted v4 | None => v6_text ip end.

Example contains_v4 :
  (n ← ParseCIDR "10.1.0.0/16"; ip ← ParseIP "10.1.200.3"; Some (Contains n ip)) = Some true ∧
  (n ← ParseCIDR "10.1.0.0/16"; ip ← ParseIP "10.2.0.3"; Some (Contains n ip)) = Some false ∧
  (n ← ParseCIDR "::/0"; ip ← ParseIP "10.2.0.3"; Some (Contains n ip)) = Some false.
Proof. vm_compute. repeat split. Qed.
Example cidr_bad : ParseCIDR "10.0.0.0/33" = None ∧ ParseCIDR "10.0.0.0/" = None ∧ ParseCIDR "10.0.0.0" = None.
Proof. vm_compute. repeat split. Qed.
Example loopback : (IsLoopback <$> ParseIP "127.8.0.1") = Some true ∧ (IsLoopback <$> ParseIP "::1") = Some true ∧
  (IsLoopback <$> ParseIP "10.0.0.1") = Some false.
Proof. vm_compute. repeat split. Qed.
Example ip_strings :
  (IP_String <$> ParseIP "fe80:0:0:0:0:0:0:1") = Some "fe80::1"%string ∧
  (IP_String <$> ParseIP "0:0:1:0:0:0:0:1") = Some "0:0:1::1"%string ∧
  (IP_String <$> ParseIP "::") = Some "::"%string ∧
  (IP_String <$> ParseIP "1::") = Some "1::"%string ∧
  (IP_String <$> ParseIP "::ffff:10.0.0.9") = Some "10.0.0.9"%string.
Proof. vm_compute. repeat split. Qed.
