(* ===== verification/AuthStore.v ===== *)
(** * AuthStore: the tables of credentials

    Models core/internal/store/settings.go, passkeys.go, sessions.go, scope.go, device_identity.go
    and pushsubs.go: the tables beside jobs and versions ([Store]), whose audit log and faults they
    share.  As there, a statement takes effect or fails without effect, and a time column keeps the
    second. *)

From Stdlib Require Import String Ascii.
From S2P Require Import Prelude Store Base64 AuthErrors.

(** A credential's confinement; the zero value states nothing. *)
Record Scope : Type := mkScope { sc_set : bool; sc_udid : string }.
Definition zero_Scope : Scope := mkScope false "".
Definition AdminScope : Scope := mkScope true "".
Definition DeviceScope (udid : string) : Scope := mkScope true udid.
Definition IsAdmin (s : Scope) : bool := sc_set s && String.eqb (sc_udid s) "".
Definition scope_value (s : Scope) : option string :=
  if String.eqb (sc_udid s) "" then None else Some (sc_udid s).

#[global] Instance Scope_eq_dec : EqDecision Scope.
Proof. solve_decision. Defined.

Record Passkey : Type := mkPasskey {
  pk_CredentialID : string;
  pk_PublicKey : string;
  pk_RPID : string;
  pk_SignCount : Z;
  pk_BackupEligible : option bool;
  pk_BackupState : option bool;
  pk_AAGUID : string;
  pk_Transports : string;
  pk_Name : string;
  pk_CreatedAt : time;
  pk_LastUsedAt : time;                (* the zero time: never *)
  pk_ScopeUDID : option string;        (* [None]: admin *)
  pk_UserHandle : option string }.

Record AuthSession : Type := mkSession {
  se_ID : string;
  se_CreatedAt : time;
  se_LastSeenAt : time;
  se_ExpiresAt : time;
  se_CredentialID : option string }.   (* [None]: a password login *)

Record DeviceIdentityRow : Type := mkIdentity {
  di_UDID : string; di_Name : string; di_Model : string; di_IOSVersion : string; di_Paired : string;
  di_BackupEncryption : string; di_WifiSync : string; di_LastSeen : string; di_UpdatedAt : time }.

Record PushSubscription : Type := mkPush {
  ps_ID : string; ps_Endpoint : string; ps_P256DH : string; ps_Auth : string; ps_Label : string;
  ps_Origin : string; ps_CreatedAt : time; ps_ExpiredAt : option time; ps_LastSentAt : option time;
  ps_ScopeUDID : option string }.

Record AuthDB : Type := mkAuthDB {
  ad_settings : gmap string string;
  ad_passkeys : gmap string Passkey;              (* by credential id *)
  ad_sessions : gmap string AuthSession;          (* by id *)
  ad_identities : gmap string DeviceIdentityRow;  (* by udid *)
  ad_push : gmap string PushSubscription;         (* by id *)
  ad_base : DB }.                                 (* jobs, versions, the audit log, faults *)

Definition empty_AuthDB : AuthDB := mkAuthDB ∅ ∅ ∅ ∅ ∅ empty_DB.

Definition with_settings (f : gmap string string → gmap string string) (d : AuthDB) : AuthDB :=
  mkAuthDB (f (ad_settings d)) (ad_passkeys d) (ad_sessions d) (ad_identities d) (ad_push d) (ad_base d).
Definition with_passkeys (f : gmap string Passkey → gmap string Passkey) (d : AuthDB) : AuthDB :=
  mkAuthDB (ad_settings d) (f (ad_passkeys d)) (ad_sessions d) (ad_identities d) (ad_push d) (ad_base d).
Definition with_sessions (f : gmap string AuthSession → gmap string AuthSession) (d : AuthDB) : AuthDB :=
  mkAuthDB (ad_settings d) (ad_passkeys d) (f (ad_sessions d)) (ad_identities d) (ad_push d) (ad_base d).
Definition with_identities (f : gmap string DeviceIdentityRow → gmap string DeviceIdentityRow) (d : AuthDB) : AuthDB :=
  mkAuthDB (ad_settings d) (ad_passkeys d) (ad_sessions d) (f (ad_identities d)) (ad_push d) (ad_base d).
Definition with_push (f : gmap string PushSubscription → gmap string PushSubscription) (d : AuthDB) : AuthDB :=
  mkAuthDB (ad_settings d) (ad_passkeys d) (ad_sessions d) (ad_identities d) (f (ad_push d)) (ad_base d).
Definition with_base (b : DB) (d : AuthDB) : AuthDB :=
  mkAuthDB (ad_settings d) (ad_passkeys d) (ad_sessions d) (ad_identities d) (ad_push d) b.

(** One statement: it fails without effect when the next fault says so. *)
Definition run_sql {A} (m : stateM AuthDB (outcome A)) : stateM AuthDB (outcome A) := λ d,
  let '(r, b) := statement (λ b, (Ok tt, b)) (ad_base d) in
  match r with
  | Ok _ => m (with_base b d)
  | Err msg => (Refuse (ErrOther msg), with_base b d)
  end.

(** A statement that reads, and one that writes and reports something. *)
Definition query {A} (f : AuthDB → A) : stateM AuthDB (outcome A) := run_sql (λ d, (Done (f d), d)).
Definition update {A} (f : AuthDB → A * AuthDB) : stateM AuthDB (outcome A) :=
  run_sql (λ d, let '(a, d') := f d in (Done a, d')).

(** ** Settings *)

Definition GetSetting (key : string) : stateM AuthDB (outcome (option string)) :=
  query (λ d, ad_settings d !! key).

Definition SetSetting (key value : string) : stateM AuthDB (outcome unit) :=
  update (λ d, (tt, with_settings <[key := value]> d)).

Definition DeleteSetting (key : string) : stateM AuthDB (outcome bool) :=
  update (λ d, (bool_decide (is_Some (ad_settings d !! key)), with_settings (delete key) d)).

Definition SetSettingIfAbsent (key value : string) : stateM AuthDB (outcome bool) :=
  update (λ d, match ad_settings d !! key with
    | Some _ => (false, d)
    | None => (true, with_settings <[key := value]> d)
    end).

(** ** Passkeys *)

(** The row that [InsertPasskey] writes. *)
Definition store_passkey (p : Passkey) (scope : Scope) : Passkey :=
  mkPasskey (pk_CredentialID p) (pk_PublicKey p) (pk_RPID p) (pk_SignCount p) (pk_BackupEligible p)
    (pk_BackupState p) (pk_AAGUID p) (pk_Transports p) (pk_Name p) (db_time (pk_CreatedAt p)) zero_time
    (scope_value scope) (pk_UserHandle p).

Definition InsertPasskey (p : Passkey) (scope : Scope) : stateM AuthDB (outcome unit) :=
  if negb (sc_set scope) then refuse ErrScopeUnset
  else if bool_decide (is_Some (pk_ScopeUDID p)) then refuse ErrScopeConflict
  else run_sql (λ d,
    match ad_passkeys d !! pk_CredentialID p with
    | Some _ => (Refuse (ErrOther "UNIQUE constraint failed: passkeys.credential_id"), d)
    | None => (Done tt, with_passkeys <[pk_CredentialID p := store_passkey p scope]> d)
    end).

Definition CountPasskeys : stateM AuthDB (outcome Z) :=
  query (λ d, Z.of_nat (size (ad_passkeys d))).

Definition is_scoped (p : Passkey) : Prop := is_Some (pk_ScopeUDID p).

(** One transaction: it takes effect as a whole. *)
Definition DeleteAllPasskeys : stateM AuthDB (outcome (Z * Z)) :=
  update (λ d, ((Z.of_nat (size (ad_passkeys d)),
                 Z.of_nat (size (filter (λ kp, is_scoped kp.2) (ad_passkeys d)))),
                with_passkeys (λ _, ∅) d)).

Definition GetPasskey (credentialID : string) : stateM AuthDB (outcome (option Passkey)) :=
  query (λ d, ad_passkeys d !! credentialID).

(** [ORDER BY created_at, credential_id]. *)
Definition passkey_asc (a b : Passkey) : Prop :=
  pk_CreatedAt a < pk_CreatedAt b ∨
  (pk_CreatedAt a = pk_CreatedAt b ∧ str_le (pk_CredentialID a) (pk_CredentialID b)).
#[global] Instance passkey_asc_dec : RelDecision passkey_asc.
Proof. intros a b. unfold passkey_asc. apply _. Defined.

Definition passkeys_asc (d : AuthDB) : list Passkey :=
  merge_sort passkey_asc (snd <$> map_to_list (ad_passkeys d)).

Definition ListPasskeys : stateM AuthDB (outcome (list Passkey)) := query passkeys_asc.

(** [WHERE scope_udid IS NULL]. *)
Definition ListAdminPasskeys : stateM AuthDB (outcome (list Passkey)) :=
  query (λ d, filter (λ p, pk_ScopeUDID p = None) (passkeys_asc d)).

Definition touch_passkey (signCount : Z) (backupState : option bool) (usedAt : time) (p : Passkey) : Passkey :=
  mkPasskey (pk_CredentialID p) (pk_PublicKey p) (pk_RPID p) signCount (pk_BackupEligible p) backupState
    (pk_AAGUID p) (pk_Transports p) (pk_Name p) (pk_CreatedAt p) (db_time usedAt) (pk_ScopeUDID p)
    (pk_UserHandle p).

Definition TouchPasskey (credentialID : string) (signCount : Z) (backupState : option bool)
    (usedAt : time) : stateM AuthDB (outcome unit) :=
  update (λ d, (tt, with_passkeys (alter (touch_passkey signCount backupState usedAt) credentialID) d)).

Definition DeletePasskey (credentialID : string) : stateM AuthDB (outcome bool) :=
  update (λ d, (bool_decide (is_Some (ad_passkeys d !! credentialID)),
                with_passkeys (delete credentialID) d)).

Definition rename_passkey (name : string) (p : Passkey) : Passkey :=
  mkPasskey (pk_CredentialID p) (pk_PublicKey p) (pk_RPID p) (pk_SignCount p) (pk_BackupEligible p)
    (pk_BackupState p) (pk_AAGUID p) (pk_Transports p) name (pk_CreatedAt p) (pk_LastUsedAt p)
    (pk_ScopeUDID p) (pk_UserHandle p).

Definition RenamePasskey (credentialID name : string) : stateM AuthDB (outcome bool) :=
  update (λ d, (bool_decide (is_Some (ad_passkeys d !! credentialID)),
                with_passkeys (alter (rename_passkey name) credentialID) d)).

(** ** Sessions *)

Definition store_session (s : AuthSession) : AuthSession :=
  mkSession (se_ID s) (db_time (se_CreatedAt s)) (db_time (se_LastSeenAt s)) (db_time (se_ExpiresAt s))
    (se_CredentialID s).

Definition CreateAuthSession (s : AuthSession) : stateM AuthDB (outcome unit) := run_sql (λ d,
  match ad_sessions d !! se_ID s with
  | Some _ => (Refuse (ErrOther "UNIQUE constraint failed: sessions_auth.id"), d)
  | None => (Done tt, with_sessions <[se_ID s := store_session s]> d)
  end).

Definition GetAuthSession (id : string) : stateM AuthDB (outcome (option AuthSession)) :=
  query (λ d, ad_sessions d !! id).

Definition seen_at (t : time) (s : AuthSession) : AuthSession :=
  mkSession (se_ID s) (se_CreatedAt s) t (se_ExpiresAt s) (se_CredentialID s).

Definition TouchAuthSession (id : string) (lastSeen : time) : stateM AuthDB (outcome unit) :=
  update (λ d, (tt, with_sessions (alter (seen_at (db_time lastSeen)) id) d)).

Definition DeleteAuthSession (id : string) : stateM AuthDB (outcome unit) :=
  update (λ d, (tt, with_sessions (delete id) d)).

Definition DeleteAllAuthSessions : stateM AuthDB (outcome Z) :=
  update (λ d, (Z.of_nat (size (ad_sessions d)), with_sessions (λ _, ∅) d)).

(** The sessions of one credential, the caller's own apart; [None] is the password. *)
Definition session_of (credentialID : option string) (except : string) (s : AuthSession) : Prop :=
  se_CredentialID s = credentialID ∧ se_ID s ≠ except.
#[global] Instance session_of_dec c e s : Decision (session_of c e s).
Proof. unfold session_of. apply _. Defined.

Definition DeleteAuthSessionsFor (credentialID : option string) (except : string) :
    stateM AuthDB (outcome Z) :=
  update (λ d,
    (Z.of_nat (size (filter (λ ks, session_of credentialID except ks.2) (ad_sessions d))),
     with_sessions (filter (λ ks, ¬ session_of credentialID except ks.2)) d)).

(** ** Device identities *)

Definition UpsertDeviceIdentity (r : DeviceIdentityRow) : stateM AuthDB (outcome unit) :=
  update (λ d, (tt, with_identities <[di_UDID r :=
    mkIdentity (di_UDID r) (di_Name r) (di_Model r) (di_IOSVersion r) (di_Paired r) (di_BackupEncryption r)
      (di_WifiSync r) (di_LastSeen r) (db_time (di_UpdatedAt r))]> d)).

(** No [ORDER BY]: the order of the rows is open. *)
Definition ListDeviceIdentities `{!MapRange} : stateM AuthDB (outcome (list DeviceIdentityRow)) :=
  query (λ d, snd <$> range (ad_identities d)).

(** ** The audit log *)

Definition AppendAudit (e : AuditEntry) : stateM AuthDB (outcome unit) := λ d,
  let '(r, b) := Store.AppendAudit e (ad_base d) in
  (match r with None => Done tt | Some msg => Refuse (ErrOther msg) end, with_base b d).

(** ** What a statement does to the tables *)

Definition same_rows (d d' : AuthDB) : Prop :=
  ad_settings d' = ad_settings d ∧ ad_passkeys d' = ad_passkeys d ∧ ad_sessions d' = ad_sessions d ∧
  ad_identities d' = ad_identities d ∧ ad_push d' = ad_push d.

#[global] Instance same_rows_preorder : PreOrder same_rows.
Proof.
  split; [by intros d|]. intros a b c (? & ? & ? & ? & ?) (? & ? & ? & ? & ?).
  repeat split; by etrans.
Qed.

Lemma wp_run_sql {A} (m : stateM AuthDB (outcome A)) Q d :
  (∀ d', same_rows d d' → (∀ msg, Q (Refuse (ErrOther msg)) d') ∧ wp m Q d') →
  wp (run_sql m) Q d.
Proof.
  intros H. unfold wp, run_sql.
  destruct (statement (λ b, (Ok tt, b)) (ad_base d)) as [[[]|msg] b]; apply (H (with_base b d)); done.
Qed.

Lemma wp_query {A} (f : AuthDB → A) Q d :
  (∀ d', same_rows d d' → (∀ msg, Q (Refuse (ErrOther msg)) d') ∧ Q (Done (f d')) d') →
  wp (query f) Q d.
Proof. intros H. apply wp_run_sql. exact H. Qed.

Lemma wp_update {A} (f : AuthDB → A * AuthDB) Q d :
  (∀ d', same_rows d d' → (∀ msg, Q (Refuse (ErrOther msg)) d') ∧ Q (Done (f d').1) (f d').2) →
  wp (update f) Q d.
Proof.
  intros H. apply wp_run_sql. intros d' Hd. destruct (H d' Hd) as [H1 H2]. split; [done|].
  unfold wp. by destruct (f d').
Qed.

Lemma wp_AppendAudit e (Q : outcome unit → AuthDB → Prop) d :
  (∀ r d', same_rows d d' → Q r d') → wp (AppendAudit e) Q d.
Proof. intros H. unfold wp, AppendAudit. destruct (Store.AppendAudit e (ad_base d)) as [r b]. by apply H. Qed.

(** Rows are stored under their own key, and credential ids are canonical base64url. *)
Record rows_ok (d : AuthDB) : Prop := {
  passkeys_keyed : ∀ k p, ad_passkeys d !! k = Some p → pk_CredentialID p = k;
  passkeys_canonical : ∀ k p, ad_passkeys d !! k = Some p → canonical RawURLEncoding k;
  sessions_keyed : ∀ k s, ad_sessions d !! k = Some s → se_ID s = k }.

Lemma empty_rows_ok : rows_ok empty_AuthDB.
Proof. split; intros k x; simpl; by rewrite lookup_empty. Qed.

Lemma elem_of_passkeys_asc d p : p ∈ passkeys_asc d ↔ ∃ k, ad_passkeys d !! k = Some p.
Proof.
  unfold passkeys_asc. rewrite merge_sort_Permutation, list_elem_of_fmap. split.
  - intros ([k q] & -> & H). exists k. by apply elem_of_map_to_list.
  - intros [k H]. exists (k, p). split; [done|]. by apply elem_of_map_to_list.
Qed.

#[export] Hint Resolve empty_rows_ok : quince.

(** * Push subscriptions *)

#[local] Open Scope quince_scope.

Definition Live (p : PushSubscription) : bool := bool_decide (ps_ExpiredAt p = None).

(** The columns that a second subscription of the same endpoint rewrites. *)
Definition revive (p old : PushSubscription) : PushSubscription :=
  mkPush (ps_ID old) (ps_Endpoint old) (ps_P256DH p) (ps_Auth p) (ps_Label p) (ps_Origin p)
    (ps_CreatedAt old) None (ps_LastSentAt old) (ps_ScopeUDID old).

Definition with_endpoint (endpoint : string) (f : PushSubscription → PushSubscription)
    (m : gmap string PushSubscription) : gmap string PushSubscription :=
  (λ p, if bool_decide (ps_Endpoint p = endpoint) then f p else p) <$> m.
Definition endpoint_known (endpoint : string) (d : AuthDB) : Prop :=
  ∃ p, p ∈ snd <$> map_to_list (ad_push d) ∧ ps_Endpoint p = endpoint.
#[global] Instance endpoint_known_dec e d : Decision (endpoint_known e d).
Proof.
  refine (cast_if (decide (Exists (λ p, ps_Endpoint p = e) (snd <$> map_to_list (ad_push d)))));
    unfold endpoint_known; by rewrite <-Exists_exists.
Defined.

(** [UPDATE ... WHERE endpoint = ?] first; [INSERT] when it changed no row. *)
Definition AddPushSubscription (p : PushSubscription) : stateM AuthDB (outcome unit) :=
  let! revived := update (λ d, (bool_decide (endpoint_known (ps_Endpoint p) d),
                                with_push (with_endpoint (ps_Endpoint p) (revive p)) d)) in
  if revived : bool then done tt
  else run_sql (λ d,
    if bool_decide (is_Some (ad_push d !! ps_ID p)) || bool_decide (endpoint_known (ps_Endpoint p) d)
    then (Refuse (ErrOther "UNIQUE constraint failed: push_subscriptions"), d)
    else (Done tt, with_push <[ps_ID p :=
      mkPush (ps_ID p) (ps_Endpoint p) (ps_P256DH p) (ps_Auth p) (ps_Label p) (ps_Origin p)
        (db_time (ps_CreatedAt p)) None None (ps_ScopeUDID p)]> d)).

(** [ORDER BY created_at DESC, id DESC]. *)
Definition push_desc (a b : PushSubscription) : Prop :=
  ps_CreatedAt b < ps_CreatedAt a ∨ (ps_CreatedAt a = ps_CreatedAt b ∧ str_le (ps_ID b) (ps_ID a)).
#[global] Instance push_desc_dec : RelDecision push_desc.
Proof. intros a b. unfold push_desc. apply _. Defined.

Definition PushSubscriptions : stateM AuthDB (outcome (list PushSubscription)) :=
  query (λ d, merge_sort push_desc (snd <$> map_to_list (ad_push d))).

Definition expire_at (t : time) (p : PushSubscription) : PushSubscription :=
  match ps_ExpiredAt p with
  | Some _ => p
  | None => mkPush (ps_ID p) (ps_Endpoint p) (ps_P256DH p) (ps_Auth p) (ps_Label p) (ps_Origin p)
              (ps_CreatedAt p) (Some (db_time t)) (ps_LastSentAt p) (ps_ScopeUDID p)
  end.

Definition ExpirePushSubscription (endpoint : string) (t : time) : stateM AuthDB (outcome unit) :=
  update (λ d, (tt, with_push (with_endpoint endpoint (expire_at t)) d)).

Definition DeletePushSubscription (id : string) : stateM AuthDB (outcome bool) :=
  update (λ d, (bool_decide (is_Some (ad_push d !! id)), with_push (delete id) d)).

Definition sent_at (t : time) (p : PushSubscription) : PushSubscription :=
  mkPush (ps_ID p) (ps_Endpoint p) (ps_P256DH p) (ps_Auth p) (ps_Label p) (ps_Origin p)
    (ps_CreatedAt p) (ps_ExpiredAt p) (Some (db_time t)) (ps_ScopeUDID p).

Definition MarkPushSent (endpoint : string) (t : time) : stateM AuthDB (outcome unit) :=
  update (λ d, (tt, with_push (with_endpoint endpoint (sent_at t)) d)).

Definition scoped_to (udid : string) (p : PushSubscription) : Prop := ps_ScopeUDID p = Some udid.

#[global] Instance scoped_to_dec udid p : Decision (scoped_to udid p).
Proof. unfold scoped_to. apply _. Defined.

Definition DeletePushSubscriptionsForScope (udid : string) : stateM AuthDB (outcome Z) :=
  update (λ d, (Z.of_nat (size (filter (λ kp, scoped_to udid kp.2) (ad_push d))),
                with_push (filter (λ kp, ¬ scoped_to udid kp.2)) d)).

(** ** The signing key *)

Definition VAPIDKeySetting : string := "push.vapid_private_key".
Definition ErrVAPIDKeyMissing : AuthError := ErrOther
  "store: subscriptions exist but the VAPID signing key does not — the app DB was partially restored or altered. quince will NOT mint a new key, because that would silently invalidate every subscription. Every device must re-subscribe".

Definition encodeVAPID (key : string) : string := EncodeToString RawURLEncoding key.
Definition decodeVAPID (v : string) : outcome string :=
  match DecodeString RawURLEncoding v with
  | None => Refuse (ErrOther "store: the stored VAPID key is not base64url")
  | Some b => if bool_decide (String.length b = 32%nat) then Done b
              else Refuse (ErrOther ("store: the stored VAPID key is " +:+ fmt_d (Z.of_nat (String.length b)) +:+
                     " octets, want 32"))
  end.

Definition VAPIDPrivateKey : stateM AuthDB (outcome (option string)) :=
  let! v := GetSetting VAPIDKeySetting in
  match v with
  | Some v => mret (match decodeVAPID v with Done b => Done (Some b) | Refuse e => Refuse e end)
  | None =>
      let! n := query (λ d, Z.of_nat (size (ad_push d))) in
      if 0 <? n then refuse ErrVAPIDKeyMissing else done None
  end.

Definition SetVAPIDPrivateKey (key : string) : stateM AuthDB (outcome unit) :=
  let! inserted := SetSettingIfAbsent VAPIDKeySetting (encodeVAPID key) in
  if inserted : bool then done tt
  else refuse (ErrOther "store: a VAPID key already exists; replacing it would invalidate every subscription").
