(* ===== verification/Proofs.v ===== *)
(** * Proofs: single-use proofs of a present credential, and ceremonies in flight

    Models core/internal/auth/proof.go ([Proofs]), the two stores of in-flight ceremonies
    ([ReauthCeremonies] of reauth.go and [PasskeyCeremonies] of passkey.go) and the disclosure type
    of disclosure.go.  The reading of the clock and the random token are arguments: an operation
    that refuses before it draws ignores the token. *)

From Stdlib Require Import String Ascii.
From S2P Require Import Prelude AuthErrors AuthStore.

Definition ProofOperation : Type := string.
Definition OpAddPasskey : ProofOperation := "add_passkey".
Definition OpRemovePasskey : ProofOperation := "remove_passkey".
Definition OpRemovePassword : ProofOperation := "remove_password".
Definition OpSetPassword : ProofOperation := "set_password".

Definition op_valid (o : ProofOperation) : bool :=
  existsb (String.eqb o) [OpAddPasskey; OpRemovePasskey; OpRemovePassword; OpSetPassword].

Definition needsTarget (o : ProofOperation) : bool := String.eqb o OpRemovePasskey.

Record ProofSubject : Type := mkSubject { su_Password : bool; su_CredentialID : string }.
Definition zero_subject : ProofSubject := mkSubject false "".

Definition subject_valid (s : ProofSubject) : bool :=
  if su_Password s then String.eqb (su_CredentialID s) "" else negb (String.eqb (su_CredentialID s) "").

(** [subtle.ConstantTimeCompare] is equality. *)
Definition IsCredential (credentialID : string) (s : ProofSubject) : bool :=
  negb (su_Password s) && negb (String.eqb credentialID "") && String.eqb (su_CredentialID s) credentialID.

Definition proofTTL : duration := 2 * Minute.

Record mintedProof : Type := mkProof {
  mp_op : ProofOperation; mp_target : string; mp_subject : ProofSubject; mp_sessionID : string;
  mp_expires : time }.

Abbreviation Proofs := (gmap string mintedProof).

(** Every operation of the four stores drops what has expired when it adds an entry. *)
Definition live_proof (now : time) (kp : string * mintedProof) : Prop := ¬ mp_expires kp.2 < now.
#[global] Instance live_proof_dec now kp : Decision (live_proof now kp).
Proof. unfold live_proof. apply _. Defined.

(** The checks that [Mint] and [BeginReauth] make of an operation and its target. *)
Definition check_target (op : ProofOperation) (target : string) : option string :=
  if negb (op_valid op) then Some ("auth: unknown proof operation " +:+ quote op)
  else if needsTarget op && String.eqb target "" then
    Some ("auth: " +:+ op +:+ " needs a target credential")
  else if negb (needsTarget op) && negb (String.eqb target "") then
    Some ("auth: " +:+ op +:+ " takes no target, got " +:+ quote target)
  else None.

Definition Mint (op : ProofOperation) (target : string) (subject : ProofSubject) (sessionID : string)
    (token : string) (now : time) (p : Proofs) : outcome string * Proofs :=
  match check_target op target with
  | Some msg => (Refuse (ErrOther msg), p)
  | None =>
      if negb (subject_valid subject) then
        (Refuse (ErrOther "auth: a proof subject is either the password or one credential id"), p)
      else if String.eqb sessionID "" then
        (Refuse (ErrOther "auth: a proof must be bound to the session that minted it"), p)
      else (Done token,
            <[token := mkProof op target subject sessionID (now + proofTTL)]> (filter (live_proof now) p))
  end.

Definition Consume (token : string) (op : ProofOperation) (target sessionID : string) (now : time)
    (p : Proofs) : outcome ProofSubject * Proofs :=
  let p' := delete token p in
  match p !! token with
  | None => (Refuse ErrNoProof, p')
  | Some found =>
      if mp_expires found <? now then (Refuse ErrNoProof, p')
      else if negb (String.eqb (mp_op found) op) || negb (String.eqb (mp_target found) target) then
        (Refuse ErrProofNotForThis, p')
      else if negb (String.eqb (mp_sessionID found) sessionID) then (Refuse ErrNoProof, p')
      else (Done (mp_subject found), p')
  end.

Record Presented : Type := mkPresented { pr_Password : string; pr_Proof : string }.

(** ** Ceremonies in flight *)

Definition challengeTTL : duration := 2 * Minute.

Section ceremonies.
Context {SessionData : Type}.           (* webauthn.SessionData *)

Record pendingReauth : Type := mkReauth {
  ra_session : SessionData; ra_rpID : string; ra_op : ProofOperation; ra_target : string;
  ra_sessionID : string; ra_expires : time }.

Definition reauth_put (p : pendingReauth) (key : string) (now : time) (c : gmap string pendingReauth) :
    gmap string pendingReauth :=
  <[key := mkReauth (ra_session p) (ra_rpID p) (ra_op p) (ra_target p) (ra_sessionID p) (now + challengeTTL)]>
    (filter (λ kp, ¬ ra_expires kp.2 < now) c).

Definition reauth_take (key : string) (now : time) (c : gmap string pendingReauth) :
    option pendingReauth * gmap string pendingReauth :=
  (match c !! key with
   | Some p => if ra_expires p <? now then None else Some p
   | None => None
   end, delete key c).

Inductive ceremonyKind : Type := ceremonyRegister | ceremonyAssert.

#[global] Instance ceremonyKind_eq_dec : EqDecision ceremonyKind.
Proof. solve_decision. Defined.

Record pendingCeremony : Type := mkCeremony {
  ce_session : SessionData; ce_rpID : string; ce_kind : ceremonyKind; ce_expires : time;
  ce_scope : Scope; ce_handle : option string }.

Definition ceremony_put (session : SessionData) (rpID : string) (kind : ceremonyKind) (scope : Scope)
    (handle : option string) (key : string) (now : time) (c : gmap string pendingCeremony) :
    gmap string pendingCeremony :=
  <[key := mkCeremony session rpID kind (now + challengeTTL) scope handle]>
    (filter (λ kp, ¬ ce_expires kp.2 < now) c).

Definition ceremony_take (key : string) (want : ceremonyKind) (now : time) (c : gmap string pendingCeremony) :
    option pendingCeremony * gmap string pendingCeremony :=
  (match c !! key with
   | Some p => if (ce_expires p <? now) || negb (bool_decide (ce_kind p = want)) then None else Some p
   | None => None
   end, delete key c).
End ceremonies.
Arguments pendingReauth : clear implicits.
Arguments pendingCeremony : clear implicits.

(** ** Disclosure: its zero value is invalid *)

Record Disclosure : Type := mkDisclosure { dc_set : bool; dc_exclude : bool }.
Definition zero_Disclosure : Disclosure := mkDisclosure false false.
Definition ExcludeRegistered : Disclosure := mkDisclosure true true.
Definition DiscloseNothing : Disclosure := mkDisclosure true false.

(** ** A proof is spent once, and only on what it was minted for *)

Lemma Consume_exact token op target sessionID now p s :
  (Consume token op target sessionID now p).1 = Done s ↔
  ∃ e, p !! token = Some (mkProof op target s sessionID e) ∧ now ≤ e.
Proof.
  unfold Consume. destruct (p !! token) as [[op' t' s' i' e]|] eqn:Hp; simpl.
  - destruct (Z.ltb_spec e now); simpl.
    + split; [done|]. intros (e' & [= -> -> -> -> ->] & ?). lia.
    + destruct (String.eqb_spec op' op), (String.eqb_spec t' target), (String.eqb_spec i' sessionID);
        simpl; split; try done; try (intros (e' & [=] & ?); congruence).
      intros [= ->]. subst. by exists e.
  - split; [done|]. by intros (e & ? & ?).
Qed.

Lemma Consume_state token op target sessionID now p :
  (Consume token op target sessionID now p).2 = delete token p.
Proof. unfold Consume. repeat case_match; done. Qed.

Lemma Mint_exact op target subject sessionID token now p r p' :
  Mint op target subject sessionID token now p = (r, p') →
  (∃ e, r = Refuse e) ∧ p' = p ∨
  r = Done token ∧ op_valid op = true ∧ subject_valid subject = true ∧ sessionID ≠ "" ∧
    (needsTarget op = true ↔ target ≠ "") ∧
    p' = <[token := mkProof op target subject sessionID (now + proofTTL)]> (filter (live_proof now) p).
Proof.
  unfold Mint, check_target. intros H.
  destruct (op_valid op) eqn:Hop; simpl in H; [|left; simplify_eq; by split; [eexists|]].
  destruct (String.eqb_spec target "") as [Ht|Ht], (needsTarget op) eqn:Hn; simpl in H;
    try (left; simplify_eq; by split; [eexists|]);
  (destruct (subject_valid subject) eqn:Hsu; simpl in H; [|left; simplify_eq; by split; [eexists|]]);
  (destruct (String.eqb_spec sessionID "") as [Hs|Hs]; simplify_eq;
    [left; by split; [eexists|]|right; repeat split; try done; by intros]).
Qed.

(** The calls of a [Proofs] store, the clock and the draws with them. *)
Inductive proof_call : Type :=
  | CallMint (op : ProofOperation) (target : string) (subject : ProofSubject) (sessionID token : string) (now : time)
  | CallConsume (token : string) (op : ProofOperation) (target sessionID : string) (now : time).

Definition proof_step (c : proof_call) (p : Proofs) : Proofs :=
  match c with
  | CallMint op t su si token now => (Mint op t su si token now p).2
  | CallConsume token op t si now => (Consume token op t si now p).2
  end.

(** How often the calls spend [token]. *)
Fixpoint times_spent (token : string) (calls : list proof_call) (p : Proofs) : nat :=
  match calls with
  | [] => 0
  | c :: calls =>
      (match c with
       | CallConsume t op tg si now =>
           if bool_decide (t = token) && done_ok (Consume t op tg si now p).1 then 1 else 0
       | _ => 0
       end + times_spent token calls (proof_step c p))%nat
  end.

Definition mints (token : string) (c : proof_call) : Prop :=
  match c with CallMint _ _ _ _ t _ => t = token | CallConsume _ _ _ _ _ => False end.

Lemma step_lookup_none token c p : ¬ mints token c → p !! token = None → proof_step c p !! token = None.
Proof.
  destruct c as [op t su si tk now|tk op t si now]; cbn [mints proof_step]; intros Hm Hp.
  - destruct (Mint op t su si tk now p) as [r p'] eqn:HM.
    apply Mint_exact in HM as [[_ ->]|(_ & _ & _ & _ & _ & ->)]; [done|]. cbn [snd].
    rewrite lookup_insert_ne by exact Hm. apply map_lookup_filter_None. by left.
  - rewrite Consume_state. rewrite lookup_delete_None. auto.
Qed.

Lemma not_spent token calls : ∀ p, Forall (λ c, ¬ mints token c) calls → p !! token = None →
  times_spent token calls p = 0%nat.
Proof.
  induction calls as [|c calls IH]; intros p Hc Hp; [done|]. apply Forall_cons in Hc as [H Hc]. simpl.
  rewrite IH by (try done; by apply step_lookup_none). destruct c as [|tk op t si now]; [done|].
  destruct (bool_decide_reflect (tk = token)) as [->|]; [|done]. simpl. unfold Consume. by rewrite Hp.
Qed.

Lemma spent_at_most_once token calls p : Forall (λ c, ¬ mints token c) calls →
  (times_spent token calls p ≤ 1)%nat.
Proof.
  revert p. induction calls as [|c calls IH]; intros p Hc; simpl; [lia|].
  apply Forall_cons in Hc as [H Hc]. destruct c as [op t su si tk now|tk op t si now]; [by apply IH|].
  destruct (bool_decide_reflect (tk = token)) as [->|]; [|by apply IH]. simpl.
  rewrite not_spent; [case_match; lia|done|]. rewrite Consume_state. apply lookup_delete_eq.
Qed.

Lemma step_keeps_or_drops token c p x : ¬ mints token c → p !! token = Some x →
  proof_step c p !! token = Some x ∨ proof_step c p !! token = None.
Proof.
  destruct c as [op t su si tk now|tk op t si now]; cbn [mints proof_step]; intros Hm Hp.
  - destruct (Mint op t su si tk now p) as [r p'] eqn:HM.
    apply Mint_exact in HM as [[_ ->]|(_ & _ & _ & _ & _ & ->)]; [by left|]. cbn [snd].
    rewrite lookup_insert_ne by exact Hm. destruct (decide (live_proof now (token, x))) as [Hl|Hl].
    + left. by apply map_lookup_filter_Some.
    + right. apply map_lookup_filter_None. right. intros y Hy. by simplify_eq.
  - rewrite Consume_state. destruct (decide (tk = token)) as [->|Hne]; [right; apply lookup_delete_eq|].
    left. by rewrite lookup_delete_ne.
Qed.

Lemma run_keeps_or_drops token calls : ∀ p x, Forall (λ c, ¬ mints token c) calls →
  p !! token = Some x ∨ p !! token = None →
  let p' := fold_left (λ p c, proof_step c p) calls p in
  p' !! token = Some x ∨ p' !! token = None.
Proof.
  induction calls as [|c calls IH]; intros p x Hc Hp; [done|].
  apply Forall_cons in Hc as [H Hc]. simpl. apply IH; [done|].
  destruct Hp as [Hp|Hp]; [by apply step_keeps_or_drops|right; by apply step_lookup_none].
Qed.

(** A proof authorises one operation once.  Whatever is minted and spent after it, a minted token
    is spent at most once; and the call that spends it names the operation and the target it was
    minted for, comes from the session that minted it, comes within its two minutes, and learns the
    credential that was presented.  (The hypothesis on the later calls is that the random token is
    not drawn again.) *)
Theorem proof_single_use op target subject sessionID token now p p0 calls :
  Mint op target subject sessionID token now p = (Done token, p0) →
  Forall (λ c, ¬ mints token c) calls →
  (times_spent token calls p0 ≤ 1)%nat ∧
  ∀ before after op' target' sessionID' now' s,
    calls = before ++ CallConsume token op' target' sessionID' now' :: after →
    (Consume token op' target' sessionID' now' (fold_left (λ p c, proof_step c p) before p0)).1 = Done s →
    s = subject ∧ op' = op ∧ target' = target ∧ sessionID' = sessionID ∧ now' ≤ now + proofTTL.
Proof.
  intros HM Hc. split; [by apply spent_at_most_once|].
  intros before after op' t' si' now' s -> Hs. apply Forall_app in Hc as [Hb _].
  apply Mint_exact in HM as [[[e ?] _]|(_ & _ & _ & _ & _ & Hp0)]; [done|].
  apply Consume_exact in Hs as (e & Hl & He).
  assert (p0 !! token = Some (mkProof op target subject sessionID (now + proofTTL))) as H0.
  { rewrite Hp0. apply lookup_insert_eq. }
  destruct (run_keeps_or_drops token before _ _ Hb (or_introl H0)) as [H|H];
    rewrite H in Hl; by simplify_eq.
Qed.

Definition some_proof : proof_call := CallConsume "t0k" OpRemovePasskey "phone" "sess" 60.

Lemma proof_single_use_witness :
  (times_spent "t0k" [some_proof; some_proof]
     (Mint OpRemovePasskey "phone" (mkSubject false "laptop") "sess" "t0k" 0 ∅).2 ≤ 1)%nat ∧
  times_spent "t0k" [some_proof; some_proof]
    (Mint OpRemovePasskey "phone" (mkSubject false "laptop") "sess" "t0k" 0 ∅).2 = 1%nat.
Proof.
  split; [|vm_compute; reflexivity].
  apply (proof_single_use OpRemovePasskey "phone" (mkSubject false "laptop") "sess" "t0k" 0 ∅
           _ [some_proof; some_proof]).
  - vm_compute. reflexivity.
  - repeat constructor; intros [].
Defined.
