(* ===== verification/Enrolment.v ===== *)
(** * Enrolment: one-shot authorisations to register a scoped passkey

    Models core/internal/auth/enrolment.go: the secrets behind the QR codes of a device page.  The
    clock, the random token and the id are arguments; the order of a map's entries is open. *)

From Stdlib Require Import String Ascii.
From S2P Require Import Prelude AuthErrors AuthStore.

Definition enrolmentTTL : duration := 10 * Minute.
Definition enrolmentGrace : duration := 30 * Minute.

Record Enrolment : Type := mkEnrolment {
  en_ID : string; en_ScopeUDID : string; en_CreatedAt : time; en_ExpiresAt : time }.

Inductive enrolmentState : Type := enrolmentLive | enrolmentSpent | enrolmentRevoked.

Record enrolmentRecord : Type := mkRecord {
  er_token : string; er_scope : string; er_created : time; er_expires : time;
  er_state : enrolmentState;
  er_deadAt : time }.                  (* the zero time while live *)

Abbreviation Enrolments := (gmap string enrolmentRecord).   (* by id *)

Definition public (key : string) (r : enrolmentRecord) : Enrolment :=
  mkEnrolment key (er_scope r) (er_created r) (er_expires r).

Definition usable (now : time) (r : enrolmentRecord) : option AuthError :=
  match er_state r with
  | enrolmentSpent => Some ErrEnrolmentSpent
  | enrolmentRevoked => Some ErrEnrolmentRevoked
  | enrolmentLive => if now <? er_expires r then None else Some ErrEnrolmentExpired
  end.

(** When a record stops being remembered. *)
Definition dead_at (r : enrolmentRecord) : time :=
  if is_zero_time (er_deadAt r) then er_expires r + enrolmentGrace else er_deadAt r.

Definition remembered (now : time) (kr : string * enrolmentRecord) : Prop := now < dead_at kr.2.
#[global] Instance remembered_dec now kr : Decision (remembered now kr).
Proof. unfold remembered. apply _. Defined.

Definition sweepLocked (now : time) (e : Enrolments) : Enrolments := filter (remembered now) e.

Definition Mint (scope : Scope) (token key : string) (now : time) (e : Enrolments) :
    outcome (string * Enrolment) * Enrolments :=
  if IsAdmin scope then (Refuse ErrEnrolmentAdminScope, e)
  else if String.eqb (sc_udid scope) "" then (Refuse ErrEnrolmentScopeUnset, e)
  else
    let rec := mkRecord token (sc_udid scope) now (now + enrolmentTTL) enrolmentLive zero_time in
    (Done (token, public key rec), <[key := rec]> (sweepLocked now e)).

Section enrolments.
Context `{Hrange : !MapRange, Hsort : !SortSlice}.

(** The first record, in the order of the map, whose token it is. *)
Fixpoint first_match (token : string) (l : list (string * enrolmentRecord)) : option (string * enrolmentRecord) :=
  match l with
  | [] => None
  | kr :: l => if String.eqb (er_token kr.2) token then Some kr else first_match token l
  end.

(** [findLocked] on the swept map. *)
Definition find_usable (token : string) (now : time) (e : Enrolments) : outcome (string * enrolmentRecord) :=
  if String.eqb token "" then Refuse ErrEnrolmentUnknown
  else match first_match token (range e) with
       | None => Refuse ErrEnrolmentUnknown
       | Some (key, rec) =>
           match usable now rec with Some err => Refuse err | None => Done (key, rec) end
       end.

Definition findLocked (token : string) (now : time) (e : Enrolments) :
    outcome (string * enrolmentRecord) * Enrolments :=
  let e := sweepLocked now e in (find_usable token now e, e).

Definition EnrolmentCheck (token : string) (now : time) (e : Enrolments) : outcome Enrolment * Enrolments :=
  let '(r, e) := findLocked token now e in
  (match r with Done (key, rec) => Done (public key rec) | Refuse err => Refuse err end, e).

Definition set_state (st : enrolmentState) (deadAt : time) (r : enrolmentRecord) : enrolmentRecord :=
  mkRecord (er_token r) (er_scope r) (er_created r) (er_expires r) st deadAt.

(** The clock is read again for the grace: [later]. *)
Definition Spend (token : string) (now later : time) (e : Enrolments) : outcome Enrolment * Enrolments :=
  let '(r, e) := findLocked token now e in
  match r with
  | Refuse err => (Refuse err, e)
  | Done (key, rec) =>
      (Done (public key rec), <[key := set_state enrolmentSpent (later + enrolmentGrace) rec]> e)
  end.

Definition Revoke (udid enrolmentID : string) (now : time) (e : Enrolments) : option AuthError * Enrolments :=
  let e := sweepLocked now e in
  match e !! enrolmentID with
  | None => (Some ErrEnrolmentNotFound, e)
  | Some rec =>
      if negb (String.eqb (er_scope rec) udid) then (Some ErrEnrolmentWrongDevice, e)
      else match usable now rec with
           | Some err => (Some err, e)
           | None => (None, <[enrolmentID := set_state enrolmentRevoked (now + enrolmentGrace) rec]> e)
           end
  end.

(** Oldest first, ties by id. *)
Definition listing_order (a b : Enrolment) : Prop :=
  en_CreatedAt a < en_CreatedAt b ∨ (en_CreatedAt a = en_CreatedAt b ∧ str_le (en_ID a) (en_ID b)).
#[global] Instance listing_order_dec : RelDecision listing_order.
Proof. intros a b. unfold listing_order. apply _. Defined.

Definition is_live_for (udid : string) (now : time) (r : enrolmentRecord) : Prop :=
  er_scope r = udid ∧ usable now r = None.
#[global] Instance is_live_for_dec udid now r : Decision (is_live_for udid now r).
Proof. unfold is_live_for. apply _. Defined.

Definition ListEnrolments (udid : string) (now : time) (e : Enrolments) : list Enrolment * Enrolments :=
  let e := sweepLocked now e in
  (sort_slice listing_order
     ((λ kr, public kr.1 kr.2) <$> filter (λ kr, is_live_for udid now kr.2) (range e)), e).

(** ** The life of a secret *)

(** The record under [key] is the only one that holds [token]. *)
Definition only_at (token key : string) (e : Enrolments) : Prop :=
  (∀ k r, e !! k = Some r → er_token r = token → k = key) ∧
  (∀ r, e !! key = Some r → er_token r = token).

Lemma first_match_Some token l kr : first_match token l = Some kr → kr ∈ l ∧ er_token kr.2 = token.
Proof.
  induction l as [|x l IH]; simpl; [done|]. destruct (String.eqb_spec (er_token x.2) token) as [E|E].
  - intros [= ->]. split; [left|done].
  - intros H. destruct (IH H). split; [by right|done].
Qed.

Lemma first_match_None token l kr : first_match token l = None → kr ∈ l → er_token kr.2 ≠ token.
Proof.
  induction l as [|x l IH]; simpl; [by intros _ []%elem_of_nil|].
  destruct (String.eqb_spec (er_token x.2) token) as [E|E]; [done|].
  intros H [->|Hin]%elem_of_cons; [done|]. by apply IH.
Qed.

Lemma find_token token key now e : token ≠ "" → only_at token key e →
  find_usable token now e =
  match e !! key with
  | None => Refuse ErrEnrolmentUnknown
  | Some r => match usable now r with Some err => Refuse err | None => Done (key, r) end
  end.
Proof.
  intros Hne [Hk Ht]. unfold find_usable. destruct (String.eqb_spec token ""); [done|].
  destruct (first_match token (range e)) as [[k r]|] eqn:Hf.
  - apply first_match_Some in Hf as [Hin Hr]. apply elem_of_range in Hin. simpl in Hr.
    pose proof (Hk k r Hin Hr) as ->. by rewrite Hin.
  - destruct (e !! key) as [r|] eqn:He; [|done]. exfalso.
    eapply (first_match_None token); [exact Hf|by apply elem_of_range|]. simpl. by apply Ht.
Qed.

Inductive enrolment_call : Type :=
  | CallMint (scope : Scope) (token key : string) (now : time)
  | CallCheck (token : string) (now : time)
  | CallSpend (token : string) (now later : time)
  | CallRevoke (udid id : string) (now : time)
  | CallList (udid : string) (now : time).

Definition enrolment_step (c : enrolment_call) (e : Enrolments) : Enrolments :=
  match c with
  | CallMint sc t k now => (Mint sc t k now e).2
  | CallCheck t now => (EnrolmentCheck t now e).2
  | CallSpend t now later => (Spend t now later e).2
  | CallRevoke u i now => (Revoke u i now e).2
  | CallList u now => (ListEnrolments u now e).2
  end.

Definition enrolment_run (calls : list enrolment_call) (e : Enrolments) : Enrolments :=
  fold_left (λ e c, enrolment_step c e) calls e.

(** What a call says of [token]: the enrolment that it may register for, or is spent. *)
Definition admits (token : string) (c : enrolment_call) (e : Enrolments) : option Enrolment :=
  match c with
  | CallCheck t now =>
      if String.eqb t token
      then match (EnrolmentCheck t now e).1 with Done x => Some x | Refuse _ => None end else None
  | CallSpend t now later =>
      if String.eqb t token
      then match (Spend t now later e).1 with Done x => Some x | Refuse _ => None end else None
  | _ => None
  end.

(** The random draws of later calls do not repeat those of a mint. *)
Definition fresh_for (token key : string) (c : enrolment_call) : Prop :=
  match c with CallMint _ t k _ => t ≠ token ∧ k ≠ key | _ => True end.

(** The record under [key]: gone, or the minted one with some state. *)
Definition standing (token key : string) (m : enrolmentRecord) (e : Enrolments) : Prop :=
  only_at token key e ∧
  ∀ r, e !! key = Some r → r = set_state (er_state r) (er_deadAt r) m.

Definition is_live (r : enrolmentRecord) : bool :=
  match er_state r with enrolmentLive => true | _ => false end.

Lemma sweep_lookup now e k r : sweepLocked now e !! k = Some r ↔ e !! k = Some r ∧ now < dead_at r.
Proof. unfold sweepLocked. rewrite map_lookup_filter_Some. done. Qed.

Lemma standing_sweep token key m now e : standing token key m e → standing token key m (sweepLocked now e).
Proof.
  intros [[H1 H2] H3]. split; [split|].
  - intros k r [Hr _]%sweep_lookup. by apply H1.
  - intros r [Hr _]%sweep_lookup. by apply H2.
  - intros r [Hr _]%sweep_lookup. by apply H3.
Qed.

Lemma standing_set_state token key m e k r st d : er_token m = token →
  standing token key m e → e !! k = Some r → standing token key m (<[k := set_state st d r]> e).
Proof.
  intros Hm [[H1 H2] H3] Hr. split; [split|].
  - intros k' r'. rewrite lookup_insert. case_decide; [|apply H1]. subst. intros [= <-] Ht.
    by apply (H1 k' r).
  - intros r'. rewrite lookup_insert. case_decide; [|apply H2]. subst. intros [= <-]. exact (H2 r Hr).
  - intros r'. rewrite lookup_insert. case_decide; [|apply H3]. subst. intros [= <-].
    by rewrite (H3 r Hr).
Qed.

Lemma find_usable_Done token now e k r : find_usable token now e = Done (k, r) →
  e !! k = Some r ∧ er_token r = token ∧ usable now r = None.
Proof.
  unfold find_usable. destruct (String.eqb token ""); [done|].
  destruct (first_match token (range e)) as [[k' r']|] eqn:Hf; [|done].
  apply first_match_Some in Hf as [Hin Hr]. apply elem_of_range in Hin. simpl in Hr.
  destruct (usable now r') eqn:Hu; [done|]. intros [= -> ->]. done.
Qed.

Lemma standing_step token key m c e : er_token m = token → fresh_for token key c →
  standing token key m e → standing token key m (enrolment_step c e).
Proof.
  intros Hm Hf Hs. destruct c as [sc t k now|t now|t now later|u i now|u now]; cbn [enrolment_step].
  - unfold Mint. case_match; [done|]. case_match; [done|]. cbn [snd]. destruct Hf as [Ht Hk].
    apply (standing_sweep _ _ _ now) in Hs as [[H1 H2] H3]. split; [split|].
    + intros k' r'. rewrite lookup_insert. case_decide; [|apply H1]. subst. by intros [= <-].
    + intros r'. rewrite lookup_insert_ne by done. apply H2.
    + intros r'. rewrite lookup_insert_ne by done. apply H3.
  - unfold EnrolmentCheck, findLocked. cbn [snd]. by apply standing_sweep.
  - unfold Spend, findLocked. apply (standing_sweep _ _ _ now) in Hs.
    destruct (find_usable t now (sweepLocked now e)) as [[k r]|] eqn:Hfind; [|done]. cbn [snd].
    apply find_usable_Done in Hfind as (Hr & _ & _). by apply standing_set_state.
  - unfold Revoke. apply (standing_sweep _ _ _ now) in Hs. destruct (sweepLocked now e !! i) as [r|] eqn:Hr; [|done].
    case_match; [done|]. case_match; [done|]. cbn [snd]. by apply standing_set_state.
  - cbn [snd ListEnrolments]. by apply standing_sweep.
Qed.

(** Nothing live is left under [key]. *)
Definition shut (key : string) (e : Enrolments) : Prop := ∀ r, e !! key = Some r → is_live r = false.

Lemma shut_sweep key now e : shut key e → shut key (sweepLocked now e).
Proof. intros H r [Hr _]%sweep_lookup. by apply H. Qed.

Lemma shut_set_state key e k r st d : (k = key → st ≠ enrolmentLive) → shut key e →
  shut key (<[k := set_state st d r]> e).
Proof.
  intros Hst H r'. rewrite lookup_insert. case_decide; [|apply H]. intros [= <-].
  unfold is_live. simpl. destruct st; try done. exfalso. by apply Hst.
Qed.

Lemma usable_live now r : usable now r = None → is_live r = true ∧ now < er_expires r.
Proof. unfold usable, is_live. destruct (er_state r), (Z.ltb_spec now (er_expires r)); done. Qed.

Lemma shut_step token key c e : fresh_for token key c → shut key e → shut key (enrolment_step c e).
Proof.
  intros Hf Hs. destruct c as [sc t k now|t now|t now later|u i now|u now]; cbn [enrolment_step].
  - unfold Mint. case_match; [done|]. case_match; [done|]. cbn [snd]. destruct Hf as [Ht Hk].
    intros r. rewrite lookup_insert_ne by done. by apply shut_sweep.
  - by apply shut_sweep.
  - unfold Spend, findLocked. apply (shut_sweep _ now) in Hs.
    destruct (find_usable t now (sweepLocked now e)) as [[k r]|]; [|done].
    apply shut_set_state; [discriminate|done].
  - unfold Revoke. apply (shut_sweep _ now) in Hs. destruct (sweepLocked now e !! i) as [r|]; [|done].
    case_match; [done|]. case_match; [done|].
    apply shut_set_state; [discriminate|done].
  - by apply shut_sweep.
Qed.

(** When a call reads its clock. *)
Definition call_time (c : enrolment_call) : time :=
  match c with
  | CallMint _ _ _ now | CallCheck _ now | CallSpend _ now _ | CallRevoke _ _ now | CallList _ now => now
  end.

Lemma find_standing token key m now e k r : token ≠ "" → standing token key m e →
  find_usable token now (sweepLocked now e) = Done (k, r) →
  k = key ∧ is_live r = true ∧ public key r = public key m ∧ now < er_expires m ∧ e !! key = Some r.
Proof.
  intros Hne Hs Hf. pose proof (standing_sweep token key m now e Hs) as [Hon Hshape].
  rewrite (find_token token key) in Hf by done.
  destruct (sweepLocked now e !! key) as [r'|] eqn:Hr; [|done].
  destruct (usable now r') eqn:Hu; [done|]. injection Hf as <- <-. apply usable_live in Hu as [Hl Hx].
  assert (public key r' = public key m ∧ er_expires r' = er_expires m) as [Hp He].
  { by rewrite (Hshape r' eq_refl). }
  apply sweep_lookup in Hr as [Hr _]. rewrite <-He. done.
Qed.

Lemma admits_standing token key m c e x : token ≠ "" → standing token key m e →
  admits token c e = Some x →
  x = public key m ∧ call_time c < er_expires m ∧ ¬ shut key e.
Proof.
  intros Hne Hs Ha. destruct c as [sc t k now|t now|t now later|u i now|u now]; try done; cbn [admits] in Ha.
  - destruct (String.eqb_spec t token) as [->|]; [|done]. unfold EnrolmentCheck, findLocked in Ha. simpl in Ha.
    destruct (find_usable token now (sweepLocked now e)) as [[k r]|] eqn:Hf; [|done]. simplify_eq.
    apply (find_standing token key m) in Hf as (-> & Hl & Hp & Hx & Hr); [|done..].
    split; [done|]. split; [done|]. intros Hshut. by rewrite (Hshut r Hr) in Hl.
  - destruct (String.eqb_spec t token) as [->|]; [|done]. unfold Spend, findLocked in Ha. simpl in Ha.
    destruct (find_usable token now (sweepLocked now e)) as [[k r]|] eqn:Hf; [|done]. simpl in Ha. simplify_eq.
    apply (find_standing token key m) in Hf as (-> & Hl & Hp & Hx & Hr); [|done..].
    split; [done|]. split; [done|]. intros Hshut. by rewrite (Hshut r Hr) in Hl.
Qed.

(** A call that ends the secret: a spend of it that succeeds, or a revocation of its id. *)
Definition ends (token key : string) (c : enrolment_call) (e : Enrolments) : Prop :=
  match c with
  | CallSpend t _ _ => is_Some (admits token c e)
  | CallRevoke u i now => i = key ∧ (Revoke u i now e).1 = None
  | _ => False
  end.

Lemma ends_shut token key m c e : token ≠ "" → standing token key m e → ends token key c e →
  shut key (enrolment_step c e).
Proof.
  intros Hne Hs He. destruct c as [| |t now later|u i now|]; try done; cbn [enrolment_step].
  - destruct He as [x Hx]. cbn [admits] in Hx. destruct (String.eqb_spec t token) as [->|]; [|done].
    unfold Spend, findLocked in *. simpl in Hx.
    destruct (find_usable token now (sweepLocked now e)) as [[k r]|] eqn:Hf; [|done]. cbn [snd].
    apply (find_standing token key m) in Hf as (-> & _); [|done..].
    intros r'. rewrite lookup_insert_eq. by intros [= <-].
  - destruct He as [-> Hr]. unfold Revoke in *. destruct (sweepLocked now e !! key) as [r|]; [|done].
    case_match; [done|]. case_match; [done|]. cbn [snd]. intros r'. rewrite lookup_insert_eq. by intros [= <-].
Qed.

Lemma standing_run token key m calls : ∀ e, er_token m = token → Forall (fresh_for token key) calls →
  standing token key m e → standing token key m (enrolment_run calls e).
Proof.
  induction calls as [|c calls IH]; intros e Hm Hf Hs; [done|]. apply Forall_cons in Hf as [H Hf].
  apply IH; [done..|]. by apply standing_step.
Qed.

Lemma shut_run token key calls : ∀ e, Forall (fresh_for token key) calls →
  shut key e → shut key (enrolment_run calls e).
Proof.
  induction calls as [|c calls IH]; intros e Hf Hs; [done|]. apply Forall_cons in Hf as [H Hf].
  apply IH; [done|]. by eapply shut_step.
Qed.

Lemma Mint_standing scope token key now e x e0 :
  Mint scope token key now e = (Done (token, x), e0) →
  (∀ k r, e !! k = Some r → er_token r ≠ token) →
  sc_udid scope = en_ScopeUDID x ∧ en_ScopeUDID x ≠ "" ∧
  ∃ m, er_token m = token ∧ er_expires m = now + enrolmentTTL ∧ x = public key m ∧ standing token key m e0.
Proof.
  unfold Mint. intros HM Hfresh. destruct (IsAdmin scope); [done|].
  destruct (String.eqb_spec (sc_udid scope) ""); [done|]. simplify_eq. split; [done|]. split; [done|].
  exists (mkRecord token (sc_udid scope) now (now + enrolmentTTL) enrolmentLive zero_time).
  split; [done|]. split; [done|]. split; [done|]. split; [split|].
  - intros k r. rewrite lookup_insert. case_decide; [done|]. intros [Hr _]%sweep_lookup Ht.
    by destruct (Hfresh k r).
  - intros r. rewrite lookup_insert_eq. by intros [= <-].
  - intros r. rewrite lookup_insert_eq. by intros [= <-].
Qed.

(** C20: The secret of a QR code stands for one device, for a while.  From its mint on, whatever else is
    minted, checked, spent, revoked or listed, a check or a spend of the secret gives nothing but the
    enrolment it was minted as: the device fixed at the mint, never the admin, and only within its ten
    minutes; and once a spend of it has succeeded, or it was revoked under its id, no later check or
    spend of it succeeds.  So it is spent once at most.  (It bounds the secret, not the credentials: a
    ceremony registers between its check and its spend, so two that were both checked before the spend
    can both leave a credential, for that one device, as enrolment_ceremony.go says.  The hypotheses
    are that the random token and id are not drawn twice.) *)
Theorem enrolment_one_shot scope token key now e x e0 calls :
  Mint scope token key now e = (Done (token, x), e0) →
  token ≠ "" → (∀ k r, e !! k = Some r → er_token r ≠ token) →
  Forall (fresh_for token key) calls →
  sc_udid scope = en_ScopeUDID x ∧ en_ScopeUDID x ≠ "" ∧
  ∀ before c after, calls = before ++ c :: after →
    let e1 := enrolment_run before e0 in
    (∀ y, admits token c e1 = Some y → y = x ∧ call_time c < now + enrolmentTTL) ∧
    (ends token key c e1 → ∀ mid c' rest, after = mid ++ c' :: rest →
       admits token c' (enrolment_run mid (enrolment_step c e1)) = None).
Proof.
  intros HM Hne Hfresh Hf. apply Mint_standing in HM as (Hu & Hx & m & Hm & Hexp & -> & Hs); [|done].
  split; [done|]. split; [done|]. intros before c after -> e1.
  apply Forall_app in Hf as [Hb [Hc Ha]%Forall_cons].
  pose proof (standing_run token key m before e0 Hm Hb Hs) as Hs1. fold e1 in Hs1. split.
  - intros y Hy. rewrite <-Hexp. by destruct (admits_standing token key m c e1 y Hne Hs1 Hy) as (? & ? & _).
  - intros He mid c' rest ->. apply Forall_app in Ha as [Hmid Hc'].
    pose proof (ends_shut token key m c e1 Hne Hs1 He) as Hshut.
    apply (shut_run token key mid) in Hshut; [|done].
    pose proof (standing_step token key m c e1 Hm Hc Hs1) as Hs2.
    apply (standing_run token key m mid) in Hs2; [|done..].
    destruct (admits token c' _) as [y|] eqn:Hy; [|done].
    by apply (admits_standing token key m) in Hy as (_ & _ & []).
Qed.
End enrolments.

(** A QR code that is checked, spent, and presented again. *)
Definition qr_calls : list enrolment_call :=
  [CallCheck "t0k" (2 * Minute); CallSpend "t0k" (3 * Minute) (3 * Minute); CallCheck "t0k" (4 * Minute)].

Definition qr_minted : Enrolments :=
  let _ := some_order in let _ := stable_sort in
  (Mint (DeviceScope "ipad") "t0k" "01J" 0 ∅).2.

Lemma enrolment_one_shot_witness :
  let _ := some_order in let _ := stable_sort in
  admits "t0k" (CallSpend "t0k" (3 * Minute) (3 * Minute))
    (enrolment_run [CallCheck "t0k" (2 * Minute)] qr_minted) =
    Some (mkEnrolment "01J" "ipad" 0 (10 * Minute)) ∧
  admits "t0k" (CallCheck "t0k" (4 * Minute))
    (enrolment_run [] (enrolment_step (CallSpend "t0k" (3 * Minute) (3 * Minute))
       (enrolment_run [CallCheck "t0k" (2 * Minute)] qr_minted))) = None.
Proof.
  intros R S. split; [vm_compute; reflexivity|].
  destruct (@enrolment_one_shot R S (DeviceScope "ipad") "t0k" "01J" 0 ∅ (mkEnrolment "01J" "ipad" 0 (10 * Minute))
    qr_minted qr_calls) as (_ & _ & H).
  - vm_compute. reflexivity.
  - discriminate.
  - intros k r. by rewrite lookup_empty.
  - repeat constructor.
  - destruct (H [CallCheck "t0k" (2 * Minute)] _ _ eq_refl) as [_ He].
    apply (λ Hends, He Hends [] _ [] eq_refl). vm_compute. eexists. reflexivity.
Defined.
