(* ===== verification/WebAuthn.v ===== *)
(** * WebAuthn: the relying party and the library's side of a ceremony

    Models core/internal/auth/passkey_rpid.go and the parts of passkey.go that speak to
    github.com/go-webauthn/webauthn: the relying party of an address, the [User] handed to the
    library, and the credentials as the library wants them.  The library itself is a parameter, the
    class [WebAuthn], and [webauthn_law] is what quince relies on it for: the finish of a login
    admits only the credential that the response names, that the resolved user owns, under the
    user's own handle, and in the session's allow-list when that is not empty (go-webauthn v0.17.4,
    login.go, as the comments of reauth.go and passkey_login.go describe it). *)

From Stdlib Require Import String Ascii.
From S2P Require Import Prelude Base64 AuthErrors AuthStore Net.

#[local] Open Scope quince_scope.

(** [strings.TrimSuffix] by a dot. *)
Fixpoint trim_dot (s : string) : string :=
  match s with
  | EmptyString => EmptyString
  | String c EmptyString => if Z_of_char c =? 46 then EmptyString else s
  | String c s' => String c (trim_dot s')
  end.

(** The request's Host header. *)
Definition RPIDFromRequest (host : string) : string :=
  trim_dot (match SplitHostPort host with Some (h, _) => h | None => host end).

Definition isUsableRPID (rpID : string) : bool :=
  if String.eqb rpID "" then false
  else if String.eqb rpID "localhost" then true
  else if bool_decide (is_Some (ParseIP rpID)) then false
  else str_contains rpID ".".

Definition RPIDSupported (rpID : string) : bool := isUsableRPID rpID.

(** ** What the library is handed *)

Record waConfig : Type := mkWaConfig {
  wc_RPDisplayName : string; wc_RPID : string; wc_RPOrigins : list string;
  wc_ResidentKey : string; wc_RequireResidentKey : bool; wc_UserVerification : string }.

Record waCredential : Type := mkWaCredential {
  cr_ID : string; cr_PublicKey : string; cr_BackupEligible : bool; cr_BackupState : bool;
  cr_SignCount : Z; cr_AAGUID : string }.

Record passkeyUser : Type := mkUser { wu_handle : string; wu_creds : list waCredential; wu_name : string }.

Definition adminUsername : string := "quince-admin".
Definition WebAuthnName (u : passkeyUser) : string :=
  if String.eqb (wu_name u) "" then adminUsername else wu_name u.

(** The library.  A request carries the authenticator's answer. *)
Class WebAuthn : Type := {
  RP : Type;                              (* *webauthn.WebAuthn *)
  SessionData : Type;
  Request : Type;
  Options : Type;                         (* what the browser is sent *)
  wa_New : waConfig → outcome RP;
  (* the allow-list's ids; [[]] sends none *)
  wa_BeginDiscoverableLogin : RP → list string → outcome (Options * SessionData);
  (* the raw id and user handle of an assertion *)
  wa_parse_assertion : Request → outcome (string * string);
  wa_validate_login : RP → passkeyUser → SessionData → Request → outcome waCredential;
  (* the exclusion list's ids *)
  wa_BeginRegistration : RP → passkeyUser → list string → outcome (Options * SessionData);
  wa_FinishRegistration : RP → passkeyUser → SessionData → Request → outcome waCredential;
  wa_AllowedCredentialIDs : SessionData → list string }.

Record webauthn_law (wa : WebAuthn) : Prop := {
  begin_login_allows : ∀ rp allowed o s,
    wa_BeginDiscoverableLogin rp allowed = Done (o, s) → wa_AllowedCredentialIDs s = allowed;
  login_validates : ∀ rp u s r c, wa_validate_login rp u s r = Done c →
    ∃ raw, wa_parse_assertion r = Done (raw, wu_handle u) ∧ cr_ID c = raw ∧
      raw ∈ cr_ID <$> wu_creds u ∧
      (wa_AllowedCredentialIDs s = [] ∨ raw ∈ wa_AllowedCredentialIDs s) }.

Section library.
Context `{!WebAuthn}.

Definition rpDisplayName : string := "quince".

Definition relyingParty (rpID : string) : outcome RP :=
  if negb (isUsableRPID rpID) then Refuse (ErrUnsupportedRPID rpID)
  else wa_New (mkWaConfig rpDisplayName rpID ["https://" +:+ rpID] "required" true "preferred").

(** [FinishPasskeyLogin]: the handler is asked for the user of the credential that the response
    names, and the response is validated against that user.  What quince's handlers leave in the
    variable they capture is returned beside the credential. *)
Definition FinishPasskeyLogin {S X} (rp : RP)
    (handler : string → string → stateM S (outcome (passkeyUser * X)))
    (session : SessionData) (r : Request) : stateM S (outcome (X * waCredential)) :=
  match wa_parse_assertion r with
  | Refuse e => refuse e
  | Done (rawID, userHandle) =>
      let! found := handler rawID userHandle in
      match wa_validate_login rp found.1 session r with
      | Done cred => done (found.2, cred)
      | Refuse e => refuse e
      end
  end.

(** ** Stored rows as the library's credentials *)

Definition to_credential (id : string) (p : Passkey) : waCredential :=
  mkWaCredential id (pk_PublicKey p) (default false (pk_BackupEligible p)) (default false (pk_BackupState p))
    (pk_SignCount p) (pk_AAGUID p).

Fixpoint credentialsFrom (rows : list Passkey) (rpID : string) : outcome (list waCredential) :=
  match rows with
  | [] => Done []
  | p :: rows =>
      if negb (String.eqb (pk_RPID p) rpID) then credentialsFrom rows rpID
      else match DecodeString RawURLEncoding (pk_CredentialID p) with
           | None => Refuse (ErrOther ("passkey " +:+ quote (pk_Name p) +:+ ": undecodable credential id"))
           | Some id =>
               match credentialsFrom rows rpID with
               | Done out => Done (to_credential id p :: out)
               | Refuse e => Refuse e
               end
           end
  end.

Definition credentialDescriptors (creds : list waCredential) : list string := cr_ID <$> creds.

Definition existingCredentials (rpID : string) : stateM AuthDB (outcome (list waCredential)) :=
  let! rows := ListPasskeys in mret (credentialsFrom rows rpID).

Definition adminCredentials (rpID : string) : stateM AuthDB (outcome (list waCredential)) :=
  let! rows := ListAdminPasskeys in mret (credentialsFrom rows rpID).

(** Every admin credential of the address but the target. *)
Definition allowedForRemoval (rpID target : string) : stateM AuthDB (outcome (list string)) :=
  let! creds := adminCredentials rpID in
  done (cr_ID <$> filter (λ c, EncodeToString RawURLEncoding (cr_ID c) ≠ target) creds).

Definition ResolveCredential (credentialID rpID : string) : stateM AuthDB (outcome Passkey) :=
  let! pk := GetPasskey credentialID in
  match pk with
  | None => refuse ErrNoCredential
  | Some pk => if negb (String.eqb (pk_RPID pk) rpID) then refuse (ErrRPIDMismatch (pk_RPID pk) rpID)
               else done pk
  end.
End library.

Example rpid_port : RPIDFromRequest "quince.example.com:8443" = "quince.example.com"%string.
Proof. vm_compute. reflexivity. Qed.
Example rpid_dot : RPIDFromRequest "quince.example.com." = "quince.example.com"%string.
Proof. vm_compute. reflexivity. Qed.
Example rpid_ip : isUsableRPID "192.168.1.20" = false ∧ isUsableRPID "::ffff:10.0.0.1" = false ∧
  isUsableRPID "quince" = false ∧ isUsableRPID "localhost" = true ∧ isUsableRPID "quince.lan" = true.
Proof. vm_compute. repeat split. Qed.

(** ** Which credentials a list holds *)

Lemma credentialsFrom_ids rows rpID creds : (∀ p, p ∈ rows → canonical RawURLEncoding (pk_CredentialID p)) →
  credentialsFrom rows rpID = Done creds →
  ∀ id, id ∈ cr_ID <$> creds ↔ ∃ p, p ∈ rows ∧ pk_RPID p = rpID ∧ pk_CredentialID p = EncodeToString RawURLEncoding id.
Proof.
  revert creds. induction rows as [|p rows IH]; intros creds Hcan H id; simpl in H.
  - simplify_eq. simpl. split; [by intros []%elem_of_nil|]. by intros (p & []%elem_of_nil & _).
  - assert (∀ q, q ∈ rows → canonical RawURLEncoding (pk_CredentialID q)) as Hcan' by (intros; apply Hcan; by right).
    assert (∀ creds, credentialsFrom rows rpID = Done creds → id ∈ cr_ID <$> creds ↔
      ∃ q, q ∈ rows ∧ pk_RPID q = rpID ∧ pk_CredentialID q = EncodeToString RawURLEncoding id) as IH'.
    { intros cs Hcs. by apply IH. }
    clear IH. destruct (String.eqb_spec (pk_RPID p) rpID) as [Hrp|Hrp]; simpl in H.
    + destruct (Hcan p) as [raw Hraw]; [by left|]. rewrite Hraw, decode_encode in H.
      destruct (credentialsFrom rows rpID) as [out|e]; [|done]. simplify_eq. simpl. rewrite elem_of_cons, IH' by done.
      split.
      * intros [-> |(q & Hq & ? & ?)]; [by exists p; split; [left|]|by exists q; split; [right|]].
      * intros (q & [->|Hq]%elem_of_cons & ? & Hid); [left|right; by exists q].
        rewrite Hraw in Hid. by apply (inj (EncodeToString RawURLEncoding)) in Hid.
    + rewrite IH' by done. split.
      * intros (q & Hq & ? & ?). exists q. split; [by right|done].
      * intros (q & [->|Hq]%elem_of_cons & ? & ?); [done|by exists q].
Qed.
