(* ===== verification/AuthService.v ===== *)
(** * AuthService: the state of authentication, sessions and login

    Models core/internal/auth/service.go (state, claiming, sessions, login), principal.go, reset.go
    and [mintSession] of setup_passkey.go.  The state is the database, the login limiter, and the
    in-memory stores of proofs, ceremonies and enrolment secrets.  The clock, the random source, the
    id generator and the password derivation are the class [AuthEnv]: the n-th reading or draw is a
    function of n, and the state counts them. *)

From Stdlib Require Import String Ascii.
From S2P Require Import Prelude Store Base64 Argon2 AuthErrors AuthStore.
From S2P Require Import Limiter Proofs Enrolment WebAuthn.

#[local] Open Scope quince_scope.

Class AuthEnv : Type := {
  clock : nat → time;                   (* the n-th [time.Now] *)
  rand_read : nat → Z → string;         (* the n-th [rand.Read], of a length; it does not fail *)
  ulid : nat → string;                  (* the n-th [id.New] *)
  IDKey : string → string → Z → Z → Z → Z → string }.

Definition settingPasswordHash : string := "password_hash".
Definition StateNeedsSetup : string := "needs_setup".
Definition StateNeedsLogin : string := "needs_login".
Definition StateAuthenticated : string := "authenticated".

(** [NewService]'s settings. *)
Definition idleTimeout : duration := 12 * Hour.
Definition absoluteTimeout : duration := 30 * 24 * Hour.
Definition minPasswordLen : Z := 1.

Section service.
Context `{!AuthEnv, !WebAuthn}.

Record Auth : Type := mkAuth {
  au_db : AuthDB;
  au_limiter : loginLimiter;
  au_proofs : Proofs;
  au_reauth : gmap string (pendingReauth SessionData);
  au_ceremonies : gmap string (pendingCeremony SessionData);
  au_enrolments : Enrolments;
  au_reads : nat;                       (* readings of the clock so far *)
  au_draws : nat;                       (* draws of randomness so far *)
  au_ids : nat }.                       (* ids so far *)

Definition NewService (db : AuthDB) : Auth :=
  mkAuth db (newLoginLimiter 10 Minute) ∅ ∅ ∅ ∅ 0 0 0.

Definition set_db (d : AuthDB) (s : Auth) : Auth :=
  mkAuth d (au_limiter s) (au_proofs s) (au_reauth s) (au_ceremonies s) (au_enrolments s)
    (au_reads s) (au_draws s) (au_ids s).
Definition set_limiter (l : loginLimiter) (s : Auth) : Auth :=
  mkAuth (au_db s) l (au_proofs s) (au_reauth s) (au_ceremonies s) (au_enrolments s)
    (au_reads s) (au_draws s) (au_ids s).
Definition set_proofs (p : Proofs) (s : Auth) : Auth :=
  mkAuth (au_db s) (au_limiter s) p (au_reauth s) (au_ceremonies s) (au_enrolments s)
    (au_reads s) (au_draws s) (au_ids s).
Definition set_reauth (c : gmap string (pendingReauth SessionData)) (s : Auth) : Auth :=
  mkAuth (au_db s) (au_limiter s) (au_proofs s) c (au_ceremonies s) (au_enrolments s)
    (au_reads s) (au_draws s) (au_ids s).
Definition set_ceremonies (c : gmap string (pendingCeremony SessionData)) (s : Auth) : Auth :=
  mkAuth (au_db s) (au_limiter s) (au_proofs s) (au_reauth s) c (au_enrolments s)
    (au_reads s) (au_draws s) (au_ids s).
Definition set_enrolments (e : Enrolments) (s : Auth) : Auth :=
  mkAuth (au_db s) (au_limiter s) (au_proofs s) (au_reauth s) (au_ceremonies s) e
    (au_reads s) (au_draws s) (au_ids s).

Abbreviation auth A := (stateM Auth (outcome A)).

Definition sql {A} (m : stateM AuthDB A) : stateM Auth A := lift_state au_db set_db m.
Definition proofs {A} (m : stateM Proofs A) : stateM Auth A := lift_state au_proofs set_proofs m.
Definition enrolments {A} (m : stateM Enrolments A) : stateM Auth A :=
  lift_state au_enrolments set_enrolments m.

Definition now : stateM Auth time := λ s,
  (clock (au_reads s),
   mkAuth (au_db s) (au_limiter s) (au_proofs s) (au_reauth s) (au_ceremonies s) (au_enrolments s)
     (S (au_reads s)) (au_draws s) (au_ids s)).
Definition draw (n : Z) : stateM Auth string := λ s,
  (rand_read (au_draws s) n,
   mkAuth (au_db s) (au_limiter s) (au_proofs s) (au_reauth s) (au_ceremonies s) (au_enrolments s)
     (au_reads s) (S (au_draws s)) (au_ids s)).
Definition newID : stateM Auth string := λ s,
  (ulid (au_ids s),
   mkAuth (au_db s) (au_limiter s) (au_proofs s) (au_reauth s) (au_ceremonies s) (au_enrolments s)
     (au_reads s) (au_draws s) (S (au_ids s))).

(** [id.Token], and the keys of proofs and ceremonies. *)
Definition Token (n : Z) : stateM Auth string :=
  raw ← draw n; mret (EncodeToString RawURLEncoding raw).
Definition NewCSRFToken : stateM Auth string := Token 32.

(** [if !s.limiter.allow(clientIP, t) { return ErrRateLimited }]. *)
Definition limit_at (clientIP : string) (t : time) : auth unit :=
  ok ← lift_state au_limiter set_limiter (allow clientIP t);
  if ok : bool then done tt else refuse ErrRateLimited.
Definition limit (clientIP : string) : auth unit := t ← now; limit_at clientIP t.
Definition reset_limiter (clientIP : string) : stateM Auth unit :=
  modify (λ s, set_limiter (reset clientIP (au_limiter s)) s).

(** A failed append is logged and forgotten. *)
Definition audit (event clientIP : string) : stateM Auth unit :=
  id ← newID; t ← now;
  _ ← sql (AppendAudit (mkAudit id t event (if String.eqb clientIP "" then "" else "ip=" +:+ clientIP)));
  mret tt.

(** ** Claimed or not *)

Definition HasPassword : auth bool :=
  let! v := sql (GetSetting settingPasswordHash) in done (bool_decide (is_Some v)).

Definition Configured : auth bool :=
  let! has := HasPassword in
  if has : bool then done true
  else let! n := sql CountPasskeys in done (0 <? n).

(** ** Sessions *)

Definition Authenticate (sessionID : string) : auth AuthSession :=
  let! found := sql (GetAuthSession sessionID) in
  match found with
  | None => refuse ErrNoSession
  | Some sess =>
      t ← now;
      if (se_ExpiresAt sess <? t) || (idleTimeout <? time_sub t (se_LastSeenAt sess)) then
        _ ← sql (DeleteAuthSession sessionID); refuse ErrSessionExpired
      else if Minute <? time_sub t (se_LastSeenAt sess) then
        r ← sql (TouchAuthSession sessionID t);
        match r with Done _ => done (seen_at t sess) | Refuse _ => done sess end
      else done sess
  end.

Definition Status (sessionID : string) : auth string :=
  let! has := Configured in
  if negb has then done StateNeedsSetup
  else if String.eqb sessionID "" then done StateNeedsLogin
  else r ← Authenticate sessionID;
       match r with Done _ => done StateAuthenticated | Refuse _ => done StateNeedsLogin end.

Definition Logout (sessionID : string) : auth unit :=
  if String.eqb sessionID "" then done tt
  else _ ← audit "logout" ""; sql (DeleteAuthSession sessionID).

(** The caller's own session goes; every other device keeps its own. *)
Definition supersede (priorSessionID : string) : auth unit :=
  if String.eqb priorSessionID "" then done tt else sql (DeleteAuthSession priorSessionID).

(** A fresh session of [credentialID], created at [t], and a CSRF token. *)
Definition open_session (t : time) (priorSessionID : string) (credentialID : option string) :
    auth AuthSession :=
  supersede priorSessionID ;;!
  id ← Token 32;
  let sess := mkSession id t t (t + absoluteTimeout) credentialID in
  sql (CreateAuthSession sess) ;;!
  done sess.

Definition mintSession (priorSessionID : string) (credentialID : option string) :
    auth (AuthSession * string) :=
  t ← now;
  let! sess := open_session t priorSessionID credentialID in
  csrf ← NewCSRFToken;
  done (sess, csrf).

Definition Login (password clientIP priorSessionID : string) : auth (AuthSession * string) :=
  t ← now;
  limit_at clientIP t ;;!
  let! hash := sql (GetSetting settingPasswordHash) in
  match hash with
  | None => refuse ErrNoPassword
  | Some hash =>
      match verifyPassword IDKey password hash with
      | Err msg => refuse (ErrOther msg)
      | Ok false => _ ← audit "login_failed" clientIP; refuse ErrBadPassword
      | Ok true =>
          let! sess := open_session t priorSessionID None in
          _ ← reset_limiter clientIP;
          _ ← audit "login" clientIP;
          csrf ← NewCSRFToken;
          done (sess, csrf)
      end
  end.

(** ** Who a session acts as *)

(** The credential id, or [""] for a password login. *)
Definition PrincipalOf (sess : AuthSession) : string := default ""%string (se_CredentialID sess).
Definition IsPasswordLogin (p : string) : bool := String.eqb p "".

Definition ScopeOf (p : string) : auth string :=
  if IsPasswordLogin p then done ""%string
  else let! pk := sql (GetPasskey p) in
       match pk with
       | None => refuse ErrCredentialRevoked
       | Some pk => done (default ""%string (pk_ScopeUDID pk))
       end.

(** ** The console's reset: another process, on the database alone *)

Record ResetResult : Type := mkReset {
  rr_HadPassword : bool; rr_Passkeys : Z; rr_ScopedPasskeys : Z; rr_Sessions : Z }.

(** What had gone by the first error is reported with it. *)
Definition Reset : stateM AuthDB (ResetResult * option AuthError) :=
  r ← DeleteSetting settingPasswordHash;
  match r with
  | Refuse e => mret (mkReset false 0 0 0, Some e)
  | Done had =>
      r ← DeleteAllPasskeys;
      match r with
      | Refuse e => mret (mkReset had 0 0 0, Some e)
      | Done (n, scoped) =>
          r ← DeleteAllAuthSessions;
          match r with
          | Refuse e => mret (mkReset had n scoped 0, Some e)
          | Done k => mret (mkReset had n scoped k, None)
          end
      end
  end.
End service.

Abbreviation auth A := (stateM Auth (outcome A)).
