(* ===== verification/Credentials.v ===== *)
(** * Credentials: setting, changing and removing them

    Models core/internal/auth/service.go (the operations on the password and the passkeys),
    accepts.go and [RequirePresent] of proof.go: what a change of the credential set demands, what
    it refuses, and what it ends. *)

From Stdlib Require Import String Ascii.
From S2P Require Import Prelude Argon2 AuthErrors AuthStore.
From S2P Require Import Limiter Proofs WebAuthn AuthService AuthStore.

#[local] Open Scope quince_scope.

Definition FactorPassword : string := "password".
Definition FactorPasskey : string := "passkey".

Section credentials.
Context `{!AuthEnv, !WebAuthn}.

(** ** What would satisfy an operation *)

Definition Accepts (op : ProofOperation) (rpID target : string) : auth (list string) :=
  if negb (op_valid op) then done []
  else
    let! out := (if negb (String.eqb op OpRemovePassword) then
        let! hash := sql (GetSetting settingPasswordHash) in
        done (if bool_decide (is_Some hash) then [FactorPassword] else [])
      else done []) in
    if String.eqb op OpRemovePasskey then
      let! allowed := sql (allowedForRemoval rpID target) in
      done (out ++ if bool_decide (allowed = []) then [] else [FactorPasskey])
    else
      let! creds := sql (adminCredentials rpID) in
      done (out ++ if bool_decide (cr_ID <$> creds = []) then [] else [FactorPasskey]).

(** ** The present credential *)

Definition RequirePresent (pres : Presented) (op : ProofOperation) (target sessionID clientIP : string) :
    auth ProofSubject :=
  let! configured := Configured in
  if negb configured then done zero_subject
  else if negb (String.eqb (pr_Proof pres) "") then
    t ← now; proofs (Consume (pr_Proof pres) op target sessionID t)
  else if String.eqb (pr_Password pres) "" then refuse ErrNoProof
  else
    let! hash := sql (GetSetting settingPasswordHash) in
    match hash with
    | None => refuse ErrNoProof
    | Some hash =>
        limit clientIP ;;!
        match verifyPassword IDKey (pr_Password pres) hash with
        | Err msg => refuse (ErrOther msg)
        | Ok false => _ ← audit "present_failed" clientIP; refuse ErrBadPassword
        | Ok true => done (mkSubject true "")
        end
    end.

(** ** The refusals of a removal: what they say *)

(** The addresses of rows, each once, in the order of the rows. *)
Fixpoint distinct_rps (seen : list string) (rows : list Passkey) : list string :=
  match rows with
  | [] => []
  | p :: rows =>
      if bool_decide (pk_RPID p ∈ seen) then distinct_rps seen rows
      else pk_RPID p :: distinct_rps (pk_RPID p :: seen) rows
  end.

Definition passwordRemovalRefusal (rpID : string) : stateM Auth AuthError :=
  r ← sql ListAdminPasskeys;
  mret (match r with
  | Refuse e => e
  | Done rows =>
      if bool_decide (Exists (λ p, pk_RPID p = rpID) rows) then
        ErrSelfRemoval "the password cannot authorise its own removal — confirm with a passkey instead."
      else ErrLastCredential rpID (distinct_rps [] rows)
  end).

(** [None]: something here can prove the removal. *)
Definition passkeyRemovalRefusal (credentialID rpID : string) : stateM Auth (option AuthError) :=
  r ← HasPassword;
  match r with
  | Refuse e => mret (Some e)
  | Done hasPassword =>
      r ← sql ListAdminPasskeys;
      mret (match r with
      | Refuse e => Some e
      | Done rows =>
          let others := filter (λ p, pk_CredentialID p ≠ credentialID) rows in
          if bool_decide (Exists (λ p, pk_RPID p = rpID) others) then None
          else Some (ErrLastPasskey rpID (distinct_rps [] others) hasPassword)
      end)
  end.

(** ** The password *)

Definition hash_password (pw : string) : stateM Auth string :=
  let p := defaultArgonParams in
  salt ← draw (saltLen p); mret (hashPassword IDKey salt pw p).

Definition password_too_short (pw : string) : bool := Z.of_nat (String.length pw) <? minPasswordLen.

Definition SetPassword (password clientIP : string) : auth unit :=
  limit clientIP ;;!
  if password_too_short password then refuse ErrWeakPassword
  else
    let! has := Configured in
    if has : bool then refuse ErrAlreadyConfigured
    else
      hash ← hash_password password;
      let! inserted := sql (SetSettingIfAbsent settingPasswordHash hash) in
      if inserted : bool then done tt else refuse ErrAlreadyConfigured.

(** Sessions end best effort: a failure is logged. *)
Definition end_sessions (credentialID : option string) (except event clientIP : string) : stateM Auth unit :=
  r ← sql (DeleteAuthSessionsFor credentialID except);
  match r with
  | Done n => if 0 <? n then audit event clientIP else mret tt
  | Refuse _ => mret tt
  end.

Definition ChangePassword (pres : Presented) (next sessionID clientIP : string) : auth unit :=
  limit clientIP ;;!
  if password_too_short next then refuse ErrWeakPassword
  else
    r ← RequirePresent pres OpSetPassword "" sessionID clientIP;
    match r with
    | Refuse e =>
        _ ← (if bool_decide (e = ErrBadPassword) then audit "password_change_failed" clientIP else mret tt);
        refuse e
    | Done _ =>
        newHash ← hash_password next;
        sql (SetSetting settingPasswordHash newHash) ;;!
        (_ ← end_sessions None sessionID "sessions_ended_password_changed" clientIP;
         _ ← audit "password_changed" clientIP;
         done tt)
    end.

(** Everything [RemovePassword] asks before it deletes: that this address has another way in, and
    a present credential that is not the password. *)
Definition authorize_password_removal (pres : Presented) (rpID sessionID clientIP : string) : auth unit :=
  let! configured := Configured in
  (if configured : bool then
     let! accepts := Accepts OpRemovePassword rpID "" in
     if bool_decide (accepts = []) then refusal ← passwordRemovalRefusal rpID; refuse refusal
     else done tt
   else done tt) ;;!
  let! subject := RequirePresent pres OpRemovePassword "" sessionID clientIP in
  if su_Password subject then refusal ← passwordRemovalRefusal rpID; refuse refusal
  else done tt.

Definition erase_password (sessionID clientIP : string) : auth unit :=
  sql (DeleteSetting settingPasswordHash) ;;!
  (_ ← end_sessions None sessionID "sessions_ended_password_removed" clientIP;
   _ ← audit "password_removed" clientIP;
   done tt).

Definition RemovePassword (pres : Presented) (rpID sessionID clientIP : string) : auth unit :=
  authorize_password_removal pres rpID sessionID clientIP ;;! erase_password sessionID clientIP.

(** ** Passkeys *)

(** A read that fails must not delete: it reports a credential. *)
Definition scopeHasCredential (udid : string) : stateM Auth bool :=
  r ← sql ListPasskeys;
  mret (match r with
  | Refuse _ => true
  | Done rows => bool_decide (Exists (λ p, pk_ScopeUDID p = Some udid) rows)
  end).

(** The subscriptions of a device whose last credential went. *)
Definition end_subscriptions (scope clientIP : string) : stateM Auth unit :=
  if String.eqb scope "" then mret tt
  else
    has ← scopeHasCredential scope;
    if has : bool then mret tt
    else
      r ← sql (DeletePushSubscriptionsForScope scope);
      match r with
      | Done n => if 0 <? n then audit "push_subscriptions_ended_passkey_removed" clientIP else mret tt
      | Refuse _ => mret tt
      end.

(** Everything [RemovePasskey] asks before it deletes. *)
Definition authorize_passkey_removal (pres : Presented) (credentialID rpID sessionID clientIP : string) :
    auth unit :=
  let! configured := Configured in
  (if configured : bool then
     let! accepts := Accepts OpRemovePasskey rpID credentialID in
     if bool_decide (accepts = []) then
       refusal ← passkeyRemovalRefusal credentialID rpID;
       match refusal with Some e => refuse e | None => done tt end
     else done tt
   else done tt) ;;!
  let! subject := RequirePresent pres OpRemovePasskey credentialID sessionID clientIP in
  if IsCredential credentialID subject then
    refuse (ErrSelfRemoval
      "a passkey cannot authorise its own removal — use your password, or a different passkey.")
  else done tt.

(** The scope is read before the row goes. *)
Definition erase_passkey (credentialID sessionID clientIP : string) : auth bool :=
  r ← sql (GetPasskey credentialID);
  let removedScope := match r with
    | Done (Some pk) => default ""%string (pk_ScopeUDID pk) | _ => ""%string end in
  let! deleted := sql (DeletePasskey credentialID) in
  if negb deleted then done false
  else
    _ ← end_sessions (Some credentialID) sessionID "sessions_ended_passkey_removed" clientIP;
    _ ← end_subscriptions removedScope clientIP;
    done true.

Definition RemovePasskey (pres : Presented) (credentialID rpID sessionID clientIP : string) : auth bool :=
  authorize_passkey_removal pres credentialID rpID sessionID clientIP ;;!
  erase_passkey credentialID sessionID clientIP.
End credentials.
