(* ===== verification/Passkeys.v ===== *)
(** * Passkeys: registration, login, re-authentication and enrolment

    Models core/internal/auth/passkey.go, passkey_login.go, reauth.go, setup_passkey.go and
    enrolment_ceremony.go: the two halves of every WebAuthn ceremony, over the library's interface
    [WebAuthn]. *)

From Stdlib Require Import String Ascii.
From S2P Require Import Prelude Base64 AuthErrors AuthStore.
From S2P Require Import Limiter Proofs Enrolment WebAuthn AuthService Credentials.

#[local] Open Scope quince_scope.

Definition settingPasskeyUserHandle : string := "passkey_user_handle".

Definition decode_handle (v : string) : outcome string :=
  match DecodeString RawURLEncoding v with
  | Some raw => Done raw | None => Refuse (ErrOther "illegal base64 data") end.

Section passkeys.
Context `{!AuthEnv, !WebAuthn, !MapRange, !SortSlice}.

(** ** The handle of a principal *)

(** The admin's, minted once. *)
Definition userHandle : auth string :=
  let! v := sql (GetSetting settingPasskeyUserHandle) in
  match v with
  | Some v => mret (decode_handle v)
  | None =>
      raw ← draw 32;
      let! inserted := sql (SetSettingIfAbsent settingPasskeyUserHandle (EncodeToString RawURLEncoding raw)) in
      if inserted : bool then done raw
      else let! v := sql (GetSetting settingPasskeyUserHandle) in mret (decode_handle (default ""%string v))
  end.

(** The handle of the first credential of the scope. *)
Fixpoint first_handle (udid : string) (rows : list Passkey) : option string :=
  match rows with
  | [] => None
  | p :: rows =>
      match pk_UserHandle p with
      | Some h => if bool_decide (pk_ScopeUDID p = Some udid) then Some h else first_handle udid rows
      | None => first_handle udid rows
      end
  end.

Definition handleForScope (scope : Scope) : auth string :=
  if IsAdmin scope then userHandle
  else
    let! rows := sql ListPasskeys in
    match first_handle (sc_udid scope) rows with
    | Some h => mret (decode_handle h)
    | None => raw ← draw 32; done raw
    end.

Definition storedHandle (scope : Scope) (handle : string) : option string :=
  if IsAdmin scope then None else Some (EncodeToString RawURLEncoding handle).

Definition handleOf (pk : Passkey) : auth string :=
  match pk_UserHandle pk with None => userHandle | Some h => mret (decode_handle h) end.

(** The last named row of the device; [""] is the admin. *)
Definition device_name (udid : string) (rows : list DeviceIdentityRow) : string :=
  fold_left (λ m d, if negb (String.eqb (di_Name d) "") && String.eqb (di_UDID d) udid then di_Name d else m)
    rows ""%string.

Definition scopeUsername (scope : Scope) : auth string :=
  if IsAdmin scope then done ""%string
  else
    let! rows := sql ListDeviceIdentities in
    let name := device_name (sc_udid scope) rows in
    if String.eqb name "" then refuse ErrUnknownScopeDevice else done name.

(** ** Registration *)

(** [PasskeyCeremonies.put] and [take]. *)
Definition put_ceremony (session : SessionData) (rpID : string) (kind : ceremonyKind) (scope : Scope)
    (handle : option string) : stateM Auth string :=
  key ← Token 32; t ← now;
  _ ← modify (λ s, set_ceremonies (ceremony_put session rpID kind scope handle key t (au_ceremonies s)) s);
  mret key.

Definition take_ceremony (key : string) (want : ceremonyKind) : auth (pendingCeremony SessionData) :=
  t ← now;
  found ← lift_state au_ceremonies set_ceremonies (ceremony_take key want t);
  match found with Some p => done p | None => refuse ErrNoChallenge end.

Definition BeginPasskeyRegistration (rpID : string) (scope : Scope) (disclose : Disclosure) :
    auth (Options * string) :=
  if negb (dc_set disclose) then refuse ErrDisclosureUnset
  else
    let! wa := mret (relyingParty rpID) in
    let! handle := handleForScope scope in
    let! username := scopeUsername scope in
    let! existing := sql (existingCredentials rpID) in
    let! begun := mret (wa_BeginRegistration wa (mkUser handle existing username)
                    (if dc_exclude disclose then credentialDescriptors existing else [])) in
    key ← put_ceremony begun.2 rpID ceremonyRegister scope (Some handle);
    done (begun.1, key).

Definition FinishPasskeyRegistration (key name rpID : string) (r : Request) (at_ : time) (scope : Scope) :
    auth Passkey :=
  let! pending := take_ceremony key ceremonyRegister in
  if negb (String.eqb (ce_rpID pending) rpID) then refuse (ErrRPIDMismatch (ce_rpID pending) rpID)
  else if negb (bool_decide (ce_scope pending = scope)) then refuse ErrScopeMismatch
  else
    let! wa := mret (relyingParty (ce_rpID pending)) in
    let! handle := match ce_handle pending with Some h => done h | None => handleForScope scope end in
    let! username := scopeUsername scope in
    let! existing := sql (existingCredentials (ce_rpID pending)) in
    let! cred := mret (wa_FinishRegistration wa (mkUser handle existing username) (ce_session pending) r) in
    let pk := mkPasskey (EncodeToString RawURLEncoding (cr_ID cred)) (cr_PublicKey cred) (ce_rpID pending)
      (cr_SignCount cred) (Some (cr_BackupEligible cred)) (Some (cr_BackupState cred)) (cr_AAGUID cred) ""
      name at_ zero_time None (storedHandle scope handle) in
    sql (InsertPasskey pk scope) ;;!
    done pk.

(** What POST /api/auth/passkeys/register/begin asks for before the ceremony starts. *)
Definition RegisterBegin (pres : Presented) (rpID sessionID clientIP : string) : auth (Options * string) :=
  RequirePresent pres OpAddPasskey "" sessionID clientIP ;;!
  BeginPasskeyRegistration rpID AdminScope ExcludeRegistered.

(** ** Login *)

(** The user behind the credential that an assertion names, with its row. *)
Definition resolve_user (rpID rawID : string) : auth (passkeyUser * Passkey) :=
  let! pk := sql (ResolveCredential (EncodeToString RawURLEncoding rawID) rpID) in
  let! creds := sql (existingCredentials rpID) in
  let! handle := handleOf pk in
  done (mkUser handle creds "", pk).

Definition allowedForHint (hint : string) : list string :=
  if String.eqb hint "" then []
  else match DecodeString RawURLEncoding hint with
       | Some (String c raw) => [String c raw]
       | _ => []
       end.

Definition BeginPasskeyAssertion (rpID clientIP hint : string) : auth (Options * string) :=
  limit clientIP ;;!
  let! wa := mret (relyingParty rpID) in
  let! begun := mret (wa_BeginDiscoverableLogin wa (allowedForHint hint)) in
  key ← put_ceremony begun.2 rpID ceremonyAssert zero_Scope None;
  done (begun.1, key).

Definition FinishPasskeyAssertion (key rpID clientIP : string) (r : Request) (priorSessionID : string) :
    auth (AuthSession * string) :=
  t ← now;
  limit_at clientIP t ;;!
  let! pending := take_ceremony key ceremonyAssert in
  if negb (String.eqb (ce_rpID pending) rpID) then refuse (ErrRPIDMismatch (ce_rpID pending) rpID)
  else
    let! wa := mret (relyingParty (ce_rpID pending)) in
    let! verified := FinishPasskeyLogin wa (λ rawID _, resolve_user (ce_rpID pending) rawID)
                       (ce_session pending) r in
    let id := pk_CredentialID verified.1 in
    sql (TouchPasskey id (cr_SignCount verified.2) (Some (cr_BackupState verified.2)) t) ;;!
    let! sess := open_session t priorSessionID (Some id) in
    _ ← reset_limiter clientIP;
    _ ← audit "login_passkey" clientIP;
    csrf ← NewCSRFToken;
    done (sess, csrf).

(** ** Re-authentication *)

(** [None]: a ceremony could produce a proof. *)
Definition provable (op : ProofOperation) (rpID target : string) : stateM Auth (option AuthError) :=
  if String.eqb op OpRemovePasskey then passkeyRemovalRefusal target rpID
  else if String.eqb op OpRemovePassword then
    r ← sql ListAdminPasskeys;
    mret (match r with
    | Refuse e => Some e
    | Done rows => if bool_decide (Exists (λ p, pk_RPID p = rpID) rows) then None
                   else Some (ErrLastCredential rpID (distinct_rps [] rows))
    end)
  else mret None.

Definition put_reauth (p : pendingReauth SessionData) : stateM Auth string :=
  key ← Token 32; t ← now;
  _ ← modify (λ s, set_reauth (reauth_put p key t (au_reauth s)) s);
  mret key.

Definition take_reauth (key : string) : auth (pendingReauth SessionData) :=
  t ← now;
  found ← lift_state au_reauth set_reauth (reauth_take key t);
  match found with Some p => done p | None => refuse ErrNoChallenge end.

Definition reauth_allowed (op : ProofOperation) (rpID target : string) : auth (list string) :=
  if String.eqb op OpRemovePasskey then sql (allowedForRemoval rpID target)
  else let! admin := sql (adminCredentials rpID) in done (credentialDescriptors admin).

Definition BeginReauth (rpID clientIP : string) (op : ProofOperation) (target sessionID : string) :
    auth (Options * string) :=
  match check_target op target with
  | Some msg => refuse (ErrOther msg)
  | None =>
      if String.eqb sessionID "" then refuse ErrNoSession
      else
        refusal ← provable op rpID target;
        match refusal with
        | Some e => refuse e
        | None =>
            limit clientIP ;;!
            let! wa := mret (relyingParty rpID) in
            let! allowed := reauth_allowed op rpID target in
            let! begun := mret (wa_BeginDiscoverableLogin wa allowed) in
            key ← put_reauth (mkReauth begun.2 rpID op target sessionID 0);
            done (begun.1, key)
        end
  end.

Definition mint_proof (op : ProofOperation) (target : string) (subject : ProofSubject) (sessionID : string) :
    auth string :=
  token ← Token 32; t ← now; proofs (Proofs.Mint op target subject sessionID token t).

Definition FinishReauth (key rpID clientIP : string) (r : Request) (sessionID : string) : auth string :=
  t ← now;
  limit_at clientIP t ;;!
  let! pending := take_reauth key in
  if negb (String.eqb (ra_sessionID pending) sessionID) then refuse ErrNoChallenge
  else if negb (String.eqb (ra_rpID pending) rpID) then refuse (ErrRPIDMismatch (ra_rpID pending) rpID)
  else
    let! wa := mret (relyingParty (ra_rpID pending)) in
    let! verified := FinishPasskeyLogin wa (λ rawID _, resolve_user (ra_rpID pending) rawID)
                       (ra_session pending) r in
    let id := pk_CredentialID verified.1 in
    sql (TouchPasskey id (cr_SignCount verified.2) (Some (cr_BackupState verified.2)) t) ;;!
    let! token := mint_proof (ra_op pending) (ra_target pending) (mkSubject false id) (ra_sessionID pending) in
    _ ← reset_limiter clientIP;
    _ ← audit "reauth_passkey" clientIP;
    done token.

(** ** First run *)

Definition BeginSetupPasskey (rpID clientIP : string) : auth (Options * string) :=
  limit clientIP ;;!
  let! configured := Configured in
  if configured : bool then refuse ErrAlreadyConfigured
  else BeginPasskeyRegistration rpID AdminScope ExcludeRegistered.

Definition FinishSetupPasskey (key name rpID : string) (r : Request) (at_ : time) (priorSessionID : string) :
    auth (Passkey * AuthSession * string) :=
  let! configured := Configured in
  if configured : bool then refuse ErrAlreadyConfigured
  else
    let! pk := FinishPasskeyRegistration key name rpID r at_ AdminScope in
    let! minted := mintSession priorSessionID (Some (pk_CredentialID pk)) in
    _ ← audit "setup_passkey" "";
    done (pk, minted.1, minted.2).

(** ** Enrolment *)

Definition MintEnrolment (scope : Scope) : auth (string * Enrolment) :=
  t ← now; token ← Token 32; key ← newID;
  enrolments (Enrolment.Mint scope token key t).

Definition CheckEnrolment (token : string) : auth Enrolment :=
  t ← now; enrolments (EnrolmentCheck token t).

Definition SpendEnrolment (token : string) : auth Enrolment :=
  t ← now; later ← now; enrolments (Spend token t later).

Definition RevokeEnrolment (udid id : string) : stateM Auth (option AuthError) :=
  t ← now; enrolments (Revoke udid id t).

Definition OutstandingEnrolments (udid : string) : stateM Auth (list Enrolment) :=
  t ← now; enrolments (ListEnrolments udid t).

Definition BeginEnrolment (rpID token clientIP : string) : auth (Options * string) :=
  limit clientIP ;;!
  let! en := CheckEnrolment token in
  BeginPasskeyRegistration rpID (DeviceScope (en_ScopeUDID en)) DiscloseNothing.

Definition FinishEnrolment (key rpID token : string) (r : Request) (at_ : time)
    (priorSessionID clientIP : string) : auth (Passkey * AuthSession * string) :=
  limit clientIP ;;!
  let! en := CheckEnrolment token in
  let scope := DeviceScope (en_ScopeUDID en) in
  let! label := scopeUsername scope in
  let! pk := FinishPasskeyRegistration key label rpID r at_ scope in
  SpendEnrolment token ;;!
  let! minted := mintSession priorSessionID (Some (pk_CredentialID pk)) in
  _ ← audit "enrol_passkey" "";
  done (pk, minted.1, minted.2).
End passkeys.
