(* ===== verification/AuthSafety.v ===== *)
(** * AuthSafety: the admin keeps a way in

    Over core/internal/auth as [AuthService], [Credentials] and [Passkeys] model it: no operation
    but the console's reset takes the admin's last credential away, whatever is presented, whatever
    the database refuses and in whatever order the operations come; so an install that is claimed
    stays claimed, and first-run setup never opens again. *)

From Stdlib Require Import String Ascii.
From S2P Require Import Prelude Store Base64 Argon2 AuthErrors AuthStore.
From S2P Require Import Limiter Proofs Enrolment WebAuthn AuthService Credentials Passkeys.

#[local] Open Scope quince_scope.

(** ** Relations that every run of a computation respects *)

Section stays.
Context `{!AuthEnv, !WebAuthn}.

Definition stays (R : relation Auth) {A} (m : stateM Auth A) : Prop := ∀ s, R s (m s).2.

Context (R : relation Auth) `{!PreOrder R}.

Lemma stays_ret {A} (a : A) : stays R (mret a).
Proof. intros s. simpl. reflexivity. Qed.

Lemma stays_bind {A B} (m : stateM Auth A) (k : A → stateM Auth B) :
  stays R m → (∀ a, stays R (k a)) → stays R (m ≫= k).
Proof.
  intros Hm Hk s. unfold mbind, stateM_bind. specialize (Hm s). destruct (m s) as [a s']. simpl in *.
  etrans; [exact Hm|apply Hk].
Qed.

Lemma stays_try {A B} (m : auth A) (k : A → auth B) :
  stays R m → (∀ a, stays R (k a)) → stays R (try_bind m k).
Proof. intros Hm Hk. apply stays_bind; [done|]. intros [a|e]; [apply Hk|apply stays_ret]. Qed.

Lemma stays_done {A} (a : A) : stays R (done a).
Proof. apply stays_ret. Qed.
Lemma stays_refuse {A} e : stays R (refuse (A := A) e).
Proof. apply stays_ret. Qed.
End stays.

(** Relations on the database alone. *)
Definition on_db `{!AuthEnv, !WebAuthn} (R : relation AuthDB) : relation Auth :=
  λ s s', R (au_db s) (au_db s').

#[global] Instance on_db_preorder `{!AuthEnv, !WebAuthn} R : PreOrder R → PreOrder (on_db R).
Proof.
  intros [H1 H2]. split; [intros s; apply H1|]. intros s1 s2 s3 ??. unfold on_db in *. by eapply H2.
Qed.

Section on_db.
Context `{!AuthEnv, !WebAuthn} (R : relation AuthDB) `{!PreOrder R}.

Definition db_stays {A} (m : stateM AuthDB A) : Prop := ∀ d, R d (m d).2.

Lemma stays_sql {A} (m : stateM AuthDB A) : db_stays m → stays (on_db R) (sql m).
Proof.
  intros Hm s. unfold on_db, sql, lift_state. specialize (Hm (au_db s)).
  by destruct (m (au_db s)) as [a d].
Qed.

Lemma stays_quiet {A} (m : stateM Auth A) : (∀ s, au_db (m s).2 = au_db s) → stays (on_db R) m.
Proof. intros Hm s. unfold on_db. rewrite Hm. reflexivity. Qed.

Lemma stays_now : stays (on_db R) now.
Proof. by apply stays_quiet. Qed.
Lemma stays_draw n : stays (on_db R) (draw n).
Proof. by apply stays_quiet. Qed.
Lemma stays_newID : stays (on_db R) newID.
Proof. by apply stays_quiet. Qed.
Lemma stays_proofs {A} (m : stateM Proofs A) : stays (on_db R) (proofs m).
Proof. apply stays_quiet. intros s. unfold proofs, lift_state. by destruct (m _). Qed.
Lemma stays_enrolments {A} (m : stateM Enrolments A) : stays (on_db R) (enrolments m).
Proof. apply stays_quiet. intros s. unfold enrolments, lift_state. by destruct (m _). Qed.
Lemma stays_limiter {A} (m : stateM loginLimiter A) : stays (on_db R) (lift_state au_limiter set_limiter m).
Proof. apply stays_quiet. intros s. unfold lift_state. by destruct (m _). Qed.
Lemma stays_take_ceremony {A} (m : stateM (gmap string (pendingCeremony SessionData)) A) :
  stays (on_db R) (lift_state au_ceremonies set_ceremonies m).
Proof. apply stays_quiet. intros s. unfold lift_state. by destruct (m _). Qed.
Lemma stays_take_reauth {A} (m : stateM (gmap string (pendingReauth SessionData)) A) :
  stays (on_db R) (lift_state au_reauth set_reauth m).
Proof. apply stays_quiet. intros s. unfold lift_state. by destruct (m _). Qed.
Lemma stays_modify (f : Auth → Auth) : (∀ s, au_db (f s) = au_db s) → stays (on_db R) (modify f).
Proof. intros Hf. by apply stays_quiet. Qed.

(** Statements that read, and those whose update respects [R]. *)
Context (Hsame : ∀ d d', same_rows d d' → R d d').

Lemma db_stays_run {A} (m : stateM AuthDB (outcome A)) : db_stays m → db_stays (run_sql m).
Proof.
  intros Hm d. unfold run_sql. destruct (statement _ (ad_base d)) as [[[]|msg] b]; simpl.
  - etrans; [apply (Hsame d (with_base b d)); done|apply Hm].
  - by apply Hsame.
Qed.

Lemma db_stays_query {A} (f : AuthDB → A) : db_stays (query f).
Proof. apply db_stays_run. intros d. by apply Hsame. Qed.

Lemma db_stays_update {A} (f : AuthDB → A * AuthDB) : (∀ d, R d (f d).2) → db_stays (update f).
Proof. intros Hf. apply db_stays_run. intros d. specialize (Hf d). by destruct (f d). Qed.

Lemma db_stays_try {A B} (m : stateM AuthDB (outcome A)) (k : A → stateM AuthDB (outcome B)) :
  db_stays m → (∀ a, db_stays (k a)) → db_stays (try_bind m k).
Proof.
  intros Hm Hk d. unfold try_bind, mbind, stateM_bind. specialize (Hm d). destruct (m d) as [[a|e] d'].
  - etrans; [exact Hm|apply Hk].
  - exact Hm.
Qed.

Lemma db_stays_ret {A} (a : A) : db_stays (mret a).
Proof. intros d. simpl. reflexivity. Qed.

Lemma db_stays_audit e : db_stays (AppendAudit e).
Proof. intros d. unfold AppendAudit. destruct (Store.AppendAudit e (ad_base d)). by apply Hsame. Qed.
End on_db.

Create HintDb auth.

Lemma stays_mono `{!AuthEnv, !WebAuthn} (R R' : relation Auth) {A} (m : stateM Auth A) :
  stays R m → (∀ s s', R s s' → R' s s') → stays R' m.
Proof. intros Hm HR s. apply HR, Hm. Qed.

Ltac stay_step :=
  lazymatch goal with
  | |- PreOrder _ => apply _
  | |- ∀ _, _ => intros ?
  | |- stays _ (try_bind _ _) => apply stays_try
  | |- stays _ (mbind _ _) => first [solve [auto with auth nocore] | apply stays_bind]
  | |- stays _ (mret _) => apply stays_ret
  | |- stays _ (done _) => apply stays_done
  | |- stays _ (refuse _) => apply stays_refuse
  | |- stays _ now => apply stays_now
  | |- stays _ (draw _) => apply stays_draw
  | |- stays _ newID => apply stays_newID
  | |- stays _ (proofs _) => apply stays_proofs
  | |- stays _ (enrolments _) => apply stays_enrolments
  | |- stays _ (lift_state au_limiter _ _) => apply stays_limiter
  | |- stays _ (lift_state au_ceremonies _ _) => apply stays_take_ceremony
  | |- stays _ (lift_state au_reauth _ _) => apply stays_take_reauth
  | |- stays _ (modify _) => apply stays_modify; [|reflexivity]
  | |- _ => first [solve [auto with auth nocore] | case_match]
  end.
Ltac stay := repeat stay_step.

(** ** Operations that only read the tables *)

Section reads.
Context `{Henv : !AuthEnv, Hwa : !WebAuthn, Hrange : !MapRange, Hsort : !SortSlice}.

Abbreviation reads m := (stays (on_db same_rows) m).

Lemma reads_query {A} (f : AuthDB → A) : reads (sql (query f)).
Proof. apply stays_sql, db_stays_query; [apply _|done]. Qed.

Lemma reads_append e : reads (sql (AppendAudit e)).
Proof. apply stays_sql, db_stays_audit. done. Qed.
#[local] Hint Resolve reads_query reads_append : auth.

Lemma reads_audit event ip : reads (audit event ip).
Proof. unfold audit. stay. Qed.

Lemma reads_Token n : reads (Token n).
Proof. unfold Token. stay. Qed.
Lemma reads_limit_at ip t : reads (limit_at ip t).
Proof. unfold limit_at. stay. Qed.
Lemma reads_limit ip : reads (limit ip).
Proof. unfold limit. stay. apply reads_limit_at. Qed.
Lemma reads_reset_limiter ip : reads (reset_limiter ip).
Proof. unfold reset_limiter. stay. Qed.
#[local] Hint Resolve reads_audit reads_Token reads_limit_at reads_limit reads_reset_limiter : auth.

Lemma reads_HasPassword : reads HasPassword.
Proof. unfold HasPassword, GetSetting. stay. Qed.
#[local] Hint Resolve reads_HasPassword : auth.
Lemma reads_Configured : reads Configured.
Proof. unfold Configured, CountPasskeys. stay. Qed.
#[local] Hint Resolve reads_Configured : auth.

Lemma reads_credentials rpID : reads (sql (existingCredentials rpID)) ∧ reads (sql (adminCredentials rpID)).
Proof.
  split; apply stays_sql, db_stays_try; try apply _;
    (apply db_stays_query; [apply _|done]) || (intros a; apply db_stays_ret; apply _).
Qed.
Lemma reads_existing rpID : reads (sql (existingCredentials rpID)).
Proof. apply reads_credentials. Qed.
Lemma reads_admin rpID : reads (sql (adminCredentials rpID)).
Proof. apply reads_credentials. Qed.
Lemma reads_allowed rpID target : reads (sql (allowedForRemoval rpID target)).
Proof.
  apply stays_sql, db_stays_try; [apply _| |intros a; apply db_stays_ret; apply _].
  apply db_stays_try; [apply _|apply db_stays_query; [apply _|done]|intros a; apply db_stays_ret; apply _].
Qed.
Lemma reads_resolve id rpID : reads (sql (ResolveCredential id rpID)).
Proof.
  apply stays_sql, db_stays_try; [apply _|apply db_stays_query; [apply _|done]|].
  intros [pk|]; [case_match|]; apply db_stays_ret; apply _.
Qed.
#[local] Hint Resolve reads_existing reads_admin reads_allowed reads_resolve : auth.

Lemma reads_Accepts op rpID target : reads (Accepts op rpID target).
Proof. unfold Accepts, GetSetting. stay. Qed.
Lemma reads_RequirePresent pres op target sid ip : reads (RequirePresent pres op target sid ip).
Proof. unfold RequirePresent, GetSetting. stay. Qed.
Lemma reads_passwordRemovalRefusal rpID : reads (passwordRemovalRefusal rpID).
Proof. unfold passwordRemovalRefusal, ListAdminPasskeys. stay. Qed.
Lemma reads_passkeyRemovalRefusal id rpID : reads (passkeyRemovalRefusal id rpID).
Proof. unfold passkeyRemovalRefusal, ListAdminPasskeys. stay. Qed.
Lemma reads_hash_password pw : reads (hash_password pw).
Proof. unfold hash_password. stay. Qed.
#[local] Hint Resolve reads_Accepts reads_RequirePresent reads_passwordRemovalRefusal
  reads_passkeyRemovalRefusal reads_hash_password : auth.

Lemma reads_authorize_password pres rpID sid ip : reads (authorize_password_removal pres rpID sid ip).
Proof. unfold authorize_password_removal. stay. Qed.
Lemma reads_authorize_passkey pres id rpID sid ip : reads (authorize_passkey_removal pres id rpID sid ip).
Proof. unfold authorize_passkey_removal. stay. Qed.
End reads.

(** ** Operations that take no credential away *)

Definition has_password (d : AuthDB) : Prop := is_Some (ad_settings d !! settingPasswordHash).
Definition admin_passkey (d : AuthDB) : Prop :=
  ∃ k p, ad_passkeys d !! k = Some p ∧ pk_ScopeUDID p = None.
(** The admin can still prove who they are. *)
Definition way_in (d : AuthDB) : Prop := has_password d ∨ admin_passkey d.

(** A row is who it was: its id, address and confinement are never rewritten. *)
Definition same_principal (p p' : Passkey) : Prop :=
  pk_CredentialID p' = pk_CredentialID p ∧ pk_RPID p' = pk_RPID p ∧ pk_ScopeUDID p' = pk_ScopeUDID p.

Record grows (d d' : AuthDB) : Prop := {
  grows_password : has_password d → has_password d';
  grows_passkeys : ∀ k p, ad_passkeys d !! k = Some p →
    ∃ p', ad_passkeys d' !! k = Some p' ∧ same_principal p p';
  grows_rows : rows_ok d → rows_ok d' }.

#[global] Instance grows_preorder : PreOrder grows.
Proof.
  split.
  - intros d. split; [done| |done]. intros k p Hp. by exists p.
  - intros a b c [H1 H2 H3] [H4 H5 H6]. split; [by auto| |by auto].
    intros k p (p' & Hp' & E1 & E2 & E3)%H2. apply H5 in Hp' as (p2 & Hp2 & F1 & F2 & F3).
    exists p2. split; [done|]. unfold same_principal. by rewrite F1, F2, F3.
Qed.

Lemma same_rows_ok d d' : same_rows d d' → rows_ok d → rows_ok d'.
Proof. intros (_ & Hp & Hs & _) [H1 H2 H3]. split; [rewrite Hp; done..|by rewrite Hs]. Qed.

Lemma same_rows_grows d d' : same_rows d d' → grows d d'.
Proof.
  intros H. pose proof H as (Hset & Hp & _). split; [unfold has_password; by rewrite Hset| |by apply same_rows_ok].
  intros k p Hk. exists p. by rewrite Hp.
Qed.

Lemma grows_way_in d d' : grows d d' → way_in d → way_in d'.
Proof.
  intros [H1 H2 _] [H|(k & p & Hp & Hs)]; [left; by apply H1|right].
  apply H2 in Hp as (p' & Hp' & _ & _ & E). exists k, p'. split; [done|]. by rewrite E.
Qed.

(** Each kind of update. *)
Lemma grows_settings f d : (has_password d → is_Some (f (ad_settings d) !! settingPasswordHash)) →
  grows d (with_settings f d).
Proof. intros Hf. split; [exact Hf|intros k p Hp; by exists p|]. intros [H1 H2 H3]. split; [exact H1|exact H2|exact H3]. Qed.

Lemma grows_sessions f d : (rows_ok d → ∀ k s, f (ad_sessions d) !! k = Some s → se_ID s = k) →
  grows d (with_sessions f d).
Proof. intros Hf. split; [done|intros k p Hp; by exists p|]. intros H. pose proof H as [H1 H2 H3]. split; [exact H1|exact H2|by apply Hf]. Qed.

Lemma grows_alter f id d : (∀ p, same_principal p (f p)) → grows d (with_passkeys (alter f id) d).
Proof.
  intros Hf. split; [done| |].
  - intros k p Hp. simpl. rewrite lookup_alter. case_decide; [|by exists p]. subst. rewrite Hp. by exists (f p).
  - intros [H1 H2 H3]. split; [| |exact H3]; intros k p; simpl; rewrite lookup_alter.
    + case_decide; [|exact (H1 k p)]. intros (q & Hq & ->)%fmap_Some_1. subst.
      destruct (Hf q) as (-> & _). exact (H1 k q Hq).
    + case_decide; [|exact (H2 k p)]. intros (q & Hq & _)%fmap_Some_1. subst. exact (H2 k q Hq).
Qed.

Lemma grows_insert k p d : pk_CredentialID p = k → canonical RawURLEncoding k → ad_passkeys d !! k = None →
  grows d (with_passkeys <[k := p]> d).
Proof.
  intros Hk Hc Hn. split; [done| |].
  - intros k' p' Hp'. simpl. exists p'. split; [|done]. rewrite lookup_insert_ne; [done|]. by intros ->; rewrite Hn in Hp'.
  - intros [H1 H2 H3]. split; [| |exact H3]; intros k' p'; simpl; rewrite lookup_insert.
    + case_decide; [|exact (H1 k' p')]. intros [= <-]. by subst.
    + case_decide; [|exact (H2 k' p')]. intros _. by subst.
Qed.

Section grows.
Context `{Henv : !AuthEnv, Hwa : !WebAuthn, Hrange : !MapRange, Hsort : !SortSlice}.

Abbreviation keeps m := (stays (on_db grows) m).

Lemma reads_keeps {A} (m : stateM Auth A) : stays (on_db same_rows) m → keeps m.
Proof. intros H. eapply stays_mono; [exact H|]. intros s s'. apply same_rows_grows. Qed.

Lemma keeps_update {A} (f : AuthDB → A * AuthDB) : (∀ d, grows d (f d).2) → keeps (sql (update f)).
Proof. intros Hf. apply stays_sql, db_stays_update; [apply _|apply same_rows_grows|done]. Qed.
Lemma keeps_run {A} (m : stateM AuthDB (outcome A)) : (∀ d, grows d (m d).2) → keeps (sql (run_sql m)).
Proof. intros Hm. apply stays_sql, db_stays_run; [apply _|apply same_rows_grows|done]. Qed.

Lemma keeps_SetSetting k v : keeps (sql (SetSetting k v)).
Proof.
  apply keeps_update. intros d. simpl. apply grows_settings. intros H.
  destruct (decide (k = settingPasswordHash)) as [->|Hne]; [by rewrite lookup_insert_eq|].
  by rewrite lookup_insert_ne.
Qed.
Lemma keeps_SetSettingIfAbsent k v : keeps (sql (SetSettingIfAbsent k v)).
Proof.
  apply keeps_update. intros d. destruct (ad_settings d !! k) eqn:Hk; simpl; [reflexivity|].
  apply grows_settings. intros H. rewrite lookup_insert_ne; [done|]. intros ->. unfold has_password in H.
  rewrite Hk in H. by destruct H.
Qed.
Lemma keeps_InsertPasskey p scope : canonical RawURLEncoding (pk_CredentialID p) →
  keeps (sql (InsertPasskey p scope)).
Proof.
  intros Hc. unfold InsertPasskey. case_match; [by apply stays_sql; intros d; simpl; reflexivity|].
  case_match; [by apply stays_sql; intros d; simpl; reflexivity|]. apply keeps_run. intros d.
  destruct (ad_passkeys d !! pk_CredentialID p) eqn:Hk; simpl; [reflexivity|]. by apply grows_insert.
Qed.
Lemma keeps_TouchPasskey id n b t : keeps (sql (TouchPasskey id n b t)).
Proof. apply keeps_update. intros d. by apply grows_alter. Qed.
Lemma keeps_RenamePasskey id name : keeps (sql (RenamePasskey id name)).
Proof. apply keeps_update. intros d. by apply grows_alter. Qed.

Lemma keeps_CreateAuthSession s : keeps (sql (CreateAuthSession s)).
Proof.
  apply keeps_run. intros d. destruct (ad_sessions d !! se_ID s); simpl; [reflexivity|].
  apply grows_sessions. intros [_ _ H] k s'. rewrite lookup_insert. case_decide; [|apply H]. by intros [= <-].
Qed.
Lemma keeps_TouchAuthSession id t : keeps (sql (TouchAuthSession id t)).
Proof.
  apply keeps_update. intros d. apply grows_sessions. intros [_ _ H] k s'. rewrite lookup_alter.
  case_decide; [|apply H]. intros (q & Hq & ->)%fmap_Some_1. subst. by apply (H k q).
Qed.
Lemma keeps_DeleteAuthSession id : keeps (sql (DeleteAuthSession id)).
Proof.
  apply keeps_update. intros d. apply grows_sessions. intros [_ _ H] k s'. rewrite lookup_delete_Some.
  intros [_ Hs]. by apply H.
Qed.
Lemma keeps_DeleteAuthSessionsFor c e : keeps (sql (DeleteAuthSessionsFor c e)).
Proof.
  apply keeps_update. intros d. apply grows_sessions. intros [_ _ H] k s'.
  rewrite map_lookup_filter_Some. intros [Hs _]. by apply H.
Qed.
Lemma keeps_push f : (∀ d, ∃ g, (f d).2 = with_push g d) → keeps (sql (update (A := Z) f)).
Proof.
  intros Hf. apply keeps_update. intros d. destruct (Hf d) as [g ->]. split; [done| |intros [H1 H2 H3]; split; [exact H1|exact H2|exact H3]].
  intros k p Hp. by exists p.
Qed.

Lemma keeps_query {A} (f : AuthDB → A) : keeps (sql (query f)).
Proof. apply reads_keeps, reads_query. Qed.
Lemma keeps_auth_audit e ip : keeps (audit e ip).
Proof. apply reads_keeps, reads_audit. Qed.
Lemma keeps_Token n : keeps (Token n).
Proof. apply reads_keeps, reads_Token. Qed.
Lemma keeps_limit_at ip t : keeps (limit_at ip t).
Proof. apply reads_keeps, reads_limit_at. Qed.
Lemma keeps_limit ip : keeps (limit ip).
Proof. apply reads_keeps, reads_limit. Qed.
Lemma keeps_reset_limiter ip : keeps (reset_limiter ip).
Proof. apply reads_keeps, reads_reset_limiter. Qed.
Lemma keeps_HasPassword : keeps HasPassword.
Proof. apply reads_keeps, reads_HasPassword. Qed.
Lemma keeps_Configured : keeps Configured.
Proof. apply reads_keeps, reads_Configured. Qed.
Lemma keeps_existing rpID : keeps (sql (existingCredentials rpID)).
Proof. apply reads_keeps, reads_existing. Qed.
Lemma keeps_admin rpID : keeps (sql (adminCredentials rpID)).
Proof. apply reads_keeps, reads_admin. Qed.
Lemma keeps_allowed rpID target : keeps (sql (allowedForRemoval rpID target)).
Proof. apply reads_keeps, reads_allowed. Qed.
Lemma keeps_resolve id rpID : keeps (sql (ResolveCredential id rpID)).
Proof. apply reads_keeps, reads_resolve. Qed.
Lemma keeps_RequirePresent pres op target sid ip : keeps (RequirePresent pres op target sid ip).
Proof. apply reads_keeps, reads_RequirePresent. Qed.
Lemma keeps_passkeyRemovalRefusal id rpID : keeps (passkeyRemovalRefusal id rpID).
Proof. apply reads_keeps, reads_passkeyRemovalRefusal. Qed.
Lemma keeps_hash_password pw : keeps (hash_password pw).
Proof. apply reads_keeps, reads_hash_password. Qed.

#[local] Hint Resolve keeps_query keeps_auth_audit keeps_Token keeps_limit_at keeps_limit keeps_reset_limiter
  keeps_HasPassword keeps_Configured keeps_existing keeps_admin keeps_allowed keeps_resolve
  keeps_RequirePresent keeps_passkeyRemovalRefusal keeps_hash_password
  keeps_SetSetting keeps_SetSettingIfAbsent keeps_TouchPasskey keeps_RenamePasskey
  keeps_CreateAuthSession keeps_TouchAuthSession keeps_DeleteAuthSession keeps_DeleteAuthSessionsFor : auth.

Lemma keeps_end_sessions c e ev ip : keeps (end_sessions c e ev ip).
Proof. unfold end_sessions. stay. Qed.
Lemma keeps_end_subscriptions scope ip : keeps (end_subscriptions scope ip).
Proof.
  unfold end_subscriptions, scopeHasCredential, ListPasskeys. stay.
  apply keeps_push. intros d. by eexists.
Qed.
Lemma keeps_open_session t prior c : keeps (open_session t prior c).
Proof. unfold open_session, supersede. stay. Qed.
#[local] Hint Resolve keeps_end_sessions keeps_end_subscriptions keeps_open_session : auth.
Lemma keeps_mintSession prior c : keeps (mintSession prior c).
Proof. unfold mintSession, NewCSRFToken. stay. Qed.
Lemma keeps_Authenticate sid : keeps (Authenticate sid).
Proof. unfold Authenticate, GetAuthSession. stay. Qed.
#[local] Hint Resolve keeps_mintSession keeps_Authenticate : auth.
Lemma keeps_Status sid : keeps (Status sid).
Proof. unfold Status. stay. Qed.
Lemma keeps_Logout sid : keeps (Logout sid).
Proof. unfold Logout. stay. Qed.
Lemma keeps_Login pw ip prior : keeps (Login pw ip prior).
Proof. unfold Login, GetSetting, NewCSRFToken. stay. Qed.
Lemma keeps_SetPassword pw ip : keeps (SetPassword pw ip).
Proof. unfold SetPassword. stay. Qed.
Lemma keeps_ChangePassword pres next sid ip : keeps (ChangePassword pres next sid ip).
Proof. unfold ChangePassword. stay. Qed.

Lemma keeps_userHandle : keeps userHandle.
Proof. unfold userHandle, GetSetting. stay. Qed.
#[local] Hint Resolve keeps_userHandle : auth.
Lemma keeps_handleForScope scope : keeps (handleForScope scope).
Proof. unfold handleForScope, ListPasskeys. stay. Qed.
Lemma keeps_handleOf pk : keeps (handleOf pk).
Proof. unfold handleOf. stay. Qed.
Lemma keeps_scopeUsername scope : keeps (scopeUsername scope).
Proof. unfold scopeUsername, ListDeviceIdentities. stay. Qed.
Lemma keeps_put_ceremony s rp k sc h : keeps (put_ceremony s rp k sc h).
Proof. unfold put_ceremony. stay. Qed.
Lemma keeps_take_ceremony key k : keeps (take_ceremony key k).
Proof. unfold take_ceremony. stay. Qed.
#[local] Hint Resolve keeps_handleForScope keeps_handleOf keeps_scopeUsername keeps_put_ceremony
  keeps_take_ceremony : auth.

Lemma keeps_BeginPasskeyRegistration rpID scope d : keeps (BeginPasskeyRegistration rpID scope d).
Proof. unfold BeginPasskeyRegistration. stay. Qed.
Lemma keeps_insert_registered p scope raw : pk_CredentialID p = EncodeToString RawURLEncoding raw →
  keeps (sql (InsertPasskey p scope)).
Proof. intros Hp. apply keeps_InsertPasskey. by exists raw. Qed.
Lemma keeps_FinishPasskeyRegistration key name rpID r t scope :
  keeps (FinishPasskeyRegistration key name rpID r t scope).
Proof. unfold FinishPasskeyRegistration. stay. by eapply keeps_insert_registered. Qed.
Lemma keeps_resolve_user rpID raw : keeps (resolve_user rpID raw).
Proof. unfold resolve_user. stay. Qed.
#[local] Hint Resolve keeps_BeginPasskeyRegistration keeps_FinishPasskeyRegistration keeps_resolve_user : auth.

Lemma keeps_FinishPasskeyLogin rp rpID s r :
  keeps (FinishPasskeyLogin rp (λ raw _, resolve_user rpID raw) s r).
Proof. unfold FinishPasskeyLogin. stay. Qed.
#[local] Hint Resolve keeps_FinishPasskeyLogin : auth.
Lemma keeps_RegisterBegin pres rpID sid ip : keeps (RegisterBegin pres rpID sid ip).
Proof. unfold RegisterBegin. stay. Qed.
Lemma keeps_BeginPasskeyAssertion rpID ip hint : keeps (BeginPasskeyAssertion rpID ip hint).
Proof. unfold BeginPasskeyAssertion. stay. Qed.
Lemma keeps_FinishPasskeyAssertion key rpID ip r prior : keeps (FinishPasskeyAssertion key rpID ip r prior).
Proof. unfold FinishPasskeyAssertion, NewCSRFToken. stay. Qed.
Lemma keeps_BeginReauth rpID ip op target sid : keeps (BeginReauth rpID ip op target sid).
Proof. unfold BeginReauth, provable, reauth_allowed, put_reauth, ListAdminPasskeys. stay. Qed.
Lemma keeps_FinishReauth key rpID ip r sid : keeps (FinishReauth key rpID ip r sid).
Proof. unfold FinishReauth, take_reauth, mint_proof. stay. Qed.
Lemma keeps_BeginSetupPasskey rpID ip : keeps (BeginSetupPasskey rpID ip).
Proof. unfold BeginSetupPasskey. stay. Qed.
Lemma keeps_FinishSetupPasskey key name rpID r t prior : keeps (FinishSetupPasskey key name rpID r t prior).
Proof. unfold FinishSetupPasskey. stay. Qed.
Lemma keeps_BeginEnrolment rpID token ip : keeps (BeginEnrolment rpID token ip).
Proof. unfold BeginEnrolment, CheckEnrolment. stay. Qed.
Lemma keeps_FinishEnrolment key rpID token r t prior ip : keeps (FinishEnrolment key rpID token r t prior ip).
Proof. unfold FinishEnrolment, CheckEnrolment, SpendEnrolment. stay. Qed.
Lemma keeps_MintEnrolment scope : keeps (MintEnrolment scope).
Proof. unfold MintEnrolment. stay. Qed.
Lemma keeps_RevokeEnrolment u i : keeps (RevokeEnrolment u i).
Proof. unfold RevokeEnrolment. stay. Qed.
Lemma keeps_Outstanding u : keeps (OutstandingEnrolments u).
Proof. unfold OutstandingEnrolments. stay. Qed.
End grows.

(** ** What the reads find *)

Section findings.
Context `{Henv : !AuthEnv, Hwa : !WebAuthn, Hrange : !MapRange, Hsort : !SortSlice}.

(** The tables of a state are those of [d]. *)
Definition shows (d : AuthDB) (s : Auth) : Prop := same_rows d (au_db s).

Lemma wp_stays {A} (R : relation Auth) (m : stateM Auth A) Q s :
  stays R m → wp m Q s → wp m (λ a s', Q a s' ∧ R s s') s.
Proof. intros HR HQ. split; [exact HQ|apply HR]. Qed.

(** A computation that only reads, followed by what is known of its result. *)
Lemma wp_reads {A} (m : stateM Auth A) d (P : A → Prop) (Q : A → Auth → Prop) s :
  stays (on_db same_rows) m → shows d s → wp m (λ a _, P a) s →
  (∀ a s', shows d s' → P a → Q a s') → wp m Q s.
Proof.
  intros Hm Hs HP HQ. eapply wp_mono; [exact (wp_stays _ m _ s Hm HP)|].
  intros a s' [Ha Hr]. apply HQ; [|exact Ha]. unfold shows in *. by etrans.
Qed.

Lemma wp_sql {A} (m : stateM AuthDB A) Q s :
  wp m (λ a d, Q a (set_db d s)) (au_db s) → wp (sql m) Q s.
Proof. apply wp_lift. Qed.

(** A query's answer, by the tables. *)
Lemma wp_sql_query {A} (f : AuthDB → A) d s : (∀ d', same_rows d d' → f d' = f d) → shows d s →
  wp (sql (query f)) (λ r _, ∀ a, r = Done a → a = f d) s.
Proof.
  intros Hf Hs. apply wp_sql, wp_query. intros d' Hd'. split; [done|]. intros a [= <-].
  apply Hf. unfold shows in Hs. by etrans.
Qed.

Lemma passkeys_asc_same d d' : same_rows d d' → passkeys_asc d' = passkeys_asc d.
Proof. intros (_ & Hp & _). unfold passkeys_asc. by rewrite Hp. Qed.

Lemma Configured_finds d s : shows d s →
  wp Configured (λ r _, ∀ b, r = Done b → b = true ↔ has_password d ∨ ad_passkeys d ≠ ∅) s.
Proof.
  intros Hs. unfold Configured. apply wp_try.
  eapply (wp_reads _ d (λ r, ∀ b, r = Done b → b = bool_decide (has_password d)));
    [apply reads_HasPassword|done| |].
  - unfold HasPassword. apply wp_try. eapply wp_mono.
    + apply (wp_sql_query _ d); [|done]. intros d' (Hd & _). by rewrite Hd.
    + intros [v|e] s' Hv; [|done]. apply wp_done. intros b [= <-]. by rewrite (Hv v eq_refl).
  - intros [b|e] s' Hs' Hb; [|done]. specialize (Hb b eq_refl) as ->. unfold has_password.
    case_bool_decide; [apply wp_done; intros b [= <-]; naive_solver|].
    apply wp_try. eapply wp_mono.
    + apply (wp_sql_query _ d); [|done]. intros d' (_ & Hd & _). by rewrite Hd.
    + intros [n|e] s'' Hn; [|done]. apply wp_done. intros b [= <-]. rewrite (Hn n eq_refl).
      rewrite Z.ltb_lt. destruct (decide (ad_passkeys d = ∅)) as [->|Hne].
      * rewrite map_size_empty. split; [lia|]. by intros [?|[]].
      * assert (size (ad_passkeys d) ≠ 0%nat) by (by intros ?%map_size_empty_inv). split; [|lia]. by right.
Qed.

(** The ids that [adminCredentials] lists. *)
Definition admin_at (d : AuthDB) (rpID id : string) : Prop :=
  ∃ p, ad_passkeys d !! EncodeToString RawURLEncoding id = Some p ∧ pk_ScopeUDID p = None ∧ pk_RPID p = rpID.

Lemma admin_at_passkey d rpID id : admin_at d rpID id → admin_passkey d.
Proof. intros (p & Hp & Hs & _). by eexists _, _. Qed.

Lemma adminCredentials_finds d rpID s : rows_ok d → shows d s →
  wp (sql (adminCredentials rpID))
    (λ r _, ∀ creds, r = Done creds → ∀ id, id ∈ cr_ID <$> creds ↔ admin_at d rpID id) s.
Proof.
  intros Hok Hs. apply wp_sql. unfold adminCredentials. apply wp_try. apply wp_query. intros d' Hd'.
  split; [done|]. unfold wp. simpl. intros creds Hcreds id.
  rewrite (passkeys_asc_same d) in Hcreds by (unfold shows in Hs; by etrans).
  rewrite (credentialsFrom_ids _ _ _) by (try exact Hcreds;
    intros p [_ Hp]%list_elem_of_filter; apply elem_of_passkeys_asc in Hp as [k Hk];
    rewrite (passkeys_keyed d Hok k p Hk); by eapply passkeys_canonical).
  split.
  - intros (p & [Hsc Hp]%list_elem_of_filter & Hrp & Hid). apply elem_of_passkeys_asc in Hp as [k Hk].
    exists p. rewrite <-Hid, (passkeys_keyed d Hok k p Hk). done.
  - intros (p & Hp & Hsc & Hrp). exists p. split; [|split; [done|by apply (passkeys_keyed d Hok)]].
    apply list_elem_of_filter. split; [done|]. apply elem_of_passkeys_asc. eauto.
Qed.

Lemma allowed_finds d rpID target s : rows_ok d → shows d s →
  wp (sql (allowedForRemoval rpID target))
    (λ r _, ∀ l, r = Done l → ∀ id, id ∈ l ↔ admin_at d rpID id ∧ EncodeToString RawURLEncoding id ≠ target) s.
Proof.
  intros Hok Hs. apply wp_sql. unfold allowedForRemoval. apply wp_try.
  pose proof (adminCredentials_finds d rpID s Hok Hs) as H. unfold sql in H.
  unfold wp, lift_state in H. unfold wp. destruct (adminCredentials rpID (au_db s)) as [[creds|e] d'];
    simpl in *; [|done]. intros l [= <-] id. rewrite <-(H creds eq_refl id), !list_elem_of_fmap. split.
  - intros (c & -> & [Hc Hin]%list_elem_of_filter). eauto.
  - intros [(c & -> & Hin) Hc]. exists c. split; [done|]. by apply list_elem_of_filter.
Qed.

Lemma password_finds d s : shows d s →
  wp (sql (GetSetting settingPasswordHash))
    (λ r _, ∀ v, r = Done v → v = ad_settings d !! settingPasswordHash) s.
Proof.
  intros Hs. refine (wp_sql_query (λ d, ad_settings d !! settingPasswordHash) d s _ Hs). by intros d' (-> & _).
Qed.

Lemma Accepts_password_finds d rpID s : rows_ok d → shows d s →
  wp (Accepts OpRemovePassword rpID "") (λ r _, ∀ l, r = Done l → l ≠ [] → ∃ id, admin_at d rpID id) s.
Proof.
  intros Hok Hs. unfold Accepts. change (op_valid OpRemovePassword) with true.
  change (String.eqb OpRemovePassword OpRemovePassword) with true.
  change (String.eqb OpRemovePassword OpRemovePasskey) with false. cbv iota beta. cbn [negb].
  apply wp_try, wp_done. apply wp_try.
  eapply wp_reads; [apply reads_admin|exact Hs|by apply (adminCredentials_finds d)|].
  intros [creds|e] s' Hs' Hc; [|done]. apply wp_done. intros l [= <-]. specialize (Hc creds eq_refl).
  case_bool_decide as Hn; [done|]. intros _. destruct (cr_ID <$> creds) as [|id ids]; [done|].
  exists id. apply Hc. left.
Qed.

Lemma Accepts_passkey_finds d rpID target s : rows_ok d → shows d s →
  wp (Accepts OpRemovePasskey rpID target)
    (λ r _, ∀ l, r = Done l → l ≠ [] → has_password d ∨
       ∃ id, admin_at d rpID id ∧ EncodeToString RawURLEncoding id ≠ target) s.
Proof.
  intros Hok Hs. unfold Accepts. change (op_valid OpRemovePasskey) with true.
  change (String.eqb OpRemovePasskey OpRemovePassword) with false.
  change (String.eqb OpRemovePasskey OpRemovePasskey) with true. cbv iota beta. cbn [negb].
  apply wp_try, wp_try.
  eapply wp_reads; [apply reads_query|exact Hs|by apply (password_finds d)|].
  intros [v|e] s1 Hs1 Hv; [|done]. specialize (Hv v eq_refl) as ->. apply wp_done, wp_try.
  eapply wp_reads; [apply reads_allowed|exact Hs1|by apply (allowed_finds d)|].
  intros [al|e] s2 Hs2 Hal; [|done]. apply wp_done. intros l [= <-]. unfold has_password.
  case_bool_decide as Hpw; [by left|]. specialize (Hal al eq_refl). right.
  case_bool_decide as Hn; [done|]. destruct al as [|id ids]; [done|]. exists id. apply Hal. left.
Qed.

Lemma passkeyRemovalRefusal_finds d target rpID s : rows_ok d → shows d s →
  wp (passkeyRemovalRefusal target rpID)
    (λ r _, r = None → ∃ k p, ad_passkeys d !! k = Some p ∧ pk_ScopeUDID p = None ∧ k ≠ target ∧
       pk_RPID p = rpID) s.
Proof.
  intros Hok Hs. unfold passkeyRemovalRefusal. apply wp_bind.
  eapply wp_reads; [apply reads_HasPassword|exact Hs| |].
  { eapply (wp_mono _ (λ _ _, True)); [done|]. intros a s' _. exact I. }
  intros [hp|e] s1 Hs1 _; [|by apply wp_ret]. apply wp_bind. eapply wp_mono.
  - apply (wp_sql_query _ d); [|exact Hs1]. intros d' Hd'. by rewrite (passkeys_asc_same d).
  - intros [rows|e] s2 Hr; [|by apply wp_ret]. apply wp_ret. specialize (Hr rows eq_refl).
    case_bool_decide as Hex; [|done]. intros _. apply Exists_exists in Hex as (p & Hp & Hrp).
    apply list_elem_of_filter in Hp as [Hne Hp]. rewrite Hr in Hp.
    apply list_elem_of_filter in Hp as [Hsc Hp]. apply elem_of_passkeys_asc in Hp as [k Hk].
    exists k, p. split; [done|]. split; [done|]. split; [|done]. by rewrite <-(passkeys_keyed d Hok k p Hk).
Qed.

(** What an authorised removal leaves behind. *)
Lemma claimed_is_configured d : way_in d → has_password d ∨ ad_passkeys d ≠ ∅.
Proof. intros [H|(k & p & Hp & _)]; [by left|right]. intros He. by rewrite He, lookup_empty in Hp. Qed.

Lemma authorize_password_leaves d pres rpID sid ip s : rows_ok d → way_in d → shows d s →
  wp (authorize_password_removal pres rpID sid ip) (λ r _, r = Done tt → admin_passkey d) s.
Proof.
  intros Hok Hway Hs. unfold authorize_password_removal. apply wp_try.
  eapply wp_reads; [apply reads_Configured|exact Hs|by apply (Configured_finds d)|].
  intros [b|e] s1 Hs1 Hb; [|done]. specialize (Hb b eq_refl).
  assert (b = true) as -> by (by apply Hb, claimed_is_configured). apply wp_try, wp_try.
  eapply wp_reads; [apply reads_Accepts|exact Hs1|by apply (Accepts_password_finds d)|].
  intros [l|e] s2 Hs2 Hl; [|done]. specialize (Hl l eq_refl). case_bool_decide as Hn.
  - apply wp_bind. eapply wp_mono; [exact (I : wp _ (λ _ _, True) _)|]. intros refusal s3 _. by apply wp_refuse.
  - destruct (Hl Hn) as [id Hid%admin_at_passkey]. apply wp_done. 
    eapply (wp_mono _ (λ _ _, True)); [exact I|]. by intros r s3 _ _.
Qed.

Lemma authorize_passkey_leaves d pres target rpID sid ip s : rows_ok d → way_in d → shows d s →
  wp (authorize_passkey_removal pres target rpID sid ip)
    (λ r _, r = Done tt → has_password d ∨
       ∃ k p, ad_passkeys d !! k = Some p ∧ pk_ScopeUDID p = None ∧ k ≠ target) s.
Proof.
  intros Hok Hway Hs. unfold authorize_passkey_removal. apply wp_try.
  eapply wp_reads; [apply reads_Configured|exact Hs|by apply (Configured_finds d)|].
  intros [b|e] s1 Hs1 Hb; [|done]. specialize (Hb b eq_refl).
  assert (b = true) as -> by (by apply Hb, claimed_is_configured). apply wp_try, wp_try.
  eapply wp_reads; [apply reads_Accepts|exact Hs1|by apply (Accepts_passkey_finds d)|].
  intros [l|e] s2 Hs2 Hl; [|done]. specialize (Hl l eq_refl). case_bool_decide as Hn.
  - apply wp_bind. eapply wp_reads; [apply reads_passkeyRemovalRefusal|exact Hs2|by apply (passkeyRemovalRefusal_finds d)|].
    intros [e|] s3 Hs3 Hr; [by apply wp_refuse|]. specialize (Hr eq_refl) as (k & p & Hp & Hsc & Hne & _). apply wp_done.
    eapply (wp_mono _ (λ _ _, True)); [exact I|]. intros r s4 _ _. right. by exists k, p.
  - apply wp_done. eapply (wp_mono _ (λ _ _, True)); [exact I|]. intros r s4 _ _.
    destruct (Hl Hn) as [Hp|(id & (p & Hp & Hsc & _) & Hne)]; [by left|right]. eauto.
Qed.
End findings.

(** ** The two erasures *)

(** At most the password ([pw]) or the passkey [target] goes. *)
Record loses (pw : bool) (target : option string) (d d' : AuthDB) : Prop := {
  loses_password : pw = false → has_password d → has_password d';
  loses_passkeys : ∀ k p, target ≠ Some k → ad_passkeys d !! k = Some p →
    ∃ p', ad_passkeys d' !! k = Some p' ∧ same_principal p p';
  loses_rows : rows_ok d → rows_ok d' }.

Lemma grows_loses pw target d d' : grows d d' → loses pw target d d'.
Proof. intros [H1 H2 H3]. split; auto. Qed.

#[global] Instance loses_preorder pw target : PreOrder (loses pw target).
Proof.
  split; [intros d; by apply grows_loses|]. intros a b c [H1 H2 H3] [H4 H5 H6]. split; [by auto| |by auto].
  intros k p Hk (p' & Hp' & E1 & E2 & E3)%H2; [|done]. apply H5 in Hp' as (p2 & Hp2 & F1 & F2 & F3); [|done].
  exists p2. split; [done|]. unfold same_principal. by rewrite F1, F2, F3.
Qed.

Section erasures.
Context `{Henv : !AuthEnv, Hwa : !WebAuthn, Hrange : !MapRange, Hsort : !SortSlice}.

Lemma keeps_loses pw target {A} (m : stateM Auth A) :
  stays (on_db grows) m → stays (on_db (loses pw target)) m.
Proof. intros H. eapply stays_mono; [exact H|]. intros s s'. apply grows_loses. Qed.

Lemma loses_delete_setting : stays (on_db (loses true None)) (sql (DeleteSetting settingPasswordHash)).
Proof.
  apply stays_sql, db_stays_update; [apply _|intros; by apply grows_loses, same_rows_grows|].
  intros d. split; [done|intros k p _ Hp; by exists p|]. intros [H1 H2 H3]. split; [exact H1|exact H2|exact H3].
Qed.

Lemma loses_delete_passkey target : stays (on_db (loses false (Some target))) (sql (DeletePasskey target)).
Proof.
  apply stays_sql, db_stays_update; [apply _|intros; by apply grows_loses, same_rows_grows|].
  intros d. split; [done| |].
  - intros k p Hk Hp. exists p. simpl. split; [|done]. rewrite lookup_delete_ne; [done|]. by intros ->.
  - intros [H1 H2 H3]. split; [| |exact H3]; intros k p; simpl; rewrite lookup_delete_Some; intros [_ Hp];
      [exact (H1 k p Hp)|exact (H2 k p Hp)].
Qed.

Lemma erase_password_loses sid ip : stays (on_db (loses true None)) (erase_password sid ip).
Proof.
  unfold erase_password. apply stays_try; [apply _|apply loses_delete_setting|intros _].
  apply keeps_loses. apply stays_bind; [apply _|apply keeps_end_sessions|intros _].
  apply stays_bind; [apply _|apply keeps_auth_audit|intros _]. apply stays_done, _.
Qed.

Lemma erase_passkey_loses target sid ip : stays (on_db (loses false (Some target))) (erase_passkey target sid ip).
Proof.
  unfold erase_passkey. apply stays_bind; [apply _|apply keeps_loses, keeps_query|intros r].
  apply stays_try; [apply _|apply loses_delete_passkey|intros deleted]. apply keeps_loses.
  case_match; [apply stays_done, _|]. apply stays_bind; [apply _|apply keeps_end_sessions|intros _].
  apply stays_bind; [apply _|apply keeps_end_subscriptions|intros _]. apply stays_done, _.
Qed.

(** Way in and well-formed rows. *)
Definition safe (d : AuthDB) : Prop := rows_ok d ∧ way_in d.

Lemma grows_safe d d' : grows d d' → safe d → safe d'.
Proof. intros Hg [H1 H2]. split; [by apply Hg|by eapply grows_way_in]. Qed.

Lemma RemovePassword_safe pres rpID sid ip s : safe (au_db s) →
  safe (au_db (RemovePassword pres rpID sid ip s).2).
Proof.
  intros [Hok Hway]. unfold RemovePassword, try_bind, mbind, stateM_bind.
  pose proof (authorize_password_leaves (au_db s) pres rpID sid ip s Hok Hway ltac:(done)) as Hleaves.
  pose proof (reads_authorize_password pres rpID sid ip s) as Hr. unfold wp in Hleaves.
  destruct (authorize_password_removal pres rpID sid ip s) as [[[]|e] s1]; simpl in *.
  - specialize (Hleaves eq_refl). apply same_rows_grows in Hr.
    assert (admin_passkey (au_db s1)) as (k & p & Hp & Hsc).
    { destruct Hleaves as (k & p & Hp & Hsc). apply Hr in Hp as (p' & Hp' & _ & _ & E).
      exists k, p'. split; [done|]. by rewrite E. }
    destruct (erase_password_loses sid ip s1) as [_ H2 H3]. split; [apply H3, Hr, Hok|right].
    apply H2 in Hp as (p' & Hp' & _ & _ & E); [|done]. exists k, p'. split; [done|]. by rewrite E.
  - by eapply grows_safe; [apply same_rows_grows, Hr|].
Qed.

Lemma RemovePasskey_safe pres target rpID sid ip s : safe (au_db s) →
  safe (au_db (RemovePasskey pres target rpID sid ip s).2).
Proof.
  intros [Hok Hway]. unfold RemovePasskey, try_bind, mbind, stateM_bind.
  pose proof (authorize_passkey_leaves (au_db s) pres target rpID sid ip s Hok Hway ltac:(done)) as Hleaves.
  pose proof (reads_authorize_passkey pres target rpID sid ip s) as Hr. unfold wp in Hleaves.
  destruct (authorize_passkey_removal pres target rpID sid ip s) as [[[]|e] s1]; simpl in *.
  - specialize (Hleaves eq_refl). apply same_rows_grows in Hr.
    destruct (erase_passkey_loses target sid ip s1) as [H1 H2 H3]. split; [apply H3, Hr, Hok|].
    destruct Hleaves as [Hp|(k & p & Hp & Hsc & Hne)]; [left; by apply H1, Hr|right].
    apply Hr in Hp as (p1 & Hp1 & _ & _ & E1). apply H2 in Hp1 as (p2 & Hp2 & _ & _ & E2); [|congruence].
    exists k, p2. split; [done|]. by rewrite E2, E1.
  - by eapply grows_safe; [apply same_rows_grows, Hr|].
Qed.
End erasures.

(** ** Runs of the service *)

Inductive auth_op `{!WebAuthn} : Type :=
  | DoSetPassword (pw ip : string)
  | DoChangePassword (pres : Presented) (next sid ip : string)
  | DoRemovePassword (pres : Presented) (rpID sid ip : string)
  | DoRemovePasskey (pres : Presented) (id rpID sid ip : string)
  | DoRenamePasskey (id name : string)
  | DoLogin (pw ip prior : string)
  | DoAuthenticate (sid : string)
  | DoStatus (sid : string)
  | DoLogout (sid : string)
  | DoRegisterBegin (pres : Presented) (rpID sid ip : string)
  | DoRegisterFinish (key name rpID : string) (r : Request) (t : time)
  | DoLoginBegin (rpID ip hint : string)
  | DoLoginFinish (key rpID ip : string) (r : Request) (prior : string)
  | DoReauthBegin (rpID ip op target sid : string)
  | DoReauthFinish (key rpID ip : string) (r : Request) (sid : string)
  | DoSetupBegin (rpID ip : string)
  | DoSetupFinish (key name rpID : string) (r : Request) (t : time) (prior : string)
  | DoMintEnrolment (scope : Scope)
  | DoRevokeEnrolment (udid id : string)
  | DoListEnrolments (udid : string)
  | DoEnrolBegin (rpID token ip : string)
  | DoEnrolFinish (key rpID token : string) (r : Request) (t : time) (prior ip : string).

Section runs.
Context `{Henv : !AuthEnv, Hwa : !WebAuthn, Hrange : !MapRange, Hsort : !SortSlice}.

Definition auth_step (op : auth_op) (s : Auth) : Auth :=
  match op with
  | DoSetPassword pw ip => (SetPassword pw ip s).2
  | DoChangePassword pres next sid ip => (ChangePassword pres next sid ip s).2
  | DoRemovePassword pres rpID sid ip => (RemovePassword pres rpID sid ip s).2
  | DoRemovePasskey pres id rpID sid ip => (RemovePasskey pres id rpID sid ip s).2
  | DoRenamePasskey id name => (sql (RenamePasskey id name) s).2
  | DoLogin pw ip prior => (Login pw ip prior s).2
  | DoAuthenticate sid => (Authenticate sid s).2
  | DoStatus sid => (Status sid s).2
  | DoLogout sid => (Logout sid s).2
  | DoRegisterBegin pres rpID sid ip => (RegisterBegin pres rpID sid ip s).2
  | DoRegisterFinish key name rpID r t => (FinishPasskeyRegistration key name rpID r t AdminScope s).2
  | DoLoginBegin rpID ip hint => (BeginPasskeyAssertion rpID ip hint s).2
  | DoLoginFinish key rpID ip r prior => (FinishPasskeyAssertion key rpID ip r prior s).2
  | DoReauthBegin rpID ip op target sid => (BeginReauth rpID ip op target sid s).2
  | DoReauthFinish key rpID ip r sid => (FinishReauth key rpID ip r sid s).2
  | DoSetupBegin rpID ip => (BeginSetupPasskey rpID ip s).2
  | DoSetupFinish key name rpID r t prior => (FinishSetupPasskey key name rpID r t prior s).2
  | DoMintEnrolment scope => (MintEnrolment scope s).2
  | DoRevokeEnrolment udid id => (RevokeEnrolment udid id s).2
  | DoListEnrolments udid => (OutstandingEnrolments udid s).2
  | DoEnrolBegin rpID token ip => (BeginEnrolment rpID token ip s).2
  | DoEnrolFinish key rpID token r t prior ip => (FinishEnrolment key rpID token r t prior ip s).2
  end.

Definition auth_run (ops : list auth_op) (s : Auth) : Auth := fold_left (λ s op, auth_step op s) ops s.

Definition erases (op : auth_op) : bool :=
  match op with DoRemovePassword _ _ _ _ | DoRemovePasskey _ _ _ _ _ => true | _ => false end.

Lemma auth_step_grows op s : erases op = false → grows (au_db s) (au_db (auth_step op s)).
Proof.
  destruct op; intros Hop; try discriminate Hop; cbn [auth_step]; clear Hop.
  - apply keeps_SetPassword.
  - apply keeps_ChangePassword.
  - apply keeps_RenamePasskey.
  - apply keeps_Login.
  - apply keeps_Authenticate.
  - apply keeps_Status.
  - apply keeps_Logout.
  - apply keeps_RegisterBegin.
  - apply keeps_FinishPasskeyRegistration.
  - apply keeps_BeginPasskeyAssertion.
  - apply keeps_FinishPasskeyAssertion.
  - apply keeps_BeginReauth.
  - apply keeps_FinishReauth.
  - apply keeps_BeginSetupPasskey.
  - apply keeps_FinishSetupPasskey.
  - apply keeps_MintEnrolment.
  - apply keeps_RevokeEnrolment.
  - apply keeps_Outstanding.
  - apply keeps_BeginEnrolment.
  - apply keeps_FinishEnrolment.
Qed.

Lemma auth_step_safe op s : safe (au_db s) → safe (au_db (auth_step op s)).
Proof.
  intros Hs. destruct (erases op) eqn:He; [|by eapply grows_safe; [apply auth_step_grows|]].
  destruct op; try discriminate He; [by apply RemovePassword_safe|by apply RemovePasskey_safe].
Qed.

Lemma auth_step_rows op s : rows_ok (au_db s) → rows_ok (au_db (auth_step op s)).
Proof.
  intros Hs. destruct (erases op) eqn:He; [|by apply auth_step_grows].
  destruct op; try discriminate He; cbn [auth_step].
  - pose proof (reads_authorize_password pres rpID sid ip s) as Hr. unfold RemovePassword, try_bind, mbind, stateM_bind.
    destruct (authorize_password_removal pres rpID sid ip s) as [[[]|e] s1]; simpl in *;
      [apply (erase_password_loses sid ip s1)|]; (eapply same_rows_ok; [exact Hr|exact Hs]).
  - pose proof (reads_authorize_passkey pres id rpID sid ip s) as Hr. unfold RemovePasskey, try_bind, mbind, stateM_bind.
    destruct (authorize_passkey_removal pres id rpID sid ip s) as [[[]|e] s1]; simpl in *;
      [apply (erase_passkey_loses id sid ip s1)|]; (eapply same_rows_ok; [exact Hr|exact Hs]).
Qed.

Lemma auth_run_safe ops : ∀ s, safe (au_db s) → safe (au_db (auth_run ops s)).
Proof. induction ops as [|op ops IH]; intros s Hs; [done|]. by apply IH, auth_step_safe. Qed.

(** First-run setup on a claimed install. *)
Lemma claimed_refuses {A} d (k : auth A) s : way_in d → shows d s →
  wp (let! configured := Configured in if configured : bool then refuse ErrAlreadyConfigured else k)
    (λ r _, done_ok r = false) s.
Proof.
  intros Hway Hs. apply wp_try.
  eapply wp_reads; [apply reads_Configured|exact Hs|by apply (Configured_finds d)|].
  intros [b|e] s1 Hs1 Hb; [|done]. assert (b = true) as -> by (by apply Hb, claimed_is_configured).
  by apply wp_refuse.
Qed.

Lemma limited_refuses {A} d ip (k : auth A) s : shows d s →
  (∀ s', shows d s' → wp k (λ r _, done_ok r = false) s') →
  wp (limit ip ;;! k) (λ r _, done_ok r = false) s.
Proof.
  intros Hs Hk. apply wp_try. eapply (wp_reads _ d (λ _, True)); [apply reads_limit|exact Hs|exact I|].
  intros [[]|e] s1 Hs1 _; [by apply Hk|done].
Qed.

Lemma setup_refused d s pw rpID ip key name r t prior : way_in d → shows d s →
  done_ok (SetPassword pw ip s).1 = false ∧ done_ok (BeginSetupPasskey rpID ip s).1 = false ∧
  done_ok (FinishSetupPasskey key name rpID r t prior s).1 = false.
Proof.
  intros Hway Hs. split; [|split].
  - apply (limited_refuses d); [done|]. intros s' Hs'. case_match; [by apply wp_refuse|].
    by apply (claimed_refuses d).
  - apply (limited_refuses d); [done|]. intros s' Hs'. by apply (claimed_refuses d).
  - by apply (claimed_refuses d).
Qed.

(** C7: Once the install is claimed it stays claimed.  From any state in which the admin has a
    password or an admin passkey, whatever operations follow, in whatever order, with whatever
    presented, and whatever statements the database refuses, the admin still has a password or an
    admin passkey; and setting a first password or a first passkey is refused to everyone.  (Only
    [Reset], run at the console, is not among the operations; each runs to its end before the
    next.) *)
Theorem admin_keeps_a_way_in ops s : rows_ok (au_db s) → way_in (au_db s) →
  let s' := auth_run ops s in
  way_in (au_db s') ∧
  ∀ pw rpID ip key name r t prior,
    done_ok (SetPassword pw ip s').1 = false ∧ done_ok (BeginSetupPasskey rpID ip s').1 = false ∧
    done_ok (FinishSetupPasskey key name rpID r t prior s').1 = false.
Proof.
  intros Hok Hway. destruct (auth_run_safe ops s) as [Hok' Hway']; [done|]. split; [exact Hway'|].
  intros pw rpID ip key name r t prior. by apply (setup_refused _ _ _ _ _ _ _ _ _ _ Hway').
Qed.
End runs.
