(* ===== verification/AuthProofs.v ===== *)
(** * AuthProofs: what a removal was shown

    Where the proofs of core/internal/auth come from, over whole runs of the service: a live proof
    for a removal was earned by an assertion of an admin credential other than the one to be
    removed; and a removal that succeeds presented the right password, or such a proof. *)

From Stdlib Require Import String Ascii.
From S2P Require Import Prelude Store Base64 Argon2 AuthErrors AuthStore.
From S2P Require Import Limiter Proofs Enrolment WebAuthn AuthService Credentials Passkeys AuthSafety.

#[local] Open Scope quince_scope.

(** ** Who adds proofs and ceremonies: nothing but re-authentication *)

Section forgets.
Context `{Henv : !AuthEnv, Hwa : !WebAuthn, Hrange : !MapRange, Hsort : !SortSlice}.

Definition forgets (s s' : Auth) : Prop :=
  au_proofs s' ⊆ au_proofs s ∧ au_reauth s' ⊆ au_reauth s.

#[global] Instance forgets_preorder : PreOrder forgets.
Proof. split; [by intros s|]. intros a b c [H1 H2] [H3 H4]. split; by etrans. Qed.

Lemma forgets_quiet {A} (m : stateM Auth A) :
  (∀ s, au_proofs (m s).2 = au_proofs s ∧ au_reauth (m s).2 = au_reauth s) → stays forgets m.
Proof. intros H s. destruct (H s) as [E1 E2]. split; by rewrite ?E1, ?E2. Qed.

Lemma forgets_sql {A} (m : stateM AuthDB A) : stays forgets (sql m).
Proof. apply forgets_quiet. intros s. unfold sql, lift_state. by destruct (m _). Qed.
Lemma forgets_now : stays forgets now.
Proof. by apply forgets_quiet. Qed.
Lemma forgets_draw n : stays forgets (draw n).
Proof. by apply forgets_quiet. Qed.
Lemma forgets_newID : stays forgets newID.
Proof. by apply forgets_quiet. Qed.
Lemma forgets_enrolments {A} (m : stateM Enrolments A) : stays forgets (enrolments m).
Proof. apply forgets_quiet. intros s. unfold enrolments, lift_state. by destruct (m _). Qed.
Lemma forgets_limiter {A} (m : stateM loginLimiter A) : stays forgets (lift_state au_limiter set_limiter m).
Proof. apply forgets_quiet. intros s. unfold lift_state. by destruct (m _). Qed.
Lemma forgets_take_ceremony {A} (m : stateM (gmap string (pendingCeremony SessionData)) A) :
  stays forgets (lift_state au_ceremonies set_ceremonies m).
Proof. apply forgets_quiet. intros s. unfold lift_state. by destruct (m _). Qed.
Lemma forgets_modify (f : Auth → Auth) :
  (∀ s, au_proofs (f s) = au_proofs s ∧ au_reauth (f s) = au_reauth s) → stays forgets (modify f).
Proof. intros Hf. by apply forgets_quiet. Qed.
Lemma forgets_Consume token op target sid t : stays forgets (proofs (Consume token op target sid t)).
Proof.
  intros s. unfold proofs, lift_state, forgets.
  pose proof (Consume_state token op target sid t (au_proofs s)) as H.
  destruct (Consume token op target sid t (au_proofs s)) as [r p]. simpl in *. subst p.
  split; [apply delete_subseteq|done].
Qed.
Lemma forgets_take_reauth key t :
  stays forgets (lift_state au_reauth set_reauth (reauth_take key t)).
Proof. intros s. unfold lift_state, forgets. simpl. split; [done|apply delete_subseteq]. Qed.
End forgets.

Ltac forget_step :=
  lazymatch goal with
  | |- PreOrder _ => apply _
  | |- ∀ _, _ => intros ?
  | |- stays _ (try_bind _ _) => apply stays_try
  | |- stays _ (mbind _ _) => apply stays_bind
  | |- stays _ (mret _) => apply stays_ret
  | |- stays _ (done _) => apply stays_done
  | |- stays _ (refuse _) => apply stays_refuse
  | |- stays _ now => apply forgets_now
  | |- stays _ (draw _) => apply forgets_draw
  | |- stays _ newID => apply forgets_newID
  | |- stays _ (sql _) => apply forgets_sql
  | |- stays _ (enrolments _) => apply forgets_enrolments
  | |- stays _ (proofs (Consume _ _ _ _ _)) => apply forgets_Consume
  | |- stays _ (lift_state au_limiter _ _) => apply forgets_limiter
  | |- stays _ (lift_state au_ceremonies _ _) => apply forgets_take_ceremony
  | |- stays _ (lift_state au_reauth _ _) => apply forgets_take_reauth
  | |- stays _ (modify _) => apply forgets_modify; done
  | |- _ => first [solve [auto with auth nocore] | case_match]
  end.
Ltac forget := repeat forget_step.

Section forgetting_ops.
Context `{Henv : !AuthEnv, Hwa : !WebAuthn, Hrange : !MapRange, Hsort : !SortSlice}.

Lemma forgets_audit e ip : stays forgets (audit e ip).
Proof. unfold audit. forget. Qed.
Lemma forgets_Token n : stays forgets (Token n).
Proof. unfold Token. forget. Qed.
Lemma forgets_limit_at ip t : stays forgets (limit_at ip t).
Proof. unfold limit_at. forget. Qed.
Lemma forgets_limit ip : stays forgets (limit ip).
Proof. unfold limit. forget. apply forgets_limit_at. Qed.
Lemma forgets_Configured : stays forgets Configured.
Proof. unfold Configured, HasPassword. forget. Qed.
#[local] Hint Resolve forgets_audit forgets_Token forgets_limit_at forgets_limit forgets_Configured : auth.

Lemma forgets_Accepts op rpID target : stays forgets (Accepts op rpID target).
Proof. unfold Accepts. forget. Qed.
Lemma forgets_RequirePresent pres op target sid ip : stays forgets (RequirePresent pres op target sid ip).
Proof. unfold RequirePresent. forget. Qed.
Lemma forgets_refusal1 rpID : stays forgets (passwordRemovalRefusal rpID).
Proof. unfold passwordRemovalRefusal. forget. Qed.
Lemma forgets_refusal2 id rpID : stays forgets (passkeyRemovalRefusal id rpID).
Proof. unfold passkeyRemovalRefusal, HasPassword. forget. Qed.
Lemma forgets_hash pw : stays forgets (hash_password pw).
Proof. unfold hash_password. forget. Qed.
Lemma forgets_end_sessions c e ev ip : stays forgets (end_sessions c e ev ip).
Proof. unfold end_sessions. forget. Qed.
Lemma forgets_end_subscriptions scope ip : stays forgets (end_subscriptions scope ip).
Proof. unfold end_subscriptions, scopeHasCredential. forget. Qed.
Lemma forgets_open_session t prior c : stays forgets (open_session t prior c).
Proof. unfold open_session, supersede. forget. Qed.
#[local] Hint Resolve forgets_Accepts forgets_RequirePresent forgets_refusal1 forgets_refusal2 forgets_hash
  forgets_end_sessions forgets_end_subscriptions forgets_open_session : auth.

Lemma forgets_mintSession prior c : stays forgets (mintSession prior c).
Proof. unfold mintSession, NewCSRFToken. forget. Qed.
Lemma forgets_Authenticate sid : stays forgets (Authenticate sid).
Proof. unfold Authenticate. forget. Qed.
Lemma forgets_handleForScope scope : stays forgets (handleForScope scope).
Proof. unfold handleForScope, userHandle. forget. Qed.
Lemma forgets_handleOf pk : stays forgets (handleOf pk).
Proof. unfold handleOf, userHandle. forget. Qed.
Lemma forgets_scopeUsername scope : stays forgets (scopeUsername scope).
Proof. unfold scopeUsername. forget. Qed.
Lemma forgets_put_ceremony s rp k sc h : stays forgets (put_ceremony s rp k sc h).
Proof. unfold put_ceremony. forget. Qed.
Lemma forgets_take key k : stays forgets (take_ceremony key k).
Proof. unfold take_ceremony. forget. Qed.
#[local] Hint Resolve forgets_mintSession forgets_Authenticate forgets_handleForScope forgets_handleOf
  forgets_scopeUsername forgets_put_ceremony forgets_take : auth.

Lemma forgets_BeginRegistration rpID scope d : stays forgets (BeginPasskeyRegistration rpID scope d).
Proof. unfold BeginPasskeyRegistration. forget. Qed.
Lemma forgets_FinishRegistration key name rpID r t scope :
  stays forgets (FinishPasskeyRegistration key name rpID r t scope).
Proof. unfold FinishPasskeyRegistration. forget. Qed.
Lemma forgets_resolve_user rpID raw : stays forgets (resolve_user rpID raw).
Proof. unfold resolve_user. forget. Qed.
Lemma forgets_CheckEnrolment token : stays forgets (CheckEnrolment token).
Proof. unfold CheckEnrolment. forget. Qed.
Lemma forgets_SpendEnrolment token : stays forgets (SpendEnrolment token).
Proof. unfold SpendEnrolment. forget. Qed.
#[local] Hint Resolve forgets_BeginRegistration forgets_FinishRegistration forgets_resolve_user
  forgets_CheckEnrolment forgets_SpendEnrolment : auth.

(** The two operations that are not covered by [forgets]. *)
Definition reauthenticates (op : auth_op) : bool :=
  match op with DoReauthBegin _ _ _ _ _ | DoReauthFinish _ _ _ _ _ => true | _ => false end.

Lemma forgets_step op s : reauthenticates op = false → forgets s (auth_step op s).
Proof.
  destruct op; intros Hop; try discriminate Hop; cbn [auth_step]; clear Hop;
    match goal with |- forgets ?s0 (?m ?s0).2 => generalize s0; change (stays forgets m) end;
    unfold SetPassword, ChangePassword, RemovePassword, authorize_password_removal, erase_password,
      RemovePasskey, authorize_passkey_removal, erase_passkey, Login, Status, Logout, RegisterBegin,
      BeginPasskeyAssertion, FinishPasskeyAssertion, FinishPasskeyLogin, BeginSetupPasskey,
      FinishSetupPasskey, MintEnrolment, RevokeEnrolment, OutstandingEnrolments, BeginEnrolment,
      FinishEnrolment, reset_limiter, NewCSRFToken; forget.
Qed.
End forgetting_ops.

(** ** Proofs for removals are earned *)

Section earned.
Context `{Henv : !AuthEnv, Hwa : !WebAuthn, Hrange : !MapRange, Hsort : !SortSlice}.
Context (law : webauthn_law Hwa).
(** [Adm rpID c]: [c] is, or was, an admin credential of the address [rpID]. *)
Context (Adm : string → string → Prop).

Definition encode_id (raw : string) : string := EncodeToString RawURLEncoding raw.

Definition removal_op (op : ProofOperation) : Prop := op = OpRemovePasskey ∨ op = OpRemovePassword.

Definition covers (d : AuthDB) : Prop :=
  ∀ k p, ad_passkeys d !! k = Some p → pk_ScopeUDID p = None → Adm (pk_RPID p) k.

Definition reauth_earned (p : pendingReauth SessionData) : Prop := removal_op (ra_op p) →
  wa_AllowedCredentialIDs (ra_session p) ≠ [] ∧
  ∀ raw, raw ∈ wa_AllowedCredentialIDs (ra_session p) →
    Adm (ra_rpID p) (encode_id raw) ∧ (ra_op p = OpRemovePasskey → encode_id raw ≠ ra_target p).

Definition proof_earned (m : mintedProof) : Prop := removal_op (mp_op m) →
  ∃ rpID c, mp_subject m = mkSubject false c ∧ Adm rpID c ∧ (mp_op m = OpRemovePasskey → c ≠ mp_target m).

Definition earned (s : Auth) : Prop :=
  (∀ k p, au_reauth s !! k = Some p → reauth_earned p) ∧ (∀ k m, au_proofs s !! k = Some m → proof_earned m).

Lemma forgets_earned s s' : forgets s s' → earned s → earned s'.
Proof.
  intros [H1 H2] [E1 E2]. split; intros k x Hx; [eapply E1|eapply E2]; by eapply lookup_weaken.
Qed.

(** What every step of re-authentication keeps. *)
Definition sound (s : Auth) : Prop := rows_ok (au_db s) ∧ earned s.

Lemma wp_sound {A} (m : stateM Auth A) (Q : A → Prop) s :
  stays forgets m → stays (on_db grows) m → sound s → wp m (λ a _, Q a) s →
  wp m (λ a s', Q a ∧ sound s') s.
Proof.
  intros Hf Hg [Hok He] HQ. split; [exact HQ|]. split; [apply Hg, Hok|]. eapply forgets_earned; [apply Hf|done].
Qed.

Lemma wp_sound_any {A} (m : stateM Auth A) s :
  stays forgets m → stays (on_db grows) m → sound s → wp m (λ _ s', sound s') s.
Proof. intros Hf Hg [Hok He]. split; [apply Hg, Hok|]. eapply forgets_earned; [apply Hf|done]. Qed.

Lemma provable_finds d op rpID target s : rows_ok d → shows d s → removal_op op →
  wp (provable op rpID target)
    (λ r _, r = None → ∃ k p, ad_passkeys d !! k = Some p ∧ pk_ScopeUDID p = None ∧ pk_RPID p = rpID ∧
       (op = OpRemovePasskey → k ≠ target)) s.
Proof.
  intros Hok Hs Hop. unfold provable. destruct Hop as [-> | ->].
  - change (String.eqb OpRemovePasskey OpRemovePasskey) with true. cbv iota.
    eapply wp_mono; [by apply (passkeyRemovalRefusal_finds d)|].
    intros r s' Hr Hn. destruct (Hr Hn) as (k & p & ? & ? & ? & ?). by exists k, p.
  - change (String.eqb OpRemovePassword OpRemovePasskey) with false.
    change (String.eqb OpRemovePassword OpRemovePassword) with true. cbv iota. apply wp_bind.
    eapply wp_mono.
    + refine (wp_sql_query (λ d, filter (λ p, pk_ScopeUDID p = None) (passkeys_asc d)) d s _ Hs).
      intros d' Hd'. by rewrite (passkeys_asc_same d).
    + intros [rows|e] s1 Hr; apply wp_ret; [|done]. specialize (Hr rows eq_refl) as ->.
      case_bool_decide as Hex; [|done]. intros _. apply Exists_exists in Hex as (p & Hp & Hrp).
      apply list_elem_of_filter in Hp as [Hsc Hp]. apply elem_of_passkeys_asc in Hp as [k Hk].
      exists k, p. repeat split; try done.
Qed.

Lemma reauth_allowed_finds d op rpID target s : rows_ok d → shows d s → removal_op op →
  wp (reauth_allowed op rpID target)
    (λ r _, ∀ l, r = Done l → ∀ id, id ∈ l ↔ admin_at d rpID id ∧
       (op = OpRemovePasskey → encode_id id ≠ target)) s.
Proof.
  intros Hok Hs Hop. unfold reauth_allowed. destruct Hop as [-> | ->].
  - change (String.eqb OpRemovePasskey OpRemovePasskey) with true. cbv iota.
    eapply wp_mono; [by apply (allowed_finds d)|]. intros r s' Hr l Hl id. rewrite (Hr l Hl). naive_solver.
  - change (String.eqb OpRemovePassword OpRemovePasskey) with false. cbv iota. apply wp_try.
    eapply wp_mono; [by apply (adminCredentials_finds d)|]. intros [creds|e] s' Hr; [|done].
    apply wp_done. intros l [= <-] id. rewrite (Hr creds eq_refl). split; [by intros|by intros [? _]].
Qed.

Lemma forgets_provable op rpID target : stays forgets (provable op rpID target).
Proof. unfold provable, passkeyRemovalRefusal, HasPassword. forget. Qed.
Lemma reads_provable op rpID target : stays (on_db same_rows) (provable op rpID target).
Proof.
  unfold provable, ListAdminPasskeys. case_match; [apply reads_passkeyRemovalRefusal|].
  case_match; [|apply stays_ret, _]. apply stays_bind; [apply _|apply reads_query|intros r; apply stays_ret, _].
Qed.
Lemma forgets_reauth_allowed op rpID target : stays forgets (reauth_allowed op rpID target).
Proof. unfold reauth_allowed. forget. Qed.
Lemma reads_reauth_allowed op rpID target : stays (on_db same_rows) (reauth_allowed op rpID target).
Proof.
  unfold reauth_allowed. case_match; [apply reads_allowed|].
  apply stays_try; [apply _|apply reads_admin|intros a; apply stays_done, _].
Qed.

Lemma put_reauth_earned p s : sound s → (∀ e, reauth_earned (mkReauth (ra_session p) (ra_rpID p) (ra_op p)
    (ra_target p) (ra_sessionID p) e)) →
  wp (put_reauth p) (λ _ s', sound s') s.
Proof.
  intros Hs Hp. unfold put_reauth. apply wp_bind.
  eapply wp_mono; [apply wp_sound_any; [apply forgets_Token|apply keeps_Token|exact Hs]|]. intros key s1 Hs1.
  apply wp_bind. eapply wp_mono; [apply wp_sound_any; [apply forgets_now|apply stays_now; apply _|exact Hs1]|].
  intros t s2 [Hok [H1 H2]]. apply wp_bind, wp_modify, wp_ret. split; [exact Hok|]. split; [|exact H2].
  intros k q. cbn [au_reauth set_reauth]. unfold reauth_put. rewrite lookup_insert. case_decide; [by intros [= <-]|].
  intros [Hq _]%map_lookup_filter_Some. by apply (H1 k).
Qed.

(** A step that only reads, over the tables of [d]. *)
Definition fine (d : AuthDB) (s : Auth) : Prop := shows d s ∧ sound s.

Lemma wp_fine {A} (m : stateM Auth A) d (P : A → Prop) (Q : A → Auth → Prop) s :
  stays forgets m → stays (on_db same_rows) m → fine d s → wp m (λ a _, P a) s →
  (∀ a s', fine d s' → P a → Q a s') → wp m Q s.
Proof.
  intros Hf Hr [Hs [Hok He]] HP HQ. apply HQ; [|exact HP]. specialize (Hr s). unfold on_db in Hr.
  split; [unfold shows in *; by etrans|]. split; [eapply same_rows_ok; [exact Hr|exact Hok]|].
  eapply forgets_earned; [apply Hf|exact He].
Qed.

Lemma wp_any {A} (m : stateM Auth A) s : wp m (λ _ _, True) s.
Proof. exact I. Qed.

Lemma BeginReauth_earned rpID ip op target sid s : sound s → covers (au_db s) →
  sound (BeginReauth rpID ip op target sid s).2.
Proof.
  intros Hs Hcov. change (wp (BeginReauth rpID ip op target sid) (λ _ s', sound s') s). unfold BeginReauth.
  destruct (check_target op target); [by apply wp_refuse|]. case_match; [by apply wp_refuse|].
  set (d := au_db s) in Hcov. assert (fine d s) as Hd by done. assert (rows_ok d) as Hok by apply Hs.
  clearbody d. apply wp_bind.
  eapply (wp_fine _ d (λ r, removal_op op → r = None → _)); [apply forgets_provable|apply reads_provable|exact Hd| |].
  { destruct (decide (op = OpRemovePasskey ∨ op = OpRemovePassword)) as [Hop|Hop].
    - eapply wp_mono; [apply (provable_finds d op rpID target); [exact Hok|apply Hd|exact Hop]|].
      intros r s' Hr _. exact Hr.
    - eapply wp_mono; [apply wp_any|]. intros r s' _ Hop'. by destruct Hop. }
  intros [e|] s1 Hs1 Hprov; [apply wp_refuse, Hs1|]. apply wp_try.
  eapply (wp_fine _ d (λ _, True)); [apply forgets_limit|apply reads_limit|exact Hs1|exact I|].
  intros [[]|e] s2 Hs2 _; [|apply Hs2]. apply wp_try, wp_ret.
  destruct (relyingParty rpID) as [wa|e]; [|apply Hs2]. apply wp_try.
  eapply (wp_fine _ d (λ r, removal_op op → ∀ l, r = Done l → _));
    [apply forgets_reauth_allowed|apply reads_reauth_allowed|exact Hs2| |].
  { destruct (decide (op = OpRemovePasskey ∨ op = OpRemovePassword)) as [Hop|Hop].
    - eapply wp_mono; [apply (reauth_allowed_finds d op rpID target); [exact Hok|apply Hs2|exact Hop]|].
      intros r s' Hr _. exact Hr.
    - eapply wp_mono; [apply wp_any|]. intros r s' _ Hop'. by destruct Hop. }
  intros [allowed|e] s3 Hs3 Hall; [|apply Hs3]. apply wp_try, wp_ret.
  destruct (wa_BeginDiscoverableLogin wa allowed) as [[o sess]|e] eqn:Hbegin; [|apply Hs3].
  apply (begin_login_allows _ law) in Hbegin. apply wp_bind.
  eapply wp_mono; [apply put_reauth_earned; [apply Hs3|]|].
  - intros e Hop. cbn [ra_session ra_op ra_rpID ra_target snd] in *. rewrite Hbegin.
    specialize (Hall Hop allowed eq_refl). split.
    + destruct (Hprov Hop eq_refl) as (k & p & Hp & Hsc & Hrp & Hne).
      destruct (passkeys_canonical d Hok k p Hp) as [raw ->]. intros ->.
      apply (not_elem_of_nil raw), Hall. split; [|exact Hne]. by exists p.
    + intros raw Hraw. apply Hall in Hraw as [(p & Hp & Hsc & Hrp) Hne]. split; [|exact Hne].
      rewrite <-Hrp. by apply (Hcov _ p).
  - intros key s4 Hs4. by apply wp_done.
Qed.

(** *** Finishing *)

Lemma resolve_user_finds rpID raw s : rows_ok (au_db s) →
  wp (resolve_user rpID raw) (λ r _, ∀ x, r = Done x → pk_CredentialID x.2 = encode_id raw) s.
Proof.
  intros Hok. unfold resolve_user. apply wp_try. unfold ResolveCredential. apply wp_sql.
  apply wp_try, wp_query. intros d' Hd'. split; [done|].
  destruct (ad_passkeys d' !! _) as [pk|] eqn:Hpk; [|done]. case_match; [done|]. apply wp_done.
  destruct Hd' as (_ & Hd' & _). rewrite Hd' in Hpk. apply (passkeys_keyed _ Hok) in Hpk.
  apply wp_try. eapply wp_mono; [apply wp_any|]. intros [creds|e] s1 _; [|done].
  apply wp_try. eapply wp_mono; [apply wp_any|]. intros [h|e] s2 _; [|done].
  apply wp_done. by intros x [= <-].
Qed.

Lemma take_reauth_earned key s : sound s →
  wp (take_reauth key) (λ a s', (∀ p, a = Done p → reauth_earned p) ∧ sound s') s.
Proof.
  intros Hs. apply wp_sound; [unfold take_reauth; forget|unfold take_reauth; stay|exact Hs|].
  destruct Hs as [_ [He _]]. unfold take_reauth, wp, mbind, stateM_bind, lift_state, reauth_take, now. simpl.
  destruct (au_reauth s !! key) as [p|] eqn:Hp; simpl; [|done].
  destruct (ra_expires p <? _); simpl; [done|]. intros q [= <-]. by apply (He key).
Qed.

Lemma mint_proof_earned op target subject sid s : sound s →
  (∀ e, proof_earned (mkProof op target subject sid e)) →
  wp (mint_proof op target subject sid) (λ _ s', sound s') s.
Proof.
  intros Hs Hp. unfold mint_proof. apply wp_bind.
  eapply wp_mono; [apply wp_sound_any; [apply forgets_Token|apply keeps_Token|exact Hs]|]. intros token s1 Hs1.
  apply wp_bind. eapply wp_mono; [apply wp_sound_any; [apply forgets_now|apply stays_now; apply _|exact Hs1]|].
  intros t s2 [Hok [H1 H2]]. unfold wp, proofs, lift_state.
  destruct (Proofs.Mint op target subject sid token t (au_proofs s2)) as [r p'] eqn:HM.
  apply Mint_exact in HM as [[_ ->]|(_ & _ & _ & _ & _ & ->)]; (split; [exact Hok|]; split; [exact H1|]).
  - exact H2.
  - intros k m. cbn [au_proofs set_proofs snd]. rewrite lookup_insert. case_decide; [intros [= <-]; apply Hp|].
    intros [Hm _]%map_lookup_filter_Some. by apply (H2 k).
Qed.

Lemma FinishReauth_earned key rpID ip r sid s : sound s → sound (FinishReauth key rpID ip r sid s).2.
Proof.
  intros Hs. change (wp (FinishReauth key rpID ip r sid) (λ _ s', sound s') s). unfold FinishReauth.
  apply wp_bind. eapply wp_mono; [apply wp_sound_any; [apply forgets_now|apply stays_now; apply _|exact Hs]|].
  intros t s1 Hs1. apply wp_try.
  eapply wp_mono; [apply wp_sound_any; [apply forgets_limit_at|apply keeps_limit_at|exact Hs1]|].
  intros [[]|e] s2 Hs2; [|exact Hs2]. apply wp_try.
  eapply wp_mono; [by apply take_reauth_earned|]. intros [p|e] s3 [Hp Hs3]; [|exact Hs3].
  specialize (Hp p eq_refl). case_match; [by apply wp_refuse|]. case_match; [by apply wp_refuse|].
  apply wp_try, wp_ret. destruct (relyingParty (ra_rpID p)) as [wa|e]; [|exact Hs3]. apply wp_try.
  unfold FinishPasskeyLogin. destruct (wa_parse_assertion r) as [[raw h]|e] eqn:Hparse; [|exact Hs3].
  apply wp_try. eapply wp_mono; [apply (wp_sound _ (λ a, ∀ x, a = Done x → pk_CredentialID x.2 = encode_id raw));
    [apply forgets_resolve_user|apply keeps_resolve_user|exact Hs3|apply resolve_user_finds, Hs3]|].
  intros [[u pk]|e] s4 [Hx Hs4]; [|exact Hs4]. specialize (Hx _ eq_refl). cbn [fst snd] in *.
  destruct (wa_validate_login wa u (ra_session p) r) as [cred|e] eqn:Hval; [|exact Hs4].
  apply (login_validates _ law) in Hval as (raw' & Hraw & _ & _ & Hin). rewrite Hparse in Hraw. simplify_eq.
  apply wp_done. cbv beta iota. cbn [fst snd]. apply wp_try.
  eapply wp_mono; [apply wp_sound_any; [apply forgets_sql|apply keeps_TouchPasskey|exact Hs4]|].
  intros [[]|e] s5 Hs5; [|exact Hs5]. apply wp_try.
  eapply wp_mono; [apply mint_proof_earned; [exact Hs5|]|].
  - intros e Hop. specialize (Hp Hop) as [Hne Hall]. destruct Hin as [Hin|Hin]; [done|].
    destruct (Hall _ Hin) as [Hadm Hnt]. exists (ra_rpID p), (pk_CredentialID pk). rewrite Hx. done.
  - intros [token|e] s6 Hs6; [|exact Hs6]. apply wp_bind.
    eapply wp_mono; [apply wp_sound_any; [unfold reset_limiter; forget|apply keeps_reset_limiter|exact Hs6]|].
    intros x7 s7 Hs7. apply wp_bind.
    eapply wp_mono; [apply wp_sound_any; [apply forgets_audit|apply keeps_auth_audit|exact Hs7]|].
    intros x8 s8 Hs8. by apply wp_done.
Qed.

Lemma auth_step_sound op s : sound s → covers (au_db s) → sound (auth_step op s).
Proof.
  intros Hs Hcov. destruct (reauthenticates op) eqn:Hop.
  - destruct op; try discriminate Hop; [by apply BeginReauth_earned|by apply FinishReauth_earned].
  - split; [by apply auth_step_rows, Hs|]. eapply forgets_earned; [by apply forgets_step|apply Hs].
Qed.

Lemma auth_run_sound ops : ∀ s, sound s →
  (∀ before after, ops = before ++ after → covers (au_db (auth_run before s))) → sound (auth_run ops s).
Proof.
  induction ops as [|op ops IH]; intros s Hs Hcov; [done|]. apply IH.
  - apply auth_step_sound; [exact Hs|]. exact (Hcov [] _ eq_refl).
  - intros before after ->. exact (Hcov (op :: before) after eq_refl).
Qed.
End earned.

(** ** What a removal presented *)

Section presented.
Context `{Henv : !AuthEnv, Hwa : !WebAuthn, Hrange : !MapRange, Hsort : !SortSlice}.

(** The password that was presented verifies against the stored hash. *)
Definition right_password (d : AuthDB) (pres : Presented) : Prop :=
  ∃ hash, ad_settings d !! settingPasswordHash = Some hash ∧
    verifyPassword IDKey (pr_Password pres) hash = Ok true.

(** A proof of the presented token is in the store. *)
Definition proof_of (s : Auth) (pres : Presented) (op : ProofOperation) (target sid : string)
    (su : ProofSubject) : Prop :=
  ∃ e, au_proofs s !! pr_Proof pres = Some (mkProof op target su sid e).

(** The database as [d] has it, and no proof that was not there in [s0]. *)
Definition still (d : AuthDB) (s0 s : Auth) : Prop := shows d s ∧ forgets s0 s.

Lemma still_proof d s0 s pres op target sid su :
  still d s0 s → proof_of s pres op target sid su → proof_of s0 pres op target sid su.
Proof. intros [_ [Hp _]] [e He]. exists e. by eapply lookup_weaken. Qed.

Lemma wp_still {A} (m : stateM Auth A) d s0 (P : A → Prop) (Q : A → Auth → Prop) s :
  stays forgets m → stays (on_db same_rows) m → still d s0 s → wp m (λ a _, P a) s →
  (∀ a s', still d s0 s' → P a → Q a s') → wp m Q s.
Proof.
  intros Hf Hr [Hs H0] HP HQ. apply HQ; [|exact HP]. specialize (Hr s). unfold on_db in Hr.
  split; [unfold shows in *; by etrans|]. etrans; [exact H0|apply Hf].
Qed.

Definition presented (d : AuthDB) (s0 : Auth) (pres : Presented) (op : ProofOperation) (target sid : string)
    (r : outcome ProofSubject) : Prop :=
  ∀ su, r = Done su → (su = mkSubject true "" ∧ right_password d pres) ∨ proof_of s0 pres op target sid su.

Lemma RequirePresent_finds d s0 pres op target sid ip s : way_in d → still d s0 s →
  wp (RequirePresent pres op target sid ip) (λ r _, presented d s0 pres op target sid r) s.
Proof.
  intros Hway Hs. unfold RequirePresent. apply wp_try.
  eapply wp_still; [apply forgets_Configured|apply reads_Configured|exact Hs|apply (Configured_finds d), Hs|].
  intros [b|e] s1 Hs1 Hb; [|done]. assert (b = true) as -> by (by apply (Hb b eq_refl), claimed_is_configured).
  cbn [negb]. destruct (String.eqb_spec (pr_Proof pres) ""); cbn [negb].
  - case_match; [by apply wp_refuse|]. apply wp_try.
    eapply wp_still; [apply forgets_sql|apply reads_query|exact Hs1|apply (password_finds d), Hs1|].
    intros [[hash|]|e'] s2 Hs2 Hv; [|by apply wp_refuse|done]. specialize (Hv _ eq_refl). apply wp_try.
    eapply (wp_still _ d s0 (λ _, True)); [apply forgets_limit|apply reads_limit|exact Hs2|exact I|].
    intros [[]|e'] s3 Hs3 _; [|done]. destruct (verifyPassword _ _ _) as [[]|msg] eqn:Hpw; [| |done].
    + apply wp_done. intros su [= <-]. left. split; [done|]. by exists hash.
    + apply wp_bind. eapply wp_mono; [apply wp_any|]. intros x s4 _. by apply wp_refuse.
  - apply wp_bind.
    eapply (wp_still _ d s0 (λ _, True)); [apply forgets_now|by apply stays_now; apply _|exact Hs1|exact I|].
    intros t s2 Hs2 _. unfold wp, proofs, lift_state.
    destruct (Consume (pr_Proof pres) op target sid t (au_proofs s2)) as [r p] eqn:HC. intros su Hsu.
    cbn [fst] in Hsu. subst r. apply (f_equal fst), Consume_exact in HC as (e & He & _). right.
    eapply still_proof; [exact Hs2|]. by exists e.
Qed.

Lemma forgets_removal_check (configured : bool) op rpID target (refusal : auth unit) :
  stays forgets refusal →
  stays forgets (if configured then
    let! accepts := Accepts op rpID target in if bool_decide (accepts = []) then refusal else done tt
  else done tt).
Proof. intros Hr. pose proof forgets_Accepts. forget; auto. Qed.

Lemma reads_removal_check (configured : bool) op rpID target (refusal : auth unit) :
  stays (on_db same_rows) refusal →
  stays (on_db same_rows) (if configured then
    let! accepts := Accepts op rpID target in if bool_decide (accepts = []) then refusal else done tt
  else done tt).
Proof. intros Hr. pose proof reads_Accepts. stay; auto. Qed.

Lemma authorize_passkey_presents pres id rpID sid ip s : way_in (au_db s) →
  wp (authorize_passkey_removal pres id rpID sid ip)
    (λ r _, r = Done tt → right_password (au_db s) pres ∨
       ∃ su, proof_of s pres OpRemovePasskey id sid su ∧ IsCredential id su = false) s.
Proof.
  intros Hway. assert (still (au_db s) s s) as Hs by done. unfold authorize_passkey_removal. apply wp_try.
  eapply (wp_still _ _ _ (λ _, True)); [apply forgets_Configured|apply reads_Configured|exact Hs|exact I|].
  intros [b|e] s1 Hs1 _; [|done]. apply wp_try.
  eapply (wp_still _ _ _ (λ _, True));
    [apply forgets_removal_check; forget; apply forgets_refusal2
    |apply reads_removal_check; stay; apply reads_passkeyRemovalRefusal|exact Hs1|exact I|].
  intros [[]|e] s2 Hs2 _; [|done]. apply wp_try.
  eapply wp_mono; [apply RequirePresent_finds; [exact Hway|exact Hs2]|].
  intros [su|e] s3 Hsu; [|done]. destruct (IsCredential id su) eqn:Hid; [by apply wp_refuse|].
  apply wp_done. intros _. destruct (Hsu su eq_refl) as [[_ Hpw]|Hp]; [by left|right; by exists su].
Qed.

Lemma authorize_password_presents pres rpID sid ip s : way_in (au_db s) →
  wp (authorize_password_removal pres rpID sid ip)
    (λ r _, r = Done tt → ∃ su, proof_of s pres OpRemovePassword "" sid su) s.
Proof.
  intros Hway. assert (still (au_db s) s s) as Hs by done. unfold authorize_password_removal. apply wp_try.
  eapply (wp_still _ _ _ (λ _, True)); [apply forgets_Configured|apply reads_Configured|exact Hs|exact I|].
  intros [b|e] s1 Hs1 _; [|done]. apply wp_try.
  eapply (wp_still _ _ _ (λ _, True));
    [apply forgets_removal_check; forget; apply forgets_refusal1
    |apply reads_removal_check; stay; apply reads_passwordRemovalRefusal|exact Hs1|exact I|].
  intros [[]|e] s2 Hs2 _; [|done]. apply wp_try.
  eapply wp_mono; [apply RequirePresent_finds; [exact Hway|exact Hs2]|].
  intros [su|e] s3 Hsu; [|done]. destruct (su_Password su) eqn:Hpw.
  - apply wp_bind. eapply wp_mono; [apply wp_any|]. intros x s4 _. by apply wp_refuse.
  - apply wp_done. intros _. destruct (Hsu su eq_refl) as [[-> _]|Hp]; [done|by exists su].
Qed.

(** A removal that succeeds was authorised. *)
Lemma done_first {B} (m : auth unit) (k : unit → auth B) (P : Prop) s :
  wp m (λ r _, r = Done tt → P) s → done_ok (try_bind m k s).1 = true → P.
Proof.
  unfold wp, try_bind, mbind, stateM_bind. destruct (m s) as [[[]|e] s']; simpl; [|done].
  intros H _. by apply H.
Qed.
End presented.

(** ** Removals over whole runs *)

Section removals.
Context `{Henv : !AuthEnv, Hwa : !WebAuthn, Hrange : !MapRange, Hsort : !SortSlice}.

(** [c] was an admin credential of the address [rpID] at some moment of the run. *)
Definition was_admin (ops : list auth_op) (s : Auth) (rpID c : string) : Prop :=
  ∃ before after p, ops = before ++ after ∧ ad_passkeys (au_db (auth_run before s)) !! c = Some p ∧
    pk_ScopeUDID p = None ∧ pk_RPID p = rpID.

(** The presented token proves that an admin credential asserted for this operation. *)
Definition proved_by_admin (ops : list auth_op) (s : Auth) (pres : Presented) (op : ProofOperation)
    (target sid c : string) : Prop :=
  proof_of (auth_run ops s) pres op target sid (mkSubject false c) ∧ ∃ rpID, was_admin ops s rpID c.

Lemma run_earned ops s : webauthn_law Hwa → rows_ok (au_db s) → au_proofs s = ∅ → au_reauth s = ∅ →
  earned (was_admin ops s) (auth_run ops s).
Proof.
  intros law Hok Hp Hr. apply auth_run_sound; [exact law| |].
  - split; [exact Hok|]. split; intros k x; rewrite ?Hp, ?Hr, lookup_empty; done.
  - intros before after -> k p Hk Hsc. by exists before, after, p.
Qed.

Lemma earned_proof ops s pres op target sid su : earned (was_admin ops s) (auth_run ops s) →
  removal_op op → proof_of (auth_run ops s) pres op target sid su →
  ∃ c, proved_by_admin ops s pres op target sid c ∧ (op = OpRemovePasskey → c ≠ target).
Proof.
  intros [_ He] Hop [e Hlook]. destruct (He _ _ Hlook Hop) as (rp & c & Hsu & Hadm & Hne).
  cbn [mp_subject] in Hsu. subst su. exists c. split; [split; [by exists e|by exists rp]|done].
Qed.

(** C8: Nobody removes a credential with that credential alone.  At the end of any run of the service
    from its start on a claimed install: a removal of a passkey succeeds only for the right password
    or for a proof, minted in this session for removing this very passkey, that another passkey of
    the admin gave; and a removal of the password succeeds only for such a proof of a passkey of the
    admin - the password itself does not remove itself, and a passkey confined to a device removes
    nothing.  ([webauthn_law] is what go-webauthn is relied on for.) *)
Theorem removal_needs_another_credential ops s pres id rpID sid ip :
  webauthn_law Hwa → rows_ok (au_db s) → way_in (au_db s) → au_proofs s = ∅ → au_reauth s = ∅ →
  (done_ok (RemovePasskey pres id rpID sid ip (auth_run ops s)).1 = true →
     right_password (au_db (auth_run ops s)) pres ∨
     ∃ c, proved_by_admin ops s pres OpRemovePasskey id sid c ∧ c ≠ id) ∧
  (done_ok (RemovePassword pres rpID sid ip (auth_run ops s)).1 = true →
     ∃ c, proved_by_admin ops s pres OpRemovePassword "" sid c).
Proof.
  intros law Hok Hway Hp Hr. pose proof (run_earned ops s law Hok Hp Hr) as He.
  destruct (auth_run_safe ops s (conj Hok Hway)) as [_ Hway']. split; intros Hd.
  - apply done_first with (1 := authorize_passkey_presents _ _ _ _ _ _ Hway') in Hd
      as [Hpw|(su & Hsu & _)]; [by left|right].
    destruct (earned_proof _ _ _ _ _ _ _ He (or_introl eq_refl) Hsu) as (c & Hc & Hne). exists c. auto.
  - apply done_first with (1 := authorize_password_presents _ _ _ _ _ Hway') in Hd as [su Hsu].
    destruct (earned_proof _ _ _ _ _ _ _ He (or_intror eq_refl) Hsu) as (c & Hc & _). by exists c.
Qed.
End removals.
