(* ===== verification/Proxy.v ===== *)
(** * Proxy: who is calling, and over what

    Models core/internal/auth/proxy.go (the proxies whose headers are believed, and the address of
    the client behind them), cookie.go (the cookies and their Secure flag), the same predicates of
    service.go, and the double-submit check of csrf.go, on the parts of a request that they read. *)

From Stdlib Require Import String Ascii.
From S2P Require Import Prelude Argon2 AuthStore Net.

(** What the handlers read of an [*http.Request].  A path is its segments, each unescaped by itself,
    and whether it ends in a slash; a header is the values of its lines. *)
Record HTTPRequest : Type := mkRequest {
  rq_Method : string;
  rq_segments : list string;
  rq_slash : bool;
  rq_Host : string;
  rq_RemoteAddr : string;
  rq_TLS : bool;
  rq_ForwardedFor : list string;       (* X-Forwarded-For *)
  rq_ForwardedProto : list string;     (* X-Forwarded-Proto *)
  rq_CSRFHeader : list string;         (* X-CSRF-Token *)
  rq_session : string;                 (* the cookies; [""] when absent *)
  rq_csrf : string;
  rq_udid : string;                    (* ?udid= *)
  rq_body_udid : option string }.      (* the body's "udid", when it is JSON *)

(** [Header.Get]: the first line. *)
Definition header_Get (values : list string) : string := from_option id ""%string (head values).

(** [URL.Path]: the segments, unescaped, with slashes between. *)
Definition url_Path (r : HTTPRequest) : string :=
  "/" +:+ join (rq_segments r) "/" +:+ (if rq_slash r then "/" else "").

(** ** Trusted proxies *)

Abbreviation TrustedProxies := (list IPNet).

(** One entry of the list, blanks trimmed: [None] is skipped, [inl] is a warning. *)
Definition proxy_entry (e : string) : option (string + IPNet) :=
  if String.eqb e "" then None
  else match ParseCIDR e with
  | Some n => Some (inr n)
  | None =>
      match ParseIP e with
      | Some ip =>
          let bits := match To4 ip with Some _ => 32 | None => 128 end in
          Some (inr (mkIPNet ip (CIDRMask bits bits)))
      | None => Some (inl e)
      end
  end.

Fixpoint NewTrustedProxies (entries : list string) : TrustedProxies * list string :=
  match entries with
  | [] => ([], [])
  | e :: entries =>
      let '(nets, bad) := NewTrustedProxies entries in
      match proxy_entry (trim_space e) with
      | None => (nets, bad)
      | Some (inr n) => (n :: nets, bad)
      | Some (inl e) => (nets, e :: bad)
      end
  end.

Definition Configured_proxies (t : TrustedProxies) : bool := negb (bool_decide (length t = 0)%nat).

Definition trusts (t : TrustedProxies) (ip : option IP) : bool :=
  match ip with None => false | Some ip => existsb (λ n, Contains n ip) t end.

Definition peerHost (r : HTTPRequest) : string :=
  match SplitHostPort (rq_RemoteAddr r) with Some (h, _) => h | None => rq_RemoteAddr r end.

Definition splitForwarded (v : string) : list string :=
  if String.eqb v "" then [] else trim_space <$> split_on "," v.

(** From the right, past malformed hops and trusted proxies. *)
Fixpoint first_untrusted (t : TrustedProxies) (hops : list string) : option string :=
  match hops with
  | [] => None
  | hop :: hops =>
      match ParseIP hop with
      | None => first_untrusted t hops
      | Some ip => if trusts t (Some ip) then first_untrusted t hops else Some (IP_String ip)
      end
  end.

Definition ClientIP (t : TrustedProxies) (r : HTTPRequest) : string :=
  let peer := peerHost r in
  if negb (Configured_proxies t) then peer
  else if negb (trusts t (ParseIP peer)) then peer
  else default peer (first_untrusted t (reverse (splitForwarded (header_Get (rq_ForwardedFor r))))).

Definition UnconfiguredProxy (t : TrustedProxies) (r : HTTPRequest) : bool :=
  if String.eqb (header_Get (rq_ForwardedFor r)) "" then false
  else negb (trusts t (ParseIP (peerHost r))).

Definition TrustsPeer (t : TrustedProxies) (r : HTTPRequest) : bool := trusts t (ParseIP (peerHost r)).

(** ** Cookies *)

Inductive SameSite : Type := SameSiteStrictMode.

Record Cookie : Type := mkCookie {
  ck_Name : string; ck_Value : string; ck_Path : string; ck_HttpOnly : bool; ck_Secure : bool;
  ck_SameSite : SameSite; ck_Expires : option time; ck_MaxAge : Z }.

Definition SessionCookieName : string := "quince_session".
Definition CSRFCookieName : string := "quince_csrf".

Definition SessionCookie (sess : AuthSession) (secure : bool) : Cookie :=
  mkCookie SessionCookieName (se_ID sess) "/" true secure SameSiteStrictMode (Some (se_ExpiresAt sess)) 0.
Definition ClearSessionCookie (secure : bool) : Cookie :=
  mkCookie SessionCookieName "" "/" true secure SameSiteStrictMode None (-1).
Definition CSRFCookie (token : string) (secure : bool) : Cookie :=
  mkCookie CSRFCookieName token "/" false secure SameSiteStrictMode None 0.

Definition SecureOrigin (r : HTTPRequest) (t : TrustedProxies) : bool :=
  if rq_TLS r then true
  else if negb (equal_fold (header_Get (rq_ForwardedProto r)) "https") then false
  else negb (Configured_proxies t) || TrustsPeer t r.

Definition isLoopbackHost (hostport : string) : bool :=
  let host := trim_space (match SplitHostPort hostport with Some (h, _) => h | None => hostport end) in
  if String.eqb host "localhost" then true
  else match ParseIP host with Some ip => IsLoopback ip | None => false end.

Definition secureCookie (r : HTTPRequest) (allowInsecure : bool) (t : TrustedProxies) : bool :=
  if SecureOrigin r t then true
  else if allowInsecure then false
  else negb (isLoopbackHost (rq_Host r)).

(** What of [Service] decides about transport. *)
Record Transport : Type := mkTransport {
  tr_insecureCookies : bool; tr_allowInsecure : bool; tr_proxies : TrustedProxies }.

Definition Secure (tr : Transport) (r : HTTPRequest) : bool :=
  if tr_insecureCookies tr then false else secureCookie r (tr_allowInsecure tr) (tr_proxies tr).

Definition CookieWillBeDiscarded (tr : Transport) (r : HTTPRequest) : bool :=
  Secure tr r && negb (SecureOrigin r (tr_proxies tr)).

Definition CSRFSecure (tr : Transport) (r : HTTPRequest) : bool :=
  Secure tr r && negb (CookieWillBeDiscarded tr r).

(** ** The double submit *)

Definition CheckCSRF (r : HTTPRequest) : bool :=
  let cookie := rq_csrf r in
  let header := header_Get (rq_CSRFHeader r) in
  if String.eqb cookie "" || String.eqb header "" then false else String.eqb cookie header.

(** ** The client's address cannot be chosen by the client *)

Lemma split_on_app_any sep s t : split_on sep (s +:+ String sep t) = split_on sep s ++ split_on sep t.
Proof.
  assert (∀ u, split_on sep u ≠ []) as Hne.
  { induction u as [|c u IH]; simpl; [done|]. case_bool_decide; [done|]. by destruct (split_on sep u). }
  induction s as [|c s IH]; simpl; [by rewrite bool_decide_eq_true_2|]. rewrite IH.
  case_bool_decide; [done|]. specialize (Hne s). by destruct (split_on sep s).
Qed.

Lemma split_on_join l : l ≠ [] → Forall (lacks ",") l → split_on "," (join l ",") = l.
Proof.
  intros Hl. induction l as [|x l IH]; [done|]. intros [Hx Hf]%Forall_cons.
  destruct l as [|y l]; [by apply split_on_none|].
  change (join (x :: y :: l) ",") with (x +:+ String "," (join (y :: l) ",")).
  rewrite split_on_app by done. by rewrite IH.
Qed.

Lemma join_nonempty hop after : hop ≠ ""%string → join (hop :: after) "," ≠ ""%string.
Proof. destruct hop; [done|]. by destruct after. Qed.

(** The header as the hops of whatever came before, then the last ones. *)
Definition forwarded_by (before : option string) (hops : list string) : string :=
  from_option (λ h, h +:+ ",") ""%string before +:+ join hops ",".

Lemma split_forwarded before hop after : hop ≠ ""%string → Forall (lacks ",") (hop :: after) →
  ∃ l, splitForwarded (forwarded_by before (hop :: after)) = l ++ (trim_space <$> (hop :: after)).
Proof.
  intros Hne Hf. unfold splitForwarded, forwarded_by. pose proof (join_nonempty hop after Hne) as Hj.
  destruct before as [h|]; simpl from_option.
  - destruct (String.eqb_spec ((h +:+ ",") +:+ join (hop :: after) ",") "") as [E|_].
    { exfalso. destruct h; discriminate E. }
    exists (trim_space <$> split_on "," h). rewrite <-fmap_app. f_equal.
    rewrite string_app_assoc. change ("," +:+ join (hop :: after) ",") with (String "," (join (hop :: after) ",")).
    by rewrite split_on_app_any, split_on_join.
  - change ("" +:+ join (hop :: after) ",") with (join (hop :: after) ",").
    destruct (String.eqb_spec (join (hop :: after) ",") "") as [E|_]; [done|].
    exists []. by rewrite split_on_join.
Qed.

(** A hop that proves nothing, or is one of the operator's own. *)
Definition passed_over (t : TrustedProxies) (hop : string) : Prop :=
  ParseIP hop = None ∨ trusts t (ParseIP hop) = true.

Lemma first_untrusted_skips t l rest : Forall (passed_over t) l →
  first_untrusted t (l ++ rest) = first_untrusted t rest.
Proof.
  induction 1 as [|hop l Hh Hl IH]; [done|]. cbn [app first_untrusted]. destruct Hh as [->|Hh]; [done|].
  destruct (ParseIP hop) as [ip|]; [|done]. by rewrite Hh.
Qed.

(** A client cannot choose the address that it is counted under.  A peer that the operator did not
    name is counted under its own address, whatever its headers say; and behind a trusted proxy, the
    address is the last hop of X-Forwarded-For that is not itself trusted, whatever the client put
    before it: malformed and trusted hops after it are passed over, and nothing to its left is read. *)
Theorem client_ip_not_chosen t r :
  (trusts t (ParseIP (peerHost r)) = false → ClientIP t r = peerHost r) ∧
  ∀ before hop after ip, trusts t (ParseIP (peerHost r)) = true →
    head (rq_ForwardedFor r) = Some (forwarded_by before (hop :: after)) →
    Forall (lacks ",") (hop :: after) → Forall (λ h, passed_over t (trim_space h)) after →
    ParseIP (trim_space hop) = Some ip → trusts t (Some ip) = false →
    ClientIP t r = IP_String ip.
Proof.
  unfold ClientIP. split; [intros ->; by destruct (Configured_proxies t)|].
  intros before hop after ip Hpeer Hhead Hlacks Hafter Hip Hun. rewrite Hpeer.
  replace (Configured_proxies t) with true
    by (destruct t; [by destruct (ParseIP (peerHost r))|done]). cbn [negb].
  assert (hop ≠ ""%string) as Hne by (by intros ->). unfold header_Get. rewrite Hhead. cbn [from_option id].
  destruct (split_forwarded before hop after Hne Hlacks) as [l ->].
  rewrite fmap_cons, reverse_app, reverse_cons, <-app_assoc.
  rewrite first_untrusted_skips; [cbn [app first_untrusted]; by rewrite Hip, Hun|].
  apply Forall_reverse, Forall_fmap. exact Hafter.
Qed.

Definition proxied (xff : list string) : HTTPRequest :=
  mkRequest "POST" ["api"; "auth"; "login"] false "quince.lan" "10.0.0.5:40312" true xff [] [] "" "" "" None.
Definition home_proxies : TrustedProxies := (NewTrustedProxies ["10.0.0.5"; " 172.16.0.0/12 "; ""]).1.

Lemma client_ip_not_chosen_witness :
  ClientIP home_proxies (proxied ["6.6.6.6, 1.2.3.4,203.0.113.7, 172.16.3.3"]) = "203.0.113.7"%string.
Proof.
  refine (proj2 (client_ip_not_chosen home_proxies (proxied ["6.6.6.6, 1.2.3.4,203.0.113.7, 172.16.3.3"]))
    (Some "6.6.6.6, 1.2.3.4"%string) "203.0.113.7"%string [" 172.16.3.3"%string]
    (v4_prefix ++ [203; 0; 113; 7]) _ _ _ _ _ _).
  - vm_compute. reflexivity.
  - vm_compute. reflexivity.
  - repeat constructor; intros H; repeat (destruct H as [H|H]; [discriminate H|]); destruct H.
  - constructor; [right; vm_compute; reflexivity|constructor].
  - vm_compute. reflexivity.
  - vm_compute. reflexivity.
Defined.

(** [Header.Get] is the first line only: behind a proxy that adds a line of its own, the client's
    line is the one that is read. *)
Example second_line_ignored :
  ClientIP home_proxies (proxied ["6.6.6.6"; "203.0.113.7"]) = "6.6.6.6"%string.
Proof. vm_compute. reflexivity. Qed.

(** When the browser drops the cookie: plain http to a host that is not the loopback, outside demo
    mode and without the opt-in. *)
Lemma cookie_discarded_iff tr r : CookieWillBeDiscarded tr r = true ↔
  tr_insecureCookies tr = false ∧ tr_allowInsecure tr = false ∧
  SecureOrigin r (tr_proxies tr) = false ∧ isLoopbackHost (rq_Host r) = false.
Proof.
  unfold CookieWillBeDiscarded, Secure, secureCookie.
  destruct (tr_insecureCookies tr), (SecureOrigin r (tr_proxies tr)), (tr_allowInsecure tr),
    (isLoopbackHost (rq_Host r)); simpl; naive_solver.
Qed.
