(* ===== verification/Routes.v ===== *)
(** * Routes: the routes of the API and what each is for

    Models the tables of core/internal/httpapi: the registrations of [NewRouter] (server.go), their
    scope classes and assertions (scope_routes.go), the exact-path lists of middleware.go and the
    device resolvers of scope_resource.go, with the matching of net/http's [ServeMux] that they
    rely on. *)

From Stdlib Require Import String Ascii.
From S2P Require Import Prelude Argon2 Net Proxy.

(** ** Patterns, as [ServeMux] reads them *)

Inductive pseg : Type := Lit (s : string) | Wild (name : string).

Record route_pattern : Type := mkPattern {
  pt_Method : option string; pt_segs : list pseg; pt_multi : bool }.

Definition parse_seg (s : string) : pseg :=
  if has_prefix s "{" then Wild (str_take (String.length s - 2) (str_drop 1 s)) else Lit s.

(** The segments after the leading slash; a pattern that ends in a slash matches everything below. *)
Definition parse_path (m : option string) (path : string) : route_pattern :=
  let segs := tail (split_on "/" path) in
  if bool_decide (last segs = Some ""%string) then mkPattern m (parse_seg <$> take (length segs - 1) segs) true
  else mkPattern m (parse_seg <$> segs) false.

Definition parse_pattern (s : string) : route_pattern :=
  match split_on " " s with
  | [m; path] => parse_path (Some m) path
  | _ => parse_path None s
  end.

(** A pattern for GET also takes HEAD. *)
Definition method_matches (p : option string) (m : string) : bool :=
  match p with
  | None => true
  | Some want => String.eqb want m || (String.eqb want "GET" && String.eqb m "HEAD")
  end.

(** The values of the wildcards, when the segments match. *)
Fixpoint match_segs (p : list pseg) (segs : list string) : option (list (string * string)) :=
  match p, segs with
  | [], [] => Some []
  | Lit s :: p, x :: segs => if String.eqb s x then match_segs p segs else None
  | Wild n :: p, x :: segs => b ← match_segs p segs; Some ((n, x) :: b)
  | _, _ => None
  end.

Fixpoint match_prefix (p : list pseg) (segs : list string) (slash : bool) : option (list (string * string)) :=
  match p, segs with
  | [], [] => if slash then Some [] else None
  | [], _ :: _ => Some []
  | Lit s :: p, x :: segs => if String.eqb s x then match_prefix p segs slash else None
  | Wild n :: p, x :: segs => b ← match_prefix p segs slash; Some ((n, x) :: b)
  | _, [] => None
  end.

Definition pattern_matches (r : HTTPRequest) (p : route_pattern) : option (list (string * string)) :=
  if negb (method_matches (pt_Method p) (rq_Method r)) then None
  else if pt_multi p then match_prefix (pt_segs p) (rq_segments r) (rq_slash r)
  else if rq_slash r then None else match_segs (pt_segs p) (rq_segments r).

(** The matches among the patterns, those of a whole path before those of a subtree: a pattern of
    a whole path is the more specific one. *)
Definition matches_of (multi : bool) (r : HTTPRequest) (patterns : list string) :
    list (string * list (string * string)) :=
  omap (λ s, let p := parse_pattern s in
    if bool_decide (pt_multi p = multi) then b ← pattern_matches r p; Some (s, b) else None) patterns.

Definition mux_find (patterns : list string) (r : HTTPRequest) : option (string * list (string * string)) :=
  head (matches_of false r patterns ++ matches_of true r patterns).

(** [r.PathValue]. *)
Definition PathValue (b : list (string * string)) (name : string) : string :=
  from_option snd ""%string (head (filter (λ nv, nv.1 = name) b)).

(** The registrations of [NewRouter], in its order, by what is wired. *)
Definition routes_passkeys (enrolments : bool) : list string := [
  "POST /api/auth/setup/passkey/begin"; "POST /api/auth/setup/passkey/finish";
  "POST /api/auth/passkeys/register/begin"; "POST /api/auth/passkeys/register/finish";
  "POST /api/auth/passkeys/login/begin"; "POST /api/auth/passkeys/login/finish"] ++
  (if enrolments then [
    "POST /api/enrol/passkey/begin"; "POST /api/enrol/passkey/finish"] else []) ++ [
  "POST /api/auth/reauth/begin"; "POST /api/auth/reauth/finish"; "GET /api/auth/passkeys";
  "DELETE /api/auth/passkeys/{id}"; "PATCH /api/auth/passkeys/{id}"].

Definition routes (passkeys enrolments notifications : bool) : list string := [
  "GET /api/health"; "GET /api/auth/status"; "GET /api/onboarding/https"; "GET /api/onboarding/probe/nonce";
  "GET /api/onboarding/probe"; "POST /api/onboarding/certificate"; "POST /api/onboarding/certificate/apply";
  "POST /api/onboarding/certificate/confirm"; "POST /api/onboarding/certificate/cancel";
  "POST /api/auth/setup"; "POST /api/auth/login"; "POST /api/auth/logout"; "PUT /api/auth/password";
  "DELETE /api/auth/password"] ++
  (if passkeys then routes_passkeys enrolments else []) ++
  (if notifications then [
    "GET /api/notifications"; "POST /api/notifications/subscriptions";
    "DELETE /api/notifications/subscriptions/{id}"; "POST /api/notifications/test"] else []) ++ [
  "GET /api/config"; "PUT /api/config"; "POST /api/config/storage"; "POST /api/config/insecure-transport";
  "DELETE /api/config/storage/{name}"; "POST /api/config/storage/{name}/default"; "GET /api/devices";
  "POST /api/devices/rescan"; "GET /api/devices/{udid}"; "POST /api/devices/{udid}/pair";
  "POST /api/devices/{udid}/pair/validate"; "POST /api/devices/{udid}/encryption";
  "POST /api/devices/{udid}/wifi-sync"; "PUT /api/devices/{udid}/notifications"] ++
  (if enrolments then [
    "POST /api/devices/{udid}/enrolments"; "GET /api/devices/{udid}/enrolments";
    "DELETE /api/devices/{udid}/enrolments/{id}"] else []) ++ [
  "POST /api/devices/{udid}/reset-working"; "GET /api/ops/{op_id}"; "POST /api/jobs"; "GET /api/jobs";
  "GET /api/jobs/{id}"; "POST /api/jobs/{id}/cancel"; "GET /api/jobs/{id}/log"; "GET /api/storages";
  "POST /api/storages/{name}/recheck"; "POST /api/storages/probe"; "POST /api/storages/probe/hook";
  "POST /api/storages/zfs/key"; "GET /api/storages/zfs/helper"; "POST /api/storages/zfs/hostkey";
  "POST /api/storages/zfs/hostkey/trust"; "GET /api/versions"; "DELETE /api/versions/{id}";
  "POST /api/versions/{id}/unlock"; "GET /api/versions/{id}/overview"; "POST /api/sessions/{id}/lock";
  "GET /api/sessions/{id}/browse"; "GET /api/sessions/{id}/overview";
  "GET /api/sessions/{id}/messages/chats"; "GET /api/sessions/{id}/messages/chats/{chat}/messages";
  "GET /api/sessions/{id}/messages/search"; "GET /api/sessions/{id}/file/{file_id}";
  "GET /api/sessions/{id}/file"; "/api/"].

(** ** The exact-path lists *)

Definition exempt_requests : list string := [
  "GET /api/health"; "GET /api/auth/status"; "POST /api/auth/login"; "POST /api/auth/setup";
  "GET /api/onboarding/https"; "GET /api/onboarding/probe/nonce"; "GET /api/onboarding/probe";
  "POST /api/onboarding/certificate"; "POST /api/onboarding/certificate/apply";
  "POST /api/onboarding/certificate/confirm"; "POST /api/onboarding/certificate/cancel";
  "POST /api/auth/passkeys/login/begin"; "POST /api/auth/passkeys/login/finish";
  "POST /api/auth/setup/passkey/begin"; "POST /api/auth/setup/passkey/finish";
  "POST /api/enrol/passkey/begin"; "POST /api/enrol/passkey/finish"; "POST /api/config/insecure-transport"].

Definition authExempt (r : HTTPRequest) : bool :=
  bool_decide (rq_Method r +:+ " " +:+ url_Path r ∈ exempt_requests).

Definition csrf_exempt_paths : list string := [
  "/api/auth/login"; "/api/auth/setup"; "/api/auth/passkeys/login/begin"; "/api/auth/passkeys/login/finish";
  "/api/auth/setup/passkey/begin"; "/api/auth/setup/passkey/finish"; "/api/enrol/passkey/begin";
  "/api/enrol/passkey/finish"; "/api/config/insecure-transport"; "/api/onboarding/certificate/confirm";
  "/api/onboarding/certificate/cancel"].

Definition csrfExempt (r : HTTPRequest) : bool := bool_decide (url_Path r ∈ csrf_exempt_paths).

Definition setup_requests : list string := [
  "GET /api/health"; "GET /api/auth/status"; "POST /api/auth/login"; "POST /api/auth/setup";
  "POST /api/auth/logout"; "GET /api/onboarding/https"; "GET /api/onboarding/probe/nonce";
  "GET /api/onboarding/probe"; "POST /api/onboarding/certificate"; "POST /api/onboarding/certificate/apply";
  "POST /api/onboarding/certificate/confirm"; "POST /api/onboarding/certificate/cancel"; "GET /api/config";
  "PUT /api/config"; "POST /api/config/storage"; "POST /api/config/insecure-transport";
  "POST /api/storages/probe"; "POST /api/storages/probe/hook"; "POST /api/storages/zfs/key";
  "GET /api/storages/zfs/helper"; "POST /api/storages/zfs/hostkey"; "POST /api/storages/zfs/hostkey/trust";
  "POST /api/auth/passkeys/login/begin"; "POST /api/auth/passkeys/login/finish";
  "POST /api/auth/setup/passkey/begin"; "POST /api/auth/setup/passkey/finish"].

Definition setupAllowed (r : HTTPRequest) : bool :=
  bool_decide (rq_Method r +:+ " " +:+ url_Path r ∈ setup_requests).

Definition isSafeMethod (m : string) : bool :=
  String.eqb m "GET" || String.eqb m "HEAD" || String.eqb m "OPTIONS".

(** ** The scope of a route *)

Inductive scopeClass : Type :=
  | scopeUnset | adminOnly | scopedOwnDevice | scopedFiltered | scopedProjection | openToAll.

#[global] Instance scopeClass_eq_dec : EqDecision scopeClass.
Proof. solve_decision. Defined.

Definition routeScope : list (string * scopeClass) := [
  ("GET /api/config", adminOnly); ("PUT /api/config", adminOnly); ("POST /api/config/storage", adminOnly);
  ("DELETE /api/config/storage/{name}", adminOnly); ("POST /api/config/storage/{name}/default", adminOnly);
  ("POST /api/config/insecure-transport", adminOnly); ("GET /api/storages", scopedProjection);
  ("POST /api/storages/probe", adminOnly); ("POST /api/storages/probe/hook", adminOnly);
  ("POST /api/storages/zfs/hostkey", adminOnly); ("POST /api/storages/zfs/hostkey/trust", adminOnly);
  ("POST /api/storages/zfs/key", adminOnly); ("GET /api/storages/zfs/helper", adminOnly);
  ("POST /api/storages/{name}/recheck", adminOnly); ("GET /api/onboarding/https", adminOnly);
  ("GET /api/onboarding/probe", adminOnly); ("GET /api/onboarding/probe/nonce", adminOnly);
  ("POST /api/onboarding/certificate", adminOnly); ("POST /api/onboarding/certificate/apply", adminOnly);
  ("POST /api/onboarding/certificate/confirm", adminOnly);
  ("POST /api/onboarding/certificate/cancel", adminOnly); ("GET /api/auth/passkeys", adminOnly);
  ("DELETE /api/auth/passkeys/{id}", adminOnly); ("PATCH /api/auth/passkeys/{id}", adminOnly);
  ("POST /api/auth/passkeys/register/begin", adminOnly);
  ("POST /api/auth/passkeys/register/finish", adminOnly); ("PUT /api/auth/password", adminOnly);
  ("DELETE /api/auth/password", adminOnly); ("POST /api/auth/reauth/begin", adminOnly);
  ("POST /api/auth/reauth/finish", adminOnly); ("GET /api/devices", adminOnly);
  ("POST /api/devices/rescan", adminOnly); ("GET /api/devices/{udid}", scopedOwnDevice);
  ("POST /api/devices/{udid}/encryption", scopedOwnDevice);
  ("POST /api/devices/{udid}/pair", scopedOwnDevice);
  ("POST /api/devices/{udid}/pair/validate", scopedOwnDevice);
  ("POST /api/devices/{udid}/reset-working", scopedOwnDevice);
  ("POST /api/devices/{udid}/wifi-sync", scopedOwnDevice);
  ("PUT /api/devices/{udid}/notifications", scopedOwnDevice);
  ("POST /api/devices/{udid}/enrolments", adminOnly); ("GET /api/devices/{udid}/enrolments", adminOnly);
  ("DELETE /api/devices/{udid}/enrolments/{id}", adminOnly); ("GET /api/jobs/{id}", scopedOwnDevice);
  ("GET /api/jobs/{id}/log", scopedOwnDevice); ("POST /api/jobs/{id}/cancel", scopedOwnDevice);
  ("GET /api/ops/{op_id}", scopedOwnDevice); ("DELETE /api/versions/{id}", adminOnly);
  ("POST /api/jobs", scopedOwnDevice); ("GET /api/jobs", scopedFiltered);
  ("GET /api/versions", scopedFiltered); ("GET /api/health", openToAll); ("GET /api/auth/status", openToAll);
  ("POST /api/auth/login", openToAll); ("POST /api/auth/setup", openToAll);
  ("POST /api/auth/logout", openToAll); ("POST /api/auth/passkeys/login/begin", openToAll);
  ("POST /api/auth/passkeys/login/finish", openToAll); ("POST /api/auth/setup/passkey/begin", openToAll);
  ("POST /api/auth/setup/passkey/finish", openToAll); ("POST /api/enrol/passkey/begin", openToAll);
  ("POST /api/enrol/passkey/finish", openToAll); ("GET /api/notifications", openToAll);
  ("POST /api/notifications/subscriptions", openToAll);
  ("DELETE /api/notifications/subscriptions/{id}", openToAll); ("POST /api/notifications/test", openToAll);
  ("POST /api/versions/{id}/unlock", scopedOwnDevice); ("POST /api/sessions/{id}/lock", scopedOwnDevice);
  ("GET /api/sessions/{id}/browse", scopedOwnDevice);
  ("GET /api/sessions/{id}/file/{file_id}", scopedOwnDevice);
  ("GET /api/sessions/{id}/file", scopedOwnDevice); ("GET /api/sessions/{id}/overview", scopedOwnDevice);
  ("GET /api/sessions/{id}/messages/chats", scopedOwnDevice);
  ("GET /api/sessions/{id}/messages/chats/{chat}/messages", scopedOwnDevice);
  ("GET /api/sessions/{id}/messages/search", scopedOwnDevice);
  ("GET /api/versions/{id}/overview", scopedOwnDevice); ("/api/", openToAll)]%string.

Definition scopeOfPattern (pattern : string) : option scopeClass :=
  match filter (λ pc, pc.1 = pattern) routeScope with
  | (_, c) :: _ => if bool_decide (c = scopeUnset) then None else Some c
  | [] => None
  end.

Definition refusesScoped (c : scopeClass) : bool := bool_decide (c = adminOnly).

(** How a route finds its device. *)
Inductive deviceResolver : Type := fromPath | fromJob | fromOp | fromBody | fromVersion | fromSession.

Definition resourceDevice : list (string * deviceResolver) := [
  ("GET /api/devices/{udid}", fromPath); ("POST /api/devices/{udid}/encryption", fromPath);
  ("POST /api/devices/{udid}/pair", fromPath); ("POST /api/devices/{udid}/pair/validate", fromPath);
  ("POST /api/devices/{udid}/reset-working", fromPath); ("POST /api/devices/{udid}/wifi-sync", fromPath);
  ("PUT /api/devices/{udid}/notifications", fromPath); ("GET /api/jobs/{id}", fromJob);
  ("GET /api/jobs/{id}/log", fromJob); ("POST /api/jobs/{id}/cancel", fromJob);
  ("GET /api/ops/{op_id}", fromOp); ("POST /api/jobs", fromBody);
  ("POST /api/versions/{id}/unlock", fromVersion); ("POST /api/sessions/{id}/lock", fromSession);
  ("GET /api/sessions/{id}/browse", fromSession); ("GET /api/sessions/{id}/file/{file_id}", fromSession);
  ("GET /api/sessions/{id}/file", fromSession); ("GET /api/sessions/{id}/overview", fromSession);
  ("GET /api/sessions/{id}/messages/chats", fromSession);
  ("GET /api/sessions/{id}/messages/chats/{chat}/messages", fromSession);
  ("GET /api/sessions/{id}/messages/search", fromSession); ("GET /api/versions/{id}/overview", fromVersion)]%string.

Definition resolver_of (pattern : string) : option deviceResolver :=
  snd <$> head (filter (λ pr, pr.1 = pattern) resourceDevice).

Definition unresolvableToday : list string := [].

(** ** What [NewRouter] asserts: the patterns that would panic *)

Definition unclassified (patterns : list string) : list string :=
  filter (λ p, scopeOfPattern p = None) patterns.

Definition enforcesItsOwnPrincipal : list string := [
  "POST /api/config/insecure-transport"; "POST /api/onboarding/certificate/apply";
  "POST /api/onboarding/certificate/confirm"; "POST /api/onboarding/certificate/cancel";
  "GET /api/onboarding/https"; "GET /api/onboarding/probe"; "GET /api/onboarding/probe/nonce";
  "POST /api/onboarding/certificate"].

(** The request of a pattern without wildcards. *)
Definition cut_pattern (p : string) : option (string * string) :=
  match split_on " " p with [m; path] => Some (m, path) | _ => None end.

Definition unenforced (patterns : list string) : list string :=
  filter (λ p, bool_decide (is_Some (cut_pattern p)) && bool_decide (p ∈ exempt_requests) &&
    negb (bool_decide (scopeOfPattern p = Some openToAll)) &&
    negb (bool_decide (scopeOfPattern p = None)) &&
    negb (bool_decide (p ∈ enforcesItsOwnPrincipal)) = true) patterns.

Definition unresolved (patterns : list string) : list string :=
  filter (λ p, bool_decide (scopeOfPattern p = Some scopedOwnDevice) &&
    negb (bool_decide (is_Some (resolver_of p))) && negb (bool_decide (p ∈ unresolvableToday)) = true) patterns.

(** The server is built, whatever is wired. *)
Lemma router_built passkeys enrolments notifications :
  let ps := routes passkeys enrolments notifications in
  unclassified ps = [] ∧ unenforced ps = [] ∧ unresolved ps = [].
Proof. destruct passkeys, enrolments, notifications; vm_compute; repeat split. Qed.

(** ** No request has two routes *)

(** Whether some segments match both. *)
Fixpoint segs_overlap (p q : list pseg) : bool :=
  match p, q with
  | [], [] => true
  | Lit a :: p, Lit b :: q => String.eqb a b && segs_overlap p q
  | _ :: p, _ :: q => segs_overlap p q
  | _, _ => false
  end.

Definition methods_overlap (p q : option string) : bool :=
  match p, q with
  | Some a, Some b => method_matches p b || method_matches q a
  | _, _ => true
  end.

Definition overlap (s t : string) : bool :=
  let p := parse_pattern s in let q := parse_pattern t in
  negb (pt_multi p) && negb (pt_multi q) &&
  methods_overlap (pt_Method p) (pt_Method q) && segs_overlap (pt_segs p) (pt_segs q).

Lemma segs_overlap_sound p q segs b b' :
  match_segs p segs = Some b → match_segs q segs = Some b' → segs_overlap p q = true.
Proof.
  revert q segs b b'. induction p as [|x p IH]; intros [|y q] [|s segs] b b' Hp Hq; try done;
    try (by destruct x); try (by destruct y).
  destruct x as [a|n], y as [a'|n']; simpl in *.
  - destruct (String.eqb_spec a s) as [->|]; [|done]. destruct (String.eqb_spec a' s) as [->|]; [|done].
    rewrite String.eqb_refl. by eapply IH.
  - destruct (String.eqb a s); [|done]. destruct (match_segs q segs) eqn:E; [|done]. by eapply IH.
  - destruct (String.eqb a' s); [|done]. destruct (match_segs p segs) eqn:E; [|done]. by eapply IH.
  - destruct (match_segs p segs) eqn:E; [|done]. destruct (match_segs q segs) eqn:E'; [|done]. by eapply IH.
Qed.

Lemma methods_overlap_sound p q m : method_matches p m = true → method_matches q m = true →
  methods_overlap p q = true.
Proof.
  destruct p as [a|], q as [b|]; try done. unfold methods_overlap, method_matches.
  rewrite !orb_true_iff, !andb_true_iff. intros Ha Hb.
  repeat match goal with
  | H : _ ∨ _ |- _ => destruct H
  | H : _ ∧ _ |- _ => destruct H
  | H : String.eqb _ _ = true |- _ => apply String.eqb_eq in H
  end; subst; rewrite ?String.eqb_refl; auto.
Qed.

(** A route of a whole path that a request has. *)
Definition whole_match (r : HTTPRequest) (s : string) (b : list (string * string)) : Prop :=
  let p := parse_pattern s in
  pt_multi p = false ∧ rq_slash r = false ∧ method_matches (pt_Method p) (rq_Method r) = true ∧
  match_segs (pt_segs p) (rq_segments r) = Some b.

Lemma elem_matches_of multi r patterns s b : (s, b) ∈ matches_of multi r patterns ↔
  s ∈ patterns ∧ pt_multi (parse_pattern s) = multi ∧ pattern_matches r (parse_pattern s) = Some b.
Proof.
  unfold matches_of. rewrite list_elem_of_omap. split.
  - intros (t & Ht & H). case_bool_decide as Hm; [|done].
    destruct (pattern_matches r (parse_pattern t)) eqn:E; [|done]. by simplify_eq/=.
  - intros (Hs & Hm & Hp). exists s. split; [done|]. rewrite bool_decide_eq_true_2 by done. by rewrite Hp.
Qed.

Lemma whole_matches r s b : pt_multi (parse_pattern s) = false → pattern_matches r (parse_pattern s) = Some b →
  whole_match r s b.
Proof.
  unfold pattern_matches, whole_match. intros Hm. rewrite Hm.
  destruct (method_matches _ _) eqn:E; [|done]. by destruct (rq_slash r).
Qed.

Lemma whole_match_overlap r s t b b' : whole_match r s b → whole_match r t b' → overlap s t = true.
Proof.
  intros (Hs & _ & Hms & Hb) (Ht & _ & Hmt & Hb'). unfold overlap. rewrite Hs, Ht. simpl.
  by rewrite (methods_overlap_sound _ _ _ Hms Hmt), (segs_overlap_sound _ _ _ _ _ Hb Hb').
Qed.

(** Every pattern overlaps only itself. *)
Definition disjoint_patterns (patterns : list string) : Prop :=
  Forall (λ s, Forall (λ t, overlap s t = true → s = t) patterns) patterns.
#[global] Instance disjoint_patterns_dec ps : Decision (disjoint_patterns ps).
Proof. unfold disjoint_patterns. apply _. Defined.

(** Whatever is wired registers among these. *)
Definition all_routes : list string := routes true true true.

Lemma routes_all passkeys enrolments notifications s :
  s ∈ routes passkeys enrolments notifications → s ∈ all_routes.
Proof.
  assert (Forall (λ s, s ∈ all_routes) (routes passkeys enrolments notifications)) as Hall.
  { destruct passkeys, enrolments, notifications; apply (bool_decide_unpack _); vm_compute; exact I. }
  rewrite Forall_forall in Hall. apply Hall.
Qed.

Lemma routes_disjoint : disjoint_patterns all_routes.
Proof. apply (bool_decide_unpack _). vm_compute. exact I. Qed.

Lemma subtree_is_api passkeys enrolments notifications s :
  s ∈ routes passkeys enrolments notifications → pt_multi (parse_pattern s) = true → s = "/api/"%string.
Proof.
  assert (Forall (λ s, pt_multi (parse_pattern s) = true → s = "/api/"%string) all_routes) as H.
  { apply (bool_decide_unpack _). vm_compute. exact I. }
  rewrite Forall_forall in H. intros Hs%routes_all. by apply H.
Qed.

(** The route of a request: the whole path's, whatever the order of the registrations, or the
    catch-all. *)
Lemma mux_find_cases passkeys enrolments notifications r s b :
  let ps := routes passkeys enrolments notifications in
  mux_find ps r = Some (s, b) →
  s ∈ ps ∧ (s = "/api/"%string ∨
    (whole_match r s b ∧ ∀ t b', t ∈ ps → whole_match r t b' → t = s)).
Proof.
  intros ps Hf. unfold mux_find in Hf.
  assert ((s, b) ∈ matches_of false r ps ++ matches_of true r ps) as Hin by (by destruct (matches_of false r ps ++ matches_of true r ps); [|simplify_eq/=; left]).
  apply elem_of_app in Hin as [Hin|Hin]; apply elem_matches_of in Hin as (Hs & Hm & Hp); (split; [exact Hs|]).
  - right. pose proof (whole_matches r s b Hm Hp) as Hw. split; [exact Hw|]. intros t b' Ht Hw'.
    pose proof routes_disjoint as Hd. unfold disjoint_patterns in Hd.
    rewrite Forall_forall in Hd. specialize (Hd t (routes_all _ _ _ _ Ht)). rewrite Forall_forall in Hd.
    apply Hd; [by eapply routes_all|]. by eapply whole_match_overlap.
  - left. by eapply subtree_is_api.
Qed.

(** ** What an exact path can be routed to

    The lists compare the whole unescaped path; the patterns compare segments, each unescaped by
    itself, so a segment may hold a slash.  [spells p s]: segments that match [p] can spell [s]. *)

(** What follows each slash. *)
Fixpoint after_slashes (s : string) : list string :=
  match s with
  | EmptyString => []
  | String c s' => if bool_decide (c = "/"%char) then s' :: after_slashes s' else after_slashes s'
  end.

Fixpoint strip_prefix (p s : string) : option string :=
  match p, s with
  | EmptyString, _ => Some s
  | String a p', String b s' => if bool_decide (a = b) then strip_prefix p' s' else None
  | _, _ => None
  end.

Fixpoint spells (p : list pseg) (s : string) : bool :=
  match p with
  | [] => String.eqb s ""
  | [Lit l] => String.eqb l s
  | [Wild _] => true
  | Lit l :: p => match strip_prefix (l +:+ "/") s with Some rest => spells p rest | None => false end
  | Wild _ :: p => existsb (spells p) (after_slashes s)
  end.

Lemma strip_prefix_app p s : strip_prefix p (p +:+ s) = Some s.
Proof. induction p as [|c p IH]; [done|]. simpl. by rewrite bool_decide_eq_true_2. Qed.

Lemma after_slashes_app x s : s ∈ after_slashes (x +:+ String "/" s).
Proof.
  induction x as [|c x IH]; simpl; [left|]. case_bool_decide; [right|]; exact IH.
Qed.

Lemma spells_sound p segs b : match_segs p segs = Some b → spells p (join segs "/") = true.
Proof.
  revert segs b. induction p as [|x p IH]; intros [|s segs] b H; [done|done|by destruct x|].
  assert (∀ y, join (s :: y :: tail segs) "/" = s +:+ String "/" (join (y :: tail segs) "/")) as Hj by done.
  destruct p as [|x2 p].
  - destruct x as [l|n]; [|done]. simpl in H. destruct (String.eqb_spec l s) as [->|]; [|done].
    destruct segs; [|done]. simpl. apply String.eqb_refl.
  - assert (∃ y ys, segs = y :: ys) as (y & ys & ->).
    { destruct segs as [|y ys]; [|by eexists _, _]. destruct x as [l|n]; simpl in H.
      - destruct (String.eqb l s); [|done]. by destruct x2.
      - by destruct x2. }
    specialize (Hj y). simpl tail in Hj. rewrite Hj.
    destruct x as [l|n].
    + change ((if String.eqb l s then match_segs (x2 :: p) (y :: ys) else None) = Some b) in H.
      destruct (String.eqb_spec l s) as [->|]; [|done]. cbn [spells]. pose proof (strip_prefix_app (s +:+ "/") (join (y :: ys) "/")) as Hpre.
      rewrite string_app_assoc in Hpre. change ("/" +:+ ?t) with (String "/" t) in Hpre. rewrite Hpre.
      by eapply IH.
    + change (match_segs (x2 :: p) (y :: ys) ≫= (λ b, Some ((n, s) :: b)) = Some b) in H.
      destruct (match_segs (x2 :: p) (y :: ys)) as [b'|] eqn:E; [|done]. cbn [spells]. apply existsb_exists. exists (join (y :: ys) "/"). split; [|by eapply IH].
      apply list_elem_of_In, after_slashes_app.
Qed.

(** A route of a whole path whose segments may spell this path. *)
Definition may_route (path : string) (s : string) : bool :=
  let p := parse_pattern s in
  negb (pt_multi p) && match strip_prefix "/" path with Some rest => spells (pt_segs p) rest | None => false end.

Lemma whole_match_path r s b : whole_match r s b → may_route (url_Path r) s = true.
Proof.
  intros (Hm & Hsl & _ & Hb). unfold may_route, url_Path. rewrite Hm, Hsl. cbn [negb andb].
  rewrite strip_prefix_app, string_app_nil_r. by eapply spells_sound.
Qed.

(** The ways to read a text as a method, a blank and a path. *)
Fixpoint cuts (e : string) : list (string * string) :=
  match e with
  | EmptyString => []
  | String c e' =>
      (if bool_decide (c = " "%char) then [(EmptyString, e')] else []) ++ ((λ mp, (String c mp.1, mp.2)) <$> cuts e')
  end.

Lemma cuts_app m path : (m, path) ∈ cuts (m +:+ " " +:+ path).
Proof.
  induction m as [|c m IH]; simpl; [left|]. apply elem_of_app. right. apply list_elem_of_fmap.
  by exists (m, path).
Qed.

(** The route that a listed request is for, if the router has any. *)
Definition routed_as_listed (patterns : list string) : Prop :=
  Forall (λ e, Forall (λ mp, Forall (λ s,
    method_matches (pt_Method (parse_pattern s)) mp.1 && may_route mp.2 s = true → s = e) patterns) (cuts e))
    exempt_requests.
#[global] Instance routed_as_listed_dec ps : Decision (routed_as_listed ps).
Proof. unfold routed_as_listed. apply _. Defined.

Lemma routes_as_listed : routed_as_listed all_routes.
Proof. apply (bool_decide_unpack _). vm_compute. exact I. Qed.

(** A request that needs no session is routed to the route it is listed for, or to none. *)
Lemma exempt_routed passkeys enrolments notifications r s b :
  mux_find (routes passkeys enrolments notifications) r = Some (s, b) → authExempt r = true →
  s = "/api/"%string ∨ s = rq_Method r +:+ " " +:+ url_Path r.
Proof.
  intros [Hs Hf]%mux_find_cases He%bool_decide_eq_true_1. destruct Hf as [->|[Hw _]]; [by left|right].
  pose proof (whole_match_path _ _ _ Hw) as Hp. destruct Hw as (_ & _ & Hm & _).
  pose proof routes_as_listed as Hr. unfold routed_as_listed in Hr.
  rewrite Forall_forall in Hr. specialize (Hr _ He). rewrite Forall_forall in Hr.
  specialize (Hr _ (cuts_app _ _)). rewrite Forall_forall in Hr. apply Hr; [by eapply routes_all|].
  cbn [fst snd]. by rewrite Hm, Hp.
Qed.

(** What a path that needs no double submit can be routed to: the route it is listed for, or a route
    of one passkey, by an id with a slash in it. *)
Definition passkey_routes : list string := ["DELETE /api/auth/passkeys/{id}"; "PATCH /api/auth/passkeys/{id}"].

Definition routed_as_posted (patterns : list string) : Prop :=
  Forall (λ path, Forall (λ s, may_route path s = true → s = "POST " +:+ path ∨ s ∈ passkey_routes) patterns)
    csrf_exempt_paths.
#[global] Instance routed_as_posted_dec ps : Decision (routed_as_posted ps).
Proof. unfold routed_as_posted. apply _. Defined.

Lemma routes_as_posted : routed_as_posted all_routes.
Proof. apply (bool_decide_unpack _). vm_compute. exact I. Qed.

Lemma csrf_exempt_routed passkeys enrolments notifications r s b :
  mux_find (routes passkeys enrolments notifications) r = Some (s, b) → csrfExempt r = true →
  s = "/api/"%string ∨ s = "POST " +:+ url_Path r ∨ (s ∈ passkey_routes ∧ whole_match r s b).
Proof.
  intros [Hs Hf]%mux_find_cases He%bool_decide_eq_true_1. destruct Hf as [->|[Hw _]]; [by left|right].
  pose proof (whole_match_path _ _ _ Hw) as Hp.
  pose proof routes_as_posted as Hr. unfold routed_as_posted in Hr.
  rewrite Forall_forall in Hr. specialize (Hr _ He). rewrite Forall_forall in Hr.
  destruct (Hr s (routes_all _ _ _ _ Hs) Hp); [by left|by right].
Qed.

Lemma match_lit l p segs b : match_segs (Lit l :: p) segs = Some b →
  ∃ segs', segs = l :: segs' ∧ match_segs p segs' = Some b.
Proof.
  destruct segs as [|x segs]; [done|]. cbn [match_segs]. destruct (String.eqb_spec l x) as [->|]; [|done]. eauto.
Qed.
Lemma match_last_wild n segs b : match_segs [Wild n] segs = Some b → ∃ x, segs = [x] ∧ b = [(n, x)].
Proof. destruct segs as [|x [|y segs]]; intros H; simplify_eq/=. by exists x. Qed.

(** Such an id. *)
Lemma csrf_exempt_id r s b : csrfExempt r = true → s ∈ passkey_routes → whole_match r s b →
  PathValue b "id" ∈ ["login/begin"; "login/finish"]%string.
Proof.
  intros He%bool_decide_eq_true_1 Hs (_ & Hsl & _ & Hb). unfold url_Path in He. rewrite Hsl in He.
  assert (pt_segs (parse_pattern s) = [Lit "api"; Lit "auth"; Lit "passkeys"; Wild "id"]) as Hpt.
  { repeat (apply elem_of_cons in Hs as [->|Hs]; [vm_compute; reflexivity|]). by apply elem_of_nil in Hs. }
  rewrite Hpt in Hb. apply match_lit in Hb as (l1 & Hl & (l2 & -> & (l3 & -> & Hb)%match_lit)%match_lit).
  apply match_last_wild in Hb as (x & -> & ->). rewrite Hl in He. simpl in He.
  rewrite string_app_nil_r in He. cbv beta iota delta [String.append] in He.
  unfold PathValue. simpl. unfold csrf_exempt_paths in He.
  repeat (apply elem_of_cons in He as [He|He]; [first [discriminate He
    |injection He as He; subst x; first [by left|by right; left]]|]).
  by apply elem_of_nil in He.
Qed.
