(* ===== verification/Guards.v ===== *)
(** * Guards: from a request to its handler

    Models the chain that [NewRouter] (server.go) puts before the handlers of core/internal/httpapi:
    [authGuard], [csrfGuard] and [setupGuard] of middleware.go, the routing, [scopeGuardFor] of
    scope_routes.go and [scopedResourceGuard] of scope_resource.go, over [Routes] and the
    authentication of [AuthService]; the scope that a list or a write is narrowed to; and the gate of
    the one listed route that checks its caller itself (handlers_insecure_transport.go).  What a
    request reaches is the pattern of its handler, with the principal that the chain bound. *)

From Stdlib Require Import String Ascii.
From S2P Require Import Prelude Store Base64 Argon2 AuthErrors AuthStore Net Proxy Routes.
From S2P Require Import Limiter Proofs Enrolment WebAuthn AuthService Credentials Passkeys AuthSafety.

#[local] Open Scope quince_scope.

(** What the resolvers ask of the other components: the device of a job, of an operation and of a
    version, and the version of an unlocked session.  [None]: not there, or not known. *)
Record Readers : Type := mkReaders {
  rd_Job : string → option string;
  rd_Op : string → option string;
  rd_Version : string → option string;
  rd_SessionVersion : string → option string }.

(** An error with its code, or the handler of a pattern. *)
Inductive response : Type :=
  | Answer (status : Z) (code : string)
  | Handled (pattern : string) (values : list (string * string)) (principal : option string).

Section resolvers.
Context (rd : Readers).

(** [udid, udid != ""]. *)
Definition known (udid : option string) : option string :=
  match udid with Some EmptyString => None | _ => udid end.

Definition resolve (res : deviceResolver) (b : list (string * string)) (r : HTTPRequest) : option string :=
  known (match res with
  | fromPath => Some (PathValue b "udid")
  | fromJob => rd_Job rd (PathValue b "id")
  | fromOp => rd_Op rd (PathValue b "op_id")
  | fromBody => rq_body_udid r
  | fromVersion => rd_Version rd (PathValue b "id")
  | fromSession => v ← rd_SessionVersion rd (PathValue b "id"); rd_Version rd v
  end).
End resolvers.

Section guards.
Context `{Henv : !AuthEnv, Hwa : !WebAuthn}.
Context (rd : Readers).

(** ** The scope of a route *)

Definition scopedResourceGuard (pattern : string) (b : list (string * string)) (r : HTTPRequest)
    (who : option string) : stateM Auth response :=
  match who with
  | None => mret (Handled pattern b who)
  | Some p =>
      scope ← ScopeOf p;
      mret (match scope with
      | Refuse _ => Answer 401 "unauthorized"
      | Done EmptyString => Handled pattern b who
      | Done scope =>
          match resolver_of pattern with
          | None => Answer 403 "forbidden"
          | Some res =>
              if bool_decide (resolve rd res b r = Some scope) then Handled pattern b who
              else Answer 403 "forbidden"
          end
      end)
  end.

Definition scopeGuardFor (pattern : string) (b : list (string * string)) (r : HTTPRequest)
    (who : option string) : stateM Auth response :=
  match scopeOfPattern pattern with
  | None => mret (Answer 403 "forbidden")
  | Some class =>
      if bool_decide (class = scopedOwnDevice) then scopedResourceGuard pattern b r who
      else if negb (refusesScoped class) then mret (Handled pattern b who)
      else match who with
      | None => mret (Handled pattern b who)
      | Some p =>
          scope ← ScopeOf p;
          mret (match scope with
          | Refuse _ => Answer 401 "unauthorized"
          | Done EmptyString => Handled pattern b who
          | Done _ => Answer 403 "forbidden"
          end)
      end
  end.

(** ** The chain *)

(** [storageRequired]: no storage is declared. *)
Definition setupGuard (storageRequired : bool) (r : HTTPRequest) (next : stateM Auth response) :
    stateM Auth response :=
  if storageRequired && negb (setupAllowed r) then mret (Answer 503 "storage_required") else next.

Definition csrfGuard (r : HTTPRequest) (next : stateM Auth response) : stateM Auth response :=
  if isSafeMethod (rq_Method r) || csrfExempt r then next
  else if negb (CheckCSRF r) then mret (Answer 403 "csrf")
  else next.

(** The cookie that is set beside the answer. *)
Definition ensureCSRF (r : HTTPRequest) : stateM Auth string :=
  if String.eqb (rq_csrf r) "" then NewCSRFToken else mret (rq_csrf r).

Definition authGuard (r : HTTPRequest) (next : option string → stateM Auth response) : stateM Auth response :=
  if authExempt r then _ ← ensureCSRF r; next None
  else
    a ← Authenticate (rq_session r);
    match a with
    | Refuse _ => mret (Answer 401 "unauthorized")
    | Done sess => _ ← ensureCSRF r; next (Some (PrincipalOf sess))
    end.

Definition apiMux (patterns : list string) (r : HTTPRequest) (who : option string) : stateM Auth response :=
  match mux_find patterns r with
  | None => mret (Answer 404 "not_found")
  | Some (pattern, b) => scopeGuardFor pattern b r who
  end.

Definition apiHandler (patterns : list string) (storageRequired : bool) (r : HTTPRequest) : stateM Auth response :=
  authGuard r (λ who, csrfGuard r (setupGuard storageRequired r (apiMux patterns r who))).

(** ** What a list and a write are narrowed to *)

Definition listUDID (r : HTTPRequest) (who : option string) : auth string :=
  match who with
  | None => done (rq_udid r)
  | Some p => let! scope := ScopeOf p in
              if String.eqb scope "" then done (rq_udid r) else done scope
  end.

Definition callerScope (who : option string) : auth string :=
  match who with
  | None => refuse (ErrOther "httpapi: no principal bound to this request")
  | Some p => ScopeOf p
  end.

Definition writeScopeResolutionError (e : AuthError) : response :=
  match e with
  | ErrCredentialRevoked => Answer 401 "unauthorized"
  | _ => Answer 500 "internal_error"
  end.

(** ** The pre-auth write of the transport setting

    What [handleInsecureTransportSet] asks before it reads the body; [None] goes on to write. *)
Definition insecure_transport_gate (r : HTTPRequest) : stateM Auth (option response) :=
  configured ← Configured;
  match configured with
  | Refuse _ => mret (Some (Answer 500 "internal"))
  | Done false => mret None
  | Done true =>
      a ← Authenticate (rq_session r);
      match a with
      | Refuse _ => mret (Some (Answer 409 "already_configured"))
      | Done sess =>
          scope ← ScopeOf (PrincipalOf sess);
          mret (match scope with
          | Refuse _ => Some (Answer 403 "forbidden")
          | Done EmptyString => if CheckCSRF r then None else Some (Answer 403 "csrf")
          | Done _ => Some (Answer 403 "forbidden")
          end)
      end
  end.

(** ** What a session is told of itself (auth_scope.go) *)

Record AuthStatus : Type := mkAuthStatus { as_State : string; as_CSRFToken : string; as_Scope : option string }.

(** [None]: an admin. *)
Definition scopeWireFor (p : string) : auth (option string) :=
  let! udid := ScopeOf p in done (if String.eqb udid "" then None else Some udid).

Definition authStatusFor (sessionID csrf : string) : auth AuthStatus :=
  let! state := Status sessionID in
  if negb (String.eqb state StateAuthenticated) then done (mkAuthStatus state csrf None)
  else
    a ← Authenticate sessionID;
    match a with
    | Refuse _ => done (mkAuthStatus StateNeedsLogin csrf None)
    | Done sess =>
        scope ← scopeWireFor (PrincipalOf sess);
        match scope with
        | Refuse ErrCredentialRevoked => done (mkAuthStatus StateNeedsLogin csrf None)
        | Refuse e => refuse e
        | Done scope => done (mkAuthStatus state csrf scope)
        end
    end.

Definition mintedStatus (p csrf : string) : auth AuthStatus :=
  let! scope := scopeWireFor p in done (mkAuthStatus StateAuthenticated csrf scope).
End guards.

(** ** What the guards leave of the database *)

Definition same_passkeys (d d' : AuthDB) : Prop := ad_passkeys d' = ad_passkeys d.
#[global] Instance same_passkeys_preorder : PreOrder same_passkeys.
Proof. split; [by intros d|]. intros a b c H1 H2. unfold same_passkeys in *. by etrans. Qed.

Lemma same_rows_passkeys d d' : same_rows d d' → same_passkeys d d'.
Proof. by intros (_ & H & _). Qed.

Section guarding.
Context `{Henv : !AuthEnv, Hwa : !WebAuthn}.
Context (rd : Readers).

Abbreviation leaves := (stays (on_db same_passkeys)).

Lemma leaves_update {A} (f : AuthDB → A * AuthDB) : (∀ d, same_passkeys d (f d).2) → leaves (sql (update f)).
Proof. intros Hf. apply stays_sql, db_stays_update; [apply _|apply same_rows_passkeys|done]. Qed.
Lemma leaves_query {A} (f : AuthDB → A) : leaves (sql (query f)).
Proof. apply stays_sql, db_stays_query; [apply _|apply same_rows_passkeys]. Qed.
#[local] Hint Resolve leaves_query : auth.

Lemma leaves_Authenticate sid : leaves (Authenticate sid).
Proof. unfold Authenticate, GetAuthSession. stay; by apply leaves_update. Qed.
Lemma leaves_ensureCSRF r : leaves (ensureCSRF r).
Proof. unfold ensureCSRF, NewCSRFToken, Token. stay. Qed.

(** The scope of a principal, as the database has it: [Some ""] is the admin, [None] a credential
    that is gone. *)
Definition principal_scope (d : AuthDB) (p : string) : option string :=
  if String.eqb p "" then Some ""%string
  else (λ pk, default ""%string (pk_ScopeUDID pk)) <$> ad_passkeys d !! p.

Lemma ScopeOf_finds d p s : same_passkeys d (au_db s) →
  wp (ScopeOf p) (λ r _, ∀ u, r = Done u → principal_scope d p = Some u) s.
Proof.
  intros Hs. unfold ScopeOf, principal_scope, IsPasswordLogin.
  destruct (String.eqb p ""); [apply wp_done; by intros u [= <-]|]. apply wp_try.
  unfold GetPasskey. apply wp_sql, wp_query. intros d' Hd'. apply same_rows_passkeys in Hd'.
  split; [done|]. unfold same_passkeys in *. rewrite <-Hs, <-Hd'.
  destruct (ad_passkeys d' !! p) as [pk|]; [|done]. apply wp_done. by intros u [= <-].
Qed.

(** A session that is there and has not run out, at the reading of the clock that is taken. *)
Definition live_session (s : Auth) (sid p : string) : Prop :=
  ∃ sess, ad_sessions (au_db s) !! sid = Some sess ∧ PrincipalOf sess = p ∧
    clock (au_reads s) ≤ se_ExpiresAt sess ∧ time_sub (clock (au_reads s)) (se_LastSeenAt sess) ≤ idleTimeout.

Lemma Authenticate_live sid s :
  wp (Authenticate sid) (λ a _, ∀ sess, a = Done sess → live_session s sid (PrincipalOf sess)) s.
Proof.
  unfold Authenticate. apply wp_try. unfold GetAuthSession. apply wp_sql, wp_query.
  intros d' (_ & _ & Hd' & _). split; [done|].
  destruct (ad_sessions d' !! sid) as [sess|] eqn:Hl; [|done]. apply wp_bind. unfold wp at 1, now. cbn [fst snd].
  assert (∀ x, se_CredentialID x = se_CredentialID sess →
    (se_ExpiresAt sess <? clock (au_reads s)) ||
      (idleTimeout <? time_sub (clock (au_reads s)) (se_LastSeenAt sess)) = false →
    ∀ y, Done x = Done y → live_session s sid (PrincipalOf y)) as Hlive.
  { intros x Hx Ht y [= <-]. apply orb_false_iff in Ht as [H1%Z.ltb_ge H2%Z.ltb_ge].
    rewrite Hd' in Hl. exists sess. split; [done|]. unfold PrincipalOf. by rewrite Hx. }
  change (au_reads (set_db d' s)) with (au_reads s).
  destruct (_ || _) eqn:Hexp.
  - apply wp_bind. eapply wp_mono; [exact (I : wp _ (λ _ _, True) _)|]. intros x s' _. by apply wp_refuse.
  - destruct (Minute <? _); [|by apply wp_done, Hlive].
    apply wp_bind. eapply wp_mono; [exact (I : wp _ (λ _ _, True) _)|]. intros [x|e] s' _.
    + apply wp_done, Hlive; done.
    + apply wp_done, Hlive; done.
Qed.

(** What a principal may reach. *)
Definition permitted (d : AuthDB) (pattern : string) (b : list (string * string)) (r : HTTPRequest)
    (p : string) : Prop :=
  match scopeOfPattern pattern with
  | None => False
  | Some adminOnly => principal_scope d p = Some ""%string
  | Some scopedOwnDevice => principal_scope d p = Some ""%string ∨
      ∃ u res, principal_scope d p = Some u ∧ resolver_of pattern = Some res ∧ resolve rd res b r = Some u
  | Some _ => True
  end.

(** The guards bind nothing new, and pass on what is permitted. *)
Definition passes (d : AuthDB) (patterns : list string) (r : HTTPRequest) (who : option string)
    (x : response) : Prop :=
  ∀ pattern b who', x = Handled pattern b who' →
    who' = who ∧ mux_find patterns r = Some (pattern, b) ∧ ∀ p, who = Some p → permitted d pattern b r p.

Lemma scopeGuardFor_passes d patterns r who pattern b s : same_passkeys d (au_db s) →
  mux_find patterns r = Some (pattern, b) →
  wp (scopeGuardFor rd pattern b r who) (λ x _, passes d patterns r who x) s.
Proof.
  intros Hs Hf. unfold scopeGuardFor.
  assert (∀ s', (∀ p, who = Some p → permitted d pattern b r p) →
    wp (mret (Handled pattern b who) : stateM Auth response) (λ x _, passes d patterns r who x) s') as Hok.
  { intros s' H. apply wp_ret. by intros pat' b' who' [= <- <- <-]. }
  destruct (scopeOfPattern pattern) as [class|] eqn:Hc; [|by apply wp_ret].
  case_bool_decide as Hown; [|destruct (refusesScoped class) eqn:Href; cbn [negb]].
  - subst class. unfold scopedResourceGuard. destruct who as [p|]; [|by apply Hok].
    apply wp_bind. eapply wp_mono; [by apply (ScopeOf_finds d)|]. intros [[|c u]|e] s' Hu; [| |by apply wp_ret].
    + apply Hok. intros q [= <-]. unfold permitted. rewrite Hc. left. by apply Hu.
    + destruct (resolver_of pattern) as [res|] eqn:Hres; [|by apply wp_ret].
      case_bool_decide as Hdev; [|by apply wp_ret]. apply Hok. intros q [= <-]. unfold permitted. rewrite Hc. right.
      exists (String c u), res. split; [by apply Hu|done].
  - unfold refusesScoped in Href. apply bool_decide_eq_true_1 in Href as ->.
    destruct who as [p|]; [|by apply Hok]. apply wp_bind.
    eapply wp_mono; [by apply (ScopeOf_finds d)|]. intros [[|c u]|e] s' Hu; [|by apply wp_ret|by apply wp_ret].
    apply Hok. intros q [= <-]. unfold permitted. rewrite Hc. by apply Hu.
  - unfold refusesScoped in Href. apply bool_decide_eq_false_1 in Href.
    apply Hok. intros p _. unfold permitted. rewrite Hc. by destruct class.
Qed.

Lemma apiMux_passes d patterns r who s : same_passkeys d (au_db s) →
  wp (apiMux rd patterns r who) (λ x _, passes d patterns r who x) s.
Proof.
  intros Hs. unfold apiMux. destruct (mux_find patterns r) as [[pattern b]|] eqn:Hf; [|by apply wp_ret].
  by apply scopeGuardFor_passes.
Qed.

Definition submitted (r : HTTPRequest) : bool := isSafeMethod (rq_Method r) || csrfExempt r || CheckCSRF r.

Lemma rest_passes d patterns sr r who s : same_passkeys d (au_db s) →
  wp (csrfGuard r (setupGuard sr r (apiMux rd patterns r who)))
    (λ x _, passes d patterns r who x ∧ (∀ pat b w, x = Handled pat b w → submitted r = true)) s.
Proof.
  intros Hs.
  assert (∀ P : Prop, P → wp (setupGuard sr r (apiMux rd patterns r who))
    (λ x _, passes d patterns r who x ∧ (∀ pat b w, x = Handled pat b w → P)) s) as Hm.
  { intros P HP. unfold setupGuard. case_match; [by apply wp_ret|].
    eapply wp_mono; [by apply (apiMux_passes d)|]. intros x s' Hx. split; [exact Hx|done]. }
  unfold csrfGuard, submitted. destruct (isSafeMethod _ || csrfExempt r) eqn:He; [by apply Hm|].
  destruct (CheckCSRF r); cbn [negb]; [by apply Hm|by apply wp_ret].
Qed.

(** How a request got to its handler. *)
Definition reached (patterns : list string) (r : HTTPRequest) (s : Auth) (x : response) : Prop :=
  ∀ pattern b who, x = Handled pattern b who →
    mux_find patterns r = Some (pattern, b) ∧ submitted r = true ∧
    match who with
    | None => authExempt r = true
    | Some p => authExempt r = false ∧ live_session s (rq_session r) p ∧ permitted (au_db s) pattern b r p
    end.

Lemma apiHandler_reaches patterns sr r s :
  wp (apiHandler rd patterns sr r) (λ x _, reached patterns r s x) s.
Proof.
  unfold apiHandler, authGuard. destruct (authExempt r) eqn:He.
  - apply wp_bind. eapply wp_mono; [exact (wp_stays _ _ (λ _ _, True) s (leaves_ensureCSRF r) I)|].
    intros tok s1 [_ Hs1]. eapply wp_mono; [by apply (rest_passes (au_db s))|]. intros x s2 [Hx Hsub] pat b who Hd.
    destruct (Hx pat b who Hd) as (-> & Hf & _). split; [done|]. split; [by eapply Hsub|done].
  - apply wp_bind.
    eapply wp_mono; [exact (wp_stays _ _ _ s (leaves_Authenticate _) (Authenticate_live (rq_session r) s))|].
    intros [sess|e] s1 [Hlive Hs1]; [|by apply wp_ret]. specialize (Hlive sess eq_refl). apply wp_bind.
    eapply wp_mono; [exact (wp_stays _ _ (λ _ _, True) s1 (leaves_ensureCSRF r) I)|]. intros tok s2 [_ Hs2].
    eapply wp_mono; [apply (rest_passes (au_db s)); unfold on_db in *; by etrans|].
    intros x s3 [Hx Hsub] pat b who Hd. destruct (Hx pat b who Hd) as (-> & Hf & Hp).
    split; [done|]. split; [by eapply Hsub|]. split; [done|]. split; [done|]. by apply Hp.
Qed.

(** C9: Nothing is reached past the guards.  A request that reaches a handler without a session is one
    of the listed ones, and is served by the very route it is listed for (or by the answer that there
    is no such route), however its path is escaped.  Every other request that reaches a handler
    carries a session that exists and has not run out, and its principal may go there: only the admin
    reaches an admin route; the holder of a device's passkey reaches a route of one device only for
    that device, whichever way the request names it; and a session whose credential is gone reaches
    neither. *)
Theorem api_confined passkeys enrolments notifications storageRequired r s pattern b who :
  let patterns := routes passkeys enrolments notifications in
  (apiHandler rd patterns storageRequired r s).1 = Handled pattern b who →
  match who with
  | None => authExempt r = true ∧ (pattern = "/api/"%string ∨ pattern = rq_Method r +:+ " " +:+ url_Path r)
  | Some p => live_session s (rq_session r) p ∧ permitted (au_db s) pattern b r p
  end.
Proof.
  intros patterns Hx. pose proof (apiHandler_reaches patterns storageRequired r s) as Hr. unfold wp in Hr.
  destruct (Hr _ _ _ Hx) as (Hf & _ & Hwho). destruct who as [p|]; [by destruct Hwho|].
  split; [done|]. by eapply exempt_routed.
Qed.

(** *** The double submit *)

Lemma posted_is_exempt r s b : csrfExempt r = true → s = "POST " +:+ url_Path r → whole_match r s b →
  authExempt r = true.
Proof.
  intros He%bool_decide_eq_true_1 -> (_ & _ & Hm & _). apply bool_decide_eq_true_2.
  assert (Forall (λ path, pt_Method (parse_pattern ("POST " +:+ path)) = Some "POST"%string ∧
    "POST " +:+ path ∈ exempt_requests) csrf_exempt_paths) as Hall.
  { apply (bool_decide_unpack _). vm_compute. exact I. }
  rewrite Forall_forall in Hall. destruct (Hall _ He) as [Hpost Hin]. rewrite Hpost in Hm.
  unfold method_matches in Hm. rewrite orb_false_r in Hm. apply String.eqb_eq in Hm. rewrite <-Hm.
  exact Hin.
Qed.

Lemma slashed_id d k : rows_ok d → k ∈ ["login/begin"; "login/finish"]%string → ad_passkeys d !! k = None.
Proof.
  intros Hok Hk. destruct (ad_passkeys d !! k) as [p|] eqn:Hp; [|done]. exfalso.
  apply (passkeys_canonical _ Hok) in Hp as [raw Hraw]. pose proof (decode_encode RawURLEncoding raw) as Hd.
  rewrite <-Hraw in Hd.
  repeat (apply elem_of_cons in Hk as [->|Hk]; [vm_compute in Hd; discriminate Hd|]). by apply elem_of_nil in Hk.
Qed.

(** A session alone changes nothing: a request with a session that reaches a handler by a method
    other than GET, HEAD or OPTIONS has presented the token of its CSRF cookie in the header.  The
    two exceptions do nothing: the answer that there is no such route, and a removal or renaming of a
    passkey by one of two ids with a slash in them, which the exact-path list lets through and which
    no stored passkey has. *)
Theorem csrf_needed passkeys enrolments notifications storageRequired r s pattern b p :
  let patterns := routes passkeys enrolments notifications in
  rows_ok (au_db s) →
  (apiHandler rd patterns storageRequired r s).1 = Handled pattern b (Some p) →
  isSafeMethod (rq_Method r) = false →
  CheckCSRF r = true ∨ pattern = "/api/"%string ∨
  (pattern ∈ passkey_routes ∧ ad_passkeys (au_db s) !! PathValue b "id" = None).
Proof.
  intros patterns Hok Hx Hsafe. pose proof (apiHandler_reaches patterns storageRequired r s) as Hr. unfold wp in Hr.
  destruct (Hr _ _ _ Hx) as (Hf & Hsub & Hauth & _). unfold submitted in Hsub. rewrite Hsafe in Hsub.
  destruct (CheckCSRF r); [by left|right]. rewrite orb_false_r in Hsub. cbn [orb] in Hsub.
  destruct (csrf_exempt_routed _ _ _ _ _ _ Hf Hsub) as [->|[Hpost|[Hin Hw]]]; [by left| |right].
  - apply mux_find_cases in Hf as [_ [->|[Hw _]]]; [by left|].
    by rewrite (posted_is_exempt _ _ _ Hsub Hpost Hw) in Hauth.
  - split; [done|]. apply slashed_id; [done|]. by eapply csrf_exempt_id.
Qed.

(** A list is narrowed to the device of a scoped principal, whatever the query says. *)
Lemma listUDID_forced d r p u s : same_passkeys d (au_db s) → principal_scope d p = Some u → u ≠ ""%string →
  wp (listUDID r (Some p)) (λ x _, ∀ v, x = Done v → v = u) s.
Proof.
  intros Hs Hu Hne. unfold listUDID. apply wp_try. eapply wp_mono; [by apply (ScopeOf_finds d)|].
  intros [v|e] s' Hv; [|done]. specialize (Hv v eq_refl). rewrite Hu in Hv. simplify_eq.
  destruct (String.eqb_spec v ""); [done|]. apply wp_done. by intros w [= <-].
Qed.

(** On a claimed install the pre-auth write is the admin's, with the double submit. *)
Lemma insecure_transport_guarded r s :
  wp (insecure_transport_gate r) (λ x _, x = None →
    (¬ has_password (au_db s) ∧ ad_passkeys (au_db s) = ∅) ∨
    ∃ s1 p, same_rows (au_db s) (au_db s1) ∧ live_session s1 (rq_session r) p ∧
      principal_scope (au_db s) p = Some ""%string ∧ CheckCSRF r = true) s.
Proof.
  unfold insecure_transport_gate. apply wp_bind. set (d := au_db s).
  assert (shows d s) as Hs by done. clearbody d.
  eapply wp_reads; [apply reads_Configured|exact Hs|by apply (Configured_finds d)|].
  intros [b|e] s1 Hs1 Hb; [|by apply wp_ret]. specialize (Hb b eq_refl). destruct b.
  - apply wp_bind.
    eapply wp_mono; [exact (wp_stays _ _ _ s1 (leaves_Authenticate _) (Authenticate_live (rq_session r) s1))|].
    intros [sess|e] s2 [Hlive Hs2]; [|by apply wp_ret]. specialize (Hlive sess eq_refl). apply wp_bind.
    assert (same_passkeys d (au_db s2)) as Hp by (etrans; [by apply same_rows_passkeys|exact Hs2]).
    eapply wp_mono; [by apply (ScopeOf_finds d)|]. intros [[|c u]|e] s3 Hu; [|by apply wp_ret|by apply wp_ret].
    apply wp_ret. destruct (CheckCSRF r) eqn:Hc; [|done]. intros _. right. exists s1, (PrincipalOf sess).
    split; [exact Hs1|]. split; [done|]. split; [by apply Hu|done].
  - apply wp_ret. intros _. left. split.
    + intros H. by assert (false = true) by (apply Hb; by left).
    + destruct (decide (ad_passkeys d = ∅)) as [H|H]; [done|]. by assert (false = true) by (apply Hb; by right).
Qed.
End guarding.
