(* ===== verification/Events.v ===== *)
(** * Events: envelopes, the bus, and who may receive what

    Models core/internal/wire/envelope.go and eventscope.go (the envelope, its event types, and the
    device that an event concerns), core/internal/bus/bus.go (the fan-out to subscriptions with
    bounded buffers), and core/internal/ws/principal.go (the filter of a confined socket).  A
    subscription is a shared object of the bus and of its reader: the bus keeps a heap of them. *)

From Stdlib Require Import String Ascii.
From S2P Require Import Prelude Domain.

(** ** Envelopes *)

Definition EventHello : string := "hello".
Definition EventDeviceAttached : string := "device.attached".
Definition EventDeviceDetached : string := "device.detached".
Definition EventDeviceUpdated : string := "device.updated".
Definition EventJobUpdated : string := "job.updated".
Definition EventJobLog : string := "job.log".
Definition EventOpUpdated : string := "op.updated".
Definition EventVersionCreated : string := "version.created".
Definition EventVersionDeleted : string := "version.deleted".
Definition EventSessionLocked : string := "session.locked".
Definition EventConfigUpdated : string := "config.updated".
Definition EventMessagesIndexing : string := "messages.indexing".

Record Op : Type := mkOp {
  op_ID : string; op_UDID : string; op_Kind : string; op_State : string; op_Message : string;
  op_Error : option JobError }.

Record Hello : Type := mkHello { he_ServerVersion : string; he_Time : string }.
Record DeviceEvent : Type := mkDeviceEvent { de_Device : Device; de_Transport : string }.
Record JobLogChunk : Type := mkJobLogChunk { jl_JobID : string; jl_UDID : string; jl_Chunk : string }.
Record SessionLocked : Type := mkSessionLocked { sl_SessionID : string; sl_Reason : string }.
Record MessagesIndexing : Type := mkMessagesIndexing {
  mi_SessionID : string; mi_UDID : string; mi_Messages : Z }.

(** [Data any]: the payloads that are published, and any other value. *)
Inductive payload : Type :=
  | OfHello (h : Hello)
  | OfDevice (d : Device)
  | OfDeviceEvent (e : DeviceEvent)
  | OfJob (j : Job)
  | OfJobLog (c : JobLogChunk)
  | OfOp (o : Op)
  | OfVersion (v : Version)
  | OfSessionLocked (s : SessionLocked)
  | OfMessagesIndexing (m : MessagesIndexing)
  | OfOther.

Record Envelope : Type := mkEnvelope { ev_Type : string; ev_TS : string; ev_Data : payload }.

Definition NewEnvelope (now : time) (typ : string) (data : payload) : Envelope :=
  mkEnvelope typ (fmtRFC now) data.

(** ** The device of an event *)

(** The [DeviceUDID] methods; a payload that has none names no device. *)
Definition udidOf (data : payload) : string :=
  match data with
  | OfDevice d => dev_UDID d
  | OfDeviceEvent e => dev_UDID (de_Device e)
  | OfJob j => wj_UDID j
  | OfJobLog c => jl_UDID c
  | OfOp o => op_UDID o
  | OfVersion v => wv_UDID v
  | OfMessagesIndexing m => mi_UDID m
  | OfHello _ | OfSessionLocked _ | OfOther => ""
  end.

Definition global_events : list string := [EventHello; EventSessionLocked; EventConfigUpdated].
Definition device_events : list string :=
  [EventDeviceAttached; EventDeviceDetached; EventDeviceUpdated; EventJobUpdated; EventJobLog;
   EventOpUpdated; EventVersionCreated; EventVersionDeleted; EventMessagesIndexing].

Definition EventDevice (env : Envelope) : string * bool :=
  if bool_decide (ev_Type env ∈ global_events) then (""%string, false)
  else if bool_decide (ev_Type env ∈ device_events) then (udidOf (ev_Data env), true)
  else (""%string, true).

(** ** Who may receive it *)

Record Principal : Type := mkPrincipal { ScopeUDID : string }.
Definition AdminPrincipal : Principal := mkPrincipal "".
Definition DevicePrincipal (udid : string) : Principal := mkPrincipal udid.

Definition MayReceive (p : Principal) (env : Envelope) : bool :=
  if String.eqb (ScopeUDID p) "" then true
  else let '(udid, scoped) := EventDevice env in
       if negb scoped then true else String.eqb udid (ScopeUDID p).

(** ** The bus *)

Record Subscription : Type := mkSub {
  sub_buffer : nat;              (* the capacity of the channel *)
  sub_ch : list Envelope;        (* what is in it, oldest first *)
  sub_closed : bool;
  sub_dropped : bool }.

Record Bus : Type := mkBus {
  bus_heap : gmap nat Subscription;   (* every subscription ever made *)
  bus_subs : gset nat }.              (* [subs]: the current ones *)

Definition New : Bus := mkBus ∅ ∅.

Definition Subscribe (buffer : Z) (b : Bus) : nat * Bus :=
  let buffer := if buffer <? 1 then 1 else buffer in
  let id := fresh (dom (bus_heap b)) in
  (id, mkBus (<[id := mkSub (Z.to_nat buffer) [] false false]> (bus_heap b)) ({[id]} ∪ bus_subs b)).

Definition close_sub (s : Subscription) : Subscription :=
  mkSub (sub_buffer s) (sub_ch s) true (sub_dropped s).

Definition Unsubscribe (id : nat) (b : Bus) : Bus :=
  if bool_decide (id ∈ bus_subs b) then
    mkBus (alter close_sub id (bus_heap b)) (bus_subs b ∖ {[id]})
  else b.

(** The non-blocking send of [Publish] and [dropOnce]. *)
Definition offer (env : Envelope) (s : Subscription) : Subscription :=
  if (length (sub_ch s) <? sub_buffer s)%nat then
    mkSub (sub_buffer s) (sub_ch s ++ [env]) (sub_closed s) (sub_dropped s)
  else mkSub (sub_buffer s) (sub_ch s) (sub_closed s) true.

Definition Publish (env : Envelope) (b : Bus) : Bus :=
  mkBus (map_imap (λ id s, Some (if bool_decide (id ∈ bus_subs b) then offer env s else s)) (bus_heap b))
    (bus_subs b).

(** A receive from [C()]: the oldest envelope, if there is one. *)
Definition take (s : Subscription) : option (Envelope * Subscription) :=
  match sub_ch s with
  | [] => None
  | env :: ch => Some (env, mkSub (sub_buffer s) ch (sub_closed s) (sub_dropped s))
  end.

(** ** Its invariant: a send on a closed channel would panic *)

Definition bus_ok (b : Bus) : Prop :=
  ∀ id, id ∈ bus_subs b → ∃ s, bus_heap b !! id = Some s ∧ sub_closed s = false.

Lemma New_ok : bus_ok New.
Proof. intros id Hid. by apply elem_of_empty in Hid. Qed.

Lemma Subscribe_fresh buffer b : bus_heap b !! (Subscribe buffer b).1 = None.
Proof. apply not_elem_of_dom. unfold Subscribe. cbn [fst]. apply is_fresh. Qed.

Lemma Subscribe_ok buffer b : bus_ok b → bus_ok (Subscribe buffer b).2.
Proof.
  intros Hb id. unfold Subscribe. cbn [snd bus_subs bus_heap].
  intros [->%elem_of_singleton|Hid]%elem_of_union.
  - eexists. by rewrite lookup_insert_eq.
  - destruct (Hb id Hid) as (s & Hs & Hc). exists s. split; [|done].
    rewrite lookup_insert_ne; [done|]. intros <-.
    pose proof (Subscribe_fresh buffer b) as Hf. unfold Subscribe in Hf. cbn [fst] in Hf. by rewrite Hs in Hf.
Qed.

Lemma Publish_lookup env b id : bus_heap (Publish env b) !! id =
  (λ s, if bool_decide (id ∈ bus_subs b) then offer env s else s) <$> bus_heap b !! id.
Proof. unfold Publish. cbn [bus_heap]. rewrite map_lookup_imap. by destruct (bus_heap b !! id). Qed.

Lemma Publish_ok env b : bus_ok b → bus_ok (Publish env b).
Proof.
  intros Hb id Hid. destruct (Hb id Hid) as (s & Hs & Hc). rewrite Publish_lookup, Hs. cbn [fmap option_fmap option_map].
  eexists. split; [done|]. rewrite bool_decide_true by exact Hid. unfold offer. by case_match.
Qed.

Lemma Unsubscribe_lookup i id b : bus_ok b → bus_heap (Unsubscribe i b) !! id =
  (if bool_decide (id = i ∧ i ∈ bus_subs b) then close_sub <$> bus_heap b !! id else bus_heap b !! id).
Proof.
  intros Hb. unfold Unsubscribe. case_bool_decide as Hi; case_bool_decide as He; cbn [bus_heap]; try tauto.
  - destruct He as [-> _]. by rewrite lookup_alter_eq.
  - rewrite lookup_alter_ne; [done|]. intros ->. tauto.
Qed.

Lemma Unsubscribe_subs i b : bus_subs (Unsubscribe i b) = bus_subs b ∖ {[i]}.
Proof. unfold Unsubscribe. case_bool_decide; cbn [bus_subs]; [done|]. set_solver. Qed.

Lemma Unsubscribe_ok i b : bus_ok b → bus_ok (Unsubscribe i b).
Proof.
  intros Hb id. rewrite Unsubscribe_subs. intros [Hid Hne]%elem_of_difference.
  rewrite Unsubscribe_lookup by done. rewrite bool_decide_false; [by apply Hb|].
  intros [-> _]. by apply Hne, elem_of_singleton.
Qed.

(** ** What the filter lets through *)

Lemma admin_hears_everything env : MayReceive AdminPrincipal env = true.
Proof. done. Qed.

(** What a confined socket hears is a global event, or a device's own. *)
Lemma MayReceive_scoped udid env : udid ≠ ""%string → MayReceive (DevicePrincipal udid) env = true →
  ev_Type env ∈ global_events ∨ (ev_Type env ∈ device_events ∧ udidOf (ev_Data env) = udid).
Proof.
  intros Hu. unfold MayReceive, EventDevice. cbn [DevicePrincipal ScopeUDID].
  destruct (String.eqb_spec udid "") as [|_]; [done|].
  case_bool_decide as Hg; [by left|]. case_bool_decide as Hd; cbn [negb].
  - intros He%String.eqb_eq. by right.
  - intros He%String.eqb_eq. by destruct Hu.
Qed.
