(* ===== verification/Sockets.v ===== *)
(** * Sockets: the event socket of a client

    Models core/internal/ws/handler.go and the resolution of a socket's principal in
    core/internal/httpapi/server.go, over the bus of [Events] and the authentication of
    [AuthService].  A hub is the bus, the authentication service and the sockets; a socket is keyed
    by its subscription.  The select loop takes any case that is ready, and the world interleaves
    with it: one [hub_event] is one of those steps.  Whether the origin of a handshake is allowed,
    and whether a frame or a ping gets through, are inputs. *)

From Stdlib Require Import String Ascii.
From S2P Require Import Prelude Domain Store Base64 Argon2 AuthErrors AuthStore Net Proxy Routes.
From S2P Require Import Limiter Proofs Enrolment WebAuthn AuthService Credentials Passkeys AuthSafety.
From S2P Require Import Guards Events.

#[local] Open Scope quince_scope.

Definition subscriberBuffer : Z := 64.

(** How a handler returned: the close frame that it sent, or none. *)
Inductive closing : Type := NormalClosure | TooSlow | SessionEnded | Gone.

Record Socket : Type := mkSocket {
  so_session : string;
  so_principal : Principal;
  so_sent : list Envelope;           (* the frames written, oldest first *)
  so_closed : option closing }.

Definition sent_frame (env : Envelope) (so : Socket) : Socket :=
  mkSocket (so_session so) (so_principal so) (so_sent so ++ [env]) (so_closed so).
Definition with_principal (p : Principal) (so : Socket) : Socket :=
  mkSocket (so_session so) p (so_sent so) (so_closed so).
Definition close_socket (r : closing) (so : Socket) : Socket :=
  mkSocket (so_session so) (so_principal so) (so_sent so) (Some r).

Section hub.
Context `{Henv : !AuthEnv, Hwa : !WebAuthn, Hrange : !MapRange, Hsort : !SortSlice}.

(** The [authFn] that [NewRouter] hands to [ws.Handler]. *)
Definition socket_principal (sessionID : string) : auth Principal :=
  let! sess := Authenticate sessionID in
  let! scope := ScopeOf (PrincipalOf sess) in
  if String.eqb scope "" then done AdminPrincipal else done (DevicePrincipal scope).

Record Hub : Type := mkHub {
  hb_bus : Bus;
  hb_auth : Auth;
  hb_sockets : gmap nat Socket }.

(** The handler returns: the deferred [Unsubscribe]. *)
Definition finish (k : nat) (r : closing) (h : Hub) : Hub :=
  mkHub (Unsubscribe k (hb_bus h)) (hb_auth h) (alter (close_socket r) k (hb_sockets h)).

Inductive hub_event : Type :=
  | Connect (sessionID : string) (originAllowed accepted written : bool) (version : string) (t : time)
  | Published (env : Envelope)
  | Deliver (k : nat) (written : bool)        (* [env := <-sub.C()] *)
  | Overflow (k : nat)                        (* [<-sub.Dropped()] *)
  | Tick (k : nat) (answered : bool)          (* [<-ticker.C] *)
  | Leave (k : nat)                           (* [<-ctx.Done()] *)
  | AuthOp (op : auth_op)
  | ConsoleReset.

(** What is written before the loop. *)
Definition hello (version : string) (t : time) : Envelope :=
  NewEnvelope t EventHello (OfHello (mkHello version (fmtRFC t))).

Definition connect (sessionID : string) (originAllowed accepted written : bool) (version : string)
    (t : time) (h : Hub) : Hub :=
  let '(r, a) := socket_principal sessionID (hb_auth h) in
  match r with
  | Refuse _ => mkHub (hb_bus h) a (hb_sockets h)                   (* 401 *)
  | Done principal =>
      if negb originAllowed then mkHub (hb_bus h) a (hb_sockets h)  (* 403 *)
      else if negb accepted then mkHub (hb_bus h) a (hb_sockets h)
      else
        let '(k, b) := Subscribe subscriberBuffer (hb_bus h) in
        let so := mkSocket sessionID principal [] None in
        if written then mkHub b a (<[k := sent_frame (hello version t) so]> (hb_sockets h))
        else finish k Gone (mkHub b a (<[k := so]> (hb_sockets h)))
  end.

Definition deliver (k : nat) (written : bool) (so : Socket) (h : Hub) : Hub :=
  match bus_heap (hb_bus h) !! k ≫= take with
  | None => h
  | Some (env, sub) =>
      let h := mkHub (mkBus (<[k := sub]> (bus_heap (hb_bus h))) (bus_subs (hb_bus h))) (hb_auth h) (hb_sockets h) in
      if negb (MayReceive (so_principal so) env) then h
      else if written then mkHub (hb_bus h) (hb_auth h) (<[k := sent_frame env so]> (hb_sockets h))
      else finish k Gone h
  end.

Definition tick (k : nat) (answered : bool) (so : Socket) (h : Hub) : Hub :=
  let '(r, a) := socket_principal (so_session so) (hb_auth h) in
  match r with
  | Refuse _ => finish k SessionEnded (mkHub (hb_bus h) a (hb_sockets h))
  | Done fresh =>
      let h := mkHub (hb_bus h) a (<[k := with_principal fresh so]> (hb_sockets h)) in
      if answered then h else finish k Gone h
  end.

Definition overflow (k : nat) (h : Hub) : Hub :=
  match bus_heap (hb_bus h) !! k with
  | Some sub => if sub_dropped sub then finish k TooSlow h else h
  | None => h
  end.

(** A step of the loop of socket [k], while its handler runs. *)
Definition in_loop (k : nat) (h : Hub) (f : Socket → Hub) : Hub :=
  match hb_sockets h !! k with
  | Some so => match so_closed so with None => f so | Some _ => h end
  | None => h
  end.

Definition set_auth (a : Auth) (h : Hub) : Hub := mkHub (hb_bus h) a (hb_sockets h).

Definition hub_step (e : hub_event) (h : Hub) : Hub :=
  match e with
  | Connect sid o a w v t => connect sid o a w v t h
  | Published env => mkHub (Publish env (hb_bus h)) (hb_auth h) (hb_sockets h)
  | Deliver k w => in_loop k h (λ so, deliver k w so h)
  | Overflow k => in_loop k h (λ _, overflow k h)
  | Tick k a => in_loop k h (λ so, tick k a so h)
  | Leave k => in_loop k h (λ _, finish k NormalClosure h)
  | AuthOp op => set_auth (auth_step op (hb_auth h)) h
  | ConsoleReset => set_auth (set_db (Reset (au_db (hb_auth h))).2 (hb_auth h)) h
  end.

Definition hub_run (es : list hub_event) (h : Hub) : Hub := fold_left (λ h e, hub_step e h) es h.

Definition new_hub (a : Auth) : Hub := mkHub New a ∅.

Lemma hub_run_snoc es e h : hub_run (es ++ [e]) h = hub_step e (hub_run es h).
Proof. unfold hub_run. by rewrite fold_left_app. Qed.

(** ** What a step does to one socket *)

Definition is_open (so : Socket) : Prop := so_closed so = None.

(** The step of a socket: it appears with its first frame, or stays, sends, is re-resolved, closes. *)
Inductive socket_moves (h : Hub) (e : hub_event) (k : nat) : option Socket → option Socket → Prop :=
  | moves_none : socket_moves h e k None None
  | moves_stays so : (∀ a, is_open so → e ≠ Tick k a) → socket_moves h e k (Some so) (Some so)
  | moves_opens sid p frames c o a w v t :
      e = Connect sid o a w v t → (socket_principal sid (hb_auth h)).1 = Done p →
      frames = (if w then [hello v t] else []) → c = (if w then None else Some Gone) →
      socket_moves h e k None (Some (mkSocket sid p frames c))
  | moves_sends so env :
      is_open so → e = Deliver k true → MayReceive (so_principal so) env = true →
      socket_moves h e k (Some so) (Some (sent_frame env so))
  | moves_renews so p a :
      is_open so → e = Tick k a → (socket_principal (so_session so) (hb_auth h)).1 = Done p →
      socket_moves h e k (Some so) (Some (with_principal p so))
  | moves_closes so so' r :
      is_open so → so_session so' = so_session so → so_sent so' = so_sent so → so_closed so' = Some r →
      socket_moves h e k (Some so) (Some so').

Record hub_ok (h : Hub) : Prop := {
  hub_bus_ok : bus_ok (hb_bus h);
  hub_known : ∀ k so, hb_sockets h !! k = Some so → is_Some (bus_heap (hb_bus h) !! k);
  hub_listens : ∀ k so, hb_sockets h !! k = Some so → is_open so → k ∈ bus_subs (hb_bus h) }.

Lemma new_hub_ok a : hub_ok (new_hub a).
Proof. split; [apply New_ok|intros k so; cbn [new_hub hb_sockets]; by rewrite lookup_empty..]. Qed.

Lemma finish_lookup k r h k' : hb_sockets (finish k r h) !! k' =
  (if decide (k = k') then close_socket r <$> hb_sockets h !! k' else hb_sockets h !! k').
Proof. unfold finish. cbn [hb_sockets]. rewrite lookup_alter. by case_decide; subst. Qed.

Lemma finish_ok k r h : hub_ok h → hub_ok (finish k r h).
Proof.
  intros [Hb Hk Hl]. split; [by apply Unsubscribe_ok| |]; intros k' so; rewrite finish_lookup; unfold finish; cbn [hb_bus].
  - rewrite Unsubscribe_lookup by done. intros Hso.
    assert (is_Some (bus_heap (hb_bus h) !! k')) as [s Hs].
    { case_decide; [apply fmap_Some_1 in Hso as (so' & Hso & _)|]; by eapply Hk. }
    rewrite Hs. case_bool_decide; by eexists.
  - rewrite Unsubscribe_subs. case_decide as E; [intros (so' & _ & ->)%fmap_Some_1; done|].
    intros Hso Ho. apply elem_of_difference. split; [by eapply Hl|]. intros ->%elem_of_singleton. done.
Qed.

Lemma insert_socket_ok k so h : hub_ok h → is_Some (bus_heap (hb_bus h) !! k) →
  (is_open so → k ∈ bus_subs (hb_bus h)) → ∀ a, hub_ok (mkHub (hb_bus h) a (<[k := so]> (hb_sockets h))).
Proof.
  intros [Hb Hk Hl] Hs Ho a. split; [exact Hb| |]; intros k' so'; cbn [hb_sockets hb_bus]; rewrite lookup_insert;
    (case_decide as E; [subst|by eauto]); by intros [= <-].
Qed.

Lemma set_auth_ok a h : hub_ok h → hub_ok (set_auth a h).
Proof. intros [Hb Hk Hl]. by split. Qed.

Lemma publish_ok env h : hub_ok h → hub_ok (mkHub (Publish env (hb_bus h)) (hb_auth h) (hb_sockets h)).
Proof.
  intros [Hb Hk Hl]. split; [by apply Publish_ok| |exact Hl]. intros k so Hso. cbn [hb_bus].
  rewrite Publish_lookup. destruct (Hk k so Hso) as [s ->]. by eexists.
Qed.

Lemma take_ok k sub h : hub_ok h → bus_heap (hb_bus h) !! k = Some sub → ∀ env sub', take sub = Some (env, sub') →
  hub_ok (mkHub (mkBus (<[k := sub']> (bus_heap (hb_bus h))) (bus_subs (hb_bus h))) (hb_auth h) (hb_sockets h)).
Proof.
  intros [Hb Hk Hl] Hs env sub' Ht.
  assert (sub_closed sub' = sub_closed sub) as Hc.
  { unfold take in Ht. destruct (sub_ch sub); [done|]. by injection Ht as _ <-. }
  split; [|intros k' so Hso; cbn [hb_bus bus_heap]; rewrite lookup_insert_is_Some; destruct (decide (k = k')); eauto|exact Hl].
  intros k' Hk'. cbn [hb_bus bus_heap bus_subs] in *. destruct (Hb k' Hk') as (s & E & Ec).
  destruct (decide (k = k')) as [->|Hne].
  - exists sub'. rewrite lookup_insert_eq. rewrite E in Hs. injection Hs as ->. by rewrite Hc.
  - exists s. by rewrite lookup_insert_ne.
Qed.

Lemma subscribe_ok h a : hub_ok h → hub_ok (mkHub (Subscribe subscriberBuffer (hb_bus h)).2 a (hb_sockets h)).
Proof.
  intros [Hb Hk Hl]. split; [by apply Subscribe_ok| |]; intros k so Hso; cbn [hb_bus].
  - unfold Subscribe. cbn [snd bus_heap]. rewrite lookup_insert_is_Some. destruct (decide (fresh (dom (bus_heap (hb_bus h))) = k)); eauto.
  - intros Ho. unfold Subscribe. cbn [snd bus_subs]. apply elem_of_union_r. by eapply Hl.
Qed.

(** A step is sound when it keeps the invariant and moves every socket as [socket_moves] says. *)
Definition sound_step (e : hub_event) (h h' : Hub) : Prop :=
  hub_ok h' ∧ ∀ k, socket_moves h e k (hb_sockets h !! k) (hb_sockets h' !! k).

Lemma moves_same h e k : (∀ so a, hb_sockets h !! k = Some so → is_open so → e ≠ Tick k a) →
  socket_moves h e k (hb_sockets h !! k) (hb_sockets h !! k).
Proof. intros Ht. destruct (hb_sockets h !! k) as [so|] eqn:E; [|constructor]. apply moves_stays. eauto. Qed.

Lemma sound_same e h h' : hub_ok h' → hb_sockets h' = hb_sockets h → (∀ k a, e ≠ Tick k a) → sound_step e h h'.
Proof. intros Hok Hs Ht. split; [exact Hok|]. intros k. rewrite Hs. apply moves_same. eauto. Qed.

(** Only the socket of the step moves. *)
Lemma sound_at e h h' k so : hub_ok h' → hb_sockets h !! k = Some so →
  (∀ k', k' ≠ k → hb_sockets h' !! k' = hb_sockets h !! k') → (∀ k' a, e = Tick k' a → k' = k) →
  socket_moves h e k (Some so) (hb_sockets h' !! k) → sound_step e h h'.
Proof.
  intros Hok Hso Hother Ht Hm. split; [exact Hok|]. intros k'. destruct (decide (k' = k)) as [->|Hne].
  - by rewrite Hso.
  - rewrite Hother by done. apply moves_same. intros _ a _ _ E. by apply Hne, (Ht k' a).
Qed.

Lemma sound_finish e h h1 k so so1 r : hub_ok h1 → hb_sockets h !! k = Some so → is_open so →
  hb_sockets h1 !! k = Some so1 → (∀ k', k' ≠ k → hb_sockets h1 !! k' = hb_sockets h !! k') →
  so_session so1 = so_session so → so_sent so1 = so_sent so → (∀ k' a, e = Tick k' a → k' = k) →
  sound_step e h (finish k r h1).
Proof.
  intros Hok Hso Ho Hso1 Hother Hss Hst Ht. apply (sound_at e h _ k so); [by apply finish_ok|done| |done|].
  - intros k' Hne. rewrite finish_lookup, decide_False by congruence. by apply Hother.
  - rewrite finish_lookup, decide_True by done. rewrite Hso1. by apply (moves_closes _ _ _ _ _ r).
Qed.

Lemma connect_sound sid o a w v t h : hub_ok h → sound_step (Connect sid o a w v t) h (connect sid o a w v t h).
Proof.
  intros Hok. unfold connect. destruct (socket_principal sid (hb_auth h)) as [[p|er] au] eqn:Er;
    [|by apply sound_same; [apply set_auth_ok|..]].
  destruct o; cbn [negb]; [|by apply sound_same; [apply set_auth_ok|..]].
  destruct a; cbn [negb]; [|by apply sound_same; [apply set_auth_ok|..]].
  pose proof (Subscribe_fresh subscriberBuffer (hb_bus h)) as Hf. pose proof (subscribe_ok h au Hok) as Hsok.
  assert (is_Some (bus_heap (Subscribe subscriberBuffer (hb_bus h)).2 !! (Subscribe subscriberBuffer (hb_bus h)).1)
    ∧ (Subscribe subscriberBuffer (hb_bus h)).1 ∈ bus_subs (Subscribe subscriberBuffer (hb_bus h)).2) as [Hin Hsub].
  { unfold Subscribe. cbn [fst snd bus_heap bus_subs]. rewrite lookup_insert_eq. split; [by eexists|].
    by apply elem_of_union_l, elem_of_singleton. }
  destruct (Subscribe subscriberBuffer (hb_bus h)) as [k b] eqn:Es. cbn [fst snd] in *.
  assert (hb_sockets h !! k = None) as Hk.
  { destruct (hb_sockets h !! k) as [so|] eqn:E; [|done]. destruct (hub_known _ Hok k so E) as [s Hs]. by rewrite Hf in Hs. }
  pose proof (λ so, insert_socket_ok k so _ Hsok Hin (λ _, Hsub) au) as Hiok. cbn [hb_bus hb_sockets] in Hiok.
  assert ((socket_principal sid (hb_auth h)).1 = Done p) as Hp by (by rewrite Er).
  destruct w; (split; [by repeat apply finish_ok|]); intros k'; rewrite ?finish_lookup; cbn [hb_sockets]; rewrite lookup_insert;
    case_decide as E; try (apply moves_same; congruence); subst k'; rewrite Hk.
  - by eapply (moves_opens _ _ _ sid p [hello v t] None).
  - by eapply (moves_opens _ _ _ sid p [] (Some Gone)).
Qed.

Lemma deliver_sound k w so h : hub_ok h → hb_sockets h !! k = Some so → is_open so →
  sound_step (Deliver k w) h (deliver k w so h).
Proof.
  intros Hok Hso Ho. unfold deliver. destruct (bus_heap (hb_bus h) !! k) as [sub|] eqn:Es; cbn [mbind option_bind];
    [|by apply sound_same]. destruct (take sub) as [[env sub']|] eqn:Et; [|by apply sound_same].
  pose proof (take_ok k sub h Hok Es env sub' Et) as Hok1.
  destruct (MayReceive (so_principal so) env) eqn:Hm; cbn [negb]; [|by apply sound_same].
  destruct w.
  - eapply (sound_at _ h _ k so); [|done| |done|].
    + apply insert_socket_ok; [exact Hok1|by eapply (hub_known _ Hok1)|]. intros _. by eapply (hub_listens _ Hok).
    + intros k' Hne. cbn [hb_sockets]. by rewrite lookup_insert_ne.
    + cbn [hb_sockets]. rewrite lookup_insert_eq. by apply moves_sends.
  - by eapply (sound_finish _ _ _ _ so so).
Qed.

Lemma tick_sound k a so h : hub_ok h → hb_sockets h !! k = Some so → is_open so →
  sound_step (Tick k a) h (tick k a so h).
Proof.
  intros Hok Hso Ho. unfold tick. destruct (socket_principal (so_session so) (hb_auth h)) as [[p|er] au] eqn:Er.
  - assert (hub_ok (mkHub (hb_bus h) au (<[k := with_principal p so]> (hb_sockets h)))) as Hok1.
    { apply insert_socket_ok; [done|by eapply hub_known|]. intros _. by eapply (hub_listens _ Hok). }
    assert (∀ k', k' ≠ k → <[k := with_principal p so]> (hb_sockets h) !! k' = hb_sockets h !! k') as Hne
      by (intros; by rewrite lookup_insert_ne).
    destruct a.
    + eapply (sound_at _ h _ k so); [done..|congruence|]. cbn [hb_sockets]. rewrite lookup_insert_eq.
      eapply moves_renews; [done..|]. by rewrite Er.
    + eapply (sound_finish _ _ _ _ so (with_principal p so)); [done..| | | | |congruence]; [|done..].
      apply lookup_insert_eq.
  - eapply (sound_finish _ _ _ _ so so); [by apply set_auth_ok|done..|congruence].
Qed.

Lemma in_loop_sound e k h f : hub_ok h → (∀ k' a, e = Tick k' a → k' = k) →
  (∀ so, hb_sockets h !! k = Some so → is_open so → sound_step e h (f so)) → sound_step e h (in_loop k h f).
Proof.
  intros Hok Ht Hf. unfold in_loop. destruct (hb_sockets h !! k) as [so|] eqn:E.
  - destruct (so_closed so) eqn:Ec; [|by apply Hf]. split; [exact Hok|]. intros k'. apply moves_same.
    intros so' a Hso' Ho E'. rewrite (Ht k' a E') in Hso'. rewrite E in Hso'. injection Hso' as ->.
    unfold is_open in Ho. congruence.
  - split; [exact Hok|]. intros k'. apply moves_same. intros so' a Hso' _ E'. rewrite (Ht k' a E') in Hso'. congruence.
Qed.

Lemma hub_step_sound e h : hub_ok h → sound_step e h (hub_step e h).
Proof.
  intros Hok. destruct e as [sid o a w v t|env|k w|k|k a|k|op|]; cbn [hub_step].
  - by apply connect_sound.
  - apply sound_same; [by apply publish_ok|done..].
  - apply in_loop_sound; [done..|]. intros so. by apply deliver_sound.
  - apply in_loop_sound; [done..|]. intros so Hso Ho. unfold overflow.
    destruct (bus_heap (hb_bus h) !! k) as [sub|]; [|by apply sound_same].
    destruct (sub_dropped sub); [|by apply sound_same]. by eapply (sound_finish _ _ _ _ so so).
  - apply in_loop_sound; [done|congruence|]. intros so. by apply tick_sound.
  - apply in_loop_sound; [done..|]. intros so Hso Ho. by eapply (sound_finish _ _ _ _ so so).
  - apply sound_same; [by apply set_auth_ok|done..].
  - apply sound_same; [by apply set_auth_ok|done..].
Qed.

Lemma hub_run_ok es h : hub_ok h → hub_ok (hub_run es h).
Proof.
  intros Hok. induction es as [|e es IH] using rev_ind; [exact Hok|]. rewrite hub_run_snoc. by apply hub_step_sound.
Qed.

(** ** Under whose authority a frame is sent *)

(** What a socket's session was resolved to: the session is live, and its credential is there. *)
Definition entitles (s : Auth) (sid udid : string) : Prop :=
  ∃ p, live_session s sid p ∧ principal_scope (au_db s) p = Some udid.

Lemma socket_principal_finds sid s :
  wp (socket_principal sid) (λ r _, ∀ p, r = Done p → entitles s sid (ScopeUDID p)) s.
Proof.
  unfold socket_principal. apply wp_try.
  eapply wp_mono; [exact (wp_stays _ _ _ s (leaves_Authenticate _) (Authenticate_live sid s))|].
  intros [sess|e] s1 [Hlive Hs1]; [|done]. specialize (Hlive sess eq_refl). apply wp_try.
  eapply wp_mono; [by apply (ScopeOf_finds (au_db s))|]. intros [u|e] s2 Hu; [|done].
  specialize (Hu u eq_refl). destruct (String.eqb_spec u "") as [->|Hne]; apply wp_done; intros p [= <-];
    by exists (PrincipalOf sess).
Qed.

(** The handshake and the ticks of a socket resolve its session. *)
Definition resolves (k : nat) (sid : string) (e : hub_event) : Prop :=
  match e with Connect sid' _ _ _ _ _ => sid' = sid | Tick k' _ => k' = k | _ => False end.

Definition authority (es : list hub_event) (h : Hub) (k : nat) (sid udid : string) : Prop :=
  ∃ es1 e es2, es = es1 ++ e :: es2 ∧ resolves k sid e ∧ (∀ a, Tick k a ∉ es2) ∧
    entitles (hb_auth (hub_run es1 h)) sid udid.

Definition may_hear (udid : string) (env : Envelope) : Prop :=
  udid = ""%string ∨ ev_Type env ∈ global_events ∨ (ev_Type env ∈ device_events ∧ udidOf (ev_Data env) = udid).

Lemma MayReceive_may_hear p env : MayReceive p env = true → may_hear (ScopeUDID p) env.
Proof.
  intros Hm. destruct (decide (ScopeUDID p = ""%string)) as [E|Hne]; [by left|right].
  by apply MayReceive_scoped; [|destruct p].
Qed.

Definition frame_ok (es : list hub_event) (h : Hub) (k : nat) (sid : string) (env : Envelope) : Prop :=
  (∃ v t, env = hello v t) ∨
  ∃ es1 es2 udid, es = es1 ++ Deliver k true :: es2 ∧ authority es1 h k sid udid ∧ may_hear udid env.

Lemma authority_snoc es e h k sid u : (∀ a, e ≠ Tick k a) → authority es h k sid u → authority (es ++ [e]) h k sid u.
Proof.
  intros Hne (es1 & e1 & es2 & -> & Hr & Ht & Hen). exists es1, e1, (es2 ++ [e]).
  split; [by rewrite <-app_assoc|]. split; [done|]. split; [|done].
  intros a [Hin|Hin%list_elem_of_singleton]%elem_of_app; [by eapply Ht|by eapply Hne].
Qed.

Lemma authority_new es e h k sid p : resolves k sid e →
  (socket_principal sid (hb_auth (hub_run es h))).1 = Done p → authority (es ++ [e]) h k sid (ScopeUDID p).
Proof.
  intros Hr Hp. exists es, e, []. split; [done|]. split; [done|]. split; [intros a; apply not_elem_of_nil|].
  by apply (socket_principal_finds sid (hb_auth (hub_run es h))).
Qed.

Lemma frame_ok_snoc es e h k sid env : frame_ok es h k sid env → frame_ok (es ++ [e]) h k sid env.
Proof.
  intros [Hh|(es1 & es2 & u & -> & Hau & Hm)]; [by left|right]. exists es1, (es2 ++ [e]), u.
  by rewrite <-app_assoc.
Qed.

(** What holds of every socket of a run. *)
Definition accountable (es : list hub_event) (h : Hub) (k : nat) (so : Socket) : Prop :=
  (is_open so → authority es h k (so_session so) (ScopeUDID (so_principal so))) ∧
  (∀ env, env ∈ so_sent so → frame_ok es h k (so_session so) env).

Lemma run_accountable es a k so : hb_sockets (hub_run es (new_hub a)) !! k = Some so →
  accountable es (new_hub a) k so.
Proof.
  revert so. induction es as [|e es IH] using rev_ind; intros so.
  { unfold hub_run. cbn [fold_left new_hub hb_sockets]. by rewrite lookup_empty. }
  rewrite hub_run_snoc.
  destruct (hub_step_sound e _ (hub_run_ok es _ (new_hub_ok a))) as [_ Hm].
  specialize (Hm k). intros Hso. rewrite Hso in Hm.
  inversion Hm as [|so0 Ht E0|sid p fs c o ac w v t -> Hp -> -> E0|so0 env Ho -> Hr E0|so0 p b Ho -> Hp E0|so0 so1 r Ho Hs Hf Hc E0];
    subst so; clear Hm; try symmetry in E0; try (destruct (IH _ E0) as [Hau Hfs]).
  - split; [intros Ho; apply authority_snoc; eauto|]. intros env He. by apply frame_ok_snoc, Hfs.
  - split.
    + intros _. by apply authority_new.
    + cbn [so_sent so_session]. destruct w; [|by intros env ?%elem_of_nil].
      intros env ->%list_elem_of_singleton. left. by exists v, t.
  - split; [intros _; by apply authority_snoc, Hau|]. cbn [sent_frame so_sent so_session].
    intros env' [Hin| ->%list_elem_of_singleton]%elem_of_app; [by apply frame_ok_snoc, Hfs|].
    right. exists es, [], (ScopeUDID (so_principal so0)). split; [done|]. split; [by apply Hau|by apply MayReceive_may_hear].
  - split; [intros _; by apply authority_new|]. intros env He. by apply frame_ok_snoc, Hfs.
  - split; [unfold is_open; congruence|]. rewrite Hf, Hs. intros env He. by apply frame_ok_snoc, Hfs.
Qed.

(** C10: A socket is told nothing beyond its authority.  In whatever order sockets open, events are
    published, frames go out, sessions end and credentials change, every frame that a socket has
    received is the first one ([hello]), or was sent under the latest resolution of its session,
    with no tick of the socket in between: the session was live then, its credential was in the
    database, and either it was an admin's, or the frame is a global event, or an event of the very
    device that the credential is confined to. *)
Theorem frames_are_authorised es a k so env :
  hb_sockets (hub_run es (new_hub a)) !! k = Some so → env ∈ so_sent so →
  (∃ version t, env = hello version t) ∨
  ∃ es1 e es2 es3 udid,
    es = es1 ++ e :: es2 ++ Deliver k true :: es3 ∧ resolves k (so_session so) e ∧ (∀ b, Tick k b ∉ es2) ∧
    entitles (hb_auth (hub_run es1 (new_hub a))) (so_session so) udid ∧ may_hear udid env.
Proof.
  intros Hso He. destruct (run_accountable es a k so Hso) as [_ Hfs].
  destruct (Hfs env He) as [Hh|(es1 & es2 & u & -> & (es0 & e & es3 & -> & Hr & Ht & Hen) & Hm)]; [by left|right].
  exists es0, e, es3, es2, u. by rewrite <-app_assoc.
Qed.

(** A handler that has returned is not heard of again. *)
Lemma closed_stays es h k so r : hub_ok h → hb_sockets h !! k = Some so → so_closed so = Some r →
  hb_sockets (hub_run es h) !! k = Some so.
Proof.
  intros Hok Hso Hc. induction es as [|e es IH] using rev_ind; [exact Hso|]. rewrite hub_run_snoc.
  destruct (hub_step_sound e _ (hub_run_ok es _ Hok)) as [_ Hm]. specialize (Hm k). rewrite IH in Hm.
  inversion Hm as [|? ? |?|? ? Ho|? ? ? Ho|? ? ? Ho]; subst; [congruence|unfold is_open in Ho; congruence..].
Qed.

(** An ended session is cut off at the next tick.  When a socket ticks and its session is no longer
    live, or its credential is gone, the handler closes the connection, and whatever happens
    afterwards, nothing more is sent to it. *)
Theorem ended_session_silenced es es' a k so answered :
  let h := hub_run es (new_hub a) in
  hb_sockets h !! k = Some so → is_open so →
  (∀ udid, ¬ entitles (hb_auth h) (so_session so) udid) →
  ∃ so', hb_sockets (hub_run (Tick k answered :: es') h) !! k = Some so' ∧
    so_sent so' = so_sent so ∧ so_closed so' = Some SessionEnded.
Proof.
  intros h Hso Ho Hen. pose proof (hub_run_ok es _ (new_hub_ok a)) as Hok. fold h in Hok.
  exists (close_socket SessionEnded so). split; [|done].
  change (hub_run (Tick k answered :: es') h) with (hub_run es' (hub_step (Tick k answered) h)).
  destruct (hub_step_sound (Tick k answered) h Hok) as [Hok' _].
  eapply closed_stays; [exact Hok'| |done]. cbn [hub_step]. unfold in_loop. rewrite Hso.
  unfold is_open in Ho. rewrite Ho. unfold tick.
  pose proof (socket_principal_finds (so_session so) (hb_auth h)) as Hp. unfold wp in Hp.
  destruct (socket_principal (so_session so) (hb_auth h)) as [[p|er] au]; cbn [fst snd] in *.
  - by destruct (Hen (ScopeUDID p) (Hp p eq_refl)).
  - rewrite finish_lookup, decide_True by done. cbn [hb_sockets]. by rewrite Hso.
Qed.

(** ** What a socket hears, and in which order *)

Abbreviation sub_of h k := (bus_heap (hb_bus h) !! k).

Lemma finish_sub k r h k' : k ≠ k' → sub_of (finish k r h) k' = sub_of h k'.
Proof.
  intros Hne. unfold finish, Unsubscribe. cbn [hb_bus]. case_bool_decide; [|done]. cbn [bus_heap].
  by rewrite lookup_alter_ne.
Qed.

(** The step of an open socket and its subscription. *)
Inductive sub_moves (e : hub_event) (k : nat) (s : Subscription) (so : Socket) :
    Subscription → Socket → Prop :=
  | sub_still so' : (∀ env, e ≠ Published env) → so_sent so' = so_sent so → sub_moves e k s so s so'
  | sub_offered env : e = Published env → sub_moves e k s so (offer env s) so
  | sub_taken env s' so' w : e = Deliver k w → take s = Some (env, s') →
      so_sent so' = so_sent so ++ (if MayReceive (so_principal so) env then [env] else []) →
      sub_moves e k s so s' so'.

Lemma connect_sub sid o a w v t h k : is_Some (sub_of h k) → sub_of (connect sid o a w v t h) k = sub_of h k.
Proof.
  intros [s Hs]. unfold connect. destruct (socket_principal sid (hb_auth h)) as [[p|er] au]; [|done].
  destruct o; cbn [negb]; [|done]. destruct a; cbn [negb]; [|done].
  pose proof (Subscribe_fresh subscriberBuffer (hb_bus h)) as Hf. unfold Subscribe in *. cbn [fst] in Hf.
  assert (fresh (dom (bus_heap (hb_bus h))) ≠ k) as Hne by (intros E; rewrite E in Hf; congruence).
  destruct w; [cbn [hb_bus bus_heap]|rewrite finish_sub by done; cbn [hb_bus bus_heap]]; by rewrite lookup_insert_ne.
Qed.

Lemma in_loop_other k k' h (f : Socket → Hub) : k ≠ k' →
  (∀ so, hb_sockets h !! k = Some so → is_open so → sub_of (f so) k' = sub_of h k') →
  sub_of (in_loop k h f) k' = sub_of h k'.
Proof.
  intros Hne Hf. unfold in_loop. destruct (hb_sockets h !! k) as [so|] eqn:E; [|done].
  destruct (so_closed so) eqn:Ec; [done|]. by apply Hf.
Qed.

Lemma other_loop_sub e h k : (match e with Deliver k' _ | Tick k' _ | Overflow k' | Leave k' => k' ≠ k | _ => False end) →
  sub_of (hub_step e h) k = sub_of h k.
Proof.
  intros Hne. destruct e as [sid o a w v t|env|k' w|k'|k' a|k'|op|]; try done; cbn [hub_step];
    (apply in_loop_other; [done|]; intros so Hso Ho).
  - unfold deliver. destruct (sub_of h k' ≫= take) as [[env sub]|]; [|done].
    destruct (negb _); [|destruct w; [|rewrite finish_sub by done]]; cbn [hb_bus bus_heap]; by rewrite lookup_insert_ne.
  - unfold overflow. destruct (sub_of h k') as [sub|]; [|done]. destruct (sub_dropped sub); [|done]. by rewrite finish_sub.
  - unfold tick. destruct (socket_principal (so_session so) (hb_auth h)) as [[p|er] au]; [|by rewrite finish_sub].
    destruct a; [done|]. by rewrite finish_sub.
  - by rewrite finish_sub.
Qed.

Lemma own_loop_sub e h k so so' s : hb_sockets h !! k = Some so → is_open so → sub_of h k = Some s →
  (match e with Deliver k' _ | Tick k' _ | Overflow k' | Leave k' => k' = k | _ => False end) →
  hb_sockets (hub_step e h) !! k = Some so' → is_open so' →
  ∃ s', sub_of (hub_step e h) k = Some s' ∧ sub_moves e k s so s' so'.
Proof.
  intros Hso Ho Hs He. assert (∀ r h1 x, hb_sockets (finish k r h1) !! k = Some x → is_open x → False) as Hfin.
  { intros r h1 x. rewrite finish_lookup, decide_True by done. by intros (y & _ & ->)%fmap_Some_1. }
  destruct e as [| |k' w|k'|k' a|k'| |]; try done; subst k'; cbn [hub_step]; unfold in_loop; rewrite Hso;
    unfold is_open in Ho; rewrite Ho; intros Hso' Ho'.
  - unfold deliver in *. rewrite Hs in *. cbn [mbind option_bind] in *.
    destruct (take s) as [[env sub]|] eqn:Et; [|exists s; split; [done|apply sub_still; [done|congruence]]].
    exists sub. destruct (MayReceive (so_principal so) env) eqn:Em; cbn [negb] in *; [destruct w; [|by destruct (Hfin _ _ _ Hso' Ho')]|];
      cbn [hb_bus hb_sockets bus_heap] in *; (split; [by rewrite lookup_insert_eq|]).
    + rewrite lookup_insert_eq in Hso'. injection Hso' as <-. eapply sub_taken; [done..|]. by rewrite Em.
    + eapply sub_taken; [done..|]. rewrite Em, app_nil_r. congruence.
  - unfold overflow in *. rewrite Hs in *. destruct (sub_dropped s); [by destruct (Hfin _ _ _ Hso' Ho')|].
    exists s. split; [done|]. apply sub_still; [done|congruence].
  - unfold tick in *. destruct (socket_principal (so_session so) (hb_auth h)) as [[p|er] au];
      [|by destruct (Hfin _ _ _ Hso' Ho')]. destruct a; [|by destruct (Hfin _ _ _ Hso' Ho')].
    cbn [hb_sockets hb_bus] in *. rewrite lookup_insert_eq in Hso'. injection Hso' as <-.
    exists s. split; [done|]. by apply sub_still.
  - by destruct (Hfin _ _ _ Hso' Ho').
Qed.

(** Only a delivery writes. *)
Lemma quiet_sent h e k so so' : hub_ok h → hb_sockets h !! k = Some so →
  hb_sockets (hub_step e h) !! k = Some so' → e ≠ Deliver k true → so_sent so' = so_sent so.
Proof.
  intros Hok Hso Hso' Hne. destruct (hub_step_sound e h Hok) as [_ Hm]. specialize (Hm k).
  rewrite Hso, Hso' in Hm. by inversion Hm.
Qed.

Lemma hub_step_sub e h k so so' s : hub_ok h → hb_sockets h !! k = Some so → is_open so → sub_of h k = Some s →
  hb_sockets (hub_step e h) !! k = Some so' → is_open so' →
  ∃ s', sub_of (hub_step e h) k = Some s' ∧ sub_moves e k s so s' so'.
Proof.
  intros Hok Hso Ho Hs Hso' Ho'.
  assert (∀ k', (∀ env, e ≠ Published env) → e ≠ Deliver k true → sub_of (hub_step e h) k = sub_of h k →
    k' = k → ∃ s', sub_of (hub_step e h) k = Some s' ∧ sub_moves e k s so s' so') as Hstill.
  { intros _ Hp Hd E _. exists s. split; [congruence|]. apply sub_still; [done|]. by eapply quiet_sent. }
  destruct e as [sid o a w v t|env|k' w|k'|k' a|k'|op|].
  - apply (Hstill k); [done..| |done]. cbn [hub_step]. apply connect_sub. by eexists.
  - exists (offer env s). cbn [hub_step hb_bus hb_sockets] in *. rewrite Publish_lookup, Hs.
    assert (k ∈ bus_subs (hb_bus h)) as Hin by (by eapply (hub_listens _ Hok)).
    cbn [fmap option_fmap option_map]. rewrite bool_decide_true by done. split; [done|].
    assert (so' = so) as -> by congruence. by eapply sub_offered.
  - destruct (decide (k' = k)) as [->|Hne]; [by eapply own_loop_sub|]. apply (Hstill k); [done|congruence| |done]. by apply other_loop_sub.
  - destruct (decide (k' = k)) as [->|Hne]; [by eapply own_loop_sub|]. apply (Hstill k); [done..| |done]. by apply other_loop_sub.
  - destruct (decide (k' = k)) as [->|Hne]; [by eapply own_loop_sub|]. apply (Hstill k); [done..| |done]. by apply other_loop_sub.
  - destruct (decide (k' = k)) as [->|Hne]; [by eapply own_loop_sub|]. apply (Hstill k); [done..| |done]. by apply other_loop_sub.
  - by apply (Hstill k).
  - by apply (Hstill k).
Qed.

(** The subscription of a socket that has just opened. *)
Lemma opened_sub sid o a w v t h k so : hub_ok h → hb_sockets h !! k = None →
  hb_sockets (connect sid o a w v t h) !! k = Some so →
  sub_of (connect sid o a w v t h) k = Some (mkSub 64 [] false false) ∨ ¬ is_open so.
Proof.
  intros Hok Hk. unfold connect. destruct (socket_principal sid (hb_auth h)) as [[p|er] au]; [|cbn [hb_sockets]; congruence].
  destruct o; cbn [negb]; [|cbn [hb_sockets]; congruence]. destruct a; cbn [negb]; [|cbn [hb_sockets]; congruence].
  unfold Subscribe. set (n := fresh _). destruct w; rewrite ?finish_lookup; cbn [hb_sockets hb_bus bus_heap]; rewrite lookup_insert;
    case_decide as E; rewrite ?Hk; try done; subst k.
  - left. apply lookup_insert_eq.
  - intros [= <-]. by right.
Qed.

Definition published (es : list hub_event) : list Envelope :=
  omap (λ e, match e with Published env => Some env | _ => None end) es.

Lemma published_snoc es e : published (es ++ [e]) =
  published es ++ (match e with Published env => [env] | _ => [] end).
Proof. unfold published. rewrite omap_app. f_equal. by destruct e. Qed.

Lemma published_quiet es e : (∀ env, e ≠ Published env) → published (es ++ [e]) = published es.
Proof. intros He. rewrite published_snoc. destruct e; try apply app_nil_r. by destruct (He env). Qed.

(** The latest resolution of a socket's principal: its own handshake, or its latest tick. *)
Definition resolves_own (es : list hub_event) (h : Hub) (k : nat) (sid : string) (e : hub_event) : Prop :=
  match e with
  | Connect sid' _ _ _ _ _ => sid' = sid ∧ hb_sockets (hub_run es h) !! k = None ∧
                              is_Some (hb_sockets (hub_run (es ++ [e]) h) !! k)
  | Tick k' _ => k' = k
  | _ => False
  end.
Definition resolved (es : list hub_event) (h : Hub) (k : nat) (sid : string) (p : Principal) : Prop :=
  ∃ es1 e es2, es = es1 ++ e :: es2 ∧ resolves_own es1 h k sid e ∧ (∀ a, Tick k a ∉ es2) ∧
    (socket_principal sid (hb_auth (hub_run es1 h))).1 = Done p.

Lemma resolved_snoc es e h k sid p : (∀ a, e ≠ Tick k a) → resolved es h k sid p → resolved (es ++ [e]) h k sid p.
Proof.
  intros Hne (es1 & e1 & es2 & -> & Hr & Ht & Hp). exists es1, e1, (es2 ++ [e]).
  split; [by rewrite <-app_assoc|]. split; [done|]. split; [|done].
  intros a [Hin|Hin%list_elem_of_singleton]%elem_of_app; [by eapply Ht|by eapply Hne].
Qed.

Lemma resolved_new es e h k sid p : resolves_own es h k sid e →
  (socket_principal sid (hb_auth (hub_run es h))).1 = Done p → resolved (es ++ [e]) h k sid p.
Proof. intros Hr Hp. exists es, e, []. do 2 (split; [done|]). split; [intros a; apply not_elem_of_nil|done]. Qed.

Lemma run_resolved es a k so : hb_sockets (hub_run es (new_hub a)) !! k = Some so → is_open so →
  resolved es (new_hub a) k (so_session so) (so_principal so).
Proof.
  revert so. induction es as [|e es IH] using rev_ind; intros so.
  { unfold hub_run. cbn [fold_left new_hub hb_sockets]. by rewrite lookup_empty. }
  intros Hso Hopen. pose proof Hso as Hso1. rewrite hub_run_snoc in Hso1.
  destruct (hub_step_sound e _ (hub_run_ok es _ (new_hub_ok a))) as [_ Hm]. specialize (Hm k). rewrite Hso1 in Hm.
  inversion Hm as [|so0 Ht E0|sid p fs c o ac w v t He Hp Hf Hc E0|so0 env Ho He Hr E0|so0 p b Ho He Hp E0|so0 so1 r Ho Hs Hf Hc E0];
    subst so; clear Hm; symmetry in E0.
  - apply resolved_snoc; [eauto|by apply IH].
  - subst e. apply resolved_new; [|done]. split; [done|]. split; [done|by eexists].
  - apply resolved_snoc; [by subst e|by apply (IH so0)].
  - subst e. by apply resolved_new.
  - unfold is_open in Hopen. congruence.
Qed.

(** At one of its deliveries the socket took [env], its principal resolved to [p]. *)
Definition heard_as (es : list hub_event) (h : Hub) (k : nat) (sid : string) (pe : Principal * Envelope) : Prop :=
  ∃ es1 w es2, es = es1 ++ Deliver k w :: es2 ∧ resolved es1 h k sid pe.1 ∧
    fst <$> (sub_of (hub_run es1 h) k ≫= take) = Some pe.2.

Lemma heard_as_snoc es e h k sid heard :
  Forall (heard_as es h k sid) heard → Forall (heard_as (es ++ [e]) h k sid) heard.
Proof.
  intros Hf. eapply Forall_impl; [exact Hf|]. intros pe (es1 & w & es2 & -> & Hr). exists es1, w, (es2 ++ [e]). by rewrite <-app_assoc.
Qed.

(** What a socket has heard is what was published since it opened, in order, without what waits in
    its buffer; what it was sent is what it might receive of that, as its session was resolved to. *)
Definition in_order (es : list hub_event) (h : Hub) (k : nat) (so : Socket) : Prop :=
  ∃ es1 o a w v t es2 heard s,
    es = es1 ++ Connect (so_session so) o a w v t :: es2 ∧ hb_sockets (hub_run es1 h) !! k = None ∧
    sub_of (hub_run es h) k = Some s ∧
    (sub_dropped s = false → published es2 = heard.*2 ++ sub_ch s) ∧
    Forall (heard_as es h k (so_session so)) heard ∧
    so_sent so = hello v t :: (filter (λ pe, MayReceive pe.1 pe.2 = true) heard).*2.

Lemma same_session e h k so so' : hub_ok h → hb_sockets h !! k = Some so →
  hb_sockets (hub_step e h) !! k = Some so' → so_session so' = so_session so.
Proof.
  intros Hok Hso Hso'. destruct (hub_step_sound e h Hok) as [_ Hm]. specialize (Hm k).
  rewrite Hso, Hso' in Hm. by inversion Hm.
Qed.

Lemma in_order_step es e a k so so' : in_order es (new_hub a) k so →
  hb_sockets (hub_run es (new_hub a)) !! k = Some so → is_open so →
  hb_sockets (hub_run (es ++ [e]) (new_hub a)) !! k = Some so' → is_open so' → in_order (es ++ [e]) (new_hub a) k so'.
Proof.
  pose proof (hub_run_ok es _ (new_hub_ok a)) as Hok.
  intros (es1 & o & ac & w & v & t & es2 & heard & s & He & Hnone & Hs & Hpub & Hheard & Hsent) Hso Ho Hso' Ho'.
  rewrite hub_run_snoc in Hso'. pose proof (same_session e _ k so so' Hok Hso Hso') as Hsess.
  destruct (hub_step_sub e _ k so so' s Hok Hso Ho Hs Hso' Ho') as (s' & Hs' & Hm).
  assert (es ++ [e] = es1 ++ Connect (so_session so) o ac w v t :: es2 ++ [e]) as Hes by (rewrite He, <-app_assoc; done).
  unfold in_order. rewrite Hsess. rewrite hub_run_snoc.
  destruct Hm as [so' Hp Hst|env ->|env s' so' w' Hp Ht Hst].
  - exists es1, o, ac, w, v, t, (es2 ++ [e]), heard, s. do 3 (split; [done|]).
    split; [intros Hd; by rewrite published_quiet, (Hpub Hd)|]. split; [by apply heard_as_snoc|by rewrite Hst].
  - exists es1, o, ac, w, v, t, (es2 ++ [Published env]), heard, (offer env s). do 3 (split; [done|]).
    split; [|split; [by apply heard_as_snoc|done]].
    unfold offer. case_match; cbn [sub_dropped sub_ch]; [|done]. intros Hd. by rewrite published_snoc, (Hpub Hd), app_assoc.
  - exists es1, o, ac, w, v, t, (es2 ++ [e]), (heard ++ [(so_principal so, env)]), s'.
    do 3 (split; [done|]). split; [|split].
    + unfold take in Ht. destruct (sub_ch s) as [|env0 ch] eqn:Ech; [done|]. injection Ht as -> <-. cbn [sub_dropped sub_ch].
      intros Hd. by rewrite published_quiet, (Hpub Hd), fmap_app, <-app_assoc by (by subst e).
    + apply Forall_app. split; [by apply heard_as_snoc|]. apply Forall_singleton. exists es, w', [].
      split; [by subst e|]. split; [by apply run_resolved|]. rewrite Hs. cbn [mbind option_bind]. by rewrite Ht.
    + rewrite Hst, Hsent, filter_app, fmap_app. cbn [app]. f_equal. f_equal. rewrite filter_cons, filter_nil.
      cbn [fst snd]. by destruct (MayReceive (so_principal so) env).
Qed.

Lemma run_in_order es a k so : hb_sockets (hub_run es (new_hub a)) !! k = Some so → is_open so →
  in_order es (new_hub a) k so.
Proof.
  revert so. induction es as [|e es IH] using rev_ind; intros so.
  { unfold hub_run. cbn [fold_left new_hub hb_sockets]. by rewrite lookup_empty. }
  intros Hso Ho. pose proof (hub_run_ok es _ (new_hub_ok a)) as Hok.
  pose proof Hso as Hso1. rewrite hub_run_snoc in Hso1.
  destruct (hub_step_sound e _ Hok) as [_ Hm]. specialize (Hm k). rewrite Hso1 in Hm.
  destruct (hb_sockets (hub_run es (new_hub a)) !! k) as [so0|] eqn:E0.
  - assert (is_open so0) as Ho0.
    { inversion Hm as [|? ? |?|? ? Hx|? ? ? Hx|? ? ? Hx]; subst; done. }
    by eapply in_order_step; eauto.
  - inversion Hm as [| |sid p fs c o ac w v t He Hp Hf Hc E1| | |]; subst e so.
    cbn [hub_step] in Hso1. pose proof (opened_sub _ _ _ _ _ _ _ _ _ Hok E0 Hso1) as [Hs|Hn]; [|done].
    exists es, o, ac, w, v, t, [], [], (mkSub 64 [] false false). rewrite hub_run_snoc.
    do 2 (split; [done|]). split; [exact Hs|]. split; [done|]. split; [by apply Forall_nil|]. cbn [so_sent].
    destruct w; [done|]. by subst c.
Qed.

(** C18: A socket hears in order.  While a socket is open, what it has been sent is the first frame and
    then, of the events that it took, those that its principal might receive: the principal that its
    own session was resolved to at its handshake or at its latest tick before it took the event; and
    unless its buffer overflowed, the events that it took, followed by those that wait in the buffer,
    are exactly the events published since the handshake, in the order they were published. *)
Theorem socket_hears_in_order es a k so :
  hb_sockets (hub_run es (new_hub a)) !! k = Some so → is_open so →
  ∃ es1 o ac w v t es2 heard s,
    es = es1 ++ Connect (so_session so) o ac w v t :: es2 ∧ hb_sockets (hub_run es1 (new_hub a)) !! k = None ∧
    sub_of (hub_run es (new_hub a)) k = Some s ∧
    (sub_dropped s = false → published es2 = heard.*2 ++ sub_ch s) ∧
    Forall (heard_as es (new_hub a) k (so_session so)) heard ∧
    so_sent so = hello v t :: (filter (λ pe, MayReceive pe.1 pe.2 = true) heard).*2.
Proof. apply run_in_order. Qed.

End hub.
