(* ===== verification/GuardRuns.v ===== *)
(** * GuardRuns: the API on concrete inputs

    A toy environment and WebAuthn library that satisfy the laws, and an install on which a phone is
    enrolled: the ceremonies, what the session of the phone's holder reaches and what it does not,
    and what a socket of it hears. *)


From Stdlib Require Import String Ascii.
From S2P Require Import Prelude Domain Store Base64 Argon2 AuthErrors AuthStore Limiter Proofs Enrolment.
From S2P Require Import Net WebAuthn AuthStore AuthService Credentials Passkeys AuthSafety AuthProofs.
From S2P Require Import Proxy Routes Guards Events Sockets.

#[local] Open Scope quince_scope.

(** ** The world *)

#[local] Instance toy_env : AuthEnv := {|
  clock := λ n, Z.of_nat n * Second;
  rand_read := λ n len, pad_to (Z.to_nat len) (pretty n);
  ulid := λ n, "id" +:+ pretty n;
  IDKey := toy_key |}.

(** An authenticator's answer is a raw id and a user handle; a session is its allow-list. *)
Definition toy_validate (u : passkeyUser) (allowed : list string) (r : string * string) : outcome waCredential :=
  if bool_decide (r.2 = wu_handle u) && (bool_decide (allowed = []) || bool_decide (r.1 ∈ allowed)) then
    match filter (λ c, cr_ID c = r.1) (wu_creds u) with
    | c :: _ => Done c
    | [] => Refuse (ErrOther "unknown credential")
    end
  else Refuse (ErrOther "not this user, or not allowed").

#[local] Instance toy_library : WebAuthn := {|
  RP := string; SessionData := list string; Request := string * string; Options := list string;
  wa_New := λ c, Done (wc_RPID c);
  wa_BeginDiscoverableLogin := λ _ allowed, Done (allowed, allowed);
  wa_parse_assertion := λ r, Done r;
  wa_validate_login := λ _ u s r, toy_validate u s r;
  wa_BeginRegistration := λ _ _ excluded, Done (excluded, []);
  wa_FinishRegistration := λ _ _ _ r, Done (mkWaCredential r.1 "key" true false 0 "");
  wa_AllowedCredentialIDs := λ s, s |}.

Lemma toy_validate_exact u allowed r c : toy_validate u allowed r = Done c →
  r.2 = wu_handle u ∧ cr_ID c = r.1 ∧ r.1 ∈ cr_ID <$> wu_creds u ∧ (allowed = [] ∨ r.1 ∈ allowed).
Proof.
  unfold toy_validate. intros H. destruct (bool_decide_reflect (r.2 = wu_handle u)) as [Hh|]; [|done].
  destruct (bool_decide (allowed = []) || bool_decide (r.1 ∈ allowed)) eqn:Hall; [|done]. cbn [andb] in H.
  destruct (filter _ _) as [|c' cs] eqn:Hf; [done|]. injection H as ->.
  assert (c ∈ filter (λ c, cr_ID c = r.1) (wu_creds u)) as [Hid Hin]%list_elem_of_filter by (rewrite Hf; left).
  split; [done|]. split; [done|]. split; [apply list_elem_of_fmap; by exists c|].
  by apply orb_true_iff in Hall as [Ha%bool_decide_eq_true_1|Ha%bool_decide_eq_true_1]; [left|right].
Qed.

Lemma toy_law : webauthn_law toy_library.
Proof.
  split.
  - intros rp allowed o s Hb. by injection Hb as <- <-.
  - intros rp u s [raw h] c Hv. apply toy_validate_exact in Hv as (Hh & Hid & Hin & Hall).
    exists raw. cbn [fst snd] in *. subst h. done.
Qed.

#[local] Existing Instance some_order.
#[local] Existing Instance stable_sort.

Definition key_of {A} (r : outcome (A * string)) : string := match r with Done (_, k) => k | Refuse _ => "" end.
Definition token_of (r : outcome string) : string := match r with Done k => k | Refuse _ => "" end.

Definition here : string := "quince.lan".
Definition ip : string := "10.0.0.2".
Definition by_password (pw : string) : Presented := mkPresented pw "".
Definition by_proof (token : string) : Presented := mkPresented "" token.

(** A database that knows one device. *)
Definition phone : DeviceIdentityRow := mkIdentity "phone-udid" "Phone" "iPhone" "18.0" "yes" "on" "on" "" 0.
Definition fresh : Auth := NewService (with_identities <[di_UDID phone := phone]> empty_AuthDB).

Lemma fresh_rows : rows_ok (au_db fresh).
Proof. split; intros k x; simpl; by rewrite lookup_empty. Qed.

(** The handle of the admin's passkeys is the second draw: the salt of the password was the first. *)
Definition admin_handle : string := rand_read 1 32.

(** ** The password, a passkey, and the removal of the password *)

Definition claimed : Auth := auth_run [DoSetPassword "hunter2" ip] fresh.

Definition laptop_begin : auth_op := DoRegisterBegin (by_password "hunter2") here "s" ip.
Definition laptop_key : string := key_of (RegisterBegin (by_password "hunter2") here "s" ip claimed).1.
Definition laptop_ops : list auth_op :=
  [laptop_begin; DoRegisterFinish laptop_key "Laptop" here ("laptop"%string, admin_handle) 0].
Definition with_laptop : Auth := auth_run laptop_ops claimed.

Definition removal_key : string := key_of (BeginReauth here ip OpRemovePassword "" "s" with_laptop).1.
Definition removal_ops : list auth_op :=
  laptop_ops ++ [DoReauthBegin here ip OpRemovePassword "" "s";
                 DoReauthFinish removal_key here ip ("laptop"%string, admin_handle) "s"].
Definition proof_token : string :=
  token_of (FinishReauth removal_key here ip ("laptop"%string, admin_handle) "s"
    (auth_step (DoReauthBegin here ip OpRemovePassword "" "s") with_laptop)).1.

Lemma claimed_rows : rows_ok (au_db claimed).
Proof. apply auth_step_rows, fresh_rows. Qed.

Lemma claimed_way_in : way_in (au_db claimed).
Proof. left. apply (bool_decide_unpack _). vm_compute. exact I. Qed.

Definition overrun : list auth_op :=
  removal_ops ++ [DoRemovePassword (by_proof proof_token) here "s" ip;
    DoRemovePasskey (by_proof proof_token) "bGFwdG9w" here "s" ip; DoSetPassword "mine" "10.0.0.66"].

Lemma admin_keeps_a_way_in_witness : way_in (au_db (auth_run overrun claimed)) ∧
  ¬ has_password (au_db (auth_run overrun claimed)).
Proof.
  split.
  - refine (proj1 (admin_keeps_a_way_in overrun claimed _ _)); [exact claimed_rows|exact claimed_way_in].
  - apply (bool_decide_unpack _). vm_compute. exact I.
Defined.

Example password_keeps_itself :
  done_ok (RemovePassword (by_password "hunter2") here "s" ip (auth_run removal_ops claimed)).1 = false.
Proof. vm_compute. reflexivity. Qed.

Lemma removal_needs_another_credential_witness :
  ∃ c, proved_by_admin removal_ops claimed (by_proof proof_token) OpRemovePassword "" "s" c.
Proof.
  destruct (removal_needs_another_credential removal_ops claimed (by_proof proof_token) "" here "s" ip)
    as [_ H].
  - exact toy_law.
  - exact claimed_rows.
  - exact claimed_way_in.
  - vm_compute. reflexivity.
  - vm_compute. reflexivity.
  - apply H. vm_compute. reflexivity.
Defined.

(** ** An admin operation proved by a credential that is not the admin's

    The admin has a password only; the holder of the phone has a passkey confined to it.  The
    ceremony for [set_password] is begun in the admin's session: there is no admin passkey to allow,
    the allow-list is empty, and an empty allow-list admits the phone's passkey. *)

Definition minted : outcome (string * Enrolment) := (MintEnrolment (DeviceScope "phone-udid") claimed).1.
Definition enrol_secret : string := match minted with Done (token, _) => token | Refuse _ => "" end.
Definition invited : Auth := auth_step (DoMintEnrolment (DeviceScope "phone-udid")) claimed.
Definition enrol_key : string := key_of (BeginEnrolment here enrol_secret ip invited).1.
(** The handle that the phone's holder was given: the third draw. *)
Definition holder_handle : string := rand_read 2 32.
Definition enrolled : Auth := auth_run
  [DoEnrolBegin here enrol_secret ip;
   DoEnrolFinish enrol_key here enrol_secret ("phone"%string, holder_handle) 0 "" ip] invited.
Definition phone_id : string := EncodeToString RawURLEncoding "phone".

Definition stray_key : string := key_of (BeginReauth here ip OpSetPassword "" "s" enrolled).1.
Definition stray : Auth := auth_step (DoReauthBegin here ip OpSetPassword "" "s") enrolled.
Definition stray_proof : string :=
  token_of (FinishReauth stray_key here ip ("phone"%string, holder_handle) "s" stray).1.
Definition stray_minted : Auth :=
  auth_step (DoReauthFinish stray_key here ip ("phone"%string, holder_handle) "s") stray.

Theorem scoped_passkey_proves_set_password :
  (pk_ScopeUDID <$> ad_passkeys (au_db enrolled) !! phone_id) = Some (Some "phone-udid"%string) ∧
  (mp_subject <$> au_proofs stray_minted !! stray_proof) = Some (mkSubject false phone_id) ∧
  done_ok (ChangePassword (by_proof stray_proof) "changed" "s" ip stray_minted).1 = true.
Proof. split; [|split]; vm_compute; reflexivity. Qed.

(** ** Two removals that overlap

    Each of the two asks before it deletes, and nothing holds the other off in between.  The admin
    removes the password with the passkey's proof in one tab, and the passkey with the password in
    another: both are allowed, and afterwards first-run setup is open. *)

Definition overlapped : Auth :=
  let s0 := auth_run removal_ops claimed in
  let '(r1, s1) := authorize_password_removal (by_proof proof_token) here "s" ip s0 in
  let '(r2, s2) := authorize_passkey_removal (by_password "hunter2") "bGFwdG9w" here "s" ip s1 in
  match r1, r2 with
  | Done _, Done _ => (erase_passkey "bGFwdG9w" "s" ip (erase_password "s" ip s2).2).2
  | _, _ => s0
  end.

Theorem overlapping_removals_open_setup :
  (Configured overlapped).1 = Done false ∧ done_ok (SetPassword "mine" "10.0.0.66" overlapped).1 = true.
Proof. split; vm_compute; reflexivity. Qed.

(** ** A reset beside a live enrolment

    [Reset] is another process: it clears the database, not the daemon's memory.  A secret minted
    before it still enrols after it, and the install counts as claimed by a credential that reaches
    one device: setup refuses the admin. *)

Definition reset_then_enrolled : Auth :=
  let begun := auth_step (DoEnrolBegin here enrol_secret ip) invited in
  let cleared := set_db (Reset (au_db begun)).2 begun in
  auth_step (DoEnrolFinish enrol_key here enrol_secret ("phone"%string, holder_handle) 0 "" ip) cleared.

Theorem enrolment_outlives_reset :
  (Configured reset_then_enrolled).1 = Done true ∧ ¬ way_in (au_db reset_then_enrolled) ∧
  done_ok (SetPassword "mine" ip reset_then_enrolled).1 = false.
Proof.
  split; [vm_compute; reflexivity|]. split; [|vm_compute; reflexivity].
  intros [Hp|(k & p & Hk & Hsc)].
  - revert Hp. apply (bool_decide_unpack _). vm_compute. exact I.
  - apply elem_of_map_to_list in Hk. vm_compute in Hk. apply list_elem_of_singleton in Hk.
    by injection Hk as -> ->.
Qed.

(** * Requests *)

#[local] Open Scope quince_scope.
#[local] Existing Instance toy_env.
#[local] Existing Instance toy_library.

(** The session that the enrolment opened. *)
Definition holder_session : string :=
  from_option fst ""%string (head (map_to_list (ad_sessions (au_db enrolled)))).

Definition readers : Readers := {|
  rd_Job := λ id, if String.eqb id "j1" then Some "phone-udid"%string
                  else if String.eqb id "j2" then Some "tablet-udid"%string else None;
  rd_Op := λ _, None;
  rd_Version := λ id, if String.eqb id "v2" then Some "tablet-udid"%string else None;
  rd_SessionVersion := λ _, None |}.

Definition holder_request (method : string) (segs : list string) (body : option string) : HTTPRequest :=
  mkRequest method segs false "quince.lan" "10.0.0.9:50000" true [] [] ["tok"%string] holder_session "tok" "" body.

Definition answer (r : HTTPRequest) : response :=
  (apiHandler readers (routes true true true) false r enrolled).1.

Definition own_device : HTTPRequest := holder_request "GET" ["api"; "devices"; "phone-udid"]%string None.

Lemma api_confined_witness :
  permitted readers (au_db enrolled) "GET /api/devices/{udid}" [("udid", "phone-udid")]%string own_device phone_id ∧
  live_session enrolled holder_session phone_id.
Proof.
  destruct (api_confined readers true true true false own_device enrolled "GET /api/devices/{udid}"
    [("udid", "phone-udid")]%string (Some phone_id)) as [Hl Hp].
  - vm_compute. reflexivity.
  - split; [exact Hp|exact Hl].
Defined.

Definition own_backup : HTTPRequest := holder_request "POST" ["api"; "jobs"]%string (Some "phone-udid"%string).

Lemma enrolled_rows : rows_ok (au_db enrolled).
Proof. do 3 apply auth_step_rows. apply claimed_rows. Qed.

Lemma csrf_needed_witness : CheckCSRF own_backup = true ∨ "POST /api/jobs"%string = "/api/"%string ∨
  ("POST /api/jobs"%string ∈ passkey_routes ∧ ad_passkeys (au_db enrolled) !! PathValue [] "id" = None).
Proof.
  refine (csrf_needed readers true true true false own_backup enrolled "POST /api/jobs" [] phone_id _ _ _).
  - exact enrolled_rows.
  - vm_compute. reflexivity.
  - vm_compute. reflexivity.
Defined.

Example other_device : answer (holder_request "GET" ["api"; "devices"; "tablet-udid"]%string None) = Answer 403 "forbidden".
Proof. vm_compute. reflexivity. Qed.
Example other_backup : answer (holder_request "POST" ["api"; "jobs"]%string (Some "tablet-udid"%string)) = Answer 403 "forbidden".
Proof. vm_compute. reflexivity. Qed.
Example unknown_job : answer (holder_request "GET" ["api"; "jobs"; "j9"]%string None) = Answer 403 "forbidden" ∧
  answer (holder_request "GET" ["api"; "jobs"; "j2"]%string None) = Answer 403 "forbidden".
Proof. vm_compute. split; reflexivity. Qed.
Example no_config : answer (holder_request "GET" ["api"; "config"]%string None) = Answer 403 "forbidden" ∧
  answer (holder_request "DELETE" ["api"; "auth"; "passkeys"; "login/begin"]%string None) = Answer 403 "forbidden".
Proof. vm_compute. split; reflexivity. Qed.
Example no_session : (apiHandler readers (routes true true true) false
  (mkRequest "GET" ["api"; "devices"]%string false "quince.lan" "10.0.0.9:50000" true [] [] [] "" "" "" None)
  enrolled).1 = Answer 401 "unauthorized".
Proof. vm_compute. reflexivity. Qed.

(** * Event sockets on concrete inputs *)

#[local] Existing Instance toy_env.
#[local] Existing Instance toy_library.
#[local] Existing Instance some_order.
#[local] Existing Instance stable_sort.

Definition log_line (udid chunk : string) : Envelope :=
  NewEnvelope 0 EventJobLog (OfJobLog (mkJobLogChunk "j1" udid chunk)).

(** The first subscription of a bus. *)
Definition first_sub : nat := (Subscribe subscriberBuffer New).1.

Definition listening : list hub_event :=
  [Connect holder_session true true true "1.0" 0;
   Published (log_line "tablet-udid" "theirs"); Published (log_line "phone-udid" "mine");
   Deliver first_sub true; Deliver first_sub true].

Definition listener : Socket :=
  mkSocket holder_session (DevicePrincipal "phone-udid") [hello "1.0" 0; log_line "phone-udid" "mine"] None.

Lemma listener_runs : hb_sockets (hub_run listening (new_hub enrolled)) !! first_sub = Some listener.
Proof. vm_compute. reflexivity. Qed.

Lemma frames_are_authorised_witness :
  (∃ version t, log_line "phone-udid" "mine" = hello version t) ∨
  ∃ es1 e es2 es3 udid,
    listening = es1 ++ e :: es2 ++ Deliver first_sub true :: es3 ∧
    resolves first_sub (so_session listener) e ∧ (∀ b, Tick first_sub b ∉ es2) ∧
    entitles (hb_auth (hub_run es1 (new_hub enrolled))) (so_session listener) udid ∧
    may_hear udid (log_line "phone-udid" "mine").
Proof.
  apply (frames_are_authorised listening enrolled first_sub listener).
  - exact listener_runs.
  - apply elem_of_cons. right. apply elem_of_cons. by left.
Defined.

Lemma socket_hears_in_order_witness : in_order listening (new_hub enrolled) first_sub listener.
Proof. apply socket_hears_in_order; [exact listener_runs|reflexivity]. Defined.

(** After the console's reset no session is entitled to anything. *)
Definition after_reset : list hub_event := listening ++ [ConsoleReset].

Lemma reset_ends_session : ∀ udid,
  ¬ entitles (hb_auth (hub_run after_reset (new_hub enrolled))) (so_session listener) udid.
Proof.
  intros udid (p & (sess & Hs & _) & _).
  assert (ad_sessions (au_db (hb_auth (hub_run after_reset (new_hub enrolled)))) !! holder_session = None) as Hn
    by (vm_compute; reflexivity).
  cbn [so_session listener] in Hs. congruence.
Qed.

Lemma ended_session_silenced_witness : ∃ so',
  hb_sockets (hub_run [Tick first_sub true; Published (log_line "phone-udid" "more"); Deliver first_sub true]
    (hub_run after_reset (new_hub enrolled))) !! first_sub = Some so' ∧
  so_sent so' = so_sent listener ∧ so_closed so' = Some SessionEnded.
Proof.
  apply (ended_session_silenced after_reset [Published (log_line "phone-udid" "more"); Deliver first_sub true]
    enrolled first_sub listener true).
  - vm_compute. reflexivity.
  - reflexivity.
  - exact reset_ends_session.
Defined.

(** An unclassified event reaches the admin alone. *)
Example unclassified_is_withheld :
  MayReceive (DevicePrincipal "phone-udid") (mkEnvelope "device.renamed" "" (OfJobLog (mkJobLogChunk "j" "phone-udid" ""))) = false.
Proof. reflexivity. Qed.

