(* ===== verification/Tls.v ===== *)
(** * Tls: the certificate that is served, and one on trial

    Models core/internal/tlsx/keeper.go (the certificate of the running daemon, re-read when its files
    change), core/internal/httpapi/cert_trial.go (a certificate that is tried out and taken back
    unless it is confirmed) and the three handlers of handlers_certapply.go that drive a trial.
    Parsing a certificate belongs to Go's crypto packages, and the offline check of a pair that comes
    before a trial is an input.  A run makes one call after the other; a reload, which reads the files
    and asks for their stamps outside the mutex, also has the form where the files change in between
    ([reload_at]), and the two halves of [expire] and [abandon] have theirs. *)

From Stdlib Require Import String Ascii.
From S2P Require Import Prelude.

(** ** Files and certificates *)

Record stamp : Type := mkStamp { st_mod : time; st_size : Z }.
#[global] Instance stamp_eq_dec : EqDecision stamp.
Proof. solve_decision. Defined.
Definition zero_stamp : stamp := mkStamp zero_time 0.

(** A path has a file of some time and size, which the daemon may read or not.  What is in it is a
    function of the path and the stamp: a renewal changes the stamp. *)
Record file : Type := mkFile { fl_stamp : stamp; fl_readable : bool }.
Abbreviation disk := (gmap string file).

Class Certificates : Type := {
  Certificate : Type;
  content : string → stamp → string;
  X509KeyPair : string → string → result Certificate }.

(** How loading a pair fails. *)
Inductive load_error : Type := NotExist (path : string) | PermissionDenied (path : string) | BadPair (msg : string).

Abbreviation pair := (string * string)%type.

Section tls.
Context `{!Certificates}.

Definition statFile (d : disk) (path : string) : option stamp := fl_stamp <$> d !! path.

Definition read_file (d : disk) (path : string) : load_error + string :=
  match d !! path with
  | None => inl (NotExist path)
  | Some f => if fl_readable f then inr (content path (fl_stamp f)) else inl (PermissionDenied path)
  end.

Definition LoadX509KeyPair (d : disk) (p : pair) : load_error + Certificate :=
  match read_file d p.1 with
  | inl e => inl e
  | inr cert =>
      match read_file d p.2 with
      | inl e => inl e
      | inr key => match X509KeyPair cert key with Ok c => inr c | Err msg => inl (BadPair msg) end
      end
  end.

Definition classify (p : pair) (err : load_error) : string :=
  match err with
  | NotExist path => "cannot read the certificate or key: open " +:+ path +:+ ": no such file or directory"
  | PermissionDenied path => "cannot read the certificate or key (permission denied): open " +:+ path +:+ ": permission denied"
  | BadPair msg => p.1 +:+ " and " +:+ p.2 +:+ " were read but are not a usable certificate/key pair: " +:+ msg
  end.

(** ** The keeper *)

Record Keeper : Type := mkKeeper {
  k_files : pair; k_cert : option Certificate; k_stamps : stamp * stamp; k_dirty : bool }.

Definition NewEmptyKeeper : Keeper := mkKeeper ("", "")%string None (zero_stamp, zero_stamp) false.

Definition off (p : pair) : bool := String.eqb p.1 "" || String.eqb p.2 "".

(** The first section of [SetFiles]. *)
Definition set_paths (p : pair) (k : Keeper) : Keeper :=
  if off p then NewEmptyKeeper else mkKeeper p (k_cert k) (k_stamps k) true.

(** What is stat'ed after a load; zero stamps if either cannot be. *)
Definition load_stamps (d : disk) (p : pair) : stamp * stamp :=
  match statFile d p.1, statFile d p.2 with Some c, Some k => (c, k) | _, _ => (zero_stamp, zero_stamp) end.

(** The last section of [reload]: a pair that is no longer the one configured is dropped. *)
Definition store (p : pair) (c : Certificate) (s : stamp * stamp) (k : Keeper) : Keeper :=
  if bool_decide (k_files k = p) then mkKeeper p (Some c) s false else k.

(** The pair is read from [d]; the stamps are those of [d'], a moment later. *)
Definition reload_at (d d' : disk) (k : Keeper) : error * Keeper :=
  if off (k_files k) then (None, k)
  else match LoadX509KeyPair d (k_files k) with
       | inl e => (Some (classify (k_files k) e), k)
       | inr c => (None, store (k_files k) c (load_stamps d' (k_files k)) k)
       end.
Definition reload (d : disk) (k : Keeper) : error * Keeper := reload_at d d k.

Definition SetFiles (d : disk) (p : pair) (k : Keeper) : error * Keeper :=
  if off p then (None, set_paths p k) else reload d (set_paths p k).

Definition NewKeeper (d : disk) (p : pair) : result Keeper :=
  if off p
  then Err ("no certificate configured: cert_file=" +:+ quote p.1 +:+ " key_file=" +:+ quote p.2 +:+
            " — use NewEmptyKeeper for an install that has not configured TLS")
  else match SetFiles d p NewEmptyKeeper with (Some e, _) => Err e | (None, k) => Ok k end.

Definition HasCertificate (k : Keeper) : bool := bool_decide (is_Some (k_cert k)).

(** [changed], with the stamps that were read for the paths [p]. *)
Definition differs (s : stamp * stamp) (k : Keeper) : bool := k_dirty k || negb (bool_decide (s = k_stamps k)).
Definition changed (d : disk) (k : Keeper) : bool :=
  if off (k_files k) then false
  else match statFile d (k_files k).1, statFile d (k_files k).2 with
       | Some c, Some s => differs (c, s) k
       | _, _ => false
       end.

(** What a handshake is answered with, and what [OnReloadError] is told. *)
Definition GetCertificate (d : disk) (k : Keeper) : option Certificate * error * Keeper :=
  let '(err, k) := if changed d k then reload d k else (None, k) in (k_cert k, err, k).

(** [config.CheckTLS]: whether the process may serve, and the keeper it would serve with. *)
Definition CheckTLS (d : disk) (p : pair) (k : Keeper) : error * Keeper :=
  if off p then (None, k) else SetFiles d p k.

(** ** The trial *)

Definition certTrialWindow : duration := 3 * Minute.

(** The two clocks: the monotonic one stops while the machine sleeps. *)
Record clock : Type := mkClock { c_mono : time; c_wall : time }.

Record certTrialPending : Type := mkPending {
  p_gen : nat; p_token : string; p_trial : pair; p_prev : pair; p_deadline : time; p_deadlineWall : time }.

Definition window_closed (now : clock) (p : certTrialPending) : bool :=
  (p_deadline p <? c_mono now) || (p_deadlineWall p <? c_wall now).

(** The timers that are armed are named by the generation that they end. *)
Record certTrial : Type := mkTrial { t_live : option certTrialPending; t_gen : nat; t_timers : gset nat }.
Definition newCertTrial : certTrial := mkTrial None 0 ∅.

Definition stop_timer (t : certTrial) : certTrial :=
  mkTrial (t_live t) (t_gen t) (t_timers t ∖ match t_live t with Some p => {[p_gen p]} | None => ∅ end).

(** The end of [begin], once the daemon took the pair. *)
Definition start_trial (now : clock) (token : string) (trial prev : pair) (t : certTrial) : certTrial :=
  let t := stop_timer t in
  let gen := S (t_gen t) in
  mkTrial (Some (mkPending gen token trial prev (c_mono now + certTrialWindow) (c_wall now + certTrialWindow))) gen
    ({[gen]} ∪ t_timers t).

(** The trial that a token names while its window is open. *)
Definition named_trial (now : clock) (token : string) (t : certTrial) : option certTrialPending :=
  match t_live t with
  | Some p => if window_closed now p then None else if String.eqb token (p_token p) then Some p else None
  | None => None
  end.
Definition end_trial (t : certTrial) : certTrial := let t := stop_timer t in mkTrial None (t_gen t) (t_timers t).

Definition begin (d : disk) (now : clock) (token : string) (trial prev : pair) (k : Keeper) (t : certTrial)
    : result time * Keeper * certTrial :=
  match SetFiles d trial k with
  | (Some e, k) => let '(_, k) := SetFiles d prev k in (Err e, k, t)
  | (None, k) => (Ok (c_wall now + certTrialWindow), k, start_trial now token trial prev t)
  end.

Definition confirm (now : clock) (token : string) (t : certTrial) : option pair * certTrial :=
  match named_trial now token t with
  | Some p => (Some (p_trial p), end_trial t)
  | None => (None, t)
  end.

(** The sections of [abandon] and [expire] leave the pair that is put back afterwards. *)
Definition abandon_section (now : clock) (token : string) (t : certTrial) : option pair * certTrial :=
  match named_trial now token t with
  | Some p => (Some (p_prev p), end_trial t)
  | None => (None, t)
  end.
Definition expire_section (gen : nat) (t : certTrial) : option pair * certTrial :=
  match t_live t with
  | Some p => if Nat.eqb (p_gen p) gen then (Some (p_prev p), mkTrial None (t_gen t) (t_timers t)) else (None, t)
  | None => (None, t)
  end.

Definition put_back (d : disk) (answer : option pair) (k : Keeper) : Keeper :=
  match answer with Some prev => (SetFiles d prev k).2 | None => k end.

Definition abandon (d : disk) (now : clock) (token : string) (k : Keeper) (t : certTrial) : bool * Keeper * certTrial :=
  let '(prev, t) := abandon_section now token t in (bool_decide (is_Some prev), put_back d prev k, t).
Definition expire (d : disk) (gen : nat) (k : Keeper) (t : certTrial) : Keeper * certTrial :=
  let '(prev, t) := expire_section gen t in (put_back d prev k, t).

Definition pending (now : clock) (t : certTrial) : option time :=
  match t_live t with Some p => if window_closed now p then None else Some (p_deadline p) | None => None end.

(** ** The handlers *)

(** The daemon: what config.yml says of TLS, the keeper, the trial, and whether the install is claimed
    ([None]: that cannot be read). *)
Record daemon : Type := mkDaemon {
  d_disk : disk; d_clock : clock; d_config : pair; d_keeper : Keeper; d_trial : certTrial; d_configured : option bool }.

Definition with_keeper (k : Keeper) (s : daemon) : daemon :=
  mkDaemon (d_disk s) (d_clock s) (d_config s) k (d_trial s) (d_configured s).
Definition with_trial (t : certTrial) (s : daemon) : daemon :=
  mkDaemon (d_disk s) (d_clock s) (d_config s) (d_keeper s) t (d_configured s).
Definition with_config (p : pair) (s : daemon) : daemon :=
  mkDaemon (d_disk s) (d_clock s) p (d_keeper s) (d_trial s) (d_configured s).

(** A write of config.yml and the subscriber of its TLS section ([subscribeTLS] of cmd/quince/main.go). *)
Definition write_config (p : pair) (s : daemon) : daemon :=
  if bool_decide (p = d_config s) then s
  else with_keeper (SetFiles (d_disk s) p (d_keeper s)).2 (with_config p s).

Definition is_abs (path : string) : bool := has_prefix path "/".

(** A status and a code; [Applied] names the trial. *)
Inductive response : Type := Refused (status : Z) (code : string) | Applied (token : string) (until : time) | Confirmed | Cancelled.

(** Whether a request may speak to the ceremony at all. *)
Definition unclaimed (s : daemon) : option response :=
  match d_configured s with
  | None => Some (Refused 500 "internal")
  | Some true => Some (Refused 409 "already_configured")
  | Some false => None
  end.

(** The offline check of the pair, and the token, are given; a token may fail to be drawn. *)
Definition handleCertificateApply (body : option pair) (usable : bool) (token : option string) (s : daemon) : response * daemon :=
  match unclaimed s with
  | Some r => (r, s)
  | None =>
      match body with
      | None => (Refused 400 "bad_request", s)
      | Some trial =>
          if off trial || negb (is_abs trial.1 && is_abs trial.2) then (Refused 422 "config", s)
          else if negb usable then (Refused 422 "outcome", s)
          else match token with
               | None => (Refused 500 "internal", s)
               | Some token =>
                   match begin (d_disk s) (d_clock s) token trial (d_config s) (d_keeper s) (d_trial s) with
                   | (Err _, k, t) => (Refused 422 "config", with_trial t (with_keeper k s))
                   | (Ok until, k, t) => (Applied token until, with_trial t (with_keeper k s))
                   end
               end
      end
  end.

(** What [SetTLSFiles] makes of the pair. *)
Inductive saving : Type := Saved | Rejected | SaveFailed.

(** [tls]: the request came over the daemon's own TLS half. *)
Definition handleCertificateConfirm (tls : bool) (body : option string) (saved : saving) (s : daemon) : response * daemon :=
  match unclaimed s with
  | Some r => (r, s)
  | None =>
      if negb tls then (Refused 426 "insecure_transport", s)
      else match body with
           | None => (Refused 400 "bad_request", s)
           | Some token =>
               match confirm (d_clock s) token (d_trial s) with
               | (None, t) => (Refused 409 "not_armed", with_trial t s)
               | (Some p, t) =>
                   let s := with_trial t s in
                   match saved with
                   | Saved => (Confirmed, write_config p s)
                   | Rejected => (Refused 422 "config", s)
                   | SaveFailed => (Refused 500 "internal", s)
                   end
               end
           end
  end.

Definition handleCertificateCancel (tls : bool) (body : option string) (s : daemon) : response * daemon :=
  match unclaimed s with
  | Some r => (r, s)
  | None =>
      if negb tls then (Refused 426 "insecure_transport", s)
      else match body with
           | None => (Refused 400 "bad_request", s)
           | Some token =>
               match abandon (d_disk s) (d_clock s) token (d_keeper s) (d_trial s) with
               | (false, k, t) => (Refused 409 "not_armed", with_trial t (with_keeper k s))
               | (true, k, t) => (Cancelled, with_trial t (with_keeper k s))
               end
           end
  end.

(** ** Runs *)

(** What may happen to the daemon, one thing after the other: a call of the ceremony, a timer that
    fires (once its time has come), a handshake, an edit of config.yml by the admin, the claim of the
    install, a change of the files, and the passing of time on both clocks. *)
Inductive happening : Type :=
  | Apply (body : option pair) (usable : bool) (token : option string)
  | ConfirmCall (tls : bool) (body : option string) (saved : saving)
  | CancelCall (tls : bool) (body : option string)
  | Fire (gen : nat)
  | Handshake
  | Edit (p : pair)
  | Claim
  | Files (d : disk)
  | Pass (mono wall : duration).

Definition fire (gen : nat) (s : daemon) : daemon :=
  if bool_decide (gen ∈ t_timers (d_trial s)) then
    let t := d_trial s in
    let t := mkTrial (t_live t) (t_gen t) (t_timers t ∖ {[gen]}) in
    let '(k, t) := expire (d_disk s) gen (d_keeper s) t in
    with_trial t (with_keeper k s)
  else s.

Definition happen (h : happening) (s : daemon) : daemon :=
  match h with
  | Apply body usable token => (handleCertificateApply body usable token s).2
  | ConfirmCall tls body saved => (handleCertificateConfirm tls body saved s).2
  | CancelCall tls body => (handleCertificateCancel tls body s).2
  | Fire gen => fire gen s
  | Handshake => with_keeper (GetCertificate (d_disk s) (d_keeper s)).2 s
  | Edit p => write_config p s
  | Claim => mkDaemon (d_disk s) (d_clock s) (d_config s) (d_keeper s) (d_trial s) (Some true)
  | Files d => mkDaemon d (d_clock s) (d_config s) (d_keeper s) (d_trial s) (d_configured s)
  | Pass mono wall =>
      mkDaemon (d_disk s) (mkClock (c_mono (d_clock s) + Z.max 0 mono) (c_wall (d_clock s) + wall)) (d_config s) (d_keeper s) (d_trial s) (d_configured s)
  end.

(** The daemon starts with the pair of its config, which could be loaded. *)
Definition start (d : disk) (now : clock) (p : pair) (claimed : option bool) : option daemon :=
  match CheckTLS d p NewEmptyKeeper with
  | (Some _, _) => None
  | (None, k) => Some (mkDaemon d now p k newCertTrial claimed)
  end.

Definition run (hs : list happening) (s : daemon) : daemon := foldl (flip happen) s hs.

End tls.

(** * What is served, and what a trial may leave behind *)

Section safety.
Context `{Hcerts : !Certificates}.

(** ** The keeper *)

(** A keeper that is off holds nothing; one that is not dirty holds what the stamps stand for. *)
Record keeper_ok (k : Keeper) : Prop := {
  ok_off : off (k_files k) = true → k_cert k = None;
  ok_clean : off (k_files k) = false → k_dirty k = false →
    ∃ c, k_cert k = Some c ∧
      X509KeyPair (content (k_files k).1 (k_stamps k).1) (content (k_files k).2 (k_stamps k).2) = Ok c }.

Lemma NewEmptyKeeper_ok : keeper_ok NewEmptyKeeper.
Proof. by split. Qed.

Lemma set_paths_ok p k : keeper_ok (set_paths p k).
Proof. unfold set_paths. destruct (off p) eqn:Ho; [apply NewEmptyKeeper_ok|]. split; cbn; congruence. Qed.

(** What was loaded is what the stamps of the moment stand for. *)
Lemma load_content d p c : LoadX509KeyPair d p = inr c →
  statFile d p.1 = Some (load_stamps d p).1 ∧ statFile d p.2 = Some (load_stamps d p).2 ∧
  X509KeyPair (content p.1 (load_stamps d p).1) (content p.2 (load_stamps d p).2) = Ok c.
Proof.
  unfold LoadX509KeyPair, read_file, load_stamps, statFile. intros H. destruct (d !! p.1) as [f|]; [|done].
  destruct (fl_readable f); [|done]. destruct (d !! p.2) as [g|]; [|done]. destruct (fl_readable g); [|done].
  cbn. case_match; simplify_eq. done.
Qed.

Lemma reload_cases d k : keeper_ok k →
  let '(err, k') := reload d k in
  k_files k' = k_files k ∧ keeper_ok k' ∧
  match LoadX509KeyPair d (k_files k) with
  | inr c => err = None ∧ (off (k_files k) = false → k_cert k' = Some c)
  | inl _ => k_cert k' = k_cert k
  end.
Proof.
  intros Hk. unfold reload, reload_at. destruct (off (k_files k)) eqn:Ho; [by case_match|].
  destruct (LoadX509KeyPair d (k_files k)) as [e|c] eqn:Hl; [done|].
  unfold store. rewrite bool_decide_eq_true_2 by done. split_and!; [done| |done..].
  apply load_content in Hl as (_ & _ & Hx). split; cbn; [congruence|]. intros _ _. by exists c.
Qed.

Lemma SetFiles_ok d p k : keeper_ok (SetFiles d p k).2.
Proof.
  unfold SetFiles. destruct (off p) eqn:Ho; [apply set_paths_ok|].
  pose proof (reload_cases d _ (set_paths_ok p k)) as H. destruct (reload d (set_paths p k)) as [err k']. by destruct H as (_ & ? & _).
Qed.

(** The pair as a keeper names it: half a pair is none. *)
Definition canon (p : pair) : pair := if off p then ("", "")%string else p.

Lemma SetFiles_files d p k : k_files (SetFiles d p k).2 = canon p.
Proof.
  unfold SetFiles, canon. destruct (off p) eqn:Ho; [by unfold set_paths; rewrite Ho|].
  pose proof (reload_cases d _ (set_paths_ok p k)) as H. destruct (reload d (set_paths p k)) as [err k'].
  destruct H as (Hf & _). cbn [snd]. rewrite Hf. unfold set_paths. by rewrite Ho.
Qed.

Lemma GetCertificate_ok d k : keeper_ok k → keeper_ok (GetCertificate d k).2.
Proof.
  intros Hk. unfold GetCertificate. destruct (changed d k); [|done].
  pose proof (reload_cases d k Hk) as H. destruct (reload d k) as [err k']. by destruct H as (_ & ? & _).
Qed.
Lemma GetCertificate_files d k : k_files (GetCertificate d k).2 = k_files k.
Proof.
  unfold GetCertificate, reload, reload_at, store. destruct (changed d k); [|done]. destruct (off (k_files k)); [done|].
  destruct (LoadX509KeyPair d (k_files k)); [done|]. cbn. by case_bool_decide.
Qed.

(** A handshake on a keeper that is well. *)
Lemma handshake d k : keeper_ok k →
  let '(cert, err, _) := GetCertificate d k in
  if off (k_files k) then cert = None
  else match LoadX509KeyPair d (k_files k) with
       | inr c => cert = Some c ∧ err = None
       | inl _ => cert = k_cert k
       end.
Proof.
  intros Hk. unfold GetCertificate. destruct (changed d k) eqn:Hc.
  - pose proof (reload_cases d k Hk) as H. destruct (reload d k) as [err k'] eqn:Er. destruct H as (Hf & Hk' & H).
    destruct (off (k_files k)) eqn:Ho; [apply (ok_off _ Hk'); by rewrite Hf|].
    destruct (LoadX509KeyPair d (k_files k)); [done|]. destruct H as [-> H]. split; [by apply H|done].
  - destruct (off (k_files k)) eqn:Ho; [by apply (ok_off _ Hk)|]. destruct (LoadX509KeyPair d (k_files k)) as [e|c] eqn:Hl; [done|].
    apply load_content in Hl as (H1 & H2 & Hx). unfold changed in Hc. rewrite Ho, H1, H2 in Hc.
    apply orb_false_iff in Hc as [Hd Hs%negb_false_iff%bool_decide_eq_true].
    destruct (ok_clean _ Hk Ho Hd) as (c' & -> & Hx'). rewrite <-Hs in Hx'. cbn in Hx'. split; [congruence|done].
Qed.

(** ** What every happening keeps *)

(** What a call is answered; what is no call begins no trial. *)
Definition answer (h : happening) (s : daemon) : response :=
  match h with
  | Apply body usable token => (handleCertificateApply body usable token s).1
  | ConfirmCall tls body saved => (handleCertificateConfirm tls body saved s).1
  | CancelCall tls body => (handleCertificateCancel tls body s).1
  | _ => Cancelled
  end.
Definition is_applied (r : response) : bool := match r with Applied _ _ => true | _ => false end.

(** No trial began. *)
Fixpoint no_trial (hs : list happening) (s : daemon) : bool :=
  match hs with [] => true | h :: hs => negb (is_applied (answer h s)) && no_trial hs (happen h s) end.

Lemma run_app hs hs' s : run (hs ++ hs') s = run hs' (run hs s).
Proof. apply foldl_app. Qed.
Lemma no_trial_snoc hs h s : no_trial (hs ++ [h]) s = no_trial hs s && negb (is_applied (answer h (run hs s))).
Proof.
  revert s. induction hs as [|h' hs IH]; intros s; cbn; [by rewrite andb_true_r|]. by rewrite IH, andb_assoc.
Qed.

(** What a call that began a trial did. *)
Record applied (trial : pair) (token : string) (s s' : daemon) : Prop := {
  ap_unclaimed : d_configured s = Some false;
  ap_abs : off trial = false ∧ is_abs trial.1 = true ∧ is_abs trial.2 = true;
  ap_loads : ∃ c, LoadX509KeyPair (d_disk s) trial = inr c;
  ap_keeper : d_keeper s' = (SetFiles (d_disk s) trial (d_keeper s)).2;
  ap_trial : d_trial s' = start_trial (d_clock s) token trial (d_config s) (d_trial s);
  ap_rest : d_config s' = d_config s ∧ d_clock s' = d_clock s }.

Lemma SetFiles_loads d p k k' : off p = false → SetFiles d p k = (None, k') → ∃ c, LoadX509KeyPair d p = inr c.
Proof.
  unfold SetFiles, reload, reload_at. intros Ho. rewrite Ho. unfold set_paths. rewrite Ho. cbn. rewrite Ho.
  destruct (LoadX509KeyPair d p) as [e|c]; [done|]. by exists c.
Qed.

(** An apply begins a trial, or it leaves the trial as it was; a keeper that it touched has the pair
    of config.yml back. *)
Lemma apply_cases body usable token s :
  let s' := (handleCertificateApply body usable token s).2 in
  if is_applied (handleCertificateApply body usable token s).1 then
    ∃ trial tok, body = Some trial ∧ usable = true ∧ token = Some tok ∧ applied trial tok s s'
  else d_trial s' = d_trial s ∧ d_config s' = d_config s ∧ d_clock s' = d_clock s ∧
    (d_keeper s' = d_keeper s ∨ ∃ k, d_keeper s' = (SetFiles (d_disk s) (d_config s) k).2).
Proof.
  unfold handleCertificateApply, unclaimed. destruct (d_configured s) as [[]|] eqn:Hu; cbn; [by auto 6| |by auto 6].
  destruct body as [trial|]; [|by cbn; auto 6]. destruct (off trial) eqn:Ho; [by cbn; auto 6|].
  destruct (is_abs trial.1) eqn:H1, (is_abs trial.2) eqn:H2; try (by cbn; auto 6).
  destruct usable; [|by cbn; auto 6]. destruct token as [tok|]; [|by cbn; auto 6]. cbn. unfold begin.
  destruct (SetFiles (d_disk s) trial (d_keeper s)) as [[e|] k] eqn:Hs.
  - destruct (SetFiles (d_disk s) (d_config s) k) as [e' k'] eqn:Hp. cbn. split_and!; [done..|]. right. exists k. by rewrite Hp.
  - cbn. exists trial, tok. split_and!; [done..|]. split; cbn; [done..| | |done|done].
    + by apply (SetFiles_loads _ _ _ _ Ho Hs).
    + by rewrite Hs.
Qed.


Lemma confirm_cases tls body saved s :
  let s' := (handleCertificateConfirm tls body saved s).2 in
  s' = s ∨
  ∃ token p, tls = true ∧ body = Some token ∧ d_configured s = Some false ∧
    named_trial (d_clock s) token (d_trial s) = Some p ∧
    s' = let s1 := with_trial (end_trial (d_trial s)) s in
         match saved with Saved => write_config (p_trial p) s1 | _ => s1 end.
Proof.
  unfold handleCertificateConfirm, unclaimed, confirm. destruct (d_configured s) as [[]|]; [by left| |by left].
  destruct tls; [|by left]. destruct body as [token|]; [|by left].
  destruct (named_trial (d_clock s) token (d_trial s)) as [p|] eqn:Hn; [|left; by destruct s].
  right. exists token, p. split_and!; [done..|]. by destruct saved.
Qed.

Lemma cancel_cases tls body s :
  let s' := (handleCertificateCancel tls body s).2 in
  s' = s ∨
  ∃ p, t_live (d_trial s) = Some p ∧
    s' = with_trial (end_trial (d_trial s)) (with_keeper (SetFiles (d_disk s) (p_prev p) (d_keeper s)).2 s).
Proof.
  unfold handleCertificateCancel, unclaimed, abandon, abandon_section. destruct (d_configured s) as [[]|]; [by left| |by left].
  destruct tls; [|by left]. destruct body as [token|]; [|by left].
  destruct (named_trial (d_clock s) token (d_trial s)) as [p|] eqn:Hn; [|left; by destruct s].
  right. exists p. split; [|done]. unfold named_trial in Hn. by repeat case_match; simplify_eq.
Qed.

Lemma fire_cases gen s :
  let s' := fire gen s in
  (t_live (d_trial s') = t_live (d_trial s) ∧ d_keeper s' = d_keeper s ∧ d_config s' = d_config s ∧
   (∀ p, t_live (d_trial s) = Some p → p_gen p ∈ t_timers (d_trial s) → p_gen p ∈ t_timers (d_trial s'))) ∨
  ∃ p, t_live (d_trial s) = Some p ∧ p_gen p = gen ∧ t_live (d_trial s') = None ∧ d_config s' = d_config s ∧
    d_keeper s' = (SetFiles (d_disk s) (p_prev p) (d_keeper s)).2.
Proof.
  unfold fire, expire, expire_section. case_bool_decide as Hg; [|by left]. cbn.
  destruct (t_live (d_trial s)) as [p|] eqn:Hl; [|left; cbn; by split_and!].
  destruct (Nat.eqb_spec (p_gen p) gen) as [He|He]; [right; exists p; by split_and!|].
  left. cbn. split_and!; [done..|]. intros q [= <-] Hq. set_solver.
Qed.

Lemma write_config_cases p s : d_trial (write_config p s) = d_trial s ∧ d_config (write_config p s) = p ∧
  (k_files (d_keeper s) = canon p ∨ p ≠ d_config s → k_files (d_keeper (write_config p s)) = canon p).
Proof.
  unfold write_config. case_bool_decide as Hp; [subst; split_and!; [done..|by intros [?|?]]|].
  split_and!; [done..|]. intros _. apply SetFiles_files.
Qed.

(** ** Which trial is live *)

Lemma live_step h s p : t_live (d_trial (happen h s)) = Some p →
  (is_applied (answer h s) = false ∧ t_live (d_trial s) = Some p) ∨
  ∃ trial tok, h = Apply (Some trial) true (Some tok) ∧ applied trial tok s (happen h s).
Proof.
  intros Hp. destruct h as [body usable token|tls body saved|tls body|gen| |q| |d|mono wall]; cbn [happen answer] in *.
  - pose proof (apply_cases body usable token s) as H. cbn zeta in H.
    destruct (is_applied _); [|left; destruct H as [Ht _]; by rewrite <-Ht].
    destruct H as (trial & tok & -> & -> & -> & Ha). right. by exists trial, tok.
  - left. split; [unfold handleCertificateConfirm, unclaimed; destruct (d_configured s) as [[]|]; by repeat case_match|].
    destruct (confirm_cases tls body saved s) as [E|(token & q & _ & _ & _ & Hn & E)]; cbn zeta in E; rewrite E in Hp; [done|].
    destruct saved; [rewrite (proj1 (write_config_cases _ _)) in Hp|..]; done.
  - left. split; [unfold handleCertificateCancel, unclaimed; destruct (d_configured s) as [[]|]; by repeat case_match|].
    destruct (cancel_cases tls body s) as [E|(q & _ & E)]; rewrite E in Hp; done.
  - left. split; [done|]. destruct (fire_cases gen s) as [(<- & _)|(q & _ & _ & Hn & _)]; cbn zeta in *; congruence.
  - by left.
  - left. by rewrite (proj1 (write_config_cases q s)) in Hp.
  - by left.
  - by left.
  - by left.
Qed.

(** The last trial that began, and that nothing ended. *)
Record begun (hs : list happening) (s0 : daemon) (p : certTrialPending) (a b : list happening) : Prop := {
  bg_split : hs = a ++ Apply (Some (p_trial p)) true (Some (p_token p)) :: b;
  bg_applied : applied (p_trial p) (p_token p) (run a s0) (run (a ++ [Apply (Some (p_trial p)) true (Some (p_token p))]) s0);
  bg_last : no_trial b (run (a ++ [Apply (Some (p_trial p)) true (Some (p_token p))]) s0) = true;
  bg_prev : p_prev p = d_config (run a s0);
  bg_window : p_deadline p = c_mono (d_clock (run a s0)) + certTrialWindow ∧
    p_deadlineWall p = c_wall (d_clock (run a s0)) + certTrialWindow }.

Lemma live_begun hs s0 p : t_live (d_trial s0) = None → t_live (d_trial (run hs s0)) = Some p → ∃ a b, begun hs s0 p a b.
Proof.
  intros H0. induction hs as [|h hs IH] using rev_ind; [cbn; congruence|]. rewrite run_app. change (run [h] (run hs s0)) with (happen h (run hs s0)). intros Hl. pose proof (live_step _ _ _ Hl) as [[Ha Hp]|(trial & tok & -> & Ha)].
  - destruct (IH Hp) as (a & b & [H1 H2 H3 H4 H5]). exists a, (b ++ [h]). split; [by rewrite H1, <-app_assoc|done| |done..].
    rewrite no_trial_snoc, H3. cbn [andb]. rewrite <-run_app, <-app_assoc. cbn [app]. rewrite <-H1. by rewrite Ha.
  - pose proof (ap_trial _ _ _ _ Ha) as Ht. rewrite Ht in Hl. cbn in Hl. injection Hl as <-. exists hs, [].
    split; cbn [p_trial p_token p_prev p_deadline p_deadlineWall]; [done| |done..]. by rewrite run_app.
Qed.


Lemma start_empty d now p claimed s0 : start d now p claimed = Some s0 →
  t_live (d_trial s0) = None ∧ keeper_ok (d_keeper s0) ∧ k_files (d_keeper s0) = canon (d_config s0).
Proof.
  unfold start, CheckTLS. destruct (off p) eqn:Ho; intros H.
  - injection H as <-. cbn. unfold canon. rewrite Ho. split_and!; [done|apply NewEmptyKeeper_ok|done].
  - destruct (SetFiles d p NewEmptyKeeper) as [[e|] k] eqn:Hs; [done|]. injection H as <-. cbn.
    pose proof (SetFiles_ok d p NewEmptyKeeper) as H1. pose proof (SetFiles_files d p NewEmptyKeeper) as H2.
    rewrite Hs in H1, H2. done.
Qed.

(** ** The theorems *)

(** C37: Over any run of the daemon, config.yml names another pair after a step only when that step is
    an edit by the admin, or the confirmation, over the daemon's own TLS and before the install is
    claimed, of the last trial that began: with the token that trial was given, before its window
    closed on either clock; the trial began with an apply whose pair passed the offline check and
    could be loaded, and the pair that is written is the one that was tried. *)
Theorem config_written_when_proved d now p0 claimed s0 hs h : start d now p0 claimed = Some s0 →
  let s := run hs s0 in
  d_config (happen h s) ≠ d_config s →
  (∃ q, h = Edit q) ∨
  ∃ p a b, begun hs s0 p a b ∧ h = ConfirmCall true (Some (p_token p)) Saved ∧ d_configured s = Some false ∧
    d_config (happen h s) = p_trial p ∧
    c_mono (d_clock s) <= c_mono (d_clock (run a s0)) + certTrialWindow ∧
    c_wall (d_clock s) <= c_wall (d_clock (run a s0)) + certTrialWindow.
Proof.
  intros H0 s Hc. apply start_empty in H0 as (H0 & _).
  destruct h as [body usable token|tls body saved|tls body|gen| |q| |d'|mono wall]; cbn [happen] in *;
    try done; [| | | |left; by exists q].
  - pose proof (apply_cases body usable token s) as H. cbn zeta in H. destruct (is_applied _); [|by destruct H as (_ & ? & _)].
    destruct H as (? & ? & _ & _ & _ & [_ _ _ _ _ [? _]]). done.
  - destruct (confirm_cases tls body saved s) as [E|(token & p & -> & -> & Hu & Hn & E)]; cbn zeta in E; rewrite E in Hc |- *; [done|].
    destruct saved; [|done..]. right. unfold named_trial in Hn.
    destruct (t_live (d_trial s)) as [p'|] eqn:Hl; [|done]. destruct (window_closed (d_clock s) p') eqn:Hw; [done|].
    destruct (String.eqb_spec token (p_token p')) as [->|]; [|done]. injection Hn as ->.
    destruct (live_begun hs s0 p H0 Hl) as (a & b & Hb). exists p, a, b. pose proof (bg_window _ _ _ _ _ Hb) as [H1 H2].
    apply orb_false_iff in Hw as [Hw1%Z.ltb_ge Hw2%Z.ltb_ge].
    split_and!; [done..| |lia|lia]. apply write_config_cases.
  - destruct (cancel_cases tls body s) as [E|(q & _ & E)]; cbn zeta in E; rewrite E in Hc; done.
  - destruct (fire_cases gen s) as [(_ & _ & E & _)|(q & _ & _ & _ & E & _)]; cbn zeta in E; by rewrite E in Hc.
Qed.

Lemma happen_keeper_ok h s : keeper_ok (d_keeper s) → keeper_ok (d_keeper (happen h s)).
Proof.
  intros Hk. destruct h as [body usable token|tls body saved|tls body|gen| |q| |d'|mono wall]; cbn [happen]; try done.
  - pose proof (apply_cases body usable token s) as H. cbn zeta in H. destruct (is_applied _).
    + destruct H as (? & ? & _ & _ & _ & Ha). rewrite (ap_keeper _ _ _ _ Ha). apply SetFiles_ok.
    + destruct H as (_ & _ & _ & [-> |[k ->]]); [done|apply SetFiles_ok].
  - destruct (confirm_cases tls body saved s) as [->|(token & p & _ & _ & _ & _ & E)]; [done|]. cbn zeta in E. rewrite E.
    destruct saved; [|done..]. unfold write_config. case_bool_decide; [done|apply SetFiles_ok].
  - destruct (cancel_cases tls body s) as [->|(q & _ & E)]; [done|]. cbn zeta in E. rewrite E. apply SetFiles_ok.
  - destruct (fire_cases gen s) as [(_ & E & _)|(q & _ & _ & _ & _ & E)]; cbn zeta in E; rewrite E; [done|apply SetFiles_ok].
  - by apply GetCertificate_ok.
  - unfold write_config. case_bool_decide; [done|apply SetFiles_ok].
Qed.
Lemma run_keeper_ok hs s : keeper_ok (d_keeper s) → keeper_ok (d_keeper (run hs s)).
Proof. revert s. induction hs as [|h hs IH]; intros s Hk; [done|]. by apply IH, happen_keeper_ok. Qed.

(** After any run, a handshake is answered with the certificate that is on the disk at that moment
    under the pair the keeper was last given, whenever that pair can be loaded; with the certificate
    that was held, if it cannot; and with none exactly when TLS is off or nothing was ever loaded. *)
Theorem handshake_serves_the_disk d now p0 claimed s0 hs : start d now p0 claimed = Some s0 →
  let s := run hs s0 in
  let '(cert, err, _) := GetCertificate (d_disk s) (d_keeper s) in
  if off (k_files (d_keeper s)) then cert = None
  else match LoadX509KeyPair (d_disk s) (k_files (d_keeper s)) with
       | inr c => cert = Some c ∧ err = None
       | inl _ => cert = k_cert (d_keeper s)
       end.
Proof. intros H0 s. apply handshake, run_keeper_ok. by apply start_empty in H0 as (_ & ? & _). Qed.

(** ** What a trial leaves *)

(** Nothing beside the ceremony: config.yml is not edited while a trial is live, and it can be
    written when one is confirmed. *)
Definition undisturbed (h : happening) (s : daemon) : Prop :=
  match h with
  | Edit _ => t_live (d_trial s) = None
  | ConfirmCall _ _ saved => saved = Saved
  | _ => True
  end.
Fixpoint all_undisturbed (hs : list happening) (s : daemon) : Prop :=
  match hs with [] => True | h :: hs => undisturbed h s ∧ all_undisturbed hs (happen h s) end.

(** Without a trial the keeper has the pair of config.yml; a live one knows that pair, and its timer
    is armed. *)
Definition settled (s : daemon) : Prop :=
  match t_live (d_trial s) with
  | None => k_files (d_keeper s) = canon (d_config s)
  | Some p => p_prev p = d_config s ∧ p_gen p ∈ t_timers (d_trial s) ∧
      (k_files (d_keeper s) = canon (p_trial p) ∨ k_files (d_keeper s) = canon (d_config s))
  end.

Lemma happen_settled h s : undisturbed h s → settled s → settled (happen h s).
Proof.
  unfold settled. intros Hu Hs. destruct h as [body usable token|tls body saved|tls body|gen| |q| |d'|mono wall]; cbn [happen undisturbed] in *; try done.
  - pose proof (apply_cases body usable token s) as H. cbn zeta in H. destruct (is_applied _).
    + destruct H as (trial & tok & _ & _ & _ & [_ _ _ Hk Ht [Hc _]]). rewrite Ht, Hk, Hc. cbn. rewrite SetFiles_files.
      split_and!; [done|set_solver|by left].
    + destruct H as (-> & -> & _ & [-> |[k ->]]); [done|]. rewrite SetFiles_files. case_match; [|done]. naive_solver.
  - destruct (confirm_cases tls body saved s) as [->|(token & p & _ & _ & _ & Hn & E)]; [done|]. cbn zeta in E. rewrite E, Hu.
    destruct (write_config_cases (p_trial p) (with_trial (end_trial (d_trial s)) s)) as (-> & -> & Hf). cbn in *. apply Hf.
    unfold named_trial in Hn. destruct (t_live (d_trial s)) as [p'|]; [|done]. repeat case_match; try done. injection Hn as ->.
    destruct Hs as (_ & _ & [?|Hc]); [by left|]. destruct (decide (p_trial p = d_config s)) as [He|He]; [left; by rewrite He|by right].
  - destruct (cancel_cases tls body s) as [->|(p & Hl & E)]; [done|]. cbn zeta in E. rewrite E. cbn. rewrite Hl in Hs.
    rewrite SetFiles_files. by destruct Hs as [-> _].
  - destruct (fire_cases gen s) as [(E1 & E2 & E3 & Ht)|(p & Hl & _ & E1 & E2 & E3)]; cbn zeta in *; rewrite E1, E2, E3.
    + destruct (t_live (d_trial s)) as [p|]; [|done]. destruct Hs as (? & ? & ?). split_and!; [done|by apply Ht|done].
    + rewrite Hl in Hs. rewrite SetFiles_files. by destruct Hs as [-> _].
  - cbn. by rewrite GetCertificate_files.
  - destruct (write_config_cases q s) as (-> & -> & Hf). rewrite Hu in Hs |- *. apply Hf.
    destruct (decide (q = d_config s)) as [->|]; [by left|by right].
Qed.

Lemma run_settled hs s : settled s → all_undisturbed hs s → settled (run hs s).
Proof. revert s. induction hs as [|h hs IH]; intros s Hs; [done|]. intros [Hu Hr]. by apply IH; [apply happen_settled|]. Qed.

(** The daemon once the timer of the live trial has fired, and what a handshake gets. *)
Definition after_window (s : daemon) : daemon :=
  match t_live (d_trial s) with None => s | Some p => fire (p_gen p) s end.
Definition served (s : daemon) : option Certificate := (GetCertificate (d_disk s) (d_keeper s)).1.1.

Lemma fire_disk gen s : d_disk (fire gen s) = d_disk s.
Proof. unfold fire, expire. case_bool_decide; [|done]. by case_match. Qed.

Lemma after_window_settled s : settled s →
  t_live (d_trial (after_window s)) = None ∧ d_config (after_window s) = d_config s ∧ d_disk (after_window s) = d_disk s ∧
  k_files (d_keeper (after_window s)) = canon (d_config s).
Proof.
  unfold settled, after_window. destruct (t_live (d_trial s)) as [p|] eqn:Hl; [|done]. intros (Hp & Hg & _).
  rewrite fire_disk. unfold fire, expire, expire_section. rewrite bool_decide_eq_true_2 by done. cbn.
  rewrite Hl, Nat.eqb_refl. cbn. by rewrite SetFiles_files, Hp.
Qed.

(** A trial leaves nothing behind: after any run in which config.yml is not edited under a live
    trial and can be written when one is confirmed, the timer that is armed for the trial that is
    live, if there is one, ends it with config.yml as it is; and handshakes are then answered with
    the certificate that config.yml names, if it can be loaded, and with none if config.yml has TLS off. *)
Theorem trial_leaves_nothing d now p0 claimed s0 hs : start d now p0 claimed = Some s0 → all_undisturbed hs s0 →
  let s := run hs s0 in
  let s' := after_window s in
  t_live (d_trial s') = None ∧ d_config s' = d_config s ∧
  if off (d_config s) then served s' = None
  else ∀ c, LoadX509KeyPair (d_disk s) (d_config s) = inr c → served s' = Some c.
Proof.
  intros H0 Hu s s'. apply start_empty in H0 as (Hl & Hk & Hf).
  assert (settled s) as Hs by (apply run_settled; [unfold settled; by rewrite Hl|done]).
  destruct (after_window_settled s Hs) as (H1 & H2 & H3 & H4). split_and!; [done..|].
  assert (keeper_ok (d_keeper s')) as Hk'.
  { unfold s', after_window. case_match; [|by apply run_keeper_ok]. apply (happen_keeper_ok (Fire _)), run_keeper_ok, Hk. }
  pose proof (handshake (d_disk s') _ Hk') as H. unfold served. destruct (GetCertificate (d_disk s') (d_keeper s')) as [[cert err] k'].
  cbn. unfold s' in H. rewrite H3, H4 in H. unfold canon in H. destruct (off (d_config s)) eqn:Ho; [exact H|].
  rewrite Ho in H. intros c Hc. rewrite Hc in H. by destruct H.
Qed.

End safety.

(** * Runs on concrete files *)

(** A certificate is the text of its file, and belongs to the key of the same text. *)
#[local] Instance toy_certs : Certificates := {|
  Certificate := string;
  content path s := if has_prefix path "/old" then "old" else if Z.eqb (st_size s) 1 then "new" else "renewed";
  X509KeyPair cert key := if String.eqb cert key then Ok cert else Err "private key does not match public key" |}%string.

Definition old_pair : pair := ("/old.pem", "/old.key")%string.
Definition new_pair : pair := ("/new.pem", "/new.key")%string.
Definition small : file := mkFile (mkStamp 0 1) true.
Definition large : file := mkFile (mkStamp 7 2) true.
Definition files : disk := {["/old.pem" := small; "/old.key" := small; "/new.pem" := small; "/new.key" := small]}%string.
Definition noon : clock := mkClock 0 0.
Definition opened : option daemon := start files noon old_pair (Some false).
#[local] Abbreviation opened_state := (mkDaemon files noon old_pair (SetFiles files old_pair NewEmptyKeeper).2 newCertTrial (Some false)).

Definition tried : list happening := [Handshake; Apply (Some new_pair) true (Some "token"%string); Pass Minute Minute].

Lemma opened_ok : opened = Some opened_state.
Proof. reflexivity. Qed.

Lemma config_written_when_proved_witness :
  d_config (happen (ConfirmCall true (Some "token"%string) Saved) (run tried opened_state)) ≠ d_config (run tried opened_state) ∧
  ((∃ q, ConfirmCall true (Some "token"%string) Saved = Edit q) ∨
   ∃ p a b, begun tried opened_state p a b ∧
    ConfirmCall true (Some "token"%string) Saved = ConfirmCall true (Some (p_token p)) Saved ∧ d_configured (run tried opened_state) = Some false ∧
    d_config (happen (ConfirmCall true (Some "token"%string) Saved) (run tried opened_state)) = p_trial p ∧
    c_mono (d_clock (run tried opened_state)) <= c_mono (d_clock (run a opened_state)) + certTrialWindow ∧
    c_wall (d_clock (run tried opened_state)) <= c_wall (d_clock (run a opened_state)) + certTrialWindow).
Proof.
  assert (d_config (happen (ConfirmCall true (Some "token"%string) Saved) (run tried opened_state)) ≠ d_config (run tried opened_state)) as H
    by (vm_compute; discriminate).
  split; [exact H|]. exact (config_written_when_proved files noon old_pair (Some false) _ tried _ opened_ok H).
Defined.

Lemma handshake_serves_the_disk_witness :
  (GetCertificate files (d_keeper (run tried opened_state))).1.1 = Some "new"%string ∧
  (GetCertificate files (d_keeper (run tried opened_state))).1.2 = None.
Proof. exact (handshake_serves_the_disk files noon old_pair (Some false) opened_state tried opened_ok). Defined.

Lemma trial_leaves_nothing_witness :
  t_live (d_trial (run tried opened_state)) ≠ None ∧ served (after_window (run tried opened_state)) = Some "old"%string.
Proof.
  split; [by vm_compute|].
  destruct (trial_leaves_nothing files noon old_pair (Some false) opened_state tried opened_ok) as (_ & _ & H); [by vm_compute|].
  vm_compute in H |- *. by apply H.
Defined.

(** A renewal between the load and the stats is not noticed again: the stamps are those of the new
    files, the certificate is the old one, and the handshakes that follow serve it. *)
Definition renewed : disk := {["/old.pem" := small; "/old.key" := small; "/new.pem" := large; "/new.key" := large]}%string.
Example renewal_under_a_reload :
  let k := (reload_at files renewed (set_paths new_pair NewEmptyKeeper)).2 in
  (GetCertificate renewed k).1.1 = Some "new"%string ∧ LoadX509KeyPair renewed new_pair = inr "renewed"%string.
Proof. by vm_compute. Qed.

(** The pair is edited under a live trial: the timer puts back the pair of before the edit, which
    config.yml does not name. *)
Example edit_under_a_trial :
  let s := after_window (run (tried ++ [Edit ("", "")%string]) opened_state) in
  d_config s = ("", "")%string ∧ served s = Some "old"%string.
Proof. by vm_compute. Qed.

(** A second trial that begins between the two halves of [expire] is live, and is not served. *)
Example trial_under_an_expiry :
  let s := run tried opened_state in
  let '(prev, t) := expire_section 1 (d_trial s) in
  let '(_, k, t) := begin files (d_clock s) "second" new_pair (d_config s) (d_keeper s) t in
  (p_trial <$> t_live t) = Some new_pair ∧ (GetCertificate files (put_back files prev k)).1.1 = Some "old"%string.
Proof. by vm_compute. Qed.

(** A second apply whose pair cannot be loaded puts back the pair of config.yml, and the first trial
    can still be confirmed. *)
Example failed_apply_under_a_trial :
  let s := run (tried ++ [Apply (Some ("/gone.pem", "/gone.key")%string) true (Some "other"%string)]) opened_state in
  served s = Some "old"%string ∧ answer (ConfirmCall true (Some "token"%string) Saved) s = Confirmed.
Proof. by vm_compute. Qed.
