(* ===== verification/Muxd.v ===== *)
(** * Muxd: the client of a muxer

    Models core/internal/muxd: the framing of protocol.go, and of client.go the resolution of the
    listen stream to presence edges and the reconnecting client.  The property list inside a frame
    is another library's; a message is modelled from what it decodes to.  Bytes are integers from 0
    to 255. *)

From Stdlib Require Import String Ascii.
From S2P Require Import Prelude Domain.

(** ** Framing *)

Definition protocolVersion : Z := 1.
Definition messagePlist : Z := 8.
Definition maxPayload : Z := 2 ^ 20.

(** A uint32, and its four bytes in little-endian order. *)
Definition u32 (z : Z) : Z := z `mod` 2 ^ 32.
Definition le32 (z : Z) : list Z := [z `mod` 256; (z / 2 ^ 8) `mod` 256; (z / 2 ^ 16) `mod` 256; (z / 2 ^ 24) `mod` 256].
Definition of_le32 (b0 b1 b2 b3 : Z) : Z := b0 + 2 ^ 8 * b1 + 2 ^ 16 * b2 + 2 ^ 24 * b3.

Record header : Type := mkHeader { h_Length : Z; h_Version : Z; h_Request : Z; h_Tag : Z }.

Definition header_bytes (h : header) : list Z :=
  le32 (h_Length h) ++ le32 (h_Version h) ++ le32 (h_Request h) ++ le32 (h_Tag h).

(** What is written for a marshalled [body]. *)
Definition writePlist (tag : Z) (body : list Z) : list Z :=
  header_bytes (mkHeader (u32 (16 + Z.of_nat (length body))) protocolVersion messagePlist tag) ++ body.

(** [binary.Read] of a header: the bytes that follow it. *)
Definition read_header (r : list Z) : option (header * list Z) :=
  match r with
  | a0 :: a1 :: a2 :: a3 :: b0 :: b1 :: b2 :: b3 :: c0 :: c1 :: c2 :: c3 :: d0 :: d1 :: d2 :: d3 :: rest =>
      Some (mkHeader (of_le32 a0 a1 a2 a3) (of_le32 b0 b1 b2 b3) (of_le32 c0 c1 c2 c3) (of_le32 d0 d1 d2 d3), rest)
  | _ => None
  end.

(** The body, the tag and the rest of the stream. *)
Definition readPlist (r : list Z) : result (list Z * Z * list Z) :=
  match read_header r with
  | None => Err "EOF"
  | Some (h, rest) =>
      if (h_Length h <? 16) || (16 + maxPayload <? h_Length h) then
        Err ("muxd: implausible message length " +:+ fmt_d (h_Length h))
      else
        let n := Z.to_nat (h_Length h - 16) in
        if (length rest <? n)%nat then Err "unexpected EOF"
        else Ok (List.firstn n rest, h_Tag h, List.skipn n rest)
  end.

Lemma of_le32_bytes z : 0 ≤ z < 2 ^ 32 →
  of_le32 (z `mod` 256) ((z / 2 ^ 8) `mod` 256) ((z / 2 ^ 16) `mod` 256) ((z / 2 ^ 24) `mod` 256) = z.
Proof.
  intros Hz. unfold of_le32.
  pose proof (Z.div_mod z 256 ltac:(lia)).
  pose proof (Z.div_mod (z / 2 ^ 8) 256 ltac:(lia)). pose proof (Z.div_mod (z / 2 ^ 16) 256 ltac:(lia)).
  assert (z / 2 ^ 8 / 256 = z / 2 ^ 16) as E1 by (by rewrite Z.div_div by lia).
  assert (z / 2 ^ 16 / 256 = z / 2 ^ 24) as E2 by (by rewrite Z.div_div by lia).
  assert (0 ≤ z / 2 ^ 24 < 256) by (split; [apply Z.div_pos; lia|apply Z.div_lt_upper_bound; lia]).
  rewrite (Z.mod_small (z / 2 ^ 24)) by lia. change (2 ^ 8) with 256 in *. lia.
Qed.

Lemma read_header_bytes h rest : 0 ≤ h_Length h < 2 ^ 32 → 0 ≤ h_Version h < 2 ^ 32 →
  0 ≤ h_Request h < 2 ^ 32 → 0 ≤ h_Tag h < 2 ^ 32 →
  read_header (header_bytes h ++ rest) = Some (h, rest).
Proof.
  intros H1 H2 H3 H4. unfold header_bytes, le32. cbn [app read_header].
  rewrite !of_le32_bytes by done. by destruct h.
Qed.

(** A message survives its framing: what is written with a tag is read back with that tag from
    whatever stream it begins, and nothing of the rest is consumed, for every body that the reader's
    guard admits; a larger one, of any size that a frame can carry, is refused. *)
Theorem frame_roundtrip tag body rest : 0 ≤ tag < 2 ^ 32 →
  (Z.of_nat (length body) ≤ maxPayload → readPlist (writePlist tag body ++ rest) = Ok (body, tag, rest)) ∧
  (maxPayload < Z.of_nat (length body) < 2 ^ 32 - 16 → is_ok (readPlist (writePlist tag body ++ rest)) = false).
Proof.
  intros Ht. unfold writePlist, readPlist. rewrite <-app_assoc.
  assert (∀ n, 0 ≤ u32 n < 2 ^ 32) as Hu by (intros; apply Z.mod_pos_bound; lia).
  rewrite read_header_bytes by (cbn; unfold protocolVersion, messagePlist; auto; lia). cbn [h_Length h_Tag].
  split; intros Hl; unfold maxPayload in *; unfold u32; rewrite Z.mod_small by lia.
  - destruct (_ || _) eqn:E; [lia|]. replace (Z.to_nat _) with (length body) by lia.
    destruct (Nat.ltb_spec (length (body ++ rest)) (length body)) as [H|_]; [rewrite length_app in H; lia|].
    by rewrite firstn_app, skipn_app, firstn_all, skipn_all, Nat.sub_diag, app_nil_r.
  - by destruct (_ || _) eqn:E; [|lia].
Qed.

Lemma frame_roundtrip_witness :
  readPlist (writePlist 1 [60; 112; 62] ++ [7]) = Ok ([60; 112; 62], 1, [7]).
Proof. apply frame_roundtrip; [lia|]. vm_compute. discriminate. Defined.

(** The reader never allocates more than the guard. *)
Lemma readPlist_bounded r body tag rest : readPlist r = Ok (body, tag, rest) →
  Z.of_nat (length body) ≤ maxPayload.
Proof.
  unfold readPlist. destruct (read_header r) as [[h r']|]; [|done].
  destruct (_ || _) eqn:E; [done|]. destruct (_ <? _)%nat; [done|]. intros [= <- _ _].
  pose proof (length_firstn (Z.to_nat (h_Length h - 16)) r'). lia.
Qed.

(** ** The listen stream *)

Record properties : Type := mkProperties { pr_SerialNumber : string; pr_ConnectionType : string; pr_ProductID : Z }.
Record reply : Type := mkReply {
  rp_MessageType : string; rp_Number : Z; rp_DeviceID : Z; rp_Properties : properties }.

Inductive EventKind : Type := Attached | Detached.
#[global] Instance EventKind_eq_dec : EqDecision EventKind.
Proof. solve_decision. Defined.

Record Event : Type := mkEvent { evt_Kind : EventKind; evt_UDID : string; evt_Transport : string }.

Definition mapTransport (connType : string) : string :=
  if equal_fold connType "USB" then TransportUSB else TransportWiFi.

(** A message: [None] does not decode.  The event that it emits, or the end of the stream. *)
Definition listen_message (msg : option reply) (attached : gmap Z Event) :
    result (list Event * gmap Z Event) :=
  match msg with
  | None => Ok ([], attached)
  | Some msg =>
      if String.eqb (rp_MessageType msg) "Result" then
        if rp_Number msg =? 0 then Ok ([], attached)
        else Err ("muxd: Listen refused (result " +:+ fmt_d (rp_Number msg) +:+ ")")
      else if String.eqb (rp_MessageType msg) "Attached" then
        if String.eqb (pr_SerialNumber (rp_Properties msg)) "" then Ok ([], attached)
        else
          let ev := mkEvent Attached (pr_SerialNumber (rp_Properties msg))
                      (mapTransport (pr_ConnectionType (rp_Properties msg))) in
          Ok ([ev], <[rp_DeviceID msg := ev]> attached)
      else if String.eqb (rp_MessageType msg) "Detached" then
        match attached !! rp_DeviceID msg with
        | Some ev => Ok ([mkEvent Detached (evt_UDID ev) (evt_Transport ev)], delete (rp_DeviceID msg) attached)
        | None => Ok ([], attached)
        end
      else Ok ([], attached)
  end.

(** The messages of a connection until the stream ends or is refused: what is emitted, and what is
    still attached. *)
Fixpoint listen (msgs : list (option reply)) (attached : gmap Z Event) : list Event * gmap Z Event :=
  match msgs with
  | [] => ([], attached)
  | msg :: msgs' =>
      match listen_message msg attached with
      | Err _ => ([], attached)
      | Ok (evs, attached) => let '(evs', attached) := listen msgs' attached in (evs ++ evs', attached)
      end
  end.

(** ** The client *)

Definition backoffInitial : duration := 500 * Millisecond.
Definition backoffMax : duration := 30 * Second.

Definition nextBackoff (d : duration) : duration :=
  let d := wrap64 (d * 2) in if backoffMax <? d then backoffMax else d.

(** What a sink is told. *)
Inductive sink_call : Type := SinkReset | SinkApply (ev : Event).

(** One turn of [Run]: the dial failed, or the connection gave these messages before it ended. *)
Inductive attempt : Type := DialFailed | Listened (msgs : list (option reply)).

(** The calls of the turns, each with the delay that it sleeps afterwards, from the current delay. *)
Fixpoint Run (delay : duration) (attempts : list attempt) : list (list sink_call * duration) :=
  match attempts with
  | [] => []
  | DialFailed :: rest => ([], delay) :: Run (nextBackoff delay) rest
  | Listened msgs :: rest =>
      (SinkReset :: (SinkApply <$> (listen msgs ∅).1), backoffInitial) :: Run (nextBackoff backoffInitial) rest
  end.

Lemma backoff_step d : backoffInitial ≤ d ≤ backoffMax → backoffInitial ≤ nextBackoff d ≤ backoffMax.
Proof.
  unfold nextBackoff, backoffInitial, backoffMax, Millisecond, Second. intros H.
  rewrite wrap64_id by (unfold int64_min, int64_max; lia). destruct (_ <? _) eqn:E; lia.
Qed.

Lemma Run_delays attempts : ∀ delay, backoffInitial ≤ delay ≤ backoffMax →
  Forall (λ turn, backoffInitial ≤ turn.2 ≤ backoffMax) (Run delay attempts).
Proof.
  induction attempts as [|[|msgs] rest IH]; intros delay Hd; [constructor|..]; constructor;
    try (cbn; unfold backoffInitial, backoffMax, Millisecond, Second in *; lia); by apply IH, backoff_step.
Qed.

(** ** What the stream says is there *)

(** The edges of one connection, as a sink folds them. *)
Abbreviation edge := (string * string)%type.
Definition edge_of (ev : Event) : edge := (evt_UDID ev, evt_Transport ev).
Definition fold_edge (s : gset edge) (ev : Event) : gset edge :=
  match evt_Kind ev with Attached => {[edge_of ev]} ∪ s | Detached => s ∖ {[edge_of ev]} end.

(** What the muxer holds attached. *)
Definition held (attached : gmap Z Event) (e : edge) : Prop := ∃ id ev, attached !! id = Some ev ∧ edge_of ev = e.

(** What the muxer promises of its ids within a connection: one that is attached is not given out
    again, and stands for its edge alone. *)
Definition tidy_message (msg : option reply) (attached : gmap Z Event) : Prop :=
  ∀ ev attached', listen_message msg attached = Ok ([ev], attached') → evt_Kind ev = Attached →
    (∀ m, msg = Some m → attached !! rp_DeviceID m = None) ∧ ¬ held attached (edge_of ev).

Fixpoint tidy (msgs : list (option reply)) (attached : gmap Z Event) : Prop :=
  match msgs with
  | [] => True
  | msg :: msgs' =>
      tidy_message msg attached ∧
      match listen_message msg attached with Err _ => True | Ok (_, attached) => tidy msgs' attached end
  end.

(** The cases of a message. *)
Inductive message_does (msg : option reply) (attached : gmap Z Event) : list Event → gmap Z Event → Prop :=
  | does_nothing : message_does msg attached [] attached
  | does_attach m ev : msg = Some m → evt_Kind ev = Attached →
      message_does msg attached [ev] (<[rp_DeviceID m := ev]> attached)
  | does_detach m ev : msg = Some m → attached !! rp_DeviceID m = Some ev →
      message_does msg attached [mkEvent Detached (evt_UDID ev) (evt_Transport ev)]
        (delete (rp_DeviceID m) attached).

Lemma listen_message_does msg attached evs attached' :
  listen_message msg attached = Ok (evs, attached') → message_does msg attached evs attached'.
Proof.
  unfold listen_message. destruct msg as [m|]; [|intros [= <- <-]; constructor].
  destruct (String.eqb (rp_MessageType m) "Result"); [destruct (_ =? 0); [intros [= <- <-]; constructor|done]|].
  destruct (String.eqb (rp_MessageType m) "Attached").
  - destruct (String.eqb _ ""); intros [= <- <-]; [constructor|]. by apply (does_attach _ _ m).
  - destruct (String.eqb (rp_MessageType m) "Detached"); [|intros [= <- <-]; constructor].
    destruct (attached !! rp_DeviceID m) as [ev|] eqn:E; intros [= <- <-]; [|constructor].
    by apply (does_detach _ _ m).
Qed.

(** The sink's edges [s] are what is held, and each is held by one id. *)
Definition tracks (s : gset edge) (attached : gmap Z Event) : Prop :=
  (∀ e, e ∈ s ↔ held attached e) ∧
  (∀ i j a b, attached !! i = Some a → attached !! j = Some b → edge_of a = edge_of b → i = j).

Lemma listen_message_tracks msg attached evs attached' s :
  listen_message msg attached = Ok (evs, attached') → tidy_message msg attached → tracks s attached →
  tracks (fold_left fold_edge evs s) attached'.
Proof.
  intros Hm Ht [Hs Hone]. pose proof (listen_message_does _ _ _ _ Hm) as Hd.
  inversion Hd as [|m ev -> Hk|m ev -> Hid]; subst evs attached'; [done|..]; cbn [fold_left].
  - destruct (Ht ev _ Hm Hk) as [Hfree%(λ f, f m eq_refl) Hnew]. unfold fold_edge. rewrite Hk. split.
    + intros e. rewrite elem_of_union, elem_of_singleton, Hs. split.
      * intros [->|(i & a & Ha & <-)]; [exists (rp_DeviceID m), ev; by rewrite lookup_insert_eq|].
        exists i, a. split; [|done]. rewrite lookup_insert_ne; [done|congruence].
      * intros (i & a & Ha & <-). rewrite lookup_insert in Ha. case_decide; [left; congruence|right; by exists i, a].
    + intros i j a b. rewrite !lookup_insert. do 2 case_decide; intros Ha Hb He; [congruence|..|by eapply Hone].
      * destruct Hnew. exists j, b. split; [done|]. injection Ha as ->. done.
      * destruct Hnew. exists i, a. split; [done|]. injection Hb as ->. done.
  - unfold fold_edge. cbn [evt_Kind]. change (edge_of (mkEvent Detached _ _)) with (edge_of ev). split.
    + intros e. rewrite elem_of_difference, elem_of_singleton, Hs. split.
      * intros [(i & a & Ha & <-) Hne]. exists i, a. split; [|done]. rewrite lookup_delete_ne; [done|congruence].
      * intros (i & a & Ha & <-). rewrite lookup_delete in Ha. case_decide as E; [done|]. split; [by exists i, a|].
        intros He. apply E. by eapply Hone.
    + intros i j a b. rewrite !lookup_delete. do 2 case_decide; try done. by eauto.
Qed.

Lemma listen_tracks msgs : ∀ attached s, tidy msgs attached → tracks s attached →
  tracks (fold_left fold_edge (listen msgs attached).1 s) (listen msgs attached).2.
Proof.
  induction msgs as [|msg msgs IH]; intros attached s Ht Hs; [done|]. destruct Ht as [Hm Ht]. cbn [listen].
  destruct (listen_message msg attached) as [[evs attached']|err] eqn:E; [|done].
  pose proof (listen_message_tracks _ _ _ _ _ E Hm Hs) as Hs'. specialize (IH attached' _ Ht Hs').
  destruct (listen msgs attached') as [evs' last]. cbn [fst snd] in *. by rewrite fold_left_app.
Qed.

(** Every edge that the client emits is on one of the two transports, of a device with a name. *)
Definition proper_edge (ev : Event) : Prop :=
  evt_UDID ev ≠ ""%string ∧ (evt_Transport ev = TransportUSB ∨ evt_Transport ev = TransportWiFi).

Lemma listen_message_proper msg attached evs attached' : listen_message msg attached = Ok (evs, attached') →
  map_Forall (λ _ ev, proper_edge ev) attached → Forall proper_edge evs ∧ map_Forall (λ _ ev, proper_edge ev) attached'.
Proof.
  unfold listen_message. intros Hm Ha. destruct msg as [m|]; [|by simplify_eq].
  destruct (String.eqb (rp_MessageType m) "Result"); [by destruct (_ =? 0); simplify_eq|].
  destruct (String.eqb (rp_MessageType m) "Attached").
  - destruct (String.eqb_spec (pr_SerialNumber (rp_Properties m)) "") as [|Hne]; simplify_eq; [done|].
    assert (proper_edge (mkEvent Attached (pr_SerialNumber (rp_Properties m)) (mapTransport (pr_ConnectionType (rp_Properties m))))).
    { split; [done|]. cbn [evt_Transport]. unfold mapTransport. destruct (equal_fold _ _); auto. }
    split; [by apply Forall_singleton|]. by apply map_Forall_insert_2.
  - destruct (String.eqb (rp_MessageType m) "Detached"); [|by simplify_eq].
    destruct (attached !! rp_DeviceID m) as [ev|] eqn:E; simplify_eq; [|done].
    split; [apply Forall_singleton; exact (Ha _ _ E)|]. by apply map_Forall_delete.
Qed.

Lemma listen_proper msgs : ∀ attached, map_Forall (λ _ ev, proper_edge ev) attached →
  Forall proper_edge (listen msgs attached).1.
Proof.
  induction msgs as [|msg msgs IH]; intros attached Ha; [constructor|]. cbn [listen].
  destruct (listen_message msg attached) as [[evs attached']|err] eqn:E; [|constructor].
  destruct (listen_message_proper _ _ _ _ E Ha) as [He Ha']. specialize (IH _ Ha').
  destruct (listen msgs attached') as [evs' last]. cbn [fst] in *. by apply Forall_app.
Qed.
