(* ===== verification/Registry.v ===== *)
(** * Registry: which devices are there

    Models core/internal/device/registry.go.  Presence is a table from the source (a muxer) to the
    device to the transport to the time it was last seen; a device is present on a transport while
    any source says so.  What the registry reads elsewhere (the last backup, the devices that have
    versions, the notification switch) are fields, as the functions it is wired with are.  An
    operation returns the events that its caller publishes once it has left the lock; [Broadcast] is
    the registry with the events that each goroutine has still to publish, and its steps interleave
    freely.  Go's open map order is [range]. *)

From Stdlib Require Import String Ascii.
From S2P Require Import Prelude Domain Events Muxd.

Record Identity : Type := mkIdentity {
  id_Name : string; id_Model : string; id_IOSVersion : string; id_Paired : string;
  id_BackupEncryption : string; id_WifiSync : string }.
#[global] Instance Identity_eq_dec : EqDecision Identity.
Proof. solve_decision. Defined.

Record PersistedIdentity : Type := mkPersisted { pi_UDID : string; pi_Identity : Identity; pi_LastSeen : string }.

(** transport → last_seen, by device. *)
Abbreviation edges := (gmap string string).
Abbreviation by_udid := (gmap string edges).

Record Registry : Type := mkRegistry {
  rg_sources : gmap string by_udid;
  rg_order : list string;
  rg_identity : gmap string Identity;
  rg_offlineSeen : gmap string string;
  rg_lastBackup : option (string → option LastBackup);
  rg_knownUDIDs : option (list string);
  rg_persists : bool;                       (* [persistIdentity] is wired *)
  rg_notifyPref : option (string → bool) }.

Definition NewRegistry : Registry := mkRegistry ∅ [] ∅ ∅ None None false None.

Definition set_sources (s : gmap string by_udid) (r : Registry) : Registry :=
  mkRegistry s (rg_order r) (rg_identity r) (rg_offlineSeen r) (rg_lastBackup r) (rg_knownUDIDs r)
    (rg_persists r) (rg_notifyPref r).
Definition set_order (o : list string) (r : Registry) : Registry :=
  mkRegistry (rg_sources r) o (rg_identity r) (rg_offlineSeen r) (rg_lastBackup r) (rg_knownUDIDs r)
    (rg_persists r) (rg_notifyPref r).
Definition set_identity (m : gmap string Identity) (r : Registry) : Registry :=
  mkRegistry (rg_sources r) (rg_order r) m (rg_offlineSeen r) (rg_lastBackup r) (rg_knownUDIDs r)
    (rg_persists r) (rg_notifyPref r).
Definition set_seen (m : gmap string string) (r : Registry) : Registry :=
  mkRegistry (rg_sources r) (rg_order r) (rg_identity r) m (rg_lastBackup r) (rg_knownUDIDs r)
    (rg_persists r) (rg_notifyPref r).
Definition SetLastBackupSource (f : string → option LastBackup) (r : Registry) : Registry :=
  mkRegistry (rg_sources r) (rg_order r) (rg_identity r) (rg_offlineSeen r) (Some f) (rg_knownUDIDs r)
    (rg_persists r) (rg_notifyPref r).
Definition SetKnownUDIDs (l : list string) (r : Registry) : Registry :=
  mkRegistry (rg_sources r) (rg_order r) (rg_identity r) (rg_offlineSeen r) (rg_lastBackup r) (Some l)
    (rg_persists r) (rg_notifyPref r).
Definition SetPersist (r : Registry) : Registry :=
  mkRegistry (rg_sources r) (rg_order r) (rg_identity r) (rg_offlineSeen r) (rg_lastBackup r)
    (rg_knownUDIDs r) true (rg_notifyPref r).
Definition SetNotifyPrefSource (f : string → bool) (r : Registry) : Registry :=
  mkRegistry (rg_sources r) (rg_order r) (rg_identity r) (rg_offlineSeen r) (rg_lastBackup r)
    (rg_knownUDIDs r) (rg_persists r) (Some f).

Definition load_row (r : Registry) (row : PersistedIdentity) : Registry :=
  if String.eqb (pi_UDID row) "" then r
  else
    let r := set_identity (<[pi_UDID row := pi_Identity row]> (rg_identity r)) r in
    if String.eqb (pi_LastSeen row) "" then r
    else set_seen (<[pi_UDID row := pi_LastSeen row]> (rg_offlineSeen r)) r.

Definition LoadPersisted (rows : list PersistedIdentity) (r : Registry) : Registry := fold_left load_row rows r.

(** An event, before its envelope is stamped. *)
Definition emission : Type := string * payload.

(** ** Edges *)

Definition edge_seen (m : by_udid) (udid transport : string) : option string := m !! udid ≫= (.!! transport).

Definition setEdge (source udid transport seen : string) (r : Registry) : Registry :=
  let byUDID := default ∅ (rg_sources r !! source) in
  let es := default ∅ (byUDID !! udid) in
  set_sources (<[source := <[udid := <[transport := seen]> es]> byUDID]> (rg_sources r)) r.

Definition clearEdge (source udid transport : string) (r : Registry) : Registry :=
  match rg_sources r !! source with
  | None => r
  | Some byUDID =>
      match byUDID !! udid with
      | None => r
      | Some es =>
          let es := delete transport es in
          let byUDID := if bool_decide (es = ∅) then delete udid byUDID else <[udid := es]> byUDID in
          set_sources (<[source := byUDID]> (rg_sources r)) r
      end
  end.

Definition ensureOrder (udid : string) (r : Registry) : Registry :=
  if bool_decide (udid ∈ rg_order r) then r else set_order (rg_order r ++ [udid]) r.

(** The first occurrence goes. *)
Fixpoint remove_first (udid : string) (l : list string) : list string :=
  match l with
  | [] => []
  | u :: l' => if String.eqb u udid then l' else u :: remove_first udid l'
  end.
Definition dropFromOrder (udid : string) (r : Registry) : Registry := set_order (remove_first udid (rg_order r)) r.

Section registry.
Context `{Hrange : !MapRange}.

Definition transportPresent (r : Registry) (udid transport : string) : bool :=
  existsb (λ '(_, byUDID), bool_decide (is_Some (edge_seen byUDID udid transport))) (range (rg_sources r)).

(** ** The view of one device *)

Definition deviceShell (r : Registry) (udid : string) : Device :=
  let name := mkDevice udid "" "" "" (mkTransports None None) "unknown" "unknown" "unknown" true "" None in
  let overlaid :=
    match rg_identity r !! udid with
    | None => name
    | Some i =>
        let known v := if String.eqb v "" then "unknown"%string else v in
        mkDevice udid (id_Name i) (id_Model i) (id_IOSVersion i) (mkTransports None None)
          (known (id_Paired i)) (known (id_BackupEncryption i)) (known (id_WifiSync i)) true "" None
    end in
  let notify := match rg_notifyPref r with Some f => f udid | None => true end in
  let backup := match rg_lastBackup r with Some f => f udid | None => None end in
  mkDevice udid (dev_Name overlaid) (dev_Model overlaid) (dev_IOSVersion overlaid) (dev_Transports overlaid)
    (dev_Paired overlaid) (dev_BackupEncryption overlaid) (dev_WifiSync overlaid) notify "" backup.

Definition with_presence (t : Transports) (lastSeen : string) (d : Device) : Device :=
  mkDevice (dev_UDID d) (dev_Name d) (dev_Model d) (dev_IOSVersion d) t (dev_Paired d)
    (dev_BackupEncryption d) (dev_WifiSync d) (dev_NotificationsEnabled d) lastSeen (dev_LastBackup d).

(** The newest time that any source saw the device on a transport; the empty string if none did. *)
Definition newer (best : string) (seen : option string) : string :=
  match seen with Some s => if str_ltb best s then s else best | None => best end.
Definition newest (r : Registry) (udid transport : string) : string :=
  fold_left (λ best '(_, byUDID), newer best (edge_seen byUDID udid transport)) (range (rg_sources r)) ""%string.

Definition merged (r : Registry) (udid : string) : option Device :=
  let usbSeen := newest r udid TransportUSB in
  let wifiSeen := newest r udid TransportWiFi in
  if String.eqb usbSeen "" && String.eqb wifiSeen "" then None
  else Some (with_presence (mkTransports (strptr usbSeen) (strptr wifiSeen))
               (newer (newer "" (strptr usbSeen)) (strptr wifiSeen)) (deviceShell r udid)).

Definition offlineShell (r : Registry) (udid : string) : Device :=
  with_presence (dev_Transports (deviceShell r udid)) (default ""%string (rg_offlineSeen r !! udid))
    (deviceShell r udid).

Definition offlineUDIDs (r : Registry) : list string := default [] (rg_knownUDIDs r).
Definition hasVersions (r : Registry) (udid : string) : bool := bool_decide (udid ∈ offlineUDIDs r).

(** ** Reads *)

Definition Devices (r : Registry) : list Device :=
  let live := omap (merged r) (rg_order r) in
  live ++ (offlineShell r <$>
             filter (λ udid, udid ∉ dev_UDID <$> live) (offlineUDIDs r)).

Definition Device_ (r : Registry) (udid : string) : option Device :=
  match merged r udid with
  | Some dev => Some dev
  | None => if hasVersions r udid then Some (offlineShell r udid) else None
  end.

Definition better (best : string * string) (source : string) (seen : option string) : string * string :=
  match seen with
  | None => best
  | Some seen =>
      if str_ltb best.2 seen || (String.eqb seen best.2 && negb (String.eqb best.1 "") && str_ltb source best.1)
      then (source, seen) else best
  end.
Definition SourceFor (r : Registry) (udid transport : string) : option string :=
  let best := fold_left (λ best '(source, byUDID), better best source (edge_seen byUDID udid transport))
                (range (rg_sources r)) (""%string, ""%string) in
  if String.eqb best.1 "" then None else Some best.1.

Context `{!SortSlice}.

Definition TransportsForSource (r : Registry) (sourceID : string) : list string :=
  let edges := range (default ∅ (rg_sources r !! sourceID)) in
  sort_slice str_le (remove_dups (edges ≫= λ '(_, es), (range es).*1)).

(** ** Presence edges *)

Definition device_event (dev : Device) (transport : string) : payload := OfDeviceEvent (mkDeviceEvent dev transport).

Definition apply (now : time) (source : string) (ev : Event) (r : Registry) : list emission * Registry :=
  let udid := evt_UDID ev in
  let transport := evt_Transport ev in
  let before := transportPresent r udid transport in
  match evt_Kind ev with
  | Attached =>
      let r := setEdge source udid transport (fmtRFC now) r in
      if negb before && transportPresent r udid transport then
        let r := ensureOrder udid r in
        let dev := default (mkDevice "" "" "" "" (mkTransports None None) "" "" "" false "" None) (merged r udid) in
        ([(EventDeviceAttached, device_event dev transport)], r)
      else ([], r)
  | Detached =>
      let r := clearEdge source udid transport r in
      if before && negb (transportPresent r udid transport) then
        match merged r udid with
        | Some dev => ([(EventDeviceDetached, device_event dev transport)], r)
        | None =>
            let r := dropFromOrder udid r in
            let r := set_seen (<[udid := fmtRFC now]> (rg_offlineSeen r)) r in
            ((EventDeviceDetached, device_event (deviceShell r udid) transport) ::
               (if hasVersions r udid then [(EventDeviceUpdated, OfDevice (offlineShell r udid))] else []), r)
        end
      else ([], r)
  end.

(** One edge of a source that is dropped, with the devices dropped so far. *)
Definition drop_edge (udid transport : string) (acc : list emission * gset string * Registry) :
    list emission * gset string * Registry :=
  let '(emits, dropped, r) := acc in
  if transportPresent r udid transport then acc
  else match merged r udid with
       | Some dev => (emits ++ [(EventDeviceDetached, device_event dev transport)], dropped, r)
       | None =>
           (emits ++ [(EventDeviceDetached, device_event (deviceShell r udid) transport)], {[udid]} ∪ dropped,
            if bool_decide (udid ∈ dropped) then r else dropFromOrder udid r)
       end.

Definition reset (source : string) (r : Registry) : list emission * Registry :=
  let prev := default ∅ (rg_sources r !! source) in
  let r := set_sources (delete source (rg_sources r)) r in
  let '(emits, _, r) :=
    fold_left (λ acc '(udid, es), fold_left (λ acc '(transport, _), drop_edge udid transport acc) (range es) acc)
      (range prev) ([], ∅, r) in
  (emits, r).

(** ** Identity *)

(** What is persisted, what is published, and the registry. *)
Definition Enrich (udid : string) (i : Identity) (r : Registry) :
    option (string * Identity * string) * list emission * Registry :=
  let changed := bool_decide (rg_identity r !! udid ≠ Some i) in
  let r := if changed then set_identity (<[udid := i]> (rg_identity r)) r else r in
  let dev := merged r udid in
  let r' := match dev with
            | Some d => if String.eqb (dev_LastSeen d) "" then r
                        else set_seen (<[udid := dev_LastSeen d]> (rg_offlineSeen r)) r
            | None => r
            end in
  let lastSeen := default ""%string (rg_offlineSeen r' !! udid) in
  let listed := match dev with
                | Some d => Some d
                | None => if hasVersions r' udid then Some (offlineShell r' udid) else None
                end in
  (if rg_persists r' && (changed || bool_decide (is_Some dev)) then Some (udid, i, lastSeen) else None,
   match listed with
   | Some d => if changed then [(EventDeviceUpdated, OfDevice d)] else []
   | None => []
   end, r').

Definition AnnounceBackup (udid : string) (r : Registry) : list emission :=
  match merged r udid with Some dev => [(EventDeviceUpdated, OfDevice dev)] | None => [] end.

(** ** Operations, and their publication

    What an operation emits is published after it has left the lock, one event at a time; until it
    is, the goroutine [caller] is in no other operation, but others may be. *)

Inductive registry_op : Type :=
  | OpApply (now : time) (source : string) (ev : Event)
  | OpReset (source : string)
  | OpEnrich (udid : string) (i : Identity)
  | OpAnnounce (udid : string)
  | OpVersions (known : list string) (last : string → option LastBackup)   (* commits and deletions *)
  | OpNotify (pref : string → bool).                                       (* the switch was moved *)

Definition registry_step (op : registry_op) (r : Registry) : list emission * Registry :=
  match op with
  | OpApply now source ev => apply now source ev r
  | OpReset source => reset source r
  | OpEnrich udid i => let '(_, emits, r) := Enrich udid i r in (emits, r)
  | OpAnnounce udid => (AnnounceBackup udid r, r)
  | OpVersions known last => ([], SetKnownUDIDs known (SetLastBackupSource last r))
  | OpNotify pref => ([], SetNotifyPrefSource pref r)
  end.

Record Broadcast : Type := mkBroadcast {
  bc_registry : Registry;
  bc_pending : gmap nat (list emission);    (* what each goroutine has still to publish *)
  bc_published : list emission }.           (* on the bus, oldest first *)

Definition pending (b : Broadcast) (caller : nat) : list emission := default [] (bc_pending b !! caller).

Inductive broadcast_event : Type :=
  | Locked (caller : nat) (op : registry_op)     (* from Lock to Unlock *)
  | Publishes (caller : nat).                    (* one [PublishEvent] *)

Definition broadcast_step (e : broadcast_event) (b : Broadcast) : Broadcast :=
  match e with
  | Locked caller op =>
      match pending b caller with
      | [] => let '(emits, r) := registry_step op (bc_registry b) in
              mkBroadcast r (<[caller := emits]> (bc_pending b)) (bc_published b)
      | _ => b
      end
  | Publishes caller =>
      match pending b caller with
      | [] => b
      | e :: rest => mkBroadcast (bc_registry b) (<[caller := rest]> (bc_pending b)) (bc_published b ++ [e])
      end
  end.

Definition broadcast_run (es : list broadcast_event) (b : Broadcast) : Broadcast :=
  fold_left (λ b e, broadcast_step e b) es b.

End registry.
