(* ===== verification/DeviceStore.v ===== *)
(** * DeviceStore: the web client's table of devices

    What a client makes of the device events: ui/src/stores/devices.ts and the device cases of
    ui/src/ws/dispatch.ts.  It is the reader that the registry publishes for, and the abstract view
    against which its events are judged. *)

From Stdlib Require Import String Ascii.
From S2P Require Import Prelude Domain Events Muxd Registry.

Record DevicesState : Type := mkDevicesState { byUdid : gmap string Device; ds_order : list string }.

Definition upsert (d : Device) (s : DevicesState) : DevicesState :=
  mkDevicesState (<[dev_UDID d := d]> (byUdid s))
    (if bool_decide (dev_UDID d ∈ ds_order s) then ds_order s else ds_order s ++ [dev_UDID d]).

Definition delete_transport (transport : string) (t : Transports) : Transports :=
  mkTransports (if String.eqb transport TransportUSB then None else tr_USB t)
    (if String.eqb transport TransportWiFi then None else tr_WiFi t).

(** A value that JavaScript takes for true. *)
Definition truthy (v : option string) : bool := match v with Some s => negb (String.eqb s "") | None => false end.

Definition removeTransport (udid transport : string) (s : DevicesState) : DevicesState :=
  match byUdid s !! udid with
  | None => s
  | Some dev =>
      let transports := delete_transport transport (dev_Transports dev) in
      if negb (truthy (tr_USB transports)) && negb (truthy (tr_WiFi transports)) then
        mkDevicesState (delete udid (byUdid s)) (filter (λ u, u ≠ udid) (ds_order s))
      else mkDevicesState (<[udid := with_presence transports (dev_LastSeen dev) dev]> (byUdid s)) (ds_order s)
  end.

Definition replaceAll (devices : list Device) (s : DevicesState) : DevicesState :=
  mkDevicesState (fold_left (λ m d, <[dev_UDID d := d]> m) devices ∅) (dev_UDID <$> devices).

(** The payload read as a device: an event's is the device with one more field. *)
Definition device_of (data : payload) : option Device :=
  match data with OfDevice d => Some d | OfDeviceEvent e => Some (de_Device e) | _ => None end.

Definition dispatch (s : DevicesState) (e : emission) : DevicesState :=
  if bool_decide (e.1 = EventDeviceAttached ∨ e.1 = EventDeviceUpdated) then
    match device_of e.2 with Some d => upsert d s | None => s end
  else if bool_decide (e.1 = EventDeviceDetached) then
    match e.2 with OfDeviceEvent ev => removeTransport (dev_UDID (de_Device ev)) (de_Transport ev) s | _ => s end
  else s.

(** The client shows the device on the transport. *)
Definition on_transport (t : string) (tr : Transports) : bool :=
  if String.eqb t TransportUSB then truthy (tr_USB tr)
  else if String.eqb t TransportWiFi then truthy (tr_WiFi tr) else false.
Definition shows (s : DevicesState) (udid t : string) : bool :=
  match byUdid s !! udid with Some d => on_transport t (dev_Transports d) | None => false end.

Lemma upsert_shows d s udid t :
  shows (upsert d s) udid t = if String.eqb udid (dev_UDID d) then on_transport t (dev_Transports d) else shows s udid t.
Proof.
  unfold shows, upsert. cbn [byUdid]. rewrite lookup_insert. destruct (String.eqb_spec udid (dev_UDID d)) as [->|Hne].
  - by rewrite decide_True.
  - by rewrite decide_False by congruence.
Qed.

Lemma delete_on_transport t t' tr :
  on_transport t' (delete_transport t tr) = negb (String.eqb t' t) && on_transport t' tr.
Proof.
  unfold on_transport, delete_transport. cbn [tr_USB tr_WiFi].
  destruct (String.eqb_spec t' TransportUSB) as [->|]; [|destruct (String.eqb_spec t' TransportWiFi) as [->|]];
    rewrite ?(String.eqb_sym _ t); [by destruct (String.eqb t TransportUSB)|by destruct (String.eqb t TransportWiFi)|].
  by destruct (String.eqb t t').
Qed.

Lemma removeTransport_shows udid t s udid' t' : shows (removeTransport udid t s) udid' t' =
  negb (String.eqb udid' udid && String.eqb t' t) && shows s udid' t'.
Proof.
  unfold removeTransport, shows. destruct (byUdid s !! udid) as [dev|] eqn:E.
  2: { destruct (String.eqb_spec udid' udid) as [->|]; [rewrite E; by rewrite andb_false_r|done]. }
  pose proof (delete_on_transport t t' (dev_Transports dev)) as Hd.
  destruct (negb (truthy _) && negb (truthy _)) eqn:Hgone; cbn [byUdid].
  - destruct (String.eqb_spec udid' udid) as [->|Hne]; [|by rewrite lookup_delete_ne].
    rewrite lookup_delete_eq, E. cbn [andb]. rewrite <-Hd. apply andb_true_iff in Hgone as [H1%negb_true_iff H2%negb_true_iff].
    unfold on_transport. by rewrite H1, H2; repeat case_match.
  - destruct (String.eqb_spec udid' udid) as [->|Hne]; [|by rewrite lookup_insert_ne].
    by rewrite lookup_insert_eq, E.
Qed.

Lemma replaceAll_shows devices s udid t : NoDup (dev_UDID <$> devices) →
  shows (replaceAll devices s) udid t = true ↔
  ∃ d, d ∈ devices ∧ dev_UDID d = udid ∧ on_transport t (dev_Transports d) = true.
Proof.
  intros Hn. unfold shows, replaceAll. cbn [byUdid].
  assert (∀ m, fold_left (λ m d, <[dev_UDID d := d]> m) devices m !! udid =
    from_option Some (m !! udid) (head (filter (λ d, dev_UDID d = udid) devices))) as ->.
  { induction devices as [|d ds IH]; intros m; [done|]. cbn [fold_left]. apply NoDup_cons in Hn as [Hnin Hn].
    rewrite (IH Hn), filter_cons. destruct (decide (dev_UDID d = udid)) as [<-|Hne].
    - rewrite lookup_insert_eq. rewrite (filter_false _ ds); [done|]. apply Forall_forall. intros x Hx He. apply Hnin.
      rewrite <-He. by apply list_elem_of_fmap_2.
    - by rewrite lookup_insert_ne. }
  rewrite lookup_empty. split.
  - destruct (filter _ _) as [|d ds] eqn:Ef; [done|]. cbn. intros Ht. exists d.
    assert (d ∈ filter (λ d, dev_UDID d = udid) devices) as [? ?]%list_elem_of_filter by (rewrite Ef; left). done.
  - intros (d & Hd & Hu & Ht). assert (d ∈ filter (λ d, dev_UDID d = udid) devices) as Hin by (by apply list_elem_of_filter).
    destruct (filter _ _) as [|d' ds] eqn:Ef; [by apply elem_of_nil in Hin|]. cbn.
    assert (d' ∈ filter (λ d, dev_UDID d = udid) devices) as [Hu' Hd']%list_elem_of_filter by (rewrite Ef; left).
    by rewrite (nodup_fmap_eq dev_UDID devices d' d) by congruence.
Qed.
