(* ===== verification/RegistrySafety.v ===== *)
(** * RegistrySafety: the device table and what clients make of its events

    The invariant of [Registry]; which devices are listed, and that a single read agrees with the
    list; that routing does not depend on the order of a map; and that a client that folds the events
    in the order in which goroutines publish them, as the web client does (ui/src/ws/dispatch.ts,
    ui/src/stores/devices.ts), has the presence that the registry has.  Then runs on concrete
    inputs. *)

From Stdlib Require Import String Ascii.
From S2P Require Import Prelude Calendar Domain Events Muxd Registry DeviceStore.

Lemma fmtRFC_nonempty t : fmtRFC t ≠ ""%string.
Proof.
  intros E. apply (f_equal String.length) in E. unfold fmtRFC, fmt_rfc3339 in E.
  rewrite !string_length_app in E. cbn in E. lia.
Qed.

Definition proper_transport (t : string) : Prop := t = TransportUSB ∨ t = TransportWiFi.

(** Every edge carries a time, on one of the two transports. *)
Definition edges_ok (srcs : gmap string by_udid) : Prop :=
  ∀ source m udid t seen, srcs !! source = Some m → edge_seen m udid t = Some seen →
    seen ≠ ""%string ∧ proper_transport t.

(** Some source sees the device on the transport. *)
Definition sees (srcs : gmap string by_udid) (udid t : string) : Prop :=
  ∃ source m, srcs !! source = Some m ∧ is_Some (edge_seen m udid t).

Definition present (srcs : gmap string by_udid) (udid : string) : Prop := ∃ t, sees srcs udid t.

Record registry_ok (r : Registry) : Prop := {
  rg_edges_ok : edges_ok (rg_sources r);
  rg_order_nodup : NoDup (rg_order r);
  rg_order_present : ∀ udid, udid ∈ rg_order r ↔ present (rg_sources r) udid }.

Lemma NewRegistry_ok : registry_ok NewRegistry.
Proof.
  split; cbn [NewRegistry rg_sources rg_order].
  - intros s m u t seen Hm. by rewrite lookup_empty in Hm.
  - constructor.
  - intros u. split; [by intros ?%elem_of_nil|]. intros (t & s & m & Hm & _). by rewrite lookup_empty in Hm.
Qed.

Section safety.
Context `{Hrange : !MapRange}.

Lemma transportPresent_sees r udid t : transportPresent r udid t = true ↔ sees (rg_sources r) udid t.
Proof.
  unfold transportPresent, sees. rewrite existsb_exists. split.
  - intros ([s m] & Hin%list_elem_of_In & He%bool_decide_eq_true_1). exists s, m. by rewrite elem_of_range in Hin.
  - intros (s & m & Hs & He). exists (s, m). split; [by apply list_elem_of_In, elem_of_range|by apply bool_decide_eq_true_2].
Qed.

Lemma transportPresent_not r udid t : transportPresent r udid t = false ↔ ¬ sees (rg_sources r) udid t.
Proof. rewrite <-transportPresent_sees. by destruct (transportPresent r udid t). Qed.

#[global] Instance sees_dec r udid t : Decision (sees (rg_sources r) udid t).
Proof.
  destruct (transportPresent r udid t) eqn:E; [left; by apply transportPresent_sees|right; by apply transportPresent_not].
Defined.

(** ** The newest time *)

Lemma newer_fold udid t (l : list (string * by_udid)) : ∀ best,
  (∀ s m seen, (s, m) ∈ l → edge_seen m udid t = Some seen → seen ≠ ""%string) →
  let b := fold_left (λ best '(_, m), newer best (edge_seen m udid t)) l best in
  b ≠ ""%string ↔ best ≠ ""%string ∨ ∃ s m, (s, m) ∈ l ∧ is_Some (edge_seen m udid t).
Proof.
  induction l as [|[s m] l IH]; intros best Hne; cbn [fold_left].
  - split; [by left|]. intros [?|(s & m & []%elem_of_nil & _)]; done.
  - rewrite IH by (intros s' m' seen Hin; eapply Hne; by right). unfold newer at 1.
    destruct (edge_seen m udid t) as [seen|] eqn:E.
    + assert (seen ≠ ""%string) as Hs by (eapply (Hne s m); [by left|done]). split.
      * intros _. right. exists s, m. rewrite E. split; [by left|by eexists].
      * intros _. left. destruct (str_ltb best seen) eqn:El; [done|]. intros ->. by destruct seen.
    + split; (intros [?|(s' & m' & Hin & Hm)]; [by left|right; exists s', m']).
      * split; [by right|done].
      * apply elem_of_cons in Hin as [[= -> ->]|Hin]; [by destruct Hm; congruence|done].
Qed.

Lemma newest_sees r udid t : edges_ok (rg_sources r) → newest r udid t ≠ ""%string ↔ sees (rg_sources r) udid t.
Proof.
  intros Hok. unfold newest. rewrite newer_fold.
  - split; [intros [|(s & m & Hin & Hm)]; [done|]|intros (s & m & Hs & Hm); right]; exists s, m; by rewrite elem_of_range in *.
  - intros s m seen Hin%elem_of_range Hm. by eapply Hok.
Qed.

Lemma merged_udid r udid dev : merged r udid = Some dev → dev_UDID dev = udid.
Proof. unfold merged. case_match; [done|]. by intros [= <-]. Qed.

Lemma strptr_some s : is_Some (strptr s) ↔ s ≠ ""%string.
Proof. unfold strptr. case_bool_decide; split; try done; by intros []. Qed.

Lemma merged_transports r udid dev : edges_ok (rg_sources r) → merged r udid = Some dev →
  (is_Some (tr_USB (dev_Transports dev)) ↔ sees (rg_sources r) udid TransportUSB) ∧
  (is_Some (tr_WiFi (dev_Transports dev)) ↔ sees (rg_sources r) udid TransportWiFi).
Proof.
  intros Hok. unfold merged. destruct (_ && _); [done|]. intros [= <-]. cbn [with_presence dev_Transports tr_USB tr_WiFi].
  by rewrite !strptr_some, !newest_sees.
Qed.

Lemma merged_present r udid : edges_ok (rg_sources r) → is_Some (merged r udid) ↔ present (rg_sources r) udid.
Proof.
  intros Hok. unfold merged. pose proof (newest_sees r udid TransportUSB Hok) as Hu.
  pose proof (newest_sees r udid TransportWiFi Hok) as Hw. split.
  - destruct (String.eqb_spec (newest r udid TransportUSB) ""), (String.eqb_spec (newest r udid TransportWiFi) "");
      cbn [andb]; [by intros []|intros _; eexists..]; [by apply Hw|by apply Hu|by apply Hu].
  - intros (t & Hs). assert (proper_transport t) as Ht.
    { destruct Hs as (s & m & Hm & [seen Hseen]). by eapply Hok. }
    destruct (String.eqb_spec (newest r udid TransportUSB) ""), (String.eqb_spec (newest r udid TransportWiFi) "");
      cbn [andb]; try by eexists. destruct Ht as [->| ->]; tauto.
Qed.

Lemma merged_none r udid : edges_ok (rg_sources r) → merged r udid = None ↔ ¬ present (rg_sources r) udid.
Proof. intros Hok. rewrite <-(merged_present r udid Hok). destruct (merged r udid); split; try done; intros []; by eexists. Qed.

(** ** Edges of a changed table *)

Lemma edge_insert m udid t seen udid' t' :
  edge_seen (<[udid := <[t := seen]> (default ∅ (m !! udid))]> m) udid' t' =
  if bool_decide (udid = udid' ∧ t = t') then Some seen else edge_seen m udid' t'.
Proof.
  unfold edge_seen. rewrite lookup_insert. case_decide as Hu.
  - subst udid'. cbn [mbind option_bind]. rewrite lookup_insert. case_decide as Ht.
    + by rewrite bool_decide_true.
    + rewrite bool_decide_false by tauto. by destruct (m !! udid); cbn; [|rewrite lookup_empty].
  - by rewrite bool_decide_false by tauto.
Qed.

Lemma setEdge_sees source udid t seen r udid' t' :
  sees (rg_sources (setEdge source udid t seen r)) udid' t' ↔
  (udid = udid' ∧ t = t') ∨ sees (rg_sources r) udid' t'.
Proof.
  unfold setEdge, sees. cbn [set_sources rg_sources]. split.
  - intros (s & m & Hm & He). rewrite lookup_insert in Hm. case_decide as Es; [|right; by exists s, m].
    injection Hm as <-. rewrite edge_insert in He. case_bool_decide; [by left|right]. subst s.
    destruct (rg_sources r !! source) as [m|] eqn:E; [by exists source, m|].
    cbn in He. unfold edge_seen in He. rewrite lookup_empty in He. by destruct He.
  - intros [[-> ->]|(s & m & Hm & He)].
    + exists source. eexists. rewrite lookup_insert_eq. split; [done|]. rewrite edge_insert, bool_decide_true; [by eexists|done].
    + destruct (decide (source = s)) as [->|Hne].
      * exists s. eexists. rewrite lookup_insert_eq. split; [done|]. rewrite Hm. cbn [default from_option].
        rewrite edge_insert. case_bool_decide; [by eexists|done].
      * exists s, m. by rewrite lookup_insert_ne.
Qed.

Lemma setEdge_edges_ok source udid t seen r : edges_ok (rg_sources r) → seen ≠ ""%string → proper_transport t →
  edges_ok (rg_sources (setEdge source udid t seen r)).
Proof.
  intros Hok Hs Ht s m u t' seen' Hm He. unfold setEdge in Hm. cbn [set_sources rg_sources] in Hm.
  rewrite lookup_insert in Hm. case_decide as Es; [|by eapply Hok]. injection Hm as <-. subst s.
  rewrite edge_insert in He. case_bool_decide as Hut; [destruct Hut as [_ <-]; by injection He as <-|].
  destruct (rg_sources r !! source) as [m|] eqn:E; [by eapply Hok|]. unfold edge_seen in He. cbn in He.
  by rewrite lookup_empty in He.
Qed.

Lemma clearEdge_edge source udid t r s m : rg_sources (clearEdge source udid t r) !! s = Some m →
  ∃ m0, rg_sources r !! s = Some m0 ∧ ∀ udid' t',
    edge_seen m udid' t' = if bool_decide (s = source ∧ udid = udid' ∧ t = t') then None else edge_seen m0 udid' t'.
Proof.
  unfold clearEdge. destruct (rg_sources r !! source) as [m0|] eqn:E0.
  2: { intros Hm. exists m. split; [done|]. intros. rewrite bool_decide_false; [done|]. intros (-> & _). congruence. }
  destruct (m0 !! udid) as [es|] eqn:E1.
  2: { intros Hm. exists m. split; [done|]. intros u' t'. case_bool_decide as H; [|done]. destruct H as (-> & -> & _).
       unfold edge_seen. replace m with m0 by congruence. by rewrite E1. }
  cbn [set_sources rg_sources]. rewrite lookup_insert. case_decide as Es.
  2: { intros Hm. exists m. split; [done|]. intros. rewrite bool_decide_false; [done|]. intros (-> & _). done. }
  intros [= <-]. subst s. exists m0. split; [done|]. intros u' t'. unfold edge_seen.
  destruct (decide (udid = u')) as [<-|Hne].
  - rewrite E1. cbn [mbind option_bind].
    assert ((if bool_decide (delete t es = ∅) then delete udid m0 else <[udid := delete t es]> m0) !! udid ≫= (.!! t')
      = delete t es !! t') as ->.
    { case_bool_decide as Hd; [rewrite lookup_delete_eq, Hd; symmetry; apply lookup_empty|by rewrite lookup_insert_eq]. }
    rewrite lookup_delete. case_decide; [by rewrite bool_decide_true|by rewrite bool_decide_false by naive_solver].
  - rewrite (bool_decide_false (source = source ∧ udid = u' ∧ t = t')) by naive_solver.
    case_bool_decide; [by rewrite lookup_delete_ne|by rewrite lookup_insert_ne].
Qed.

Lemma clearEdge_kept source udid t r s m0 : rg_sources r !! s = Some m0 →
  is_Some (rg_sources (clearEdge source udid t r) !! s).
Proof.
  intros Hs. unfold clearEdge. destruct (rg_sources r !! source) as [m1|]; [|by eexists].
  destruct (m1 !! udid); [|by eexists]. cbn [set_sources rg_sources]. rewrite lookup_insert. case_decide; by eexists.
Qed.

Lemma clearEdge_sees source udid t r udid' t' : (udid, t) ≠ (udid', t') →
  sees (rg_sources (clearEdge source udid t r)) udid' t' ↔ sees (rg_sources r) udid' t'.
Proof.
  intros Hne. split.
  - intros (s & m & Hm & He). destruct (clearEdge_edge _ _ _ _ _ _ Hm) as (m0 & Hm0 & Hedge). exists s, m0.
    split; [done|]. rewrite Hedge in He. case_bool_decide; [by destruct He|done].
  - intros (s & m0 & Hm0 & He). destruct (clearEdge_kept source udid t _ _ _ Hm0) as [m Hm]. exists s, m.
    split; [done|]. destruct (clearEdge_edge _ _ _ _ _ _ Hm) as (m1 & Hm1 & Hedge). rewrite Hedge.
    rewrite bool_decide_false by (intros (_ & -> & ->); done). congruence.
Qed.

Lemma clearEdge_edges_ok source udid t r : edges_ok (rg_sources r) → edges_ok (rg_sources (clearEdge source udid t r)).
Proof.
  intros Hok s m u t' seen Hm He. destruct (clearEdge_edge _ _ _ _ _ _ Hm) as (m0 & Hm0 & Hedge).
  rewrite Hedge in He. case_bool_decide; [done|]. by eapply Hok.
Qed.

Lemma clearEdge_mono source udid t r udid' t' :
  sees (rg_sources (clearEdge source udid t r)) udid' t' → sees (rg_sources r) udid' t'.
Proof.
  intros (s & m & Hm & He). destruct (clearEdge_edge _ _ _ _ _ _ Hm) as (m0 & Hm0 & Hedge). exists s, m0.
  split; [done|]. rewrite Hedge in He. case_bool_decide; [by destruct He|done].
Qed.

(** ** The display order *)

Lemma remove_first_elem u l x : NoDup l → x ∈ remove_first u l ↔ x ∈ l ∧ x ≠ u.
Proof.
  induction 1 as [|y l Hy Hl IH]; cbn [remove_first].
  - split; [by intros ?%elem_of_nil|]. by intros [?%elem_of_nil _].
  - rewrite elem_of_cons. destruct (String.eqb_spec y u) as [->|Hne].
    + split; [intros Hx; split; [by right|by intros ->]|]. by intros [[->|?] ?].
    + rewrite elem_of_cons, IH. naive_solver.
Qed.

Lemma remove_first_nodup u l : NoDup l → NoDup (remove_first u l).
Proof.
  induction 1 as [|y l Hy Hl IH]; cbn [remove_first]; [constructor|]. case_match; [done|]. constructor; [|done].
  rewrite remove_first_elem by done. by intros [? _].
Qed.

Lemma ensureOrder_elem u r x : x ∈ rg_order (ensureOrder u r) ↔ x ∈ rg_order r ∨ x = u.
Proof.
  unfold ensureOrder. case_bool_decide; cbn [set_order rg_order]; [naive_solver|].
  by rewrite elem_of_app, list_elem_of_singleton.
Qed.

Lemma ensureOrder_nodup u r : NoDup (rg_order r) → NoDup (rg_order (ensureOrder u r)).
Proof.
  intros Hn. unfold ensureOrder. case_bool_decide as Hu; [done|]. cbn [set_order rg_order].
  apply NoDup_app. split; [done|]. split; [|apply NoDup_singleton]. by intros x Hx ->%list_elem_of_singleton.
Qed.

Lemma ensureOrder_sources u r : rg_sources (ensureOrder u r) = rg_sources r.
Proof. unfold ensureOrder. by case_bool_decide. Qed.

(** Reads do not depend on the order or on the recorded times. *)
Lemma merged_same r r' udid : rg_sources r' = rg_sources r → is_Some (merged r' udid) ↔ is_Some (merged r udid).
Proof.
  intros E. unfold merged, newest. rewrite E. by destruct (_ && _).
Qed.

Lemma transportPresent_same r r' udid t : rg_sources r' = rg_sources r → transportPresent r' udid t = transportPresent r udid t.
Proof. intros E. unfold transportPresent. by rewrite E. Qed.

(** ** What one presence edge does *)

Definition detached_event (udid t : string) (e : emission) : Prop :=
  ∃ dev, e = (EventDeviceDetached, device_event dev t) ∧ dev_UDID dev = udid.

Lemma deviceShell_udid r udid : dev_UDID (deviceShell r udid) = udid.
Proof. done. Qed.

Record apply_spec (r : Registry) (ev : Event) (emits : list emission) (r' : Registry) : Prop := {
  apply_ok : registry_ok r';
  apply_sees : ∀ udid t, (udid, t) ≠ edge_of ev → sees (rg_sources r') udid t ↔ sees (rg_sources r) udid t;
  apply_emits :
    (emits = [] ∧ (sees (rg_sources r') (evt_UDID ev) (evt_Transport ev) ↔ sees (rg_sources r) (evt_UDID ev) (evt_Transport ev))) ∨
    (sees (rg_sources r') (evt_UDID ev) (evt_Transport ev) ∧
     ∃ dev, merged r' (evt_UDID ev) = Some dev ∧ emits = [(EventDeviceAttached, device_event dev (evt_Transport ev))]) ∨
    (¬ sees (rg_sources r') (evt_UDID ev) (evt_Transport ev) ∧
     ∃ e rest, emits = e :: rest ∧ detached_event (evt_UDID ev) (evt_Transport ev) e ∧
       (rest = [] ∨ ¬ present (rg_sources r') (evt_UDID ev) ∧
          rest = [(EventDeviceUpdated, OfDevice (offlineShell r' (evt_UDID ev)))])) }.

Lemma attach_spec now source udid t r : registry_ok r → proper_transport t →
  apply_spec r (mkEvent Attached udid t) (apply now source (mkEvent Attached udid t) r).1
    (apply now source (mkEvent Attached udid t) r).2.
Proof.
  intros [He Hn Hp] Ht. unfold apply. cbn [evt_Kind evt_UDID evt_Transport].
  set (r1 := setEdge source udid t (fmtRFC now) r).
  assert (∀ u' t', sees (rg_sources r1) u' t' ↔ (udid = u' ∧ t = t') ∨ sees (rg_sources r) u' t') as Hsees
    by (intros; apply setEdge_sees).
  assert (edges_ok (rg_sources r1)) as He1 by (apply setEdge_edges_ok; [done|apply fmtRFC_nonempty|done]).
  assert (sees (rg_sources r1) udid t) as Hnew by (apply Hsees; by left).
  assert (∀ u, present (rg_sources r1) u ↔ present (rg_sources r) u ∨ u = udid) as Hpres.
  { intros u. split.
    - intros (t' & [[<- <-]|Hs]%Hsees); [by right|left; by exists t'].
    - intros [(t' & Hs)| ->]; [exists t'; apply Hsees; by right|by exists t]. }
  rewrite (proj2 (transportPresent_sees r1 udid t) Hnew). rewrite andb_true_r.
  assert (∀ u' t', (u', t') ≠ edge_of (mkEvent Attached udid t) → sees (rg_sources r1) u' t' ↔ sees (rg_sources r) u' t') as Hother.
  { intros u' t' Hne. rewrite Hsees. split; [intros [[-> ->]|?]|]; [done..|by right]. }
  destruct (transportPresent r udid t) eqn:Hb; cbn [negb fst snd].
  - apply transportPresent_sees in Hb. split; [split; [exact He1|done|]|done|].
    + intros u. change (rg_order r1) with (rg_order r). rewrite Hp, Hpres. split; [by left|]. intros [?| ->]; [done|by exists t].
    + left. done.
  - apply transportPresent_not in Hb. split; [split| |].
    + by rewrite ensureOrder_sources.
    + by apply ensureOrder_nodup.
    + intros u. rewrite ensureOrder_elem, ensureOrder_sources, Hpres. change (rg_order r1) with (rg_order r). by rewrite Hp.
    + intros u' t' Hne. rewrite ensureOrder_sources. by apply Hother.
    + right. left. cbn [evt_UDID evt_Transport]. rewrite ensureOrder_sources. split; [done|].
      assert (is_Some (merged (ensureOrder udid r1) udid)) as [dev Hdev].
      { apply merged_present; rewrite ensureOrder_sources; [done|]. by exists t. }
      exists dev. by rewrite Hdev.
Qed.

Lemma detach_spec now source udid t r : registry_ok r →
  apply_spec r (mkEvent Detached udid t) (apply now source (mkEvent Detached udid t) r).1
    (apply now source (mkEvent Detached udid t) r).2.
Proof.
  intros [He Hn Hp]. unfold apply. cbn [evt_Kind evt_UDID evt_Transport]. set (r1 := clearEdge source udid t r).
  assert (∀ u' t', (u', t') ≠ (udid, t) → sees (rg_sources r1) u' t' ↔ sees (rg_sources r) u' t') as Hother.
  { intros u' t' Hne. apply clearEdge_sees. congruence. }
  assert (edges_ok (rg_sources r1)) as He1 by (by apply clearEdge_edges_ok).
  assert (∀ u, u ≠ udid → present (rg_sources r1) u ↔ present (rg_sources r) u) as Hpo.
  { intros u Hu. split; intros (t' & Hs); exists t'; (apply Hother; [congruence|done]) || (apply Hother in Hs; [done|congruence]). }
  assert (rg_order r1 = rg_order r) as Hord.
  { unfold r1, clearEdge. repeat case_match; done. }
  assert ((sees (rg_sources r1) udid t ↔ sees (rg_sources r) udid t) → registry_ok r1) as Hsame.
  { intros Hst. split; [done|by rewrite Hord|]. intros u. rewrite Hord, Hp. destruct (decide (u = udid)) as [->|Hne].
    - split; intros (t' & Hs); exists t'; (destruct (decide (t' = t)) as [->|Hne]; [by apply Hst|]);
        (apply Hother; [congruence|done]) || (apply Hother in Hs; [done|congruence]).
    - symmetry. by apply Hpo. }
  destruct (transportPresent r udid t) eqn:Hb; [destruct (transportPresent r1 udid t) eqn:Ha|]; cbn [andb negb].
  - apply transportPresent_sees in Hb, Ha. split; [by apply Hsame|done|by left].
  - apply transportPresent_sees in Hb. apply transportPresent_not in Ha.
    destruct (merged r1 udid) as [dev|] eqn:Em; cbn [fst snd].
    + assert (present (rg_sources r1) udid) as Hpr by (apply merged_present; [done|by eexists]). split; [split|done|].
      * done.
      * by rewrite Hord.
      * intros u. rewrite Hord, Hp. destruct (decide (u = udid)) as [->|Hne]; [|symmetry; by apply Hpo].
        split; [done|]. intros _. by exists t.
      * right. right. split; [done|]. do 2 eexists. split; [done|]. split; [|by left].
        exists dev. split; [done|]. by eapply merged_udid.
    + assert (¬ present (rg_sources r1) udid) as Hpr by (by apply merged_none). split; [split|done|].
      * done.
      * cbn [set_seen dropFromOrder set_order rg_order]. apply remove_first_nodup. by rewrite Hord.
      * intros u. cbn [set_seen dropFromOrder set_order rg_order rg_sources]. rewrite Hord, remove_first_elem by done. rewrite Hp.
        destruct (decide (u = udid)) as [->|Hne]; [tauto|]. rewrite Hpo by done. tauto.
      * right. right. split; [done|]. do 2 eexists. split; [done|]. split; [by eexists|].
        case_match; [by right|by left].
  - apply transportPresent_not in Hb.
    assert (¬ sees (rg_sources r1) udid t) as Ha by (intros ?%clearEdge_mono; done).
    split; [by apply Hsame|done|left; split; [done|cbn [evt_UDID evt_Transport]; tauto]].
Qed.

Lemma apply_does now source ev r : registry_ok r → proper_edge ev →
  apply_spec r ev (apply now source ev r).1 (apply now source ev r).2.
Proof. intros Hr [_ Ht]. destruct ev as [[] udid t]; [by apply attach_spec|by apply detach_spec]. Qed.

(** ** A reset *)

Definition edge_list (m : by_udid) : list edge :=
  range m ≫= λ '(udid, es), (λ '(t, _), (udid, t)) <$> range es.

Lemma edge_list_elem m udid t : (udid, t) ∈ edge_list m ↔ is_Some (edge_seen m udid t).
Proof.
  unfold edge_list, edge_seen. rewrite list_elem_of_bind. split.
  - intros ([u es] & Hin & Hu%elem_of_range). apply list_elem_of_fmap in Hin as ([t' seen] & [= -> ->] & Ht%elem_of_range).
    rewrite Hu. cbn [mbind option_bind]. by eexists.
  - intros [seen Hs]. destruct (m !! udid) as [es|] eqn:Hu; [|done]. exists (udid, es). split; [|by apply elem_of_range].
    apply list_elem_of_fmap. exists (t, seen). split; [done|]. by apply elem_of_range.
Qed.

Abbreviation drops := (list emission * gset string * Registry)%type.

Lemma reset_folds (l : list (string * edges)) : ∀ acc : drops,
  fold_left (λ acc '(udid, es), fold_left (λ acc '(transport, _), drop_edge udid transport acc) (range es) acc) l acc =
  fold_left (λ acc e, drop_edge e.1 e.2 acc) (l ≫= λ '(udid, es), (λ '(t, _), (udid, t)) <$> range es) acc.
Proof.
  induction l as [|[u es] l IH]; intros acc; [done|]. cbn [mbind list_bind]. rewrite fold_left_app. cbn [fold_left].
  rewrite IH. f_equal. generalize (range es). intros k. revert acc. induction k as [|[t seen] k IHk]; intros acc; [done|].
  cbn [fmap list_fmap fold_left]. apply IHk.
Qed.

(** The edges of a list that leave the table, with their events. *)
Definition left_table (srcs : gmap string by_udid) (e : edge) : Prop := ¬ sees srcs e.1 e.2.

Record dropping (srcs : gmap string by_udid) (order : list string) (done_ : list edge) (acc : drops) : Prop := {
  dr_sources : rg_sources acc.2 = srcs;
  dr_nodup : NoDup (rg_order acc.2);
  dr_order : ∀ u, u ∈ rg_order acc.2 ↔
    u ∈ order ∧ ¬ ∃ t, (u, t) ∈ done_ ∧ left_table srcs (u, t) ∧ ¬ present srcs u;
  dr_dropped : ∀ u, u ∈ acc.1.2 → u ∉ rg_order acc.2;
  dr_events : ∃ gone, (∀ e, e ∈ gone ↔ e ∈ done_ ∧ left_table srcs e) ∧
    Forall2 (λ e em, detached_event e.1 e.2 em) gone acc.1.1 }.

Lemma drop_edge_step srcs order done_ acc u t : edges_ok srcs → dropping srcs order done_ acc →
  dropping srcs order (done_ ++ [(u, t)]) (drop_edge u t acc).
Proof.
  intros Hok [Hs Hn Ho Hd (gone & Hg & Hev)]. destruct acc as [[emits dropped] r]. cbn [fst snd] in *. unfold drop_edge.
  assert (∀ x, x ∈ done_ ++ [(u, t)] ↔ x ∈ done_ ∨ x = (u, t)) as Hdone
    by (intros; by rewrite elem_of_app, list_elem_of_singleton).
  destruct (transportPresent r u t) eqn:Hp.
  - apply transportPresent_sees in Hp. rewrite Hs in Hp. split; cbn [fst snd]; [done..| |done|].
    + intros x. rewrite Ho. split; intros [Hx Hno]; (split; [done|]); intros (t' & Hin & Hl & Hnp); apply Hno; exists t'.
      * apply Hdone in Hin as [Hin|[= -> ->]]; [done|by destruct Hl].
      * split; [apply Hdone; by left|done].
    + exists gone. split; [|done]. intros e. rewrite Hg, Hdone. split; [tauto|]. by intros [[?| ->] Hl]; [|destruct Hl].
  - apply transportPresent_not in Hp. rewrite Hs in Hp.
    assert (∀ em, detached_event u t em → ∃ gone', (∀ e, e ∈ gone' ↔ e ∈ done_ ++ [(u, t)] ∧ left_table srcs e) ∧
      Forall2 (λ e em, detached_event e.1 e.2 em) gone' (emits ++ [em])) as Hevents.
    { intros em Hem. exists (gone ++ [(u, t)]). split; [|by apply Forall2_app; [|apply Forall2_cons]].
      intros e. rewrite elem_of_app, list_elem_of_singleton, Hg, Hdone. split; [|tauto].
      intros [[? ?]| ->]; [tauto|by split; [right|]]. }
    destruct (merged r u) as [dev|] eqn:Em; split; cbn [fst snd]; try done.
    + assert (present srcs u) as Hpr by (rewrite <-Hs; apply merged_present; [by rewrite Hs|by eexists]).
      intros x. rewrite Ho. split; intros [Hx Hno]; (split; [done|]); intros (t' & Hin & Hl & Hnp); apply Hno; exists t'.
      * apply Hdone in Hin as [Hin|[= -> ->]]; [done|by destruct Hnp].
      * split; [apply Hdone; by left|done].
    + apply Hevents. exists dev. split; [done|]. by eapply merged_udid.
    + by case_bool_decide.
    + case_bool_decide; [done|]. cbn [dropFromOrder set_order rg_order]. by apply remove_first_nodup.
    + assert (¬ present srcs u) as Hpr by (rewrite <-Hs; apply merged_none; [by rewrite Hs|done]).
      intros x. transitivity (x ∈ rg_order r ∧ x ≠ u).
      { case_bool_decide as Hin; [|by apply remove_first_elem]. split; [|by intros [? _]].
        intros Hx. split; [done|]. intros ->. by apply (Hd u). }
      rewrite Ho. split.
      * intros [[Hx Hno] Hne]. split; [done|]. intros (t' & Hin & Hl & Hnp).
        apply Hdone in Hin as [Hin|[= -> ->]]; [|done]. apply Hno. by exists t'.
      * intros [Hx Hno]. split; [split; [done|]|].
        -- intros (t' & Hin & Hl & Hnp). apply Hno. exists t'. split; [apply Hdone; by left|done].
        -- intros ->. apply Hno. exists t. split; [apply Hdone; by right|done].
    + intros x. case_bool_decide as Hin.
      * intros [->%elem_of_singleton|Hx]%elem_of_union; [by apply Hd|by apply Hd].
      * cbn [dropFromOrder set_order rg_order]. rewrite remove_first_elem by done.
        intros [->%elem_of_singleton|Hx]%elem_of_union; [by intros [_ ?]|]. intros [Hx' _]. by apply (Hd x).
    + apply Hevents. by eexists.
Qed.

Lemma dropping_all srcs order l : edges_ok srcs → ∀ done_ acc, dropping srcs order done_ acc →
  dropping srcs order (done_ ++ l) (fold_left (λ acc e, drop_edge e.1 e.2 acc) l acc).
Proof.
  intros Hok. induction l as [|[u t] l IH]; intros done_ acc Hd; [by rewrite app_nil_r|].
  cbn [fold_left fst snd]. rewrite cons_middle, app_assoc. apply IH. by apply drop_edge_step.
Qed.

Record reset_spec (r : Registry) (emits : list emission) (r' : Registry) : Prop := {
  reset_ok : registry_ok r';
  reset_mono : ∀ udid t, sees (rg_sources r') udid t → sees (rg_sources r) udid t;
  reset_emits : ∃ gone, (∀ e, e ∈ gone ↔ sees (rg_sources r) e.1 e.2 ∧ ¬ sees (rg_sources r') e.1 e.2) ∧
    Forall2 (λ e em, detached_event e.1 e.2 em) gone emits }.

Lemma reset_does source r : registry_ok r → reset_spec r (reset source r).1 (reset source r).2.
Proof.
  intros [He Hn Hp]. set (srcs := delete source (rg_sources r)). set (prev := default ∅ (rg_sources r !! source)).
  assert (edges_ok srcs) as Hok by (intros s m u t seen [_ Hm]%lookup_delete_Some Hs; by eapply He).
  assert (∀ u t, sees (rg_sources r) u t ↔ sees srcs u t ∨ (u, t) ∈ edge_list prev) as Hsees.
  { intros u t. rewrite edge_list_elem. split.
    - intros (s & m & Hm & Hs). destruct (decide (s = source)) as [->|Hne].
      + right. unfold prev. by rewrite Hm.
      + left. exists s, m. split; [|done]. unfold srcs. by rewrite lookup_delete_ne.
    - intros [(s & m & [_ Hm]%lookup_delete_Some & Hs)|Hs]; [by exists s, m|]. unfold prev in Hs.
      destruct (rg_sources r !! source) as [m|] eqn:E; [by exists source, m|].
      cbn in Hs. unfold edge_seen in Hs. rewrite lookup_empty in Hs. by destruct Hs. }
  unfold reset. fold srcs prev. rewrite reset_folds.
  change (range prev ≫= _) with (edge_list prev).
  assert (dropping srcs (rg_order r) [] ([], ∅, set_sources srcs r)) as H0.
  { split; cbn [fst snd]; [done|done| |by intros u ?%elem_of_empty|].
    - intros u. split; [intros Hu; split; [done|]; by intros (t & ?%elem_of_nil & _)|by intros []].
    - exists []. split; [|constructor]. intros e. split; [by intros ?%elem_of_nil|by intros [?%elem_of_nil _]]. }
  pose proof (dropping_all srcs (rg_order r) (edge_list prev) Hok [] _ H0) as Hd. cbn [app] in Hd.
  destruct (fold_left _ _ _) as [[emits dropped] r'] eqn:Ef. destruct Hd as [Hs Hn' Ho _ (gone & Hg & Hev)].
  cbn [fst snd] in *. split; rewrite ?Hs.
  - split; rewrite ?Hs; [done|done|]. intros u. rewrite Ho, Hp. split.
    + intros [(t & [Hst|Hin]%Hsees) Hno]; [by exists t|]. destruct (transportPresent r' u t) eqn:Et.
      * apply transportPresent_sees in Et. rewrite Hs in Et. by exists t.
      * apply transportPresent_not in Et. rewrite Hs in Et.
        destruct (merged r' u) as [dev|] eqn:Em.
        -- rewrite <-Hs. apply merged_present; [by rewrite Hs|by eexists].
        -- destruct Hno. exists t. split; [done|]. split; [done|]. rewrite <-Hs. apply merged_none; [by rewrite Hs|done].
    + intros (t & Hst). split; [exists t; apply Hsees; by left|]. intros (t' & _ & _ & Hnp). apply Hnp. by exists t.
  - intros u t Hst. apply Hsees. by left.
  - exists gone. split; [|done]. intros [u t]. cbn [fst snd]. rewrite Hg. unfold left_table. cbn [fst snd]. rewrite Hsees. tauto.
Qed.

(** ** Every operation *)

(** A muxer's client hands over proper edges only ([Muxd.listen_proper]); a device that has versions
    is named once. *)
Definition op_ok (op : registry_op) : Prop :=
  match op with OpApply _ _ ev => proper_edge ev | OpVersions known _ => NoDup known | _ => True end.

Fixpoint registry_run (ops : list registry_op) (r : Registry) : list emission * Registry :=
  match ops with
  | [] => ([], r)
  | op :: ops' =>
      let '(emits, r) := registry_step op r in
      let '(emits', r) := registry_run ops' r in (emits ++ emits', r)
  end.

Lemma same_table_ok r r' : rg_sources r' = rg_sources r → rg_order r' = rg_order r → registry_ok r → registry_ok r'.
Proof. intros E1 E2 [He Hn Hp]. split; by rewrite ?E1, ?E2. Qed.

Lemma Enrich_table udid i r : rg_sources (Enrich udid i r).2 = rg_sources r ∧ rg_order (Enrich udid i r).2 = rg_order r.
Proof. unfold Enrich. cbn [snd]. repeat case_match; done. Qed.

Lemma registry_step_ok op r : op_ok op → registry_ok r → registry_ok (registry_step op r).2.
Proof.
  intros Hop Hr. destruct op as [now source ev|source|udid i|udid|known last|pref]; cbn [registry_step]; try done.
  - by apply (apply_does now source ev r).
  - by apply (reset_does source r).
  - pose proof (Enrich_table udid i r) as [E1 E2]. destruct (Enrich udid i r) as [[p emits] r']. cbn [snd] in *.
    by apply (same_table_ok r).
  - by apply (same_table_ok r).
  - by apply (same_table_ok r).
Qed.

Lemma registry_run_cons op ops r : registry_run (op :: ops) r =
  ((registry_step op r).1 ++ (registry_run ops (registry_step op r).2).1, (registry_run ops (registry_step op r).2).2).
Proof.
  cbn [registry_run]. destruct (registry_step op r) as [emits r1]. cbn [fst snd].
  by destruct (registry_run ops r1).
Qed.

Lemma registry_run_ok ops : ∀ r, Forall op_ok ops → registry_ok r → registry_ok (registry_run ops r).2.
Proof.
  induction ops as [|op ops IH]; intros r Hops Hr; [done|]. apply Forall_cons in Hops as [Hop Hops].
  rewrite registry_run_cons. by apply IH, registry_step_ok.
Qed.

(** ** What is listed *)

Lemma merged_udids r (l : list string) : (∀ u, u ∈ l → is_Some (merged r u)) → dev_UDID <$> omap (merged r) l = l.
Proof.
  induction l as [|u l IH]; intros Hall; [done|]. assert (u ∈ u :: l) as [dev Hdev]%Hall by (by left).
  cbn [omap list_omap]. rewrite Hdev. cbn [fmap list_fmap]. rewrite (merged_udid _ _ _ Hdev). f_equal.
  apply IH. intros u' Hu. apply Hall. by right.
Qed.

Lemma live_udids r : registry_ok r → dev_UDID <$> omap (merged r) (rg_order r) = rg_order r.
Proof.
  intros [He _ Hp]. apply merged_udids. intros u Hu. apply merged_present; [done|]. by apply Hp.
Qed.

Lemma offline_udids r (l : list string) : dev_UDID <$> (offlineShell r <$> l) = l.
Proof. rewrite <-list_fmap_compose. etransitivity; [|apply list_fmap_id]. by apply list_fmap_ext. Qed.

Lemma Devices_udids r : registry_ok r →
  dev_UDID <$> Devices r = rg_order r ++ filter (λ u, u ∉ rg_order r) (offlineUDIDs r).
Proof. intros Hr. unfold Devices. by rewrite fmap_app, offline_udids, (live_udids r Hr). Qed.

Lemma Devices_nodup r : registry_ok r → NoDup (offlineUDIDs r) → NoDup (dev_UDID <$> Devices r).
Proof.
  intros Hr Hn. rewrite (Devices_udids r Hr). apply NoDup_app. split; [apply Hr|]. split; [|by apply NoDup_filter].
  by intros u Hu [? _]%list_elem_of_filter.
Qed.

Lemma Devices_elem r d : registry_ok r →
  d ∈ Devices r ↔ merged r (dev_UDID d) = Some d ∨
    (merged r (dev_UDID d) = None ∧ dev_UDID d ∈ offlineUDIDs r ∧ d = offlineShell r (dev_UDID d)).
Proof.
  intros Hr. pose proof Hr as [He _ Hp]. unfold Devices. rewrite (live_udids r Hr), elem_of_app, list_elem_of_omap, list_elem_of_fmap.
  assert (∀ u, u ∉ rg_order r ↔ merged r u = None) as Hoff by (intros u; by rewrite Hp, merged_none). split.
  - intros [(u & Hu & Hm)|(u & -> & [Hno Hk]%list_elem_of_filter)].
    + left. by rewrite (merged_udid _ _ _ Hm).
    + right. cbn [offlineShell with_presence dev_UDID deviceShell]. by rewrite <-Hoff.
  - intros [Hm|(Hm & Hk & Hd)]; [left|right]; exists (dev_UDID d).
    + split; [|done]. apply Hp, merged_present; [done|by eexists].
    + split; [done|]. apply list_elem_of_filter. by rewrite Hoff.
Qed.

Lemma on_transport_merged r udid d t : registry_ok r → merged r udid = Some d → proper_transport t →
  on_transport t (dev_Transports d) = transportPresent r udid t.
Proof.
  intros [He _ _] Hm Ht. apply eq_true_iff_eq. rewrite transportPresent_sees. rewrite <-newest_sees by done.
  unfold merged in Hm. destruct (_ && _); [done|]. injection Hm as <-. cbn [with_presence dev_Transports].
  unfold on_transport.
  assert (∀ x, truthy (strptr x) = true ↔ x ≠ ""%string) as Htr.
  { intros x. unfold truthy, strptr. case_bool_decide as E; [by rewrite E|]. split; [done|]. intros _.
    by destruct (String.eqb_spec x ""). }
  by destruct Ht as [->| ->]; apply Htr.
Qed.

Lemma on_transport_offline r udid t : on_transport t (dev_Transports (offlineShell r udid)) = false.
Proof.
  assert (dev_Transports (offlineShell r udid) = mkTransports None None) as ->.
  { unfold offlineShell, deviceShell. cbn. by destruct (rg_identity r !! udid). }
  unfold on_transport. by repeat case_match.
Qed.

Lemma Devices_transport r d t : registry_ok r → d ∈ Devices r → proper_transport t →
  on_transport t (dev_Transports d) = transportPresent r (dev_UDID d) t.
Proof.
  intros Hr [Hm|(Hm & _ & ->)]%Devices_elem Ht; [by apply on_transport_merged| |done].
  rewrite on_transport_offline. symmetry. apply transportPresent_not. cbn [offlineShell with_presence dev_UDID deviceShell] in *.
  apply merged_none in Hm; [|apply Hr]. intros Hs. apply Hm. by exists t.
Qed.

Lemma apply_known now source ev r : rg_knownUDIDs (apply now source ev r).2 = rg_knownUDIDs r.
Proof. unfold apply, ensureOrder, clearEdge. repeat case_match; done. Qed.

Lemma drops_known l : ∀ acc : drops,
  rg_knownUDIDs (fold_left (λ acc e, drop_edge e.1 e.2 acc) l acc).2 = rg_knownUDIDs acc.2.
Proof.
  induction l as [|e l IH]; intros acc; [done|]. cbn [fold_left]. rewrite IH.
  destruct acc as [[emits dropped] r]. unfold drop_edge. repeat case_match; done.
Qed.

Lemma reset_known source r : rg_knownUDIDs (reset source r).2 = rg_knownUDIDs r.
Proof.
  unfold reset. rewrite reset_folds. pose proof (drops_known (edge_list (default ∅ (rg_sources r !! source)))
    ([], ∅, set_sources (delete source (rg_sources r)) r)) as H. unfold edge_list in H.
  by destruct (fold_left _ _ _) as [[emits dropped] r'].
Qed.

Lemma Enrich_known udid i r : rg_knownUDIDs (Enrich udid i r).2 = rg_knownUDIDs r.
Proof. unfold Enrich. cbn [snd]. repeat case_match; done. Qed.

Lemma known_nodup ops : ∀ r, Forall op_ok ops → NoDup (offlineUDIDs r) → NoDup (offlineUDIDs (registry_run ops r).2).
Proof.
  induction ops as [|op ops IH]; intros r Hops Hn; [done|]. apply Forall_cons in Hops as [Hop Hops].
  rewrite registry_run_cons. cbn [snd]. apply IH; [done|].
  destruct op as [now source ev|source|udid i|udid|known last|pref]; cbn [registry_step]; unfold offlineUDIDs.
  - by rewrite apply_known.
  - by rewrite reset_known.
  - pose proof (Enrich_known udid i r) as E. destruct (Enrich udid i r) as [[p emits] r']. cbn [snd] in *. by rewrite E.
  - done.
  - exact Hop.
  - done.
Qed.

(** ** What a client makes of the events *)

Definition agrees (s : DevicesState) (r : Registry) : Prop :=
  ∀ udid t, proper_transport t → shows s udid t = transportPresent r udid t.

Lemma load_agrees r s : registry_ok r → NoDup (offlineUDIDs r) → agrees (replaceAll (Devices r) s) r.
Proof.
  intros Hr Hn udid t Ht. apply eq_true_iff_eq. rewrite replaceAll_shows by (by apply Devices_nodup). split.
  - intros (d & Hd & <- & Hs). by rewrite <-(Devices_transport r d t).
  - intros Hp. assert (is_Some (merged r udid)) as [d Hd].
    { apply merged_present; [apply Hr|]. exists t. by apply transportPresent_sees. }
    pose proof (merged_udid _ _ _ Hd) as Hu. exists d. split; [|split; [done|]].
    + apply Devices_elem; [done|]. left. by rewrite Hu.
    + by rewrite (on_transport_merged r udid).
Qed.

Lemma dispatch_upsert typ data d s : typ = EventDeviceAttached ∨ typ = EventDeviceUpdated → device_of data = Some d →
  dispatch s (typ, data) = upsert d s.
Proof. intros Ht Hd. unfold dispatch. cbn [fst snd]. rewrite bool_decide_true by done. by rewrite Hd. Qed.

Lemma dispatch_detached udid t e s : detached_event udid t e → dispatch s e = removeTransport udid t s.
Proof. intros (dev & -> & <-). done. Qed.

Lemma upsert_agrees s r r' udid d : registry_ok r' → agrees s r → dev_UDID d = udid →
  (∀ t, proper_transport t → on_transport t (dev_Transports d) = transportPresent r' udid t) →
  (∀ u t, u ≠ udid → proper_transport t → transportPresent r' u t = transportPresent r u t) →
  agrees (upsert d s) r'.
Proof.
  intros Hr Hs Hd Hown Hother u t Ht. rewrite upsert_shows, Hd. destruct (String.eqb_spec u udid) as [->|Hne].
  - by apply Hown.
  - rewrite Hother by done. by apply Hs.
Qed.

Lemma offline_agrees s r udid : registry_ok r → agrees s r → ¬ present (rg_sources r) udid →
  agrees (upsert (offlineShell r udid) s) r.
Proof.
  intros Hr Hs Hn. apply (upsert_agrees s r r udid); [done..| |done].
  intros t Ht. rewrite on_transport_offline. symmetry. apply transportPresent_not. intros Hse. apply Hn. by exists t.
Qed.

Lemma merged_agrees s r r' udid d : registry_ok r → agrees s r → merged r udid = Some d →
  rg_sources r' = rg_sources r → agrees (upsert d s) r'.
Proof.
  intros Hr Hs Hm E u t Ht. rewrite (transportPresent_same r r') by done.
  apply (upsert_agrees s r r udid); [done|done|by eapply merged_udid| |done|done].
  intros. by apply on_transport_merged.
Qed.

Lemma same_seen_agrees s r r' : (∀ u t, sees (rg_sources r') u t ↔ sees (rg_sources r) u t) → agrees s r → agrees s r'.
Proof.
  intros E Hs u t Ht. rewrite Hs by done. apply eq_true_iff_eq. by rewrite !transportPresent_sees, E.
Qed.

Lemma apply_agrees now source ev r s : registry_ok r → proper_edge ev → agrees s r →
  agrees (fold_left dispatch (apply now source ev r).1 s) (apply now source ev r).2.
Proof.
  intros Hr Hev Hs. destruct (apply_does now source ev r Hr Hev) as [Hr' Hother Hem].
  destruct (apply now source ev r) as [emits r']. cbn [fst snd] in *. destruct ev as [kind udid t].
  cbn [evt_UDID evt_Transport] in *. unfold edge_of in Hother. cbn [evt_UDID evt_Transport] in Hother.
  assert (∀ u t', (u, t') ≠ (udid, t) → transportPresent r' u t' = transportPresent r u t') as Hsame.
  { intros u t' Hne. apply eq_true_iff_eq. rewrite !transportPresent_sees. by apply Hother. }
  destruct Hem as [[-> Hst]|[[Hst (dev & Hm & ->)]|[Hst (e & rest & -> & Hde & Hrest)]]]; cbn [fold_left].
  - apply (same_seen_agrees s r); [|done]. intros u t'. destruct (decide ((u, t') = (udid, t))) as [[= -> ->]|Hne]; [done|by apply Hother].
  - rewrite (dispatch_upsert _ _ dev) by (by auto). apply (upsert_agrees s r r' udid); [done|done|by eapply merged_udid| |].
    + intros t' Ht'. by apply on_transport_merged.
    + intros u t' Hne _. apply Hsame. congruence.
  - rewrite (dispatch_detached udid t) by done.
    assert (agrees (removeTransport udid t s) r') as Hrm.
    { intros u t' Ht'. rewrite removeTransport_shows.
      destruct (String.eqb_spec u udid) as [->|Hne]; [destruct (String.eqb_spec t' t) as [->|Hne]|]; cbn [andb negb].
      - symmetry. by apply transportPresent_not.
      - rewrite Hs by done. symmetry. apply Hsame. congruence.
      - rewrite Hs by done. symmetry. apply Hsame. congruence. }
    destruct Hrest as [->|[Hnp ->]]; [done|]. cbn [fold_left].
    rewrite (dispatch_upsert _ _ (offlineShell r' udid)) by (by auto). by apply offline_agrees.
Qed.

Lemma detached_all gone emits : Forall2 (λ (e : edge) em, detached_event e.1 e.2 em) gone emits → ∀ s udid t,
  shows (fold_left dispatch emits s) udid t = bool_decide ((udid, t) ∉ gone) && shows s udid t.
Proof.
  induction 1 as [|[u t0] em gone emits Hd _ IH]; intros s udid t; cbn [fold_left fst snd] in *.
  - by rewrite bool_decide_true by apply not_elem_of_nil.
  - rewrite IH, (dispatch_detached u t0), removeTransport_shows by done.
    destruct (String.eqb_spec udid u) as [->|Hne]; [destruct (String.eqb_spec t t0) as [->|Hne]|]; cbn [andb negb].
    + rewrite andb_false_r. by rewrite bool_decide_false; [|intros Hn; apply Hn; left].
    + f_equal. apply bool_decide_ext. rewrite not_elem_of_cons. naive_solver.
    + f_equal. apply bool_decide_ext. rewrite not_elem_of_cons. naive_solver.
Qed.

Lemma reset_agrees source r s : registry_ok r → agrees s r →
  agrees (fold_left dispatch (reset source r).1 s) (reset source r).2.
Proof.
  intros Hr Hs u t Ht. destruct (reset_does source r Hr) as [Hr' Hmono (gone & Hg & Hev)].
  rewrite (detached_all _ _ Hev), Hs by done. apply eq_true_iff_eq.
  rewrite andb_true_iff, bool_decide_eq_true, !transportPresent_sees, Hg. cbn [fst snd].
  destruct (decide (sees (rg_sources (reset source r).2) u t)) as [Hse|Hse]; [|tauto].
  specialize (Hmono u t Hse). tauto.
Qed.


(** The event of an enrichment carries the device as a read would give it. *)
Lemma Enrich_emits udid i r emits : (Enrich udid i r).1.2 = emits →
  emits = [] ∨ ∃ r1 d, rg_sources r1 = rg_sources r ∧ rg_order r1 = rg_order r ∧ emits = [(EventDeviceUpdated, OfDevice d)] ∧
    (merged r1 udid = Some d ∨ (merged r1 udid = None ∧ d = offlineShell r1 udid)).
Proof.
  unfold Enrich. cbn [fst snd].
  set (r1 := if bool_decide (rg_identity r !! udid ≠ Some i) then set_identity (<[udid:=i]> (rg_identity r)) r else r).
  assert (rg_sources r1 = rg_sources r ∧ rg_order r1 = rg_order r) as [E Eo] by (unfold r1; by case_match).
  destruct (merged r1 udid) as [d|] eqn:Em.
  - case_match; intros <-; [right|by left]. exists r1, d. repeat (split; [done|]). by left.
  - destruct (hasVersions r1 udid); [|intros <-; by left]. case_match; intros <-; [right|by left].
    exists r1, (offlineShell r1 udid). repeat (split; [done|]). by right.
Qed.

Lemma Enrich_agrees udid i r s : registry_ok r → agrees s r →
  agrees (fold_left dispatch (Enrich udid i r).1.2 s) (Enrich udid i r).2.
Proof.
  intros Hr Hs. destruct (Enrich_table udid i r) as [E _].
  assert (∀ s', agrees s' r → agrees s' (Enrich udid i r).2) as Hmove
    by (intros s' Hs'; apply (same_seen_agrees s' r); [by intros; rewrite E|done]).
  destruct (Enrich_emits udid i r _ eq_refl) as [->|(r1 & d & E1 & Eo & -> & Hd)]; cbn [fold_left]; [by apply Hmove|].
  rewrite (dispatch_upsert _ _ d) by (by auto). apply Hmove.
  assert (registry_ok r1) as Hr1 by (by apply (same_table_ok r)).
  assert (agrees s r1) as Hs1 by (apply (same_seen_agrees s r); [by intros; rewrite E1|done]).
  apply (same_seen_agrees _ r1); [by intros; rewrite E1|].
  destruct Hd as [Hm|[Hm ->]]; [by apply (merged_agrees s r1 r1 udid)|].
  apply offline_agrees; [done|done|]. apply merged_none; [apply Hr1|done].
Qed.

Lemma registry_step_agrees op r s : registry_ok r → op_ok op → agrees s r →
  agrees (fold_left dispatch (registry_step op r).1 s) (registry_step op r).2.
Proof.
  intros Hr Hop Hs. destruct op as [now source ev|source|udid i|udid|known last|pref]; cbn [registry_step]; try done.
  - by apply apply_agrees.
  - by apply reset_agrees.
  - pose proof (Enrich_agrees udid i r s Hr Hs) as He. by destruct (Enrich udid i r) as [[p emits] r'].
  - cbn [fst snd]. unfold AnnounceBackup. destruct (merged r udid) as [d|] eqn:Em; [|done]. cbn [fold_left].
    rewrite (dispatch_upsert _ _ d) by (by auto). by apply (merged_agrees s r r udid).
Qed.

Lemma registry_run_agrees ops : ∀ r s, registry_ok r → Forall op_ok ops → agrees s r →
  agrees (fold_left dispatch (registry_run ops r).1 s) (registry_run ops r).2.
Proof.
  induction ops as [|op ops IH]; intros r s Hr Hops Hs; [done|]. apply Forall_cons in Hops as [Hop Hops].
  rewrite registry_run_cons. cbn [fst snd]. rewrite fold_left_app.
  apply IH; [by apply registry_step_ok|done|by apply registry_step_agrees].
Qed.

(** ** The promises of the registry *)

(** Every device is listed once, and as it is.  After any sequence of attachments, detachments,
    reconnections of muxers, enrichments, commits and deletions of versions, the list holds exactly
    the devices that some muxer sees and those that have versions, each once; a listed device is on a
    transport exactly when some muxer sees it there; and reading one device by its id gives what the
    list gives. *)
Theorem devices_listed_once ops : Forall op_ok ops →
  let r := (registry_run ops NewRegistry).2 in
  NoDup (dev_UDID <$> Devices r) ∧
  (∀ udid, udid ∈ dev_UDID <$> Devices r ↔ present (rg_sources r) udid ∨ udid ∈ offlineUDIDs r) ∧
  (∀ d t, d ∈ Devices r → proper_transport t →
     on_transport t (dev_Transports d) = true ↔ sees (rg_sources r) (dev_UDID d) t) ∧
  (∀ udid d, Device_ r udid = Some d ↔ d ∈ Devices r ∧ dev_UDID d = udid).
Proof.
  intros Hops r. assert (registry_ok r) as Hr by (by apply registry_run_ok, NewRegistry_ok).
  assert (NoDup (offlineUDIDs r)) as Hn by (apply known_nodup; [done|constructor]).
  split; [by apply Devices_nodup|]. split; [|split].
  - intros udid. rewrite (Devices_udids r Hr), elem_of_app, list_elem_of_filter, <-(rg_order_present _ Hr).
    destruct (decide (udid ∈ rg_order r)); tauto.
  - intros d t Hd Ht. by rewrite (Devices_transport r d t), transportPresent_sees.
  - intros udid d. rewrite (Devices_elem r d Hr). unfold Device_, hasVersions. split.
    + destruct (merged r udid) as [d'|] eqn:Em.
      * intros [= ->]. rewrite (merged_udid _ _ _ Em). split; [by left|done].
      * case_bool_decide; [|done]. intros [= <-]. split; [right|done]. done.
    + intros [[Hm|(Hm & Hk & Hd)] <-]; rewrite Hm; [done|]. rewrite bool_decide_true by done. by f_equal.
Qed.

(** *** Events that are published late

    What is shown of a device depends on the events about it only. *)

Definition about (udid : string) (e : emission) : bool :=
  match device_of e.2 with Some d => String.eqb (dev_UDID d) udid | None => false end.
Abbreviation of_device udid l := (filter (λ e, about udid e = true) l).

Lemma dispatch_other udid t e s : about udid e = false → shows (dispatch s e) udid t = shows s udid t.
Proof.
  unfold about, dispatch. intros Ha. case_bool_decide.
  - destruct (device_of e.2) as [d|]; [|done]. by rewrite upsert_shows, String.eqb_sym, Ha.
  - case_bool_decide; [|done]. destruct e as [typ []]; try done. cbn [snd device_of] in *.
    by rewrite removeTransport_shows, (String.eqb_sym udid), Ha.
Qed.

Lemma dispatch_same udid t e s s' : shows s udid t = shows s' udid t →
  shows (dispatch s e) udid t = shows (dispatch s' e) udid t.
Proof.
  intros Hs. unfold dispatch. case_bool_decide.
  - destruct (device_of e.2) as [d|]; [|done]. rewrite !upsert_shows. by case_match.
  - case_bool_decide; [|done]. destruct (e.2); try done. by rewrite !removeTransport_shows, Hs.
Qed.

Lemma shows_of_device udid t l : ∀ s s', shows s udid t = shows s' udid t →
  shows (fold_left dispatch l s) udid t = shows (fold_left dispatch (of_device udid l) s') udid t.
Proof.
  induction l as [|e l IH]; intros s s' Hs; [done|]. rewrite filter_cons. cbn [fold_left]. case_decide as Ha.
  - cbn [fold_left]. by apply IH, dispatch_same.
  - apply IH. rewrite dispatch_other; [done|]. by destruct (about udid e).
Qed.

Definition event_ok (e : broadcast_event) : Prop := match e with Locked _ op => op_ok op | Publishes _ => True end.

(** Nothing about the device is on its way. *)
Definition settled_on (udid : string) (b : Broadcast) : Prop := ∀ caller, of_device udid (pending b caller) = [].

(** The device is dealt with in turn: no operation emits about it while another's event about it is
    on its way. *)
Fixpoint in_turn (udid : string) (es : list broadcast_event) (b : Broadcast) : Prop :=
  match es with
  | [] => True
  | e :: es' =>
      match e with
      | Locked caller op => pending b caller = [] → of_device udid (registry_step op (bc_registry b)).1 ≠ [] → settled_on udid b
      | Publishes _ => True
      end ∧ in_turn udid es' (broadcast_step e b)
  end.

Lemma settled_on_iff udid b : settled_on udid b ↔ map_Forall (λ _ l, of_device udid l = []) (bc_pending b).
Proof.
  unfold settled_on, pending. split.
  - intros Hs c l Hl. specialize (Hs c). by rewrite Hl in Hs.
  - intros Hs c. destruct (bc_pending b !! c) as [l|] eqn:E; [by apply (Hs c)|done].
Qed.
#[global] Instance settled_on_dec udid b : Decision (settled_on udid b).
Proof. refine (cast_if (decide (map_Forall (λ _ l, of_device udid l = []) (bc_pending b)))); by rewrite settled_on_iff. Defined.
#[global] Instance in_turn_dec udid es : ∀ b, Decision (in_turn udid es b).
Proof. induction es as [|[c op|c] es IH]; intros b; cbn [in_turn]; apply _. Defined.

(** The operations that a run executed. *)
Fixpoint executed (es : list broadcast_event) (b : Broadcast) : list registry_op :=
  match es with
  | [] => []
  | e :: es' =>
      match e with Locked caller op => if bool_decide (pending b caller = []) then [op] else [] | _ => [] end
      ++ executed es' (broadcast_step e b)
  end.

Lemma executed_ok es : ∀ b, Forall event_ok es → Forall op_ok (executed es b).
Proof.
  induction es as [|e es IH]; intros b Hes; [constructor|]. apply Forall_cons in Hes as [He Hes]. cbn [executed].
  apply Forall_app. split; [|by apply IH]. destruct e as [caller op|]; [|constructor].
  case_bool_decide; [by repeat constructor|constructor].
Qed.

Lemma pending_insert b caller l caller' r ev :
  pending (mkBroadcast r (<[caller := l]> (bc_pending b)) ev) caller' = if decide (caller = caller') then l else pending b caller'.
Proof. unfold pending. cbn [bc_pending]. rewrite lookup_insert. by case_decide. Qed.

Lemma broadcast_registry es : ∀ b, bc_registry (broadcast_run es b) = (registry_run (executed es b) (bc_registry b)).2.
Proof.
  induction es as [|e es IH]; intros b; [done|]. change (broadcast_run (e :: es) b) with (broadcast_run es (broadcast_step e b)).
  rewrite IH. cbn [executed]. destruct e as [caller op|caller]; cbn [broadcast_step]; destruct (pending b caller) as [|e l] eqn:E;
    rewrite ?bool_decide_true, ?bool_decide_false by done; [|done..]. cbn [app]. rewrite registry_run_cons. cbn [snd].
  by destruct (registry_step op (bc_registry b)).
Qed.

(** One goroutine at most has events about the device on their way; they follow those published. *)
Definition in_lock_order (udid : string) (emitted : list emission) (b : Broadcast) : Prop := ∃ caller,
  of_device udid emitted = of_device udid (bc_published b) ++ of_device udid (pending b caller) ∧
  ∀ caller', caller' ≠ caller → of_device udid (pending b caller') = [].

Lemma in_turn_order udid es : ∀ b emitted, in_lock_order udid emitted b → in_turn udid es b →
  in_lock_order udid (emitted ++ (registry_run (executed es b) (bc_registry b)).1) (broadcast_run es b).
Proof.
  induction es as [|e es IH]; intros b emitted Hl Ht; [by cbn; rewrite app_nil_r|].
  destruct Ht as [He Ht]. change (broadcast_run (e :: es) b) with (broadcast_run es (broadcast_step e b)). cbn [executed].
  destruct Hl as (owner & Hown & Hno). destruct e as [caller op|caller]; cbn [broadcast_step] in *;
    destruct (pending b caller) as [|e l] eqn:E; rewrite ?bool_decide_true, ?bool_decide_false by done; cbn [app];
    try (apply IH; [by exists owner|done]).
  - rewrite registry_run_cons. cbn [fst]. destruct (registry_step op (bc_registry b)) as [emits r] eqn:Es. cbn [fst snd] in *.
    rewrite app_assoc. apply (IH (mkBroadcast r (<[caller := emits]> (bc_pending b)) (bc_published b))); [|done].
    destruct (decide (of_device udid emits = [])) as [Hnil|Hsome].
    + exists owner. cbn [bc_published]. rewrite filter_app, Hnil, app_nil_r. split.
      * rewrite pending_insert. case_decide as Ec; [|done]. subst owner. by rewrite Hnil, Hown, E.
      * intros c Hc. rewrite pending_insert. case_decide; [done|by apply Hno].
    + pose proof (He eq_refl Hsome) as Hset. exists caller. cbn [bc_published]. split.
      * rewrite pending_insert, decide_True by done. by rewrite filter_app, Hown, (Hset owner), app_nil_r.
      * intros c Hc. rewrite pending_insert, decide_False by done. apply Hset.
  - apply (IH (mkBroadcast (bc_registry b) (<[caller := l]> (bc_pending b)) (bc_published b ++ [e]))); [|done].
    exists owner. cbn [bc_published]. rewrite filter_app, pending_insert. rewrite filter_cons, filter_nil. split.
    + rewrite Hown. destruct (decide (caller = owner)) as [->|Ec].
      * rewrite E, filter_cons. case_decide; by rewrite <-?app_assoc, ?app_nil_r.
      * assert (of_device udid (pending b caller) = []) as Hnil by (by apply Hno). rewrite E, filter_cons in Hnil.
        case_decide; [done|]. by rewrite app_nil_r.
    + intros c Hc. rewrite pending_insert. case_decide as Ec; [subst c|by apply Hno].
      specialize (Hno caller Hc). rewrite E, filter_cons in Hno. by case_decide.
Qed.

(** A device that one goroutine speaks of is dealt with in turn. *)
Lemma one_speaker_in_turn udid caller es : ∀ b, (∀ c, c ≠ caller → of_device udid (pending b c) = []) →
  (∀ c op es1 es2, es = es1 ++ Locked c op :: es2 → c ≠ caller → of_device udid (registry_step op (bc_registry (broadcast_run es1 b))).1 = []) →
  in_turn udid es b.
Proof.
  induction es as [|e es IH]; intros b Hothers Hspeak; [done|].
  split.
  - destruct e as [c op|]; [|done]. intros Hp Hsome. assert (c = caller) as ->.
    { destruct (decide (c = caller)) as [|Hne]; [done|]. by destruct Hsome; apply (Hspeak c op [] es). }
    intros c. destruct (decide (c = caller)) as [->|Hne]; [by rewrite Hp|by apply Hothers].
  - apply IH.
    + intros c Hc. destruct e as [c' op|c']; cbn [broadcast_step].
      * destruct (pending b c') eqn:E; [|by apply Hothers].
        pose proof (Hspeak c' op [] es eq_refl) as Hs. change (broadcast_run [] b) with b in Hs.
        destruct (registry_step op (bc_registry b)) as [emits r]. cbn [fst] in Hs. rewrite pending_insert.
        case_decide as Ec; [subst c'; by apply Hs|by apply Hothers].
      * destruct (pending b c') as [|x l] eqn:E; [by apply Hothers|]. rewrite pending_insert.
        case_decide as Ec; [subst c'|by apply Hothers]. specialize (Hothers c Hc). rewrite E, filter_cons in Hothers. by case_decide.
    + intros c op es1 es2 -> Hc. apply (Hspeak c op (e :: es1) es2); done.
Qed.

(** What was put on the bus between two moments. *)
Definition heard_since (b b' : Broadcast) : list emission := drop (length (bc_published b)) (bc_published b').

Lemma published_grows es : ∀ b, ∃ l, bc_published (broadcast_run es b) = bc_published b ++ l.
Proof.
  induction es as [|e es IH]; intros b; [exists []; by rewrite app_nil_r|].
  change (broadcast_run (e :: es) b) with (broadcast_run es (broadcast_step e b)).
  destruct (IH (broadcast_step e b)) as [l ->].
  destruct e as [caller op|caller]; cbn [broadcast_step]; destruct (pending b caller) as [|x rest]; try (by exists l).
  - exists l. by destruct (registry_step op (bc_registry b)).
  - exists ([x] ++ l). cbn [bc_published]. by rewrite app_assoc.
Qed.

Definition start_broadcast : Broadcast := mkBroadcast NewRegistry ∅ [].

(** C19: A client's view follows the registry.  Operations change the table under the lock and publish
    their events after it, one by one, in whatever interleaving of the goroutines.  A client loads the
    list while no event about a device is on its way, and folds the events that are published from
    then on.  Whenever again no event about the device is on its way, it shows the device on a
    transport exactly when the registry has it there, provided that since the load no operation spoke
    of the device while another's event about it was on its way. *)
Theorem clients_track_presence es es' s udid t : Forall event_ok es → Forall event_ok es' → proper_transport t →
  let b := broadcast_run es start_broadcast in
  let b' := broadcast_run es' b in
  settled_on udid b → in_turn udid es' b → settled_on udid b' →
  shows (fold_left dispatch (heard_since b b') (replaceAll (Devices (bc_registry b)) s)) udid t =
  transportPresent (bc_registry b') udid t.
Proof.
  intros Hes Hes' Ht b b' Hb Hturn Hb'.
  set (ops := executed es start_broadcast). set (ops' := executed es' b).
  assert (bc_registry b = (registry_run ops NewRegistry).2) as Hr by apply (broadcast_registry es start_broadcast).
  assert (Forall op_ok ops ∧ Forall op_ok ops') as [Hops Hops'] by (split; by apply executed_ok).
  assert (registry_ok (bc_registry b)) as Hok by (rewrite Hr; by apply registry_run_ok, NewRegistry_ok).
  assert (agrees (replaceAll (Devices (bc_registry b)) s) (bc_registry b)) as Hload.
  { apply load_agrees; [done|]. rewrite Hr. apply known_nodup; [done|constructor]. }
  unfold b'. rewrite broadcast_registry. fold ops'. rewrite <-(registry_run_agrees ops' _ _ Hok Hops' Hload udid t Ht).
  enough (of_device udid (heard_since b (broadcast_run es' b)) = of_device udid (registry_run ops' (bc_registry b)).1) as He.
  { rewrite (shows_of_device udid t (heard_since _ _) _ _ eq_refl), He. symmetry. by apply shows_of_device. }
  destruct (in_turn_order udid es' b (bc_published b)) as (owner & Hown & _); [|done|].
  { exists 0%nat. split; [by rewrite Hb, app_nil_r|]. intros c _. apply Hb. }
  fold ops' b' in Hown. rewrite (Hb' owner), app_nil_r in Hown. unfold heard_since.
  destruct (published_grows es' b) as [l Hl]. fold b' in Hl |- *. rewrite Hl in Hown |- *. rewrite drop_app_length.
  rewrite !filter_app in Hown. by apply app_inv_head in Hown.
Qed.

(** ** Routing *)

(** The source says that it saw the device on the transport at that time. *)
Definition says (r : Registry) (source udid t seen : string) : Prop :=
  ∃ m, rg_sources r !! source = Some m ∧ edge_seen m udid t = Some seen.

(** A later time, or the same time and a smaller name. *)
Definition routes_before (a b : string * string) : Prop := str_lt b.2 a.2 ∨ (b.2 = a.2 ∧ str_le a.1 b.1).

Lemma routes_before_refl a : routes_before a a.
Proof. right. split; [done|]. apply str_le_lteq. by right. Qed.

Lemma routes_before_trans a b c : routes_before a b → routes_before b c → routes_before a c.
Proof.
  intros [H1|[E1 H1]] [H2|[E2 H2]]; unfold routes_before.
  - left. by etrans.
  - left. by rewrite E2.
  - left. by rewrite <-E1.
  - right. split; [congruence|by etrans].
Qed.

Lemma routes_before_antisym a b : routes_before a b → routes_before b a → a = b.
Proof.
  intros [H1|[E1 H1]] [H2|[E2 H2]].
  - by destruct (irreflexivity str_lt a.2); etrans.
  - rewrite E2 in H1. by destruct (irreflexivity str_lt b.2).
  - rewrite E1 in H2. by destruct (irreflexivity str_lt a.2).
  - destruct a, b. cbn in *. subst. f_equal. by apply str_le_antisym.
Qed.

(** One turn of the loop keeps the better of the two. *)
Lemma better_cases best source seen : best.1 ≠ ""%string →
  (better best source (Some seen) = (source, seen) ∧ routes_before (source, seen) best) ∨
  (better best source (Some seen) = best ∧ routes_before best (source, seen)).
Proof.
  intros Hb. unfold better. destruct (str_ltb best.2 seen) eqn:Hlt; cbn [orb]; [left; split; [done|by left]|].
  destruct (String.eqb_spec seen best.2) as [->|Hne]; cbn [andb].
  - destruct (String.eqb_spec best.1 "") as [|_]; [done|]. cbn [negb andb].
    destruct (str_ltb source best.1) eqn:Hs; [left|right]; (split; [done|]); right; (split; [done|]); cbn [fst].
    + apply str_le_lteq. by left.
    + unfold str_le, str_lt. by rewrite Hs.
  - right. split; [done|]. left. destruct (str_lt_total seen best.2) as [?|[?|H]]; [done..|].
    unfold str_lt in H. congruence.
Qed.

Definition edge_in (udid t : string) (l : list (string * by_udid)) (a : string * string) : Prop :=
  ∃ m, (a.1, m) ∈ l ∧ edge_seen m udid t = Some a.2.

Lemma edge_in_cons udid t x l a : edge_in udid t (x :: l) a ↔
  (a.1 = x.1 ∧ edge_seen x.2 udid t = Some a.2) ∨ edge_in udid t l a.
Proof.
  unfold edge_in. split.
  - intros (m & [<-|Hin]%elem_of_cons & He); [by left|right; by exists m].
  - intros [[E He]|(m & Hin & He)]; [|exists m; split; [by right|done]]. exists x.2. split; [|done].
    rewrite E. destruct x. by left.
Qed.

Lemma better_fold udid t l : ∀ best, best.1 ≠ ""%string →
  (∀ a, edge_in udid t l a → a.1 ≠ ""%string) →
  let b := fold_left (λ best '(source, m), better best source (edge_seen m udid t)) l best in
  (b = best ∨ edge_in udid t l b) ∧ routes_before b best ∧ ∀ a, edge_in udid t l a → routes_before b a.
Proof.
  induction l as [|[s m] l IH]; intros best Hb Hne; cbn [fold_left].
  { split; [by left|]. split; [apply routes_before_refl|]. by intros a (m & ?%elem_of_nil & _). }
  assert (∀ a, edge_in udid t l a → a.1 ≠ ""%string) as Hne' by (intros a Ha; apply Hne, edge_in_cons; by right).
  assert (∀ next, next.1 ≠ ""%string → (next = best ∨ edge_seen m udid t = Some next.2 ∧ next.1 = s) →
    routes_before next best → (∀ seen, edge_seen m udid t = Some seen → routes_before next (s, seen)) →
    let b := fold_left (λ best '(source, m), better best source (edge_seen m udid t)) l next in
    (b = best ∨ edge_in udid t ((s, m) :: l) b) ∧ routes_before b best ∧
    ∀ a, edge_in udid t ((s, m) :: l) a → routes_before b a) as Hnext.
  { intros next Hn0 Hfrom Hbest Hhere. destruct (IH next Hn0 Hne') as (Hin & Hb1 & Hall). cbv zeta. split; [|split].
    - destruct Hin as [->|Hin]; [|right; apply edge_in_cons; by right].
      destruct Hfrom as [->|[Hs He]]; [by left|right; apply edge_in_cons; by left].
    - by eapply routes_before_trans.
    - intros [a1 a2] [[Ea He]|Ha]%edge_in_cons; [|by apply Hall]. cbn [fst snd] in *. subst a1.
      eapply routes_before_trans; [exact Hb1|by apply Hhere]. }
  destruct (edge_seen m udid t) as [seen|] eqn:Es.
  - assert (s ≠ ""%string) as Hs by (apply (Hne (s, seen)), edge_in_cons; by left).
    destruct (better_cases best s seen Hb) as [[E Hr]|[E Hr]]; rewrite E; apply Hnext; try done.
    + by right.
    + intros seen' [= <-]. apply routes_before_refl.
    + by left.
    + apply routes_before_refl.
    + by intros seen' [= <-].
  - apply Hnext; [done|by left|apply routes_before_refl|done].
Qed.

Lemma better_start udid t l :
  (∀ a, edge_in udid t l a → a.1 ≠ ""%string ∧ a.2 ≠ ""%string) →
  let b := fold_left (λ best '(source, m), better best source (edge_seen m udid t)) l (""%string, ""%string) in
  (b = (""%string, ""%string) ∧ ∀ a, ¬ edge_in udid t l a) ∨
  (edge_in udid t l b ∧ ∀ a, edge_in udid t l a → routes_before b a).
Proof.
  induction l as [|[s m] l IH]; intros Hne; cbn [fold_left].
  { left. split; [done|]. by intros a (m & ?%elem_of_nil & _). }
  assert (∀ a, edge_in udid t l a → a.1 ≠ ""%string ∧ a.2 ≠ ""%string) as Hne' by (intros a Ha; apply Hne, edge_in_cons; by right).
  destruct (edge_seen m udid t) as [seen|] eqn:Es.
  - destruct (Hne (s, seen)) as [Hs Hseen]; [apply edge_in_cons; by left|]. cbn [fst snd] in *.
    assert (better (""%string, ""%string) s (Some seen) = (s, seen)) as -> by (unfold better; by destruct seen).
    right. destruct (better_fold udid t l (s, seen) Hs) as (Hin & Hb & Hall); [intros a Ha; by apply Hne'|].
    cbv zeta in *. split.
    + apply edge_in_cons. destruct Hin as [->|Hin]; [left; done|by right].
    + intros [a1 a2] [[Ea He]|Ha]%edge_in_cons; [|by apply Hall]. cbn [fst snd] in *. congruence.
  - assert (∀ a, edge_in udid t ((s, m) :: l) a ↔ edge_in udid t l a) as Hl.
    { intros a. rewrite edge_in_cons. cbn [fst snd]. rewrite Es. naive_solver. }
    cbn [better]. destruct (IH Hne') as [[-> Hno]|[Hin Hall]]; [left|right].
    + split; [done|]. intros a. rewrite Hl. apply Hno.
    + split; [by apply Hl|]. intros a. rewrite Hl. apply Hall.
Qed.

Lemma edge_in_range r udid t source seen :
  edge_in udid t (range (rg_sources r)) (source, seen) ↔ says r source udid t seen.
Proof. unfold edge_in, says. split; intros (m & Hm & He); exists m; by rewrite elem_of_range in *. Qed.

(** The time that a read shows is the newest that any source says. *)
Lemma newest_is_newest r udid t source seen : edges_ok (rg_sources r) → says r source udid t seen →
  (∀ source' seen', says r source' udid t seen' → str_le seen' seen) → newest r udid t = seen.
Proof.
  intros Hok Hs Hmax. unfold newest.
  assert (∀ (l : list (string * by_udid)) best,
    (∀ s m x, (s, m) ∈ l → edge_seen m udid t = Some x → str_le x seen) → str_le best seen →
    best = seen ∨ edge_in udid t l (source, seen) →
    fold_left (λ best '(_, m), newer best (edge_seen m udid t)) l best = seen) as Hfold.
  { induction l as [|[s m] l IH]; intros best Hle Hb Hor; cbn [fold_left].
    { destruct Hor as [|(m & ?%elem_of_nil & _)]; done. }
    assert (∀ x, edge_seen m udid t = Some x → str_le x seen) as Hx by (intros; eapply Hle; [by left|done]).
    assert (∀ s' m' x, (s', m') ∈ l → edge_seen m' udid t = Some x → str_le x seen) as Hle' by (intros; eapply Hle; [by right|done]).
    rewrite edge_in_cons in Hor. cbn [fst snd] in Hor. unfold newer at 2. destruct (edge_seen m udid t) as [x|] eqn:Es.
    - specialize (Hx x eq_refl). destruct (str_ltb best x) eqn:Hlt; apply IH; try done.
      + destruct Hor as [->|[[_ [= ->]]|Hin]]; [by destruct (Hx Hlt)|by left|by right].
      + destruct Hor as [->|[[_ [= ->]]|Hin]]; [by left| |by right]. left. apply str_le_antisym; [done|].
        unfold str_le, str_lt. by rewrite Hlt.
    - apply IH; [done..|]. destruct Hor as [->|[[_ ?]|Hin]]; [by left|done|by right]. }
  apply Hfold.
  - intros s m x Hin%elem_of_range Hm. apply (Hmax s x). by exists m.
  - apply str_le_lteq. destruct (str_lt_total "" seen) as [?|[?|H]]; [by left|by right|]. by destruct seen.
  - right. by apply edge_in_range.
Qed.

(** Routing is determined by what the muxers said, whatever order the map is read in.  An
    operation on a device over a transport is sent to the source that saw it there last, and among
    sources that saw it in the same second to the one with the smallest name; that source's time is
    the one that every read of the device shows; and there is no route exactly when no source sees
    the device there. *)
Theorem routing_exact ops udid t source : Forall op_ok ops → proper_transport t →
  let r := (registry_run ops NewRegistry).2 in
  (∀ s, is_Some (rg_sources r !! s) → s ≠ ""%string) →
  (SourceFor r udid t = Some source ↔
     ∃ seen, says r source udid t seen ∧
       ∀ source' seen', says r source' udid t seen' →
         str_lt seen' seen ∨ (seen' = seen ∧ str_le source source')) ∧
  (SourceFor r udid t = None ↔ ¬ sees (rg_sources r) udid t) ∧
  (SourceFor r udid t = Some source → says r source udid t (newest r udid t)).
Proof.
  intros Hops Ht r Hnames. assert (registry_ok r) as Hr by (by apply registry_run_ok, NewRegistry_ok).
  pose proof (rg_edges_ok _ Hr) as He.
  assert (∀ a, edge_in udid t (range (rg_sources r)) a → a.1 ≠ ""%string ∧ a.2 ≠ ""%string) as Hne.
  { intros [s x] (m & Hs & Hx)%edge_in_range. cbn [fst snd]. split; [apply Hnames; by eexists|by eapply He]. }
  pose proof (better_start udid t (range (rg_sources r)) Hne) as Hb. cbv zeta in Hb. unfold SourceFor.
  destruct Hb as [[-> Hno]|[Hin Hall]]; cbv zeta.
  - cbn [fst String.eqb]. assert (∀ s x, ¬ says r s udid t x) as Hnone by (intros s x Hs; by apply (Hno (s, x)), edge_in_range).
    split; [|split; [|done]].
    + split; [done|]. intros (seen & Hs & _). by destruct (Hnone source seen).
    + split; [|done]. intros _ (s & m & Hs & [x Hx]). apply (Hnone s x). by exists m.
  - destruct (fold_left _ _ _) as [s x] eqn:Ef. cbn [fst]. destruct (Hne _ Hin) as [Hs _]. cbn [fst] in Hs.
    destruct (String.eqb_spec s "") as [|_]; [done|]. apply edge_in_range in Hin.
    assert (newest r udid t = x) as Hnew.
    { apply (newest_is_newest _ _ _ s); [done..|]. intros s' x' Hs'%edge_in_range%Hall. cbn in Hs'. apply str_le_lteq.
      destruct Hs' as [?|[? _]]; [by left|by right]. }
    split; [split|split].
    + intros [= <-]. exists x. split; [done|]. intros s' x' Hs'%edge_in_range%Hall. exact Hs'.
    + intros (x' & Hs' & Hbest). f_equal. assert ((s, x) = (source, x')) as [= -> _]; [|done]. apply routes_before_antisym.
      * by apply Hall, edge_in_range.
      * by apply Hbest.
    + split; [done|]. intros Hno. destruct Hno. destruct Hin as (m & Hm & Hx). exists s, m. split; [done|by eexists].
    + intros [= <-]. by rewrite Hnew.
Qed.

End safety.

(** * The device table on concrete inputs *)

#[local] Existing Instance some_order.

Definition cable : string := "/var/run/usbmuxd".
Definition network : string := "127.0.0.1:27015".
Definition handset : string := "00008110-000000000000001E".
Definition no_backup : string → option LastBackup := λ _, None.

Definition attached_on (t : string) : Event := mkEvent Attached handset t.
Definition detached_from (t : string) : Event := mkEvent Detached handset t.

(** Seen on both, then unplugged; it has versions. *)
Definition morning : list registry_op :=
  [OpVersions [handset] no_backup; OpApply 0 cable (attached_on TransportUSB);
   OpApply Second network (attached_on TransportWiFi); OpApply (2 * Second) cable (detached_from TransportUSB)].

Lemma morning_ok : Forall op_ok morning.
Proof.
  repeat apply Forall_cons_2; try apply Forall_nil_2; cbn [op_ok]; [apply NoDup_singleton|..];
    (split; [done|]); [by left|by right|by left].
Qed.

Lemma devices_listed_once_witness :
  NoDup (dev_UDID <$> Devices (registry_run morning NewRegistry).2) ∧
  dev_UDID <$> Devices (registry_run morning NewRegistry).2 = [handset].
Proof.
  split; [apply (devices_listed_once morning), morning_ok|]. vm_compute. reflexivity.
Defined.

(** Back on the cable while a client watches, the network's muxer reconnects, and a tablet is seen
    while the handset's event is on its way. *)
Definition loading : list broadcast_event :=
  [Locked 0 (OpVersions [handset] no_backup); Locked 1 (OpApply 0 cable (attached_on TransportUSB)); Publishes 1;
   Locked 2 (OpApply Second network (attached_on TransportWiFi)); Publishes 2;
   Locked 1 (OpApply (2 * Second) cable (detached_from TransportUSB)); Publishes 1].
Definition tablet_seen : registry_op := OpApply (3 * Second) network (mkEvent Attached "tablet" TransportWiFi).
Definition evening : list broadcast_event :=
  [Locked 1 (OpApply (3 * Second) cable (attached_on TransportUSB)); Locked 2 tablet_seen; Publishes 2; Publishes 1;
   Locked 2 (OpReset network); Publishes 2; Publishes 2;
   Locked 3 (OpEnrich handset (mkIdentity "Phone" "" "" "yes" "" "")); Publishes 3].

Lemma loading_ok : Forall event_ok loading.
Proof.
  repeat apply Forall_cons_2; try apply Forall_nil_2; cbn [event_ok op_ok]; try done; [apply NoDup_singleton|..];
    (split; [done|]); [by left|by right|by left].
Qed.
Lemma evening_ok : Forall event_ok evening.
Proof.
  repeat apply Forall_cons_2; try apply Forall_nil_2; cbn [event_ok op_ok]; try done; (split; [done|]); [by left|by right].
Qed.

Definition loaded : Broadcast := broadcast_run loading start_broadcast.
Definition watched : Broadcast := broadcast_run evening loaded.
Definition watching : DevicesState :=
  fold_left dispatch (heard_since loaded watched) (replaceAll (Devices (bc_registry loaded)) (mkDevicesState ∅ [])).

Lemma clients_track_presence_witness :
  shows watching handset TransportWiFi = transportPresent (bc_registry watched) handset TransportWiFi ∧
  shows watching handset TransportWiFi = false ∧ shows watching handset TransportUSB = true.
Proof.
  split; [|vm_compute; by split].
  apply (clients_track_presence loading evening); [apply loading_ok|apply evening_ok|by right|..];
    apply (bool_decide_unpack _); vm_compute; exact I.
Defined.

(** Two muxers that both serve the cable replay in the same second. *)
Definition both : list registry_op :=
  [OpApply 0 network (attached_on TransportUSB); OpApply 0 cable (attached_on TransportUSB)].

Lemma both_ok : Forall op_ok both.
Proof. repeat apply Forall_cons_2; try apply Forall_nil_2; (split; [done|by left]). Qed.

Lemma both_named : ∀ s, is_Some (rg_sources (registry_run both NewRegistry).2 !! s) → s ≠ ""%string.
Proof.
  intros s Hs ->. revert Hs. change (rg_sources _) with (rg_sources (registry_run both NewRegistry).2).
  assert (rg_sources (registry_run both NewRegistry).2 !! ""%string = None) as -> by (vm_compute; reflexivity).
  by intros [].
Qed.

Lemma routing_exact_witness :
  (SourceFor (registry_run both NewRegistry).2 handset TransportUSB = None ↔
     ¬ sees (rg_sources (registry_run both NewRegistry).2) handset TransportUSB) ∧
  SourceFor (registry_run both NewRegistry).2 handset TransportUSB = Some cable.
Proof.
  split; [|vm_compute; reflexivity].
  apply (routing_exact both handset TransportUSB cable both_ok (or_introl eq_refl) both_named).
Defined.

(** ** Events that are published late

    An operation publishes after it has left the lock, so the events of two muxers may be published
    in the other order than the table changed.  Here the network's muxer loses the device and the
    cable's muxer sees it over the network in its turn; the later change is published first. *)

Definition before_loss : Broadcast :=
  broadcast_run [Locked 2 (OpApply 0 network (attached_on TransportWiFi)); Publishes 2] start_broadcast.
Definition after_loss (publications : list broadcast_event) : Broadcast :=
  broadcast_run ([Locked 2 (OpApply Second network (detached_from TransportWiFi));
    Locked 1 (OpApply (2 * Second) cable (attached_on TransportWiFi))] ++ publications) before_loss.
Definition after_loss_shown (publications : list broadcast_event) : bool :=
  shows (fold_left dispatch (heard_since before_loss (after_loss publications))
    (replaceAll (Devices (bc_registry before_loss)) (mkDevicesState ∅ []))) handset TransportWiFi.

Example late_event_hides_device :
  transportPresent (bc_registry (after_loss [])) handset TransportWiFi = true ∧
  after_loss_shown [Publishes 2; Publishes 1] = true ∧ after_loss_shown [Publishes 1; Publishes 2] = false ∧
  bool_decide (settled_on handset (after_loss [Publishes 1; Publishes 2])) = true.
Proof. vm_compute. by repeat split. Qed.

(** ** A reset forgets the offline card

    A device with versions that loses its last transport stays on screen as an offline device when it
    detaches, but not when its muxer reconnects without it: the list still holds it, and a client
    that was watching does not. *)

Definition with_versions : Registry :=
  (registry_run [OpVersions [handset] no_backup; OpApply 0 network (attached_on TransportWiFi)] NewRegistry).2.

Definition listed_after (step : list emission * Registry) : bool * bool :=
  (bool_decide (is_Some (byUdid (fold_left dispatch step.1 (replaceAll (Devices with_versions) (mkDevicesState ∅ []))) !! handset)),
   bool_decide (handset ∈ dev_UDID <$> Devices step.2)).

Example reset_forgets_offline_card :
  listed_after (apply Second network (detached_from TransportWiFi) with_versions) = (true, true) ∧
  listed_after (reset network with_versions) = (false, true) ∧
  dev_LastSeen (offlineShell (apply Second network (detached_from TransportWiFi) with_versions).2 handset) = "1970-01-01T00:00:01Z"%string ∧
  dev_LastSeen (offlineShell (reset network with_versions).2 handset) = ""%string.
Proof. vm_compute. by repeat split. Qed.

(** What a muxer says becomes edges: attached by number, detached by number. *)
Definition says_attached (id : Z) (serial conn : string) : option reply :=
  Some (mkReply "Attached" 0 id (mkProperties serial conn 0)).
Definition says_detached (id : Z) : option reply := Some (mkReply "Detached" 0 id (mkProperties "" "" 0)).

Example listen_run : (listen [Some (mkReply "Result" 0 0 (mkProperties "" "" 0)); says_attached 4 handset "USB";
    None; says_attached 5 handset "Network"; says_detached 9; says_detached 4] ∅).1 =
  [attached_on TransportUSB; attached_on TransportWiFi; detached_from TransportUSB].
Proof. vm_compute. reflexivity. Qed.
