(* ===== verification/Config.v ===== *)
(** * Config: what config.yml says, and what makes it acceptable

    Models core/internal/config/schema.go (the configuration, its defaults, and what the storage list
    implies), validate.go, storagereq.go (whether the storages declared let quince serve),
    muxerprofile.go, zfsssh.go, the environment of bootstrap.go, and the addresses of
    core/internal/muxaddr.  From Go's path/filepath it has [Clean] and [IsAbs]. *)

From Stdlib Require Import String Ascii.
From S2P Require Import Prelude Argon2 Net.

(** ** Paths *)

(** [filepath.IsAbs]. *)
Definition filepath_IsAbs (path : string) : bool := has_prefix path "/".

(** [filepath.Clean], by the elements of the path, the last one on top. *)
Definition clean_step (rooted : bool) (stack : list string) (elem : string) : list string :=
  if bool_decide (elem = "") || bool_decide (elem = ".") then stack
  else if bool_decide (elem = "..") then
    match stack with
    | top :: rest => if bool_decide (top = "..") then elem :: stack else rest
    | [] => if rooted then [] else [elem]
    end
  else elem :: stack.
Definition filepath_Clean (path : string) : string :=
  let rooted := has_prefix path "/" in
  let body := join (reverse (foldl (clean_step rooted) [] (split_on "/" path))) "/" in
  if rooted then "/" +:+ body else if bool_decide (body = "") then "." else body.

Example clean_paths :
  (filepath_Clean <$> ["/backups/"; "/a/./b//../c"; "/../x"; "a/../.."; ""; "/"]) = ["/backups"; "/a/c"; "/x"; ".."; "."; "/"]%string.
Proof. vm_compute. reflexivity. Qed.

(** ** The schema *)

Record BackupConfig : Type := mkBackupConfig { bc_PreferredTransport : string; bc_RequireEncryption : bool }.
Record RetentionConfig : Type := mkRetentionConfig { rt_KeepRecent : Z; rt_KeepDaily : Z; rt_KeepWeekly : Z }.
Record ZFSConfig : Type := mkZFSConfig {
  z_ParentDataset : string; z_Mode : string; z_HookCmd : string; z_SSHUser : string; z_SSHHost : string;
  z_SSHPort : Z; z_SSHKey : string; z_Seed : string }.
Record StorageEntry : Type := mkStorageEntry {
  se_Name : string; se_Path : string; se_Default : bool; se_Backend : string; se_ZFS : ZFSConfig;
  se_Retention : option RetentionConfig }.
Record MuxerConfig : Type := mkMuxerConfig { mc_Address : string; mc_Type : string }.
Record LegacyDevices : Type := mkLegacyDevices {
  ld_ManageMuxer : option bool; ld_UsbmuxdSocket : option string; ld_NetmuxdAddr : option string }.
Record TLSConfig : Type := mkTLSConfig { tls_CertFile : string; tls_KeyFile : string }.
Record SessionsConfig : Type := mkSessionsConfig { sc_AllowInsecureTransport : bool }.
Record NotificationsConfig : Type := mkNotificationsConfig {
  nc_StalenessDays : Z; nc_ReminderCooldownHours : Z; nc_OverdueDays : Z;
  nc_BackupAvailable : bool; nc_BackupOverdue : bool; nc_ActionRequired : bool; nc_BackupFailed : bool;
  nc_BackupCompleted : bool }.
Record ReconcileConfig : Type := mkReconcileConfig { rc_IntervalMinutes : Z }.
Record VaultConfig : Type := mkVaultConfig { vc_SessionTTLMinutes : Z }.
Record UIConfig : Type := mkUIConfig { ui_Theme : string }.

(** A list that is absent is not a list that is empty. *)
Record Configuration : Type := mkConfiguration {
  c_Backup : BackupConfig; c_Storage : option (list StorageEntry); c_Muxers : option (list MuxerConfig);
  c_Devices : option LegacyDevices; c_TLS : TLSConfig; c_Sessions : SessionsConfig;
  c_Notifications : NotificationsConfig; c_Reconcile : ReconcileConfig; c_Vault : VaultConfig; c_UI : UIConfig }.

#[global] Instance BackupConfig_eq_dec : EqDecision BackupConfig.
Proof. solve_decision. Defined.
#[global] Instance TLSConfig_eq_dec : EqDecision TLSConfig.
Proof. solve_decision. Defined.
#[global] Instance SessionsConfig_eq_dec : EqDecision SessionsConfig.
Proof. solve_decision. Defined.
#[global] Instance ReconcileConfig_eq_dec : EqDecision ReconcileConfig.
Proof. solve_decision. Defined.
#[global] Instance VaultConfig_eq_dec : EqDecision VaultConfig.
Proof. solve_decision. Defined.
#[global] Instance UIConfig_eq_dec : EqDecision UIConfig.
Proof. solve_decision. Defined.
#[global] Instance RetentionConfig_eq_dec : EqDecision RetentionConfig.
Proof. solve_decision. Defined.
#[global] Instance ZFSConfig_eq_dec : EqDecision ZFSConfig.
Proof. solve_decision. Defined.
#[global] Instance StorageEntry_eq_dec : EqDecision StorageEntry.
Proof. solve_decision. Defined.
#[global] Instance MuxerConfig_eq_dec : EqDecision MuxerConfig.
Proof. solve_decision. Defined.
#[global] Instance LegacyDevices_eq_dec : EqDecision LegacyDevices.
Proof. solve_decision. Defined.
#[global] Instance NotificationsConfig_eq_dec : EqDecision NotificationsConfig.
Proof. solve_decision. Defined.
#[global] Instance Configuration_eq_dec : EqDecision Configuration.
Proof. solve_decision. Defined.

Definition with_storage (l : option (list StorageEntry)) (c : Configuration) : Configuration :=
  mkConfiguration (c_Backup c) l (c_Muxers c) (c_Devices c) (c_TLS c) (c_Sessions c) (c_Notifications c) (c_Reconcile c) (c_Vault c) (c_UI c).
Definition with_tls (t : TLSConfig) (c : Configuration) : Configuration :=
  mkConfiguration (c_Backup c) (c_Storage c) (c_Muxers c) (c_Devices c) t (c_Sessions c) (c_Notifications c) (c_Reconcile c) (c_Vault c) (c_UI c).
Definition with_sessions (s : SessionsConfig) (c : Configuration) : Configuration :=
  mkConfiguration (c_Backup c) (c_Storage c) (c_Muxers c) (c_Devices c) (c_TLS c) s (c_Notifications c) (c_Reconcile c) (c_Vault c) (c_UI c).

(** The configuration of an absent file. *)
Definition Default : Configuration :=
  mkConfiguration (mkBackupConfig "usb" true) None None None (mkTLSConfig "" "") (mkSessionsConfig false)
    (mkNotificationsConfig 3 24 14 true true true true false) (mkReconcileConfig 360) (mkVaultConfig 15) (mkUIConfig "system").

Definition DefaultRetention : RetentionConfig := mkRetentionConfig 10 30 12.

(** [StorageEntry.Resolved]: what an entry leaves out. *)
Definition or_default (v fallback : string) : string := if bool_decide (v = "") then fallback else v.
Definition Resolved (e : StorageEntry) : StorageEntry :=
  let z := se_ZFS e in
  mkStorageEntry (or_default (se_Name e) (se_Path e)) (se_Path e) (se_Default e) (or_default (se_Backend e) "auto")
    (mkZFSConfig (z_ParentDataset z) (or_default (z_Mode z) "hook") (z_HookCmd z) (z_SSHUser z) (z_SSHHost z) (z_SSHPort z)
       (z_SSHKey z) (or_default (z_Seed z) "auto"))
    (Some (default DefaultRetention (se_Retention e))).

Definition set_default (b : bool) (e : StorageEntry) : StorageEntry :=
  mkStorageEntry (se_Name e) (se_Path e) b (se_Backend e) (se_ZFS e) (se_Retention e).

(** A lone storage is the default one. *)
Definition mark_lone (l : list StorageEntry) : list StorageEntry :=
  match l with [e] => [set_default true e] | _ => l end.
Definition ResolveStorages (l : option (list StorageEntry)) : option (list StorageEntry) :=
  match l with None => None | Some l => Some (mark_lone (Resolved <$> l)) end.

Definition DefaultMuxerAddress : string := "/var/run/usbmuxd".
Definition DefaultSidecarMuxerAddress : string := "/var/run/mux/usbmuxd".
Definition MuxerExternal : string := "external".
Definition MuxerManaged : string := "managed".
Definition ResolvedMuxers (c : Configuration) : list MuxerConfig :=
  default [mkMuxerConfig DefaultMuxerAddress ""; mkMuxerConfig DefaultSidecarMuxerAddress ""] (c_Muxers c).

Definition tls_Enabled (t : TLSConfig) : bool :=
  negb (bool_decide (tls_CertFile t = "")) && negb (bool_decide (tls_KeyFile t = "")).

(** ** Addresses of muxers *)

Inductive Endpoint : Type := NoEndpoint | UnixSocket (path : string) | TCPAddress (hostport : string).
Definition unixPrefix : string := "UNIX:".

Definition muxaddr_Parse (s : string) : result Endpoint :=
  let s := trim_space s in
  if bool_decide (s = "") then Ok NoEndpoint
  else if Nat.leb (String.length unixPrefix) (String.length s) && equal_fold (str_take (String.length unixPrefix) s) unixPrefix then
    let path := str_drop (String.length unixPrefix) s in
    if bool_decide (path = "")
    then Err ("muxaddr: " +:+ unixPrefix +:+ " with no path — expected " +:+ unixPrefix +:+ "/path/to/socket")
    else Ok (UnixSocket path)
  else if has_prefix s "/" then Ok (UnixSocket s)
  else
    let bad := Err ("muxaddr: " +:+ s +:+ " is not a muxer address — expected a socket path (/run/mux/usbmuxd), " +:+ unixPrefix +:+
      "/run/mux/usbmuxd, or host:port (127.0.0.1:27015)") in
    match SplitHostPort s with
    | Some (host, port) => if bool_decide (host = "") || bool_decide (port = "") then bad else Ok (TCPAddress s)
    | None => bad
    end.

Definition DialArgs (e : Endpoint) : string * string :=
  match e with NoEndpoint => ("", "") | UnixSocket p => ("unix", p) | TCPAddress a => ("tcp", a) end%string.
Definition Env (e : Endpoint) : string :=
  match e with NoEndpoint => "" | UnixSocket p => unixPrefix +:+ p | TCPAddress a => a end.

(** ** Validation *)

Record ConfigError : Type := mkConfigError { ce_Path : string; ce_Message : string }.
Record Warning : Type := mkWarning { w_Path : string; w_Message : string }.
#[global] Instance ConfigError_eq_dec : EqDecision ConfigError.
Proof. solve_decision. Defined.

Definition oneOf (v : string) (allowed : list string) : bool := bool_decide (v ∈ allowed).
Definition fmt_list (l : list string) : string := "[" +:+ join l " " +:+ "]".
Definition enumMsg (got : string) (allowed : list string) : string :=
  "invalid value " +:+ quote got +:+ "; must be one of " +:+ fmt_list allowed.

(** What a check says when it fails. *)
Definition refuse_if (b : bool) (path msg : string) : list ConfigError := if b then [mkConfigError path msg] else [].
Definition check_enum (path v : string) (allowed : list string) : list ConfigError :=
  refuse_if (negb (oneOf v allowed)) path (enumMsg v allowed).

Definition validateTLS (t : TLSConfig) : list ConfigError :=
  let cert := negb (bool_decide (tls_CertFile t = "")) in
  let key := negb (bool_decide (tls_KeyFile t = "")) in
  if cert && negb key
  then [mkConfigError "tls.key_file" "required when tls.cert_file is set — a certificate cannot be served without its key"]
  else if key && negb cert
  then [mkConfigError "tls.cert_file" "required when tls.key_file is set — a key alone serves nothing"]
  else [].

(** The loop over the muxers, from the [i]th on, with the addresses that were seen. *)
Fixpoint validateMuxers_from (i : Z) (seen : gmap string Z) (muxers : list MuxerConfig) : list ConfigError :=
  match muxers with
  | [] => []
  | m :: muxers =>
      let path := "muxers[" +:+ fmt_d i +:+ "]" in
      if bool_decide (trim_space (mc_Address m) = "") then
        mkConfigError (path +:+ ".address") "required — an entry with no address configures no muxer" :: validateMuxers_from (i + 1) seen muxers
      else
        match muxaddr_Parse (mc_Address m) with Err msg => [mkConfigError (path +:+ ".address") msg] | Ok _ => [] end ++
        refuse_if (negb (oneOf (mc_Type m) [""; MuxerExternal; MuxerManaged]%string)) (path +:+ ".type")
          ("unknown type " +:+ quote (mc_Type m) +:+ " — expected " +:+ quote MuxerExternal +:+ " (the default, somebody else runs it) or " +:+ quote MuxerManaged) ++
        match seen !! mc_Address m with
        | Some prev =>
            mkConfigError (path +:+ ".address") ("duplicate address " +:+ quote (mc_Address m) +:+ " (also muxers[" +:+ fmt_d prev +:+ "]) — quince dials each muxer once")
            :: validateMuxers_from (i + 1) seen muxers
        | None => validateMuxers_from (i + 1) (<[mc_Address m := i]> seen) muxers
        end
  end.
Definition validateMuxers (muxers : list MuxerConfig) : list ConfigError := validateMuxers_from 0 ∅ muxers.

Definition DefaultZFSKeyDir : string := "/data/keys".
Definition DefaultZFSSSHPort : Z := 22.

(** The checks of an entry that look at no other entry. *)
Definition check_retention (path : string) (r : option RetentionConfig) : list ConfigError :=
  match r with
  | None => []
  | Some r =>
      refuse_if (rt_KeepRecent r <? 0) (path +:+ ".retention.keep_recent") "must be >= 0" ++
      refuse_if (rt_KeepDaily r <? 0) (path +:+ ".retention.keep_daily") "must be >= 0" ++
      refuse_if (rt_KeepWeekly r <? 0) (path +:+ ".retention.keep_weekly") "must be >= 0"
  end.
Definition check_entry (path : string) (s : StorageEntry) : list ConfigError :=
  let z := se_ZFS s in
  check_enum (path +:+ ".backend") (se_Backend s) ["auto"; "zfs"; "reflink"; "hardlink"; "copy"]%string ++
  check_enum (path +:+ ".zfs.mode") (z_Mode z) ["hook"%string] ++
  check_enum (path +:+ ".zfs.seed") (z_Seed z) ["auto"; "reflink"; "copy"]%string ++
  refuse_if (negb (bool_decide (z_HookCmd z = ""))) (path +:+ ".zfs.hook_cmd")
    ("retired in favour of `ssh_user`, `ssh_host`, `ssh_port` and `ssh_key` — quince composes the ssh command itself now. Replace the whole key: `ssh_user: <the helper's user>` and `ssh_host: <the ZFS host>`, plus `ssh_port` and `ssh_key` only if they are not 22 and the key quince derives for this storage's parent dataset under " +:+ DefaultZFSKeyDir) ++
  refuse_if ((z_SSHPort z <? 0) || (65535 <? z_SSHPort z)) (path +:+ ".zfs.ssh_port")
    ("invalid port " +:+ fmt_d (z_SSHPort z) +:+ "; must be 1-65535 (or unset for " +:+ fmt_d DefaultZFSSSHPort +:+ ")") ++
  check_retention path (se_Retention s).

(** A name that another entry has; the first entry with a name is the one that is told of. *)
Definition check_name (i : Z) (seen : gmap string Z) (s : StorageEntry) : list ConfigError * gmap string Z :=
  if bool_decide (se_Name s = "") then ([], seen)
  else match seen !! se_Name s with
       | Some prev => ([mkConfigError ("storage[" +:+ fmt_d i +:+ "].name") ("duplicate name " +:+ quote (se_Name s) +:+ " (also storage[" +:+ fmt_d prev +:+ "]); names must be unique because they key a storage's DB row")], seen)
       | None => ([], <[se_Name s := i]> seen)
       end.
Definition check_path (i : Z) (seen : gmap string Z) (s : StorageEntry) : list ConfigError * gmap string Z :=
  let path := "storage[" +:+ fmt_d i +:+ "].path" in
  if bool_decide (se_Path s = "") then ([mkConfigError path "must not be empty"], seen)
  else if negb (filepath_IsAbs (se_Path s)) then ([mkConfigError path ("must be an absolute path, got " +:+ quote (se_Path s))], seen)
  else match seen !! filepath_Clean (se_Path s) with
       | Some prev => ([mkConfigError path ("duplicate path " +:+ quote (se_Path s) +:+ " (also storage[" +:+ fmt_d prev +:+ "]); two storages at one path would each claim the other's identity marker")], seen)
       | None => ([], <[filepath_Clean (se_Path s) := i]> seen)
       end.

Fixpoint validateStorages_from (i : Z) (names paths : gmap string Z) (l : list StorageEntry) : list ConfigError :=
  match l with
  | [] => []
  | s :: l =>
      let '(e1, names) := check_name i names s in
      let '(e2, paths) := check_path i paths s in
      e1 ++ e2 ++ check_entry ("storage[" +:+ fmt_d i +:+ "]") s ++ validateStorages_from (i + 1) names paths l
  end.

Definition defaults_of (l : list StorageEntry) : list StorageEntry := filter (λ e, se_Default e = true) l.
Definition check_defaults (l : list StorageEntry) : list ConfigError :=
  if Nat.ltb 0 (length l) then
    match length (defaults_of l) with
    | O => [mkConfigError "storage" "exactly one storage must be marked `default: true` — a backup that names no storage resolves to it, and there is no sane guess. It is implied only when there is exactly one storage"]
    | 1%nat => []
    | n => [mkConfigError "storage" (fmt_d (Z.of_nat n) +:+ " storages are marked `default: true`; exactly one may be")]
    end
  else [].

Definition validateStorages (storages : option (list StorageEntry)) : list ConfigError :=
  match storages with
  | None => []
  | Some l => validateStorages_from 0 ∅ ∅ l ++ check_defaults l
  end.

Definition Validate (c : Configuration) : list ConfigError :=
  let n := c_Notifications c in
  check_enum "backup.preferred_transport" (bc_PreferredTransport (c_Backup c)) ["usb"; "wifi"]%string ++
  validateStorages (c_Storage c) ++
  validateTLS (c_TLS c) ++
  validateMuxers (ResolvedMuxers c) ++
  refuse_if (rc_IntervalMinutes (c_Reconcile c) <? 0) "reconcile.interval_minutes" "must be >= 0 (0 disables the scheduled pass)" ++
  refuse_if (nc_StalenessDays n <? 0) "notifications.staleness_days" "must be >= 0" ++
  refuse_if (nc_ReminderCooldownHours n <? 0) "notifications.reminder_cooldown_hours" "must be >= 0" ++
  refuse_if (nc_OverdueDays n <? 0) "notifications.overdue_days" "must be >= 0" ++
  refuse_if ((0 <=? nc_OverdueDays n) && (0 <=? nc_StalenessDays n) && (nc_OverdueDays n <? nc_StalenessDays n)) "notifications.overdue_days"
    ("must be >= notifications.staleness_days (" +:+ fmt_d (nc_StalenessDays n) +:+ ") — a device cannot be overdue before it is stale") ++
  check_enum "ui.theme" (ui_Theme (c_UI c)) ["system"; "light"; "dark"]%string.

Example the_default_is_valid : Validate Default = [].
Proof. vm_compute. reflexivity. Qed.

(** ** What serving needs *)

Inductive LoadFaultKind : Type := LoadUnreadable | LoadUnparsable.
Record LoadFailure : Type := mkLoadFailure { lf_Kind : LoadFaultKind; lf_Detail : string }.

Record StorageRequirement : Type := mkStorageRequirement {
  sr_Missing : bool; sr_Empty : bool; sr_LegacyEnv : option string; sr_Malformed : option string; sr_Unreadable : option string }.
Definition sr_OK (r : StorageRequirement) : bool :=
  negb (sr_Missing r) && negb (sr_Empty r) && bool_decide (sr_Malformed r = None) && bool_decide (sr_Unreadable r = None).

Definition declaredStorage (c : Configuration) : Z := from_option (λ l, Z.of_nat (length l)) 0 (c_Storage c).

(** [strings.Cut(kv, "=")]. *)
Definition cut_equals (kv : string) : option (string * string) :=
  i ← index_byte 61 kv 0; Some (str_take i kv, str_drop (S i) kv).

(** The last [QUINCE_BACKUPS] of the environment. *)
Definition legacy_env (environ : list string) : option string :=
  foldl (λ found kv, match cut_equals kv with
                     | Some (k, v) => if bool_decide (k = "QUINCE_BACKUPS"%string) then Some v else found
                     | None => found
                     end) None environ.

Definition CheckStorages (c : Configuration) (environ : list string) (failure : option LoadFailure) : StorageRequirement :=
  let legacy := legacy_env environ in
  match failure with
  | Some (mkLoadFailure LoadUnparsable detail) => mkStorageRequirement false false legacy (Some detail) None
  | Some (mkLoadFailure LoadUnreadable detail) => mkStorageRequirement false false legacy None (Some detail)
  | None =>
      match c_Storage c with
      | None => mkStorageRequirement true false legacy None None
      | Some l => mkStorageRequirement false (bool_decide (length l = 0%nat)) legacy None None
      end
  end.

Definition SSHConfigured (z : ZFSConfig) : bool := negb (bool_decide (z_SSHUser z = "")) && negb (bool_decide (z_SSHHost z = "")).

(** Whether an entry resolves to the zfs backend before anything is probed. *)
Definition is_zfs (e : StorageEntry) : bool :=
  bool_decide (se_Backend e = "zfs") ||
  (bool_decide (se_Backend e = "auto") && (negb (bool_decide (z_ParentDataset (se_ZFS e) = "")) || SSHConfigured (se_ZFS e))).

Record StorageBackendProblem : Type := mkProblem { pb_Index : Z; pb_Field : string; pb_Message : string }.

Definition missing_ssh (z : ZFSConfig) : string * string :=
  if negb (bool_decide (z_SSHHost z = "")) then ("`zfs.ssh_user`", "zfs.ssh_user")
  else if negb (bool_decide (z_SSHUser z = "")) then ("`zfs.ssh_host`", "zfs.ssh_host")
  else ("`zfs.ssh_user` and `zfs.ssh_host`", "zfs.ssh_host").

Fixpoint backend_problems_from (i : Z) (seen : gmap string (string * Z)) (l : list StorageEntry) : list StorageBackendProblem :=
  match l with
  | [] => []
  | e :: l =>
      let z := se_ZFS e in
      if negb (is_zfs e) then backend_problems_from (i + 1) seen l
      else if bool_decide (z_ParentDataset z = "") then
        mkProblem i "zfs.parent_dataset" ("storage " +:+ quote (se_Name e) +:+ " resolves to the zfs backend but has no `zfs.parent_dataset` — set it in that storage's own `zfs:` block, or give the storage a namespace backend (`backend: reflink`, `hardlink` or `copy`)")
        :: backend_problems_from (i + 1) seen l
      else if negb (SSHConfigured z) then
        let '(missing, field) := missing_ssh z in
        mkProblem i field ("storage " +:+ quote (se_Name e) +:+ " resolves to the zfs backend but has no " +:+ missing +:+ " — quince reaches a ZFS pool over ssh to the constrained helper, and the forced command in that user's `authorized_keys` is what bounds what quince can do on the host")
        :: backend_problems_from (i + 1) seen l
      else
        match seen !! z_ParentDataset z with
        | Some (name, first) =>
            mkProblem i "zfs.parent_dataset" ("storages " +:+ quote name +:+ " and " +:+ quote (se_Name e) +:+ " are both zfs on parent dataset " +:+ quote (z_ParentDataset z) +:+ " (also storage[" +:+ fmt_d first +:+ "]) — they would create the same dataset per device and each believe it owned it. Give one of them its own `zfs.parent_dataset`, or a namespace backend")
            :: backend_problems_from (i + 1) seen l
        | None => backend_problems_from (i + 1) (<[z_ParentDataset z := (se_Name e, i)]> seen) l
        end
  end.
Definition checkStorageBackendProblems (storages : option (list StorageEntry)) : list StorageBackendProblem :=
  match storages with None => [] | Some l => backend_problems_from 0 ∅ l end.
Definition CheckStorageBackends (storages : option (list StorageEntry)) : list string :=
  pb_Message <$> checkStorageBackendProblems storages.
Definition CheckStorageBackendErrors (storages : option (list StorageEntry)) : list ConfigError :=
  (λ p, mkConfigError ("storage[" +:+ fmt_d (pb_Index p) +:+ "]." +:+ pb_Field p) (pb_Message p)) <$> checkStorageBackendProblems storages.

(** ** The command that reaches a pool *)

Fixpoint replace_char (a b : ascii) (s : string) : string :=
  match s with EmptyString => EmptyString | String c s => String (if bool_decide (c = a) then b else c) (replace_char a b s) end.
Definition ZFSKeyPathIn (dir parentDataset : string) : string :=
  filepath_Clean (dir +:+ "/" +:+ ("zfs-" +:+ replace_char "/" "+" parentDataset)).
Definition ZFSKeyPathFor (parentDataset : string) : string := ZFSKeyPathIn DefaultZFSKeyDir parentDataset.
Definition DefaultZFSKnownHosts : string := "/data/keys/known_hosts".
Definition SSHArgv (z : ZFSConfig) : list string :=
  if negb (SSHConfigured z) then []
  else
    let port := if z_SSHPort z =? 0 then DefaultZFSSSHPort else z_SSHPort z in
    let key := if bool_decide (z_SSHKey z = "") then ZFSKeyPathFor (z_ParentDataset z) else z_SSHKey z in
    ["ssh"; "-i"; key; "-p"; fmt_d port; "-o"; "BatchMode=yes"; "-o"; "UserKnownHostsFile=" +:+ DefaultZFSKnownHosts;
     "-o"; "StrictHostKeyChecking=yes"; z_SSHUser z +:+ "@" +:+ z_SSHHost z]%string.

(** ** Keys and types that are retired *)

Definition ld_addresses (d : LegacyDevices) : list string :=
  foldl (λ out p, match p with
                  | None => out
                  | Some a => if bool_decide (trim_space a = "") then out
                              else if bool_decide (out = [a]) then out else out ++ [a]
                  end) [] [ld_UsbmuxdSocket d; ld_NetmuxdAddr d].
Definition line (s : string) : string := s +:+ String (char_of_Z 10) EmptyString.
Definition checkRetiredDevices (d : option LegacyDevices) : error :=
  match d with
  | None => None
  | Some d => Some
      (line "devices: is no longer read — muxers are configured by the top-level `muxers:` list." +:+
       line "  Replace that section with:" +:+ line "      muxers:" +:+
       join ((λ addr, line ("        - address: " +:+ addr)) <$> ld_addresses d) "" +:+
       (if bool_decide (length (ld_addresses d) = 0%nat) then line "        - address: /var/run/usbmuxd   # or UNIX:<path>, or host:port" else "") +:+
       line "  One entry per muxer. A muxer serving BOTH transports is ONE entry — that is the" +:+
       line "  case the old two-key shape made you write twice." +:+
       (if bool_decide (ld_ManageMuxer d = Some true)
        then line "  `manage_muxer: true` has no replacement in v0.1: quince ships no muxer daemon, so" +:+
             line "  run one yourself and list its address above. The in-container profile is DESCOPED," +:+
             line "  not abandoned — see quince#897."
        else "") +:+
       "  Nothing else in your config.yml has been changed or discarded")
  end.
Fixpoint checkMuxerTypes_from (i : Z) (muxers : list MuxerConfig) : error :=
  match muxers with
  | [] => None
  | m :: muxers =>
      if negb (bool_decide (mc_Type m = MuxerManaged)) then checkMuxerTypes_from (i + 1) muxers
      else Some
        (line ("muxers[" +:+ fmt_d i +:+ "].type: " +:+ MuxerManaged +:+ " is not supported — quince ships no muxer daemon.") +:+
         line "  Run one yourself (a host usbmuxd, a sidecar container, or another tool's) and let" +:+
         line "  quince dial it:" +:+ line "      muxers:" +:+ line ("        - address: " +:+ mc_Address m) +:+
         line ("  `type:` may be omitted entirely; " +:+ MuxerExternal +:+ " is the default and the only value v0.1 accepts.") +:+
         line "  The in-container profile is DESCOPED, not abandoned — see quince#897." +:+
         "  Nothing else in your config.yml has been changed or discarded")
  end.
Definition checkMuxerTypes (muxers : list MuxerConfig) : error := checkMuxerTypes_from 0 muxers.
Definition CheckMuxers (c : Configuration) : error :=
  match checkRetiredDevices (c_Devices c) with
  | Some e => Some e
  | None => checkMuxerTypes (ResolvedMuxers c)
  end.

(** ** The environment *)

Record Bootstrap : Type := mkBootstrap {
  bs_Data : string; bs_Cache : string; bs_Listen : string; bs_TrustedProxies : list string; bs_DemoResetMinutes : Z }.
Definition knownBootstrapVars : list string :=
  ["QUINCE_DATA"; "QUINCE_CACHE"; "QUINCE_LISTEN"; "QUINCE_TRUSTED_PROXIES"; "QUINCE_DEMO_RESET_MINUTES"]%string.

(** [strconv.Atoi]. *)
Definition unsigned_digits (s : string) : option Z :=
  match scanNumber s with Some (n, EmptyString) => Some n | _ => None end.
Definition Atoi (s : string) : option Z :=
  n ← match s with
      | String c s' =>
          if bool_decide (c = "-"%char) then Z.opp <$> unsigned_digits s'
          else if bool_decide (c = "+"%char) then unsigned_digits s' else unsigned_digits s
      | EmptyString => None
      end;
  if (int64_min <=? n) && (n <=? int64_max) then Some n else None.

Definition parseMinutes (name v : string) : Z * list Warning :=
  let v := trim_space v in
  if bool_decide (v = "") then (0, [])
  else
    let ignored := [mkWarning name (quote v +:+ " is not a positive whole number of minutes (ignored; the demo reset notice will not name an interval)")] in
    match Atoi v with
    | Some n => if n <=? 0 then (0, ignored) else (n, [])
    | None => (0, ignored)
    end.
Definition splitList (v : string) : list string :=
  if bool_decide (trim_space v = "") then []
  else filter (λ p, p ≠ ""%string) (trim_space <$> split_on "," v).

(** The variables that are known, the last of each name, and the ones that are ignored. *)
Definition bootstrap_vars (environ : list string) : gmap string string * list Warning :=
  foldl (λ '(vals, warnings) kv,
    match cut_equals kv with
    | None => (vals, warnings)
    | Some (k, v) =>
        if negb (has_prefix k "QUINCE_") then (vals, warnings)
        else if negb (bool_decide (k ∈ knownBootstrapVars))
        then (vals, warnings ++ [mkWarning k ("unknown QUINCE_ environment variable " +:+ quote k +:+ " (ignored)")])
        else (<[k := v]> vals, warnings)
    end) (∅, []) environ.
Definition LoadBootstrap (environ : list string) : Bootstrap * list Warning :=
  let '(vals, warnings) := bootstrap_vars environ in
  let val k := default ""%string (vals !! k) in
  let '(minutes, mwarn) := parseMinutes "QUINCE_DEMO_RESET_MINUTES" (val "QUINCE_DEMO_RESET_MINUTES"%string) in
  (mkBootstrap (or_default (val "QUINCE_DATA"%string) "/data") (or_default (val "QUINCE_CACHE"%string) "/cache")
     (or_default (val "QUINCE_LISTEN"%string) ":8968") (splitList (val "QUINCE_TRUSTED_PROXIES"%string)) minutes,
   warnings ++ mwarn).
Definition ConfigPath (b : Bootstrap) : string := filepath_Clean (bs_Data b +:+ "/config.yml").

Example bootstrap_env :
  LoadBootstrap ["QUINCE_DATA=/d"; "QUINCE_TRUSTED_PROXIES=10.0.0.0/8, ,::1"; "QUINCE_BACKUPS=/b"; "HOME=/x"]%string =
    (mkBootstrap "/d" "/cache" ":8968" ["10.0.0.0/8"; "::1"] 0,
     [mkWarning "QUINCE_BACKUPS" ("unknown QUINCE_ environment variable " +:+ quote "QUINCE_BACKUPS" +:+ " (ignored)")])%string.
Proof. vm_compute. reflexivity. Qed.
