(* ===== verification/StorageProbe.v ===== *)
(** * StorageProbe: what a path is, and which backend it gets

    Models core/internal/storage/probe.go and inspect.go, the probe of core/internal/storage/clonetree
    (its reflinkFile, extentSharing and verdict), hookcheck.go and offsite.go.  What a file system says of clones, extents
    and links is an input ([medium]), as is what the kernel says of file systems; the files that a
    probe makes are written to the disk and removed from it.  The sentences that say why a backend was
    chosen are not modelled. *)

From Stdlib Require Import String Ascii.
From S2P Require Import Prelude Calendar Domain Backend FS Crash Sidecars Slots.
From S2P Require Namespace Zfs.
From S2P Require Import Graft ZfsHost Argon2 Net Config.

(** A path of the configuration as the components of [FS]. *)
Definition fs_path (s : string) : path := filter (λ c, c ≠ ""%string) (split_on "/" (filepath_Clean s)).

(** ** Clones *)

(** What FICLONE says: done, EAGAIN, or any other error. *)
Inductive clone_answer : Type := CloneDone | CloneDeclined | CloneRefused.

Record medium : Type := mkMedium {
  md_clone : nat → clone_answer;              (* attempt by attempt *)
  md_aliased : bool;                          (* the clone is the file itself *)
  md_extents : option (Z * list Z);           (* how many extents are mapped, and the flags that come back *)
  md_link : bool;                             (* whether link() works *)
  md_same : bool }.                           (* whether both names are then one inode *)

Inductive Sharing : Type := SharingUnknown | SharingShared | SharingUnshared.

Definition fiemapExtentLast : Z := 0x1.
Definition fiemapExtentUnknown : Z := 0x2.
Definition fiemapExtentDelalloc : Z := 0x4.
Definition fiemapExtentEncoded : Z := 0x8.
Definition fiemapExtentDataInline : Z := 0x200.
Definition fiemapExtentDataTail : Z := 0x400.
Definition fiemapExtentShared : Z := 0x2000.
Definition notABlockMapping : Z :=
  Z.lor (Z.lor fiemapExtentUnknown fiemapExtentDelalloc) (Z.lor fiemapExtentDataInline fiemapExtentDataTail).
Definition fiemapExtentSlots : Z := 32.

(** The loop over the extents. *)
Fixpoint judge_extents (sawLast : bool) (flags : list Z) : Sharing :=
  match flags with
  | [] => if sawLast then SharingShared else SharingUnknown
  | fl :: flags =>
      if negb (Z.land fl notABlockMapping =? 0) then SharingUnknown
      else if Z.land fl fiemapExtentShared =? 0 then SharingUnshared
      else judge_extents (sawLast || negb (Z.land fl fiemapExtentLast =? 0)) flags
  end.

Definition extentSharing (md : medium) (p : path) : stateM Disk Sharing :=
  r ← os_stat p;
  mret (if negb (fs_ok r) then SharingUnknown
        else match md_extents md with
             | None => SharingUnknown
             | Some (n, flags) =>
                 if n =? 0 then SharingUnknown
                 else judge_extents false (take (Z.to_nat (if fiemapExtentSlots <? n then fiemapExtentSlots else n)) flags)
             end).

Definition reflinkFile (answer : clone_answer) (dst src : path) : stateM Disk clone_answer :=
  r ← read_file src;
  match r with
  | FOk c =>
      r ← write_file dst (CData "");
      if negb (fs_ok r) then mret CloneRefused
      else match answer with
           | CloneDone => r ← write_file dst c; mret (if fs_ok r then CloneDone else CloneRefused)
           | _ => _ ← os_remove dst; mret answer
           end
  | _ => mret CloneRefused
  end.

Inductive ReflinkResult : Type := ReflinkUnsupported | ReflinkSharing | ReflinkSharingUnverifiable | ReflinkUnavailable.

Definition reflinkVerdict (sharing : Sharing) (independent : bool) : ReflinkResult :=
  match sharing with
  | SharingUnshared => ReflinkUnsupported
  | _ => if negb independent then ReflinkUnsupported
         else match sharing with SharingShared => ReflinkSharing | _ => ReflinkSharingUnverifiable end
  end.
Definition reflinkUsable (res : ReflinkResult) : bool :=
  match res with ReflinkSharing | ReflinkSharingUnverifiable => true | _ => false end.

(** A 32-bit xorshift, a byte of every state. *)
Definition xorshift (x : Z) : Z :=
  let x := Z.lxor x (Z.land (Z.shiftl x 13) 0xFFFFFFFF) in
  let x := Z.lxor x (Z.shiftr x 17) in
  Z.lxor x (Z.land (Z.shiftl x 5) 0xFFFFFFFF).
Fixpoint pattern_from (x : Z) (n : nat) : string :=
  match n with
  | O => EmptyString
  | S n => let x := xorshift x in String (char_of_Z (Z.land x 0xFF)) (pattern_from x n)
  end.
Definition probePattern (n : nat) : string := pattern_from 0x9E3779B9 n.

Definition reflinkProbeRetries : nat := 5.

(** Attempts from the [attempt]th on, [more] of them after this one. *)
Fixpoint clone_attempts (md : medium) (dst src : path) (attempt more : nat) : stateM Disk clone_answer :=
  r ← reflinkFile (md_clone md attempt) dst src;
  match r, more with
  | CloneDeclined, S more => _ ← os_remove dst; clone_attempts md dst src (S attempt) more
  | _, _ => mret r
  end.

Definition reflinkSrc : string := ".quince-reflink-src".
Definition reflinkDst : string := ".quince-reflink-dst".
Definition hardlinkSrc : string := ".quince-hardlink-src".
Definition hardlinkDst : string := ".quince-hardlink-dst".

Definition content_length (c : content) : nat := match c with CData s => String.length s | _ => 0 end.

(** [link()]: to a free name. *)
Definition os_link (src dst : path) : stateM Disk (fs_res unit) := sys_change (λ root,
  m ← stat src root;
  match m, stat dst root with NFile _, FAbsent => fs_opt (put dst (Some m) root) | _, _ => FErr end).

(** Where the clone is the file itself, writing one writes both. *)
Definition write_alias (md : medium) (p : path) (c : content) : stateM Disk unit :=
  modify (λ d, if md_aliased md then set_root (default (d_root d) (put p (Some (NFile c)) (d_root d))) d else d).

Section probe.
(** The size of the probe's file: 1 MiB. *)
Context (reflinkProbeSize : nat).

Definition reflink_measured (md : medium) (dst src : path) : stateM Disk ReflinkResult :=
  sharing ← extentSharing md dst;
  w ← write_file dst (CData "BBBBBBBB");
  if negb (fs_ok w) then mret ReflinkUnsupported
  else
    write_alias md src (CData "BBBBBBBB");;
    got ← read_file src;
    mret (match got with
          | FOk c => reflinkVerdict sharing (bool_decide (content_length c = reflinkProbeSize))
          | _ => ReflinkUnsupported
          end).

Definition ReflinkProbeDetail (md : medium) (dir : path) : stateM Disk ReflinkResult :=
  let src := dir ++ [reflinkSrc] in
  let dst := dir ++ [reflinkDst] in
  res ← (w ← write_file src (CData (probePattern reflinkProbeSize));
         if negb (fs_ok w) then mret ReflinkUnsupported
         else
           c ← clone_attempts md dst src 0 reflinkProbeRetries;
           match c with
           | CloneDone => reflink_measured md dst src
           | CloneDeclined => mret ReflinkUnavailable
           | CloneRefused => mret ReflinkUnsupported
           end);
  _ ← os_remove src;
  _ ← os_remove dst;
  mret res.
Definition ReflinkProbe (md : medium) (dir : path) : stateM Disk bool :=
  res ← ReflinkProbeDetail md dir; mret (reflinkUsable res).

Definition hardlinkProbe (md : medium) (dir : path) : stateM Disk bool :=
  let src := dir ++ [hardlinkSrc] in
  let dst := dir ++ [hardlinkDst] in
  res ← (w ← write_file src (CData "x");
         if negb (fs_ok w) then mret false
         else
           _ ← os_remove dst;
           l ← (if md_link md then os_link src dst else mret FErr);
           if negb (fs_ok l) then mret false
           else
             fs ← os_stat src;
             fd ← os_stat dst;
             mret (fs_ok fs && fs_ok fd && md_same md));
  _ ← os_remove src;
  _ ← os_remove dst;
  mret res.

(** The backend, and whether the choice is a degraded one. *)
Definition probeNamespaceDetail (md : medium) (backups : path) : stateM Disk (string * bool) :=
  r ← os_mkdir_all backups;
  if negb (fs_ok r) then mret (BackendCopy, true)
  else
    res ← ReflinkProbeDetail md backups;
    match res with
    | ReflinkSharing => mret (BackendReflink, false)
    | ReflinkSharingUnverifiable => mret (BackendReflink, true)
    | _ =>
        h ← hardlinkProbe md backups;
        mret (if h : bool then (BackendHardlink, false) else (BackendCopy, true))
    end.
Definition probeNamespace (md : medium) (backups : path) : stateM Disk string :=
  r ← probeNamespaceDetail md backups; mret r.1.

(** ** The backend of a declared storage *)

Definition WantZFS (backend parentDataset : string) (hookConfigured : bool) : bool :=
  bool_decide (backend = BackendZFS) ||
  (bool_decide (backend = "auto") && (negb (bool_decide (parentDataset = "")) || hookConfigured)).

Definition orAuto (s : string) : string := if bool_decide (s = "") then "auto" else s.

Record Options : Type := mkOptions {
  o_Backend : string; o_Backups : path; o_AppVersion : string; o_ZFSParent : string;
  o_ZFSHookArgv : list string; o_ZFSSeed : string }.

Context (now : time) (sha256 : Marker → string) (file_size : content → Z).
Context (host_run : list string → node → (string * bool) * node).

Definition zfs_host (parent : string) (hookArgv : list string) : ZfsHost :=
  {| ZfsHost.parent := parent; ZfsHost.hookArgv := hookArgv; ZfsHost.host_run := host_run |}.
Definition newNamespaceBackend (name : string) (backups : path) (appVersion : string) : Backend Disk :=
  Namespace.namespaceBackend name backups appVersion now sha256 file_size.
Definition newZFSBackend (parent : string) (hookArgv : list string) (backups : path) (appVersion : string) : Backend Disk :=
  @Zfs.zfsBackend (zfs_host parent hookArgv) backups appVersion sha256 file_size.

Definition Select (md : medium) (o : Options) : stateM Disk (Backend Disk * string) :=
  if WantZFS (o_Backend o) (o_ZFSParent o) (Nat.ltb 0 (length (o_ZFSHookArgv o)))
  then mret (newZFSBackend (o_ZFSParent o) (o_ZFSHookArgv o) (o_Backups o) (o_AppVersion o), BackendZFS)
  else if oneOf (o_Backend o) [BackendReflink; BackendHardlink; BackendCopy]
  then mret (newNamespaceBackend (o_Backend o) (o_Backups o) (o_AppVersion o), o_Backend o)
  else
    '(name, _) ← probeNamespaceDetail md (o_Backups o);
    mret (newNamespaceBackend name (o_Backups o) (o_AppVersion o), name).

(** ** Inspection *)

Inductive InspectOutcome : Type :=
  | InspectAdopt | InspectNew | InspectMissing | InspectNotDir | InspectUnwritable | InspectCorruptMarker
  | InspectInvalidPath | InspectUnreadable.
Definition inspect_OK (o : InspectOutcome) : bool := match o with InspectAdopt | InspectNew => true | _ => false end.

Inductive ZFSSignal : Type := ZFSPath | ZFSHost_ | ZFSNone.

Record Report : Type := mkReport {
  rp_Path : string; rp_CleanPath : string; rp_Outcome : InspectOutcome; rp_Backend : string;
  rp_Marker : option StorageMarker; rp_NonEmpty : bool; rp_ZFS : ZFSSignal; rp_FreeBytes : Z; rp_TotalBytes : Z }.

(** What the kernel says: the type of a file system, the list of those it knows, their space, and the
    name that a temporary file would get. *)
Record host_facts : Type := mkHostFacts {
  hf_fs_type : option Z; hf_filesystems : option string; hf_space : option (Z * Z); hf_temp : string }.

Definition zfsSuperMagic : Z := 0x2fc12fc1.
Definition kernelHasZFS (h : host_facts) : bool :=
  match hf_filesystems h with
  | None => false
  | Some text => existsb (λ line, bool_decide (last (Fields line) = Some "zfs"%string)) (split_lines text)
  end.
Definition inspectZFS (h : host_facts) : ZFSSignal :=
  if bool_decide (hf_fs_type h = Some zfsSuperMagic) then ZFSPath
  else if kernelHasZFS h then ZFSHost_ else ZFSNone.

(** [os.CreateTemp]: a file that was not there. *)
Definition create_temp (p : path) : stateM Disk (fs_res unit) := sys_change (λ root,
  match stat p root with FAbsent => fs_opt (put p (Some (NFile (CData ""))) root) | _ => FErr end).
Definition inspect_temp (h : host_facts) : string := ".quince-inspect-" +:+ hf_temp h.
Definition writableProbe (h : host_facts) (dir : path) : stateM Disk bool :=
  r ← create_temp (dir ++ [inspect_temp h]);
  if negb (fs_ok r) then mret false else _ ← os_remove (dir ++ [inspect_temp h]); mret true.

Definition dirHasEntries (dir : path) : stateM Disk bool :=
  r ← read_dir dir;
  mret (match r with
        | FOk es => existsb (λ name, negb (bool_decide (name = StorageMarkerName)) && negb (has_prefix name ".quince-")) (names es)
        | _ => false
        end).

Definition recommendBackend (md : medium) (dir : path) (z : ZFSSignal) : stateM Disk string :=
  match z with ZFSPath => mret BackendZFS | _ => probeNamespace md dir end.

Context (storage_sha256 : StorageMarker → string).

Definition Inspect (md : medium) (h : host_facts) (p : string) : stateM Disk Report :=
  if bool_decide (p = "") || negb (filepath_IsAbs p)
  then mret (mkReport p "" InspectInvalidPath "" None false ZFSNone 0 0)
  else
    let clean := filepath_Clean p in
    let dir := fs_path p in
    let early o := mret (mkReport p clean o "" None false ZFSNone 0 0) in
    fi ← os_stat dir;
    match fi with
    | FAbsent => early InspectMissing
    | FErr => early InspectUnreadable
    | FOk (NFile _) => early InspectNotDir
    | FOk (NDir _) =>
        let zfs := inspectZFS h in
        let '(free, total) := default (0, 0) (hf_space h) in
        nonEmpty ← dirHasEntries dir;
        marker ← ReadStorageMarker storage_sha256 dir;
        let found := match marker with SMOk m => Some m | _ => None end in
        let report o backend := mkReport p clean o backend found nonEmpty zfs free total in
        writable ← writableProbe h dir;
        if negb writable then mret (report InspectUnwritable ""%string)
        else match marker with
             | SMCorrupt => mret (report InspectCorruptMarker ""%string)
             | SMOk m => mret (report InspectAdopt (sm_Backend m))
             | _ =>
                 backend ← recommendBackend md dir zfs;
                 mret (report InspectNew backend)
             end
    end.
End probe.

(** ** The check of the helper *)

Inductive HookOutcome : Type := HookOK | HookNotMigrated | HookParentMismatch | HookUnreachable.
Record HookCheck : Type := mkHookCheck { hc_Outcome : HookOutcome; hc_Detail : string }.
Definition firstNonEmpty (a b : string) : string := if bool_decide (trim_space a = "") then b else a.

Definition CheckHook (host_run : list string → node → (string * bool) * node) (parentDataset : string) (hookArgv : list string) :
    stateM Disk HookCheck :=
  if bool_decide (hookArgv = []) || negb (datasetPattern parentDataset) then mret (mkHookCheck HookUnreachable "")
  else
    let ask op args := @ZfsHost.run (zfs_host host_run parentDataset hookArgv) (hookArgv ++ op :: args) in
    '(capOut, capOk) ← ask "capacity"%string [];
    '(listOut, listOk) ← ask "list"%string [parentDataset];
    mret (match capOk, listOk with
          | true, true => mkHookCheck HookOK (trim_space capOut)
          | false, true => mkHookCheck HookNotMigrated (trim_space capOut)
          | true, false => mkHookCheck HookParentMismatch (trim_space listOut)
          | false, false => mkHookCheck HookUnreachable (trim_space (firstNonEmpty capOut listOut))
          end).

(** ** What an offsite copy leaves out *)

Definition AnchoredFilterRules (subdir : string) : list string :=
  ["- /" +:+ subdir +:+ "/*/working/**"; "- /" +:+ subdir +:+ "/*/versions/**"; "- /" +:+ subdir +:+ "/" +:+ StorageMarkerName].

Fixpoint matchGlob (pat rel : list string) : bool :=
  match pat with
  | [] => bool_decide (rel = [])
  | g :: pat =>
      if bool_decide (g = "**"%string) then
        (fix from rel := matchGlob pat rel || match rel with [] => false | _ :: rel => from rel end) rel
      else
        match rel with
        | [] => false
        | c :: rel => (bool_decide (g = "*"%string) || bool_decide (g = c)) && matchGlob pat rel
        end
  end.

(** [strings.Trim(p, "/")], then its segments. *)
Fixpoint trim_slashes_left (s : string) : string :=
  match s with String c s' => if bool_decide (c = "/"%char) then trim_slashes_left s' else s | EmptyString => s end.
Definition trim_slashes (s : string) : string := str_reverse (trim_slashes_left (str_reverse (trim_slashes_left s))).
Definition splitPath (p : string) : list string :=
  let p := trim_slashes p in if bool_decide (p = "") then [] else split_on "/" p.
Definition trim_prefix (s prefix : string) : string := if has_prefix s prefix then str_drop (String.length prefix) s else s.

Definition PathExcluded (rel : string) (rules : list string) : bool :=
  existsb (λ rule,
    let rule := trim_space rule in
    has_prefix rule "- " && matchGlob (splitPath (trim_prefix (trim_space (trim_prefix rule "- ")) "/")) (splitPath rel)) rules.

(** ** Programs that work on some entries of one directory *)

(** The tree is the same but for entries of [dev] with one of the names; where those are files, or
    nothing, they stay so. *)
Definition same_but (dev : path) (names : list string) (n n' : node) : Prop :=
  ∃ es es', stat dev n = FOk (NDir es) ∧ n' = graft dev n es' ∧
    ∀ c, (c ∉ names → es' !! c = es !! c) ∧ (file_or_absent (es !! c) → file_or_absent (es' !! c)).

Lemma same_but_refl dev names n es : stat dev n = FOk (NDir es) → same_but dev names n n.
Proof. intros H. exists es, es. split_and!; [done| |done]. symmetry. by apply graft_self. Qed.

Lemma same_but_dir dev names n n' :
  same_but dev names n n' →
  ∃ es es', stat dev n = FOk (NDir es) ∧ stat dev n' = FOk (NDir es') ∧
    ∀ c, (c ∉ names → es' !! c = es !! c) ∧ (file_or_absent (es !! c) → file_or_absent (es' !! c)).
Proof.
  intros (es & es' & Hs & -> & Hn). exists es, es'. split_and!; [done| |done].
  pose proof (stat_graft dev n es Hs [] es') as H. by rewrite app_nil_r in H.
Qed.

Lemma same_but_trans dev names n n' n'' :
  same_but dev names n n' → same_but dev names n' n'' → same_but dev names n n''.
Proof.
  intros (es & es1 & Hs & -> & H1) (es1' & es2 & Hs' & -> & H2).
  exists es, es2. split_and!; [done| |].
  - unfold graft at 1. by rewrite (put_graft_again dev n es Hs).
  - pose proof (stat_graft dev n es Hs [] es1) as E. rewrite app_nil_r, Hs' in E. simpl in E.
    simplify_eq. intros c. specialize (H1 c). specialize (H2 c). split; [|tauto].
    intros Hc. destruct H2 as [-> _], H1 as [-> _]; done.
Qed.

Lemma same_but_mono dev names names' n n' : names ⊆ names' → same_but dev names n n' → same_but dev names' n n'.
Proof.
  intros Hsub (es & es' & Hs & -> & H). exists es, es'. split_and!; [done..|]. intros c. specialize (H c). split; [|tauto].
  intros Hc. apply H. set_solver.
Qed.

Lemma same_but_diverge dev names n n' q : diverge dev q → same_but dev names n n' → stat q n' = stat q n.
Proof.
  intros Hd (es & es' & Hs & -> & H). eapply stat_put_diverge; [done|]. by apply (put_graft dev n es Hs).
Qed.
Lemma same_but_entry dev names n n' c q : c ∉ names → same_but dev names n n' → stat (dev ++ c :: q) n' = stat (dev ++ c :: q) n.
Proof.
  intros Hc (es & es' & Hs & -> & H). rewrite (stat_graft dev n es Hs), (stat_app dev (c :: q) n (NDir es)) by done.
  rewrite !stat_cons. by destruct (H c) as [-> _].
Qed.

Class Inside (dev : path) (names : list string) {A} (m : stateM Disk A) : Prop :=
  inside d es : stat dev (d_root d) = FOk (NDir es) →
    same_but dev names (d_root d) (d_root (m d).2) ∧ d_fault (m d).2 = d_fault d.

Lemma tc_elem_of {A} (x : A) l : TCElemOf x l → x ∈ l.
Proof. induction 1; set_solver. Qed.

Section inside.
Context (dev : path) (names : list string).
#[local] Abbreviation In m := (Inside dev names m).

#[export] Instance inside_ret {A} (a : A) : In (mret (M:=stateM Disk) a).
Proof. intros d es Hs. split; [by eapply same_but_refl|done]. Qed.
#[export] Instance inside_bind {A B} (m : stateM Disk A) (f : A → stateM Disk B) : In m → (∀ a, In (f a)) → In (m ≫= f).
Proof.
  intros Hm Hf d es Hs. destruct (Hm d es Hs) as [H1 E1]. unfold mbind, stateM_bind. destruct (m d) as [a d'].
  simpl in *. pose proof (same_but_dir _ _ _ _ H1) as (_ & es' & _ & Hs' & _).
  destruct (Hf a d' es' Hs') as [H2 E2]. split; [by eapply same_but_trans|congruence].
Qed.
#[export] Instance inside_query {A} (f : node → fs_res A) : In (sys_query f).
Proof. intros d es Hs. split; [by eapply same_but_refl|done]. Qed.
Lemma inside_pure_change f : (∀ r es r', stat dev r = FOk (NDir es) → f r = FOk r' → same_but dev names r r') → In (sys_change f).
Proof.
  intros Hf d es Hs. unfold sys_change. destruct (d_fault d _); simpl; [split; [by eapply same_but_refl|done]|].
  destruct (f (d_root d)) eqn:Hr; simpl; (split; [|done]); [by eapply Hf|by eapply same_but_refl..].
Qed.
Lemma same_but_upd r es k x : stat dev r = FOk (NDir es) → k ∈ names →
  (file_or_absent (es !! k) → file_or_absent x) → same_but dev names r (graft dev r (upd k x es)).
Proof.
  intros Hs Hk Hx. exists es, (upd k x es). split_and!; [done..|]. intros c.
  destruct (decide (k = c)) as [->|Hne]; [rewrite lookup_upd; done|by rewrite lookup_upd_ne].
Qed.
Lemma put_same_but r es k x : stat dev r = FOk (NDir es) → put (dev ++ [k]) x r = Some (graft dev r (upd k x es)).
Proof.
  intros Hs. pose proof (graft_put_entry dev r es Hs k x es) as E. by rewrite (graft_self dev r es Hs) in E.
Qed.
Lemma get_entry r es k : stat dev r = FOk (NDir es) → get (dev ++ [k]) r = es !! k.
Proof. intros Hs. unfold get. rewrite (stat_app dev [k] r _ Hs), stat_1. by destruct (es !! k). Qed.
#[export] Instance inside_write k c : TCElemOf k names → In (write_file (dev ++ [k]) c).
Proof.
  intros Hk%tc_elem_of d es Hs. unfold write_file, sys_change_at. destruct (d_fault d _) eqn:Hf.
  - simpl. split; [|done]. unfold leave. rewrite (put_same_but _ _ _ _ Hs), (get_entry _ _ _ Hs). apply same_but_upd; [done..|].
    simpl. by destruct (d_left d (d_step d) (es !! k)) as [[]|].
  - revert Hs. revert d Hf es. clear -Hk. intros d _ es Hs. revert d es Hs.
    apply inside_pure_change. intros r es r' Hr. unfold sys_write_file. rewrite (put_same_but _ _ _ _ Hr).
    destruct (stat (dev ++ [k]) r) as [[]| |]; simpl; try done; intros [= <-]; by apply same_but_upd.
Qed.
#[export] Instance inside_remove k : TCElemOf k names → In (os_remove (dev ++ [k])).
Proof.
  intros Hk%tc_elem_of. apply inside_pure_change. intros r es r' Hr. unfold sys_remove.
  rewrite (put_same_but _ _ _ _ Hr). destruct (stat (dev ++ [k]) r) as [[]| |]; simpl; try done;
    try case_bool_decide; try done; intros [= <-]; by apply same_but_upd.
Qed.
#[export] Instance inside_link j k : TCElemOf k names → In (os_link (dev ++ [j]) (dev ++ [k])).
Proof.
  intros Hk%tc_elem_of. apply inside_pure_change. intros r es r' Hr.
  destruct (stat (dev ++ [j]) r) as [[]| |]; simpl; try done. rewrite (put_same_but _ _ _ _ Hr).
  destruct (stat (dev ++ [k]) r) as [[]| |]; simpl; try done; intros [= <-]; by apply same_but_upd.
Qed.
#[export] Instance inside_temp k : TCElemOf k names → In (create_temp (dev ++ [k])).
Proof.
  intros Hk%tc_elem_of. apply inside_pure_change. intros r es r' Hr. rewrite (put_same_but _ _ _ _ Hr).
  destruct (stat (dev ++ [k]) r) as [[]| |]; simpl; try done; intros [= <-]; by apply same_but_upd.
Qed.
#[export] Instance inside_mkdir : In (os_mkdir_all dev).
Proof.
  apply inside_pure_change. intros r es r' Hr. unfold sys_mkdir_all.
  pose proof (mkdir_all_app dev [] r _ Hr) as E. rewrite app_nil_r in E. rewrite E. simpl.
  pose proof (put_graft dev r es Hr es) as Hg. rewrite Hg. simpl. intros [= <-].
  exists es, es. split_and!; [done|done|done].
Qed.
#[export] Instance inside_alias md k c : TCElemOf k names → In (write_alias md (dev ++ [k]) c).
Proof.
  intros Hk%tc_elem_of d es Hs. unfold write_alias, modify. simpl.
  destruct (md_aliased md); [|split; [by eapply same_but_refl|done]].
  simpl. split; [|done]. rewrite (put_same_but _ _ _ _ Hs). by apply same_but_upd.
Qed.
End inside.

(** Programs stay inside by their shape. *)
Ltac solve_inside :=
  repeat (intros; cbv beta zeta;
    first [ apply inside_ret | apply inside_query | apply inside_bind | progress case_match
          | solve [apply _]
          | progress unfold read_file, read_dir, os_stat ]).

(** The files of the probes. *)
Definition scratch_names : list string := [reflinkSrc; reflinkDst; hardlinkSrc; hardlinkDst].

Section probe_inside.
Context (size : nat) (md : medium) (dev : path) (names : list string).
#[local] Abbreviation In m := (Inside dev names m).

Section reflink.
Context `{!TCElemOf reflinkSrc names, !TCElemOf reflinkDst names}.

#[export] Instance inside_reflinkFile answer : In (reflinkFile answer (dev ++ [reflinkDst]) (dev ++ [reflinkSrc])).
Proof. unfold reflinkFile. solve_inside. Qed.
#[export] Instance inside_clone_attempts attempt more :
  In (clone_attempts md (dev ++ [reflinkDst]) (dev ++ [reflinkSrc]) attempt more).
Proof. revert attempt. induction more as [|more IH]; intros attempt; simpl; solve_inside. Qed.
#[export] Instance inside_reflink_measured : In (reflink_measured size md (dev ++ [reflinkDst]) (dev ++ [reflinkSrc])).
Proof. unfold reflink_measured, extentSharing. solve_inside. Qed.
#[export] Instance inside_ReflinkProbeDetail : In (ReflinkProbeDetail size md dev).
Proof. unfold ReflinkProbeDetail. solve_inside. Qed.
End reflink.

#[export] Instance inside_hardlinkProbe `{!TCElemOf hardlinkSrc names, !TCElemOf hardlinkDst names} :
  In (hardlinkProbe md dev).
Proof. unfold hardlinkProbe. solve_inside. Qed.
End probe_inside.

#[export] Instance inside_probeNamespaceDetail size md dev : Inside dev scratch_names (probeNamespaceDetail size md dev).
Proof. unfold probeNamespaceDetail. solve_inside. Qed.
#[export] Instance inside_probeNamespace size md dev : Inside dev scratch_names (probeNamespace size md dev).
Proof. unfold probeNamespace. solve_inside. Qed.

(** ** Nothing is left behind *)

(** No call fails. *)
Definition sound (d : Disk) : Prop := ∀ n, d_fault d n = false.

(** The last thing that a probe does is to remove its two files. *)
Definition cleaned {A} (m : stateM Disk A) (p q : path) : stateM Disk A :=
  res ← m; _ ← os_remove p; _ ← os_remove q; mret res.

Section tidy.
Context (dev : path) (r : node) (es0 : gmap string node) (Hr : stat dev r = FOk (NDir es0)).

Definition holds_entries (es : gmap string node) (d : Disk) : Prop := sound d ∧ d_root d = graft dev r es.

Lemma holds_stat es d : holds_entries es d → stat dev (d_root d) = FOk (NDir es).
Proof. intros [_ ->]. pose proof (stat_graft dev r es0 Hr [] es) as E. by rewrite app_nil_r in E. Qed.

Lemma holds_inside {A} (m : stateM Disk A) names es d :
  Inside dev names m → holds_entries es d →
  ∃ es', holds_entries es' (m d).2 ∧
    ∀ c, (c ∉ names → es' !! c = es !! c) ∧ (file_or_absent (es !! c) → file_or_absent (es' !! c)).
Proof.
  intros Hm Hd. pose proof (holds_stat _ _ Hd) as Hs. destruct Hd as [Hd Hg].
  destruct (Hm d es Hs) as [(es1 & es' & Hs1 & Hg' & H) E]. rewrite Hs in Hs1. simplify_eq.
  exists es'. split; [split|done].
  - intros n. rewrite E. apply Hd.
  - rewrite Hg', Hg. unfold graft at 1. by rewrite (put_graft_again dev r es0 Hr).
Qed.

Lemma holds_remove k es d :
  holds_entries es d → file_or_absent (es !! k) → holds_entries (upd k None es) (os_remove (dev ++ [k]) d).2.
Proof.
  intros [Hd Hg] Hf. pose proof (holds_stat es d (conj Hd Hg)) as Hs.
  unfold os_remove, sys_change, sys_remove. rewrite Hd, (stat_app dev [k] _ _ Hs), stat_1.
  destruct (es !! k) as [[c|]|] eqn:Hk; simpl; [|done|].
  - rewrite Hg, (graft_put_entry dev r es0 Hr). done.
  - split; [done|]. simpl. by rewrite Hg, <-Hk, upd_id.
Qed.

Lemma cleaned_same {A} (m : stateM Disk A) names j k es d :
  Inside dev names m → (∀ c, c ∈ names → c = j ∨ c = k) → es !! j = None → es !! k = None →
  holds_entries es d → holds_entries es (cleaned m (dev ++ [j]) (dev ++ [k]) d).2.
Proof.
  intros Hm Hn Hj Hk Hd. destruct (holds_inside m names es d Hm Hd) as (es1 & H1 & Hc).
  unfold cleaned, mbind, stateM_bind. destruct (m d) as [a d1]. simpl in *.
  assert (∀ x, es !! x = None → file_or_absent (es1 !! x)) as Hx by (intros x Hx; apply Hc; by rewrite Hx).
  pose proof (holds_remove j es1 d1 H1 (Hx _ Hj)) as H2.
  destruct (os_remove (dev ++ [j]) d1) as [? d2]. simpl in *.
  assert (file_or_absent (upd j None es1 !! k)) as Hk2.
  { destruct (decide (j = k)) as [->|]; [by rewrite lookup_upd|rewrite lookup_upd_ne by done; by apply Hx]. }
  pose proof (holds_remove k _ d2 H2 Hk2) as H3.
  destruct (os_remove (dev ++ [k]) d2) as [? d3]. simpl in *.
  assert (upd k None (upd j None es1) = es) as <-; [|done].
  apply map_eq. intros c. destruct (decide (c = k)) as [->|]; [by rewrite lookup_upd|rewrite lookup_upd_ne by done].
  destruct (decide (c = j)) as [->|]; [by rewrite lookup_upd|rewrite lookup_upd_ne by done].
  apply Hc. intros Hin. by destruct (Hn c Hin).
Qed.

Lemma hardlinkProbe_same md es d :
  es !! hardlinkSrc = None → es !! hardlinkDst = None → holds_entries es d →
  holds_entries es (hardlinkProbe md dev d).2.
Proof.
  intros ? ? Hd. eapply (cleaned_same _ [hardlinkSrc; hardlinkDst]); [|set_solver|done..]. solve_inside.
Qed.
Lemma ReflinkProbeDetail_same size md es d :
  es !! reflinkSrc = None → es !! reflinkDst = None → holds_entries es d →
  holds_entries es (ReflinkProbeDetail size md dev d).2.
Proof.
  intros ? ? Hd. eapply (cleaned_same _ [reflinkSrc; reflinkDst]); [|set_solver|done..]. solve_inside.
Qed.
Lemma holds_mkdir es d : holds_entries es d → holds_entries es (os_mkdir_all dev d).2.
Proof.
  intros [Hd Hg]. pose proof (holds_stat es d (conj Hd Hg)) as Hs.
  unfold os_mkdir_all, sys_change, sys_mkdir_all. rewrite Hd.
  pose proof (mkdir_all_app dev [] _ _ Hs) as E. rewrite app_nil_r in E. rewrite E. simpl.
  rewrite Hg. rewrite (put_graft_again dev r es0 Hr). simpl. done.
Qed.

(** Looking for the backend of a directory leaves it as it was. *)
Lemma probeNamespaceDetail_same size md es d :
  Forall (λ c, es !! c = None) scratch_names → holds_entries es d →
  holds_entries es (probeNamespaceDetail size md dev d).2.
Proof.
  unfold scratch_names. intros Hn Hd. rewrite !Forall_cons in Hn. destruct Hn as (H1 & H2 & H3 & H4 & _).
  unfold probeNamespaceDetail, mbind, stateM_bind. pose proof (holds_mkdir es d Hd) as Hm.
  destruct (os_mkdir_all dev d) as [res d1]. simpl in *. destruct (fs_ok res); [|done]. simpl.
  pose proof (ReflinkProbeDetail_same size md es d1 H1 H2 Hm) as Hp.
  destruct (ReflinkProbeDetail size md dev d1) as [v d2]. simpl in *.
  pose proof (hardlinkProbe_same md es d2 H3 H4 Hp) as Hh.
  destruct v; try done; by destruct (hardlinkProbe md dev d2).
Qed.
End tidy.

(** What a form is told of a path whose directory can be written, from the tree alone. *)
Definition what_is_there (sha256 : StorageMarker → string) (p : string) (n : node) : InspectOutcome :=
  if negb (filepath_IsAbs p) then InspectInvalidPath
  else match stat (fs_path p) n with
       | FAbsent => InspectMissing
       | FErr => InspectUnreadable
       | FOk (NFile _) => InspectNotDir
       | FOk (NDir es) =>
           match es !! StorageMarkerName with
           | Some (NFile c) => match parse_storage_marker sha256 c with SMOk _ => InspectAdopt | _ => InspectCorruptMarker end
           | _ => InspectNew
           end
       end.
Definition marker_there (sha256 : StorageMarker → string) (p : string) (n : node) : option StorageMarker :=
  c ← match sys_read_file (fs_path p ++ [StorageMarkerName]) n with FOk c => Some c | _ => None end;
  match parse_storage_marker sha256 c with SMOk m => Some m | _ => None end.

Lemma stat_app_not p q n : (∀ m, stat p n ≠ FOk m) → ∀ m, stat (p ++ q) n ≠ FOk m.
Proof.
  revert n. induction p as [|c p IH]; intros n H m; simpl in *; [by destruct (H n)|].
  destruct n as [|es]; [done|]. destruct (es !! c); [by apply IH|done].
Qed.
Lemma marker_there_not sha256 p n : (∀ es, stat (fs_path p) n ≠ FOk (NDir es)) → marker_there sha256 p n = None.
Proof.
  intros H. unfold marker_there, sys_read_file. destruct (stat (fs_path p) n) as [[c|es]| |] eqn:Hs.
  - by rewrite (stat_app _ _ _ _ Hs).
  - by destruct (H es).
  - destruct (stat (fs_path p ++ _) n) eqn:Hq; [|done..]. by destruct (stat_app_not _ [StorageMarkerName] n ltac:(by rewrite Hs) a).
  - destruct (stat (fs_path p ++ _) n) eqn:Hq; [|done..]. by destruct (stat_app_not _ [StorageMarkerName] n ltac:(by rewrite Hs) a).
Qed.

(** The tick of a call that reads leaves the entries. *)
Lemma holds_tick dev r es d : holds_entries dev r es d → holds_entries dev r es (tick_step d).
Proof. intros [Hd Hr]. done. Qed.

Lemma writableProbe_sound dev r es0 es h d :
  stat dev r = FOk (NDir es0) → es !! inspect_temp h = None → holds_entries dev r es d →
  (writableProbe h dev d).1 = true ∧ holds_entries dev r es (writableProbe h dev d).2.
Proof.
  intros Hr Hn Hd. pose proof (holds_stat dev r es0 Hr es d Hd) as Hs. pose proof Hd as [Hf Hg].
  unfold writableProbe, mbind, stateM_bind, create_temp, sys_change. rewrite Hf, (stat_app _ [_] _ _ Hs), stat_1, Hn.
  rewrite (put_same_but _ _ _ _ _ Hs). simpl. set (d1 := set_root _ _).
  assert (holds_entries dev r (upd (inspect_temp h) (Some (NFile (CData ""))) es) d1) as H1.
  { split; [done|]. simpl. rewrite Hg. unfold graft at 1. by rewrite (put_graft_again dev r es0 Hr). }
  pose proof (holds_remove dev r es0 Hr (inspect_temp h) _ d1 H1 ltac:(by rewrite lookup_upd)) as H2.
  destruct (os_remove _ d1) as [? d2]. simpl in *. split; [done|].
  rewrite upd_upd in H2. by rewrite <-Hn, upd_id in H2.
Qed.

(** Inspecting a path changes nothing and says what is there.  On a disk whose calls do not fail,
    and in a directory without quince's own scratch files, the tree after the inspection of a path is
    the tree before it, whatever is found and whatever the file system says of clones and links; the
    outcome is the one that the tree has, the marker is the one that is there, and a storage that is
    adopted is reported with the backend that its marker records. *)
Theorem inspect_exact size sha256 md h p d :
  sound d →
  (∀ es, stat (fs_path p) (d_root d) = FOk (NDir es) → Forall (λ c, es !! c = None) (inspect_temp h :: scratch_names)) →
  let '(rep, d') := Inspect size sha256 md h p d in
  d_root d' = d_root d ∧ rp_Outcome rep = what_is_there sha256 p (d_root d) ∧
  (rp_Outcome rep ≠ InspectInvalidPath → rp_Marker rep = marker_there sha256 p (d_root d)) ∧
  (rp_Outcome rep = InspectAdopt → Some (rp_Backend rep) = sm_Backend <$> rp_Marker rep).
Proof.
  intros Hd Hfree. unfold Inspect, what_is_there.
  destruct (bool_decide (p = "") || negb (filepath_IsAbs p)) eqn:Hp; simpl.
  { assert (filepath_IsAbs p = false) as ->; [|done]. destruct (filepath_IsAbs p) eqn:E; [|done].
    case_bool_decide; [by subst|done]. }
  apply orb_false_iff in Hp as [_ Hp]. rewrite Hp. unfold mbind at 1, stateM_bind at 1, os_stat, sys_query. rewrite Hd.
  destruct (stat (fs_path p) (d_root d)) as [[c|es]| |] eqn:Hs; simpl;
    [by rewrite marker_there_not by (by rewrite Hs)| |by rewrite marker_there_not by (by rewrite Hs)..].
  specialize (Hfree es eq_refl). apply Forall_cons in Hfree as [Ht Hn].
  set (r := d_root d) in *. set (dev := fs_path p) in *.
  assert (holds_entries dev r es d) as H0 by (split; [done|]; symmetry; by apply graft_self).
  destruct (default (0, 0) (hf_space h)) as [free total].
  unfold dirHasEntries, read_dir, sys_query, mbind, stateM_bind. simpl. rewrite Hd.
  unfold ReadStorageMarker, read_file, sys_query, mbind, stateM_bind. simpl. rewrite Hd. simpl.
  set (d2 := tick_step (tick_step (tick_step d))).
  destruct (writableProbe_sound dev r es es h d2 Hs Ht ltac:(by apply holds_tick, holds_tick, holds_tick)) as [Hw H3].
  destruct (writableProbe h dev d2) as [w d3]. simpl in Hw, H3. subst w. simpl.
  unfold marker_there. fold dev r. unfold sys_read_file. rewrite (stat_app dev [StorageMarkerName] r _ Hs), stat_1.
  assert (d_root d3 = r) as Hr3 by (destruct H3 as [_ ->]; by apply graft_self).
  assert (∀ z, d_root (recommendBackend size md dev z d3).2 = r) as Hrec.
  { intros []; simpl; [done|..].
    all: pose proof (probeNamespaceDetail_same dev r es Hs size md es d3 Hn H3) as [_ Hp3];
      unfold probeNamespace, mbind, stateM_bind; destruct (probeNamespaceDetail size md dev d3) as [? d4];
      simpl in *; rewrite Hp3; by apply graft_self. }
  destruct (es !! StorageMarkerName) as [[c|es']|]; simpl.
  1: destruct c as [| | | | |m]; simpl; try done;
    destruct (bool_decide (sm_Checksum m = "") || negb (bool_decide (storage_checksum sha256 m = sm_Checksum m))); done.
  all: specialize (Hrec (inspectZFS h)); destruct (recommendBackend size md dev (inspectZFS h) d3) as [b d4]; done.
Qed.

(** An empty directory is a new storage; afterwards it is as it was. *)
Definition plain_medium : medium := mkMedium (λ _, CloneRefused) false None true true.
Definition plain_facts : host_facts := mkHostFacts None None None "1".
Definition quiet (root : node) : Disk := mkDisk root 0 (λ _, false) (λ _ x, x).
Definition one_dir (es : gmap string node) : node := NDir {["disk" := NDir es]}.

Lemma inspect_exact_witness :
  d_root (Inspect 16 (λ _, "sum") plain_medium plain_facts "/disk" (quiet (one_dir ∅))).2 = one_dir ∅ ∧
  rp_Outcome (Inspect 16 (λ _, "sum") plain_medium plain_facts "/disk" (quiet (one_dir ∅))).1 = InspectNew.
Proof.
  pose proof (inspect_exact 16 (λ _, "sum") plain_medium plain_facts "/disk" (quiet (one_dir ∅)) (λ _, eq_refl)) as H.
  destruct (Inspect 16 (λ _, "sum") plain_medium plain_facts "/disk" (quiet (one_dir ∅))) as [rep d'].
  destruct H as (H1 & H2 & _).
  - intros es Hs. vm_compute in Hs. injection Hs as <-. repeat constructor.
  - split; [exact H1|]. simpl. rewrite H2. vm_compute. reflexivity.
Defined.

(** A marker that is there but cannot be read is reported as no marker. *)
Example unreadable_marker_is_new :
  rp_Outcome (Inspect 16 (λ _, "sum") plain_medium plain_facts "/disk"
    (mkDisk (one_dir {[StorageMarkerName := NFile (CStorageMarker (mkStorageMarker "id" "zfs" "" "" "sum"))]}) 0
       (λ n, bool_decide (n = 2%nat)) (λ _ x, x))).1 = InspectNew.
Proof. vm_compute. reflexivity. Qed.

(** What keeps the probe's files from being written, such as a full disk, makes an [auto] storage a
    storage of copies. *)
Example full_disk_probes_as_copy :
  let d := mkDisk (one_dir ∅) 0 (λ n, bool_decide (0 < n)%nat) (λ _ x, x) in
  (probeNamespace 16 (mkMedium (λ _, CloneDone) false (Some (1, [0x2001])) true true) ["disk"%string] d).1 = BackendCopy ∧
  (probeNamespace 16 (mkMedium (λ _, CloneDone) false (Some (1, [0x2001])) true true) ["disk"%string] (quiet (one_dir ∅))).1 = BackendReflink.
Proof. vm_compute. done. Qed.

(** ** Offsite *)

Lemma matchGlob_all rel : matchGlob ["**"%string] rel = true.
Proof. induction rel as [|c rel IH]; [done|]. simpl in *. done. Qed.

(** The rules leave out, of the storage below [subdir], exactly what any of its devices has in a
    directory of the given name - not what has that name further down. *)
Lemma offsite_glob subdir name rel :
  subdir ∉ ["*"; "**"]%string → name ∉ ["*"; "**"]%string →
  matchGlob [subdir; "*"; name; "**"]%string rel ↔ ∃ device rest, rel = subdir :: device :: name :: rest.
Proof.
  intros Hs Hn. rewrite !not_elem_of_cons in Hs, Hn. destruct Hs as (? & ? & _), Hn as (? & ? & _).
  assert (∀ g pat c rel, g ≠ "*"%string → g ≠ "**"%string →
    matchGlob (g :: pat) (c :: rel) = bool_decide (g = c) && matchGlob pat rel) as Hm.
  { intros g pat c l ? ?. simpl. rewrite (bool_decide_false (g = "**"%string)), (bool_decide_false (g = "*"%string)) by done. done. }
  assert (∀ g pat, g ≠ "**"%string → matchGlob (g :: pat) [] = false) as Hnil.
  { intros g pat Hg. simpl. by rewrite bool_decide_false. }
  destruct rel as [|a [|b [|c rest]]].
  - rewrite Hnil by done. naive_solver.
  - rewrite Hm by done. simpl. rewrite andb_false_r. naive_solver.
  - rewrite Hm by done. change (matchGlob ("*"%string :: [name; "**"%string]) [b]) with (matchGlob [name; "**"%string] []).
    rewrite Hnil, andb_false_r by done. naive_solver.
  - rewrite Hm by done. change (matchGlob ("*"%string :: [name; "**"%string]) (b :: c :: rest)) with (matchGlob [name; "**"%string] (c :: rest)).
    rewrite Hm, matchGlob_all by done. case_bool_decide; case_bool_decide; simpl; naive_solver.
Qed.

Example offsite_rules :
  let excluded p := PathExcluded p (AnchoredFilterRules "iphone-backup") in
  (excluded <$> ["iphone-backup/U/working/U/Manifest.db"; "iphone-backup/U/latest/Manifest.db"; "iphone-backup/U/latest/working/x";
                 "iphone-backup/quince-storage.json"; "other/U/working/x"; "iphone-backup/U/versions"]%string)
    = [true; false; false; true; false; true].
Proof. vm_compute. reflexivity. Qed.
