(* ===== verification/ConfigFile.v ===== *)
(** * ConfigFile: config.yml as a document

    Models core/internal/config/declared.go and writedeclared.go (which keys a file sets, which ones a
    save sets, and the document that has only those), renames.go, and the reading of a file in
    service.go.  The YAML package is another library's: the class [Yaml] has its calls, and what they
    give is a tree ([value] for any, [node] for a document).  A set of keys is a set of strings. *)

From Stdlib Require Import String Ascii.
From S2P Require Import Prelude Calendar Config.

(** ** Trees *)

(** What a map[string]any holds; [VOther] is a scalar of another type, by its [%v]. *)
Inductive value : Type :=
  | VNull | VBool (b : bool) | VInt (z : Z) | VString (s : string) | VOther (text : string)
  | VMap (kvs : list (string * value)) | VList (l : list value).

(** A yaml.Node: a scalar with its text, a mapping, a sequence. *)
Inductive node : Type := NScalar (v : string) | NMap (kvs : list (string * node)) | NSeq (l : list node).

Class Yaml : Type := {
  text : Type;
  text_eq_dec :: EqDecision text;
  no_text : text;
  Unmarshal_config : text → Configuration → result Configuration;
  Unmarshal_map : text → result (option (list (string * value)));
  Unmarshal_node : text → result (option node);
  Marshal : Configuration → result text;
  Marshal_entry : StorageEntry → result text;
  Marshal_node : node → result text }.

Fixpoint assoc {A} (k : string) (kvs : list (string * A)) : option A :=
  match kvs with [] => None | (k', v) :: kvs => if bool_decide (k' = k) then Some v else assoc k kvs end.

(** [fmt]'s [%v]: a map by its keys in order. *)
Definition key_le (a b : string * string) : Prop := str_le a.1 b.1.
#[global] Instance key_le_dec : RelDecision key_le.
Proof. intros a b. unfold key_le. apply _. Defined.
Fixpoint fmt_v (v : value) : string :=
  match v with
  | VNull => "<nil>"
  | VBool b => if b then "true" else "false"
  | VInt z => fmt_d z
  | VString s | VOther s => s
  | VMap kvs => "map[" +:+ join ((λ kv, kv.1 +:+ ":" +:+ kv.2) <$> merge_sort key_le (List.map (λ '(k, w), (k, fmt_v w)) kvs)) " " +:+ "]"
  | VList l => "[" +:+ join (List.map fmt_v l) " " +:+ "]"
  end.
Definition sameScalar (a b : value) : bool := String.eqb (fmt_v a) (fmt_v b).

(** ** The schema, as its struct tags say *)

Inductive schema : Type := SLeaf | SStruct (fields : list (string * schema)) | SSlice (elem : schema).

Definition leaves (names : list string) : list (string * schema) := (λ n, (n, SLeaf)) <$> names.
Definition config_fields : list (string * schema) := [
  ("backup", SStruct (leaves ["preferred_transport"; "require_encryption"]));
  ("storage", SSlice (SStruct (leaves ["name"; "path"; "default"; "backend"] ++ [
     ("zfs", SStruct (leaves ["parent_dataset"; "mode"; "hook_cmd"; "ssh_user"; "ssh_host"; "ssh_port"; "ssh_key"; "seed"]));
     ("retention", SStruct (leaves ["keep_recent"; "keep_daily"; "keep_weekly"]))])));
  ("muxers", SSlice (SStruct (leaves ["address"; "type"])));
  ("devices", SStruct (leaves ["manage_muxer"; "usbmuxd_socket"; "netmuxd_addr"]));
  ("tls", SStruct (leaves ["cert_file"; "key_file"]));
  ("sessions", SStruct (leaves ["allow_insecure_transport"]));
  ("notifications", SStruct (leaves ["staleness_days"; "reminder_cooldown_hours"; "overdue_days"; "backup_available";
     "backup_overdue"; "action_required"; "backup_failed"; "backup_completed"]));
  ("reconcile", SStruct (leaves ["interval_minutes"]));
  ("vault", SStruct (leaves ["session_ttl_minutes"]));
  ("ui", SStruct (leaves ["theme"]))]%string.

(** ** The keys that a file sets *)

Abbreviation Declared := (gset string).

(** How an entry of a list is addressed. *)
Definition as_string (v : option value) : option string := match v with Some (VString s) => Some s | _ => None end.
Definition entryKey (kvs : list (string * value)) : string :=
  match as_string (assoc "name" kvs) with
  | Some s => if bool_decide (s = ""%string) then default (default ""%string (as_string (assoc "address" kvs))) (as_string (assoc "path" kvs)) else s
  | None => default (default ""%string (as_string (assoc "address" kvs))) (as_string (assoc "path" kvs))
  end.
Definition item_prefix (path key : string) : string := path +:+ "[" +:+ key +:+ "].".

(** [declaredKeys], in the order of the document. *)
Fixpoint declared_in (v : value) (fields : list (string * schema)) (prefix : string) : list string :=
  match v with
  | VMap kvs =>
      flat_map (λ '(k, w),
        match assoc k fields with
        | None => []
        | Some s =>
            (prefix +:+ k) ::
            match s, w with
            | SStruct fields', VMap _ => declared_in w fields' (prefix +:+ k +:+ ".")
            | SSlice (SStruct fields'), VList items =>
                flat_map (λ item, match item with
                                  | VMap sub => declared_in item fields' (item_prefix (prefix +:+ k) (entryKey sub))
                                  | _ => []
                                  end) items
            | _, _ => []
            end
        end) kvs
  | _ => []
  end.
Definition declaredKeys (raw : list (string * value)) : Declared := list_to_set (declared_in (VMap raw) config_fields "").

(** ** Keys that nothing reads *)

(** [keyIndexRe] replaced by nothing: an index of a list is left out of a key. *)
Fixpoint skip_digits (s : string) : string :=
  match s with String c s' => if is_digit c then skip_digits s' else s | EmptyString => s end.
Definition after_index (s : string) : option string :=
  match s with
  | String c s' => if is_digit c then match skip_digits s' with
                                      | String "]" rest => Some rest
                                      | _ => None
                                      end else None
  | EmptyString => None
  end.
Fixpoint keyIndex_fuel (fuel : nat) (s : string) : string :=
  match fuel, s with
  | S fuel, String c s' =>
      if bool_decide (c = "["%char) then
        match after_index s' with Some rest => keyIndex_fuel fuel rest | None => String c (keyIndex_fuel fuel s') end
      else String c (keyIndex_fuel fuel s')
  | _, _ => s
  end.
Definition keyIndex (path : string) : string := keyIndex_fuel (String.length path) path.

Definition renamedKeys : list (string * string) := [("storage.zfs.mirror", "storage.zfs.seed")]%string.
Definition renamedSections : list (string * string) := [("automation", "notifications")]%string.

Definition quoteValue (v : value) : string :=
  match v with VNull => "(empty)" | VString s => quote s | _ => quote (fmt_v v) end.
Definition childValue (v : value) : string :=
  match v with VMap _ => "(a nested section)" | VList _ => "(a list)" | _ => quoteValue v end.

Definition renameSectionWarning (path : string) (v : value) : option string :=
  match assoc (keyIndex path) renamedSections with
  | None => None
  | Some successor =>
      match v with
      | VMap ((_ :: _) as children) =>
          let names := merge_sort str_le children.*1 in
          let parts := (λ k, k +:+ ": " +:+ childValue (default VNull (assoc k children))) <$> names in
          Some ("`" +:+ path +:+ ":` was renamed to `" +:+ successor +:+ ":` and the whole section is IGNORED — your settings " +:+
                join parts ", " +:+ " are NOT in force; move them under `" +:+ successor +:+ ":`.")
      | _ => Some ("`" +:+ path +:+ ":` was renamed to `" +:+ successor +:+ ":` and the whole section is IGNORED; move it to `" +:+ successor +:+ ":`.")
      end
  end.
Definition renameWarning (path : string) (v : value) : option string :=
  match assoc (keyIndex path) renamedKeys with
  | None => renameSectionWarning path v
  | Some successor =>
      Some ("`" +:+ path +:+ "` was renamed to `" +:+ successor +:+ "` and is IGNORED — your value " +:+ quoteValue v +:+ " is NOT in force; move it to `" +:+ successor +:+ "`.")
  end.
Definition unknown_key (path : string) (v : value) : Warning :=
  mkWarning path (default ("unknown config key " +:+ quote path +:+ " (ignored)") (renameWarning path v)).

Fixpoint unknownKeys (v : value) (fields : list (string * schema)) (prefix : string) : list Warning :=
  match v with
  | VMap kvs =>
      flat_map (λ '(k, w),
        match assoc k fields with
        | None => [unknown_key (prefix +:+ k) w]
        | Some s =>
            match s, w with
            | SStruct fields', VMap _ => unknownKeys w fields' (prefix +:+ k +:+ ".")
            | SSlice (SStruct fields'), VList items =>
                (fix go (i : Z) (items : list value) : list Warning :=
                   match items with
                   | [] => []
                   | item :: items =>
                       match item with VMap _ => unknownKeys item fields' (item_prefix (prefix +:+ k) (fmt_d i)) | _ => [] end ++ go (i + 1) items
                   end) 0 items
            | _, _ => []
            end
        end) kvs
  | _ => []
  end.

(** ** The keys that a save sets *)

Section config_file.
Context `{Hyaml : !Yaml} `{Hsort : !SortSlice}.



(** [toMap], and [toMapOf] of an entry: a document that is no mapping is the nil map. *)
Definition toMap (c : Configuration) : result (list (string * value)) :=
  t ← Marshal c; m ← Unmarshal_map t; Ok (default [] m).
Definition toMapOf (e : StorageEntry) : result (list (string * value)) :=
  t ← Marshal_entry e; m ← Unmarshal_map t; Ok (default [] m).

(** What a new entry is compared with: the defaults of one at its path. *)
Definition newEntryBaseline (entry : list (string * value)) (lone : bool) : list (string * value) :=
  let path := default ""%string (as_string (assoc "path" entry)) in
  match toMapOf (set_default lone (Resolved (mkStorageEntry "" path false "" (mkZFSConfig "" "" "" "" "" 0 "" "") None))) with
  | Ok m => m
  | Err _ => []
  end.

(** The last entry of a key: a later one takes its place in the map. *)
Definition entry_of (key : string) (items : list value) : option (list (string * value)) :=
  foldl (λ found it, match it with VMap m => if bool_decide (entryKey m = key) then Some m else found | _ => found end) None items.
Definition list_items (v : option value) : list value := match v with Some (VList l) => l | _ => [] end.
Definition map_items (v : option value) : list (string * value) := match v with Some (VMap m) => m | _ => [] end.

Fixpoint diff_in (old : list (string * value)) (next : value) (prefix : string) : list string :=
  match next with
  | VMap kvs =>
      flat_map (λ '(k, nv),
        let path := prefix +:+ k in
        let ov := assoc k old in
        match nv with
        | VMap _ => diff_in (map_items ov) nv (path +:+ ".")
        | VList items =>
            flat_map (λ it, match it with
                            | VMap m =>
                                let prev := default (newEntryBaseline m (bool_decide (length items = 1%nat))) (entry_of (entryKey m) (list_items ov)) in
                                diff_in prev it (item_prefix path (entryKey m))
                            | _ => []
                            end) items
        | _ => match ov with
               | Some v => if sameScalar v nv then [] else [path]
               | None => [path]
               end
        end) kvs
  | _ => []
  end.
Definition changedKeys (old next : Configuration) : result Declared :=
  o ← toMap old; n ← toMap next; Ok (list_to_set (diff_in o (VMap n) "")).

(** The storage that a key belongs to, up to the first bracket that closes. *)
Fixpoint before_bracket (s : string) : option string :=
  match s with
  | EmptyString => None
  | String "]" _ => Some EmptyString
  | String c s' => String c <$> before_bracket s'
  end.
Fixpoint drop_prefix (p s : string) : option string :=
  match p, s with
  | EmptyString, _ => Some s
  | String a p, String b s => if bool_decide (a = b) then drop_prefix p s else None
  | _, _ => None
  end.
Definition storageEntryName (path : string) : option string := rest ← drop_prefix "storage[" path; before_bracket rest.
Definition forStorages (d : Declared) (storages : option (list StorageEntry)) : Declared :=
  let live := se_Name <$> default [] storages in
  filter (λ path, match storageEntryName path with Some name => bool_decide (name ∈ live) | None => true end = true) d.

(** ** The document that has only the keys that were set *)

Definition node_value (n : node) : string := match n with NScalar v => v | _ => "" end.
Definition nodeScalar (kvs : list (string * node)) (key : string) : string := from_option node_value ""%string (assoc key kvs).
Definition nodeEntryKey (kvs : list (string * node)) : string :=
  let later := default (from_option node_value ""%string (assoc "address" kvs)) (node_value <$> assoc "path" kvs) in
  match assoc "name" kvs with
  | Some n => if bool_decide (node_value n = ""%string) then later else node_value n
  | None => later
  end.
Definition is_empty_map (n : node) : bool := match n with NMap [] => true | _ => false end.

(** The keys that an entry keeps whatever was set. *)
Definition kept_keys (multi : bool) (item : list (string * node)) : list string :=
  "path"%string :: if multi && String.eqb (nodeScalar item "default") "true" then ["default"%string] else [].

Fixpoint prune (d : Declared) (n : node) (prefix : string) (keep : list string) : node :=
  match n with
  | NMap kvs =>
      NMap (flat_map (λ '(k, v),
        let path := prefix +:+ k in
        match v with
        | NMap _ => let v' := prune d v (path +:+ ".") [] in if is_empty_map v' then [] else [(k, v')]
        | NSeq items =>
            let items' := List.map (λ item, match item with
              | NMap sub => prune d item (item_prefix path (nodeEntryKey sub)) (kept_keys (Nat.ltb 1 (length items)) sub)
              | _ => item
              end) items in
            if bool_decide (length items = 0%nat) && negb (bool_decide (path ∈ d)) then [] else [(k, NSeq items')]
        | NScalar _ => if bool_decide (path ∈ d) || bool_decide (k ∈ keep) then [(k, v)] else []
        end) kvs)
  | _ => n
  end.

Definition MarshalDeclared (c : Configuration) (d : Declared) : result text :=
  full ← Marshal c;
  doc ← Unmarshal_node full;
  match doc with
  | None => Ok full
  | Some root => Marshal_node (prune d root "" [])
  end.

(** ** Reading a file *)

Definition path_le (a b : Warning) : Prop := str_le (w_Path a) (w_Path b).
#[global] Instance path_le_dec : RelDecision path_le.
Proof. intros a b. unfold path_le. apply _. Defined.

Record Parsed : Type := mkParsed { pa_Config : Configuration; pa_Declared : Declared; pa_Warnings : list Warning }.
Definition Parse (raw : text) : result Parsed :=
  cfg ← Unmarshal_config raw Default;
  let cfg := with_storage (ResolveStorages (c_Storage cfg)) cfg in
  match Unmarshal_map raw with
  | Ok (Some m) => Ok (mkParsed cfg (declaredKeys m) (sort_slice path_le (unknownKeys (VMap m) config_fields "")))
  | _ => Ok (mkParsed cfg ∅ [])
  end.

Definition DegradedModeWarnings (c : Configuration) : list Warning :=
  if sc_AllowInsecureTransport (c_Sessions c)
  then [mkWarning "sessions.allow_insecure_transport" "ON — session and CSRF cookies are served without the Secure flag to plain-http clients, so they cross the network in clear and anyone who can read the path can sign in as you. Deliberate for a network you trust; turn it off if not."]
  else [].

Record Source : Type := mkSource { so_Path : string; so_Mtime : string }.
Record Loaded : Type := mkLoaded {
  ld_Config : Configuration; ld_Declared : Declared; ld_Warnings : list Warning; ld_Errors : list ConfigError;
  ld_Source : Source; ld_OK : bool; ld_Raw : option text; ld_Failure : option LoadFailure }.

(** What is at the path when it is looked at: nothing that can be stat'ed, a file that cannot be
    read, a file. *)
Inductive disk : Type := Absent (err : string) | Unreadable (mtime : time) (err : string) | Present (mtime : time) (content : text).

Definition stat (d : disk) : option time := match d with Absent _ => None | Unreadable t _ | Present t _ => Some t end.
Definition ReadFile (d : disk) : result text := match d with Absent e | Unreadable _ e => Err e | Present _ content => Ok content end.

(** The file is stat'ed when it is [d1] and read when it is [d2]. *)
Definition Load_at (path : string) (d1 d2 : disk) : Loaded :=
  match stat d1 with
  | None => mkLoaded Default ∅ [] [] (mkSource path "") true None None
  | Some t =>
      let src := mkSource path (fmt_rfc3339 t) in
      match ReadFile d2 with
      | Err e => mkLoaded Default ∅ [mkWarning path ("cannot read config: " +:+ e)] [] src false None (Some (mkLoadFailure LoadUnreadable e))
      | Ok data =>
          match Parse data with
          | Err e => mkLoaded Default ∅ [mkWarning "" ("invalid YAML: " +:+ e)] [] src false (Some data) (Some (mkLoadFailure LoadUnparsable e))
          | Ok p =>
              match Validate (pa_Config p) with
              | [] => mkLoaded (pa_Config p) (pa_Declared p) (pa_Warnings p ++ DegradedModeWarnings (pa_Config p)) [] src true (Some data) None
              | errs => mkLoaded Default ∅ (pa_Warnings p ++ ((λ e, mkWarning (ce_Path e) ("invalid value: " +:+ ce_Message e)) <$> errs)) errs src false (Some data) None
              end
          end
      end
  end.
Definition Load (path : string) (d : disk) : Loaded := Load_at path d d.

(** What a tidy document lost, for the warning that says so. *)
Definition sorted_keys (d : Declared) : list string := merge_sort str_le (elements d).
Definition lostPaths (want : Configuration) (got : result Configuration) : string :=
  match got with
  | Err e => "the written document did not parse: " +:+ e
  | Ok got =>
      match changedKeys got want with
      | Ok diff => if bool_decide (size diff = 0%nat) then "(the difference could not be named)" else join (sorted_keys diff) " "
      | Err _ => "(the difference could not be named)"
      end
  end.

End config_file.
