(* ===== verification/ConfigService.v ===== *)
(** * ConfigService: the configuration in force, and its file

    Models core/internal/config/service.go (from [AtomicWrite] on), add.go, forget.go, setdefault.go,
    insecure_transport.go, tls_files.go and the step of poll.go.  A [World] is the service and what is
    at its path; the operations that write hold one mutex for their whole length and run one after
    the other, while a file may be edited between any two looks at it.  An applier is a function that
    returns its warnings, or panics; what the appliers were told is kept, in order. *)

From Stdlib Require Import String Ascii.
From S2P Require Import Prelude Calendar Config ConfigFile.

Section service.
Context `{Hyaml : !Yaml} `{Hsort : !SortSlice}.

(** ** The service *)

Abbreviation Applier := (string * (Configuration → Configuration → option (list Warning)))%type.

Record Service : Type := mkService {
  sv_path : string; sv_cfg : Configuration; sv_declared : Declared; sv_warnings : list Warning; sv_source : Source;
  sv_lastBytes : option text; sv_fileGone : bool; sv_loadErrs : list ConfigError; sv_discarded : bool;
  sv_loadFailure : option LoadFailure; sv_appliers : list Applier;
  sv_told : list (Configuration * Configuration); sv_announced : nat }.

Record World : Type := mkWorld { w_svc : Service; w_disk : disk }.

Definition NewService (path : string) (appliers : list Applier) (d : disk) : Service :=
  let l := Load path d in
  mkService path (ld_Config l) (ld_Declared l) (ld_Warnings l) (ld_Source l) (ld_Raw l) false
    (if ld_OK l then [] else ld_Errors l) (negb (ld_OK l)) (ld_Failure l) appliers [] 0.

Definition runApplier (a : Applier) (old next : Configuration) : list Warning :=
  match a.2 old next with
  | Some warns => warns
  | None => [mkWarning a.1 ("the configuration was saved, but the " +:+ a.1 +:+ " subsystem failed while applying it and may still be running the previous settings — restart quince to be sure")]
  end.
Definition notify_warnings (s : Service) (old next : Configuration) : list Warning :=
  flat_map (λ a, runApplier a old next) (sv_appliers s).
Definition notify (old next : Configuration) (s : Service) : list Warning * Service :=
  (notify_warnings s old next,
   mkService (sv_path s) (sv_cfg s) (sv_declared s) (sv_warnings s) (sv_source s) (sv_lastBytes s) (sv_fileGone s) (sv_loadErrs s)
     (sv_discarded s) (sv_loadFailure s) (sv_appliers s) (sv_told s ++ [(old, next)]) (sv_announced s)).
Definition announceSurfaceChange (s : Service) : Service :=
  mkService (sv_path s) (sv_cfg s) (sv_declared s) (sv_warnings s) (sv_source s) (sv_lastBytes s) (sv_fileGone s) (sv_loadErrs s)
    (sv_discarded s) (sv_loadFailure s) (sv_appliers s) (sv_told s) (S (sv_announced s)).
Definition set_fileGone (b : bool) (s : Service) : Service :=
  mkService (sv_path s) (sv_cfg s) (sv_declared s) (sv_warnings s) (sv_source s) (sv_lastBytes s) b (sv_loadErrs s)
    (sv_discarded s) (sv_loadFailure s) (sv_appliers s) (sv_told s) (sv_announced s).

(** ** The file is edited *)

Inductive ReloadOutcome : Type := ReloadUnchanged | ReloadApplied | ReloadRefused.

(** [bytes.Equal]: the nil slice is the empty one. *)
Definition bytes_Equal (data : text) (prev : option text) : bool := bool_decide (data = default no_text prev).

(** The two sections under the mutex, after a load. *)
Definition refuse_load (l : Loaded) (s : Service) : Service :=
  mkService (sv_path s) (sv_cfg s) (sv_declared s) (ld_Warnings l) (ld_Source l) (ld_Raw l) (sv_fileGone s) (ld_Errors l)
    true (ld_Failure l) (sv_appliers s) (sv_told s) (sv_announced s).
Definition take_load (l : Loaded) (s : Service) : Service :=
  mkService (sv_path s) (ld_Config l) (ld_Declared l) (ld_Warnings l) (ld_Source l) (ld_Raw l) (sv_fileGone s) []
    false None (sv_appliers s) (sv_told s) (sv_announced s).

(** The file is read when it is [d1], stat'ed again when it is [d2] and read again when it is [d3]. *)
Definition Reload_at (d1 d2 d3 : disk) (s : Service) : ReloadOutcome * list Warning * Service :=
  match ReadFile d1 with
  | Err _ => (ReloadUnchanged, [], if bool_decide (is_Some (sv_lastBytes s)) then set_fileGone true s else s)
  | Ok data =>
      let s := set_fileGone false s in
      if bytes_Equal data (sv_lastBytes s) then (ReloadUnchanged, [], s)
      else
        let l := Load_at (sv_path s) d2 d3 in
        if ld_OK l then
          let '(warns, s') := notify (sv_cfg s) (ld_Config l) (take_load l s) in
          (ReloadApplied, warns, announceSurfaceChange s')
        else (ReloadRefused, ld_Warnings l, announceSurfaceChange (refuse_load l s))
  end.
Definition Reload (d : disk) (s : Service) : ReloadOutcome * list Warning * Service := Reload_at d d d s.

(** ** A configuration is saved *)

(** How far [AtomicWrite] gets: to an error of one of its calls, or to the rename. *)
Inductive write_call : Type := CreateTemp | WriteTemp | ChmodTemp | SyncTemp | CloseTemp | RenameTemp.
Record write_io : Type := mkWriteIO { wi_fault : option (write_call * string); wi_time : time; wi_stat : option time }.

Definition AtomicWrite (io : write_io) (data : text) (d : disk) : error * disk :=
  match wi_fault io with
  | Some (_, e) => (Some e, d)
  | None => (None, Present (wi_time io) data)
  end.

Record reply : Type := mkReply { rp_Errors : list ConfigError; rp_Warnings : list Warning; rp_Error : error }.
Definition refused (errs : list ConfigError) (w : World) : reply * World := (mkReply errs [] None, w).
Definition failed (e : string) (w : World) : reply * World := (mkReply [] [] (Some e), w).
Definition saved_ok (r : reply) : bool := bool_decide (length (rp_Errors r) = 0%nat) && bool_decide (rp_Error r = None).

Definition no_storage_left (c : Configuration) : ConfigError :=
  let msg := "at least one storage must be declared — saving this would leave quince unable to back anything up, and it would refuse to start" in
  mkConfigError "storage" (if sr_Empty (CheckStorages c [] None) then "the storage list is empty — " +:+ msg else msg).

(** What is written: the tidy document if it reads back as the configuration, else the full one. *)
Definition guarded (c : Configuration) (tidy : text) : result (text * list Warning) :=
  let back := Parse tidy in
  let same := match back with Ok p => bool_decide (pa_Config p = c) | Err _ => false end in
  if same then Ok (tidy, [])
  else
    full ← Marshal c;
    let lost := lostPaths c (match back with Ok p => Ok (pa_Config p) | Err e => Err e end) in
    Ok (full, [mkWarning "" ("your configuration was saved correctly, but quince could not write it in the short form and wrote every key instead — the file is larger than it needs to be and nothing else is wrong. It will STAY long, including after a restart, until you trim the keys you did not write and save again. Differing: " +:+ lost)]).

Definition take_saved (c : Configuration) (declared : Declared) (data : text) (mtime : option time) (s : Service) : Service :=
  mkService (sv_path s) c declared [] (mkSource (sv_path s) (from_option fmt_rfc3339 ""%string mtime)) (Some data) (sv_fileGone s) []
    false None (sv_appliers s) (sv_told s) (sv_announced s).

(** What the document will be, and the keys it is taken to set. *)
Definition document (c prev : Configuration) (wasDeclared : Declared) : result (Declared * text * list Warning) :=
  changed ← changedKeys prev c;
  let declared := forStorages (wasDeclared ∪ changed) (c_Storage c) in
  tidy ← MarshalDeclared c declared;
  '(data, guard) ← guarded c tidy;
  Ok (declared, data, guard).

Definition replaceLocked (c : Configuration) (io : write_io) (w : World) : reply * World :=
  let c := with_storage (ResolveStorages (c_Storage c)) c in
  let s := w_svc w in
  match Validate c with
  | (_ :: _) as errs => refused errs w
  | [] =>
      if negb (sr_OK (CheckStorages c [] None)) && (0 <? declaredStorage (sv_cfg s)) then refused [no_storage_left c] w
      else match CheckStorageBackendErrors (c_Storage c) with
      | (_ :: _) as errs => refused errs w
      | [] =>
          match document c (sv_cfg s) (sv_declared s) with
          | Err e => failed e w
          | Ok (declared, data, guard) =>
              match AtomicWrite io data (w_disk w) with
              | (Some e, d) => failed e (mkWorld s d)
              | (None, d) =>
                  let '(warns, s') := notify (sv_cfg s) c (take_saved c declared data (wi_stat io) s) in
                  (mkReply [] (guard ++ warns) None, mkWorld (announceSurfaceChange s') d)
              end
          end
      end
  end.
Definition Replace (c : Configuration) (io : write_io) (w : World) : reply * World := replaceLocked c io w.

(** ** The narrow edits *)

Definition discarded_message (path : string) (errs : list ConfigError) : ConfigError :=
  let lead := "quince could not read " +:+ path +:+ ", so it is running on defaults — adding a storage now would REPLACE that file and lose what it declares. " in
  match errs with
  | [] => mkConfigError path (lead +:+ "Fix " +:+ path +:+ " and restart quince, then add the storage.")
  | first :: more =>
      mkConfigError (ce_Path first)
        (lead +:+ "The problem is " +:+ ce_Path first +:+ ": " +:+ ce_Message first +:+
         (if bool_decide (length more = 0%nat) then "" else " (and " +:+ fmt_d (Z.of_nat (length more)) +:+ " other problem(s) in the same file)") +:+
         ". Fix that line in " +:+ path +:+ " and restart quince, then add the storage.")
  end.
Definition refuseIfConfigDiscarded (s : Service) : list ConfigError :=
  if negb (sv_discarded s) then []
  else
    let errs := match sv_loadErrs s with [] => (λ w, mkConfigError (w_Path w) (w_Message w)) <$> sv_warnings s | errs => errs end in
    [discarded_message (sv_path s) errs].

(** The first entry that a predicate finds. *)
Definition first_of {A} (P : A → bool) (l : list A) : option A := head (filter (λ x, P x = true) l).
Definition clash_name (e : StorageEntry) (l : list StorageEntry) : list ConfigError :=
  let name := se_Name (Resolved e) in
  if bool_decide (is_Some (first_of (λ x, bool_decide (se_Name x = name)) l))
  then [mkConfigError "name" ("a storage named " +:+ quote name +:+ " is already declared — names key a storage's DB row, so they must be unique")]
  else [].
Definition clash_path (e : StorageEntry) (l : list StorageEntry) : list ConfigError :=
  match first_of (λ x, negb (bool_decide (se_Path e = ""%string)) && bool_decide (filepath_Clean (se_Path x) = filepath_Clean (se_Path e))) l with
  | Some x => [mkConfigError "path" ("storage " +:+ quote (se_Name x) +:+ " is already declared at " +:+ quote (se_Path x) +:+ " — two storages at one path would each claim the other's identity marker")]
  | None => []
  end.
Definition validateAddition (e : StorageEntry) (existing : option (list StorageEntry)) : list ConfigError :=
  (if bool_decide (se_Path e = ""%string) then [mkConfigError "path" "must not be empty"]
   else refuse_if (negb (filepath_IsAbs (se_Path e))) "path"
     ("must be an absolute path, got " +:+ quote (se_Path e) +:+ " — and it must be the path INSIDE the container, which is what quince can reach")) ++
  (if oneOf (se_Backend e) ["zfs"; "reflink"; "hardlink"; "copy"]%string then []
   else if bool_decide (se_Backend e = ""%string)
   then [mkConfigError "backend" "must be set to the backend quince showed you — an added storage records a concrete backend, never `auto`"]
   else [mkConfigError "backend" ("invalid value " +:+ quote (se_Backend e) +:+ "; must be one of [zfs reflink hardlink copy]")]) ++
  match existing with None => [] | Some l => clash_name e l ++ clash_path e l end ++
  refuse_if (se_Default e) "default" "an added storage cannot claim `default` — the first storage is default implicitly. Add this storage first, then make it the default from its own page".

Definition AddStorage (e : StorageEntry) (io : write_io) (w : World) : reply * World :=
  let s := w_svc w in
  match refuseIfConfigDiscarded s with
  | (_ :: _) as errs => refused errs w
  | [] =>
      match validateAddition e (c_Storage (sv_cfg s)) with
      | (_ :: _) as errs => refused errs w
      | [] => replaceLocked (with_storage (ResolveStorages (Some (default [] (c_Storage (sv_cfg s)) ++ [e]))) (sv_cfg s)) io w
      end
  end.

(** An answer that there is no such storage, or the reply to a save. *)
Inductive outcome : Type := NoSuchStorage | Answered (r : reply).

Definition named (name : string) (e : StorageEntry) : bool := bool_decide (se_Name e = name).
Fixpoint index_named (name : string) (l : list StorageEntry) : option nat :=
  match l with [] => None | e :: l => if named name e then Some 0%nat else S <$> index_named name l end.

Definition the_default (name : string) (n : nat) : ConfigError :=
  mkConfigError "storage"
    (if bool_decide (n = 1%nat)
     then "storage " +:+ quote name +:+ " is the only storage declared, so it is the default implicitly — and quince refuses to start with none declared. Declare another storage and make it the default first, then forget this one. Nothing on the disk is deleted either way."
     else "storage " +:+ quote name +:+ " is the default — a backup that names no storage resolves to it, so quince will not forget it. Make another storage the default first, then forget this one.").

(** [busy]: why the storage cannot be forgotten now, or nothing. *)
Definition ForgetStorage (name : string) (busy : string → string) (io : write_io) (w : World) : outcome * World :=
  let cur := sv_cfg (w_svc w) in
  match c_Storage cur with
  | None => (NoSuchStorage, w)
  | Some l =>
      match index_named name l with
      | None => (NoSuchStorage, w)
      | Some i =>
          if from_option se_Default false (l !! i) then (Answered (mkReply [the_default name (length l)] [] None), w)
          else if negb (bool_decide (busy name = ""%string)) then (Answered (mkReply [mkConfigError "storage" (busy name)] [] None), w)
          else
            let '(r, w') := replaceLocked (with_storage (Some (take i l ++ drop (S i) l)) cur) io w in
            (Answered r, w')
      end
  end.

Definition flag_only (i : nat) (l : list StorageEntry) : list StorageEntry := imap (λ j e, set_default (bool_decide (j = i)) e) l.
Definition SetDefaultStorage (name : string) (io : write_io) (w : World) : outcome * World :=
  let cur := sv_cfg (w_svc w) in
  match c_Storage cur with
  | None => (NoSuchStorage, w)
  | Some l =>
      match index_named name l with
      | None => (NoSuchStorage, w)
      | Some i => let '(r, w') := replaceLocked (with_storage (Some (flag_only i l)) cur) io w in (Answered r, w')
      end
  end.

Definition SetAllowInsecureTransport (allow : bool) (io : write_io) (w : World) : reply * World :=
  match refuseIfConfigDiscarded (w_svc w) with
  | (_ :: _) as errs => refused errs w
  | [] => replaceLocked (with_sessions (mkSessionsConfig allow) (sv_cfg (w_svc w))) io w
  end.
Definition SetTLSFiles (certFile keyFile : string) (io : write_io) (w : World) : reply * World :=
  match refuseIfConfigDiscarded (w_svc w) with
  | (_ :: _) as errs => refused errs w
  | [] => replaceLocked (with_tls (mkTLSConfig certFile keyFile) (sv_cfg (w_svc w))) io w
  end.

Definition FileText (d : disk) : option text := match ReadFile d with Ok t => Some t | Err _ => None end.

(** ** Runs *)

(** What may happen: a call of the API, a tick of the watcher (with what the file has become by its
    second and third look), an edit of the file. *)
Inductive happening : Type :=
  | Put (c : Configuration) (io : write_io)
  | Add (e : StorageEntry) (io : write_io)
  | Forget (name : string) (busy : string → string) (io : write_io)
  | MakeDefault (name : string) (io : write_io)
  | AllowInsecure (allow : bool) (io : write_io)
  | SetTLS (certFile keyFile : string) (io : write_io)
  | Tick (d2 d3 : disk)
  | Edit (d : disk).

Definition happen (h : happening) (w : World) : World :=
  match h with
  | Put c io => (Replace c io w).2
  | Add e io => (AddStorage e io w).2
  | Forget name busy io => (ForgetStorage name busy io w).2
  | MakeDefault name io => (SetDefaultStorage name io w).2
  | AllowInsecure allow io => (SetAllowInsecureTransport allow io w).2
  | SetTLS certFile keyFile io => (SetTLSFiles certFile keyFile io w).2
  | Tick d2 d3 => mkWorld (Reload_at (w_disk w) d2 d3 (w_svc w)).2 d3
  | Edit d => mkWorld (w_svc w) d
  end.
Definition run (hs : list happening) (w : World) : World := foldl (flip happen) w hs.
Definition start (path : string) (appliers : list Applier) (d : disk) : World := mkWorld (NewService path appliers d) d.

End service.
