(* ===== verification/Storages.v ===== *)
(** * Storages: declared storages, from their creation to the API

    Models core/internal/storage/creation.go (what a declared storage turns out to be),
    storages_api.go and runner.go, core/internal/store/storages.go, and the storage part of
    core/cmd/quince/live.go: how a declaration becomes slots, at start-up, at an edit of the
    configuration and at a recheck, and how a storage is forgotten (httpapi/handlers_config.go).
    The manager is the one of [Manager], over the disk of [FS]; the rows of storages stand beside its
    registry.  Edits and rechecks are taken apart where they can come between each other ([storage_op]). *)

From Stdlib Require Import String Ascii.
From S2P Require Import Config ConfigFile ConfigService.
From S2P Require Import Prelude Calendar Domain Store Backend Slots FS Sidecars Manager.
From S2P Require Import Graft ZfsHost StorageProbe.
#[local] Open Scope quince_scope.

(** ** The table of storages *)

Record StorageRow : Type := mkStorageRow {
  st_Name : string; st_StorageID : option string; st_Backend : option string; st_Path : string;
  st_CreatedAt : option time; st_SeenAt : time }.

Record StorageDB : Type := mkStorageDB { sd_rows : gmap string StorageRow; sd_db : DB }.

(** A statement on the table; it shares the faults of the registry's. *)
Definition storage_statement {A} (f : gmap string StorageRow → A * gmap string StorageRow) : stateM StorageDB (result A) := λ d,
  let '(r, db) := statement (λ d, (Ok tt, d)) (sd_db d) in
  match r with
  | Err e => (Err e, mkStorageDB (sd_rows d) db)
  | Ok _ => let '(a, rows) := f (sd_rows d) in (Ok a, mkStorageDB rows db)
  end.
Definition storage_exec (f : gmap string StorageRow → gmap string StorageRow) : stateM StorageDB error :=
  r ← storage_statement (λ rows, (tt, f rows));
  mret (match r with Ok _ => None | Err e => Some e end).

(** [COALESCE(old, new)]. *)
Definition coalesce {A} (old new : option A) : option A := match old with Some _ => old | None => new end.
Definition upsert_row (r : StorageRow) (old : option StorageRow) : StorageRow :=
  mkStorageRow (st_Name r) (coalesce (old ≫= st_StorageID) (st_StorageID r)) (coalesce (old ≫= st_Backend) (st_Backend r))
    (st_Path r) (coalesce (old ≫= st_CreatedAt) (db_time <$> st_CreatedAt r)) (db_time (st_SeenAt r)).
Definition UpsertStorage (r : StorageRow) : stateM StorageDB error :=
  storage_exec (λ rows, <[st_Name r := upsert_row r (rows !! st_Name r)]> rows).
Definition GetStorage (name : string) : stateM StorageDB (result (option StorageRow)) :=
  storage_statement (λ rows, (rows !! name, rows)).
(** [ORDER BY name]. *)
Definition row_asc (a b : StorageRow) : Prop := str_le (st_Name a) (st_Name b).
#[global] Instance row_asc_dec : RelDecision row_asc.
Proof. intros a b. unfold row_asc. apply _. Defined.
Definition ListStorages : stateM StorageDB (result (list StorageRow)) :=
  storage_statement (λ rows, (merge_sort row_asc (snd <$> map_to_list rows), rows)).
Definition DeleteStorage (name : string) : stateM StorageDB error := storage_exec (delete name).

Record StorageCounts : Type := mkCounts { ct_Backups : Z; ct_Devices : Z }.
Definition versions_on (id : string) (d : DB) : list VersionRow :=
  filter (λ v, ver_StorageID v = Some id) (versions_desc d).
(** The [GROUP BY] of a storage's id; one without rows is not in the map. *)
Definition count_of (id : string) (d : DB) : option StorageCounts :=
  match versions_on id d with
  | [] => None
  | l => Some (mkCounts (Z.of_nat (length l)) (Z.of_nat (length (remove_dups (ver_UDID <$> l)))))
  end.
Definition CountVersionsByStorage : stateM DB (result (string → option StorageCounts)) :=
  statement (λ d, (Ok (λ id, count_of id d), d)).
Definition CountUnattributedVersions : stateM DB (result Z) :=
  statement (λ d, (Ok (Z.of_nat (length (filter (λ v, ver_StorageID v = None) (versions_desc d)))), d)).

(** ** What a declared storage turns out to be *)

Inductive Resolution : Type :=
  | ResolutionCreated | ResolutionOpened | ResolutionMissingMedium | ResolutionBackendMismatch
  | ResolutionUnreachable | ResolutionCorruptMarker.
#[global] Instance Resolution_eq_dec : EqDecision Resolution.
Proof. solve_decision. Defined.
Definition resolution_OK (r : Resolution) : bool :=
  match r with ResolutionCreated | ResolutionOpened => true | _ => false end.

Definition resolution_name (r : Resolution) : string :=
  match r with
  | ResolutionCreated => "created" | ResolutionOpened => "opened" | ResolutionMissingMedium => "missing_medium"
  | ResolutionBackendMismatch => "backend_mismatch" | ResolutionUnreachable => "unreachable" | ResolutionCorruptMarker => "corrupt_marker"
  end.

Record StorageState : Type := mkStorageState {
  ss_Name : string; ss_Path : string; ss_Resolution : option Resolution; ss_StorageID : string; ss_Backend : string;
  ss_Reason : string; ss_Verified : bool }.

Record KnownStorage : Type := mkKnownStorage { ks_Known : bool; ks_StorageID : string }.

(** The disk and the tables while a storage is resolved, and what the lazy probe selected. *)
Record resolving : Type := mkResolving {
  rv_disk : Disk; rv_store : StorageDB; rv_probed : option (Backend Disk * string) }.
Definition on_disk {A} (m : stateM Disk A) : stateM resolving A :=
  lift_state rv_disk (λ d r, mkResolving d (rv_store r) (rv_probed r)) m.
Definition on_store {A} (m : stateM StorageDB A) : stateM resolving A :=
  lift_state rv_store (λ s r, mkResolving (rv_disk r) s (rv_probed r)) m.

(** A readable directory: [os.Stat], then [os.Open]. *)
Definition reachable (p : path) : stateM Disk bool :=
  r ← os_stat p;
  match r with
  | FOk (NDir _) => o ← os_stat p; mret (fs_ok o)
  | _ => mret false
  end.

Section resolve.
Context (sha256 : StorageMarker → string).

Section resolve_storage.
Context (name path_ : string) (probe : stateM resolving string) (known : stateM resolving (result KnownStorage)).
Context (now : time) (appVersion newID : string).

Definition refused_state (id : string) (r : Resolution) (reason : string) : StorageState :=
  mkStorageState name path_ (Some r) id "" reason false.
Definition failed_state (id : string) : StorageState := mkStorageState name path_ None id "" "" false.
Definition subject : string := "storage " +:+ quote name.

Definition open_storage (id : string) (m : StorageMarker) : stateM resolving (StorageState * error) :=
  probed ← probe;
  mret (match Mismatch m probed with
        | Some why => (refused_state id ResolutionBackendMismatch ("storage " +:+ name +:+ ": " +:+ why), None)
        | None =>
            let verified := negb (bool_decide (probed = "")) in
            (mkStorageState name path_ (Some ResolutionOpened) (sm_StorageID m) (sm_Backend m)
               (if verified then "" else
                subject +:+ ": opened on its " +:+ StorageMarkerName +:+ " alone — the backend could not be probed at " +:+ quote path_ +:+
                ", so nothing confirmed the medium is still " +:+ sm_Backend m +:+ ". Proceeding, because opening freezes nothing; recorded as UNVERIFIED rather than reported as agreement.")
               verified, None)
        end).

Definition create_storage : stateM resolving (StorageState * error) :=
  backend ← probe;
  if bool_decide (backend = "") then
    mret (refused_state "" ResolutionUnreachable (subject +:+ ": could not determine a backend for " +:+ quote path_ +:+
            ", so refusing to create a storage whose backend would be a guess"), None)
  else
    let m := mkStorageMarker newID backend (fmt_rfc3339 now) appVersion "" in
    e ← on_disk (WriteStorageMarker sha256 (fs_path path_) m);
    mret (match e with
          | Some e => (failed_state "", Some (subject +:+ ": writing " +:+ StorageMarkerName +:+ ": " +:+ e))
          | None => (mkStorageState name path_ (Some ResolutionCreated) newID backend "" true, None)
          end).

Definition ResolveStorage : stateM resolving (StorageState * error) :=
  k ← known;
  match k with
  | Err e => mret (failed_state "", Some (subject +:+ ": checking whether it is known: " +:+ e))
  | Ok k =>
      let id := if ks_Known k then ks_StorageID k else ""%string in
      ok ← on_disk (reachable (fs_path path_));
      if negb ok then
        mret (refused_state id ResolutionUnreachable (subject +:+ ": path " +:+ quote path_ +:+
                " cannot be read — if this is removable media, it is not mounted; quince will not back up to it and will not create anything there"), None)
      else
        marker ← on_disk (ReadStorageMarker sha256 (fs_path path_));
        match marker with
        | SMOk m => open_storage id m
        | SMCorrupt =>
            mret (refused_state id ResolutionCorruptMarker (subject +:+ ": " +:+ StorageMarkerName +:+ " at " +:+ quote path_ +:+
                    " failed its own checksum — refusing rather than guessing at its identity; the file is damaged, not absent"), None)
        | SMError => mret (failed_state id, Some (subject +:+ ": reading " +:+ StorageMarkerName +:+ ": input/output error"))
        | SMAbsent =>
            if ks_Known k then
              mret (refused_state (ks_StorageID k) ResolutionMissingMedium (subject +:+ ": " +:+ quote path_ +:+ " is readable but has no " +:+
                      StorageMarkerName +:+ ", and quince created this storage before (" +:+ ks_StorageID k +:+
                      "). Its medium is ABSENT — a mountpoint with nothing mounted on it looks exactly like this. Refusing rather than creating a second storage here, which would put backups on the wrong filesystem. Mount it and start again."), None)
            else create_storage
        end
  end.
End resolve_storage.

(** ** From a declaration to a slot *)

Definition retentionOf (e : StorageEntry) : RetentionPolicy :=
  let r := default DefaultRetention (se_Retention e) in
  mkRetention (rt_KeepRecent r) (rt_KeepDaily r) (rt_KeepWeekly r).

Definition wireUnreachableCode (r : Resolution) : string :=
  match r with
  | ResolutionUnreachable => "path_unreachable"
  | ResolutionMissingMedium => "missing_medium"
  | ResolutionBackendMismatch => "backend_mismatch"
  | ResolutionCorruptMarker => "corrupt_marker"
  | _ => "unmapped"
  end.

Definition unreachable_slot (e : StorageEntry) (id code reason : string) : Slot Disk :=
  mkSlot id (se_Name e) (fs_path (se_Path e)) None "" (retentionOf e) false code reason.

(** What the world answers while storages are resolved. *)
Record surroundings : Type := mkSurroundings {
  su_medium : path → medium; su_now : time; su_newID : string → string; su_version : string }.

Context (probe_size : nat) (marker_sha256 : Marker → string) (file_size : content → Z).
Context (host_run : list string → node → (string * bool) * node).

Definition options_of (su : surroundings) (e : StorageEntry) : Options :=
  mkOptions (se_Backend e) (fs_path (se_Path e)) (su_version su) (z_ParentDataset (se_ZFS e)) (SSHArgv (se_ZFS e)) (z_Seed (se_ZFS e)).

(** The closure: it selects once. *)
Definition lazy_probe (su : surroundings) (e : StorageEntry) : stateM resolving string :=
  p ← gets rv_probed;
  match p with
  | Some (_, name) => mret name
  | None =>
      sel ← on_disk (Select probe_size (su_now su) marker_sha256 file_size host_run (su_medium su (fs_path (se_Path e))) (options_of su e));
      modify (λ r, mkResolving (rv_disk r) (rv_store r) (Some sel));;
      mret sel.2
  end.

Definition known_storage (name : string) : stateM resolving (result KnownStorage) :=
  r ← on_store (GetStorage name);
  mret (match r with
        | Err e => Err e
        | Ok row => match row ≫= st_StorageID with
                    | None => Ok (mkKnownStorage false "")
                    | Some id => Ok (mkKnownStorage true id)
                    end
        end).

Definition seen_row (su : surroundings) (e : StorageEntry) (st : StorageState) : StorageRow :=
  mkStorageRow (se_Name e) (Some (ss_StorageID st)) (Some (ss_Backend st)) (se_Path e)
    (if bool_decide (ss_Resolution st = Some ResolutionCreated) then Some (su_now su) else None) (su_now su).

Definition resolveSlot (su : surroundings) (e : StorageEntry) : stateM resolving (Slot Disk) :=
  modify (λ r, mkResolving (rv_disk r) (rv_store r) None);;
  '(st, err) ← ResolveStorage (se_Name e) (se_Path e) (lazy_probe su e) (known_storage (se_Name e)) (su_now su) (su_version su)
                 (su_newID su (se_Name e));
  match err, ss_Resolution st with
  | Some err, _ => mret (unreachable_slot e (ss_StorageID st) "path_unreachable" err)
  | None, None => mret (unreachable_slot e (ss_StorageID st) "unmapped" (ss_Reason st))
  | None, Some res =>
      if negb (resolution_OK res) then mret (unreachable_slot e (ss_StorageID st) (wireUnreachableCode res) (ss_Reason st))
      else
        probed ← gets rv_probed;
        match probed with
        | None => mret (unreachable_slot e (ss_StorageID st) "backend_mismatch" ("resolved " +:+ resolution_name res +:+ " without a backend — the lazy probe was not reached on a path that requires it (quince#415's ordering is wrong)"))
        | Some (b, backendName) =>
            up ← on_store (UpsertStorage (seen_row su e st));
            mret (match up with
                  | Some err => unreachable_slot e (ss_StorageID st) "path_unreachable" ("quince could not record this storage's identity: " +:+ err)
                  | None => mkSlot (ss_StorageID st) (se_Name e) (fs_path (se_Path e)) (Some b) backendName (retentionOf e) true "" ""
                  end)
        end
  end.

(** ** The declared list *)

Definition declaredStorages (l : option (list StorageEntry)) : list StorageEntry :=
  match l with
  | None => []
  | Some entries => filter (λ e, se_Default e = true) entries ++ filter (λ e, se_Default e = false) entries
  end.
Definition defaultStorageRoot (l : option (list StorageEntry)) : string := from_option se_Path "" (head (declaredStorages l)).
Definition sameStorageDeclaration (a b : list StorageEntry) : bool := bool_decide (a = b).
Definition addedStorage (a b : list StorageEntry) : bool := existsb (λ e, negb (bool_decide (se_Name e ∈ (se_Name <$> a)))) b.
Definition reconcileInterval (c : Configuration) : Z :=
  if rc_IntervalMinutes (c_Reconcile c) <=? 0 then 0 else wrap64 (rc_IntervalMinutes (c_Reconcile c) * Minute).

(** ** The manager's list of storages *)

#[local] Abbreviation Mgr := (@Manager.Manager Disk).

Definition with_slots (slots : list (Slot Disk)) (m : Mgr) : Mgr :=
  mkManager slots (mg_jobStorage m) (mg_held m) (mg_db m) (mg_world m) (mg_events m) (mg_ids m) (mg_now m) (mg_ctx m).

Definition slotNamed (l : list (Slot Disk)) (name : string) : bool := existsb (λ s, bool_decide (s_Name s = name)) l.
Definition unreachable_warning (n : Slot Disk) : string :=
  "storage " +:+ s_Name n +:+ " is declared but not reachable (" +:+ s_UnreachableCode n +:+ "): " +:+ s_UnreachableReason n.
Definition ApplyStorages (next : list (Slot Disk)) (m : Mgr) : list string * Mgr :=
  match next with
  | [] => (["the storage list would be empty, so it was not applied — quince kept the storages it was already serving"%string], m)
  | _ => (unreachable_warning <$> filter (λ n, Usable n = false) next, with_slots next m)
  end.

(** A storage as the API shows it. *)
Record WireStorage : Type := mkWireStorage {
  ws_ID : string; ws_Name : string; ws_Path : path; ws_Backend : string; ws_Default : bool; ws_Reachable : bool;
  ws_UnreachableCode : option string; ws_UnreachableReason : option string; ws_WillBeFull : option bool;
  ws_BackupCount : Z; ws_DeviceCount : Z; ws_FilesystemFreeBytes : option Z; ws_FilesystemTotalBytes : option Z }.

(** What a backend, or [statfs], says of the space of a storage. *)
Context (capacityOf : Slot Disk → result (Z * Z)).

Definition hasVersionFor (s : Slot Disk) (udid : string) : stateM Mgr bool :=
  rows ← reg (ListVersions udid);
  mret (match rows with
        | Err _ => false
        | Ok rows => existsb (λ r, negb (ver_Missing r) && owns s (ver_StorageID r)) rows
        end).

Definition storageToWire (s : Slot Disk) (isDefault : bool) (udid : string) (counts : string → option StorageCounts) :
    stateM Mgr WireStorage :=
  full ← (if bool_decide (udid = "") then mret None else h ← hasVersionFor s udid; mret (Some (negb h)));
  let c := default (mkCounts 0 0) (counts (s_StorageID s)) in
  let space := if s_Reachable s then match capacityOf s with Ok ft => Some ft | Err _ => None end else None in
  mret (mkWireStorage (s_StorageID s) (s_Name s) (s_Root s)
    (if bool_decide (s_BackendName s = "") then "unknown" else s_BackendName s) isDefault (s_Reachable s)
    (if s_Reachable s then None else Some (s_UnreachableCode s)) (if s_Reachable s then None else Some (s_UnreachableReason s))
    full (ct_Backups c) (ct_Devices c) ((λ ft, wrap64 ft.1) <$> space) ((λ ft, wrap64 ft.2) <$> space)).

(** The counts; a failure gives an empty map. *)
Definition storage_counts : stateM Mgr (string → option StorageCounts) :=
  r ← reg CountVersionsByStorage; mret (match r with Ok f => f | Err _ => λ _, None end).

Fixpoint wire_from (first : bool) (l : list (Slot Disk)) (udid : string) (counts : string → option StorageCounts) :
    stateM Mgr (list WireStorage) :=
  match l with
  | [] => mret []
  | s :: l => v ← storageToWire s first udid counts; vs ← wire_from false l udid counts; mret (v :: vs)
  end.
Definition StorageList (udid : string) : stateM Mgr (list WireStorage) :=
  slots ← gets mg_slots;
  counts ← storage_counts;
  wire_from true slots udid counts.

(** The first slot of a name, and whether it is the default. *)
Fixpoint slot_at (i : nat) (name : string) (l : list (Slot Disk)) : option (Slot Disk * bool) :=
  match l with
  | [] => None
  | s :: l => if bool_decide (s_Name s = name) then Some (s, bool_decide (i = 0%nat)) else slot_at (S i) name l
  end.
Definition renderSlot (name : string) : stateM Mgr (option WireStorage) :=
  counts ← storage_counts;
  slots ← gets mg_slots;
  match slot_at 0 name slots with
  | None => mret None
  | Some (s, isDefault) => v ← storageToWire s isDefault "" counts; mret (Some v)
  end.

Definition replace_slot (name : string) (fresh : Slot Disk) : list (Slot Disk) → list (Slot Disk) :=
  fix go l := match l with
              | [] => []
              | s :: l => if bool_decide (s_Name s = name) then fresh :: l else s :: go l
              end.

(** ** The storage subsystem of a daemon *)

(** The configured list, the table's rows, and the manager, whose world and registry they share. *)
Record Subsystem : Type := mkSubsystem {
  sb_entries : option (list StorageEntry); sb_rows : gmap string StorageRow; sb_mgr : Mgr }.

Definition resolving_of (s : Subsystem) : resolving :=
  mkResolving (mg_world (sb_mgr s)) (mkStorageDB (sb_rows s) (mg_db (sb_mgr s))) None.
Definition put_resolving (r : resolving) (s : Subsystem) : Subsystem :=
  mkSubsystem (sb_entries s) (sd_rows (rv_store r)) (set_db (sd_db (rv_store r)) (set_world (rv_disk r) (sb_mgr s))).
Definition in_resolving {A} (m : stateM resolving A) : stateM Subsystem A := lift_state resolving_of put_resolving m.
Definition in_mgr {A} (m : stateM Mgr A) : stateM Subsystem A :=
  lift_state sb_mgr (λ m s, mkSubsystem (sb_entries s) (sb_rows s) m) m.
Definition in_rows {A} (m : stateM StorageDB A) : stateM Subsystem A := in_resolving (on_store m).

Fixpoint resolve_all (su : surroundings) (l : list StorageEntry) : stateM resolving (list (Slot Disk)) :=
  match l with
  | [] => mret []
  | e :: l => s ← resolveSlot su e; rest ← resolve_all su l; mret (s :: rest)
  end.

(** What [buildStorage] does before it reconciles. *)
Definition buildStorage (su : surroundings) : stateM Subsystem unit :=
  entries ← gets sb_entries;
  slots ← in_resolving (resolve_all su (declaredStorages entries));
  in_mgr (modify (with_slots slots)).

(** The applier of the storage section; also whether it triggers a reconciliation. *)
Definition resolve_changed (su : surroundings) (old next : option (list StorageEntry)) : stateM Subsystem (option (list (Slot Disk))) :=
  let after := declaredStorages next in
  if sameStorageDeclaration (declaredStorages old) after then mret None
  else rebuilt ← in_resolving (resolve_all su after); mret (Some rebuilt).
Definition storage_applier (su : surroundings) (old next : option (list StorageEntry)) : stateM Subsystem (list string * bool) :=
  rebuilt ← resolve_changed su old next;
  match rebuilt with
  | None => mret ([], false)
  | Some rebuilt =>
      warns ← in_mgr (ApplyStorages rebuilt);
      mret (warns, addedStorage (declaredStorages old) (declaredStorages next))
  end.

(** The configuration is swapped before its appliers run. *)
Definition set_entries (l : option (list StorageEntry)) (s : Subsystem) : Subsystem := mkSubsystem l (sb_rows s) (sb_mgr s).
Definition apply_configuration (su : surroundings) (next : option (list StorageEntry)) : stateM Subsystem (list string * bool) :=
  old ← gets sb_entries;
  modify (set_entries next);;
  storage_applier su old next.

(** The refresher: the storage as it is declared now. *)
Definition first_named (name : string) (l : list StorageEntry) : option StorageEntry := head (filter (λ e, se_Name e = name) l).
Definition refresher (su : surroundings) (name : string) : stateM Subsystem (option (Slot Disk)) :=
  entries ← gets sb_entries;
  match first_named name (declaredStorages entries) with
  | None => mret None
  | Some e => s ← in_resolving (resolveSlot su e); mret (Some s)
  end.

(** [RecheckStorage] in its three parts, of which only the first and the last are under the lock:
    whether a slot has the name; the probe; and the write-back, with the answer. *)
Definition slot_known (name : string) : stateM Subsystem bool := gets (λ s, slotNamed (mg_slots (sb_mgr s)) name).
Definition write_back (name : string) (fresh : option (Slot Disk)) : stateM Subsystem unit :=
  match fresh with
  | None => mret tt
  | Some f => in_mgr (modify (λ m, with_slots (replace_slot name f (mg_slots m)) m))
  end.
Definition recheck_write (name : string) (fresh : option (Slot Disk)) : stateM Subsystem (option WireStorage) :=
  write_back name fresh;; in_mgr (renderSlot name).

(** ** Edits and rechecks that interleave *)

(** Where the edit is that holds the configuration's write mutex, and where each recheck is. *)
Inductive edit_place : Type :=
  | NoEdit
  | EditSaved (old next : option (list StorageEntry))   (* swapped in, the applier not called yet *)
  | EditResolved (rebuilt : list (Slot Disk)).          (* the applier, before [ApplyStorages] *)
Inductive recheck_place : Type :=
  | Looked (name : string)
  | Probed (name : string) (fresh : option (Slot Disk)).
Record Serving : Type := mkServing {
  sg_sub : Subsystem; sg_edit : edit_place; sg_rechecks : gmap nat recheck_place }.

(** quince starts; an edit is saved, resolved, and served; a recheck looks, probes, and writes; and
    meanwhile the disk, the registry and the table become anything. *)
Inductive storage_op : Type :=
  | Starts (su : surroundings)
  | EditSaves (next : option (list StorageEntry))
  | EditResolves (su : surroundings)
  | EditServes
  | RecheckLooks (k : nat) (name : string)
  | RecheckProbes (k : nat) (su : surroundings)
  | RecheckWrites (k : nat)
  | Meanwhile (r : resolving).

Definition storage_do (o : storage_op) (g : Serving) : Serving :=
  let s := sg_sub g in
  match o, sg_edit g with
  | Starts su, _ => mkServing (buildStorage su s).2 NoEdit ∅
  | EditSaves next, NoEdit => mkServing (set_entries next s) (EditSaved (sb_entries s) next) (sg_rechecks g)
  | EditResolves su, EditSaved old next =>
      let '(rebuilt, s) := resolve_changed su old next s in
      mkServing s (from_option EditResolved NoEdit rebuilt) (sg_rechecks g)
  | EditServes, EditResolved rebuilt => mkServing (in_mgr (ApplyStorages rebuilt) s).2 NoEdit (sg_rechecks g)
  | RecheckLooks k name, ed =>
      let '(known, s) := slot_known name s in
      mkServing s ed (if known then <[k := Looked name]> (sg_rechecks g) else delete k (sg_rechecks g))
  | RecheckProbes k su, ed =>
      match sg_rechecks g !! k with
      | Some (Looked name) =>
          let '(fresh, s) := refresher su name s in
          mkServing s ed (<[k := Probed name fresh]> (sg_rechecks g))
      | _ => g
      end
  | RecheckWrites k, ed =>
      match sg_rechecks g !! k with
      | Some (Probed name fresh) => mkServing (recheck_write name fresh s).2 ed (delete k (sg_rechecks g))
      | _ => g
      end
  | Meanwhile r, ed => mkServing (put_resolving r s) ed (sg_rechecks g)
  | _, _ => g
  end.
Definition storage_run (ops : list storage_op) (g : Serving) : Serving := foldl (flip storage_do) g ops.

(** ** What the API says *)

Record StorageChoice : Type := mkStorageChoice { sc_ID : string; sc_Name : string; sc_Reachable : bool }.
Definition storageChoices (l : list WireStorage) : list StorageChoice :=
  (λ s, mkStorageChoice (ws_ID s) (ws_Name s) (ws_Reachable s)) <$> l.

(** The answer depends on who asks: [scope] is what [ScopeOf] says of the caller. *)
Inductive storages_response : Type := FullList (l : list WireStorage) | ScopedList (l : list StorageChoice).
Definition handleStorages (scope : option (result string)) (udid : string) : stateM Mgr storages_response :=
  l ← StorageList udid;
  mret (match scope with
        | None => FullList l
        | Some (Ok scoped) => if bool_decide (scoped = "") then FullList l else ScopedList (storageChoices l)
        | Some (Err _) => ScopedList (storageChoices l)
        end).

Definition jobsRunningOn (name : string) : stateM Mgr (list string) :=
  l ← StorageList "";
  b ← gets mg_jobStorage;
  mret (match head (filter (λ s, ws_Name s = name) l) with None => [] | Some s => JobsOn b (ws_ID s) end).

Definition plural (n : Z) (one many : string) : string := if n =? 1 then "1 " +:+ one else fmt_d n +:+ " " +:+ many.

(** Why a storage cannot be forgotten, for the versions that refer to it; nothing if nothing blocks it. *)
Definition versionsBlockingForget (name : string) : stateM Subsystem string :=
  let cannotCheck := "quince could not check whether any backups reference storage " +:+ quote name +:+
    ", so it has not forgotten it — that check is the only thing standing between a forget and a backup history detached from the disk holding it. Try again. If it keeps failing, quince cannot read its own database and that is the problem to fix first; nothing on the disk is affected either way." in
  row ← in_rows (GetStorage name);
  match row with
  | Err _ => mret cannotCheck
  | Ok row =>
      match row ≫= st_StorageID with
      | None => mret ""%string
      | Some id =>
          counts ← in_mgr (reg CountVersionsByStorage);
          mret (match counts with
                | Err _ => cannotCheck
                | Ok counts =>
                    match counts id with
                    | None => ""%string
                    | Some c =>
                        if ct_Backups c =? 0 then ""%string
                        else "storage " +:+ quote name +:+ " still holds " +:+ plural (ct_Backups c) "backup" "backups" +:+ " across " +:+
                             plural (ct_Devices c) "device" "devices" +:+ ", and forgetting it would detach them from the disk they are on — quince would no longer know where those backups live. Restore or delete them first, or leave the storage declared. Nothing on the disk is deleted either way."
                    end
                end)
      end
  end.
End resolve.

(** ** Forgetting a storage *)

Section forget.
Context `{Hyaml : !Yaml} `{Hsort : !SortSlice}.
Context (sha256 : StorageMarker → string) (probe_size : nat) (marker_sha256 : Marker → string) (file_size : content → Z).
Context (host_run : list string → node → (string * bool) * node) (capacityOf : Slot Disk → result (Z * Z)).

Record Daemon : Type := mkDaemon { dm_config : World; dm_sub : Subsystem }.
Definition in_sub {A} (m : stateM Subsystem A) : stateM Daemon A :=
  lift_state dm_sub (λ s d, mkDaemon (dm_config d) s) m.

Definition busy_message (d : Daemon) (name : string) : string :=
  match (jobsRunningOn capacityOf name (sb_mgr (dm_sub d))).1 with
  | [] => ""
  | job :: _ => "a backup is running on " +:+ quote name +:+ " (job " +:+ job +:+ ") — wait for it to finish, or cancel it, and then forget the storage. Forgetting it now would leave that backup unable to finish writing and unable to clean up."
  end.

Inductive forget_response : Type :=
  | ForgetNotFound | ForgetRefused (errs : list ConfigError) | ForgetFailed | Forgotten (warns : list string).

(** From the call of [ForgetStorage] on, after the check of the versions. *)
Definition forget_checked (su : surroundings) (name : string) (io : write_io) : stateM Daemon forget_response := λ d,
  match ForgetStorage name (busy_message d) io (dm_config d) with
  | (NoSuchStorage, w) => (ForgetNotFound, mkDaemon w (dm_sub d))
  | (Answered r, w) =>
      let d := mkDaemon w (dm_sub d) in
      if bool_decide (is_Some (rp_Error r)) then (ForgetFailed, d)
      else match rp_Errors r with
           | (_ :: _) as errs => (ForgetRefused errs, d)
           | [] =>
               (in_sub (
                 '(warns, _) ← apply_configuration sha256 probe_size marker_sha256 file_size host_run su (c_Storage (sv_cfg (w_svc w)));
                 e ← in_rows (DeleteStorage name);
                 mret (Forgotten (warns ++ match e with
                   | None => []
                   | Some e => ["storage " +:+ quote name +:+ " was removed from config.yml, but quince could not release its database row: " +:+ e +:+
                       ". The path stays claimed, so re-adding a storage under this name will be refused as a missing medium. Retry the forget, or declare it under a different name."]
                   end)))) d
           end
  end.
Definition handleConfigStorageDelete (su : surroundings) (name : string) (io : write_io) : stateM Daemon forget_response :=
  why ← in_sub (versionsBlockingForget name);
  if negb (bool_decide (why = "")) then mret (ForgetRefused [mkConfigError "storage" why])
  else forget_checked su name io.
End forget.

(** ** The runner of reconciliations *)

Inductive schedule_place : Type := AtTop | WaitingForChange | WaitingFor (d : Z).

(** [rn_received]: the loop took a request from the channel and has not started the pass.  Callers of
    [Trigger] that have set the flag and not sent are in [rn_callers], those of [SetInterval] that
    have set the interval and not sent in [rn_wakers].  [rn_asked] counts the calls of [Trigger] that
    have set the flag, [rn_covered] those of them that the last pass to start came after, [rn_done]
    those that the last pass to end had started after. *)
Record Runner : Type := mkRunner {
  rn_trigger : bool; rn_intervalChanged : bool; rn_pending : bool; rn_running : bool; rn_interval : Z; rn_passes : nat;
  rn_received : bool; rn_callers : nat; rn_wakers : nat; rn_schedule : schedule_place;
  rn_asked : nat; rn_covered : nat; rn_done : nat }.

Definition NewRunner : Runner := mkRunner false false false false 0 0 false 0 0 AtTop 0 0 0.

Inductive runner_event : Type :=
  | TriggerFlag                (* [Trigger]: pending = true, under the mutex *)
  | TriggerSend                (* its send, which never blocks; it returns *)
  | SetIntervalTo (d : Z)      (* [SetInterval], under the mutex *)
  | IntervalSend
  | LoopTurn                   (* the loop's goroutine: receive, start the pass, end it *)
  | ScheduleTurn               (* the schedule's goroutine: read the interval, or be woken *)
  | TimerFires.                (* its timer *)

Definition Reconciling (r : Runner) : bool := rn_pending r || rn_running r || rn_trigger r.

Definition with_channels (trigger intervalChanged : bool) (callers wakers : nat) (r : Runner) : Runner :=
  mkRunner trigger intervalChanged (rn_pending r) (rn_running r) (rn_interval r) (rn_passes r) (rn_received r) callers wakers
    (rn_schedule r) (rn_asked r) (rn_covered r) (rn_done r).

(** The receive, and the two sections of [runOnce] under the mutex, with the pass between them. *)
Definition receive_trigger (r : Runner) : Runner :=
  mkRunner false (rn_intervalChanged r) (rn_pending r) (rn_running r) (rn_interval r) (rn_passes r) true (rn_callers r) (rn_wakers r)
    (rn_schedule r) (rn_asked r) (rn_covered r) (rn_done r).
Definition start_pass (r : Runner) : Runner :=
  mkRunner (rn_trigger r) (rn_intervalChanged r) false true (rn_interval r) (rn_passes r) false (rn_callers r) (rn_wakers r)
    (rn_schedule r) (rn_asked r) (rn_asked r) (rn_done r).
Definition end_pass (r : Runner) : Runner :=
  mkRunner (rn_trigger r) (rn_intervalChanged r) (rn_pending r) false (rn_interval r) (S (rn_passes r)) (rn_received r) (rn_callers r)
    (rn_wakers r) (rn_schedule r) (rn_asked r) (rn_covered r) (rn_covered r).
Definition loop_turn (r : Runner) : Runner :=
  if rn_running r then end_pass r
  else if rn_received r then start_pass r
  else if rn_trigger r then receive_trigger r
  else r.

Definition set_schedule (p : schedule_place) (woken : bool) (r : Runner) : Runner :=
  mkRunner (rn_trigger r) (rn_intervalChanged r && negb woken) (rn_pending r) (rn_running r) (rn_interval r) (rn_passes r) (rn_received r)
    (rn_callers r) (rn_wakers r) p (rn_asked r) (rn_covered r) (rn_done r).
Definition set_interval (d : Z) (r : Runner) : Runner :=
  mkRunner (rn_trigger r) (rn_intervalChanged r) (rn_pending r) (rn_running r) d (rn_passes r) (rn_received r)
    (rn_callers r) (S (rn_wakers r)) (rn_schedule r) (rn_asked r) (rn_covered r) (rn_done r).
Definition trigger_flag (r : Runner) : Runner :=
  mkRunner (rn_trigger r) (rn_intervalChanged r) true (rn_running r) (rn_interval r) (rn_passes r) (rn_received r)
    (S (rn_callers r)) (rn_wakers r) (rn_schedule r) (S (rn_asked r)) (rn_covered r) (rn_done r).

Definition runner_step (e : runner_event) (r : Runner) : Runner :=
  match e with
  | TriggerFlag => trigger_flag r
  | TriggerSend =>
      match rn_callers r with
      | O => r
      | S n => with_channels true (rn_intervalChanged r) n (rn_wakers r) r
      end
  | SetIntervalTo d => if rn_interval r =? d then r else set_interval d r
  | IntervalSend =>
      match rn_wakers r with
      | O => r
      | S n => with_channels (rn_trigger r) true (rn_callers r) n r
      end
  | LoopTurn => loop_turn r
  | ScheduleTurn =>
      match rn_schedule r with
      | AtTop => set_schedule (if rn_interval r <=? 0 then WaitingForChange else WaitingFor (rn_interval r)) false r
      | _ => if rn_intervalChanged r then set_schedule AtTop true r else r
      end
  | TimerFires => match rn_schedule r with WaitingFor _ => trigger_flag (set_schedule AtTop false r) | _ => r end
  end.
Definition run_runner (es : list runner_event) (r : Runner) : Runner := foldl (flip runner_step) r es.
