(* ===== verification/ConfigSafety.v ===== *)
(** * ConfigSafety: what configuration can be in force, and what the file says of it

    The theorems about [Config] and [ConfigService]: what [Validate] accepts; that whatever is in force
    is accepted, over any run of saves, edits and ticks; that a save is read back as what is in force;
    what the narrow edits change; and that subsystems follow.  Then runs with a small YAML package. *)

From Stdlib Require Import String Ascii.
From S2P Require Import Prelude Calendar Net Config ConfigFile ConfigService.

(** ** What [Validate] accepts *)

Record retention_ok (r : RetentionConfig) : Prop := {
  ro_recent : 0 <= rt_KeepRecent r; ro_daily : 0 <= rt_KeepDaily r; ro_weekly : 0 <= rt_KeepWeekly r }.

Record entry_ok (e : StorageEntry) : Prop := {
  eo_backend : se_Backend e ∈ ["auto"; "zfs"; "reflink"; "hardlink"; "copy"]%string;
  eo_mode : z_Mode (se_ZFS e) = "hook"%string;
  eo_seed : z_Seed (se_ZFS e) ∈ ["auto"; "reflink"; "copy"]%string;
  eo_hook : z_HookCmd (se_ZFS e) = ""%string;
  eo_port : 0 <= z_SSHPort (se_ZFS e) <= 65535;
  eo_retention : ∀ r, se_Retention e = Some r → retention_ok r }.

Definition has_name (e : StorageEntry) : Prop := se_Name e ≠ ""%string.

Record storages_ok (l : list StorageEntry) : Prop := {
  st_names : NoDup (se_Name <$> filter has_name l);
  st_absolute : Forall (λ e, filepath_IsAbs (se_Path e) = true) l;
  st_paths : NoDup ((λ e, filepath_Clean (se_Path e)) <$> l);
  st_entries : Forall entry_ok l;
  st_default : l = [] ∨ length (defaults_of l) = 1%nat }.

Record muxers_ok (l : list MuxerConfig) : Prop := {
  mo_addresses : Forall (λ m, trim_space (mc_Address m) ≠ ""%string ∧ is_ok (muxaddr_Parse (mc_Address m)) = true) l;
  mo_types : Forall (λ m, mc_Type m ∈ [""; MuxerExternal; MuxerManaged]%string) l;
  mo_distinct : NoDup (mc_Address <$> l) }.

Record acceptable (c : Configuration) : Prop := {
  ac_transport : bc_PreferredTransport (c_Backup c) ∈ ["usb"; "wifi"]%string;
  ac_storages : ∀ l, c_Storage c = Some l → storages_ok l;
  ac_tls : tls_CertFile (c_TLS c) = ""%string ↔ tls_KeyFile (c_TLS c) = ""%string;
  ac_muxers : muxers_ok (ResolvedMuxers c);
  ac_interval : 0 <= rc_IntervalMinutes (c_Reconcile c);
  ac_staleness : 0 <= nc_StalenessDays (c_Notifications c) <= nc_OverdueDays (c_Notifications c);
  ac_cooldown : 0 <= nc_ReminderCooldownHours (c_Notifications c);
  ac_theme : ui_Theme (c_UI c) ∈ ["system"; "light"; "dark"]%string }.

Lemma refuse_if_nil b path msg : refuse_if b path msg = [] ↔ b = false.
Proof. unfold refuse_if. by destruct b. Qed.
Lemma check_enum_nil path v l : check_enum path v l = [] ↔ v ∈ l.
Proof. unfold check_enum, oneOf. rewrite refuse_if_nil, negb_false_iff. apply bool_decide_eq_true. Qed.

Lemma check_retention_nil path r : check_retention path r = [] ↔ ∀ r', r = Some r' → retention_ok r'.
Proof.
  unfold check_retention. destruct r as [r|]; [|naive_solver]. rewrite !app_nil, !refuse_if_nil, !Z.ltb_ge.
  split; [intros (? & ? & ?) r' [= <-]; by split|]. intros H. destruct (H r eq_refl). lia.
Qed.

Lemma check_entry_nil path e : check_entry path e = [] ↔ entry_ok e.
Proof.
  unfold check_entry. rewrite !app_nil, !check_enum_nil, !refuse_if_nil, check_retention_nil, negb_false_iff, bool_decide_eq_true, orb_false_iff, !Z.ltb_ge, list_elem_of_singleton.
  split; [intros (? & ? & ? & ? & [? ?] & ?); by split|intros [? ? ? ? [? ?] ?]; by split_and!].
Qed.

(** Keys that were not seen before, and are all different. *)
Definition fresh {A} (seen : gmap string A) (keys : list string) : Prop := Forall (λ k, seen !! k = None) keys ∧ NoDup keys.

Lemma fresh_cons {A} (i : A) seen k keys : fresh seen (k :: keys) ↔ seen !! k = None ∧ fresh (<[k := i]> seen) keys.
Proof.
  unfold fresh. rewrite Forall_cons, NoDup_cons, !Forall_forall. split.
  - intros ([Hk Hs] & Hnew & Hd). split_and!; [done| |done]. intros x Hx. apply lookup_insert_None. split; [by apply Hs|]. by intros ->.
  - intros (Hk & Hs & Hd). split_and!; [done| | |done].
    + intros x Hx. by apply Hs, lookup_insert_None in Hx as [? _].
    + intros Hx. apply Hs in Hx. by rewrite lookup_insert_eq in Hx.
Qed.
Lemma fresh_empty {A} keys : fresh (∅ : gmap string A) keys ↔ NoDup keys.
Proof. unfold fresh. split; [by intros [_ ?]|]. intros ?. split; [|done]. apply Forall_forall. intros x _. apply lookup_empty. Qed.

Definition names_of (l : list StorageEntry) : list string := se_Name <$> filter has_name l.
Definition paths_of (l : list StorageEntry) : list string := (λ e, filepath_Clean (se_Path e)) <$> l.

Lemma check_name_nil i seen s l :
  (check_name i seen s).1 = [] ∧ fresh (check_name i seen s).2 (names_of l) ↔ fresh seen (names_of (s :: l)).
Proof.
  unfold check_name, names_of. rewrite filter_cons. case_bool_decide as Hn.
  - rewrite decide_False by (by intros H; apply H). by split; [intros [_ ?]|].
  - rewrite decide_True by done. rewrite fmap_cons, (fresh_cons i). destruct (seen !! se_Name s); cbn; naive_solver.
Qed.
Lemma check_path_nil i seen s l :
  (check_path i seen s).1 = [] ∧ fresh (check_path i seen s).2 (paths_of l) ↔
  filepath_IsAbs (se_Path s) = true ∧ fresh seen (paths_of (s :: l)).
Proof.
  unfold check_path, paths_of. rewrite fmap_cons, (fresh_cons i). case_bool_decide as He; [rewrite He; naive_solver|].
  destruct (filepath_IsAbs (se_Path s)); cbn; [|naive_solver]. destruct (seen !! filepath_Clean (se_Path s)); cbn; naive_solver.
Qed.

(** The loop accepts when no name or path clashes with the ones seen or with each other. *)
Lemma validateStorages_from_nil l : ∀ i names paths,
  validateStorages_from i names paths l = [] ↔
  fresh names (names_of l) ∧ Forall (λ e, filepath_IsAbs (se_Path e) = true) l ∧ fresh paths (paths_of l) ∧ Forall entry_ok l.
Proof.
  induction l as [|s l IH]; intros i names paths; cbn [validateStorages_from].
  { unfold fresh, names_of, paths_of. split; [intros _; split_and!; constructor|done]. }
  pose proof (check_name_nil i names s l) as Hn. pose proof (check_path_nil i paths s l) as Hp.
  destruct (check_name i names s) as [e1 names'], (check_path i paths s) as [e2 paths']. cbn [fst snd] in *.
  rewrite !Forall_cons, !app_nil, check_entry_nil, IH. tauto.
Qed.

Lemma check_defaults_nil l : check_defaults l = [] ↔ l = [] ∨ length (defaults_of l) = 1%nat.
Proof.
  unfold check_defaults. destruct l as [|e l]; [naive_solver|]. cbn [length Nat.ltb Nat.leb].
  destruct (length (defaults_of (e :: l))) as [|[|n]]; naive_solver.
Qed.

Lemma validateStorages_nil s : validateStorages s = [] ↔ ∀ l, s = Some l → storages_ok l.
Proof.
  destruct s as [l|]; cbn; [|naive_solver]. rewrite app_nil, validateStorages_from_nil, check_defaults_nil, !fresh_empty. split.
  - intros ((? & ? & ? & ?) & ?) l' [= <-]. by split.
  - intros H. destruct (H l eq_refl). by split_and!.
Qed.

Lemma validateMuxers_from_nil l : ∀ i seen, validateMuxers_from i seen l = [] ↔
  Forall (λ m, trim_space (mc_Address m) ≠ ""%string ∧ is_ok (muxaddr_Parse (mc_Address m)) = true) l ∧
  Forall (λ m, mc_Type m ∈ [""; MuxerExternal; MuxerManaged]%string) l ∧ fresh seen (mc_Address <$> l).
Proof.
  induction l as [|m l IH]; intros i seen; cbn [validateMuxers_from].
  { unfold fresh. split; [intros _; split_and!; constructor|done]. }
  rewrite !Forall_cons, fmap_cons, (fresh_cons i). case_bool_decide as Ht; [naive_solver|].
  rewrite !app_nil, refuse_if_nil. unfold oneOf. rewrite negb_false_iff, bool_decide_eq_true.
  destruct (muxaddr_Parse (mc_Address m)), (seen !! mc_Address m); cbn; rewrite ?IH; naive_solver.
Qed.

Lemma validateTLS_nil t : validateTLS t = [] ↔ (tls_CertFile t = ""%string ↔ tls_KeyFile t = ""%string).
Proof. unfold validateTLS. repeat case_bool_decide; cbn; naive_solver. Qed.

(** C36: [Validate] reports nothing exactly when every value is in its range, names and cleaned paths of
    storages are distinct, their paths absolute, one of them is the default, a certificate and its
    key are both given or both not, and muxers have addresses that are distinct as they are written
    and can be dialled. *)
Theorem Validate_iff c : Validate c = [] ↔ acceptable c.
Proof.
  unfold Validate, validateMuxers. cbv zeta.
  rewrite !app_nil, !check_enum_nil, !refuse_if_nil, validateStorages_nil, validateTLS_nil, validateMuxers_from_nil, fresh_empty.
  split.
  - intros (? & ? & ? & (? & ? & ?) & ?%Z.ltb_ge & ?%Z.ltb_ge & ?%Z.ltb_ge & ?%Z.ltb_ge & Ho & ?). split; try done.
    rewrite !andb_false_iff, !Z.leb_gt, Z.ltb_ge in Ho. lia.
  - intros [? ? ? [? ? ?] ? ? ? ?]. split_and!; try done; rewrite ?andb_false_iff, ?Z.leb_gt, ?Z.ltb_ge; lia.
Qed.

(** Muxers are told apart by their addresses as they are written: two spellings of one are accepted. *)
Example two_spellings_of_a_muxer :
  let muxers := [mkMuxerConfig "/run/usbmuxd" ""; mkMuxerConfig "UNIX:/run/usbmuxd" ""] in
  Validate (mkConfiguration (c_Backup Default) None (Some muxers) None (c_TLS Default) (c_Sessions Default) (c_Notifications Default)
    (c_Reconcile Default) (c_Vault Default) (c_UI Default)) = [] ∧
  muxaddr_Parse "/run/usbmuxd" = muxaddr_Parse "UNIX:/run/usbmuxd".
Proof. vm_compute. done. Qed.

(** ** Pools *)

(** A storage that is kept on a ZFS pool, by what it declares. *)
Definition on_a_pool (e : StorageEntry) : Prop :=
  se_Backend e = "zfs"%string ∨
  se_Backend e = "auto"%string ∧
    (z_ParentDataset (se_ZFS e) ≠ ""%string ∨ z_SSHUser (se_ZFS e) ≠ ""%string ∧ z_SSHHost (se_ZFS e) ≠ ""%string).
#[global] Instance on_a_pool_dec e : Decision (on_a_pool e).
Proof. unfold on_a_pool. apply _. Defined.
(** Each names its dataset, and whom to ask for it on which host; and no two have the same dataset. *)
Record pools_ok (l : list StorageEntry) : Prop := {
  po_named : ∀ e, e ∈ l → on_a_pool e →
    z_ParentDataset (se_ZFS e) ≠ ""%string ∧ z_SSHUser (se_ZFS e) ≠ ""%string ∧ z_SSHHost (se_ZFS e) ≠ ""%string;
  po_apart : NoDup ((λ e, z_ParentDataset (se_ZFS e)) <$> filter on_a_pool l) }.

Lemma SSHConfigured_spec z : SSHConfigured z = true ↔ z_SSHUser z ≠ ""%string ∧ z_SSHHost z ≠ ""%string.
Proof. unfold SSHConfigured. repeat case_bool_decide; naive_solver. Qed.
Lemma is_zfs_spec e : is_zfs e = true ↔ on_a_pool e.
Proof.
  unfold is_zfs, on_a_pool. rewrite orb_true_iff, andb_true_iff, orb_true_iff, SSHConfigured_spec, negb_true_iff, !bool_decide_eq_true, bool_decide_eq_false.
  done.
Qed.
Lemma backend_problems_nil l : ∀ i seen, backend_problems_from i seen l = [] →
  Forall (λ e, on_a_pool e → z_ParentDataset (se_ZFS e) ≠ ""%string ∧ z_SSHUser (se_ZFS e) ≠ ""%string ∧ z_SSHHost (se_ZFS e) ≠ ""%string) l ∧
  fresh seen ((λ e, z_ParentDataset (se_ZFS e)) <$> filter on_a_pool l).
Proof.
  induction l as [|e l IH]; intros i seen H; [by unfold fresh; split_and!; constructor|]. simpl in H.
  destruct (is_zfs e) eqn:Hz; simpl in H.
  - pose proof (proj1 (is_zfs_spec e) Hz) as Hp. case_bool_decide; [done|]. destruct (SSHConfigured _) eqn:Hs; simpl in H.
    + apply SSHConfigured_spec in Hs. destruct (seen !! _) as [[]|] eqn:Hseen; [done|]. apply IH in H as [H1 H2].
      rewrite filter_cons_True by done. split; [by constructor|]. apply (fresh_cons (se_Name e, i)). done.
    + by destruct (missing_ssh _).
  - assert (¬ on_a_pool e) as Hp by (rewrite <-is_zfs_spec; congruence). apply IH in H as [H1 H2].
    rewrite filter_cons_False by done. split; [by constructor|done].
Qed.
Lemma CheckStorageBackendErrors_nil s l : CheckStorageBackendErrors s = [] → s = Some l → pools_ok l.
Proof.
  intros H ->. unfold CheckStorageBackendErrors in H. simpl in H. destruct (backend_problems_from 0 ∅ l) eqn:E; [|done].
  destruct (backend_problems_nil l 0 ∅ E) as [H1 [_ H2]].
  split; [|done]. rewrite Forall_forall in H1. exact H1.
Qed.

(** ** What a storage list implies *)

Lemma or_default_idem v f : or_default (or_default v f) f = or_default v f.
Proof. unfold or_default. by repeat case_bool_decide. Qed.
Lemma Resolved_idem e : Resolved (Resolved e) = Resolved e.
Proof. destruct e as [n p d b [? ? ? ? ? ? ? ?] r]. unfold Resolved. cbn. by rewrite !or_default_idem. Qed.
Lemma Resolved_set_default b e : Resolved (set_default b e) = set_default b (Resolved e).
Proof. done. Qed.
Lemma fmap_Resolved_idem (l : list StorageEntry) : Resolved <$> (Resolved <$> l) = Resolved <$> l.
Proof. rewrite <-list_fmap_compose. apply list_fmap_ext. intros _ e _. apply Resolved_idem. Qed.
Lemma mark_lone_idem l : mark_lone (mark_lone l) = mark_lone l.
Proof. by destruct l as [|e [|e' l]]. Qed.
Lemma fmap_Resolved_lone (l : list StorageEntry) : Resolved <$> mark_lone l = mark_lone (Resolved <$> l).
Proof. by destruct l as [|e [|e' l]]. Qed.
Lemma ResolveStorages_idem s : ResolveStorages (ResolveStorages s) = ResolveStorages s.
Proof.
  destruct s as [l|]; [|done]. unfold ResolveStorages. by rewrite fmap_Resolved_lone, fmap_Resolved_idem, mark_lone_idem.
Qed.

Definition resolved (c : Configuration) : Prop := ResolveStorages (c_Storage c) = c_Storage c.
Lemma with_storage_resolved c : resolved (with_storage (ResolveStorages (c_Storage c)) c).
Proof. apply ResolveStorages_idem. Qed.
Lemma with_storage_id c : resolved c → with_storage (ResolveStorages (c_Storage c)) c = c.
Proof. intros H. rewrite H. by destruct c. Qed.

Lemma Resolved_fixed l : ResolveStorages (Some l) = Some l → Resolved <$> l = l.
Proof. unfold ResolveStorages. intros [= H]. transitivity (Resolved <$> mark_lone (Resolved <$> l)); [by rewrite H|].
  by rewrite fmap_Resolved_lone, fmap_Resolved_idem.
Qed.

Section safety.
Context `{Hyaml : !Yaml} `{Hsort : !SortSlice}.

(** ** Loads and saves *)

Lemma Parse_resolved raw p : Parse raw = Ok p → resolved (pa_Config p).
Proof.
  unfold Parse. intros H. destruct (Unmarshal_config raw Default) as [c|e]; [|done]. cbn in H.
  repeat case_match; simplify_eq; apply with_storage_resolved.
Qed.

Lemma Load_ok path d1 d2 : ld_OK (Load_at path d1 d2) = true → acceptable (ld_Config (Load_at path d1 d2)) ∧ resolved (ld_Config (Load_at path d1 d2)).
Proof.
  assert (acceptable Default ∧ resolved Default) as Hd by (split; [by apply Validate_iff|done]).
  unfold Load_at. destruct (stat d1); [|done]. destruct (ReadFile d2) as [data|]; [|done].
  destruct (Parse data) as [p|] eqn:Hp; [|done]. destruct (Validate (pa_Config p)) eqn:Hv; [|done].
  intros _. split; [by apply Validate_iff|by eapply Parse_resolved].
Qed.
Lemma Load_config path d1 d2 : acceptable (ld_Config (Load_at path d1 d2)) ∧ resolved (ld_Config (Load_at path d1 d2)).
Proof.
  destruct (ld_OK (Load_at path d1 d2)) eqn:Ho; [by apply Load_ok|].
  assert (ld_Config (Load_at path d1 d2) = Default) as ->; [|split; [by apply Validate_iff|done]].
  revert Ho. unfold Load_at. by repeat case_match.
Qed.

(** What a save that succeeds did. *)
Record replaced (c : Configuration) (io : write_io) (w : World) (r : reply) (w' : World) : Prop := {
  rd_valid : Validate c = [];
  rd_backends : CheckStorageBackendErrors (c_Storage c) = [];
  rd_storages : sr_OK (CheckStorages c [] None) = true ∨ declaredStorage (sv_cfg (w_svc w)) <= 0;
  rd_write : ∃ declared data guard, document c (sv_cfg (w_svc w)) (sv_declared (w_svc w)) = Ok (declared, data, guard) ∧
    w' = mkWorld (announceSurfaceChange (notify (sv_cfg (w_svc w)) c (take_saved c declared data (wi_stat io) (w_svc w))).2)
           (Present (wi_time io) data) }.

Lemma replaceLocked_cases c io w :
  let c' := with_storage (ResolveStorages (c_Storage c)) c in
  let '(r, w') := replaceLocked c io w in
  if saved_ok r then replaced c' io w r w' else w' = w.
Proof.
  unfold replaceLocked. cbv zeta. set (c' := with_storage _ c). destruct (Validate c') eqn:Hv; [|done].
  destruct (negb _ && _) eqn:Hs; [done|]. destruct (CheckStorageBackendErrors (c_Storage c')) eqn:Hb; [|done].
  destruct (document c' _ _) as [[[declared data] guard]|e] eqn:Hd; [|done]. unfold AtomicWrite.
  destruct (wi_fault io) as [[st e]|] eqn:Hf; [by destruct w|]. cbn. split; [done..| |by eauto].
  apply andb_false_iff in Hs as [->%negb_false_iff|?%Z.ltb_ge]; [by left|by right].
Qed.

(** What a call of the API answers. *)
Definition reply_to (h : happening) (w : World) : option reply :=
  let answered (o : outcome) := match o with Answered r => Some r | NoSuchStorage => None end in
  match h with
  | Put c io => Some (Replace c io w).1
  | Add e io => Some (AddStorage e io w).1
  | Forget name busy io => answered (ForgetStorage name busy io w).1
  | MakeDefault name io => answered (SetDefaultStorage name io w).1
  | AllowInsecure allow io => Some (SetAllowInsecureTransport allow io w).1
  | SetTLS certFile keyFile io => Some (SetTLSFiles certFile keyFile io w).1
  | Tick _ _ | Edit _ => None
  end.
Definition is_call (h : happening) : bool := match h with Tick _ _ | Edit _ => false | _ => true end.

(** A call is a save, or leaves everything as it is. *)
Lemma call_cases h w : is_call h = true →
  (happen h w = w ∧ ∀ r, reply_to h w = Some r → saved_ok r = false) ∨
  ∃ c io r, replaceLocked c io w = (r, happen h w) ∧ reply_to h w = Some r.
Proof.
  assert (∀ c io, ∃ c' io' r, replaceLocked c' io' w = (r, (replaceLocked c io w).2) ∧ Some (replaceLocked c io w).1 = Some r) as Hr.
  { intros c io. exists c, io, (replaceLocked c io w).1. by destruct (replaceLocked c io w). }
  assert (∀ e l, saved_ok (mkReply (e :: l) [] None) = false) as Hno by done.
  destruct h; cbn [is_call happen reply_to]; intros Hc; try done.
  - right. apply Hr.
  - unfold AddStorage. destruct (refuseIfConfigDiscarded _); [|left; split; [done|by intros r [= <-]]].
    destruct (validateAddition _ _); [right; apply Hr|left; split; [done|by intros r [= <-]]].
  - unfold ForgetStorage. destruct (c_Storage _) as [l|]; [|by left]. destruct (index_named name l) as [i|]; [|by left].
    destruct (from_option _ _ _); [left; split; [done|by intros r [= <-]]|].
    destruct (negb _); [left; split; [done|by intros r [= <-]]|].
    right. destruct (replaceLocked (with_storage _ _) io w) as [r' w'] eqn:E. by eauto.
  - unfold SetDefaultStorage. destruct (c_Storage _) as [l|]; [|by left]. destruct (index_named name l) as [i|]; [|by left].
    right. destruct (replaceLocked (with_storage _ _) io w) as [r' w'] eqn:E. by eauto.
  - unfold SetAllowInsecureTransport. destruct (refuseIfConfigDiscarded _); [right; apply Hr|left; split; [done|by intros r [= <-]]].
  - unfold SetTLSFiles. destruct (refuseIfConfigDiscarded _); [right; apply Hr|left; split; [done|by intros r [= <-]]].
Qed.

Lemma call_step h w : is_call h = true →
  (happen h w = w ∧ ∀ r, reply_to h w = Some r → saved_ok r = false) ∨
  ∃ c io r, resolved c ∧ replaced c io w r (happen h w) ∧ reply_to h w = Some r ∧ saved_ok r = true.
Proof.
  intros Hc. destruct (call_cases h w Hc) as [?|(c & io & r & Hr & Ha)]; [by left|].
  pose proof (replaceLocked_cases c io w) as H. cbn zeta in H. rewrite Hr in H.
  destruct (saved_ok r) eqn:Ho.
  - right. eexists _, io, r. split_and!; [apply (with_storage_resolved c)|done..].
  - left. split; [done|]. intros r' Hr'. by simplify_eq.
Qed.

Lemma Reload_cases d1 d2 d3 s : let s' := (Reload_at d1 d2 d3 s).2 in
  (sv_cfg s' = sv_cfg s ∧ sv_told s' = sv_told s) ∨
  (sv_cfg s' = ld_Config (Load_at (sv_path s) d2 d3) ∧ sv_told s' = sv_told s ++ [(sv_cfg s, sv_cfg s')] ∧ ld_OK (Load_at (sv_path s) d2 d3) = true).
Proof.
  unfold Reload_at. destruct (ReadFile d1) as [data|]; [|by case_bool_decide; left].
  destruct (bytes_Equal _ _); [by left|]. cbn. destruct (ld_OK _) eqn:Ho; [by right|by left].
Qed.

(** ** What is in force *)

Lemma run_in_force path appliers d hs :
  let w := run hs (start path appliers d) in acceptable (sv_cfg (w_svc w)) ∧ resolved (sv_cfg (w_svc w)).
Proof.
  cbv zeta. induction hs as [|h hs IH] using rev_ind; [apply Load_config|].
  unfold run in *. rewrite foldl_app. cbn [foldl flip]. set (w := foldl _ _ hs) in *.
  destruct (is_call h) eqn:Hc.
  - destruct (call_step h w Hc) as [[-> _]|(c & io & r & Hrs & [Hv _ _ (? & ? & ? & _ & ->)] & _)]; [done|].
    cbn. split; [by apply Validate_iff|done].
  - destruct h; try done; cbn [happen w_svc].
    destruct (Reload_cases (w_disk w) d2 d3 (w_svc w)) as [[-> _]|(-> & _ & _)]; [done|apply Load_config].
Qed.

(** C32: Over any run of saves, ticks of the watcher and edits of the file, whatever the file becomes
    while it is being read and whatever writes fail, the configuration in force is one that
    [Validate] accepts, with everything filled in that its storages leave out.  Every call of the API
    that changes anything leaves its ZFS storages with their datasets, users and hosts named and no
    dataset used twice, and leaves a storage if one was declared. *)
Theorem in_force_is_acceptable path appliers d hs :
  let w := run hs (start path appliers d) in
  acceptable (sv_cfg (w_svc w)) ∧ resolved (sv_cfg (w_svc w)) ∧
  ∀ h, is_call h = true → happen h w ≠ w →
    (∀ l, c_Storage (sv_cfg (w_svc (happen h w))) = Some l → pools_ok l) ∧
    (0 < declaredStorage (sv_cfg (w_svc w)) → 0 < declaredStorage (sv_cfg (w_svc (happen h w)))).
Proof.
  intros w. pose proof (run_in_force path appliers d hs) as [Ha Hr]. split_and!; [exact Ha|exact Hr|].
  intros h Hc Hne. destruct (call_step h w Hc) as [[? _]|(c & io & r & Hrs & [_ Hb Hs (? & ? & ? & _ & ->)] & _)]; [done|].
  cbn. split; [by intros l; apply CheckStorageBackendErrors_nil|]. intros Hd. destruct Hs as [Hs|?]; [|lia]. revert Hs. unfold CheckStorages, sr_OK, declaredStorage.
  destruct (c_Storage c) as [[|e l]|]; cbn; [done|lia|done].
Qed.

(** ** What subsystems are told *)

(** A chain of changes from one configuration to another. *)
Fixpoint linked (c : Configuration) (told : list (Configuration * Configuration)) (c' : Configuration) : Prop :=
  match told with [] => c = c' | (a, b) :: told => c = a ∧ linked b told c' end.

Lemma linked_snoc c told a b : linked c told a → linked c (told ++ [(a, b)]) b.
Proof. revert c. induction told as [|[x y] told IH]; intros c; cbn; [by intros ->|]. intros [? ?]. split; [done|by apply IH]. Qed.

(** Subsystems miss nothing: over any run, what the appliers were told is a chain of changes, each
    from the configuration that the one before left, that begins with the configuration of the start
    and ends with the one in force. *)
Theorem subsystems_follow path appliers d hs :
  let w0 := start path appliers d in
  let w := run hs w0 in
  linked (sv_cfg (w_svc w0)) (sv_told (w_svc w)) (sv_cfg (w_svc w)).
Proof.
  cbv zeta. set (w0 := start path appliers d). assert (sv_told (w_svc w0) = []) as H0 by done. clearbody w0.
  induction hs as [|h hs IH] using rev_ind; [cbn; by rewrite H0|].
  unfold run in *. rewrite foldl_app. cbn [foldl flip]. set (w := foldl _ _ hs) in *.
  destruct (is_call h) eqn:Hc.
  - destruct (call_step h w Hc) as [[-> _]|(c & io & r & Hrs & [_ _ _ (? & ? & ? & _ & ->)] & _)]; [done|]. cbn. by apply linked_snoc.
  - destruct h; try done; cbn [happen w_svc].
    destruct (Reload_cases (w_disk w) d2 d3 (w_svc w)) as [[-> ->]|(_ & -> & _)]; [done|by apply linked_snoc].
Qed.

(** ** What the file says *)

(** What quince writes, YAML reads back. *)
Definition yaml_law : Prop := ∀ c t, Marshal c = Ok t → Unmarshal_config t Default = Ok c.

Lemma document_reads_back c prev declared x data guard : yaml_law → resolved c →
  document c prev declared = Ok (x, data, guard) → ∃ p, Parse data = Ok p ∧ pa_Config p = c.
Proof.
  intros Hlaw Hc. unfold document. destruct (changedKeys prev c) as [changed|]; [|done]. cbn.
  destruct (MarshalDeclared c _) as [tidy|]; [|done]. cbn. unfold guarded. destruct (Parse tidy) as [p|e] eqn:Hp.
  - case_bool_decide as Hs; [intros; simplify_eq/=; by exists p|]. destruct (Marshal c) as [full|] eqn:Hm; [|done].
    intros; simplify_eq/=. unfold Parse. rewrite (Hlaw _ _ Hm). cbn. rewrite (with_storage_id c Hc). repeat case_match; by eexists.
  - destruct (Marshal c) as [full|] eqn:Hm; [|done].
    intros; simplify_eq/=. unfold Parse. rewrite (Hlaw _ _ Hm). cbn. rewrite (with_storage_id c Hc). repeat case_match; by eexists.
Qed.

(** C33: A call of the API leaves everything as it is, the file too, or it saves: then the file that it
    leaves is loaded as exactly the configuration that is now in force, nothing is held against it
    any more, and the watcher's next tick finds nothing new. *)
Theorem save_reads_back h w r : yaml_law → is_call h = true → reply_to h w = Some r →
  let w' := happen h w in
  if saved_ok r then
    let l := Load (sv_path (w_svc w)) (w_disk w') in
    ld_OK l = true ∧ ld_Config l = sv_cfg (w_svc w') ∧ sv_discarded (w_svc w') = false ∧
    (Reload (w_disk w') (w_svc w')).1.1 = ReloadUnchanged ∧ sv_cfg (Reload (w_disk w') (w_svc w')).2 = sv_cfg (w_svc w')
  else w' = w.
Proof.
  intros Hlaw Hc Hr. cbv zeta. destruct (call_step h w Hc) as [[-> Hno]|(c & io & r' & Hrs & [Hv _ _ (x & data & guard & Hd & Hw)] & Hr' & Ho)].
  - by rewrite (Hno r Hr).
  - simplify_eq. rewrite Ho, Hw. destruct (document_reads_back _ _ _ _ _ _ Hlaw Hrs Hd) as (p & Hp & Hpc).
    unfold Load, Load_at, Reload, Reload_at. cbn. rewrite Hp, Hpc, Hv. unfold bytes_Equal. cbn.
    rewrite bool_decide_eq_true_2 by done. done.
Qed.

(** What a file amounts to. *)
Definition taken (d : disk) : option Configuration :=
  match ReadFile d with
  | Ok data => match Parse data with Ok p => match Validate (pa_Config p) with [] => Some (pa_Config p) | _ => None end | Err _ => None end
  | Err _ => None
  end.

Lemma Reload_known d s : ReadFile d = Ok (default no_text (sv_lastBytes s)) ∨ (∃ e, ReadFile d = Err e) → (Reload d s).1.1 = ReloadUnchanged.
Proof.
  unfold Reload, Reload_at. intros [->|[e ->]]; [|done]. unfold bytes_Equal. cbn. by rewrite bool_decide_eq_true_2.
Qed.

(** C34: A tick looks at the file three times, and the file may be another one each time.  When it cannot be
    read, or its bytes are known, nothing in force changes.  Otherwise it takes exactly the document of
    the last look, if that can be read, parsed and accepted, and tells the appliers; or it refuses it,
    with nothing in force changed and no applier told; but if the file was gone at the second look it
    takes the defaults.  But for that case, the next tick over the file as it was last read finds
    nothing new.  A file that stays as it is is never gone at the second look only. *)
Theorem reload_exact d1 d2 d3 s :
  let '(o, _, s') := Reload_at d1 d2 d3 s in
  match o with
  | ReloadUnchanged =>
      sv_cfg s' = sv_cfg s ∧ sv_told s' = sv_told s ∧ (Reload d1 s').1.1 = ReloadUnchanged ∧
      ((∃ e, ReadFile d1 = Err e) ∨ ∃ data, ReadFile d1 = Ok data ∧ data = default no_text (sv_lastBytes s))
  | ReloadApplied =>
      sv_discarded s' = false ∧ sv_told s' = sv_told s ++ [(sv_cfg s, sv_cfg s')] ∧
      (taken d3 = Some (sv_cfg s') ∧ (Reload d3 s').1.1 = ReloadUnchanged ∨ stat d2 = None ∧ d1 ≠ d2 ∧ sv_cfg s' = Default)
  | ReloadRefused =>
      taken d3 = None ∧ is_Some (stat d2) ∧ sv_cfg s' = sv_cfg s ∧ sv_discarded s' = true ∧ sv_told s' = sv_told s ∧
      (Reload d3 s').1.1 = ReloadUnchanged
  end.
Proof.
  unfold taken. unfold Reload_at. destruct (ReadFile d1) as [data|e] eqn:Hr.
  - unfold bytes_Equal. case_bool_decide as Hb.
    + split_and!; [done..| |right; by exists data]. apply Reload_known. left. cbn. by rewrite Hr, Hb.
    + unfold Load_at. destruct (stat d2) as [t|] eqn:Ht; cbn; [|split_and!; [done..|right; split_and!; [done| |done]]].
      * destruct (ReadFile d3) as [data3|e] eqn:Hr3; [destruct (Parse data3) as [p|e] eqn:Hp; [destruct (Validate (pa_Config p)) eqn:Hv|]|]; cbn;
          (split_and!; try done; try (left; split; [done|]); apply Reload_known; rewrite ?Hr3; eauto).
      * intros ->. destruct d2; done.
  - split_and!; [by case_bool_decide..| |left; by exists e]. apply Reload_known. right. eauto.
Qed.

(** ** What the narrow edits change *)

Lemma saved_cfg c io w r w' : replaceLocked c io w = (r, w') → saved_ok r = true →
  sv_cfg (w_svc w') = with_storage (ResolveStorages (c_Storage c)) c.
Proof.
  intros Hr Ho. pose proof (replaceLocked_cases c io w) as H. cbn zeta in H. rewrite Hr, Ho in H.
  by destruct H as [_ _ _ (? & ? & ? & _ & ->)].
Qed.

Lemma index_named_spec name l i : index_named name l = Some i → ∃ e, l !! i = Some e ∧ se_Name e = name.
Proof.
  revert i. induction l as [|e l IH]; intros i; [done|]. cbn. unfold named. case_bool_decide as He; [intros [= <-]; by exists e|].
  destruct (index_named name l) as [j|]; [|done]. intros [= <-]. apply (IH j eq_refl).
Qed.
Lemma delete_named name l i : NoDup (se_Name <$> l) → index_named name l = Some i →
  take i l ++ drop (S i) l = filter (λ e, se_Name e ≠ name) l.
Proof.
  revert i. induction l as [|e l IH]; intros i; [done|]. rewrite fmap_cons, NoDup_cons. intros [Hnew Hd]. cbn [index_named].
  rewrite filter_cons. unfold named at 1. case_bool_decide as He.
  - intros [= <-]. rewrite decide_False by naive_solver. cbn. symmetry. apply filter_true, Forall_forall. intros x Hx Hxn.
    apply Hnew. rewrite He, <-Hxn. by apply list_elem_of_fmap_2.
  - destruct (index_named name l) as [j|]; [|done]. intros [= <-]. rewrite decide_True by done. cbn. f_equal. by apply IH.
Qed.
Lemma flag_named name l i : NoDup (se_Name <$> l) → index_named name l = Some i →
  flag_only i l = (λ e, set_default (named name e) e) <$> l.
Proof.
  intros Hd Hi. destruct (index_named_spec name l i Hi) as (e & He & Hn). unfold flag_only. apply list_eq. intros j.
  rewrite list_lookup_imap, list_lookup_fmap. destruct (l !! j) as [x|] eqn:Hx; [|done]. cbn. do 2 f_equal. unfold named.
  apply bool_decide_ext. split; [by intros ->; simplify_eq|]. intros Hxn.
  apply (NoDup_lookup _ _ _ (se_Name x) Hd); rewrite list_lookup_fmap; [by rewrite Hx|]. rewrite He. cbn. by rewrite Hn, Hxn.
Qed.

(** In force, every storage has a name, and names tell storages apart. *)
Lemma in_force_names c l : acceptable c → resolved c → c_Storage c = Some l → NoDup (se_Name <$> l) ∧ Resolved <$> l = l.
Proof.
  unfold resolved. intros Ha Hr Hl. rewrite Hl in Hr. pose proof (Resolved_fixed l Hr) as Hf. split; [|done].
  destruct (ac_storages _ Ha l Hl) as [Hn Hp _ _ _]. rewrite filter_true in Hn; [done|]. apply Forall_forall. intros e He. rewrite Forall_forall in Hp.
  specialize (Hp e He). rewrite <-Hf in He. apply list_elem_of_fmap in He as (x & -> & _). intros Hz. revert Hp Hz. unfold Resolved, or_default. cbn.
  case_bool_decide; [|done]. by intros H1 H2; rewrite H2 in H1.
Qed.

Lemma list_fmap_fixed {A} (f : A → A) (l : list A) : (∀ x, x ∈ l → f x = x) → f <$> l = l.
Proof.
  intros H. rewrite <-(list_fmap_id l) at 2. apply list_fmap_ext. intros i x Hx. apply H. by eapply list_elem_of_lookup_2.
Qed.
(** When a storage that is not the default goes, the default is among the others. *)
Lemma only_default_stays l name x e : length (defaults_of l) = 1%nat → e ∈ l → NoDup (se_Name <$> l) → se_Name e = name → se_Default e = false →
  filter (λ e, se_Name e ≠ name) l = [x] → se_Default x = true.
Proof.
  intros Hone He Hnd Hn Hd Hx. destruct (defaults_of l) as [|y [|]] eqn:Hy; try done. clear Hone.
  assert (y ∈ defaults_of l) as [Hyd Hyl]%list_elem_of_filter by (rewrite Hy; by apply list_elem_of_singleton).
  assert (y ∈ filter (λ e, se_Name e ≠ name) l) as Hin.
  { apply list_elem_of_filter. split; [|done]. intros Hyn. assert (y = e) as ->; [|congruence]. by apply (nodup_fmap_eq se_Name l); [..|congruence]. }
  rewrite Hx in Hin. by apply list_elem_of_singleton in Hin as ->.
Qed.

Lemma lone_default l : (∀ e, l = [e] → se_Default e = true) → mark_lone l = l.
Proof. intros H. destruct l as [|e [|]]; [done| |done]. cbn. specialize (H e eq_refl). destruct e. cbn in *. by subst. Qed.

Lemma not_saved e l w r w' : refused (e :: l) w = (r, w') → saved_ok r = true → False.
Proof. by intros [= <- <-]. Qed.

Lemma add_exact e io w r w' : acceptable (sv_cfg (w_svc w)) → resolved (sv_cfg (w_svc w)) →
  let l := default [] (c_Storage (sv_cfg (w_svc w))) in
  AddStorage e io w = (r, w') → saved_ok r = true →
  sv_cfg (w_svc w') = with_storage (Some (l ++ [set_default (bool_decide (l = [])) (Resolved e)])) (sv_cfg (w_svc w)).
Proof.
  cbv zeta. unfold AddStorage. set (cfg := sv_cfg (w_svc w)). intros Ha Hr.
  destruct (refuseIfConfigDiscarded _); [|by intros H Ho; destruct (not_saved _ _ _ _ _ H Ho)].
  destruct (validateAddition e _) as [|err errs] eqn:Hva; [|by intros H Ho; destruct (not_saved _ _ _ _ _ H Ho)]. intros H Ho.
  rewrite (saved_cfg _ _ _ _ _ H Ho). change (c_Storage (with_storage ?x cfg)) with x. rewrite ResolveStorages_idem.
  unfold with_storage. cbn [c_Storage c_Backup c_Muxers c_Devices c_TLS c_Sessions c_Notifications c_Reconcile c_Vault c_UI]. f_equal.
  unfold ResolveStorages. rewrite fmap_app. cbn [fmap list_fmap].
  assert (Resolved <$> default [] (c_Storage cfg) = default [] (c_Storage cfg)) as ->.
  { destruct (c_Storage cfg) as [l|] eqn:Hl; [|done]. by destruct (in_force_names cfg l Ha Hr Hl). }
  assert (se_Default e = false) as Hd.
  { unfold validateAddition in Hva. by apply app_nil in Hva as [_ [_ [_ ?%refuse_if_nil]%app_nil]%app_nil]. }
  destruct (default [] (c_Storage cfg)) as [|x [|y l]]; cbn; [done|..];
    repeat f_equal; unfold Resolved, set_default; cbn; by rewrite Hd.
Qed.

Lemma forget_exact name busy io w r w' : acceptable (sv_cfg (w_svc w)) → resolved (sv_cfg (w_svc w)) →
  let l := default [] (c_Storage (sv_cfg (w_svc w))) in
  ForgetStorage name busy io w = (Answered r, w') → saved_ok r = true →
  sv_cfg (w_svc w') = with_storage (Some (filter (λ e, se_Name e ≠ name) l)) (sv_cfg (w_svc w)) ∧
  ∃ e, e ∈ l ∧ se_Name e = name ∧ se_Default e = false.
Proof.
  cbv zeta. unfold ForgetStorage. set (cfg := sv_cfg (w_svc w)). intros Ha Hr. destruct (c_Storage cfg) as [l|] eqn:Hl; [|done].
  destruct (index_named name l) as [i|] eqn:Hi; [|done]. destruct (index_named_spec name l i Hi) as (e & He & Hn). rewrite He. cbn [from_option default id].
  destruct (se_Default e) eqn:Hd; [by intros [= <- <-]|]. destruct (negb _); [by intros [= <- <-]|].
  destruct (replaceLocked _ io w) as [r' w''] eqn:Hrl. intros [= -> ->] Ho.
  assert (e ∈ l) as Hin by by eapply list_elem_of_lookup_2. split; [|by exists e].
  destruct (in_force_names cfg l Ha Hr Hl) as [Hnd Hf]. rewrite (saved_cfg _ _ _ _ _ Hrl Ho), (delete_named name l i Hnd Hi).
  set (k := filter _ l). assert (Resolved <$> k = k) as Hk.
  { apply list_fmap_fixed. intros x [_ Hx]%list_elem_of_filter. rewrite <-Hf in Hx. apply list_elem_of_fmap in Hx as (y & -> & _). apply Resolved_idem. }
  change (c_Storage (with_storage (Some k) cfg)) with (Some k). unfold ResolveStorages. rewrite Hk, lone_default; [done|].
  intros x Hx. destruct (ac_storages _ Ha l Hl) as [_ _ _ _ [->|Hone]]; [by apply elem_of_nil in Hin|].
  apply (only_default_stays l name x e); done.
Qed.

Lemma set_default_exact name io w r w' : acceptable (sv_cfg (w_svc w)) → resolved (sv_cfg (w_svc w)) →
  let l := default [] (c_Storage (sv_cfg (w_svc w))) in
  SetDefaultStorage name io w = (Answered r, w') → saved_ok r = true →
  sv_cfg (w_svc w') = with_storage (Some ((λ e, set_default (named name e) e) <$> l)) (sv_cfg (w_svc w)) ∧ name ∈ se_Name <$> l.
Proof.
  cbv zeta. unfold SetDefaultStorage. set (cfg := sv_cfg (w_svc w)). intros Ha Hr. destruct (c_Storage cfg) as [l|] eqn:Hl; [|done].
  destruct (index_named name l) as [i|] eqn:Hi; [|done]. destruct (index_named_spec name l i Hi) as (e & He & Hn).
  destruct (replaceLocked _ io w) as [r' w''] eqn:Hrl. intros [= -> ->] Ho. cbn [default from_option id].
  assert (e ∈ l) as Hin by by eapply list_elem_of_lookup_2. split; [|rewrite <-Hn; by apply list_elem_of_fmap_2].
  destruct (in_force_names cfg l Ha Hr Hl) as [Hnd Hf]. rewrite (saved_cfg _ _ _ _ _ Hrl Ho), (flag_named name l i Hnd Hi).
  set (k := _ <$> l). assert (Resolved <$> k = k) as Hk.
  { apply list_fmap_fixed. intros x (y & -> & Hy)%list_elem_of_fmap. rewrite <-Hf in Hy. apply list_elem_of_fmap in Hy as (z & -> & _).
    by rewrite Resolved_set_default, Resolved_idem. }
  change (c_Storage (with_storage (Some k) cfg)) with (Some k). unfold ResolveStorages. rewrite Hk, lone_default; [done|].
  intros x Hx. unfold k in Hx. destruct l as [|y [|]]; simplify_eq/=. apply list_elem_of_singleton in Hin as ->.
  unfold named. by apply bool_decide_eq_true.
Qed.

(** C35: An added storage goes to the end, as it resolves, and is the default only if it is alone; to
    forget one removes that one, which is not the default; a new default gets the flag, which the
    previous one loses.  But for that flag the other storages, with their ZFS and retention settings,
    and every other section stay as they were. *)
Theorem storage_edits_exact path appliers d hs :
  let w := run hs (start path appliers d) in
  let cfg := sv_cfg (w_svc w) in
  let l := default [] (c_Storage cfg) in
  (∀ e io r w', AddStorage e io w = (r, w') → saved_ok r = true →
     sv_cfg (w_svc w') = with_storage (Some (l ++ [set_default (bool_decide (l = [])) (Resolved e)])) cfg) ∧
  (∀ name busy io r w', ForgetStorage name busy io w = (Answered r, w') → saved_ok r = true →
     sv_cfg (w_svc w') = with_storage (Some (filter (λ e, se_Name e ≠ name) l)) cfg ∧
     ∃ e, e ∈ l ∧ se_Name e = name ∧ se_Default e = false) ∧
  (∀ name io r w', SetDefaultStorage name io w = (Answered r, w') → saved_ok r = true →
     sv_cfg (w_svc w') = with_storage (Some ((λ e, set_default (named name e) e) <$> l)) cfg ∧ name ∈ se_Name <$> l).
Proof.
  cbv zeta. pose proof (run_in_force path appliers d hs) as [Ha Hr].
  split_and!; intros; [by eapply add_exact|by eapply forget_exact|by eapply set_default_exact].
Qed.

(** A file that was refused is not written over by an addition, by the transport switch, or by a
    certificate. *)
Lemma refused_file_is_kept w : sv_discarded (w_svc w) = true →
  (∀ e io, (AddStorage e io w).2 = w) ∧ (∀ b io, (SetAllowInsecureTransport b io w).2 = w) ∧ (∀ c k io, (SetTLSFiles c k io w).2 = w).
Proof.
  intros Hd. unfold AddStorage, SetAllowInsecureTransport, SetTLSFiles, refuseIfConfigDiscarded. by rewrite Hd.
Qed.

End safety.

(** * Runs *)

(** ** A small YAML package

    A text is a document of the package itself, a tree, or nothing that parses. *)

#[global] Instance node_eq_dec : EqDecision node.
Proof.
  unfold EqDecision, base.Decision. fix go 1. intros [v|kvs|l] [v'|kvs'|l']; try (right; congruence).
  - destruct (decide (v = v')); [left|right]; congruence.
  - assert ({kvs = kvs'} + {kvs ≠ kvs'}) as [H|H]; [|left; congruence|right; congruence].
    revert kvs'. induction kvs as [|[k x] kvs IH]; intros [|[k' y] kvs']; [by left|by right|by right|].
    destruct (decide (k = k')), (go x y), (IH kvs'); [left; congruence|right; congruence..].
  - assert ({l = l'} + {l ≠ l'}) as [H|H]; [|left; congruence|right; congruence].
    revert l'. induction l as [|x l IH]; intros [|y l']; [by left|by right|by right|].
    destruct (go x y), (IH l'); [left; congruence|right; congruence..].
Defined.

Inductive toy_text : Type := Doc (c : Configuration) | Entry (e : StorageEntry) | Tree (n : node) | Junk.
#[global] Instance toy_text_eq_dec : EqDecision toy_text.
Proof. solve_decision. Defined.

Definition of_bool (b : bool) : node := NScalar (if b then "true" else "false").
Definition of_int (z : Z) : node := NScalar (fmt_d z).
Definition of_list {A} (f : A → node) (l : option (list A)) : node := match l with None => NScalar "null" | Some l => NSeq (f <$> l) end.

Definition entry_node (e : StorageEntry) : node :=
  let z := se_ZFS e in
  NMap [("name", NScalar (se_Name e)); ("path", NScalar (se_Path e)); ("default", of_bool (se_Default e)); ("backend", NScalar (se_Backend e));
    ("zfs", NMap [("parent_dataset", NScalar (z_ParentDataset z)); ("mode", NScalar (z_Mode z)); ("hook_cmd", NScalar (z_HookCmd z));
       ("ssh_user", NScalar (z_SSHUser z)); ("ssh_host", NScalar (z_SSHHost z)); ("ssh_port", of_int (z_SSHPort z));
       ("ssh_key", NScalar (z_SSHKey z)); ("seed", NScalar (z_Seed z))]);
    ("retention", match se_Retention e with
                  | None => NScalar "null"
                  | Some r => NMap [("keep_recent", of_int (rt_KeepRecent r)); ("keep_daily", of_int (rt_KeepDaily r)); ("keep_weekly", of_int (rt_KeepWeekly r))]
                  end)]%string.
Definition config_node (c : Configuration) : node :=
  let n := c_Notifications c in
  NMap [("backup", NMap [("preferred_transport", NScalar (bc_PreferredTransport (c_Backup c))); ("require_encryption", of_bool (bc_RequireEncryption (c_Backup c)))]);
    ("storage", of_list entry_node (c_Storage c));
    ("muxers", of_list (λ m, NMap [("address", NScalar (mc_Address m)); ("type", NScalar (mc_Type m))]) (c_Muxers c));
    ("tls", NMap [("cert_file", NScalar (tls_CertFile (c_TLS c))); ("key_file", NScalar (tls_KeyFile (c_TLS c)))]);
    ("sessions", NMap [("allow_insecure_transport", of_bool (sc_AllowInsecureTransport (c_Sessions c)))]);
    ("notifications", NMap [("staleness_days", of_int (nc_StalenessDays n)); ("reminder_cooldown_hours", of_int (nc_ReminderCooldownHours n));
       ("overdue_days", of_int (nc_OverdueDays n)); ("backup_available", of_bool (nc_BackupAvailable n)); ("backup_overdue", of_bool (nc_BackupOverdue n));
       ("action_required", of_bool (nc_ActionRequired n)); ("backup_failed", of_bool (nc_BackupFailed n)); ("backup_completed", of_bool (nc_BackupCompleted n))]);
    ("reconcile", NMap [("interval_minutes", of_int (rc_IntervalMinutes (c_Reconcile c)))]);
    ("vault", NMap [("session_ttl_minutes", of_int (vc_SessionTTLMinutes (c_Vault c)))]);
    ("ui", NMap [("theme", NScalar (ui_Theme (c_UI c)))])]%string.

Definition fields (n : option node) : list (string * node) := match n with Some (NMap kvs) => kvs | _ => [] end.
Definition get (kvs : list (string * node)) (k : string) : option node := assoc k kvs.
Definition to_str (d : string) (n : option node) : string := match n with Some (NScalar v) => v | _ => d end.
Definition to_bool (d : bool) (n : option node) : bool := match n with Some (NScalar v) => bool_decide (v = "true"%string) | _ => d end.
Definition to_int (d : Z) (n : option node) : Z := match n with Some (NScalar v) => default d (Atoi v) | _ => d end.
Definition to_list {A} (f : node → A) (n : option node) : option (list A) := match n with Some (NSeq l) => Some (f <$> l) | _ => None end.

Definition node_entry (n : node) : StorageEntry :=
  let e := fields (Some n) in
  let z := fields (get e "zfs") in
  mkStorageEntry (to_str "" (get e "name")) (to_str "" (get e "path")) (to_bool false (get e "default")) (to_str "" (get e "backend"))
    (mkZFSConfig (to_str "" (get z "parent_dataset")) (to_str "" (get z "mode")) (to_str "" (get z "hook_cmd")) (to_str "" (get z "ssh_user"))
       (to_str "" (get z "ssh_host")) (to_int 0 (get z "ssh_port")) (to_str "" (get z "ssh_key")) (to_str "" (get z "seed")))
    (match get e "retention" with
     | Some (NMap r) => Some (mkRetentionConfig (to_int 0 (get r "keep_recent")) (to_int 0 (get r "keep_daily")) (to_int 0 (get r "keep_weekly")))
     | _ => None
     end).
Definition node_config (n : node) (d : Configuration) : Configuration :=
  let c := fields (Some n) in
  let b := fields (get c "backup") in let t := fields (get c "tls") in let o := fields (get c "notifications") in let dn := c_Notifications d in
  mkConfiguration
    (mkBackupConfig (to_str (bc_PreferredTransport (c_Backup d)) (get b "preferred_transport")) (to_bool (bc_RequireEncryption (c_Backup d)) (get b "require_encryption")))
    (to_list node_entry (get c "storage"))
    (to_list (λ m, mkMuxerConfig (to_str "" (get (fields (Some m)) "address")) (to_str "" (get (fields (Some m)) "type"))) (get c "muxers"))
    None (mkTLSConfig (to_str "" (get t "cert_file")) (to_str "" (get t "key_file")))
    (mkSessionsConfig (to_bool false (get (fields (get c "sessions")) "allow_insecure_transport")))
    (mkNotificationsConfig (to_int (nc_StalenessDays dn) (get o "staleness_days")) (to_int (nc_ReminderCooldownHours dn) (get o "reminder_cooldown_hours"))
       (to_int (nc_OverdueDays dn) (get o "overdue_days")) (to_bool (nc_BackupAvailable dn) (get o "backup_available")) (to_bool (nc_BackupOverdue dn) (get o "backup_overdue"))
       (to_bool (nc_ActionRequired dn) (get o "action_required")) (to_bool (nc_BackupFailed dn) (get o "backup_failed")) (to_bool (nc_BackupCompleted dn) (get o "backup_completed")))
    (mkReconcileConfig (to_int (rc_IntervalMinutes (c_Reconcile d)) (get (fields (get c "reconcile")) "interval_minutes")))
    (mkVaultConfig (to_int (vc_SessionTTLMinutes (c_Vault d)) (get (fields (get c "vault")) "session_ttl_minutes")))
    (mkUIConfig (to_str (ui_Theme (c_UI d)) (get (fields (get c "ui")) "theme"))).

Fixpoint node_value_of (n : node) : value :=
  match n with
  | NScalar v => if bool_decide (v = "null"%string) then VNull else VString v
  | NMap kvs => VMap (List.map (λ '(k, w), (k, node_value_of w)) kvs)
  | NSeq l => VList (List.map node_value_of l)
  end.

#[local] Instance toy_yaml : Yaml := {|
  text := toy_text; no_text := Tree (NMap []);
  Unmarshal_config t d := match t with Doc c => Ok c | Tree n => Ok (node_config n d) | _ => Err "yaml: line 1"%string end;
  Unmarshal_map t := match t with Doc c => Ok (Some (map_items (Some (node_value_of (config_node c))))) | Tree n => Ok (Some (map_items (Some (node_value_of n))))
                     | Entry e => Ok (Some (map_items (Some (node_value_of (entry_node e))))) | Junk => Err "yaml: line 1"%string end;
  Unmarshal_node t := match t with Doc c => Ok (Some (config_node c)) | Tree n => Ok (Some n) | _ => Err "yaml: line 1"%string end;
  Marshal c := Ok (Doc c);
  Marshal_entry e := Ok (Entry e);
  Marshal_node n := Ok (Tree n) |}.
#[local] Existing Instance stable_sort.

Lemma toy_yaml_law : yaml_law.
Proof. by intros c t [= <-]. Qed.

(** ** A day of a small install *)

Definition second_disk (name : string) : StorageEntry :=
  mkStorageEntry name "/mnt/second" false "copy" (mkZFSConfig "" "" "" "" "" 0 "" "") None.
Definition fine (t : time) : write_io := mkWriteIO None t (Some t).
Definition first_file : disk := Present 0 (Tree (NMap [("storage", NSeq [NMap [("path", NScalar "/backups")]])]%string)).
Definition at_start : World := start "/data/config.yml" [("tls"%string, λ _ _, Some [])] first_file.
Definition morning : list happening := [Add (second_disk "") (fine Second); MakeDefault "/mnt/second" (fine (2 * Second))].

Definition content (w : World) : option toy_text := match w_disk w with Present _ c => Some c | _ => None end.

(** The file has what was set, and what tells the storages apart. *)
Example tidy_file : content (run morning at_start) = Some (Tree (NMap [("storage", NSeq
    [NMap [("path", NScalar "/backups"); ("default", NScalar "false")];
     NMap [("path", NScalar "/mnt/second"); ("default", NScalar "true"); ("backend", NScalar "copy")]])]%string)).
Proof. vm_compute. reflexivity. Qed.

#[local] Abbreviation by_now := (run morning at_start).
(** A storage on a pool. *)
Definition pool_storage (name dataset : string) : StorageEntry :=
  mkStorageEntry name ("/mnt/" +:+ name) false "zfs" (mkZFSConfig dataset "" "" "quince" "nas" 0 "" "") None.
Definition afternoon : list happening := [Add (pool_storage "pool" "tank/backups") (fine (3 * Second))].
#[local] Abbreviation by_pool := (run (morning ++ afternoon) at_start).

Lemma in_force_is_acceptable_witness :
  (∀ l, c_Storage (sv_cfg (w_svc (happen (Add (pool_storage "tank" "tank/phones") (fine (4 * Second))) by_pool))) = Some l → pools_ok l) ∧
  0 < declaredStorage (sv_cfg (w_svc (happen (Add (pool_storage "tank" "tank/phones") (fine (4 * Second))) by_pool))).
Proof.
  destruct (in_force_is_acceptable "/data/config.yml" [("tls"%string, λ _ _, Some [])] first_file (morning ++ afternoon)) as (_ & _ & H).
  destruct (H (Add (pool_storage "tank" "tank/phones") (fine (4 * Second)))) as [H1 H2]; [reflexivity| |].
  - intros E. apply (f_equal (λ w, declaredStorage (sv_cfg (w_svc w)))) in E. vm_compute in E. discriminate.
  - split; [exact H1|]. apply H2. vm_compute. reflexivity.
Defined.

(** A second storage on a dataset that is in use is refused; so is one that names nobody to ask. *)
Example pools_are_kept_apart :
  let asked (e : StorageEntry) := rp_Errors (AddStorage e (fine (4 * Second)) by_pool).1 in
  length (asked (pool_storage "tank" "tank/phones")) = 0%nat ∧ length (asked (pool_storage "tank" "tank/backups")) = 1%nat ∧
  length (asked (mkStorageEntry "tank" "/mnt/tank" false "zfs" (mkZFSConfig "tank/phones" "" "" "" "" 0 "" "") None)) = 1%nat.
Proof. vm_compute. done. Qed.

Lemma save_reads_back_witness :
  sv_cfg (w_svc (happen (MakeDefault "/mnt/second" (fine (2 * Second))) by_now)) =
  ld_Config (Load "/data/config.yml" (w_disk (happen (MakeDefault "/mnt/second" (fine (2 * Second))) by_now))).
Proof.
  assert (reply_to (MakeDefault "/mnt/second" (fine (2 * Second))) by_now = Some (mkReply [] [] None)) as Hr by (vm_compute; reflexivity).
  exact (eq_sym (proj1 (proj2 (save_reads_back (MakeDefault "/mnt/second" (fine (2 * Second))) by_now _ toy_yaml_law eq_refl Hr)))).
Defined.

Lemma storage_edits_exact_witness :
  c_Storage (sv_cfg (w_svc by_now)) =
    Some [set_default false (Resolved (mkStorageEntry "" "/backups" false "" (mkZFSConfig "" "" "" "" "" 0 "" "") None));
          set_default true (Resolved (second_disk ""))] ∧
  se_Name <$> default [] (c_Storage (sv_cfg (w_svc (ForgetStorage "/backups" (λ _, ""%string) (fine (3 * Second)) by_now).2))) = ["/mnt/second"%string].
Proof.
  split; [vm_compute; reflexivity|].
  destruct (storage_edits_exact "/data/config.yml" [("tls"%string, λ _ _, Some [])] first_file morning) as (_ & H & _).
  assert ((ForgetStorage "/backups" (λ _, ""%string) (fine (3 * Second)) by_now).1 = Answered (mkReply [] [] None)) as E by (vm_compute; reflexivity).
  destruct (H "/backups"%string (λ _, ""%string) (fine (3 * Second)) (mkReply [] [] None)
    (ForgetStorage "/backups" (λ _, ""%string) (fine (3 * Second)) by_now).2) as [Hc _]; [rewrite <-E; apply surjective_pairing|reflexivity|].
  rewrite Hc. vm_compute. reflexivity.
Defined.

(** The file is broken by hand, the watcher refuses it, and a storage is forgotten: the hand edit is
    written over, although an addition would have been refused. *)
Example forget_writes_over_a_refused_file :
  let broken := Present (3 * Second) Junk in
  let w := run [Edit broken; Tick broken broken] by_now in
  sv_discarded (w_svc w) = true ∧ (AddStorage (second_disk "third") (fine (4 * Second)) w).2 = w ∧
  content (happen (Forget "/backups" (λ _, ""%string) (fine (4 * Second))) w) ≠ Some Junk.
Proof.
  refine (conj _ (conj (proj1 (refused_file_is_kept _ _) _ _) _)); [vm_compute; reflexivity..|vm_compute; discriminate].
Qed.

(** The file goes away between the two reads of a tick: the defaults are taken, without a storage. *)
Example file_gone_between_the_reads :
  c_Storage (sv_cfg (w_svc (run [Edit first_file; Tick (Absent "gone") (Absent "gone")] by_now))) = None.
Proof. vm_compute. reflexivity. Qed.

(** A storage whose name has a closing bracket: its keys are taken for those of a storage that is
    gone, and the file is written in full. *)
Example bracket_in_a_name :
  rp_Warnings (AddStorage (second_disk "a]b") (fine Second) at_start).1 ≠ [] ∧
  rp_Warnings (AddStorage (second_disk "ab") (fine Second) at_start).1 = [].
Proof. split; [vm_compute; discriminate|vm_compute; reflexivity]. Qed.

(** A hand edit that leaves no storage is taken by a running daemon, which an API call could not do. *)
Example edit_takes_the_last_storage :
  let none := Present (3 * Second) (Tree (NMap [])) in
  let w := run [Edit none; Tick none none] by_now in
  sv_discarded (w_svc w) = false ∧ declaredStorage (sv_cfg (w_svc w)) = 0.
Proof. vm_compute. done. Qed.
