(* ===== verification/StoragesSafety.v ===== *)
(** * StoragesSafety: when a storage is created, and what becomes of the declared list

    Proofs about [Storages]: what resolving a declared storage may do to the disk and to the table,
    under any failures; the decision as a table; the manager's list against the configuration; what a
    forget leaves; and the runner of reconciliations. *)

From Stdlib Require Import String Ascii.
From S2P Require Import Config ConfigFile ConfigService ConfigSafety.
From S2P Require Import Prelude Calendar Domain Store Backend Slots FS Sidecars Manager.
From S2P Require Import Graft ZfsHost ReconcileSafety StorageProbe Storages.
#[local] Open Scope quince_scope.

(** ** Statements *)

Lemma storage_statement_cases {A} (f : gmap string StorageRow → A * gmap string StorageRow) d :
  (storage_statement f d).1 = Err "database error" ∧ sd_rows (storage_statement f d).2 = sd_rows d ∨
  (storage_statement f d).1 = Ok (f (sd_rows d)).1 ∧ sd_rows (storage_statement f d).2 = (f (sd_rows d)).2.
Proof.
  unfold storage_statement, statement. destruct (db_faults (sd_db d)) as [|[] fs]; simpl; [|auto|];
    right; by destruct (f (sd_rows d)).
Qed.
Lemma storage_statement_sound {A} (f : gmap string StorageRow → A * gmap string StorageRow) d :
  db_faults (sd_db d) = [] →
  storage_statement f d = (Ok (f (sd_rows d)).1, mkStorageDB (f (sd_rows d)).2 (sd_db d)).
Proof. intros H. unfold storage_statement, statement. rewrite H. by destruct (f (sd_rows d)). Qed.

(** A statement touches no version and no job. *)
Lemma storage_statement_tables {A} (f : gmap string StorageRow → A * gmap string StorageRow) d :
  same_tables (sd_db d) (sd_db (storage_statement f d).2).
Proof.
  unfold storage_statement, statement. destruct (db_faults (sd_db d)) as [|[] fs]; simpl; [|done|];
    by destruct (f (sd_rows d)).
Qed.

(** ** What resolving does to the disk *)

(** The tree is as it was, but for a probe's own files at [p]. *)
Definition kept (p : path) (n n' : FS.node) : Prop := n' = n ∨ same_but p scratch_names n n'.
(** Nothing is known of the name, and the directory has no marker. *)
Definition licensed (p : path) (n : FS.node) (old : option string) : Prop :=
  old = None ∧ ∃ es, stat p n = FOk (NDir es) ∧ es !! StorageMarkerName = None.

Lemma kept_marker p n n' : kept p n n' → stat (p ++ [StorageMarkerName]) n' = stat (p ++ [StorageMarkerName]) n.
Proof. intros [->|H]; [done|]. eapply same_but_entry; [|done]. by apply (bool_decide_unpack _). Qed.

Section resolve.
Context (sha256 : StorageMarker → string) (probe_size : nat) (marker_sha256 : Marker → string) (file_size : content → Z).
Context (host_run : list string → FS.node → (string * bool) * FS.node).
#[local] Abbreviation Resolve := (resolveSlot sha256 probe_size marker_sha256 file_size host_run).
#[local] Abbreviation Selected := (λ su e, Select probe_size (su_now su) marker_sha256 file_size host_run (su_medium su (fs_path (se_Path e))) (options_of su e)).

(** A selection always names a backend, the one that it makes. *)
Lemma probeNamespaceDetail_named md p d : (probeNamespaceDetail probe_size md p d).1.1 ∈ [BackendReflink; BackendHardlink; BackendCopy].
Proof.
  unfold probeNamespaceDetail, mbind, stateM_bind. destruct (os_mkdir_all p d) as [r d1].
  destruct (negb (fs_ok r)); [set_solver|]. destruct (ReflinkProbeDetail probe_size md p d1) as [[] d2];
    try set_solver; destruct (hardlinkProbe md p d2) as [[] d3]; set_solver.
Qed.
Lemma Select_named su e d :
  b_Name (Selected su e d).1.1 = (Selected su e d).1.2 ∧ (Selected su e d).1.2 ≠ ""%string.
Proof.
  unfold Select. destruct (WantZFS _ _ _); [by split|]. destruct (oneOf _ _) eqn:Ho.
  - split; [done|]. apply bool_decide_eq_true_1 in Ho. simpl in *. intros E. rewrite E in Ho. set_solver.
  - unfold mbind, stateM_bind. pose proof (probeNamespaceDetail_named (su_medium su (fs_path (se_Path e))) (fs_path (se_Path e)) d) as H.
    simpl in *. destruct (probeNamespaceDetail _ _ _ d) as [[name dg] d']. simpl in *. split; [done|]. set_solver.
Qed.
#[local] Instance inside_Select su e : Inside (fs_path (se_Path e)) scratch_names (Selected su e).
Proof. unfold Select. solve_inside. Qed.
#[local] Instance inside_WriteStorageMarker p m : Inside p [StorageMarkerName] (WriteStorageMarker sha256 p m).
Proof. unfold WriteStorageMarker. solve_inside. Qed.

(** What a resolution settles on, from the tree [n] and the id [old] of the name's row. *)
Definition settled (su : surroundings) (e : StorageEntry) (n : FS.node) (rows : gmap string StorageRow) (faultless : Prop)
    (out : StorageState * error) (r' : resolving) : Prop :=
  let p := fs_path (se_Path e) in
  let n' := d_root (rv_disk r') in
  let old := rows !! se_Name e ≫= st_StorageID in
  let st := out.1 in
  sd_rows (rv_store r') = rows ∧ (faultless → db_faults (sd_db (rv_store r')) = []) ∧
  match out.2, ss_Resolution st with
  | None, Some ResolutionOpened =>
      kept p n n' ∧
      ∃ m c sel, stat (p ++ [StorageMarkerName]) n = FOk (NFile c) ∧ parse_storage_marker sha256 c = SMOk m ∧
        ss_StorageID st = sm_StorageID m ∧ ss_Backend st = sm_Backend m ∧ ss_Verified st = true ∧
        rv_probed r' = Some sel ∧ sel.2 = sm_Backend m ∧ b_Name sel.1 = sel.2
  | None, Some ResolutionCreated =>
      licensed p n old ∧ same_but p (StorageMarkerName :: scratch_names) n n' ∧
      ∃ sel m, rv_probed r' = Some sel ∧ b_Name sel.1 = sel.2 ∧ ss_Backend st = sel.2 ∧ ss_StorageID st = su_newID su (se_Name e) ∧
        m = mkStorageMarker (ss_StorageID st) sel.2 (fmt_rfc3339 (su_now su)) (su_version su) "" ∧
        stat (p ++ [StorageMarkerName]) n' = FOk (NFile (CStorageMarker (with_storage_checksum m (storage_checksum sha256 m))))
  | err, _ =>
      (kept p n n' ∨ is_Some err ∧ licensed p n old ∧ same_but p (StorageMarkerName :: scratch_names) n n') ∧
      (∀ id, faultless → old = Some id → ss_StorageID st = id)
  end.

Lemma wp_on_disk {A} (m : stateM Disk A) Q r :
  Q (m (rv_disk r)).1 (mkResolving (m (rv_disk r)).2 (rv_store r) (rv_probed r)) → wp (on_disk m) Q r.
Proof. intros H. apply wp_lift. done. Qed.

Lemma wp_known name Q r :
  (∀ err st', sd_rows st' = sd_rows (rv_store r) → (db_faults (sd_db (rv_store r)) = [] → False) →
     Q (Err err) (mkResolving (rv_disk r) st' (rv_probed r))) →
  (∀ st', sd_rows st' = sd_rows (rv_store r) → (db_faults (sd_db (rv_store r)) = [] → db_faults (sd_db st') = []) →
     Q (Ok match sd_rows (rv_store r) !! name ≫= st_StorageID with
           | None => mkKnownStorage false "" | Some id => mkKnownStorage true id end)
       (mkResolving (rv_disk r) st' (rv_probed r))) →
  wp (known_storage name) Q r.
Proof.
  intros Herr Hok. unfold known_storage. apply wp_bind, wp_lift. unfold wp, GetStorage.
  pose proof (storage_statement_cases (λ rows, (rows !! name, rows)) (rv_store r)) as H.
  pose proof (storage_statement_sound (λ rows, (rows !! name, rows)) (rv_store r)) as Hs.
  destruct (storage_statement _ (rv_store r)) as [res st']. simpl in *.
  destruct H as [[-> Hr]|[-> Hr]]; [apply Herr; [done|]|].
  { intros F. by specialize (Hs F). }
  specialize (Hok st' Hr ltac:(intros F; specialize (Hs F); simplify_eq; done)). by destruct (sd_rows (rv_store r) !! name ≫= st_StorageID).
Qed.

Lemma ReadStorageMarker_root p d : d_root (ReadStorageMarker sha256 p d).2 = d_root d.
Proof. done. Qed.
Lemma ReadStorageMarker_ok p d m :
  (ReadStorageMarker sha256 p d).1 = SMOk m →
  ∃ c, stat (p ++ [StorageMarkerName]) (d_root d) = FOk (NFile c) ∧ parse_storage_marker sha256 c = SMOk m.
Proof.
  unfold ReadStorageMarker, read_file, sys_query, mbind, stateM_bind. simpl. destruct (d_fault d _); [done|].
  unfold sys_read_file. destruct (stat _ (d_root d)) as [[c|]| |]; simpl; try done. intros H. by exists c.
Qed.
Lemma ReadStorageMarker_absent p d es :
  stat p (d_root d) = FOk (NDir es) → (ReadStorageMarker sha256 p d).1 = SMAbsent → es !! StorageMarkerName = None.
Proof.
  intros Hs. unfold ReadStorageMarker, read_file, sys_query, mbind, stateM_bind. simpl. destruct (d_fault d _); [done|].
  unfold sys_read_file. rewrite (stat_app p [_] _ _ Hs), stat_1. destruct (es !! _) as [[c|]|]; simpl; try done.
  unfold parse_storage_marker. destruct c; try done. by case_match.
Qed.
Lemma reachable_true p d : (reachable p d).1 = true → ∃ es, stat p (d_root d) = FOk (NDir es).
Proof.
  unfold reachable, os_stat, sys_query, mbind, stateM_bind. destruct (d_fault d _); [done|].
  destruct (stat p (d_root d)) as [[]| |]; simpl; eauto; done.
Qed.
Lemma reachable_root p d : d_root (reachable p d).2 = d_root d.
Proof.
  unfold reachable, os_stat, sys_query, mbind, stateM_bind.
  destruct (if d_fault d _ then _ else _) as [[]| |]; done.
Qed.

(** A marker that was written reads back as it is. *)
Lemma WriteStorageMarker_written p m d es :
  stat p (d_root d) = FOk (NDir es) → (WriteStorageMarker sha256 p m d).1 = None →
  stat (p ++ [StorageMarkerName]) (d_root (WriteStorageMarker sha256 p m d).2) =
    FOk (NFile (CStorageMarker (with_storage_checksum m (storage_checksum sha256 m)))).
Proof.
  intros Hs. unfold WriteStorageMarker, mbind, stateM_bind.
  destruct (inside_remove p [StorageMarkerName] StorageMarkerName (TCElemOf_here _ _) d es Hs) as [H _].
  destruct (os_remove _ d) as [r1 d1]. simpl in *. apply same_but_dir in H as (_ & es1 & _ & Hs1 & _).
  unfold write_file, sys_change_at, sys_change. destruct (d_fault d1 (d_step d1)); simpl; [done|].
  unfold sys_write_file. rewrite (put_same_but _ _ _ _ _ Hs1).
  destruct (stat (p ++ _) (d_root d1)) as [[]| |]; simpl; try done; intros _;
    by rewrite (stat_graft p _ _ Hs1), stat_1, lookup_upd.
Qed.

Lemma wp_lazy_probe su e Q r :
  rv_probed r = None →
  Q (Selected su e (rv_disk r)).1.2 (mkResolving (Selected su e (rv_disk r)).2 (rv_store r) (Some (Selected su e (rv_disk r)).1)) →
  wp (lazy_probe probe_size marker_sha256 file_size host_run su e) Q r.
Proof.
  intros Hp HQ. unfold lazy_probe. apply wp_bind, wp_gets. rewrite Hp. apply wp_bind, wp_on_disk, wp_bind, wp_modify, wp_ret.
  simpl. by destruct (Selected su e (rv_disk r)) as [[b name] d'].
Qed.

Lemma kept_select su e d es :
  stat (fs_path (se_Path e)) (d_root d) = FOk (NDir es) →
  same_but (fs_path (se_Path e)) scratch_names (d_root d) (d_root (Selected su e d).2).
Proof. intros Hs. by apply (inside_Select su e d es Hs). Qed.

(** The two ends of a resolution that reach the probe. *)
Lemma open_settled su e m c id r n rows (Fp : Prop) :
  let p := fs_path (se_Path e) in
  rv_probed r = None → d_root (rv_disk r) = n → sd_rows (rv_store r) = rows → (Fp → db_faults (sd_db (rv_store r)) = []) →
  (∃ es, stat p n = FOk (NDir es)) → stat (p ++ [StorageMarkerName]) n = FOk (NFile c) → parse_storage_marker sha256 c = SMOk m →
  (∀ i, Fp → rows !! se_Name e ≫= st_StorageID = Some i → id = i) →
  wp (open_storage (se_Name e) (se_Path e) (lazy_probe probe_size marker_sha256 file_size host_run su e) id m)
    (settled su e n rows Fp) r.
Proof.
  intros p Hp Hn Hrows Hfl [es Hs] Hm Hc Hid. unfold open_storage. apply wp_bind, wp_lazy_probe; [done|].
  rewrite <-Hn in Hs. pose proof (kept_select su e (rv_disk r) es Hs) as Hk.
  destruct (Select_named su e (rv_disk r)) as [Hb Hne]. rewrite Hn in Hk. unfold Mismatch.
  rewrite (bool_decide_false (_ = ""%string)) by done. simpl. apply wp_ret. unfold settled. simpl. split; [done|]. split; [done|].
  case_bool_decide as He; simpl.
  - split; [by right|]. exists m, c. eexists. by split_and!.
  - split; [left; by right|]. done.
Qed.

Lemma create_settled su e r n rows (Fp : Prop) :
  let p := fs_path (se_Path e) in
  rv_probed r = None → d_root (rv_disk r) = n → sd_rows (rv_store r) = rows → (Fp → db_faults (sd_db (rv_store r)) = []) →
  licensed p n (rows !! se_Name e ≫= st_StorageID) →
  wp (create_storage sha256 (se_Name e) (se_Path e) (lazy_probe probe_size marker_sha256 file_size host_run su e)
        (su_now su) (su_version su) (su_newID su (se_Name e)))
    (settled su e n rows Fp) r.
Proof.
  intros p Hp Hn Hrows Hfl Hl. pose proof Hl as [Ho (es & Hs & Hm)]. unfold create_storage. apply wp_bind, wp_lazy_probe; [done|].
  rewrite <-Hn in Hs. pose proof (kept_select su e (rv_disk r) es Hs) as Hk.
  destruct (Select_named su e (rv_disk r)) as [Hb Hne]. rewrite Hn in Hk.
  rewrite bool_decide_false by done. apply wp_bind, wp_on_disk. simpl.
  destruct (Selected su e (rv_disk r)) as [[b name] d1] eqn:Hsel. simpl in *.
  pose proof (same_but_dir _ _ _ _ Hk) as (_ & es1 & _ & Hs1 & _).
  set (m := mkStorageMarker _ _ _ _ _). fold p.
  pose proof (inside_WriteStorageMarker p m d1 es1 Hs1) as [Hw _].
  pose proof (WriteStorageMarker_written p m d1 es1 Hs1) as Hwr.
  destruct (WriteStorageMarker sha256 p m d1) as [err d2]. simpl in *.
  assert (same_but p (StorageMarkerName :: scratch_names) n (d_root d2)) as Hall.
  { eapply same_but_trans; (eapply same_but_mono; [|done]); set_solver. }
  apply wp_ret. unfold settled. destruct err as [err|]; simpl; (split; [done|]); (split; [done|]).
  - split; [right; eauto|]. intros id _. by rewrite Ho.
  - split_and!; [done..|]. exists (b, name), m. split_and!; try done. by apply Hwr.
Qed.

Lemma ResolveStorage_settled su e r :
  rv_probed r = None →
  wp (ResolveStorage sha256 (se_Name e) (se_Path e) (lazy_probe probe_size marker_sha256 file_size host_run su e) (known_storage (se_Name e))
        (su_now su) (su_version su) (su_newID su (se_Name e)))
    (settled su e (d_root (rv_disk r)) (sd_rows (rv_store r)) (db_faults (sd_db (rv_store r)) = [])) r.
Proof.
  intros Hp. set (n := d_root (rv_disk r)). set (rows := sd_rows (rv_store r)). set (p := fs_path (se_Path e)).
  unfold ResolveStorage. apply wp_bind, wp_known.
  { intros err st' Hr Hf. apply wp_ret. unfold settled; simpl. split; [done|]. split; [by intros F; destruct Hf|]. split; [left; by left|]. intros id F. by destruct Hf. }
  intros st' Hr Hfl. fold rows in Hr |- *.
  set (id := if ks_Known _ then ks_StorageID _ else ""%string).
  assert (∀ i, db_faults (sd_db (rv_store r)) = [] → rows !! se_Name e ≫= st_StorageID = Some i → id = i) as Hid
    by (intros i _ Hi; unfold id; by rewrite Hi).
  apply wp_bind, wp_on_disk. cbn [rv_disk rv_store rv_probed]. fold p.
  pose proof (reachable_true p (rv_disk r)) as Ht. pose proof (reachable_root p (rv_disk r)) as Hroot.
  destruct (reachable p (rv_disk r)) as [[] d1]; simpl in *; [|by apply wp_ret; unfold settled; simpl; split_and!; [done..|left; by left|done]].
  specialize (Ht eq_refl) as [es Hs]. fold n in Hroot, Hs.
  apply wp_bind, wp_on_disk. cbn [rv_disk rv_store rv_probed]. fold p.
  pose proof (ReadStorageMarker_root p d1) as Hroot2. pose proof (ReadStorageMarker_ok p d1) as Hok.
  pose proof (ReadStorageMarker_absent p d1 es ltac:(by rewrite Hroot)) as Habs.
  destruct (ReadStorageMarker sha256 p d1) as [marker d2]. simpl in *. rewrite Hroot in Hroot2, Hok.
  destruct marker as [m| | |].
  - destruct (Hok m eq_refl) as (c & Hc & Hm).
    by apply (open_settled su e m c id (mkResolving d2 st' (rv_probed r)) n rows _ Hp Hroot2 Hr Hfl (ex_intro _ es Hs) Hc Hm Hid).
  - destruct (rows !! se_Name e ≫= st_StorageID) as [i|] eqn:Hi; simpl.
    + apply wp_ret. unfold settled; simpl. split_and!; [done..|left; by left|]. intros j _ E. congruence.
    + apply (create_settled su e (mkResolving d2 st' (rv_probed r)) n rows _ Hp Hroot2 Hr Hfl). unfold licensed. eauto.
  - apply wp_ret. unfold settled; simpl. by split_and!; [done..|left; by left|].
  - apply wp_ret. unfold settled; simpl. by split_and!; [done..|left; by left|].
Qed.

(** What one declared storage becomes, whatever fails. *)
Definition one_slot (e : StorageEntry) (r r' : resolving) (slot : Slot Disk) : Prop :=
  let p := fs_path (se_Path e) in
  let n := d_root (rv_disk r) in
  let n' := d_root (rv_disk r') in
  let rows := sd_rows (rv_store r) in
  let rows' := sd_rows (rv_store r') in
  let old := rows !! se_Name e ≫= st_StorageID in
  (s_Name slot = se_Name e ∧ s_Root slot = p ∧ s_Retention slot = retentionOf e) ∧
  (kept p n n' ∨ licensed p n old ∧ same_but p (StorageMarkerName :: scratch_names) n n') ∧
  (rows' = rows ∧ Usable slot = false ∧
     (∀ id, db_faults (sd_db (rv_store r)) = [] → old = Some id → s_StorageID slot = id) ∨
   ∃ row b, rows' = <[se_Name e := upsert_row row (rows !! se_Name e)]> rows ∧
     st_Name row = se_Name e ∧ st_StorageID row = Some (s_StorageID slot) ∧ st_Backend row = Some (s_BackendName slot) ∧
     usable_backend slot = Some b ∧ b_Name b = s_BackendName slot ∧
     ∃ m c, stat (p ++ [StorageMarkerName]) n' = FOk (NFile c) ∧ parse_storage_marker sha256 c = SMOk m ∧
       sm_StorageID m = s_StorageID slot ∧ sm_Backend m = s_BackendName slot).

Lemma storage_exec_cases f d :
  is_Some (storage_exec f d).1 ∧ sd_rows (storage_exec f d).2 = sd_rows d ∨
  (storage_exec f d).1 = None ∧ sd_rows (storage_exec f d).2 = f (sd_rows d).
Proof.
  unfold storage_exec, mbind, stateM_bind. pose proof (storage_statement_cases (λ rows, (tt, f rows)) d) as H.
  destruct (storage_statement _ d) as [r d']. simpl in *. destruct H as [[-> ?]|[-> ?]]; simpl; eauto.
Qed.
Lemma storage_exec_sound f d :
  db_faults (sd_db d) = [] → storage_exec f d = (None, mkStorageDB (f (sd_rows d)) (sd_db d)).
Proof. intros H. unfold storage_exec, mbind, stateM_bind. by rewrite storage_statement_sound. Qed.

Lemma unreachable_unusable e id code reason : Usable (unreachable_slot e id code reason) = false.
Proof. done. Qed.

(** The end of a resolution that is not refused: the row is written. *)
Lemma record_one su e st b name r r1 :
  let p := fs_path (se_Path e) in
  let rows := sd_rows (rv_store r) in
  let n := d_root (rv_disk r) in
  let n' := d_root (rv_disk r1) in
  sd_rows (rv_store r1) = rows → (db_faults (sd_db (rv_store r)) = [] → db_faults (sd_db (rv_store r1)) = []) →
  (kept p n n' ∨ licensed p n (rows !! se_Name e ≫= st_StorageID) ∧ same_but p (StorageMarkerName :: scratch_names) n n') →
  ss_Backend st = name → b_Name b = name →
  (∃ m c, stat (p ++ [StorageMarkerName]) n' = FOk (NFile c) ∧ parse_storage_marker sha256 c = SMOk m ∧
     sm_StorageID m = ss_StorageID st ∧ sm_Backend m = name) →
  wp (up ← on_store (UpsertStorage (seen_row su e st));
      mret (match up with
            | Some err => unreachable_slot e (ss_StorageID st) "path_unreachable" ("quince could not record this storage's identity: " +:+ err)
            | None => mkSlot (ss_StorageID st) (se_Name e) (fs_path (se_Path e)) (Some b) name (retentionOf e) true "" ""
            end)) (λ slot r', one_slot e r r' slot) r1.
Proof.
  intros p rows n n' Hrows Hfl Hdisk Hb Hname Hm. apply wp_bind. apply wp_lift. unfold UpsertStorage, wp.
  pose proof (storage_exec_cases (λ rows, <[st_Name (seen_row su e st) := upsert_row (seen_row su e st) (rows !! st_Name (seen_row su e st))]> rows)
    (rv_store r1)) as H.
  pose proof (storage_exec_sound (λ rows, <[st_Name (seen_row su e st) := upsert_row (seen_row su e st) (rows !! st_Name (seen_row su e st))]> rows)
    (rv_store r1)) as Hs.
  destruct (storage_exec _ (rv_store r1)) as [up st']. simpl in *. rewrite Hrows in H. unfold one_slot. simpl.
  destruct H as [[[err ->] Hr]|[-> Hr]]; simpl; (split; [done|]); (split; [done|]).
  - left. split_and!; [done..|]. intros id F. by specialize (Hs (Hfl F)).
  - right. exists (seen_row su e st), b. split_and!; try done. simpl. by rewrite Hb.
Qed.

Lemma refused_one e st code reason r r1 (oops : Prop) :
  let p := fs_path (se_Path e) in
  let old := sd_rows (rv_store r) !! se_Name e ≫= st_StorageID in
  sd_rows (rv_store r1) = sd_rows (rv_store r) →
  (kept p (d_root (rv_disk r)) (d_root (rv_disk r1)) ∨
   oops ∧ licensed p (d_root (rv_disk r)) old ∧ same_but p (StorageMarkerName :: scratch_names) (d_root (rv_disk r)) (d_root (rv_disk r1))) ∧
  (∀ id, db_faults (sd_db (rv_store r)) = [] → old = Some id → ss_StorageID st = id) →
  wp (mret (unreachable_slot e (ss_StorageID st) code reason)) (λ slot r', one_slot e r r' slot) r1.
Proof.
  intros p old Hrows [Hk Hid]. apply wp_ret. unfold one_slot. split; [done|]. split; [naive_solver|]. left. by split_and!.
Qed.

Lemma resolveSlot_one su e r :
  (∀ m, sha256 m ≠ ""%string) → wp (Resolve su e) (λ slot r', one_slot e r r' slot) r.
Proof.
  intros Hsha. unfold resolveSlot. apply wp_bind, wp_modify, wp_bind.
  eapply wp_mono; [by apply ResolveStorage_settled|]. simpl. intros [st err] r1 (Hrows & Hfl & H). simpl in *.
  destruct err as [err|]; [by eapply refused_one|].
  destruct (ss_Resolution st) as [[]|]; try (by eapply refused_one); simpl; apply wp_bind, wp_gets.
  - destruct H as (Hl & Hk & [b name] & m & -> & Hb & Hbk & Hid & -> & Hm). simpl in *.
    eapply record_one; [done..|by right|done|done|]. do 2 eexists. split; [done|].
    split; [apply parse_written_storage_marker, Hsha|]. split; [done|done].
  - destruct H as (Hk & m & c & [b name] & Hm & Hc & Hid & Hbk & _ & -> & Hn & Hb). simpl in *. subst.
    eapply record_one; [done..|by left|done|done|]. exists m, c. by rewrite (kept_marker _ _ _ Hk).
Qed.

(** ** Runs *)

(** A storage is resolved; disks are plugged in, unplugged and fail; the database fails; a storage is
    forgotten. *)
Inductive occurrence : Type :=
  | Resolves (su : surroundings) (e : StorageEntry)
  | Disks (d : Disk)
  | Answers (faults : list bool)
  | Forgets (name : string).

Definition occur (o : occurrence) (r : resolving) : resolving :=
  match o with
  | Resolves su e => (Resolve su e r).2
  | Disks d => mkResolving d (rv_store r) (rv_probed r)
  | Answers faults =>
      let db := sd_db (rv_store r) in
      mkResolving (rv_disk r) (mkStorageDB (sd_rows (rv_store r)) (mkDB (db_jobs db) (db_versions db) (db_audit db) faults)) (rv_probed r)
  | Forgets name => (on_store (DeleteStorage name) r).2
  end.
Definition history (os : list occurrence) (r : resolving) : resolving := foldl (flip occur) r os.

Definition id_of (name : string) (r : resolving) : option string := sd_rows (rv_store r) !! name ≫= st_StorageID.

Lemma upsert_id row old : st_StorageID (upsert_row row old) = coalesce (old ≫= st_StorageID) (st_StorageID row).
Proof. done. Qed.

Lemma one_slot_id e r r' slot name id : one_slot e r r' slot → id_of name r = Some id → id_of name r' = Some id.
Proof.
  unfold id_of. intros (_ & _ & [(-> & _)|(row & b & -> & _)]) Hid; [done|].
  destruct (decide (se_Name e = name)) as [->|Hne]; [|by rewrite lookup_insert_ne].
  rewrite lookup_insert_eq. simpl. by rewrite Hid.
Qed.

Lemma occur_id o r name id :
  (∀ m, sha256 m ≠ ""%string) → o ≠ Forgets name → id_of name r = Some id → id_of name (occur o r) = Some id.
Proof.
  intros Hsha Hne Hid. destruct o as [su e|d|faults|other]; [|done|done|].
  - simpl. pose proof (resolveSlot_one su e r Hsha) as H. unfold wp in H. by eapply one_slot_id.
  - unfold id_of in *. simpl. unfold on_store, lift_state, DeleteStorage.
    pose proof (storage_exec_cases (delete other) (rv_store r)) as H. destruct (storage_exec _ _) as [x st']. simpl in *.
    destruct H as [[_ ->]|[_ ->]]; [done|]. rewrite lookup_delete_ne; [done|]. intros ->. done.
Qed.
Lemma history_id os r name id :
  (∀ m, sha256 m ≠ ""%string) → Forgets name ∉ os → id_of name r = Some id → id_of name (history os r) = Some id.
Proof.
  intros Hsha. revert r. induction os as [|o os IH]; intros r Hn Hid; [done|]. apply not_elem_of_cons in Hn as [Hne Hn].
  simpl. apply IH; [done|]. by apply occur_id.
Qed.

(** C25: a storage is created once.  Whatever happened before - storages resolved, disks plugged in and
    unplugged with any contents, calls and statements failing -, resolving a declared storage changes
    nothing on the disk but its own directory's marker and the probe's own files; a marker that is
    there is never written over; a name that had an id, and was not forgotten since, keeps it, is
    refused a marker wherever its path leads now, and is reported under that id when it is refused and
    the database answers; a storage that is served has its marker on the disk, with its id and the
    backend that serves it, and its row in the table. *)
Theorem storage_created_once su e os r0 :
  (∀ m, sha256 m ≠ ""%string) →
  let r := history os r0 in
  let '(slot, r') := Resolve su e r in
  let p := fs_path (se_Path e) in
  let n := d_root (rv_disk r) in
  let n' := d_root (rv_disk r') in
  (n' = n ∨ same_but p (StorageMarkerName :: scratch_names) n n') ∧
  (stat (p ++ [StorageMarkerName]) n ≠ FAbsent → stat (p ++ [StorageMarkerName]) n' = stat (p ++ [StorageMarkerName]) n) ∧
  (∀ id, id_of (se_Name e) r0 = Some id → Forgets (se_Name e) ∉ os →
     id_of (se_Name e) r' = Some id ∧ stat (p ++ [StorageMarkerName]) n' = stat (p ++ [StorageMarkerName]) n ∧
     (Usable slot = false → db_faults (sd_db (rv_store r)) = [] → s_StorageID slot = id)) ∧
  (Usable slot = true →
     is_Some (id_of (se_Name e) r') ∧
     ∃ b m c, usable_backend slot = Some b ∧ b_Name b = s_BackendName slot ∧
       stat (p ++ [StorageMarkerName]) n' = FOk (NFile c) ∧ parse_storage_marker sha256 c = SMOk m ∧
       sm_StorageID m = s_StorageID slot ∧ sm_Backend m = s_BackendName slot).
Proof.
  intros Hsha r. pose proof (resolveSlot_one su e r Hsha) as H. unfold wp in H.
  destruct (Resolve su e r) as [slot r']. simpl in H. set (p := fs_path (se_Path e)) in *.
  pose proof H as (Hslot & Hdisk & Hend). split_and!.
  - destruct Hdisk as [[->|Hk]|[_ Hk]]; [by left|right|by right]. eapply same_but_mono; [|done]. set_solver.
  - intros Hm. destruct Hdisk as [Hk|[(_ & es & Hs & Hn) _]]; [by apply kept_marker|].
    destruct Hm. by rewrite (stat_app _ _ _ _ Hs), stat_1, Hn.
  - intros id Hid Hos. pose proof (history_id os r0 _ id Hsha Hos Hid) as Hr. split_and!.
    + by eapply one_slot_id.
    + destruct Hdisk as [Hk|[[Hnone _] _]]; [by apply kept_marker|]. unfold id_of in Hr. fold r in Hr. by rewrite Hr in Hnone.
    + intros Hu Hf. destruct Hend as [(_ & _ & E)|(row & b & _ & _ & _ & _ & Hb & _)]; [by apply E|].
      unfold Usable in Hu. rewrite Hb in Hu. done.
  - intros Hu. destruct Hend as [(_ & E & _)|(row & b & Hrows & _ & Hid & _ & Hb & Hn & m & c & Hm)]; [by rewrite E in Hu|].
    split; [|by exists b, m, c]. unfold id_of. rewrite Hrows, lookup_insert_eq. simpl. rewrite Hid.
    destruct (sd_rows (rv_store r) !! se_Name e ≫= st_StorageID); simpl; eauto.
Qed.

(** ** The decision as a table *)

(** What is found at a storage's path. *)
Inductive finding : Type := NoDirectory | NoMarker | BadMarker | UnreadableMarker | GoodMarker (m : StorageMarker).
Definition found_at (p : path) (n : FS.node) : finding :=
  match stat p n with
  | FOk (NDir es) =>
      match es !! StorageMarkerName with
      | None => NoMarker
      | Some (NDir _) => UnreadableMarker
      | Some (NFile c) => match parse_storage_marker sha256 c with SMOk m => GoodMarker m | _ => BadMarker end
      end
  | _ => NoDirectory
  end.

(** The backend that an entry names, if it names one. *)
Definition declared_backend (e : StorageEntry) : option string :=
  if WantZFS (se_Backend e) (z_ParentDataset (se_ZFS e)) (Nat.ltb 0 (length (SSHArgv (se_ZFS e)))) then Some BackendZFS
  else if oneOf (se_Backend e) [BackendReflink; BackendHardlink; BackendCopy] then Some (se_Backend e) else None.

(** Served under an id and with a marker written or not, or refused with a code. *)
Inductive verdict : Type := Served (id : string) (created : bool) | Refused (code : string).
Definition verdict_of (f : finding) (known : option string) (backend newID : string) : verdict :=
  match f with
  | NoDirectory | UnreadableMarker => Refused "path_unreachable"
  | BadMarker => Refused "corrupt_marker"
  | GoodMarker m => if bool_decide (backend = sm_Backend m) then Served (sm_StorageID m) false else Refused "backend_mismatch"
  | NoMarker => match known with Some _ => Refused "missing_medium" | None => Served newID true end
  end.

Lemma Select_declared su e backend d :
  declared_backend e = Some backend → ∃ b, Selected su e d = ((b, backend), d) ∧ b_Name b = backend.
Proof.
  unfold declared_backend, Select. simpl. destruct (WantZFS _ _ _); [intros [= <-]; eauto|].
  destruct (oneOf _ _); [|done]. intros [= <-]. eauto.
Qed.

Lemma known_sound name r :
  db_faults (sd_db (rv_store r)) = [] →
  known_storage name r =
    (Ok match id_of name r with None => mkKnownStorage false "" | Some id => mkKnownStorage true id end, r).
Proof.
  intros Hf. unfold known_storage, on_store, lift_state, GetStorage, mbind, stateM_bind. rewrite storage_statement_sound by done.
  simpl. unfold id_of. destruct r as [d [rows db] pr]. simpl. by destruct (rows !! name) as [[? [] ? ? ? ?]|].
Qed.

Lemma reachable_sound p d :
  sound d → ∃ d', reachable p d = (is_dir (get p (d_root d)), d') ∧ d_root d' = d_root d ∧ sound d'.
Proof.
  intros Hd. unfold reachable, os_stat, sys_query, mbind, stateM_bind, get. rewrite Hd.
  destruct (stat p (d_root d)) as [[c|es]| |] eqn:Hs; simpl; [by eexists|rewrite Hd, Hs; by eexists|by eexists..].
Qed.

Lemma Read_sound p d es :
  sound d → stat p (d_root d) = FOk (NDir es) →
  ∃ d', ReadStorageMarker sha256 p d =
    (match found_at p (d_root d) with GoodMarker m => SMOk m | BadMarker => SMCorrupt | UnreadableMarker => SMError | _ => SMAbsent end, d') ∧
    d_root d' = d_root d ∧ sound d'.
Proof.
  intros Hd Hs. unfold ReadStorageMarker, read_file, sys_query, mbind, stateM_bind, found_at, sys_read_file. rewrite Hd, Hs.
  rewrite (stat_app p [_] _ _ Hs), stat_1. destruct (es !! StorageMarkerName) as [[c|]|]; simpl; [|by eexists..].
  destruct c as [| | | | |m]; simpl; try by eexists. destruct (_ || _); by eexists.
Qed.

Lemma Write_sound p m d es :
  sound d → stat p (d_root d) = FOk (NDir es) → es !! StorageMarkerName = None →
  ∃ d', WriteStorageMarker sha256 p m d = (None, d') ∧
    d_root d' = graft p (d_root d) (upd StorageMarkerName (Some (NFile (CStorageMarker (with_storage_checksum m (storage_checksum sha256 m))))) es).
Proof.
  intros Hd Hs Hn. unfold WriteStorageMarker, os_remove, sys_change, sys_remove, mbind, stateM_bind. rewrite Hd.
  rewrite (stat_app p [_] _ _ Hs), stat_1, Hn. simpl. unfold write_file, sys_change_at, sys_change, sys_write_file. simpl.
  rewrite Hd, (stat_app p [_] _ _ Hs), stat_1, Hn, (put_same_but _ _ _ _ _ Hs). simpl. by eexists.
Qed.

(** The step after the check of the marker, in the three ways in which a storage may go on. *)
Definition exact_slot (su : surroundings) (e : StorageEntry) (backend : string) (n : FS.node) (rows : gmap string StorageRow) (v : verdict)
    (slot : Slot Disk) (r' : resolving) : Prop :=
  let p := fs_path (se_Path e) in
  let known := rows !! se_Name e ≫= st_StorageID in
  let n' := d_root (rv_disk r') in
  match v with
  | Refused code =>
      Usable slot = false ∧ s_UnreachableCode slot = code ∧ (∀ id, known = Some id → s_StorageID slot = id) ∧
      n' = n ∧ sd_rows (rv_store r') = rows
  | Served id created =>
      Usable slot = true ∧ s_StorageID slot = id ∧ s_BackendName slot = backend ∧
      (∀ other, other ≠ se_Name e → sd_rows (rv_store r') !! other = rows !! other) ∧ id_of (se_Name e) r' = Some (default id known) ∧
      if created then
        ∃ es m, stat p n = FOk (NDir es) ∧ n' = graft p n (upd StorageMarkerName (Some (NFile (CStorageMarker m))) es) ∧
          sm_StorageID m = id ∧ sm_Backend m = backend ∧ parse_storage_marker sha256 (CStorageMarker m) = SMOk m
      else n' = n
  end.

Lemma record_exact su e st b backend r :
  db_faults (sd_db (rv_store r)) = [] →
  ∃ r', (up ← on_store (UpsertStorage (seen_row su e st));
      mret (match up with
            | Some err => unreachable_slot e (ss_StorageID st) "path_unreachable" ("quince could not record this storage's identity: " +:+ err)
            | None => mkSlot (ss_StorageID st) (se_Name e) (fs_path (se_Path e)) (Some b) backend (retentionOf e) true "" ""
            end)) r = (mkSlot (ss_StorageID st) (se_Name e) (fs_path (se_Path e)) (Some b) backend (retentionOf e) true "" "", r') ∧
    rv_disk r' = rv_disk r ∧
    (∀ other, other ≠ se_Name e → sd_rows (rv_store r') !! other = sd_rows (rv_store r) !! other) ∧
    id_of (se_Name e) r' = Some (default (ss_StorageID st) (id_of (se_Name e) r)).
Proof.
  intros Hf. unfold on_store, lift_state, UpsertStorage, mbind, stateM_bind. rewrite storage_exec_sound by done. simpl.
  eexists. split; [done|]. simpl. split; [done|]. split.
  - intros other Hne. by rewrite lookup_insert_ne.
  - unfold id_of. simpl. rewrite lookup_insert_eq. simpl. by destruct (sd_rows (rv_store r) !! se_Name e ≫= st_StorageID).
Qed.

Lemma wp_eq {S A} (m : stateM S A) Q s a s' : m s = (a, s') → Q a s' → wp m Q s.
Proof. unfold wp. by intros ->. Qed.
Lemma on_disk_eq {A} (m : stateM Disk A) d d' st pr a :
  m d = (a, d') → on_disk m (mkResolving d st pr) = (a, mkResolving d' st pr).
Proof. unfold on_disk, lift_state. simpl. by intros ->. Qed.

(** C29: what a declared storage becomes is a table.  For an entry that names its backend, while disk
    and database answer: the directory, its marker, the id that the name has, and the backend decide
    whether the storage is served and under which id, or with which code it is refused; a refusal
    reports the known id and changes neither the disk nor the table; a storage that is opened leaves
    the disk as it was; one that is created adds exactly its marker, which reads back. *)
Theorem resolve_exact su e r backend :
  (∀ m, sha256 m ≠ ""%string) → sound (rv_disk r) → db_faults (sd_db (rv_store r)) = [] → declared_backend e = Some backend →
  let n := d_root (rv_disk r) in
  let '(slot, r') := Resolve su e r in
  exact_slot su e backend n (sd_rows (rv_store r))
    (verdict_of (found_at (fs_path (se_Path e)) n) (id_of (se_Name e) r) backend (su_newID su (se_Name e))) slot r'.
Proof.
  intros Hsha Hd Hf Hb n.
  enough (wp (Resolve su e) (exact_slot su e backend n (sd_rows (rv_store r))
    (verdict_of (found_at (fs_path (se_Path e)) n) (id_of (se_Name e) r) backend (su_newID su (se_Name e)))) r) as H.
  { unfold wp in H. by destruct (Resolve su e r). }
  set (p := fs_path (se_Path e)). destruct r as [d st pr]. simpl in *. set (known := id_of (se_Name e) _).
  unfold resolveSlot, ResolveStorage. apply wp_bind, wp_modify, wp_bind, wp_bind. cbn [rv_disk rv_store].
  eapply wp_eq; [by apply known_sound|]. change (id_of _ _) with known. cbn beta iota zeta.
  set (id := if ks_Known _ then ks_StorageID _ else ""%string).
  assert (∀ i, known = Some i → id = i) as Hid by (intros i Hi; unfold id; by rewrite Hi).
  apply wp_bind. fold p. destruct (reachable_sound p d Hd) as (d1 & E1 & Hr1 & Hd1).
  eapply wp_eq; [by apply on_disk_eq|]. unfold get. fold n.
  destruct (stat p n) as [[c|es]| |] eqn:Hs; cbn [is_dir negb].
  1,3,4: unfold found_at; fold n; rewrite Hs; by apply wp_ret, wp_ret.
  apply wp_bind. fold p. fold n in Hr1. rewrite <-Hr1 in Hs. destruct (Read_sound p d1 es Hd1 Hs) as (d2 & E2 & Hr2 & Hd2).
  eapply wp_eq; [by apply on_disk_eq|]. rewrite Hr1 in Hs, Hr2. rewrite Hr1.
  destruct (Select_declared su e backend d2 Hb) as (b & Hsel & Hbn). pose proof (Select_named su e d2) as [_ Hne]. rewrite Hsel in Hne.
  simpl in Hne. unfold found_at. fold p. rewrite Hs.
  destruct (es !! StorageMarkerName) as [[c|es']|] eqn:Hm; [|by apply wp_ret, wp_ret|].
  - destruct (parse_storage_marker sha256 c) as [m| | |] eqn:Hc; [|by apply wp_ret, wp_ret..].
    unfold open_storage. apply wp_bind, wp_lazy_probe; [done|]. cbn [rv_disk rv_store]. rewrite Hsel. cbn [fst snd].
    unfold Mismatch. rewrite (bool_decide_false (backend = ""%string)) by done. simpl. destruct (bool_decide (backend = sm_Backend m)) eqn:Hbm.
    + apply wp_ret. simpl. apply wp_bind, wp_gets. simpl. unfold exact_slot.
      set (st1 := mkStorageState _ _ _ _ _ _ _). set (r2 := mkResolving d2 st (Some (b, backend))).
      destruct (record_exact su e st1 b backend r2 Hf) as (r' & E & Hdisk & Hother & Hown).
      eapply wp_eq; [exact E|]. simpl. split_and!; [done..| |by rewrite Hdisk].
      rewrite Hown. done.
    + apply wp_ret, wp_ret. done.
  - unfold known in *. destruct (id_of (se_Name e) _) as [k|] eqn:Hk; cbn [ks_Known ks_StorageID].
    { apply wp_ret, wp_ret. split_and!; try done. intros i Hi. unfold id_of in Hk. cbn in Hk |- *. congruence. }
    unfold create_storage. apply wp_bind, wp_lazy_probe; [done|]. cbn [rv_disk rv_store]. rewrite Hsel. cbn [fst snd].
    rewrite bool_decide_false by done. apply wp_bind. fold p.
    set (m := mkStorageMarker _ _ _ _ _). rewrite <-Hr2 in Hs.
    destruct (Write_sound p m d2 es Hd2 Hs Hm) as (d3 & E3 & Hr3). rewrite Hr2 in Hr3.
    eapply wp_eq; [by apply on_disk_eq|]. apply wp_ret. simpl. apply wp_bind, wp_gets. simpl. unfold exact_slot.
    set (st1 := mkStorageState _ _ _ _ _ _ _). set (r2 := mkResolving d3 st (Some (b, backend))).
    destruct (record_exact su e st1 b backend r2 Hf) as (r' & E & Hdisk & Hother & Hown).
    eapply wp_eq; [exact E|]. simpl. split_and!; [done..| |].
    + rewrite Hown. done.
    + exists es, (with_storage_checksum m (storage_checksum sha256 m)).
      split_and!; [by rewrite <-Hr2|by rewrite Hdisk|done..|exact (parse_written_storage_marker sha256 m (Hsha _))].
Qed.
End resolve.

(** ** The declared list *)

(** What a slot takes from its declaration. *)
Definition slot_key (s : Slot Disk) : string * path * RetentionPolicy := (s_Name s, s_Root s, s_Retention s).
Definition entry_key (e : StorageEntry) : string * path * RetentionPolicy := (se_Name e, fs_path (se_Path e), retentionOf e).
Definition follows (s : Subsystem) : Prop := slot_key <$> mg_slots (sb_mgr s) = entry_key <$> declaredStorages (sb_entries s).

Section declared.
Context (sha256 : StorageMarker → string) (probe_size : nat) (marker_sha256 : Marker → string) (file_size : content → Z).
Context (host_run : list string → FS.node → (string * bool) * FS.node) (capacityOf : Slot Disk → result (Z * Z)).
Context (sha256_ne : ∀ m, sha256 m ≠ ""%string).
#[local] Abbreviation Resolve := (resolveSlot sha256 probe_size marker_sha256 file_size host_run).

#[local] Abbreviation Do := (storage_do sha256 probe_size marker_sha256 file_size host_run capacityOf).
#[local] Abbreviation Run := (storage_run sha256 probe_size marker_sha256 file_size host_run capacityOf).
#[local] Abbreviation declared g := (declaredStorages (sb_entries (sg_sub g))).
#[local] Abbreviation slots g := (mg_slots (sb_mgr (sg_sub g))).


(** A recheck of the storage has probed it and not written yet. *)
Definition rechecked (name : string) (r : recheck_place) : Prop :=
  match r with Probed n (Some _) => n = name | _ => False end.
#[export] Instance rechecked_dec name r : Decision (rechecked name r).
Proof. destruct r as [|n []]; simpl; apply _. Defined.
(** No edit that is saved then declares the storage otherwise. *)
Definition alone_step (name : string) (o : storage_op) (g : Serving) : Prop :=
  match o, sg_edit g with
  | EditSaves next, NoEdit =>
      map_Forall (λ _ r, rechecked name r → first_named name (declaredStorages next) = first_named name (declared g)) (sg_rechecks g)
  | _, _ => True
  end.
Fixpoint left_alone (name : string) (ops : list storage_op) (g : Serving) : Prop :=
  match ops with [] => True | o :: ops => alone_step name o g ∧ left_alone name ops (Do o g) end.
#[export] Instance alone_step_dec name o g : Decision (alone_step name o g).
Proof. unfold alone_step. destruct o, (sg_edit g); apply _. Defined.
#[export] Instance left_alone_dec name ops g : Decision (left_alone name ops g).
Proof. revert g. induction ops; intros g; simpl; apply _. Defined.

Lemma resolveSlot_key su e r : slot_key (Resolve su e r).1 = entry_key e.
Proof.
  pose proof (resolveSlot_one sha256 probe_size marker_sha256 file_size host_run su e r sha256_ne) as H. unfold wp in H.
  destruct H as ((H1 & H2 & H3) & _). unfold slot_key, entry_key. by rewrite H1, H2, H3.
Qed.
Lemma resolve_all_keys su l r :
  slot_key <$> (resolve_all sha256 probe_size marker_sha256 file_size host_run su l r).1 = entry_key <$> l.
Proof.
  revert r. induction l as [|e l IH]; intros r; [done|]. simpl. unfold mbind, stateM_bind.
  pose proof (resolveSlot_key su e r) as He. destruct (Resolve su e r) as [slot r1]. specialize (IH r1).
  destruct (resolve_all _ _ _ _ _ su l r1) as [slots r2]. simpl in *. by apply (f_equal2 cons).
Qed.




Lemma build_keys su s :
  let s' := (buildStorage sha256 probe_size marker_sha256 file_size host_run su s).2 in
  sb_entries s' = sb_entries s ∧ slot_key <$> mg_slots (sb_mgr s') = entry_key <$> declaredStorages (sb_entries s).
Proof.
  unfold buildStorage, in_resolving, in_mgr, lift_state, mbind, stateM_bind. simpl.
  pose proof (resolve_all_keys su (declaredStorages (sb_entries s)) (resolving_of s)) as H.
  by destruct (resolve_all _ _ _ _ _ _ _ _) as [sl r].
Qed.
Lemma resolve_changed_keys su old next s :
  let '(rebuilt, s') := resolve_changed sha256 probe_size marker_sha256 file_size host_run su old next s in
  sb_entries s' = sb_entries s ∧ mg_slots (sb_mgr s') = mg_slots (sb_mgr s) ∧
  match rebuilt with
  | None => declaredStorages old = declaredStorages next
  | Some l => slot_key <$> l = entry_key <$> declaredStorages next
  end.
Proof.
  unfold resolve_changed, sameStorageDeclaration. case_bool_decide as He; [done|].
  unfold in_resolving, lift_state, mbind, stateM_bind. simpl.
  pose proof (resolve_all_keys su (declaredStorages next) (resolving_of s)) as H. by destruct (resolve_all _ _ _ _ _ _ _ _) as [sl r].
Qed.
Lemma ApplyStorages_slots rebuilt s :
  rebuilt ≠ [] → sb_entries (in_mgr (ApplyStorages rebuilt) s).2 = sb_entries s ∧
  mg_slots (sb_mgr (in_mgr (ApplyStorages rebuilt) s).2) = rebuilt.
Proof. by destruct rebuilt. Qed.

Lemma starts_follow su s : follows (buildStorage sha256 probe_size marker_sha256 file_size host_run su s).2.
Proof. unfold follows. destruct (build_keys su s) as [-> ->]. done. Qed.
(** An edit with nothing in between. *)
Lemma edit_follows su next s :
  declaredStorages next ≠ [] → follows s → follows (apply_configuration sha256 probe_size marker_sha256 file_size host_run su next s).2.
Proof.
  intros Hne Hs. unfold apply_configuration, storage_applier, mbind, stateM_bind. simpl.
  pose proof (resolve_changed_keys su (sb_entries s) next (set_entries next s)) as H.
  destruct (resolve_changed _ _ _ _ _ _ _ _ _) as [[l|] s1]; destruct H as (He & Hm & H); simpl in *; unfold follows in *.
  - assert (l ≠ []) as Hl by (intros ->; by destruct (declaredStorages next)). pose proof (ApplyStorages_slots l s1 Hl) as [E1 E2].
    destruct (in_mgr (ApplyStorages l) s1) as [w s2]. simpl in *. by rewrite E1, E2, He.
  - by rewrite He, Hm, <-H.
Qed.




End declared.

(** ** Forgetting *)

Lemma same_tables_trans d1 d2 d3 : same_tables d1 d2 → same_tables d2 d3 → same_tables d1 d3.
Proof. unfold same_tables. intros (? & ? & ?) (? & ? & ?). split_and!; congruence. Qed.

(** Resolving touches no version and no job. *)
Class Tables {A} (m : stateM resolving A) : Prop := tables : ∀ r, same_tables (sd_db (rv_store r)) (sd_db (rv_store (m r).2)).
#[local] Instance tables_ret {A} (a : A) : Tables (mret a).
Proof. done. Qed.
#[local] Instance tables_bind {A B} (m : stateM resolving A) (f : A → stateM resolving B) :
  Tables m → (∀ a, Tables (f a)) → Tables (m ≫= f).
Proof.
  intros Hm Hf r. specialize (Hm r). unfold mbind, stateM_bind. destruct (m r) as [a r1]. specialize (Hf a r1). simpl in *.
  by eapply same_tables_trans.
Qed.
#[local] Instance tables_gets {A} (f : resolving → A) : Tables (gets f).
Proof. done. Qed.
#[local] Instance tables_on_disk {A} (m : stateM Disk A) : Tables (on_disk m).
Proof. intros r. unfold on_disk, lift_state. by destruct (m (rv_disk r)). Qed.
#[local] Instance tables_probed sel : Tables (modify (λ r, mkResolving (rv_disk r) (rv_store r) sel)).
Proof. done. Qed.
#[local] Instance tables_statement {A} (f : gmap string StorageRow → A * gmap string StorageRow) : Tables (on_store (storage_statement f)).
Proof.
  intros r. unfold on_store, lift_state. pose proof (storage_statement_tables f (rv_store r)) as H.
  by destruct (storage_statement f (rv_store r)).
Qed.
#[local] Instance tables_exec f : Tables (on_store (storage_exec f)).
Proof.
  intros r. unfold on_store, lift_state, storage_exec, mbind, stateM_bind.
  pose proof (storage_statement_tables (λ rows, (tt, f rows)) (rv_store r)) as H. by destruct (storage_statement _ (rv_store r)).
Qed.
Ltac solve_tables := repeat (intros; cbv beta zeta; first [ solve [apply _] | apply tables_bind | progress case_match ]).

Section forget.
Context `{Hyaml : !Yaml} `{Hsort : !SortSlice}.
Context (sha256 : StorageMarker → string) (probe_size : nat) (marker_sha256 : Marker → string) (file_size : content → Z).
Context (host_run : list string → FS.node → (string * bool) * FS.node) (capacityOf : Slot Disk → result (Z * Z)).
Context (sha256_ne : ∀ m, sha256 m ≠ ""%string).

#[local] Instance tables_resolveSlot su e : Tables (resolveSlot sha256 probe_size marker_sha256 file_size host_run su e).
Proof.
  assert (Tables (lazy_probe probe_size marker_sha256 file_size host_run su e)) by (unfold lazy_probe; solve_tables).
  assert (Tables (known_storage (se_Name e))) by (unfold known_storage, GetStorage; solve_tables).
  assert (∀ st, Tables (on_store (UpsertStorage (seen_row su e st)))) by (unfold UpsertStorage; intros; apply _).
  unfold resolveSlot, ResolveStorage, open_storage, create_storage. solve_tables.
Qed.
#[local] Instance tables_resolve_all su l : Tables (resolve_all sha256 probe_size marker_sha256 file_size host_run su l).
Proof. induction l; simpl; solve_tables. Qed.

#[local] Abbreviation versions s := (db_versions (mg_db (sb_mgr s))).
#[local] Abbreviation registry s := (mg_db (sb_mgr s)).
Definition name_id (name : string) (s : Subsystem) : option string := sb_rows s !! name ≫= st_StorageID.

Lemma count_none id d : (∀ c, count_of id d = Some c → ct_Backups c = 0) → ∀ k v, db_versions d !! k = Some v → ver_StorageID v ≠ Some id.
Proof.
  intros Hc k v Hv Hid. assert (v ∈ versions_on id d) as H.
  { apply list_elem_of_filter. split; [done|]. apply elem_of_versions_desc. eauto. }
  unfold count_of in Hc. destruct (versions_on id d) as [|x l]; [by apply not_elem_of_nil in H|].
  specialize (Hc _ eq_refl). simpl in Hc. lia.
Qed.
Lemma app_ne_empty (a b : string) : a ≠ ""%string → (a +:+ b)%string ≠ ""%string.
Proof. by destruct a. Qed.

(** Nothing blocks: nothing refers to the storage; the check changes nothing. *)
Lemma blocking_exact name s :
  let '(why, s') := versionsBlockingForget name s in
  sb_entries s' = sb_entries s ∧ sb_rows s' = sb_rows s ∧ mg_slots (sb_mgr s') = mg_slots (sb_mgr s) ∧
  mg_jobStorage (sb_mgr s') = mg_jobStorage (sb_mgr s) ∧ same_tables (registry s) (registry s') ∧
  (why = ""%string → ∀ id k v, name_id name s = Some id → versions s !! k = Some v → ver_StorageID v ≠ Some id).
Proof.
  unfold versionsBlockingForget, in_rows, in_resolving, in_mgr, on_store, reg, lift_state, GetStorage, CountVersionsByStorage, mbind, stateM_bind.
  pose proof (storage_statement_cases (λ rows, (rows !! name, rows)) (rv_store (resolving_of s))) as Hc.
  pose proof (storage_statement_tables (λ rows, (rows !! name, rows)) (rv_store (resolving_of s))) as Ht.
  destruct (storage_statement _ _) as [row st1]. simpl in *.
  destruct Hc as [[-> Hr]|[-> Hr]]; simpl; [by split_and!|]. unfold name_id.
  change (option_bind _ _ st_StorageID (sb_rows s !! name)) with (sb_rows s !! name ≫= st_StorageID).
  destruct (sb_rows s !! name ≫= st_StorageID) as [id|]; simpl; [|by split_and!].
  pose proof (statement_cases (λ d id, count_of id d) (sd_db st1)) as [Ht2 Hc2].
  destruct (statement _ (sd_db st1)) as [counts db2]. simpl in *.
  assert (same_tables (registry s) db2) as Hall by by by eapply same_tables_trans.
  split_and!; [done..|]. intros Hwhy id' k v [= <-] Hv.
  destruct Hc2 as [[err ->]|(d0 & Ht3 & ->)]; [done|]. simpl in Hwhy.
  assert (db_versions d0 !! k = Some v) as Hv0 by (destruct Ht as (_ & E1 & _), Ht3 as (_ & E2 & _); by rewrite E2, E1).
  revert Hv0. apply count_none. intros c Hct. rewrite Hct in Hwhy. destruct (Z.eqb_spec (ct_Backups c) 0); done.
Qed.

Lemma wire_keys counts l : ∀ first m, let '(r, m') := wire_from capacityOf first l "" counts m in
  (λ w, (ws_Name w, ws_ID w)) <$> r = (λ s, (s_Name s, s_StorageID s)) <$> l ∧ m' = m.
Proof.
  induction l as [|s l IH]; intros first m; [done|]. simpl. unfold mbind, stateM_bind. simpl.
  specialize (IH false m). destruct (wire_from _ false l _ _ m) as [r m']. simpl in *. destruct IH as [H ->]. by split; [apply (f_equal2 cons)|].
Qed.

(** No busy storage: no job is bound to the first slot of the name. *)
Lemma not_busy d name slot :
  busy_message capacityOf d name = ""%string → first_of (λ s, bool_decide (s_Name s = name)) (mg_slots (sb_mgr (dm_sub d))) = Some slot →
  JobsOn (mg_jobStorage (sb_mgr (dm_sub d))) (s_StorageID slot) = [].
Proof.
  unfold busy_message, jobsRunningOn, StorageList, storage_counts, reg, lift_state, CountVersionsByStorage, mbind, stateM_bind. simpl.
  destruct (statement _ _) as [c db]. simpl. set (m := set_db db (sb_mgr (dm_sub d))).
  match goal with |- context [wire_from _ _ _ _ ?f _] => pose proof (wire_keys f (mg_slots (sb_mgr (dm_sub d))) true m) as H end.
  destruct (wire_from _ _ _ _ _ m) as [l m']. simpl in H. destruct H as [H ->]. simpl. intros Hb Hs.
  assert (JobsOn (mg_jobStorage (sb_mgr (dm_sub d))) <$> (ws_ID <$> head (filter (λ s, ws_Name s = name) l)) = Some (JobsOn (mg_jobStorage (sb_mgr (dm_sub d))) (s_StorageID slot))) as E.
  { clear Hb. unfold first_of in Hs. revert l H Hs. generalize (mg_slots (sb_mgr (dm_sub d))) as slots.
    induction slots as [|s slots IH]; intros [|w l] H Hs; try done. simpl in H. injection H as Hn Hi H.
    destruct (decide (s_Name s = name)) as [He|He].
    - rewrite filter_cons_True in Hs by by rewrite bool_decide_true. rewrite filter_cons_True by congruence.
      simpl in *. injection Hs as ->. by rewrite Hi.
    - rewrite filter_cons_False in Hs by by rewrite bool_decide_false. rewrite filter_cons_False by congruence. by apply IH. }
  destruct (head (filter _ l)) as [w|]; [|done]. simpl in *. injection E as <-. by destruct (JobsOn _ (ws_ID w)).
Qed.
(** The subsystem has the storages of the configuration in force. *)
Definition in_step (d : Daemon) : Prop := sb_entries (dm_sub d) = c_Storage (sv_cfg (w_svc (dm_config d))).

Lemma forgot_not_busy name busy io w r w' :
  ForgetStorage name busy io w = (Answered r, w') → saved_ok r = true → busy name = ""%string.
Proof.
  unfold ForgetStorage. destruct (c_Storage _) as [l|]; [|done]. destruct (index_named name l); [|done].
  destruct (from_option _ _ _); [by intros [= <- _]|]. destruct (bool_decide (busy name = _)) eqn:Hb; [|by intros [= <- _]].
  intros _ _. by apply bool_decide_eq_true in Hb.
Qed.

(** The default storage stays when another is left out. *)
Lemma others_stay c name l e :
  acceptable c → resolved c → c_Storage c = Some l → e ∈ l → se_Name e = name → se_Default e = false →
  declaredStorages (Some (filter (λ x, se_Name x ≠ name) l)) ≠ [].
Proof.
  intros Ha Hr Hl He Hn Hd. destruct (in_force_names c l Ha Hr Hl) as [Hnd _].
  destruct (ac_storages _ Ha l Hl) as [_ _ _ _ [->|Hone]]; [by apply not_elem_of_nil in He|].
  destruct (defaults_of l) as [|x [|]] eqn:Hx; try done.
  assert (x ∈ l ∧ se_Default x = true) as [Hxl Hxd].
  { assert (x ∈ defaults_of l) as H by (rewrite Hx; apply list_elem_of_here). unfold defaults_of in H. apply list_elem_of_filter in H as [? ?]. done. }
  assert (se_Name x ≠ name) as Hne.
  { intros E. assert (x = e) as ->; [|congruence]. by apply (nodup_fmap_eq se_Name l); [..|congruence]. }
  simpl. intros H. apply app_nil in H as [H _].
  assert (x ∈ filter (λ e, se_Default e = true) (filter (λ x, se_Name x ≠ name) l)) as Hin by by rewrite !list_elem_of_filter.
  rewrite H in Hin. by apply not_elem_of_nil in Hin.
Qed.

(** What a row keeps while its storage is resolved again. *)
Definition row_kept (row row' : StorageRow) : Prop :=
  (is_Some (st_StorageID row) → st_StorageID row' = st_StorageID row) ∧
  (is_Some (st_Backend row) → st_Backend row' = st_Backend row) ∧
  (is_Some (st_CreatedAt row) → st_CreatedAt row' = st_CreatedAt row).
(** Only the rows of [names] change, and no row goes. *)
Definition rows_after (names : list string) (rows rows' : gmap string StorageRow) : Prop :=
  ∀ k, (k ∉ names → rows' !! k = rows !! k) ∧ ∀ row, rows !! k = Some row → ∃ row', rows' !! k = Some row' ∧ row_kept row row'.

Lemma rows_after_refl names rows : rows_after names rows rows.
Proof. intros k. split; [done|]. intros row H. by exists row. Qed.
Lemma rows_after_trans names names' r1 r2 r3 :
  rows_after names r1 r2 → rows_after names' r2 r3 → rows_after (names ++ names') r1 r3.
Proof.
  intros H12 H23 k. destruct (H12 k) as [U1 K1], (H23 k) as [U2 K2]. split.
  - intros [H1 H2]%not_elem_of_app. by rewrite U2, U1.
  - intros row (row1 & (row2 & H2 & A2 & B2 & C2)%K2 & A1 & B1 & C1)%K1. exists row2. split; [done|].
    unfold row_kept. split_and!; intros H; rewrite ?A2, ?B2, ?C2; rewrite ?A1, ?B1, ?C1; auto.
Qed.
Lemma upsert_kept row old : row_kept old (upsert_row row (Some old)).
Proof. split_and!; intros [? E]; simpl; by rewrite E. Qed.

Lemma resolve_all_rows su l r :
  rows_after (se_Name <$> l) (sd_rows (rv_store r)) (sd_rows (rv_store (resolve_all sha256 probe_size marker_sha256 file_size host_run su l r).2)).
Proof.
  revert r. induction l as [|e l IH]; intros r; [apply rows_after_refl|]. simpl. unfold mbind, stateM_bind.
  pose proof (resolveSlot_one sha256 probe_size marker_sha256 file_size host_run su e r sha256_ne) as H. unfold wp in H.
  destruct (resolveSlot _ _ _ _ _ su e r) as [slot r1]. simpl in H. specialize (IH r1).
  destruct (resolve_all _ _ _ _ _ su l r1) as [slots r2]. simpl in *. apply (rows_after_trans [se_Name e] _ _ (sd_rows (rv_store r1))); [|done].
  destruct H as (_ & _ & [(-> & _)|(row & b & -> & _)]); [apply rows_after_refl|]. intros k. split.
  - intros Hk%not_elem_of_cons. by rewrite lookup_insert_ne by naive_solver.
  - intros old Ho. destruct (decide (k = se_Name e)) as [->|Hne].
    + rewrite lookup_insert_eq, Ho. eauto using upsert_kept.
    + rewrite lookup_insert_ne by done. by exists old.
Qed.

#[local] Abbreviation Edit su next := (apply_configuration sha256 probe_size marker_sha256 file_size host_run su next).
Lemma edit_tables su next s :
  let s' := (Edit su next s).2 in
  sb_entries s' = next ∧ same_tables (registry s) (registry s') ∧
  rows_after (se_Name <$> declaredStorages next) (sb_rows s) (sb_rows s').
Proof.
  unfold apply_configuration, storage_applier, resolve_changed, in_resolving, in_mgr, lift_state, mbind, stateM_bind. simpl.
  destruct (sameStorageDeclaration _ _); [split_and!; [done..|apply rows_after_refl]|].
  pose proof (tables_resolve_all su (declaredStorages next) (resolving_of (set_entries next s))) as H.
  pose proof (resolve_all_rows su (declaredStorages next) (resolving_of (set_entries next s))) as H'.
  destruct (resolve_all _ _ _ _ _ _ _ _) as [[|slot slots] r]; done.
Qed.

(** Of every other storage the row is still there; of one that is not declared it is as it was. *)
Definition rows_without (name : string) (names : list string) (rows rows' : gmap string StorageRow) : Prop :=
  ∀ k, k ≠ name → (k ∉ names → rows' !! k = rows !! k) ∧ ∀ row, rows !! k = Some row → ∃ row', rows' !! k = Some row' ∧ row_kept row row'.
Lemma forget_checked_exact su name io d ws d' :
  let cfg := sv_cfg (w_svc (dm_config d)) in
  let s := dm_sub d in
  let s' := dm_sub d' in
  acceptable cfg → resolved cfg → in_step d → follows s →
  forget_checked sha256 probe_size marker_sha256 file_size host_run capacityOf su name io d = (Forgotten ws, d') →
  busy_message capacityOf d name = ""%string ∧ in_step d' ∧ follows s' ∧ same_tables (registry s) (registry s') ∧
  sb_entries s' = Some (filter (λ e, se_Name e ≠ name) (default [] (sb_entries s))) ∧ (sb_rows s' !! name = None ∨ ws ≠ []) ∧
  rows_without name (se_Name <$> declaredStorages (sb_entries s')) (sb_rows s) (sb_rows s').
Proof.
  intros cfg s s' Ha Hr Hin Hf. unfold forget_checked. destruct (ForgetStorage _ _ _ _) as [[|r] w] eqn:Hfs; [done|].
  destruct (bool_decide (is_Some _)) eqn:He; [done|]. destruct (rp_Errors r) eqn:Hes; [|done].
  assert (saved_ok r = true) as Hok.
  { unfold saved_ok. rewrite Hes. apply bool_decide_eq_false in He. simpl. apply bool_decide_eq_true. by destruct (rp_Error r); [destruct He; eauto|]. }
  pose proof (forgot_not_busy _ _ _ _ _ _ Hfs Hok) as Hb. destruct (forget_exact _ _ _ _ _ _ Ha Hr Hfs Hok) as [Hcfg (e & Hel & Hen & Hed)].
  fold cfg in Hcfg, Hel. unfold in_step in Hin. fold cfg s in Hin.
  assert (c_Storage (sv_cfg (w_svc w)) = Some (filter (λ e, se_Name e ≠ name) (default [] (sb_entries s)))) as Hst by (by rewrite Hcfg, Hin).
  rewrite Hst. set (next := Some _). destruct (c_Storage cfg) as [l|] eqn:Hl; [|by apply not_elem_of_nil in Hel].
  assert (declaredStorages next ≠ []) as Hne by (unfold next; rewrite Hin; by eapply (others_stay cfg)).
  pose proof (edit_follows sha256 probe_size marker_sha256 file_size host_run sha256_ne su next s Hne Hf) as Hfol.
  pose proof (edit_tables su next s) as (Hent & Htab & Hrows). simpl in Hfol.
  unfold in_sub, lift_state, mbind, stateM_bind. simpl. fold s. destruct (Edit su next s) as [[warns fires] s1]. simpl in *.
  unfold in_rows, in_resolving, on_store, lift_state, DeleteStorage. simpl.
  pose proof (storage_exec_cases (delete name) (mkStorageDB (sb_rows s1) (registry s1))) as Hc.
  pose proof (tables_exec (delete name) (resolving_of s1)) as Ht. unfold on_store, lift_state in Ht. simpl in Ht.
  destruct (storage_exec (delete name) _) as [err st]. simpl in *. intros E. injection E as <- <-. simpl in *.
  split_and!; try done.
  - unfold in_step. simpl. by rewrite Hst.
  - by eapply same_tables_trans.
  - destruct Hc as [[[x ->] _]|[_ ->]]; [right; by destruct warns|left]. simpl. apply lookup_delete_eq.
  - intros k Hk. rewrite Hent. destruct Hc as [[_ ->]|[_ ->]]; [apply Hrows|]. simpl. rewrite lookup_delete_ne by done. apply Hrows.
Qed.

(** C27: a storage is only forgotten while nothing needs it, and nothing but it is forgotten.  With an
    acceptable configuration in force whose storages are the ones that are served: when a forget is
    answered with success, no version in the registry referred to the storage's id when that was
    checked, no backup was bound to it, the registry's tables are what they were, the storages of the
    configuration in force and the slots are the same ones without that name, and the name's row is
    gone or the answer warns.  Every other row of the table of storages is still there, with its id,
    backend and creation; it is as it was unless its storage is declared, and no row is new otherwise. *)
Theorem forgotten_when_unused su name io d ws d' :
  let cfg := sv_cfg (w_svc (dm_config d)) in
  let s := dm_sub d in
  let s' := dm_sub d' in
  acceptable cfg → resolved cfg → in_step d → follows s →
  handleConfigStorageDelete sha256 probe_size marker_sha256 file_size host_run capacityOf su name io d = (Forgotten ws, d') →
  (∀ id k v, name_id name s = Some id → versions s !! k = Some v → ver_StorageID v ≠ Some id) ∧
  (∀ slot, first_of (λ x, bool_decide (s_Name x = name)) (mg_slots (sb_mgr s)) = Some slot →
     JobsOn (mg_jobStorage (sb_mgr s)) (s_StorageID slot) = []) ∧
  same_tables (registry s) (registry s') ∧
  sb_entries s' = Some (filter (λ e, se_Name e ≠ name) (default [] (sb_entries s))) ∧ in_step d' ∧ follows s' ∧
  (sb_rows s' !! name = None ∨ ws ≠ []) ∧
  (∀ k, k ≠ name →
     (k ∉ (se_Name <$> declaredStorages (sb_entries s')) → sb_rows s' !! k = sb_rows s !! k) ∧
     ∀ row, sb_rows s !! k = Some row → ∃ row', sb_rows s' !! k = Some row' ∧ row_kept row row').
Proof.
  intros cfg s s' Ha Hr Hin Hf. unfold handleConfigStorageDelete, mbind, stateM_bind, in_sub, lift_state. fold s.
  pose proof (blocking_exact name s) as Hb. destruct (versionsBlockingForget name s) as [why s1].
  destruct Hb as (Hent & Hrows & Hslots & Hjobs & Ht & Hwhy). case_bool_decide as Hw; [|done]. simpl.
  intros H. pose proof (forget_checked_exact su name io (mkDaemon (dm_config d) s1) ws d') as Hc. cbv zeta in Hc. simpl in Hc.
  destruct Hc as (Hbusy & Hin' & Hf' & Ht' & Hent' & Hrow & Hkept); try done; [unfold in_step; simpl; rewrite Hent; exact Hin|unfold follows in *; by rewrite Hslots, Hent|].
  split_and!; try done.
  - by apply Hwhy.
  - intros slot Hslot. rewrite <-Hjobs. apply (not_busy (mkDaemon (dm_config d) s1) name); [done|]. simpl. by rewrite Hslots.
  - by eapply same_tables_trans.
  - rewrite <-Hent. exact Hent'.
  - rewrite <-Hrows. exact Hkept.
Qed.
End forget.

(** ** The runner of reconciliations *)

Record runner_inv (r : Runner) : Prop := {
  ri_pending : rn_covered r = rn_asked r ∨ rn_pending r = true;
  ri_sent : rn_covered r = rn_asked r ∨ rn_trigger r = true ∨ rn_received r = true ∨ (0 < rn_callers r)%nat;
  ri_done : rn_done r = rn_covered r ∨ rn_running r = true;
  ri_order : (rn_done r ≤ rn_covered r ≤ rn_asked r)%nat;
  ri_wait : ∀ d, rn_schedule r = WaitingFor d → 0 < d ∧ (d = rn_interval r ∨ rn_intervalChanged r = true ∨ (0 < rn_wakers r)%nat);
  ri_off : rn_schedule r = WaitingForChange → rn_interval r ≤ 0 ∨ rn_intervalChanged r = true ∨ (0 < rn_wakers r)%nat }.

Lemma runner_inv_step e r : runner_inv r → runner_inv (runner_step e r).
Proof.
  intros [Hp Hs Hd Ho Hw Hoff]. destruct r as [tr ic pe ru iv pa re ca wa sc a c dn]. simpl in *.
  destruct e as [| |d| | | |]; simpl.
  - split; simpl; try done; try lia; naive_solver lia.
  - destruct ca as [|ca]; [by split|]. split; simpl; naive_solver.
  - destruct (Z.eqb_spec iv d); [by split|]. split; simpl; try done; naive_solver lia.
  - destruct wa as [|wa]; [by split|]. split; simpl; naive_solver.
  - unfold loop_turn. simpl. destruct ru, re, tr; split; simpl; try done; naive_solver lia.
  - destruct sc; [destruct (Z.leb_spec iv 0); split; simpl; naive_solver lia|..]; destruct ic; split; simpl; naive_solver.
  - destruct sc; split; simpl; naive_solver lia.
Qed.
Lemma runner_inv_run es r : runner_inv r → runner_inv (run_runner es r).
Proof. revert r. induction es as [|e es IH]; intros r H; [done|]. apply IH. by apply runner_inv_step. Qed.
Lemma runner_inv_new : runner_inv NewRunner.
Proof. split; simpl; auto; done. Qed.

(** A pass that starts after the first [a] requests ends within [k] turns of the loop. *)
Definition due (a k : nat) (r : Runner) : Prop :=
  (a ≤ rn_asked r)%nat ∧
  ((a ≤ rn_done r)%nat ∨
   rn_running r = true ∧ (a ≤ rn_covered r)%nat ∧ (1 ≤ k)%nat ∨
   rn_received r = true ∧ rn_running r = false ∧ (2 ≤ k)%nat ∨
   rn_trigger r = true ∧ rn_running r = false ∧ (3 ≤ k)%nat ∨
   rn_trigger r = true ∧ (4 ≤ k)%nat ∨
   rn_received r = true ∧ (4 ≤ k)%nat).

Definition is_turn (e : runner_event) : Prop := e = LoopTurn.
#[local] Instance is_turn_dec e : Decision (is_turn e).
Proof. destruct e; (by left) || (by right). Defined.

Lemma due_step a k e r : runner_inv r → due a k r → due a (if decide (is_turn e) then pred k else k) (runner_step e r).
Proof.
  intros Hi [Ha H]. pose proof (ri_order _ Hi) as Ho. clear Hi. unfold due. destruct r as [tr ic pe ru iv pa re ca wa sc a' c dn]. simpl in *.
  destruct e as [| |d| | | |]; simpl.
  - split; [lia|]. naive_solver lia.
  - destruct ca; split; simpl; try lia; naive_solver.
  - destruct (iv =? d); split; simpl; done.
  - destruct wa; split; simpl; done.
  - unfold loop_turn. simpl. destruct ru, re, tr; simpl; (split; [lia|]); naive_solver lia.
  - destruct sc; [by split|..]; destruct ic; by split.
  - destruct sc; simpl; (split; [lia|]); done.
Qed.
Lemma due_run a es k r :
  runner_inv r → due a (k + length (filter is_turn es)) r → due a k (run_runner es r).
Proof.
  revert r. induction es as [|e es IH]; intros r Hi H; [by rewrite Nat.add_0_r in H|]. simpl.
  apply (IH (runner_step e r)); [by apply runner_inv_step|]. apply (due_step a _ e) in H; [|done].
  destruct (decide (is_turn e)) as [He|He].
  - rewrite filter_cons_True in H by done. simpl in H. by rewrite Nat.add_succ_r in H.
  - by rewrite filter_cons_False in H.
Qed.
Lemma due_weaken a k k' r : (k ≤ k')%nat → due a k r → due a k' r.
Proof. unfold due. naive_solver lia. Qed.

(** C28: every request for a reconciliation is served, and while one is not, the health says so.  In
    any interleaving of callers, loop, schedule and timer: once no call is half-way, or a request is in
    the queue, all the requests so far are followed by a whole pass within four turns of the loop,
    however many of them were collapsed into it and whatever comes between; when [Reconciling] is false, a pass that
    started after every request has ended; and the schedule never waits for an interval that is not
    the one in force without a wake-up on its way. *)
Theorem triggers_are_served es es' :
  let r := run_runner es NewRunner in
  (rn_callers r = 0%nat ∨ rn_trigger r = true → (4 ≤ length (filter is_turn es'))%nat →
     (rn_asked r ≤ rn_done (run_runner es' r))%nat) ∧
  (Reconciling r = false → rn_done r = rn_asked r) ∧
  (∀ d, rn_schedule r = WaitingFor d → d = rn_interval r ∨ rn_intervalChanged r = true ∨ (0 < rn_wakers r)%nat) ∧
  (rn_schedule r = WaitingForChange → rn_interval r ≤ 0 ∨ rn_intervalChanged r = true ∨ (0 < rn_wakers r)%nat).
Proof.
  intros r. assert (runner_inv r) as Hi by apply runner_inv_run, runner_inv_new. split_and!; [|..|exact (ri_off _ Hi)].
  - intros Hc Hk. assert (due (rn_asked r) 4 r) as H.
    { destruct Hi. split; [lia|]. destruct (rn_running r); destruct Hc; naive_solver lia. }
    apply (due_weaken _ _ (0 + length (filter is_turn es'))%nat) in H; [|lia]. apply due_run in H; [|done].
    destruct H as [_ H]. naive_solver lia.
  - unfold Reconciling. intros [[H1 H2]%orb_false_elim H3]%orb_false_elim. destruct Hi. naive_solver congruence.
  - intros d Hd. by apply (ri_wait _ Hi).
Qed.

Lemma triggers_are_served_witness :
  rn_done (run_runner [LoopTurn; TimerFires; LoopTurn; LoopTurn; SetIntervalTo 5; LoopTurn]
    (run_runner [TriggerFlag; TriggerFlag; TriggerSend; TriggerSend] NewRunner)) = 2%nat.
Proof.
  destruct (triggers_are_served [TriggerFlag; TriggerFlag; TriggerSend; TriggerSend] [LoopTurn; TimerFires; LoopTurn; LoopTurn; SetIntervalTo 5; LoopTurn])
    as [H _].
  specialize (H (or_introl eq_refl) ltac:(vm_compute; lia)). vm_compute in H |- *. lia.
Defined.

(** A request that came between a receive and the start of its pass leaves one that no flag shows;
    the pass that ended had started after both. *)
Example unseen_pass :
  let r := run_runner [TriggerFlag; TriggerSend; LoopTurn; TriggerFlag; TriggerSend; LoopTurn; LoopTurn; LoopTurn] NewRunner in
  Reconciling r = false ∧ rn_received r = true ∧ rn_done r = 2%nat ∧ rn_passes (run_runner [LoopTurn; LoopTurn] r) = 2%nat.
Proof. done. Qed.

(** ** Toy storages *)

Definition no_zfs : ZFSConfig := mkZFSConfig "" "" "" "" "" 0 "" "".
Definition usb : StorageEntry := mkStorageEntry "usb" "/disk" true "copy" no_zfs None.
Definition toy_world : surroundings := mkSurroundings (λ _, plain_medium) 0 (λ name, "id of " +:+ name) "1".
Definition usb_row : StorageRow := mkStorageRow "usb" (Some "one"%string) (Some "copy"%string) "/disk" (Some 0) 0.
Definition toy_state (root : FS.node) (rows : gmap string StorageRow) : resolving :=
  mkResolving (quiet root) (mkStorageDB rows (mkDB ∅ ∅ ∅ [])) None.
#[local] Abbreviation toy_resolve := (resolveSlot (λ _, "sum"%string) 16 (λ _, "sum"%string) (λ _, 0) (λ _ n, ((""%string, true), n))).

(** The medium of a known storage is not plugged in: its directory is empty. *)
Lemma storage_created_once_witness :
  let r := toy_state (one_dir ∅) {["usb"%string := usb_row]} in
  let '(slot, r') := toy_resolve toy_world usb r in
  id_of "usb" r' = Some "one"%string ∧ s_StorageID slot = "one"%string ∧
  stat ["disk"; StorageMarkerName]%string (d_root (rv_disk r')) = FAbsent.
Proof.
  pose proof (storage_created_once (λ _, "sum"%string) 16 (λ _, "sum"%string) (λ _, 0) (λ _ n, ((""%string, true), n))
    toy_world usb [Disks (quiet (one_dir ∅)); Answers []] (toy_state (NDir ∅) {["usb"%string := usb_row]}) ltac:(done)) as H.
  cbv zeta in H |- *.
  change (history _ _ _ _ _ _ _) with (toy_state (one_dir ∅) {["usb"%string := usb_row]}) in H.
  assert (Usable (toy_resolve toy_world usb (toy_state (one_dir ∅) {["usb"%string := usb_row]})).1 = false) as Hu by (vm_compute; reflexivity).
  destruct (toy_resolve _ _ _) as [slot r']. simpl in Hu. destruct H as (_ & _ & H & _).
  destruct (H "one"%string eq_refl ltac:(set_solver)) as (H1 & H2 & H3). split_and!; [exact H1|by apply H3|exact H2].
Defined.

(** A new storage is created, with a marker that holds its id. *)
Lemma resolve_exact_witness :
  let '(slot, r') := toy_resolve toy_world usb (toy_state (one_dir ∅) ∅) in
  Usable slot = true ∧ s_StorageID slot = "id of usb"%string ∧ id_of "usb" r' = Some "id of usb"%string ∧
  ∃ m, d_root (rv_disk r') = one_dir {[StorageMarkerName := NFile (CStorageMarker m)]} ∧ sm_StorageID m = "id of usb"%string.
Proof.
  pose proof (resolve_exact (λ _, "sum"%string) 16 (λ _, "sum"%string) (λ _, 0) (λ _ n, ((""%string, true), n))
    toy_world usb (toy_state (one_dir ∅) ∅) BackendCopy ltac:(done) ltac:(done) ltac:(done) ltac:(reflexivity)) as H.
  cbv zeta in H. change (found_at _ _ _) with NoMarker in H. change (id_of _ (toy_state _ _)) with (@None string) in H.
  destruct (toy_resolve _ _ _) as [slot r']. destruct H as (H1 & H2 & _ & _ & H3 & es & m & Hs & Hn & Hid & _).
  split_and!; [exact H1|exact H2|exact H3|]. exists m. split; [|exact Hid]. vm_compute in Hs. injection Hs as <-.
  rewrite Hn. vm_compute. reflexivity.
Defined.

(** ** A small install *)

#[local] Existing Instance toy_yaml.
#[local] Existing Instance stable_sort.
Definition two_disks : FS.node :=
  NDir {["backups" := NDir ∅; "mnt" := NDir {["second" := NDir ∅; "third" := NDir ∅]}]}%string.
Definition at_rest (entries : option (list StorageEntry)) : Subsystem :=
  mkSubsystem entries ∅ (mkManager [] ∅ ∅ (mkDB ∅ ∅ ∅ []) (quiet two_disks) [] [] 0 []).
Definition serving_of (s : Subsystem) : Serving := mkServing s NoEdit ∅.
Definition no_capacity (s : Slot Disk) : result (Z * Z) := Err "no statfs"%string.
#[local] Abbreviation toy_run := (storage_run (λ _, "sum"%string) 16 (λ _, "sum"%string) (λ _, 0) (λ _ n, ((""%string, true), n)) no_capacity).
Definition entry (name path : string) (is_default : bool) : StorageEntry := mkStorageEntry name path is_default "copy" no_zfs None.
Definition moved : option (list StorageEntry) := Some [entry "b" "/mnt/third" false; entry "a" "/backups" true].
Definition moved_back : option (list StorageEntry) := Some [entry "b" "/mnt/second" false; entry "a" "/backups" true].
Definition edit (next : option (list StorageEntry)) : list storage_op := [EditSaves next; EditResolves toy_world; EditServes].
Definition roots (g : Serving) : list path := s_Root <$> mg_slots (sb_mgr (sg_sub g)).


(** An edit that is saved and served while a recheck is between its probe and its write is undone for the
    storage's slot: the storage is served where it was, until the next edit or recheck. *)
Definition overtaken : list storage_op := [Starts toy_world; RecheckLooks 0 "b"; RecheckProbes 0 toy_world] ++ edit moved.
Example recheck_undoes_edit :
  let g := toy_run overtaken (serving_of (at_rest moved_back)) in
  let g' := toy_run [RecheckWrites 0] g in
  roots g = [["backups"]; ["mnt"; "third"]]%string ∧
  roots g' = [["backups"]; ["mnt"; "second"]]%string ∧ sb_entries (sg_sub g') = moved ∧
  roots (toy_run [RecheckLooks 0 "b"; RecheckProbes 0 toy_world; RecheckWrites 0] g') = roots g.
Proof. vm_compute. done. Qed.

(** A recheck of a storage that was never reached selects a backend and writes a marker, once there is a
    directory. *)
Example recheck_creates :
  let g := toy_run [Starts toy_world;
    Meanwhile (mkResolving (quiet (NDir {["late"%string := NDir ∅]})) (mkStorageDB ∅ (mkDB ∅ ∅ ∅ [])) None)]
    (serving_of (mkSubsystem (Some [entry "a" "/late" true]) ∅ (sb_mgr (at_rest None)))) in
  let g' := toy_run [RecheckLooks 0 "a"; RecheckProbes 0 toy_world; RecheckWrites 0] g in
  (Usable <$> mg_slots (sb_mgr (sg_sub g))) = [false] ∧ (Usable <$> mg_slots (sb_mgr (sg_sub g'))) = [true] ∧
  stat ["late"; StorageMarkerName]%string (d_root (mg_world (sb_mgr (sg_sub g)))) = FAbsent ∧
  is_Some (get ["late"; StorageMarkerName]%string (d_root (mg_world (sb_mgr (sg_sub g'))))).
Proof. vm_compute. eauto. Qed.

(** Another storage's disk, mounted at the path of a storage, is served under that one's name with its
    own id, while the row keeps the old id. *)
Example another_disk_is_opened :
  let r := toy_state (one_dir {[StorageMarkerName := NFile (CStorageMarker (mkStorageMarker "two" "copy" "" "" "sum"))]}) {["usb"%string := usb_row]} in
  let '(slot, r') := toy_resolve toy_world usb r in
  Usable slot = true ∧ s_StorageID slot = "two"%string ∧ id_of "usb" r' = Some "one"%string.
Proof. vm_compute. done. Qed.

#[local] Abbreviation by_now := (ConfigService.run morning at_start).
Definition install : Daemon := mkDaemon by_now
  (buildStorage (λ _, "sum"%string) 16 (λ _, "sum"%string) (λ _, 0) (λ _ n, ((""%string, true), n)) toy_world
     (at_rest (c_Storage (sv_cfg (w_svc by_now))))).2.

Lemma forgotten_when_unused_witness :
  let d' := (handleConfigStorageDelete (λ _, "sum"%string) 16 (λ _, "sum"%string) (λ _, 0) (λ _ n, ((""%string, true), n)) no_capacity
    toy_world "/backups" (fine 0) install).2 in
  (se_Name <$> default [] (sb_entries (dm_sub d'))) = ["/mnt/second"%string] ∧ in_step d'.
Proof.
  pose proof (run_in_force "/data/config.yml" [("tls"%string, λ _ _, Some [])] first_file morning) as [Ha Hr].
  pose proof (forgotten_when_unused (λ _, "sum"%string) 16 (λ _, "sum"%string) (λ _, 0) (λ _ n, ((""%string, true), n)) no_capacity ltac:(done)
    toy_world "/backups" (fine 0) install [] 
    (handleConfigStorageDelete (λ _, "sum"%string) 16 (λ _, "sum"%string) (λ _, 0) (λ _ n, ((""%string, true), n)) no_capacity
      toy_world "/backups" (fine 0) install).2 Ha Hr) as H.
  destruct H as (_ & _ & _ & He & Hi & _).
  - vm_compute. reflexivity.
  - unfold install. cbn [dm_sub]. apply (starts_follow (λ _, "sum"%string) 16 (λ _, "sum"%string) (λ _, 0) (λ _ n, ((""%string, true), n)) ltac:(done)).
  - assert ((handleConfigStorageDelete (λ _, "sum"%string) 16 (λ _, "sum"%string) (λ _, 0) (λ _ n, ((""%string, true), n)) no_capacity
      toy_world "/backups" (fine 0) install).1 = Forgotten []) as E by (vm_compute; reflexivity).
    rewrite <-E. apply surjective_pairing.
  - intros d'. split; [|exact Hi]. etransitivity; [apply (f_equal (λ l, se_Name <$> default [] l)), He|]. vm_compute. reflexivity.
Defined.

(** A backup that starts, is committed, and ends between the check of the versions and the edit leaves
    a version that refers to a storage without a row. *)
Definition late_version : VersionRow :=
  mkVersionRow "v" "U" BackendCopy None 0 None "full" true true None None 10 false (Some "id of /backups"%string).
Example version_outlives_its_storage :
  let '(why, s) := versionsBlockingForget "/backups" (dm_sub install) in
  let s := mkSubsystem (sb_entries s) (sb_rows s) (set_db (mkDB ∅ {["v"%string := late_version]} ∅ []) (sb_mgr s)) in
  let '(r, d') := forget_checked (λ _, "sum"%string) 16 (λ _, "sum"%string) (λ _, 0) (λ _ n, ((""%string, true), n)) no_capacity
    toy_world "/backups" (fine 0) (mkDaemon by_now s) in
  why = ""%string ∧ r = Forgotten [] ∧ name_id "/backups" (dm_sub install) = Some "id of /backups"%string ∧
  sb_rows (dm_sub d') !! "/backups"%string = None ∧ ver_StorageID <$> (db_versions (mg_db (sb_mgr (dm_sub d'))) !! "v"%string) = Some (Some "id of /backups"%string).
Proof. vm_compute. done. Qed.
