(* ===== verification/Notify.v ===== *)
(** * Notify: what to tell a person, and when

    Models core/internal/notify/notify.go (the decisions) and runner.go (the triggers), with the
    tables of core/internal/store/pushsubs.go and device_notify.go that hold a device's place on the
    reminder track and the per-principal switches.  The clock, the devices that the registry lists,
    and whether a device is backing up are inputs of every step.  The theorems: the cooldown of the
    reminder track over any run of the runner, and which job outcomes are told to whom. *)

From Stdlib Require Import String Ascii SpecFloat.
From S2P Require Import Prelude Calendar Config Domain Events.

(** ** Kinds *)

Definition KindBackupAvailable : string := "backup_available".
Definition KindBackupOverdue : string := "backup_overdue".
Definition KindActionRequired : string := "action_required".
Definition KindBackupFailed : string := "backup_failed".
Definition KindBackupCompleted : string := "backup_completed".

Record Decision : Type := mkDecision {
  dc_Kind : string; dc_UDID : string; dc_Title : string; dc_Body : string; dc_Navigate : string }.

(** The [notifications:] section of the configuration. *)
Definition phone_codes : list string := [ErrDeviceDisconnected; ErrDeviceNotVisible; ErrNotPaired; ErrEncryptionRequired].
Definition quince_codes : list string := [ErrDiskLow; ErrVerifyFailed; ErrCommitFailed; ErrBackupFailed; ErrInterrupted].

Definition KindForTerminal (state errorCode : string) : option string :=
  if bool_decide (state = StateSucceeded) then Some KindBackupCompleted
  else if bool_decide (errorCode ∈ phone_codes) then Some KindActionRequired
  else if bool_decide (errorCode ∈ quince_codes) then Some KindBackupFailed
  else None.

Definition Enabled (kind : string) (cfg : NotificationsConfig) : bool :=
  if bool_decide (kind = KindBackupAvailable) then nc_BackupAvailable cfg
  else if bool_decide (kind = KindBackupOverdue) then nc_BackupOverdue cfg
  else if bool_decide (kind = KindActionRequired) then nc_ActionRequired cfg
  else if bool_decide (kind = KindBackupFailed) then nc_BackupFailed cfg
  else if bool_decide (kind = KindBackupCompleted) then nc_BackupCompleted cfg
  else false.

Definition deviceName (dev : Device) : string :=
  if negb (String.eqb (dev_Name dev) "") then dev_Name dev
  else if negb (String.eqb (dev_Model dev) "") then dev_Model dev
  else "Your device".

Definition actionRequiredBody (errorCode : string) : string :=
  if bool_decide (errorCode = ErrNotPaired) then
    "it is no longer paired. Connect it, and trust this computer again."
  else if bool_decide (errorCode = ErrEncryptionRequired) then
    "backup encryption is off. Turn it on, then start the backup again."
  else "it went off the network. Unlock it and keep it nearby, then try again.".

Definition backupFailedBody (errorCode : string) : string :=
  if bool_decide (errorCode = ErrDiskLow) then
    "the backup storage is nearly full. Free some space, then try again."
  else if bool_decide (errorCode = ErrVerifyFailed) then
    "the backup did not verify, so it was not kept. Open quince for the details."
  else if bool_decide (errorCode = ErrCommitFailed) then
    "the backup could not be saved. The transferred data was kept — open quince for the details."
  else if bool_decide (errorCode = ErrInterrupted) then
    "a restart interrupted the backup. Open quince to start it again."
  else "the backup did not finish. Open quince for the details.".

Definition device_page (udid : string) : string := "/devices/" +:+ udid.

Definition ForTerminal (dev : Device) (state errorCode : string) (cfg : NotificationsConfig) : option Decision :=
  match KindForTerminal state errorCode with
  | None => None
  | Some kind =>
      if negb (Enabled kind cfg) then None else
      let name := deviceName dev in
      let '(title, body) :=
        if bool_decide (kind = KindBackupCompleted) then
          ("Backup Complete", name +:+ " is backed up and verified.")
        else if bool_decide (kind = KindActionRequired) then
          ("Action Needed", name +:+ " — " +:+ actionRequiredBody errorCode)
        else if bool_decide (kind = KindBackupFailed) then
          ("Backup Failed", name +:+ " — " +:+ backupFailedBody errorCode)
        else (""%string, ""%string) in
      Some (mkDecision kind (dev_UDID dev) title body (device_page (dev_UDID dev)))
  end.

(** ** Reminders *)

Record Reminder : Type := mkReminder { rm_LastSentAt : time }.

(** [int(age.Hours() / 24)], in binary64: [Duration.Hours] adds the fraction of the last hour. *)
Definition float_of (z : Z) : spec_float := binary_normalize 53 1024 z 0 false.
Definition float_add : spec_float → spec_float → spec_float := SFadd 53 1024.
Definition float_div : spec_float → spec_float → spec_float := SFdiv 53 1024.
Definition int_of_float (f : spec_float) : Z :=
  match f with
  | S754_finite s m e =>
      let z := if 0 <=? e then Z.pos m * 2 ^ e else Z.pos m / 2 ^ (- e) in if s then - z else z
  | _ => 0
  end.
Definition Hours (d : duration) : spec_float :=
  float_add (float_of (Z.quot d Hour)) (float_div (float_of (Z.rem d Hour)) (float_of Hour)).
Definition whole_days (age : duration) : Z := int_of_float (float_div (Hours age) (float_of 24)).

Definition plural (n : Z) (unit : string) : string :=
  if n =? 1 then "1 " +:+ unit else fmt_d n +:+ " " +:+ unit +:+ "s".

Definition cooldown (cfg : NotificationsConfig) : duration := wrap64 (wrap64 (nc_ReminderCooldownHours cfg) * Hour).
Definition days (n : Z) : duration := wrap64 (wrap64 (n * 24) * Hour).

Definition available (dev : Device) (title body : string) (cfg : NotificationsConfig) : option Decision :=
  if Enabled KindBackupAvailable cfg
  then Some (mkDecision KindBackupAvailable (dev_UDID dev) title body (device_page (dev_UDID dev))) else None.

Definition Evaluate (dev : Device) (r : Reminder) (cfg : NotificationsConfig) (jobRunning : bool) (now : time) :
    option Decision :=
  if bool_decide (tr_USB (dev_Transports dev) = None) && bool_decide (tr_WiFi (dev_Transports dev) = None) then None
  else if jobRunning then None
  else if negb (is_zero_time (rm_LastSentAt r)) && (time_sub now (rm_LastSentAt r) <? cooldown cfg) then None
  else
    let name := deviceName dev in
    match dev_LastBackup dev with
    | None => available dev "Never Backed Up"
        (name +:+ " has never been backed up. It is on the network now — open quince to start.") cfg
    | Some lb =>
        match parse_rfc3339 (lb_At lb) with
        | None => None
        | Some at_ =>
            let age := time_sub now at_ in
            if age <? days (nc_StalenessDays cfg) then None
            else if days (nc_OverdueDays cfg) <=? age then
              if Enabled KindBackupOverdue cfg then
                Some (mkDecision KindBackupOverdue (dev_UDID dev) "Backup Overdue"
                  (name +:+ " has not been backed up in " +:+ plural (whole_days age) "day" +:+
                   ". It is on the network now — open quince to start.") (device_page (dev_UDID dev)))
              else None
            else available dev "Backup Due"
              (name +:+ " was last backed up " +:+ plural (whole_days age) "day" +:+
               " ago. It is on the network now — open quince to start.") cfg
        end
    end.

(** ** The tables *)

(** Which reads and which writes fail is an input, by the number of the statement. *)
Record NotifyDB : Type := mkNotifyDB {
  nd_reminders : gmap string string;
  nd_prefs : gmap (string * string) bool;
  nd_step : nat;
  nd_read_fails : nat → bool;
  nd_write_fails : nat → bool }.

Definition statement_done (d : NotifyDB) : NotifyDB :=
  mkNotifyDB (nd_reminders d) (nd_prefs d) (S (nd_step d)) (nd_read_fails d) (nd_write_fails d).
Definition set_reminders (m : gmap string string) (d : NotifyDB) : NotifyDB :=
  mkNotifyDB m (nd_prefs d) (nd_step d) (nd_read_fails d) (nd_write_fails d).
Definition set_prefs (m : gmap (string * string) bool) (d : NotifyDB) : NotifyDB :=
  mkNotifyDB (nd_reminders d) m (nd_step d) (nd_read_fails d) (nd_write_fails d).

Definition read_row {A} (f : NotifyDB → A) : stateM NotifyDB (result A) := λ d,
  ((if nd_read_fails d (nd_step d) then Err "database" else Ok (f d)), statement_done d).
Definition write_row (f : NotifyDB → NotifyDB) : stateM NotifyDB error := λ d,
  if nd_write_fails d (nd_step d) then (Some "database"%string, statement_done d) else (None, statement_done (f d)).

(** [(zero, false)] without a row; a row that cannot be parsed is the zero time too. *)
Definition PushReminder (udid : string) : stateM NotifyDB (result (time * bool)) :=
  read_row (λ d, match nd_reminders d !! udid with
                 | None => (zero_time, false)
                 | Some at_ => match parse_rfc3339 at_ with Some t => (t, true) | None => (zero_time, false) end
                 end).
Definition SetPushReminder (udid : string) (at_ : time) : stateM NotifyDB error :=
  write_row (λ d, set_reminders (<[udid := fmtRFC at_]> (nd_reminders d)) d).
Definition ClearPushReminder (udid : string) : stateM NotifyDB error :=
  write_row (λ d, set_reminders (delete udid (nd_reminders d)) d).

Definition DeviceNotificationsEnabled (udid owner : string) : stateM NotifyDB (result bool) :=
  read_row (λ d, default true (nd_prefs d !! (udid, owner))).
Definition SetDeviceNotificationsEnabled (udid owner : string) (enabled : bool) : stateM NotifyDB error :=
  write_row (λ d, set_prefs (<[(udid, owner) := enabled]> (nd_prefs d)) d).

(** ** The runner *)

(** What a step of the runner reads: the clock, and again after a delivery, the devices, the jobs
    and the configuration. *)
Record moment : Type := mkMoment {
  mo_now : time;
  mo_later : string → time;
  mo_devices : list Device;
  mo_running : string → bool;
  mo_cfg : NotificationsConfig }.

Inductive trigger : Type := Ticked | Received (ev : Envelope).

(** The reminder is recorded whether or not it could be delivered. *)
Definition send_reminder (m : moment) (d : Decision) : stateM NotifyDB (list Decision) :=
  _ ← SetPushReminder (dc_UDID d) (mo_later m (dc_UDID d)); mret [d].

Definition evaluate_one (m : moment) (dev : Device) : stateM NotifyDB (list Decision) :=
  r ← PushReminder (dev_UDID dev);
  match r with
  | Err _ => mret []
  | Ok (at_, _) =>
      match Evaluate dev (mkReminder at_) (mo_cfg m) (mo_running m (dev_UDID dev)) (mo_now m) with
      | None => mret []
      | Some d => send_reminder m d
      end
  end.

Fixpoint evaluate_each (m : moment) (devs : list Device) : stateM NotifyDB (list Decision) :=
  match devs with
  | [] => mret []
  | dev :: rest => l ← evaluate_one m dev; l' ← evaluate_each m rest; mret (l ++ l')
  end.
Definition evaluateAll (m : moment) : stateM NotifyDB (list Decision) := evaluate_each m (mo_devices m).

Definition terminal (state : string) : bool :=
  bool_decide (state ∈ [StateSucceeded; StateFailed; StateCancelled; StateConnectionLost]).

Definition device_named (m : moment) (udid : string) : option Device :=
  head (filter (λ d, dev_UDID d = udid) (mo_devices m)).

Definition handleJob (m : moment) (data : payload) : stateM NotifyDB (list Decision) :=
  match data with
  | OfJob job =>
      if negb (terminal (wj_State job)) then mret [] else
      match device_named m (wj_UDID job) with
      | None => mret []
      | Some dev =>
          (if bool_decide (wj_State job = StateSucceeded)
           then _ ← ClearPushReminder (wj_UDID job); mret tt else mret tt);;
          let code := match wj_Error job with Some e => je_Code e | None => ""%string end in
          mret (option_list (ForTerminal dev (wj_State job) code (mo_cfg m)))
      end
  | _ => mret []
  end.

Definition handle (m : moment) (ev : Envelope) : stateM NotifyDB (list Decision) :=
  if bool_decide (ev_Type ev = EventDeviceAttached ∨ ev_Type ev = EventDeviceUpdated) then evaluateAll m
  else if bool_decide (ev_Type ev = EventJobUpdated) then handleJob m (ev_Data ev)
  else mret [].

(** One turn of the loop of [Run]. *)
Definition turn (m : moment) (t : trigger) : stateM NotifyDB (list Decision) :=
  match t with Ticked => evaluateAll m | Received ev => handle m ev end.

Fixpoint Run (turns : list (moment * trigger)) : stateM NotifyDB (list (list Decision)) :=
  match turns with
  | [] => mret []
  | (m, t) :: rest => l ← turn m t; ls ← Run rest; mret (l :: ls)
  end.

(** * Reminders keep their distance, and failures find their remedy *)

(** ** Decisions *)

Definition is_reminder (d : Decision) : Prop := dc_Kind d = KindBackupAvailable ∨ dc_Kind d = KindBackupOverdue.

Lemma Evaluate_sends dev r cfg running now d : Evaluate dev r cfg running now = Some d →
  dc_UDID d = dev_UDID dev ∧ is_reminder d ∧ running = false ∧
  (is_zero_time (rm_LastSentAt r) = true ∨ cooldown cfg ≤ time_sub now (rm_LastSentAt r)).
Proof.
  unfold Evaluate, available. intros H. case_match; [done|]. destruct running; [done|]. case_match eqn:Hc; [done|].
  assert (dc_UDID d = dev_UDID dev ∧ is_reminder d) as [? ?].
  { unfold is_reminder. repeat case_match; simplify_eq; cbn; auto. }
  split_and!; [done..|]. apply andb_false_iff in Hc as [Hc%negb_false_iff|Hc%Z.ltb_ge]; [by left|by right].
Qed.

Lemma ForTerminal_no_reminder dev state code cfg d : ForTerminal dev state code cfg = Some d → ¬ is_reminder d.
Proof.
  unfold ForTerminal, KindForTerminal, is_reminder. intros H [Hd|Hd]; revert H Hd;
    repeat case_bool_decide; try done; cbn; destruct (negb _); try done; intros [= <-]; done.
Qed.

(** ** The track of one device *)

(** The device was reminded no earlier than about [t0]: its row says so, to the second. *)
Definition on_track (udid : string) (t0 : time) (db : NotifyDB) : Prop :=
  ∃ s t, nd_reminders db !! udid = Some s ∧ parse_rfc3339 s = Some t ∧ t0 - Second < t ∧ is_zero_time t = false.

Definition writes_ok (db : NotifyDB) : Prop := ∀ n, nd_write_fails db n = false.

(** What a clock reads after a delivery: a date of the common era that is not before [t0]. *)
Definition reads_after (t0 : time) (m : moment) (udid : string) : Prop :=
  t0 ≤ mo_later m udid ∧ 0 ≤ mo_later m udid ∧ printable_year (mo_later m udid).

Lemma stored_on_track udid t0 t db : t0 ≤ t → 0 ≤ t → printable_year t →
  nd_reminders db !! udid = Some (fmtRFC t) → on_track udid t0 db.
Proof.
  intros H0 Hp Hy Hr. exists (fmtRFC t), (t - t `mod` Second). split; [done|]. split; [by apply parse_fmt_rfc3339|].
  pose proof (Z.mod_pos_bound t Second ltac:(unfold Second; lia)). split; [lia|].
  unfold is_zero_time. apply Z.eqb_neq. unfold zero_time. assert (0 < Second) by (unfold Second; lia). lia.
Qed.

(** *** One device of a walk *)

Lemma evaluate_one_row m dev db l db' : writes_ok db → evaluate_one m dev db = (l, db') →
  writes_ok db' ∧
  (l = [] ∧ nd_reminders db' = nd_reminders db ∨
   ∃ d, l = [d] ∧ dc_UDID d = dev_UDID dev ∧ is_reminder d ∧
     nd_reminders db' = <[dev_UDID dev := fmtRFC (mo_later m (dev_UDID dev))]> (nd_reminders db) ∧
     (∀ t, nd_reminders db !! dev_UDID dev ≫= parse_rfc3339 = Some t →
        is_zero_time t = false → cooldown (mo_cfg m) ≤ time_sub (mo_now m) t)).
Proof.
  intros Hw. unfold evaluate_one, send_reminder, PushReminder, SetPushReminder, read_row, write_row, mbind, stateM_bind.
  destruct (nd_read_fails db (nd_step db)); cbn [fst snd].
  { intros [= <- <-]. split; [done|by left]. }
  set (row := match nd_reminders db !! dev_UDID dev with None => _ | Some at_ => _ end).
  destruct row as [at_ b] eqn:Erow. destruct (Evaluate _ _ _ _ _) as [d|] eqn:He; cbn.
  2: { intros [= <- <-]. split; [done|by left]. }
  rewrite Hw. intros [= <- <-]. split; [done|]. right. exists d.
  apply Evaluate_sends in He as (Hu & Hr & _ & Hc). rewrite Hu. split_and!; [done..|].
  intros t Ht Hz. destruct (nd_reminders db !! dev_UDID dev) as [s|]; [|done]. cbn [mbind option_bind] in Ht. subst row. rewrite Ht in Erow.
  injection Erow as <- _. cbn [rm_LastSentAt] in Hc. destruct Hc; [congruence|done].
Qed.

(** *** A walk over the devices *)

Lemma on_track_row udid t0 db db' : nd_reminders db' !! udid = nd_reminders db !! udid → on_track udid t0 db → on_track udid t0 db'.
Proof. unfold on_track. by intros ->. Qed.

Lemma evaluate_one_track m dev udid t0 db l db' : writes_ok db → evaluate_one m dev db = (l, db') →
  reads_after t0 m udid → on_track udid t0 db → on_track udid t0 db'.
Proof.
  intros Hw E (H1 & H2 & H3) Ht. destruct (evaluate_one_row m dev db l db' Hw E) as [_ [[_ Hr]|(d & _ & _ & _ & Hr & _)]].
  - apply (on_track_row _ _ db); [by rewrite Hr|done].
  - destruct (decide (dev_UDID dev = udid)) as [<-|Hne].
    + eapply stored_on_track; [exact H1|done|done|]. by rewrite Hr, lookup_insert_eq.
    + apply (on_track_row _ _ db); [by rewrite Hr, lookup_insert_ne|done].
Qed.

Lemma evaluate_each_track m udid t0 devs : ∀ db l db', writes_ok db → evaluate_each m devs db = (l, db') →
  reads_after t0 m udid → writes_ok db' ∧ (on_track udid t0 db → on_track udid t0 db').
Proof.
  induction devs as [|dev devs IH]; intros db l db' Hw; cbn; [by intros [= <- <-]|].
  unfold mbind, stateM_bind. destruct (evaluate_one m dev db) as [l1 db1] eqn:E1.
  destruct (evaluate_each m devs db1) as [l2 db2] eqn:E2. intros [= <- <-] Hr.
  destruct (evaluate_one_row _ _ _ _ _ Hw E1) as [Hw1 _]. destruct (IH _ _ _ Hw1 E2 Hr) as [Hw2 H2]. split; [done|].
  intros Ht. exact (H2 (evaluate_one_track _ _ _ _ _ _ _ Hw E1 Hr Ht)).
Qed.

(** A reminder in a walk: the device was not on the track, or its cooldown is over; and it is on
    the track afterwards. *)
Lemma evaluate_each_sends m udid devs d : is_reminder d → dc_UDID d = udid → reads_after (mo_now m) m udid →
  ∀ db l db', writes_ok db → evaluate_each m devs db = (l, db') → d ∈ l →
  on_track udid (mo_now m) db' ∧
  ∀ t0, on_track udid t0 db → reads_after t0 m udid → 0 ≤ cooldown (mo_cfg m) →
    cooldown (mo_cfg m) < mo_now m - t0 + Second.
Proof.
  intros Hrem Hu Hnow. induction devs as [|dev devs IH]; intros db l db' Hw; cbn.
  { intros [= <- <-] []%elem_of_nil. }
  unfold mbind, stateM_bind. destruct (evaluate_one m dev db) as [l1 db1] eqn:E1.
  destruct (evaluate_each m devs db1) as [l2 db2] eqn:E2. intros [= <- <-] [Hd|Hd]%elem_of_app.
  - pose proof (evaluate_one_row _ _ _ _ _ Hw E1) as [Hw1 [[-> _]|(d' & -> & Hu' & _ & Hr & Hc)]];
      [by apply elem_of_nil in Hd|]. apply list_elem_of_singleton in Hd as <-. rewrite Hu in Hu'. subst udid.
    destruct (evaluate_each_track m (dc_UDID d) (mo_now m) devs _ _ _ Hw1 E2 Hnow) as [_ Htrack]. split.
    + apply Htrack. destruct Hnow as (H1 & H2 & H3). eapply stored_on_track; [exact H1|done|done|].
      rewrite Hr, <-Hu'. by rewrite lookup_insert_eq.
    + intros t0 (s & t & Hs & Ht & H0 & Hz) _ Hpos. rewrite <-Hu' in Hc. rewrite Hs in Hc. specialize (Hc t Ht Hz).
      revert Hc. unfold time_sub, int64_min. lia.
  - destruct (evaluate_one_row _ _ _ _ _ Hw E1) as [Hw1 _]. destruct (IH _ _ _ Hw1 E2 Hd) as [H1 H2]. split; [done|].
    intros t0 Ht Hr Hpos. apply H2; [|done..]. exact (evaluate_one_track _ _ _ _ _ _ _ Hw E1 Hr Ht).
Qed.

(** *** A turn of the runner *)

(** The turn is told that a backup of the device succeeded. *)
Definition succeeded (udid : string) (t : trigger) : Prop :=
  ∃ ev job, t = Received ev ∧ ev_Type ev = EventJobUpdated ∧ ev_Data ev = OfJob job ∧
    wj_State job = StateSucceeded ∧ wj_UDID job = udid.

Lemma handleJob_does m data db l db' : writes_ok db → handleJob m data db = (l, db') →
  writes_ok db' ∧ (∀ d, d ∈ l → ¬ is_reminder d) ∧
  ∀ udid, nd_reminders db' !! udid = nd_reminders db !! udid ∨
    ∃ job, data = OfJob job ∧ wj_State job = StateSucceeded ∧ wj_UDID job = udid.
Proof.
  intros Hw. unfold handleJob, ClearPushReminder, write_row, mbind, stateM_bind.
  assert (∀ l db', (l, db') = ([], db) → writes_ok db' ∧ (∀ d, d ∈ l → ¬ is_reminder d) ∧
    ∀ udid, nd_reminders db' !! udid = nd_reminders db !! udid ∨
    ∃ job, data = OfJob job ∧ wj_State job = StateSucceeded ∧ wj_UDID job = udid) as Hno.
  { intros ? ? [= -> ->]. split_and!; [done|by intros ? []%elem_of_nil|by left]. }
  destruct data; try (intros H; by apply Hno). destruct (negb _); [intros H; by apply Hno|].
  destruct (device_named m (wj_UDID j)) as [dev|]; [|intros H; by apply Hno].
  case_bool_decide as Hs; cbn; rewrite ?Hw; intros [= <- <-]; split_and!; try done.
  - intros d Hd. destruct (ForTerminal _ _ _ _) as [d'|] eqn:E; [|by apply elem_of_nil in Hd].
    apply list_elem_of_singleton in Hd as ->. by eapply ForTerminal_no_reminder.
  - intros udid. destruct (decide (wj_UDID j = udid)) as [<-|Hne]; [right; by exists j|left]. cbn. by rewrite lookup_delete_ne.
  - intros d Hd. destruct (ForTerminal _ _ _ _) as [d'|] eqn:E; [|by apply elem_of_nil in Hd].
    apply list_elem_of_singleton in Hd as ->. by eapply ForTerminal_no_reminder.
  - by left.
Qed.

Lemma turn_track m t udid t0 db l db' : writes_ok db → turn m t db = (l, db') → reads_after t0 m udid →
  ¬ succeeded udid t → writes_ok db' ∧ (on_track udid t0 db → on_track udid t0 db').
Proof.
  intros Hw E Hr Hns. destruct t as [|ev]; cbn in E; [by eapply evaluate_each_track|].
  unfold handle in E. case_bool_decide; [by eapply evaluate_each_track|]. case_bool_decide as Hj.
  - destruct (handleJob_does _ _ _ _ _ Hw E) as (Hw' & _ & Hrow). split; [done|]. intros Ht.
    destruct (Hrow udid) as [He|(job & H1 & H2 & H3)]; [by apply (on_track_row _ _ db)|]. destruct Hns. by exists ev, job.
  - injection E as <- <-. done.
Qed.

Lemma turn_sends m t udid d db l db' : writes_ok db → turn m t db = (l, db') → d ∈ l → is_reminder d → dc_UDID d = udid →
  reads_after (mo_now m) m udid →
  writes_ok db' ∧ on_track udid (mo_now m) db' ∧
  ∀ t0, on_track udid t0 db → reads_after t0 m udid → 0 ≤ cooldown (mo_cfg m) →
    cooldown (mo_cfg m) < mo_now m - t0 + Second.
Proof.
  intros Hw E Hd Hrem Hu Hnow.
  assert (∀ devs, evaluate_each m devs db = (l, db') → writes_ok db' ∧ on_track udid (mo_now m) db' ∧
    ∀ t0, on_track udid t0 db → reads_after t0 m udid → 0 ≤ cooldown (mo_cfg m) →
      cooldown (mo_cfg m) < mo_now m - t0 + Second) as Hev.
  { intros devs Ee. split; [by eapply evaluate_each_track|]. by eapply evaluate_each_sends. }
  destruct t as [|ev]; cbn in E; [by apply (Hev (mo_devices m))|].
  unfold handle in E. case_bool_decide; [by apply (Hev (mo_devices m))|]. case_bool_decide.
  - destruct (handleJob_does _ _ _ _ _ Hw E) as (_ & Hno & _). by apply Hno in Hd.
  - injection E as <- <-. by apply elem_of_nil in Hd.
Qed.

Lemma Run_track udid t0 turns : ∀ db, writes_ok db →
  Forall (λ mt, reads_after t0 mt.1 udid ∧ ¬ succeeded udid mt.2) turns →
  writes_ok (Run turns db).2 ∧ (on_track udid t0 db → on_track udid t0 (Run turns db).2).
Proof.
  induction turns as [|[m t] turns IH]; intros db Hw Hall; [done|]. apply Forall_cons in Hall as [[Hr Hs] Hall].
  cbn. unfold mbind, stateM_bind. destruct (turn m t db) as [l db1] eqn:E. cbn in Hr, Hs.
  destruct (turn_track _ _ _ _ _ _ _ Hw E Hr Hs) as [Hw1 H1]. destruct (IH db1 Hw1 Hall) as [Hw2 H2].
  destruct (Run turns db1) as [ls db2]. split; [done|]. auto.
Qed.

Lemma evaluate_each_writes m devs : ∀ db l db', writes_ok db → evaluate_each m devs db = (l, db') → writes_ok db'.
Proof.
  induction devs as [|dev devs IH]; intros db l db' Hw; cbn; [by intros [= <- <-]|].
  unfold mbind, stateM_bind. destruct (evaluate_one m dev db) as [l1 db1] eqn:E1.
  destruct (evaluate_each m devs db1) as [l2 db2] eqn:E2. intros [= <- <-].
  destruct (evaluate_one_row _ _ _ _ _ Hw E1) as [Hw1 _]. exact (IH _ _ _ Hw1 E2).
Qed.

Lemma turn_writes m t db : writes_ok db → writes_ok (turn m t db).2.
Proof.
  intros Hw. destruct (turn m t db) as [l db'] eqn:E. cbn [snd]. destruct t as [|ev]; cbn in E.
  { exact (evaluate_each_writes _ _ _ _ _ Hw E). }
  unfold handle in E. case_bool_decide; [exact (evaluate_each_writes _ _ _ _ _ Hw E)|]. case_bool_decide.
  - by destruct (handleJob_does _ _ _ _ _ Hw E) as [? _].
  - by injection E as <- <-.
Qed.

Lemma Run_cons m t turns db :
  Run ((m, t) :: turns) db = ((turn m t db).1 :: (Run turns (turn m t db).2).1, (Run turns (turn m t db).2).2).
Proof. cbn. unfold mbind, stateM_bind. destruct (turn m t db) as [l db1]. cbn. by destruct (Run turns db1). Qed.

Lemma Run_app turns turns' : ∀ db,
  Run (turns ++ turns') db =
    ((Run turns db).1 ++ (Run turns' (Run turns db).2).1, (Run turns' (Run turns db).2).2).
Proof.
  induction turns as [|[m t] turns IH]; intros db; [exact (surjective_pairing _)|].
  rewrite <-app_comm_cons, !Run_cons, IH. done.
Qed.

Lemma Run_length turns : ∀ db, length (Run turns db).1 = length turns.
Proof. induction turns as [|[m t] turns IH]; intros db; [done|]. rewrite Run_cons. cbn [length fst]. by rewrite IH. Qed.

Lemma Run_writes turns : ∀ db, writes_ok db → writes_ok (Run turns db).2.
Proof.
  induction turns as [|[m t] turns IH]; intros db Hw; [done|]. rewrite Run_cons. by apply IH, turn_writes.
Qed.

Lemma cooldown_exact cfg : 0 ≤ nc_ReminderCooldownHours cfg * Hour ≤ int64_max →
  cooldown cfg = nc_ReminderCooldownHours cfg * Hour.
Proof.
  intros H. unfold cooldown. assert (0 < Hour) by done.
  assert (0 ≤ nc_ReminderCooldownHours cfg) by nia.
  rewrite (wrap64_id (nc_ReminderCooldownHours cfg)), wrap64_id; unfold int64_min; [done|lia|nia].
Qed.

(** Reminders of a device keep their distance.  In any run of the notifier, between a turn that
    reminds about a device and a later one that does, with no successful backup of it reported in
    between, lies at least the cooldown that is configured at the later one, up to the second that
    the database keeps; whatever the rank of the two reminders, and whatever happened to their
    delivery, to other devices and to reads of the database. *)
Theorem reminders_spaced before m1 t1 between m2 t2 db udid d1 d2 :
  writes_ok db →
  Forall (λ mt, reads_after (mo_now m1) mt.1 udid ∧ ¬ succeeded udid mt.2) between →
  reads_after (mo_now m1) m1 udid → reads_after (mo_now m1) m2 udid → reads_after (mo_now m2) m2 udid →
  0 ≤ nc_ReminderCooldownHours (mo_cfg m2) * Hour ≤ int64_max →
  let sent := (Run (before ++ (m1, t1) :: between ++ [(m2, t2)]) db).1 in
  is_reminder d1 → is_reminder d2 → dc_UDID d1 = udid → dc_UDID d2 = udid →
  (∃ l, sent !! length before = Some l ∧ d1 ∈ l) → (∃ l, last sent = Some l ∧ d2 ∈ l) →
  nc_ReminderCooldownHours (mo_cfg m2) * Hour < mo_now m2 - mo_now m1 + Second.
Proof.
  intros Hw Hbetween H1 H21 H2 Hcfg sent Hr1 Hr2 Hu1 Hu2 (l1 & Hl1 & Hd1) (l2 & Hl2 & Hd2). subst sent.
  rewrite Run_app, Run_cons, Run_app in Hl1, Hl2. cbn [fst snd] in Hl1, Hl2.
  rewrite lookup_app_r, Run_length, Nat.sub_diag in Hl1 by (by rewrite Run_length). injection Hl1 as Hl1.
  pose proof (Run_writes before db Hw) as Hw0. set (db0 := (Run before db).2) in *.
  destruct (turn m1 t1 db0) as [l1' db1] eqn:E1. cbn [fst snd] in Hl1, Hl2. subst l1'.
  destruct (turn_sends _ _ _ _ _ _ _ Hw0 E1 Hd1 Hr1 Hu1 H1) as (Hw1 & Ht1 & _).
  destruct (Run_track udid (mo_now m1) between db1 Hw1 Hbetween) as [Hw2 Ht2]. specialize (Ht2 Ht1).
  set (db2 := (Run between db1).2) in *. rewrite Run_cons in Hl2. cbn [Run mret stateM_ret fst snd] in Hl2.
  rewrite app_comm_cons, app_assoc, last_snoc in Hl2. injection Hl2 as Hl2.
  destruct (turn m2 t2 db2) as [l2' db3] eqn:E2. cbn [fst] in Hl2. subst l2'.
  destruct (turn_sends _ _ _ _ _ _ _ Hw2 E2 Hd2 Hr2 Hu2 H2) as (_ & _ & Hlow).
  rewrite <-(cooldown_exact _ Hcfg). apply Hlow; [done..|]. rewrite (cooldown_exact _ Hcfg). lia.
Qed.

(** ** A night beside a phone *)

Definition alices_phone : Device :=
  mkDevice "00008110-1" "Alice's iPhone" "iPhone14,5" "17.5" (mkTransports (Some "2026-08-01T08:00:00Z") None)
    "paired" "on" "on" true "2026-08-01T08:00:00Z" None.
Definition default_notifications : NotificationsConfig := mkNotificationsConfig 3 24 14 true true true true true.

(** Eight o'clock of the first of August 2026, and a day later. *)
Definition morning : time := match parse_rfc3339 "2026-08-01T08:00:00Z" with Some t => t | None => 0 end.
Definition at_hour (h : Z) : moment :=
  mkMoment (morning + h * Hour) (λ _, morning + h * Hour + 3 * Second) [alices_phone] (λ _, false) default_notifications.
Definition no_rows : NotifyDB := mkNotifyDB ∅ ∅ 0 (λ _, false) (λ _, false).

Definition invited : Decision :=
  mkDecision KindBackupAvailable "00008110-1" "Never Backed Up"
    "Alice's iPhone has never been backed up. It is on the network now — open quince to start." "/devices/00008110-1".

Example told_once_a_day :
  (Run [(at_hour 0, Ticked); (at_hour 1, Ticked); (at_hour 24, Ticked); (at_hour 25, Ticked)] no_rows).1 =
  [[invited]; []; []; [invited]].
Proof. vm_compute. reflexivity. Qed.

Lemma reminders_spaced_witness : 24 * Hour < mo_now (at_hour 25) - mo_now (at_hour 0) + Second.
Proof.
  refine (reminders_spaced [] (at_hour 0) Ticked [(at_hour 1, Ticked)] (at_hour 25) Ticked no_rows "00008110-1"
    invited invited _ _ _ _ _ _ _ _ _ _ _ _).
  - by intros n.
  - constructor; [|by constructor]. split; [vm_compute; split_and!; congruence|].
    intros (ev & job & Hev & _). discriminate.
  - vm_compute. split_and!; congruence.
  - vm_compute. split_and!; congruence.
  - vm_compute. split_and!; congruence.
  - vm_compute. split; congruence.
  - by left.
  - by left.
  - done.
  - done.
  - exists [invited]. split; [vm_compute; reflexivity|]. by apply list_elem_of_singleton.
  - exists [invited]. split; [vm_compute; reflexivity|]. by apply list_elem_of_singleton.
Defined.

(** A cooldown that validation admits and that wraps around: every tick reminds. *)
Definition endless : NotificationsConfig := mkNotificationsConfig 3 2562048 14 true true true true true.
Definition at_minute (m : Z) : moment :=
  mkMoment (morning + m * Minute) (λ _, morning + m * Minute) [alices_phone] (λ _, false) endless.

Example huge_cooldown_wraps :
  (cooldown endless <? 0) = true ∧
  (Run [(at_minute 0, Ticked); (at_minute 1, Ticked)] no_rows).1 = [[invited]; [invited]].
Proof. split; vm_compute; reflexivity. Qed.
