(* ===== verification/Json.v ===== *)
(** * Json: encoding/json

    What the program uses of Go's encoding/json: how Marshal writes a string, and how Unmarshal
    reads a text into a struct of string fields. *)

From Stdlib Require Import String Ascii.
From S2P Require Import Prelude.

(** ** Runes and what is written for them *)

(** [utf8.DecodeRuneInString]: a rune and its width; an invalid encoding is U+FFFD of width 1. *)
Definition RuneError : Z := 65533.
Definition cont (b : Z) : bool := (128 <=? b) && (b <=? 191).
Definition byte_at (s : string) (i : nat) : Z := match String.get i s with Some c => Z_of_char c | None => -1 end.
Definition DecodeRune (s : string) : Z * nat :=
  let b0 := byte_at s 0 in let b1 := byte_at s 1 in let b2 := byte_at s 2 in let b3 := byte_at s 3 in
  if b0 <? 128 then (b0, 1%nat)
  else if (194 <=? b0) && (b0 <=? 223) && cont b1 then ((b0 - 192) * 64 + (b1 - 128), 2%nat)
  else if (224 <=? b0) && (b0 <=? 239) && cont b1 && cont b2
          && (negb (b0 =? 224) || (160 <=? b1)) && (negb (b0 =? 237) || (b1 <=? 159))
  then ((b0 - 224) * 4096 + (b1 - 128) * 64 + (b2 - 128), 3%nat)
  else if (240 <=? b0) && (b0 <=? 244) && cont b1 && cont b2 && cont b3
          && (negb (b0 =? 240) || (144 <=? b1)) && (negb (b0 =? 244) || (b1 <=? 143))
  then ((b0 - 240) * 262144 + (b1 - 128) * 4096 + (b2 - 128) * 64 + (b3 - 128), 4%nat)
  else (RuneError, 1%nat).

Definition hex_digit (d : Z) : ascii := char_of_Z (if d <? 10 then 48 + d else 87 + d).
Definition DQ : ascii := char_of_Z 34.
Definition BS : ascii := char_of_Z 92.
Definition escape (s : string) : string := String BS s.
Definition u00 (b : Z) : string :=
  escape ("u00" +:+ String (hex_digit (b / 16)) (String (hex_digit (b `mod` 16)) EmptyString)).

(** What encoding/json writes for one rune: the quote, the backslash, control characters and the
    characters of HTML are escaped, and so are line separators and invalid encodings. *)
Definition encode_rune (rune : Z) (raw : string) : string :=
  if rune =? 34 then escape (String DQ EmptyString)
  else if rune =? 92 then escape (String BS EmptyString)
  else if rune =? 8 then escape "b" else if rune =? 12 then escape "f"
  else if rune =? 10 then escape "n" else if rune =? 13 then escape "r" else if rune =? 9 then escape "t"
  else if (rune <? 32) || (rune =? 38) || (rune =? 60) || (rune =? 62) then u00 rune
  else if (rune =? RuneError) && bool_decide (String.length raw = 1%nat) then escape "ufffd"
  else if rune =? 8232 then escape "u2028" else if rune =? 8233 then escape "u2029"
  else raw.

Fixpoint str_skip (n : nat) (s : string) : string :=
  match n, s with S n, String _ s => str_skip n s | _, _ => s end.
Fixpoint str_first (n : nat) (s : string) : string :=
  match n, s with S n, String c s => String c (str_first n s) | _, _ => EmptyString end.

(** Every rune is at least a byte: the length of the text is enough fuel. *)
Fixpoint encode_runes (fuel : nat) (s : string) : string :=
  match fuel, s with
  | S fuel, String _ _ =>
      let '(rune, size) := DecodeRune s in
      encode_rune rune (str_first size s) +:+ encode_runes fuel (str_skip size s)
  | _, _ => EmptyString
  end.
Definition json_string (s : string) : string :=
  String DQ (encode_runes (String.length s) s +:+ String DQ EmptyString).
Definition json_field (name value : string) : string := json_string name +:+ ":" +:+ value.

(** ** Reading *)

(** [utf8.AppendRune]. *)
Definition EncodeRune (rune : Z) : string :=
  let bytes := if rune <? 128 then [rune]
    else if rune <? 2048 then [192 + rune / 64; 128 + rune `mod` 64]
    else if rune <? 65536 then [224 + rune / 4096; 128 + (rune / 64) `mod` 64; 128 + rune `mod` 64]
    else [240 + rune / 262144; 128 + (rune / 4096) `mod` 64; 128 + (rune / 64) `mod` 64; 128 + rune `mod` 64] in
  foldr (λ b s, String (char_of_Z b) s) EmptyString bytes.

Definition hex_value (c : ascii) : option Z :=
  let b := Z_of_char c in
  if (48 <=? b) && (b <=? 57) then Some (b - 48)
  else if (97 <=? b) && (b <=? 102) then Some (b - 87)
  else if (65 <=? b) && (b <=? 70) then Some (b - 55)
  else None.

(** Four hexadecimal digits. *)
Definition getu4 (s : string) : option (Z * string) :=
  match s with
  | String a (String b (String c (String d rest))) =>
      match hex_value a, hex_value b, hex_value c, hex_value d with
      | Some a, Some b, Some c, Some d => Some (((a * 16 + b) * 16 + c) * 16 + d, rest)
      | _, _, _, _ => None
      end
  | _ => None
  end.

Definition is_surrogate (r : Z) : bool := (55296 <=? r) && (r <=? 57343).

(** A code unit after its mark: half a surrogate pair takes the other half along, or is an error that
    reads as U+FFFD. *)
Definition code_unit (r : Z) (rest : string) : Z * string :=
  if is_surrogate r then
    match rest with
    | String b (String u more) =>
        if Ascii.eqb b BS && Ascii.eqb u "u"%char then
          match getu4 more with
          | Some (r2, rest') =>
              if (r <=? 56319) && (56320 <=? r2) && (r2 <=? 57343)
              then ((r - 55296) * 1024 + (r2 - 56320) + 65536, rest')
              else (RuneError, rest)
          | None => (RuneError, rest)
          end
        else (RuneError, rest)
    | _ => (RuneError, rest)
    end
  else (r, rest).

Definition escaped (c : ascii) : option Z :=
  if Ascii.eqb c DQ || Ascii.eqb c BS || Ascii.eqb c "/" then Some (Z_of_char c)
  else if Ascii.eqb c "b" then Some 8
  else if Ascii.eqb c "f" then Some 12
  else if Ascii.eqb c "n" then Some 10
  else if Ascii.eqb c "r" then Some 13
  else if Ascii.eqb c "t" then Some 9
  else None.

Definition prepend (p : string) (o : option (string * string)) : option (string * string) :=
  match o with Some (s, rest) => Some (p +:+ s, rest) | None => None end.

(** The text of a string after its opening quote, and what follows the closing one. *)
Fixpoint unquote (fuel : nat) (s : string) : option (string * string) :=
  match fuel, s with
  | S fuel, String c rest =>
      if Ascii.eqb c DQ then Some (EmptyString, rest)
      else if Ascii.eqb c BS then
        match rest with
        | String u more =>
            if Ascii.eqb u "u" then
              match getu4 more with
              | Some (r, more) => let '(rune, more) := code_unit r more in prepend (EncodeRune rune) (unquote fuel more)
              | None => None
              end
            else match escaped u with
                 | Some b => prepend (EncodeRune b) (unquote fuel more)
                 | None => None
                 end
        | EmptyString => None
        end
      else if Z_of_char c <? 32 then None
      else
        let '(rune, size) := DecodeRune s in
        let raw := str_first size s in
        prepend (if (rune =? RuneError) && Nat.eqb size 1 then EncodeRune RuneError else raw) (unquote fuel (str_skip size s))
  | _, _ => None
  end.

Inductive json : Type :=
  | JNull | JBool (b : bool) | JNumber | JString (s : string) | JArray (l : list json) | JObject (fields : list (string * json)).

Definition json_space (c : ascii) : bool := let b := Z_of_char c in (b =? 32) || (b =? 9) || (b =? 10) || (b =? 13).
Fixpoint skip_space (s : string) : string :=
  match s with String c rest => if json_space c then skip_space rest else s | EmptyString => s end.

Fixpoint skip_digits (s : string) : string :=
  match s with String c rest => if is_digit c then skip_digits rest else s | EmptyString => s end.
(** At least one digit. *)
Definition some_digits (s : string) : option string :=
  match s with String c rest => if is_digit c then Some (skip_digits rest) else None | EmptyString => None end.
Definition skip_integer (s : string) : option string :=
  match s with
  | String c rest => if Ascii.eqb c "0" then Some rest else some_digits s
  | EmptyString => None
  end.
Definition skip_fraction (s : string) : option string :=
  match s with String c rest => if Ascii.eqb c "." then some_digits rest else Some s | EmptyString => Some s end.
Definition skip_exponent (s : string) : option string :=
  match s with
  | String c rest =>
      if Ascii.eqb c "e" || Ascii.eqb c "E" then
        match rest with
        | String d rest' => if Ascii.eqb d "+" || Ascii.eqb d "-" then some_digits rest' else some_digits rest
        | EmptyString => None
        end
      else Some s
  | EmptyString => Some s
  end.
Definition skip_number (s : string) : option string :=
  let s := match s with String c rest => if Ascii.eqb c "-" then rest else s | EmptyString => s end in
  s ← skip_integer s; s ← skip_fraction s; skip_exponent s.

Definition maxNestingDepth : Z := 10000.

(** A value, with what follows it.  Each step takes a character or closes a level: twice the length
    and one is enough fuel. *)
Fixpoint parse_value (fuel : nat) (depth : Z) (s : string) : option (json * string) :=
  match fuel with
  | O => None
  | S fuel =>
      match skip_space s with
      | EmptyString => None
      | String c rest =>
          if Ascii.eqb c DQ then '(t, rest) ← unquote (S (String.length rest)) rest; Some (JString t, rest)
          else if Ascii.eqb c "{" then
            if maxNestingDepth <? depth + 1 then None
            else match skip_space rest with
                 | String d rest' => if Ascii.eqb d "}" then Some (JObject [], rest') else
                     '(fields, rest) ← parse_fields fuel (depth + 1) rest; Some (JObject fields, rest)
                 | EmptyString => None
                 end
          else if Ascii.eqb c "[" then
            if maxNestingDepth <? depth + 1 then None
            else match skip_space rest with
                 | String d rest' => if Ascii.eqb d "]" then Some (JArray [], rest') else
                     '(l, rest) ← parse_elements fuel (depth + 1) rest; Some (JArray l, rest)
                 | EmptyString => None
                 end
          else if has_prefix (String c rest) "null" then Some (JNull, str_skip 4 (String c rest))
          else if has_prefix (String c rest) "true" then Some (JBool true, str_skip 4 (String c rest))
          else if has_prefix (String c rest) "false" then Some (JBool false, str_skip 5 (String c rest))
          else rest ← skip_number (String c rest); Some (JNumber, rest)
      end
  end
with parse_elements (fuel : nat) (depth : Z) (s : string) : option (list json * string) :=
  match fuel with
  | O => None
  | S fuel =>
      '(v, rest) ← parse_value fuel depth s;
      match skip_space rest with
      | String c rest =>
          if Ascii.eqb c "," then '(l, rest) ← parse_elements fuel depth rest; Some (v :: l, rest)
          else if Ascii.eqb c "]" then Some ([v], rest) else None
      | EmptyString => None
      end
  end
with parse_fields (fuel : nat) (depth : Z) (s : string) : option (list (string * json) * string) :=
  match fuel with
  | O => None
  | S fuel =>
      match skip_space s with
      | String q rest =>
          if Ascii.eqb q DQ then
            '(k, rest) ← unquote (S (String.length rest)) rest;
            match skip_space rest with
            | String c rest =>
                if Ascii.eqb c ":" then
                  '(v, rest) ← parse_value fuel depth rest;
                  match skip_space rest with
                  | String c rest =>
                      if Ascii.eqb c "," then '(l, rest) ← parse_fields fuel depth rest; Some ((k, v) :: l, rest)
                      else if Ascii.eqb c "}" then Some ([(k, v)], rest) else None
                  | EmptyString => None
                  end
                else None
            | EmptyString => None
            end
          else None
      | EmptyString => None
      end
  end.

Definition parse_json (s : string) : option json :=
  match parse_value (S (2 * String.length s)) 0 s with
  | Some (v, rest) => if String.eqb (skip_space rest) EmptyString then Some v else None
  | None => None
  end.

(** The value of the field [name] of a struct: the last of that name, case apart; [null] leaves it. A
    value of another type is an error. *)
Definition named (name key : string) : bool := String.eqb key name || equal_fold key name.
Fixpoint string_field (name : string) (fields : list (string * json)) (old : string) : option string :=
  match fields with
  | [] => Some old
  | (key, v) :: fields =>
      if named name key then
        match v with
        | JString s => string_field name fields s
        | JNull => string_field name fields old
        | _ => None
        end
      else string_field name fields old
  end.
Definition Unmarshal_strings (names : list string) (s : string) : option (list string) :=
  match parse_json s with
  | Some (JObject fields) => mapM (λ name, string_field name fields EmptyString) names
  | Some JNull => Some ((λ _, EmptyString) <$> names)
  | _ => None
  end.

(** ** What is written is read back *)

Lemma str_first_app n s t : String.length s = n → str_first n (s +:+ t) = s.
Proof.
  intros <-. induction s as [|c s IH]; [by destruct t|]. rewrite app_String. cbn [String.length str_first]. by rewrite IH.
Qed.
Lemma str_skip_app n s t : String.length s = n → str_skip n (s +:+ t) = t.
Proof.
  intros <-. induction s as [|c s IH]; [by destruct t|]. rewrite app_String. cbn [String.length str_skip]. by rewrite IH.
Qed.
Lemma str_first_skip n s : str_first n s +:+ str_skip n s = s.
Proof. revert s. induction n as [|n IH]; intros [|c s]; [done..|]. cbn [str_first str_skip]. by rewrite app_String, IH. Qed.
Lemma str_first_length n s : String.length (str_first n s) = Nat.min n (String.length s).
Proof. revert s. induction n as [|n IH]; intros [|c s]; [done..|]. cbn [str_first String.length]. by rewrite IH. Qed.
Lemma str_skip_length n s : String.length (str_skip n s) = (String.length s - n)%nat.
Proof. revert s. induction n as [|n IH]; intros [|c s]; [done..|]. cbn [str_skip String.length]. by rewrite IH. Qed.
Lemma str_first_all n s : String.length s = n → str_first n s = s.
Proof. intros <-. induction s as [|c s IH]; [done|]. cbn [String.length str_first]. by rewrite IH. Qed.

(** [utf8.ValidString]. *)
Fixpoint valid_runes (fuel : nat) (s : string) : bool :=
  match fuel, s with
  | _, EmptyString => true
  | O, _ => false
  | S fuel, _ => let '(rune, size) := DecodeRune s in
                 negb ((rune =? RuneError) && Nat.eqb size 1) && valid_runes fuel (str_skip size s)
  end.
Definition ValidString (s : string) : bool := valid_runes (String.length s) s.

(** The encodings of a rune. *)
Inductive rune_of : Z → nat → string → Prop :=
  | rune1 a : Z_of_char a < 128 → rune_of (Z_of_char a) 1 (String a EmptyString)
  | rune2 a b : 194 ≤ Z_of_char a ≤ 223 → 128 ≤ Z_of_char b ≤ 191 →
      rune_of ((Z_of_char a - 192) * 64 + (Z_of_char b - 128)) 2 (String a (String b EmptyString))
  | rune3 a b c : 224 ≤ Z_of_char a ≤ 239 → 128 ≤ Z_of_char b ≤ 191 → 128 ≤ Z_of_char c ≤ 191 →
      (Z_of_char a = 224 → 160 ≤ Z_of_char b) → (Z_of_char a = 237 → Z_of_char b ≤ 159) →
      rune_of ((Z_of_char a - 224) * 4096 + (Z_of_char b - 128) * 64 + (Z_of_char c - 128)) 3
        (String a (String b (String c EmptyString)))
  | rune4 a b c d : 240 ≤ Z_of_char a ≤ 244 → 128 ≤ Z_of_char b ≤ 191 → 128 ≤ Z_of_char c ≤ 191 → 128 ≤ Z_of_char d ≤ 191 →
      (Z_of_char a = 240 → 144 ≤ Z_of_char b) → (Z_of_char a = 244 → Z_of_char b ≤ 143) →
      rune_of ((Z_of_char a - 240) * 262144 + (Z_of_char b - 128) * 4096 + (Z_of_char c - 128) * 64 + (Z_of_char d - 128)) 4
        (String a (String b (String c (String d EmptyString)))).

Ltac to_props := rewrite ?andb_true_iff, ?andb_false_iff, ?orb_true_iff, ?orb_false_iff, ?negb_true_iff, ?negb_false_iff,
  ?Z.leb_le, ?Z.leb_gt, ?Z.ltb_lt, ?Z.ltb_ge, ?Z.eqb_eq, ?Z.eqb_neq in *.

Lemma char_range c : 0 ≤ Z_of_char c < 256.
Proof. unfold Z_of_char. pose proof (nat_ascii_bounded c). lia. Qed.

Lemma DecodeRune_complete r n raw t : rune_of r n raw → DecodeRune (raw +:+ t) = (r, n).
Proof.
  intros H. unfold DecodeRune, cont, byte_at. destruct H; rewrite ?app_String, ?app_Empty; cbn [String.get].
  all: repeat (case_match; to_props; try done; try lia).
Qed.

Lemma DecodeRune_sound s r n : s ≠ EmptyString → DecodeRune s = (r, n) → ¬ (r = RuneError ∧ n = 1%nat) →
  ∃ raw t, s = raw +:+ t ∧ rune_of r n raw ∧ str_first n s = raw ∧ str_skip n s = t ∧ String.length raw = n.
Proof.
  intros Hs. unfold DecodeRune.
  set (b0 := byte_at s 0). set (b1 := byte_at s 1). set (b2 := byte_at s 2). set (b3 := byte_at s 3).
  destruct s as [|a s]; [done|]. assert (b0 = Z_of_char a) as E0 by done. clearbody b0.
  destruct (b0 <? 128) eqn:C1.
  { intros [= <- <-] _. exists (String a EmptyString), s. to_props. split_and!; try done. subst. by constructor. }
  destruct ((194 <=? b0) && (b0 <=? 223) && cont b1) eqn:C2.
  { intros [= <- <-] _. destruct s as [|b s]; [by rewrite andb_false_r in C2|].
    assert (b1 = Z_of_char b) as E1 by done. clearbody b1. unfold cont in C2. to_props.
    exists (String a (String b EmptyString)), s. split_and!; try done. subst. constructor; lia. }
  destruct ((224 <=? b0) && (b0 <=? 239) && cont b1 && cont b2 && _ && _) eqn:C3.
  { intros [= <- <-] _. destruct s as [|b [|c s]]; [by rewrite ?andb_false_r in C3|by rewrite ?andb_false_r in C3|].
    assert (b1 = Z_of_char b) as E1 by done. assert (b2 = Z_of_char c) as E2 by done. clearbody b1 b2. unfold cont in C3. to_props.
    exists (String a (String b (String c EmptyString))), s. split_and!; try done. subst. constructor; lia. }
  destruct ((240 <=? b0) && (b0 <=? 244) && cont b1 && cont b2 && cont b3 && _ && _) eqn:C4; [|by intros [= <- <-] []].
  intros [= <- <-] _. destruct s as [|b [|c [|d s]]]; try by rewrite ?andb_false_r in C4.
  assert (b1 = Z_of_char b) as E1 by done. assert (b2 = Z_of_char c) as E2 by done. assert (b3 = Z_of_char d) as E3 by done.
  clearbody b1 b2 b3. unfold cont in C4. to_props.
  exists (String a (String b (String c (String d EmptyString)))), s. split_and!; try done. subst. constructor; lia.
Qed.

(** A rune is read back from what is written for it. *)
Lemma unquote_ascii c fuel more : Z_of_char c < 128 →
  unquote (S fuel) (encode_rune (Z_of_char c) (String c EmptyString) +:+ more) = prepend (String c EmptyString) (unquote fuel more).
Proof.
  intros Hc. destruct c as [[] [] [] [] [] [] [] []]; try reflexivity; by vm_compute in Hc.
Qed.

Lemma unquote_raw r n raw fuel more : rune_of r n raw → 32 ≤ r → r ≠ 34 → r ≠ 92 → ¬ (r = RuneError ∧ n = 1%nat) →
  unquote (S fuel) (raw +:+ more) = prepend raw (unquote fuel more).
Proof.
  intros H Hr H34 H92 He. pose proof (DecodeRune_complete r n raw more H) as Hd.
  assert (String.length raw = n) as Hn by by destruct H.
  assert (∃ c rest, raw = String c rest ∧ 32 ≤ Z_of_char c ∧ Z_of_char c ≠ 34 ∧ Z_of_char c ≠ 92) as (c & rest & -> & H1 & H2 & H3).
  { destruct H; eexists _, _; (split; [done|lia]). }
  rewrite app_String in Hd |- *. cbn [unquote]. rewrite Hd.
  replace (Ascii.eqb c DQ) with false by (symmetry; apply Ascii.eqb_neq; intros ->; by vm_compute in H2).
  replace (Ascii.eqb c BS) with false by (symmetry; apply Ascii.eqb_neq; intros ->; by vm_compute in H3).
  replace (Z_of_char c <? 32) with false by lia. rewrite <-app_String, str_first_app, str_skip_app by done.
  destruct ((r =? RuneError) && Nat.eqb n 1) eqn:E; [|done]. to_props. rewrite Nat.eqb_eq in E. tauto.
Qed.

Lemma unquote_rune r n raw fuel more : rune_of r n raw → ¬ (r = RuneError ∧ n = 1%nat) →
  unquote (S fuel) (encode_rune r raw +:+ more) = prepend raw (unquote fuel more).
Proof.
  intros H He. destruct (decide (r < 128)) as [Hlt|Hge].
  { destruct H; [by apply unquote_ascii|lia..]. }
  pose proof (unquote_raw r n raw fuel more H) as Hraw. unfold encode_rune.
  destruct (Z.eqb_spec r 34); [lia|]. destruct (Z.eqb_spec r 92); [lia|]. destruct (Z.eqb_spec r 8); [lia|].
  destruct (Z.eqb_spec r 12); [lia|]. destruct (Z.eqb_spec r 10); [lia|]. destruct (Z.eqb_spec r 13); [lia|].
  destruct (Z.eqb_spec r 9); [lia|]. replace ((r <? 32) || (r =? 38) || (r =? 60) || (r =? 62)) with false by lia.
  destruct ((r =? RuneError) && bool_decide _) eqn:E.
  { to_props. rewrite bool_decide_eq_true in E. destruct H; cbn in E; try lia; by destruct He. }
  assert (8232 ≤ r ≤ 8233 → raw = EncodeRune r) as Hsep.
  { intros Hb. clear Hraw He. destruct H as [x|x y|x y z|x y z w]; try lia.
    assert (Z_of_char x = 226 ∧ Z_of_char y = 128) as [Hx Hy] by lia.
    assert (x = char_of_Z 226) as -> by (by apply Z_of_char_inj). assert (y = char_of_Z 128) as -> by (by apply Z_of_char_inj).
    rewrite Hx, Hy in *. destruct (decide (Z_of_char z = 168)) as [Hz|].
    - assert (z = char_of_Z 168) as -> by (by apply Z_of_char_inj). by rewrite Hz.
    - assert (z = char_of_Z 169) as -> by (apply Z_of_char_inj; change (Z_of_char (char_of_Z 169)) with 169; lia). done. }
  destruct (Z.eqb_spec r 8232) as [->|]; [|destruct (Z.eqb_spec r 8233) as [->|]; [|by apply Hraw; try lia]].
  - rewrite Hsep by lia. reflexivity.
  - rewrite Hsep by lia. reflexivity.
Qed.

Lemma encode_rune_length r n raw : rune_of r n raw →
  (1 <= n)%nat ∧ (String.length raw = n) ∧ (n <= String.length (encode_rune r raw))%nat.
Proof.
  intros H. split; [destruct H; lia|]. split; [by destruct H|]. unfold encode_rune, u00, escape. destruct H; repeat case_match; cbn; to_props; lia.
Qed.

(** One step of [encode_runes], and of the check, on a text that is not empty. *)
Lemma valid_step n s : s ≠ EmptyString → valid_runes (S n) s = true →
  ∃ r size raw t, DecodeRune s = (r, size) ∧ s = raw +:+ t ∧ rune_of r size raw ∧ ¬ (r = RuneError ∧ size = 1%nat) ∧
    valid_runes n t = true ∧ encode_runes (S n) s = encode_rune r raw +:+ encode_runes n t.
Proof.
  intros Hs Hv. destruct (DecodeRune s) as [r size] eqn:Hd.
  assert (valid_runes (S n) s = negb ((r =? RuneError) && Nat.eqb size 1) && valid_runes n (str_skip size s)) as Hv'.
  { destruct s; [done|]. cbn [valid_runes]. by rewrite Hd. }
  assert (encode_runes (S n) s = encode_rune r (str_first size s) +:+ encode_runes n (str_skip size s)) as He.
  { destruct s; [done|]. cbn [encode_runes]. by rewrite Hd. }
  rewrite Hv' in Hv. apply andb_true_iff in Hv as [Hno Hv].
  assert (¬ (r = RuneError ∧ size = 1%nat)) as Hne by (intros [-> ->]; by rewrite Z.eqb_refl in Hno).
  destruct (DecodeRune_sound s r size Hs Hd Hne) as (raw & t & Heq & Hr & Hfi & Hsk & _).
  exists r, size, raw, t. by rewrite He, Hfi, Hsk in *.
Qed.

Lemma unquote_runes n s more fuel : valid_runes n s = true → (String.length s < fuel)%nat →
  unquote fuel (encode_runes n s +:+ String DQ more) = Some (s, more).
Proof.
  revert s fuel. induction n as [|n IH]; intros s fuel Hv Hf; (destruct fuel as [|fuel]; [lia|]).
  - by destruct s.
  - destruct (decide (s = EmptyString)) as [->|Hs]; [done|].
    destruct (valid_step n s Hs Hv) as (r & size & raw & t & _ & -> & Hr & Hne & Ht & ->).
    rewrite string_app_assoc, (unquote_rune r size raw) by done.
    rewrite string_length_app in Hf. destruct (encode_rune_length _ _ _ Hr) as (? & ? & _). rewrite IH; [done|done|lia].
Qed.

Lemma encode_runes_length n s : valid_runes n s = true → (String.length s <= String.length (encode_runes n s))%nat.
Proof.
  revert s. induction n as [|n IH]; intros s Hv; [by destruct s|]. destruct (decide (s = EmptyString)) as [->|Hs]; [done|].
  destruct (valid_step n s Hs Hv) as (r & size & raw & t & _ & -> & Hr & _ & Ht%IH & ->).
  rewrite !string_length_app. destruct (encode_rune_length _ _ _ Hr) as (_ & ? & ?). lia.
Qed.

Lemma unquote_string s more : ValidString s = true →
  unquote (S (String.length (encode_runes (String.length s) s +:+ String DQ more)))
    (encode_runes (String.length s) s +:+ String DQ more) = Some (s, more).
Proof.
  intros Hv. apply unquote_runes; [done|]. rewrite string_length_app. pose proof (encode_runes_length _ _ Hv). lia.
Qed.

Lemma parse_string fuel depth s more : ValidString s = true →
  parse_value (S fuel) depth (json_string s +:+ more) = Some (JString s, more).
Proof.
  intros Hv. unfold json_string. rewrite app_String, string_app_assoc, app_String, app_Empty.
  cbn [parse_value skip_space]. change (json_space DQ) with false. cbv iota. change (Ascii.eqb DQ DQ) with true. cbv iota.
  by rewrite unquote_string.
Qed.

Lemma parse_field fuel depth k v c more : ValidString k = true → ValidString v = true → c = ","%char ∨ c = "}"%char →
  parse_fields (S (S fuel)) depth (json_field k (json_string v) +:+ String c more) =
  if Ascii.eqb c ","%char then '(l, rest) ← parse_fields (S fuel) depth more; Some ((k, JString v) :: l, rest)
  else Some ([(k, JString v)], more).
Proof.
  intros Hk Hv Hc. unfold json_field, json_string at 1. rewrite !app_String, !string_app_assoc, !app_String, !app_Empty.
  remember (S fuel) as fuel' eqn:Hf. cbn [parse_fields skip_space].
  change (json_space DQ) with false. cbv iota. change (Ascii.eqb DQ DQ) with true. cbv iota.
  rewrite unquote_string by done. cbn [mbind option_bind skip_space]. change (json_space ":") with false. cbv iota.
  change (Ascii.eqb ":" ":") with true. cbv iota. rewrite Hf, parse_string by done. cbn [mbind option_bind].
  by destruct Hc as [-> | ->].
Qed.

(** What is written for a struct of two fields is read back. *)
Lemma struct_roundtrip f g v w : ValidString f = true → ValidString g = true → ValidString v = true → ValidString w = true →
  parse_json ("{" +:+ json_field f (json_string v) +:+ "," +:+ json_field g (json_string w) +:+ "}") =
    Some (JObject [(f, JString v); (g, JString w)]).
Proof.
  intros Hf Hg Hv Hw. unfold parse_json. set (text := "{" +:+ _).
  assert (∃ n, String.length text = S (S n)) as [n Hn].
  { unfold text, json_field at 1, json_string at 1. rewrite !string_length_app. cbn [String.length]. eexists. cbn. reflexivity. }
  rewrite Hn. replace (S (2 * S (S n))) with (S (S (S (S (S (2 * n)))))) by lia. unfold text.
  rewrite app_String, app_Empty. set (more := json_field f _ +:+ _).
  assert (skip_space more = more) as Hsk by by unfold more, json_field at 1, json_string at 1; rewrite !app_String.
  assert (∃ m, more = String DQ m) as [m Hm] by (unfold more, json_field at 1, json_string at 1; rewrite !app_String; by eexists).
  cbn [parse_value]. change (skip_space (String "{" more)) with (String "{"%char more). cbv iota beta.
  rewrite Hsk, Hm. change (Ascii.eqb "{" DQ) with false. change (Ascii.eqb "{" "{") with true. cbv iota.
  change (maxNestingDepth <? 0 + 1) with false. change (Ascii.eqb DQ "}") with false. cbv iota. rewrite <-Hm. unfold more.
  change ("," +:+ ?x) with (String ","%char x). rewrite parse_field by auto.
  change (Ascii.eqb "," ",") with true. cbv iota. change ("}"%string) with (String "}"%char EmptyString).
  rewrite parse_field by auto. reflexivity.
Qed.
