(* ===== verification/Push.v ===== *)
(** * Push: what a push service is handed

    Models core/internal/push/push.go: the declarative payload, its encryption for one subscription
    (RFC 8291), the signed header that identifies the sender (RFC 8292), and what may be said of an
    endpoint.  The curve, the key derivation, the cipher and the hash belong to Go's crypto packages:
    they are the operations of [PushCrypto], and [PushCryptoLaw] states what is relied on. *)

From Stdlib Require Import String Ascii.
From S2P Require Import Prelude Base64 Json.

(** ** Cryptography *)

Definition octet (z : Z) : string := String (char_of_Z (z `mod` 256)) EmptyString.

Class PushCrypto : Type := {
  PrivateKey : Type;                               (* a P-256 scalar *)
  NewPrivateKey : string → option PrivateKey;      (* from its 32 octets *)
  PrivateBytes : PrivateKey → string;
  PublicKey : PrivateKey → string;                 (* the uncompressed point *)
  NewPublicKey : string → bool;                    (* whether the octets are a point *)
  ECDH : PrivateKey → string → option string;
  hkdf_Key : string → string → string → nat → option string;    (* secret, salt, info, length *)
  gcm_Seal : string → string → string → string;    (* key, nonce, plaintext *)
  gcm_Open : string → string → string → option string;
  hmac : string → string → string;                 (* HMAC-SHA-256: key, message *)
  Sum256 : string → string;
  ecdsa_Sign : PrivateKey → string → Z * Z }.

Class PushCryptoLaw `{PushCrypto} : Prop := {
  point_valid k : NewPublicKey (PublicKey k) = true;
  point_length k : String.length (PublicKey k) = 65%nat;
  ECDH_agrees a b : ∃ s, ECDH a (PublicKey b) = Some s ∧ ECDH b (PublicKey a) = Some s;
  (* RFC 5869: extract, then the first block of expand *)
  hkdf_block secret salt info n : (n ≤ 32)%nat →
    hkdf_Key secret salt info n = Some (str_first n (hmac (hmac salt secret) (info +:+ octet 1)));
  hmac_length k m : String.length (hmac k m) = 32%nat;
  Seal_length k n m : String.length (gcm_Seal k n m) = (String.length m + 16)%nat;
  Open_Seal k n m : gcm_Open k n (gcm_Seal k n m) = Some m }.

(** ** The payload *)

Record Notification : Type := mkNotification {
  no_Title : string; no_Body : string; no_Navigate : string; no_Kind : string }.

(** [omitempty]. *)
Definition omit_empty (name value : string) : list string :=
  if String.eqb value "" then [] else [json_field name (json_string value)].

Definition json_notification (n : Notification) : string :=
  "{" +:+ join ([json_field "title" (json_string (no_Title n))] ++ omit_empty "body" (no_Body n) ++
                [json_field "navigate" (json_string (no_Navigate n))] ++ omit_empty "kind" (no_Kind n)) ","
  +:+ "}".

Definition MarshalPayload (n : Notification) : result string :=
  if String.eqb (trim_space (no_Title n)) "" then Err "push: notification title is empty"
  else Ok ("{" +:+ json_field "web_push" "8030" +:+ "," +:+ json_field "notification" (json_notification n) +:+ "}").

(** ** Encryption *)

Definition recordSize : Z := 4096.
Definition maxBodyOctets : Z := 4096.
Definition maxPayload : Z := maxBodyOctets - 86 - 1 - 16.

Record Subscription : Type := mkPushTarget { sb_Endpoint : string; sb_P256DH : string; sb_Auth : string }.

(** [binary.BigEndian]: [n] octets. *)
Fixpoint big_endian (n : nat) (z : Z) : string :=
  match n with
  | O => EmptyString
  | S n => String (char_of_Z ((z / 256 ^ Z.of_nat n) `mod` 256)) (big_endian n z)
  end.

Lemma big_endian_length n z : String.length (big_endian n z) = n.
Proof. induction n as [|n IH]; [done|]. cbn [big_endian String.length]. by rewrite IH. Qed.

Section Crypto.
Context `{PushCrypto}.

Record derived : Type := mkDerived { dk_ikm : string; dk_cek : string; dk_nonce : string }.

Definition keyInfo (uaPublic asPublic : string) : string := "WebPush: info" +:+ octet 0 +:+ uaPublic +:+ asPublic.

Definition derive (shared uaPublic asPublic authSecret salt : string) : result derived :=
  match hkdf_Key shared authSecret (keyInfo uaPublic asPublic) 32 with
  | None => Err "push: derive ikm"
  | Some ikm =>
      match hkdf_Key ikm salt ("Content-Encoding: aes128gcm" +:+ octet 0) 16 with
      | None => Err "push: derive cek"
      | Some cek =>
          match hkdf_Key ikm salt ("Content-Encoding: nonce" +:+ octet 0) 12 with
          | None => Err "push: derive nonce"
          | Some nonce => Ok (mkDerived ikm cek nonce)
          end
      end
  end.

(** The ephemeral key and the salt are drawn by the caller of the model. *)
Definition Encrypt (sub : Subscription) (plaintext : string) (ephemeral : PrivateKey) (salt : string) : result string :=
  if maxPayload <? Z.of_nat (String.length plaintext) then
    Err ("push: payload is " +:+ fmt_d (Z.of_nat (String.length plaintext)) +:+ " octets, over the " +:+
         fmt_d maxPayload +:+ " the push service must accept")
  else match DecodeString RawURLEncoding (sb_P256DH sub) with
  | None => Err "push: p256dh is not base64url"
  | Some uaPublicRaw =>
      if negb (NewPublicKey uaPublicRaw) then Err "push: p256dh is not a P-256 point" else
      match DecodeString RawURLEncoding (sb_Auth sub) with
      | None => Err "push: auth is not base64url"
      | Some authSecret =>
          let asPublicRaw := PublicKey ephemeral in
          match ECDH ephemeral uaPublicRaw with
          | None => Err "push: ecdh"
          | Some shared =>
              match derive shared uaPublicRaw asPublicRaw authSecret salt with
              | Err e => Err e
              | Ok d =>
                  let ciphertext := gcm_Seal (dk_cek d) (dk_nonce d) (plaintext +:+ octet 2) in
                  Ok (salt +:+ big_endian 4 recordSize +:+ octet (Z.of_nat (String.length asPublicRaw)) +:+
                      asPublicRaw +:+ ciphertext)
              end
          end
      end
  end.

Definition ParseSubscriptionKeys (p256dh auth : string) : result (string * string) :=
  match DecodeString RawURLEncoding p256dh with
  | None => Err "push: p256dh is not base64url"
  | Some uaPublic =>
      if negb (NewPublicKey uaPublic) then Err "push: p256dh is not a P-256 point" else
      match DecodeString RawURLEncoding auth with
      | None => Err "push: auth is not base64url"
      | Some authSecret =>
          if bool_decide (String.length authSecret = 16%nat) then Ok (uaPublic, authSecret)
          else Err ("push: auth secret is " +:+ fmt_d (Z.of_nat (String.length authSecret)) +:+ " octets, want 16")
      end
  end.

(** ** The sender's identity *)

(** [strings.Cut]. *)
Fixpoint Cut (s sep : string) : string * string * bool :=
  if has_prefix s sep then (EmptyString, str_skip (String.length sep) s, true)
  else match s with
       | EmptyString => (EmptyString, EmptyString, false)
       | String c s' => let '(before, after, found) := Cut s' sep in
                        if found : bool then (String c before, after, true) else (String c before, EmptyString, false)
       end.

Definition redactEndpoint (endpoint : string) : string :=
  let '(scheme, rest, ok) := Cut endpoint "://" in
  if negb ok then "<endpoint>" else
  let '(host, _, _) := Cut rest "/" in
  if String.eqb host "" then "<endpoint>" else scheme +:+ "://" +:+ host +:+ "/<redacted>".
Definition RedactEndpoint : string → string := redactEndpoint.

Definition audienceOf (endpoint : string) : result string :=
  let '(scheme, rest, ok) := Cut endpoint "://" in
  if negb ok || String.eqb scheme "" || String.eqb rest "" then
    Err ("push: endpoint " +:+ quote (redactEndpoint endpoint) +:+ " has no scheme")
  else
    let '(host, _, _) := Cut rest "/" in
    if String.eqb host "" then Err ("push: endpoint " +:+ quote (redactEndpoint endpoint) +:+ " has no host")
    else Ok (scheme +:+ "://" +:+ host).

Definition VAPIDKeyFromBytes (b : string) : result PrivateKey :=
  if negb (bool_decide (String.length b = 32%nat)) then
    Err ("push: vapid private key is " +:+ fmt_d (Z.of_nat (String.length b)) +:+ " octets, want 32")
  else match NewPrivateKey b with
       | None => Err "push: vapid private key is not a valid P-256 scalar"
       | Some k => Ok k
       end.

Definition PublicKeyBase64 (k : PrivateKey) : string := EncodeToString RawURLEncoding (PublicKey k).

(** [time.Time.Unix]. *)
Definition Unix (t : time) : Z := t / Second.

(** encoding/json writes the keys of a map in order. *)
Definition claims (aud : string) (exp : Z) (subject : string) : string :=
  "{" +:+ json_field "aud" (json_string aud) +:+ "," +:+ json_field "exp" (fmt_d exp) +:+ "," +:+
  json_field "sub" (json_string subject) +:+ "}".
Definition jwt_header : string :=
  "{" +:+ json_field "typ" (json_string "JWT") +:+ "," +:+ json_field "alg" (json_string "ES256") +:+ "}".

Definition AuthorizationHeader (k : PrivateKey) (endpoint subject : string) (now : time) : result string :=
  match audienceOf endpoint with
  | Err e => Err e
  | Ok aud =>
      let exp := Unix (now + 12 * Hour) in
      let signingInput := EncodeToString RawURLEncoding jwt_header +:+ "." +:+
                          EncodeToString RawURLEncoding (claims aud exp subject) in
      let '(r, s) := ecdsa_Sign k (Sum256 signingInput) in
      Ok ("vapid t=" +:+ signingInput +:+ "." +:+
          EncodeToString RawURLEncoding (big_endian 32 r +:+ big_endian 32 s) +:+ ", k=" +:+ PublicKeyBase64 k)
  end.

Definition EndpointFingerprint (endpoint : string) : string := EncodeToString RawURLEncoding (Sum256 endpoint).

End Crypto.

(** ** A phone *)

(** What a browser does with a body, from RFC 8188 and RFC 8291 and from nothing of the sender's
    code: for a body of one record, the salt, the record size and the key of the sender are read off
    its front, and the key and the nonce of the record are the HMACs of RFC 8291, section 3.4. *)
Fixpoint all_zero (s : string) : bool :=
  match s with EmptyString => true | String c s => (Z_of_char c =? 0) && all_zero s end.
Fixpoint unpad (s : string) : option string :=
  match s with
  | EmptyString => None
  | String c s =>
      match unpad s with
      | Some t => Some (String c t)
      | None => if (Z_of_char c =? 2) && all_zero s then Some EmptyString else None
      end
  end.
Fixpoint from_big_endian (s : string) (acc : Z) : Z :=
  match s with EmptyString => acc | String c s => from_big_endian s (acc * 256 + Z_of_char c) end.

Section Phone.
Context `{PushCrypto}.

(** RFC 8291, section 3.4, line by line: the key of the content and the nonce. *)
Definition browser_keys (ecdh_secret auth_secret ua_public as_public salt : string) : string * string :=
  let PRK_key := hmac auth_secret ecdh_secret in
  let key_info := "WebPush: info" +:+ octet 0 +:+ ua_public +:+ as_public in
  let IKM := hmac PRK_key (key_info +:+ octet 1) in
  let PRK := hmac salt IKM in
  let cek_info := "Content-Encoding: aes128gcm" +:+ octet 0 in
  let CEK := str_first 16 (hmac PRK (cek_info +:+ octet 1)) in
  let nonce_info := "Content-Encoding: nonce" +:+ octet 0 in
  let NONCE := str_first 12 (hmac PRK (nonce_info +:+ octet 1)) in
  (CEK, NONCE).

Definition phone_opens (k : PrivateKey) (authSecret body : string) : option string :=
  let salt := str_first 16 body in let body := str_skip 16 body in
  let rs := from_big_endian (str_first 4 body) 0 in let body := str_skip 4 body in
  let idlen := Z.to_nat (byte_at body 0) in let body := str_skip 1 body in
  let keyid := str_first idlen body in let record := str_skip idlen body in
  if rs <? Z.of_nat (String.length record) then None else
  match ECDH k keyid with
  | None => None
  | Some shared =>
      let '(cek, nonce) := browser_keys shared authSecret (PublicKey k) keyid salt in
      gcm_Open cek nonce record ≫= unpad
  end.

(** The subscription that the browser of [k] hands over. *)
Definition subscription_of (endpoint : string) (k : PrivateKey) (authSecret : string) : Subscription :=
  mkPushTarget endpoint (EncodeToString RawURLEncoding (PublicKey k)) (EncodeToString RawURLEncoding authSecret).
End Phone.

(** *** Text *)

Lemma unpad_delimited m : unpad (m +:+ octet 2) = Some m.
Proof. induction m as [|c m IH]; [reflexivity|]. rewrite app_String. cbn [unpad]. by rewrite IH. Qed.

Section Law.
Context `{PushCryptoLaw}.

(** The code's derivation is the standard's.  An HMAC is as long as its hash, so the first 32 octets of
    one are the whole of it. *)
Lemma derive_keys shared ua a auth salt : ∃ d, derive shared ua a auth salt = Ok d ∧
  (dk_cek d, dk_nonce d) = browser_keys shared auth ua a salt.
Proof.
  unfold derive. rewrite !hkdf_block by lia. rewrite (str_first_all 32) by (by rewrite hmac_length).
  eexists. split; [done|]. done.
Qed.

(** What the phone reads off the front of a body. *)
Lemma phone_opens_frame k authSecret salt key record :
  String.length salt = 16%nat → String.length key = 65%nat → Z.of_nat (String.length record) ≤ recordSize →
  phone_opens k authSecret (salt +:+ big_endian 4 recordSize +:+ octet 65 +:+ key +:+ record) =
  match ECDH k key with
  | None => None
  | Some shared =>
      let '(cek, nonce) := browser_keys shared authSecret (PublicKey k) key salt in
      gcm_Open cek nonce record ≫= unpad
  end.
Proof.
  intros Hs Hk Hr. unfold phone_opens. rewrite (str_first_app 16), (str_skip_app 16) by done.
  rewrite (str_first_app 4), (str_skip_app 4) by reflexivity.
  replace (from_big_endian (big_endian 4 recordSize) 0) with recordSize by (vm_compute; reflexivity).
  replace (byte_at (octet 65 +:+ key +:+ record) 0) with 65 by done. rewrite (str_skip_app 1) by reflexivity.
  rewrite (str_first_app (Z.to_nat 65)), (str_skip_app (Z.to_nat 65)) by done.
  by destruct (Z.ltb_spec recordSize (Z.of_nat (String.length record))); [lia|].
Qed.

(** C24: What a push service is handed fits what every push service must take, and is read by the
    phone it is meant for.  A payload of up to 3993 octets is encrypted for the keys that a browser
    handed over into a body of at most 4096 octets, from which that browser, deriving the keys as RFC
    8291 says, recovers exactly the payload; a longer payload is refused. *)
Theorem push_reaches_phone endpoint phone authSecret payload ephemeral salt :
  String.length salt = 16%nat →
  if Z.of_nat (String.length payload) <=? 3993 then
    ∃ body, Encrypt (subscription_of endpoint phone authSecret) payload ephemeral salt = Ok body ∧
      Z.of_nat (String.length body) ≤ maxBodyOctets ∧ phone_opens phone authSecret body = Some payload
  else ∃ e, Encrypt (subscription_of endpoint phone authSecret) payload ephemeral salt = Err e.
Proof.
  intros Hsalt. unfold Encrypt. change maxPayload with 3993. rewrite Z.ltb_antisym.
  destruct (Z.leb_spec (Z.of_nat (String.length payload)) 3993) as [Hlen|_]; cbn [negb]; [|by eexists].
  unfold subscription_of. cbn [sb_P256DH sb_Auth]. rewrite !decode_encode, point_valid. cbn [negb].
  destruct (ECDH_agrees ephemeral phone) as (shared & -> & Hphone).
  destruct (derive_keys shared (PublicKey phone) (PublicKey ephemeral) authSecret salt) as (d & Hd & Hkeys).
  rewrite Hd, point_length. eexists. split; [done|]. split.
  - rewrite !string_length_app, Seal_length, string_length_app, point_length, Hsalt.
    change (String.length (big_endian 4 recordSize)) with 4%nat. change (String.length (octet _)) with 1%nat.
    unfold maxBodyOctets. lia.
  - change (Z.of_nat 65) with 65. rewrite phone_opens_frame; [|done|apply point_length|].
    + rewrite Hphone, <-Hkeys, Open_Seal. apply unpad_delimited.
    + rewrite Seal_length, string_length_app. change (String.length (octet 2)) with 1%nat. unfold recordSize. lia.
Qed.
End Law.
