(* ===== verification/PushService.v ===== *)
(** * PushService: who receives a notification

    Models core/internal/pushsvc: pushsvc.go (the key, the subscriptions), send.go and deliver.go (one
    notification to every subscription that should have it) and sendtest.go.  The database is that of
    [AuthStore] and the tables of [Notify]; the clock, the random draws of [Encrypt], whether a URL
    can be requested and what a push service answers are inputs, numbered by the use made of them. *)

From Stdlib Require Import String Ascii.
From S2P Require Import Prelude Domain Store Base64 AuthErrors AuthStore Notify Json Push.

#[local] Open Scope quince_scope.

Section PushService.
Context `{PushCrypto}.

Record Request : Type := mkRequest {
  rq_URL : string; rq_Authorization : string; rq_Urgency : string; rq_Body : string }.

(** What [http.Client.Do] yields: no response and its cause, or a status and what could be read of
    the body. *)
Inductive Response : Type := NoResponse (cause : string) | Answered (status : Z) (body : option string).

(** [url.Error.Error]: net/http and net/url report a failure with the URL it befell. *)
Definition url_error (op url cause : string) : string := op +:+ " " +:+ quote url +:+ ": " +:+ cause.

Record Surroundings : Type := mkSurroundings {
  su_now : nat → time;
  su_draw : nat → PrivateKey * string;          (* an ephemeral key and a salt *)
  su_newID : nat → string;
  su_unparsed : string → option string;         (* why [http.NewRequest] refuses a URL, if it does *)
  su_answer : nat → Request → Response }.

Record Service : Type := mkService {
  sv_auth : AuthDB;
  sv_notify : NotifyDB;
  sv_subject : string;
  sv_around : Surroundings;
  sv_uses : nat;
  sv_posted : list Request }.

Definition with_auth (a : AuthDB) (s : Service) : Service :=
  mkService a (sv_notify s) (sv_subject s) (sv_around s) (sv_uses s) (sv_posted s).
Definition with_notify (n : NotifyDB) (s : Service) : Service :=
  mkService (sv_auth s) n (sv_subject s) (sv_around s) (sv_uses s) (sv_posted s).

Definition on_auth {A} (m : stateM AuthDB A) : stateM Service A := lift_state sv_auth with_auth m.
Definition on_notify {A} (m : stateM NotifyDB A) : stateM Service A := lift_state sv_notify with_notify m.

Definition use {A} (f : Surroundings → nat → A) : stateM Service A := λ s,
  (f (sv_around s) (sv_uses s),
   mkService (sv_auth s) (sv_notify s) (sv_subject s) (sv_around s) (S (sv_uses s)) (sv_posted s)).

(** [s.client().Do(req)]. *)
Definition Do (req : Request) : stateM Service Response := λ s,
  (su_answer (sv_around s) (sv_uses s) req,
   mkService (sv_auth s) (sv_notify s) (sv_subject s) (sv_around s) (S (sv_uses s)) (sv_posted s ++ [req])).

Definition DefaultSubject : string := "https://github.com/novkostya/quince".
Definition WithSubject (subject : string) (s : Service) : Service :=
  if String.eqb subject "" then s
  else mkService (sv_auth s) (sv_notify s) subject (sv_around s) (sv_uses s) (sv_posted s).

(** ** The key and the subscriptions *)

Definition key_of (raw : string) : stateM Service (outcome PrivateKey) :=
  mret (match VAPIDKeyFromBytes raw with Ok k => Done k | Err e => Refuse (ErrOther e) end).

Definition VAPIDPublicKey : stateM Service (outcome string) :=
  let! raw := on_auth VAPIDPrivateKey in
  match raw with
  | Some raw => let! k := key_of raw in done (PublicKeyBase64 k)
  | None =>
      k ← use (λ su n, (su_draw su n).1);
      r ← on_auth (SetVAPIDPrivateKey (PrivateBytes k));
      match r with
      | Done _ => done (PublicKeyBase64 k)
      | Refuse e => refuse e
      end
  end.

Record WireSubscription : Type := mkWireSubscription {
  ws_ID : string; ws_Label : string; ws_State : string; ws_CreatedAt : string; ws_ExpiredAt : string;
  ws_LastSentAt : string; ws_Fingerprint : string }.

Definition optional_time (t : option time) : string := match t with Some t => fmtRFC t | None => ""%string end.

Definition Subscriptions : stateM Service (outcome (list WireSubscription)) :=
  let! rows := on_auth PushSubscriptions in
  done ((λ r, mkWireSubscription (ps_ID r) (ps_Label r)
                (match ps_ExpiredAt r with Some _ => "expired" | None => "live" end)
                (fmtRFC (ps_CreatedAt r)) (optional_time (ps_ExpiredAt r)) (optional_time (ps_LastSentAt r))
                (EndpointFingerprint (ps_Endpoint r))) <$> rows).

Definition Subscribe (endpoint p256dh auth label origin : string) : stateM Service (outcome string) :=
  if String.eqb endpoint "" || String.eqb p256dh "" || String.eqb auth "" then
    refuse (ErrOther "pushsvc: subscription is missing endpoint or keys")
  else match ParseSubscriptionKeys p256dh auth with
  | Err e => refuse (ErrOther e)
  | Ok _ =>
      id ← use su_newID;
      now ← use su_now;
      let! _ := on_auth (AddPushSubscription (mkPush id endpoint p256dh auth label origin now None None None)) in
      done id
  end.

Definition Unsubscribe (id : string) : stateM Service (outcome bool) := on_auth (DeletePushSubscription id).

(** ** One notification, one subscription *)

Record Result : Type := mkResult { re_Label : string; re_Sent : bool; re_Expired : bool; re_Err : option string }.

Definition has_suffix (s suffix : string) : bool :=
  (String.length suffix <=? String.length s)%nat &&
  String.eqb (str_skip (String.length s - String.length suffix) s) suffix.
Definition TrimSuffix (s suffix : string) : string :=
  if has_suffix s suffix then str_first (String.length s - String.length suffix) s else s.

Definition absoluteNavigate (path origin : string) : result string :=
  if has_prefix path "https://" || has_prefix path "http://" then Ok path
  else if String.eqb origin "" then
    Err ("this device subscribed before quince recorded which address it uses, so a notification could not be addressed to it — turn notifications off and on again on that device")
  else
    let path := if has_prefix path "/" then path else "/" +:+ path in
    Ok (TrimSuffix origin "/" +:+ path).

Definition payloadFor (d : Decision) (origin : string) : result string :=
  match absoluteNavigate (dc_Navigate d) origin with
  | Err e => Err e
  | Ok navigate => MarshalPayload (mkNotification (dc_Title d) (dc_Body d) navigate (dc_Kind d))
  end.

Definition KindTest : string := "test".

Definition urgencyFor (payload : string) : string :=
  if str_contains payload (json_field "kind" (json_string "action_required")) ||
     str_contains payload (json_field "kind" (json_string "backup_failed")) ||
     str_contains payload (json_field "kind" (json_string "test"))
  then "high" else "low".

Definition reasonMax : nat := 200.

(** [strings.Fields] on single-byte runes. *)
Fixpoint fields_of (s word : string) : list string :=
  let close := if String.eqb word "" then [] else [word] in
  match s with
  | EmptyString => close
  | String c s => if is_space c then close ++ fields_of s "" else fields_of s (word +:+ String c EmptyString)
  end.
Definition Fields (s : string) : list string := fields_of s "".

Definition reasonOf (body : option string) : string :=
  match body with
  | None => ""
  | Some raw =>
      let clean := join (Fields (str_first reasonMax raw)) " " in
      if String.eqb clean "" then "" else ": " +:+ clean
  end.

Definition receives (row : PushSubscription) (d : Decision) : bool :=
  match ps_ScopeUDID row with None => true | Some u => String.eqb u (dc_UDID d) end.

Definition failed_result (label err : string) : Result := mkResult label false false (Some err).

(** The error of the row that records an outcome. *)
Definition recorded (r : outcome unit) : option string :=
  match r with Done _ => None | Refuse _ => Some "store: could not record the delivery"%string end.

Definition deliverOne (key : PrivateKey) (row : PushSubscription) (payload subject : string) : stateM Service Result :=
  draw ← use su_draw;
  match Encrypt (mkPushTarget (ps_Endpoint row) (ps_P256DH row) (ps_Auth row)) payload draw.1 draw.2 with
  | Err e => mret (failed_result (ps_Label row) e)
  | Ok body =>
      now ← use su_now;
      match AuthorizationHeader key (ps_Endpoint row) subject now with
      | Err e => mret (failed_result (ps_Label row) e)
      | Ok auth =>
          unparsed ← gets (λ s, su_unparsed (sv_around s) (ps_Endpoint row));
          match unparsed with
          | Some cause =>
              mret (failed_result (ps_Label row) ("push: build request for " +:+ RedactEndpoint (ps_Endpoint row) +:+ ": " +:+
                                              url_error "parse" (ps_Endpoint row) cause))
          | None =>
            resp ← Do (mkRequest (ps_Endpoint row) auth (urgencyFor payload) body);
            match resp with
            | NoResponse cause =>
                mret (failed_result (ps_Label row) ("push: deliver to " +:+ RedactEndpoint (ps_Endpoint row) +:+ ": " +:+
                                                url_error "Post" (ps_Endpoint row) cause))
            | Answered status reason =>
                if (status =? 404) || (status =? 410) then
                  now ← use su_now;
                  r ← on_auth (ExpirePushSubscription (ps_Endpoint row) now);
                  mret (mkResult (ps_Label row) false true (recorded r))
                else if (200 <=? status) && (status <? 300) then
                  now ← use su_now;
                  r ← on_auth (MarkPushSent (ps_Endpoint row) now);
                  mret (mkResult (ps_Label row) true false (recorded r))
                else mret (failed_result (ps_Label row)
                       ("push: " +:+ RedactEndpoint (ps_Endpoint row) +:+ " answered " +:+ fmt_d status +:+ reasonOf reason))
            end
          end
      end
  end.

(** ** One notification, every subscription *)

Definition owner_of (row : PushSubscription) : string := default ""%string (ps_ScopeUDID row).

Definition deliver_row (key : PrivateKey) (d : Decision) (subject : string) (row : PushSubscription) :
    stateM Service (list Result) :=
  if negb (Live row) then mret []
  else if negb (receives row d) then mret []
  else
    on ← on_notify (DeviceNotificationsEnabled (dc_UDID d) (owner_of row));
    match on with
    | Ok false => mret []
    | _ =>    (* enabled, or unreadable: notifying anyway *)
        match payloadFor d (ps_Origin row) with
        | Err e => mret [failed_result (ps_Label row) e]
        | Ok payload => r ← deliverOne key row payload subject; mret [r]
        end
    end.

Fixpoint deliver_rows (key : PrivateKey) (d : Decision) (subject : string) (rows : list PushSubscription) :
    stateM Service (list Result) :=
  match rows with
  | [] => mret []
  | row :: rest => l ← deliver_row key d subject row; l' ← deliver_rows key d subject rest; mret (l ++ l')
  end.

Definition Deliver (d : Decision) (subject : string) : stateM Service (outcome (list Result)) :=
  let! raw := on_auth VAPIDPrivateKey in
  match raw with
  | None => done []
  | Some raw =>
      let! key := key_of raw in
      let! rows := on_auth PushSubscriptions in
      l ← deliver_rows key d subject rows; done l
  end.

Definition DeliverDecision (d : Decision) : stateM Service (outcome unit) :=
  subject ← gets sv_subject;
  let! results := Deliver d subject in
  let failed := Z.of_nat (length (filter (λ r, re_Sent r = false ∧ re_Expired r = false) results)) in
  if 0 <? failed then
    refuse (ErrOther ("pushsvc: " +:+ fmt_d failed +:+ " of " +:+ fmt_d (Z.of_nat (length results)) +:+
                      " subscriptions did not receive this notification"))
  else done tt.

(** ** The test notification *)

Record PushDeliveryResult : Type := mkDelivery { pd_Label : string; pd_State : string; pd_Error : string }.

Definition toWire (results : list Result) : list PushDeliveryResult :=
  (λ r, if re_Expired r then mkDelivery (re_Label r) "expired" ""
        else match re_Err r with
             | Some e => mkDelivery (re_Label r) "error" e
             | None => mkDelivery (re_Label r) (if re_Sent r then "sent" else "error") ""
             end) <$> results.

Definition testTitle : string := "Notifications are working".
Definition test_decision : Decision :=
  mkDecision KindTest "" testTitle "This is a test. Nothing needs backing up because of it." "/settings/notifications".

Definition SendTest : stateM Service (outcome (list PushDeliveryResult)) :=
  subject ← gets sv_subject;
  let! results := Deliver test_decision subject in done (toWire results).

End PushService.

(** * A notification goes to those whom it concerns, and to all of them *)

#[local] Open Scope quince_scope.

Section PushSafety.
Context `{Hcrypto : PushCrypto}.

(** ** Whom a decision concerns *)

(** The admin's browsers, and those of the device's own principal, unless they muted the device. *)
Definition concerned (d : Decision) (prefs : gmap (string * string) bool) (row : PushSubscription) : Prop :=
  ps_ExpiredAt row = None ∧ (ps_ScopeUDID row = None ∨ ps_ScopeUDID row = Some (dc_UDID d)) ∧
  prefs !! (dc_UDID d, owner_of row) ≠ Some false.
#[global] Instance concerned_dec d prefs row : base.Decision (concerned d prefs row).
Proof. unfold concerned. apply _. Defined.

(** A request that carries the decision to the browser of a row, and that only it can read. *)
Definition carries (d : Decision) (row : PushSubscription) (req : Request) : Prop :=
  rq_URL req = ps_Endpoint row ∧
  ∃ payload ephemeral salt, payloadFor d (ps_Origin row) = Ok payload ∧
    Encrypt (mkPushTarget (ps_Endpoint row) (ps_P256DH row) (ps_Auth row)) payload ephemeral salt = Ok (rq_Body req).

(** What a delivery never changes. *)
Record steady (s s' : Service) : Prop := {
  steady_prefs : nd_prefs (sv_notify s') = nd_prefs (sv_notify s);
  steady_reads : nd_read_fails (sv_notify s') = nd_read_fails (sv_notify s) }.

Lemma steady_refl s : steady s s.
Proof. by split. Qed.
Lemma steady_trans s1 s2 s3 : steady s1 s2 → steady s2 s3 → steady s1 s3.
Proof. intros [H1 H2] [H3 H4]. split; congruence. Qed.

Lemma run_on_auth {A} (m : stateM AuthDB A) (s : Service) :
  on_auth m s = ((m (sv_auth s)).1, with_auth (m (sv_auth s)).2 s).
Proof. unfold on_auth, lift_state. by destruct (m (sv_auth s)). Qed.

Lemma run_try {A B} (m : stateM Service (outcome A)) (k : A → stateM Service (outcome B)) s :
  try_bind m k s = match (m s).1 with Done a => k a (m s).2 | Refuse e => (Refuse e, (m s).2) end.
Proof. unfold try_bind, mbind, stateM_bind. by destruct (m s) as [[a|e] s']. Qed.

(** *** One subscription *)

Lemma deliverOne_does key row payload subject d s r s' : deliverOne key row payload subject s = (r, s') →
  payloadFor d (ps_Origin row) = Ok payload →
  re_Label r = ps_Label row ∧ sv_notify s' = sv_notify s ∧
  (sv_posted s' = sv_posted s ∨ ∃ req, sv_posted s' = sv_posted s ++ [req] ∧ carries d row req).
Proof.
  intros H Hp. revert H. unfold deliverOne, use, gets, Do, mbind, stateM_bind, mret, stateM_ret.
  destruct (Encrypt _ _ _ _) as [body|] eqn:Henc; [|intros [= <- <-]; auto].
  destruct (AuthorizationHeader _ _ _ _) as [auth|]; cbn; [|intros [= <- <-]; auto].
  destruct (su_unparsed _ _); cbn; [intros [= <- <-]; auto|].
  set (req := mkRequest _ _ _ _).
  assert (carries d row req) as Hreq by (split; [done|]; by eexists _, _, _).
  assert (sv_posted s ++ [req] = sv_posted s ∨ ∃ r, sv_posted s ++ [req] = sv_posted s ++ [r] ∧ carries d row r) as Hp' by (right; by exists req).
  destruct (su_answer _ _ _) as [cause|status reason]; [by intros [= <- <-]|].
  destruct ((status =? 404) || (status =? 410)); [|destruct ((200 <=? status) && (status <? 300))];
    rewrite ?run_on_auth; by intros [= <- <-].
Qed.

(** What handling one row may do: at most one request, which carries the decision to a row that is
    concerned, and a result if it is; a preference that cannot be read does not silence. *)
Definition row_done (d : Decision) (row : PushSubscription) (s : Service) (l : list Result) (s' : Service) : Prop :=
  steady s s' ∧
  (sv_posted s' = sv_posted s ∨
   ∃ req, sv_posted s' = sv_posted s ++ [req] ∧ carries d row req ∧
     (concerned d (nd_prefs (sv_notify s)) row ∨ ∃ n, nd_read_fails (sv_notify s) n = true)) ∧
  ((∀ n, nd_read_fails (sv_notify s) n = false) →
     re_Label <$> l = if decide (concerned d (nd_prefs (sv_notify s)) row) then [ps_Label row] else []).

Lemma row_skipped d row s s' : steady s s' → sv_posted s' = sv_posted s →
  ¬ concerned d (nd_prefs (sv_notify s)) row → row_done d row s [] s'.
Proof. intros H1 H2 H3. split_and!; [done|by left|]. intros _. by rewrite decide_False. Qed.

Lemma row_handled key d subject row s s1 l s' :
  steady s s1 → sv_posted s1 = sv_posted s →
  concerned d (nd_prefs (sv_notify s)) row ∨ (∃ n, nd_read_fails (sv_notify s) n = true) →
  match payloadFor d (ps_Origin row) with
  | Err e => (mret [failed_result (ps_Label row) e] : stateM Service _)
  | Ok payload => r ← deliverOne key row payload subject; mret [r]
  end s1 = (l, s') → row_done d row s l s'.
Proof.
  intros Hs1 Hp1 Hwhy E.
  assert (steady s s' ∧ re_Label <$> l = [ps_Label row] ∧
    (sv_posted s' = sv_posted s ∨ ∃ req, sv_posted s' = sv_posted s ++ [req] ∧ carries d row req)) as (Hs & Hl & Hposted).
  { destruct (payloadFor d (ps_Origin row)) as [payload|e] eqn:Hp.
    - unfold mbind, stateM_bind in E. destruct (deliverOne _ _ _ _ _) as [r s2] eqn:E2. injection E as <- <-.
      destruct (deliverOne_does _ _ _ _ _ _ _ _ E2 Hp) as (Hl & Hn & Hpost). cbn. rewrite Hl, <-Hp1.
      split_and!; [|done|done]. apply (steady_trans _ s1); [done|]. by split; rewrite Hn.
    - injection E as <- <-. cbn. auto. }
  split_and!; [done|destruct Hposted as [?|(req & ? & ?)]; eauto|].
  intros Hr. rewrite decide_True; [done|]. destruct Hwhy as [?|[n Hn]]; [done|]. by rewrite Hr in Hn.
Qed.

Lemma Live_iff row : Live row = true ↔ ps_ExpiredAt row = None.
Proof. unfold Live. apply bool_decide_eq_true. Qed.
Lemma receives_iff row d : receives row d = true ↔ ps_ScopeUDID row = None ∨ ps_ScopeUDID row = Some (dc_UDID d).
Proof.
  unfold receives. destruct (ps_ScopeUDID row) as [u|]; [|split; auto].
  rewrite String.eqb_eq. split; [intros ->; auto|intros [?|[= ->]]; done].
Qed.

Lemma deliver_row_does key d subject row s l s' : deliver_row key d subject row s = (l, s') → row_done d row s l s'.
Proof.
  unfold deliver_row. destruct (Live row) eqn:Hlive; cbn [negb].
  2: { intros [= <- <-]. apply row_skipped; [apply steady_refl|done|]. intros (He%Live_iff & _). congruence. }
  destruct (receives row d) eqn:Hrecv; cbn [negb].
  2: { intros [= <- <-]. apply row_skipped; [apply steady_refl|done|]. intros (_ & He%receives_iff & _). congruence. }
  apply Live_iff in Hlive. apply receives_iff in Hrecv.
  unfold on_notify, lift_state, DeviceNotificationsEnabled, read_row, mbind at 1, stateM_bind at 1.
  set (s1 := with_notify _ _). assert (steady s s1) as Hs1 by by split.
  destruct (nd_read_fails (sv_notify s) (nd_step (sv_notify s))) eqn:Hfail.
  { intros E. apply (row_handled key d subject row s s1); eauto. }
  destruct (nd_prefs (sv_notify s) !! (dc_UDID d, owner_of row)) as [[]|] eqn:Hpref; cbn [default].
  2: { intros [= <- <-]. apply row_skipped; [done..|]. by intros (_ & _ & []). }
  all: intros E; apply (row_handled key d subject row s s1); [done|done|left|done];
    split_and!; [done|done|congruence].
Qed.

(** *** Every subscription *)

Lemma deliver_rows_does key d subject rows : ∀ s l s', deliver_rows key d subject rows s = (l, s') →
  steady s s' ∧
  (∃ posted, sv_posted s' = sv_posted s ++ posted ∧
     ∃ served, served `sublist_of` rows ∧ Forall2 (carries d) served posted ∧
       Forall (λ row, concerned d (nd_prefs (sv_notify s)) row ∨ ∃ n, nd_read_fails (sv_notify s) n = true) served) ∧
  ((∀ n, nd_read_fails (sv_notify s) n = false) →
     re_Label <$> l = ps_Label <$> filter (concerned d (nd_prefs (sv_notify s))) rows).
Proof.
  induction rows as [|row rows IH]; intros s l s'; cbn [deliver_rows].
  { intros [= <- <-]. split; [apply steady_refl|]. split; [|done]. exists []. rewrite app_nil_r. split; [done|].
    exists []. by split_and!; [constructor..|]. }
  unfold mbind, stateM_bind. destruct (deliver_row _ _ _ _ _) as [l1 s1] eqn:E1.
  destruct (deliver_rows _ _ _ _ s1) as [l2 s2] eqn:E2. intros [= <- <-].
  destruct (deliver_row_does _ _ _ _ _ _ _ E1) as (Hs1 & Hp1 & Hl1).
  destruct (IH _ _ _ E2) as (Hs2 & (posted & Hp2 & served & Hsub & Hall & Hserved) & Hl2).
  destruct Hs1 as [Hprefs Hreads]. rewrite Hprefs, Hreads in *.
  split; [apply (steady_trans _ s1); [by split|done]|]. split.
  - destruct Hp1 as [Hp1|(req & Hp1 & Hreq & Hwhy)].
    + exists posted. rewrite Hp2, Hp1. split; [done|]. exists served. split_and!; [by constructor|done|done].
    + exists (req :: posted). rewrite Hp2, Hp1, <-app_assoc. split; [done|].
      exists (row :: served). split_and!; by constructor.
  - intros Hr. rewrite fmap_app, (Hl1 Hr), (Hl2 Hr), filter_cons. by case_decide.
Qed.

(** The statements that a delivery begins with change no row. *)
Lemma query_rows {A} (f : AuthDB → A) a : same_rows a (query f a).2.
Proof. apply (wp_query f (λ _ d', same_rows a d')). auto. Qed.

Lemma query_done {A} (f : AuthDB → A) a x : (query f a).1 = Done x → x = f (query f a).2.
Proof. unfold query, run_sql. destruct (statement _ _) as [[[]|msg] b]; by intros [= <-]. Qed.

(** Without a key there is no subscription, or the delivery is refused. *)
Lemma VAPIDPrivateKey_rows a : same_rows a (VAPIDPrivateKey a).2 ∧
  ((VAPIDPrivateKey a).1 = Done None → ad_push a = ∅).
Proof.
  unfold VAPIDPrivateKey, GetSetting, try_bind, mbind, stateM_bind.
  pose proof (query_rows (λ d, ad_settings d !! VAPIDKeySetting) a) as H1.
  destruct (query _ a) as [[[v|]|e] a1]; cbn [snd] in H1; [split; [done|]| |done].
  { cbn. by destruct (decodeVAPID v). }
  pose proof (query_rows (λ d, Z.of_nat (size (ad_push d))) a1) as H2.
  pose proof (query_done (λ d, Z.of_nat (size (ad_push d))) a1) as H3.
  destruct (query _ a1) as [[n|e] a2]; cbn [fst snd] in H2, H3; [|by split; [etrans|]].
  specialize (H3 n eq_refl) as ->. destruct (Z.ltb_spec 0 (Z.of_nat (size (ad_push a2)))); [by split; [etrans|]|].
  split; [by etrans|]. intros _. destruct H1 as (_ & _ & _ & _ & H1), H2 as (_ & _ & _ & _ & H2).
  rewrite <-H1, <-H2. apply map_size_empty_inv. lia.
Qed.

Lemma PushSubscriptions_rows a : same_rows a (PushSubscriptions a).2 ∧
  ∀ rows, (PushSubscriptions a).1 = Done rows → rows = merge_sort push_desc (snd <$> map_to_list (ad_push a)).
Proof.
  split; [apply query_rows|]. intros rows ->%query_done.
  destruct (query_rows (λ d, merge_sort push_desc (snd <$> map_to_list (ad_push d))) a) as (_ & _ & _ & _ & H).
  unfold PushSubscriptions. by rewrite H.
Qed.

(** A notification goes to those whom it concerns, and to all of them.  Every request of a
    delivery carries the decision, encrypted for its keys, to the browser of a subscription that has
    not expired, that belongs to the admin or to the principal of the decision's device and to nobody
    else, and whose owner has not muted the device (or whose preference could not be read); each
    subscription is sent at most one.  A delivery that gets as far as the subscriptions ends with one
    result for each of those concerned, in the order of the list: neither a browser that cannot be
    reached nor a malformed row keeps the others from theirs. *)
Theorem deliveries_confined d subject s r s' : Deliver d subject s = (r, s') →
  let rows := merge_sort push_desc (snd <$> map_to_list (ad_push (sv_auth s))) in
  let prefs := nd_prefs (sv_notify s) in
  (∃ posted, sv_posted s' = sv_posted s ++ posted ∧ ∃ served, served `sublist_of` rows ∧
     Forall2 (carries d) served posted ∧
     Forall (λ row, concerned d prefs row ∨ ∃ n, nd_read_fails (sv_notify s) n = true) served) ∧
  ((∀ n, nd_read_fails (sv_notify s) n = false) → ∀ results, r = Done results →
     re_Label <$> results = ps_Label <$> filter (concerned d prefs) rows).
Proof.
  intros E rows prefs. unfold Deliver in E. rewrite run_try, run_on_auth in E. cbn [fst snd] in E.
  assert (sv_posted s' = sv_posted s → ∃ posted, sv_posted s' = sv_posted s ++ posted ∧ ∃ served,
    served `sublist_of` rows ∧ Forall2 (carries d) served posted ∧
    Forall (λ row, concerned d prefs row ∨ ∃ n, nd_read_fails (sv_notify s) n = true) served) as Hnone.
  { intros Hs'. exists []. rewrite app_nil_r. split; [done|]. exists []. split_and!; [apply sublist_nil_l|constructor..]. }
  destruct (VAPIDPrivateKey_rows (sv_auth s)) as [Hrows Hkey]. revert E. set (s1 := with_auth _ s).
  destruct ((VAPIDPrivateKey (sv_auth s)).1) as [[raw|]|e].
  2: { intros [= <- <-]. split; [by apply Hnone|]. intros _ results H. injection H as <-. subst rows. by rewrite Hkey. }
  2: { intros [= <- <-]. split; [by apply Hnone|]. done. }
  rewrite run_try. unfold key_of. cbn [fst snd mret stateM_ret]. destruct (VAPIDKeyFromBytes raw) as [key|e].
  2: { intros [= <- <-]. split; [by apply Hnone|]. done. }
  rewrite run_try, run_on_auth. cbn [fst snd]. destruct (PushSubscriptions_rows (sv_auth s1)) as [_ Hlist].
  destruct ((PushSubscriptions (sv_auth s1)).1) as [rows'|e].
  2: { intros [= <- <-]. split; [by apply Hnone|]. done. }
  specialize (Hlist rows' eq_refl). destruct Hrows as (_ & _ & _ & _ & Hpush).
  assert (rows' = rows) as -> by (subst rows s1; cbn [sv_auth with_auth] in Hlist; by rewrite Hlist, Hpush). clear Hlist.
  unfold mbind, stateM_bind. set (s2 := with_auth _ s1).
  destruct (deliver_rows key d subject rows s2) as [l s3] eqn:E3. intros [= <- <-].
  destruct (deliver_rows_does _ _ _ _ _ _ _ E3) as (_ & Hposted & Hlabels).
  split; [exact Hposted|]. intros Hr results [= <-]. by apply Hlabels.
Qed.

End PushSafety.

(** * Browsers that receive, and one that does not *)

(** ** A cryptography that hides nothing *)

Fixpoint zeros (n : nat) : string := match n with O => EmptyString | S n => octet 0 +:+ zeros n end.
Lemma zeros_length n : String.length (zeros n) = n.
Proof. induction n as [|n IH]; [done|]. cbn [zeros]. rewrite string_length_app, IH. done. Qed.

Definition toy_point (k : ascii) : string := octet 4 +:+ String k (zeros 63).
(** A tag that depends on the key and the nonce, and a hash that depends on every octet. *)
Definition toy_tag (key nonce : string) : string := str_first 16 (key +:+ nonce +:+ zeros 16).
Definition toy_seal (key nonce m : string) : string := toy_tag key nonce +:+ m.
Definition toy_open (key nonce c : string) : option string :=
  if String.eqb (str_first 16 c) (toy_tag key nonce) then Some (str_skip 16 c) else None.
Fixpoint toy_hash (s : string) (acc : Z) : Z :=
  match s with EmptyString => acc | String c s => toy_hash s ((acc * 257 + Z_of_char c + 1) `mod` 2 ^ 256) end.
Definition toy_hmac (key message : string) : string := big_endian 32 (toy_hash (key +:+ octet 0 +:+ message) 0).

#[local] Instance toy : PushCrypto := {|
  PrivateKey := ascii;
  NewPrivateKey b := String.get 0 b;
  PrivateBytes k := String k (zeros 31);
  PublicKey := toy_point;
  NewPublicKey p := bool_decide (String.length p = 65%nat);
  ECDH a p := Some (octet (Z_of_char a + byte_at p 1));
  hkdf_Key secret salt info n := Some (str_first n (toy_hmac (toy_hmac salt secret) (info +:+ octet 1)));
  gcm_Seal := toy_seal;
  gcm_Open := toy_open;
  hmac := toy_hmac;
  Sum256 s := str_first 32 (s +:+ zeros 32);
  ecdsa_Sign k digest := (Z_of_char k, 1) |}.

Lemma toy_tag_length key nonce : String.length (toy_tag key nonce) = 16%nat.
Proof. unfold toy_tag. rewrite str_first_length, !string_length_app, zeros_length. lia. Qed.

#[local] Instance toy_law : PushCryptoLaw.
Proof.
  split.
  - intros k. by apply bool_decide_eq_true.
  - done.
  - intros a b. exists (octet (Z_of_char a + Z_of_char b)). split; [done|].
    change (Some (octet (Z_of_char b + Z_of_char a)) = Some (octet (Z_of_char a + Z_of_char b))). by rewrite Z.add_comm.
  - done.
  - intros k m. apply big_endian_length.
  - intros k n m. cbn. unfold toy_seal. rewrite string_length_app, toy_tag_length. lia.
  - intros k n m. cbn. unfold toy_open, toy_seal. rewrite (str_first_app 16), (str_skip_app 16) by apply toy_tag_length.
    by rewrite String.eqb_refl.
Qed.

Lemma push_reaches_phone_witness : ∃ body,
  Encrypt (subscription_of "https://push.example.net/a" ("k"%char : PrivateKey) "sixteen octets!!")
    "Backup Complete" ("e"%char : PrivateKey) "salt of 16 bytes" = Ok body ∧
  Z.of_nat (String.length body) ≤ maxBodyOctets ∧
  phone_opens ("k"%char : PrivateKey) "sixteen octets!!" body = Some "Backup Complete"%string.
Proof.
  exact (push_reaches_phone "https://push.example.net/a" ("k"%char : PrivateKey) "sixteen octets!!"
    "Backup Complete" ("e"%char : PrivateKey) "salt of 16 bytes" eq_refl).
Defined.

(** Another browser's secret opens nothing, and neither does the salt in its place. *)
Example wrong_secret_opens_nothing :
  match Encrypt (subscription_of "https://push.example.net/a" ("k"%char : PrivateKey) "sixteen octets!!")
          "Backup Complete" ("e"%char : PrivateKey) "salt of 16 bytes" with
  | Ok body => phone_opens ("k"%char : PrivateKey) "salt of 16 bytes" body
  | Err _ => Some ""%string
  end = None.
Proof. vm_compute. reflexivity. Qed.

(** ** Three browsers *)

Definition browser (id label : string) (scope : option string) (expired : option time) : PushSubscription :=
  mkPush id ("https://push.example.net/" +:+ id) (EncodeToString RawURLEncoding (toy_point "k"))
    (EncodeToString RawURLEncoding "sixteen octets!!") label "https://quince.home" 0 expired None scope.

Definition household : gmap string PushSubscription :=
  <["1" := browser "1" "Alice's laptop" None None]>
  (<["2" := browser "2" "Bob's iPad" (Some "ipad") None]>
  (<["3" := browser "3" "Carol's iPhone" (Some "iphone") None]>
  (<["4" := browser "4" "the old phone" None (Some 1)]> ∅))).

Definition push_db : AuthDB :=
  with_push (λ _, household) (with_settings (λ _, {[VAPIDKeySetting := encodeVAPID (PrivateBytes ("v"%char : PrivateKey))]}) empty_AuthDB).

(** The push service has lost the laptop. *)
Definition around : Surroundings :=
  mkSurroundings (λ _, 1000 * Second) (λ _, ("e"%char, "salt of 16 bytes"%string)) (λ n, "new-" +:+ fmt_d (Z.of_nat n))
    (λ _, None) (λ _ req, if String.eqb (rq_URL req) "https://push.example.net/1" then Answered 410 None else Answered 201 None).
Definition home : Service := mkService push_db (mkNotifyDB ∅ ∅ 0 (λ _, false) (λ _, false)) DefaultSubject around 0 [].

Definition carols_backup : Decision :=
  mkDecision KindBackupCompleted "iphone" "Backup Complete" "Carol's iPhone is backed up and verified." "/devices/iphone".

Example carol_hears_of_hers :
  (Deliver carols_backup DefaultSubject home).1 =
    Done [mkResult "Carol's iPhone" true false None; mkResult "Alice's laptop" false true None] ∧
  (λ req, (rq_URL req, rq_Urgency req)) <$> sv_posted (Deliver carols_backup DefaultSubject home).2 =
    [("https://push.example.net/3", "low"); ("https://push.example.net/1", "low")].
Proof. split; vm_compute; reflexivity. Qed.

Lemma deliveries_confined_witness : ∃ results,
  (Deliver carols_backup DefaultSubject home).1 = Done results ∧
  re_Label <$> results = ["Carol's iPhone"; "Alice's laptop"].
Proof.
  exists [mkResult "Carol's iPhone" true false None; mkResult "Alice's laptop" false true None].
  pose proof (proj1 carol_hears_of_hers) as Hr. split; [exact Hr|].
  destruct (deliveries_confined carols_backup DefaultSubject home _ _ (surjective_pairing _)) as [_ H].
  rewrite (H (λ _, eq_refl) _ Hr). vm_compute. reflexivity.
Defined.

(** Subscribing a browser again answers with an id that no row has. *)
Definition again : outcome string * Service :=
  Subscribe "https://push.example.net/1" (EncodeToString RawURLEncoding (toy_point "k"))
    (EncodeToString RawURLEncoding "sixteen octets!!") "Alice's laptop" "https://quince.home" home.
Example resubscribing_names_no_row :
  again.1 = Done "new-0" ∧ (Unsubscribe "new-0" again.2).1 = Done false.
Proof. split; vm_compute; reflexivity. Qed.

(** What is said of a browser that cannot be reached has its whole address in it, the capability to
    push to it, although the first half of the sentence keeps it back. *)
Definition offline : Surroundings :=
  mkSurroundings (su_now around) (su_draw around) (su_newID around) (su_unparsed around)
    (λ _ _, NoResponse "dial tcp: no route to host").
Definition home_offline : Service :=
  mkService push_db (mkNotifyDB ∅ ∅ 0 (λ _, false) (λ _, false)) DefaultSubject offline 0 [].
Example unreachable_endpoint_is_told :
  (SendTest home_offline).1 = Done [mkDelivery "Alice's laptop" "error"
    ("push: deliver to https://push.example.net/<redacted>: Post " +:+ quote "https://push.example.net/1" +:+
     ": dial tcp: no route to host")].
Proof. vm_compute. reflexivity. Qed.
