(* ===== verification/DeviceTools.v ===== *)
(** * DeviceTools: the command-line tools that talk to a phone

    Models core/internal/deviceops/deviceops.go, wrappers.go and pty.go, and the pairing record of
    core/internal/muxd/pairrecord.go: which commands are run, what is made of their output, and how
    a terminal is answered.  A wrapper is a program of actions ([prog]): what a process printed, how
    it ended, and what a muxer replied are the answers that the surroundings give to an action.  A
    process may take any time, or hang; the deadline of the context that it is run under ends it. *)

From Stdlib Require Import String Ascii.
From S2P Require Import Prelude Domain Store Events Net Registry.

(** ** Programs of actions *)

(** What a process printed on its two streams, and the error that waiting for it gave. *)
Record run_output : Type := mkOutput { ro_stdout : string; ro_stderr : string; ro_err : option string }.

(** What a terminal showed, read by read, and how its process ended. *)
Record session : Type := mkSession { ss_start_err : option string; ss_reads : list string; ss_err : option string }.

Inductive PairRecordState : Type := PairRecordUnknown | PairRecordAbsent | PairRecordPresent.
#[global] Instance PairRecordState_eq_dec : EqDecision PairRecordState.
Proof. solve_decision. Defined.
Record PairRecord : Type := mkPairRecord { pr_State : PairRecordState; pr_Digest : string }.

(** What one exchange with a muxer ends with: a reply, a connection closed without one, any other
    failure. *)
Inductive asked : Type := Replied (number : Z) (digest : option string) | NoReply | AskFailed.

(** A context, by its deadline, if it has one: a tool that is running then is killed.  Cancelling is
    left to the daemon's shutdown, which is not modelled. *)
Abbreviation context := (option time).
Definition Background : context := None.

Inductive act : Type → Type :=
  | ARun (ctx : context) (bin udid transport : string) (args : list string) : act run_output
  | ATerminal (ctx : context) (udid transport : string) (args : list string) : act session
  | AAnswer (line : string) : act unit
  | AAsk (ctx : context) (udid transport : string) : act asked
  | ANow : act time
  | AWait (ctx : context) (poll : duration) : act bool         (* the context was done *)
  | ASetOp (id state msg : string) (err : option JobError) : act unit
  | ADevice (udid : string) : act (option Device)
  | AEnrich (udid : string) (i : Identity) : act unit
  | AAudit (event udid outcome : string) : act unit.

Inductive prog (A : Type) : Type :=
  | Ret (a : A)
  | Do {X : Type} (e : act X) (k : X → prog A).
Arguments Ret {A} a.
Arguments Do {A X} e k.

#[global] Instance prog_ret : MRet prog := λ A, Ret.
#[global] Instance prog_bind : MBind prog :=
  λ A B f, fix go p := match p with Ret a => f a | Do e k => Do e (λ x, go (k x)) end.
Definition perform {X} (e : act X) : prog X := Do e Ret.

(** [context.WithTimeout]. *)
Definition WithTimeout (ctx : context) (timeout : duration) : prog context :=
  now ← perform ANow;
  mret (Some (match ctx with Some deadline => Z.min deadline (now + timeout) | None => now + timeout end)).

(** ** Commands *)

Definition Idevicepair : string := "idevicepair".
Definition Ideviceinfo : string := "ideviceinfo".
Definition Idevicebackup2 : string := "idevicebackup2".
Definition ErrBadUDID : string := "deviceops: invalid udid".

Definition networkArgs (transport : string) : list string :=
  if bool_decide (transport = TransportWiFi) then ["-n"] else [].

(** The wrapping of an error that is nil: [fmt.Errorf]'s [%w]. *)
Definition wrapped (err : option string) : string := default "%!w(<nil>)"%string err.

Inductive validateResult : Type := validateUnknown | validatePaired | validateNotPaired | validateLocked.
#[global] Instance validateResult_eq_dec : EqDecision validateResult.
Proof. solve_decision. Defined.

Definition pairedString (vr : validateResult) : string :=
  match vr with validatePaired => "yes" | validateNotPaired => "no" | _ => "unknown" end.

Definition validate (ctx : context) (udid transport : string) : prog (validateResult * option string) :=
  if negb (validUDID udid) then mret (validateUnknown, Some ErrBadUDID) else
  r ← perform (ARun ctx Idevicepair udid transport (networkArgs transport ++ ["-u"; udid; "validate"]));
  let combined := ro_stdout r +:+ ro_stderr r in
  let clean := bool_decide (ro_err r = None) in
  mret
    (if clean && str_contains (ro_stdout r) "SUCCESS: Validated" then (validatePaired, None)
     else if str_contains combined "is not paired with this host" then (validateNotPaired, None)
     else if str_contains combined "passcode is set" then (validateLocked, None)
     else if clean then (validatePaired, None)
     else (validateUnknown, Some ("idevicepair validate: " +:+ wrapped (ro_err r) +:+ ": " +:+ trim_space combined))).

Definition Validate (ctx : context) (udid transport : string) : prog (bool * option string) :=
  r ← validate ctx udid transport;
  let '(vr, err) := r in
  mret (match err with Some e => (false, Some e) | None => (bool_decide (vr = validatePaired), None) end).

Section tools.
(** howett.net/plist: the strings that a property list has under [DeviceName], [ProductType] and
    [ProductVersion]; empty strings if it cannot be read. *)
Context (parseInfoPlist : string → string * string * string).

Definition info (ctx : context) (udid transport : string) (simple : bool) : prog (string * string * string) :=
  let args := networkArgs transport ++ (if simple then ["-s"] else []) ++ ["-u"; udid; "-x"] in
  r ← perform (ARun ctx Ideviceinfo udid transport args);
  mret (match ro_err r with Some _ => ("", "", "")%string | None => parseInfoPlist (ro_stdout r) end).

Definition scalarTriState (r : run_output) : string :=
  match ro_err r with
  | Some _ => "unknown"
  | None =>
      let out := trim_space (ro_stdout r) in
      if String.eqb out "true" then "on"
      else if String.eqb out "false" || String.eqb out "" then "off" else "unknown"
  end.

Definition backupDomain : string := "com.apple.mobile.backup".
Definition wifiSyncDomain : string := "com.apple.mobile.wireless_lockdown".
Definition wifiSyncKey : string := "EnableWifiConnections".

Definition willEncrypt (ctx : context) (udid transport : string) : prog string :=
  r ← perform (ARun ctx Ideviceinfo udid transport
                 (networkArgs transport ++ ["-u"; udid; "-q"; backupDomain; "-k"; "WillEncrypt"]));
  mret (scalarTriState r).

Definition wifi_args (udid transport : string) : list string :=
  networkArgs transport ++ ["-u"; udid; "-q"; wifiSyncDomain; "-k"; wifiSyncKey].
Definition wifiSync (ctx : context) (udid transport : string) : prog string :=
  r ← perform (ARun ctx Ideviceinfo udid transport (wifi_args udid transport)); mret (scalarTriState r).

(** [strings.TrimRight(s, "\r\n")] and what follows the last line break. *)
Definition is_break (c : ascii) : bool := let n := Z_of_char c in (n =? 10) || (n =? 13).
Fixpoint trim_breaks (s : string) : string :=
  match s with
  | EmptyString => EmptyString
  | String c s' =>
      match trim_breaks s' with
      | EmptyString => if is_break c then EmptyString else String c EmptyString
      | t => String c t
      end
  end.
Fixpoint after_break (s : string) (line : string) : string :=
  match s with
  | EmptyString => line
  | String c s' => if is_break c then after_break s' s' else after_break s' line
  end.
Definition lastLine (s : string) : string := let s := trim_breaks s in after_break s s.

(** An error of [SetWifiSync], by the sentinel that it wraps. *)
Inductive WifiSyncError : Type :=
  ErrWifiSyncUnverifiable | ErrWifiSyncNotApplied | ErrWifiSyncUnreadable | ErrWifiSyncOther (msg : string).
#[global] Instance WifiSyncError_eq_dec : EqDecision WifiSyncError.
Proof. solve_decision. Defined.

Definition SetWifiSync (ctx : context) (udid transport : string) (enable : bool) : prog (option WifiSyncError) :=
  let want := if enable then "true"%string else "false"%string in
  r ← perform (ARun ctx Ideviceinfo udid transport (wifi_args udid transport ++ ["--set-bool"; want]));
  match ro_err r with
  | Some e => mret (Some (ErrWifiSyncOther ("ideviceinfo --set-bool: " +:+ e +:+ ": " +:+ lastLine (ro_stderr r))))
  | None =>
      got ← wifiSync ctx udid transport;
      mret (if String.eqb got "unknown" then Some ErrWifiSyncUnreadable
            else if negb (eqb (String.eqb got "on") enable) then Some ErrWifiSyncNotApplied
            else None)
  end.

Definition Info (ctx : context) (udid transport : string) : prog (result Identity) :=
  if negb (validUDID udid) then mret (Err ErrBadUDID) else
  v ← validate ctx udid transport;
  let vr := v.1 in
  if bool_decide (vr = validatePaired) then
    i ← info ctx udid transport false;
    encryption ← willEncrypt ctx udid transport;
    wifi ← wifiSync ctx udid transport;
    mret (Ok (mkIdentity i.1.1 i.1.2 i.2 (pairedString vr) encryption wifi))
  else
    i ← info ctx udid transport true;
    mret (Ok (mkIdentity i.1.1 i.1.2 i.2 (pairedString vr) "" "")).

(** ** Pairing *)

Inductive pairOutcome : Type := pairFailed | pairPaired | pairNeedTrust | pairNeedPasscode | pairDenied | pairNotUSB.

Definition pairAttempt (ctx : context) (udid transport : string) : prog (pairOutcome * string * option string) :=
  if negb (validUDID udid) then mret (pairFailed, ""%string, Some ErrBadUDID) else
  r ← perform (ARun ctx Idevicepair udid transport (networkArgs transport ++ ["-u"; udid; "pair"]));
  let combined := ro_stdout r +:+ ro_stderr r in
  mret
    (if bool_decide (ro_err r = None) && str_contains (ro_stdout r) "SUCCESS: Paired"
     then (pairPaired, "Paired with this computer.", None)
     else if str_contains combined "accept the trust dialog"
     then (pairNeedTrust, "Tap Trust on the device to allow this computer, then it will finish automatically.", None)
     else if str_contains combined "passcode is set"
     then (pairNeedPasscode, "Enter the passcode on the device to continue pairing.", None)
     else if str_contains combined "denied the trust dialog"
     then (pairDenied, "The trust request was declined on the device.", None)
     else if str_contains combined "not possible over this connection"
     then (pairNotUSB, "Pairing needs a USB connection.", None)
     else (pairFailed, "", Some ("idevicepair pair: " +:+ wrapped (ro_err r) +:+ ": " +:+ trim_space combined)))%string.

(** *** The record that a pairing leaves with the muxer *)

Definition Recorded (before after : PairRecord) : bool :=
  if bool_decide (pr_State before = PairRecordUnknown) || bool_decide (pr_State after = PairRecordUnknown) then false
  else if bool_decide (pr_State after = PairRecordAbsent) then false
  else if bool_decide (pr_State before = PairRecordAbsent) then true
  else negb (String.eqb (pr_Digest before) (pr_Digest after)).

Definition usbmuxdNoRecord : Z := 2.

(** What a reply says: a record, none, or neither, which is an error. *)
Definition record_of (a : asked) : option PairRecord :=
  match a with
  | Replied _ (Some digest) => Some (mkPairRecord PairRecordPresent digest)
  | Replied number None => if number =? usbmuxdNoRecord then Some (mkPairRecord PairRecordAbsent "") else None
  | _ => None
  end.
Definition unknown_record : PairRecord := mkPairRecord PairRecordUnknown "".

Definition pairRecordTimeout : duration := 5 * Second.

Definition ReadPairRecord (ctx : context) (udid transport : string) : prog PairRecord :=
  ctx ← WithTimeout ctx pairRecordTimeout;
  a ← perform (AAsk ctx udid transport);
  match record_of a, a with
  | Some rec, _ => mret rec
  | None, NoReply =>
      a ← perform (AAsk ctx udid transport);
      mret (match record_of a, a with
            | Some rec, _ => rec
            | None, NoReply => mkPairRecord PairRecordAbsent ""
            | None, _ => unknown_record
            end)
  | None, _ => mret unknown_record
  end.

(** ** A terminal that is answered *)

Record ptyAnswer : Type := mkAnswer { an_promptSubstr : string; an_value : string }.

(** [strings.ToLower] on single-byte runes. *)
Definition lower_char (c : ascii) : ascii :=
  let n := Z_of_char c in if (65 <=? n) && (n <=? 90) then char_of_Z (n + 32) else c.
Fixpoint to_lower (s : string) : string :=
  match s with EmptyString => EmptyString | String c s => String (lower_char c) (to_lower s) end.

Definition containsFold (haystack needle : string) : bool := str_contains (to_lower haystack) (to_lower needle).
Definition isDeviceConfirm (s : string) : bool :=
  let l := to_lower s in str_contains l "passcode" && str_contains l "the device".

(** The answers that a read calls for, and those that are left; an answer empties what is pending. *)
Fixpoint answer_prompts (pending : string) (answers : list ptyAnswer) : list string * string * list ptyAnswer :=
  match answers with
  | a :: rest =>
      if containsFold pending (an_promptSubstr a) then
        let '(written, pending, left_) := answer_prompts "" rest in
        ((an_value a +:+ String (char_of_Z 10) EmptyString) :: written, pending, left_)
      else ([], pending, answers)
  | [] => ([], pending, [])
  end.

Fixpoint write_all (lines : list string) : prog unit :=
  match lines with [] => mret tt | l :: ls => perform (AAnswer l);; write_all ls end.

Fixpoint feedPTY (reads : list string) (captured pending : string) (fired : bool) (answers : list ptyAnswer)
    (onDeviceConfirm : prog unit) : prog string :=
  match reads with
  | [] => mret captured
  | chunk :: reads =>
      let captured := captured +:+ chunk in
      let fires := negb fired && isDeviceConfirm captured in
      (if fires then onDeviceConfirm else mret tt);;
      let '(written, pending, answers) := answer_prompts (pending +:+ chunk) answers in
      write_all written;;
      feedPTY reads captured pending (fired || fires) answers onDeviceConfirm
  end.

Definition runInteractiveBackup2 (ctx : context) (udid transport : string) (args : list string) (answers : list ptyAnswer)
    (onDeviceConfirm : prog unit) : prog (option string) :=
  s ← perform (ATerminal ctx udid transport args);
  match ss_start_err s with
  | Some e => mret (Some e)
  | None =>
      captured ← feedPTY (ss_reads s) "" "" false answers onDeviceConfirm;
      mret (match ss_err s with
            | Some e => Some ("idevicebackup2: " +:+ e +:+ ": " +:+ trim_space (lastLine captured))
            | None => None
            end)
  end.

Definition backup2Opts (udid transport : string) : list string := ["-i"; "-u"; udid] ++ networkArgs transport.

Definition Encryption (ctx : context) (udid transport : string) (enable : bool) (password : string) (onDeviceConfirm : prog unit) :
    prog (option string) :=
  if negb (validUDID udid) then mret (Some ErrBadUDID) else
  let answer := mkAnswer "backup password" password in
  let '(state, answers) := if enable then ("on"%string, [answer; answer]) else ("off"%string, [answer]) in
  runInteractiveBackup2 ctx udid transport (backup2Opts udid transport ++ ["encryption"; state]) answers onDeviceConfirm.

Definition ChangePassword (ctx : context) (udid transport oldPassword newPassword : string) (onDeviceConfirm : prog unit) :
    prog (option string) :=
  if negb (validUDID udid) then mret (Some ErrBadUDID) else
  runInteractiveBackup2 ctx udid transport (backup2Opts udid transport ++ ["changepw"])
    [mkAnswer "old backup password" oldPassword; mkAnswer "new backup password" newPassword;
     mkAnswer "new backup password" newPassword] onDeviceConfirm.

End tools.
