(* ===== verification/DeviceOps.v ===== *)
(** * DeviceOps: one operation on a phone at a time

    Models core/internal/deviceops/manager.go and enrich.go: the operations that pair a device, change
    its backup encryption and its Wi-Fi sync, run in the background and report through [Op] and the
    events.  The body of an operation is a program of [DeviceTools]; every operation that is under
    way is a thread, and a move lets one thread perform its next action, so that operations, calls of
    the API and changes of the registry interleave in every way.  What processes, muxers and the
    clock answer, and how long a process takes, is an input, numbered. *)

From Stdlib Require Import String Ascii.
From S2P Require Import Prelude Domain Store Events Net Registry DeviceTools.

Section DeviceOps.
Context `{Hrange : !MapRange} (parseInfoPlist : string → string * string * string).

(** ** State *)

Record Surroundings : Type := mkSurroundings {
  su_newID : nat → string;
  su_run : nat → string → list string → run_output;
  su_terminal : nat → list string → session;
  su_ask : nat → string → asked;
  su_took : nat → option duration;     (* how long a tool or a muxer takes by itself; none: it hangs *)
  su_late : nat → duration;            (* how much later than due the clock is read *)
  su_prefers_done : nat → bool;        (* which of two ready cases a [select] takes *)
  su_audit_fails : nat → bool }.

Record Thread : Type := mkThread { th_udid : string; th_op : string; th_prog : prog unit }.

Record Manager : Type := mkManager {
  dm_ops : gmap string Op;
  dm_inflight : gmap string string;
  dm_threads : list Thread;
  dm_devs : Registry;
  dm_published : list (string * payload);
  dm_audit : list AuditEntry;
  dm_clock : time;
  dm_n : nat;                          (* how many answers the surroundings gave *)
  dm_around : Surroundings }.

Definition NewManager (devs : Registry) (now : time) (around : Surroundings) : Manager :=
  mkManager ∅ ∅ [] devs [] [] now 0 around.

Definition with_ops (ops : gmap string Op) (m : Manager) : Manager :=
  mkManager ops (dm_inflight m) (dm_threads m) (dm_devs m) (dm_published m) (dm_audit m) (dm_clock m) (dm_n m) (dm_around m).
Definition with_inflight (f : gmap string string) (m : Manager) : Manager :=
  mkManager (dm_ops m) f (dm_threads m) (dm_devs m) (dm_published m) (dm_audit m) (dm_clock m) (dm_n m) (dm_around m).
Definition with_threads (ts : list Thread) (m : Manager) : Manager :=
  mkManager (dm_ops m) (dm_inflight m) ts (dm_devs m) (dm_published m) (dm_audit m) (dm_clock m) (dm_n m) (dm_around m).
Definition with_devs (r : Registry) (m : Manager) : Manager :=
  mkManager (dm_ops m) (dm_inflight m) (dm_threads m) r (dm_published m) (dm_audit m) (dm_clock m) (dm_n m) (dm_around m).
Definition publish (es : list (string * payload)) (m : Manager) : Manager :=
  mkManager (dm_ops m) (dm_inflight m) (dm_threads m) (dm_devs m) (dm_published m ++ es) (dm_audit m) (dm_clock m) (dm_n m) (dm_around m).
Definition audited (es : list AuditEntry) (m : Manager) : Manager :=
  mkManager (dm_ops m) (dm_inflight m) (dm_threads m) (dm_devs m) (dm_published m) (dm_audit m ++ es) (dm_clock m) (dm_n m) (dm_around m).
(** An answer was taken, at some later time. *)
Definition answered (now : time) (m : Manager) : Manager :=
  mkManager (dm_ops m) (dm_inflight m) (dm_threads m) (dm_devs m) (dm_published m) (dm_audit m) now (S (dm_n m)) (dm_around m).

(** ** The registry of operations *)

Definition Op_of (id : string) (m : Manager) : option Op := dm_ops m !! id.

Definition opsSoftCap : nat := 200.
Definition inFlightMsg : string := "another operation is already running on this device — wait for it to finish".

Definition op_settled (op : Op) : Prop := op_State op = "succeeded"%string ∨ op_State op = "failed"%string.
#[global] Instance op_settled_dec op : Decision (op_settled op).
Proof. unfold op_settled. apply _. Defined.

Definition prune (ops : gmap string Op) : gmap string Op :=
  if (size ops <? opsSoftCap)%nat then ops else filter (λ kv, ¬ op_settled kv.2) ops.

Definition startGuardedOp (kind udid msg : string) (fn : string → prog unit) : stateM Manager (option Op) := λ m,
  let op := mkOp (su_newID (dm_around m) (dm_n m)) udid kind "running" msg None in
  let m := answered (dm_clock m) m in
  if bool_decide (is_Some (dm_inflight m !! udid)) then (None, m)
  else
    let m := with_inflight (<[udid := op_ID op]> (dm_inflight m)) m in
    let m := with_ops (<[op_ID op := op]> (prune (dm_ops m))) m in
    let m := publish [(EventOpUpdated, OfOp op)] m in
    (Some op, with_threads (dm_threads m ++ [mkThread udid (op_ID op) (fn (op_ID op))]) m).

Definition releaseUDID (udid : string) (m : Manager) : Manager := with_inflight (delete udid (dm_inflight m)) m.

Definition updated_op (op : Op) (state msg : string) (opErr : option JobError) : Op :=
  mkOp (op_ID op) (op_UDID op) (op_Kind op) state
    (if negb (String.eqb msg "") then msg else op_Message op)
    (match opErr with Some e => Some e | None => op_Error op end).

Definition setOp (id state msg : string) (opErr : option JobError) (m : Manager) : Manager :=
  match dm_ops m !! id with
  | None => m
  | Some op =>
      let op := updated_op op state msg opErr in
      publish [(EventOpUpdated, OfOp op)] (with_ops (<[id := op]> (dm_ops m)) m)
  end.

(** ** Actions *)

Definition auditEvent (event udid outcome : string) (m : Manager) : Manager :=
  let n := dm_n m in
  let m := answered (dm_clock m) m in
  if su_audit_fails (dm_around m) n then m
  else audited [mkAudit (su_newID (dm_around m) n) (dm_clock m) event (udid +:+ " " +:+ outcome)] m.

(** [select] on the context and on [time.After(poll)]. *)
Definition wait (ctx : context) (poll : duration) (m : Manager) : bool * Manager :=
  let n := dm_n m in
  let due := dm_clock m + poll in
  let late := Z.max 0 (su_late (dm_around m) n) in
  match ctx with
  | None => (false, answered (due + late) m)
  | Some deadline =>
      if deadline <=? dm_clock m then (true, answered (dm_clock m) m)
      else
        let wake := Z.min due deadline + late in
        (if wake <? due then true
         else if wake <? deadline then false
         else su_prefers_done (dm_around m) n,
         answered wake m)
  end.

(** How a tool or an exchange with a muxer ends: by itself, or cut short by its context; and when. *)
Inductive ending : Type := ByItself | CutShort | NeverStarted.
Definition tool_end (ctx : context) (m : Manager) : option (ending * time) :=
  let n := dm_n m in
  let done_at := (λ took, dm_clock m + Z.max 0 took) <$> su_took (dm_around m) n in
  match ctx with
  | None => (λ t, (ByItself, t)) <$> done_at
  | Some deadline =>
      if deadline <=? dm_clock m then Some (NeverStarted, dm_clock m)
      else match done_at with
           | Some t => if t <? deadline then Some (ByItself, t)
                       else Some (CutShort, deadline + Z.max 0 (su_late (dm_around m) n))
           | None => Some (CutShort, deadline + Z.max 0 (su_late (dm_around m) n))
           end
  end.

(** A tool that hangs without a deadline: whoever waits for it waits until the daemon is shut down. *)
Definition hangs {X} (e : act X) (m : Manager) : bool :=
  match e with
  | ARun ctx _ _ _ _ | ATerminal ctx _ _ _ | AAsk ctx _ _ => bool_decide (tool_end ctx m = None)
  | _ => false
  end.

(** What is left of an answer: a killed process keeps what it has printed. *)
Definition run_ended (e : ending) (r : run_output) : run_output :=
  match e with
  | ByItself => r
  | CutShort => mkOutput (ro_stdout r) (ro_stderr r) (Some "signal: killed")
  | NeverStarted => mkOutput "" "" (Some "context deadline exceeded")
  end.
Definition session_ended (e : ending) (s : session) : session :=
  match e with
  | ByItself => s
  | CutShort => mkSession (ss_start_err s) (ss_reads s) (Some "signal: killed")
  | NeverStarted => mkSession (Some "idevicebackup2 pty start: context deadline exceeded") [] None
  end.
Definition ask_ended (e : ending) (a : asked) : asked := match e with ByItself => a | _ => AskFailed end.

(** The answer of a tool, at the time it ends; of one that hangs, the answer when the shutdown kills it. *)
Definition tool_answer {X} (cut : ending → X → X) (ctx : context) (x : X) (m : Manager) : X * Manager :=
  match tool_end ctx m with
  | Some (e, t) => (cut e x, answered t m)
  | None => (cut CutShort x, answered (dm_clock m) m)
  end.

Definition perform_act {X} (e : act X) (m : Manager) : X * Manager :=
  let n := dm_n m in
  match e in act X return X * Manager with
  | ARun ctx bin udid transport args => tool_answer run_ended ctx (su_run (dm_around m) n bin args) m
  | ATerminal ctx udid transport args => tool_answer session_ended ctx (su_terminal (dm_around m) n args) m
  | AAnswer line => (tt, m)
  | AAsk ctx udid transport => tool_answer ask_ended ctx (su_ask (dm_around m) n udid) m
  | ANow => (dm_clock m, m)
  | AWait ctx poll => wait ctx poll m
  | ASetOp id state msg err => (tt, setOp id state msg err m)
  | ADevice udid => (Device_ (dm_devs m) udid, m)
  | AEnrich udid i =>
      let '(_, es, r) := Enrich udid i (dm_devs m) in (tt, publish es (with_devs r m))
  | AAudit event udid outcome => (tt, auditEvent event udid outcome m)
  end.

(** A program run by its caller, without a thread of its own. *)
Fixpoint exec {A} (p : prog A) (m : Manager) : A * Manager :=
  match p with
  | Ret a => (a, m)
  | Do e k => let '(x, m) := perform_act e m in exec (k x) m
  end.

(** The next action of a thread; a thread that is done releases its device, and one whose tool hangs
    stays where it is. *)
Definition advance (i : nat) (m : Manager) : Manager :=
  match dm_threads m !! i with
  | None => m
  | Some (mkThread udid id (Ret _)) => releaseUDID udid (with_threads (delete i (dm_threads m)) m)
  | Some (mkThread udid id (Do e k)) =>
      if hangs e m then m else
      let '(x, m) := perform_act e m in with_threads (<[i := mkThread udid id (k x)]> (dm_threads m)) m
  end.

(** ** Shared pieces *)

Definition opTransport (dev : Device) : option string :=
  if bool_decide (is_Some (tr_USB (dev_Transports dev))) then Some TransportUSB
  else if bool_decide (is_Some (tr_WiFi (dev_Transports dev))) then Some TransportWiFi
  else None.

Definition opErrMsg (err : option string) : string := default "operation failed"%string err.

Definition enrichWait : duration := 20 * Second.

Definition reEnrich (udid transport : string) : prog unit :=
  ctx ← WithTimeout Background enrichWait;
  i ← Info parseInfoPlist ctx udid transport;
  match i with Err _ => mret tt | Ok i => perform (AEnrich udid i) end.

Definition fail_op (opID code message : string) : prog unit :=
  perform (ASetOp opID "failed" "" (Some (mkJobError code message))).

(** ** Pairing *)

Definition pairTimeout : duration := 2 * Minute.
Definition pairPoll : duration := 2 * Second.

Definition pairOutcomeFromRecords (before after : PairRecord) : option (string * string) :=
  if Recorded before after then None
  else if bool_decide (pr_State before = PairRecordUnknown) || bool_decide (pr_State after = PairRecordUnknown) then
    Some ("pairing_unverified"%string, "The device reported that it paired, but quince could not reach the muxer to confirm the pairing was saved. Check that the muxer is running and that quince can reach its socket, then pair again."%string)
  else
    Some ("pairing_not_recorded"%string, "The device paired, but the muxer did not save the pairing, so it will not survive. Make the muxer's pairing-record directory writable — it is the path passed to netmuxd as --plist-storage, mounted read-only in some setups — then pair again."%string).

Definition pair_done (ctx : context) (opID udid msg : string) (before : PairRecord) : prog unit :=
  after ← ReadPairRecord ctx udid TransportUSB;
  match pairOutcomeFromRecords before after with
  | Some (code, message) =>
      fail_op opID code message;; perform (AAudit "device.pair" udid code)
  | None =>
      perform (ASetOp opID "succeeded" msg None);;
      reEnrich udid TransportUSB;;
      perform (AAudit "device.pair" udid "paired")
  end.

(** Two minutes hold no more than sixty waits of two seconds. *)
Definition pair_rounds : nat := 61.

Fixpoint pair_loop (rounds : nat) (ctx : context) (opID udid : string) (before : PairRecord) (lastMsg : string) : prog unit :=
  match rounds with
  | O => mret tt
  | S rounds =>
      r ← pairAttempt ctx udid TransportUSB;
      let '(outcome, msg, err) := r in
      match outcome with
      | pairPaired => pair_done ctx opID udid msg before
      | pairNeedTrust | pairNeedPasscode =>
          (if negb (String.eqb msg lastMsg) then perform (ASetOp opID "waiting_for_user" msg None) else mret tt);;
          over ← perform (AWait ctx pairPoll);
          if over : bool then
            fail_op opID "timeout" "Pairing timed out waiting for Trust/passcode on the device.";;
            perform (AAudit "device.pair" udid "timeout")
          else pair_loop rounds ctx opID udid before msg
      | pairDenied => fail_op opID "trust_denied" msg;; perform (AAudit "device.pair" udid "denied")
      | pairNotUSB => fail_op opID "needs_usb" msg
      | pairFailed => fail_op opID "pair_failed" (opErrMsg err);; perform (AAudit "device.pair" udid "error")
      end
  end.

Definition runPair (opID udid : string) (before : PairRecord) : prog unit :=
  ctx ← WithTimeout Background pairTimeout;
  pair_loop pair_rounds ctx opID udid before "".

(** A refusal of the API, or the operation that was accepted. *)
Definition reply : Type := string * Z * string.
Definition begun (o : option Op) : reply :=
  match o with Some op => (op_ID op, 202, ""%string) | None => (""%string, 409, inFlightMsg) end.
Definition refused (status : Z) (msg : string) : reply := (""%string, status, msg).

Definition Pair (udid : string) : stateM Manager reply :=
  if negb (validUDID udid) then mret (refused 400 "invalid udid") else
  dev ← exec (perform (ADevice udid));
  match dev with
  | None => mret (refused 404 "no such device")
  | Some dev =>
      if bool_decide (tr_USB (dev_Transports dev) = None) then
        mret (refused 409 "pairing needs a USB connection — connect the device by cable")
      else
        before ← exec (ReadPairRecord Background udid TransportUSB);
        if bool_decide (pr_State before = PairRecordUnknown) then
          mret (refused 409 "quince cannot reach the muxer for this device, so a pairing could not be saved and would not survive. Check that the muxer is running and that quince can reach its socket, then try again.")
        else
          op ← startGuardedOp "pair" udid "Starting pairing…" (λ opID, runPair opID udid before);
          mret (begun op)
  end.

(** How long a read or write that waits for nobody may take. *)
Definition deviceOpTimeout : duration := 30 * Second.
Definition validateTimeout : duration := deviceOpTimeout.

Definition Validate (ctx : context) (udid : string) : stateM Manager (bool * Z * string) :=
  if negb (validUDID udid) then mret (false, 400, "invalid udid"%string) else
  dev ← exec (perform (ADevice udid));
  match dev with
  | None => mret (false, 404, "no such device"%string)
  | Some dev =>
      match opTransport dev with
      | None => mret (false, 409, "device is not connected"%string)
      | Some transport =>
          r ← exec (ctx ← WithTimeout ctx validateTimeout; DeviceTools.Validate ctx udid transport);
          mret (match r.2 with
                | Some _ => (false, 502, "could not query the device"%string)
                | None => (r.1, 200, ""%string)
                end)
      end
  end.

(** ** Encryption *)

Definition encStartMsg (action : string) : string :=
  if String.eqb action "enable" then "Enabling backup encryption…"
  else if String.eqb action "disable" then "Disabling backup encryption…"
  else if String.eqb action "change_password" then "Changing the backup password…" else "Working…".
Definition encDoneMsg (action : string) : string :=
  if String.eqb action "enable" then "Backup encryption is on."
  else if String.eqb action "disable" then "Backup encryption is off."
  else if String.eqb action "change_password" then "Backup password changed." else "Done.".

Definition opTimeout : duration := 5 * Minute.

Definition runEncryption (opID udid transport action password oldPassword newPassword : string) : prog unit :=
  ctx ← WithTimeout Background opTimeout;
  let onConfirm := perform (ASetOp opID "waiting_for_user" "Confirm the change on the device by entering its passcode." None) in
  err ← (if String.eqb action "enable" then DeviceTools.Encryption ctx udid transport true password onConfirm
         else if String.eqb action "disable" then DeviceTools.Encryption ctx udid transport false password onConfirm
         else if String.eqb action "change_password" then
           ChangePassword ctx udid transport oldPassword newPassword onConfirm
         else mret None);
  match err with
  | Some e =>
      fail_op opID "encryption_failed" e;; perform (AAudit ("device.encryption." +:+ action) udid "failed")
  | None =>
      perform (ASetOp opID "succeeded" (encDoneMsg action) None);;
      reEnrich udid transport;;
      perform (AAudit ("device.encryption." +:+ action) udid "ok")
  end.

(** What an action needs, and the sentence that says so. *)
Definition encryption_refusal (action password oldPassword newPassword : string) : option string :=
  if String.eqb action "enable" then
    if String.eqb password "" then Some "password is required to enable encryption"%string else None
  else if String.eqb action "disable" then
    if String.eqb password "" then Some "the current backup password is required to disable encryption"%string else None
  else if String.eqb action "change_password" then
    if String.eqb oldPassword "" || String.eqb newPassword "" then Some "old_password and new_password are required"%string else None
  else Some ("unknown action: " +:+ action).

Definition Encryption (udid action password oldPassword newPassword : string) : stateM Manager reply :=
  if negb (validUDID udid) then mret (refused 400 "invalid udid") else
  dev ← exec (perform (ADevice udid));
  match dev with
  | None => mret (refused 404 "no such device")
  | Some dev =>
      match opTransport dev with
      | None => mret (refused 409 "device is not connected")
      | Some transport =>
          match encryption_refusal action password oldPassword newPassword with
          | Some why => mret (refused 422 why)
          | None =>
              op ← startGuardedOp "encryption" udid (encStartMsg action)
                     (λ opID, runEncryption opID udid transport action password oldPassword newPassword);
              mret (begun op)
          end
      end
  end.

(** ** Wi-Fi sync *)

Definition wifiSyncStartMsg (action : string) : string :=
  if String.eqb action "enable" then "Turning on Wi-Fi sync so this device can back up without a cable…"
  else "Turning off Wi-Fi sync…".
Definition wifiSyncDoneMsg (action : string) : string :=
  if String.eqb action "enable" then "Wi-Fi sync is on. This device can now back up over Wi-Fi."
  else "Wi-Fi sync is off. This device will only back up over USB.".
Definition wifiSyncDisconnectedMsg : string :=
  "Wi-Fi sync is off on the device as far as quince could tell — the change was accepted and the device then left Wi-Fi, which is what turning this off does. quince cannot read the setting back over a connection that no longer exists. Reconnect by cable to confirm it or turn it back on.".

(** The device's identity with one field changed. *)
Definition publish_wifi (udid state : string) : prog unit :=
  dev ← perform (ADevice udid);
  match dev with
  | None => mret tt
  | Some dev =>
      perform (AEnrich udid (mkIdentity (dev_Name dev) (dev_Model dev) (dev_IOSVersion dev) (dev_Paired dev)
                               (dev_BackupEncryption dev) state))
  end.

Definition wifiSyncDisableUnreadable (opID udid : string) : prog unit :=
  publish_wifi udid "unknown";;
  perform (ASetOp opID "succeeded" wifiSyncDisconnectedMsg None);;
  perform (AAudit "device.wifi_sync.disable" udid "ok_unreadable").

Definition wifi_failure (e : WifiSyncError) : string * string :=
  match e with
  | ErrWifiSyncUnverifiable => ("wifi_sync_unavailable", "This build does not know which lockdown key holds the setting, so quince will not guess.")
  | ErrWifiSyncNotApplied => ("wifi_sync_not_applied", "The device accepted the change but did not apply it. Wi-Fi sync is unchanged.")
  | ErrWifiSyncUnreadable => ("wifi_sync_unconfirmed", "The device accepted the change, but quince could not read the setting back to confirm it. Wi-Fi sync may or may not have changed.")
  | ErrWifiSyncOther msg => ("wifi_sync_failed", msg)
  end%string.

Definition runWifiSync (opID udid transport action : string) : prog unit :=
  ctx ← WithTimeout Background deviceOpTimeout;
  err ← SetWifiSync ctx udid transport (String.eqb action "enable");
  match err with
  | Some e =>
      if bool_decide (e = ErrWifiSyncUnreadable) && String.eqb action "disable" && bool_decide (transport = TransportWiFi)
      then wifiSyncDisableUnreadable opID udid
      else
        fail_op opID (wifi_failure e).1 (wifi_failure e).2;;
        perform (AAudit ("device.wifi_sync." +:+ action) udid "failed")
  | None =>
      publish_wifi udid (if String.eqb action "enable" then "on" else "off");;
      perform (ASetOp opID "succeeded" (wifiSyncDoneMsg action) None);;
      (if String.eqb action "enable" || bool_decide (transport = TransportUSB) then reEnrich udid transport else mret tt);;
      perform (AAudit ("device.wifi_sync." +:+ action) udid "ok")
  end.

Definition WifiSync (udid action : string) : stateM Manager reply :=
  if negb (validUDID udid) then mret (refused 400 "invalid udid") else
  dev ← exec (perform (ADevice udid));
  match dev with
  | None => mret (refused 404 "no such device")
  | Some dev =>
      if negb (String.eqb (dev_Paired dev) "yes") then mret (refused 409 "device is not paired with this host") else
      match opTransport dev with
      | None => mret (refused 409 "device is not connected")
      | Some transport =>
          if negb (String.eqb action "enable") && negb (String.eqb action "disable") then
            mret (refused 422 ("unknown action: " +:+ action))
          else
            op ← startGuardedOp "wifi_sync" udid (wifiSyncStartMsg action)
                   (λ opID, runWifiSync opID udid transport action);
            mret (begun op)
      end
  end.

(** ** The live probe of encryption *)

Definition RefreshEncryption (ctx : context) (udid transport : string) : stateM Manager (string * bool) :=
  i ← exec (Info parseInfoPlist ctx udid transport);
  match i with
  | Err _ => mret (""%string, false)
  | Ok i =>
      exec (perform (AEnrich udid i));;
      mret (if String.eqb (id_BackupEncryption i) "" then ("unknown"%string, true) else (id_BackupEncryption i, true))
  end.

(** ** Enrichment of devices that attach *)

(** The debounce timers that are set, and the transport that each will read over. *)
Abbreviation timers := (gmap string string).

Definition schedule (udid transport : string) (ts : timers) : timers := <[udid := transport]> ts.

Definition enrichTimeout : duration := 20 * Second.

Definition enrichOne (udid transport : string) : prog unit :=
  ctx ← WithTimeout Background enrichTimeout;
  i ← Info parseInfoPlist ctx udid transport;
  match i with Err _ => mret tt | Ok i => perform (AEnrich udid i) end.

Definition refreshAll (m : Manager) (ts : timers) : timers :=
  fold_left (λ ts dev, match opTransport dev with Some tr => schedule (dev_UDID dev) tr ts | None => ts end)
    (Devices (dm_devs m)) ts.

Inductive driver_input : Type := DriverEvent (typ : string) (data : payload) | DriverDropped | DriverFires (udid : string).

(** One turn of the driver's loop, or the firing of one timer. *)
Definition driver_turn (i : driver_input) (ts : timers) : stateM Manager timers :=
  match i with
  | DriverEvent typ data =>
      mret (if String.eqb typ EventDeviceAttached then
              match data with
              | OfDeviceEvent e => schedule (dev_UDID (de_Device e)) (de_Transport e) ts
              | _ => ts
              end
            else ts)
  | DriverDropped => ts' ← gets (λ m, refreshAll m ts); mret ts'
  | DriverFires udid =>
      match ts !! udid with
      | None => mret ts
      | Some transport => exec (enrichOne udid transport);; mret (delete udid ts)
      end
  end.

(** ** Runs *)

Inductive move : Type :=
  | CallPair (udid : string)
  | CallEncryption (udid action password oldPassword newPassword : string)
  | CallWifiSync (udid action : string)
  | CallValidate (ctx : context) (udid : string)
  | CallRefresh (ctx : context) (udid transport : string)
  | Advance (i : nat)
  | DevicesChange (r : Registry).        (* whatever the muxers report meanwhile *)

Definition make (mv : move) (m : Manager) : Manager :=
  match mv with
  | CallPair udid => (Pair udid m).2
  | CallEncryption udid action p o n => (Encryption udid action p o n m).2
  | CallWifiSync udid action => (WifiSync udid action m).2
  | CallValidate ctx udid => (Validate ctx udid m).2
  | CallRefresh ctx udid transport => (RefreshEncryption ctx udid transport m).2
  | Advance i => advance i m
  | DevicesChange r => with_devs r m
  end.
Definition play (moves : list move) (m : Manager) : Manager := fold_left (λ m mv, make mv m) moves m.

End DeviceOps.
