(* ===== verification/DeviceOpsSafety.v ===== *)
(** * DeviceOpsSafety: operations on a phone follow their machine, and end

    A logic for the programs of [DeviceTools] ([ends]), what it shows of each operation's body, and
    the invariant of the manager over every interleaving of operations, calls and changes of the
    registry; then what is reported of a change of Wi-Fi sync, and runs over two devices. *)

From Stdlib Require Import String Ascii.
From S2P Require Import Prelude Domain Store Net Events Muxd Registry DeviceTools DeviceOps.

(** ** The machine of an operation *)

Definition live (st : string) : Prop := st = "running"%string ∨ st = "waiting_for_user"%string.
Definition settled (st : string) : Prop := st = "succeeded"%string ∨ st = "failed"%string.
Definition can_follow (st s : string) : Prop := live st ∧ (s = "waiting_for_user"%string ∨ settled s).

Lemma live_not_settled st : live st → ¬ settled st.
Proof. intros [-> | ->] [?|?]; done. Qed.
Lemma follow_live st s : can_follow st s → live s ∨ settled s.
Proof. intros [_ [->|?]]; [left; by right|by right]. Qed.

(** What is said of an operation from its start to its end. *)
Inductive op_path : list string → string → Prop :=
  | path_start : op_path ["running"%string] "running"
  | path_next l st s : op_path l st → can_follow st s → op_path (l ++ [s]) s.

Lemma op_path_state l st : op_path l st → live st ∨ settled st.
Proof. destruct 1; [left; by left|by eapply follow_live]. Qed.

(** ** A logic of programs *)

(** Who acts: the thread of an operation, or the caller of the API, who has none. *)
Abbreviation actor := (option string).

(** What [who] may do on device [udid] when its operation is in state [st]: talk to its own device, as
    a thread never without a deadline, and report what may follow. *)
Definition permitted (udid : string) (who : actor) (st : string) {X} (e : act X) : Prop :=
  match e with
  | ARun ctx _ udid' _ _ | ATerminal ctx udid' _ _ | AAsk ctx udid' _ => udid' = udid ∧ (is_Some who → is_Some ctx)
  | ADevice udid' | AEnrich udid' _ | AAudit _ udid' _ => udid' = udid
  | ASetOp id' s _ _ => who = Some id' ∧ can_follow st s
  | AWait _ poll => 0 ≤ poll
  | AAnswer _ | ANow => True
  end.

(** What is known after an action: time passes, a wait that is not over lasted, the state of the
    operation is the one that was reported. *)
Definition effect (t : time) (st : string) {X} (e : act X) : X → time → string → Prop :=
  match e in act X return X → time → string → Prop with
  | AWait ctx poll => λ over t' st',
      st' = st ∧ t ≤ t' ∧ (over = false → (∀ deadline, ctx = Some deadline → t < deadline) ∧ t + poll ≤ t')
  | ASetOp _ s _ _ => λ _ t' st', st' = s ∧ t ≤ t'
  | ANow => λ now t' st', st' = st ∧ t ≤ now ∧ t' = now
  | _ => λ _ t' st', st' = st ∧ t ≤ t'
  end.

Lemma effect_mono t0 t st X (e : act X) x t' st' : t0 ≤ t → effect t st e x t' st' → effect t0 st e x t' st'.
Proof. destruct e; cbn; intros; destruct_and?; split_and?; try done; try lia; intros; split; naive_solver lia. Qed.

Section ends.
Context (udid : string) (who : actor).

Fixpoint ends {A} (p : prog A) (t : time) (st : string) (Q : A → time → string → Prop) : Prop :=
  match p with
  | Ret a => Q a t st
  | Do e k => permitted udid who st e ∧ ∀ x t' st', effect t st e x t' st' → ends (k x) t' st' Q
  end.

Lemma ends_conseq {A} (p : prog A) : ∀ t st Q Q',
  ends p t st Q → (∀ a t' st', t ≤ t' → Q a t' st' → Q' a t' st') → ends p t st Q'.
Proof.
  induction p as [a|X e k IH]; intros t st Q Q' H HQ; [by apply HQ|]. destruct H as [Hp H]. split; [done|].
  intros x t' st' He. eapply IH; [by apply H|]. intros a t'' st'' Ht. apply HQ.
  assert (t ≤ t') by (destruct e; cbn in He; destruct_and?; lia). lia.
Qed.

Lemma ends_bind {A B} (p : prog A) (f : A → prog B) : ∀ t st Q,
  ends p t st (λ a t' st', ends (f a) t' st' Q) → ends (p ≫= f) t st Q.
Proof.
  induction p as [a|X e k IH]; intros t st Q H; [done|]. destruct H as [Hp H]. split; [done|].
  intros x t' st' He. apply IH. by apply H.
Qed.

Lemma ends_act {X} (e : act X) t st Q : permitted udid who st e →
  (∀ x t' st', effect t st e x t' st' → Q x t' st') → ends (perform e) t st Q.
Proof. by split. Qed.

Lemma ends_later {A} (p : prog A) t t0 st Q : t0 ≤ t → (∀ a t' st', Q a t' st' → ∀ t'', t' ≤ t'' → Q a t'' st') →
  ends p t0 st Q → ends p t st Q.
Proof.
  intros Ht HQ. destruct p as [a|X e k]; cbn; [intros; by eapply HQ|]. intros [Hp H]. split; [done|].
  intros x t' st' He. eapply H, effect_mono; done.
Qed.

(** A program that reports nothing. *)
Definition silent {A} (p : prog A) : Prop := ∀ t st Q, (∀ a t', t ≤ t' → Q a t' st) → ends p t st Q.

Lemma silent_ret {A} (a : A) : silent (Ret a).
Proof. intros t st Q H. apply H. lia. Qed.
Lemma silent_bind {A B} (p : prog A) (f : A → prog B) : silent p → (∀ a, silent (f a)) → silent (p ≫= f).
Proof.
  intros Hp Hf t st Q H. apply ends_bind, Hp. intros a t' Ht. apply Hf. intros b t'' Ht'. apply H. lia.
Qed.
Lemma silent_act {X} (e : act X) : (∀ st, permitted udid who st e) →
  (∀ t st x t' st', effect t st e x t' st' → st' = st ∧ t ≤ t') → silent (perform e).
Proof.
  intros He Hst t st Q H. apply ends_act; [done|]. intros x t' st' [-> Ht]%Hst. by apply H.
Qed.
Lemma silent_run ctx bin transport args : (is_Some who → is_Some ctx) → silent (perform (ARun ctx bin udid transport args)).
Proof. intros. by apply silent_act. Qed.
Lemma silent_ask ctx transport : (is_Some who → is_Some ctx) → silent (perform (AAsk ctx udid transport)).
Proof. intros. by apply silent_act. Qed.
Lemma silent_terminal ctx transport args : (is_Some who → is_Some ctx) → silent (perform (ATerminal ctx udid transport args)).
Proof. intros. by apply silent_act. Qed.
(** A context made here has a deadline. *)
Lemma ends_WithTimeout {A} ctx d (f : context → prog A) t st Q :
  (∀ deadline t', t ≤ t' → deadline ≤ t' + d → (is_Some who → is_Some (Some deadline)) → ends (f (Some deadline)) t' st Q) →
  ends (WithTimeout ctx d ≫= f) t st Q.
Proof.
  intros H. apply ends_bind, ends_bind, ends_act; [done|]. intros now t' st' (-> & Ht & ->).
  apply (H _ now); [done| |by eexists]. destruct ctx; lia.
Qed.
Lemma silent_WithTimeout {A} ctx d (f : context → prog A) :
  (∀ deadline, (is_Some who → is_Some (Some deadline)) → silent (f (Some deadline))) → silent (WithTimeout ctx d ≫= f).
Proof. intros H t st Q HQ. apply ends_WithTimeout. intros deadline t' Ht _ Hd. apply H; [done|]. intros a t'' Ht'. apply HQ. lia. Qed.
Lemma silent_device : silent (perform (ADevice udid)).
Proof. by apply silent_act. Qed.
Lemma silent_enrich i : silent (perform (AEnrich udid i)).
Proof. by apply silent_act. Qed.
Lemma silent_audit event outcome : silent (perform (AAudit event udid outcome)).
Proof. by apply silent_act. Qed.
Lemma silent_answer line : silent (perform (AAnswer line)).
Proof. by apply silent_act. Qed.

Lemma ends_silent {A B} (p : prog A) (f : A → prog B) t st Q :
  silent p → (∀ a t', t ≤ t' → ends (f a) t' st Q) → ends (p ≫= f) t st Q.
Proof. intros Hp H. by apply ends_bind, Hp. Qed.

End ends.

Create HintDb ops discriminated.
#[export] Hint Resolve silent_ret silent_run silent_ask silent_terminal silent_device silent_enrich silent_audit
  silent_answer : ops.

(** Goes through a program that reports nothing. *)
Ltac silent :=
  repeat first
    [ progress auto with ops
    | apply silent_WithTimeout; intros
    | apply silent_bind; [|intros]
    | progress (unfold mret, prog_ret)
    | case_match ].

Section bodies.
Context `{Hrange : !MapRange} (parseInfoPlist : string → string * string * string) (udid : string).

Section tools.
Context (who : actor).

Section bounded.
Context (ctx : context) (Hctx : is_Some who → is_Some ctx).
Lemma silent_validate transport : silent udid who (validate ctx udid transport).
Proof. unfold validate. silent. Qed.
Lemma silent_info transport simple : silent udid who (info parseInfoPlist ctx udid transport simple).
Proof. unfold info. silent. Qed.
Lemma silent_wifiSync transport : silent udid who (wifiSync ctx udid transport).
Proof. unfold wifiSync. silent. Qed.
Lemma silent_willEncrypt transport : silent udid who (willEncrypt ctx udid transport).
Proof. unfold willEncrypt. silent. Qed.
#[local] Hint Resolve silent_validate silent_info silent_wifiSync silent_willEncrypt : ops.
Lemma silent_Info transport : silent udid who (Info parseInfoPlist ctx udid transport).
Proof. unfold Info. silent. Qed.
Lemma silent_SetWifiSync transport enable : silent udid who (SetWifiSync ctx udid transport enable).
Proof. unfold SetWifiSync. silent. Qed.
Lemma silent_pairAttempt transport : silent udid who (pairAttempt ctx udid transport).
Proof. unfold pairAttempt. silent. Qed.
Lemma silent_Validate transport : silent udid who (DeviceTools.Validate ctx udid transport).
Proof. unfold DeviceTools.Validate. silent. Qed.
End bounded.

(** An exchange about a record has a deadline of its own. *)
Lemma silent_ReadPairRecord ctx transport : silent udid who (ReadPairRecord ctx udid transport).
Proof. unfold ReadPairRecord. silent. Qed.
#[local] Hint Resolve silent_Info : ops.
Lemma silent_reEnrich transport : silent udid who (reEnrich parseInfoPlist udid transport).
Proof. unfold reEnrich. silent. Qed.
Lemma silent_publish_wifi state : silent udid who (publish_wifi udid state).
Proof. unfold publish_wifi. silent. Qed.
End tools.
#[local] Hint Resolve silent_SetWifiSync silent_pairAttempt silent_ReadPairRecord silent_reEnrich silent_publish_wifi : ops.

Context (id : string).
#[local] Abbreviation self := (Some id : actor).

(** *** Every body ends with an outcome *)

Definition outcome_told : unit → time → string → Prop := λ _ _ st, settled st.

Lemma ends_told (p : prog unit) t st : silent udid self p → settled st → ends udid self p t st outcome_told.
Proof. intros Hp Hst. by apply Hp. Qed.

Lemma ends_report {B} s msg err (f : unit → prog B) t st Q : can_follow st s →
  (∀ t', t ≤ t' → ends udid self (f tt) t' s Q) → ends udid self (perform (ASetOp id s msg err) ≫= f) t st Q.
Proof. intros Hs H. apply ends_bind, ends_act; [done|]. intros [] t' st' [-> Ht]. by apply H. Qed.

Lemma ends_fail code message (p : prog unit) t st : live st → silent udid self p →
  ends udid self (fail_op id code message;; p) t st outcome_told.
Proof.
  intros Hst Hp. apply ends_report; [split; [done|]; by repeat right|]. intros t' _. apply ends_told; [done|by right].
Qed.
Lemma ends_succeed msg (p : prog unit) t st : live st → silent udid self p →
  ends udid self (perform (ASetOp id "succeeded" msg None);; p) t st outcome_told.
Proof.
  intros Hst Hp. apply ends_report; [split; [done|]; right; by left|]. intros t' _. apply ends_told; [done|by left].
Qed.
Lemma ends_fail_last code message t st : live st → ends udid self (fail_op id code message) t st outcome_told.
Proof. intros Hst. apply ends_act; [by repeat (done || split || right)|]. intros [] t' st' [-> _]. by right. Qed.

Lemma pair_done_ends ctx msg before t st : live st → ends udid self (pair_done parseInfoPlist ctx id udid msg before) t st outcome_told.
Proof.
  intros Hst. apply ends_silent; [auto with ops|]. intros after t' _.
  destruct (pairOutcomeFromRecords before after) as [[code message]|].
  - apply ends_fail; auto with ops.
  - apply ends_succeed; [done|]. silent.
Qed.

Lemma pair_loop_ends before deadline rounds : ∀ lastMsg t st, live st →
  deadline - t ≤ pairPoll * (Z.of_nat rounds - 1) → (0 < rounds)%nat →
  ends udid self (pair_loop parseInfoPlist rounds (Some deadline) id udid before lastMsg) t st outcome_told.
Proof.
  induction rounds as [|rounds IH]; intros lastMsg t st Hst Hdl Hr; [lia|]. clear Hr. cbn [pair_loop].
  apply ends_silent; [auto with ops|]. intros [[outcome msg] err] t1 Ht1.
  assert (∀ st' t2, live st' → t1 ≤ t2 → ends udid self
    (over ← perform (AWait (Some deadline) pairPoll);
     if over : bool then fail_op id "timeout" "Pairing timed out waiting for Trust/passcode on the device.";;
                         perform (AAudit "device.pair" udid "timeout")
     else pair_loop parseInfoPlist rounds (Some deadline) id udid before msg) t2 st' outcome_told) as Hwait.
  { intros st' t2 Hst' Ht2. apply ends_bind, ends_act; [done|]. intros over t3 st3 (-> & Ht3 & Hover).
    destruct over; [apply ends_fail; auto with ops|]. destruct (Hover eq_refl) as [Hbefore Hlasted].
    specialize (Hbefore deadline eq_refl).
    assert (0 < rounds)%nat by (unfold pairPoll, Second in *; lia).
    apply IH; [done| |done]. unfold pairPoll, Second in *. lia. }
  destruct outcome; [apply ends_fail; auto with ops|by apply pair_done_ends| | |apply ends_fail; auto with ops|by apply ends_fail_last].
  all: case_match; [apply ends_report; [split; [done|by left]|]; intros t' Ht'; apply Hwait; [by right|done]|by apply Hwait].
Qed.

Lemma runPair_ends before t : ends udid self (runPair parseInfoPlist id udid before) t "running" outcome_told.
Proof.
  apply ends_WithTimeout. intros deadline t' _ Hd _. apply pair_loop_ends; [by left| |unfold pair_rounds; lia].
  unfold pairTimeout, pairPoll, pair_rounds, Minute, Second in *. lia.
Qed.

Definition confirm_told : prog unit :=
  perform (ASetOp id "waiting_for_user" "Confirm the change on the device by entering its passcode." None).

Lemma write_all_silent lines : silent udid self (write_all lines).
Proof. induction lines as [|l lines IH]; cbn [write_all]; silent. Qed.

Definition still_live {A} : A → time → string → Prop := λ _ _ st, live st.

Lemma feedPTY_ends reads : ∀ captured pending fired answers t st, live st →
  ends udid self (feedPTY reads captured pending fired answers confirm_told) t st still_live.
Proof.
  induction reads as [|chunk reads IH]; intros captured pending fired answers t st Hst; [done|]. cbn [feedPTY].
  apply ends_bind. eapply (ends_conseq _ _ _ _ _ (λ _ _ st, live st)).
  - case_match; [|done]. apply ends_act; [by split; [|split; [|left]]|]. intros _ t' st' [-> _]. by right.
  - intros _ t' st' _ Hst'. destruct (answer_prompts _ _) as [[written p] a].
    apply ends_silent; [apply write_all_silent|]. intros _ t'' _. by apply IH.
Qed.

Lemma interactive_ends ctx transport args answers t st : is_Some ctx → live st →
  ends udid self (runInteractiveBackup2 ctx udid transport args answers confirm_told) t st still_live.
Proof.
  intros Hctx Hst. unfold runInteractiveBackup2. apply ends_silent; [by apply silent_terminal|]. intros s t' _.
  destruct (ss_start_err s); [done|]. apply ends_bind. eapply ends_conseq; [by apply feedPTY_ends|].
  intros captured t'' st' _ Hst'. by destruct (ss_err s).
Qed.

Lemma Encryption_ends ctx transport enable password t st : is_Some ctx → live st →
  ends udid self (DeviceTools.Encryption ctx udid transport enable password confirm_told) t st still_live.
Proof.
  intros Hctx Hst. unfold DeviceTools.Encryption. destruct (negb _); [done|]. destruct enable; by apply interactive_ends.
Qed.

Lemma ChangePassword_ends ctx transport old new t st : is_Some ctx → live st →
  ends udid self (ChangePassword ctx udid transport old new confirm_told) t st still_live.
Proof. intros Hctx Hst. unfold ChangePassword. destruct (negb _); [done|]. by apply interactive_ends. Qed.

Lemma runEncryption_ends transport action password old new t :
  ends udid self (runEncryption parseInfoPlist id udid transport action password old new) t "running" outcome_told.
Proof.
  apply ends_WithTimeout. intros deadline t1 _ _ _. apply ends_bind. eapply (ends_conseq _ _ _ _ _ still_live).
  - repeat case_match; by first [apply Encryption_ends; [|left]|apply ChangePassword_ends; [|left]|left].
  - intros [e|] t' st _ Hst; [apply ends_fail; auto with ops|]. apply ends_succeed; [done|]. silent.
Qed.

Lemma runWifiSync_ends transport action t :
  ends udid self (runWifiSync parseInfoPlist id udid transport action) t "running" outcome_told.
Proof.
  apply ends_WithTimeout. intros deadline t1 _ _ Hd. apply ends_silent; [auto with ops|]. intros [e|] t' _.
  - case_match; [|apply ends_fail; [by left|auto with ops]].
    apply ends_silent; [auto with ops|]. intros _ t'' _. apply ends_succeed; [by left|auto with ops].
  - apply ends_silent; [auto with ops|]. intros _ t'' _. apply ends_succeed; [by left|]. silent.
Qed.

End bodies.

(** ** The invariant of the manager *)

(** What was published about an operation. *)
Definition told (id : string) (es : list (string * payload)) : list string :=
  omap (λ e, match e.2 with OfOp op => if bool_decide (op_ID op = id) then Some (op_State op) else None | _ => None end) es.

Lemma told_app id es es' : told id (es ++ es') = told id es ++ told id es'.
Proof. apply omap_app. Qed.

Section manager.
Context `{Hrange : !MapRange} (parseInfoPlist : string → string * string * string).

Definition shown (m : Manager) (id st : string) : Prop :=
  match dm_ops m !! id with Some op => op_ID op = id ∧ op_State op = st | None => settled st end.

Definition under_way (m : Manager) (id : string) : Prop := ∃ th, th ∈ dm_threads m ∧ th_op th = id.

(** An operation that was started: what was told of it, what is shown of it, what its thread will do. *)
Definition op_known (m : Manager) (id : string) : Prop :=
  ∃ st, op_path (told id (dm_published m)) st ∧ shown m id st ∧ (settled st ∨ under_way m id) ∧
    (∃ n, (n < dm_n m)%nat ∧ id = su_newID (dm_around m) n) ∧
    ∀ th, th ∈ dm_threads m → th_op th = id → ends (th_udid th) (Some id) (th_prog th) (dm_clock m) st outcome_told.

Definition op_unknown (m : Manager) (id : string) : Prop :=
  told id (dm_published m) = [] ∧ dm_ops m !! id = None ∧ ¬ under_way m id.

Record manager_ok (m : Manager) : Prop := {
  ok_devices : NoDup (th_udid <$> dm_threads m);
  ok_operations : NoDup (th_op <$> dm_threads m);
  ok_inflight u id : dm_inflight m !! u = Some id ↔ ∃ p, mkThread u id p ∈ dm_threads m;
  ok_known id : op_unknown m id ∨ op_known m id }.

(** What only time, devices and answers change. *)
Record calm (m m' : Manager) : Prop := {
  calm_ops : dm_ops m' = dm_ops m;
  calm_inflight : dm_inflight m' = dm_inflight m;
  calm_threads : dm_threads m' = dm_threads m;
  calm_around : dm_around m' = dm_around m;
  calm_told id : told id (dm_published m') = told id (dm_published m);
  calm_clock : dm_clock m ≤ dm_clock m';
  calm_n : (dm_n m ≤ dm_n m')%nat }.

Lemma calm_refl m : calm m m.
Proof. by split. Qed.
Lemma calm_trans m1 m2 m3 : calm m1 m2 → calm m2 m3 → calm m1 m3.
Proof. intros [] []. split; try congruence; try lia. Qed.
Lemma calm_answered now m : dm_clock m ≤ now → calm m (answered now m).
Proof. intros Ht. split; cbn; try done; lia. Qed.

Lemma told_after_ends udid who p t t' st : t ≤ t' → ends udid who p t st outcome_told → ends udid who p t' st outcome_told.
Proof. intros Ht. apply ends_later; [done|]. auto. Qed.

Lemma manager_ok_calm m m' : calm m m' → manager_ok m → manager_ok m'.
Proof.
  intros [Ho Hi Ht Ha Hto Hc Hn] [H1 H2 H3 H4]. split; rewrite ?Ht, ?Hi; try done. intros id.
  unfold op_unknown, op_known, under_way, shown. rewrite Hto, Ho, Ht, Ha.
  destruct (H4 id) as [H|(st & Hp & Hs & Hu & (n & Hlt & Hid) & He)]; [by left|right].
  exists st. split_and!; [done..| |]; [exists n; split; [lia|done]|].
  intros th Hth Hop. eapply told_after_ends; [done|]. by apply He.
Qed.

(** *** One action *)

Lemma publish_devices es m : Forall (λ e, ∀ op, e.2 ≠ OfOp op) es → calm m (publish es m).
Proof.
  intros Hes. split; try done. intros id. change (told id (dm_published m ++ es) = told id (dm_published m)). rewrite told_app.
  assert (told id es = []) as ->; [|by rewrite app_nil_r].
  induction Hes as [|[typ data] es He _ IH]; [done|]. cbn. by destruct data; try destruct (He _ eq_refl).
Qed.

Lemma Enrich_no_op udid i r : Forall (λ e : string * payload, ∀ op, e.2 ≠ OfOp op) (Enrich udid i r).1.2.
Proof. unfold Enrich. cbn. repeat case_match; try case_match; by repeat constructor. Qed.

Lemma wait_does ctx poll m : 0 ≤ poll →
  calm m (wait ctx poll m).2 ∧
  ((wait ctx poll m).1 = false →
     (∀ deadline, ctx = Some deadline → dm_clock m < deadline) ∧ dm_clock m + poll ≤ dm_clock (wait ctx poll m).2).
Proof.
  intros Hpoll. unfold wait. destruct ctx as [deadline|]; cbn [fst snd].
  2: { split; [apply calm_answered; lia|]. cbn. intros _. split; [done|lia]. }
  destruct (Z.leb_spec deadline (dm_clock m)); [split; [by apply calm_answered|done]|].
  cbn [fst snd]. split; [apply calm_answered; lia|]. cbn [answered dm_clock].
  destruct (Z.ltb_spec (Z.min (dm_clock m + poll) deadline + Z.max 0 (su_late (dm_around m) (dm_n m)))
              (dm_clock m + poll)); [done|]. intros _. split; [by intros ? [= <-]|lia].
Qed.

Lemma tool_calm {X} (cut : ending → X → X) ctx x m : calm m (tool_answer cut ctx x m).2.
Proof.
  unfold tool_answer. destruct (tool_end ctx m) as [[e t]|] eqn:E; apply calm_answered; [|lia].
  unfold tool_end in E. destruct ctx as [deadline|]; [destruct (Z.leb_spec deadline (dm_clock m))|];
    destruct (su_took (dm_around m) (dm_n m)) as [d|]; simplify_eq/=; try case_match; simplify_eq; lia.
Qed.

(** A permitted action is calm, or it reports the next state of its own operation. *)
Lemma perform_act_does udid who st {X} (e : act X) m : permitted udid who st e →
  ∃ st', effect (dm_clock m) st e (perform_act e m).1 (dm_clock (perform_act e m).2) st' ∧
    (st' = st ∧ calm m (perform_act e m).2 ∨
     can_follow st st' ∧ ∃ id msg err, who = Some id ∧ (perform_act e m).2 = setOp id st' msg err m).
Proof.
  intros Hp. destruct e; cbn [perform_act effect].
  1,2,4: match goal with |- context [tool_answer ?c ?t ?x ?n] => pose proof (tool_calm c t x n) as Hc end;
    exists st; split; [split; [done|apply Hc]|by left].
  - exists st. split; [done|]. left. split; [done|apply calm_refl].
  - exists st. split; [done|]. left. split; [done|apply calm_refl].
  - destruct (wait_does ctx poll m Hp) as [Hc Hw]. exists st. pose proof (calm_clock _ _ Hc). eauto 10.
  - destruct Hp as [-> Hf]. exists state. cbn [fst snd]. split; [|right; eauto 10]. split; [done|]. unfold setOp. by case_match.
  - exists st. split; [done|]. left. split; [done|apply calm_refl].
  - pose proof (Enrich_no_op udid0 i (dm_devs m)) as He. destruct (Enrich udid0 i (dm_devs m)) as [[p es] r].
    exists st. split; [done|]. left. split; [done|]. apply (calm_trans _ (with_devs r m)); [by split|].
    by apply publish_devices.
  - exists st. cbn [fst snd]. unfold auditEvent. split; [split; [done|]; by case_match|]. left. split; [done|].
    case_match; [by apply calm_answered|]. by split; [..|cbn; lia].
Qed.

Lemma exec_calm {A} udid (p : prog A) : ∀ m,
  ends udid None p (dm_clock m) "" (λ _ _ _, True) → calm m (exec p m).2.
Proof.
  induction p as [a|X e k IH]; intros m H; [apply calm_refl|]. destruct H as [Hp H]. cbn [exec].
  destruct (perform_act_does _ _ _ e m Hp) as (st' & He & [[-> Hc]|[[[] _] _]]); [|done..].
  specialize (H _ _ _ He). destruct (perform_act e m) as [x m1]. cbn [fst snd] in *.
  eapply calm_trans; [exact Hc|]. by apply IH.
Qed.

Lemma exec_silent {A} udid (p : prog A) m : silent udid None p → calm m (exec p m).2.
Proof. intros Hp. apply (exec_calm udid). by apply Hp. Qed.

(** *** Threads *)

Lemma elem_delete {A B} (f : A → B) (l : list A) i x y : l !! i = Some x → NoDup (f <$> l) →
  y ∈ delete i l ↔ y ∈ l ∧ f y ≠ f x.
Proof.
  intros Hi Hnd. pose proof (delete_Permutation l i x Hi) as Hp. rewrite Hp in Hnd. cbn in Hnd.
  apply NoDup_cons in Hnd as [Hx Hnd]. assert (y ∈ l ↔ y = x ∨ y ∈ delete i l) as -> by by rewrite <-elem_of_cons, <-Hp.
  split.
  - intros Hy. split; [by right|]. intros He. apply Hx. rewrite <-He. by apply list_elem_of_fmap_2.
  - by intros [[->|?] Hne].
Qed.

Lemma elem_insert {A B} (f : A → B) (l : list A) i x x' y : l !! i = Some x → NoDup (f <$> l) →
  y ∈ <[i:=x']> l ↔ y = x' ∨ y ∈ l ∧ f y ≠ f x.
Proof.
  intros Hi Hnd. rewrite !list_elem_of_lookup. split.
  - intros [j Hj]. apply list_lookup_insert_Some in Hj as [(-> & -> & _)|(Hne & Hj)]; [by left|right].
    split; [by exists j|]. intros He. apply Hne. eapply (NoDup_lookup (f <$> l)); [done| |];
      rewrite list_lookup_fmap; [by rewrite Hi|by rewrite Hj; cbn; rewrite He].
  - intros [->|[[j Hj] Hne]].
    + exists i. apply list_lookup_insert_eq. by eapply lookup_lt_Some.
    + exists j. rewrite list_lookup_insert_ne; [done|]. intros ->. congruence.
Qed.

Lemma fmap_insert_same {A B} (f : A → B) (l : list A) i x x' : l !! i = Some x → f x' = f x → f <$> <[i:=x']> l = f <$> l.
Proof. intros Hi Hf. rewrite list_fmap_insert, Hf. apply list_insert_id. by rewrite list_lookup_fmap, Hi. Qed.

(** The thread that is done told an outcome; its device is free. *)
Lemma release_ok i udid id u m : manager_ok m → dm_threads m !! i = Some (mkThread udid id (Ret u)) →
  manager_ok (releaseUDID udid (with_threads (delete i (dm_threads m)) m)).
Proof.
  intros [H1 H2 H3 H4] Hi.
  pose proof (λ y, elem_delete th_udid _ _ _ y Hi H1) as Hdev. pose proof (λ y, elem_delete th_op _ _ _ y Hi H2) as Hops.
  assert (∀ f : Thread → string, NoDup (f <$> dm_threads m) → NoDup (f <$> delete i (dm_threads m))) as Hnd.
  { intros f Hf. eapply sublist_NoDup; [exact Hf|]. apply fmap_sublist, sublist_delete. }
  split; cbn [releaseUDID with_inflight with_threads dm_threads dm_inflight]; auto.
  - intros v id'. rewrite lookup_delete_Some, H3. setoid_rewrite Hdev. cbn. naive_solver.
  - intros id'. destruct (H4 id') as [(Ht & Ho & Hu)|(st & Hp & Hs & Hu & Hn & He)]; [left|right].
    + split_and!; [done..|]. intros (th & [Hth _]%Hops & Hid). apply Hu. by exists th.
    + exists st. split_and!; [done|done| |done|].
      * destruct (decide (id' = id)) as [->|Hne].
        -- left. exact (He _ (list_elem_of_lookup_2 _ _ _ Hi) eq_refl).
        -- destruct Hu as [Hu|(th & Hth & <-)]; [by left|right]. exists th. split; [|done]. by apply Hops.
      * intros th [Hth _]%Hops. by apply He.
Qed.

(** *** A report of its own operation *)

Lemma told_setOp id st msg err m id' : 
  told id' (dm_published (setOp id st msg err m)) =
  told id' (dm_published m) ++
    match dm_ops m !! id with Some op => if bool_decide (op_ID op = id') then [st] else [] | None => [] end.
Proof.
  unfold setOp. destruct (dm_ops m !! id) as [op|]; [|by rewrite app_nil_r].
  change (told id' (dm_published m ++ [(EventOpUpdated, OfOp (updated_op op st msg err))]) =
    told id' (dm_published m) ++ (if bool_decide (op_ID op = id') then [st] else [])).
  rewrite told_app. f_equal. unfold told, updated_op. cbn. by case_bool_decide.
Qed.

(** A thread goes on, in a state of its operation that was told and is shown. *)
Lemma thread_goes_on m m1 i udid id p p' st' :
  manager_ok m → dm_threads m !! i = Some (mkThread udid id p) →
  dm_threads m1 = dm_threads m → dm_inflight m1 = dm_inflight m → dm_around m1 = dm_around m →
  dm_clock m ≤ dm_clock m1 → (dm_n m ≤ dm_n m1)%nat →
  (∀ id', id' ≠ id → told id' (dm_published m1) = told id' (dm_published m) ∧ dm_ops m1 !! id' = dm_ops m !! id') →
  op_path (told id (dm_published m1)) st' → shown m1 id st' →
  ends udid (Some id) p' (dm_clock m1) st' outcome_told →
  manager_ok (with_threads (<[i := mkThread udid id p']> (dm_threads m1)) m1).
Proof.
  intros [H1 H2 H3 H4] Hi Hth Hfl Har Hclock Hn Hother Hpath Hshown Hends. rewrite Hth.
  pose proof (λ y, elem_insert th_udid _ _ _ (mkThread udid id p') y Hi H1) as Hdev.
  pose proof (λ y, elem_insert th_op _ _ _ (mkThread udid id p') y Hi H2) as Hops.
  assert (mkThread udid id p ∈ dm_threads m) as Hin by by eapply list_elem_of_lookup_2.
  assert (∃ n, (n < dm_n m)%nat ∧ id = su_newID (dm_around m) n) as (n & Hlt & Hid).
  { destruct (H4 id) as [(_ & _ & [])|(st & _ & _ & _ & Hn' & _)]; [by eexists|done]. }
  split; cbn [with_threads dm_threads dm_inflight]; [by rewrite (fmap_insert_same _ _ _ _ _ Hi)..| |].
  - intros v id'. rewrite Hfl, H3. setoid_rewrite Hdev. cbn. split.
    + intros [q Hq]. destruct (decide (v = udid)) as [->|Hne]; [|exists q; by right].
      exists p'. left. assert (dm_inflight m !! udid = Some id') as Hq' by (apply H3; eauto).
      assert (dm_inflight m !! udid = Some id) as Hq'' by (apply H3; eauto). congruence.
    + intros [q [[= -> -> ->]|[Hq _]]]; eauto.
  - intros id'. destruct (decide (id' = id)) as [->|Hne].
    + right. exists st'. split_and!; [done|done|right|exists n; cbn; split; [lia|by rewrite Har]|].
      * eexists. split; [apply Hops; by left|done].
      * intros th [->|[_ Hop]]%Hops Heq; [done|]. by destruct Hop.
    + destruct (Hother id' Hne) as [Ht Ho]. unfold op_unknown, op_known, shown, under_way. cbn [with_threads dm_threads dm_published dm_ops dm_n dm_around dm_clock].
      rewrite Ht, Ho, Har. destruct (H4 id') as [(Htu & Hou & Hu)|(st & Hp & Hs & Hu & (n' & Hlt' & Hid') & He)]; [left|right].
      * split_and!; [done..|]. intros (th & [->|[Hth' _]]%Hops & Hop); [by cbn in Hop|]. apply Hu. by exists th.
      * exists st. split_and!; [done|done| |exists n'; split; [lia|done]|].
        -- destruct Hu as [?|(th & Hth' & <-)]; [by left|right]. exists th. split; [|done]. apply Hops. by right.
        -- intros th [->|[Hth' _]]%Hops Hop; [by cbn in Hop|]. eapply told_after_ends; [done|]. by apply He.
Qed.

Lemma setOp_frame id s msg err m :
  dm_threads (setOp id s msg err m) = dm_threads m ∧ dm_inflight (setOp id s msg err m) = dm_inflight m ∧
  dm_around (setOp id s msg err m) = dm_around m ∧ dm_clock (setOp id s msg err m) = dm_clock m ∧
  dm_n (setOp id s msg err m) = dm_n m.
Proof. unfold setOp. by case_match. Qed.

Lemma setOp_ops id s msg err m op : dm_ops m !! id = Some op →
  dm_ops (setOp id s msg err m) = <[id := updated_op op s msg err]> (dm_ops m).
Proof. intros Hop. unfold setOp. by rewrite Hop. Qed.

Lemma acted_ok i udid id {X} (e : act X) k m : manager_ok m →
  dm_threads m !! i = Some (mkThread udid id (Do e k)) → manager_ok (advance i m).
Proof.
  intros Hok Hi. unfold advance. rewrite Hi. destruct (hangs e m); [done|]. cbn.
  assert (mkThread udid id (Do e k) ∈ dm_threads m) as Hin by by eapply list_elem_of_lookup_2.
  destruct (ok_known _ Hok id) as [(_ & _ & [])|(st & Hp & Hs & _ & _ & He)]; [by eexists|].
  destruct (He _ Hin eq_refl) as [Hperm Hk]. cbn in Hperm, Hk.
  destruct (perform_act_does _ _ _ e m Hperm) as (st' & Heff & Hdoes). specialize (Hk _ _ _ Heff).
  destruct (perform_act e m) as [x m1]. cbn [fst snd] in *. destruct Hdoes as [[-> [Ho Hf Ht Ha Hto Hc Hn]]|[Hfollow (id' & msg & err & [= <-] & ->)]].
  - eapply thread_goes_on; try done; [by rewrite Ho| |]; [by rewrite Hto|]. unfold shown. by rewrite Ho.
  - assert (∃ op, dm_ops m !! id = Some op ∧ op_ID op = id) as (op & Hop & Hopid).
    { unfold shown in Hs. destruct (dm_ops m !! id) as [op|]; [exists op; by destruct Hs|].
      by destruct (live_not_settled st); [apply Hfollow|]. }
    destruct (setOp_frame id st' msg err m) as (Ht & Hf & Ha & Hc & Hn).
    eapply thread_goes_on; try done; rewrite ?Hc, ?Hn; try done.
    + intros id' Hne. rewrite told_setOp, Hop, bool_decide_false by congruence. rewrite app_nil_r. split; [done|].
      by rewrite (setOp_ops _ _ _ _ _ op Hop), lookup_insert_ne.
    + rewrite told_setOp, Hop, bool_decide_true by done. by apply (path_next _ st).
    + unfold shown. by rewrite (setOp_ops _ _ _ _ _ op Hop), lookup_insert_eq.
Qed.

Lemma advance_ok i m : manager_ok m → manager_ok (advance i m).
Proof.
  intros Hok. destruct (dm_threads m !! i) as [[udid id [u|X e k]]|] eqn:Hi.
  - unfold advance. rewrite Hi. by eapply release_ok.
  - by eapply acted_ok.
  - unfold advance. by rewrite Hi.
Qed.

(** *** A start *)

Lemma prune_lookup ops k : prune ops !! k = ops !! k ∨
  prune ops !! k = None ∧ ∃ op, ops !! k = Some op ∧ op_settled op.
Proof.
  unfold prune. case_match; [by left|]. destruct (ops !! k) as [op|] eqn:Hk.
  - destruct (decide (op_settled op)) as [Hs|Hs]; [right|left].
    + split; [|by exists op]. apply map_lookup_filter_None_2. right. intros op' Hop'. rewrite Hk in Hop'. injection Hop' as <-. cbn. tauto.
    + by apply map_lookup_filter_Some_2.
  - left. apply map_lookup_filter_None_2. by left.
Qed.

(** Ids are drawn at random: no two draws agree. *)
Definition fresh_ids (m : Manager) : Prop := ∀ n n', su_newID (dm_around m) n = su_newID (dm_around m) n' → n = n'.

Lemma fresh_unknown m : manager_ok m → fresh_ids m → op_unknown m (su_newID (dm_around m) (dm_n m)).
Proof.
  intros Hok Hf. destruct (ok_known _ Hok (su_newID (dm_around m) (dm_n m))) as [?|(st & _ & _ & _ & (n & Hlt & Hid) & _)]; [done|].
  apply Hf in Hid. lia.
Qed.

Lemma start_ok kind udid msg fn m : manager_ok m → fresh_ids m →
  (∀ id t, ends udid (Some id) (fn id) t "running" outcome_told) → manager_ok (startGuardedOp kind udid msg fn m).2.
Proof.
  intros Hok Hf Hfn. unfold startGuardedOp. pose proof (fresh_unknown m Hok Hf) as (Htold & Hnone & Hidle).
  set (id := su_newID (dm_around m) (dm_n m)) in *.
  case_bool_decide as Hbusy; cbn [snd].
  { eapply manager_ok_calm; [|done]. apply calm_answered. lia. }
  destruct Hok as [H1 H2 H3 H4]. cbn in Hbusy.
  assert (∀ p, mkThread udid id p ∉ dm_threads m) as Hno.
  { intros p Hp. apply Hbusy. exists id. apply H3. by exists p. }
  assert (∀ th, th ∈ dm_threads m → th_udid th ≠ udid ∧ th_op th ≠ id) as Hother.
  { intros [u i p] Hth. cbn. split; intros ->; [apply Hbusy; exists i; apply H3; by exists p|].
    apply Hidle. eexists. by split. }
  set (m2 := with_threads _ _).
  assert (∀ th, th ∈ dm_threads m2 ↔ th ∈ dm_threads m ∨ th = mkThread udid id (fn id)) as Hth2.
  { intros th. subst m2. cbn. by rewrite elem_of_app, list_elem_of_singleton. }
  assert (∀ id', told id' (dm_published m2) = told id' (dm_published m) ++ if bool_decide (id = id') then ["running"%string] else []) as Htold2.
  { intros id'. subst m2. change (told id' (dm_published m ++ [(EventOpUpdated, OfOp (mkOp id udid kind "running" msg None))]) =
      told id' (dm_published m) ++ if bool_decide (id = id') then ["running"%string] else []).
    rewrite told_app. f_equal. unfold told. cbn. by case_bool_decide. }
  split.
  - subst m2. cbn. rewrite fmap_app. apply NoDup_app. split_and!; [done| |apply NoDup_singleton].
    intros u (th & -> & Hth)%list_elem_of_fmap Hu%list_elem_of_singleton. by destruct (Hother th Hth).
  - subst m2. cbn. rewrite fmap_app. apply NoDup_app. split_and!; [done| |apply NoDup_singleton].
    intros u (th & -> & Hth)%list_elem_of_fmap Hu%list_elem_of_singleton. by destruct (Hother th Hth).
  - intros u i. setoid_rewrite Hth2. change (dm_inflight m2) with (<[udid:=id]> (dm_inflight m)).
    rewrite lookup_insert_Some, H3. split.
    + intros [[<- <-]|[Hne [p Hp]]]; [exists (fn id); by right|exists p; by left].
    + intros [p [Hp|[= -> -> ->]]]; [right|by left]. destruct (Hother _ Hp) as [Hu _]. split; [by intros ->|eauto].
  - intros id'. destruct (decide (id' = id)) as [->|Hne].
    + right. exists "running"%string. split_and!.
      * rewrite Htold2, Htold, bool_decide_true by done. apply path_start.
      * unfold shown, m2. cbn. by rewrite lookup_insert_eq.
      * right. eexists. split; [apply Hth2; by right|done].
      * exists (dm_n m). split; [cbn; lia|done].
      * intros th [Hin| ->]%Hth2 Hop; [by destruct (Hother th Hin)|]. apply Hfn.
    + specialize (Htold2 id'). rewrite bool_decide_false, app_nil_r in Htold2 by congruence.
      assert (dm_ops m2 !! id' = prune (dm_ops m) !! id') as Hops2.
      { unfold m2. cbn. by rewrite lookup_insert_ne. }
      destruct (H4 id') as [(Ht & Ho & Hu)|(st & Hp & Hs & Hu & (n & Hlt & Hid) & He)]; [left|right].
      * split_and!; [by rewrite Htold2| |].
        -- rewrite Hops2. destruct (prune_lookup (dm_ops m) id') as [->|[-> _]]; done.
        -- intros (th & [Hin| ->]%Hth2 & Hop); [apply Hu; by exists th|by cbn in Hop].
      * exists st. split_and!; [by rewrite Htold2| | |exists n; split; [cbn; lia|done]|].
        -- unfold shown. rewrite Hops2. unfold shown in Hs.
           destruct (prune_lookup (dm_ops m) id') as [->|[-> (op & Hop & Hset)]]; [done|].
           rewrite Hop in Hs. destruct Hs as [_ <-]. exact Hset.
        -- destruct Hu as [?|(th & Hth & Hop)]; [by left|right]. exists th. split; [apply Hth2; by left|done].
        -- intros th [Hin| ->]%Hth2 Hop; [by apply He|by cbn in Hop].
Qed.

(** *** Calls *)

(** The manager is in order, and the ids still to be drawn are new. *)
Definition sound (m : Manager) : Prop := manager_ok m ∧ fresh_ids m.

Lemma sound_calm m m' : calm m m' → sound m → sound m'.
Proof.
  intros Hc [H1 H2]. split; [by eapply manager_ok_calm|]. unfold fresh_ids. by rewrite (calm_around _ _ Hc).
Qed.

Lemma around_setOp id s msg err m : dm_around (setOp id s msg err m) = dm_around m.
Proof. apply setOp_frame. Qed.

Lemma sound_call {A B} udid (p : prog A) (f : A → stateM Manager B) m : silent udid None p → sound m →
  (∀ a m', sound m' → sound (f a m').2) → sound ((exec p ≫= f) m).2.
Proof.
  intros Hp Hm Hf. unfold mbind, stateM_bind. pose proof (exec_silent udid p m Hp) as Hc.
  destruct (exec p m) as [a m1]. by eapply Hf, sound_calm.
Qed.

Lemma sound_start {B} kind udid msg fn (f : option Op → B) m : sound m →
  (∀ id t, ends udid (Some id) (fn id) t "running" outcome_told) →
  sound ((op ← startGuardedOp kind udid msg fn; mret (f op)) m).2.
Proof.
  intros [H1 H2] Hfn. pose proof (start_ok kind udid msg fn m H1 H2 Hfn) as H.
  assert (dm_around (startGuardedOp kind udid msg fn m).2 = dm_around m) as Ha.
  { unfold startGuardedOp. by case_bool_decide. }
  unfold mbind, stateM_bind. destruct (startGuardedOp kind udid msg fn m) as [op m1]. cbn in *.
  split; [done|]. unfold fresh_ids. by rewrite Ha.
Qed.

#[local] Hint Resolve silent_validate silent_Info silent_ReadPairRecord silent_reEnrich : ops.

Lemma Pair_sound udid m : sound m → sound (Pair parseInfoPlist udid m).2.
Proof.
  intros Hm. unfold Pair. case_match; [done|]. apply (sound_call udid); [auto with ops|done|].
  intros [dev|] m1 Hm1; [|done]. case_bool_decide; [done|]. apply (sound_call udid); [auto with ops|done|].
  intros before m2 Hm2. case_bool_decide; [done|]. apply sound_start; [done|]. intros id t. apply runPair_ends.
Qed.

Lemma Encryption_sound udid action p o n m : sound m → sound (Encryption parseInfoPlist udid action p o n m).2.
Proof.
  intros Hm. unfold Encryption. case_match; [done|]. apply (sound_call udid); [auto with ops|done|].
  intros [dev|] m1 Hm1; [|done]. destruct (opTransport dev); [|done]. destruct (encryption_refusal _ _ _ _); [done|].
  apply sound_start; [done|]. intros id t. apply runEncryption_ends.
Qed.

Lemma WifiSync_sound udid action m : sound m → sound (WifiSync parseInfoPlist udid action m).2.
Proof.
  intros Hm. unfold WifiSync. case_match; [done|]. apply (sound_call udid); [auto with ops|done|].
  intros [dev|] m1 Hm1; [|done]. case_match; [done|]. destruct (opTransport dev); [|done]. case_match; [done|].
  apply sound_start; [done|]. intros id t. apply runWifiSync_ends.
Qed.

Lemma Validate_sound ctx udid m : sound m → sound (Validate ctx udid m).2.
Proof.
  intros Hm. unfold Validate. case_match; [done|]. apply (sound_call udid); [auto with ops|done|].
  intros [dev|] m1 Hm1; [|done]. destruct (opTransport dev); [|done].
  apply (sound_call udid); [|done|done]. apply silent_WithTimeout. intros deadline Hd. by apply silent_Validate.
Qed.

Lemma RefreshEncryption_sound ctx udid transport m : sound m → sound (RefreshEncryption parseInfoPlist ctx udid transport m).2.
Proof.
  intros Hm. unfold RefreshEncryption. apply (sound_call udid); [by apply silent_Info; intros []|done|].
  intros [i|e] m1 Hm1; [|done]. apply (sound_call udid); [auto with ops|done|]. intros _ m2 Hm2. by case_match.
Qed.

Lemma perform_around {X} (e : act X) m : dm_around (perform_act e m).2 = dm_around m.
Proof.
  destruct e; cbn; first [done|apply around_setOp|by destruct (Enrich _ _ _) as [[? ?] ?]|
    unfold wait, tool_answer; by repeat case_match|unfold auditEvent; by case_match].
Qed.

Lemma advance_sound i m : sound m → sound (advance i m).
Proof.
  intros [H1 H2]. split; [by apply advance_ok|]. unfold fresh_ids, advance.
  destruct (dm_threads m !! i) as [[u id [r|X e k]]|]; [done| |done]. destruct (hangs e m); [done|].
  pose proof (perform_around e m) as Ha. destruct (perform_act e m) as [x m1]. cbn in *. by rewrite Ha.
Qed.

Lemma make_sound mv m : sound m → sound (make parseInfoPlist mv m).
Proof.
  intros Hm. destruct mv; cbn [make].
  - by apply Pair_sound.
  - by apply Encryption_sound.
  - by apply WifiSync_sound.
  - by apply Validate_sound.
  - by apply RefreshEncryption_sound.
  - by apply advance_sound.
  - eapply sound_calm; [|done]. by split.
Qed.

Lemma play_sound moves : ∀ m, sound m → sound (play parseInfoPlist moves m).
Proof. induction moves as [|mv moves IH]; intros m Hm; [done|]. by apply IH, make_sound. Qed.

Lemma NewManager_sound devs now around : (∀ n n', su_newID around n = su_newID around n' → n = n') →
  sound (NewManager devs now around).
Proof.
  intros Hids. split; [|exact Hids]. split; cbn; try apply NoDup_nil_2.
  - intros u id. rewrite lookup_empty. split; [done|]. intros [p []%elem_of_nil].
  - intros id. left. split_and!; [done..|]. intros (th & []%elem_of_nil & _).
Qed.

(** ** The theorems *)

Lemma path_shape l st : op_path l st → ∃ n tail, l = "running"%string :: replicate n "waiting_for_user"%string ++ tail ∧
  (tail = [] ∧ live st ∨ tail = [st] ∧ settled st).
Proof.
  induction 1 as [|l st s Hl (n & tail & -> & Htail) [Hlive Hs]].
  - exists 0%nat, []. split; [done|]. left. split; [done|]. by left.
  - destruct Htail as [[-> _]|[_ Hset]]; [|by destruct (live_not_settled st)].
    rewrite app_nil_r. destruct Hs as [->|Hs].
    + exists (S n), []. split; [|left; split; [done|by right]].
      rewrite app_nil_r, replicate_S_end. done.
    + exists n, [s]. split; [done|]. by right.
Qed.

Lemma path_last l st : op_path l st → last l = Some st.
Proof. destruct 1; [done|]. apply last_snoc. Qed.

(** C22: What is told of an operation is a path of its machine, whatever else goes on.  In any run of
    calls, of steps of the operations under way and of changes to the devices, of an operation that
    was started is told that it runs, then any number of times that it waits for the person at the
    device, then at most one outcome and nothing after it; one that is not under way has told its
    outcome; and its row, while it is kept, shows the state told last. *)
Theorem operations_follow_machine devs now around moves id :
  (∀ n n', su_newID around n = su_newID around n' → n = n') →
  let m := play parseInfoPlist moves (NewManager devs now around) in
  told id (dm_published m) = [] ∧ dm_ops m !! id = None ∧ ¬ under_way m id ∨
  ∃ n outcome, told id (dm_published m) = "running"%string :: replicate n "waiting_for_user"%string ++ outcome ∧
    (outcome = [] ∧ under_way m id ∨ outcome = ["succeeded"%string] ∨ outcome = ["failed"%string]) ∧
    ∀ op, dm_ops m !! id = Some op → op_ID op = id ∧ last (told id (dm_published m)) = Some (op_State op).
Proof.
  intros Hids m. destruct (play_sound moves _ (NewManager_sound devs now around Hids)) as [Hok _]. fold m in Hok.
  destruct (ok_known _ Hok id) as [?|(st & Hp & Hs & Hu & _)]; [by left|right].
  destruct (path_shape _ _ Hp) as (n & outcome & Htold & Hout). exists n, outcome. split_and!; [done| |].
  - destruct Hout as [[-> Hlive]|[-> [->| ->]]]; [left|by right; left|by right; right].
    split; [done|]. destruct Hu as [Hset|?]; [by destruct (live_not_settled st)|done].
  - intros op Hop. rewrite (path_last _ _ Hp). unfold shown in Hs. rewrite Hop in Hs. by destruct Hs as [-> ->].
Qed.

Definition addressee {X} (e : act X) : option string :=
  match e with
  | ARun _ _ udid _ _ | ATerminal _ udid _ _ | AAsk _ udid _ | ADevice udid | AEnrich udid _ | AAudit _ udid _ => Some udid
  | ASetOp _ _ _ _ | AAnswer _ | ANow | AWait _ _ => None
  end.

Definition busy (m : Manager) (udid : string) : Prop := ∃ th, th ∈ dm_threads m ∧ th_udid th = udid.

Lemma start_busy kind udid msg fn m : is_Some (dm_inflight m !! udid) →
  (startGuardedOp kind udid msg fn m).1 = None ∧ dm_threads (startGuardedOp kind udid msg fn m).2 = dm_threads m.
Proof. intros H. unfold startGuardedOp. by rewrite bool_decide_true. Qed.

(** A call that begins nothing. *)
Definition declines (r : reply * Manager) (m : Manager) : Prop := r.1.1.2 ≠ 202 ∧ dm_threads r.2 = dm_threads m.

Lemma declines_call {A} udid (p : prog A) (f : A → stateM Manager reply) m : silent udid None p →
  (∀ a m', calm m m' → declines (f a m') m') → declines ((exec p ≫= f) m) m.
Proof.
  intros Hp Hf. unfold mbind, stateM_bind. pose proof (exec_silent udid p m Hp) as Hc.
  destruct (exec p m) as [a m1]. cbn [snd] in Hc. destruct (Hf a m1 Hc) as [H1 H2]. split; [done|]. by rewrite H2, (calm_threads _ _ Hc).
Qed.

Lemma declines_start kind udid msg fn m : is_Some (dm_inflight m !! udid) →
  declines ((op ← startGuardedOp kind udid msg fn; mret (begun op)) m) m.
Proof.
  intros H. destruct (start_busy kind udid msg fn m H) as [H1 H2]. unfold mbind, stateM_bind.
  destruct (startGuardedOp kind udid msg fn m) as [op m1]. cbn in *. by subst.
Qed.

Lemma declines_busy udid m : is_Some (dm_inflight m !! udid) →
  declines (Pair parseInfoPlist udid m) m ∧
  (∀ action p o n, declines (Encryption parseInfoPlist udid action p o n m) m) ∧
  (∀ action, declines (WifiSync parseInfoPlist udid action m) m).
Proof.
  intros Hbusy. assert (∀ m', calm m m' → is_Some (dm_inflight m' !! udid)) as Hstill.
  { intros m' Hc. by rewrite (calm_inflight _ _ Hc). }
  split_and!; intros; unfold Pair, Encryption, WifiSync; (case_match; [done|]);
    (apply (declines_call udid); [auto with ops|]); intros [dev|] m1 Hm1; try done.
  - case_bool_decide; [done|]. apply (declines_call udid); [auto with ops|]. intros before m2 Hm2.
    case_bool_decide; [done|]. apply declines_start, Hstill. by eapply calm_trans.
  - destruct (opTransport dev); [|done]. destruct (encryption_refusal _ _ _ _); [done|]. apply declines_start. auto.
  - case_match; [done|]. destruct (opTransport dev); [|done]. case_match; [done|]. apply declines_start. auto.
Qed.

(** A phone has one operation at a time.  In any run, at most one operation is under way on a
    device, whatever it does next is addressed to that device, and while it is under way every call
    that would begin another on the device is refused and begins none. *)
Theorem one_operation_per_device devs now around moves :
  (∀ n n', su_newID around n = su_newID around n' → n = n') →
  let m := play parseInfoPlist moves (NewManager devs now around) in
  NoDup (th_udid <$> dm_threads m) ∧
  (∀ udid id X (e : act X) k, mkThread udid id (Do e k) ∈ dm_threads m → default udid (addressee e) = udid) ∧
  ∀ udid, busy m udid →
    declines (Pair parseInfoPlist udid m) m ∧
    (∀ action p o n, declines (Encryption parseInfoPlist udid action p o n m) m) ∧
    (∀ action, declines (WifiSync parseInfoPlist udid action m) m).
Proof.
  intros Hids m. destruct (play_sound moves _ (NewManager_sound devs now around Hids)) as [Hok _]. fold m in Hok.
  split_and!; [apply Hok| |].
  - intros udid id X e k Hin. destruct (ok_known _ Hok id) as [(_ & _ & [])|(st & _ & _ & _ & _ & He)]; [by eexists|].
    destruct (He _ Hin eq_refl) as [Hp _]. destruct e; cbn in Hp |- *; by destruct_and?.
  - intros udid ([u id p] & Hin & <-). apply declines_busy. exists id. apply (ok_inflight _ Hok). by exists p.
Qed.

(** What a thread may do has a deadline, so it does not hang. *)
Lemma permitted_answers udid id st {X} (e : act X) m : permitted udid (Some id) st e → hangs e m = false.
Proof.
  assert (∀ ctx, is_Some ctx → bool_decide (tool_end ctx m = None) = false) as Hend.
  { intros ctx [deadline ->]. apply bool_decide_false. unfold tool_end. by repeat case_match. }
  destruct e; cbn; try done; intros [_ Hctx]; by apply Hend, Hctx.
Qed.

Lemma advance_thread i udid id st {X} (e : act X) k m : permitted udid (Some id) st e →
  dm_threads m !! i = Some (mkThread udid id (Do e k)) →
  ∃ x, dm_threads (advance i m) !! i = Some (mkThread udid id (k x)).
Proof.
  intros Hp Hi. unfold advance. rewrite Hi, (permitted_answers udid id st) by done.
  assert (dm_threads (perform_act e m).2 = dm_threads m) as Ht.
  { destruct e; cbn; first [done|apply setOp_frame|by destruct (Enrich _ _ _) as [[? ?] ?]|
      unfold wait, tool_answer; by repeat case_match|unfold auditEvent; by case_match]. }
  destruct (perform_act e m) as [x m1]. exists x. cbn in *. rewrite Ht.
  apply list_lookup_insert_eq. by eapply lookup_lt_Some.
Qed.

(** C23: Every operation ends.  Whatever the tools, the muxers and the person at the device do, an
    operation that is let go on as often as it takes releases its device and has told an outcome.  A
    tool or a muxer may hang: the deadline of the operation's context (two minutes for pairing, five
    for encryption, thirty seconds for Wi-Fi sync, twenty for the reading that follows, five for a
    pairing record) cuts it short; and pairing asks the person no more than sixty times. *)
Theorem operations_end devs now around moves i udid id p :
  (∀ n n', su_newID around n = su_newID around n' → n = n') →
  let m := play parseInfoPlist moves (NewManager devs now around) in
  dm_threads m !! i = Some (mkThread udid id p) →
  ∃ n, let m' := play parseInfoPlist (replicate n (Advance i)) m in
    dm_inflight m' !! udid = None ∧ ¬ busy m' udid ∧
    ∃ st, last (told id (dm_published m')) = Some st ∧ settled st.
Proof.
  intros Hids m. pose proof (play_sound moves _ (NewManager_sound devs now around Hids)) as Hok. fold m in Hok.
  clearbody m. revert m Hok. induction p as [u|X e k IH]; intros m Hok Hi.
  - exists 1%nat. cbn. pose proof (advance_sound i m Hok) as [Hok' _]. destruct Hok as [Hok _].
    assert (dm_inflight (advance i m) !! udid = None) as Hfree.
    { unfold advance. rewrite Hi. cbn. apply lookup_delete_eq. }
    split_and!; [done| |].
    + intros ([u' i' q] & Hin & Hu). cbn in Hu. subst u'. enough (dm_inflight (advance i m) !! udid = Some i') by congruence.
      apply (ok_inflight _ Hok'). by exists q.
    + assert (told id (dm_published (advance i m)) = told id (dm_published m)) as -> by (unfold advance; by rewrite Hi).
      assert (mkThread udid id (Ret u) ∈ dm_threads m) as Hin by by eapply list_elem_of_lookup_2.
      destruct (ok_known _ Hok id) as [(_ & _ & [])|(st & Hp & _ & _ & _ & He)]; [by eexists|].
      exists st. split; [by apply path_last|]. exact (He _ Hin eq_refl).
  - assert (∃ st, permitted udid (Some id) st e) as [st Hp].
    { assert (mkThread udid id (Do e k) ∈ dm_threads m) as Hin by by eapply list_elem_of_lookup_2.
      destruct (ok_known _ (proj1 Hok) id) as [(_ & _ & [])|(st & _ & _ & _ & _ & He)]; [by eexists|].
      exists st. apply (He _ Hin eq_refl). }
    destruct (advance_thread i udid id st e k m Hp Hi) as [x Hx].
    destruct (IH x _ (advance_sound i m Hok) Hx) as (n & Hn). by exists (S n).
Qed.

End manager.

(** * What an operation reports is what was read back; operations on two phones *)

Section outcome.
Context `{Hrange : !MapRange} (parseInfoPlist : string → string * string * string).

Lemma exec_bind {A B} (p : prog A) (f : A → prog B) : ∀ m,
  exec (p ≫= f) m = let '(a, m1) := exec p m in exec (f a) m1.
Proof.
  induction p as [a|X e k IH]; intros m; [done|]. cbn. destruct (perform_act e m) as [x m1]. apply IH.
Qed.

Lemma exec_silent_ops {A} udid (p : prog A) m : silent udid None p → dm_ops (exec p m).2 = dm_ops m.
Proof. intros Hp. apply (calm_ops _ _ (exec_silent udid p m Hp)). Qed.

Lemma setOp_state id s msg err m op : dm_ops m !! id = Some op →
  op_State <$> dm_ops (setOp id s msg err m) !! id = Some s.
Proof. intros Hop. by rewrite (setOp_ops _ _ _ _ _ _ Hop), lookup_insert_eq. Qed.

#[local] Hint Resolve silent_reEnrich silent_publish_wifi : ops.

(** A body that publishes, reports and goes on silently: the state that it reports stays. *)
Lemma exec_report {A B} udid id s msg err (p : prog A) (q : prog B) m op :
  silent udid None p → silent udid None q → dm_ops m !! id = Some op →
  op_State <$> dm_ops (exec (p;; perform (ASetOp id s msg err);; q) m).2 !! id = Some s.
Proof.
  intros Hp Hq Hop. rewrite exec_bind. pose proof (exec_silent_ops udid p m Hp) as Hm. destruct (exec p m) as [a m1].
  cbn [snd] in Hm. rewrite exec_bind. cbn [exec perform perform_act]. rewrite (exec_silent_ops udid q _ Hq).
  apply (setOp_state _ _ _ _ _ op). by rewrite Hm.
Qed.

Lemma exec_fail {A} udid id code message (p : prog A) m op : silent udid None p → dm_ops m !! id = Some op →
  op_State <$> dm_ops (exec (fail_op id code message;; p) m).2 !! id = Some "failed"%string.
Proof.
  intros Hp Hop. unfold fail_op. rewrite exec_bind. cbn [exec perform perform_act].
  rewrite (exec_silent_ops udid p _ Hp). by apply (setOp_state _ _ _ _ _ op).
Qed.

(** The two runs of the tool that a change of the setting makes. *)
Definition write_act (ctx : context) (udid transport : string) (enable : bool) : act run_output :=
  ARun ctx Ideviceinfo udid transport
    (wifi_args udid transport ++ ["--set-bool"; if enable then "true" else "false"]).
Definition read_act (ctx : context) (udid transport : string) : act run_output :=
  ARun ctx Ideviceinfo udid transport (wifi_args udid transport).
(** The deadline of an operation that starts now. *)
Definition op_ctx (m : Manager) : context := Some (dm_clock m + deviceOpTimeout).
Definition written (udid transport : string) (enable : bool) (m : Manager) : run_output :=
  (perform_act (write_act (op_ctx m) udid transport enable) m).1.
Definition read_back (udid transport : string) (enable : bool) (m : Manager) : run_output :=
  (perform_act (read_act (op_ctx m) udid transport) (perform_act (write_act (op_ctx m) udid transport enable) m).2).1.

Lemma SetWifiSync_exec udid transport enable m :
  dm_ops (exec (SetWifiSync (op_ctx m) udid transport enable) m).2 = dm_ops m ∧
  let got := scalarTriState (read_back udid transport enable m) in
  (exec (SetWifiSync (op_ctx m) udid transport enable) m).1 =
    match ro_err (written udid transport enable m) with
    | Some e => Some (ErrWifiSyncOther ("ideviceinfo --set-bool: " +:+ e +:+ ": " +:+
                                        lastLine (ro_stderr (written udid transport enable m))))
    | None => if String.eqb got "unknown" then Some ErrWifiSyncUnreadable
              else if negb (eqb (String.eqb got "on") enable) then Some ErrWifiSyncNotApplied else None
    end.
Proof.
  split; [by apply (exec_silent_ops udid), silent_SetWifiSync; intros []|].
  unfold SetWifiSync. rewrite exec_bind. cbn [exec perform]. fold (write_act (op_ctx m) udid transport enable).
  unfold written, read_back. destruct (perform_act (write_act (op_ctx m) udid transport enable) m) as [w m1]. cbn [fst snd].
  destruct (ro_err w); [done|]. unfold wifiSync, read_act. cbn. by destruct (tool_answer _ _ _ m1).
Qed.

Lemma scalarTriState_values r :
  scalarTriState r = "on"%string ∨ scalarTriState r = "off"%string ∨ scalarTriState r = "unknown"%string.
Proof. unfold scalarTriState. repeat case_match; auto. Qed.

(** A change of Wi-Fi sync succeeds exactly when the device is seen to have made it.  With the
    answers that the device's tool gives to the write and to the read that follows, the operation
    ends as succeeded if and only if the write was accepted and the value read back is the one asked
    for, or, for turning it off over Wi-Fi, could not be read back because the connection that would
    carry it is gone; in every other case it ends as failed. *)
Theorem wifi_sync_truthful id udid transport action m op :
  action = "enable"%string ∨ action = "disable"%string → dm_ops m !! id = Some op →
  let enable := String.eqb action "enable" in
  let got := scalarTriState (read_back udid transport enable m) in
  let seen := ro_err (written udid transport enable m) = None ∧
    (got = (if enable then "on" else "off")%string ∨
     got = "unknown"%string ∧ enable = false ∧ transport = TransportWiFi) in
  ∃ st, op_State <$> dm_ops (exec (runWifiSync parseInfoPlist id udid transport action) m).2 !! id = Some st ∧
    (st = "succeeded"%string ∧ seen ∨ st = "failed"%string ∧ ¬ seen).
Proof.
  intros Haction Hop enable got seen. unfold runWifiSync, WithTimeout, Background. cbn [exec mbind prog_bind perform mret prog_ret perform_act]. fold enable. fold (op_ctx m). rewrite exec_bind.
  destruct (SetWifiSync_exec udid transport enable m) as [Hops Hverdict].
  destruct (exec (SetWifiSync (op_ctx m) udid transport enable) m) as [verdict m1]. cbn [fst snd] in Hops, Hverdict.
  fold got in Hverdict. rewrite <-Hops in Hop. subst verdict.
  assert (∀ e, ¬ seen → (e = ErrWifiSyncUnreadable → action = "disable"%string → transport ≠ TransportWiFi) →
    ∃ st, op_State <$> dm_ops (exec (if bool_decide (e = ErrWifiSyncUnreadable) && String.eqb action "disable" &&
        bool_decide (transport = TransportWiFi) then wifiSyncDisableUnreadable id udid
      else fail_op id (wifi_failure e).1 (wifi_failure e).2;;
           perform (AAudit ("device.wifi_sync." +:+ action) udid "failed")) m1).2 !! id = Some st ∧
      (st = "succeeded"%string ∧ seen ∨ st = "failed"%string ∧ ¬ seen)) as Hfail.
  { intros e Hseen He. exists "failed"%string. split; [|by right].
    destruct (bool_decide (e = ErrWifiSyncUnreadable) && String.eqb action "disable" && bool_decide (transport = TransportWiFi)) eqn:Hb.
    - apply andb_true_iff in Hb as [[H1%bool_decide_eq_true H2%String.eqb_eq]%andb_true_iff H3%bool_decide_eq_true].
      by destruct (He H1 H2).
    - apply (exec_fail udid _ _ _ _ _ op); [auto with ops|done]. }
  destruct (ro_err (written udid transport enable m)) as [e|] eqn:Hw.
  { apply Hfail; [|done]. by intros [? _]. }
  destruct (String.eqb_spec got "unknown") as [Hu|Hu].
  - destruct (decide (enable = false ∧ transport = TransportWiFi)) as [[He Ht]|Hno].
    + exists "succeeded"%string. split; [|left; split; [done|]; split; [done|right; by split_and!]].
      assert (action = "disable"%string) as -> by (destruct Haction as [->| ->]; done).
      rewrite bool_decide_true, bool_decide_true by done. cbn [andb String.eqb].
      unfold wifiSyncDisableUnreadable. apply (exec_report udid _ _ _ _ _ _ _ op); auto with ops.
    + apply Hfail; [intros [_ [Hon|(_ & ? & ?)]]; [rewrite Hon in Hu; by destruct enable|tauto]|].
      intros _ -> Ht. apply Hno. by split.
  - destruct (eqb (String.eqb got "on") enable) eqn:Heq; cbn [negb].
    + exists "succeeded"%string. apply eqb_prop in Heq. split.
      * apply (exec_report udid _ _ _ _ _ _ _ op); [auto with ops| |done]. silent.
      * left. split; [done|]. split; [done|left]. destruct (String.eqb_spec got "on") as [Hon|Hon]; rewrite <-Heq; [done|].
        destruct (scalarTriState_values (read_back udid transport enable m)) as [?|[?|?]]; done.
    + apply eqb_false_iff in Heq. apply Hfail; [|done]. intros [_ [Hon|(? & _)]]; [|done].
      apply Heq. rewrite Hon. by destruct enable.
Qed.

End outcome.

(** ** Two phones *)

#[local] Existing Instance some_order.

Definition red : string := "00008110-000A".
Definition blue : string := "00008110-000B".

Definition plugged : Registry :=
  let paired := mkIdentity "red" "iPhone14,5" "17.5" "yes" "off" "on" in
  set_identity {[red := paired]}
    (ensureOrder blue (setEdge "usbmuxd" blue TransportUSB "2026-08-01T08:00:00Z"
      (ensureOrder red (setEdge "usbmuxd" red TransportUSB "2026-08-01T08:00:00Z" NewRegistry)))).

(** The blue phone asks for trust once and then pairs; the red one takes the change of Wi-Fi sync and
    reports that it is off. *)
Definition ok_output (out : string) : run_output := mkOutput out "" None.
Definition bench : DeviceOps.Surroundings :=
  mkSurroundings (λ n, pretty n)
    (λ n bin args,
       if bool_decide (last args = Some "pair"%string) then
         if (n <? 5)%nat then mkOutput "ERROR: Please accept the trust dialog on the screen of device" "" (Some "exit status 1"%string)
         else ok_output "SUCCESS: Paired with device"
       else if bool_decide ("--set-bool"%string ∈ args) then ok_output ""
       else if bool_decide (last args = Some wifiSyncKey) then ok_output "false"
       else ok_output "SUCCESS: Validated")
    (λ _ _, mkSession None [] None)
    (λ n _, if (n <? 5)%nat then Replied usbmuxdNoRecord None else Replied 0 (Some "digest"%string))
    (λ _, Some Second) (λ _, Second) (λ _, false) (λ _, false).

(** The same phones with tools that hang. *)
Definition hung_bench : DeviceOps.Surroundings :=
  mkSurroundings (su_newID bench) (su_run bench) (su_terminal bench) (su_ask bench)
    (λ n, if (n <? 3)%nat then Some Second else None) (su_late bench) (su_prefers_done bench) (su_audit_fails bench).

Definition no_plist (s : string) : string * string * string := ("", "", "")%string.
Definition bench_moves : list move :=
  [CallPair blue; CallWifiSync red "disable"; CallEncryption blue "enable" "secret" "" ""] ++
  replicate 5 (Advance 0) ++ [Advance 1] ++ replicate 20 (Advance 0) ++ replicate 20 (Advance 0).
#[local] Abbreviation bench_end := (play no_plist bench_moves (NewManager plugged 0 bench)).

Lemma bench_ids n n' : su_newID bench n = su_newID bench n' → n = n'.
Proof. apply (inj pretty). Qed.

(** The pairing has id 1 and the change of Wi-Fi sync id 2. *)
Example both_phones_done :
  told "1" (dm_published bench_end) = ["running"; "waiting_for_user"; "succeeded"] ∧
  told "2" (dm_published bench_end) = ["running"; "succeeded"] ∧
  dm_threads bench_end = [] ∧ size (dm_ops bench_end) = 2%nat ∧
  au_Detail <$> dm_audit bench_end = [blue +:+ " paired"; red +:+ " ok"].
Proof. split_and!; vm_compute; reflexivity. Qed.

Lemma operations_follow_machine_witness :
  told "1" (dm_published bench_end) = ["running"; "waiting_for_user"; "succeeded"] ∧
  ∃ n outcome, told "1" (dm_published bench_end) = "running"%string :: replicate n "waiting_for_user"%string ++ outcome ∧
    (outcome = [] ∧ under_way bench_end "1" ∨ outcome = ["succeeded"%string] ∨ outcome = ["failed"%string]).
Proof.
  split; [vm_compute; reflexivity|].
  pose proof (operations_follow_machine no_plist plugged 0 bench bench_moves "1" bench_ids) as H.
  cbv zeta in H.  destruct H as [(H & _)|(n & outcome & H1 & H2 & _)].
  - rewrite (proj1 both_phones_done) in H. discriminate.
  - exists n, outcome. exact (conj H1 H2).
Defined.

#[local] Abbreviation bench_begun :=
  (play no_plist [CallPair blue; CallWifiSync red "disable"] (NewManager plugged 0 bench)).

Lemma one_operation_per_device_witness :
  th_udid <$> dm_threads bench_begun = [blue; red] ∧
  declines (Encryption no_plist blue "enable" "secret" "" "" bench_begun) bench_begun.
Proof.
  split; [vm_compute; reflexivity|].
  pose proof (one_operation_per_device no_plist plugged 0 bench [CallPair blue; CallWifiSync red "disable"] bench_ids) as H.
  cbv zeta in H.  destruct H as (_ & _ & H).
  destruct (H blue) as (_ & Henc & _); [|exact (Henc "enable" "secret" "" "")%string].
  assert (th_udid <$> dm_threads bench_begun !! 0%nat = Some blue) as Hth by (vm_compute; reflexivity).
  destruct (dm_threads bench_begun !! 0%nat) as [th|] eqn:E; [|discriminate]. exists th.
  split; [by apply (list_elem_of_lookup_2 _ 0)|by injection Hth].
Defined.

#[local] Abbreviation bench_hung :=
  (play no_plist [CallPair blue; CallWifiSync red "disable"] (NewManager plugged 0 hung_bench)).

Lemma operations_end_witness : ∃ n id,
  let m := play no_plist (replicate n (Advance 0)) bench_hung in
  dm_inflight m !! blue = None ∧ ¬ busy m blue ∧ ∃ st, last (told id (dm_published m)) = Some st ∧ settled st.
Proof.
  assert (th_udid <$> dm_threads bench_hung !! 0%nat = Some blue) as Hth by (vm_compute; reflexivity).
  destruct (dm_threads bench_hung !! 0%nat) as [[u id p]|] eqn:E; [|discriminate]. injection Hth as ->.
  pose proof (operations_end no_plist plugged 0 hung_bench [CallPair blue; CallWifiSync red "disable"] 0 blue id p bench_ids) as H.
  cbv zeta in H.  destruct H as [n Hn]; [exact E|]. exists n, id. exact Hn.
Defined.

(** The pairing tool asks for trust and hangs; two minutes later it is killed, the person is told to
    tap and at once that the time is over, and the device is free. *)
Example hung_pairing_is_cut_short :
  let m := play no_plist (replicate 7 (Advance 0)) bench_hung in
  told "1" (dm_published m) = ["running"; "waiting_for_user"; "failed"]%string ∧
  (je_Code <$> (dm_ops m !! "1"%string ≫= op_Error)) = Some "timeout"%string ∧
  th_udid <$> dm_threads m = [red] ∧ dm_clock m = 2 * Minute + 2 * Second.
Proof. split_and!; vm_compute; reflexivity. Qed.

(** The read of a backup's preflight has no deadline of its own, and the context of the job has none
    either: a tool that hangs then holds it. *)
Example preflight_read_may_hang :
  hangs (ARun Background Ideviceinfo red TransportUSB []) bench_hung = true.
Proof. vm_compute. reflexivity. Qed.

#[local] Abbreviation red_begun := (play no_plist [CallWifiSync red "disable"] (NewManager plugged 0 bench)).

Lemma wifi_sync_truthful_witness : ∃ st,
  op_State <$> dm_ops (exec (runWifiSync no_plist "0" red TransportUSB "disable") red_begun).2 !! "0"%string = Some st ∧
  st = "succeeded"%string.
Proof.
  assert (dm_ops red_begun !! "0"%string = Some (mkOp "0" red "wifi_sync" "running" (wifiSyncStartMsg "disable") None)) as Hop
    by (vm_compute; reflexivity).
  destruct (wifi_sync_truthful no_plist "0" red TransportUSB "disable" red_begun _ (or_intror eq_refl) Hop) as (st & Hst & [[-> _]|[_ Hno]]).
  - exists "succeeded"%string. split; [exact Hst|reflexivity].
  - destruct Hno. split; [vm_compute; reflexivity|left; vm_compute; reflexivity].
Defined.

(** A tool that ends well without its sentence is reported in words of the formatter. *)
Example silent_pairing_is_reported :
  (exec (pairAttempt Background blue TransportUSB) (NewManager plugged 0
     (mkSurroundings (λ n, pretty n) (λ _ _ _, ok_output "") (λ _ _, mkSession None [] None) (λ _ _, NoReply)
        (λ _, Some 0) (λ _, 0) (λ _, false) (λ _, false)))).1 =
  (pairFailed, ""%string, Some "idevicepair pair: %!w(<nil>): "%string).
Proof. vm_compute. reflexivity. Qed.
