(* ===== verification/VaultSessions.v ===== *)
(** * VaultSessions: unlocked backups and how they end

    Models core/internal/vault/session.go: the table of unlocked sessions, the lookups that borrow a
    session's vault, the streams that keep it borrowed, and the one teardown that every end of a
    session runs.  Each call is a goroutine, a [task] that stands between two of its atomic steps (a
    section under the registry's mutex, an operation of a mutex, a call into a vault, a system call);
    a schedule lets any goroutine make its next step.  What a vault answers is part of the call; the removal of
    a scratch directory may fail, and the next start removes what is left. *)

From Stdlib Require Import String Ascii.
From S2P Require Import Prelude.

(** ** Data *)

Definition DefaultSessionTTL : duration := 15 * Minute.

Record Session : Type := mkSession { s_ID : string; s_VersionID : string; s_ExpiresAt : time }.

(** [busy] is a mutex: the goroutine that has it, if any has. *)
Record registryEntry : Type := mkEntry {
  e_session : Session;
  e_vault : nat;
  e_incomplete : gset string;
  e_overlong : gset string;
  e_scratch : string;
  e_derived : list string;
  e_busy : option nat }.

(** What happens to vaults, to what is derived from them and to scratch directories, in order. *)
Inductive event : Type :=
  | Opened (v : nat) | Used (v : nat) | Closed (v : nat) | DerivedClosed (name : string) | Wiped (dir : string) | WipeFailed (dir : string).

#[global] Instance event_eq_dec : EqDecision event.
Proof. solve_decision. Defined.

(** How a call ends. *)
Inductive answer : Type :=
  | Unlocked (s : Session) | MkdirFailed | OpenFailed | BadPassword
  | Served | NoSession | SessionBusy | Failed
  | EndedSession | Swept (n : nat) | Attached (ok : bool).

(** What is read from a stream: bytes, the end, or one of the two marks that a vault's reader sets. *)
Inductive read_outcome : Type := ReadBytes | ReadEOF | ReadIncomplete | ReadOverlong.

(** What a borrower does with the vault: so many accesses ([With]), or the file that it streams, with
    the answers of [Stat] and [Open], and then its reads.  A file that is named by its path
    ([OpenStreamByPath]) is looked for on so many pages after the first, and found or not. *)
Inductive borrow : Type :=
  | Accesses (n : nat)
  | Stream (id file : string) (by_path : option (nat * bool)) (stat_ok open_ok : bool) (reads : list read_outcome).

Inductive hold : Type :=
  | InFn (n : nat)
  | InPages (n : nat) (found : bool) (id file : string) (stat_ok open_ok : bool) (reads : list read_outcome)
  | InStat (id file : string) (stat_ok open_ok : bool) (reads : list read_outcome)
  | InOpen (id file : string) (open_ok : bool) (reads : list read_outcome)
  | InStream (id file : string) (reads : list read_outcome).

Inductive stage : Type := AtDerived | AtClose | AtWipe | AtRelease.

Inductive task : Type :=
  | UnlockMkdir (id version : string) (mkdir_ok open_ok password_ok : bool)
  | UnlockOpen (id version : string) (open_ok password_ok : bool)
  | UnlockPassword (id version : string) (v : nat) (password_ok : bool)
  | UnlockInsert (id version : string) (v : nat)
  | UnlockClose (id : string) (v : nat)
  | UnlockWipe (id : string) (a : answer)
  | Lookup (id : string) (b : borrow)
  | Borrowed (l : nat) (h : hold)
  | LockStart (id : string) (a : answer)
  | SweepStart
  | CloseAllStart
  | Teardown (pending : list nat) (a : answer)
  | TornDown (l : nat) (s : stage) (pending : list nat) (a : answer)
  | Attach (id name : string)
  | Finished (a : answer).

Record Registry : Type := mkRegistry {
  r_entries : gmap nat registryEntry;    (* every entry ever made, by address *)
  r_sessions : gmap string nat;
  r_ttl : duration;
  r_scratchRoot : string;
  r_dirs : gset string;                  (* the scratch directories on disk *)
  r_stuck : gset string;                 (* what [os.RemoveAll] fails to remove, now *)
  r_now : time;
  r_vaults : nat;                        (* how many vaults were opened *)
  r_trace : list event;
  r_tasks : list task }.

Definition set_entries (f : gmap nat registryEntry → gmap nat registryEntry) (r : Registry) : Registry :=
  mkRegistry (f (r_entries r)) (r_sessions r) (r_ttl r) (r_scratchRoot r) (r_dirs r) (r_stuck r) (r_now r) (r_vaults r) (r_trace r) (r_tasks r).
Definition set_sessions (f : gmap string nat → gmap string nat) (r : Registry) : Registry :=
  mkRegistry (r_entries r) (f (r_sessions r)) (r_ttl r) (r_scratchRoot r) (r_dirs r) (r_stuck r) (r_now r) (r_vaults r) (r_trace r) (r_tasks r).
Definition set_dirs (f : gset string → gset string) (r : Registry) : Registry :=
  mkRegistry (r_entries r) (r_sessions r) (r_ttl r) (r_scratchRoot r) (f (r_dirs r)) (r_stuck r) (r_now r) (r_vaults r) (r_trace r) (r_tasks r).
Definition set_stuck (ds : gset string) (r : Registry) : Registry :=
  mkRegistry (r_entries r) (r_sessions r) (r_ttl r) (r_scratchRoot r) (r_dirs r) ds (r_now r) (r_vaults r) (r_trace r) (r_tasks r).
Definition set_ttl (ttl : duration) (r : Registry) : Registry :=
  mkRegistry (r_entries r) (r_sessions r) ttl (r_scratchRoot r) (r_dirs r) (r_stuck r) (r_now r) (r_vaults r) (r_trace r) (r_tasks r).
Definition set_now (now : time) (r : Registry) : Registry :=
  mkRegistry (r_entries r) (r_sessions r) (r_ttl r) (r_scratchRoot r) (r_dirs r) (r_stuck r) now (r_vaults r) (r_trace r) (r_tasks r).
Definition log (e : event) (r : Registry) : Registry :=
  mkRegistry (r_entries r) (r_sessions r) (r_ttl r) (r_scratchRoot r) (r_dirs r) (r_stuck r) (r_now r) (r_vaults r) (r_trace r ++ [e]) (r_tasks r).
Definition open_vault (r : Registry) : nat * Registry :=
  (r_vaults r, mkRegistry (r_entries r) (r_sessions r) (r_ttl r) (r_scratchRoot r) (r_dirs r) (r_stuck r) (r_now r) (S (r_vaults r))
                 (r_trace r ++ [Opened (r_vaults r)]) (r_tasks r)).
Definition set_tasks (f : list task → list task) (r : Registry) : Registry :=
  mkRegistry (r_entries r) (r_sessions r) (r_ttl r) (r_scratchRoot r) (r_dirs r) (r_stuck r) (r_now r) (r_vaults r) (r_trace r) (f (r_tasks r)).
(** The next state of a goroutine. *)
Definition goto (t : nat) (k : task) (r : Registry) : Registry := set_tasks (<[t := k]>) r.

(** A start that succeeds: the scratch root is wiped and made anew; if that fails, quince does not start. *)
Definition NewRegistry (scratchRoot : string) (ttl : duration) (now : time) : Registry :=
  mkRegistry ∅ ∅ (if ttl <=? 0 then DefaultSessionTTL else ttl) scratchRoot ∅ ∅ now 0 [] [].

Definition SetTTL (ttl : duration) (r : Registry) : Registry := set_ttl (if ttl <=? 0 then DefaultSessionTTL else ttl) r.

Definition TTLFromMinutes (minutes : Z) : duration :=
  if minutes <=? 0 then DefaultSessionTTL else wrap64 (wrap64 minutes * Minute).

(** [filepath.Join] of the root and an id. *)
Definition ScratchFor (r : Registry) (sessionID : string) : string := r_scratchRoot r +:+ "/" +:+ sessionID.

Definition expired (r : Registry) (e : registryEntry) : bool := s_ExpiresAt (e_session e) <=? r_now r.

Definition with_busy (b : option nat) (e : registryEntry) : registryEntry :=
  mkEntry (e_session e) (e_vault e) (e_incomplete e) (e_overlong e) (e_scratch e) (e_derived e) b.
Definition with_derived (d : list string) (e : registryEntry) : registryEntry :=
  mkEntry (e_session e) (e_vault e) (e_incomplete e) (e_overlong e) (e_scratch e) d (e_busy e).
Definition with_incomplete (s : gset string) (e : registryEntry) : registryEntry :=
  mkEntry (e_session e) (e_vault e) s (e_overlong e) (e_scratch e) (e_derived e) (e_busy e).
Definition with_overlong (s : gset string) (e : registryEntry) : registryEntry :=
  mkEntry (e_session e) (e_vault e) (e_incomplete e) s (e_scratch e) (e_derived e) (e_busy e).

(** A failure to remove the directory is dropped; it is then left, in whole or in part. *)
Definition wipe (dir : string) (r : Registry) : Registry :=
  if String.eqb dir "" || String.eqb dir "/" then r
  else if bool_decide (dir ∈ r_stuck r) then log (WipeFailed dir) r
  else log (Wiped dir) (set_dirs (λ ds, ds ∖ {[dir]}) r).

(** ** What the table says *)

Definition Get (sessionID : string) (r : Registry) : option Session :=
  match r_sessions r !! sessionID ≫= (r_entries r !!.) with
  | Some e => if expired r e then None else Some (e_session e)
  | None => None
  end.

Definition IncompleteIn (sessionID : string) (r : Registry) : gset string :=
  match r_sessions r !! sessionID ≫= (r_entries r !!.) with Some e => e_incomplete e | None => ∅ end.
Definition OverlongIn (sessionID : string) (r : Registry) : gset string :=
  match r_sessions r !! sessionID ≫= (r_entries r !!.) with Some e => e_overlong e | None => ∅ end.

(** A change of the entry that an id has now; none without one. *)
Definition on_session (sessionID : string) (f : registryEntry → registryEntry) (r : Registry) : Registry :=
  match r_sessions r !! sessionID with
  | None => r
  | Some l => set_entries (alter f l) r
  end.
Definition markIncomplete (sessionID fileID : string) : Registry → Registry :=
  on_session sessionID (λ e, with_incomplete ({[fileID]} ∪ e_incomplete e) e).
Definition markOverlong (sessionID fileID : string) : Registry → Registry :=
  on_session sessionID (λ e, with_overlong ({[fileID]} ∪ e_overlong e) e).

(** ** The steps of a goroutine *)

(** The section that begins [With], [OpenStream] and [OpenStreamByPath]. *)
Definition lookup_step (t : nat) (id : string) (b : borrow) (r : Registry) : Registry :=
  match r_sessions r !! id with
  | None => goto t (Finished NoSession) r
  | Some l =>
      match r_entries r !! l with
      | None => goto t (Finished NoSession) r
      | Some e =>
          if expired r e then goto t (LockStart id NoSession) r
          else match e_busy e with
          | Some _ => goto t (Finished SessionBusy) r
          | None =>
              let r := set_entries (<[l := with_busy (Some t) e]>) r in
              goto t (Borrowed l (match b with
                                  | Accesses n => InFn n
                                  | Stream id file None s o reads => InStat id file s o reads
                                  | Stream id file (Some (n, found)) s o reads => InPages n found id file s o reads
                                  end)) r
          end
      end
  end.

Definition release (l : nat) (r : Registry) : Registry := set_entries (alter (with_busy None) l) r.

(** What a read that ends in one of the two marks leaves on the session. *)
Definition watched (id file : string) (o : read_outcome) (r : Registry) : Registry :=
  match o with
  | ReadIncomplete => markIncomplete id file r
  | ReadOverlong => markOverlong id file r
  | ReadBytes | ReadEOF => r
  end.

(** The lookup of a path in a hold: a page more, or the last one, which has the file or not. *)
Definition resolve_step (t l v n : nat) (found : bool) (id file : string) (stat_ok open_ok : bool) (reads : list read_outcome)
    (r : Registry) : Registry :=
  let r := log (Used v) r in
  match n with
  | S n => goto t (Borrowed l (InPages n found id file stat_ok open_ok reads)) r
  | O => if found then goto t (Borrowed l (InStat id file stat_ok open_ok reads)) r
         else goto t (Finished Failed) (release l r)
  end.

(** A borrower: it uses the vault, or gives it back. *)
Definition borrow_step (t l : nat) (h : hold) (r : Registry) : Registry :=
  match r_entries r !! l with
  | None => r
  | Some e =>
      let v := e_vault e in
      match h with
      | InFn (S n) => goto t (Borrowed l (InFn n)) (log (Used v) r)
      | InFn O => goto t (Finished Served) (release l r)
      | InPages n found id file s o reads => resolve_step t l v n found id file s o reads r
      | InStat id file stat_ok open_ok reads =>
          let r := log (Used v) r in
          if stat_ok : bool then goto t (Borrowed l (InOpen id file open_ok reads)) r
          else goto t (Finished Failed) (release l r)
      | InOpen id file open_ok reads =>
          let r := log (Used v) r in
          if open_ok : bool then goto t (Borrowed l (InStream id file reads)) r
          else goto t (Finished Failed) (release l r)
      | InStream id file [] => goto t (Finished Served) (release l r)     (* the caller closes the stream *)
      | InStream id file (o :: reads) =>
          goto t (Borrowed l (InStream id file reads)) (watched id file o (log (Used v) r))
      end
  end.

Definition unlock_step (t : nat) (k : task) (r : Registry) : Registry :=
  match k with
  | UnlockMkdir id version mkdir_ok o p =>
      if mkdir_ok : bool then goto t (UnlockOpen id version o p) (set_dirs (λ ds, {[ScratchFor r id]} ∪ ds) r)
      else goto t (Finished MkdirFailed) r
  | UnlockOpen id version open_ok p =>
      if open_ok : bool then let '(v, r) := open_vault r in goto t (UnlockPassword id version v p) r
      else goto t (UnlockWipe id OpenFailed) r
  | UnlockPassword id version v password_ok =>
      let r := log (Used v) r in
      if password_ok : bool then goto t (UnlockInsert id version v) r else goto t (UnlockClose id v) r
  | UnlockInsert id version v =>
      let s := mkSession id version (r_now r + r_ttl r) in
      let l := fresh (dom (r_entries r)) in
      let r' := set_entries (<[l := mkEntry s v ∅ ∅ (ScratchFor r id) [] None]>) r in
      goto t (Finished (Unlocked s)) (set_sessions (<[id := l]>) r')
  | UnlockClose id v => goto t (UnlockWipe id BadPassword) (log (Closed v) r)
  | UnlockWipe id a => goto t (Finished a) (wipe (ScratchFor r id) r)
  | _ => r
  end.

(** The sections that take sessions out of the table: one, those that are due, all of them. *)
Definition due (r : Registry) (l : nat) : Prop := from_option (expired r) false (r_entries r !! l) = true.
#[global] Instance due_dec r l : Decision (due r l).
Proof. unfold due. apply _. Defined.

Definition lock_step (t : nat) (id : string) (a : answer) (r : Registry) : Registry :=
  match r_sessions r !! id with
  | None => goto t (Finished a) r
  | Some l => goto t (Teardown [l] a) (set_sessions (delete id) r)
  end.
Definition sweep_step (t : nat) (r : Registry) : Registry :=
  let out := (map_to_list (filter (λ kl, due r kl.2) (r_sessions r))).*2 in
  goto t (Teardown out (Swept (length out))) (set_sessions (filter (λ kl, ¬ due r kl.2)) r).
Definition close_all_step (t : nat) (r : Registry) : Registry :=
  let out := (map_to_list (r_sessions r)).*2 in
  goto t (Teardown out EndedSession) (set_sessions (λ _, ∅) r).

Definition end_step (t : nat) (k : task) (r : Registry) : Registry :=
  match k with
  | LockStart id a => lock_step t id a r
  | SweepStart => sweep_step t r
  | CloseAllStart => close_all_step t r
  | _ => r
  end.

(** [teardown] of each entry in turn; a step that waits for the mutex changes nothing. *)
Definition teardown_step (t : nat) (k : task) (r : Registry) : Registry :=
  match k with
  | Teardown [] a => goto t (Finished a) r
  | Teardown (l :: pending) a =>
      match r_entries r !! l with
      | None => r
      | Some e =>
          match e_busy e with
          | Some _ => r
          | None => goto t (TornDown l AtDerived pending a) (set_entries (<[l := with_busy (Some t) e]>) r)
          end
      end
  | TornDown l s pending a =>
      match r_entries r !! l with
      | None => r
      | Some e =>
          match s with
          | AtDerived =>
              goto t (TornDown l AtClose pending a)
                (set_entries (<[l := with_derived [] e]>) (foldl (λ r name, log (DerivedClosed name) r) r (e_derived e)))
          | AtClose => goto t (TornDown l AtWipe pending a) (log (Closed (e_vault e)) r)
          | AtWipe => goto t (TornDown l AtRelease pending a) (wipe (e_scratch e) r)
          | AtRelease => goto t (Teardown pending a) (release l r)
          end
      end
  | _ => r
  end.

Definition AttachDerived (sessionID name : string) (r : Registry) : bool * Registry :=
  (bool_decide (is_Some (r_sessions r !! sessionID)),
   on_session sessionID (λ e, with_derived (e_derived e ++ [name]) e) r).

Definition step (t : nat) (r : Registry) : Registry :=
  match r_tasks r !! t with
  | None | Some (Finished _) => r
  | Some (Lookup id b) => lookup_step t id b r
  | Some (Borrowed l h) => borrow_step t l h r
  | Some (Attach id name) => let '(ok, r) := AttachDerived id name r in goto t (Finished (Attached ok)) r
  | Some ((UnlockMkdir _ _ _ _ _ | UnlockOpen _ _ _ _ | UnlockPassword _ _ _ _ | UnlockInsert _ _ _ | UnlockClose _ _ |
           UnlockWipe _ _) as k) => unlock_step t k r
  | Some ((LockStart _ _ | SweepStart | CloseAllStart) as k) => end_step t k r
  | Some ((Teardown _ _ | TornDown _ _ _ _) as k) => teardown_step t k r
  end.

(** ** Calls and schedules *)

Inductive call : Type :=
  | Unlock (version : string) (mkdir_ok open_ok password_ok : bool)
  | With (id : string) (accesses : nat)
  | OpenStream (id file : string) (stat_ok open_ok : bool) (reads : list read_outcome)
  | OpenStreamByPath (id file : string) (more_pages : nat) (found stat_ok open_ok : bool) (reads : list read_outcome)
  | Lock (id : string)
  | Sweep
  | CloseAll
  | AttachTo (id name : string).

Definition start (id : string) (c : call) : task :=
  match c with
  | Unlock version m o p => UnlockMkdir id version m o p
  | With id n => Lookup id (Accesses n)
  | OpenStream id file s o reads => Lookup id (Stream id file None s o reads)
  | OpenStreamByPath id file n found s o reads => Lookup id (Stream id file (Some (n, found)) s o reads)
  | Lock id => LockStart id EndedSession
  | Sweep => SweepStart
  | CloseAll => CloseAllStart
  | AttachTo id name => Attach id name
  end.

(** The id of a session that is unlocked is drawn by the service. *)
Definition begin (newID : nat → string) (c : call) (r : Registry) : Registry :=
  set_tasks (λ ts, ts ++ [start (newID (length (r_tasks r))) c]) r.

Inductive move : Type := Begin (c : call) | Step (t : nat) | Pass (d : duration) | NewTTL (ttl : duration) | Sticks (ds : gset string).

Definition play1 (newID : nat → string) (m : move) (r : Registry) : Registry :=
  match m with
  | Begin c => begin newID c r
  | Step t => step t r
  | Pass d => set_now (r_now r + Z.max 0 d) r
  | NewTTL ttl => SetTTL ttl r
  | Sticks ds => set_stuck ds r
  end.
Definition play (newID : nat → string) (ms : list move) (r : Registry) : Registry := foldl (λ r m, play1 newID m r) r ms.
