(* ===== verification/VaultSafety.v ===== *)
(** * VaultSafety: a vault is used only while it is open, and nothing decrypted outlives its session

    The invariant of the session table of [VaultSessions] over every schedule of every number of
    calls, and what follows from it; and that running the goroutines in turn ends every call, for a
    bound that is read off the state. *)

From Stdlib Require Import String Ascii.
From stdpp Require Import functions.
From S2P Require Import Prelude VaultSessions.

(** ** What a goroutine has its hands on *)

Definition borrowed (k : task) : option nat := match k with Borrowed l _ => Some l | _ => None end.
Definition torn (k : task) : option (nat * stage) := match k with TornDown l s _ _ => Some (l, s) | _ => None end.
Definition pend (k : task) : list nat := match k with Teardown p _ | TornDown _ _ p _ => p | _ => [] end.
Definition unlocking (k : task) : option string :=
  match k with
  | UnlockMkdir id _ _ _ _ | UnlockOpen id _ _ _ | UnlockPassword id _ _ _ | UnlockInsert id _ _ | UnlockClose id _ | UnlockWipe id _ => Some id
  | _ => None
  end.

(** Where an entry stands: in the table, taken out of it by a goroutine that will tear it down, being
    torn down, or done with. *)
Inductive phase : Type := Tabled | Doomed (t : nat) | Torn (t : nat) (s : stage) | Gone.

Definition busy (r : Registry) (l : nat) : option nat := r_entries r !! l ≫= e_busy.

Section ownership.
Context (newID : nat → string).

Record owned (φ : nat → phase) (r : Registry) : Prop := {
  o_pend t k l : r_tasks r !! t = Some k → l ∈ pend k → φ l = Doomed t ∧ is_Some (r_entries r !! l);
  o_once t k : r_tasks r !! t = Some k → NoDup (pend k);
  o_torn t k l s : r_tasks r !! t = Some k → torn k = Some (l, s) → φ l = Torn t s ∧ busy r l = Some t;
  o_borrow t k l : r_tasks r !! t = Some k → borrowed k = Some l →
    busy r l = Some t ∧ (φ l = Tabled ∨ ∃ t', φ l = Doomed t');
  o_busy l t : busy r l = Some t →
    ∃ k, r_tasks r !! t = Some k ∧ (borrowed k = Some l ∨ ∃ s, torn k = Some (l, s));
  o_entry l e : r_entries r !! l = Some e →
    match φ l with
    | Tabled => r_sessions r !! s_ID (e_session e) = Some l
    | Doomed t => ∃ k, r_tasks r !! t = Some k ∧ l ∈ pend k
    | Torn t s => ∃ k, r_tasks r !! t = Some k ∧ torn k = Some (l, s)
    | Gone => e_busy e = None
    end;
  o_table id l : r_sessions r !! id = Some l →
    ∃ e, r_entries r !! l = Some e ∧ s_ID (e_session e) = id ∧ φ l = Tabled;
  o_id l e : r_entries r !! l = Some e →
    ∃ t k, s_ID (e_session e) = newID t ∧ r_tasks r !! t = Some k ∧ unlocking k = None;
  o_unlocking t k id : r_tasks r !! t = Some k → unlocking k = Some id → id = newID t }.

(** *** Tasks *)

Lemma goto_lookup t k k0 (r : Registry) t' k' : r_tasks r !! t = Some k0 →
  r_tasks (goto t k r) !! t' = Some k' ↔ t' = t ∧ k' = k ∨ t' ≠ t ∧ r_tasks r !! t' = Some k'.
Proof.
  intros Ht. cbn. destruct (decide (t' = t)) as [->|Hne].
  - rewrite list_lookup_insert_eq by (by eapply lookup_lt_Some). naive_solver.
  - rewrite list_lookup_insert_ne by done. naive_solver.
Qed.

(** A goroutine goes on with the same things in its hands; entries keep who they are and who has
    their mutex. *)
Definition same_entries (r r' : Registry) : Prop :=
  ∀ l, (λ e, (e_session e, e_busy e)) <$> r_entries r' !! l = (λ e, (e_session e, e_busy e)) <$> r_entries r !! l.

Lemma same_entries_lookup r r' l e' : same_entries r r' → r_entries r' !! l = Some e' →
  ∃ e, r_entries r !! l = Some e ∧ e_session e = e_session e' ∧ e_busy e = e_busy e'.
Proof. intros H Hl. specialize (H l). rewrite Hl in H. destruct (r_entries r !! l) as [e|]; [|done]. exists e. by injection H as -> ->. Qed.

Lemma same_entries_busy r r' l : same_entries r r' → busy r' l = busy r l.
Proof.
  intros H. specialize (H l). unfold busy. destruct (r_entries r' !! l), (r_entries r !! l); try done.
  cbn in *. congruence.
Qed.

Lemma same_entries_refl r : same_entries r r.
Proof. by intros l. Qed.

Lemma same_entries_some r r' l : same_entries r r' → is_Some (r_entries r !! l) → is_Some (r_entries r' !! l).
Proof. intros H [e He]. specialize (H l). rewrite He in H. destruct (r_entries r' !! l); [by eexists|done]. Qed.

Lemma owned_goes_on φ r r' t k k' : owned φ r → r_tasks r !! t = Some k →
  r_tasks r' = <[t := k']> (r_tasks r) → r_sessions r' = r_sessions r → same_entries r r' →
  borrowed k' = borrowed k → torn k' = torn k → pend k' = pend k →
  (unlocking k' = unlocking k ∨ unlocking k' = None) → owned φ r'.
Proof.
  intros [H1 H2 H3 H4 H5 H6 H7 H8 H9] Ht Htasks Hses Hent Hb Hto Hp Hu.
  assert (∀ t' k1, r_tasks r' !! t' = Some k1 → ∃ k0, r_tasks r !! t' = Some k0 ∧ borrowed k1 = borrowed k0 ∧
    torn k1 = torn k0 ∧ pend k1 = pend k0 ∧ (unlocking k1 = unlocking k0 ∨ unlocking k1 = None)) as Hback.
  { intros t' k1. rewrite Htasks. intros [(-> & -> & _)|[Hne Hk]]%list_lookup_insert_Some; [exists k|exists k1]; split_and!; auto. }
  assert (∀ t' k0, r_tasks r !! t' = Some k0 → ∃ k1, r_tasks r' !! t' = Some k1 ∧ borrowed k1 = borrowed k0 ∧
    torn k1 = torn k0 ∧ pend k1 = pend k0 ∧ (unlocking k1 = unlocking k0 ∨ unlocking k1 = None)) as Hforth.
  { intros t' k0 Hk. rewrite Htasks. destruct (decide (t' = t)) as [->|Hne].
    - rewrite list_lookup_insert_eq by (by eapply lookup_lt_Some). rewrite Ht in Hk. injection Hk as <-. exists k'. split_and!; auto.
    - rewrite list_lookup_insert_ne by done. exists k0. split_and!; auto. }
  split.
  - intros t' k1 l Hk Hl. destruct (Hback _ _ Hk) as (k0 & Hk0 & _ & _ & He & _). rewrite He in Hl.
    destruct (H1 _ _ _ Hk0 Hl) as [? Hs]. split; [done|]. by eapply same_entries_some.
  - intros t' k1 Hk. destruct (Hback _ _ Hk) as (k0 & Hk0 & _ & _ & -> & _). by eapply H2.
  - intros t' k1 l s Hk Hl. destruct (Hback _ _ Hk) as (k0 & Hk0 & _ & He & _). rewrite He in Hl.
    rewrite (same_entries_busy _ _ _ Hent). by eapply H3.
  - intros t' k1 l Hk Hl. destruct (Hback _ _ Hk) as (k0 & Hk0 & He & _). rewrite He in Hl.
    rewrite (same_entries_busy _ _ _ Hent). by eapply H4.
  - intros l t'. rewrite (same_entries_busy _ _ _ Hent). intros (k0 & Hk0 & Hor)%H5.
    destruct (Hforth _ _ Hk0) as (k1 & Hk1 & He1 & He2 & _). exists k1. split; [done|]. by rewrite He1, He2.
  - intros l e' He'. destruct (same_entries_lookup _ _ _ _ Hent He') as (e & He & Hs & Hbu). specialize (H6 l e He).
    rewrite <-Hs, <-Hbu, Hses. destruct (φ l) as [|t'|t' s|]; [done| | |done].
    + destruct H6 as (k0 & Hk0 & Hl). destruct (Hforth _ _ Hk0) as (k1 & Hk1 & _ & _ & He1 & _). exists k1. by rewrite He1.
    + destruct H6 as (k0 & Hk0 & Hl). destruct (Hforth _ _ Hk0) as (k1 & Hk1 & _ & He1 & _). exists k1. by rewrite He1.
  - intros id l. rewrite Hses. intros (e & He & Hid & Hphi)%H7.
    assert (is_Some (r_entries r' !! l)) as [e' He'] by (by eapply same_entries_some).
    destruct (same_entries_lookup _ _ _ _ Hent He') as (e2 & He2 & Hs & _). exists e'. simplify_eq. by rewrite <-Hs.
  - intros l e' He'. destruct (same_entries_lookup _ _ _ _ Hent He') as (e & He & Hs & _).
    destruct (H8 l e He) as (t' & k0 & Hid & Hk0 & Hu0). destruct (Hforth _ _ Hk0) as (k1 & Hk1 & _ & _ & _ & Hu1).
    exists t', k1. rewrite <-Hs. split_and!; [done|done|]. destruct Hu1 as [->|?]; done.
  - intros t' k1 id Hk Hid. destruct (Hback _ _ Hk) as (k0 & Hk0 & _ & _ & _ & [He|He]); rewrite He in Hid; [by eapply H9|done].
Qed.

(** A goroutine acts on one entry: it takes or gives back its mutex, or goes on tearing it down. *)
Lemma owned_acts φ r r' t k k' l e e' p : owned φ r → r_tasks r !! t = Some k →
  r_tasks r' = <[t := k']> (r_tasks r) → r_sessions r' = r_sessions r →
  r_entries r !! l = Some e → r_entries r' !! l = Some e' → e_session e' = e_session e →
  (∀ l', l' ≠ l → r_entries r' !! l' = r_entries r !! l') →
  unlocking k' = None → unlocking k = None → NoDup (pend k') →
  (∀ l', l' ≠ l → (l' ∈ pend k' ↔ l' ∈ pend k) ∧ (borrowed k' = Some l' ↔ borrowed k = Some l') ∧
     ∀ s, torn k' = Some (l', s) ↔ torn k = Some (l', s)) →
  (l ∈ pend k' → p = Doomed t) →
  (∀ s, torn k' = Some (l, s) → p = Torn t s ∧ e_busy e' = Some t) →
  (borrowed k' = Some l → e_busy e' = Some t ∧ (p = Tabled ∨ ∃ t', p = Doomed t')) →
  (∀ t', e_busy e' = Some t' → t' = t ∧ (borrowed k' = Some l ∨ ∃ s, torn k' = Some (l, s))) →
  match p with
  | Tabled => φ l = Tabled
  | Doomed t' => φ l = p ∧ (t' = t → l ∈ pend k')
  | Torn t' s => t' = t ∧ torn k' = Some (l, s) ∧ φ l ≠ Tabled
  | Gone => e_busy e' = None ∧ φ l ≠ Tabled
  end →
  (∀ t' k1, t' ≠ t → r_tasks r !! t' = Some k1 →
     (l ∈ pend k1 → p = Doomed t') ∧ borrowed k1 ≠ Some l ∧ ∀ s, torn k1 ≠ Some (l, s)) →
  owned (<[l := p]> φ) r'.
Proof.
  intros [H1 H2 H3 H4 H5 H6 H7 H8 H9] Ht Htasks Hses He He' Hse Hother Hu' Hu Hnd Hk Hp Hto Hbo Hbusy Hphase Hothers.
  assert (∀ l', l' ≠ l → busy r' l' = busy r l') as Hbo' by (intros l' Hne; unfold busy; by rewrite Hother).
  assert (busy r' l = e_busy e') as Hbl by (unfold busy; by rewrite He').
  assert (∀ t' k1, r_tasks r' !! t' = Some k1 ↔ t' = t ∧ k1 = k' ∨ t' ≠ t ∧ r_tasks r !! t' = Some k1) as HT.
  { intros t' k1. rewrite Htasks. exact (goto_lookup t k' k r t' k1 Ht). }
  assert (∀ l' q, l' ≠ l → (<[l:=p]> φ : nat → phase) l' = q ↔ φ l' = q) as Hphi_ne by (intros; by rewrite fn_lookup_insert_ne).
  assert ((<[l:=p]> φ : nat → phase) l = p) as Hphi_eq by apply fn_lookup_insert.
  assert (∀ l', is_Some (r_entries r !! l') → is_Some (r_entries r' !! l')) as Hsome.
  { intros l'. destruct (decide (l' = l)) as [->|Hne]; [by rewrite He'|by rewrite Hother]. }
  split.
  - intros t' k1 l' [[-> ->]|[Hne Hk1]]%HT Hin; (destruct (decide (l' = l)) as [->|Hl]).
    + rewrite Hphi_eq, He'. auto.
    + rewrite Hphi_ne by done. apply (Hk l' Hl) in Hin. destruct (H1 _ _ _ Ht Hin). auto.
    + rewrite Hphi_eq, He'. by destruct (Hothers _ _ Hne Hk1) as (? & _); auto.
    + rewrite Hphi_ne by done. destruct (H1 _ _ _ Hk1 Hin). auto.
  - intros t' k1 [[-> ->]|[Hne Hk1]]%HT; [done|by eapply H2].
  - intros t' k1 l' s [[-> ->]|[Hne Hk1]]%HT Hin; (destruct (decide (l' = l)) as [->|Hl]).
    + rewrite Hphi_eq, Hbl. auto.
    + rewrite Hphi_ne, Hbo' by done. apply (Hk l' Hl) in Hin. by eapply H3.
    + destruct (Hothers _ _ Hne Hk1) as (_ & _ & H). by destruct (H s).
    + rewrite Hphi_ne, Hbo' by done. by eapply H3.
  - intros t' k1 l' [[-> ->]|[Hne Hk1]]%HT Hin; (destruct (decide (l' = l)) as [->|Hl]).
    + rewrite Hphi_eq, Hbl. auto.
    + rewrite Hbo' by done. rewrite fn_lookup_insert_ne by done. apply (Hk l' Hl) in Hin. by eapply H4.
    + by destruct (Hothers _ _ Hne Hk1) as (_ & ? & _).
    + rewrite Hbo' by done. rewrite fn_lookup_insert_ne by done. by eapply H4.
  - intros l' t'. destruct (decide (l' = l)) as [->|Hl].
    + rewrite Hbl. intros [-> Hor]%Hbusy. exists k'. split; [apply HT; by left|done].
    + rewrite Hbo' by done. intros (k1 & Hk1 & Hor)%H5. destruct (decide (t' = t)) as [->|Hne].
      * exists k'. split; [apply HT; by left|]. rewrite Ht in Hk1. injection Hk1 as <-.
        destruct (Hk l' Hl) as (_ & Hb & Hs). destruct Hor as [?|[s ?]]; [left; by apply Hb|right; exists s; by apply Hs].
      * exists k1. split; [apply HT; by right|done].
  - intros l' e1 He1. destruct (decide (l' = l)) as [->|Hl].
    + rewrite Hphi_eq. rewrite He' in He1. injection He1 as <-. specialize (H6 l e He). rewrite Hses, Hse.
      destruct p as [|t'|t' s|].
      * by rewrite Hphase in H6.
      * destruct Hphase as [Hp1 Hp2]. rewrite Hp1 in H6. destruct H6 as (k1 & Hk1 & Hl1).
        destruct (decide (t' = t)) as [->|Hne]; [exists k'; split; [apply HT; by left|auto]|].
        exists k1. split; [apply HT; by right|done].
      * destruct Hphase as (-> & ? & _). exists k'. split; [apply HT; by left|done].
      * by destruct Hphase.
    + rewrite fn_lookup_insert_ne by done. rewrite Hother in He1 by done. specialize (H6 l' e1 He1). rewrite Hses.
      destruct (φ l') as [|t'|t' s|]; [done| | |done].
      * destruct H6 as (k1 & Hk1 & Hin). destruct (decide (t' = t)) as [->|Hne].
        -- exists k'. split; [apply HT; by left|]. rewrite Ht in Hk1. injection Hk1 as <-. by apply (Hk l' Hl).
        -- exists k1. split; [apply HT; by right|done].
      * destruct H6 as (k1 & Hk1 & Hin). destruct (decide (t' = t)) as [->|Hne].
        -- exists k'. split; [apply HT; by left|]. rewrite Ht in Hk1. injection Hk1 as <-. by apply (Hk l' Hl).
        -- exists k1. split; [apply HT; by right|done].
  - intros id l'. rewrite Hses. intros (e1 & He1 & Hid & Hphi)%H7. destruct (decide (l' = l)) as [->|Hl].
    + exists e'. rewrite He in He1. injection He1 as <-. rewrite Hse, Hphi_eq. split_and!; [done|done|].
      destruct p as [|t'|t' s|]; [done|..]; destruct_and?; congruence.
    + exists e1. rewrite Hother, fn_lookup_insert_ne by done. done.
  - intros l' e1 He1. assert (∃ e0, r_entries r !! l' = Some e0 ∧ e_session e1 = e_session e0) as (e0 & He0 & Hs).
    { destruct (decide (l' = l)) as [->|Hl]; [exists e; split; congruence|exists e1; by rewrite <-Hother]. }
    destruct (H8 _ _ He0) as (t' & k1 & Hid & Hk1 & Hu1). rewrite Hs. destruct (decide (t' = t)) as [->|Hne].
    + exists t, k'. split_and!; [done|apply HT; by left|done].
    + exists t', k1. split_and!; [done|apply HT; by right|done].
  - intros t' k1 id [[-> ->]|[Hne Hk1]]%HT Hid; [congruence|by eapply H9].
Qed.

(** A session that is unlocked enters the table. *)
Lemma owned_inserts φ r t k l e : (∀ n n', newID n = newID n' → n = n') → owned φ r → r_tasks r !! t = Some k →
  unlocking k = Some (s_ID (e_session e)) → r_entries r !! l = None → e_busy e = None →
  borrowed k = None → torn k = None → pend k = [] → ∀ a,
  owned (<[l := Tabled]> φ) (goto t (Finished a)
    (set_sessions (<[s_ID (e_session e) := l]>) (set_entries (<[l := e]>) r))).
Proof.
  intros Hinj [H1 H2 H3 H4 H5 H6 H7 H8 H9] Ht Hu Hl Hb Hbo Hto Hp a.
  set (r' := goto t _ _). set (id := s_ID (e_session e)) in *.
  assert (∀ t' k1, r_tasks r' !! t' = Some k1 ↔ t' = t ∧ k1 = Finished a ∨ t' ≠ t ∧ r_tasks r !! t' = Some k1) as HT.
  { intros t' k1. exact (goto_lookup t (Finished a) k r t' k1 Ht). }
  assert (r_entries r' = <[l := e]> (r_entries r)) as Hent by done.
  assert (r_sessions r' = <[id := l]> (r_sessions r)) as Hses by done.
  assert (∀ l', is_Some (r_entries r !! l') → l' ≠ l) as Hold by (intros l' [? ?] ->; congruence).
  assert (∀ l', l' ≠ l → busy r' l' = busy r l') as Hbo'.
  { intros l' Hne. unfold busy. by rewrite Hent, lookup_insert_ne. }
  assert (busy r' l = None) as Hbl by (unfold busy; by rewrite Hent, lookup_insert_eq).
  assert (∀ l' e', r_entries r !! l' = Some e' → s_ID (e_session e') ≠ id) as Hfresh.
  { intros l' e' He' Heq. destruct (H8 _ _ He') as (t' & k' & Hid & Hk' & Hu'). rewrite Heq in Hid.
    rewrite (H9 _ _ _ Ht Hu) in Hid. apply Hinj in Hid. subst t'. congruence. }
  split.
  - intros t' k1 l' [[-> ->]|[Hne Hk1]]%HT Hin; [by apply elem_of_nil in Hin|]. destruct (H1 _ _ _ Hk1 Hin) as [? Hs].
    rewrite fn_lookup_insert_ne, Hent, lookup_insert_ne by (apply not_eq_sym; auto). done.
  - intros t' k1 [[-> ->]|[Hne Hk1]]%HT; [constructor|by eapply H2].
  - intros t' k1 l' s [[-> ->]|[Hne Hk1]]%HT Hin; [done|]. destruct (H3 _ _ _ _ Hk1 Hin) as [? Hbusy].
    assert (l' ≠ l) as Hl' by (intros ->; unfold busy in Hbusy; by rewrite Hl in Hbusy).
    by rewrite fn_lookup_insert_ne, Hbo'.
  - intros t' k1 l' [[-> ->]|[Hne Hk1]]%HT Hin; [done|]. destruct (H4 _ _ _ Hk1 Hin) as [Hbusy ?].
    assert (l' ≠ l) as Hl' by (intros ->; unfold busy in Hbusy; by rewrite Hl in Hbusy).
    by rewrite fn_lookup_insert_ne, Hbo'.
  - intros l' t'. destruct (decide (l' = l)) as [->|Hne]; [by rewrite Hbl|]. rewrite Hbo' by done.
    intros (k1 & Hk1 & Hor)%H5. exists k1. split; [|done]. apply HT. right. split; [|done]. intros ->.
    rewrite Ht in Hk1. injection Hk1 as <-. destruct Hor as [?|[s ?]]; congruence.
  - intros l' e'. rewrite Hent, Hses. intros [[<- <-]|[Hne He']]%lookup_insert_Some.
    + rewrite fn_lookup_insert. apply lookup_insert_eq.
    + rewrite fn_lookup_insert_ne by done. specialize (H6 _ _ He'). destruct (φ l') as [|t'|t' s|].
      * rewrite lookup_insert_ne; [done|]. apply not_eq_sym. by eapply Hfresh.
      * destruct H6 as (k1 & Hk1 & Hin). exists k1. split; [|done]. apply HT. right. split; [|done].
        intros ->. rewrite Ht in Hk1. injection Hk1 as <-. rewrite Hp in Hin. by apply elem_of_nil in Hin.
      * destruct H6 as (k1 & Hk1 & Hin). exists k1. split; [|done]. apply HT. right. split; [|done].
        intros ->. rewrite Ht in Hk1. injection Hk1 as <-. congruence.
      * done.
  - intros id' l'. rewrite Hses, Hent. intros [[<- <-]|[Hne Hid]]%lookup_insert_Some.
    + exists e. rewrite lookup_insert_eq, fn_lookup_insert. done.
    + destruct (H7 _ _ Hid) as (e' & He' & ? & ?). exists e'.
      rewrite lookup_insert_ne, fn_lookup_insert_ne by (apply not_eq_sym; eauto). done.
  - intros l' e'. rewrite Hent. intros [[<- <-]|[Hne He']]%lookup_insert_Some.
    + exists t, (Finished a). split_and!; [by eapply H9|apply HT; by left|done].
    + destruct (H8 _ _ He') as (t' & k1 & Hid & Hk1 & Hu1). destruct (decide (t' = t)) as [->|Hne'].
      * exists t, (Finished a). split_and!; [done|apply HT; by left|done].
      * exists t', k1. split_and!; [done|apply HT; by right|done].
  - intros t' k1 id' [[-> ->]|[Hne Hk1]]%HT Hid; [done|by eapply H9].
Qed.

(** Sessions leave the table for the hands of a goroutine that will tear them down. *)
Definition doom (t : nat) (out : list nat) (φ : nat → phase) : nat → phase := λ l, if decide (l ∈ out) then Doomed t else φ l.

Lemma owned_dooms φ r r' t k out a : owned φ r → r_tasks r !! t = Some k →
  borrowed k = None → torn k = None → pend k = [] → unlocking k = None →
  r' = goto t (Teardown out a) (set_sessions (λ _, r_sessions r') r) →
  NoDup out → (∀ l, l ∈ out → ∃ id, r_sessions r !! id = Some l) →
  (∀ id l, r_sessions r' !! id = Some l ↔ r_sessions r !! id = Some l ∧ l ∉ out) →
  owned (doom t out φ) r'.
Proof.
  intros [H1 H2 H3 H4 H5 H6 H7 H8 H9] Ht Hbo Hto Hp Hu Hr' Hnd Hout Hses.
  assert (r_entries r' = r_entries r) as Hent by by rewrite Hr'.
  assert (∀ t' k1, r_tasks r' !! t' = Some k1 ↔ t' = t ∧ k1 = Teardown out a ∨ t' ≠ t ∧ r_tasks r !! t' = Some k1) as HT.
  { intros t' k1. rewrite Hr'. exact (goto_lookup t (Teardown out a) k r t' k1 Ht). }
  clear Hr'.
  assert (∀ l, busy r' l = busy r l) as Hbusy by (intros l; unfold busy; by rewrite Hent).
  assert (∀ l, l ∈ out → φ l = Tabled ∧ is_Some (r_entries r !! l)) as Htab.
  { intros l (id & Hid)%Hout. destruct (H7 _ _ Hid) as (e & He & _ & Hphi). eauto. }
  assert (∀ l, φ l ≠ Tabled → doom t out φ l = φ l) as Hsame.
  { intros l Hne. unfold doom. rewrite decide_False; [done|]. by intros [? _]%Htab. }
  split.
  - intros t' k1 l [[-> ->]|[Hne Hk1]]%HT Hin; rewrite Hent.
    + cbn in Hin. unfold doom. rewrite decide_True by done. split; [done|]. by apply Htab.
    + destruct (H1 _ _ _ Hk1 Hin) as [Hphi Hs]. rewrite Hsame by congruence. done.
  - intros t' k1 [[-> ->]|[Hne Hk1]]%HT; [done|by eapply H2].
  - intros t' k1 l s [[-> ->]|[Hne Hk1]]%HT Hin; [done|]. destruct (H3 _ _ _ _ Hk1 Hin) as [Hphi Hs].
    rewrite Hsame, Hbusy by congruence. done.
  - intros t' k1 l [[-> ->]|[Hne Hk1]]%HT Hin; [done|]. destruct (H4 _ _ _ Hk1 Hin) as [Hs Hphi]. rewrite Hbusy.
    split; [done|]. unfold doom. destruct (decide (l ∈ out)); eauto.
  - intros l t'. rewrite Hbusy. intros (k1 & Hk1 & Hor)%H5. exists k1. split; [|done]. apply HT. right. split; [|done].
    intros ->. rewrite Ht in Hk1. injection Hk1 as <-. destruct Hor as [?|[s ?]]; congruence.
  - intros l e. rewrite Hent. intros He. specialize (H6 _ _ He). unfold doom. destruct (decide (l ∈ out)) as [Hin|Hno].
    + exists (Teardown out a). split; [apply HT; by left|done].
    + destruct (φ l) as [|t'|t' s|]; [by apply Hses| | |done].
      * destruct H6 as (k1 & Hk1 & Hin). exists k1. split; [|done]. apply HT. right. split; [|done].
        intros ->. rewrite Ht in Hk1. injection Hk1 as <-. rewrite Hp in Hin. by apply elem_of_nil in Hin.
      * destruct H6 as (k1 & Hk1 & Hin). exists k1. split; [|done]. apply HT. right. split; [|done].
        intros ->. rewrite Ht in Hk1. injection Hk1 as <-. congruence.
  - intros id l [Hid Hno]%Hses. destruct (H7 _ _ Hid) as (e & He & ? & ?). exists e. rewrite Hent. unfold doom.
    by rewrite decide_False.
  - intros l e. rewrite Hent. intros He. destruct (H8 _ _ He) as (t' & k1 & Hid & Hk1 & Hu1). destruct (decide (t' = t)) as [->|Hne].
    + exists t, (Teardown out a). split_and!; [done|apply HT; by left|done].
    + exists t', k1. split_and!; [done|apply HT; by right|done].
  - intros t' k1 id [[-> ->]|[Hne Hk1]]%HT Hid; [done|by eapply H9].
Qed.

(** A call begins. *)
Lemma owned_begins φ r c : owned φ r → owned φ (begin newID c r).
Proof.
  intros [H1 H2 H3 H4 H5 H6 H7 H8 H9].
  assert (∀ k, borrowed k = None → torn k = None → pend k = [] → (∀ id, unlocking k = Some id → id = newID (length (r_tasks r))) →
    owned φ (set_tasks (λ ts, ts ++ [k]) r)) as Happ.
  { intros k Hbo Hto Hp Hu. set (r' := set_tasks _ r).
    assert (∀ t' k1, r_tasks r' !! t' = Some k1 → r_tasks r !! t' = Some k1 ∨ t' = length (r_tasks r) ∧ k1 = k) as HT.
    { intros t' k1. cbn. rewrite lookup_app_Some. intros [?|[Hle Hk]]; [by left|right].
      apply list_lookup_singleton_Some in Hk as [? ->]. split; [lia|done]. }
    assert (∀ t' k1, r_tasks r !! t' = Some k1 → r_tasks r' !! t' = Some k1) as HT' by (intros; by apply lookup_app_l_Some).
    split; try done.
    - intros t' k1 l [Hk1|[-> ->]]%HT Hin; [by eapply H1|]. rewrite Hp in Hin. by apply elem_of_nil in Hin.
    - intros t' k1 [Hk1|[-> ->]]%HT; [by eapply H2|]. rewrite Hp. constructor.
    - intros t' k1 l s [Hk1|[-> ->]]%HT Hin; [by eapply H3|congruence].
    - intros t' k1 l [Hk1|[-> ->]]%HT Hin; [by eapply H4|congruence].
    - intros l t' (k1 & Hk1 & Hor)%H5. exists k1. eauto.
    - intros l e He. specialize (H6 l e He). destruct (φ l); [done| | |done]; destruct H6 as (k1 & Hk1 & ?); exists k1; eauto.
    - intros l e He. destruct (H8 l e He) as (t' & k1 & ? & Hk1 & ?). exists t', k1. eauto.
    - intros t' k1 id [Hk1|[-> ->]]%HT Hid; [by eapply H9|auto]. }
  unfold begin. destruct c; apply Happ; try done. by intros id [= <-].
Qed.

End ownership.

(** ** Vaults *)

(** The vault of an unlock that is under way, and the scratch directory that it made. *)
Definition opening (k : task) : option nat :=
  match k with UnlockPassword _ _ v _ | UnlockInsert _ _ v | UnlockClose _ v => Some v | _ => None end.
Definition filling (k : task) : option string :=
  match k with UnlockMkdir _ _ _ _ _ => None | _ => unlocking k end.

Definition after_close (p : phase) : Prop := match p with Torn _ AtWipe | Torn _ AtRelease | Gone => True | _ => False end.
Definition after_wipe (p : phase) : Prop := match p with Torn _ AtRelease | Gone => True | _ => False end.

(** What is used or closed was opened before, and not closed. *)
Definition touches (e : event) : option nat := match e with Used v | Closed v => Some v | _ => None end.
Definition good_trace (es : list event) : Prop :=
  ∀ before e after v, es = before ++ e :: after → touches e = Some v → Opened v ∈ before ∧ Closed v ∉ before.

Lemma good_trace_snoc es e : good_trace es → (∀ v, touches e = Some v → Opened v ∈ es ∧ Closed v ∉ es) → good_trace (es ++ [e]).
Proof.
  intros Hes He before e' after v Heq Hv. induction after as [|x after _] using rev_ind.
  - apply app_inj_tail in Heq as [<- <-]. by apply He.
  - rewrite app_comm_cons, app_assoc in Heq. apply app_inj_tail in Heq as [Heq _]. by eapply Hes.
Qed.

Lemma good_trace_app tr es : good_trace tr →
  (∀ e v, e ∈ es → touches e = Some v → (Opened v ∈ tr) ∧ (Closed v ∉ tr) ∧ ∀ w, e ≠ Closed w) → good_trace (tr ++ es).
Proof.
  intros Htr. induction es as [|e es IH] using rev_ind; intros He; [by rewrite app_nil_r|].
  rewrite app_assoc. apply good_trace_snoc.
  - apply IH. intros e' v Hin. apply He, elem_of_app. by left.
  - intros v Hv. destruct (He e v) as (H1 & H2 & _); [apply elem_of_app; right; by apply list_elem_of_singleton|done|].
    split; [apply elem_of_app; by left|]. intros [?|Hin]%elem_of_app; [done|].
    destruct (He (Closed v) v) as (_ & _ & H3); [apply elem_of_app; by left|done|]. by apply (H3 v).
Qed.

Record vaults_ok (φ : nat → phase) (r : Registry) : Prop := {
  v_entry l e : r_entries r !! l = Some e → (e_vault e < r_vaults r)%nat;
  v_inj l l' e e' : r_entries r !! l = Some e → r_entries r !! l' = Some e' → e_vault e = e_vault e' → l = l';
  v_opening t k v : r_tasks r !! t = Some k → opening k = Some v →
    (v < r_vaults r)%nat ∧ (∀ l e, r_entries r !! l = Some e → e_vault e ≠ v) ∧ (Closed v ∉ r_trace r) ∧
    ∀ t' k', r_tasks r !! t' = Some k' → opening k' = Some v → t' = t;
  v_closed v : Closed v ∈ r_trace r →
    (v < r_vaults r)%nat ∧ ∀ l e, r_entries r !! l = Some e → e_vault e = v → after_close (φ l);
  v_opened v : (v < r_vaults r)%nat ↔ Opened v ∈ r_trace r;
  v_kept v : (v < r_vaults r)%nat → Closed v ∈ r_trace r ∨
    (∃ l e, r_entries r !! l = Some e ∧ e_vault e = v ∧ ¬ after_close (φ l)) ∨
    ∃ t k, r_tasks r !! t = Some k ∧ opening k = Some v;
  v_trace : good_trace (r_trace r) }.

Definition entry_vault (r : Registry) (l : nat) : option nat := e_vault <$> r_entries r !! l.

(** A step that opens, closes and hands over no vault; at most it uses one that is open. *)
Definition harmless (r : Registry) (e : event) : Prop :=
  match e with Opened _ | Closed _ => False | Used v => (v < r_vaults r)%nat ∧ Closed v ∉ r_trace r | _ => True end.

Lemma vaults_steady φ φ' r r' t k k' es : vaults_ok φ r → r_tasks r !! t = Some k →
  r_tasks r' = <[t := k']> (r_tasks r) → opening k' = opening k → r_vaults r' = r_vaults r →
  (∀ l, entry_vault r' l = entry_vault r l) →
  (∀ l, is_Some (r_entries r !! l) → (after_close (φ' l) ↔ after_close (φ l))) →
  r_trace r' = r_trace r ++ es → Forall (harmless r) es → vaults_ok φ' r'.
Proof.
  intros [H1 H2 H3 H4 H5 H6 H7] Ht Htasks Hop Hn Hent Hphi Htr Hes.
  assert (∀ l e', r_entries r' !! l = Some e' → ∃ e, r_entries r !! l = Some e ∧ e_vault e = e_vault e') as Hback.
  { intros l e' He'. specialize (Hent l). unfold entry_vault in Hent. rewrite He' in Hent.
    destruct (r_entries r !! l) as [e|]; [exists e; split; [done|cbn in Hent; congruence]|done]. }
  assert (∀ l e, r_entries r !! l = Some e → ∃ e', r_entries r' !! l = Some e' ∧ e_vault e' = e_vault e) as Hforth.
  { intros l e He. specialize (Hent l). unfold entry_vault in Hent. rewrite He in Hent.
    destruct (r_entries r' !! l) as [e'|]; [exists e'; split; [done|cbn in Hent; congruence]|done]. }
  assert (∀ t' k1 v, r_tasks r' !! t' = Some k1 → opening k1 = Some v → ∃ k0, r_tasks r !! t' = Some k0 ∧ opening k0 = Some v) as HT.
  { intros t' k1 v. rewrite Htasks. intros [(<- & <- & _)|[Hne Hk]]%list_lookup_insert_Some Hv; [exists k|exists k1]; split; congruence. }
  assert (∀ v, Closed v ∈ r_trace r' ↔ Closed v ∈ r_trace r) as Hcl.
  { intros v. rewrite Htr, elem_of_app. split; [|auto]. intros [?|Hin]; [done|]. rewrite Forall_forall in Hes. by apply Hes in Hin. }
  split.
  - intros l e' (e & He & <-)%Hback. rewrite Hn. eauto.
  - intros l l' e1 e1' (e & He & <-)%Hback (e' & He' & <-)%Hback. eauto.
  - intros t' k1 v Hk1 Hv. destruct (HT _ _ _ Hk1 Hv) as (k0 & Hk0 & Hv0). destruct (H3 _ _ _ Hk0 Hv0) as (? & ? & ? & Hu).
    rewrite Hn, Hcl. split_and!; [done| |done|].
    + intros l e' (e & He & <-)%Hback. eauto.
    + intros t2 k2 Hk2 Hv2. destruct (HT _ _ _ Hk2 Hv2) as (k3 & Hk3 & Hv3). eauto.
  - intros v [Hlt Hv]%Hcl%H4. rewrite Hn. split; [done|]. intros l e' (e & He & <-)%Hback Heq. apply Hphi; eauto.
  - intros v. rewrite Hn, Htr, elem_of_app, H5. split; [by left|]. intros [?|Hin]; [done|]. rewrite Forall_forall in Hes. by apply Hes in Hin.
  - intros v. rewrite Hn. intros [Hc|[(l & e & He & Hv & Hc)|(t' & k0 & Hk0 & Hv)]]%H6.
    + left. by apply Hcl.
    + right; left. destruct (Hforth _ _ He) as (e' & He' & Hv'). exists l, e'. split_and!; [done|congruence|]. rewrite Hphi; eauto.
    + right; right. rewrite Htasks. destruct (decide (t' = t)) as [->|Hne].
      * exists t, k'. rewrite list_lookup_insert_eq by (by eapply lookup_lt_Some). split; [done|congruence].
      * exists t', k0. by rewrite list_lookup_insert_ne.
  - rewrite Htr. apply good_trace_app; [done|]. intros e v Hin Hv. rewrite Forall_forall in Hes. specialize (Hes e Hin).
    destruct e; cbn in Hes, Hv; try done. injection Hv as ->. destruct Hes. split_and!; [by apply H5|done|done].
Qed.

(** A vault is opened; it goes into the table; it is closed. *)
Lemma vaults_opens φ r r' t k k' : vaults_ok φ r → r_tasks r !! t = Some k →
  r_tasks r' = <[t := k']> (r_tasks r) → opening k = None → opening k' = Some (r_vaults r) →
  r_vaults r' = S (r_vaults r) → r_entries r' = r_entries r → r_trace r' = r_trace r ++ [Opened (r_vaults r)] → vaults_ok φ r'.
Proof.
  intros [H1 H2 H3 H4 H5 H6 H7] Ht Htasks Hop Hop' Hn Hent Htr.
  assert (∀ v, Closed v ∈ r_trace r' ↔ Closed v ∈ r_trace r) as Hcl by (intros v; rewrite Htr; set_solver).
  assert (∀ t' k1 v, r_tasks r' !! t' = Some k1 → opening k1 = Some v →
    t' = t ∧ v = r_vaults r ∨ (v < r_vaults r)%nat ∧ r_tasks r !! t' = Some k1) as HT.
  { intros t' k1 v. rewrite Htasks. intros [(<- & <- & _)|[Hne Hk]]%list_lookup_insert_Some Hv; [left; split; congruence|right].
    split; [by eapply H3|done]. }
  split; rewrite ?Hent, ?Hn.
  - intros l e He. specialize (H1 l e He). lia.
  - done.
  - intros t' k1 v Hk1 Hv. rewrite Hcl. destruct (HT _ _ _ Hk1 Hv) as [[-> ->]|[Hlt Hk]].
    + split_and!; [lia|intros l e He; specialize (H1 l e He); lia|intros [Hlt _]%H4; lia|].
      intros t2 k2 Hk2 Hv2. destruct (HT _ _ _ Hk2 Hv2) as [[-> _]|[? _]]; [done|lia].
    + destruct (H3 _ _ _ Hk Hv) as (? & ? & ? & Hu). split_and!; [lia|done|done|].
      intros t2 k2 Hk2 Hv2. destruct (HT _ _ _ Hk2 Hv2) as [[_ ?]|[_ Hk2']]; [lia|by eapply Hu].
  - intros v [Hlt Hv]%Hcl%H4. split; [lia|done].
  - intros v. rewrite Htr, elem_of_app, <-H5, list_elem_of_singleton. split; [|intros [?|[= ->]]; lia].
    intros Hv. destruct (decide (v = r_vaults r)) as [->|Hne]; [by right|left; lia].
  - intros v Hv. destruct (decide (v = r_vaults r)) as [->|Hne].
    + right; right. exists t, k'. rewrite Htasks, list_lookup_insert_eq by (by eapply lookup_lt_Some). done.
    + destruct (H6 v) as [Hc|[?|(t' & k1 & Hk1 & Hv1)]]; [lia|left; by apply Hcl|auto|right; right]. exists t', k1.
      rewrite Htasks, list_lookup_insert_ne; [done|]. intros ->. congruence.
  - rewrite Htr. by apply good_trace_snoc.
Qed.

Lemma vaults_inserts φ r r' t k k' l e v : vaults_ok φ r → r_tasks r !! t = Some k →
  r_tasks r' = <[t := k']> (r_tasks r) → opening k = Some v → opening k' = None →
  r_entries r !! l = None → r_entries r' = <[l := e]> (r_entries r) → e_vault e = v →
  r_vaults r' = r_vaults r → r_trace r' = r_trace r → vaults_ok (<[l := Tabled]> φ) r'.
Proof.
  intros [H1 H2 H3 H4 H5 H6 H7] Ht Htasks Hop Hop' Hl Hent Hv Hn Htr. destruct (H3 _ _ _ Ht Hop) as (Hlt & Hno & Hcl & Hu).
  assert (∀ t' k1 v, r_tasks r' !! t' = Some k1 → opening k1 = Some v → t' ≠ t ∧ r_tasks r !! t' = Some k1) as HT.
  { intros t' k1 w. rewrite Htasks. intros [(<- & <- & _)|[Hne Hk]]%list_lookup_insert_Some Hw; [congruence|done]. }
  split; rewrite ?Hent, ?Htr, ?Hn.
  - intros l' e' [[<- <-]|[_ He']]%lookup_insert_Some; [by rewrite Hv|by eapply H1].
  - intros l1 l2 e1 e2 [[<- <-]|[_ He1]]%lookup_insert_Some [[<- <-]|[_ He2]]%lookup_insert_Some Heq; [done| | |eauto].
    + rewrite Hv in Heq. by destruct (Hno _ _ He2).
    + rewrite Hv in Heq. by destruct (Hno _ _ He1).
  - intros t' k1 w Hk1 Hw. destruct (HT _ _ _ Hk1 Hw) as [Hne Hk]. destruct (H3 _ _ _ Hk Hw) as (? & Hno' & ? & Hu').
    split_and!; [done| |done|].
    + intros l' e' [[<- <-]|[_ He']]%lookup_insert_Some; [|eauto]. rewrite Hv. intros ->. by apply Hne, Hu with k1.
    + intros t2 k2 Hk2 Hw2. destruct (HT _ _ _ Hk2 Hw2). eauto.
  - intros w Hw. destruct (H4 w Hw) as [? Hac]. split; [done|]. intros l' e' [[<- <-]|[Hne He']]%lookup_insert_Some Heq; [congruence|].
    rewrite fn_lookup_insert_ne by done. eauto.
  - done.
  - intros w Hw. destruct (H6 w Hw) as [?|[(l' & e' & He' & ? & ?)|(t' & k1 & Hk1 & Hw1)]]; [auto| |].
    + right; left. assert (l ≠ l') by congruence. exists l', e'. by rewrite lookup_insert_ne, fn_lookup_insert_ne.
    + destruct (decide (t' = t)) as [->|Hne].
      * right; left. exists l, e. rewrite lookup_insert_eq, fn_lookup_insert. split; [done|]. split; [congruence|by intros []].
      * right; right. exists t', k1. by rewrite Htasks, list_lookup_insert_ne.
  - done.
Qed.

Lemma vaults_closes φ φ' r r' t k k' v : vaults_ok φ r → r_tasks r !! t = Some k →
  r_tasks r' = <[t := k']> (r_tasks r) → opening k' = None → (∀ w, opening k = Some w → w = v) →
  r_vaults r' = r_vaults r → (∀ l, entry_vault r' l = entry_vault r l) → r_trace r' = r_trace r ++ [Closed v] →
  (v < r_vaults r)%nat → Closed v ∉ r_trace r →
  (∀ t' k1, t' ≠ t → r_tasks r !! t' = Some k1 → opening k1 ≠ Some v) →
  (∀ l e, r_entries r !! l = Some e → (e_vault e = v → after_close (φ' l)) ∧
     (e_vault e ≠ v → after_close (φ' l) ↔ after_close (φ l))) →
  vaults_ok φ' r'.
Proof.
  intros [H1 H2 H3 H4 H5 H6 H7] Ht Htasks Hop' Hop Hn Hent Htr Hlt Hcl Hothers Hphi.
  assert (∀ l e', r_entries r' !! l = Some e' → ∃ e, r_entries r !! l = Some e ∧ e_vault e = e_vault e') as Hback.
  { intros l e' He'. specialize (Hent l). unfold entry_vault in Hent. rewrite He' in Hent.
    destruct (r_entries r !! l) as [e|]; [exists e; split; [done|cbn in Hent; congruence]|done]. }
  assert (∀ t' k1 w, r_tasks r' !! t' = Some k1 → opening k1 = Some w → t' ≠ t ∧ r_tasks r !! t' = Some k1) as HT.
  { intros t' k1 w. rewrite Htasks. intros [(<- & <- & _)|[Hne Hk]]%list_lookup_insert_Some Hw; [congruence|done]. }
  assert (∀ w, Closed w ∈ r_trace r' ↔ Closed w ∈ r_trace r ∨ w = v) as Hcls.
  { intros w. rewrite Htr, elem_of_app, list_elem_of_singleton. naive_solver. }
  split.
  - intros l e' (e & He & <-)%Hback. rewrite Hn. eauto.
  - intros l l' e1 e1' (e & He & <-)%Hback (e' & He' & <-)%Hback. eauto.
  - intros t' k1 w Hk1 Hw. destruct (HT _ _ _ Hk1 Hw) as [Hne Hk]. destruct (H3 _ _ _ Hk Hw) as (? & ? & ? & Hu).
    rewrite Hn, Hcls. split_and!; [done| | |].
    + intros l e' (e & He & <-)%Hback. eauto.
    + intros [?| ->]; [done|]. by apply (Hothers t' k1).
    + intros t2 k2 Hk2 Hw2. destruct (HT _ _ _ Hk2 Hw2). eauto.
  - intros w [Hw| ->]%Hcls; rewrite Hn.
    + destruct (H4 w Hw) as [? Hac]. split; [done|]. intros l e' (e & He & <-)%Hback Heq.
      destruct (Hphi l e He) as [_ Hsame]. apply Hsame; [intros ?; congruence|eauto].
    + split; [done|]. intros l e' (e & He & <-)%Hback Heq. destruct (Hphi l e He) as [H _]. auto.
  - intros w. rewrite Hn, Htr, elem_of_app, list_elem_of_singleton, <-H5. split; [by left|by intros [?|?]].
  - intros w. rewrite Hn. intros Hw. destruct (decide (w = v)) as [->|Hne]; [left; apply Hcls; auto|].
    destruct (H6 w Hw) as [Hc|[(l & e & He & Hv & Hc)|(t' & k0 & Hk0 & Hv)]].
    + left. apply Hcls. auto.
    + right; left. specialize (Hent l). unfold entry_vault in Hent. rewrite He in Hent.
      destruct (r_entries r' !! l) as [e'|] eqn:He'; [|done]. exists l, e'. split_and!; [done|cbn in Hent; congruence|].
      destruct (Hphi l e He) as [_ Hsame]. rewrite Hsame by congruence. done.
    + right; right. exists t', k0. rewrite Htasks, list_lookup_insert_ne; [done|]. intros ->. rewrite Ht in Hk0.
      injection Hk0 as <-. by apply Hop in Hv.
  - rewrite Htr. apply good_trace_snoc; [done|]. intros w [= <-]. split; [by apply H5|done].
Qed.

(** ** Scratch directories *)

Record dirs_ok (φ : nat → phase) (r : Registry) : Prop := {
  d_scratch l e : r_entries r !! l = Some e → e_scratch e = ScratchFor r (s_ID (e_session e));
  d_kept d : d ∈ r_dirs r → WipeFailed d ∉ r_trace r →
    (∃ l e, r_entries r !! l = Some e ∧ e_scratch e = d ∧ ¬ after_wipe (φ l)) ∨
    ∃ t k id, r_tasks r !! t = Some k ∧ filling k = Some id ∧ d = ScratchFor r id }.

Definition entry_dir (r : Registry) (l : nat) : option (string * string) :=
  (λ e, (e_scratch e, s_ID (e_session e))) <$> r_entries r !! l.

(** One goroutine steps.  What is on disk afterwards was there before, or it fills it now; an entry
    passes the wipe, and a goroutine drops its directory, only when the directory is gone or could not
    be removed. *)
Lemma dirs_moves φ φ' r r' t k k' : dirs_ok φ r → r_tasks r !! t = Some k →
  r_tasks r' = <[t := k']> (r_tasks r) → r_scratchRoot r' = r_scratchRoot r →
  (∀ l e, r_entries r !! l = Some e → entry_dir r' l = Some (e_scratch e, s_ID (e_session e))) →
  (∀ l e', r_entries r !! l = None → r_entries r' !! l = Some e' → e_scratch e' = ScratchFor r (s_ID (e_session e'))) →
  (∀ d, d ∈ r_dirs r' → d ∈ r_dirs r ∨ ∃ id, filling k' = Some id ∧ d = ScratchFor r id) →
  (∀ e, e ∈ r_trace r → e ∈ r_trace r') →
  (∀ l e, r_entries r !! l = Some e → e_scratch e ∈ r_dirs r' → WipeFailed (e_scratch e) ∉ r_trace r' → after_wipe (φ' l) → after_wipe (φ l)) →
  (∀ id, filling k = Some id → filling k' = Some id ∨ (ScratchFor r id ∈ r_dirs r' → WipeFailed (ScratchFor r id) ∈ r_trace r') ∨
     ∃ l e, r_entries r' !! l = Some e ∧ e_scratch e = ScratchFor r id ∧ ¬ after_wipe (φ' l)) →
  dirs_ok φ' r'.
Proof.
  intros [H1 H2] Ht Htasks Hroot Hold Hnew Hdirs Htr Hwipe Hfill.
  assert (∀ id, ScratchFor r' id = ScratchFor r id) as Hsc by (intros id; unfold ScratchFor; by rewrite Hroot).
  assert (∀ id, filling k' = Some id → ∃ t k id', r_tasks r' !! t = Some k ∧ filling k = Some id' ∧ ScratchFor r id = ScratchFor r' id') as Hhere.
  { intros id Hid. exists t, k', id. rewrite Htasks, list_lookup_insert_eq by (by eapply lookup_lt_Some). by rewrite Hsc. }
  split.
  - intros l e' He'. rewrite Hsc. destruct (r_entries r !! l) as [e|] eqn:He; [|eauto].
    specialize (Hold l e He). unfold entry_dir in Hold. rewrite He' in Hold. injection Hold as -> ->. eauto.
  - intros d Hd Hnf. destruct (Hdirs d Hd) as [Hd0|(id & Hid & ->)]; [|right; eauto].
    destruct (H2 d Hd0) as [(l & e & He & <- & Hw)|(t' & k0 & id & Hk0 & Hid & ->)]; [by intros ?%Htr|..].
    + left. specialize (Hold l e He). unfold entry_dir in Hold. destruct (r_entries r' !! l) as [e'|] eqn:He'; [|done].
      injection Hold as Hs _. exists l, e'. split_and!; [done|done|]. intros ?. apply Hw. eauto.
    + destruct (decide (t' = t)) as [->|Hne].
      * rewrite Ht in Hk0. injection Hk0 as <-. destruct (Hfill id Hid) as [Hid'|[Hno|(l & e & ?)]]; [right; eauto|by destruct Hnf; auto|left].
        by exists l, e.
      * right. exists t', k0, id. rewrite Htasks, list_lookup_insert_ne, Hsc by done. done.
Qed.

Lemma trace_grows (r r' : Registry) es : r_trace r' = r_trace r ++ es → ∀ e, e ∈ r_trace r → e ∈ r_trace r'.
Proof. intros -> e He. apply elem_of_app. by left. Qed.

Lemma dirs_steady φ φ' r r' t k k' : dirs_ok φ r → r_tasks r !! t = Some k →
  r_tasks r' = <[t := k']> (r_tasks r) → filling k' = filling k → r_scratchRoot r' = r_scratchRoot r →
  (∀ l, entry_dir r' l = entry_dir r l) →
  (∀ l, is_Some (r_entries r !! l) → after_wipe (φ' l) → after_wipe (φ l)) →
  r_dirs r' = r_dirs r → (∀ e, e ∈ r_trace r → e ∈ r_trace r') → dirs_ok φ' r'.
Proof.
  intros Hd Ht Htasks Hf Hroot Hent Hphi Hdirs Htr. eapply dirs_moves; try done.
  - intros l e He. rewrite Hent. unfold entry_dir. by rewrite He.
  - intros l e' He He'. specialize (Hent l). unfold entry_dir in Hent. by rewrite He, He' in Hent.
  - intros d. rewrite Hdirs. auto.
  - intros l e He _ _. apply Hphi. by rewrite He.
  - intros id. rewrite Hf. auto.
Qed.

(** ** One step *)

Section steps.
Context (newID : nat → string) (newID_inj : ∀ n n', newID n = newID n' → n = n') (newID_some : ∀ n, newID n ≠ ""%string).

Record inv (φ : nat → phase) (r : Registry) : Prop := {
  i_owned : owned newID φ r; i_vaults : vaults_ok φ r; i_dirs : dirs_ok φ r }.

Definition entry_face (e : registryEntry) : Session * option nat * nat * string :=
  (e_session e, e_busy e, e_vault e, e_scratch e).

(** A step that changes nothing that is shared but marks, derived things and harmless events. *)
Lemma inv_steady φ r r' t k k' es : inv φ r → r_tasks r !! t = Some k →
  r_tasks r' = <[t := k']> (r_tasks r) → r_sessions r' = r_sessions r → r_vaults r' = r_vaults r →
  r_scratchRoot r' = r_scratchRoot r → r_dirs r' = r_dirs r →
  (∀ l, entry_face <$> r_entries r' !! l = entry_face <$> r_entries r !! l) →
  borrowed k' = borrowed k → torn k' = torn k → pend k' = pend k → opening k' = opening k → filling k' = filling k →
  (unlocking k' = unlocking k ∨ unlocking k' = None) →
  r_trace r' = r_trace r ++ es → Forall (harmless r) es → inv φ r'.
Proof.
  intros [Ho Hv Hd] Ht Htasks Hses Hn Hroot Hdirs Hent Hb Hto Hp Hop Hf Hu Htr Hes. split.
  - eapply owned_goes_on; try done. intros l. specialize (Hent l).
    destruct (r_entries r' !! l), (r_entries r !! l); try done. cbn in *. unfold entry_face in Hent. congruence.
  - eapply vaults_steady; try done. intros l. specialize (Hent l). unfold entry_vault.
    destruct (r_entries r' !! l), (r_entries r !! l); try done. cbn in *. unfold entry_face in Hent. congruence.
  - eapply dirs_steady; try done; [|by eapply trace_grows]. intros l. specialize (Hent l). unfold entry_dir.
    destruct (r_entries r' !! l), (r_entries r !! l); try done. cbn in *. unfold entry_face in Hent. congruence.
Qed.

(** A step on the mutex of one entry. *)
Lemma inv_acts φ r r' t k k' l e e' p es : inv φ r → r_tasks r !! t = Some k →
  r_tasks r' = <[t := k']> (r_tasks r) → r_sessions r' = r_sessions r → r_vaults r' = r_vaults r →
  r_scratchRoot r' = r_scratchRoot r → r_dirs r' = r_dirs r →
  r_entries r !! l = Some e → r_entries r' !! l = Some e' → e_session e' = e_session e → e_vault e' = e_vault e →
  e_scratch e' = e_scratch e → (∀ l', l' ≠ l → r_entries r' !! l' = r_entries r !! l') →
  owned newID (<[l := p]> φ) r' → opening k' = opening k → filling k' = filling k →
  (after_close p ↔ after_close (φ l)) → (after_wipe p → after_wipe (φ l)) →
  r_trace r' = r_trace r ++ es → Forall (harmless r) es → inv (<[l := p]> φ) r'.
Proof.
  intros [Ho Hv Hd] Ht Htasks Hses Hn Hroot Hdirs He He' Hs Hva Hsc Hother Howned Hop Hf Hac Haw Htr Hes. split; [done| |].
  - eapply vaults_steady; try done.
    + intros l'. unfold entry_vault. destruct (decide (l' = l)) as [->|Hne]; [rewrite He, He'; cbn; congruence|by rewrite Hother].
    + intros l' _. destruct (decide (l' = l)) as [->|Hne]; [by rewrite fn_lookup_insert|by rewrite fn_lookup_insert_ne].
  - eapply dirs_steady; try done; [| |by eapply trace_grows].
    + intros l'. unfold entry_dir. destruct (decide (l' = l)) as [->|Hne]; [rewrite He, He'; cbn; congruence|by rewrite Hother].
    + intros l' _. destruct (decide (l' = l)) as [->|Hne]; [by rewrite fn_lookup_insert|by rewrite fn_lookup_insert_ne].
Qed.

(** *** Borrowing *)

Lemma lookup_inv φ r t id b : inv φ r → r_tasks r !! t = Some (Lookup id b) → ∃ φ', inv φ' (lookup_step t id b r).
Proof.
  intros Hi Ht. unfold lookup_step.
  assert (∀ k', borrowed k' = None → torn k' = None → pend k' = [] → opening k' = None → unlocking k' = None →
    filling k' = None → ∃ φ', inv φ' (goto t k' r)) as Hplain.
  { intros k' H1 H2 H3 H4 H5 H6. exists φ. eapply (inv_steady φ r _ t _ k' []); try done; [by right|by rewrite app_nil_r]. }
  destruct (r_sessions r !! id) as [l|] eqn:Hid; [|by apply Hplain].
  destruct (r_entries r !! l) as [e|] eqn:He; [|by apply Hplain].
  destruct (expired r e); [by apply Hplain|]. destruct (e_busy e) eqn:Hb; [by apply Hplain|].
  destruct (o_table _ _ _ (i_owned _ _ Hi) _ _ Hid) as (e0 & He0 & _ & Hphi). rewrite He in He0. injection He0 as <-.
  set (k' := Borrowed l _). assert (borrowed k' = Some l ∧ torn k' = None ∧ pend k' = [] ∧ opening k' = None ∧
    filling k' = None ∧ unlocking k' = None) as (Hk1 & Hk2 & Hk3 & Hk4 & Hk5 & Hk6) by by subst k'.
  clearbody k'. exists (<[l := Tabled]> φ). set (r' := goto t k' _).
  assert (r_entries r' !! l = Some (with_busy (Some t) e)) as He' by apply lookup_insert_eq.
  assert (∀ l', l' ≠ l → r_entries r' !! l' = r_entries r !! l') as Hother by (intros; by apply lookup_insert_ne).
  assert (∀ t' k1 l', r_tasks r !! t' = Some k1 → busy r l' = None → borrowed k1 ≠ Some l' ∧ ∀ s, torn k1 ≠ Some (l', s)) as Hfree.
  { intros t' k1 l' Hk1' Hbl. split; [intros H|intros s H]; destruct (i_owned _ _ Hi) as [_ _ O3 O4 _ _ _ _ _];
      [destruct (O4 _ _ _ Hk1' H)|destruct (O3 _ _ _ _ Hk1' H)]; congruence. }
  eapply (inv_acts φ r r' t _ k' l e _ Tabled []); try done; [|by rewrite Hphi|by rewrite app_nil_r].
  eapply (owned_acts newID φ r r' t _ k' l e); try done; [apply i_owned, Hi|by rewrite Hk3; constructor| | | | | |].
  - intros l' Hne. rewrite Hk1, Hk2, Hk3. split_and!; [done|naive_solver|done].
  - rewrite Hk3. by intros []%elem_of_nil.
  - by rewrite Hk2.
  - intros _. split; [done|by left].
  - intros t' [= <-]. split; [done|by left].
  - intros t' k1 Hne Hk. destruct (Hfree t' k1 l Hk) as [H1 H2]; [unfold busy; rewrite He; done|]. split_and!; [|done|done].
    intros Hin. destruct (o_pend _ _ _ (i_owned _ _ Hi) _ _ _ Hk Hin). congruence.
Qed.

Lemma borrowed_open φ r t l h : inv φ r → r_tasks r !! t = Some (Borrowed l h) →
  ∃ e, r_entries r !! l = Some e ∧ e_busy e = Some t ∧ (φ l = Tabled ∨ ∃ t', φ l = Doomed t') ∧
    harmless r (Used (e_vault e)).
Proof.
  intros Hi Ht. destruct (o_borrow _ _ _ (i_owned _ _ Hi) _ _ _ Ht eq_refl) as [Hb Hphi].
  unfold busy in Hb. destruct (r_entries r !! l) as [e|] eqn:He; [|done]. exists e. split_and!; [done|done|done|].
  split; [by apply (v_entry _ _ (i_vaults _ _ Hi) l)|]. intros Hc.
  destruct (v_closed _ _ (i_vaults _ _ Hi) _ Hc) as [_ Hac]. specialize (Hac l e He eq_refl).
  destruct Hphi as [Hp|[t' Hp]]; by rewrite Hp in Hac.
Qed.

(** A borrower gives its vault back. *)
Lemma inv_release φ r r' t l h a e es : inv φ r → r_tasks r !! t = Some (Borrowed l h) → r_entries r !! l = Some e →
  r_tasks r' = <[t := Finished a]> (r_tasks r) → r_sessions r' = r_sessions r → r_vaults r' = r_vaults r →
  r_scratchRoot r' = r_scratchRoot r → r_dirs r' = r_dirs r → r_entries r' = alter (with_busy None) l (r_entries r) →
  r_trace r' = r_trace r ++ es → Forall (harmless r) es → ∃ φ', inv φ' r'.
Proof.
  intros Hi Ht He Htasks Hses Hn Hroot Hdirs Hent Htr Hes. exists (<[l := φ l]> φ).
  destruct (borrowed_open φ r t l h Hi Ht) as (e0 & He0 & Hb & Hphi & _). rewrite He in He0. injection He0 as <-.
  assert (r_entries r' !! l = Some (with_busy None e)) as He' by by rewrite Hent, lookup_alter_eq, He.
  assert (∀ l', l' ≠ l → r_entries r' !! l' = r_entries r !! l') as Hother by (intros; by rewrite Hent, lookup_alter_ne).
  eapply (inv_acts φ r r' t _ (Finished a) l e _ (φ l)); try done.
  eapply (owned_acts newID φ r r' t _ _ l e); try done; [apply i_owned, Hi|constructor| | | |].
  - intros l' Hne. split_and!; [done|cbn; naive_solver|done].
  - by intros []%elem_of_nil.
  - destruct Hphi as [Hp|[t' Hp]]; rewrite Hp; [done|]. split; [done|]. intros ->.
    pose proof (o_entry _ _ _ (i_owned _ _ Hi) l e He) as H. rewrite Hp in H. destruct H as (k & Hk & Hin).
    rewrite Ht in Hk. injection Hk as <-. by apply elem_of_nil in Hin.
  - intros t' k1 Hne Hk. destruct (i_owned _ _ Hi) as [O1 _ O3 O4 _ _ _ _ _].
    assert (busy r l = Some t) as Hbl by (unfold busy; by rewrite He). split_and!.
    + intros Hin. by destruct (O1 _ _ _ Hk Hin).
    + intros H. destruct (O4 _ _ _ Hk H) as [H' _]. congruence.
    + intros s H. destruct (O3 _ _ _ _ Hk H) as [_ H']. congruence.
Qed.

Lemma mark_face f id (r : Registry) : (∀ e, entry_face (f e) = entry_face e) →
  ∀ l, entry_face <$> r_entries (on_session id f r) !! l = entry_face <$> r_entries r !! l.
Proof.
  intros Hf l. unfold on_session. destruct (r_sessions r !! id) as [l0|]; [|done]. cbn.
  destruct (decide (l0 = l)) as [->|Hne]; [rewrite lookup_alter_eq|by rewrite lookup_alter_ne].
  destruct (r_entries r !! l); [cbn; by rewrite Hf|done].
Qed.
Lemma on_session_frame f id (r : Registry) :
  r_tasks (on_session id f r) = r_tasks r ∧ r_sessions (on_session id f r) = r_sessions r ∧
  r_vaults (on_session id f r) = r_vaults r ∧ r_scratchRoot (on_session id f r) = r_scratchRoot r ∧
  r_dirs (on_session id f r) = r_dirs r ∧ r_trace (on_session id f r) = r_trace r.
Proof. unfold on_session. by case_match. Qed.

(** It goes on with it. *)
Lemma inv_uses φ r r0 t l h h' e : inv φ r → r_tasks r !! t = Some (Borrowed l h) → r_entries r !! l = Some e →
  r_tasks r0 = r_tasks r → r_sessions r0 = r_sessions r → r_vaults r0 = r_vaults r →
  r_scratchRoot r0 = r_scratchRoot r → r_dirs r0 = r_dirs r → r_trace r0 = r_trace r ++ [Used (e_vault e)] →
  (∀ l, entry_face <$> r_entries r0 !! l = entry_face <$> r_entries r !! l) →
  ∃ φ', inv φ' (goto t (Borrowed l h') r0).
Proof.
  intros Hi Ht He H1 H2 H3 H4 H5 H6 H7. exists φ. destruct (borrowed_open φ r t l h Hi Ht) as (e0 & He0 & _ & _ & Hh).
  rewrite He in He0. injection He0 as <-.
  apply (inv_steady φ r _ t _ (Borrowed l h') [Used (e_vault e)] Hi Ht); try done.
  - cbn. by rewrite H1.
  - by left.
  - by apply Forall_singleton.
Qed.

Lemma borrow_inv φ r t l h : inv φ r → r_tasks r !! t = Some (Borrowed l h) → ∃ φ', inv φ' (borrow_step t l h r).
Proof.
  intros Hi Ht. destruct (borrowed_open φ r t l h Hi Ht) as (e & He & _ & _ & Hh). unfold borrow_step. rewrite He.
  destruct h as [[|n]|[|n] [] id file so oo reads|id file [] open_ok reads|id file [] reads|id file [|o reads]].
  - apply (inv_release φ r _ t l _ Served e [] Hi Ht He); try done. by rewrite app_nil_r.
  - by eapply (inv_uses φ r (log _ r)).
  - by eapply (inv_uses φ r (log _ r)).
  - apply (inv_release φ r _ t l _ Failed e [Used (e_vault e)] Hi Ht He); try done. by apply Forall_singleton.
  - by eapply (inv_uses φ r (log _ r)).
  - by eapply (inv_uses φ r (log _ r)).
  - by eapply (inv_uses φ r (log _ r)).
  - apply (inv_release φ r _ t l _ Failed e [Used (e_vault e)] Hi Ht He); try done. by apply Forall_singleton.
  - by eapply (inv_uses φ r (log _ r)).
  - apply (inv_release φ r _ t l _ Failed e [Used (e_vault e)] Hi Ht He); try done. by apply Forall_singleton.
  - apply (inv_release φ r _ t l _ Served e [] Hi Ht He); try done. by rewrite app_nil_r.
  - assert (∀ f, (∀ e, entry_face (f e) = entry_face e) →
      ∃ φ', inv φ' (goto t (Borrowed l (InStream id file reads)) (on_session id f (log (Used (e_vault e)) r)))) as Hmark.
    { intros f Hf. destruct (on_session_frame f id (log (Used (e_vault e)) r)) as (F1 & F2 & F3 & F4 & F5 & F6).
      eapply inv_uses; try done. intros l'. by rewrite mark_face. }
    destruct o; [by eapply (inv_uses φ r (log _ r))|by eapply (inv_uses φ r (log _ r))|by apply Hmark|by apply Hmark].
Qed.

(** *** Unlocking *)

Lemma scratch_plausible (r : Registry) t : ScratchFor r (newID t) ≠ ""%string ∧ ScratchFor r (newID t) ≠ "/"%string.
Proof.
  unfold ScratchFor. pose proof (newID_some t) as Hne. destruct (r_scratchRoot r) as [|c [|c' root]]; cbn; split; try done.
  destruct (newID t) as [|c s]; [done|]. by intros [=].
Qed.

(** The directory is gone, or it was said that it could not be removed. *)
Lemma wipe_plausible dir (r : Registry) : dir ≠ ""%string → dir ≠ "/"%string →
  ∃ e f, wipe dir r = log e (set_dirs f r) ∧ (∀ r', harmless r' e) ∧ (∀ d, d ∈ f (r_dirs r) → d ∈ r_dirs r) ∧
    (dir ∈ f (r_dirs r) → e = WipeFailed dir).
Proof.
  intros H1 H2. unfold wipe. apply String.eqb_neq in H1, H2. rewrite H1, H2. cbn. case_bool_decide.
  - exists (WipeFailed dir), id. split; [by destruct r|done].
  - exists (Wiped dir), (λ ds, ds ∖ {[dir]}). split_and!; [done|done|set_solver|set_solver].
Qed.
Lemma wiped_frame dir (r : Registry) : ∃ ds es, wipe dir r =
  mkRegistry (r_entries r) (r_sessions r) (r_ttl r) (r_scratchRoot r) ds (r_stuck r) (r_now r) (r_vaults r) (r_trace r ++ es) (r_tasks r) ∧
  ∀ e, e ∈ es → touches e = None.
Proof.
  unfold wipe. repeat case_match.
  - exists (r_dirs r), []. rewrite app_nil_r. split; [by destruct r|]. by intros e ?%elem_of_nil.
  - eexists _, [_]. split; [done|]. by intros e ->%list_elem_of_singleton.
  - eexists _, [_]. split; [done|]. by intros e ->%list_elem_of_singleton.
Qed.

(** A step of an unlock that is not the last but touches only the vault or the directory. *)
Lemma unlock_owned φ r r' t k k' : inv φ r → r_tasks r !! t = Some k → unlocking k <> None →
  r_tasks r' = <[t := k']> (r_tasks r) → r_sessions r' = r_sessions r → r_entries r' = r_entries r →
  unlocking k' = unlocking k ∨ (∃ a, k' = Finished a) → owned newID φ r'.
Proof.
  intros [Ho _ _] Ht Hu Htasks Hses Hent Hk'.
  assert (borrowed k = None ∧ torn k = None ∧ pend k = []) as (Hb & Hto & Hp) by by destruct k.
  assert (borrowed k' = None ∧ torn k' = None ∧ pend k' = []) as (Hb' & Hto' & Hp').
  { destruct Hk' as [Hk'|[a ->]]; [|done]. destruct k'; try done; by rewrite <-Hk' in Hu. }
  eapply (owned_goes_on newID φ r r' t k k'); try done; [| | | |].
  - intros l. by rewrite Hent.
  - congruence.
  - congruence.
  - congruence.
  - destruct Hk' as [?|[a ->]]; [by left|by right].
Qed.

Lemma same_entry_dir r r' : r_entries r' = r_entries r → ∀ l, entry_dir r' l = entry_dir r l.
Proof. intros H l. unfold entry_dir. by rewrite H. Qed.
Lemma same_entry_vault r r' : r_entries r' = r_entries r → ∀ l, entry_vault r' l = entry_vault r l.
Proof. intros H l. unfold entry_vault. by rewrite H. Qed.

Lemma unlock_inv φ r t k : inv φ r → r_tasks r !! t = Some k → unlocking k ≠ None → ∃ φ', inv φ' (unlock_step t k r).
Proof.
  intros Hi Ht Hu. pose proof Hi as [Ho Hv Hd].
  destruct k as [id version [] o p|id version [] p|id version v [] |id version v|id v|id a| | | | | | | | |]; try done; cbn [unlock_step].
  - exists φ. split; [by eapply unlock_owned; try done; left| |].
    + eapply (vaults_steady _ _ _ _ _ _ _ []); try done. by rewrite app_nil_r.
    + eapply (dirs_moves φ φ r); try done.
      * intros l e He. unfold entry_dir. cbn. by rewrite He.
      * cbn. congruence.
      * cbn. intros d [->%elem_of_singleton|?]%elem_of_union; [right; by exists id|by left].
  - exists φ. eapply (inv_steady φ r _ t _ _ []); try done; [by right|by rewrite app_nil_r].
  - exists φ. split; [by eapply unlock_owned; try done; left| |].
    + by eapply vaults_opens.
    + eapply dirs_steady; try done. by eapply (trace_grows _ _ [_]).
  - exists φ. eapply (inv_steady φ r _ t _ _ []); try done; [by left|by rewrite app_nil_r].
  - exists φ. apply (inv_steady φ r _ t _ (UnlockInsert id version v) [Used v] Hi Ht); try done; [by left|].
    apply Forall_singleton. by destruct (v_opening _ _ Hv _ _ _ Ht eq_refl) as (? & _ & ? & _).
  - exists φ. apply (inv_steady φ r _ t _ (UnlockClose id v) [Used v] Hi Ht); try done; [by left|].
    apply Forall_singleton. by destruct (v_opening _ _ Hv _ _ _ Ht eq_refl) as (? & _ & ? & _).
  - set (s := mkSession _ _ _). set (l := fresh _). set (e := mkEntry s v ∅ ∅ _ [] None).
    assert (r_entries r !! l = None) as Hl by (apply not_elem_of_dom, is_fresh).
    exists (<[l := Tabled]> φ). split.
    + apply (owned_inserts newID φ r t _ l e newID_inj Ho Ht); done.
    + by eapply vaults_inserts.
    + eapply (dirs_moves φ _ r); try done.
      * intros l' e' He'. unfold entry_dir. cbn. by rewrite lookup_insert_ne, He' by congruence.
      * cbn. intros l' e' Hnone [[<- <-]|[_ ?]]%lookup_insert_Some; [done|congruence].
      * auto.
      * intros l' e' He' _ _. by rewrite fn_lookup_insert_ne by congruence.
      * intros id' [= <-]. right; right. exists l, e. cbn. rewrite lookup_insert_eq, fn_lookup_insert. split; [done|]. split; [done|by intros []].
  - exists φ. split; [by eapply unlock_owned; try done; left| |eapply dirs_steady; try done; by eapply (trace_grows _ _ [_])].
    destruct (v_opening _ _ Hv _ _ _ Ht eq_refl) as (Hlt & Hno & Hcl & Hu').
    eapply (vaults_closes φ φ r); try done.
    + by intros w [= <-].
    + intros t' k1 Hne Hk1 Hop. eauto.
    + intros l e He. split; [|done]. by intros ?%(Hno l e He).
  - pose proof (o_unlocking _ _ _ Ho _ _ _ Ht eq_refl) as ->. destruct (scratch_plausible r t) as [P1 P2].
    destruct (wipe_plausible _ r P1 P2) as (ev & f & -> & Hharm & Hf & Hstuck).
    exists φ. split; [eapply unlock_owned; try done; right; by eexists| |].
    + eapply (vaults_steady φ φ r _ t _ (Finished a) [ev]); try done. by apply Forall_singleton.
    + eapply (dirs_moves φ φ r _ t _ (Finished a)); try done.
      * intros l e He. unfold entry_dir. cbn. by rewrite He.
      * cbn. congruence.
      * cbn. intros d Hin. left. by apply Hf.
      * cbn. intros e He. apply elem_of_app. by left.
      * cbn. intros id' Hid. injection Hid as <-. right; left. intros Hin. apply elem_of_app. right. apply list_elem_of_singleton.
        symmetry. by apply Hstuck.
Qed.

(** *** Ending sessions *)

Lemma inv_dooms φ r t k out a f : inv φ r → r_tasks r !! t = Some k →
  borrowed k = None → torn k = None → pend k = [] → unlocking k = None → opening k = None →
  NoDup out → (∀ l, l ∈ out → ∃ id, r_sessions r !! id = Some l) →
  (∀ id l, f (r_sessions r) !! id = Some l ↔ r_sessions r !! id = Some l ∧ l ∉ out) →
  ∃ φ', inv φ' (goto t (Teardown out a) (set_sessions f r)).
Proof.
  intros [Ho Hv Hd] Ht Hb Hto Hp Hu Hop Hnd Hout Hses. exists (doom t out φ).
  assert (filling k = None) as Hfi by by destruct k.
  assert (∀ l, l ∈ out → φ l = Tabled) as Htab.
  { intros l (id & Hid)%Hout. by destruct (o_table _ _ _ Ho _ _ Hid) as (? & _ & _ & ?). }
  split.
  - by eapply owned_dooms.
  - eapply (vaults_steady _ _ r _ t k (Teardown out a) []); try done; [|by rewrite app_nil_r].
    intros l _. unfold doom. destruct (decide (l ∈ out)) as [Hin|]; [by rewrite (Htab l Hin)|done].
  - eapply dirs_steady; try done. intros l _. unfold doom. by destruct (decide (l ∈ out)).
Qed.

Lemma table_injective φ r id id' l : inv φ r → r_sessions r !! id = Some l → r_sessions r !! id' = Some l → id = id'.
Proof.
  intros [Ho _ _] H H'. destruct (o_table _ _ _ Ho _ _ H) as (e & He & <- & _), (o_table _ _ _ Ho _ _ H') as (e' & He' & <- & _).
  by simplify_eq.
Qed.

(** The entries of a part of the table, each once. *)
Lemma part_nodup φ r (m : gmap string nat) : inv φ r → m ⊆ r_sessions r → NoDup (map_to_list m).*2.
Proof.
  intros Hi Hsub. apply NoDup_fmap_2_strong; [|apply NoDup_map_to_list].
  intros [id l] [id' l'] H%elem_of_map_to_list H'%elem_of_map_to_list Heq. cbn in Heq. subst l'. f_equal.
  eapply (table_injective φ r); [done|by eapply lookup_weaken..].
Qed.
Lemma elem_of_part (m : gmap string nat) l : l ∈ (map_to_list m).*2 ↔ ∃ id, m !! id = Some l.
Proof.
  rewrite list_elem_of_fmap. split; [intros ([id l'] & -> & H%elem_of_map_to_list)|intros (id & H%elem_of_map_to_list)].
  - by exists id.
  - by exists (id, l).
Qed.

Lemma end_inv φ r t k : inv φ r → r_tasks r !! t = Some k → match k with LockStart _ _ | SweepStart | CloseAllStart => True | _ => False end →
  ∃ φ', inv φ' (end_step t k r).
Proof.
  intros Hi Ht Hk. destruct k as [| | | | | | | |id a| | | | | |]; try done; cbn [end_step]; unfold lock_step, sweep_step, close_all_step.
  - destruct (r_sessions r !! id) as [l|] eqn:Hid.
    + eapply inv_dooms; try done.
      * apply NoDup_singleton.
      * intros l' ->%list_elem_of_singleton. eauto.
      * intros id' l'. cbn. rewrite lookup_delete_Some, list_elem_of_singleton. split.
        -- intros [H1 H2]. split; [done|]. intros ->. apply H1. by eapply table_injective.
        -- intros [H1 H2]. split; [congruence|done].
    + exists φ. eapply (inv_steady φ r _ t _ _ []); try done; [by right|by rewrite app_nil_r].
  - eapply inv_dooms; try done.
    + eapply (part_nodup φ r); [done|]. apply map_filter_subseteq.
    + intros l (id & [? _]%map_lookup_filter_Some)%elem_of_part. eauto.
    + intros id l. rewrite map_lookup_filter_Some, elem_of_part. cbn. split; intros [Hid Hdue]; (split; [done|]).
      * intros (id' & [_ ?]%map_lookup_filter_Some). done.
      * intros Hd. apply Hdue. exists id. by apply map_lookup_filter_Some.
  - eapply inv_dooms; try done.
    + by eapply part_nodup.
    + intros l. by rewrite elem_of_part.
    + intros id l. rewrite elem_of_part. split; [done|]. intros [? []]. eauto.
Qed.

(** *** Tearing down *)

(** Only the goroutine that tears an entry down has its hands on it. *)
Lemma torn_alone φ r t l s pending a : inv φ r → r_tasks r !! t = Some (TornDown l s pending a) →
  φ l = Torn t s ∧ (∃ e, r_entries r !! l = Some e ∧ e_busy e = Some t) ∧ (l ∉ pending) ∧
  ∀ t' k1, t' ≠ t → r_tasks r !! t' = Some k1 → (l ∉ pend k1) ∧ borrowed k1 ≠ Some l ∧ ∀ s', torn k1 ≠ Some (l, s').
Proof.
  intros [[O1 _ O3 O4 _ _ _ _ _] _ _] Ht. destruct (O3 _ _ _ _ Ht eq_refl) as [Hphi Hb]. split_and!; [done| | |].
  - unfold busy in Hb. destruct (r_entries r !! l) as [e|]; [by exists e|done].
  - intros Hin. destruct (O1 _ _ l Ht Hin). congruence.
  - intros t' k1 Hne Hk. split_and!.
    + intros Hin. destruct (O1 _ _ _ Hk Hin). congruence.
    + intros H. destruct (O4 _ _ _ Hk H). congruence.
    + intros s' H. destruct (O3 _ _ _ _ Hk H). congruence.
Qed.

Lemma owned_tears φ r r' t l s s' pending a e e' : inv φ r → r_tasks r !! t = Some (TornDown l s pending a) →
  r_tasks r' = <[t := TornDown l s' pending a]> (r_tasks r) → r_sessions r' = r_sessions r →
  r_entries r !! l = Some e → r_entries r' !! l = Some e' → e_session e' = e_session e → e_busy e' = e_busy e →
  (∀ l', l' ≠ l → r_entries r' !! l' = r_entries r !! l') → owned newID (<[l := Torn t s']> φ) r'.
Proof.
  intros Hi Ht Htasks Hses He He' Hs Hb Hother. destruct (torn_alone _ _ _ _ _ _ _ Hi Ht) as (Hphi & (e0 & He0 & Hb0) & Hno & Hal).
  rewrite He in He0. injection He0 as <-.
  eapply (owned_acts newID φ r r' t _ _ l e); try done; [apply i_owned, Hi|by eapply (o_once _ _ _ (i_owned _ _ Hi) _ _ Ht)|idtac..].
  - intros l' Hne. split_and!; [done|done|]. intros s0. cbn. naive_solver.
  - intros s0. cbn. intros [= <-]. by rewrite Hb.
  - intros t'. rewrite Hb, Hb0. intros [= <-]. split; [done|]. right. by exists s'.
  - split_and!; [done|done|congruence].
  - intros t' k1 Hne Hk. destruct (Hal _ _ Hne Hk) as (? & ? & ?). done.
Qed.

Lemma harmless_derived r names : Forall (harmless r) (DerivedClosed <$> names).
Proof. apply Forall_fmap, Forall_true. done. Qed.
Lemma foldl_log_derived names (r : Registry) : foldl (λ r name, log (DerivedClosed name) r) r names =
  mkRegistry (r_entries r) (r_sessions r) (r_ttl r) (r_scratchRoot r) (r_dirs r) (r_stuck r) (r_now r) (r_vaults r)
    (r_trace r ++ (DerivedClosed <$> names)) (r_tasks r).
Proof.
  revert r. induction names as [|n names IH]; intros r; cbn; [by rewrite app_nil_r; destruct r|].
  rewrite IH. cbn. by rewrite <-app_assoc.
Qed.

Lemma teardown_begins φ r t l pending a e : inv φ r → r_tasks r !! t = Some (Teardown (l :: pending) a) →
  r_entries r !! l = Some e → e_busy e = None →
  inv (<[l := Torn t AtDerived]> φ) (goto t (TornDown l AtDerived pending a) (set_entries (<[l := with_busy (Some t) e]>) r)).
Proof.
  intros Hi Ht He Hb. destruct (i_owned _ _ Hi) as [O1 O2 O3 O4 _ _ _ _ _].
  destruct (O1 _ _ l Ht) as [Hphi _]; [left|]. pose proof (O2 _ _ Ht) as Hnd. cbn in Hnd. apply NoDup_cons in Hnd as [Hno Hnd].
  set (r' := goto t _ _). assert (r_entries r' !! l = Some (with_busy (Some t) e)) as He' by apply lookup_insert_eq.
  assert (∀ l', l' ≠ l → r_entries r' !! l' = r_entries r !! l') as Hother by (intros; by apply lookup_insert_ne).
  eapply (inv_acts φ r r' t _ _ l e _ _ []); try done; [|by rewrite Hphi|by rewrite app_nil_r].
  eapply (owned_acts newID φ r r' t _ _ l e); try done; [apply i_owned, Hi|idtac..].
  - intros l' Hne. split_and!; [cbn; set_solver|done|]. intros s0. cbn. naive_solver.
  - cbn. intros s0 [= <-]. done.
  - intros t' [= <-]. split; [done|]. right. by eexists.
  - split_and!; [done|done|congruence].
  - intros t' k1 Hne Hk. split_and!.
    + intros Hin. destruct (O1 _ _ _ Hk Hin). congruence.
    + intros H. destruct (O4 _ _ _ Hk H) as [H' _]. unfold busy in H'. rewrite He in H'. cbn in H'. congruence.
    + intros s' H. destruct (O3 _ _ _ _ Hk H). congruence.
Qed.

Lemma teardown_ends φ r t l pending a : inv φ r → r_tasks r !! t = Some (TornDown l AtRelease pending a) →
  inv (<[l := Gone]> φ) (goto t (Teardown pending a) (release l r)).
Proof.
  intros Hi Ht. destruct (torn_alone _ _ _ _ _ _ _ Hi Ht) as (Hphi & (e & He & Hb) & Hno & Hal).
  set (r' := goto t _ _). assert (r_entries r' !! l = Some (with_busy None e)) as He' by (cbn; by rewrite lookup_alter_eq, He).
  assert (∀ l', l' ≠ l → r_entries r' !! l' = r_entries r !! l') as Hother by (intros; by apply lookup_alter_ne).
  eapply (inv_acts φ r r' t _ _ l e _ _ []); try done; [|by rewrite Hphi|by rewrite Hphi|by rewrite app_nil_r].
  eapply (owned_acts newID φ r r' t _ _ l e); try done;
    [apply i_owned, Hi|by eapply (o_once _ _ _ (i_owned _ _ Hi) _ _ Ht)|idtac..].
  - intros l' Hne. split_and!; [done|done|]. intros s0. cbn. naive_solver.
  - split; [done|congruence].
  - intros t' k1 Hne Hk. destruct (Hal _ _ Hne Hk) as (? & ? & ?). done.
Qed.

Lemma teardown_wipes φ r t l pending a e : inv φ r → r_tasks r !! t = Some (TornDown l AtWipe pending a) →
  r_entries r !! l = Some e →
  inv (<[l := Torn t AtRelease]> φ) (goto t (TornDown l AtRelease pending a) (wipe (e_scratch e) r)).
Proof.
  intros Hi Ht He. pose proof Hi as [Ho Hv Hd]. destruct (torn_alone _ _ _ _ _ _ _ Hi Ht) as (Hphi & _ & _ & _).
  assert (∃ t', s_ID (e_session e) = newID t') as (t' & Hid) by (destruct (o_id _ _ _ Ho _ _ He) as (t' & _ & ? & _); eauto).
  rewrite (d_scratch _ _ Hd _ _ He), Hid. destruct (scratch_plausible r t') as [P1 P2].
  destruct (wipe_plausible _ r P1 P2) as (ev & f & -> & Hharm & Hf & Hstuck).
  assert (∀ l', l' ≠ l → (<[l:=Torn t AtRelease]> φ : nat → phase) l' = φ l') as Hne by (intros; by rewrite fn_lookup_insert_ne).
  split.
  - eapply (owned_tears φ r); done.
  - eapply (vaults_steady φ _ r _ t _ (TornDown l AtRelease pending a) [ev]); try done; [|by apply Forall_singleton].
    intros l' _. destruct (decide (l' = l)) as [->|Hl]; [by rewrite fn_lookup_insert, Hphi|by rewrite Hne].
  - eapply (dirs_moves φ _ r _ t _ (TornDown l AtRelease pending a)); try done.
    + intros l' e' He'. unfold entry_dir. cbn. by rewrite He'.
    + cbn. congruence.
    + cbn. intros d Hin. left. by apply Hf.
    + cbn. intros e' Hin. apply elem_of_app. by left.
    + cbn. intros l' e' He' Hin Hnf. destruct (decide (l' = l)) as [->|Hl]; [|by rewrite Hne].
      destruct Hnf. rewrite He in He'. injection He' as <-. revert Hin. rewrite (d_scratch _ _ Hd _ _ He), Hid. intros Hin.
      apply elem_of_app. right. apply list_elem_of_singleton. symmetry. by apply Hstuck.
Qed.

Lemma teardown_closes φ r t l pending a e : inv φ r → r_tasks r !! t = Some (TornDown l AtClose pending a) →
  r_entries r !! l = Some e →
  inv (<[l := Torn t AtWipe]> φ) (goto t (TornDown l AtWipe pending a) (log (Closed (e_vault e)) r)).
Proof.
  intros Hi Ht He. pose proof Hi as [Ho Hv Hd]. destruct (torn_alone _ _ _ _ _ _ _ Hi Ht) as (Hphi & _ & _ & _).
  assert (∀ l', l' ≠ l → (<[l:=Torn t AtWipe]> φ : nat → phase) l' = φ l') as Hne by (intros; by rewrite fn_lookup_insert_ne).
  split.
  - eapply (owned_tears φ r); done.
  - eapply (vaults_closes φ _ r _ t _ (TornDown l AtWipe pending a) (e_vault e)); try done.
    + by eapply v_entry.
    + intros [_ Hac]%(v_closed _ _ Hv). specialize (Hac l e He eq_refl). by rewrite Hphi in Hac.
    + intros t' k1 _ Hk Hop. destruct (v_opening _ _ Hv _ _ _ Hk Hop) as (_ & Hno & _). by apply (Hno l e).
    + intros l' e' He'. destruct (decide (l' = l)) as [->|Hl].
      * rewrite fn_lookup_insert. split; [by cbn|]. intros []. congruence.
      * rewrite Hne by done. split; [|done]. intros Heq. destruct Hl. by eapply (v_inj _ _ Hv).
  - eapply (dirs_steady φ _ r); try done; [|by eapply (trace_grows _ _ [_])]. intros l' _. destruct (decide (l' = l)) as [->|Hl]; [by rewrite fn_lookup_insert|by rewrite Hne].
Qed.

Lemma teardown_inv φ r t k : inv φ r → r_tasks r !! t = Some k → match k with Teardown _ _ | TornDown _ _ _ _ => True | _ => False end →
  ∃ φ', inv φ' (teardown_step t k r).
Proof.
  intros Hi Ht Hk. destruct k as [| | | | | | | | | | |[|l pending] a|l s pending a| |]; try done; cbn [teardown_step].
  - exists φ. eapply (inv_steady φ r _ t _ _ []); try done; [by right|by rewrite app_nil_r].
  - destruct (r_entries r !! l) as [e|] eqn:He; [|by exists φ]. destruct (e_busy e) eqn:Hb; [by exists φ|].
    eexists. by eapply teardown_begins.
  - destruct (r_entries r !! l) as [e|] eqn:He; [|by exists φ].
    destruct s; [|eexists; by eapply teardown_closes|eexists; by eapply teardown_wipes|eexists; by eapply teardown_ends].
    exists (<[l := Torn t AtClose]> φ). destruct (torn_alone _ _ _ _ _ _ _ Hi Ht) as (Hphi & _ & _ & _).
    rewrite foldl_log_derived. set (r' := goto t _ _).
    assert (r_entries r' !! l = Some (with_derived [] e)) as He' by apply lookup_insert_eq.
    assert (∀ l', l' ≠ l → r_entries r' !! l' = r_entries r !! l') as Hother by (intros; by apply lookup_insert_ne).
    eapply (inv_acts φ r r' t _ (TornDown l AtClose pending a) l e _ _ (DerivedClosed <$> e_derived e)); try done.
    + by eapply (owned_tears φ r).
    + by rewrite Hphi.
    + apply harmless_derived.
Qed.

(** *** Every move *)

Lemma step_inv φ r t : inv φ r → ∃ φ', inv φ' (step t r).
Proof.
  intros Hi. unfold step. destruct (r_tasks r !! t) as [k|] eqn:Ht; [|by exists φ].
  destruct k; try (by eapply unlock_inv); try (by eapply end_inv); try (by eapply teardown_inv).
  - by eapply lookup_inv.
  - by eapply borrow_inv.
  - cbn. exists φ. set (f := λ e : registryEntry, with_derived _ e).
    destruct (on_session_frame f id r) as (F1 & F2 & F3 & F4 & F5 & F6).
    eapply (inv_steady φ r _ t _ (Finished (Attached _)) []); try done.
    + exact (f_equal _ F1).
    + by apply mark_face.
    + by right.
    + by rewrite app_nil_r.
  - by exists φ.
Qed.

Lemma begin_inv φ r c : inv φ r → inv φ (begin newID c r).
Proof.
  intros [Ho [H1 H2 H3 H4 H5 H6 H7] [D1 D2]]. pose proof (owned_begins newID φ r c Ho) as Ho'.
  assert (∀ k, opening k = None → owned newID φ (set_tasks (λ ts, ts ++ [k]) r) → inv φ (set_tasks (λ ts, ts ++ [k]) r)) as Happ.
  { intros k Hop Hk. set (r' := set_tasks _ r) in *.
    assert (∀ t' k1, r_tasks r' !! t' = Some k1 → r_tasks r !! t' = Some k1 ∨ k1 = k) as HT.
    { intros t' k1. cbn. rewrite lookup_app_Some. intros [?|[Hle Hk1]]; [by left|right].
      by apply list_lookup_singleton_Some in Hk1 as [? ->]. }
    assert (∀ t' k1, r_tasks r !! t' = Some k1 → r_tasks r' !! t' = Some k1) as HT' by (intros; by apply lookup_app_l_Some).
    split; [done|split|split]; try done.
    - intros t' k1 v [Hk1| ->]%HT Hv; [|congruence]. destruct (H3 _ _ _ Hk1 Hv) as (? & ? & ? & Hu). split_and!; [done..|].
      intros t2 k2 [Hk2| ->]%HT Hv2; [eauto|congruence].
    - intros v [?|[?|(t' & k0 & ? & ?)]]%H6; [by left|by right; left|right; right]. exists t', k0. auto.
    - intros d Hin Hnf. destruct (D2 d Hin Hnf) as [?|(t' & k0 & id & ? & ?)]; [by left|right]. exists t', k0, id. auto. }
  apply Happ; [by destruct c|done].
Qed.

(** Time and settings are read by the steps, and are no part of what they keep. *)
Lemma play1_inv φ r m : inv φ r → ∃ φ', inv φ' (play1 newID m r).
Proof.
  intros Hi. destruct m as [c|t|d|ttl|ds]; cbn; [|by eapply step_inv|..]; exists φ; [by apply begin_inv|..];
    destruct Hi as [[] [] []]; by split; split.
Qed.
Lemma play_inv φ r ms : inv φ r → ∃ φ', inv φ' (play newID ms r).
Proof.
  revert φ r. induction ms as [|m ms IH]; intros φ r Hi; [by exists φ|]. cbn. destruct (play1_inv φ r m Hi) as [φ' ?]. by eapply IH.
Qed.

Lemma new_inv root ttl now : inv (λ _, Gone) (NewRegistry root ttl now).
Proof.
  split; split; cbn; try done; intros v.
  - by intros ?%elem_of_nil.
  - rewrite elem_of_nil. split; [lia|done].
  - lia.
  - by intros e after w ?%app_cons_not_nil.
Qed.

Lemma reachable_inv root ttl now ms : ∃ φ, inv φ (play newID ms (NewRegistry root ttl now)).
Proof. eapply play_inv, new_inv. Qed.

(** ** What follows *)

(** The vault that a goroutine has its hands on. *)
Definition handling (r : Registry) (k : task) : option nat :=
  match k with
  | Borrowed l _ | TornDown l _ _ _ => entry_vault r l
  | _ => opening k
  end.

Lemma handling_exclusive φ r t t' k k' v : inv φ r → r_tasks r !! t = Some k → r_tasks r !! t' = Some k' →
  handling r k = Some v → handling r k' = Some v → t = t'.
Proof.
  intros [Ho Hv _] Ht Ht' Hk Hk'.
  assert (∀ t k, r_tasks r !! t = Some k → handling r k = Some v →
    (∃ l e, r_entries r !! l = Some e ∧ e_vault e = v ∧ e_busy e = Some t) ∨ opening k = Some v) as Hcase.
  { intros t0 k0 Hk0 Hh. destruct k0 as [| | | | | | |l h| | | | |l s pending a| |]; try (by right); left; cbn in Hh.
    - destruct (o_borrow _ _ _ Ho _ _ _ Hk0 eq_refl) as [Hb _]. unfold entry_vault in Hh. unfold busy in Hb.
      destruct (r_entries r !! l) as [e|] eqn:He; [|done]. injection Hh as Hh. by exists l, e.
    - destruct (o_torn _ _ _ Ho _ _ _ _ Hk0 eq_refl) as [_ Hb]. unfold entry_vault in Hh. unfold busy in Hb.
      destruct (r_entries r !! l) as [e|] eqn:He; [|done]. injection Hh as Hh. by exists l, e. }
  destruct (Hcase _ _ Ht Hk) as [(l & e & He & Hve & Hb)|Hop], (Hcase _ _ Ht' Hk') as [(l' & e' & He' & Hve' & Hb')|Hop'].
  - assert (l = l') as <- by (eapply (v_inj _ _ Hv); try done; congruence). congruence.
  - destruct (v_opening _ _ Hv _ _ _ Ht' Hop') as (_ & Hno & _). by destruct (Hno _ _ He).
  - destruct (v_opening _ _ Hv _ _ _ Ht Hop) as (_ & Hno & _). by destruct (Hno _ _ He').
  - destruct (v_opening _ _ Hv _ _ _ Ht' Hop') as (_ & _ & _ & Hu). by eapply Hu.
Qed.

(** A step touches only the vault that its goroutine has. *)
Definition news (r r' : Registry) : list event := drop (length (r_trace r)) (r_trace r').

Lemma news_app r r' es : r_trace r' = r_trace r ++ es → news r r' = es.
Proof. intros H. unfold news. by rewrite H, drop_app_length. Qed.

Lemma step_touches (r : Registry) t e v : e ∈ news r (step t r) → touches e = Some v →
  ∃ k, r_tasks r !! t = Some k ∧ handling r k = Some v.
Proof.
  assert (∀ r' : Registry, r_trace r' = r_trace r → e ∈ news r r' → False) as Hsame.
  { intros r' H Hin. rewrite (news_app r r' []) in Hin by (by rewrite H, app_nil_r). by apply elem_of_nil in Hin. }
  assert (∀ (r' : Registry) e', r_trace r' = r_trace r ++ [e'] → e ∈ news r r' → e = e') as Hone.
  { intros r' e' H Hin. rewrite (news_app r r' [e'] H) in Hin. by apply list_elem_of_singleton in Hin. }
  intros Hin Hv. unfold step in Hin. destruct (r_tasks r !! t) as [k|] eqn:Ht; [|by apply Hsame in Hin].
  exists k. split; [done|].
  destruct k as [id version m o p|id version o p|id version w p|id version w|id w|id a|id b|l h|id a| | |p a|l s p a|id name|a];
    cbn [unlock_step end_step teardown_step] in Hin; unfold lock_step, sweep_step, close_all_step in Hin; try (by apply Hsame in Hin).
  - destruct m; by apply Hsame in Hin.
  - destruct o; [apply (Hone _ (Opened (r_vaults r))) in Hin; [by subst e|done]|by apply Hsame in Hin].
  - destruct p; (apply (Hone _ (Used w)) in Hin; [subst e; by injection Hv as ->|done]).
  - apply (Hone _ (Closed w)) in Hin; [subst e; by injection Hv as ->|done].
  - destruct (wiped_frame (ScratchFor r id) r) as (ds & es & E & Hes). rewrite E, (news_app _ _ es) in Hin by done.
    apply Hes in Hin. congruence.
  - unfold lookup_step in Hin. repeat case_match; by apply Hsame in Hin.
  - unfold borrow_step in Hin. cbn [handling]. unfold entry_vault. destruct (r_entries r !! l) as [en|]; [|by apply Hsame in Hin].
    assert (∀ r' : Registry, r_trace r' = r_trace r ++ [Used (e_vault en)] → e ∈ news r r' → e_vault <$> Some en = Some v) as Hu.
    { intros r' H Hin'. apply (Hone _ _ H) in Hin'. subst e. by injection Hv as <-. }
    destruct h as [[|n]|[|n] [] id file so oo reads|id file [] oo reads|id file [] reads|id file [|o reads]];
      try (by apply Hsame in Hin); try (by eapply Hu, Hin).
    destruct o; try (by eapply Hu, Hin); (eapply Hu; [|exact Hin]); by destruct (on_session_frame
      (λ e, with_incomplete ({[file]} ∪ e_incomplete e) e) id (log (Used (e_vault en)) r)) as (_ & _ & _ & _ & _ & F),
      (on_session_frame (λ e, with_overlong ({[file]} ∪ e_overlong e) e) id (log (Used (e_vault en)) r)) as (_ & _ & _ & _ & _ & F').
  - repeat case_match; by apply Hsame in Hin.
  - destruct p as [|l p]; repeat case_match; by apply Hsame in Hin.
  - cbn [handling]. unfold entry_vault. destruct (r_entries r !! l) as [en|]; [|by apply Hsame in Hin]. destruct s.
    + rewrite foldl_log_derived, (news_app _ _ (DerivedClosed <$> e_derived en)) in Hin by done.
      apply list_elem_of_fmap in Hin as (n & -> & _). done.
    + apply (Hone _ (Closed (e_vault en))) in Hin; [subst e; by injection Hv as <-|done].
    + destruct (wiped_frame (e_scratch en) r) as (ds & es & E & Hes). rewrite E, (news_app _ _ es) in Hin by done.
      apply Hes in Hin. congruence.
    + by apply Hsame in Hin.
  - by destruct (on_session_frame (λ e, with_derived (e_derived e ++ [name]) e) id r) as (_ & _ & _ & _ & _ & F); apply Hsame in Hin.
Qed.

Definition finished (k : task) : Prop := match k with Finished _ => True | _ => False end.
Definition all_finished (r : Registry) : Prop := Forall finished (r_tasks r).

Lemma finished_idle (r : Registry) t k : all_finished r → r_tasks r !! t = Some k →
  borrowed k = None ∧ torn k = None ∧ pend k = [] ∧ opening k = None ∧ filling k = None.
Proof. intros Hf Ht. apply (Forall_lookup_1 _ _ _ _ Hf) in Ht. by destruct k. Qed.

Lemma rest_tabled φ r l e : inv φ r → all_finished r → r_entries r !! l = Some e → φ l ≠ Gone →
  r_sessions r !! s_ID (e_session e) = Some l.
Proof.
  intros [Ho _ _] Hf He Hne. pose proof (o_entry _ _ _ Ho _ _ He) as H. destruct (φ l) as [|t|t s|]; [done| | |done].
  - destruct H as (k & Hk & Hin). destruct (finished_idle _ _ _ Hf Hk) as (_ & _ & Hp & _). rewrite Hp in Hin. by apply elem_of_nil in Hin.
  - destruct H as (k & Hk & Hin). destruct (finished_idle _ _ _ Hf Hk) as (_ & Hp & _). congruence.
Qed.

(** C38: A vault is used, and is closed, only after it was opened and never after it was closed: however
    the calls of any number of callers interleave, no lookup that got in before a lock, an expiry or a
    shutdown reads a vault that the teardown has closed, and no teardown closes a vault twice. *)
Theorem vault_used_while_open root ttl now ms before e after v :
  r_trace (play newID ms (NewRegistry root ttl now)) = before ++ e :: after → touches e = Some v →
  Opened v ∈ before ∧ Closed v ∉ before.
Proof.
  destruct (reachable_inv root ttl now ms) as [φ [_ Hv _]]. intros Htr. exact (v_trace _ _ Hv before e after v Htr).
Qed.

(** No two goroutines are at one vault at a time: what a step of a goroutine reads or closes is the
    vault that this goroutine has its hands on, and no other goroutine has its hands on the same
    vault, be it a browse, a download that is still streaming, an unlock or a teardown. *)
Theorem vault_exclusive root ttl now ms t e v : let r := play newID ms (NewRegistry root ttl now) in
  e ∈ news r (step t r) → touches e = Some v →
  (∃ k, r_tasks r !! t = Some k ∧ handling r k = Some v) ∧
  ∀ t' k', r_tasks r !! t' = Some k' → handling r k' = Some v → t' = t.
Proof.
  intros r Hin Hv. destruct (step_touches r t e v Hin Hv) as (k & Hk & Hh). split; [by exists k|]. intros t' k' Hk' Hh'.
  destruct (reachable_inv root ttl now ms) as [φ Hi]. by eapply handling_exclusive.
Qed.

(** C39: Nothing decrypted outlives its session, but where the file system refuses to remove it.  Once the
    calls that were made have ended, a scratch directory on disk is that of a session that is in the
    table, or one whose removal was tried at the end of its session and failed (the next start wipes the
    root); and a vault that was ever opened has been closed unless it is the vault of a session in the
    table; with the table empty, after a shutdown, no open vault is left. *)
Theorem nothing_outlives_its_session root ttl now ms : let r := play newID ms (NewRegistry root ttl now) in
  all_finished r →
  (∀ d, d ∈ r_dirs r → WipeFailed d ∈ r_trace r ∨ ∃ id l, r_sessions r !! id = Some l ∧ d = ScratchFor r id) ∧
  (∀ v, Opened v ∈ r_trace r → Closed v ∈ r_trace r ∨
     ∃ id l e, r_sessions r !! id = Some l ∧ r_entries r !! l = Some e ∧ e_vault e = v).
Proof.
  intros r Hf. destruct (reachable_inv root ttl now ms) as [φ Hi]. fold r in Hi. pose proof Hi as [Ho Hv Hd]. split.
  - intros d Hin. destruct (decide (WipeFailed d ∈ r_trace r)) as [?|Hnf]; [by left|right].
    destruct (d_kept _ _ Hd d Hin Hnf) as [(l & e & He & <- & Hw)|(t & k & id & Hk & Hid & _)].
    + exists (s_ID (e_session e)), l. split; [|by apply (d_scratch _ _ Hd l)].
      eapply rest_tabled; try done. intros Hg. by rewrite Hg in Hw.
    + destruct (finished_idle _ _ _ Hf Hk) as (_ & _ & _ & _ & ?). congruence.
  - intros v [?|[(l & e & He & Hve & Hac)|(t & k & Hk & Hop)]]%(v_opened _ _ Hv)%(v_kept _ _ Hv); [by left|right|].
    + exists (s_ID (e_session e)), l, e. split_and!; [|done|done]. eapply rest_tabled; try done. intros Hg. by rewrite Hg in Hac.
    + destruct (finished_idle _ _ _ Hf Hk) as (_ & _ & _ & ? & _). congruence.
Qed.

End steps.

(** * Every call on a session ends *)

(** ** How much is left to do *)

Definition hold_work (h : hold) : nat :=
  match h with
  | InFn n => S n
  | InPages n _ _ _ _ _ reads => 4 + n + length reads
  | InStat _ _ _ _ reads => 3 + length reads
  | InOpen _ _ _ reads => 2 + length reads
  | InStream _ _ reads => 1 + length reads
  end.
Definition stage_work (s : stage) : nat := match s with AtDerived => 4 | AtClose => 3 | AtWipe => 2 | AtRelease => 1 end.

(** What a session in the table costs whoever ends it. *)
Definition session_work : nat := 6.

Definition task_work (k : task) : nat :=
  match k with
  | UnlockMkdir _ _ _ _ _ => 12
  | UnlockOpen _ _ _ _ => 11
  | UnlockPassword _ _ _ _ => 10
  | UnlockInsert _ _ _ => 9
  | UnlockClose _ _ => 3
  | UnlockWipe _ _ => 2
  | Lookup _ (Accesses n) => 4 + n
  | Lookup _ (Stream _ _ None _ _ reads) => 4 + length reads
  | Lookup _ (Stream _ _ (Some (n, _)) _ _ reads) => 5 + n + length reads
  | Borrowed _ h => hold_work h
  | LockStart _ _ | SweepStart | CloseAllStart => 2
  | Teardown pending _ => 1 + session_work * length pending
  | TornDown _ s pending _ => 1 + stage_work s + session_work * length pending
  | Attach _ _ => 1
  | Finished _ => 0
  end.

Definition work (r : Registry) : nat := sum_list (task_work <$> r_tasks r) + session_work * size (r_sessions r).

(** A goroutine that waits for the mutex of a session. *)
Definition waits (r : Registry) (k : task) : Prop :=
  match k with Teardown (l :: _) _ => is_Some (busy r l) | _ => False end.

Lemma sum_insert (ts : list task) t k k' : ts !! t = Some k →
  (sum_list (task_work <$> <[t := k']> ts) + task_work k = sum_list (task_work <$> ts) + task_work k')%nat.
Proof.
  revert t. induction ts as [|k0 ts IH]; intros [|t]; cbn; try done.
  - intros [= ->]. lia.
  - intros H%IH. rewrite <-!Nat.add_assoc. by f_equal.
Qed.

Lemma work_insert (r r' : Registry) t k k' n n' : r_tasks r !! t = Some k → r_tasks r' = <[t := k']> (r_tasks r) →
  size (r_sessions r) = n → size (r_sessions r') = n' →
  (task_work k' + session_work * n' < task_work k + session_work * n)%nat → (work r' < work r)%nat.
Proof.
  intros Ht Htasks <- <- Hlt. unfold work. rewrite Htasks. pose proof (sum_insert (r_tasks r) t k k' Ht). lia.
Qed.

Lemma same_work r r' t k k' : r_tasks r !! t = Some k → r_tasks r' = <[t := k']> (r_tasks r) → r_sessions r' = r_sessions r →
  (task_work k' < task_work k)%nat → (work r' < work r)%nat.
Proof. intros Ht Htasks Hses Hlt. eapply work_insert; try done. rewrite Hses. lia. Qed.

Lemma part_size (m : gmap string nat) P `{!∀ x, base.Decision (P x)} :
  (size (filter P m) + size (filter (λ x, ¬ P x) m))%nat = size m.
Proof.
  rewrite <-map_size_disj_union by apply map_disjoint_filter_complement. by rewrite map_filter_union_complement.
Qed.

Section ends.
Context (newID : nat → string) (newID_inj : ∀ n n', newID n = newID n' → n = n') (newID_some : ∀ n, newID n ≠ ""%string).

(** A step either does some of the work or waits. *)
Lemma step_works φ r t k : inv newID φ r → r_tasks r !! t = Some k → ¬ finished k → ¬ waits r k → (work (step t r) < work r)%nat.
Proof.
  intros Hi Ht Hf Hw. pose proof (i_owned _ _ _ Hi) as Ho. unfold step. rewrite Ht.
  assert (∀ k', (task_work k' < task_work k)%nat → (work (goto t k' r) < work r)%nat) as Hgo.
  { intros k' Hlt. by eapply same_work. }
  destruct k as [id version m o p|id version o p|id version w p|id version w|id w|id a|id b|l h|id a| | |p a|l s p a|id name|a];
    cbn [unlock_step end_step teardown_step]; unfold lock_step, sweep_step, close_all_step.
  - destruct m; (eapply same_work; [exact Ht|reflexivity|reflexivity|cbn; lia]).
  - destruct o; (eapply same_work; [exact Ht|reflexivity|reflexivity|cbn; lia]).
  - destruct p; (eapply same_work; [exact Ht|reflexivity|reflexivity|cbn; lia]).
  - eapply work_insert; [exact Ht|reflexivity..|]. cbn -[size].
    unfold session_work. set (l := fresh _).
    assert (size (<[id := l]> (r_sessions r)) <= S (size (r_sessions r)))%nat by (rewrite map_size_insert; destruct (r_sessions r !! id); cbn -[size]; lia). lia.
  - eapply same_work; [exact Ht|reflexivity|reflexivity|cbn; lia].
  - unfold wipe. repeat case_match; (eapply same_work; [exact Ht|reflexivity|reflexivity|cbn; lia]).
  - unfold lookup_step. destruct b as [n|? ? [[? ?]|] ? ? ?]; repeat case_match; (eapply same_work; [exact Ht|reflexivity|reflexivity|cbn; lia]).
  - destruct (o_borrow _ _ _ Ho _ _ _ Ht eq_refl) as [Hb _]. unfold borrow_step. unfold busy in Hb.
    destruct (r_entries r !! l) as [e|]; [|done].
    destruct h as [[|n]|[|n] [] id file so oo reads|id file [] oo reads|id file [] reads|id file [|o reads]]; try (eapply same_work; [exact Ht|reflexivity|reflexivity|cbn; lia]).
    assert (∀ f, (work (goto t (Borrowed l (InStream id file reads)) (on_session id f (log (Used (e_vault e)) r))) < work r)%nat) as Hm.
    { intros f. destruct (on_session_frame f id (log (Used (e_vault e)) r)) as (F1 & F2 & _).
      eapply same_work; [done|exact (f_equal _ F1)|done|cbn; lia]. }
    destruct o; [eapply same_work; [exact Ht|reflexivity|reflexivity|cbn; lia]..|apply Hm|apply Hm].
  - destruct (r_sessions r !! id) as [l|] eqn:Hid; [|apply Hgo; cbn; lia].
    eapply work_insert; [exact Ht|reflexivity..|]. cbn -[size]. rewrite map_size_delete, Hid. unfold session_work.
    assert (size (r_sessions r) ≠ 0)%nat by (intros H%map_size_empty_inv; by rewrite H in Hid). cbn. lia.
  - eapply work_insert; [exact Ht|reflexivity..|]. cbn -[size]. rewrite length_fmap, length_map_to_list.
    pose proof (part_size (r_sessions r) (λ kl, due r kl.2)). unfold session_work. lia.
  - eapply work_insert; [exact Ht|reflexivity..|]. cbn -[size]. rewrite length_fmap, length_map_to_list.
    rewrite map_size_empty. unfold session_work. lia.
  - destruct p as [|l p]; [apply Hgo; cbn; lia|]. destruct (o_pend _ _ _ Ho _ _ l Ht) as [_ [e He]]; [left|]. rewrite He.
    destruct (e_busy e) as [t'|] eqn:Hb.
    + destruct Hw. cbn. unfold busy. rewrite He. cbn. by rewrite Hb.
    + eapply same_work; [done|done|done|]. cbn. lia.
  - destruct (o_torn _ _ _ Ho _ _ _ _ Ht eq_refl) as [_ Hb]. unfold busy in Hb. destruct (r_entries r !! l) as [e|]; [|done].
    destruct s; try (eapply same_work; [exact Ht|reflexivity|reflexivity|cbn; lia]).
    + rewrite foldl_log_derived. eapply same_work; [exact Ht|reflexivity|reflexivity|cbn; lia].
    + unfold wipe. repeat case_match; (eapply same_work; [exact Ht|reflexivity|reflexivity|cbn; lia]).
  - unfold AttachDerived. set (f := λ e : registryEntry, with_derived _ e). destruct (on_session_frame f id r) as (F1 & F2 & _).
    eapply (same_work r _ t _ (Finished (Attached _))); [exact Ht|exact (f_equal _ F1)|exact F2|cbn; lia].
  - done.
Qed.

Lemma step_waits (r : Registry) t k : r_tasks r !! t = Some k → finished k ∨ waits r k → step t r = r.
Proof.
  unfold step. intros ->. destruct k; intros [Hk|Hk]; try done.
  destruct pending as [|l pending]; [done|]. cbn in *. unfold busy in Hk. destruct (r_entries r !! l) as [e|]; [|done].
  cbn in Hk. by destruct (e_busy e); [|destruct Hk].
Qed.

#[local] Instance finished_dec k : base.Decision (finished k).
Proof. destruct k; cbn; apply _. Defined.
#[local] Instance waits_dec r k : base.Decision (waits r k).
Proof. destruct k; cbn; try apply _. destruct pending; apply _. Defined.

Lemma step_or_same φ r t : inv newID φ r → step t r = r ∨ (work (step t r) < work r)%nat.
Proof.
  intros Hi. destruct (r_tasks r !! t) as [k|] eqn:Ht; [|left; unfold step; by rewrite Ht].
  destruct (decide (finished k)); [left; by eapply step_waits; [|left]|].
  destruct (decide (waits r k)); [left; by eapply step_waits; [|right]|]. right. by eapply step_works.
Qed.

(** Who waits waits for a goroutine that does not. *)
Lemma someone_works φ r : inv newID φ r → ¬ all_finished r → ∃ t, (t < length (r_tasks r))%nat ∧ (work (step t r) < work r)%nat.
Proof.
  intros Hi Hn. apply not_Forall_Exists in Hn; [|apply _].
  apply Exists_exists in Hn as (k & Hin & Hf). apply list_elem_of_lookup in Hin as (t & Ht).
  destruct (decide (waits r k)) as [Hw|Hw]; [|exists t; split; [by eapply lookup_lt_Some|by eapply step_works]].
  destruct k as [| | | | | | | | | | |[|l p] a| | |]; try done. destruct Hw as [t' Hb].
  destruct (o_busy _ _ _ (i_owned _ _ _ Hi) _ _ Hb) as (k' & Hk' & Hor).
  exists t'. split; [by eapply lookup_lt_Some|]. eapply step_works; [done|done| |]; destruct Hor as [Hb'|[s Hs]]; by destruct k'.
Qed.

Lemma unlock_step_length t k (r : Registry) : length (r_tasks (unlock_step t k r)) = length (r_tasks r).
Proof.
  destruct k as [id version m o p|id version o p|id version v p| | |id a| | | | | | | | |]; try done; try apply length_insert.
  - destruct m; apply length_insert.
  - destruct o; apply length_insert.
  - destruct p; apply length_insert.
  - cbn [unlock_step]. unfold wipe. repeat case_match; apply length_insert.
Qed.

Lemma end_step_length t k (r : Registry) : length (r_tasks (end_step t k r)) = length (r_tasks r).
Proof. destruct k; try done; try apply length_insert. cbn [end_step]; unfold lock_step, sweep_step, close_all_step. case_match; apply length_insert. Qed.

Lemma on_session_length f id k t (r : Registry) : length (r_tasks (goto t k (on_session id f r))) = length (r_tasks r).
Proof. etrans; [apply length_insert|]. by destruct (on_session_frame f id r) as [-> _]. Qed.

Lemma borrow_step_length t l h (r : Registry) : length (r_tasks (borrow_step t l h r)) = length (r_tasks r).
Proof.
  unfold borrow_step. destruct (r_entries r !! l) as [e|]; [|done].
  destruct h as [[|n]|[|n] [] id file so oo reads|id file [] oo reads|id file [] reads|id file [|[] reads]]; try apply length_insert; apply (on_session_length _ _ _ _ (log _ r)).
Qed.

Lemma teardown_step_length t k (r : Registry) : length (r_tasks (teardown_step t k r)) = length (r_tasks r).
Proof.
  destruct k as [| | | | | | | | | | |[|l p] a|l s p a| |]; try done; cbn [teardown_step]; [apply length_insert|..].
  - repeat case_match; try done. apply length_insert.
  - destruct (r_entries r !! l) as [e|]; [|done]. destruct s; try apply length_insert.
    + rewrite foldl_log_derived. apply length_insert.
    + unfold wipe. repeat case_match; apply length_insert.
Qed.

Lemma step_length t (r : Registry) : length (r_tasks (step t r)) = length (r_tasks r).
Proof.
  unfold step. destruct (r_tasks r !! t) as [k|]; [|done].
  destruct k; first [done|apply unlock_step_length|apply end_step_length|apply borrow_step_length|apply teardown_step_length|apply on_session_length|idtac].
  unfold lookup_step. repeat case_match; apply length_insert.
Qed.

(** ** Turns *)

(** Each of [m] goroutines makes a step, [n] times. *)
Definition turn (m : nat) : list move := Step <$> seq 0 m.
Definition turns (m n : nat) : list move := mjoin (replicate n (turn m)).

Lemma steps_or_same φ r ts : inv newID φ r →
  (play newID (Step <$> ts) r = r ∧ ∀ t, t ∈ ts → step t r = r) ∨ (work (play newID (Step <$> ts) r) < work r)%nat.
Proof.
  revert φ r. induction ts as [|t ts IH]; intros φ r Hi; cbn; [left; split; [done|]; by intros t []%elem_of_nil|].
  destruct (step_inv newID newID_inj newID_some φ r t Hi) as [φ' Hi']. specialize (IH φ' (step t r) Hi'). unfold play in IH.
  destruct (step_or_same φ r t Hi) as [Heq|Hlt].
  - rewrite Heq in IH |- *. destruct IH as [[IH1 IH2]|IH]; [left; split; [done|]|by right].
    intros t' [-> |?]%elem_of_cons; [done|by apply IH2].
  - right. destruct IH as [[IH _]|IH]; [unfold fmap in *; by rewrite IH|unfold fmap in *; lia].
Qed.

Lemma steps_length ts r : length (r_tasks (play newID (Step <$> ts) r)) = length (r_tasks r).
Proof. revert r. induction ts as [|t ts IH]; intros r; [done|]. cbn. unfold play in IH. by rewrite IH, step_length. Qed.

Lemma turns_end φ r n : inv newID φ r → (work r <= n)%nat → all_finished (play newID (turns (length (r_tasks r)) n) r).
Proof.
  assert (∀ n r, all_finished r → play newID (turns (length (r_tasks r)) n) r = r) as Hdone.
  { clear n r φ. intros n r Hf. assert (∀ ts, Forall (λ m, ∃ t, m = Step t) ts → play newID ts r = r) as Hall.
    { intros ts. induction 1 as [|m ts [t ->] _ IH]; [done|]. cbn. destruct (r_tasks r !! t) as [k|] eqn:Ht.
      - rewrite (step_waits r t k Ht) by (left; by eapply Forall_lookup_1). done.
      - unfold step. by rewrite Ht. }
    apply Hall. unfold turns. induction n as [|n IH]; [constructor|]. cbn. apply Forall_app. split; [|done].
    unfold turn. apply Forall_fmap, Forall_true. by eexists. }
  revert φ r. induction n as [|n IH]; intros φ r Hi Hle.
  all: destruct (decide (all_finished r)) as [Hf|Hf]; [by rewrite Hdone|].
  all: destruct (someone_works φ r Hi Hf) as (t & Hlt & Hw).
  - lia.
  - cbn. unfold play. rewrite foldl_app. fold (play newID (turn (length (r_tasks r))) r). set (r1 := play newID (turn _) r).
    assert (work r1 < work r)%nat as Hw1.
    { destruct (steps_or_same φ r (seq 0 (length (r_tasks r))) Hi) as [[_ Hsame]|?]; [|done].
      rewrite (Hsame t) in Hw by (apply elem_of_seq; lia). lia. }
    rewrite <-(steps_length (seq 0 (length (r_tasks r))) r). fold (turn (length (r_tasks r))). fold r1.
    destruct (play_inv newID newID_inj newID_some φ r (turn (length (r_tasks r))) Hi) as [φ1 Hi1]. eapply (IH φ1 r1 Hi1). lia.
Qed.

(** Every call ends.  From every state that any calls and any interleaving of them lead to, taking
    the goroutines in turn, [work] times over, ends all of them, the streams being closed by their
    readers: nobody waits for ever on the mutex of a session, neither a lock for a download nor one
    teardown for another. *)
Theorem calls_end root ttl now ms : let r := play newID ms (NewRegistry root ttl now) in
  all_finished (play newID (turns (length (r_tasks r)) (work r)) r).
Proof.
  intros r. destruct (reachable_inv newID newID_inj newID_some root ttl now ms) as [φ Hi]. by apply (turns_end φ).
Qed.

End ends.
