(* ===== verification/VaultBrowse.v ===== *)
(** * VaultBrowse: the index of a version, read by pages

    Models core/internal/vault/vault.go, cursor.go, unencrypted.go and encrypted.go, the lookup of a
    file by its path in session.go, and what core/internal/vaultsvc/service.go makes of a page.
    SQLite's answers to the queries are given their meaning over the rows of the Files table; the
    decoder of a row's record, and everything of an encrypted backup, belong to the library
    ios-backup-crypt, of which only the interface is known.  A file is decrypted by a goroutine
    that writes into a pipe ([pipe_step]).  Contexts are not cancelled. *)

From Stdlib Require Import String Ascii.
From S2P Require Import Prelude Calendar Base64 Json.

(** ** The seam *)

Inductive Kind : Type := KindFile | KindDir | KindSymlink.

Record FileEntry : Type := mkFileEntry {
  fe_FileID : string; fe_Domain : string; fe_RelativePath : string; fe_Kind : Kind; fe_Size : Z; fe_MTime : time }.

Record Query : Type := mkQuery { q_Domain : string; q_Prefix : string; q_Cursor : string; q_Limit : Z }.
Record Page : Type := mkPage { p_Entries : list FileEntry; p_NextCursor : string; p_EffectiveLimit : Z }.

Definition DefaultLimit : Z := 500.
Definition MaxLimit : Z := 2000.

Definition ClampLimit (requested : Z) : Z * bool :=
  if requested <=? 0 then (DefaultLimit, false)
  else if MaxLimit <? requested then (MaxLimit, true)
  else (requested, false).

(** The errors of the seam; [ErrOther] is any that it does not name. *)
Inductive vault_error : Type :=
  | ErrBadPassword | ErrCorruptManifest | ErrFileNotFound | ErrNotAFile | ErrLocked
  | ErrIncompleteFile | ErrOverlongFile | ErrNoCanary | ErrOther.
#[global] Instance vault_error_eq_dec : EqDecision vault_error.
Proof. solve_decision. Defined.

Definition Code (err : option vault_error) : string :=
  match err with
  | None => ""
  | Some (ErrIncompleteFile | ErrOverlongFile) => ""
  | Some ErrBadPassword => "bad_password"
  | Some ErrCorruptManifest => "corrupt_manifest"
  | Some (ErrFileNotFound | ErrNoCanary) => "not_found"
  | Some ErrNotAFile => "not_a_file"
  | Some ErrLocked => "locked"
  | Some ErrOther => "io"
  end.

(** What a call on a session may fail with, and what the service says of it. *)
Inductive session_error : Type := ErrNoSession | ErrSessionBusy | Seam (err : vault_error).
Definition codeFor (err : session_error) : string :=
  match err with ErrNoSession => "locked" | ErrSessionBusy => "busy" | Seam err => Code (Some err) end.

(** *** Cursors *)

Record cursor : Type := mkCursor { c_Domain : string; c_Path : string }.

Definition encodeCursor (c : cursor) : string :=
  EncodeToString RawURLEncoding
    ("{" +:+ json_field "d" (json_string (c_Domain c)) +:+ "," +:+ json_field "p" (json_string (c_Path c)) +:+ "}").

Definition decodeCursor (s : string) : option cursor :=
  if String.eqb s "" then Some (mkCursor "" "")
  else match DecodeString RawURLEncoding s with
       | None => None
       | Some b => match Unmarshal_strings ["d"; "p"]%string b with
                   | Some [d; p] => Some (mkCursor d p)
                   | _ => None
                   end
       end.

Definition before (c : cursor) (domain path : string) : bool :=
  if String.eqb (c_Domain c) domain then str_ltb (c_Path c) path else str_ltb (c_Domain c) domain.

Definition at_entry (e : FileEntry) : cursor := mkCursor (fe_Domain e) (fe_RelativePath e).

(** *** Totals *)

Record DomainTotals : Type := mkDomainTotals { dt_Domain : string; dt_Files : Z; dt_Bytes : Z }.
Record Totals : Type := mkTotals { t_Domains : list DomainTotals; t_TotalFiles : Z; t_TotalBytes : Z }.

Abbreviation totalsAccumulator := (gmap string (Z * Z)).
Definition acc_add (a : totalsAccumulator) (domain : string) (size : Z) : totalsAccumulator :=
  let '(files, bytes) := default (0, 0) (a !! domain) in
  <[domain := (wrap64 (files + 1), wrap64 (bytes + size))]> a.

Definition domain_le (a b : DomainTotals) : Prop := str_le (dt_Domain a) (dt_Domain b).
#[global] Instance domain_le_dec : RelDecision domain_le.
Proof. intros a b. unfold domain_le. apply _. Defined.

Definition acc_totals `{!MapRange, !SortSlice} (a : totalsAccumulator) : Totals :=
  let t := foldl (λ t '(domain, (files, bytes)),
    mkTotals (t_Domains t ++ [mkDomainTotals domain files bytes]) (wrap64 (t_TotalFiles t + files)) (wrap64 (t_TotalBytes t + bytes)))
    (mkTotals [] 0 0) (range a) in
  mkTotals (sort_slice domain_le (t_Domains t)) (t_TotalFiles t) (t_TotalBytes t).

(** ** A backup that is not encrypted *)

(** What the library makes of the record of a row: its size and time, if it can be read. *)
Class RecordDecoder : Type := { DecodeFileRecord : string → option (Z * time) }.

Record row : Type := mkRow { f_fileID : string; f_domain : string; f_relativePath : string; f_flags : Z; f_file : string }.

Definition flagFile : Z := 1.
Definition flagDir : Z := 2.
Definition flagSymlink : Z := 4.
Definition kindForFlags (flags : Z) : Kind :=
  if flags =? flagDir then KindDir else if flags =? flagSymlink then KindSymlink else KindFile.

Definition scanEntry `{!RecordDecoder} (r : row) : FileEntry :=
  let '(size, mtime) := default (0, zero_time) (DecodeFileRecord (f_file r)) in
  mkFileEntry (f_fileID r) (f_domain r) (f_relativePath r) (kindForFlags (f_flags r)) size mtime.

(** The last byte that can be is incremented and what follows it dropped. *)
Fixpoint prefixEnd (prefix : string) : option string :=
  match prefix with
  | EmptyString => None
  | String c rest =>
      match prefixEnd rest with
      | Some bound => Some (String c bound)
      | None => if Z_of_char c <? 255 then Some (String (char_of_Z (Z_of_char c + 1)) EmptyString) else None
      end
  end.

(** The WHERE clause of [List]. *)
Definition where_clause (q : Query) (after : cursor) (r : row) : bool :=
  (String.eqb (q_Domain q) "" || String.eqb (f_domain r) (q_Domain q)) &&
  (String.eqb (q_Prefix q) "" ||
   (negb (str_ltb (f_relativePath r) (q_Prefix q)) &&
    match prefixEnd (q_Prefix q) with Some bound => str_ltb (f_relativePath r) bound | None => true end)) &&
  (String.eqb (q_Cursor q) "" ||
   (str_ltb (c_Domain after) (f_domain r) ||
    (String.eqb (f_domain r) (c_Domain after) && str_ltb (c_Path after) (f_relativePath r)))).

(** ORDER BY domain, relativePath: rows that agree in both come in any order. *)
Definition row_le (a b : row) : Prop :=
  str_lt (f_domain a) (f_domain b) ∨ (f_domain a = f_domain b ∧ str_le (f_relativePath a) (f_relativePath b)).
#[global] Instance row_le_dec : RelDecision row_le.
Proof. intros a b. unfold row_le. apply _. Defined.

(** A version's directory: its Files table, if it can be read as one, and its blobs by their place
    below the directory. *)
Record directory : Type := mkDirectory { d_Files : option (list row); d_blobs : gmap string string }.

Record unencrypted : Type := mkUnencrypted { u_dir : directory; u_db : option (list row); u_closed : bool }.

Definition OpenUnencrypted (dir : directory) : unencrypted := mkUnencrypted dir None false.

(** The number of files is what is kept of the [Info]: the rest is for display. *)
Definition u_Unlock (u : unencrypted) : (vault_error + Z) * unencrypted :=
  if u_closed u then (inl ErrLocked, u)
  else match u_db u with
       | Some rows => (inr (Z.of_nat (length rows)), u)
       | None =>
           match d_Files (u_dir u) with
           | None => (inl ErrCorruptManifest, u)
           | Some rows => (inr (Z.of_nat (length rows)), mkUnencrypted (u_dir u) (Some rows) false)
           end
       end.

Definition u_Close (u : unencrypted) : unencrypted := mkUnencrypted (u_dir u) None true.

(** The open index, while there is one. *)
Definition index_of (u : unencrypted) : vault_error + list row :=
  match u_db u with Some rows => if u_closed u then inl ErrLocked else inr rows | None => inl ErrLocked end.

Section Unencrypted.
Context `{!RecordDecoder, !SortSlice, !MapRange}.

(** The loop over the rows of an answer: one more than the page takes says that there is a next. *)
Fixpoint fill (limit : nat) (page : list FileEntry) (rows : list row) : list FileEntry * string :=
  match rows with
  | [] => (page, EmptyString)
  | r :: rows =>
      if Nat.eqb (length page) limit
      then (page, match last page with Some e => encodeCursor (at_entry e) | None => encodeCursor (mkCursor "" "") end)
      else fill limit (page ++ [scanEntry r]) rows
  end.

Definition select_page (rows : list row) (q : Query) (after : cursor) (limit : nat) : list row :=
  take (S limit) (sort_slice row_le (filter (λ r, where_clause q after r = true) rows)).

Definition u_List (u : unencrypted) (q : Query) : vault_error + Page :=
  match index_of u with
  | inl e => inl e
  | inr rows =>
      match decodeCursor (q_Cursor q) with
      | None => inl ErrFileNotFound
      | Some after =>
          let '(limit, clamped) := ClampLimit (q_Limit q) in
          let '(entries, next) := fill (Z.to_nat limit) [] (select_page rows q after (Z.to_nat limit)) in
          inr (mkPage entries next (if clamped : bool then limit else 0))
      end
  end.

Definition u_Stat (u : unencrypted) (fileID : string) : vault_error + FileEntry :=
  match index_of u with
  | inl e => inl e
  | inr rows =>
      match filter (λ r, f_fileID r = fileID) rows with
      | [] => inl ErrFileNotFound
      | r :: _ => inr (scanEntry r)
      end
  end.

Definition blobPath (fileID : string) : string :=
  if Nat.ltb (String.length fileID) 2 then fileID else str_first 2 fileID +:+ "/" +:+ fileID.

(** A reader over the bytes of a blob that are left, for the length that the record gives. *)
Record boundedFile : Type := mkBounded { b_left : string; b_remaining : Z }.

Definition u_Open (u : unencrypted) (fileID : string) : vault_error + boundedFile :=
  match u_Stat u fileID with
  | inl e => inl e
  | inr e =>
      match fe_Kind e with
      | KindFile =>
          match d_blobs (u_dir u) !! blobPath fileID with
          | None => inl ErrFileNotFound
          | Some blob => inr (mkBounded blob (fe_Size e))
          end
      | _ => inl ErrNotAFile
      end
  end.

(** How a read ends: with nothing to say, at the end of the file, or in an error of the seam. *)
Inductive read_end : Type := ReadOn | ReadEOF | ReadErr (err : vault_error).

(** One read into [len] bytes, of which the system fills at most [got]. *)
Definition b_Read (len got : nat) (b : boundedFile) : string * read_end * boundedFile :=
  if b_remaining b <=? 0 then
    if String.eqb (b_left b) "" then (EmptyString, ReadEOF, b)
    else (EmptyString, ReadErr ErrOverlongFile, mkBounded (str_skip 1 (b_left b)) (b_remaining b))
  else
    let len := if b_remaining b <? Z.of_nat len then Z.to_nat (b_remaining b) else len in
    let n := Nat.min len got in
    if Nat.eqb len 0 then (EmptyString, ReadOn, b)
    else if String.eqb (b_left b) "" then (EmptyString, ReadErr ErrIncompleteFile, b)
    else
      let bytes := str_first n (b_left b) in
      (bytes, ReadOn, mkBounded (str_skip n (b_left b)) (b_remaining b - Z.of_nat (String.length bytes))).

(** Reads until one ends; the sizes of the buffers and of what arrives are given. *)
Fixpoint read_all (sizes : list (nat * nat)) (b : boundedFile) : string * read_end :=
  match sizes with
  | [] => (EmptyString, ReadOn)
  | (len, got) :: sizes =>
      match b_Read len got b with
      | (bytes, ReadOn, b) => let '(more, how) := read_all sizes b in (bytes +:+ more, how)
      | (bytes, how, _) => (bytes, how)
      end
  end.

Definition canaryMaxBytes : Z := 65536.

(** The first file with content that is small enough is read; that it comes up short is no failure. *)
Fixpoint canary (u : unencrypted) (rows : list row) : option vault_error :=
  match rows with
  | [] => Some ErrNoCanary
  | r :: rows =>
      match DecodeFileRecord (f_file r) with
      | None => canary u rows
      | Some (size, _) =>
          if (size <=? 0) || (canaryMaxBytes <? size) then canary u rows
          else match u_Open u (f_fileID r) with
               | inl e => Some e
               | inr b =>
                   let over := b_remaining b <? Z.of_nat (String.length (b_left b)) in
                   if over then Some ErrOverlongFile else None
               end
      end
  end.
Definition u_VerifyCanary (u : unencrypted) : option vault_error :=
  match index_of u with
  | inl e => Some e
  | inr rows => canary u (sort_slice row_le (filter (λ r, f_flags r = flagFile) rows))
  end.

Definition row_size (r : row) : Z := fe_Size (scanEntry r).

Definition u_Aggregate (u : unencrypted) : vault_error + Totals :=
  match index_of u with
  | inl e => inl e
  | inr rows => inr (acc_totals (foldl (λ a r, acc_add a (f_domain r) (row_size r)) ∅ rows))
  end.

End Unencrypted.

(** ** A backup that is encrypted *)

(** The errors that the library names. *)
Inductive library_error : Type := LibFileNotFound | LibNotAFile | LibLocked | LibIncompleteFile | LibNotEncrypted | LibOther.

Definition translate (err : library_error) : vault_error :=
  match err with
  | LibFileNotFound => ErrFileNotFound
  | LibNotAFile => ErrNotAFile
  | LibLocked => ErrLocked
  | LibIncompleteFile => ErrIncompleteFile
  | LibNotEncrypted | LibOther => ErrOther
  end.

Record LibraryEntry : Type := mkLibraryEntry {
  le_FileID : string; le_Domain : string; le_RelativePath : string; le_Flags : Z; le_Size : Z; le_MTime : time }.

Definition fromLibrary (e : LibraryEntry) : FileEntry :=
  mkFileEntry (le_FileID e) (le_Domain e) (le_RelativePath e) (kindForFlags (le_Flags e)) (le_Size e) (le_MTime e).

(** The library: opening and unlocking a directory, with the number of files; what its iterator yields
    for a domain and a prefix, and the error that ends it; one entry; and the bytes that a file
    decrypts to, with how that ends. *)
Class BackupLibrary : Type := {
  Backup : Type;
  lib_Unlock : string → string → library_error + Backup * Z;     (* directory, password *)
  lib_List : Backup → string → string → list LibraryEntry * option library_error;
  lib_Stat : Backup → string → library_error + LibraryEntry;
  lib_DecryptFile : Backup → string → string * option library_error }.

(** What the loops of this package see of it. *)
Definition iterate `{!BackupLibrary} (b : Backup) (domain prefix : string) : list FileEntry * option vault_error :=
  (fromLibrary <$> (lib_List b domain prefix).1, translate <$> (lib_List b domain prefix).2).

(** Which entries [List] is for. *)
Definition asked (domain prefix : string) (e : FileEntry) : bool :=
  (String.eqb domain "" || String.eqb (fe_Domain e) domain) && has_prefix (fe_RelativePath e) prefix.

Definition entry_lt (a b : FileEntry) : Prop :=
  str_lt (fe_Domain a) (fe_Domain b) ∨ (fe_Domain a = fe_Domain b ∧ str_lt (fe_RelativePath a) (fe_RelativePath b)).

(** What is relied on: a domain or a prefix narrows what is iterated, and then the entries come in the
    order of domain and path.  Nothing is said of the order of the whole backup. *)
Definition narrowed (domain prefix : string) : Prop := domain ≠ ""%string ∨ prefix ≠ ""%string.
Class BackupLibraryLaw `{!BackupLibrary} : Prop := {
  lib_sorted b domain prefix : narrowed domain prefix → StronglySorted entry_lt (iterate b domain prefix).1;
  lib_narrows b domain prefix :
    (iterate b domain prefix).2 = (iterate b "" "").2 ∧
    (iterate b domain prefix).1 ≡ₚ filter (λ e, asked domain prefix e = true) (iterate b "" "").1 }.

Record encrypted `{!BackupLibrary} : Type := mkEncrypted { e_dir : string; e_backup : option (Backup * Z); e_closed : bool }.
Arguments mkEncrypted {_} _ _ _.

Section Encrypted.
Context `{!BackupLibrary, !MapRange, !SortSlice}.

Definition OpenEncrypted (dir : string) : encrypted := mkEncrypted dir None false.

(** Whether the Manifest.db of the directory can be hashed is given. *)
Definition e_Unlock (v : encrypted) (password : string) (hashed : bool) : (vault_error + Z) * encrypted :=
  if e_closed v then (inl ErrLocked, v)
  else match e_backup v with
       | Some (_, files) => (inr files, v)
       | None =>
           if negb hashed then (inl ErrCorruptManifest, v)
           else match lib_Unlock (e_dir v) password with
                | inl e => (inl (translate e), v)
                | inr (b, files) => (inr files, mkEncrypted (e_dir v) (Some (b, files)) false)
                end
       end.

Definition backup_of (e : encrypted) : vault_error + Backup :=
  match e_backup e with Some (b, _) => if e_closed e then inl ErrLocked else inr b | None => inl ErrLocked end.

(** The loop over the iterator: the entries up to the cursor are skipped, and a full page ends it. *)
Fixpoint walk_page (limit : nat) (resume : option cursor) (page : list FileEntry) (entries : list FileEntry)
  : list FileEntry * string * bool :=
  match entries with
  | [] => (page, EmptyString, true)
  | e :: entries =>
      if match resume with Some after => negb (before after (fe_Domain e) (fe_RelativePath e)) | None => false end
      then walk_page limit resume page entries
      else
        let page := page ++ [e] in
        if Nat.eqb (length page) limit then (page, encodeCursor (at_entry e), false)
        else walk_page limit resume page entries
  end.

Definition e_List (v : encrypted) (q : Query) : vault_error + Page :=
  match backup_of v with
  | inl e => inl e
  | inr b =>
      match decodeCursor (q_Cursor q) with
      | None => inl ErrFileNotFound
      | Some after =>
          let '(limit, clamped) := ClampLimit (q_Limit q) in
          let '(entries, err) := iterate b (q_Domain q) (q_Prefix q) in
          let resume := if String.eqb (q_Cursor q) "" then None else Some after in
          let '(page, next, ended) := walk_page (Z.to_nat limit) resume [] entries in
          match (if ended : bool then err else None) with
          | Some e => inl e
          | None => inr (mkPage page next (if clamped : bool then limit else 0))
          end
      end
  end.

Definition e_Stat (v : encrypted) (fileID : string) : vault_error + FileEntry :=
  match backup_of v with
  | inl e => inl e
  | inr b => match lib_Stat b fileID with inl e => inl (translate e) | inr e => inr (fromLibrary e) end
  end.

(** The pipe between the reader and the goroutine that runs [DecryptFile]: what that has left to write,
    with how it ends, or that it returned; what was read, and the end that the reader was shown; and
    whether the reader and the library's handle are still open. *)
Inductive pump : Type := Decrypting (rest : string) (err : option library_error) | Returned.
Record pipe : Type := mkPipe { pp_pump : pump; pp_out : string; pp_end : option read_end; pp_open : bool; pp_library : bool }.

Inductive pipe_event : Type :=
  | PipeReads (n : nat)        (* the reader takes up to so many bytes of the write that waits *)
  | PipePumps                  (* the goroutine: [DecryptFile] has written all, or its write fails; it returns *)
  | PipeCloses                 (* the reader is closed *)
  | LibraryCloses.             (* [Close] of the vault, which does not wait for the goroutine *)
Definition pipe_step (ev : pipe_event) (p : pipe) : pipe :=
  let 'mkPipe pump out fin open library := p in
  match ev, pump with
  | PipeReads n, Decrypting rest err => if open : bool then mkPipe (Decrypting (str_skip n rest) err) (out +:+ str_first n rest) fin open library else p
  | PipePumps, Decrypting rest err =>
      if negb open then mkPipe Returned out fin open library
      else if String.eqb rest "" then
        mkPipe Returned out (Some (match err with Some err => ReadErr (translate err) | None => ReadEOF end)) open library
      else p
  | PipeCloses, _ => mkPipe pump out fin false library
  | LibraryCloses, _ => mkPipe pump out fin open false
  | _, Returned => p
  end.
Definition pipe_run (evs : list pipe_event) (p : pipe) : pipe := foldl (flip pipe_step) p evs.

Definition e_Open (v : encrypted) (fileID : string) : vault_error + pipe :=
  match backup_of v with
  | inl e => inl e
  | inr b =>
      match lib_Stat b fileID with
      | inl e => inl (translate e)
      | inr e =>
          match fe_Kind (fromLibrary e) with
          | KindFile =>
              let '(bytes, err) := lib_DecryptFile b fileID in
              inr (mkPipe (Decrypting bytes err) "" None true true)
          | _ => inl ErrNotAFile
          end
      end
  end.

(** The first file with content that is small enough is decrypted; that it comes up short is no
    failure. *)
Definition e_VerifyCanary (v : encrypted) : option vault_error :=
  match backup_of v with
  | inl e => Some e
  | inr b =>
      let '(entries, err) := lib_List b "" "" in
      match filter (λ e, (le_Flags e =? flagFile) && (0 <? le_Size e) && (le_Size e <=? canaryMaxBytes) = true) entries with
      | e :: _ =>
          match (lib_DecryptFile b (le_FileID e)).2 with
          | None | Some LibIncompleteFile => None
          | Some err => Some (translate err)
          end
      | [] => match err with Some err => Some (translate err) | None => Some ErrNoCanary end
      end
  end.

Definition e_Aggregate (v : encrypted) : vault_error + Totals :=
  match backup_of v with
  | inl e => inl e
  | inr b =>
      let '(entries, err) := iterate b "" "" in
      match err with
      | Some e => inl e
      | None => inr (acc_totals (foldl (λ a e, acc_add a (fe_Domain e) (fe_Size e)) ∅ entries))
      end
  end.

Definition e_Close (v : encrypted) : encrypted := mkEncrypted (e_dir v) None true.

End Encrypted.

(** ** What reads pages *)

(** A file's id by its domain and path ([resolvePath]): the pages of a vault until one has it.  The
    number of files is enough fuel. *)
Fixpoint resolvePath (fuel : nat) (List : Query → vault_error + Page) (domain relativePath cursor : string) : option (vault_error + string) :=
  match fuel with
  | O => None
  | S fuel =>
      match List (mkQuery domain relativePath cursor 0) with
      | inl e => Some (inl e)
      | inr page =>
          match filter (λ e, fe_Domain e = domain ∧ fe_RelativePath e = relativePath) (p_Entries page) with
          | e :: _ => Some (inr (fe_FileID e))
          | [] =>
              if String.eqb (p_NextCursor page) "" then Some (inl ErrFileNotFound)
              else resolvePath fuel List domain relativePath (p_NextCursor page)
          end
      end
  end.

(** A client that follows the cursors: everything that it is shown. *)
Fixpoint browse (fuel : nat) (List : Query → vault_error + Page) (q : Query) : option (list FileEntry) :=
  match fuel with
  | O => None
  | S fuel =>
      match List q with
      | inl _ => None
      | inr page =>
          if String.eqb (p_NextCursor page) "" then Some (p_Entries page)
          else more ← browse fuel List (mkQuery (q_Domain q) (q_Prefix q) (p_NextCursor page) (q_Limit q));
               Some (p_Entries page ++ more)
      end
  end.

(** *** On the wire *)

Record WireFileEntry : Type := mkWireEntry {
  we_FileID : string; we_Domain : string; we_RelativePath : string; we_Kind : string; we_Size : Z; we_Mtime : string;
  we_Incomplete : bool; we_Overlong : bool }.
Definition kind_string (k : Kind) : string :=
  match k with KindFile => "file" | KindDir => "dir" | KindSymlink => "symlink" end.
Definition toWireEntry (e : FileEntry) (incomplete overlong : bool) : WireFileEntry :=
  mkWireEntry (fe_FileID e) (fe_Domain e) (fe_RelativePath e) (kind_string (fe_Kind e)) (fe_Size e)
    (if is_zero_time (fe_MTime e) then "" else fmt_rfc3339 (fe_MTime e)) incomplete overlong.

Record BrowsePage : Type := mkBrowsePage { bp_Entries : list WireFileEntry; bp_NextCursor : string; bp_EffectiveLimit : Z }.
Definition toWirePage (p : Page) (incomplete overlong : gset string) : BrowsePage :=
  mkBrowsePage
    ((λ e, toWireEntry e (bool_decide (fe_FileID e ∈ incomplete)) (bool_decide (fe_FileID e ∈ overlong))) <$> p_Entries p)
    (p_NextCursor p) (p_EffectiveLimit p).

Record DomainSummary : Type := mkDomainSummary { ds_Domain : string; ds_Files : Z; ds_Bytes : Z }.
Record Overview : Type := mkOverview {
  ov_Items : list DomainSummary; ov_NextCursor : string; ov_Files : Z; ov_Bytes : Z; ov_DomainCount : Z }.

(** The place after the first domain of a name; the start when none has it. *)
Fixpoint after_domain (name : string) (i : nat) (domains : list DomainTotals) : nat :=
  match domains with
  | [] => 0
  | d :: domains => if String.eqb (dt_Domain d) name then S i else after_domain name (S i) domains
  end.

Definition toWireOverview (t : Totals) (cursor : string) (limit : Z) : Overview :=
  let '(limit, _) := ClampLimit limit in
  let start := if String.eqb cursor "" then 0%nat else after_domain cursor 0 (t_Domains t) in
  let stop := Nat.min (start + Z.to_nat limit) (length (t_Domains t)) in
  let items := take (stop - start) (drop start (t_Domains t)) in
  mkOverview ((λ d, mkDomainSummary (dt_Domain d) (dt_Files d) (dt_Bytes d)) <$> items)
    (if Nat.ltb stop (length (t_Domains t))
     then from_option dt_Domain EmptyString (t_Domains t !! (stop - 1)%nat) else EmptyString)
    (t_TotalFiles t) (t_TotalBytes t) (Z.of_nat (length (t_Domains t))).
