(* ===== verification/VaultPaging.v ===== *)
(** * VaultPaging: what a client that follows the cursors is shown

    The pages of [VaultBrowse], on a backup that is encrypted and on one that is not, put together;
    the lookup of a file by its path; the reads of a file whose record and blob disagree; and what the
    overview of a version adds up to. *)

From Stdlib Require Import String Ascii.
From stdpp Require Import pretty.
From S2P Require Import Prelude Calendar Base64 Json VaultSessions VaultSafety VaultBrowse.

(** ** Cursors *)

Definition valid_cursor (c : cursor) : Prop := ValidString (c_Domain c) = true ∧ ValidString (c_Path c) = true.

Lemma encodeCursor_nonempty c : encodeCursor c ≠ EmptyString.
Proof. apply encode_nonempty. by rewrite app_String. Qed.

Lemma cursor_roundtrip c : valid_cursor c → decodeCursor (encodeCursor c) = Some c.
Proof.
  intros [Hd Hp]. unfold decodeCursor. pose proof (encodeCursor_nonempty c) as Hne. apply String.eqb_neq in Hne. rewrite Hne.
  unfold encodeCursor. rewrite decode_encode. unfold Unmarshal_strings. rewrite struct_roundtrip by done. by destruct c.
Qed.

Lemma before_lt a b : before (at_entry a) (fe_Domain b) (fe_RelativePath b) = true ↔ entry_lt a b.
Proof.
  unfold before, entry_lt, str_lt. cbn. destruct (String.eqb_spec (fe_Domain a) (fe_Domain b)) as [Heq|Hne].
  - rewrite Heq. pose proof (irreflexivity str_lt (fe_Domain b)) as Hirr. unfold complement, str_lt in Hirr. naive_solver.
  - naive_solver.
Qed.

(** ** Following the cursors *)

Section following.
Context (List : Query → vault_error + Page) (domain prefix : string) (limit : Z) (shown : list FileEntry) (n : nat).

(** A cursor and what comes after it. *)
Definition position (c : string) (rest : list FileEntry) : Prop :=
  (c = EmptyString ∧ rest = shown) ∨ ∃ pre e, shown = pre ++ e :: rest ∧ c = encodeCursor (at_entry e).

(** A page says what follows, and where to go on unless it is the end. *)
Definition good_page (rest : list FileEntry) (page : Page) : Prop :=
  p_Entries page = take n rest ∧
  (p_NextCursor page = EmptyString ∧ (length rest <= n)%nat ∨
   ∃ e, last (take n rest) = Some e ∧ (n <= length rest)%nat ∧ p_NextCursor page = encodeCursor (at_entry e)).

Context (n_pos : (1 <= n)%nat).
Context (pages : ∀ c rest, position c rest → ∃ page, List (mkQuery domain prefix c limit) = inr page ∧ good_page rest page).

Lemma position_next c rest e : position c rest → last (take n rest) = Some e → position (encodeCursor (at_entry e)) (drop n rest).
Proof.
  intros Hpos [pre' Hlast]%last_Some. right. assert (rest = pre' ++ e :: drop n rest) as Hrest.
  { rewrite <-(take_drop n rest) at 1. rewrite Hlast, <-app_assoc. done. }
  destruct Hpos as [[_ ->]|(pre & e0 & -> & _)].
  - by exists pre', e.
  - exists (pre ++ e0 :: pre'), e. split; [|done]. rewrite Hrest at 1. by rewrite <-app_assoc.
Qed.

(** What is done page by page: each page is looked at, or the rest of the pages. *)
Lemma following c rest : position c rest →
  ∃ page, List (mkQuery domain prefix c limit) = inr page ∧ p_Entries page = take n rest ∧
    (p_NextCursor page = EmptyString ∧ drop n rest = [] ∨
     p_NextCursor page ≠ EmptyString ∧ (length (drop n rest) < length rest)%nat ∧ position (p_NextCursor page) (drop n rest)).
Proof.
  intros Hpos. destruct (pages c rest Hpos) as (page & HL & He & Hor). exists page. split; [done|]. split; [done|].
  destruct Hor as [[Hn Hle]|(e & Hlast & Hle & Hn)]; [left|right].
  - split; [done|]. by apply drop_ge.
  - rewrite Hn. split; [apply encodeCursor_nonempty|]. split; [rewrite length_drop; lia|by eapply position_next].
Qed.

Lemma browse_rest fuel c rest : position c rest → (length rest < fuel)%nat →
  browse fuel List (mkQuery domain prefix c limit) = Some rest.
Proof.
  revert c rest. induction fuel as [|fuel IH]; intros c rest Hpos Hlt; [lia|].
  destruct (following c rest Hpos) as (page & HL & He & [[Hn Hd]|(Hn & Hlen & Hpos')]); cbn [browse]; rewrite HL.
  - rewrite Hn, He. cbn. f_equal. rewrite <-(take_drop n rest) at 2. by rewrite Hd, app_nil_r.
  - apply String.eqb_neq in Hn. rewrite Hn. cbn [q_Domain q_Prefix q_Limit]. rewrite (IH _ _ Hpos') by lia. cbn. by rewrite He, take_drop.
Qed.

End following.

Lemma resolve_rest List domain path shown n fuel c rest : (1 <= n)%nat →
  (∀ c rest, position shown c rest → ∃ page, List (mkQuery domain path c 0) = inr page ∧ good_page n rest page) →
  position shown c rest → (length rest < fuel)%nat →
  resolvePath fuel List domain path c =
    Some match filter (λ e, fe_Domain e = domain ∧ fe_RelativePath e = path) rest with
         | e :: _ => inr (fe_FileID e)
         | [] => inl ErrFileNotFound
         end.
Proof.
  intros Hn Hpages. revert c rest. induction fuel as [|fuel IH]; intros c rest Hpos Hlt; [lia|].
  destruct (following List domain path 0 shown n Hn Hpages c rest Hpos) as (page & HL & He & Hor). cbn [resolvePath].
  rewrite HL, He. rewrite <-(take_drop n rest) at 2. rewrite filter_app.
  destruct (filter _ (take n rest)) as [|e es]; [|done]. cbn [app].
  destruct Hor as [[Hnext Hd]|(Hnext & Hlen & Hpos')].
  - by rewrite Hnext, Hd.
  - apply String.eqb_neq in Hnext. rewrite Hnext. apply IH; [done|lia].
Qed.

(** ** The prefix as a range *)

Lemma has_prefix_cons c d s p : has_prefix (String d s) (String c p) = Ascii.eqb c d && has_prefix s p.
Proof.
  unfold has_prefix. cbn [String.prefix]. destruct (ascii_dec c d) as [->|Hne]; [by rewrite Ascii.eqb_refl|].
  apply Ascii.eqb_neq in Hne. by rewrite Hne.
Qed.

Lemma str_ltb_cons c d s p : str_ltb (String c s) (String d p) =
  if Z_of_char c =? Z_of_char d then str_ltb s p else Z_of_char c <? Z_of_char d.
Proof. done. Qed.

Lemma char_eqb_Z c d : Ascii.eqb c d = (Z_of_char c =? Z_of_char d).
Proof.
  destruct (Ascii.eqb_spec c d) as [->|Hne]; [by rewrite Z.eqb_refl|]. symmetry. apply Z.eqb_neq. by intros ?%Z_of_char_inj.
Qed.

(** The range of [List] is exactly what begins with the prefix, bytes of 255 included. *)
Lemma prefix_range p s : has_prefix s p =
  negb (str_ltb s p) && match prefixEnd p with Some bound => str_ltb s bound | None => true end.
Proof.
  revert s. induction p as [|c p IH]; intros s; [by destruct s|]. destruct s as [|d s]; [done|].
  rewrite has_prefix_cons, char_eqb_Z, IH, str_ltb_cons, (Z.eqb_sym (Z_of_char d)). cbn [prefixEnd].
  pose proof (char_range c). pose proof (char_range d). destruct (prefixEnd p) as [bound|].
  - rewrite str_ltb_cons, (Z.eqb_sym (Z_of_char d)). destruct (Z.eqb_spec (Z_of_char c) (Z_of_char d)); [done|]. cbn.
    destruct (Z.ltb_spec (Z_of_char d) (Z_of_char c)); [done|]. cbn. lia.
  - destruct (Z.ltb_spec (Z_of_char c) 255) as [Hlt|Hge].
    + assert (Z_of_char (char_of_Z (Z_of_char c + 1)) = Z_of_char c + 1) as Hs by (apply Z_of_char_of_Z; lia).
      rewrite str_ltb_cons, Hs. destruct (Z.eqb_spec (Z_of_char c) (Z_of_char d)) as [He|Hne]; cbn.
      * replace (Z_of_char d =? Z_of_char c + 1) with false by lia. replace (Z_of_char d <? Z_of_char c + 1) with true by lia. done.
      * destruct (Z.eqb_spec (Z_of_char d) (Z_of_char c + 1)); [|lia]. replace (Z_of_char d <? Z_of_char c) with false by lia.
        destruct s; done.
    + destruct (Z.eqb_spec (Z_of_char c) (Z_of_char d)) as [He|Hne]; cbn.
      * by rewrite andb_true_r.
      * by replace (Z_of_char d <? Z_of_char c) with true by lia.
Qed.

(** ** Order *)

#[local] Instance entry_lt_trans : Transitive entry_lt.
Proof. intros a b c [H1|[H1 H1']] [H2|[H2 H2']]; [left; by etrans|left; by rewrite <-H2|left; by rewrite H1|right; split; by etrans]. Qed.
Lemma entry_lt_irrefl a : ¬ entry_lt a a.
Proof. intros [H|[_ H]]; by eapply (irreflexivity str_lt). Qed.
#[local] Instance entry_lt_antisym : AntiSymm (=) entry_lt.
Proof. intros a b H1 H2. destruct (entry_lt_irrefl a). by etrans. Qed.

#[local] Instance row_le_trans : Transitive row_le.
Proof. intros a b c [H1|[H1 H1']] [H2|[H2 H2']]; [left; by etrans|left; by rewrite <-H2|left; by rewrite H1|right; split; by etrans]. Qed.
#[local] Instance row_le_total : Total row_le.
Proof.
  intros a b. unfold row_le. destruct (str_lt_total (f_domain a) (f_domain b)) as [?|[?|?]]; auto.
  destruct (total str_le (f_relativePath a) (f_relativePath b)); auto.
Qed.

(** Where a row is named; no two rows of a manifest have the same domain and path. *)
Definition row_key (r : row) : string * string := (f_domain r, f_relativePath r).
Definition row_lt (a b : row) : Prop :=
  str_lt (f_domain a) (f_domain b) ∨ (f_domain a = f_domain b ∧ str_lt (f_relativePath a) (f_relativePath b)).

Lemma row_le_lt a b : row_le a b → row_key a ≠ row_key b → row_lt a b.
Proof. intros [H|[H1 H2%str_le_lteq]] Hne; [by left|right]. split; [done|]. destruct H2 as [?|?]; [done|]. destruct Hne. unfold row_key. congruence. Qed.

Section order.
Context `{!RecordDecoder, !SortSlice}.

Lemma scan_lt a b : row_lt a b → entry_lt (scanEntry a) (scanEntry b).
Proof. unfold scanEntry, row_lt, entry_lt. by destruct (default _ _), (default _ _). Qed.
Lemma scan_key r : fe_Domain (scanEntry r) = f_domain r ∧ fe_RelativePath (scanEntry r) = f_relativePath r ∧ fe_FileID (scanEntry r) = f_fileID r.
Proof. unfold scanEntry. by destruct (default _ _). Qed.

Lemma strictly_sorted rows : StronglySorted row_le rows → NoDup (row_key <$> rows) → StronglySorted entry_lt (scanEntry <$> rows).
Proof.
  induction 1 as [|r rows _ IH Hall]; cbn; [constructor|]. intros [Hno Hnd]%NoDup_cons. constructor; [by apply IH|].
  apply Forall_fmap. apply Forall_forall. intros r' Hin. cbn. apply scan_lt, row_le_lt.
  - rewrite Forall_forall in Hall. by apply Hall.
  - intros Heq. apply Hno. rewrite Heq. by apply list_elem_of_fmap_2.
Qed.

Lemma NoDup_key_filter P `{!∀ r, base.Decision (P r)} rows : NoDup (row_key <$> rows) → NoDup (row_key <$> filter P rows).
Proof.
  induction rows as [|r rows IH]; [done|]. cbn [fmap list_fmap]. intros [Hno Hnd]%NoDup_cons. rewrite filter_cons.
  destruct (decide (P r)); [|by apply IH]. cbn [fmap list_fmap]. apply NoDup_cons. split; [|by apply IH].
  intros (r' & Heq & [_ Hin]%list_elem_of_filter)%list_elem_of_fmap. apply Hno. rewrite Heq. by apply list_elem_of_fmap_2.
Qed.

(** The index in order: what is selected and then ordered is what is ordered and then selected. *)
Definition ordered (rows : list row) : list FileEntry := scanEntry <$> sort_slice row_le rows.

Lemma ordered_sorted rows : NoDup (row_key <$> rows) → StronglySorted entry_lt (ordered rows).
Proof.
  intros Hnd. apply strictly_sorted; [apply sort_slice_sorted; apply _|].
  by rewrite (fmap_Permutation row_key _ _ (sort_slice_perm row_le rows)).
Qed.

Lemma StronglySorted_filter' {A} (R : relation A) P `{!∀ x, base.Decision (P x)} l : StronglySorted R l → StronglySorted R (filter P l).
Proof.
  induction 1 as [|x l _ IH Hall]; [constructor|]. rewrite filter_cons. destruct (decide (P x)); [|done]. constructor; [done|].
  rewrite Forall_forall in *. intros y [_ Hin]%list_elem_of_filter. by apply Hall.
Qed.

Lemma filter_fmap {A B} (f : A → B) (P : B → Prop) `{!∀ x, base.Decision (P x)} (l : list A) : filter P (f <$> l) = f <$> filter (λ x, P (f x)) l.
Proof. induction l as [|x l IH]; [done|]. cbn [fmap list_fmap]. rewrite !filter_cons. destruct (decide (P (f x))); cbn; by rewrite IH. Qed.

Lemma ordered_filter P `{!∀ e, base.Decision (P e)} rows : NoDup (row_key <$> rows) →
  ordered (filter (λ r, P (scanEntry r)) rows) = filter P (ordered rows).
Proof.
  intros Hnd. apply (StronglySorted_unique entry_lt).
  - by apply ordered_sorted, NoDup_key_filter.
  - by apply StronglySorted_filter', ordered_sorted.
  - unfold ordered. rewrite !sort_slice_perm. by rewrite filter_fmap.
Qed.

End order.

Lemma filter_none {A} P `{!∀ x, base.Decision (P x)} (l : list A) : (∀ x, x ∈ l → ¬ P x) → filter P l = [].
Proof.
  induction l as [|x l IH]; intros Hall; [done|]. rewrite filter_cons, decide_False by (apply Hall; left).
  apply IH. intros y Hy. apply Hall. by right.
Qed.
Lemma filter_every {A} P `{!∀ x, base.Decision (P x)} (l : list A) : (∀ x, x ∈ l → P x) → filter P l = l.
Proof.
  induction l as [|x l IH]; intros Hall; [done|]. rewrite filter_cons, decide_True by (apply Hall; left).
  f_equal. apply IH. intros y Hy. apply Hall. by right.
Qed.

(** What lies after an entry of a strictly ordered list. *)
Lemma after_entry pre e rest : StronglySorted entry_lt (pre ++ e :: rest) →
  filter (λ x, before (at_entry e) (fe_Domain x) (fe_RelativePath x) = true) (pre ++ e :: rest) = rest.
Proof.
  intros Hs. assert (∀ x y, x ∈ pre → y ∈ e :: rest → entry_lt x y) as Hpre by (intros; by eapply StronglySorted_app_1_elem_of).
  apply StronglySorted_app_1_r in Hs. apply StronglySorted_inv in Hs as [_ Hall]. rewrite Forall_forall in Hall.
  rewrite filter_app, filter_cons. rewrite (filter_none _ pre).
  - rewrite decide_False by (rewrite before_lt; apply entry_lt_irrefl). cbn. apply filter_every. intros x Hin. by apply before_lt, Hall.
  - intros x Hin. rewrite before_lt. intros Hlt. apply (entry_lt_irrefl x). etrans; [|exact Hlt]. apply Hpre; [done|left].
Qed.

(** ** The pages of the two backups *)

Section backups.
Context `{!RecordDecoder, !SortSlice, !MapRange}.

Lemma clamp_pos requested : (1 <= Z.to_nat (ClampLimit requested).1)%nat.
Proof. unfold ClampLimit, DefaultLimit, MaxLimit. destruct (Z.leb_spec requested 0), (Z.ltb_spec 2000 requested); cbn [fst]; lia. Qed.

Lemma fill_page limit page rows : (length page <= limit)%nat →
  fill limit page rows =
    (page ++ take (limit - length page) (scanEntry <$> rows),
     if decide (limit < length page + length rows)%nat
     then match last (page ++ take (limit - length page) (scanEntry <$> rows)) with
          | Some e => encodeCursor (at_entry e) | None => encodeCursor (mkCursor "" "") end
     else EmptyString).
Proof.
  revert page. induction rows as [|r rows IH]; intros page Hle; cbn [fill fmap list_fmap].
  - rewrite take_nil, app_nil_r, decide_False by (cbn; lia). done.
  - destruct (Nat.eqb_spec (length page) limit) as [Heq|Hne].
    + rewrite Heq, Nat.sub_diag, take_0, app_nil_r, decide_True by (cbn; lia). done.
    + rewrite IH by (rewrite length_app; cbn; lia). rewrite length_app. cbn [length].
      destruct (limit - length page)%nat as [|k] eqn:Hk; [lia|]. replace (limit - (length page + 1))%nat with k by lia.
      cbn [take]. rewrite <-app_assoc. cbn [app]. f_equal.
      destruct (decide (limit < length page + 1 + length rows)%nat), (decide (limit < length page + S (length rows))%nat); done || lia.
Qed.

(** What is shown for a domain and a prefix. *)
Definition shown_of (domain prefix : string) (rows : list row) : list FileEntry :=
  filter (λ e, asked domain prefix e = true) (ordered rows).

Definition resumes (c : string) (after : cursor) (e : FileEntry) : bool :=
  String.eqb c "" || before after (fe_Domain e) (fe_RelativePath e).

Lemma where_asked q after r : where_clause q after r =
  asked (q_Domain q) (q_Prefix q) (scanEntry r) && resumes (q_Cursor q) after (scanEntry r).
Proof.
  unfold where_clause, asked, resumes, before. destruct (scan_key r) as (-> & -> & _). f_equal; [f_equal|f_equal].
  - destruct (String.eqb_spec (q_Prefix q) "") as [->|_]; [by destruct (f_relativePath r)|]. cbn. by rewrite <-prefix_range.
  - rewrite (String.eqb_sym (f_domain r)). destruct (String.eqb_spec (c_Domain after) (f_domain r)) as [->|_]; cbn; [|by rewrite orb_false_r].
    pose proof (irreflexivity str_lt (f_domain r)) as Hirr. unfold complement, str_lt in Hirr. by destruct (str_ltb _ (f_domain r)).
Qed.

(** The entries from a position on are those that the cursor leaves. *)
Lemma position_resumes shown c rest after : StronglySorted entry_lt shown → Forall (λ e, valid_cursor (at_entry e)) shown →
  position shown c rest → decodeCursor c = Some after → filter (λ e, resumes c after e = true) shown = rest.
Proof.
  intros Hs Hv [[-> ->]|(pre & e & -> & ->)].
  - intros _. apply filter_every. done.
  - assert (valid_cursor (at_entry e)) as He by (rewrite Forall_forall in Hv; apply Hv, elem_of_app; right; left).
    rewrite cursor_roundtrip by done. intros [= <-]. rewrite <-(after_entry pre e rest Hs) at 2. apply list_filter_iff. intros x.
    unfold resumes. pose proof (encodeCursor_nonempty (at_entry e)) as Hne. apply String.eqb_neq in Hne. by rewrite Hne.
Qed.

Lemma position_decodes shown c rest : Forall (λ e, valid_cursor (at_entry e)) shown → position shown c rest → is_Some (decodeCursor c).
Proof.
  intros Hv [[-> _]|(pre & e & -> & ->)]; [by eexists|]. rewrite cursor_roundtrip; [by eexists|].
  rewrite Forall_forall in Hv. apply Hv, elem_of_app. right. left.
Qed.

Definition valid_row (r : row) : Prop := ValidString (f_domain r) = true ∧ ValidString (f_relativePath r) = true.

Lemma ordered_valid rows : Forall valid_row rows → Forall (λ e, valid_cursor (at_entry e)) (ordered rows).
Proof.
  intros Hv. unfold ordered. apply Forall_fmap. rewrite sort_slice_perm. eapply Forall_impl; [exact Hv|].
  intros r [Hd Hp]. unfold valid_cursor. cbn. destruct (scan_key r) as (-> & -> & _). done.
Qed.

Lemma filter_and {A} (f g : A → bool) (l : list A) :
  filter (λ x, f x && g x = true) l = filter (λ x, g x = true) (filter (λ x, f x = true) l).
Proof. rewrite list_filter_filter. apply list_filter_iff. intros x. rewrite andb_true_iff. tauto. Qed.

Lemma last_take {A} n (l : list A) : (1 <= n)%nat → l ≠ [] → is_Some (last (take n l)).
Proof. intros Hn Hl. apply last_is_Some. destruct l; [done|]. destruct n; [lia|done]. Qed.

(** A page of a backup that is not encrypted. *)
Lemma u_page u rows domain prefix c rest limit : index_of u = inr rows → NoDup (row_key <$> rows) → Forall valid_row rows →
  position (shown_of domain prefix rows) c rest →
  ∃ page, u_List u (mkQuery domain prefix c limit) = inr page ∧ good_page (Z.to_nat (ClampLimit limit).1) rest page.
Proof.
  intros Hu Hnd Hv Hpos. set (shown := shown_of domain prefix rows) in *.
  assert (StronglySorted entry_lt shown) as Hs by (by apply StronglySorted_filter', ordered_sorted).
  assert (Forall (λ e, valid_cursor (at_entry e)) shown) as Hvs.
  { rewrite Forall_forall. intros e [_ Hin]%list_elem_of_filter. pose proof (ordered_valid rows Hv) as Ho. rewrite Forall_forall in Ho. by apply Ho. }
  destruct (position_decodes _ _ _ Hvs Hpos) as [after Hafter]. unfold u_List. rewrite Hu. cbn [q_Cursor q_Limit]. rewrite Hafter.
  pose proof (clamp_pos limit) as Hn. destruct (ClampLimit limit) as [n' clamped]. cbn [fst] in *. set (n := Z.to_nat n') in *.
  assert (scanEntry <$> select_page rows (mkQuery domain prefix c limit) after n = take (S n) rest) as Hsel.
  { unfold select_page. rewrite fmap_take. f_equal.
    rewrite (list_filter_iff _ (λ r, asked domain prefix (scanEntry r) && resumes c after (scanEntry r) = true) rows) by (intros r; by rewrite where_asked).
    rewrite <-(position_resumes shown c rest after Hs Hvs Hpos Hafter). unfold shown, shown_of. rewrite <-filter_and.
    exact (ordered_filter (λ e, asked domain prefix e && resumes c after e = true) rows Hnd). }
  rewrite fill_page by (cbn; lia). cbn [length app]. rewrite Nat.sub_0_r, Hsel, take_take, Nat.min_l by lia.
  assert (length (select_page rows (mkQuery domain prefix c limit) after n) = Nat.min (S n) (length rest)) as Hlen.
  { rewrite <-(length_fmap scanEntry), Hsel. apply length_take. }
  rewrite Hlen. eexists. split; [done|]. split; [done|]. cbn [p_NextCursor].
  destruct (decide (n < 0 + Nat.min (S n) (length rest))%nat) as [Hlt|Hge]; [right|left; split; [done|lia]].
  destruct (last_take n rest) as [e He]; [done|destruct rest; [cbn in Hlt; lia|done]|]. exists e. rewrite He. split; [done|]. split; [lia|done].
Qed.

End backups.

Section encrypted.
Context `{!BackupLibrary}.

Lemma walk_resume limit after page L : walk_page limit (Some after) page L =
  walk_page limit None page (filter (λ e, before after (fe_Domain e) (fe_RelativePath e) = true) L).
Proof.
  revert page. induction L as [|e L IH]; intros page; [done|]. rewrite filter_cons. cbn [walk_page].
  destruct (before after (fe_Domain e) (fe_RelativePath e)) eqn:Hb; cbn [negb].
  - rewrite decide_True by done. cbn [walk_page]. by rewrite IH.
  - rewrite decide_False by done. apply IH.
Qed.

Lemma walk_all limit page L : (length page < limit)%nat →
  walk_page limit None page L =
    (page ++ take (limit - length page) L,
     if decide (limit <= length page + length L)%nat
     then match last (page ++ take (limit - length page) L) with Some e => encodeCursor (at_entry e) | None => EmptyString end
     else EmptyString,
     negb (bool_decide (limit <= length page + length L)%nat)).
Proof.
  revert page. induction L as [|e L IH]; intros page Hlt; cbn [walk_page].
  - rewrite take_nil, app_nil_r, decide_False, bool_decide_false by (cbn; lia). done.
  - rewrite length_app. cbn [length]. destruct (limit - length page)%nat as [|k] eqn:Hk; [lia|]. cbn [take].
    destruct (Nat.eqb_spec (length page + 1) limit) as [Heq|Hne].
    + replace k with 0%nat by lia. rewrite take_0, decide_True, bool_decide_true, last_snoc by lia. done.
    + rewrite IH by (rewrite length_app; cbn; lia). rewrite length_app. cbn [length].
      replace (limit - (length page + 1))%nat with k by lia. rewrite <-app_assoc. cbn [app].
      replace (length page + 1 + length L)%nat with (length page + S (length L))%nat by lia. done.
Qed.

Lemma e_page v b domain prefix c rest limit shown : backup_of v = inr b → iterate b domain prefix = (shown, None) →
  StronglySorted entry_lt shown → Forall (λ e, valid_cursor (at_entry e)) shown → position shown c rest →
  ∃ page, e_List v (mkQuery domain prefix c limit) = inr page ∧ good_page (Z.to_nat (ClampLimit limit).1) rest page.
Proof.
  intros Hb HL Hs Hv Hpos. destruct (position_decodes _ _ _ Hv Hpos) as [after Hafter].
  unfold e_List. rewrite Hb. cbn [q_Cursor q_Limit q_Domain q_Prefix]. rewrite Hafter, HL.
  pose proof (clamp_pos limit) as Hn. destruct (ClampLimit limit) as [n' clamped]. cbn [fst] in *. set (n := Z.to_nat n') in *.
  assert (walk_page n (if String.eqb c "" then None else Some after) [] shown = walk_page n None [] rest) as ->.
  { rewrite <-(position_resumes shown c rest after Hs Hv Hpos Hafter). unfold resumes. destruct (String.eqb c ""); [|apply walk_resume].
    f_equal. symmetry. by apply filter_every. }
  rewrite walk_all by (cbn; lia). cbn [length app]. rewrite Nat.sub_0_r, Nat.add_0_l. eexists. split; [by destruct (negb _)|].
  split; [done|]. cbn [p_NextCursor]. destruct (decide (n <= length rest)%nat) as [Hle|]; [right|left; split; [done|lia]].
  destruct (last_take n rest) as [e He]; [done|destruct rest; [cbn in Hle; lia|done]|]. exists e. by rewrite He.
Qed.

End encrypted.

(** ** Completeness *)

Section complete.
Context `{!RecordDecoder, !SortSlice, !MapRange, !BackupLibrary, !BackupLibraryLaw}.

Lemma shown_iff domain prefix rows e :
  e ∈ shown_of domain prefix rows ↔ ∃ r, r ∈ rows ∧ e = scanEntry r ∧ asked domain prefix e = true.
Proof.
  unfold shown_of, ordered. rewrite list_elem_of_filter, list_elem_of_fmap. setoid_rewrite (sort_slice_perm row_le rows). naive_solver.
Qed.

Lemma shown_sorted domain prefix rows : NoDup (row_key <$> rows) → StronglySorted entry_lt (shown_of domain prefix rows).
Proof. intros Hnd. by apply StronglySorted_filter', ordered_sorted. Qed.

Lemma shown_length domain prefix rows : (length (shown_of domain prefix rows) <= length rows)%nat.
Proof.
  unfold shown_of. etrans; [apply length_filter|]. unfold ordered. rewrite length_fmap. by rewrite (Permutation_length (sort_slice_perm row_le rows)).
Qed.

Lemma shown_valid domain prefix rows : Forall valid_row rows → Forall (λ e, valid_cursor (at_entry e)) (shown_of domain prefix rows).
Proof.
  intros Hv. rewrite Forall_forall. intros e [_ Hin]%list_elem_of_filter. pose proof (ordered_valid rows Hv) as Ho.
  rewrite Forall_forall in Ho. by apply Ho.
Qed.

(** The library's backup holds the index, in whatever order it is scanned. *)
Definition same_index (b : Backup) (rows : list row) : Prop :=
  (iterate b "" "").1 ≡ₚ (scanEntry <$> rows) ∧ (iterate b "" "").2 = None.
(** What is asked for comes in order: it is narrowed, or the library scans in order. *)
Definition in_order (b : Backup) (domain prefix : string) : Prop :=
  narrowed domain prefix ∨ StronglySorted entry_lt (iterate b "" "").1.

(** Its answer for a domain and a prefix. *)
Lemma lib_shown b rows domain prefix : same_index b rows → in_order b domain prefix → NoDup (row_key <$> rows) →
  iterate b domain prefix = (shown_of domain prefix rows, None).
Proof.
  intros [Hp Hnone] Ho Hnd. destruct (lib_narrows b domain prefix) as [He Hf]. rewrite Hnone in He.
  assert (StronglySorted entry_lt (iterate b domain prefix).1) as Hs.
  { destruct (decide (domain = ""%string ∧ prefix = ""%string)) as [[-> ->]|Hn]; [|apply lib_sorted; unfold narrowed; destruct (decide (domain = ""%string)); [right|left]; naive_solver].
    destruct Ho as [[Hn|Hn]|Hs]; done. }
  destruct (iterate b domain prefix) as [entries err]. cbn [fst snd] in He, Hf, Hs. subst err. f_equal.
  apply (StronglySorted_unique entry_lt); [done|by apply shown_sorted|].
  rewrite Hf, Hp. unfold shown_of, ordered. by rewrite (sort_slice_perm row_le rows).
Qed.

Lemma e_pages v b rows domain prefix limit : backup_of v = inr b → same_index b rows → in_order b domain prefix →
  NoDup (row_key <$> rows) → Forall valid_row rows → ∀ c rest, position (shown_of domain prefix rows) c rest →
  ∃ page, e_List v (mkQuery domain prefix c limit) = inr page ∧ good_page (Z.to_nat (ClampLimit limit).1) rest page.
Proof.
  intros Hb HL Ho Hnd Hv c rest. apply (e_page v b); [done|by apply lib_shown|by apply shown_sorted|by apply shown_valid].
Qed.

Lemma row_of_key rows r r' : NoDup (row_key <$> rows) → r ∈ rows → r' ∈ rows → row_key r = row_key r' → r = r'.
Proof.
  intros Hnd Hr Hr' Hk. apply list_elem_of_lookup in Hr as [i Hi]. apply list_elem_of_lookup in Hr' as [j Hj].
  assert (i = j) as <- by (eapply (NoDup_lookup (row_key <$> rows)); [done|by rewrite list_lookup_fmap, Hi|by rewrite list_lookup_fmap, Hj, Hk]).
  congruence.
Qed.

Lemma has_prefix_self s : has_prefix s s = true.
Proof. induction s as [|c s IH]; [done|]. by rewrite has_prefix_cons, Ascii.eqb_refl. Qed.

Lemma found_row rows domain path : NoDup (row_key <$> rows) →
  match filter (λ e, fe_Domain e = domain ∧ fe_RelativePath e = path) (shown_of domain path rows) with
  | e :: _ => inr (fe_FileID e)
  | [] => inl ErrFileNotFound
  end = match filter (λ r, row_key r = (domain, path)) rows with
        | r :: _ => inr (f_fileID r) | [] => inl ErrFileNotFound end.
Proof.
  intros Hnd. destruct (filter (λ e, _ ∧ _) _) as [|e es] eqn:He; destruct (filter (λ r, row_key r = _) rows) as [|r rs] eqn:Hr; [done|..].
  - assert (r ∈ filter (λ r, row_key r = (domain, path)) rows) as [Hk Hin]%list_elem_of_filter by (rewrite Hr; left).
    assert (scanEntry r ∈ filter (λ e, fe_Domain e = domain ∧ fe_RelativePath e = path) (shown_of domain path rows)) as Hin'; [|rewrite He in Hin'; by apply elem_of_nil in Hin'].
    destruct (scan_key r) as (H1' & H2' & _). unfold row_key in Hk. apply list_elem_of_filter. split; [split; congruence|].
    apply shown_iff. exists r. split; [done|]. split; [done|]. unfold asked. rewrite H1', H2'. injection Hk as -> ->.
    by rewrite String.eqb_refl, has_prefix_self, orb_true_r.
  - assert (e ∈ filter (λ e, fe_Domain e = domain ∧ fe_RelativePath e = path) (shown_of domain path rows)) as [[Hd Hp] (r & Hin & -> & _)%shown_iff]%list_elem_of_filter by (rewrite He; left).
    destruct (scan_key r) as (H1' & H2' & _).
    assert (r ∈ filter (λ r, row_key r = (domain, path)) rows) as Hin' by (apply list_elem_of_filter; unfold row_key; split; [congruence|done]).
    rewrite Hr in Hin'. by apply elem_of_nil in Hin'.
  - assert (e ∈ filter (λ e, fe_Domain e = domain ∧ fe_RelativePath e = path) (shown_of domain path rows)) as [[Hd Hp] (r' & Hin & -> & _)%shown_iff]%list_elem_of_filter by (rewrite He; left).
    assert (r ∈ filter (λ r, row_key r = (domain, path)) rows) as [Hk Hin']%list_elem_of_filter by (rewrite Hr; left).
    destruct (scan_key r') as (H1' & H2' & ->). do 2 f_equal. apply (row_of_key rows); [done..|]. unfold row_key in *. congruence.
Qed.

(** C40: A client that follows the cursors is shown the index exactly.  In an index whose names are UTF-8 and
    whose domains and paths tell its rows apart: on a backup that is not encrypted, whatever the page
    size, the pages put together are the entries of the domain and with the prefix that were asked for,
    each once, in the order of domain and path, and there
    are no more pages than entries and one; no page ever leads back.  So it is on an encrypted backup
    whose library has the same index, for a query with a domain or a prefix; for one with neither, if
    the library scans the whole backup in that order. *)
Theorem browse_complete u v b rows domain prefix limit :
  index_of u = inr rows → backup_of v = inr b → same_index b rows →
  NoDup (row_key <$> rows) → Forall valid_row rows → let shown := shown_of domain prefix rows in
  browse (S (length rows)) (u_List u) (mkQuery domain prefix "" limit) = Some shown ∧
  (in_order b domain prefix → browse (S (length rows)) (e_List v) (mkQuery domain prefix "" limit) = Some shown) ∧
  StronglySorted entry_lt shown ∧
  ∀ e, e ∈ shown ↔ ∃ r, r ∈ rows ∧ e = scanEntry r ∧ asked domain prefix e = true.
Proof.
  intros Hu Hb HL Hnd Hv shown. pose proof (shown_length domain prefix rows) as Hlen. fold shown in Hlen.
  split; [|split; [intros Ho|split; [by apply shown_sorted|apply shown_iff]]];
    (eapply (browse_rest _ domain prefix limit shown (Z.to_nat (ClampLimit limit).1)); [apply clamp_pos| |by left|lia]).
  - intros c rest. by apply u_page.
  - intros c rest. by apply (e_pages v b).
Qed.

(** A file that is named by its domain and its path is the one of exactly that name, never one
    whose path merely begins so, and it is found on whatever page it is; with none, the answer is
    that there is none. *)
Theorem resolvePath_exact u v b rows domain path :
  index_of u = inr rows → backup_of v = inr b → same_index b rows → narrowed domain path →
  NoDup (row_key <$> rows) → Forall valid_row rows →
  let answer := match filter (λ r, row_key r = (domain, path)) rows with
                | r :: _ => inr (f_fileID r) | [] => inl ErrFileNotFound end in
  resolvePath (S (length rows)) (u_List u) domain path "" = Some answer ∧
  resolvePath (S (length rows)) (e_List v) domain path "" = Some answer.
Proof.
  intros Hu Hb HL Hn Hnd Hv answer. unfold answer. rewrite <-found_row by done. pose proof (shown_length domain path rows).
  split; (eapply (resolve_rest _ _ _ (shown_of domain path rows)); [apply (clamp_pos 0)| |by left|lia]).
  - intros c rest. by apply u_page.
  - intros c rest. apply (e_pages v b); try done. by left.
Qed.

End complete.

(** ** A file whose record and blob disagree *)

(** How a read must end that goes to the end. *)
Definition verdict (blob : string) (size : Z) : read_end :=
  if Z.of_nat (String.length blob) =? size then ReadEOF
  else if Z.of_nat (String.length blob) <? size then ReadErr ErrIncompleteFile
  else ReadErr ErrOverlongFile.

Lemma empty_length s : String.length s = 0%nat → s = EmptyString.
Proof. by destruct s. Qed.

Lemma read_all_spec sizes blob size out how : 0 ≤ size → read_all sizes (mkBounded blob size) = (out, how) →
  (∃ rest, blob = out +:+ rest) ∧ Z.of_nat (String.length out) ≤ size ∧
  (how = ReadOn ∨ how = verdict blob size ∧ out = str_first (Z.to_nat size) blob).
Proof.
  revert blob size out how. induction sizes as [|[len got] sizes IH]; intros blob size out how Hsize; cbn [read_all].
  { intros [= <- <-]. split; [by exists blob|]. split; [done|by left]. }
  unfold b_Read. cbn [b_remaining b_left]. destruct (Z.leb_spec size 0) as [Hle|Hgt].
  - assert (size = 0) as -> by lia. destruct (String.eqb_spec blob "") as [->|Hne]; intros [= <- <-].
    + split; [by exists EmptyString|]. split; [done|by right].
    + split; [by exists blob|]. split; [done|right]. unfold verdict. destruct blob as [|c blob]; [done|]. cbn [String.length].
      destruct (Z.eqb_spec (Z.of_nat (S (String.length blob))) 0); [lia|]. destruct (Z.ltb_spec (Z.of_nat (S (String.length blob))) 0); [lia|done].
  - set (len' := if size <? Z.of_nat len then Z.to_nat size else len). assert (Z.of_nat len' ≤ size) as Hlen'.
    { unfold len'. destruct (Z.ltb_spec size (Z.of_nat len)); lia. }
    destruct (Nat.eqb_spec len' 0) as [_|Hl].
    { destruct (read_all sizes (mkBounded blob size)) as [more how'] eqn:Hmore. intros [= <- <-]. rewrite app_Empty. by apply (IH blob size). }
    destruct (String.eqb_spec blob "") as [->|Hne].
    { intros [= <- <-]. split; [by exists EmptyString|]. split; [cbn; lia|right]. unfold verdict. cbn [String.length].
      destruct (Z.eqb_spec (Z.of_nat 0) size); [lia|]. destruct (Z.ltb_spec (Z.of_nat 0) size); [|lia]. split; [done|]. by destruct (Z.to_nat size). }
    set (n := Nat.min len' got). set (bytes := str_first n blob). set (left' := str_skip n blob).
    assert (blob = bytes +:+ left') as Hb by (symmetry; apply str_first_skip).
    assert (Z.of_nat (String.length bytes) ≤ size) as Hbl by (unfold bytes; rewrite str_first_length; unfold n; lia).
    destruct (read_all sizes (mkBounded left' (size - Z.of_nat (String.length bytes)))) as [more how'] eqn:Hmore.
    apply IH in Hmore as ((rest & Hrest) & Hml & Hor); [|lia]. intros [= <- <-]. split; [|split].
    + exists rest. by rewrite string_app_assoc, <-Hrest.
    + rewrite string_length_app. lia.
    + destruct Hor as [->|[Hhow Hmore]]; [by left|right]. split.
      * rewrite Hhow, Hb. unfold verdict. rewrite string_length_app, Nat2Z.inj_add.
        destruct (Z.eqb_spec (Z.of_nat (String.length left')) (size - Z.of_nat (String.length bytes))),
          (Z.eqb_spec (Z.of_nat (String.length bytes) + Z.of_nat (String.length left')) size); try lia; [done|].
        destruct (Z.ltb_spec (Z.of_nat (String.length left')) (size - Z.of_nat (String.length bytes))),
          (Z.ltb_spec (Z.of_nat (String.length bytes) + Z.of_nat (String.length left')) size); lia || done.
      * rewrite Hmore, Hb at 1. replace (Z.to_nat size) with (String.length bytes + Z.to_nat (size - Z.of_nat (String.length bytes)))%nat by lia.
        clear. generalize (Z.to_nat (size - Z.of_nat (String.length bytes))) as k. intros k.
        induction bytes as [|c bytes IH]; [done|]. rewrite !app_String. cbn [String.length Nat.add str_first]. by rewrite IH.
Qed.

(** A buffer that is not empty and a system that gives something. *)
Definition makes_way (sizes : list (nat * nat)) : Prop := Forall (λ '(len, got), (1 <= len)%nat ∧ (1 <= got)%nat) sizes.

Lemma read_all_ends sizes blob size : 0 ≤ size → makes_way sizes → size < Z.of_nat (length sizes) →
  (read_all sizes (mkBounded blob size)).2 ≠ ReadOn.
Proof.
  revert blob size. induction sizes as [|[len got] sizes IH]; intros blob size Hsize Hm Hlt; [cbn in Hlt; lia|].
  apply Forall_cons in Hm as [[Hlen Hgot] Hm]. cbn [length read_all] in *. unfold b_Read. cbn [b_remaining b_left].
  destruct (Z.leb_spec size 0) as [Hle|Hgt]; [by destruct (String.eqb blob "")|].
  set (len' := if size <? Z.of_nat len then Z.to_nat size else len).
  assert ((1 <= len')%nat) as Hl by (unfold len'; destruct (Z.ltb_spec size (Z.of_nat len)); lia).
  destruct (Nat.eqb_spec len' 0) as [|_]; [lia|]. destruct (String.eqb_spec blob "") as [|Hne]; [done|].
  set (n := Nat.min len' got). rewrite str_first_length.
  assert (1 <= Nat.min n (String.length blob))%nat by (destruct blob; [done|cbn; unfold n; lia]).
  assert (Z.of_nat (Nat.min n (String.length blob)) ≤ size) by (unfold n, len'; destruct (Z.ltb_spec size (Z.of_nat len)); lia).
  specialize (IH (str_skip n blob) (size - Z.of_nat (Nat.min n (String.length blob)))).
  destruct (read_all sizes _) as [more how]. apply IH; [lia|done|lia].
Qed.

(** A file is delivered as far as its record goes and the blob has it, and the read says how the two
    disagree: at its end, as the end of the file where they agree, as incomplete where the blob is
    shorter and as overlong where it is longer.  Whatever the buffers and however little the system
    gives at a time, no byte beyond the recorded size is delivered, none is left out, and a reader
    that goes on comes to the end. *)
Theorem bounded_read sizes blob size : 0 ≤ size → makes_way sizes →
  let '(out, how) := read_all sizes (mkBounded blob size) in
  (∃ rest, blob = out +:+ rest) ∧ Z.of_nat (String.length out) ≤ size ∧
  (how ≠ ReadOn → how = verdict blob size ∧ out = str_first (Z.to_nat size) blob) ∧
  (size < Z.of_nat (length sizes) → how ≠ ReadOn).
Proof.
  intros Hsize Hm. pose proof (read_all_ends sizes blob size Hsize Hm) as Hend.
  destruct (read_all sizes (mkBounded blob size)) as [out how] eqn:Hr.
  destruct (read_all_spec _ _ _ _ _ Hsize Hr) as (H1 & H2 & H3). split_and!; [done|done| |exact Hend].
  intros Hne. by destruct H3 as [?|?].
Qed.

(** * What an overview of a version adds up to *)

(** ** Sums *)

Definition sum (l : list Z) : Z := foldr Z.add 0 l.

Lemma sum_app l k : sum (l ++ k) = sum l + sum k.
Proof. induction l as [|x l IH]; cbn in *; [done|]. unfold sum in *. lia. Qed.
Lemma sum_perm l k : l ≡ₚ k → sum l = sum k.
Proof. unfold sum. induction 1; cbn; lia. Qed.
#[local] Instance sum_proper : Proper ((≡ₚ) ==> (=)) sum.
Proof. intros l k. apply sum_perm. Qed.

(** Two numbers that wrap to the same one. *)
Definition same64 (a b : Z) : Prop := wrap64 a = wrap64 b.
Lemma wrap64_add a b c d : same64 a c → same64 b d → same64 (a + b) (c + d).
Proof. unfold same64. intros H1 H2. rewrite <-(wrap64_wrap_l a), H1, wrap64_wrap_l, Z.add_comm, <-(wrap64_wrap_l b), H2, wrap64_wrap_l. f_equal. lia. Qed.
Lemma same64_wrap a : same64 (wrap64 a) a.
Proof. apply wrap64_twice. Qed.
(** Entries as the accumulator sees them. *)
Definition tally (l : list (string * Z)) : totalsAccumulator := foldl (λ a '(domain, size), acc_add a domain size) ∅ l.
Definition of_domain (domain : string) (l : list (string * Z)) : list Z := (filter (λ x, x.1 = domain) l).*2.

Lemma tally_snoc l domain size : tally (l ++ [(domain, size)]) = acc_add (tally l) domain size.
Proof. unfold tally. by rewrite foldl_app. Qed.

Lemma of_domain_snoc domain l x size : of_domain domain (l ++ [(x, size)]) = of_domain domain l ++ (if decide (x = domain) then [size] else []).
Proof. unfold of_domain. rewrite filter_app, fmap_app, filter_cons, filter_nil. cbn. by destruct (decide (x = domain)). Qed.

(** A domain has its entries' number and sum, on 64 bits; a domain without entries has no row. *)
Lemma tally_lookup l domain : tally l !! domain =
  match of_domain domain l with
  | [] => None
  | sizes => Some (wrap64 (Z.of_nat (length sizes)), wrap64 (sum sizes))
  end.
Proof.
  induction l as [|[x size] l IH] using rev_ind; [done|]. rewrite tally_snoc, of_domain_snoc. unfold acc_add.
  destruct (decide (x = domain)) as [->|Hne].
  - set (sizes := of_domain domain l) in *.
    assert (∃ files bytes, default (0, 0) (tally l !! domain) = (files, bytes) ∧
      same64 files (Z.of_nat (length sizes)) ∧ same64 bytes (sum sizes)) as (files & bytes & -> & Hf & Hb).
    { rewrite IH. destruct sizes as [|y ys]; eexists _, _; (split; [done|]); [done|]. split; apply same64_wrap. }
    rewrite lookup_insert_eq. destruct (sizes ++ [size]) as [|y ys] eqn:Hy; [by apply app_eq_nil in Hy as []|]. rewrite <-Hy, length_app, sum_app.
    replace (sum [size]) with size by (cbn; lia). rewrite Nat2Z.inj_add. do 2 f_equal; by apply wrap64_add.
  - rewrite app_nil_r. destruct (default (0, 0) (tally l !! x)). rewrite lookup_insert_ne by done. exact IH.
Qed.

(** *** All domains together *)

Definition files_of (m : totalsAccumulator) : Z := sum ((λ x, x.2.1) <$> map_to_list m).
Definition bytes_of (m : totalsAccumulator) : Z := sum ((λ x, x.2.2) <$> map_to_list m).

Lemma sum_insert_map (f : Z * Z → Z) (m : totalsAccumulator) k x :
  sum ((λ x, f x.2) <$> map_to_list (<[k := x]> m)) = sum ((λ x, f x.2) <$> map_to_list m) - from_option f 0 (m !! k) + f x.
Proof.
  destruct (m !! k) as [y|] eqn:Hk; cbn [from_option].
  - rewrite <-(insert_delete_id m k y Hk) at 2. rewrite <-(insert_delete_eq m k x).
    rewrite !map_to_list_insert by apply lookup_delete_eq. cbn. unfold sum. cbn. lia.
  - rewrite map_to_list_insert by done. cbn. unfold sum. cbn. lia.
Qed.

Lemma tally_totals l : same64 (files_of (tally l)) (Z.of_nat (length l)) ∧ same64 (bytes_of (tally l)) (sum l.*2).
Proof.
  induction l as [|[x size] l [IH1 IH2]] using rev_ind; [done|]. rewrite tally_snoc, fmap_app, sum_app, length_app. cbn [length fmap list_fmap snd].
  unfold acc_add. destruct (default (0, 0) (tally l !! x)) as [files bytes] eqn:Hd. unfold files_of, bytes_of.
  rewrite (sum_insert_map fst), (sum_insert_map snd). cbn [fst snd].
  assert (from_option fst 0 (tally l !! x) = files ∧ from_option snd 0 (tally l !! x) = bytes) as [-> ->].
  { destruct (tally l !! x) as [[]|]; cbn in *; by simplify_eq. }
  fold (files_of (tally l)) (bytes_of (tally l)). split.
  - etrans; [apply (wrap64_add _ _ (files_of (tally l) - files) (files + 1)); [done|apply same64_wrap]|].
    unfold same64. replace (files_of (tally l) - files + (files + 1)) with (files_of (tally l) + 1) by lia.
    rewrite Nat2Z.inj_add. by apply wrap64_add.
  - etrans; [apply (wrap64_add _ _ (bytes_of (tally l) - bytes) (bytes + size)); [done|apply same64_wrap]|].
    unfold same64. replace (bytes_of (tally l) - bytes + (bytes + size)) with (bytes_of (tally l) + size) by lia.
    replace (sum [size]) with size by (cbn; lia). by apply wrap64_add.
Qed.

(** ** The totals of a version *)

Section totals.
Context `{!MapRange, !SortSlice}.

#[local] Instance domain_le_trans : Transitive domain_le.
Proof. intros a b c. unfold domain_le. apply transitivity. Qed.
#[local] Instance domain_le_total : Total domain_le.
Proof. intros a b. unfold domain_le. apply (total str_le). Qed.

Definition domain_row (x : string * (Z * Z)) : DomainTotals := mkDomainTotals x.1 x.2.1 x.2.2.

Lemma range_perm {A} (m : gmap string A) : range m ≡ₚ map_to_list m.
Proof.
  apply NoDup_Permutation; [eapply NoDup_fmap_1, range_nodup|apply NoDup_map_to_list|].
  intros [k x]. by rewrite elem_of_range, elem_of_map_to_list.
Qed.

Definition on64 (z : Z) : Prop := wrap64 z = z.

Lemma collected (l : list (string * (Z * Z))) t :
  let t' := foldl (λ t '(domain, (files, bytes)),
    mkTotals (t_Domains t ++ [mkDomainTotals domain files bytes]) (wrap64 (t_TotalFiles t + files)) (wrap64 (t_TotalBytes t + bytes))) t l in
  t_Domains t' = t_Domains t ++ (domain_row <$> l) ∧
  same64 (t_TotalFiles t') (t_TotalFiles t + sum ((λ x, x.2.1) <$> l)) ∧
  same64 (t_TotalBytes t') (t_TotalBytes t + sum ((λ x, x.2.2) <$> l)) ∧
  (on64 (t_TotalFiles t) → on64 (t_TotalBytes t) → on64 (t_TotalFiles t') ∧ on64 (t_TotalBytes t')).
Proof.
  revert t. induction l as [|[d [f b]] l IH]; intros t; cbn [foldl fmap list_fmap].
  - cbn. by rewrite app_nil_r, !Z.add_0_r.
  - destruct (IH (mkTotals (t_Domains t ++ [mkDomainTotals d f b]) (wrap64 (t_TotalFiles t + f)) (wrap64 (t_TotalBytes t + b)))) as (H1 & H2 & H3 & H4).
    cbn [t_Domains t_TotalFiles t_TotalBytes] in *. split; [by rewrite H1, <-app_assoc|]. cbn [sum foldr fst snd]. split; [|split; [|intros _ _; apply H4; apply wrap64_twice]].
    + etrans; [exact H2|]. rewrite Z.add_assoc. apply wrap64_add; [apply same64_wrap|exact eq_refl].
    + etrans; [exact H3|]. rewrite Z.add_assoc. apply wrap64_add; [apply same64_wrap|exact eq_refl].
Qed.

(** The totals are on 64 bits once there is anything to add. *)
Lemma totals_of_tally l : let t := acc_totals (tally l) in
  t_Domains t ≡ₚ domain_row <$> map_to_list (tally l) ∧ StronglySorted domain_le (t_Domains t) ∧
  t_TotalFiles t = wrap64 (Z.of_nat (length l)) ∧ t_TotalBytes t = wrap64 (sum l.*2).
Proof.
  unfold acc_totals. destruct (collected (range (tally l)) (mkTotals [] 0 0)) as (H1 & H2 & H3 & H4). cbn zeta. cbn [t_Domains t_TotalFiles t_TotalBytes] in *.
  rewrite H1. cbn [app]. split; [|split; [apply sort_slice_sorted; apply _|]].
  - rewrite sort_slice_perm. by rewrite range_perm.
  - destruct (tally_totals l) as [T1 T2]. rewrite !Z.add_0_l in H2, H3.
    destruct H4 as [H4 H5]; [done|done|]. split.
    + rewrite <-H4. etrans; [exact H2|]. etrans; [|exact T1]. unfold same64, files_of. by rewrite range_perm.
    + rewrite <-H5. etrans; [exact H3|]. etrans; [|exact T2]. unfold same64, bytes_of. by rewrite range_perm.
Qed.

Lemma totals_domains l d : d ∈ t_Domains (acc_totals (tally l)) ↔
  of_domain (dt_Domain d) l ≠ [] ∧ dt_Files d = wrap64 (Z.of_nat (length (of_domain (dt_Domain d) l))) ∧
  dt_Bytes d = wrap64 (sum (of_domain (dt_Domain d) l)).
Proof.
  destruct (totals_of_tally l) as (Hp & _). rewrite Hp, list_elem_of_fmap. split.
  - intros ([domain [files bytes]] & -> & Hin%elem_of_map_to_list). cbn. rewrite tally_lookup in Hin. destruct (of_domain domain l) as [|z zs]; [done|]. by injection Hin as <- <-.
  - destruct d as [domain files bytes]. cbn. intros (Hne & -> & ->).
    exists (domain, (wrap64 (Z.of_nat (length (of_domain domain l))), wrap64 (sum (of_domain domain l)))). split; [done|].
    apply elem_of_map_to_list. rewrite tally_lookup. by destruct (of_domain domain l).
Qed.

Lemma totals_nodup l : NoDup (dt_Domain <$> t_Domains (acc_totals (tally l))).
Proof.
  destruct (totals_of_tally l) as (Hp & _). rewrite (fmap_Permutation dt_Domain _ _ Hp), <-list_fmap_compose.
  apply (NoDup_fst_map_to_list (tally l)).
Qed.

(** The order of the entries is no matter. *)
Lemma tally_perm l k : l ≡ₚ k → tally l = tally k.
Proof.
  intros Hp. apply map_eq. intros d. rewrite !tally_lookup. assert (of_domain d l ≡ₚ of_domain d k) as Hd by (unfold of_domain; by rewrite Hp).
  destruct (of_domain d l) as [|x xs], (of_domain d k) as [|y ys]; try done; [by apply Permutation_nil_l in Hd|by apply Permutation_nil_r in Hd|].
  change (Some (wrap64 (Z.of_nat (length (x :: xs))), wrap64 (sum (x :: xs))) =
    Some (wrap64 (Z.of_nat (length (y :: ys))), wrap64 (sum (y :: ys)))).
  by rewrite (Permutation_length Hd), (sum_perm _ _ Hd).
Qed.

(** ** The pages of an overview *)

Definition summary (d : DomainTotals) : DomainSummary := mkDomainSummary (dt_Domain d) (dt_Files d) (dt_Bytes d).

Fixpoint overview_pages (fuel : nat) (t : Totals) (cursor : string) (limit : Z) : option (list DomainSummary) :=
  match fuel with
  | O => None
  | S fuel =>
      let o := toWireOverview t cursor limit in
      if String.eqb (ov_NextCursor o) "" then Some (ov_Items o)
      else more ← overview_pages fuel t (ov_NextCursor o) limit; Some (ov_Items o ++ more)
  end.

Lemma after_domain_at ds i d k : NoDup (dt_Domain <$> ds) → ds !! i = Some d → after_domain (dt_Domain d) k ds = (k + S i)%nat.
Proof.
  revert i k. induction ds as [|d0 ds IH]; intros i k Hnd Hi; [done|]. cbn [fmap list_fmap] in Hnd. apply NoDup_cons in Hnd as [Hno Hnd].
  cbn [after_domain]. destruct i as [|i].
  - injection Hi as ->. rewrite String.eqb_refl. lia.
  - cbn in Hi. destruct (String.eqb_spec (dt_Domain d0) (dt_Domain d)) as [Heq|_].
    + destruct Hno. rewrite Heq. by eapply list_elem_of_fmap_2, list_elem_of_lookup_2.
    + rewrite (IH i) by done. lia.
Qed.

(** The cursor of a place in the list of domains. *)
Definition place (ds : list DomainTotals) (c : string) (i : nat) : Prop :=
  (c = EmptyString ∧ i = 0%nat) ∨ ∃ d, (1 <= i)%nat ∧ ds !! (i - 1)%nat = Some d ∧ c = dt_Domain d.

Lemma overview_rest fuel t c i limit : NoDup (dt_Domain <$> t_Domains t) → Forall (λ d, dt_Domain d ≠ ""%string) (t_Domains t) →
  place (t_Domains t) c i → (length (t_Domains t) - i < fuel)%nat →
  overview_pages fuel t c limit = Some (summary <$> drop i (t_Domains t)).
Proof.
  intros Hnd Hne. revert c i. induction fuel as [|fuel IH]; intros c i Hp Hlt; [lia|]. cbn [overview_pages]. unfold toWireOverview.
  assert (1 <= Z.to_nat (ClampLimit limit).1)%nat as Hn.
  { unfold ClampLimit, DefaultLimit, MaxLimit. destruct (Z.leb_spec limit 0), (Z.ltb_spec 2000 limit); cbn [fst]; lia. }
  destruct (ClampLimit limit) as [n' clamped]. cbn [fst] in Hn. set (n := Z.to_nat n') in *. set (ds := t_Domains t) in *.
  assert ((if String.eqb c "" then 0%nat else after_domain c 0 ds) = i) as ->.
  { destruct Hp as [[-> ->]|(d & Hi & Hd & ->)]; [done|]. assert (dt_Domain d ≠ ""%string) as Hcd%String.eqb_neq by (rewrite Forall_forall in Hne; by eapply Hne, list_elem_of_lookup_2).
    rewrite Hcd, (after_domain_at ds (i - 1) d 0 Hnd Hd). lia. }
  cbn [ov_NextCursor ov_Items]. destruct (Nat.ltb_spec (Nat.min (i + n) (length ds)) (length ds)) as [Hmore|Hend].
  - replace (Nat.min (i + n) (length ds)) with (i + n)%nat by lia.
    destruct (lookup_lt_is_Some_2 ds (i + n - 1)) as [d Hd]; [lia|]. rewrite Hd. cbn [from_option].
    assert (dt_Domain d ≠ ""%string) as Hdn%String.eqb_neq by (rewrite Forall_forall in Hne; by eapply Hne, list_elem_of_lookup_2).
    rewrite Hdn, (IH (dt_Domain d) (i + n)%nat); [|right; exists d; split; [lia|done]|lia]. cbn [mbind option_bind].
    f_equal. rewrite <-fmap_app. f_equal. replace (i + n - i)%nat with n by lia. rewrite <-drop_drop. apply take_drop.
  - cbn. f_equal. f_equal. rewrite take_ge; [done|]. rewrite length_drop. lia.
Qed.

Lemma overview_complete t limit : NoDup (dt_Domain <$> t_Domains t) → Forall (λ d, dt_Domain d ≠ ""%string) (t_Domains t) →
  overview_pages (S (length (t_Domains t))) t "" limit = Some (summary <$> t_Domains t).
Proof. intros Hnd Hne. rewrite (overview_rest _ t "" 0 limit); [by rewrite drop_0|done|done|by left|lia]. Qed.

(** ** The two backups *)

Context `{!RecordDecoder, !BackupLibrary}.

Definition row_pair (r : row) : string * Z := (f_domain r, row_size r).
Definition entry_pair (e : FileEntry) : string * Z := (fe_Domain e, fe_Size e).

Lemma foldl_rows rows a : foldl (λ a r, acc_add a (f_domain r) (row_size r)) a rows = foldl (λ a '(d, s), acc_add a d s) a (row_pair <$> rows).
Proof. revert a. induction rows as [|r rows IH]; intros a; [done|]. cbn. apply IH. Qed.
Lemma foldl_entries es a : foldl (λ a e, acc_add a (fe_Domain e) (fe_Size e)) a es = foldl (λ a '(d, s), acc_add a d s) a (entry_pair <$> es).
Proof. revert a. induction es as [|e es IH]; intros a; [done|]. cbn. apply IH. Qed.

Lemma pair_scan r : entry_pair (scanEntry r) = row_pair r.
Proof. unfold entry_pair, row_pair, row_size, scanEntry. by destruct (default _ _). Qed.

Lemma u_aggregate u rows : index_of u = inr rows → u_Aggregate u = inr (acc_totals (tally (row_pair <$> rows))).
Proof. intros Hu. unfold u_Aggregate. rewrite Hu, foldl_rows. done. Qed.

Lemma e_aggregate v b rows entries : backup_of v = inr b → iterate b "" "" = (entries, None) → entries ≡ₚ scanEntry <$> rows →
  e_Aggregate v = inr (acc_totals (tally (row_pair <$> rows))).
Proof.
  intros Hb HL Hp. unfold e_Aggregate. rewrite Hb, HL, foldl_entries. fold (tally (entry_pair <$> entries)).
  rewrite (tally_perm (entry_pair <$> entries) (row_pair <$> rows)); [done|]. rewrite Hp, <-list_fmap_compose.
  by rewrite (list_fmap_ext _ row_pair rows) by (intros i r _; apply pair_scan).
Qed.

(** An overview adds up.  Of either backup the totals are the number of files that the unlock
    reported, and the sum of their sizes on 64 bits; each domain that has files is listed once with
    their number and sum, in whatever order they were met; and following the cursors of the overview
    shows every one of these domains, for any page size. *)
Theorem overview_adds_up u v b rows entries limit :
  index_of u = inr rows → backup_of v = inr b → iterate b "" "" = (entries, None) → entries ≡ₚ scanEntry <$> rows →
  Z.of_nat (length rows) ≤ int64_max → Forall (λ r, f_domain r ≠ ""%string) rows →
  ∃ t, u_Aggregate u = inr t ∧ e_Aggregate v = inr t ∧
    (u_Unlock u).1 = inr (t_TotalFiles t) ∧ t_TotalBytes t = wrap64 (sum (row_size <$> rows)) ∧
    overview_pages (S (length (t_Domains t))) t "" limit = Some (summary <$> t_Domains t) ∧
    NoDup (dt_Domain <$> t_Domains t) ∧
    ∀ d, d ∈ t_Domains t ↔ ∃ sizes, sizes = row_size <$> filter (λ r, f_domain r = dt_Domain d) rows ∧ sizes ≠ [] ∧
      dt_Files d = Z.of_nat (length sizes) ∧ dt_Bytes d = wrap64 (sum sizes).
Proof.
  intros Hu Hb HL Hp Hlen Hne. exists (acc_totals (tally (row_pair <$> rows))).
  assert (∀ d, of_domain d (row_pair <$> rows) = row_size <$> filter (λ r, f_domain r = d) rows) as Hof.
  { intros d. unfold of_domain. rewrite (filter_fmap row_pair). by rewrite <-list_fmap_compose. }
  destruct (totals_of_tally (row_pair <$> rows)) as (_ & _ & Hf & Hby). rewrite length_fmap in Hf. rewrite <-list_fmap_compose in Hby.
  rewrite wrap64_id in Hf by (unfold int64_min in *; lia).
  split; [by apply u_aggregate|]. split; [by eapply e_aggregate|]. split.
  { rewrite Hf. unfold index_of in Hu. unfold u_Unlock. destruct (u_db u) as [rows'|]; [|done]. destruct (u_closed u); [done|]. by injection Hu as ->. }
  split; [exact Hby|]. split; [|split; [apply totals_nodup|]].
  - apply overview_complete; [apply totals_nodup|]. rewrite Forall_forall. intros d (Hd & _)%totals_domains. rewrite Hof in Hd.
    destruct (filter (λ r, f_domain r = dt_Domain d) rows) as [|r rs] eqn:Hr; [done|].
    assert (r ∈ filter (λ r, f_domain r = dt_Domain d) rows) as [<- Hin]%list_elem_of_filter by (rewrite Hr; left).
    rewrite Forall_forall in Hne. by apply Hne.
  - intros d. rewrite totals_domains, Hof.
    assert (wrap64 (Z.of_nat (length (row_size <$> filter (λ r, f_domain r = dt_Domain d) rows))) =
      Z.of_nat (length (row_size <$> filter (λ r, f_domain r = dt_Domain d) rows))) as ->; [|naive_solver].
    apply wrap64_id. rewrite length_fmap. pose proof (length_filter (λ r, f_domain r = dt_Domain d) rows). unfold int64_min. lia.
Qed.
End totals.

(** ** A file of an encrypted backup *)

(** What is read is what the library decrypts, in order, and an end that is shown is the library's,
    after all of it; as long as the handle that the goroutine reads from is open. *)
Definition shown_end (err : option library_error) : read_end := match err with Some err => ReadErr (translate err) | None => ReadEOF end.
Definition pipe_ok (bytes : string) (err : option library_error) (p : pipe) : Prop :=
  match pp_pump p with
  | Decrypting rest err' => bytes = pp_out p +:+ rest ∧ err' = err ∧ pp_end p = None
  | Returned => (∃ rest, bytes = pp_out p +:+ rest) ∧ ∀ e, pp_end p = Some e → pp_out p = bytes ∧ e = shown_end err
  end.
Lemma pipe_ok_step bytes err ev p : pipe_ok bytes err p → pipe_ok bytes err (pipe_step ev p).
Proof.
  destruct p as [[rest err'|] out fin open library]; destruct ev as [n| | |]; try done; cbn; intros (-> & -> & Hf); cbn in Hf |- *; subst fin.
  - destruct open; [|done]. unfold pipe_ok. cbn. by rewrite string_app_assoc, str_first_skip.
  - destruct open; cbn; [|split; [by exists rest|done]]. destruct (String.eqb_spec rest "") as [->|]; [|done]. unfold pipe_ok. cbn.
    split; [by exists ""%string|]. intros e [= <-]. by rewrite string_app_nil_r.
Qed.
Lemma pipe_delivers bytes err evs : let p := pipe_run evs (mkPipe (Decrypting bytes err) "" None true true) in
  pp_library p = true →
  (∃ rest, bytes = pp_out p +:+ rest) ∧ ∀ e, pp_end p = Some e → pp_out p = bytes ∧ e = shown_end err.
Proof.
  assert (∀ p, pipe_ok bytes err p → pipe_ok bytes err (pipe_run evs p)) as Hrun.
  { induction evs as [|ev l IH]; intros q Hq; [done|]. apply IH. by apply pipe_ok_step. }
  intros p _. specialize (Hrun (mkPipe (Decrypting bytes err) "" None true true) ltac:(done)). fold p in Hrun. unfold pipe_ok in Hrun.
  destruct (pp_pump p) as [rest err'|]; [|done]. destruct Hrun as (Hb & _ & Hn). split; [by exists rest|]. by rewrite Hn.
Qed.

(** The reader of a file is closed in the middle of it, which lets a teardown go on: the library is closed
    while [DecryptFile] still works on it. *)
Example decrypt_outlives_its_reader :
  let p := pipe_run [PipeReads 1; PipeCloses; LibraryCloses] (mkPipe (Decrypting "abc" None) "" None true true) in
  pp_pump p = Decrypting "bc" None ∧ pp_library p = false.
Proof. done. Qed.

(** * Sessions and indexes on concrete inputs *)

(** Session ids, one per unlock. *)
Definition numbered (n : nat) : string := "s"%string +:+ pretty n.

Lemma numbered_inj n n' : numbered n = numbered n' → n = n'.
Proof. unfold numbered. intros H. by apply (inj (String.append _)), (inj pretty) in H. Qed.
Lemma numbered_some n : numbered n ≠ ""%string.
Proof. done. Qed.

(** A version is unlocked; a download of it begins, and while it streams the session is locked and a
    second request arrives; then the reader goes on, and the lock goes through. *)
Definition unlocked : list move := [Begin (Unlock "v1" true true true); Step 0; Step 0; Step 0; Step 0].
Definition streaming : list move :=
  unlocked ++ [Begin (OpenStream "s0" "f" true true [ReadBytes; ReadIncomplete]); Step 1; Begin (With "s0" 1); Step 2;
               Begin (Lock "s0"); Step 1; Step 3; Step 3; Step 1; Step 3].
Definition drained : list move := streaming ++ [Step 1; Step 1; Step 1; Step 3; Step 3; Step 3; Step 3; Step 3; Step 3].

#[local] Abbreviation start_registry := (NewRegistry "/cache/scratch" 0 100).
#[local] Abbreviation waiting := (play numbered streaming start_registry).
#[local] Abbreviation after_all := (play numbered drained start_registry).

Example download_outlives_the_lock :
  r_trace (play numbered drained start_registry) =
    [Opened 0; Used 0; Used 0; Used 0; Used 0; Used 0; Closed 0; Wiped "/cache/scratch/s0"] ∧
  r_tasks (play numbered drained start_registry) =
    [Finished (Unlocked (mkSession "s0" "v1" (100 + DefaultSessionTTL))); Finished Served; Finished SessionBusy; Finished EndedSession] ∧
  r_dirs (play numbered drained start_registry) = ∅.
Proof. vm_compute. done. Qed.

(** A directory that cannot be removed when its session ends is left. *)
Example stuck_scratch_is_left :
  let r := play numbered (unlocked ++ [Sticks {["/cache/scratch/s0"]}; Begin (Lock "s0")] ++ replicate 7 (Step 1)) start_registry in
  r_dirs r = {["/cache/scratch/s0"]} ∧ r_sessions r = ∅ ∧ last (r_trace r) = Some (WipeFailed "/cache/scratch/s0").
Proof. vm_compute. done. Qed.

Lemma vault_used_while_open_witness :
  r_trace (play numbered drained start_registry) =
    [Opened 0; Used 0; Used 0; Used 0; Used 0] ++ Used 0 :: [Closed 0; Wiped "/cache/scratch/s0"] ∧
  Opened 0 ∈ [Opened 0; Used 0; Used 0; Used 0; Used 0] ∧ Closed 0 ∉ [Opened 0; Used 0; Used 0; Used 0; Used 0].
Proof.
  assert (r_trace (play numbered drained start_registry) =
    [Opened 0; Used 0; Used 0; Used 0; Used 0] ++ Used 0 :: [Closed 0; Wiped "/cache/scratch/s0"]) as H by (vm_compute; reflexivity).
  split; [exact H|].
  exact (vault_used_while_open numbered numbered_inj numbered_some "/cache/scratch" 0 100 drained _ _ _ 0%nat H eq_refl).
Defined.

Lemma vault_exclusive_witness :
  Used 0 ∈ news waiting (step 1 waiting) ∧
  (∃ k, r_tasks waiting !! 1%nat = Some k ∧ handling waiting k = Some 0%nat) ∧
  (∀ t' k', r_tasks waiting !! t' = Some k' → handling waiting k' = Some 0%nat → t' = 1%nat).
Proof.
  assert (news waiting (step 1 waiting) = [Used 0]) as Hn by (vm_compute; reflexivity).
  assert (Used 0 ∈ news waiting (step 1 waiting)) as H by (rewrite Hn; left).
  split; [exact H|].
  exact (vault_exclusive numbered numbered_inj numbered_some "/cache/scratch" 0 100 streaming 1%nat (Used 0) 0%nat H eq_refl).
Defined.

Lemma nothing_outlives_its_session_witness :
  all_finished after_all ∧
  (∀ d, d ∈ r_dirs after_all → WipeFailed d ∈ r_trace after_all ∨ ∃ id l, r_sessions after_all !! id = Some l ∧ d = ScratchFor after_all id) ∧
  (∀ v, Opened v ∈ r_trace after_all → Closed v ∈ r_trace after_all ∨
     ∃ id l e, r_sessions after_all !! id = Some l ∧ r_entries after_all !! l = Some e ∧ e_vault e = v).
Proof.
  assert (all_finished after_all) as H by (vm_compute; repeat constructor).
  split; [exact H|]. exact (nothing_outlives_its_session numbered numbered_inj numbered_some "/cache/scratch" 0 100 drained H).
Defined.

(** The run above, stopped where the lock waits for the download, ends by itself. *)
Lemma calls_end_witness :
  waits waiting (Teardown [0%nat] EndedSession) ∧
  all_finished (play numbered (turns (length (r_tasks waiting)) (work waiting)) waiting).
Proof.
  split; [vm_compute; by eexists|].
  exact (calls_end numbered numbered_inj numbered_some "/cache/scratch" 0 100 streaming).
Defined.

(** ** A small index *)

(** A record of two characters or more says its own length; a shorter one cannot be read. *)
#[local] Instance toy_decoder : RecordDecoder :=
  {| DecodeFileRecord s := if Nat.ltb (String.length s) 2 then None else Some (Z.of_nat (String.length s), 1000) |}.
#[local] Existing Instance stable_sort.
#[local] Existing Instance some_order.

(** A library that keeps the index in order, and scans all of it from the end. *)
Definition to_library (e : FileEntry) : LibraryEntry :=
  mkLibraryEntry (fe_FileID e) (fe_Domain e) (fe_RelativePath e)
    (match fe_Kind e with KindFile => flagFile | KindDir => flagDir | KindSymlink => flagSymlink end) (fe_Size e) (fe_MTime e).
Lemma from_to_library e : fromLibrary (to_library e) = e.
Proof. by destruct e as [? ? ? [] ? ?]. Qed.

Definition scanned (domain prefix : string) (l : list FileEntry) : list FileEntry :=
  if String.eqb domain "" && String.eqb prefix "" then reverse l else filter (λ e, asked domain prefix e = true) l.
#[local] Instance toy_library : BackupLibrary :=
  {| Backup := { l : list FileEntry | StronglySorted entry_lt l };
     lib_Unlock dir password := inl LibOther;
     lib_List b domain prefix := (to_library <$> scanned domain prefix (`b), None);
     lib_Stat b id := match filter (λ e, fe_FileID e = id) (`b) with e :: _ => inr (to_library e) | [] => inl LibFileNotFound end;
     lib_DecryptFile b id := (EmptyString, None) |}.

Lemma toy_iterate b domain prefix : iterate b domain prefix = (scanned domain prefix (`b), None).
Proof.
  unfold iterate. cbn [lib_List toy_library fst snd fmap option_fmap option_map]. f_equal.
  generalize (scanned domain prefix (`b)). intros l.
  induction l as [|e l IH]; [done|]. rewrite !fmap_cons, from_to_library. by f_equal.
Qed.

Lemma scanned_narrowed domain prefix l : narrowed domain prefix → scanned domain prefix l = filter (λ e, asked domain prefix e = true) l.
Proof. unfold narrowed, scanned. destruct (String.eqb_spec domain ""), (String.eqb_spec prefix ""); naive_solver. Qed.
#[local] Instance toy_library_law : BackupLibraryLaw.
Proof.
  split.
  - intros b domain prefix Hn. rewrite toy_iterate, scanned_narrowed by done. destruct b as [l Hl]. by apply StronglySorted_filter'.
  - intros b domain prefix. rewrite !toy_iterate. split; [done|]. cbn [fst]. change (scanned "" "" (`b)) with (reverse (`b)). rewrite reverse_Permutation.
    unfold scanned. destruct (String.eqb_spec domain "") as [->|_]; [|done]. destruct (String.eqb_spec prefix "") as [->|_]; [|done]. cbn [andb].
    rewrite filter_every; [apply reverse_Permutation|]. intros e _. unfold asked. cbn. by destruct (fe_RelativePath e).
Qed.

#[local] Abbreviation small :=
  [mkRow "f2" "Media" "b/x" 1 "abc"; mkRow "f1" "Media" "a" 1 "ab"; mkRow "f4" "Home" "b/x" 1 "abcd"; mkRow "f3" "Media" "b/" 2 ""].

Lemma small_keys : NoDup (row_key <$> small).
Proof. apply (bool_decide_unpack _). vm_compute. exact I. Qed.
Lemma small_valid : Forall valid_row small.
Proof. repeat constructor. Qed.

#[local] Abbreviation plain := (mkUnencrypted (mkDirectory (Some small) ∅) (Some small) false).
#[local] Definition sealed_backup : Backup := exist (StronglySorted entry_lt) (ordered small) (ordered_sorted small small_keys).
#[local] Abbreviation sealed := (mkEncrypted "/backups" (Some (sealed_backup, 4)) false).

Lemma sealed_scan : iterate sealed_backup "" "" = (reverse (ordered small), None).
Proof. reflexivity. Qed.
Lemma sealed_index : same_index sealed_backup small.
Proof. unfold same_index. rewrite sealed_scan. split; [|done]. cbn [fst]. rewrite reverse_Permutation. unfold ordered. by rewrite (sort_slice_perm row_le small). Qed.

(** Pages of one entry: the directory, then the file. *)
Lemma browse_complete_witness :
  browse 5 (u_List plain) (mkQuery "Media" "b" "" 1) = Some (shown_of "Media" "b" small) ∧
  browse 5 (e_List sealed) (mkQuery "Media" "b" "" 1) = Some (shown_of "Media" "b" small) ∧
  (fe_FileID <$> shown_of "Media" "b" small) = ["f3"; "f2"]%string.
Proof.
  destruct (browse_complete plain sealed sealed_backup small "Media" "b" 1 eq_refl eq_refl sealed_index small_keys small_valid) as (H1 & H2 & _ & _).
  split; [exact H1|]. split; [apply H2; left; left; discriminate|]. vm_compute. reflexivity.
Defined.

(** The whole of the backup, which this library scans from the end: what a page leaves out is never shown. *)
Example unordered_scan_is_cut_short :
  browse 5 (e_List sealed) (mkQuery "" "" "" 2) ≠ Some (shown_of "" "" small) ∧
  (length <$> browse 5 (e_List sealed) (mkQuery "" "" "" 2)) = Some 3%nat ∧ length (shown_of "" "" small) = 4%nat.
Proof. vm_compute. split_and!; [discriminate|done..]. Qed.

Lemma resolvePath_exact_witness :
  resolvePath 5 (u_List plain) "Media" "b/x" "" = Some (inr "f2"%string) ∧
  resolvePath 5 (e_List sealed) "Media" "b/x" "" = Some (inr "f2"%string).
Proof.
  destruct (resolvePath_exact plain sealed sealed_backup small "Media" "b/x" eq_refl eq_refl sealed_index (or_introl (λ E : "Media"%string = ""%string, ltac:(discriminate E))) small_keys small_valid) as (H1 & H2).
  split; [exact H1|exact H2].
Defined.

Lemma bounded_read_witness :
  read_all [(4, 3); (4, 3); (4, 3); (4, 3); (4, 3)]%nat (mkBounded "abcdef" 4) = ("abcd"%string, ReadErr ErrOverlongFile) ∧
  (∃ rest, "abcdef"%string = "abcd" +:+ rest) ∧ Z.of_nat (String.length "abcd") ≤ 4 ∧
  ReadErr ErrOverlongFile = verdict "abcdef" 4 ∧ "abcd"%string = str_first (Z.to_nat 4) "abcdef".
Proof.
  assert (makes_way [(4, 3); (4, 3); (4, 3); (4, 3); (4, 3)]%nat) as Hm by (repeat (constructor; [lia|]); constructor).
  pose proof (bounded_read [(4, 3); (4, 3); (4, 3); (4, 3); (4, 3)]%nat "abcdef" 4 ltac:(lia) Hm) as H.
  split; [reflexivity|]. destruct H as (H1 & H2 & H3 & H4). split; [exact H1|]. split; [exact H2|]. apply H3, H4. cbn. lia.
Defined.

Lemma overview_adds_up_witness : ∃ t, u_Aggregate plain = inr t ∧ e_Aggregate sealed = inr t ∧ t_TotalFiles t = 4 ∧ t_TotalBytes t = 9 ∧
  overview_pages (S (length (t_Domains t))) t "" 1 = Some (summary <$> t_Domains t).
Proof.
  destruct (overview_adds_up plain sealed sealed_backup small (reverse (ordered small)) 1 eq_refl eq_refl sealed_scan) as (t & H1 & H2 & H3 & H4 & H5 & _).
  - rewrite reverse_Permutation. unfold ordered. by rewrite (sort_slice_perm row_le small).
  - vm_compute. discriminate.
  - repeat (constructor; [discriminate|]). constructor.
  - exists t. split; [exact H1|]. split; [exact H2|]. split; [by injection H3|]. split; [|exact H5]. rewrite H4. vm_compute. reflexivity.
Defined.

(** *** Edges *)

(** A page that is full when the index ends: the library's backup still names a next page, which is
    empty; the other one does not. *)
Example full_last_page :
  let next (answer : vault_error + Page) := match answer with inr page => Some (p_NextCursor page) | inl _ => None end in
  next (e_List sealed (mkQuery "Home" "" "" 1)) = Some (encodeCursor (mkCursor "Home" "b/x")) ∧
  next (u_List plain (mkQuery "Home" "" "" 1)) = Some ""%string.
Proof. split; vm_compute; reflexivity. Qed.

(** A path that is not UTF-8 does not survive its cursor: the page after it is the same page again. *)
#[local] Abbreviation latin := [mkRow "f1" "Media" (String (char_of_Z 240) EmptyString) 1 "ab"; mkRow "f2" "Media" (String (char_of_Z 241) EmptyString) 1 "ab"].
Example broken_name_leads_back :
  decodeCursor (encodeCursor (mkCursor "Media" (String (char_of_Z 240) EmptyString))) = Some (mkCursor "Media" (EncodeRune RuneError)) ∧
  browse 100 (u_List (mkUnencrypted (mkDirectory (Some latin) ∅) (Some latin) false)) (mkQuery "" "" "" 1) = None.
Proof. split; vm_compute; reflexivity. Qed.

(** A canary whose blob is longer than its record fails the check; one that is shorter passes it. *)
Example overlong_canary_fails :
  let check blob := u_VerifyCanary (mkUnencrypted (mkDirectory None {[ "f1/f1"%string := blob ]}) (Some [mkRow "f1" "Media" "a" 1 "ab"]) false) in
  check "abc"%string = Some ErrOverlongFile ∧ check "a"%string = None.
Proof. vm_compute. done. Qed.
