(* ===== verification/Muxers.v ===== *)
(** * Muxers: the daemons that devices are seen through

    Models core/internal/muxsup/supervisor.go (the supervisor of a daemon that quince runs, the group,
    and what health says of each muxer), the connection of core/internal/muxd/client.go as it is seen
    from outside its goroutine, and cmd/quince/muxers.go with the clients of live.go.  A supervisor
    and a client are goroutines: a step is one turn between two points where others may act.  What a
    probe, a dial, a process or a timer answers is in the events. *)

From Stdlib Require Import String Ascii.
From S2P Require Import Net Config.
From S2P Require Import Prelude Domain Events Muxd Registry.

Inductive muxer_state : Type :=
  | StateStarting | StateRunning | StateDegraded | StateStopped | StateExternal | StateUnreachable | StateAbsent.
#[global] Instance muxer_state_eq_dec : EqDecision muxer_state.
Proof. solve_decision. Defined.

Record Status : Type := mkStatus {
  ms_Address : string; ms_Transports : list string; ms_Managed : bool; ms_State : muxer_state; ms_Detail : string; ms_Rescan : bool }.

(** ** What is run *)

Record Spec : Type := mkSpec {
  sp_Name : string; sp_Role : string; sp_Bin : string; sp_Args : list string; sp_Env : list string;
  sp_Network : string; sp_Address : string; sp_Rescan : bool }.

Definition RoleUSB : string := "usb".
Definition RoleWiFi : string := "wifi".
Definition DefaultNetmuxdSocket : string := "/var/run/netmuxd".

Definition Usbmuxd (socket : string) : Spec :=
  mkSpec "usbmuxd" RoleUSB "usbmuxd" ["-f"; "-S"; socket]%string [] "unix" socket true.

(** [rust_log] is the variable of the environment. *)
Definition Netmuxd (rust_log addr socketPath : string) : result Spec :=
  match SplitHostPort addr with
  | None => Err "address: missing port in address"
  | Some (host, port) =>
      if bool_decide (host = "") || bool_decide (port = "") then Err "netmuxd address needs both host and port"
      else if bool_decide (socketPath = "") then Err "netmuxd needs a private unix socket path"
      else Ok (mkSpec "netmuxd" RoleWiFi "netmuxd" ["--host"; host; "--port"; port; "--socket-path"; socketPath; "--disable-usb"]%string
                 (if bool_decide (rust_log = "") then ["RUST_LOG=info"]%string else []) "tcp" addr false)
  end.

(** [filepath.Dir]: what comes before the last separator, cleaned. *)
Definition filepath_Dir (path : string) : string :=
  match last_index 47 path 0 None with
  | None => "."
  | Some i => filepath_Clean (str_take (S i) path)
  end.
Definition SocketPathFor (usbmuxdSocket : string) : string :=
  if bool_decide (usbmuxdSocket = "") then DefaultNetmuxdSocket
  else filepath_Clean (filepath_Dir usbmuxdSocket +:+ "/netmuxd").

Example socket_paths :
  (SocketPathFor <$> ["/var/run/usbmuxd"; ""; "/run/mux/usbmuxd"; "/usbmuxd"; "usbmuxd"])
    = ["/var/run/netmuxd"; "/var/run/netmuxd"; "/run/mux/netmuxd"; "/netmuxd"; "netmuxd"]%string.
Proof. vm_compute. reflexivity. Qed.

Definition defaultBackoffMin : duration := 500 * Millisecond.
Definition defaultBackoffMax : duration := 30 * Second.
Definition defaultHealthyRun : duration := 30 * Second.
Definition crashLoopThreshold : nat := 3.
Definition sup_nextBackoff (d max : duration) : duration := let d := wrap64 (d * 2) in if max <? d then max else d.
Definition exitReason (err : error) : string := default "exited cleanly (code 0)" err.

Record RescanResult : Type := mkRescanResult { rr_Accepted : bool; rr_Reason : string }.

(** ** The supervisor *)

(** Where its goroutine is.  [Probing] and [Reprobing] wait for a dial, [Reprobing] with the request
    that it will answer; [Terminating] has sent SIGTERM, and goes on to answer a request or to stop. *)
Inductive place : Type :=
  | Top | Probing | Refused | Reprobing (req : nat) | Spawning | Up (started : time) | Terminating (req : option nat)
  | Sleeping | Ended.
#[global] Instance place_eq_dec : EqDecision place.
Proof. solve_decision. Defined.

(** The child: none, running, or exited and not yet waited for. *)
Inductive child : Type := NoChild | Alive | Dead (err : error).
#[global] Instance child_eq_dec : EqDecision child.
Proof. solve_decision. Defined.

(** A call of [Rescan]: it offers its request, the supervisor has it, it was answered (the channel of
    the answer is buffered), or its context ended. *)
Inductive caller : Type := Offering | Taken | Answered (r : RescanResult) | TimedOut.
#[global] Instance RescanResult_eq_dec : EqDecision RescanResult.
Proof. solve_decision. Defined.
#[global] Instance caller_eq_dec : EqDecision caller.
Proof. solve_decision. Defined.

Record Supervisor : Type := mkSupervisor {
  su_spec : Spec; su_state : muxer_state; su_detail : string; su_place : place; su_child : child; su_backoff : duration;
  su_crashes : nat; su_done : bool; su_callers : gmap nat caller }.

Definition New (spec : Spec) : Supervisor := mkSupervisor spec StateStarting "" Top NoChild defaultBackoffMin 0 false ∅.

Definition go (p : place) (s : Supervisor) : Supervisor :=
  mkSupervisor (su_spec s) (su_state s) (su_detail s) p (su_child s) (su_backoff s) (su_crashes s) (su_done s) (su_callers s).
Definition set (st : muxer_state) (detail : string) (s : Supervisor) : Supervisor :=
  mkSupervisor (su_spec s) st detail (su_place s) (su_child s) (su_backoff s) (su_crashes s) (su_done s) (su_callers s).
Definition set_child (c : child) (s : Supervisor) : Supervisor :=
  mkSupervisor (su_spec s) (su_state s) (su_detail s) (su_place s) c (su_backoff s) (su_crashes s) (su_done s) (su_callers s).
Definition set_backoff (d : duration) (crashes : nat) (s : Supervisor) : Supervisor :=
  mkSupervisor (su_spec s) (su_state s) (su_detail s) (su_place s) (su_child s) d crashes (su_done s) (su_callers s).
Definition set_callers (m : gmap nat caller) (s : Supervisor) : Supervisor :=
  mkSupervisor (su_spec s) (su_state s) (su_detail s) (su_place s) (su_child s) (su_backoff s) (su_crashes s) (su_done s) m.
Definition cancel (s : Supervisor) : Supervisor :=
  mkSupervisor (su_spec s) (su_state s) (su_detail s) (su_place s) (su_child s) (su_backoff s) (su_crashes s) true (su_callers s).

Definition answer (req : nat) (r : RescanResult) (s : Supervisor) : Supervisor :=
  match su_callers s !! req with
  | Some Taken => set_callers (<[req := Answered r]> (su_callers s)) s
  | _ => s
  end.
Definition reset_backoff (s : Supervisor) : Supervisor := set_backoff defaultBackoffMin 0 s.
Definition accept (req : nat) (s : Supervisor) : Supervisor := reset_backoff (answer req (mkRescanResult true "") s).
Definition stop (s : Supervisor) : Supervisor := go Ended (set StateStopped "" s).

Definition probed (served : bool) (s : Supervisor) : Supervisor :=
  let address := sp_Address (su_spec s) in
  match su_place s with
  | Probing => if served then go Refused (set StateDegraded (address +:+ " is already served by another process") s) else go Spawning s
  | Reprobing req =>
      if served then go Top (answer req (mkRescanResult false (address +:+ " is still served by an external process")) s)
      else go Spawning (accept req s)
  | _ => s
  end.

Definition exited (reason : string) (ranFor : duration) (s : Supervisor) : Supervisor :=
  let crashes := S (if defaultHealthyRun <=? ranFor then 0 else su_crashes s) in
  let s := set_backoff (su_backoff s) crashes s in
  go Sleeping
    (if Nat.leb crashLoopThreshold crashes then set StateDegraded (sp_Name (su_spec s) +:+ " keeps exiting: " +:+ reason) s else s).

(** The process has been waited for. *)
Definition waited (err : error) (now : time) (s : Supervisor) : Supervisor :=
  let s := set_child NoChild s in
  match su_place s with
  | Up started => exited (exitReason err) (time_sub now started) s
  | Terminating None => stop s
  | Terminating (Some req) => go Top (accept req s)
  | _ => s
  end.

Definition takes (req : nat) (s : Supervisor) : Supervisor :=
  let s' := set_callers (<[req := Taken]> (su_callers s)) s in
  match su_callers s !! req, su_place s with
  | Some Offering, Refused => go (Reprobing req) s'
  | Some Offering, Up _ => go (Terminating (Some req)) s'
  | Some Offering, Sleeping => go Top (accept req s')
  | _, _ => s
  end.

Inductive sup_event : Type :=
  | Loop                               (* the head of the loop: its context is looked at *)
  | Probed (served : bool)
  | Started (now : time)
  | StartFailed (err : string)
  | SeesDone                           (* a select takes its context's end *)
  | Takes (req : nat)                  (* a select takes a request *)
  | Waits (now : time)                 (* a select takes the end of the child *)
  | GraceOver                          (* SIGKILL *)
  | Timer                              (* the pause is over *)
  | ChildExits (err : error)
  | Rescans (req : nat)
  | GivesUp (req : nat)
  | Cancelled.

Definition sup_step (ev : sup_event) (s : Supervisor) : Supervisor :=
  match ev, su_place s with
  | Loop, Top => if su_done s then stop s else go Probing s
  | Probed served, (Probing | Reprobing _) => probed served s
  | Started now, Spawning => go (Up now) (set StateRunning "" (set_child Alive s))
  | StartFailed err, Spawning => exited ("start failed: " +:+ err) 0 s
  | SeesDone, (Refused | Sleeping) => if su_done s then stop s else s
  | SeesDone, Up _ => if su_done s then go (Terminating None) s else s
  | Takes req, (Refused | Up _ | Sleeping) => takes req s
  | Waits now, (Up _ | Terminating _) => match su_child s with Dead err => waited err now s | _ => s end
  | GraceOver, Terminating _ => match su_child s with Alive => set_child (Dead (Some "signal: killed"%string)) s | _ => s end
  | Timer, Sleeping => go Top (set_backoff (sup_nextBackoff (su_backoff s) defaultBackoffMax) (su_crashes s) s)
  | ChildExits err, _ => match su_child s with Alive => set_child (Dead err) s | _ => s end
  | Rescans req, _ => match su_callers s !! req with None => set_callers (<[req := Offering]> (su_callers s)) s | _ => s end
  | GivesUp req, _ =>
      match su_callers s !! req with
      | Some Offering | Some Taken => set_callers (<[req := TimedOut]> (su_callers s)) s
      | _ => s
      end
  | Cancelled, _ => cancel s
  | _, _ => s
  end.
Definition sup_run (es : list sup_event) (s : Supervisor) : Supervisor := foldl (flip sup_step) s es.

Definition sup_Status (s : Supervisor) : Status :=
  mkStatus (sp_Address (su_spec s)) [] true (su_state s) (su_detail s) (sp_Rescan (su_spec s)).

(** ** The connection of a client *)

(** Where [muxd.Client.Run] is: [Dialed] has a connection, [Healthy] has said so, [Listening] has
    published it and reads from it; the last two are after the end of the stream. *)
Inductive client_place : Type :=
  | ClTop | Dialing | Dialed (conn : nat) | Healthy (conn : nat) | Listening (conn : nat) | StreamEnded (err : error)
  | Unpublished (err : error) | Waiting | ClStopped.

(** [cl_closed] are the connections that [Reread] closed, [cl_rereads] its callers that have looked at
    the connection and not closed it; [cl_last] is how the last dial or stream ended. *)
Record Client : Type := mkClient {
  cl_place : client_place; cl_delay : duration; cl_done : bool; cl_connected : bool; cl_detail : string; cl_conn : option nat;
  cl_next : nat; cl_closed : gset nat; cl_rereads : list (option nat); cl_last : option string }.

Definition NewClient : Client := mkClient ClTop backoffInitial false false "" None 0 ∅ [] None.

Definition cl_go (p : client_place) (c : Client) : Client :=
  mkClient p (cl_delay c) (cl_done c) (cl_connected c) (cl_detail c) (cl_conn c) (cl_next c) (cl_closed c) (cl_rereads c) (cl_last c).
Definition setHealth (connected : bool) (detail : string) (c : Client) : Client :=
  mkClient (cl_place c) (cl_delay c) (cl_done c) connected detail (cl_conn c) (cl_next c) (cl_closed c) (cl_rereads c) (cl_last c).
Definition setConn (conn : option nat) (c : Client) : Client :=
  mkClient (cl_place c) (cl_delay c) (cl_done c) (cl_connected c) (cl_detail c) conn (cl_next c) (cl_closed c) (cl_rereads c) (cl_last c).
Definition set_delay (d : duration) (c : Client) : Client :=
  mkClient (cl_place c) d (cl_done c) (cl_connected c) (cl_detail c) (cl_conn c) (cl_next c) (cl_closed c) (cl_rereads c) (cl_last c).
Definition cl_cancel (c : Client) : Client :=
  mkClient (cl_place c) (cl_delay c) true (cl_connected c) (cl_detail c) (cl_conn c) (cl_next c) (cl_closed c) (cl_rereads c) (cl_last c).
Definition new_conn (c : Client) : Client :=
  mkClient (Dialed (cl_next c)) (cl_delay c) (cl_done c) (cl_connected c) (cl_detail c) (cl_conn c) (S (cl_next c)) (cl_closed c)
    (cl_rereads c) (cl_last c).
Definition set_last (e : string) (c : Client) : Client :=
  mkClient (cl_place c) (cl_delay c) (cl_done c) (cl_connected c) (cl_detail c) (cl_conn c) (cl_next c) (cl_closed c) (cl_rereads c) (Some e).
Definition set_rereads (closed : gset nat) (l : list (option nat)) (c : Client) : Client :=
  mkClient (cl_place c) (cl_delay c) (cl_done c) (cl_connected c) (cl_detail c) (cl_conn c) (cl_next c) closed l (cl_last c).

Definition errText (err : error) : string := default "connection closed" err.

Inductive client_event : Type :=
  | ClLoop
  | DialFails (err : string)
  | DialSucceeds
  | ClTurn                       (* the next section under the mutex *)
  | EndOfStream (err : error)    (* [listen] returns *)
  | Pause                        (* the pause is over *)
  | PauseCancelled
  | ClCancelled
  | RereadLooks | RereadCloses.  (* the two sections of a call of [Reread] *)

Definition client_step (ev : client_event) (c : Client) : Client :=
  match ev, cl_place c with
  | ClLoop, ClTop => cl_go (if cl_done c then ClStopped else Dialing) c
  | DialFails err, Dialing => cl_go Waiting (set_last err (setHealth false err c))
  | DialSucceeds, Dialing => new_conn c
  | ClTurn, Dialed conn => cl_go (Healthy conn) (setHealth true "" c)
  | ClTurn, Healthy conn => cl_go (Listening conn) (set_delay backoffInitial (setConn (Some conn) c))
  | EndOfStream err, Listening _ => cl_go (StreamEnded err) c
  | ClTurn, StreamEnded err => cl_go (Unpublished err) (setConn None c)
  | ClTurn, Unpublished err =>
      cl_go (if cl_done c then ClStopped else Waiting) (set_last (errText err) (setHealth false (errText err) c))
  | Pause, Waiting => cl_go ClTop (set_delay (nextBackoff (cl_delay c)) c)
  | PauseCancelled, Waiting => if cl_done c then cl_go ClStopped c else c
  | ClCancelled, _ => cl_cancel c
  | RereadLooks, _ => set_rereads (cl_closed c) (cl_rereads c ++ [cl_conn c]) c
  | RereadCloses, _ =>
      match cl_rereads c with
      | [] => c
      | conn :: l => set_rereads (match conn with Some k => {[k]} ∪ cl_closed c | None => cl_closed c end) l c
      end
  | _, _ => c
  end.
Definition client_run (es : list client_event) (c : Client) : Client := foldl (flip client_step) c es.

Definition Health (c : Client) : bool * string := (cl_connected c, cl_detail c).

(** ** The group *)

(** [um_dialer]: what the client of the address says, if there is one. *)
Record unmanagedMuxer : Type := mkUnmanaged { um_address : string; um_declared : bool; um_dialer : option (bool * string) }.

Definition unmanaged_status (u : unmanagedMuxer) : Status :=
  let address := um_address u in
  let '(st, detail) :=
    match um_dialer u with
    | None => (StateStarting, address +:+ " is configured but nothing is dialing it")
    | Some (connected, detail) =>
        if connected then (StateExternal, address +:+ " is served by an external muxer — quince does not own it")
        else if bool_decide (detail = "") then (StateStarting, address +:+ " — no connection attempted yet")
        else if negb (um_declared u) then
          (StateAbsent, "nothing is listening at " +:+ address +:+ ", which is normal unless you expected a muxer there — quince tried it because it is a default, not because you configured it")
        else (StateUnreachable, address +:+ " is not answering: " +:+ detail)
    end%string in
  mkStatus address [] false st detail false.

Record Group : Type := mkGroup { gr_sups : list Supervisor; gr_unmanaged : list unmanagedMuxer; gr_transports : option (string → list string) }.
Definition NewGroup : Group := mkGroup [] [] None.
Definition SetTransports (f : string → list string) (g : Group) : Group := mkGroup (gr_sups g) (gr_unmanaged g) (Some f).
Definition Supervise (s : Supervisor) (g : Group) : Group := mkGroup (gr_sups g ++ [s]) (gr_unmanaged g) (gr_transports g).
Definition AddUnmanaged (address : string) (declared : bool) (dialer : option (bool * string)) (g : Group) : Group :=
  mkGroup (gr_sups g) (gr_unmanaged g ++ [mkUnmanaged address declared dialer]) (gr_transports g).
Definition transportsFor (g : Group) (address : string) : list string := match gr_transports g with None => [] | Some f => f address end.
Definition with_transports (g : Group) (s : Status) : Status :=
  mkStatus (ms_Address s) (transportsFor g (ms_Address s)) (ms_Managed s) (ms_State s) (ms_Detail s) (ms_Rescan s).
Definition Statuses (g : Group) : list Status :=
  (with_transports g <$> (sup_Status <$> gr_sups g)) ++ (with_transports g <$> (unmanaged_status <$> gr_unmanaged g)).
Definition Names (g : Group) : string := join ((λ s, sp_Name (su_spec s)) <$> gr_sups g) ", ".

(** Whom [Group.Rescan] asks: a supervisor, whose answer it returns; or every client, which it makes
    read again, and the answer. *)
Inductive rescan_plan : Type := AsksSupervisor (s : Supervisor) | Rereads (addresses : list string) (r : RescanResult).
Definition group_Rescan (g : Group) : rescan_plan :=
  match head (filter (λ s, sp_Rescan (su_spec s) = true) (gr_sups g)) with
  | Some s => AsksSupervisor s
  | None =>
      let dialed := filter (λ u, is_Some (um_dialer u)) (gr_unmanaged g) in
      Rereads (um_address <$> dialed)
        (if Nat.ltb 0 (length dialed) then mkRescanResult true ""
         else if Nat.ltb 0 (length (gr_unmanaged g)) then
           mkRescanResult false "no muxer connection to re-read: the configured muxers have no dialer"
         else mkRescanResult false "no muxer is configured, so there is nothing to re-read")
  end.

(** ** What a configuration asks for *)

Definition endpoint_IsZero (e : Endpoint) : bool := match e with NoEndpoint => true | _ => false end.
Definition endpoint_String (e : Endpoint) : string := if endpoint_IsZero e then "" else Env e.

Record muxerPlan : Type := mkPlan { pl_supervise : list Spec; pl_external : list string; pl_problems : list string }.
Fixpoint plan_from (seen : gset string) (l : list MuxerConfig) : list string :=
  match l with
  | [] => []
  | m :: l =>
      match muxaddr_Parse (mc_Address m) with
      | Err _ | Ok NoEndpoint => plan_from seen l
      | Ok ep =>
          let addr := endpoint_String ep in
          if bool_decide (addr ∈ seen) then plan_from seen l else addr :: plan_from ({[addr]} ∪ seen) l
      end
  end.
Definition plannedMuxers (l : list MuxerConfig) : muxerPlan := mkPlan [] (plan_from ∅ l) [].

Definition buildMuxerGroup (l : list MuxerConfig) (declared : bool) (dialerFor : option (string → option (bool * string))) : Group :=
  let plan := plannedMuxers l in
  let g := foldl (λ g spec, Supervise (New spec) g) NewGroup (pl_supervise plan) in
  foldl (λ g address, AddUnmanaged address declared (match dialerFor with None => None | Some f => f address end) g) g (pl_external plan).

#[global] Instance Endpoint_eq_dec : EqDecision Endpoint.
Proof. solve_decision. Defined.

(** The clients that are started, by endpoint; the index of an address that cannot be dialed is
    refused. *)
Fixpoint clients_from (i : nat) (eps : list Endpoint) (l : list MuxerConfig) : result (list Endpoint) :=
  match l with
  | [] => Ok eps
  | m :: l =>
      let at_ e := Err ("muxers[" +:+ fmt_d (Z.of_nat i) +:+ "].address: " +:+ e) in
      match muxaddr_Parse (mc_Address m) with
      | Err e => at_ e
      | Ok NoEndpoint => at_ "muxaddr: no muxer address configured"%string
      | Ok ep => clients_from (S i) (if bool_decide (ep ∈ eps) then eps else eps ++ [ep]) l
      end
  end.
Definition buildClients (l : list MuxerConfig) : result (list Endpoint) := clients_from 0 [] l.

(** The clients by their canonical addresses, as [dialerLookup] finds them. *)
Definition dialerLookup (clients : Endpoint → Client) (eps : list Endpoint) (address : string) : option (bool * string) :=
  (λ ep, Health (clients ep)) <$> head (filter (λ ep, endpoint_String ep = address) eps).

(** What [MuxersHealth] reports, at the moment of the states of clients and registry. *)
Definition MuxersHealth `{!MapRange, !SortSlice} (c : Configuration) (clients : Endpoint → Client) (eps : list Endpoint) (r : Registry) : list Status :=
  Statuses (SetTransports (TransportsForSource r)
    (buildMuxerGroup (ResolvedMuxers c) (bool_decide (is_Some (c_Muxers c))) (Some (dialerLookup clients eps)))).

(** ** The supervisor keeps one child, and answers *)

(** What holds at a place, of the child, the state that is shown and the context. *)
Definition place_ok (p : place) (ch : child) (st : muxer_state) (done : bool) : Prop :=
  match p with
  | Up _ | Terminating (Some _) => ch ≠ NoChild ∧ st = StateRunning
  | Terminating None => ch ≠ NoChild ∧ st = StateRunning ∧ done = true
  | Ended => ch = NoChild ∧ st = StateStopped ∧ done = true
  | _ => ch = NoChild ∧ st ≠ StateStopped
  end.
(** The request that the supervisor has in hand. *)
Definition in_hand (p : place) : option nat := match p with Reprobing r => Some r | Terminating r => r | _ => None end.

Record sup_inv (s : Supervisor) : Prop := {
  si_place : place_ok (su_place s) (su_child s) (su_state s) (su_done s);
  si_backoff : defaultBackoffMin ≤ su_backoff s ≤ defaultBackoffMax;
  si_taken : ∀ r, su_callers s !! r = Some Taken → in_hand (su_place s) = Some r }.

Lemma sup_new_inv spec : sup_inv (New spec).
Proof. by split. Qed.

(** What [answer] leaves: the request is not in hand any more. *)
Lemma answer_taken req r s id :
  su_callers (answer req r s) !! id = Some Taken → su_callers s !! id = Some Taken ∧ id ≠ req.
Proof.
  unfold answer. destruct (su_callers s !! req) as [[]|] eqn:E; simpl; intros H; try (split; [done|congruence]).
  destruct (decide (id = req)) as [->|Hne]; [by rewrite lookup_insert_eq in H|]. by rewrite lookup_insert_ne in H.
Qed.
Lemma answer_rest req r s : answer req r s = set_callers (su_callers (answer req r s)) s.
Proof. unfold answer. by destruct s, (_ !! req) as [[]|]. Qed.

(** An invariant of the callers: none is taken but what [hand] says. *)
Definition taken_in (hand : option nat) (m : gmap nat caller) : Prop := ∀ r, m !! r = Some Taken → hand = Some r.
Lemma taken_set hand m req c : (c = Taken → hand = Some req) → (∀ r, m !! r = Some Taken → r ≠ req → hand = Some r) → taken_in hand (<[req := c]> m).
Proof. intros Hc Hm r. destruct (decide (r = req)) as [->|Hne]; [rewrite lookup_insert_eq; naive_solver|rewrite lookup_insert_ne; auto]. Qed.
Lemma taken_answered req r s : taken_in (Some req) (su_callers s) → taken_in None (su_callers (answer req r s)).
Proof. intros H id Hid. apply answer_taken in Hid as [Hid Hne]. by specialize (H id Hid) as [= ->]. Qed.

(** The request in hand is answered, and the supervisor goes on. *)
Lemma answer_inv p req r s :
  place_ok p (su_child s) (su_state s) (su_done s) → in_hand p = None →
  defaultBackoffMin ≤ su_backoff s ≤ defaultBackoffMax → taken_in (Some req) (su_callers s) → sup_inv (go p (answer req r s)).
Proof.
  intros Hp Hh Hb Ht. pose proof (taken_answered req r s Ht) as Hn. rewrite answer_rest. split; simpl; try done. by rewrite Hh.
Qed.
Lemma accept_inv p req s :
  place_ok p (su_child s) (su_state s) (su_done s) → in_hand p = None → taken_in (Some req) (su_callers s) →
  sup_inv (go p (accept req s)).
Proof.
  intros Hp Hh Ht. pose proof (taken_answered req (mkRescanResult true "") s Ht) as Hn. unfold accept. rewrite answer_rest.
  split; simpl; try done. by rewrite Hh.
Qed.

Lemma probed_inv served s : (∃ req, su_place s = Reprobing req) ∨ su_place s = Probing → sup_inv s → sup_inv (probed served s).
Proof.
  intros Hp [H Hb Ht]. unfold probed. destruct Hp as [[req Hp]|Hp]; simpl; rewrite Hp in *; destruct H as [Hc Hs]; destruct served.
  - by apply answer_inv.
  - by apply accept_inv.
  - by split.
  - by split.
Qed.

Lemma exited_inv reason ranFor s :
  su_child s = NoChild → su_state s ≠ StateStopped → defaultBackoffMin ≤ su_backoff s ≤ defaultBackoffMax → taken_in None (su_callers s) →
  sup_inv (exited reason ranFor s).
Proof.
  intros Hc Hs Hb Ht. unfold exited. generalize (S (if defaultHealthyRun <=? ranFor then 0%nat else su_crashes s)) as n. intros n.
  by destruct (Nat.leb crashLoopThreshold n).
Qed.

Lemma waited_inv err now s : (∃ t, su_place s = Up t) ∨ (∃ req, su_place s = Terminating req) → sup_inv s → sup_inv (waited err now s).
Proof.
  intros Hp [H Hb Ht]. unfold waited. simpl.
  destruct Hp as [[t Hp]|[[req|] Hp]]; rewrite Hp in *; destruct H as [Hc Hs].
  - apply exited_inv; simpl; try done. by rewrite Hs.
  - apply accept_inv; simpl; try done. by rewrite Hs.
  - destruct Hs as [Hs Hd]. by split.
Qed.

Lemma takes_inv req s : sup_inv s → sup_inv (takes req s).
Proof.
  intros [H Hb Ht]. unfold takes. destruct (su_callers s !! req) as [[]|] eqn:E; try by split.
  assert (su_place s = Refused ∨ (∃ t, su_place s = Up t) ∨ su_place s = Sleeping → taken_in (Some req) (<[req := Taken]> (su_callers s))) as Hm.
  { intros Hp. apply taken_set; [done|]. intros r Hr _. specialize (Ht r Hr). by destruct Hp as [Hp|[[t Hp]|Hp]]; rewrite Hp in Ht. }
  destruct (su_place s) eqn:Hp; try (by split; rewrite ?Hp).
  - split; simpl; [done..|]. apply Hm. by left.
  - split; simpl; [done..|]. apply Hm. right; left. eauto.
  - apply accept_inv; simpl; try done. apply Hm. by right; right.
Qed.

Lemma sup_inv_step ev s : sup_inv s → sup_inv (sup_step ev s).
Proof.
  intros Hi. pose proof Hi as [H Hb Ht]. destruct ev as [|served|now|err| |req|now| | |err|req|req|]; simpl.
  - destruct (su_place s) eqn:Hp; try done; destruct H as [Hc Hs]; destruct (su_done s) eqn:Hd; by split.
  - destruct (su_place s) eqn:Hp; try done; (apply probed_inv; [|done]); rewrite Hp; eauto.
  - destruct (su_place s) eqn:Hp; try done; by split.
  - destruct (su_place s) eqn:Hp; try done; destruct H as (Hc & Hs); by apply exited_inv.
  - destruct (su_place s) eqn:Hp; try done; destruct (su_done s) eqn:Hd; try done; destruct H as [Hc Hs]; by split.
  - destruct (su_place s) eqn:Hp; try done; by apply takes_inv.
  - destruct (su_place s) eqn:Hp; try done; destruct (su_child s); try done; (apply waited_inv; [|done]); rewrite Hp; eauto.
  - destruct (su_place s) as [| | | | | |[]| |] eqn:Hp; try done; destruct (su_child s) eqn:Hc; try done;
      (split; simpl; rewrite ?Hp; [|done..]); simpl in *; naive_solver.
  - destruct (su_place s) eqn:Hp; try done. destruct H as [Hc Hs]. split; simpl; try done. by apply (backoff_step (su_backoff s)).
  - destruct (su_child s) eqn:Hc; try done. split; simpl; [|done..]. unfold place_ok in *. by repeat case_match; destruct H.
  - destruct (su_callers s !! req) eqn:E; [done|]. split; simpl; [done..|]. apply taken_set; [done|]. auto.
  - destruct (su_callers s !! req) as [[]|] eqn:E; try done; (split; simpl; [done..|]; apply taken_set; [done|auto]).
  - split; simpl; try done. unfold place_ok in *. clear Hi Hb Ht. repeat case_match; naive_solver.
Qed.
Lemma sup_inv_run es s : sup_inv s → sup_inv (sup_run es s).
Proof. revert s. induction es as [|e es IH]; intros s H; [done|]. apply IH. by apply sup_inv_step. Qed.

(** A turn of the supervisor itself, when its context has ended: what it does next, from what it would
    be answered. *)
Record answers : Type := mkAnswers { an_served : bool; an_start : result time; an_now : time }.
Definition own_turn (a : answers) (s : Supervisor) : sup_event :=
  match su_place s with
  | Top | Ended => Loop
  | Probing | Reprobing _ => Probed (an_served a)
  | Spawning => match an_start a with Ok now => Started now | Err e => StartFailed e end
  | Refused | Up _ | Sleeping => SeesDone
  | Terminating _ => match su_child s with Alive => GraceOver | _ => Waits (an_now a) end
  end.
(** Anything happens, and then it has a turn. *)
Definition round (rd : list sup_event * answers) (s : Supervisor) : Supervisor :=
  let s := sup_run rd.1 s in sup_step (own_turn rd.2 s) s.
Definition rounds (l : list (list sup_event * answers)) (s : Supervisor) : Supervisor := foldl (flip round) s l.

Definition rank (s : Supervisor) : nat :=
  match su_place s with
  | Ended => 0 | Top => 1 | Sleeping => 2 | Terminating _ => match su_child s with Alive => 3 | _ => 2 end
  | Up _ => 4 | Spawning => 5 | Reprobing _ => 6 | Refused => 7 | Probing => 8
  end.

Lemma exited_rank reason ranFor s : rank (exited reason ranFor s) = 2%nat ∧ su_done (exited reason ranFor s) = su_done s.
Proof.
  unfold exited. generalize (S (if defaultHealthyRun <=? ranFor then 0%nat else su_crashes s)) as n. intros n.
  by destruct (Nat.leb crashLoopThreshold n).
Qed.
Lemma waited_rank err now s :
  (rank (waited err now s) ≤ match su_place s with Up _ => 2 | Terminating _ => 1 | _ => rank s end)%nat ∧ su_done (waited err now s) = su_done s.
Proof.
  unfold waited. simpl. destruct (su_place s) as [| | | | | |[req|]| |] eqn:Hp.
  1-5,9,10: by unfold rank; simpl; rewrite Hp.
  - destruct (exited_rank (exitReason err) (time_sub now started) (set_child NoChild s)) as [-> ->]. by split.
  - unfold accept. rewrite answer_rest. by split; [unfold rank; simpl; lia|].
  - by split; [unfold rank; simpl; lia|].
Qed.

Lemma answer_done req r s : su_done (answer req r s) = su_done s.
Proof. by rewrite answer_rest. Qed.
Lemma probed_rank served s : (rank (probed served s) ≤ rank s)%nat ∧ su_done (probed served s) = su_done s.
Proof.
  unfold probed. simpl. destruct (su_place s) eqn:Hp; try by unfold rank; simpl; rewrite Hp.
  - destruct served; (split; [unfold rank; simpl; rewrite Hp; lia|done]).
  - destruct served; (split; [unfold rank; simpl; rewrite Hp; lia|]); simpl; by rewrite answer_done.
Qed.
Lemma takes_rank req s : (rank (takes req s) ≤ rank s)%nat ∧ su_done (takes req s) = su_done s.
Proof.
  unfold takes. destruct (su_callers s !! req) as [[]|]; try done. destruct (su_place s) eqn:Hp; try done; simpl; rewrite ?answer_done;
    (split; [|done]); unfold rank; simpl; rewrite Hp; try lia. destruct (su_child s); lia.
Qed.

Lemma rank_step ev s : su_done s = true → (rank (sup_step ev s) ≤ rank s)%nat ∧ su_done (sup_step ev s) = true.
Proof.
  intros Hd. pose proof (takes_rank) as Htk. destruct ev as [|served|now|err| |req|now| | |err|req|req|]; simpl.
  - destruct (su_place s) eqn:Hp; rewrite ?Hd; (split; [|done]); try done. unfold rank. simpl. rewrite Hp. lia.
  - rewrite <-Hd. destruct (su_place s) eqn:Hp; try done; apply probed_rank.
  - destruct (su_place s) eqn:Hp; (split; [|done]); try done. unfold rank. simpl. rewrite Hp. lia.
  - rewrite <-Hd. destruct (su_place s) eqn:Hp; try done. match goal with |- context [exited ?r _ s] => destruct (exited_rank r 0 s) as [-> ->] end.
    split; [|done]. unfold rank. rewrite Hp. lia.
  - destruct (su_place s) eqn:Hp; rewrite ?Hd; (split; [|done]); try done; unfold rank; simpl; rewrite Hp; try lia. destruct (su_child s); lia.
  - rewrite <-Hd. destruct (su_place s) eqn:Hp; try done; apply takes_rank.
  - rewrite <-Hd. destruct (su_place s) eqn:Hp; try done; destruct (su_child s) eqn:Hc; try done;
      destruct (waited_rank err now s) as [H1 H2]; rewrite Hp in H1; (split; [|done]); unfold rank at 2; rewrite Hp, ?Hc; lia.
  - destruct (su_place s) eqn:Hp; try done; destruct (su_child s) eqn:Hc; try done; (split; [|done]); unfold rank; simpl; rewrite Hp, Hc; lia.
  - destruct (su_place s) eqn:Hp; (split; [|done]); try done. unfold rank. simpl. rewrite Hp. lia.
  - destruct (su_child s) eqn:Hc; try done. split; [|done]. unfold rank. simpl. rewrite Hc. destruct (su_place s); lia.
  - by destruct (su_callers s !! req).
  - by destruct (su_callers s !! req) as [[]|].
  - done.
Qed.
Lemma rank_run es s : su_done s = true → (rank (sup_run es s) ≤ rank s)%nat ∧ su_done (sup_run es s) = true.
Proof.
  revert s. induction es as [|e es IH]; intros s Hd; [done|]. destruct (rank_step e s Hd) as [H1 H2].
  destruct (IH _ H2) as [H3 H4]. split; [|done]. simpl in *. lia.
Qed.
Lemma rank_own a s : sup_inv s → su_done s = true → rank s ≠ 0%nat → (rank (sup_step (own_turn a s) s) < rank s)%nat.
Proof.
  intros [H _ _] Hd Hr. unfold own_turn, place_ok in *. unfold rank in Hr. destruct (su_place s) as [| | |q| |t|q| |] eqn:Hp; simpl; rewrite ?Hp, ?Hd; try done.
  - unfold rank; simpl; rewrite Hp; lia.
  - unfold probed. simpl. rewrite Hp. destruct (an_served a); unfold rank; simpl; rewrite Hp; lia.
  - unfold rank; simpl; rewrite Hp; lia.
  - unfold probed. simpl. rewrite Hp. destruct (an_served a); unfold rank; simpl; rewrite Hp; lia.
  - destruct (an_start a) as [now|err]; simpl; rewrite Hp; [unfold rank; simpl; rewrite Hp; lia|].
    match goal with |- context [exited ?r _ s] => destruct (exited_rank r 0 s) as [-> _] end. unfold rank. rewrite Hp. lia.
  - unfold rank; simpl; rewrite Hp. destruct (su_child s); lia.
  - destruct (su_child s) as [| |e] eqn:Hc; simpl; rewrite Hp, ?Hc; [by destruct q; destruct H|unfold rank; simpl; rewrite Hp, Hc; lia|].
    destruct (waited_rank e (an_now a) s) as [Hw _]. rewrite Hp in Hw. unfold rank at 2. rewrite Hp, Hc. lia.
  - unfold rank; simpl; rewrite Hp; lia.
Qed.

(** A request that is over stays over; one in hand is over within two turns. *)
Definition over (r : nat) (s : Supervisor) : Prop := su_callers s !! r = Some TimedOut ∨ ∃ a, su_callers s !! r = Some (Answered a).
Definition pending (r k : nat) (s : Supervisor) : Prop :=
  over r s ∨
  su_callers s !! r = Some Taken ∧
  ((1 ≤ k)%nat ∧ su_place s = Reprobing r ∨ (1 ≤ k)%nat ∧ su_place s = Terminating (Some r) ∧ su_child s ≠ Alive ∨
   (2 ≤ k)%nat ∧ su_place s = Terminating (Some r)).

Lemma over_insert (m : gmap nat caller) r q c :
  (m !! r = Some TimedOut ∨ ∃ a, m !! r = Some (Answered a)) → (m !! q = None ∨ m !! q = Some Offering ∨ m !! q = Some Taken) →
  <[q := c]> m !! r = m !! r.
Proof. intros Hr Hq. apply lookup_insert_ne. intros ->. naive_solver congruence. Qed.

(** How a call goes on. *)
Definition call_next (old : option caller) (c : caller) : Prop :=
  match old with
  | None => c = Offering
  | Some Offering => c = Taken ∨ c = TimedOut ∨ c = Answered (mkRescanResult true "")
  | Some Taken => c = TimedOut ∨ ∃ a, c = Answered a
  | _ => False
  end.
Definition calls_move (m m' : gmap nat caller) : Prop := m' = m ∨ ∃ q c, m' = <[q := c]> m ∧ call_next (m !! q) c.

Lemma answer_calls m q r s : su_callers s = m → calls_move m (su_callers (answer q r s)).
Proof.
  intros <-. unfold answer. destruct (su_callers s !! q) as [[]|] eqn:E; try by left. right. exists q, (Answered r). rewrite E. simpl. eauto.
Qed.
Lemma exited_calls reason ranFor s : su_callers (exited reason ranFor s) = su_callers s.
Proof.
  unfold exited. generalize (S (if defaultHealthyRun <=? ranFor then 0%nat else su_crashes s)) as n. intros n.
  by destruct (Nat.leb crashLoopThreshold n).
Qed.
Lemma takes_calls req s : calls_move (su_callers s) (su_callers (takes req s)).
Proof.
  unfold takes. destruct (su_callers s !! req) as [[]|] eqn:E; try by left. destruct (su_place s); try by left.
  - right. exists req, Taken. rewrite E. simpl. auto.
  - right. exists req, Taken. rewrite E. simpl. auto.
  - right. exists req, (Answered (mkRescanResult true "")). rewrite E. split; [|simpl; auto]. unfold accept, answer. simpl.
    rewrite lookup_insert_eq. simpl. by rewrite insert_insert_eq.
Qed.
Lemma callers_step ev s : calls_move (su_callers s) (su_callers (sup_step ev s)).
Proof.
  destruct ev as [|served|now|err| |req|now| | |err|req|req|]; simpl; try by left.
  - left. destruct (su_place s), (su_done s); done.
  - destruct (su_place s) eqn:Hp; try by left.
    + left. unfold probed. simpl. rewrite Hp. by destruct served.
    + unfold probed. simpl. rewrite Hp. destruct served; by apply answer_calls.
  - left. by destruct (su_place s).
  - left. destruct (su_place s); try done. apply exited_calls.
  - left. destruct (su_place s), (su_done s); done.
  - destruct (su_place s); try (by left); apply takes_calls.
  - destruct (su_place s) as [| | | | | |[q|]| |] eqn:Hp; try (by left); destruct (su_child s); try (by left); unfold waited; simpl; rewrite Hp.
    + left. by rewrite exited_calls.
    + by apply answer_calls.
    + by left.
  - left. destruct (su_place s), (su_child s); done.
  - left. by destruct (su_place s).
  - left. by destruct (su_child s).
  - destruct (su_callers s !! req) eqn:E; [by left|]. right. exists req, Offering. by rewrite E.
  - destruct (su_callers s !! req) as [[]|] eqn:E; try (by left); right; exists req, TimedOut; rewrite E; simpl; auto.
Qed.

Lemma over_step r ev s : over r s → over r (sup_step ev s).
Proof.
  unfold over. intros H. destruct (callers_step ev s) as [->|(q & c & -> & Hn)]; [done|].
  destruct (decide (q = r)) as [->|Hne]; [|by rewrite !lookup_insert_ne].
  by destruct H as [H|[a H]]; rewrite H in Hn.
Qed.
Lemma taken_step r ev s : su_callers s !! r = Some Taken → over r (sup_step ev s) ∨ su_callers (sup_step ev s) !! r = Some Taken.
Proof.
  unfold over. intros H. destruct (callers_step ev s) as [->|(q & c & -> & Hn)]; [by right|].
  destruct (decide (q = r)) as [->|Hne]; [|right; by rewrite lookup_insert_ne]. rewrite lookup_insert_eq. rewrite H in Hn.
  left. destruct Hn as [->|[a ->]]; eauto.
Qed.

Lemma pending_taken r k s : sup_inv s → over r s ∨ su_callers s !! r = Some Taken → (2 ≤ k)%nat → pending r k s.
Proof.
  intros Hi [H|H] Hk; [by left|]. right. split; [done|]. apply (si_taken _ Hi) in H.
  destruct (su_place s) as [| | | | | |[q|]| |]; simpl in H; try done; injection H as ->; [left; split; [lia|done]|by right; right].
Qed.

(** While a request is in hand, the supervisor stays where it is until it lets go of it. *)
Lemma hand_step ev s r :
  in_hand (su_place s) = Some r →
  in_hand (su_place (sup_step ev s)) = None ∨
  su_place (sup_step ev s) = su_place s ∧ (su_child (sup_step ev s) = su_child s ∨ ∃ e, su_child (sup_step ev s) = Dead e).
Proof.
  intros H. destruct (su_place s) as [| | |q| |t|[q|]| |] eqn:Hp; simpl in H; try done; injection H as ->;
    destruct ev as [|served|now|err| |req|now| | |err|req|req|]; simpl; rewrite ?Hp; auto.
  - left. unfold probed. simpl. rewrite Hp. by destruct served.
  - right. destruct (su_child s) eqn:Hc; simpl; rewrite ?Hc; eauto.
  - right. by destruct (su_callers s !! req); simpl; auto.
  - right. by destruct (su_callers s !! req) as [[]|]; simpl; auto.
  - destruct (su_child s) eqn:Hc; [right; auto..|]. left. unfold waited. simpl. by rewrite Hp.
  - right. destruct (su_child s) eqn:Hc; simpl; rewrite ?Hc; eauto.
  - right. destruct (su_child s) eqn:Hc; simpl; rewrite ?Hc; eauto.
  - right. by destruct (su_callers s !! req); simpl; auto.
  - right. by destruct (su_callers s !! req) as [[]|]; simpl; auto.
Qed.

Lemma pending_step r k ev s : sup_inv s → pending r k s → pending r k (sup_step ev s).
Proof.
  intros Hi [H|[H Hk]]; [left; by apply over_step|]. destruct (taken_step r ev s H) as [Ho|Ht]; [by left|]. right. split; [done|].
  assert (in_hand (su_place s) = Some r) as Hh by by apply (si_taken _ Hi).
  pose proof (si_taken _ (sup_inv_step ev s Hi) r Ht) as Hh'. destruct (hand_step ev s r Hh) as [E|[Hp Hc]]; [congruence|].
  rewrite Hp. destruct Hk as [?|[(? & ? & Hd)|?]]; [by left| |by right; right]. right; left. split_and!; try done.
  destruct Hc as [->|[e ->]]; done.
Qed.
Lemma pending_run r k es s : sup_inv s → pending r k s → pending r k (sup_run es s).
Proof. revert s. induction es as [|e es IH]; intros s Hi H; [done|]. apply IH; [by apply sup_inv_step|by apply pending_step]. Qed.
Lemma pending_own r k a s : sup_inv s → pending r (S k) s → pending r k (sup_step (own_turn a s) s).
Proof.
  intros Hi [H|[H Hk]]; [left; by apply over_step|]. destruct (taken_step r (own_turn a s) s H) as [Ho|Ht]; [by left|].
  pose proof (si_taken _ (sup_inv_step (own_turn a s) s Hi) r Ht) as Hh'. right. split; [done|].
  unfold own_turn in *. destruct Hk as [[? Hp]|[(? & Hp & Hc)|[? Hp]]]; rewrite Hp in *; simpl in *.
  - rewrite Hp in Hh'. unfold probed in Hh'. simpl in Hh'. rewrite Hp in Hh'. by destruct (an_served a).
  - pose proof (si_place _ Hi) as Hc'. rewrite Hp in Hc'. destruct Hc' as [Hc' _].
    destruct (su_child s) as [| |e] eqn:E; try done. simpl in Hh'. rewrite Hp, E in Hh'. unfold waited in Hh'. simpl in Hh'. by rewrite Hp in Hh'.
  - pose proof (si_place _ Hi) as Hc'. rewrite Hp in Hc'. destruct Hc' as [Hc' _].
    destruct (su_child s) as [| |e] eqn:E; try done; simpl in *; rewrite Hp, E in *.
    + right; left. simpl. split_and!; [lia|done|done].
    + unfold waited in Hh'. simpl in Hh'. by rewrite Hp in Hh'.
Qed.

Lemma round_inv rd s : sup_inv s → sup_inv (round rd s).
Proof. intros H. apply sup_inv_step. by apply sup_inv_run. Qed.
Lemma round_stops rd s : sup_inv s → su_done s = true → (rank (round rd s) ≤ pred (rank s))%nat ∧ su_done (round rd s) = true.
Proof.
  intros Hi Hd. unfold round. destruct (rank_run rd.1 s Hd) as [H1 H2]. pose proof (sup_inv_run rd.1 s Hi) as Hi'.
  destruct (rank_step (own_turn rd.2 (sup_run rd.1 s)) (sup_run rd.1 s) H2) as [H3 H4]. split; [|done].
  destruct (decide (rank (sup_run rd.1 s) = 0%nat)) as [E|E]; [lia|].
  pose proof (rank_own rd.2 _ Hi' H2 E). lia.
Qed.
Lemma rounds_stop l s : sup_inv s → su_done s = true → (rank (rounds l s) ≤ rank s - length l)%nat ∧ sup_inv (rounds l s).
Proof.
  revert s. induction l as [|rd l IH]; intros s Hi Hd; [by split; [simpl; lia|]|].
  destruct (round_stops rd s Hi Hd) as [H1 H2]. destruct (IH (round rd s) (round_inv rd s Hi) H2) as [H3 H4]. simpl in *. split; [lia|done].
Qed.
Lemma rounds_over r l s k : sup_inv s → (k ≤ length l)%nat → pending r k s → pending r 0 (rounds l s).
Proof.
  revert s k. induction l as [|rd l IH]; intros s k Hi Hk H; simpl in *.
  - replace k with 0%nat in H by lia. done.
  - apply (IH (round rd s) (pred k)); [by apply round_inv|lia|]. unfold round. apply pending_own; [by apply sup_inv_run|].
    apply pending_run; [done|]. destruct k; [|done]. destruct H as [H|[H Hx]]; [by left|]. right. split; [done|]. naive_solver lia.
Qed.

Lemma place_ok_child p ch st done :
  place_ok p ch st done → (ch ≠ NoChild → st = StateRunning) ∧ (st = StateStopped → ch = NoChild ∧ done = true).
Proof. destruct p as [| | | | | |[]| |]; simpl; naive_solver. Qed.

(** A child is only started at its place; and only once it is gone a request is accepted. *)
Lemma exited_child reason ranFor s : su_child (exited reason ranFor s) = su_child s.
Proof.
  unfold exited. generalize (S (if defaultHealthyRun <=? ranFor then 0%nat else su_crashes s)) as n. intros n.
  by destruct (Nat.leb crashLoopThreshold n).
Qed.
Lemma probed_child served s : su_child (probed served s) = su_child s.
Proof.
  unfold probed. simpl. destruct (su_place s); try done; destruct served; try done; simpl; by rewrite answer_rest.
Qed.
Lemma takes_child req s : su_child (takes req s) = su_child s.
Proof.
  unfold takes. destruct (su_callers s !! req) as [[]|]; try done. destruct (su_place s); try done. simpl. by rewrite answer_rest.
Qed.
Lemma waited_child err now s : su_child (waited err now s) = NoChild.
Proof.
  unfold waited. simpl. destruct (su_place s) as [| | | | | |[]| |]; try done; [by rewrite exited_child|]. simpl. by rewrite answer_rest.
Qed.
Lemma child_starts ev s : sup_inv s → su_child s = NoChild → su_child (sup_step ev s) ≠ NoChild → su_place s = Spawning.
Proof.
  intros Hi Hc. pose proof (si_place _ Hi) as Hp. destruct ev as [|served|now|err| |req|now| | |err|req|req|]; simpl; rewrite ?Hc; try done.
  - destruct (su_place s), (su_done s); done.
  - destruct (su_place s); try done; by rewrite probed_child.
  - by destruct (su_place s).
  - destruct (su_place s); by rewrite ?exited_child.
  - destruct (su_place s), (su_done s); done.
  - destruct (su_place s); try done; by rewrite takes_child.
  - by destruct (su_place s).
  - by destruct (su_place s).
  - by destruct (su_place s).
  - by destruct (su_callers s !! req).
  - by destruct (su_callers s !! req) as [[]|].
Qed.
(** It waits for the answer of a dial. *)
Definition awaits_probe (p : place) : Prop := p = Probing ∨ ∃ req, p = Reprobing req.
(** The supervisor's last act in [es] is a probe that found its address free. *)
Definition just_probed_free (spec : Spec) (es : list sup_event) : Prop :=
  ∃ es1 es2, es = es1 ++ Probed false :: es2 ∧ awaits_probe (su_place (sup_run es1 (New spec))) ∧
    ∀ k, su_place (sup_run (es1 ++ Probed false :: firstn k es2) (New spec)) = Spawning.

Lemma spawning_from ev s :
  su_place (sup_step ev s) = Spawning → su_place s = Spawning ∨ ev = Probed false ∧ awaits_probe (su_place s).
Proof.
  unfold awaits_probe. destruct ev as [|served|now|err| |req|now| | |err|req|req|]; simpl.
  - destruct (su_place s) eqn:E, (su_done s); simpl; rewrite ?E; (done || auto).
  - destruct (su_place s) eqn:E; simpl; rewrite ?E; auto; unfold probed; rewrite E; destruct served; naive_solver.
  - destruct (su_place s) eqn:E; simpl; rewrite ?E; (done || auto).
  - destruct (su_place s) eqn:E; simpl; rewrite ?E; (done || auto).
  - destruct (su_place s) eqn:E, (su_done s); simpl; rewrite ?E; (done || auto).
  - unfold takes. destruct (su_place s) eqn:E, (su_callers s !! req) as [[]|]; simpl; rewrite ?E; (done || auto).
  - unfold waited. destruct (su_place s) as [| | | | | |[]| |] eqn:E, (su_child s); simpl; rewrite ?E; (done || auto).
  - destruct (su_place s) eqn:E, (su_child s); simpl; rewrite ?E; (done || auto).
  - destruct (su_place s) eqn:E; simpl; rewrite ?E; (done || auto).
  - destruct (su_child s); auto.
  - destruct (su_callers s !! req); auto.
  - destruct (su_callers s !! req) as [[]|]; auto.
  - auto.
Qed.
Lemma spawning_probed spec es : su_place (sup_run es (New spec)) = Spawning → just_probed_free spec es.
Proof.
  induction es as [|ev es IH] using rev_ind; [done|]. unfold sup_run. rewrite foldl_app. simpl. intros H.
  destruct (spawning_from _ _ H) as [Hs|[-> Ha]].
  - destruct (IH Hs) as (es1 & es2 & -> & Ha & Hk). exists es1, (es2 ++ [ev]). rewrite <-app_assoc. split_and!; [done..|].
    intros k. destruct (decide (k ≤ length es2)%nat) as [Hl|Hl]; [by rewrite take_app_le|].
    rewrite take_ge by (rewrite length_app; simpl; lia). unfold sup_run. rewrite app_comm_cons, app_assoc, foldl_app. done.
  - exists es, []. split_and!; [done..|]. intros k. rewrite take_nil. unfold sup_run. by rewrite foldl_app.
Qed.
Lemma answered_childless ev s req r :
  sup_inv s → su_callers s !! req = Some Taken → su_callers (sup_step ev s) !! req = Some (Answered r) → su_child (sup_step ev s) = NoChild.
Proof.
  intros Hi Ht Hr. pose proof (si_taken _ Hi _ Ht) as Hh. pose proof (si_place _ Hi) as Hp.
  destruct (su_place s) as [| | |q| |t|[q|]| |] eqn:E; simpl in Hh; try done; injection Hh as ->;
    destruct ev as [|served|now|err| |q'|now| | |err|q'|q'|]; simpl in *; rewrite ?E in *; simpl in *; try congruence.
  - rewrite probed_child. by destruct Hp.
  - destruct Hp as [Hc _]. rewrite Hc in *. congruence.
  - destruct (su_callers s !! q') eqn:Eq; [congruence|]. simpl in Hr. rewrite lookup_insert_ne in Hr by congruence. congruence.
  - destruct (decide (q' = req)) as [->|Hne]; [rewrite Ht in Hr; simpl in Hr; by rewrite lookup_insert_eq in Hr|].
    destruct (su_callers s !! q') as [[]|]; simpl in Hr; rewrite ?lookup_insert_ne in Hr by done; congruence.
  - destruct (su_child s); [congruence..|]. apply waited_child.
  - destruct (su_child s); simpl in Hr; congruence.
  - destruct (su_child s); simpl in Hr; congruence.
  - destruct (su_callers s !! q') eqn:Eq; [congruence|]. simpl in Hr. rewrite lookup_insert_ne in Hr by congruence. congruence.
  - destruct (decide (q' = req)) as [->|Hne]; [rewrite Ht in Hr; simpl in Hr; by rewrite lookup_insert_eq in Hr|].
    destruct (su_callers s !! q') as [[]|]; simpl in Hr; rewrite ?lookup_insert_ne in Hr by done; congruence.
Qed.

(** C31: a supervised daemon runs once, is ended with its supervisor, and no request of it is lost.  In any
    interleaving with callers, its process and its timers: while there is a child it is shown as
    running; a supervisor that is shown as stopped has none; before each start of a child, the first
    one and every restart, the last thing the supervisor did is to dial its address and find it free;
    a request is accepted only once there is no child left; the pauses
    between starts stay within their bounds.  Once the context has ended, eight turns of the
    supervisor's, whatever it is answered and whatever comes between, stop it without a child; and two
    turns end every call that it has taken. *)
Theorem supervisor_keeps_its_word spec es :
  let s := sup_run es (New spec) in
  (su_child s ≠ NoChild → su_state s = StateRunning) ∧
  (su_state s = StateStopped → su_child s = NoChild ∧ su_done s = true) ∧
  (∀ ev, su_child s = NoChild → su_child (sup_step ev s) ≠ NoChild → just_probed_free spec es) ∧
  (∀ ev req r, su_callers s !! req = Some Taken → su_callers (sup_step ev s) !! req = Some (Answered r) →
     su_child (sup_step ev s) = NoChild) ∧
  defaultBackoffMin ≤ su_backoff s ≤ defaultBackoffMax ∧
  (∀ l, su_done s = true → (8 ≤ length l)%nat → su_place (rounds l s) = Ended ∧ su_child (rounds l s) = NoChild) ∧
  (∀ l req, su_callers s !! req = Some Taken → (2 ≤ length l)%nat → over req (rounds l s)).
Proof.
  intros s. assert (sup_inv s) as Hi by apply sup_inv_run, sup_new_inv. destruct (place_ok_child _ _ _ _ (si_place _ Hi)) as [H1 H2].
  split_and!; [done|done| | |apply (si_backoff _ Hi)|apply (si_backoff _ Hi)|..].
  - intros ev Hc Hs. by apply spawning_probed, (child_starts ev).
  - intros ev req r. by apply answered_childless.
  - intros l Hd Hl. destruct (rounds_stop l s Hi Hd) as [Hr Hi']. assert (rank s ≤ 8)%nat as Hs by (unfold rank; destruct (su_place s), (su_child s); lia).
    assert (rank (rounds l s) = 0%nat) as H0 by lia. pose proof (si_place _ Hi') as Hp. unfold rank in H0.
    destruct (su_place (rounds l s)) as [| | | | | |q| |]; simpl in Hp; try done; [by destruct (su_child (rounds l s))|by destruct Hp].
  - intros l req Ht Hl. pose proof (pending_taken req 2 s Hi (or_intror Ht) ltac:(done)) as Hp.
    destruct (rounds_over req l s 2 Hi Hl Hp) as [?|[_ Hx]]; [done|]. naive_solver lia.
Qed.

(** A daemon that crashes three times is shown as crash-looping, a rescan starts it anew, and a shutdown
    ends it. *)
Definition usbmuxd_day : list sup_event :=
  let crash := [Loop; Probed false; Started 0; ChildExits (Some "exit status 1"%string); Waits 5; Timer] in
  crash ++ crash ++ [Loop; Probed false; Started 0; ChildExits None; Waits 5; Rescans 1].
Lemma supervisor_keeps_its_word_witness :
  let s := sup_run (usbmuxd_day ++ [Takes 1; Loop; Probed false; Started 9; Rescans 2; Takes 2; Cancelled]) (New (Usbmuxd "/var/run/usbmuxd")) in
  let anything := ([], mkAnswers false (Err "no such file"%string) 0) in
  over 2 (rounds [anything; anything] s) ∧ su_place (rounds (replicate 8 anything) s) = Ended.
Proof.
  destruct (supervisor_keeps_its_word (Usbmuxd "/var/run/usbmuxd")
    (usbmuxd_day ++ [Takes 1; Loop; Probed false; Started 9; Rescans 2; Takes 2; Cancelled])) as (_ & _ & _ & _ & _ & H1 & H2).
  split; [apply H2; [vm_compute; reflexivity|simpl; lia]|]. apply H1; [vm_compute; reflexivity|simpl; lia].
Defined.
Example crash_loop_shown :
  let s := sup_run usbmuxd_day (New (Usbmuxd "/var/run/usbmuxd")) in
  (su_state s, su_detail s, su_backoff s) = (StateDegraded, "usbmuxd keeps exiting: exited cleanly (code 0)"%string, 2 * Second).
Proof. vm_compute. reflexivity. Qed.

(** Between two starts the muxer is shown as running though it is not. *)
Example no_child_shown_as_running :
  let s := sup_run [Loop; Probed false; Started 0; ChildExits (Some "exit status 1"%string); Waits 5] (New (Usbmuxd "/var/run/usbmuxd")) in
  su_child s = NoChild ∧ su_state s = StateRunning.
Proof. vm_compute. done. Qed.

(** ** What health says of a muxer that is dialed *)

(** The errors of dials and streams have a text. *)
Definition says_why (ev : client_event) : Prop :=
  match ev with DialFails e | EndOfStream (Some e) => e ≠ ""%string | _ => True end.
(** A connection is held. *)
Definition holds (p : client_place) : bool := match p with Healthy _ | Listening _ | StreamEnded _ | Unpublished _ => true | _ => false end.
Definition published (p : client_place) : bool := match p with Listening _ | StreamEnded _ => true | _ => false end.
Definition end_said (p : client_place) : Prop := match p with StreamEnded (Some e) | Unpublished (Some e) => e ≠ ""%string | _ => True end.

Record client_inv (c : Client) : Prop := {
  ci_connected : cl_connected c = holds (cl_place c);
  ci_detail : cl_detail c = if holds (cl_place c) then ""%string else default ""%string (cl_last c);
  ci_last : cl_last c ≠ Some ""%string;
  ci_end : end_said (cl_place c);
  ci_conn : ∀ k, cl_conn c = Some k → published (cl_place c) = true;
  ci_delay : backoffInitial ≤ cl_delay c ≤ backoffMax;
  ci_prompt : match cl_place c with Listening _ | StreamEnded _ | Unpublished _ => cl_delay c = backoffInitial | _ => True end }.

Lemma client_new_inv : client_inv NewClient.
Proof. by split. Qed.
Lemma client_inv_step ev c : says_why ev → client_inv c → client_inv (client_step ev c).
Proof.
  intros Hev Hi. pose proof Hi as [Hc Hd Hl He Hk Hb Hq].
  destruct ev as [|err| | |err| | | | |]; simpl; try (by split); [..|by destruct (cl_rereads c)];
    destruct (cl_place c) as [| | | | |err'|err'| |] eqn:Hp; try done; try (split; simpl; rewrite ?Hp; done).
  - by destruct (cl_done c); split.
  - split; simpl; try done. congruence.
  - assert (errText err' ≠ ""%string) by by destruct err'. destruct (cl_done c); split; simpl; try done; congruence.
  - split; simpl; try done. by apply backoff_step.
  - destruct (cl_done c); [|done]. by split.
Qed.
Lemma client_inv_run es c : Forall says_why es → client_inv c → client_inv (client_run es c).
Proof. intros Hes. revert c. induction Hes as [|e es He _ IH]; intros c H; [done|]. apply IH. by apply client_inv_step. Qed.

(** What [Reread] relies on: a connection that it closes is dialed again after the shortest pause. *)
Lemma reread_is_prompt es conn :
  Forall says_why es → cl_place (client_run es NewClient) = Listening conn →
  cl_delay (client_step ClTurn (client_step ClTurn (client_step (EndOfStream (Some "use of closed network connection"%string)) (client_run es NewClient))))
    = backoffInitial.
Proof.
  intros Hes Hp. pose proof (ci_prompt _ (client_inv_run es NewClient Hes client_new_inv)) as H. rewrite Hp in H.
  simpl. rewrite Hp. simpl. exact H.
Qed.

(** ** Addresses *)

Lemma trim_right_idem s : trim_right (trim_right s) = trim_right s.
Proof.
  induction s as [|c s IH]; [done|]. simpl. destruct (trim_right s) as [|c' s'] eqn:E.
  - destruct (is_space c) eqn:Hc; [done|]. simpl. by rewrite Hc.
  - cbn [trim_right] in *. by rewrite IH.
Qed.
Lemma trim_right_cons c s : trim_right s = s → s ≠ ""%string → trim_right (String c s) = String c s.
Proof. intros H Hs. simpl. rewrite H. by destruct s. Qed.
Lemma trim_right_tail c s : trim_right (String c s) = String c s → trim_right s = s.
Proof. simpl. destruct (trim_right s) as [|c' s'] eqn:E; [destruct (is_space c); [done|]|]; congruence. Qed.
Lemma trim_left_trim_right s : trim_left s = s → trim_left (trim_right s) = trim_right s.
Proof.
  destruct s as [|c s]; [done|]. simpl. destruct (is_space c) eqn:Hc.
  - intros H. exfalso. assert (∀ t, (String.length (trim_left t) ≤ String.length t)%nat) as Hl.
    { induction t as [|c' t IH]; [done|]. simpl. destruct (is_space c'); simpl; lia. }
    specialize (Hl s). rewrite H in Hl. simpl in Hl. lia.
  - intros _. destruct (trim_right s); simpl; by rewrite Hc.
Qed.
Lemma trim_left_idem s : trim_left (trim_left s) = trim_left s.
Proof. induction s as [|c s IH]; [done|]. simpl. destruct (is_space c) eqn:Hc; [done|]. simpl. by rewrite Hc. Qed.
Lemma trim_space_idem s : trim_space (trim_space s) = trim_space s.
Proof. unfold trim_space. rewrite trim_left_trim_right by apply trim_left_idem. apply trim_right_idem. Qed.

Lemma substring_all s : String.substring 0 (String.length s) s = s.
Proof. induction s as [|c s IH]; [done|]. simpl. by rewrite IH. Qed.
Lemma str_drop_tail n s : trim_right s = s → trim_right (str_drop n s) = str_drop n s.
Proof.
  unfold str_drop. revert s. induction n as [|n IH]; intros s H; [by rewrite Nat.sub_0_r, substring_all|].
  destruct s as [|c s]; [done|]. simpl. apply IH. by eapply trim_right_tail.
Qed.

Lemma unix_parses p : p ≠ ""%string → trim_right p = p → muxaddr_Parse (unixPrefix +:+ p) = Ok (UnixSocket p).
Proof.
  intros Hp Ht. unfold muxaddr_Parse. assert (trim_space (unixPrefix +:+ p) = unixPrefix +:+ p)%string as ->.
  { unfold trim_space, unixPrefix. change (trim_left ("UNIX:" +:+ p)) with ("UNIX:" +:+ p)%string.
    cbn [String.append]. do 5 (apply trim_right_cons; [|done]). done. }
  rewrite bool_decide_false by done. assert (str_take (String.length unixPrefix) (unixPrefix +:+ p) = unixPrefix) as ->.
  { unfold str_take, unixPrefix. simpl. by destruct p. }
  assert (str_drop (String.length unixPrefix) (unixPrefix +:+ p) = p) as ->.
  { unfold str_drop, unixPrefix. simpl. rewrite Nat.sub_0_r. apply substring_all. }
  assert (Nat.leb (String.length unixPrefix) (String.length (unixPrefix +:+ p)) = true) as -> by done.
  change (equal_fold unixPrefix unixPrefix) with true. simpl. by rewrite bool_decide_false.
Qed.

(** The canonical spelling of an address is read as that address. *)
Lemma muxaddr_roundtrip s ep : muxaddr_Parse s = Ok ep → ep ≠ NoEndpoint → muxaddr_Parse (endpoint_String ep) = Ok ep.
Proof.
  unfold muxaddr_Parse at 1. pose proof (trim_space_idem s) as Hid. set (t := trim_space s) in *.
  assert (trim_right t = t) as Ht by apply trim_right_idem.
  case_bool_decide as Hne; [by intros [= <-]|]. destruct (_ && equal_fold _ _) eqn:Hu.
  - case_bool_decide as Hp; [done|]. intros [= <-] _. apply unix_parses; [done|]. by apply str_drop_tail.
  - destruct (has_prefix t "/") eqn:Hs; [intros [= <-] _; by apply unix_parses|].
    destruct (SplitHostPort t) as [[host port]|] eqn:Hh; [|done]. destruct (_ || _) eqn:Hb; [done|]. intros [= <-] _.
    change (endpoint_String (TCPAddress t)) with t. unfold muxaddr_Parse. rewrite Hid, bool_decide_false, Hu, Hs, Hh, Hb; done.
Qed.

(** ** The configured muxers, their clients, and the group *)

(** An endpoint that an address was read as. *)
Definition canonical (ep : Endpoint) : Prop := muxaddr_Parse (endpoint_String ep) = Ok ep ∧ ep ≠ NoEndpoint.
Lemma canonical_eq a b : canonical a → canonical b → endpoint_String a = endpoint_String b → a = b.
Proof. intros [Ha _] [Hb _] E. congruence. Qed.
Lemma parsed_canonical s ep : muxaddr_Parse s = Ok ep → ep ≠ NoEndpoint → canonical ep.
Proof. intros H Hn. split; [by eapply muxaddr_roundtrip|done]. Qed.

Lemma clients_from_plan l : ∀ i eps eps' seen,
  Forall canonical eps → NoDup eps → (∀ a, a ∈ seen ↔ a ∈ endpoint_String <$> eps) → clients_from i eps l = Ok eps' →
  Forall canonical eps' ∧ NoDup eps' ∧ (∀ ep, ep ∈ eps → ep ∈ eps') ∧
  (∀ m, m ∈ l → ∃ ep, muxaddr_Parse (mc_Address m) = Ok ep ∧ ep ∈ eps') ∧ endpoint_String <$> eps' = (endpoint_String <$> eps) ++ plan_from seen l.
Proof.
  induction l as [|m l IH]; intros i eps eps' seen Hc Hnd Hseen; simpl.
  - intros [= <-]. split_and!; [done..| |by rewrite app_nil_r]. by intros m ?%not_elem_of_nil.
  - destruct (muxaddr_Parse (mc_Address m)) as [ep|e] eqn:Hm; [|done].
    destruct (decide (ep = NoEndpoint)) as [->|Hne]; [done|]. pose proof (parsed_canonical _ _ Hm Hne) as Hcan.
    assert (∀ A (x y : A), match ep with NoEndpoint => x | _ => y end = y) as Hgo by (intros; by destruct ep).
    assert (endpoint_String ep ∈ seen ↔ ep ∈ eps) as Hin.
    { rewrite Hseen, list_elem_of_fmap. split; [|by exists ep]. intros (y & Hy & Hyin). rewrite Forall_forall in Hc.
      by rewrite (canonical_eq ep y) by auto. }
    rewrite !Hgo. intros H. destruct (decide (ep ∈ eps)) as [Hd|Hd];
      [rewrite bool_decide_true in H by done; rewrite bool_decide_true by (by apply Hin)
      |rewrite bool_decide_false in H by done; rewrite bool_decide_false by (by rewrite Hin)].
    + destruct (IH _ _ _ seen Hc Hnd Hseen H) as (H1 & H2 & H3 & H4 & H5). split_and!; [done..| |done].
      intros m' [->|Hm']%elem_of_cons; [by exists ep; auto|auto].
    + destruct (IH (S i) (eps ++ [ep]) eps' ({[endpoint_String ep]} ∪ seen)) as (H1 & H2 & H3 & H4 & H5); [..|done|].
      { apply Forall_app. split; [done|]. by apply Forall_singleton. }
      { apply NoDup_app. split_and!; [done| |by apply NoDup_singleton]. by intros x Hx ->%list_elem_of_singleton. }
      { intros a. rewrite elem_of_union, elem_of_singleton, Hseen, fmap_app, elem_of_app. simpl. rewrite list_elem_of_singleton. naive_solver. }
      split_and!; [done..| | |].
      * intros x Hx. apply H3, elem_of_app. by left.
      * intros m' [->|Hm']%elem_of_cons; [|auto]. exists ep. split; [done|]. apply H3, elem_of_app. right. by apply list_elem_of_singleton.
      * by rewrite H5, fmap_app, <-app_assoc.
Qed.

Lemma add_all declared (f : string → option (bool * string)) l : ∀ g,
  foldl (λ g address, AddUnmanaged address declared (f address) g) g l =
  mkGroup (gr_sups g) (gr_unmanaged g ++ ((λ a, mkUnmanaged a declared (f a)) <$> l)) (gr_transports g).
Proof. induction l as [|a l IH]; intros [s u t]; simpl; [by rewrite app_nil_r|]. rewrite IH. simpl. by rewrite <-app_assoc. Qed.

Lemma dialer_found clients eps ep :
  Forall canonical eps → ep ∈ eps → dialerLookup clients eps (endpoint_String ep) = Some (Health (clients ep)).
Proof.
  unfold dialerLookup. intros Hc Hep. rewrite Forall_forall in Hc.
  assert (∃ l, filter (λ x, endpoint_String x = endpoint_String ep) eps = ep :: l) as [l ->]; [|done].
  destruct (filter (λ x, endpoint_String x = endpoint_String ep) eps) as [|y l] eqn:E.
  - assert (ep ∈ filter (λ x, endpoint_String x = endpoint_String ep) eps) as H by by apply list_elem_of_filter.
    rewrite E in H. by apply not_elem_of_nil in H.
  - assert (y ∈ filter (λ x, endpoint_String x = endpoint_String ep) eps) as H by (rewrite E; apply list_elem_of_here).
    apply list_elem_of_filter in H as [H Hy]. exists l. by rewrite (canonical_eq y ep) by auto.
Qed.

(** What is shown of a muxer that is dialed, from where its client is and how its last attempt ended. *)
Definition shown (declared : bool) (address : string) (c : Client) : muxer_state * string :=
  if holds (cl_place c) then (StateExternal, address +:+ " is served by an external muxer — quince does not own it")
  else match cl_last c with
       | None => (StateStarting, address +:+ " — no connection attempted yet")
       | Some e =>
           if declared then (StateUnreachable, address +:+ " is not answering: " +:+ e)
           else (StateAbsent, "nothing is listening at " +:+ address +:+ ", which is normal unless you expected a muxer there — quince tried it because it is a default, not because you configured it")
       end%string.

Lemma shown_status address declared c :
  client_inv c →
  unmanaged_status (mkUnmanaged address declared (Some (Health c))) =
    mkStatus address [] false (shown declared address c).1 (shown declared address c).2 false.
Proof.
  intros [H1 H2 H3 _ _ _ _]. unfold unmanaged_status, shown, Health. simpl. rewrite H1, H2. destruct (holds (cl_place c)); [done|].
  destruct (cl_last c) as [e|]; simpl; [|done]. rewrite bool_decide_false by congruence. by destruct declared.
Qed.

(** C30: health says of every configured muxer what its own connection is.  For any configuration whose
    clients were started, and whatever has happened to each of them: health lists each muxer once, under
    the address that the registry keeps its devices by; it is shown as served exactly while its client
    holds a connection, as starting exactly before a first attempt has ended, and otherwise, with the
    error of the last attempt, as unreachable if the operator wrote it down and as absent if it is a
    default; and with the transports on which the registry has devices of it. *)
Theorem muxers_health_exact `{!MapRange, !SortSlice} c eps (history : Endpoint → list client_event) r :
  buildClients (ResolvedMuxers c) = Ok eps → (∀ ep, Forall says_why (history ep)) →
  let clients ep := client_run (history ep) NewClient in
  let declared := bool_decide (is_Some (c_Muxers c)) in
  MuxersHealth c clients eps r =
    (λ ep, let address := endpoint_String ep in
           mkStatus address (TransportsForSource r address) false (shown declared address (clients ep)).1 (shown declared address (clients ep)).2 false)
    <$> eps ∧
  NoDup (endpoint_String <$> eps) ∧
  (∀ m, m ∈ ResolvedMuxers c → ∃ ep, muxaddr_Parse (mc_Address m) = Ok ep ∧ ep ∈ eps).
Proof.
  intros Hb Hs clients declared.
  destruct (clients_from_plan (ResolvedMuxers c) 0 [] eps ∅ (Forall_nil_2 _) NoDup_nil_2 ltac:(set_solver) Hb) as (Hc & Hnd & _ & Hall & Hplan).
  split_and!; [|by apply NoDup_fmap_2_strong; [|done]; rewrite Forall_forall in Hc; intros; apply canonical_eq; auto|done].
  unfold MuxersHealth, buildMuxerGroup, Statuses. simpl in *. rewrite add_all. simpl. rewrite <-Hplan, <-!list_fmap_compose.
  rewrite Forall_forall in Hc. apply list_fmap_ext. intros i ep Hi. simpl. apply list_elem_of_lookup_2 in Hi.
  rewrite (dialer_found clients eps ep) by (by rewrite ?Forall_forall).
  by rewrite shown_status by (apply client_inv_run; [done|apply client_new_inv]).
Qed.

#[local] Existing Instance some_order.
#[local] Existing Instance stable_sort.
Definition usb_only (ep : Endpoint) : list client_event :=
  if bool_decide (ep = UnixSocket DefaultMuxerAddress) then
    [ClLoop; DialSucceeds; ClTurn; ClTurn; RereadLooks; RereadCloses; EndOfStream (Some "use of closed network connection"%string); ClTurn;
     ClTurn; Pause; ClLoop; DialSucceeds; ClTurn]
  else [ClLoop; DialFails "connection refused"].
(** A default install with a muxer for USB only, which was read again. *)
Lemma muxers_health_exact_witness :
  ms_State <$> MuxersHealth Default (λ ep, client_run (usb_only ep) NewClient)
                 (match buildClients (ResolvedMuxers Default) with Ok eps => eps | Err _ => [] end) NewRegistry = [StateExternal; StateAbsent].
Proof.
  destruct (muxers_health_exact Default (match buildClients (ResolvedMuxers Default) with Ok eps => eps | Err _ => [] end) usb_only NewRegistry) as (H & _).
  - vm_compute. reflexivity.
  - intros ep. unfold usb_only. case_bool_decide; repeat constructor; done.
  - rewrite H. vm_compute. reflexivity.
Defined.
